(* ===== verification/_CoqProject ===== *)
-Q . S2P
Prelude.v
Zmalloc.v
Sds.v
SdsText.v
SdsSpec.v
LockFreeQueue.v
Crc32.v
Slice.v
EventLoop.v
Socket.v
TcpConnection.v
SignalingRequest.v
SignalingWorker.v
SignalingInv.v
SignalingServer.v
RtcWorker.v
RtcServer.v
RtcPipeline.v
RtcLiveness.v
Buffer.v
ByteIO.v
ByteBuffer.v
CowBuffer.v
TimeUtils.v
PriorityQueue.v
MessageQueue.v
ThreadManager.v
Base64.v
StringEncode.v
StringToNumber.v
IpAddress.v
StringBuilder.v
SocketAddress.v
Log.v
XrtcMain.v
SafeNumerics.v
Units.v
Clock.v
PhysicalSocket.v
PhysicalSocketInv.v
BufferQueue.v
Sigslot.v
SigslotEmit.v
MessageDigest.v
SslIdentity.v
SslStream.v
SslStreamInv.v
SslAdapter.v
SslAdapterInv.v
FieldTrial.v
RepeatingTask.v
Event.v
Sending.v
SendingInv.v
ThreadLife.v
Synchronization.v
Logging.v
Helpers.v
AsyncResolver.v
EventTracer.v
Checks.v
Identity.v
IdentitySpec.v
