(* ===== verification/Prelude.v ===== *)
(** * A verification development for xrtcserver

    xrtcserver is a media server: clients send requests over TCP to signaling
    workers, requests about streams travel to RTC workers, and the answers
    travel back. The program proper is xrtcserver/rtcserver/src; it stands on
    xrtcserver/rtcbase/src, an allocator and string library taken from redis
    and a part of the base library of WebRTC.

    ** The parts of the program and where they are modelled

    A file named without suffix stands for the header and its implementation.

    Foundations, rtcbase/src/rtc_base:
    - [Zmalloc]: the accounting allocator (zmalloc.cc), one definition per
      function, the blocks and [used_memory] as state; it implements the
      interface [Allocator].
    - [Sds], [SdsText], [SdsSpec]: dynamic strings (sds.h, sds.cc), written
      against [Allocator]; the receive and reply buffers of connections.
    - [Crc32], [Slice] (crc32.h, slice.h): routing by checksum, views.
    - [Buffer], [ByteIO], [ByteBuffer], [CowBuffer] (buffer.h, byte_order.h,
      byte_io.h, byte_buffer, copy_on_write_buffer, ref_counter.h, ref_counted_object.h,
      api/scoped_refptr.h): owned blocks, integers in memory, serialisation,
      shared blocks.
    - [TimeUtils] (time_utils, system_time), [PriorityQueue] (the heap
      algorithms as an interface), [MessageQueue] and [ThreadManager] (the
      queue and the send graph of thread.cc).
    - [Event] (event, null_socket_server, deprecated/recursive_critical_section),
      [Sending] and [SendingInv] (the blocking send of thread.cc, several threads
      that send to each other, each step of each thread a step of the system),
      [ThreadLife] (the life of a thread object, its system thread and the
      current thread) and [Synchronization] (platform_thread, and mutex and
      sequence_checker_internal under synchronization/).
    - [Base64], [StringEncode], [StringToNumber], [StringBuilder]
      (third_party/base64, string_encode, string_utils,
      string_to_number, strings/string_builder): texts.
    - [IpAddress], [SocketAddress] (ip_address, socket_address).
    - [SafeNumerics] (numerics/safe_conversions.h, safe_compare.h,
      safe_minmax.h), [Units] (units/unit_base.h, api/units) and [Clock]
      (system_wrappers: clock, ntp_time.h).
    - [PhysicalSocket], [PhysicalSocketInv] (physical_socket_server, socket.h):
      the sockets, the table of dispatchers and the descriptors the kernel
      polls, and the invariant that ties them together.
    - [BufferQueue] (buffer_queue): a bounded queue of packets that reuses its
      buffers.
    - [Sigslot], [SigslotEmit] (third_party/sigslot): signals, the objects with
      slots, and programs whose slots change the connections while a signal
      fires.
    - [MessageDigest] (message_digest, openssl_digest, ssl_fingerprint) and
      [SslIdentity] (ssl_identity): digests, HMACs, fingerprints, keys, PEM and
      the times of certificates.
    - [SslStream], [SslStreamInv] (openssl_stream_adapter, ssl_stream_adapter.h,
      stream.h): TLS and DTLS on a stream, with OpenSSL as the class [OpenSSL]
      of answers that depend on the history of calls, and the invariant of the
      adapter under every network, timer and program. [SslAdapter],
      [SslAdapterInv] (openssl_adapter, openssl_session_cache, async_socket): the
      same for TLS on a socket.
    - [Identity], [IdentitySpec] (openssl_key_pair, openssl_certificate,
      openssl_identity, ssl_certificate, rtc_certificate,
      rtc_certificate_generator): keys, certificates, chains and identities over
      a heap of reference counted OpenSSL objects, with OpenSSL as the class
      [CryptoLib]; a small logic of ownership ([code_spec]) for the code that
      makes and frees them, and the contents of what it makes and reads.
    - [FieldTrial] (system_wrappers: field_trial): the experiments of the process.
    - [Logging] (logging): the statements of the log, its sinks and settings.
    - [Checks] (checks), [EventTracer] (event_tracer, and the values of
      trace_event.h), [AsyncResolver] (async_resolver) and [Helpers] (helpers):
      what a failing check prints, the tracing thread and its file, name lookups
      that outlive their owner, random strings and identifiers.
    - [RepeatingTask] (task_utils): flags that drop tasks, and tasks that post
      themselves again.

    The server, rtcserver/src:
    - [LockFreeQueue] (base/Lock_Free_Queue.hpp): one producer, one consumer;
      implements the interface [Fifo].
    - [EventLoop] (base/event_loop): IO watchers and timers over libev, which
      is the class [LibEv] with the laws [LibEvSpec].
    - [Socket] (base/socket.cpp), [TcpConnection] (base/xhead.hpp,
      xrtcserver_def.hpp, server/tcp_connection).
    - [SignalingRequest], [SignalingWorker], [SignalingInv]
      (server/signaling_worker): framing of requests, the handlers, and the
      invariant they keep. [SignalingServer] (server/signaling_server)
      accepts connections and hands them to the workers in turn.
    - [RtcWorker], [RtcServer] (server/rtc_worker, rtc_server) and
      [RtcPipeline], which puts the signaling threads, the RTC server thread
      and the RTC worker threads together: a worker of the one side reaches
      the other through the interfaces [RtcPort] and [SignalingPort].
      [RtcLiveness] is the same system with pipes of bounded size and with the
      push of a message and its notification as separate steps.
    - [Log] (base/log) and [XrtcMain] (main.cpp, base/conf): the log with its
      writer thread and its file streams, and the program itself, which brings
      the configuration, the log and both servers up, registers the signals and
      joins both servers after one.

    ** How code becomes definitions

    A function of the code is a definition of the same name; overloads and
    methods of several classes get a prefix or suffix, and a loop a definition
    of its own. Fallible code returns [res]: a value, [Null] for a failed
    allocation, [Aborted] for a failed assertion, check or uncaught exception,
    [Undef] for behaviour the language leaves undefined (an access outside a
    block, a deleted object, a signed overflow that matters). What the kernel
    and the C library answer is an argument. Integers are [Z] with [uwrap] and
    [swrap] written where the code wraps; bytes are integers below 256 and
    memory is the list of the bytes of a block. The builds with and without
    [RTC_DCHECK] and hosts of either byte order are parameters where they
    matter. Code outside the repository is a class with its documented laws
    ([LibEv], [Json], [StdHeap], [InetText], [EVP], [OpenSSL], [TlsLib], [CryptoLib]), each with
    an instance.

    ** What the theorems show

    - Requests ([SignalingRequest], [SignalingInv], [SignalingServer]): a
      request is dispatched once however the network cuts it, a bad header is
      refused, the table of connections stays consistent in every state reached
      from start to stop and no handler misbehaves, replies go out in order,
      idle connections are closed, connections are spread round robin. The
      events are those of [event_ok], which excludes what the code does not
      survive; a callback returns, or is in one of the two loops that need not
      end, parsing and writing. An answer goes to the connection that now has
      the address and descriptor of the request; [stale_answer] shows that it
      may be a later one.
    - Answers ([LockFreeQueue], [RtcPipeline], [RtcLiveness]): the queue is a
      FIFO under every interleaving and touches no freed node; requests are
      answered at most once and in order per stream; with pipes that hold [cap]
      notifications all are answered while fewer than [3 * cap + 3] are on their
      way, and [circle_closes] is a deadlock with that many; stopping drains what
      reached a worker.
    - The loop and the sockets ([EventLoop], [Socket]).
    - Memory and strings ([Zmalloc], [SdsSpec], [Buffer], [CowBuffer]): the
      accounting is exact, strings and buffers refine sequences of bytes, and
      sharing is invisible to programs within [val_pre].
    - Threads ([MessageQueue], [ThreadManager]): no message is lost or
      duplicated, [Get] gives the right one and does not oversleep, a quitting
      thread that nobody disturbs drains what is due, and the send graph stops
      exactly the sends that would deadlock.
      Repeating tasks ([RepeatingTask]) do not drift and stop for good.
      A blocking send runs its work exactly once and returns, also when threads
      send to each other ([SendingInv]); a thread object and its system thread
      stay consistent from start to stop, in builds with and without checks, when
      the calls follow [life_op_ok] ([ThreadLife]); a wait on an event ends
      exactly when it should ([Event]); locks exclude and a sequence checker
      accepts one sequence ([Synchronization]).
    - Watching the program ([Logging], [EventTracer], [Checks]): a message reaches
      exactly the sinks that asked for it, and through them the files of the
      server, as long as every write succeeds and the log is not stopped (a
      stream that failed once writes no more); a trace file holds every event of its capture once and in order,
      and stopping a capture ends; a comparison check fails exactly when the
      numbers do not compare so.
    - Lookups and randomness ([AsyncResolver], [Helpers]): results are reported
      once, in the order in which the lookups end, to an owner that still exists
      and that makes no call between the halves of a task; random strings use every character
      equally often, and the identifiers are the version 4 UUIDs.
    - The whole program ([XrtcMain], [Log]): main serves exactly when every
      part came up, the servers it starts are the ones the theorems above
      assume when the configured numbers of workers are positive, and SIGINT or
      SIGTERM at idle servers stops and joins both; what is logged is written
      once and in order.
    - The socket server ([PhysicalSocketInv]): in every history the kernel polls
      each open socket for exactly the events it asks for, no late event reaches
      another socket, and a wake-up ends the wait.
    - Events and packets ([SigslotEmit], [BufferQueue]): firing a signal touches
      nothing that was deleted as long as the operations of its slots are
      [allowed], and calls each connected slot once when they are [quiet]; the
      buffer queue refines a bounded queue of byte strings.
    - Who is talked to ([SslStreamInv], [SslAdapterInv], [MessageDigest],
      [SslIdentity]): data goes through the TLS stream only to and from the peer
      whose certificate has the signaled digest, and through the TLS socket only
      in sessions whose certificate passed the check, and then once and in order;
      no call of either fails a check. The examples of [SslAdapterInv] show how a
      failed handshake ends in clear text; HMACs are those of RFC 2104, PEM texts are read back, and times
      are those of the calendar.
    - Keys and certificates ([Identity], [IdentitySpec]): whatever OpenSSL
      answers, no freed object is used and none is leaked; a generated identity
      is self-signed and valid as long as was asked; a chain is read in full or
      refused, up to a stale error in the queue of OpenSSL.
    - Numbers and time ([SafeNumerics], [Units], [Clock]): comparisons, minimum,
      maximum and clamp across integer types are exact in the types computed
      for them; time arithmetic is that of the integers with two infinities.
    - Formats ([Crc32], [TcpConnection], [ByteIO], [ByteBuffer], [SdsSpec],
      [Base64], [StringEncode], [StringToNumber], [TimeUtils], [IpAddress],
      [SocketAddress], [FieldTrial]): what is written is read back, and what is accepted is
      what the format says.

    ** Fuel and bounds

    Loops that are not structural take fuel, and the theorems prove that the
    fuel given by the calling definition is enough: the length of the data
    where each turn consumes a byte ([EncodeFromArray], [hex_decode_loop],
    [decode_loop]), the number of queued elements, 20 digits for a 64-bit
    number. Running out is [Undef], so that it can never pass for success.
    Where a loop of the code need not end ([process_query_buffer]) it is a
    relation or a turn function, and non-termination is itself a theorem.
    Sizes are bounded by hypotheses such as [length * 3 < 2 ^ 64] only where the
    code computes in a machine word.

    ** Not modelled

    The tables of ciphers and root certificates, the BoringSSL variants, most macros of trace_event.h, floating
    point, what yaml-cpp does to read a file, the Windows, Mac and Android code,
    the Go web server in signaling/, and the vendored and generated files. The
    memory model of the concurrent parts is sequential consistency. *)

From Stdlib Require Export ZArith Lia.
From stdpp Require Export base numbers gmap strings option.
From stdpp Require Export list.

(** ** Scopes and automation *)

Declare Scope rtc_scope.
Delimit Scope rtc_scope with rtc.
#[global] Open Scope Z_scope.

Create HintDb rtc.

(** Split every conjunction and existential of the context. *)
Ltac split_ctx :=
  repeat match goal with
  | H : _ ∧ _ |- _ => destruct H
  | H : ∃ _, _ |- _ => destruct H
  end.

(** Case analysis on the scrutinee of every [match] and [if] of the goal,
    keeping the equations. *)
Ltac case_all :=
  repeat match goal with
  | |- context [match ?x with _ => _ end] => destruct x eqn:?
  end.

(** Turn boolean comparisons on [Z] in the context into propositions. *)
Ltac reflect_Z :=
  repeat match goal with
  | H : (_ && _)%bool = true |- _ => apply andb_true_iff in H as [? ?]
  | H : (_ || _)%bool = false |- _ => apply orb_false_iff in H as [? ?]
  | H : (_ <=? _) = true |- _ => apply Z.leb_le in H
  | H : (_ <=? _) = false |- _ => apply Z.leb_gt in H
  | H : (_ <? _) = true |- _ => apply Z.ltb_lt in H
  | H : (_ <? _) = false |- _ => apply Z.ltb_ge in H
  | H : (_ =? _) = true |- _ => apply Z.eqb_eq in H
  | H : (_ =? _) = false |- _ => apply Z.eqb_neq in H
  end.

(** Arithmetic with the lengths of lists pushed through the list operations. *)
Ltac len_solve :=
  repeat rewrite ?length_app, ?length_take, ?length_drop, ?length_replicate,
    ?length_insert, ?length_fmap, ?length_reverse, ?length_seq in *;
  simpl length in *; lia.

Lemma take_length_take {T} m (l : list T) : take (length (take m l)) l = take m l.
Proof.
  rewrite length_take. destruct (decide (m ≤ length l)%nat).
  - by rewrite Nat.min_l by lia.
  - by rewrite Nat.min_r, !take_ge by lia.
Qed.

(** ** Machine integers

    A [w]-bit unsigned value is a [Z] reduced modulo [2 ^ w]; the signed
    conversions are the usual two's complement reinterpretation. *)

Definition uwrap (w : Z) (z : Z) : Z := z `mod` 2 ^ w.
Definition swrap (w : Z) (z : Z) : Z := (z + 2 ^ (w - 1)) `mod` 2 ^ w - 2 ^ (w - 1).

Notation u8 := (uwrap 8).
Notation u16 := (uwrap 16).
Notation u32 := (uwrap 32).
Notation u64 := (uwrap 64).
Notation s8 := (swrap 8).
Notation s16 := (swrap 16).
Notation s32 := (swrap 32).
Notation s64 := (swrap 64).

Definition INT_MAX : Z := 2147483647.
Definition INT_MIN : Z := -2147483648.

Lemma uwrap_small w z : 0 ≤ z < 2 ^ w → uwrap w z = z.
Proof. apply Z.mod_small. Qed.

Lemma uwrap_range w z : 0 ≤ w → 0 ≤ uwrap w z < 2 ^ w.
Proof. intros; apply Z.mod_pos_bound; lia. Qed.

Lemma uwrap_idemp w z : 0 ≤ w → uwrap w (uwrap w z) = uwrap w z.
Proof. intros; apply uwrap_small, uwrap_range; lia. Qed.

Lemma swrap_small w z : 0 < w → - 2 ^ (w - 1) ≤ z < 2 ^ (w - 1) → swrap w z = z.
Proof.
  intros Hw Hz. unfold swrap. rewrite Z.mod_small; [lia|].
  replace (2 ^ w) with (2 * 2 ^ (w - 1)); [lia|].
  rewrite <- Z.pow_succ_r by lia. f_equal; lia.
Qed.

Lemma swrap_range w z : 0 < w → - 2 ^ (w - 1) ≤ swrap w z < 2 ^ (w - 1).
Proof.
  intros Hw. unfold swrap.
  assert (2 ^ w = 2 * 2 ^ (w - 1)) as E by (rewrite <- Z.pow_succ_r by lia; f_equal; lia).
  pose proof (Z.mod_pos_bound (z + 2 ^ (w - 1)) (2 ^ w)). lia.
Qed.

Lemma s32_small z : INT_MIN ≤ z ≤ INT_MAX → s32 z = z.
Proof. unfold INT_MIN, INT_MAX; intros; apply swrap_small; lia. Qed.

Lemma u64_small z : 0 ≤ z < 18446744073709551616 → u64 z = z.
Proof. intros; apply uwrap_small; lia. Qed.

Lemma u32_small z : 0 ≤ z < 4294967296 → u32 z = z.
Proof. intros; apply uwrap_small; lia. Qed.

Lemma u8_small z : 0 ≤ z < 256 → u8 z = z.
Proof. intros; apply uwrap_small; lia. Qed.

(** Remove the wrap-around of every value that provably fits its width. *)
Ltac unwrap :=
  repeat first
    [ rewrite s32_small by (unfold INT_MIN, INT_MAX in *; len_solve)
    | rewrite u64_small by len_solve
    | rewrite u32_small by len_solve
    | rewrite u8_small by len_solve ].

(** ** Bytes *)

Definition byte_ok (b : Z) : Prop := 0 ≤ b < 256.
Definition bytes_ok (bs : list Z) : Prop := Forall byte_ok bs.

#[global] Instance byte_ok_dec b : Decision (byte_ok b).
Proof. unfold byte_ok; apply _. Defined.
#[global] Instance bytes_ok_dec bs : Decision (bytes_ok bs).
Proof. unfold bytes_ok; apply _. Defined.

Lemma bytes_ok_app xs ys : bytes_ok (xs ++ ys) ↔ bytes_ok xs ∧ bytes_ok ys.
Proof. apply Forall_app. Qed.

Lemma bytes_ok_take n xs : bytes_ok xs → bytes_ok (take n xs).
Proof. apply Forall_take. Qed.

Lemma bytes_ok_drop n xs : bytes_ok xs → bytes_ok (drop n xs).
Proof. apply Forall_drop. Qed.

Lemma byte_ok_u8 z : byte_ok (u8 z).
Proof. apply (uwrap_range 8); lia. Qed.

#[export] Hint Resolve bytes_ok_take bytes_ok_drop byte_ok_u8 : rtc.

(** Goals [bytes_ok [b0; ...; bn]] and the like on explicit lists. *)
Ltac solve_bytes :=
  unfold bytes_ok, byte_ok in *;
  repeat first [apply Forall_cons_2 | apply Forall_nil_2]; first [assumption | lia].

(** The bytes of a string literal, [char]s seen as unsigned. *)
Definition bytes_of_string (s : string) : list Z :=
  (λ a, Z.of_N (Ascii.N_of_ascii a)) <$> String.list_ascii_of_string s.

Notation "b# s" := (bytes_of_string s) (at level 9, s at level 9, format "b# s") : rtc_scope.

(** ** Raw memory

    A block of memory is the list of its bytes (or elements). A read or write that leaves
    the block is undefined behaviour of the program and is [None]. *)

Definition mread {T} (m : list T) (off n : Z) : option (list T) :=
  if (0 <=? off) && (0 <=? n) && (off + n <=? Z.of_nat (length m))
  then Some (take (Z.to_nat n) (drop (Z.to_nat off) m)) else None.

Definition mwrite {T} (m : list T) (off : Z) (src : list T) : option (list T) :=
  if (0 <=? off) && (off + Z.of_nat (length src) <=? Z.of_nat (length m))
  then Some (take (Z.to_nat off) m ++ src ++ drop (Z.to_nat off + length src) m) else None.

Lemma mread_app {T} (pre : list T) (mid : list T) (post : list T) off n :
  off = Z.of_nat (length pre) → n = Z.of_nat (length mid) →
  mread (pre ++ mid ++ post) off n = Some mid.
Proof.
  intros -> ->. unfold mread.
  rewrite (proj2 (Z.leb_le _ _)), (proj2 (Z.leb_le _ _)), (proj2 (Z.leb_le _ _)) by len_solve.
  simpl. f_equal. rewrite !Nat2Z.id, drop_app_length, take_app_length. done.
Qed.

Lemma mread_prefix {T} (mid : list T) (post : list T) n :
  n = Z.of_nat (length mid) → mread (mid ++ post) 0 n = Some mid.
Proof. intros. by apply (mread_app [] mid post). Qed.

(** A read inside a prefix does not see what follows it. *)
Lemma mread_app_l {T} (xs : list T) (ys : list T) off n :
  off + n ≤ Z.of_nat (length xs) → mread (xs ++ ys) off n = mread xs off n.
Proof.
  intros H. unfold mread. rewrite length_app.
  destruct (Z.leb_spec 0 off); [|done]. destruct (Z.leb_spec 0 n); [|done].
  rewrite !(proj2 (Z.leb_le (off + n) _)) by lia. simpl. f_equal.
  rewrite drop_app_le by lia. apply take_app_le. len_solve.
Qed.

Lemma mwrite_app {T} (pre : list T) (old : list T) (post : list T) (src : list T) off :
  off = Z.of_nat (length pre) → length old = length src →
  mwrite (pre ++ old ++ post) off src = Some (pre ++ src ++ post).
Proof.
  intros -> Hl. unfold mwrite.
  rewrite (proj2 (Z.leb_le _ _)), (proj2 (Z.leb_le _ _)) by len_solve.
  simpl. f_equal. rewrite Nat2Z.id, take_app_length. f_equal. f_equal.
  rewrite drop_app_ge, drop_app_ge by lia.
  replace (_ - _ - _)%nat with 0%nat by lia. apply drop_0.
Qed.

Lemma mwrite_front {T} (m : list T) (d : list T) : (length d ≤ length m)%nat → mwrite m 0 d = Some (d ++ drop (length d) m).
Proof.
  intros Hl. rewrite <- (take_drop (length d) m) at 1.
  by apply (mwrite_app [] (take (length d) m)); [|len_solve].
Qed.

Lemma mread_take {T} (m : list T) n : 0 ≤ n ≤ Z.of_nat (length m) → mread m 0 n = Some (take (Z.to_nat n) m).
Proof.
  intros Hn. unfold mread.
  rewrite (proj2 (Z.leb_le _ _)), (proj2 (Z.leb_le _ _)), (proj2 (Z.leb_le _ _)) by lia. done.
Qed.

Lemma mwrite_inv {T} (m : list T) off (src : list T) (m' : list T) :
  mwrite m off src = Some m' →
  0 ≤ off ∧ off + Z.of_nat (length src) ≤ Z.of_nat (length m) ∧ length m' = length m.
Proof.
  unfold mwrite. destruct (_ && _)%bool eqn:E; intros [= <-]. reflect_Z.
  split_and!; [lia|lia|]. len_solve.
Qed.

(** ** Results of C functions

    A C function returns a value, returns the null pointer, ends the process
    (a failed [assert] or [RTC_CHECK]) or has undefined behaviour. [mbind_res]
    is the early return on everything but a value. *)

Inductive res (A : Type) :=
  | Val (a : A)
  | Null
  | Aborted
  | Undef.
Arguments Val {_} _.
Arguments Null {_}.
Arguments Aborted {_}.
Arguments Undef {_}.

Definition mbind_res {A B} (f : A → res B) (m : res A) : res B :=
  match m with Val a => f a | Null => Null | Aborted => Aborted | Undef => Undef end.

Notation "'let*' x := m 'in' k" := (mbind_res (λ x, k) m)
  (at level 200, x name, m at level 100, k at level 200) : rtc_scope.
Notation "'let*' ' p := m 'in' k" := (mbind_res (λ p, k) m)
  (at level 200, p strict pattern, m at level 100, k at level 200) : rtc_scope.
#[global] Open Scope rtc_scope.

(** A computation with a value has values at every step. *)
Lemma bind_Val {A B} (f : A → res B) m b : mbind_res f m = Val b → ∃ a, m = Val a ∧ f a = Val b.
Proof. destruct m; simpl; [eauto|done..]. Qed.

Ltac inv_bind H :=
  let a := fresh "a" in let Ha := fresh "Ha" in
  apply bind_Val in H as (a & Ha & H).

(** An out-of-range access is undefined; a failed allocation is null. *)
Definition of_mem {A} (o : option A) : res A := match o with Some a => Val a | None => Undef end.
Definition of_alloc {A} (o : option A) : res A := match o with Some a => Val a | None => Null end.
Definition c_assert (b : bool) : res unit := if b then Val () else Aborted.

(** [strlen]: the offset of the first NUL of a block. *)
Fixpoint strlen (m : list Z) : option Z :=
  match m with
  | [] => None
  | b :: m => if b =? 0 then Some 0 else Z.succ <$> strlen m
  end.

Lemma strlen_app cs m : Forall (λ c, c ≠ 0) cs → strlen (cs ++ 0 :: m) = Some (Z.of_nat (length cs)).
Proof.
  induction 1 as [|c cs Hc _ IH]; [done|]. simpl. rewrite (proj2 (Z.eqb_neq _ _)) by done.
  rewrite IH. simpl. f_equal. lia.
Qed.

(** The sign of [memcmp] on blocks of the same length, and its
    lexicographic reading. *)
Fixpoint memcmp (xs ys : list Z) : Z :=
  match xs, ys with
  | x :: xs, y :: ys => if x <? y then -1 else if y <? x then 1 else memcmp xs ys
  | _, _ => 0
  end.

Lemma memcmp_eq xs ys : length xs = length ys → memcmp xs ys = 0 ↔ xs = ys.
Proof.
  revert ys; induction xs as [|x xs IH]; intros [|y ys] Hl; simplify_eq/=; [done|].
  destruct (Z.ltb_spec x y); [split; [done|intros [=]; lia]|].
  destruct (Z.ltb_spec y x); [split; [done|intros [=]; lia]|].
  rewrite IH by done. split; [intros ->; f_equal; lia|by intros [=]].
Qed.

(** The lexicographic order a comparison of two byte strings decides: the
    first difference, or else the lengths. *)
Fixpoint lex_compare (xs ys : list Z) : comparison :=
  match xs, ys with
  | [], [] => Eq
  | [], _ => Lt
  | _, [] => Gt
  | x :: xs, y :: ys => match x ?= y with Eq => lex_compare xs ys | c => c end
  end.

(** Comparing the common length first and then the lengths is [lex_compare]. *)
Lemma memcmp_lex xs ys n :
  n = (length xs `min` length ys)%nat →
  lex_compare xs ys =
    match memcmp (take n xs) (take n ys) ?= 0 with
    | Eq => Z.of_nat (length xs) ?= Z.of_nat (length ys)
    | c => c
    end.
Proof.
  revert ys n; induction xs as [|x xs IH]; intros [|y ys] n ->; try done.
  cbn [lex_compare length Nat.min take memcmp]. destruct (Z.compare_spec x y) as [->|H|H].
  - rewrite Z.ltb_irrefl. rewrite (IH ys _ eq_refl). case_match; [|done..].
    rewrite !Nat2Z.inj_succ, <- !Z.add_1_l, Z.add_compare_mono_l. done.
  - by rewrite (proj2 (Z.ltb_lt x y)).
  - by rewrite (proj2 (Z.ltb_ge x y)), (proj2 (Z.ltb_lt y x)) by lia.
Qed.

Lemma lex_compare_eq xs ys : lex_compare xs ys = Eq ↔ xs = ys.
Proof.
  revert ys; induction xs as [|x xs IH]; intros [|y ys]; simpl; try done.
  destruct (Z.compare_spec x y) as [->|H|H].
  - rewrite IH. naive_solver.
  - split; [done|intros [=]; lia].
  - split; [done|intros [=]; lia].
Qed.

(** ** Fixed-width encodings *)

Fixpoint le_encode (n : nat) (z : Z) : list Z :=
  match n with
  | O => []
  | S n => z `mod` 256 :: le_encode n (z `div` 256)
  end.

Fixpoint le_decode (bs : list Z) : Z :=
  match bs with
  | [] => 0
  | b :: bs => b + 256 * le_decode bs
  end.

Definition be_encode (n : nat) (z : Z) : list Z := reverse (le_encode n z).
Definition be_decode (bs : list Z) : Z := le_decode (reverse bs).

Lemma length_le_encode n z : length (le_encode n z) = n.
Proof. revert z; induction n; intros; simpl; auto. Qed.

Lemma length_be_encode n z : length (be_encode n z) = n.
Proof. unfold be_encode. by rewrite length_reverse, length_le_encode. Qed.

Lemma le_encode_bytes n z : bytes_ok (le_encode n z).
Proof.
  revert z; induction n; intros; simpl; constructor; [|apply IHn].
  apply Z.mod_pos_bound; lia.
Qed.

Lemma le_decode_encode n z : le_decode (le_encode n z) = z `mod` 2 ^ (8 * Z.of_nat n).
Proof.
  revert z; induction n as [|n IH]; intros z; [by rewrite Z.mod_1_r|].
  cbn [le_encode le_decode]. rewrite IH.
  replace (8 * Z.of_nat (S n)) with (8 + 8 * Z.of_nat n) by lia.
  rewrite Z.pow_add_r by lia. change (2 ^ 8) with 256.
  rewrite Z.rem_mul_r by lia. lia.
Qed.

Lemma le_decode_bound bs : bytes_ok bs → 0 ≤ le_decode bs < 2 ^ (8 * Z.of_nat (length bs)).
Proof.
  induction 1 as [|b bs Hb _ IH]; cbn [le_decode length]; [lia|].
  replace (8 * Z.of_nat (S (length bs))) with (8 + 8 * Z.of_nat (length bs)) by lia.
  rewrite Z.pow_add_r by lia. change (2 ^ 8) with 256. unfold byte_ok in Hb. lia.
Qed.

Lemma le_encode_decode n bs : bytes_ok bs → length bs = n → le_encode n (le_decode bs) = bs.
Proof.
  intros H <-. induction H as [|b bs Hb _ IH]; [done|]. unfold byte_ok in Hb.
  cbn [le_decode length le_encode].
  replace (b + 256 * le_decode bs) with (b + le_decode bs * 256) by lia.
  rewrite Z.mod_add, Z.div_add, Z.mod_small, Z.div_small by lia. by rewrite Z.add_0_l, IH.
Qed.

Lemma be_decode_encode n z : be_decode (be_encode n z) = z `mod` 2 ^ (8 * Z.of_nat n).
Proof. unfold be_decode, be_encode. by rewrite reverse_involutive, le_decode_encode. Qed.

Lemma be_encode_decode n bs : bytes_ok bs → length bs = n → be_encode n (be_decode bs) = bs.
Proof.
  intros H Hn. unfold be_encode, be_decode.
  rewrite le_encode_decode; [apply reverse_involutive| |by rewrite length_reverse].
  by apply Forall_reverse.
Qed.

Lemma be_encode_bytes n z : bytes_ok (be_encode n z).
Proof. apply Forall_reverse, le_encode_bytes. Qed.

#[export] Hint Resolve le_encode_bytes be_encode_bytes : rtc.
#[export] Hint Rewrite length_le_encode length_be_encode : rtc.

#[global] Arguments le_encode : simpl never.
#[global] Arguments le_decode : simpl never.
#[global] Arguments uwrap : simpl never.
#[global] Arguments swrap : simpl never.
#[global] Arguments Z.land : simpl never.
#[global] Arguments Z.lor : simpl never.
#[global] Arguments Z.shiftl : simpl never.
#[global] Arguments Z.shiftr : simpl never.

(** ** Arrays of characters *)

(** [data[i]] and [result[ix] = ch]. *)
Definition byte_at (data : list Z) (i : Z) : res Z := of_mem (if 0 <=? i then data !! Z.to_nat i else None).
Definition set_char (ix ch : Z) (result : list Z) : res (list Z) := of_mem (mwrite result ix [ch]).

Lemma set_char_at k ch pre post :
  (k < length post)%nat → set_char (Z.of_nat (length pre) + Z.of_nat k) ch (pre ++ post) = Val (pre ++ <[k := ch]> post).
Proof.
  intros H. unfold set_char.
  replace (pre ++ post) with ((pre ++ take k post) ++ [post !!! k] ++ drop (S k) post).
  - rewrite mwrite_app; [|len_solve|done]. simpl. by rewrite (insert_take_drop post) , <- app_assoc.
  - rewrite <- app_assoc. f_equal. simpl. rewrite <- drop_S by by apply list_lookup_lookup_total_lt. apply take_drop.
Qed.

Lemma byte_at_app pre b post k :
  post !! k = Some b → byte_at (pre ++ post) (Z.of_nat (length pre) + Z.of_nat k) = Val b.
Proof.
  intros H. unfold byte_at. rewrite (proj2 (Z.leb_le _ _)) by lia.
  rewrite lookup_app_r by lia. by replace (_ - _)%nat with k by lia; rewrite H.
Qed.

(** ** Proof by exhaustion *)

Lemma below_forall n (f : Z → bool) : forallb f (seqZ 0 n) = true → ∀ x, 0 ≤ x < n → f x = true.
Proof. intros H x Hx. rewrite List.forallb_forall in H. apply H, list_elem_of_In, elem_of_seqZ. lia. Qed.

Lemma below_forall2 n m (f : Z → Z → bool) :
  forallb (λ x, forallb (f x) (seqZ 0 m)) (seqZ 0 n) = true → ∀ x y, 0 ≤ x < n → 0 ≤ y < m → f x y = true.
Proof. intros H x y Hx Hy. exact (below_forall m _ (below_forall n _ H x Hx) y Hy). Qed.

Ltac exhaust1 n x H := apply Z.eqb_eq; revert x H; apply (below_forall n); vm_compute; reflexivity.
Ltac exhaust2 n m x y H H' := apply Z.eqb_eq; revert x y H H'; apply (below_forall2 n m); vm_compute; reflexivity.

(** Goals on quotients and remainders by constants. *)
Ltac div_solve := Z.to_euclidean_division_equations; lia.

(** A shifted number and one below the shift have no bit in common. *)
Lemma lor_add_disjoint a b k : 0 ≤ k → 0 ≤ b < 2 ^ k → Z.lor (a * 2 ^ k) b = a * 2 ^ k + b.
Proof.
  intros Hk Hb. assert (Z.land (a * 2 ^ k) b = 0) as H0.
  { apply Z.bits_inj'. intros i Hi. rewrite Z.land_spec, Z.bits_0. destruct (Z.ltb_spec i k) as [Hl|Hl].
    - by rewrite Z.mul_pow2_bits_low.
    - rewrite <- (Z.mod_small b (2 ^ k)), Z.testbit_mod_pow2 by lia. rewrite (proj2 (Z.ltb_ge i k)) by lia. apply andb_false_r. }
  rewrite <- Z.lxor_lor by done. symmetry. by apply Z.add_nocarry_lxor.
Qed.
