(* ===== verification/Zmalloc.v ===== *)
(** * The accounting allocator (rtc_base/zmalloc.cc)

    Every block carries a [PREFIX_SIZE]-byte header that records the size the
    caller asked for, and the global [used_memory] sums the padded sizes of
    the live blocks. The libc allocator is an input of each operation: the
    address it returned (none for a failure) and the indeterminate bytes of
    the fresh block. The build modelled is the libc one of Linux
    ([HAVE_MALLOC_SIZE] undefined, [sizeof(size_t) = sizeof(long) = 8]).

    The file ends with the interface [Allocator] the string library of
    [Sds] is written against, and its implementation by these operations. *)

From S2P Require Import Prelude.

Definition PREFIX_SIZE : Z := 8.

(** What libc answers to one request: [None] is a null pointer. *)
Definition libc_answer : Type := option (Z * list Z).

Record zstate := ZState {
  heap : gmap Z (list Z);          (* live libc blocks, by address *)
  used_memory : Z;
  zmalloc_thread_safe : bool;
  zmalloc_oom_handler : Z → bool   (* whether the handler returns *)
}.

(** An operation finishes, kills the process ([abort] in the out-of-memory
    handler) or has undefined behaviour. *)
Inductive zres (A : Type) :=
  | ZOk (a : A)
  | ZAbort
  | ZUndef.
Arguments ZOk {_} _.
Arguments ZAbort {_}.
Arguments ZUndef {_}.

Definition set_heap (h : gmap Z (list Z)) (st : zstate) : zstate :=
  ZState h (used_memory st) (zmalloc_thread_safe st) (zmalloc_oom_handler st).
Definition set_used (u : Z) (st : zstate) : zstate :=
  ZState (heap st) u (zmalloc_thread_safe st) (zmalloc_oom_handler st).

(** [if (_n&(sizeof(long)-1)) _n += sizeof(long)-(_n&(sizeof(long)-1))] *)
Definition pad_long (n : Z) : Z :=
  if Z.land n 7 =? 0 then n else u64 (n + (8 - Z.land n 7)).

(** Both branches of the macros (locked or not) add the same amount. *)
Definition update_zmalloc_stat_add (n : Z) (st : zstate) : zstate :=
  set_used (u64 (used_memory st + n)) st.
Definition update_zmalloc_stat_sub (n : Z) (st : zstate) : zstate :=
  set_used (u64 (used_memory st - n)) st.

Definition update_zmalloc_stat_alloc (n : Z) (st : zstate) : zstate :=
  let n' := pad_long n in
  if zmalloc_thread_safe st then update_zmalloc_stat_add n' st
  else set_used (u64 (used_memory st + n')) st.

Definition update_zmalloc_stat_free (n : Z) (st : zstate) : zstate :=
  let n' := pad_long n in
  if zmalloc_thread_safe st then update_zmalloc_stat_sub n' st
  else set_used (u64 (used_memory st - n')) st.

(** The default handler prints the size and aborts: it never returns. *)
Definition zmalloc_default_oom (_ : Z) : bool := false.

Definition zinit : zstate := ZState ∅ 0 false zmalloc_default_oom.

Definition oom {A} (st : zstate) (size : Z) : zres A :=
  if zmalloc_oom_handler st size then ZUndef (* the null pointer is written *) else ZAbort.

(** [*((size_t* )ptr) = size] on the first bytes of the block. *)
Definition write_prefix (b : list Z) (size : Z) : option (list Z) :=
  mwrite b 0 (le_encode 8 size).
Definition read_prefix (b : list Z) : option Z :=
  le_decode <$> mread b 0 8.

(** libc hands out a block of the size asked, at a fresh non-null address. *)
Definition libc_malloc (n : Z) (ans : libc_answer) (st : zstate) : option (Z * list Z) :=
  match ans with
  | Some (p, g) =>
      if bool_decide (heap st !! p = None ∧ p ≠ 0 ∧ Z.of_nat (length g) = n ∧ bytes_ok g)
      then Some (p, g) else None
  | None => None
  end.

Definition finish_alloc (p : Z) (b : list Z) (size stat : Z) (st : zstate) : zres (Z * zstate) :=
  match write_prefix b size with
  | Some b' => ZOk (p + PREFIX_SIZE, update_zmalloc_stat_alloc stat (set_heap (<[p:=b']> (heap st)) st))
  | None => ZUndef
  end.

Definition zmalloc (ans : libc_answer) (size : Z) (st : zstate) : zres (Z * zstate) :=
  match libc_malloc (u64 (size + PREFIX_SIZE)) ans st with
  | None => oom st size
  | Some (p, g) => finish_alloc p g size (u64 (size + PREFIX_SIZE)) st
  end.

(** [calloc(1, n)] zeroes the block. *)
Definition zcalloc (ans : libc_answer) (size : Z) (st : zstate) : zres (Z * zstate) :=
  match libc_malloc (u64 (size + PREFIX_SIZE)) ans st with
  | None => oom st size
  | Some (p, g) =>
      finish_alloc p (replicate (length g) 0) size (u64 (size + PREFIX_SIZE)) st
  end.

(** [realloc] keeps the bytes of the old block up to the smaller size. *)
Definition libc_realloc (old g : list Z) : list Z :=
  take (length g) old ++ drop (length old) g.

Definition zrealloc (ptr : Z) (ans : libc_answer) (size : Z) (st : zstate) : zres (Z * zstate) :=
  if ptr =? 0 then zmalloc ans size st
  else
    let realptr := ptr - PREFIX_SIZE in
    match heap st !! realptr with
    | None => ZUndef
    | Some old =>
        match read_prefix old with
        | None => ZUndef
        | Some oldsize =>
            let st1 := set_heap (delete realptr (heap st)) st in
            match libc_malloc (u64 (size + PREFIX_SIZE)) ans st1 with
            | None => oom st size
            | Some (p, g) =>
                finish_alloc p (libc_realloc old g) size size
                  (update_zmalloc_stat_free oldsize st1)
            end
        end
    end.

Definition zmalloc_size (ptr : Z) (st : zstate) : option Z :=
  b ← heap st !! (ptr - PREFIX_SIZE);
  size ← read_prefix b;
  Some (u64 (pad_long size + PREFIX_SIZE)).

Definition zfree (ptr : Z) (st : zstate) : zres zstate :=
  if ptr =? 0 then ZOk st
  else
    let realptr := ptr - PREFIX_SIZE in
    match heap st !! realptr with
    | None => ZUndef
    | Some b =>
        match read_prefix b with
        | None => ZUndef
        | Some oldsize =>
            ZOk (set_heap (delete realptr (heap st))
                   (update_zmalloc_stat_free (u64 (oldsize + PREFIX_SIZE)) st))
        end
    end.

Definition zstrdup (ans : libc_answer) (s : list Z) (st : zstate) : zres (Z * zstate) :=
  match strlen s with
  | None => ZUndef
  | Some l =>
      match zmalloc ans (u64 (l + 1)) st with
      | ZOk (p, st') =>
          match heap st' !! (p - PREFIX_SIZE), mread s 0 (u64 (l + 1)) with
          | Some b, Some src =>
              match mwrite b PREFIX_SIZE src with
              | Some b' => ZOk (p, set_heap (<[p - PREFIX_SIZE:=b']> (heap st')) st')
              | None => ZUndef
              end
          | _, _ => ZUndef
          end
      | ZAbort => ZAbort
      | ZUndef => ZUndef
      end
  end.

Definition zmalloc_used_memory (st : zstate) : Z :=
  if zmalloc_thread_safe st then used_memory st else used_memory st.
Definition zmalloc_enable_thread_safeness (st : zstate) : zstate :=
  ZState (heap st) (used_memory st) true (zmalloc_oom_handler st).
Definition zmalloc_set_oom_handler (h : Z → bool) (st : zstate) : zstate :=
  ZState (heap st) (used_memory st) (zmalloc_thread_safe st) h.

(** The bytes the caller sees behind the pointer it was given. *)
Definition user_bytes (ptr : Z) (st : zstate) : option (list Z) :=
  drop 8 <$> heap st !! (ptr - PREFIX_SIZE).

#[local] Opaque le_encode le_decode.

(** ** Invariant *)

(** A live block is its eight-byte size header followed by that many bytes. *)
Definition block_ok (b : list Z) : Prop :=
  ∃ size, 0 ≤ size < 2 ^ 63 ∧ take 8 b = le_encode 8 size ∧ Z.of_nat (length b) = size + 8.

Definition block_cost (b : list Z) : Z :=
  pad_long (le_decode (take 8 b)) + PREFIX_SIZE.

Definition total_cost (h : gmap Z (list Z)) : Z :=
  map_fold (λ _ b acc, block_cost b + acc) 0 h.

Record zinv (st : zstate) : Prop := ZInv {
  zinv_blocks : ∀ p b, heap st !! p = Some b → block_ok b;
  zinv_used : used_memory st = u64 (total_cost (heap st))
}.

Lemma total_cost_insert p b h : h !! p = None → total_cost (<[p:=b]> h) = block_cost b + total_cost h.
Proof. intros. unfold total_cost. rewrite map_fold_insert_L; [done|intros; lia|done]. Qed.

Lemma total_cost_delete p b h : h !! p = Some b → total_cost h = block_cost b + total_cost (delete p h).
Proof.
  intros H. rewrite <- (total_cost_insert p b (delete p h)) by apply lookup_delete_eq.
  by rewrite insert_delete_id.
Qed.

Lemma land7_mod n : Z.land n 7 = n `mod` 8.
Proof. change 7 with (Z.ones 3). by rewrite Z.land_ones by lia. Qed.

Lemma pad_long_prefix n : 0 ≤ n < 2 ^ 63 → pad_long (u64 (n + PREFIX_SIZE)) = pad_long n + PREFIX_SIZE.
Proof.
  intros Hn. unfold pad_long, PREFIX_SIZE. rewrite u64_small by lia. rewrite !land7_mod.
  replace ((n + 8) `mod` 8) with (n `mod` 8) by (rewrite <- Z.add_mod_idemp_r by lia; by rewrite Z.add_0_r).
  pose proof (Z.mod_pos_bound n 8). case_match; [done|]. rewrite !u64_small by lia. lia.
Qed.

Lemma used_add st n : used_memory (update_zmalloc_stat_alloc n st) = u64 (used_memory st + pad_long n).
Proof. unfold update_zmalloc_stat_alloc, update_zmalloc_stat_add. by destruct zmalloc_thread_safe. Qed.

Lemma used_sub st n : used_memory (update_zmalloc_stat_free n st) = u64 (used_memory st - pad_long n).
Proof. unfold update_zmalloc_stat_free, update_zmalloc_stat_sub. by destruct zmalloc_thread_safe. Qed.

Lemma heap_add st n : heap (update_zmalloc_stat_alloc n st) = heap st.
Proof. unfold update_zmalloc_stat_alloc, update_zmalloc_stat_add. by destruct zmalloc_thread_safe. Qed.

Lemma heap_sub st n : heap (update_zmalloc_stat_free n st) = heap st.
Proof. unfold update_zmalloc_stat_free, update_zmalloc_stat_sub. by destruct zmalloc_thread_safe. Qed.

Lemma write_prefix_ok b size :
  8 ≤ Z.of_nat (length b) → write_prefix b size = Some (le_encode 8 size ++ drop 8 b).
Proof.
  intros Hl. unfold write_prefix.
  rewrite <- (take_drop 8 b) at 1.
  change (take 8 b ++ drop 8 b) with ([] ++ take 8 b ++ drop 8 b).
  rewrite mwrite_app; [done|done|]. rewrite length_le_encode. len_solve.
Qed.

Lemma read_prefix_block b :
  8 ≤ Z.of_nat (length b) → read_prefix b = Some (le_decode (take 8 b)).
Proof.
  intros Hl. unfold read_prefix.
  rewrite <- (take_drop 8 b) at 1. rewrite mread_prefix; [done|len_solve].
Qed.

Lemma block_ok_prefix b :
  block_ok b → ∃ size, 0 ≤ size < 2 ^ 63 ∧ read_prefix b = Some size ∧
    le_decode (take 8 b) = size ∧ Z.of_nat (length b) = size + 8.
Proof.
  intros (size & Hs & Ht & Hl). exists size. rewrite read_prefix_block by lia.
  assert (le_decode (take 8 b) = size) as E.
  { rewrite Ht, le_decode_encode. apply Z.mod_small. change (8 * Z.of_nat 8) with 64. lia. }
  split_and!; congruence || lia.
Qed.

Lemma take_prefix size b : take 8 (le_encode 8 size ++ b) = le_encode 8 size.
Proof. by rewrite take_app_le, take_ge by (rewrite length_le_encode; lia). Qed.

Lemma block_cost_new size b :
  0 ≤ size < 2 ^ 63 → block_cost (le_encode 8 size ++ b) = pad_long size + PREFIX_SIZE.
Proof.
  intros. unfold block_cost. rewrite take_prefix, le_decode_encode. f_equal. f_equal.
  apply Z.mod_small. change (8 * Z.of_nat 8) with 64. lia.
Qed.

(** What [finish_alloc] establishes, given that [used_memory] already
    accounts for the live blocks up to [stat - padded size]. *)
Lemma finish_alloc_inv p g size stat st r st' :
  heap st !! p = None → 0 ≤ size < 2 ^ 63 → Z.of_nat (length g) = size + 8 →
  (∀ q b, heap st !! q = Some b → block_ok b) →
  u64 (used_memory st + pad_long stat) = u64 (pad_long size + PREFIX_SIZE + total_cost (heap st)) →
  finish_alloc p g size stat st = ZOk (r, st') →
  zinv st' ∧ r = p + PREFIX_SIZE ∧ heap st' = <[p:=le_encode 8 size ++ drop 8 g]> (heap st).
Proof.
  intros Hp Hs Hl Hb Hu. unfold finish_alloc. rewrite write_prefix_ok by lia. intros [= <- <-].
  rewrite heap_add. simpl. split_and!; [split|done|done].
  - rewrite heap_add. simpl. intros q b. rewrite lookup_insert_Some. intros [[<- <-]|[_ Hq]]; [|eauto].
    exists size. rewrite take_prefix. split_and!; [lia..|done|].
    rewrite length_app, length_le_encode, length_drop. lia.
  - rewrite used_add, heap_add. simpl. rewrite total_cost_insert by done.
    rewrite block_cost_new by lia. done.
Qed.

Lemma libc_malloc_Some n ans st p g :
  libc_malloc n ans st = Some (p, g) →
  heap st !! p = None ∧ p ≠ 0 ∧ Z.of_nat (length g) = n ∧ bytes_ok g.
Proof. unfold libc_malloc. destruct ans as [[]|]; [|done]. case_bool_decide; naive_solver. Qed.

Lemma u64_add_l a b : u64 (u64 a + b) = u64 (a + b).
Proof. unfold uwrap. by rewrite Z.add_mod_idemp_l by lia. Qed.

Lemma u64_sub_l a b : u64 (u64 a - b) = u64 (a - b).
Proof. unfold uwrap. by rewrite Zminus_mod_idemp_l. Qed.

(** ** Preservation *)

Lemma zalloc_inv (zero : bool) ans size st r st' :
  zinv st → 0 ≤ size < 2 ^ 63 →
  (if zero then zcalloc ans size st else zmalloc ans size st) = ZOk (r, st') →
  zinv st' ∧ ∃ g, length g = Z.to_nat (size + 8) ∧ (zero = true → g = replicate (Z.to_nat (size + 8)) 0) ∧
    heap st !! (r - PREFIX_SIZE) = None ∧
    heap st' = <[r - PREFIX_SIZE:=le_encode 8 size ++ drop 8 g]> (heap st).
Proof.
  intros [Hb Hu] Hs. unfold zcalloc, zmalloc, oom, PREFIX_SIZE.
  destruct (libc_malloc _ _ _) as [[p g]|] eqn:E.
  2: { by destruct zero; case_match. }
  apply libc_malloc_Some in E as (Hp & _ & Hl & _). rewrite u64_small in Hl by lia.
  intros H.
  assert (∃ g', length g' = Z.to_nat (size + 8) ∧ (zero = true → g' = replicate (Z.to_nat (size + 8)) 0) ∧
     finish_alloc p g' size (u64 (size + 8)) st = ZOk (r, st')) as (g' & Hg' & Hz & Hf).
  { destruct zero; [exists (replicate (length g) 0)|exists g]; split_and!; try done; try lia.
    - rewrite length_replicate. lia.
    - intros _. f_equal. lia. }
  eapply finish_alloc_inv in Hf as (? & -> & ?); [|done|lia|lia|done|].
  - split; [done|]. exists g'. unfold PREFIX_SIZE. rewrite Z.add_simpl_r. done.
  - rewrite Hu. fold PREFIX_SIZE. rewrite pad_long_prefix, u64_add_l by lia. f_equal. lia.
Qed.

Lemma zfree_inv ptr st st' :
  zinv st → zfree ptr st = ZOk st' →
  zinv st' ∧ heap st' = (if ptr =? 0 then heap st else delete (ptr - PREFIX_SIZE) (heap st)).
Proof.
  intros [Hb Hu]. unfold zfree. case_match; [intros [= <-]; by split|].
  destruct (heap st !! _) as [b|] eqn:E; [|done].
  destruct (block_ok_prefix b) as (size & Hs & Hr & Hd & Hl); [eauto|]. rewrite Hr.
  intros [= <-]. split; [split|done]; simpl.
  - intros q b'. rewrite lookup_delete_Some. naive_solver.
  - rewrite used_sub, Hu, pad_long_prefix, u64_sub_l by lia. f_equal.
    rewrite (total_cost_delete _ _ _ E). unfold block_cost. rewrite Hd. lia.
Qed.

Lemma zrealloc_inv ptr ans size st r st' :
  zinv st → 0 ≤ size < 2 ^ 63 → zrealloc ptr ans size st = ZOk (r, st') → zinv st'.
Proof.
  intros Hi Hs. unfold zrealloc. destruct (ptr =? 0); [by apply (zalloc_inv false)|].
  destruct Hi as [Hb Hu]. destruct (heap st !! _) as [b|] eqn:E; [|done].
  destruct (block_ok_prefix b) as (osz & Ho & Hr & Hd & Hl); [eauto|]. rewrite Hr.
  destruct (libc_malloc _ _ _) as [[p g]|] eqn:F; [|by unfold oom; case_match].
  apply libc_malloc_Some in F as (Hp & _ & Hg & _). simpl in Hp. unfold PREFIX_SIZE in *.
  rewrite u64_small in Hg by lia. intros Hf.
  eapply finish_alloc_inv in Hf as (? & _ & _); [done|..].
  - by rewrite heap_sub.
  - done.
  - unfold libc_realloc. len_solve.
  - rewrite heap_sub. intros q b'. simpl. rewrite lookup_delete_Some. naive_solver.
  - rewrite used_sub, heap_sub. simpl. rewrite Hu, u64_sub_l, u64_add_l.
    rewrite (total_cost_delete _ _ _ E). unfold block_cost. rewrite Hd. f_equal. unfold PREFIX_SIZE. lia.
Qed.

(** ** Histories of calls *)

Inductive zop :=
  | OpMalloc (ans : libc_answer) (size : Z)
  | OpCalloc (ans : libc_answer) (size : Z)
  | OpRealloc (ptr : Z) (ans : libc_answer) (size : Z)
  | OpFree (ptr : Z)
  | OpThreadSafe
  | OpSetHandler (h : Z → bool).

Definition zop_size (o : zop) : Z :=
  match o with
  | OpMalloc _ n | OpCalloc _ n | OpRealloc _ _ n => n
  | _ => 0
  end.

Definition zstep (o : zop) (st : zstate) : zres zstate :=
  let fst_ok r := match r with ZOk (_, st') => ZOk st' | ZAbort => ZAbort | ZUndef => ZUndef end in
  match o with
  | OpMalloc ans n => fst_ok (zmalloc ans n st)
  | OpCalloc ans n => fst_ok (zcalloc ans n st)
  | OpRealloc p ans n => fst_ok (zrealloc p ans n st)
  | OpFree p => zfree p st
  | OpThreadSafe => ZOk (zmalloc_enable_thread_safeness st)
  | OpSetHandler h => ZOk (zmalloc_set_oom_handler h st)
  end.

Fixpoint zrun (os : list zop) (st : zstate) : zres zstate :=
  match os with
  | [] => ZOk st
  | o :: os => match zstep o st with ZOk st' => zrun os st' | r => r end
  end.

Lemma zstep_inv o st st' : zinv st → 0 ≤ zop_size o < 2 ^ 63 → zstep o st = ZOk st' → zinv st'.
Proof.
  intros Hi Hs. destruct o as [ans n|ans n|p ans n|p| |h]; simpl in *.
  - destruct (zmalloc ans n st) as [[]| |] eqn:E; try done. intros [= <-].
    eapply (zalloc_inv false) in E as [? _]; done.
  - destruct (zcalloc ans n st) as [[]| |] eqn:E; try done. intros [= <-].
    eapply (zalloc_inv true) in E as [? _]; done.
  - destruct (zrealloc p ans n st) as [[]| |] eqn:E; try done. intros [= <-].
    eapply zrealloc_inv; done.
  - intros H. by apply zfree_inv in H as [? _].
  - intros [= <-]. by destruct Hi.
  - intros [= <-]. by destruct Hi.
Qed.

Lemma zrun_inv os st st' :
  zinv st → Forall (λ o, 0 ≤ zop_size o < 2 ^ 63) os → zrun os st = ZOk st' → zinv st'.
Proof.
  intros Hi Hs. revert st Hi. induction Hs as [|o os Ho _ IH]; simpl; intros st Hi.
  - by intros [= <-].
  - destruct (zstep o st) eqn:E; try done. intros. eapply IH; [|done]. by eapply zstep_inv.
Qed.

Lemma zinit_inv : zinv zinit.
Proof. split; [by intros p b|done]. Qed.

(** ** The interface of the string library *)

(** A block of the size asked for, or the null pointer; [zrealloc] gets the
    bytes of the old block. *)
Class Allocator := {
  zmalloc_block : Z → option (list Z);
  zcalloc_block : Z → option (list Z);
  zrealloc_block : list Z → Z → option (list Z)
}.

Class AllocatorSpec `{Allocator} : Prop := {
  zmalloc_block_spec n b : 0 ≤ n < 2 ^ 63 → zmalloc_block n = Some b →
    Z.of_nat (length b) = n ∧ bytes_ok b;
  zcalloc_block_spec n b : 0 ≤ n < 2 ^ 63 → zcalloc_block n = Some b →
    b = replicate (Z.to_nat n) 0;
  zrealloc_block_spec old n b : 0 ≤ n < 2 ^ 63 → bytes_ok old → zrealloc_block old n = Some b →
    Z.of_nat (length b) = n ∧ bytes_ok b ∧
    take (length old `min` length b) b = take (length old `min` length b) old
}.

(** An allocator that always finds memory, as [zmalloc] does: its default
    out-of-memory handler aborts instead of returning the null pointer. *)
Class AllocatorTotal `{Allocator} : Prop := {
  zmalloc_block_total n : 0 ≤ n < 2 ^ 63 → is_Some (zmalloc_block n);
  zcalloc_block_total n : 0 ≤ n < 2 ^ 63 → is_Some (zcalloc_block n);
  zrealloc_block_total old n : 0 ≤ n < 2 ^ 63 → is_Some (zrealloc_block old n)
}.

(** The allocator above as an implementation of the interface: libc places
    the blocks at [addr] and fills them with the bytes [garbage]. *)
Section Impl.
Context (addr : Z) (garbage : Z → list Z).

Definition returned (r : zres (Z * zstate)) : option (list Z) :=
  match r with ZOk (p, st) => user_bytes p st | _ => None end.

Definition request (n : Z) : libc_answer := Some (addr, garbage (u64 (n + PREFIX_SIZE))).

#[global] Instance zmalloc_allocator : Allocator := {|
  zmalloc_block n := returned (zmalloc (request n) n zinit);
  zcalloc_block n := returned (zcalloc (request n) n zinit);
  zrealloc_block old n :=
    let size := Z.of_nat (length old) in
    returned (zrealloc (addr + PREFIX_SIZE) (request n) n
      (ZState {[ addr := le_encode 8 size ++ old ]} (u64 (pad_long size + PREFIX_SIZE)) false
         zmalloc_default_oom)) |}.

Context (addr_pos : 0 < addr)
  (garbage_ok : ∀ n, 0 ≤ n → Z.of_nat (length (garbage n)) = n ∧ bytes_ok (garbage n)).

Lemma libc_malloc_request n st :
  0 ≤ n < 2 ^ 63 → heap st !! addr = None →
  libc_malloc (u64 (n + PREFIX_SIZE)) (request n) st = Some (addr, garbage (n + 8)).
Proof.
  intros Hn Hf. unfold libc_malloc, request, PREFIX_SIZE. rewrite u64_small by lia.
  destruct (garbage_ok (n + 8)); [lia|].
  rewrite bool_decide_eq_true_2; [done|]. split_and!; [done|lia|done|done].
Qed.

Lemma returned_finish p b size stat st :
  0 ≤ size → Z.of_nat (length b) = size + 8 →
  returned (finish_alloc p b size stat st) = Some (drop 8 b).
Proof.
  intros ? Hl. unfold finish_alloc. rewrite write_prefix_ok by lia. simpl. unfold user_bytes.
  rewrite heap_add, Z.add_simpl_r. simpl. rewrite lookup_insert_eq. simpl.
  by rewrite (drop_app_length' _ _ 8) by (by rewrite length_le_encode).
Qed.

Lemma alloc_block n :
  0 ≤ n < 2 ^ 63 → zmalloc_block n = Some (drop 8 (garbage (n + 8))).
Proof.
  intros Hn. simpl. unfold zmalloc. rewrite libc_malloc_request by done.
  destruct (garbage_ok (n + 8)); [lia|]. apply returned_finish; lia.
Qed.

Lemma calloc_block n :
  0 ≤ n < 2 ^ 63 → zcalloc_block n = Some (replicate (Z.to_nat n) 0).
Proof.
  intros Hn. simpl. unfold zcalloc. rewrite libc_malloc_request by done.
  destruct (garbage_ok (n + 8)) as [Hl _]; [lia|].
  rewrite returned_finish; [|lia|len_solve]. f_equal. rewrite drop_replicate. f_equal. lia.
Qed.

Lemma realloc_block old n :
  0 ≤ n < 2 ^ 63 → zrealloc_block old n = Some (libc_realloc old (drop 8 (garbage (n + 8)))).
Proof.
  intros Hn. cbn -[le_encode]. unfold zrealloc, PREFIX_SIZE. rewrite (proj2 (Z.eqb_neq _ _)) by lia.
  rewrite Z.add_simpl_r. cbn [heap]. rewrite lookup_singleton_eq.
  rewrite read_prefix_block by (rewrite length_app, length_le_encode; lia).
  fold PREFIX_SIZE. rewrite libc_malloc_request; [|done|by cbn [heap set_heap]; rewrite lookup_delete_eq].
  destruct (garbage_ok (n + 8)) as [Hl _]; [lia|].
  rewrite returned_finish; [|lia|unfold libc_realloc; len_solve].
  f_equal. unfold libc_realloc. rewrite take_app, take_ge, length_le_encode by (rewrite length_le_encode; lia).
  rewrite <- app_assoc, (drop_app_length' _ _ 8) by (by rewrite length_le_encode).
  rewrite length_app, length_le_encode, length_drop, drop_drop. done.
Qed.

#[global] Instance zmalloc_allocator_spec : AllocatorSpec.
Proof using addr_pos garbage_ok.
  split.
  - intros n b Hn. rewrite alloc_block by done. intros [= <-].
    destruct (garbage_ok (n + 8)); [lia|]. split; [len_solve|auto with rtc].
  - intros n b Hn. rewrite calloc_block by done. by intros [= <-].
  - intros old n b Hn Ho. rewrite realloc_block by done. intros [= <-].
    destruct (garbage_ok (n + 8)) as [Hl Hb]; [lia|]. unfold libc_realloc.
    split_and!; [len_solve|apply bytes_ok_app; auto with rtc|].
    rewrite take_app_le by len_solve. rewrite take_take. f_equal. len_solve.
Qed.

#[global] Instance zmalloc_allocator_total : AllocatorTotal.
Proof using addr_pos garbage_ok.
  split; intros; [rewrite alloc_block|rewrite calloc_block|rewrite realloc_block]; done.
Qed.
End Impl.

(** ** Properties *)

(** C30: after any history of allocations, reallocations and frees that ran to
    its end, the counter the allocator reports is the sum of the padded costs
    of exactly the live blocks (modulo the width of [size_t]), and every live
    block still records the size its owner asked for, so that [zmalloc_size]
    answers its cost. *)
Theorem zmalloc_accounting os st :
  Forall (λ o, 0 ≤ zop_size o < 2 ^ 63) os → zrun os zinit = ZOk st →
  zmalloc_used_memory st = u64 (total_cost (heap st)) ∧
  ∀ p b, heap st !! p = Some b →
    zmalloc_size (p + PREFIX_SIZE) st = Some (u64 (block_cost b)) ∧
    le_decode (take 8 b) = Z.of_nat (length b) - PREFIX_SIZE.
Proof.
  intros Hs Hr. destruct (zrun_inv os zinit st zinit_inv Hs Hr) as [Hb Hu]. split.
  - unfold zmalloc_used_memory. by destruct zmalloc_thread_safe.
  - intros p b Hp. destruct (block_ok_prefix b (Hb _ _ Hp)) as (size & Hz & Hrd & Hd & Hl).
    unfold zmalloc_size. rewrite Z.add_simpl_r, Hp. simpl. rewrite Hrd. simpl.
    unfold block_cost, PREFIX_SIZE in *. rewrite Hd. split; [done|lia].
Qed.

(** Two blocks are taken, one of them moves and one is given back. *)
Definition demo_history : list zop :=
  [OpMalloc (Some (4096, replicate 18 1)) 10; OpCalloc (Some (8192, replicate 13 2)) 5;
   OpThreadSafe; OpRealloc 4104 (Some (16384, replicate 28 3)) 20; OpFree 8200].

Lemma zmalloc_accounting_witness :
  match zrun demo_history zinit with
  | ZOk st => zmalloc_used_memory st = u64 (total_cost (heap st))
  | _ => False
  end.
Proof.
  destruct (zrun demo_history zinit) as [st| |] eqn:E; [|vm_compute in E; discriminate..].
  apply (zmalloc_accounting demo_history st); [|exact E].
  repeat (apply Forall_cons_2; [simpl; lia|]). apply Forall_nil_2.
Defined.

(** [zrealloc] moves the old bytes into the new block: it keeps those that
    fit, changes no other live block, and leaves the counter consistent. *)
Theorem zrealloc_keeps_bytes ptr ans size st r st' old :
  zinv st → 0 ≤ size < 2 ^ 63 → ptr ≠ 0 → user_bytes ptr st = Some old →
  zrealloc ptr ans size st = ZOk (r, st') →
  (∃ new, user_bytes r st' = Some new ∧ Z.of_nat (length new) = size ∧
     take (length old `min` length new) new = take (length old `min` length new) old) ∧
  (∀ q, q ≠ ptr → q ≠ r → user_bytes q st' = user_bytes q st) ∧ zinv st'.
Proof.
  intros Hi Hs Hp Ho Hr. pose proof (zrealloc_inv _ _ _ _ _ _ Hi Hs Hr) as Hi'.
  unfold zrealloc in Hr. rewrite (proj2 (Z.eqb_neq ptr 0)) in Hr by done.
  unfold user_bytes in *. destruct (heap st !! (ptr - PREFIX_SIZE)) as [b|] eqn:E; simplify_eq/=.
  destruct (block_ok_prefix b) as (osz & Hoz & Hrd & Hd & Hl); [exact (zinv_blocks st Hi _ _ E)|].
  rewrite Hrd in Hr. destruct (libc_malloc _ _ _) as [[p g]|] eqn:F; [|unfold oom in Hr; by destruct (zmalloc_oom_handler st size)].
  apply libc_malloc_Some in F as (Hf & _ & Hg & _). simpl in Hf. unfold PREFIX_SIZE in *.
  rewrite u64_small in Hg by lia. unfold finish_alloc in Hr.
  rewrite write_prefix_ok in Hr by (unfold libc_realloc; len_solve). simplify_eq/=.
  split; [|split; [|exact Hi']]; rewrite heap_add; simpl; rewrite heap_sub; simpl; unfold PREFIX_SIZE.
  2: by intros q Hq Hq'; rewrite lookup_insert_ne, lookup_delete_ne by lia.
  rewrite Z.add_simpl_r, lookup_insert_eq. simpl.
  rewrite (drop_app_length' _ _ 8) by (by rewrite length_le_encode). eexists. split; [done|].
  unfold libc_realloc. split; [len_solve|].
  rewrite drop_app_le by len_solve. rewrite take_app_le by len_solve.
  rewrite skipn_firstn_comm, take_take. f_equal. len_solve.
Qed.

Lemma zrealloc_keeps_bytes_witness :
  let st := ZState {[ 64 := le_encode 8 3 ++ [7; 8; 9] ]} 16 false zmalloc_default_oom in
  ∃ st', zrealloc 72 (Some (128, replicate 13 5)) 5 st = ZOk (136, st') ∧ zinv st'.
Proof.
  intros st. eexists. split; [vm_compute; reflexivity|].
  eapply (zrealloc_keeps_bytes 72 (Some (128, replicate 13 5)) 5 st 136 _ [7; 8; 9]).
  - split; [|vm_compute; reflexivity]. intros p b Hp. simpl in Hp. apply lookup_singleton_Some in Hp as [<- <-].
    exists 3. vm_compute. repeat split; congruence.
  - lia.
  - lia.
  - vm_compute; reflexivity.
  - vm_compute; reflexivity.
Defined.

(** A libc that fills fresh blocks with a fixed byte, for the witnesses. *)
Definition demo_garbage (n : Z) : list Z := replicate (Z.to_nat n) 170.

Lemma demo_garbage_ok n :
  0 ≤ n → Z.of_nat (length (demo_garbage n)) = n ∧ bytes_ok (demo_garbage n).
Proof.
  intros. unfold demo_garbage. split; [len_solve|]. apply Forall_replicate. unfold byte_ok. lia.
Qed.

Definition demo_alloc : Allocator := zmalloc_allocator 64 demo_garbage.
Definition demo_spec : @AllocatorSpec demo_alloc :=
  zmalloc_allocator_spec 64 demo_garbage eq_refl demo_garbage_ok.
Definition demo_total : @AllocatorTotal demo_alloc :=
  zmalloc_allocator_total 64 demo_garbage eq_refl demo_garbage_ok.
