(* ===== verification/Sds.v ===== *)
(** * Simple dynamic strings (rtc_base/sds.h, sds.cc)

    An [sds] is the pointer to the [buf] field of a heap block
    [struct sdshdr { int len; int free; char buf[]; }]. The block is modelled
    by its three fields, [buf] being the bytes up to the end of the
    allocation ([len + free + 1] of them). The fields are [int]s and the
    functions compute in [size_t], so every conversion is written out. The
    operations are written against the [Allocator] interface. *)

From S2P Require Import Prelude Zmalloc.

Record sds := Sds {
  len : Z;
  free : Z;
  buf : list Z
}.

Definition SDS_MAX_PREALLOC : Z := 1024 * 1024.
Definition SDSHDR_SIZE : Z := 8.

Definition sdslen (s : sds) : Z := u64 (len s).
Definition sdsavail (s : sds) : Z := u64 (free s).

(** The whole block, header included, as [zrealloc] sees it. *)
Definition sds_block (s : sds) : list Z :=
  le_encode 4 (len s) ++ le_encode 4 (free s) ++ buf s.

(** [strchr(cset, c) != NULL]: the terminator of [cset] is found too. *)
Definition strchr (cset : list Z) (c : Z) : bool :=
  bool_decide (c ∈ cset) || (c =? 0).

Section Ops.
Context {A : Allocator}.

Definition sdsnewlen (init : option (list Z)) (initlen : Z) : res sds :=
  let n := u64 (SDSHDR_SIZE + initlen + 1) in
  let* blk := of_alloc (match init with Some _ => zmalloc_block n | None => zcalloc_block n end) in
  let b0 := drop 8 blk in
  let* b1 :=
    match init with
    | Some src =>
        if initlen =? 0 then Val b0
        else let* d := of_mem (mread src 0 initlen) in of_mem (mwrite b0 0 d)
    | None => Val b0
    end in
  let* b2 := of_mem (mwrite b1 initlen [0]) in
  Val (Sds (s32 initlen) 0 b2).

Definition sdsempty : res sds := sdsnewlen (Some [0]) 0.

Definition sdsnew (init : option (list Z)) : res sds :=
  match init with
  | None => sdsnewlen None 0
  | Some p => let* l := of_mem (strlen p) in sdsnewlen (Some p) l
  end.

Definition sdsdup (s : sds) : res sds := sdsnewlen (Some (buf s)) (sdslen s).

(** The block handed back to [zfree], none for a null string. *)
Definition sdsfree (s : option sds) : option (list Z) := sds_block <$> s.

Definition sdsupdatelen (s : sds) : res sds :=
  let* l := of_mem (strlen (buf s)) in
  let reallen := s32 l in
  Val (Sds reallen (s32 (free s + (len s - reallen))) (buf s)).

Definition sdsclear (s : sds) : res sds :=
  let* b := of_mem (mwrite (buf s) 0 [0]) in
  Val (Sds 0 (s32 (free s + len s)) b).

Definition sdsMakeRoomFor (s : sds) (addlen : Z) : res sds :=
  let avail := sdsavail s in
  if addlen <=? avail then Val s
  else
    let l := sdslen s in
    let newlen := u64 (l + addlen) in
    let newlen := if newlen <? SDS_MAX_PREALLOC then u64 (newlen * 2)
                  else u64 (newlen + SDS_MAX_PREALLOC) in
    let* blk := of_alloc (zrealloc_block (sds_block s) (u64 (SDSHDR_SIZE + newlen + 1))) in
    Val (Sds (len s) (s32 (u64 (newlen - l))) (drop 8 blk)).

Definition sdsRemoveFreeSpace (s : sds) : res sds :=
  match zrealloc_block (sds_block s) (u64 (SDSHDR_SIZE + len s + 1)) with
  | Some blk => Val (Sds (len s) 0 (drop 8 blk))
  | None => Undef (* the null pointer is written *)
  end.

Definition sdsAllocSize (s : sds) : Z := u64 (SDSHDR_SIZE + len s + free s + 1).

Definition sdsIncrLen (s : sds) (incr : Z) : res sds :=
  let* _ := c_assert (incr <=? free s) in
  let l := s32 (len s + incr) in
  let f := s32 (free s - incr) in
  let* _ := c_assert (0 <=? f) in
  let* b := of_mem (mwrite (buf s) l [0]) in
  Val (Sds l f b).

Definition sdsgrowzero (s : sds) (l : Z) : res sds :=
  let curlen := u64 (len s) in
  if l <=? curlen then Val s
  else
    let* s := sdsMakeRoomFor s (u64 (l - curlen)) in
    let* b := of_mem (mwrite (buf s) curlen (replicate (Z.to_nat (u64 (l - curlen + 1))) 0)) in
    let totlen := u64 (len s + free s) in
    let newlen := s32 l in
    Val (Sds newlen (s32 (totlen - newlen)) b).

Definition sdscatlen (s : sds) (t : list Z) (l : Z) : res sds :=
  let curlen := sdslen s in
  let* s := sdsMakeRoomFor s l in
  let* d := of_mem (mread t 0 l) in
  let* b := of_mem (mwrite (buf s) curlen d) in
  let* b := of_mem (mwrite b (u64 (curlen + l)) [0]) in
  Val (Sds (s32 (u64 (curlen + l))) (s32 (u64 (free s - l))) b).

Definition sdscat (s : sds) (t : list Z) : res sds :=
  let* l := of_mem (strlen t) in sdscatlen s t l.

Definition sdscatsds (s t : sds) : res sds := sdscatlen s (buf t) (sdslen t).

Definition sdscpylen (s : sds) (t : list Z) (l : Z) : res sds :=
  let totlen := u64 (free s + len s) in
  let* '(s, totlen) :=
    (if totlen <? l then
       let* s := sdsMakeRoomFor s (u64 (l - len s)) in
       Val (s, u64 (free s + len s))
     else Val (s, totlen)) in
  let* d := of_mem (mread t 0 l) in
  let* b := of_mem (mwrite (buf s) 0 d) in
  let* b := of_mem (mwrite b l [0]) in
  Val (Sds (s32 l) (s32 (u64 (totlen - l))) b).

Definition sdscpy (s : sds) (t : list Z) : res sds :=
  let* l := of_mem (strlen t) in sdscpylen s t l.

(** [vsnprintf(buf, n, fmt, ap)] where [out] is the text the format and
    its arguments denote: at most [n - 1] bytes and a terminator. *)
Definition vsnprintf (b : list Z) (n : Z) (out : list Z) : res (list Z) :=
  of_mem (mwrite b 0 (take (Z.to_nat (n - 1)) out ++ [0])).

Fixpoint sdscatvprintf_loop (fuel : nat) (s : sds) (buflen : Z) (out : list Z) : res sds :=
  match fuel with
  | O => Undef
  | S fuel =>
      let* b := of_alloc (zmalloc_block buflen) in
      let* b := of_mem (mwrite b (buflen - 2) [0]) in
      let* b := vsnprintf b buflen out in
      let* c := of_mem (b !! Z.to_nat (buflen - 2)) in
      if c =? 0 then sdscat s b
      else sdscatvprintf_loop fuel s (u64 (buflen * 2)) out
  end.

(** The buffer doubles from 16 bytes: after [length out] doublings it holds
    the text. *)
Definition sdscatvprintf (s : sds) (out : list Z) : res sds :=
  sdscatvprintf_loop (S (length out)) s 16 out.

Definition sdscatprintf (s : sds) (out : list Z) : res sds := sdscatvprintf s out.
(** The two scanning loops of [sdstrim]: [sp] runs up while [sp <= end],
    [ep] runs down while [ep > start]. *)
Fixpoint scan_fwd (f : Z → bool) (cs : list Z) : nat :=
  match cs with
  | c :: cs => if f c then S (scan_fwd f cs) else O
  | [] => O
  end.

Fixpoint scan_back (f : Z → bool) (cs : list Z) (ep : nat) : nat :=
  match ep with
  | O => O
  | S e => if f (cs !!! ep) then scan_back f cs e else ep
  end.

Definition sdstrim (s : sds) (cset : list Z) : res sds :=
  let content := take (Z.to_nat (sdslen s)) (buf s) in
  let sp := Z.of_nat (scan_fwd (strchr cset) content) in
  let ep := if sdslen s =? 0 then -1
            else Z.of_nat (scan_back (strchr cset) content (Z.to_nat (sdslen s - 1))) in
  let n := if ep <? sp then 0 else ep - sp + 1 in
  let* b := (if sp =? 0 then Val (buf s)
             else let* d := of_mem (mread (buf s) sp n) in of_mem (mwrite (buf s) 0 d)) in
  let* b := of_mem (mwrite b n [0]) in
  Val (Sds (s32 n) (s32 (u64 (free s + (len s - n)))) b).

Definition sdsrange (s : sds) (start end_ : Z) : res sds :=
  let l := sdslen s in
  if l =? 0 then Val s
  else
    let start := if start <? 0 then
                   let start := s32 (u64 (l + start)) in if start <? 0 then 0 else start
                 else start in
    let end_ := if end_ <? 0 then
                  let end_ := s32 (u64 (l + end_)) in if end_ <? 0 then 0 else end_
                else end_ in
    let* newlen := (if end_ <? start then Val 0
                    else if end_ - start + 1 <=? INT_MAX then Val (u64 (end_ - start + 1))
                    else Undef (* int overflow *)) in
    let '(start, newlen) :=
      if newlen =? 0 then (0, newlen)
      else if s32 l <=? start then (start, 0)
      else if s32 l <=? end_ then
        let end_ := s32 (u64 (l - 1)) in
        (start, if end_ <? start then 0 else u64 (end_ - start + 1))
      else (start, newlen) in
    let* b := (if negb (start =? 0) && negb (newlen =? 0)
               then let* d := of_mem (mread (buf s) start newlen) in of_mem (mwrite (buf s) 0 d)
               else Val (buf s)) in
    let* b := of_mem (mwrite b newlen [0]) in
    Val (Sds (s32 newlen) (s32 (u64 (free s + (len s - newlen)))) b).

(** [tolower] and [toupper] of the C locale. *)
Definition tolower (c : Z) : Z := if (65 <=? c) && (c <=? 90) then c + 32 else c.
Definition toupper (c : Z) : Z := if (97 <=? c) && (c <=? 122) then c - 32 else c.

(** [for (j = 0; j < len; j++) s[j] = f(s[j])] *)
Definition map_content (f : Z → Z) (s : sds) : sds :=
  let n := Z.to_nat (s32 (sdslen s)) in
  Sds (len s) (free s) ((f <$> take n (buf s)) ++ drop n (buf s)).

Definition sdstolower (s : sds) : sds := map_content tolower s.
Definition sdstoupper (s : sds) : sds := map_content toupper s.

Definition sdscmp (s1 s2 : sds) : res Z :=
  let l1 := sdslen s1 in
  let l2 := sdslen s2 in
  let minlen := if l1 <? l2 then l1 else l2 in
  let* m1 := of_mem (mread (buf s1) 0 minlen) in
  let* m2 := of_mem (mread (buf s2) 0 minlen) in
  let cmp := memcmp m1 m2 in
  if cmp =? 0 then Val (s32 (u64 (l1 - l2))) else Val cmp.

(** The token array of [sdssplitlen] holds [slots] pointers; a store past
    it is undefined. Only the success of its (re)allocation matters, so its
    bytes are not represented. *)
Definition store_token (tokens : list sds) (slots : Z) (t : sds) : res (list sds) :=
  if Z.of_nat (length tokens) <? slots then Val (tokens ++ [t]) else Undef.

Definition grow_slots (slots : Z) : res Z :=
  let* _ := of_alloc (zrealloc_block (replicate (Z.to_nat (8 * slots)) 0) (8 * (slots * 2))) in
  Val (slots * 2).

(** The [for] loop over [j]; [fuel] bounds the iterations. *)
Fixpoint split_loop (fuel : nat) (s : list Z) (l : Z) (sep : list Z) (seplen : Z)
    (j start slots : Z) (tokens : list sds) : res (Z * Z * list sds) :=
  if j <? l - (seplen - 1) then
    match fuel with
    | O => Undef
    | S fuel =>
        let* slots := (if slots <? Z.of_nat (length tokens) + 2 then grow_slots slots else Val slots) in
        let* w := of_mem (mread s j seplen) in
        if ((seplen =? 1) && bool_decide (head w = head sep)) || (memcmp w (take (Z.to_nat seplen) sep) =? 0)
        then
          let* t := sdsnewlen (Some (drop (Z.to_nat start) s)) (j - start) in
          let* tokens := store_token tokens slots t in
          split_loop fuel s l sep seplen (j + seplen - 1 + 1) (j + seplen) slots tokens
        else split_loop fuel s l sep seplen (j + 1) start slots tokens
    end
  else Val (start, slots, tokens).

Definition sdssplitlen (s : list Z) (l : Z) (sep : list Z) (seplen : Z) : res (list sds) :=
  if (seplen <? 1) || (l <? 0) then Null
  else
    let slots := 5 in
    let* _ := of_alloc (zmalloc_block (8 * slots)) in
    if l =? 0 then Val []
    else
      let* '(start, slots, tokens) := split_loop (Z.to_nat l) s l sep seplen 0 0 slots [] in
      let* t := sdsnewlen (Some (drop (Z.to_nat start) s)) (l - start) in
      store_token tokens slots t.

(** The blocks released by [sdsfreesplitres], last token first. *)
Definition sdsfreesplitres (tokens : option (list sds)) : list (list Z) :=
  match tokens with
  | None => []
  | Some ts => sds_block <$> reverse ts
  end.

(** [do { *p-- = '0' + v % 10; v /= 10; } while (v)]: the digits in front
    of those already written. *)
Fixpoint digits_loop (fuel : nat) (v : Z) (acc : list Z) : list Z :=
  match fuel with
  | O => acc
  | S fuel =>
      let acc := (48 + v `mod` 10) :: acc in
      let v := v `div` 10 in
      if v =? 0 then acc else digits_loop fuel v acc
  end.

(** [-value] of the least [long long] overflows. 20 digits are enough for
    any 64-bit value, and the buffer has 32 bytes. *)
Definition sdsfromlonglong (value : Z) : res sds :=
  if value =? - 2 ^ 63 then Undef
  else
    let v := if value <? 0 then - value else value in
    let ds := digits_loop 20 v [] in
    let ds := if value <? 0 then 45 :: ds else ds in
    sdsnewlen (Some ds) (Z.of_nat (length ds)).

(** [isprint] of the C locale, on a [char] seen as unsigned. *)
Definition isprint (c : Z) : bool := (32 <=? c) && (c <=? 126).
Definition isspace (c : Z) : bool := ((9 <=? c) && (c <=? 13)) || (c =? 32).

Definition hex_char (d : Z) : Z := if d <? 10 then 48 + d else 87 + d.

(** The text of ["\\x%02x"]. *)
Definition hex_escape (c : Z) : list Z := [92; 120; hex_char (c `div` 16); hex_char (c `mod` 16)].

(** One iteration of the [while(len--)] loop. *)
Definition catrepr_char (s : sds) (c : Z) : res sds :=
  if (c =? 92) || (c =? 34) then sdscatprintf s [92; c]
  else if c =? 10 then sdscatlen s (b#"\n") 2
  else if c =? 13 then sdscatlen s (b#"\r") 2
  else if c =? 9 then sdscatlen s (b#"\t") 2
  else if c =? 7 then sdscatlen s (b#"\a") 2
  else if c =? 8 then sdscatlen s (b#"\b") 2
  else if isprint c then sdscatprintf s [c]
  else sdscatprintf s (hex_escape c).

Fixpoint catrepr_loop (s : sds) (p : list Z) : res sds :=
  match p with
  | [] => Val s
  | c :: p => let* s := catrepr_char s c in catrepr_loop s p
  end.

Definition sdscatrepr (s : sds) (p : list Z) (l : Z) : res sds :=
  let* s := sdscatlen s [34] 1 in
  let* d := of_mem (mread p 0 l) in
  let* s := catrepr_loop s d in
  sdscatlen s [34] 1.

Definition is_hex_digit (c : Z) : bool :=
  ((48 <=? c) && (c <=? 57)) || ((97 <=? c) && (c <=? 102)) || ((65 <=? c) && (c <=? 70)).

Definition hex_digit_to_int (c : Z) : Z :=
  if (48 <=? c) && (c <=? 57) then c - 48
  else if (97 <=? c) && (c <=? 102) then c - 87
  else if (65 <=? c) && (c <=? 70) then c - 55
  else 0.

(** [p[k]]; the line is NUL-terminated and the conditions short-circuit, so
    no character past the terminator is looked at. *)
Definition peek (p : list Z) (k : nat) : Z := nth k p 0.

(** After a closing quote [*(p+1) && !isspace( *(p+1))] is an error. *)
Definition bad_after_quote (p : list Z) : bool :=
  negb (peek p 1 =? 0) && negb (isspace (peek p 1)).

Definition unescape (c : Z) : Z :=
  if c =? 110 then 10 else if c =? 114 then 13 else if c =? 116 then 9
  else if c =? 98 then 8 else if c =? 97 then 7 else c.

(** The token loop of [sdssplitargs] from a position of the line; the mode
    is [inq], [insq] or neither. The result is the token and the rest of
    the line, [inr] for [goto err]. Each turn consumes a character or ends,
    so the length of the line bounds the turns. *)
Inductive quote_mode := Unquoted | InQuotes | InSingle.

Fixpoint token_loop (fuel : nat) (m : quote_mode) (current : sds) (p : list Z)
    : res (sds * list Z + unit) :=
  match fuel with
  | O => Undef
  | S fuel =>
      let c := peek p 0 in
      match m with
      | InQuotes =>
          if (c =? 92) && (peek p 1 =? 120) && is_hex_digit (peek p 2) && is_hex_digit (peek p 3) then
            let byte := hex_digit_to_int (peek p 2) * 16 + hex_digit_to_int (peek p 3) in
            let* s := sdscatlen current [byte] 1 in token_loop fuel m s (drop 4 p)
          else if (c =? 92) && negb (peek p 1 =? 0) then
            let* s := sdscatlen current [unescape (peek p 1)] 1 in token_loop fuel m s (drop 2 p)
          else if c =? 34 then
            if bad_after_quote p then Val (inr ()) else Val (inl (current, drop 1 p))
          else if c =? 0 then Val (inr ())
          else let* s := sdscatlen current [c] 1 in token_loop fuel m s (drop 1 p)
      | InSingle =>
          if (c =? 92) && (peek p 1 =? 39) then
            let* s := sdscatlen current [39] 1 in token_loop fuel m s (drop 2 p)
          else if c =? 39 then
            if bad_after_quote p then Val (inr ()) else Val (inl (current, drop 1 p))
          else if c =? 0 then Val (inr ())
          else let* s := sdscatlen current [c] 1 in token_loop fuel m s (drop 1 p)
      | Unquoted =>
          if (c =? 32) || (c =? 10) || (c =? 13) || (c =? 9) then Val (inl (current, drop 1 p))
          else if c =? 0 then Val (inl (current, p))
          else if c =? 34 then token_loop fuel InQuotes current (drop 1 p)
          else if c =? 39 then token_loop fuel InSingle current (drop 1 p)
          else let* s := sdscatlen current [c] 1 in token_loop fuel m s (drop 1 p)
      end
  end.

(** [while( *p && isspace( *p)) p++] *)
Fixpoint skip_blanks (p : list Z) : list Z :=
  match p with
  | c :: q => if negb (c =? 0) && isspace c then skip_blanks q else p
  | [] => []
  end.

(** The line is a NUL-terminated block. The result is the vector and
    [*argc]; on a syntax error the vector is null and the decrement that
    ends the cleanup loop leaves [*argc] at [-1]. *)
Fixpoint splitargs_loop (fuel : nat) (p : list Z) (vector : list sds) : res (option (list sds) * Z) :=
  match fuel with
  | O => Undef
  | S fuel =>
      let p := skip_blanks p in
      if peek p 0 =? 0 then
        Val (if vector is [] then None else Some vector, Z.of_nat (length vector))
      else
        let* current := sdsempty in
        let* r := token_loop (S (length p)) Unquoted current p in
        match r with
        | inl (t, rest) => splitargs_loop fuel rest (vector ++ [t])
        | inr _ => Val (None, -1)
        end
  end.

Definition sdssplitargs (line : list Z) : res (option (list sds) * Z) :=
  let* _ := of_mem (strlen line) in
  splitargs_loop (S (length line)) line [].

Definition sdssplitargs_free (argv : list sds) : list (list Z) := sds_block <$> argv.

(** The inner [for] loop of [sdsmapchars]: the first match wins. *)
Fixpoint mapchar (from to : list Z) (c : Z) : Z :=
  match from, to with
  | f :: from, t :: to => if c =? f then t else mapchar from to c
  | _, _ => c
  end.

Definition sdsmapchars (s : sds) (from to : list Z) (setlen : Z) : res sds :=
  let* from := of_mem (mread from 0 setlen) in
  let* to := of_mem (mread to 0 setlen) in
  let n := Z.to_nat (sdslen s) in
  Val (Sds (len s) (free s) ((mapchar from to <$> take n (buf s)) ++ drop n (buf s))).
End Ops.

(** ** Representation *)

(** [repr s bs]: the string [s] holds the bytes [bs], NUL-terminated inside
    an allocation whose spare room is [free s]; the sizes fit the fields. *)
Record repr (s : sds) (bs : list Z) : Prop := Repr {
  repr_buf : ∃ tail, buf s = bs ++ 0 :: tail ∧ free s = Z.of_nat (length tail);
  repr_len : len s = Z.of_nat (length bs);
  repr_bytes : bytes_ok (buf s);
  repr_bound : len s + free s + 9 ≤ INT_MAX
}.

(** Strings of [n] bytes can be made: the preallocation that
    [sdsMakeRoomFor] adds stays within an [int]. *)
Definition room (n : Z) : Prop := 2 * n + SDS_MAX_PREALLOC + 9 ≤ INT_MAX.

#[global] Instance room_dec n : Decision (room n).
Proof. unfold room; apply _. Defined.

Ltac sds_bounds := unfold room, SDS_MAX_PREALLOC, SDSHDR_SIZE, INT_MAX, INT_MIN in *.

Lemma repr_intro l f bs tail :
  l = Z.of_nat (length bs) → f = Z.of_nat (length tail) →
  bytes_ok bs → bytes_ok tail → l + f + 9 ≤ INT_MAX → repr (Sds l f (bs ++ 0 :: tail)) bs.
Proof.
  intros -> -> Hb Ht Hl. split; simpl; [by exists tail|done| |done].
  apply bytes_ok_app; split; [done|]. constructor; [done|done].
Qed.

Lemma repr_elim s bs :
  repr s bs → ∃ tail, s = Sds (Z.of_nat (length bs)) (Z.of_nat (length tail)) (bs ++ 0 :: tail) ∧
    bytes_ok bs ∧ bytes_ok tail ∧ Z.of_nat (length bs) + Z.of_nat (length tail) + 9 ≤ INT_MAX.
Proof.
  intros [(tail & Hb & Hf) Hl Hok Hbd]. exists tail. destruct s as [l f b]; simpl in *; subst.
  apply bytes_ok_app in Hok as [? Hok]. inversion Hok; subst. done.
Qed.

Tactic Notation "repr_destruct" hyp(H) "as" ident(tail) :=
  let E := fresh in
  let Hb := fresh "Hbs" in
  let Ht := fresh "Htail" in
  let Hl := fresh "Hlen" in
  destruct (repr_elim _ _ H) as (tail & E & Hb & Ht & Hl); subst.

Lemma mwrite_nul pre x post off :
  off = Z.of_nat (length pre) → mwrite (pre ++ x :: post) off [0] = Some (pre ++ 0 :: post).
Proof. intros ->. by apply (mwrite_app pre [x] post [0]). Qed.

(** Overwriting the terminator and part of the spare room. *)
Lemma mwrite_tail bs tail d off :
  off = Z.of_nat (length bs) → (length d ≤ length tail)%nat →
  ∃ x, mwrite (bs ++ 0 :: tail) off d = Some ((bs ++ d) ++ x :: drop (length d) tail).
Proof.
  intros -> Hl. destruct (drop (length d) (0 :: tail)) as [|x post] eqn:E.
  - apply (f_equal length) in E. len_solve.
  - exists x. rewrite <- (take_drop (length d) (0 :: tail)) at 1. rewrite mwrite_app; [|done|len_solve].
    rewrite E, <- app_assoc. do 3 f_equal.
    apply (f_equal (drop 1)) in E. rewrite drop_drop, Nat.add_1_r in E. simpl in E.
    rewrite drop_0 in E. by rewrite E.
Qed.

Lemma append_then_nul bs tail d off :
  off = Z.of_nat (length bs) → (length d ≤ length tail)%nat →
  (b ← mwrite (bs ++ 0 :: tail) off d; mwrite b (off + Z.of_nat (length d)) [0])
  = Some ((bs ++ d) ++ 0 :: drop (length d) tail).
Proof.
  intros Ho Hl. destruct (mwrite_tail bs tail d off Ho Hl) as [x ->]. simpl.
  apply mwrite_nul. subst. len_solve.
Qed.

Section Theory.
Context {A : Allocator} {AS : AllocatorSpec} {AT : AllocatorTotal}.

Lemma zmalloc_ok n : 0 ≤ n < 2 ^ 63 →
  ∃ b, zmalloc_block n = Some b ∧ Z.of_nat (length b) = n ∧ bytes_ok b.
Proof.
  intros Hn. destruct (zmalloc_block_total n Hn) as [b E]. exists b.
  split; [done|]. by apply (zmalloc_block_spec n b).
Qed.

Lemma zrealloc_grow old n : Z.of_nat (length old) ≤ n < 2 ^ 63 → bytes_ok old →
  ∃ rest, zrealloc_block old n = Some (old ++ rest) ∧
    Z.of_nat (length old) + Z.of_nat (length rest) = n ∧ bytes_ok rest.
Proof.
  intros Hn Ho. destruct (zrealloc_block_total old n) as [b E]; [lia|].
  destruct (zrealloc_block_spec old n b) as (Hl & Hb & Ht); [lia|done|done|].
  rewrite Nat.min_l, (take_ge old) in Ht by lia.
  exists (drop (length old) b). rewrite E. split_and!.
  - f_equal. rewrite <- Ht at 1. by rewrite take_drop.
  - len_solve.
  - auto with rtc.
Qed.

Lemma sds_block_bytes s : bytes_ok (buf s) → bytes_ok (sds_block s).
Proof. intros. unfold sds_block. rewrite !bytes_ok_app. auto with rtc. Qed.

Lemma length_sds_block s : length (sds_block s) = (8 + length (buf s))%nat.
Proof. unfold sds_block. rewrite !length_app, !length_le_encode. lia. Qed.

Lemma drop_sds_block s rest : drop 8 (sds_block s ++ rest) = buf s ++ rest.
Proof.
  unfold sds_block. rewrite <- !app_assoc, app_assoc. apply drop_app_length'.
  by rewrite length_app, !length_le_encode.
Qed.

Lemma sdsMakeRoomFor_spec s bs n :
  repr s bs → 0 ≤ n → room (Z.of_nat (length bs) + n) →
  ∃ s', sdsMakeRoomFor s n = Val s' ∧ repr s' bs ∧ n ≤ free s' ∧ (n ≤ free s → s' = s).
Proof.
  intros Hr Hn Hroom. repr_destruct Hr as tail.
  unfold sdsMakeRoomFor, sdsavail, sdslen. simpl. sds_bounds.
  rewrite (u64_small (Z.of_nat (length tail))) by lia.
  destruct (Z.leb_spec n (Z.of_nat (length tail))); [eexists; split_and!; done|].
  rewrite (u64_small (Z.of_nat (length bs))), (u64_small (_ + n)) by lia.
  set (newlen := if _ <? _ then _ else _).
  assert (Z.of_nat (length bs) + n ≤ newlen ≤ 2 * (Z.of_nat (length bs) + n) + 1048576) as Hnew.
  { unfold newlen. destruct (Z.ltb_spec (Z.of_nat (length bs) + n) (1024 * 1024)); rewrite u64_small; lia. }
  clearbody newlen. set (s0 := Sds _ _ _).
  destruct (zrealloc_grow (sds_block s0) (u64 (8 + newlen + 1))) as (rest & -> & Hl & Hok).
  { rewrite length_sds_block, u64_small by lia. simpl. len_solve. }
  { apply sds_block_bytes. apply bytes_ok_app; split; [done|by constructor]. }
  rewrite length_sds_block, u64_small in Hl by lia. cbn [of_alloc mbind_res].
  rewrite drop_sds_block. simpl. rewrite <- app_assoc. simpl.
  assert (newlen - Z.of_nat (length bs) = Z.of_nat (length (tail ++ rest))) as E.
  { simpl in Hl. len_solve. }
  rewrite E, u64_small, s32_small by (unfold INT_MIN, INT_MAX; lia).
  eexists. split_and!; [done| | |lia].
  - apply repr_intro; [done..|by apply bytes_ok_app|]. unfold INT_MAX. lia.
  - simpl. lia.
Qed.
Lemma sdsnewlen_spec src n :
  bytes_ok src → 0 ≤ n ≤ Z.of_nat (length src) → room n →
  ∃ s, sdsnewlen (Some src) n = Val s ∧ repr s (take (Z.to_nat n) src).
Proof.
  intros Hs Hn Hr. sds_bounds. unfold sdsnewlen, SDSHDR_SIZE.
  rewrite (u64_small (8 + n + 1)) by lia.
  destruct (zmalloc_ok (8 + n + 1)) as (b & -> & Hl & Hb); [lia|]. cbn [of_alloc mbind_res].
  assert (∃ x, (if n =? 0 then Val (drop 8 b) else
      let* d := of_mem (mread src 0 n) in of_mem (mwrite (drop 8 b) 0 d))
      = Val (take (Z.to_nat n) src ++ [x])) as [x ->].
  { destruct (drop (8 + Z.to_nat n) b) as [|x [|y rest]] eqn:E;
      [apply (f_equal length) in E; len_solve| |apply (f_equal length) in E; len_solve].
    exists x. destruct (Z.eqb_spec n 0) as [->|].
    - simpl. rewrite Nat.add_0_r in E. by rewrite E.
    - rewrite mread_take by lia. simpl. rewrite mwrite_front by len_solve. simpl.
      rewrite drop_drop. replace (length (take (Z.to_nat n) src)) with (Z.to_nat n) by len_solve.
      by rewrite E. }
  simpl. rewrite mwrite_nul by len_solve. simpl. eexists. split; [done|].
  rewrite s32_small by (unfold INT_MIN, INT_MAX; lia).
  apply repr_intro; [len_solve|done|auto with rtc|by constructor|unfold INT_MAX; lia].
Qed.

Lemma sdsempty_spec : ∃ s, sdsempty = Val s ∧ repr s [].
Proof.
  apply (sdsnewlen_spec [0] 0); [by constructor|simpl; lia|]. sds_bounds. lia.
Qed.

Lemma sdscatlen_spec s bs t l :
  repr s bs → bytes_ok t → 0 ≤ l ≤ Z.of_nat (length t) → room (Z.of_nat (length bs) + l) →
  ∃ s', sdscatlen s t l = Val s' ∧ repr s' (bs ++ take (Z.to_nat l) t).
Proof.
  intros Hr Ht Hl Hroom. unfold sdscatlen.
  assert (sdslen s = Z.of_nat (length bs)) as ->.
  { destruct Hr as [_ Hlen _ Hbd]. unfold sdslen. rewrite Hlen. sds_bounds.
    apply u64_small. lia. }
  destruct (sdsMakeRoomFor_spec s bs l) as (s' & -> & Hr' & Hf & _); [done|lia|done|].
  clear Hr. repr_destruct Hr' as tail. simpl in Hf. cbn [mbind_res buf free].
  rewrite mread_take by lia. cbn [mbind_res of_mem]. set (d := take _ t).
  assert (Z.of_nat (length d) = l) as Hd by (unfold d; len_solve).
  destruct (mwrite_tail bs tail d (Z.of_nat (length bs))) as [x ->]; [done|lia|].
  cbn [mbind_res of_mem]. sds_bounds.
  rewrite (u64_small (_ + l)), mwrite_nul by len_solve. cbn [mbind_res of_mem].
  eexists. split; [done|]. unwrap.
  apply repr_intro; [len_solve|len_solve| |by apply bytes_ok_drop|unfold INT_MAX; lia].
  apply bytes_ok_app; split; [done|by apply bytes_ok_take].
Qed.

(** Cutting the string down to [out], already moved to the front. *)
Lemma repr_shrink s bs out :
  repr s bs → bytes_ok out → (length out ≤ length bs)%nat →
  ∃ b, mwrite (out ++ drop (length out) (buf s)) (Z.of_nat (length out)) [0] = Some b ∧
    repr (Sds (s32 (Z.of_nat (length out)))
            (s32 (u64 (free s + (len s - Z.of_nat (length out))))) b) out.
Proof.
  intros Hr Ho Hl. repr_destruct Hr as tail. simpl. sds_bounds.
  destruct (drop (length out) (bs ++ 0 :: tail)) as [|x post] eqn:E.
  { apply (f_equal length) in E. len_solve. }
  rewrite mwrite_nul by done. eexists; split; [done|].
  assert (bytes_ok (x :: post)) as Hp.
  { rewrite <- E. apply bytes_ok_drop, bytes_ok_app; split; [done|by constructor]. }
  inversion Hp; subst. apply (f_equal length) in E. unwrap.
  apply repr_intro; [done|len_solve|done|done|unfold INT_MAX; lia].
Qed.

Lemma repr_content s bs :
  repr s bs → sdslen s = Z.of_nat (length bs) ∧ take (length bs) (buf s) = bs ∧
    (length bs < length (buf s))%nat ∧ bytes_ok bs.
Proof.
  intros Hr. repr_destruct Hr as tail. unfold sdslen. simpl. sds_bounds. unwrap.
  split_and!; [done|by rewrite take_app_length|len_solve|done].
Qed.

(** Moving a slice of the content to the front, terminating it and
    adjusting the header, as [sdstrim] and [sdsrange] do. *)
Lemma repr_slice s bs k n :
  repr s bs → (k + n ≤ length bs)%nat →
  ∃ s', mbind_res (λ b, let* b := of_mem (mwrite b (Z.of_nat n) [0]) in
          Val (Sds (s32 (Z.of_nat n)) (s32 (u64 (free s + (len s - Z.of_nat n)))) b))
        (let* d := of_mem (mread (buf s) (Z.of_nat k) (Z.of_nat n)) in of_mem (mwrite (buf s) 0 d)) = Val s' ∧
    repr s' (take n (drop k bs)).
Proof.
  intros Hr Hk. destruct (repr_content s bs Hr) as (_ & Hc & Hl & Hb).
  assert (mread (buf s) (Z.of_nat k) (Z.of_nat n) = Some (take n (drop k bs))) as ->.
  { rewrite <- (take_drop (length bs) (buf s)), Hc.
    rewrite <- (take_drop k bs) at 1. rewrite <- (take_drop n (drop k bs)) at 1.
    rewrite <- !app_assoc. apply mread_app; len_solve. }
  simpl. rewrite mwrite_front by len_solve. cbn [of_mem mbind_res].
  destruct (repr_shrink s bs (take n (drop k bs))) as (b & Hw & Hr'); [done|auto with rtc|len_solve|].
  assert (length (take n (drop k bs)) = n) as E by len_solve. rewrite E in Hw, Hr'.
  rewrite E, Hw. simpl. eauto.
Qed.

Lemma repr_slice0 s bs n :
  repr s bs → (n ≤ length bs)%nat →
  ∃ s', mbind_res (λ b, let* b := of_mem (mwrite b (Z.of_nat n) [0]) in
          Val (Sds (s32 (Z.of_nat n)) (s32 (u64 (free s + (len s - Z.of_nat n)))) b))
        (Val (buf s)) = Val s' ∧
    repr s' (take n bs).
Proof.
  intros Hr Hn. destruct (repr_content s bs Hr) as (_ & Hc & Hl & Hb).
  destruct (repr_shrink s bs (take n bs)) as (b & Hw & Hr'); [done|auto with rtc|len_solve|].
  assert (length (take n bs) = n) as E by len_solve. rewrite E in Hw, Hr'.
  assert (take n bs ++ drop n (buf s) = buf s) as F.
  { rewrite <- Hc at 1. rewrite take_take, Nat.min_l by lia. apply take_drop. }
  rewrite F in Hw. simpl. rewrite Hw. simpl. eauto.
Qed.

Lemma sdsclear_spec s bs : repr s bs → ∃ s', sdsclear s = Val s' ∧ repr s' [].
Proof.
  intros Hr. destruct (repr_shrink s bs []) as (b & Hw & Hr'); [done|by constructor|simpl; lia|].
  simpl in *. unfold sdsclear. rewrite drop_0 in Hw. change (Z.of_nat 0) with 0 in *. rewrite Hw. simpl. eexists; split; [done|].
  destruct Hr as [(tail & _ & Hf) Hlen _ Hbd]. sds_bounds.
  rewrite Z.sub_0_r, u64_small in Hr' by lia. exact Hr'.
Qed.

(** *** sdstrim *)

Lemma scan_fwd_spec f cs :
  let k := scan_fwd f cs in
  (k ≤ length cs)%nat ∧ Forall (λ c, f c = true) (take k cs) ∧
  (k < length cs → f (cs !!! k) = false)%nat.
Proof.
  induction cs as [|c cs IH]; simpl; [split_and!; [lia|constructor|lia]|].
  destruct IH as (H1 & H2 & H3). destruct (f c) eqn:E; simpl; split_and!; try lia.
  - by constructor.
  - intros. apply H3. lia.
  - constructor.
  - done.
Qed.

Lemma scan_back_spec f cs ep :
  let r := scan_back f cs ep in
  (r ≤ ep)%nat ∧ (∀ i, r < i ≤ ep → f (cs !!! i) = true)%nat ∧ (r = 0%nat ∨ f (cs !!! r) = false).
Proof.
  induction ep as [|ep IH]; [simpl; split_and!; [lia|lia|by left]|].
  cbn [scan_back]. destruct (f (cs !!! S ep)) eqn:E.
  - destruct IH as (H1 & H2 & H3). split_and!; [lia| |done].
    intros i Hi. destruct (decide (i = S ep)) as [->|]; [done|]. apply H2. lia.
  - split_and!; [lia|lia|by right].
Qed.

(** [out] is [bs] without the characters of the set at both ends. *)
Definition trimmed (f : Z → bool) (bs out : list Z) : Prop :=
  ∃ pre post, bs = pre ++ out ++ post ∧
    Forall (λ c, f c = true) pre ∧ Forall (λ c, f c = true) post ∧
    (∀ c, list.head out = Some c → f c = false) ∧ (∀ c, list.last out = Some c → f c = false).

Lemma trimmed_slice f bs k r :
  (k ≤ r < length bs)%nat → Forall (λ c, f c = true) (take k bs) →
  (∀ i, r < i ≤ length bs - 1 → f (bs !!! i) = true)%nat →
  f (bs !!! k) = false → f (bs !!! r) = false →
  trimmed f bs (take (r - k + 1) (drop k bs)).
Proof.
  intros Hk Hpre Hpost Hfk Hfr. exists (take k bs), (drop (r + 1) bs). split_and!.
  - replace (r + 1)%nat with (k + (r - k + 1))%nat by lia.
    by rewrite <- drop_drop, !take_drop.
  - done.
  - apply Forall_lookup. intros i c. rewrite lookup_drop. intros Hc.
    rewrite <- (list_lookup_total_correct _ _ _ Hc). apply Hpost.
    apply lookup_lt_Some in Hc. lia.
  - intros c. rewrite head_lookup, lookup_take_lt, lookup_drop, Nat.add_0_r by lia.
    intros Hc. by rewrite <- (list_lookup_total_correct _ _ _ Hc).
  - intros c. rewrite last_lookup, length_take, length_drop.
    replace (Init.Nat.pred _) with (r - k)%nat by lia.
    rewrite lookup_take_lt, lookup_drop by lia. replace (k + (r - k))%nat with r by lia.
    intros Hc. by rewrite <- (list_lookup_total_correct _ _ _ Hc).
Qed.

Lemma repr_cut s bs k n :
  repr s bs → (k + n ≤ length bs)%nat →
  ∃ s', mbind_res (λ b, let* b := of_mem (mwrite b (Z.of_nat n) [0]) in
          Val (Sds (s32 (Z.of_nat n)) (s32 (u64 (free s + (len s - Z.of_nat n)))) b))
        (if Z.of_nat k =? 0 then Val (buf s)
         else let* d := of_mem (mread (buf s) (Z.of_nat k) (Z.of_nat n)) in of_mem (mwrite (buf s) 0 d)) = Val s' ∧
    repr s' (take n (drop k bs)).
Proof.
  intros Hr Hk. destruct (Z.eqb_spec (Z.of_nat k) 0) as [E|E]; [|by apply repr_slice].
  assert (k = 0%nat) as -> by lia. rewrite drop_0. apply repr_slice0; [done|lia].
Qed.

Lemma trimmed_all f bs : Forall (λ c, f c = true) bs → trimmed f bs [].
Proof. intros. exists bs, []. rewrite app_nil_r. by split_and!. Qed.

Lemma sdstrim_spec s bs cset :
  repr s bs → ∃ s' out, sdstrim s cset = Val s' ∧ repr s' out ∧ trimmed (strchr cset) bs out.
Proof.
  intros Hr. destruct (repr_content s bs Hr) as (Hn & Hc & Hl & Hb).
  unfold sdstrim. rewrite Hn, Nat2Z.id, Hc. set (f := strchr cset).
  destruct (scan_fwd_spec f bs) as (Hk & Hpre & Hhd). set (k := scan_fwd f bs) in *.
  set (ep := if _ =? 0 then _ else _). set (n := if ep <? _ then _ else _).
  assert (∃ m, n = Z.of_nat m ∧ (k + m ≤ length bs)%nat ∧ trimmed f bs (take m (drop k bs))) as (m & -> & Hm & Htr).
  { unfold n, ep. destruct (Z.eqb_spec (Z.of_nat (length bs)) 0) as [E|E].
    - exists 0%nat. destruct bs; [|simpl in E; lia]. rewrite (proj2 (Z.ltb_lt _ _)) by lia.
      split_and!; [done|simpl in *; lia|]. by apply trimmed_all.
    - replace (Z.to_nat (Z.of_nat (length bs) - 1)) with (length bs - 1)%nat by lia.
      destruct (scan_back_spec f bs (length bs - 1)) as (Hr1 & Hr2 & Hr3).
      set (r := scan_back f bs (length bs - 1)) in *.
      destruct (decide (k = length bs)) as [Ek|Ek].
      + exists 0%nat. rewrite take_ge in Hpre by lia. destruct Hr3 as [Hr3|Hr3].
        * rewrite (proj2 (Z.ltb_lt _ _)) by lia. split_and!; [done|lia|by apply trimmed_all].
        * exfalso. rewrite Forall_lookup in Hpre.
          destruct (lookup_lt_is_Some_2 bs r) as [c Hc']; [lia|].
          rewrite (list_lookup_total_correct _ _ _ Hc') in Hr3.
          specialize (Hpre _ _ Hc'). simpl in Hpre. congruence.
      + assert (k ≤ r)%nat as Hkr.
        { destruct (decide (k ≤ r)%nat); [done|]. exfalso.
          rewrite Hr2 in Hhd by lia. by specialize (Hhd ltac:(lia)). }
        exists (r - k + 1)%nat. rewrite (proj2 (Z.ltb_ge _ _)) by lia.
        split_and!; [lia|lia|]. apply trimmed_slice; [lia|done|done|by apply Hhd; lia|].
        destruct Hr3 as [Hr3|Hr3]; [|done]. replace r with k by lia. apply Hhd. lia. }
  destruct (repr_cut s bs k m Hr Hm) as (s' & Hs' & Hr'). eauto.
Qed.

(** *** sdsrange *)

(** Negative indices count from the end; both ends are clamped. *)
Definition range_index (n i : Z) : Z := if i <? 0 then Z.max 0 (n + i) else i.

Definition range_of (bs : list Z) (start end_ : Z) : list Z :=
  let n := Z.of_nat (length bs) in
  let a := range_index n start in
  let b := Z.min (range_index n end_) (n - 1) in
  take (Z.to_nat (b - a + 1)) (drop (Z.to_nat a) bs).

Lemma repr_cut2 s bs start n :
  repr s bs → 0 ≤ start → 0 ≤ n → (n = 0 ∨ start + n ≤ Z.of_nat (length bs)) →
  ∃ s', mbind_res (λ b, let* b := of_mem (mwrite b n [0]) in
          Val (Sds (s32 n) (s32 (u64 (free s + (len s - n)))) b))
        (if negb (start =? 0) && negb (n =? 0)
         then let* d := of_mem (mread (buf s) start n) in of_mem (mwrite (buf s) 0 d)
         else Val (buf s)) = Val s' ∧
    repr s' (take (Z.to_nat n) (drop (Z.to_nat start) bs)).
Proof.
  intros Hr Hs Hn Hb.
  destruct (Z.eqb_spec n 0) as [->|En]; [rewrite andb_false_r; by apply (repr_slice0 s bs 0); [|lia]|].
  rewrite andb_true_r. rewrite <- (Z2Nat.id start), <- (Z2Nat.id n), !Nat2Z.id by lia.
  destruct (repr_cut s bs (Z.to_nat start) (Z.to_nat n)) as (s' & H1 & H2); [done|lia|].
  exists s'. split; [|done]. rewrite <- H1. by destruct (_ =? 0).
Qed.

Lemma s32_index n i :
  0 ≤ n ≤ INT_MAX → INT_MIN ≤ i ≤ INT_MAX →
  (if i <? 0 then let i' := s32 (u64 (n + i)) in if i' <? 0 then 0 else i' else i) = range_index n i.
Proof.
  intros Hn Hi. unfold range_index, INT_MIN, INT_MAX in *. destruct (Z.ltb_spec i 0); [|done].
  assert (s32 (u64 (n + i)) = n + i) as ->.
  { destruct (decide (0 ≤ n + i)); [unwrap; done|].
    unfold uwrap. replace (n + i) with (n + i + 2 ^ 64 + -1 * 2 ^ 64) at 1 by lia.
    rewrite Z.mod_add, (Z.mod_small _ (2 ^ 64)) by lia. unfold swrap.
    replace (_ + _ + _) with (n + i + 2 ^ 31 + 4294967296 * 2 ^ 32) by lia.
    rewrite Z.mod_add, Z.mod_small by lia. lia. }
  cbv zeta. destruct (Z.ltb_spec (n + i) 0); lia.
Qed.

Lemma sdsrange_spec s bs start end_ :
  repr s bs → INT_MIN ≤ start ≤ INT_MAX → INT_MIN ≤ end_ < INT_MAX →
  ∃ s', sdsrange s start end_ = Val s' ∧ repr s' (range_of bs start end_).
Proof.
  intros Hr Hs He. destruct (repr_content s bs Hr) as (Hn & _ & _ & _).
  assert (Z.of_nat (length bs) ≤ INT_MAX) as Hb by (destruct Hr as [(? & _ & Hf) ? _ ?]; lia).
  unfold sdsrange. rewrite Hn. destruct (Z.eqb_spec (Z.of_nat (length bs)) 0) as [E|E].
  { exists s. split; [done|]. destruct bs; [|done]. unfold range_of. by rewrite drop_nil, take_nil. }
  rewrite !s32_index by lia. unfold range_of. set (n := Z.of_nat (length bs)) in *.
  assert (0 ≤ range_index n start) as Ha by (unfold range_index; destruct (Z.ltb_spec start 0); lia).
  assert (0 ≤ range_index n end_ < INT_MAX) as Hz by (unfold range_index; destruct (Z.ltb_spec end_ 0); unfold INT_MAX in *; lia).
  set (a := range_index n start) in *. set (z := range_index n end_) in *. clearbody a z.
  assert ((if z <? a then Val 0 else if z - a + 1 <=? INT_MAX then Val (u64 (z - a + 1)) else Undef)
          = Val (if z <? a then 0 else z - a + 1)) as ->.
  { destruct (Z.ltb_spec z a); [done|]. rewrite (proj2 (Z.leb_le _ _)) by lia. f_equal.
    unfold INT_MAX in *. apply u64_small. lia. }
  cbn [mbind_res]. rewrite (s32_small n), (u64_small (n - 1)), (s32_small (n - 1))
    by (unfold INT_MIN, INT_MAX in *; lia).
  set (r := if _ =? 0 then _ else _).
  assert (∃ st m, r = (st, m) ∧ 0 ≤ st ∧ 0 ≤ m ∧ (m = 0 ∨ st + m ≤ n) ∧
    take (Z.to_nat m) (drop (Z.to_nat st) bs) = take (Z.to_nat (Z.min z (n - 1) - a + 1)) (drop (Z.to_nat a) bs))
    as (st & m & -> & Hst & Hm & Hor & <-).
  2: by apply repr_cut2.
  unfold INT_MAX in *. unfold r. destruct (Z.ltb_spec z a).
  { exists 0, 0. split_and!; try lia; [done|]. by replace (Z.to_nat (Z.min z (n - 1) - a + 1)) with 0%nat by lia. }
  rewrite (proj2 (Z.eqb_neq _ _)) by lia. destruct (Z.leb_spec n a).
  { exists a, 0. split_and!; try lia; [done|]. by replace (Z.to_nat (Z.min z (n - 1) - a + 1)) with 0%nat by lia. }
  destruct (Z.leb_spec n z).
  - rewrite (proj2 (Z.ltb_ge _ _)) by lia. rewrite u64_small by lia.
    exists a, (n - 1 - a + 1). split_and!; try lia; [done|]. by replace (Z.min z (n - 1)) with (n - 1) by lia.
  - exists a, (z - a + 1). split_and!; try lia; [done|]. by replace (Z.min z (n - 1)) with z by lia.
Qed.

(** *** Growing, copying, receiving *)

Lemma sdsIncrLen_spec bs tail d :
  bytes_ok bs → bytes_ok tail → bytes_ok d → (length d ≤ length tail)%nat →
  Z.of_nat (length bs) + Z.of_nat (length tail) + 9 ≤ INT_MAX →
  ∃ b s', mwrite (bs ++ 0 :: tail) (Z.of_nat (length bs)) d = Some b ∧
    sdsIncrLen (Sds (Z.of_nat (length bs)) (Z.of_nat (length tail)) b) (Z.of_nat (length d)) = Val s' ∧
    repr s' (bs ++ d).
Proof.
  intros Hb Ht Hd Hl Hbd. sds_bounds.
  destruct (mwrite_tail bs tail d (Z.of_nat (length bs))) as [x ->]; [done|done|].
  exists ((bs ++ d) ++ x :: drop (length d) tail). unfold sdsIncrLen. simpl.
  rewrite (proj2 (Z.leb_le (Z.of_nat (length d)) _)) by lia. simpl. unwrap.
  rewrite (proj2 (Z.leb_le 0 _)) by lia. simpl. rewrite mwrite_nul by len_solve. simpl.
  eexists. split_and!; [done|done|].
  apply repr_intro; [len_solve|len_solve|by apply bytes_ok_app|by apply bytes_ok_drop|unfold INT_MAX; len_solve].
Qed.

Lemma sdsgrowzero_spec s bs l :
  repr s bs → 0 ≤ l → room l →
  ∃ s', sdsgrowzero s l = Val s' ∧
    repr s' (bs ++ replicate (Z.to_nat l - length bs) 0).
Proof.
  intros Hr Hl Hroom. unfold sdsgrowzero.
  assert (u64 (len s) = Z.of_nat (length bs)) as E by apply (repr_content s bs Hr).
  rewrite E. destruct (Z.leb_spec l (Z.of_nat (length bs))).
  { exists s. split; [done|]. replace (Z.to_nat l - length bs)%nat with 0%nat by lia. by rewrite app_nil_r. }
  rewrite (u64_small (l - _)) by (sds_bounds; lia).
  destruct (sdsMakeRoomFor_spec s bs (l - Z.of_nat (length bs))) as (s' & -> & Hr' & Hf & _);
    [done|lia|by replace (_ + _) with l by lia|].
  clear Hr E. repr_destruct Hr' as tail. cbn [mbind_res buf len free] in *. sds_bounds.
  rewrite (u64_small (l - Z.of_nat (length bs) + 1)) by lia.
  set (k := (Z.to_nat l - length bs)%nat).
  replace (Z.to_nat (l - Z.of_nat (length bs) + 1)) with (k + 1)%nat by (unfold k; lia).
  rewrite replicate_add, <- (take_drop k tail).
  assert (length (take k tail) = k) as Hk by (unfold k; len_solve).
  change (bs ++ 0 :: take k tail ++ drop k tail) with (bs ++ (0 :: take k tail) ++ drop k tail).
  rewrite mwrite_app; [|done|simpl; rewrite length_app, !length_replicate; simpl; lia].
  cbn [of_mem mbind_res]. eexists. split; [done|]. unwrap. rewrite <- app_assoc, app_assoc. simpl.
  apply repr_intro.
  - unfold k. len_solve.
  - unfold k in *. len_solve.
  - apply bytes_ok_app; split; [done|]. by apply Forall_replicate.
  - by apply bytes_ok_drop.
  - unfold INT_MAX. len_solve.
Qed.

Lemma sdscpylen_spec s bs t l :
  repr s bs → bytes_ok t → 0 ≤ l ≤ Z.of_nat (length t) → room l →
  ∃ s', sdscpylen s t l = Val s' ∧ repr s' (take (Z.to_nat l) t).
Proof.
  intros Hr Ht Hl Hroom. unfold sdscpylen.
  set (sel := if _ <? _ then _ else _).
  assert (∃ s' bs', sel = Val (s', len s' + free s') ∧ repr s' bs' ∧ l ≤ len s' + free s') as (s' & bs' & -> & Hr' & Hle).
  { unfold sel. pose proof Hr as Hr0. repr_destruct Hr0 as tail. simpl. sds_bounds. unwrap.
    destruct (Z.ltb_spec (Z.of_nat (length tail) + Z.of_nat (length bs)) l).
    - rewrite (u64_small (l - _)) by lia.
      destruct (sdsMakeRoomFor_spec _ bs (l - Z.of_nat (length bs)) Hr) as (s' & -> & Hr' & Hf & _);
        [lia|unfold room, SDS_MAX_PREALLOC, INT_MAX; lia|].
      cbn [mbind_res]. exists s', bs. clear Hr. repr_destruct Hr' as tl'. simpl in *. unfold INT_MAX in *.
      rewrite u64_small by lia. split_and!; [do 2 f_equal; lia|done|lia].
    - eexists _, bs. split_and!; [do 2 f_equal; simpl; lia|done|simpl; lia]. }
  clear Hr. cbn [mbind_res]. rewrite mread_take by lia. cbn [mbind_res of_mem].
  repr_destruct Hr' as tail. simpl in Hle |- *. sds_bounds. set (d := take _ t).
  assert (Z.of_nat (length d) = l) as Hd by (unfold d; len_solve).
  rewrite mwrite_front by len_solve. cbn [mbind_res of_mem].
  destruct (drop (length d) (bs' ++ 0 :: tail)) as [|x post] eqn:E.
  { apply (f_equal length) in E. len_solve. }
  assert (bytes_ok (x :: post)) as Hp.
  { rewrite <- E. apply bytes_ok_drop, bytes_ok_app; split; [done|by constructor]. }
  apply Forall_cons_1 in Hp as [_ Hp]. apply (f_equal length) in E.
  rewrite mwrite_nul by done. cbn [mbind_res of_mem].
  eexists. split; [done|]. unwrap.
  apply repr_intro; [done|len_solve|by apply bytes_ok_take|done|unfold INT_MAX; lia].
Qed.
End Theory.
