(* ===== verification/SdsText.v ===== *)
(** * Text functions of the string library

    Theory of the operations of [Sds] that print and parse: formatted
    append, decimal printing, splitting on a separator, and the quoted form
    written by [sdscatrepr] and read back by [sdssplitargs]. *)

From S2P Require Import Prelude Zmalloc Sds.

Section SdsText.
Context {A : Allocator} {AS : AllocatorSpec} {AT : AllocatorTotal}.

(** ** sdscatvprintf *)

(** The temporary buffer after [vsnprintf]: the text and its terminator if
    they fit below the sentinel, else a cut text that overwrites it. *)
Lemma printf_buffer (b out : list Z) n :
  Z.of_nat (length b) = n → 16 ≤ n → Forall (λ c, c ≠ 0) out → bytes_ok b → bytes_ok out →
  ∃ b', bytes_ok b' ∧ (let* b := of_mem (mwrite b (n - 2) [0]) in vsnprintf b n out) = Val b' ∧
    (Z.of_nat (length out) ≤ n - 2 →
       b' !! Z.to_nat (n - 2) = Some 0 ∧ ∃ rest, b' = out ++ 0 :: rest) ∧
    (n - 2 < Z.of_nat (length out) → ∃ c, b' !! Z.to_nat (n - 2) = Some c ∧ c ≠ 0).
Proof.
  intros Hb Hn Hnz Hokb Hoko.
  set (k := Z.to_nat (n - 2)).
  assert (∃ b1, mwrite b (n - 2) [0] = Some b1 ∧ length b1 = length b ∧ bytes_ok b1 ∧ b1 !! k = Some 0)
    as (b1 & -> & Hl1 & Hok1 & Hk1).
  { rewrite <- (take_drop k b). destruct (drop k b) as [|x post] eqn:E.
    - apply (f_equal length) in E. unfold k in E. len_solve.
    - pose proof E as E0. apply (f_equal length) in E. exists (take k b ++ 0 :: post).
      rewrite mwrite_nul by (unfold k in *; len_solve). split_and!; [done|len_solve| |].
      { rewrite <- (take_drop k b), E0, bytes_ok_app in Hokb. destruct Hokb as [? Hp].
        apply bytes_ok_app; split; [done|]. apply Forall_cons_1 in Hp as [_ ?]. by constructor. }
      rewrite lookup_app_r by len_solve.
      replace (k - length (take k b))%nat with 0%nat by (unfold k in *; len_solve). done. }
  simpl. unfold vsnprintf. set (w := take (Z.to_nat (n - 1)) out).
  assert (Z.of_nat (length w) ≤ n - 1) as Hw by (unfold w; len_solve).
  rewrite mwrite_front by len_solve. cbn [of_mem].
  eexists. split_and!; [|done|intros Ho..].
  - rewrite !bytes_ok_app. split_and!; [by apply bytes_ok_take|solve_bytes|by apply bytes_ok_drop].
  - assert (w = out) as -> by (unfold w; apply take_ge; lia).
    split; [|rewrite <- app_assoc; simpl; eauto].
    destruct (decide (k = length out)) as [E|E].
    + rewrite <- app_assoc, lookup_app_r by lia. by rewrite E, Nat.sub_diag.
    + rewrite lookup_app_r, lookup_drop by (unfold k in *; len_solve).
      replace (_ + _)%nat with k by (unfold k in *; len_solve). done.
  - destruct (lookup_lt_is_Some_2 out k) as [c Hc]; [unfold k; lia|]. exists c. split.
    + rewrite <- app_assoc, lookup_app_l by (unfold w, k in *; len_solve).
      unfold w. rewrite lookup_take_lt by (unfold k; lia). done.
    + rewrite Forall_lookup in Hnz. eauto.
Qed.

Lemma sdscat_spec s bs out rest :
  repr s bs → bytes_ok (out ++ 0 :: rest) → Forall (λ c, c ≠ 0) out →
  room (Z.of_nat (length bs) + Z.of_nat (length out)) →
  ∃ s', sdscat s (out ++ 0 :: rest) = Val s' ∧ repr s' (bs ++ out).
Proof.
  intros Hr Hb Hnz Hroom. unfold sdscat. rewrite strlen_app by done. cbn [of_mem mbind_res].
  destruct (sdscatlen_spec s bs (out ++ 0 :: rest) (Z.of_nat (length out))) as (s' & E & Hr');
    [done|done|len_solve|done|].
  rewrite Nat2Z.id, take_app_length in Hr'. eauto.
Qed.

(** One turn of the loop: it either appends the text or doubles. *)
Lemma printf_loop_step fuel s bs n out :
  repr s bs → Forall (λ c, c ≠ 0) out → bytes_ok out →
  room (Z.of_nat (length bs) + Z.of_nat (length out)) →
  16 ≤ n ≤ 2 * Z.of_nat (length out) + 16 →
  (Z.of_nat (length out) ≤ n - 2 ∧
     ∃ s', sdscatvprintf_loop (S fuel) s n out = Val s' ∧ repr s' (bs ++ out)) ∨
  (n - 2 < Z.of_nat (length out) ∧
     sdscatvprintf_loop (S fuel) s n out = sdscatvprintf_loop fuel s (n * 2) out).
Proof.
  intros Hr Hnz Hb Hroom Hn. unfold room, SDS_MAX_PREALLOC, INT_MAX in Hroom.
  destruct (zmalloc_ok n) as (b & Hm & Hl & Hok); [lia|].
  destruct (printf_buffer b out n) as (b' & Hok' & Hb' & Hfit & Hcut); [lia|lia|done..|].
  assert (sdscatvprintf_loop (S fuel) s n out =
    let* c := of_mem (b' !! Z.to_nat (n - 2)) in
    if c =? 0 then sdscat s b' else sdscatvprintf_loop fuel s (u64 (n * 2)) out) as ->.
  { cbn [sdscatvprintf_loop]. rewrite Hm. cbn [of_alloc mbind_res].
    destruct (mwrite b (n - 2) [0]) as [b1|]; [|done]. cbn [of_mem mbind_res] in *. by rewrite Hb'. }
  destruct (Z.le_gt_cases (Z.of_nat (length out)) (n - 2)).
  - left. split; [done|]. destruct Hfit as [-> [rest ->]]; [lia|].
    by apply sdscat_spec.
  - right. split; [lia|]. destruct Hcut as (c & -> & Hc); [lia|]. cbn [of_mem mbind_res].
    rewrite (proj2 (Z.eqb_neq _ _)) by done. by rewrite u64_small by lia.
Qed.

Lemma printf_loop_spec fuel s bs n out :
  repr s bs → Forall (λ c, c ≠ 0) out → bytes_ok out →
  room (Z.of_nat (length bs) + Z.of_nat (length out)) →
  16 ≤ n ≤ 2 * Z.of_nat (length out) + 16 →
  Z.of_nat (length out) + 2 ≤ n + Z.of_nat fuel →
  ∃ s', sdscatvprintf_loop (S fuel) s n out = Val s' ∧ repr s' (bs ++ out).
Proof.
  intros Hr Hnz Hb Hroom. revert n. induction fuel as [|fuel IH]; intros n Hn Hf;
    (edestruct printf_loop_step as [[_ ?]|[Hlt E]]; [done..|done|]); [lia|].
  rewrite E. apply IH; lia.
Qed.

Lemma sdscatprintf_spec s bs out :
  repr s bs → Forall (λ c, c ≠ 0) out → bytes_ok out →
  room (Z.of_nat (length bs) + Z.of_nat (length out)) →
  ∃ s', sdscatprintf s out = Val s' ∧ repr s' (bs ++ out).
Proof. intros. apply printf_loop_spec; [done..|lia|lia]. Qed.

(** ** Decimal printing *)

(** Horner's rule on decimal digits, the reading the printer is checked
    against. *)
Definition dec_value (ds : list Z) : Z := foldl (λ v d, v * 10 + (d - 48)) 0 ds.

Definition read_longlong (ds : list Z) : Z :=
  match ds with
  | d :: ds' => if d =? 45 then - dec_value ds' else dec_value ds
  | [] => 0
  end.

Lemma dec_value_cons d ds : dec_value (d :: ds) = (d - 48) * 10 ^ Z.of_nat (length ds) + dec_value ds.
Proof.
  unfold dec_value. simpl. rewrite Z.add_0_l. generalize (d - 48) as v.
  induction ds as [|e ds IH] using rev_ind; intros v; [simpl; lia|].
  rewrite !foldl_snoc, IH, length_app. simpl.
  rewrite Nat2Z.inj_add, Z.pow_add_r by lia. lia.
Qed.

Lemma digits_loop_spec fuel v acc :
  0 ≤ v < 10 ^ Z.of_nat fuel → (0 < fuel)%nat →
  ∃ ds, digits_loop fuel v acc = ds ++ acc ∧ dec_value ds = v ∧ (1 ≤ length ds ≤ fuel)%nat ∧
    Forall (λ d, 48 ≤ d ≤ 57) ds.
Proof.
  revert v acc. induction fuel as [|fuel IH]; intros v acc Hv Hf; [lia|]. cbn [digits_loop].
  pose proof (Z.mod_pos_bound v 10). pose proof (Z.div_mod v 10).
  destruct (Z.eqb_spec (v `div` 10) 0) as [E|E].
  - exists [48 + v `mod` 10]. split_and!; [done|unfold dec_value; simpl; lia|simpl; lia..|].
    constructor; [lia|constructor].
  - destruct (IH (v `div` 10) ((48 + v `mod` 10) :: acc)) as (ds & -> & Hd & Hl & Hds).
    { rewrite Nat2Z.inj_succ, Z.pow_succ_r in Hv by lia.
      split; [apply Z.div_pos; lia|apply Z.div_lt_upper_bound; lia]. }
    { destruct fuel; [|lia]. change (10 ^ Z.of_nat 1) with 10 in Hv. rewrite Z.div_small in E; lia. }
    exists (ds ++ [48 + v `mod` 10]). rewrite <- app_assoc. split_and!; [done| |len_solve..|].
    + unfold dec_value in *. rewrite foldl_snoc, Hd. lia.
    + apply Forall_app; split; [done|]. constructor; [lia|constructor].
Qed.

Lemma sdsfromlonglong_spec value :
  - 2 ^ 63 < value < 2 ^ 63 →
  ∃ s ds, sdsfromlonglong value = Val s ∧ repr s ds ∧ read_longlong ds = value.
Proof.
  intros Hv. unfold sdsfromlonglong. rewrite (proj2 (Z.eqb_neq _ _)) by lia.
  set (v := if value <? 0 then - value else value).
  assert (0 ≤ v < 2 ^ 63) as Hv' by (unfold v; destruct (Z.ltb_spec value 0); lia).
  destruct (digits_loop_spec 20 v []) as (ds & -> & Hd & Hl & Hds); [lia|lia|]. rewrite app_nil_r.
  assert (bytes_ok ds) as Hok by (eapply Forall_impl; [exact Hds|unfold byte_ok; simpl; intros; lia]).
  set (out := if value <? 0 then 45 :: ds else ds).
  assert (bytes_ok out ∧ (length out ≤ 21)%nat ∧ read_longlong out = value) as (Ho & Hlo & Hro).
  { unfold out, v in *. destruct (Z.ltb_spec value 0); split_and!.
    - by constructor.
    - simpl; lia.
    - simpl. lia.
    - done.
    - lia.
    - destruct ds as [|d ds']; [simpl in Hl; lia|]. apply Forall_cons_1 in Hds as [? _]. simpl.
      rewrite (proj2 (Z.eqb_neq _ _)) by lia. exact Hd. }
  destruct (sdsnewlen_spec out (Z.of_nat (length out))) as (s & E & Hr); [done|lia| |].
  { unfold room, SDS_MAX_PREALLOC, INT_MAX. lia. }
  rewrite Nat2Z.id, take_ge in Hr by lia. eauto.
Qed.

(** ** The quoted form: sdscatrepr and sdssplitargs *)

Definition escape (c : Z) : list Z :=
  if (c =? 92) || (c =? 34) then [92; c]
  else if c =? 10 then [92; 110] else if c =? 13 then [92; 114]
  else if c =? 9 then [92; 116] else if c =? 7 then [92; 97]
  else if c =? 8 then [92; 98]
  else if isprint c then [c] else hex_escape c.

Definition quoted (cs : list Z) : list Z := 34 :: concat (escape <$> cs) ++ [34].

Lemma hex_char_range d : 0 ≤ d < 16 → 48 ≤ hex_char d ≤ 102.
Proof. intros. unfold hex_char. destruct (Z.ltb_spec d 10); lia. Qed.

Lemma hex_char_decode d : 0 ≤ d < 16 → is_hex_digit (hex_char d) = true ∧ hex_digit_to_int (hex_char d) = d.
Proof.
  intros Hd. unfold is_hex_digit, hex_digit_to_int, hex_char.
  destruct (Z.ltb_spec d 10).
  - rewrite !(proj2 (Z.leb_le _ _)) by lia. simpl. split; [done|lia].
  - rewrite (proj2 (Z.leb_gt (87 + d) 57)), !(proj2 (Z.leb_le _ _)) by lia.
    simpl. split; [done|lia].
Qed.

Lemma nibbles c : byte_ok c → 0 ≤ c `div` 16 < 16 ∧ 0 ≤ c `mod` 16 < 16.
Proof.
  unfold byte_ok. intros. split; [|apply Z.mod_pos_bound; lia].
  split; [apply Z.div_pos; lia|apply Z.div_lt_upper_bound; lia].
Qed.

Lemma hex_escape_ok c : byte_ok c → bytes_ok (hex_escape c) ∧ Forall (λ d, d ≠ 0) (hex_escape c).
Proof.
  intros Hc. destruct (nibbles c Hc) as [H1 H2].
  pose proof (hex_char_range _ H1). pose proof (hex_char_range _ H2).
  unfold bytes_ok, byte_ok. split; solve_bytes.
Qed.

Lemma escape_length c : (1 ≤ length (escape c) ≤ 4)%nat.
Proof. unfold escape. repeat case_match; simpl; lia. Qed.

Lemma escapes_length cs : (length cs ≤ length (concat (escape <$> cs)) ≤ 4 * length cs)%nat.
Proof.
  induction cs as [|c cs IH]; [simpl; lia|]. rewrite fmap_cons. cbn [concat].
  pose proof (escape_length c). rewrite length_app. simpl length. lia.
Qed.

Lemma catrepr_char_spec s bs c :
  repr s bs → byte_ok c → room (Z.of_nat (length bs) + 4) →
  ∃ s', catrepr_char s c = Val s' ∧ repr s' (bs ++ escape c).
Proof.
  intros Hr Hc Hroom. unfold catrepr_char, escape, isprint.
  assert (∀ x y, byte_ok x → byte_ok y →
     ∃ s', sdscatlen s [x; y] 2 = Val s' ∧ repr s' (bs ++ [x; y])) as Hcat.
  { intros x y Hx Hy. apply (sdscatlen_spec s bs [x; y] 2); [done|solve_bytes|simpl; lia|].
    unfold room in *. lia. }
  assert (∀ out, bytes_ok out → Forall (λ d, d ≠ 0) out → (length out ≤ 4)%nat →
     ∃ s', sdscatprintf s out = Val s' ∧ repr s' (bs ++ out)) as Hpr.
  { intros out Ho Hnz Hl. apply sdscatprintf_spec; [done..|]. unfold room in *. lia. }
  repeat case_match; reflect_Z; try (apply Hcat; unfold byte_ok; lia).
  - apply Hpr; [solve_bytes| |simpl; lia]. destruct (Z.eqb_spec c 92), (Z.eqb_spec c 34); simpl in *; try done; solve_bytes.
  - apply Hpr; [solve_bytes|solve_bytes|simpl; lia].
  - destruct (hex_escape_ok c Hc). apply Hpr; [done|done|]. simpl; lia.
Qed.

Lemma catrepr_loop_spec s bs cs :
  repr s bs → bytes_ok cs → room (Z.of_nat (length bs) + 4 * Z.of_nat (length cs)) →
  ∃ s', catrepr_loop s cs = Val s' ∧ repr s' (bs ++ concat (escape <$> cs)).
Proof.
  intros Hr Hcs. revert s bs Hr. induction Hcs as [|c cs Hc _ IH]; intros s bs Hr Hroom.
  - exists s. by rewrite app_nil_r.
  - unfold room in *. simpl in *.
    destruct (catrepr_char_spec s bs c) as (s1 & -> & Hr1); [done|done|unfold room; lia|]. simpl.
    destruct (IH s1 (bs ++ escape c) Hr1) as (s2 & E & Hr2).
    { pose proof (escape_length c). len_solve. }
    exists s2. by rewrite <- app_assoc in Hr2.
Qed.

Lemma sdscatrepr_spec s bs p l :
  repr s bs → bytes_ok p → 0 ≤ l ≤ Z.of_nat (length p) → room (Z.of_nat (length bs) + 4 * l + 2) →
  ∃ s', sdscatrepr s p l = Val s' ∧ repr s' (bs ++ quoted (take (Z.to_nat l) p)).
Proof.
  intros Hr Hp Hl Hroom. unfold sdscatrepr, room in *.
  destruct (sdscatlen_spec s bs [34] 1) as (s1 & -> & H1);
    [done|solve_bytes|simpl; lia|unfold room; lia|].
  cbn [mbind_res]. rewrite mread_take by lia. cbn [of_mem mbind_res]. set (d := take _ p).
  destruct (catrepr_loop_spec s1 _ d H1) as (s2 & -> & H2).
  { by apply bytes_ok_take. } { unfold room, d. len_solve. }
  cbn [mbind_res]. destruct (sdscatlen_spec s2 _ [34] 1 H2) as (s3 & E & H3);
    [solve_bytes|simpl; lia| |].
  { unfold room. pose proof (escapes_length d).
    rewrite !length_app. assert (Z.of_nat (length d) = l) by (unfold d; len_solve). simpl. lia. }
  exists s3. split; [done|]. unfold quoted. simpl in H3. by rewrite <- !app_assoc in H3.
Qed.

(** Reading one escaped character inside double quotes. *)
Lemma token_char fuel s c more :
  byte_ok c →
  token_loop (S fuel) InQuotes s (escape c ++ more)
  = let* s' := sdscatlen s [c] 1 in token_loop fuel InQuotes s' more.
Proof.
  intros Hc. unfold escape. cbn [token_loop].
  destruct (Z.eqb_spec c 92) as [->|N92]; [done|].
  destruct (Z.eqb_spec c 34) as [->|N34]; [done|].
  destruct (Z.eqb_spec c 10) as [->|N10]; [done|].
  destruct (Z.eqb_spec c 13) as [->|N13]; [done|].
  destruct (Z.eqb_spec c 9) as [->|N9]; [done|].
  destruct (Z.eqb_spec c 7) as [->|N7]; [done|].
  destruct (Z.eqb_spec c 8) as [->|N8]; [done|]. cbn [orb].
  destruct (isprint c) eqn:Hp.
  - unfold isprint in Hp. reflect_Z. unfold peek. cbn [app nth drop].
    rewrite !(proj2 (Z.eqb_neq c _)) by lia. done.
  - destruct (nibbles c Hc) as [H1 H2]. unfold hex_escape, peek. cbn [app nth drop].
    destruct (hex_char_decode _ H1) as [-> ->], (hex_char_decode _ H2) as [-> ->]. simpl.
    by replace (c `div` 16 * 16 + c `mod` 16) with c by (pose proof (Z.div_mod c 16); lia).
Qed.

Lemma token_quoted fuel s bs cs rest :
  repr s bs → bytes_ok cs → room (Z.of_nat (length bs) + Z.of_nat (length cs)) →
  (length cs < fuel)%nat → bad_after_quote (34 :: rest) = false →
  ∃ s', token_loop fuel InQuotes s (concat (escape <$> cs) ++ 34 :: rest) = Val (inl (s', rest)) ∧
    repr s' (bs ++ cs).
Proof.
  intros Hr Hcs. revert s bs fuel Hr. induction Hcs as [|c cs Hc _ IH]; intros s bs fuel Hr Hroom Hf Hq.
  - destruct fuel; [simpl in Hf; lia|]. exists s. rewrite app_nil_r. split; [|done].
    cbn [token_loop concat fmap list_fmap app]. unfold peek at 1 2 3 4 5 6 7. cbn [nth].
    change (34 =? 92) with false. change (34 =? 34) with true. simpl. by rewrite Hq.
  - destruct fuel as [|fuel]; [simpl in Hf; lia|]. simpl in Hf, Hroom. unfold room in Hroom.
    cbn [concat fmap list_fmap]. rewrite <- app_assoc, token_char by done.
    destruct (sdscatlen_spec s bs [c] 1) as (s1 & -> & H1);
      [done|solve_bytes|simpl; lia|unfold room; lia|].
    cbn [mbind_res]. destruct (IH s1 _ fuel H1) as (s2 & E & H2); [|lia|done|].
    { unfold room. len_solve. }
    exists s2. simpl in H2. by rewrite <- app_assoc in H2.
Qed.

Lemma sdssplitargs_quoted cs tl :
  bytes_ok cs → room (Z.of_nat (length cs)) →
  ∃ t, sdssplitargs (quoted cs ++ 0 :: tl) = Val (Some [t], 1) ∧ repr t cs.
Proof.
  intros Hcs Hroom. unfold sdssplitargs.
  assert (∃ n, strlen (quoted cs ++ 0 :: tl) = Some n) as [n ->].
  { generalize (quoted cs). intros l. induction l as [|x l [n IH]]; [by exists 0|].
    simpl. case_match; [eauto|]. rewrite IH. eauto. }
  cbn [of_mem mbind_res]. set (line := quoted cs ++ 0 :: tl).
  assert (∃ k, length line = S (S k)) as [k Hk].
  { unfold line, quoted. simpl. rewrite !length_app. simpl. eexists. rewrite Nat.add_comm. simpl.
    rewrite Nat.add_comm. simpl. done. }
  rewrite Hk. set (fuel := S (S k)).
  cbn [splitargs_loop]. change (skip_blanks line) with line. change (peek line 0) with 34. cbn [Z.eqb Pos.eqb].
  destruct sdsempty_spec as (s0 & -> & Hr0). cbn [mbind_res].
  assert (token_loop (S (length line)) Unquoted s0 line = token_loop (length line) InQuotes s0 (drop 1 line)) as -> by done.
  assert (drop 1 line = concat (escape <$> cs) ++ 34 :: 0 :: tl) as ->.
  { unfold line, quoted. simpl. by rewrite drop_0, <- app_assoc. }
  destruct (token_quoted (length line) s0 [] cs (0 :: tl)) as (t & -> & Ht); [done|done|done| |done|].
  { unfold line, quoted. rewrite length_app. cbn [length]. rewrite length_app.
    pose proof (escapes_length cs). lia. }
  cbn [mbind_res]. exists t. by split.
Qed.

(** ** Splitting on a separator *)

Fixpoint join (sep : list Z) (ts : list (list Z)) : list Z :=
  match ts with
  | [] => []
  | [t] => t
  | t :: ts => t ++ sep ++ join sep ts
  end.

(** No occurrence of the separator. *)
Definition no_sep (sep t : list Z) : Prop := ∀ i, take (length sep) (drop i t) ≠ sep.

Lemma join_snoc sep ts t : join sep (ts ++ [t]) = concat ((λ t, t ++ sep) <$> ts) ++ t.
Proof.
  induction ts as [|u ts IH]; [done|]. rewrite fmap_cons. cbn [concat app].
  rewrite <- app_assoc, <- IH. cbn [join]. destruct ts; simpl; by rewrite <- app_assoc.
Qed.

Lemma separator_test (w sep : list Z) n :
  Z.of_nat (length sep) = n → length w = length sep → 1 ≤ n →
  ((n =? 1) && bool_decide (head w = head sep)) || (memcmp w (take (Z.to_nat n) sep) =? 0)
  = bool_decide (w = sep).
Proof.
  intros Hs Hw Hn. rewrite (take_ge sep) by lia.
  destruct (bool_decide (w = sep)) eqn:E.
  - apply bool_decide_eq_true_1 in E. rewrite (proj2 (memcmp_eq _ _ Hw) E). apply orb_true_r.
  - apply bool_decide_eq_false_1 in E.
    rewrite (proj2 (Z.eqb_neq _ _) (λ F, E (proj1 (memcmp_eq _ _ Hw) F))), orb_false_r.
    destruct (Z.eqb_spec n 1) as [->|]; [|done].
    destruct w as [|a [|]], sep as [|b [|]]; simpl in *; try lia.
    apply bool_decide_eq_false_2. congruence.
Qed.

(** What is true at the head of the loop: the tokens found so far, each
    followed by the separator, are the text before [start], and no
    separator begins between [start] and [j]. *)
Record split_inv (s : list Z) (l : Z) (sep : list Z) (j start slots : Z)
    (tokens : list sds) (ts : list (list Z)) : Prop := SplitInv {
  si_range : 0 ≤ start ≤ j ∧ start ≤ l;
  si_repr : Forall2 repr tokens ts;
  si_text : concat ((λ t, t ++ sep) <$> ts) = take (Z.to_nat start) s;
  si_clean : Forall (no_sep sep) ts;
  si_window : ∀ i, start ≤ i < j → take (length sep) (drop (Z.to_nat i) s) ≠ sep;
  si_slots : Z.of_nat (length ts) + 1 ≤ slots ≤ 2 * start + 10;
  si_count : Z.of_nat (length ts) ≤ start
}.

Section Split.
Context (s : list Z) (l : Z) (sep : list Z).
Hypothesis s_ok : bytes_ok s.
Hypothesis l_ok : 0 ≤ l ≤ Z.of_nat (length s).
Hypothesis sep_ok : 1 ≤ Z.of_nat (length sep).
Hypothesis l_room : room (8 * l + 200).

#[local] Notation n := (Z.of_nat (length sep)).

(** The token between [start] and [j]. *)
Lemma split_token start j :
  0 ≤ start ≤ j → j ≤ l →
  (∀ i, start ≤ i < j → i + n ≤ j → take (length sep) (drop (Z.to_nat i) s) ≠ sep) →
  ∃ t, sdsnewlen (Some (drop (Z.to_nat start) s)) (j - start) = Val t ∧
    repr t (take (Z.to_nat (j - start)) (drop (Z.to_nat start) s)) ∧
    no_sep sep (take (Z.to_nat (j - start)) (drop (Z.to_nat start) s)).
Proof.
  intros Hs Hj Hw. destruct (sdsnewlen_spec (drop (Z.to_nat start) s) (j - start)) as (t & -> & Hr).
  { by apply bytes_ok_drop. } { len_solve. } { unfold room in *. lia. }
  exists t. split_and!; [done|done|]. intros i E.
  assert (i + length sep ≤ Z.to_nat (j - start))%nat as Hi.
  { apply (f_equal length) in E. rewrite length_take, length_drop, length_take in E. lia. }
  apply (Hw (start + Z.of_nat i)); [lia|lia|].
  rewrite <- E at 2. rewrite skipn_firstn_comm, take_take, Nat.min_l, drop_drop by lia.
  do 2 f_equal. lia.
Qed.

Lemma split_text start j ts :
  0 ≤ start ≤ j → j + n ≤ l →
  concat ((λ t, t ++ sep) <$> ts) = take (Z.to_nat start) s →
  take (length sep) (drop (Z.to_nat j) s) = sep →
  concat ((λ t, t ++ sep) <$> (ts ++ [take (Z.to_nat (j - start)) (drop (Z.to_nat start) s)]))
  = take (Z.to_nat (j + n)) s.
Proof.
  intros Hs Hj Ht Hsep. rewrite fmap_app, concat_app, Ht. simpl. rewrite app_nil_r.
  rewrite <- Hsep at 1. rewrite app_assoc, take_take_drop.
  replace (Z.to_nat start + Z.to_nat (j - start))%nat with (Z.to_nat j) by lia.
  rewrite take_take_drop. f_equal. lia.
Qed.

Lemma split_loop_spec fuel j start slots tokens ts :
  split_inv s l sep j start slots tokens ts → l - j ≤ Z.of_nat fuel →
  ∃ j' start' slots' tokens' ts',
    split_loop fuel s l sep n j start slots tokens = Val (start', slots', tokens') ∧
    l - (n - 1) ≤ j' ∧ split_inv s l sep j' start' slots' tokens' ts'.
Proof.
  revert j start slots tokens ts. induction fuel as [|fuel IH]; intros j start slots tokens ts Hi Hf.
  { exists j, start, slots, tokens, ts. cbn [split_loop].
    rewrite (proj2 (Z.ltb_ge _ _)) by lia. split_and!; [done|lia|done]. }
  cbn [split_loop]. destruct (Z.ltb_spec j (l - (n - 1))) as [Hj|Hj].
  2: { exists j, start, slots, tokens, ts. by split_and!; [|lia|]. }
  destruct Hi as [Hr Hrepr Ht Hc Hw Hsl Hcnt]. pose proof (Forall2_length _ _ _ Hrepr) as Hlen.
  assert (∃ slots1, (if slots <? Z.of_nat (length tokens) + 2 then grow_slots slots else Val slots) = Val slots1 ∧
    Z.of_nat (length ts) + 2 ≤ slots1 ≤ 2 * start + 10) as (slots1 & -> & Hsl1).
  { destruct (Z.ltb_spec slots (Z.of_nat (length tokens) + 2)).
    - unfold grow_slots. unfold room, SDS_MAX_PREALLOC, INT_MAX in l_room.
      destruct (zrealloc_block_total (replicate (Z.to_nat (8 * slots)) 0) (8 * (slots * 2))) as [? ->]; [lia|].
      exists (slots * 2). split; [done|]. lia.
    - exists slots. split; [done|]. lia. }
  cbn [mbind_res].
  assert (mread s j n = Some (take (length sep) (drop (Z.to_nat j) s))) as ->.
  { unfold mread. rewrite !(proj2 (Z.leb_le _ _)) by lia. simpl. by rewrite Nat2Z.id. }
  cbn [of_mem mbind_res]. set (w := take (length sep) _).
  assert (length w = length sep) as Hlw by (unfold w; len_solve).
  rewrite separator_test by done. case_bool_decide as Ew.
  - destruct (split_token start j) as (t & -> & Htr & Htc); [lia|lia|intros; apply Hw; lia|].
    cbn [mbind_res]. unfold store_token. rewrite (proj2 (Z.ltb_lt _ _)) by lia. cbn [mbind_res].
    replace (j + n - 1 + 1) with (j + n) by lia.
    apply (IH _ _ _ _ (ts ++ [take (Z.to_nat (j - start)) (drop (Z.to_nat start) s)]));
      [|lia]. split.
    + lia.
    + apply Forall2_app; [exact Hrepr|]. by apply Forall2_cons_2, Forall2_nil_2.
    + apply split_text; [lia|lia|done|done].
    + apply Forall_app; split; [done|]. by apply Forall_cons_2, Forall_nil_2.
    + intros; lia.
    + rewrite length_app. simpl. lia.
    + rewrite length_app. simpl. lia.
  - apply (IH _ _ _ _ ts); [|lia]. split; try done; try lia.
    intros i Hi. destruct (decide (i = j)) as [->|]; [done|]. apply Hw. lia.
Qed.

Lemma sdssplitlen_spec :
  0 < l →
  ∃ tokens ts, sdssplitlen s l sep n = Val tokens ∧ Forall2 repr tokens ts ∧
    join sep ts = take (Z.to_nat l) s ∧ Forall (no_sep sep) ts.
Proof.
  intros Hl. unfold sdssplitlen.
  rewrite (proj2 (Z.ltb_ge _ _)), (proj2 (Z.ltb_ge l 0)) by lia. simpl orb.
  destruct (zmalloc_ok (8 * 5)) as (b & -> & _); [lia|]. cbn [of_alloc mbind_res].
  rewrite (proj2 (Z.eqb_neq l 0)) by lia.
  destruct (split_loop_spec (Z.to_nat l) 0 0 5 [] []) as (j & start & slots & tokens & ts & E & Hj & Hi).
  { split; try done; try lia; simpl; lia. }
  { lia. }
  cbn zeta in E. rewrite E. cbn [mbind_res]. destruct Hi as [Hr Hrepr Ht Hc Hw Hsl Hcnt].
  destruct (split_token start l) as (t & -> & Htr & Htc); [lia|lia|intros; apply Hw; lia|].
  cbn [mbind_res]. unfold store_token. pose proof (Forall2_length _ _ _ Hrepr).
  rewrite (proj2 (Z.ltb_lt _ _)) by lia.
  eexists _, (ts ++ [_]). split_and!; [done|apply Forall2_app; [exact Hrepr|by apply Forall2_cons_2, Forall2_nil_2]| |].
  - rewrite join_snoc, Ht, take_take_drop. f_equal. lia.
  - apply Forall_app; split; [done|]. by apply Forall_cons_2, Forall_nil_2.
Qed.
End Split.
End SdsText.
