(* ===== verification/SdsSpec.v ===== *)
(** * What a dynamic string promises

    The contract of the string library: a string is a sequence of bytes, and
    every operation is a function (for [sdstrim], a relation) on it. The
    refinement theorem runs any sequence of operations on the heap block of
    [Sds] and on the abstract bytes side by side. *)

From S2P Require Import Prelude Zmalloc Sds SdsText.

(** ** Operations without reallocation *)

Section InPlace.
Context {A : Allocator}.

Lemma map_content_spec f s bs :
  (∀ b, byte_ok b → byte_ok (f b)) → repr s bs → repr (map_content f s) (f <$> bs).
Proof.
  intros Hf Hr. repr_destruct Hr as tail. unfold map_content, sdslen. simpl. unfold INT_MAX in *.
  rewrite u64_small, s32_small, Nat2Z.id by (unfold INT_MIN, INT_MAX; lia).
  rewrite take_app_length, drop_app_length. apply repr_intro; [len_solve|done| |done|].
  - apply Forall_fmap. eapply Forall_impl; [exact Hbs|]. apply Hf.
  - unfold INT_MAX. lia.
Qed.

Lemma tolower_byte b : byte_ok b → byte_ok (tolower b).
Proof. unfold byte_ok, tolower. case_match; reflect_Z; lia. Qed.

Lemma toupper_byte b : byte_ok b → byte_ok (toupper b).
Proof. unfold byte_ok, toupper. case_match; reflect_Z; lia. Qed.

Lemma mapchar_byte from to b : bytes_ok to → byte_ok b → byte_ok (mapchar from to b).
Proof.
  intros Ht Hb. revert from. induction Ht as [|t to Ht _ IH]; intros [|f from]; simpl; try done.
  case_match; [done|apply IH].
Qed.

Lemma sdsmapchars_spec s bs from to n :
  repr s bs → bytes_ok to → 0 ≤ n → n ≤ Z.of_nat (length from) → n ≤ Z.of_nat (length to) →
  ∃ s', sdsmapchars s from to n = Val s' ∧
    repr s' (mapchar (take (Z.to_nat n) from) (take (Z.to_nat n) to) <$> bs).
Proof.
  intros Hr Ht Hn Hf Hl. unfold sdsmapchars. rewrite !mread_take by lia. cbn [of_mem mbind_res].
  set (f := mapchar _ _). eexists. split; [done|].
  pose proof (map_content_spec f s bs) as Hm. unfold map_content in Hm.
  rewrite s32_small in Hm.
  - apply Hm; [|done]. intros. by apply mapchar_byte; [apply bytes_ok_take|].
  - destruct (repr_content s bs Hr) as (-> & _). repr_destruct Hr as tail. unfold INT_MIN, INT_MAX in *. lia.
Qed.

(** [sdscmp] orders strings lexicographically, whatever bytes they hold. *)
Lemma sdscmp_spec s1 s2 a b :
  repr s1 a → repr s2 b →
  ∃ r, sdscmp s1 s2 = Val r ∧ (r ?= 0) = lex_compare a b.
Proof.
  intros H1 H2. destruct (repr_content _ _ H1) as (E1 & T1 & L1 & _).
  destruct (repr_content _ _ H2) as (E2 & T2 & L2 & _). unfold sdscmp. rewrite E1, E2.
  set (m := if _ <? _ then _ else _).
  assert (m = Z.of_nat (length a `min` length b)) as -> by (unfold m; case_match; reflect_Z; lia).
  rewrite !mread_take by lia. cbn [of_mem mbind_res]. rewrite !Nat2Z.id.
  assert (∀ (m : list Z) c, take (length c) m = c → take (length a `min` length b) m
    = take (length a `min` length b) (take (length c) m) ∨ (length c < length a `min` length b)%nat) as Hmin.
  { intros m c Hc. destruct (decide (length c < length a `min` length b)%nat); [by right|left].
    rewrite take_take. f_equal. lia. }
  destruct (Hmin _ _ T1) as [->|]; [|lia]. destruct (Hmin _ _ T2) as [->|]; [|lia]. rewrite T1, T2.
  rewrite (memcmp_lex a b _ eq_refl). set (c := memcmp _ _).
  destruct (Z.eqb_spec c 0) as [->|Hc]; eexists; (split; [done|]).
  - simpl. repr_destruct H1 as t1. repr_destruct H2 as t2. unfold INT_MAX in *.
    assert (s32 (u64 (Z.of_nat (length a) - Z.of_nat (length b))) = Z.of_nat (length a) - Z.of_nat (length b)) as ->.
    { unfold uwrap, swrap. change (2 ^ (32 - 1)) with 2147483648. change (2 ^ 32) with 4294967296.
      change (2 ^ 64) with (4294967296 * 4294967296).
      rewrite Z.rem_mul_r by lia. rewrite Z.add_mod by lia.
      rewrite Z.mul_comm, Z.mod_add, Z.mod_mod by lia. rewrite <- Z.add_mod by lia.
      rewrite Z.mod_small by lia. lia. }
    symmetry. apply Z.compare_sub.
  - by destruct (Z.compare_spec c 0).
Qed.
End InPlace.

(** ** Any sequence of operations *)

(** [OpRecv n d] is how the server fills a string from a socket: make room
    for [n] bytes, let the kernel write [d] behind the content, then account
    for it with [sdsIncrLen]. *)
Inductive sds_op :=
  | OpCat (t : list Z) (l : Z)
  | OpCpy (t : list Z) (l : Z)
  | OpGrow (l : Z)
  | OpRecv (n : Z) (d : list Z)
  | OpTrim (cset : list Z)
  | OpRange (start end_ : Z)
  | OpClear
  | OpLower
  | OpUpper
  | OpMap (from to : list Z) (n : Z).

(** Arguments within the blocks and integers they come from. *)
Definition op_ok (o : sds_op) : Prop :=
  match o with
  | OpCat t l | OpCpy t l => bytes_ok t ∧ 0 ≤ l ≤ Z.of_nat (length t)
  | OpGrow l => 0 ≤ l
  | OpRecv n d => bytes_ok d ∧ Z.of_nat (length d) ≤ n
  | OpRange a z => INT_MIN ≤ a ≤ INT_MAX ∧ INT_MIN ≤ z < INT_MAX
  | OpMap from to n => bytes_ok to ∧ 0 ≤ n ≤ Z.of_nat (length from) ∧ n ≤ Z.of_nat (length to)
  | _ => True
  end.

#[global] Instance op_ok_dec o : Decision (op_ok o).
Proof. destruct o; simpl; apply _. Defined.

(** How many bytes an operation can add. *)
Definition op_room (o : sds_op) : Z :=
  match o with
  | OpCat _ l | OpCpy _ l | OpGrow l => l
  | OpRecv n _ => n
  | _ => 0
  end.

(** What an operation means on the bytes. *)
Definition abs_step (o : sds_op) (bs bs' : list Z) : Prop :=
  match o with
  | OpCat t l => bs' = bs ++ take (Z.to_nat l) t
  | OpCpy t l => bs' = take (Z.to_nat l) t
  | OpGrow l => bs' = bs ++ replicate (Z.to_nat l - length bs) 0
  | OpRecv _ d => bs' = bs ++ d
  | OpTrim cset => trimmed (strchr cset) bs bs'
  | OpRange a z => bs' = range_of bs a z
  | OpClear => bs' = []
  | OpLower => bs' = tolower <$> bs
  | OpUpper => bs' = toupper <$> bs
  | OpMap from to n => bs' = mapchar (take (Z.to_nat n) from) (take (Z.to_nat n) to) <$> bs
  end.

Fixpoint abs_run (os : list sds_op) (bs bs' : list Z) : Prop :=
  match os with
  | [] => bs' = bs
  | o :: os => ∃ bs1, abs_step o bs bs1 ∧ abs_run os bs1 bs'
  end.

Section Refinement.
Context {A : Allocator}.

Definition sds_recv (s : sds) (n : Z) (d : list Z) : res sds :=
  let* s1 := sdsMakeRoomFor s n in
  let* b := of_mem (mwrite (buf s1) (len s1) d) in
  sdsIncrLen (Sds (len s1) (free s1) b) (Z.of_nat (length d)).

Definition sds_apply (o : sds_op) (s : sds) : res sds :=
  match o with
  | OpCat t l => sdscatlen s t l
  | OpCpy t l => sdscpylen s t l
  | OpGrow l => sdsgrowzero s l
  | OpRecv n d => sds_recv s n d
  | OpTrim cset => sdstrim s cset
  | OpRange a z => sdsrange s a z
  | OpClear => sdsclear s
  | OpLower => Val (sdstolower s)
  | OpUpper => Val (sdstoupper s)
  | OpMap from to n => sdsmapchars s from to n
  end.

Fixpoint sds_run (os : list sds_op) (s : sds) : res sds :=
  match os with
  | [] => Val s
  | o :: os => let* s := sds_apply o s in sds_run os s
  end.

Context {AS : AllocatorSpec} {AT : AllocatorTotal}.

Lemma sds_recv_spec s bs n d :
  repr s bs → bytes_ok d → Z.of_nat (length d) ≤ n → room (Z.of_nat (length bs) + n) →
  ∃ s', sds_recv s n d = Val s' ∧ repr s' (bs ++ d).
Proof.
  intros Hr Hd Hl Hroom. unfold sds_recv.
  destruct (sdsMakeRoomFor_spec s bs n) as (s1 & -> & Hr1 & Hf & _); [done|lia|done|].
  repr_destruct Hr1 as tail. simpl in Hf. cbn [mbind_res buf len free].
  destruct (sdsIncrLen_spec bs tail d) as (b & s' & -> & ? & ?); [done|done|done|lia|done|]. eauto.
Qed.

Lemma sds_apply_spec o s bs :
  repr s bs → op_ok o → room (Z.of_nat (length bs) + op_room o) →
  ∃ s' bs', sds_apply o s = Val s' ∧ repr s' bs' ∧ abs_step o bs bs'.
Proof.
  intros Hr Ho Hm.
  assert (room (op_room o)) as Hm' by (unfold room in *; lia).
  destruct o; simpl in *; split_ctx.
  - destruct (sdscatlen_spec s bs t l) as (? & ? & ?); eauto.
  - destruct (sdscpylen_spec s bs t l) as (? & ? & ?); eauto.
  - destruct (sdsgrowzero_spec s bs l) as (? & ? & ?); eauto.
  - destruct (sds_recv_spec s bs n d) as (? & ? & ?); eauto.
  - apply sdstrim_spec. done.
  - destruct (sdsrange_spec s bs start end_) as (? & ? & ?); eauto.
  - destruct (sdsclear_spec s bs) as (? & ? & ?); eauto.
  - eexists _, _. split_and!; [done|by apply map_content_spec; [apply tolower_byte|]|done].
  - eexists _, _. split_and!; [done|by apply map_content_spec; [apply toupper_byte|]|done].
  - destruct (sdsmapchars_spec s bs from to n) as (? & ? & ?); eauto.
Qed.

Lemma trimmed_length f bs out : trimmed f bs out → (length out ≤ length bs)%nat.
Proof. intros (pre & post & -> & _). len_solve. Qed.

Lemma abs_step_length o bs bs' :
  op_ok o → abs_step o bs bs' → Z.of_nat (length bs') ≤ Z.of_nat (length bs) + op_room o.
Proof.
  intros Ho Hs. destruct o; simpl in *; split_ctx; subst; try len_solve.
  - apply trimmed_length in Hs. lia.
  - unfold range_of. len_solve.
Qed.

Lemma op_room_nonneg o : op_ok o → 0 ≤ op_room o.
Proof. destruct o; simpl; intros; split_ctx; lia. Qed.

Lemma sds_run_spec os s bs :
  repr s bs → Forall op_ok os → room (foldr Z.add (Z.of_nat (length bs)) (op_room <$> os)) →
  ∃ s' bs', sds_run os s = Val s' ∧ repr s' bs' ∧ abs_run os bs bs'.
Proof.
  intros Hr Hos. revert s bs Hr. induction Hos as [|o os Ho Hos IH]; intros s bs Hr Hm; [by exists s, bs|].
  assert (∀ k : Z, foldr Z.add k (op_room <$> os) = k + foldr Z.add 0 (op_room <$> os)) as Hk.
  { intros k. clear. induction os as [|o os IH]; [simpl; lia|]. rewrite fmap_cons. cbn [foldr]. lia. }
  assert (0 ≤ foldr Z.add 0 (op_room <$> os)) as H0.
  { clear -Hos. induction Hos as [|o os Ho _ IH]; [done|]. rewrite fmap_cons. cbn [foldr].
    pose proof (op_room_nonneg o Ho). lia. }
  rewrite fmap_cons in Hm. cbn [foldr] in Hm. rewrite Hk in Hm. pose proof (op_room_nonneg o Ho).
  destruct (sds_apply_spec o s bs Hr Ho) as (s1 & bs1 & E & Hr1 & Ha); [unfold room in *; lia|].
  pose proof (abs_step_length o bs bs1 Ho Ha).
  destruct (IH s1 bs1 Hr1) as (s2 & bs2 & E2 & Hr2 & Ha2); [rewrite Hk; unfold room in *; lia|].
  exists s2, bs2. simpl. rewrite E. simpl. eauto.
Qed.
End Refinement.

(** ** What the text routines promise *)

(** [tokens] are the pieces of [bs] between the separators. *)
Definition pieces_of (sep bs : list Z) (tokens : list sds) : Prop :=
  ∃ ts, Forall2 repr tokens ts ∧ join sep ts = bs ∧ Forall (no_sep sep) ts.

(** The string holds the decimal text of [value]. *)
Definition holds_number (s : sds) (value : Z) : Prop := ∃ ds, repr s ds ∧ read_longlong ds = value.

(** An argument vector of exactly one argument, which holds [bs]. *)
Definition single_argument (bs : list Z) (r : option (list sds) * Z) : Prop :=
  ∃ t, r = (Some [t], 1) ∧ repr t bs.

(** The sign convention of [memcmp] and [strcmp]. *)
Definition orders (r : Z) (a b : list Z) : Prop :=
  (r < 0 ↔ lex_compare a b = Lt) ∧ (r = 0 ↔ a = b) ∧ (0 < r ↔ lex_compare a b = Gt).

(** ** Properties *)

Section Properties.
Context {A : Allocator} {AS : AllocatorSpec} {AT : AllocatorTotal}.

(** C15: any sequence of string operations (appending, copying, growing,
    receiving into the spare room, trimming, cutting, clearing, case and
    character mapping) with arguments inside their blocks and enough integer
    room runs to its end without touching memory outside the allocation, and
    the resulting heap block holds the bytes the abstract operations give. *)
Theorem sds_refines_bytes os s bs :
  repr s bs → Forall op_ok os → room (foldr Z.add (Z.of_nat (length bs)) (op_room <$> os)) →
  ∃ s' bs', sds_run os s = Val s' ∧ repr s' bs' ∧ abs_run os bs bs'.
Proof. apply sds_run_spec. Qed.

(** The way the server receives: [sdsMakeRoomFor], a read of at most that
    many bytes into the spare room, [sdsIncrLen]. It never asserts, keeps what
    was received before and appends exactly what the kernel wrote; when the
    room was already there the block is not moved. *)
Theorem sds_receive_appends s bs n d :
  repr s bs → bytes_ok d → Z.of_nat (length d) ≤ n → room (Z.of_nat (length bs) + n) →
  ∃ s1 s2, sdsMakeRoomFor s n = Val s1 ∧ (n ≤ free s → s1 = s) ∧
    sds_recv s n d = Val s2 ∧ repr s2 (bs ++ d).
Proof.
  intros Hr Hd Hl Hm. destruct (sdsMakeRoomFor_spec s bs n) as (s1 & E & _ & _ & Hs); [done|lia|done|].
  destruct (sds_recv_spec s bs n d) as (s2 & ? & ?); [done..|]. eauto 10.
Qed.

(** [sdssplitlen] cuts the text at the separator: it returns, its tokens
    joined with the separator give the text back, and no token contains the
    separator. *)
Theorem sdssplitlen_joins s l sep :
  bytes_ok s → 0 < l ≤ Z.of_nat (length s) → 1 ≤ Z.of_nat (length sep) → room (8 * l + 200) →
  ∃ tokens, sdssplitlen s l sep (Z.of_nat (length sep)) = Val tokens ∧
    pieces_of sep (take (Z.to_nat l) s) tokens.
Proof.
  intros. destruct (sdssplitlen_spec s l sep) as (tokens & ts & ? & ?); [done|lia|done|done|lia|].
  exists tokens. unfold pieces_of. eauto.
Qed.

(** Quoting a binary-safe string with [sdscatrepr] and parsing the line
    with [sdssplitargs] gives one argument with the original bytes. *)
Theorem sdscatrepr_splitargs_roundtrip s p l tl :
  repr s [] → bytes_ok p → 0 ≤ l ≤ Z.of_nat (length p) → room (4 * l + 2) →
  ∃ line q args, sdscatrepr s p l = Val line ∧ repr line q ∧
    sdssplitargs (q ++ 0 :: tl) = Val args ∧ single_argument (take (Z.to_nat l) p) args.
Proof.
  intros Hr Hp Hl Hm. destruct (sdscatrepr_spec s [] p l) as (line & E & Hq); [done..|].
  destruct (sdssplitargs_quoted (take (Z.to_nat l) p) tl) as (t & Et & Ht);
    [by apply bytes_ok_take|unfold room in *; len_solve|]. unfold single_argument. eauto 12.
Qed.

(** [sdsfromlonglong] prints every [long long] but the least one so that
    reading the decimal text gives the number back. *)
Theorem sdsfromlonglong_roundtrip value :
  - 2 ^ 63 < value < 2 ^ 63 →
  ∃ s, sdsfromlonglong value = Val s ∧ holds_number s value.
Proof.
  intros Hv. destruct (sdsfromlonglong_spec value Hv) as (s & ds & ? & ?). exists s. unfold holds_number. eauto.
Qed.

(** [sdscmp] decides the lexicographic order of the two byte strings. *)
Theorem sdscmp_lexicographic s1 s2 a b :
  repr s1 a → repr s2 b →
  ∃ r, sdscmp s1 s2 = Val r ∧ orders r a b.
Proof.
  intros H1 H2. destruct (sdscmp_spec s1 s2 a b H1 H2) as (r & E & Hc). exists r.
  unfold orders. rewrite <- lex_compare_eq, <- Hc, Z.compare_lt_iff, Z.compare_eq_iff, Z.compare_gt_iff. done.
Qed.
End Properties.

(** ** Witnesses *)

Definition demo_string : sds := Sds 3 4 (b#" aB" ++ [0; 1; 2; 3; 4]).

Lemma demo_repr : repr demo_string (b#" aB").
Proof.
  apply (repr_intro 3 4 (b#" aB") [1; 2; 3; 4]); [done|done|..|done];
    apply (bool_decide_unpack _); vm_compute; exact I.
Qed.

Lemma demo_empty : repr (Sds 0 0 [0]) [].
Proof. apply (repr_intro 0 0 [] []); [done|done|apply Forall_nil_2|apply Forall_nil_2|done]. Qed.

Definition demo_ops : list sds_op :=
  [OpCat (b#"Cd ") 3; OpTrim (b#" "); OpRecv 16 (b#"xyz"); OpRange 1 (-2); OpLower; OpGrow 7].

Lemma sds_refines_bytes_witness :
  ∃ s' bs', @sds_run demo_alloc demo_ops demo_string = Val s' ∧ repr s' bs' ∧
    abs_run demo_ops (b#" aB") bs'.
Proof.
  apply (@sds_refines_bytes demo_alloc demo_spec demo_total demo_ops demo_string (b#" aB")).
  - apply demo_repr.
  - apply (bool_decide_unpack _). vm_compute. exact I.
  - apply (bool_decide_unpack _). vm_compute. exact I.
Defined.

Example demo_run : (let* s := @sds_run demo_alloc demo_ops demo_string in Val (take 7 (buf s)))
  = Val (b#"bcdxy" ++ [0; 0]).
Proof. vm_compute. reflexivity. Qed.

Lemma sds_receive_appends_witness :
  ∃ s1 s2, @sdsMakeRoomFor demo_alloc demo_string 4 = Val s1 ∧ (4 ≤ free demo_string → s1 = demo_string) ∧
    @sds_recv demo_alloc demo_string 4 (b#"xy") = Val s2 ∧ repr s2 (b#" aB" ++ b#"xy").
Proof.
  apply (@sds_receive_appends demo_alloc demo_spec demo_total demo_string (b#" aB") 4 (b#"xy")).
  - apply demo_repr.
  - apply (bool_decide_unpack _). vm_compute. exact I.
  - vm_compute. congruence.
  - vm_compute. congruence.
Defined.

Lemma sdssplitlen_joins_witness :
  ∃ tokens, @sdssplitlen demo_alloc (b#"a--b----c") 9 (b#"--") 2 = Val tokens ∧
    pieces_of (b#"--") (b#"a--b----c") tokens.
Proof.
  apply (@sdssplitlen_joins demo_alloc demo_spec demo_total (b#"a--b----c") 9 (b#"--")).
  - apply (bool_decide_unpack _). vm_compute. exact I.
  - vm_compute. split; congruence.
  - vm_compute. congruence.
  - vm_compute. congruence.
Defined.

Lemma sdscatrepr_splitargs_roundtrip_witness :
  ∃ line q args, @sdscatrepr demo_alloc (Sds 0 0 [0]) [34; 10; 200] 3 = Val line ∧ repr line q ∧
    @sdssplitargs demo_alloc (q ++ [0]) = Val args ∧ single_argument [34; 10; 200] args.
Proof.
  apply (@sdscatrepr_splitargs_roundtrip demo_alloc demo_spec demo_total (Sds 0 0 [0]) [34; 10; 200] 3 []).
  - apply demo_empty.
  - solve_bytes.
  - simpl; lia.
  - vm_compute. congruence.
Defined.

Lemma sdsfromlonglong_roundtrip_witness :
  ∃ s, @sdsfromlonglong demo_alloc (-9223372036854775807) = Val s ∧
    holds_number s (-9223372036854775807).
Proof. apply (@sdsfromlonglong_roundtrip demo_alloc demo_spec demo_total). lia. Defined.

Lemma sdscmp_lexicographic_witness :
  ∃ r, sdscmp demo_string (Sds 0 0 [0]) = Val r ∧ orders r (b#" aB") [].
Proof.
  apply (@sdscmp_lexicographic demo_string (Sds 0 0 [0])); [apply demo_repr|].
  apply demo_empty.
Defined.
