(* ===== verification/LockFreeQueue.v ===== *)
(** * The single-producer single-consumer queue (base/Lock_Free_Queue.hpp)

    The queue is a linked list of heap nodes with three cursors: [head_]
    (oldest node not yet deleted), [divider_] (last node consumed) and
    [tail_] (last node produced). Nodes live in a heap indexed by address;
    touching a deleted node is undefined behaviour.

    The first part models the methods as they run alone and shows that they
    implement a FIFO, the interface [Fifo] the workers use. The second part
    interleaves one producer and one consumer, statement by statement under
    sequential consistency, and shows that no interleaving touches a deleted
    node and that the consumer gets the produced values in order. *)

From S2P Require Import Prelude.

Record node (T : Type) := Node { data : T; next : option Z }.
Arguments Node {_} _ _.
Arguments data {_} _.
Arguments next {_} _.

Record lfq (T : Type) := LFQ {
  heap : gmap Z (node T);
  head_ : Z;
  divider_ : Z;
  tail_ : Z;
  size_ : Z
}.
Arguments LFQ {_} _ _ _ _ _.
Arguments heap {_} _.
Arguments head_ {_} _.
Arguments divider_ {_} _.
Arguments tail_ {_} _.
Arguments size_ {_} _.

Section Methods.
Context {T : Type} (dflt : T).

(** [head_=divider_=tail_=new Node(T{}); size_=0;] *)
Definition lfq_new (addr : Z) : lfq T :=
  LFQ {[ addr := Node dflt None ]} addr addr addr 0.

(** [while (head_!=divider_) { tmp=head_; head_=head_->next; delete tmp; }] *)
Fixpoint reclaim (fuel : nat) (q : lfq T) : option (lfq T) :=
  if head_ q =? divider_ q then Some q
  else
    match fuel with
    | O => None
    | S fuel =>
        nd ← heap q !! head_ q;
        h' ← next nd;
        reclaim fuel (LFQ (delete (head_ q) (heap q)) h' (divider_ q) (tail_ q) (size_ q))
    end.

(** [new Node(t)] is placed at [addr]. *)
Definition produce_at (addr : Z) (t : T) (q : lfq T) : option (lfq T) :=
  let h := <[addr := Node t None]> (heap q) in
  nd ← h !! tail_ q;
  let h := <[tail_ q := Node (data nd) (Some addr)]> h in
  nd ← h !! tail_ q;
  tl ← next nd;
  reclaim (Datatypes.length (map_to_list h))
    (LFQ h (head_ q) (divider_ q) tl (s32 (size_ q + 1))).

Definition produce (t : T) (q : lfq T) : option (lfq T) :=
  produce_at (fresh (dom (heap q))) t q.

(** The boolean result and [*result] together: [None] for [false]. *)
Definition consume (q : lfq T) : option (option T * lfq T) :=
  if negb (divider_ q =? tail_ q) then
    nd ← heap q !! divider_ q;
    nx ← next nd;
    nd' ← heap q !! nx;
    Some (Some (data nd'), LFQ (heap q) (head_ q) nx (tail_ q) (s32 (size_ q - 1)))
  else Some (None, q).

Definition empty (q : lfq T) : bool := size_ q =? 0.
Definition size (q : lfq T) : Z := size_ q.

(** [while(head_!=nullptr) { tmp=head_; head_=head_->next; delete tmp; }] *)
Fixpoint destroy_loop (fuel : nat) (h : gmap Z (node T)) (p : option Z) : option (gmap Z (node T)) :=
  match p with
  | None => Some h
  | Some l =>
      match fuel with
      | O => None
      | S fuel => nd ← h !! l; destroy_loop fuel (delete l h) (next nd)
      end
  end.

Definition destroy (q : lfq T) : option (gmap Z (node T)) :=
  destroy_loop (Datatypes.length (map_to_list (heap q))) (heap q) (Some (head_ q)).
End Methods.

(** ** Chains of nodes *)

Section Chains.
Context {T : Type}.
Implicit Types (h : gmap Z (node T)) (seg : list Z).

(** [seg] lists the nodes from its first address on: each links to the
    next and the last has a null link. *)
Definition chain h seg : Prop :=
  NoDup seg ∧ ∀ i l, seg !! i = Some l → ∃ v, h !! l = Some (Node v (seg !! S i)).

(** The values stored in the nodes of a list of addresses. *)
Definition values h seg : list T := omap (λ l, data <$> h !! l) seg.

Lemma chain_lookup h seg i l :
  chain h seg → seg !! i = Some l → ∃ v, h !! l = Some (Node v (seg !! S i)).
Proof. intros [_ H]. apply H. Qed.

Lemma chain_tail h l seg : chain h (l :: seg) → chain (delete l h) seg.
Proof.
  intros [Hnd Hc]. apply NoDup_cons in Hnd as [Hnl Hnd]. split; [done|].
  intros i l' Hi. destruct (Hc (S i) l' Hi) as [v Hv]. exists v.
  rewrite lookup_delete_ne; [done|]. intros ->. by apply Hnl, list_elem_of_lookup_2 with i.
Qed.

Lemma chain_fresh h seg addr nd : chain h seg → h !! addr = None → chain (<[addr := nd]> h) seg.
Proof.
  intros [Hnd Hc] Hf. split; [done|]. intros i l Hi. destruct (Hc i l Hi) as [v Hv]. exists v.
  rewrite lookup_insert_ne; [done|congruence].
Qed.

Lemma chain_not_in h seg addr : chain h seg → h !! addr = None → addr ∉ seg.
Proof.
  intros [_ Hc] Hf [i Hi]%list_elem_of_lookup. destruct (Hc _ _ Hi). congruence.
Qed.

Lemma chain_delete h seg l : chain h seg → l ∉ seg → chain (delete l h) seg.
Proof.
  intros [Hnd Hc] Hl. split; [done|]. intros i l' Hi. destruct (Hc i l' Hi) as [v Hv]. exists v.
  rewrite lookup_delete_ne; [done|]. intros ->. by apply Hl, list_elem_of_lookup_2 with i.
Qed.

Lemma chain_drop h l seg : chain h (l :: seg) → chain h seg.
Proof.
  intros [Hnd Hc]. apply NoDup_cons in Hnd as [_ Hnd]. split; [done|].
  intros i l' Hi. apply (Hc (S i) l' Hi).
Qed.

(** [tail_->next = n] extends the chain. *)
Lemma chain_link h seg tl v t n :
  chain h (seg ++ [tl]) → h !! n = Some (Node t None) → n ∉ seg ++ [tl] →
  h !! tl = Some (Node v None) →
  chain (<[tl := Node v (Some n)]> h) ((seg ++ [tl]) ++ [n]).
Proof.
  intros [Hnd Hc] Hn Hns Htl. split.
  - apply NoDup_app; split_and!; [done|set_solver|apply NoDup_singleton].
  - intros i l Hi. destruct (decide (i < length seg)%nat) as [Hlt|Hge].
    + rewrite lookup_app_l in Hi by len_solve. destruct (Hc _ _ Hi) as [w Hw]. exists w.
      rewrite lookup_insert_ne.
      * rewrite Hw. do 2 f_equal. by rewrite (lookup_app_l (seg ++ [tl])) by len_solve.
      * intros ->. assert (i = length seg) as ->; [|lia].
        eapply NoDup_lookup; [done|done|]. by rewrite lookup_app_r, Nat.sub_diag.
    + destruct (decide (i = length seg)) as [->|Hne].
      * rewrite <- app_assoc, lookup_app_r, Nat.sub_diag in Hi by lia. simplify_eq/=.
        exists v. rewrite lookup_insert_eq. do 2 f_equal.
        rewrite <- app_assoc, lookup_app_r by lia. by replace (S (length seg) - length seg)%nat with 1%nat by lia.
      * assert (i = S (length seg)) as ->.
        { apply lookup_lt_Some in Hi. rewrite !length_app in Hi. simpl in Hi. lia. }
        rewrite lookup_app_r in Hi by len_solve. rewrite length_app in Hi.
        replace (S (length seg) - (length seg + length [tl]))%nat with 0%nat in Hi by (simpl; lia).
        simplify_eq/=. exists t. rewrite lookup_insert_ne by set_solver. rewrite Hn.
        do 2 f_equal. symmetry. apply lookup_ge_None_2. len_solve.
Qed.

Lemma chain_last h seg tl : chain h (seg ++ [tl]) → ∃ v, h !! tl = Some (Node v None).
Proof.
  intros Hc. destruct (chain_lookup _ _ (length seg) tl Hc) as [v E].
  { by rewrite lookup_app_r, Nat.sub_diag. }
  exists v. rewrite E. do 2 f_equal. apply lookup_ge_None_2. len_solve.
Qed.

Lemma values_cons h l seg :
  values h (l :: seg) = from_option (λ v, [v]) [] (data <$> h !! l) ++ values h seg.
Proof. unfold values. simpl. by destruct (h !! l). Qed.

Lemma values_ext h h' seg : (∀ l, l ∈ seg → data <$> h !! l = data <$> h' !! l) → values h seg = values h' seg.
Proof.
  induction seg as [|l seg IH]; [done|]. intros H. rewrite !values_cons.
  rewrite (H l) by set_solver. by rewrite IH by set_solver.
Qed.

Lemma values_app h seg seg' : values h (seg ++ seg') = values h seg ++ values h seg'.
Proof. apply omap_app. Qed.

Lemma values_delete h l seg : l ∉ seg → values (delete l h) seg = values h seg.
Proof. intros. apply values_ext. intros l' Hl'. rewrite lookup_delete_ne; [done|set_solver]. Qed.

Lemma values_fresh h l nd seg : l ∉ seg → values (<[l := nd]> h) seg = values h seg.
Proof. intros. apply values_ext. intros l' Hl'. rewrite lookup_insert_ne; [done|set_solver]. Qed.

(** Writing a link changes no value. *)
Lemma values_link h tl v nx nx' seg :
  h !! tl = Some (Node v nx) → values (<[tl := Node v nx']> h) seg = values h seg.
Proof.
  intros Ht. apply values_ext. intros l Hl. destruct (decide (l = tl)) as [->|].
  - by rewrite lookup_insert_eq, Ht.
  - by rewrite lookup_insert_ne.
Qed.
End Chains.

(** ** Functional correctness of the methods *)

(** [queue_of q xs]: the heap is one chain from [head_] to [tail_] through
    [divider_], and the nodes behind [divider_] hold [xs]. *)
Definition queue_of {T} (q : lfq T) (xs : list T) : Prop :=
  ∃ pre d post,
    let seg := pre ++ d :: post in
    chain (heap q) seg ∧ (∀ l, is_Some (heap q !! l) → l ∈ seg) ∧
    head seg = Some (head_ q) ∧ divider_ q = d ∧ list.last seg = Some (tail_ q) ∧
    values (heap q) post = xs ∧ size_ q = s32 (Z.of_nat (length xs)).

Lemma s32_add_l a b : s32 (s32 a + b) = s32 (a + b).
Proof.
  unfold swrap. f_equal. change (2 ^ (32 - 1)) with 2147483648. change (2 ^ 32) with 4294967296.
  replace ((a + 2147483648) `mod` 4294967296 - 2147483648 + b + 2147483648)
    with ((a + 2147483648) `mod` 4294967296 + b) by lia.
  rewrite Z.add_mod_idemp_l by lia. f_equal. lia.
Qed.

Section Correct.
Context {T : Type} (dflt : T).
Implicit Types (q : lfq T) (xs : list T).

Lemma lfq_new_spec addr : queue_of (lfq_new dflt addr) [].
Proof.
  exists [], addr, []. simpl. split_and!; try done.
  - split; [apply NoDup_singleton|]. intros [|i] l Hi; simplify_eq/=. exists dflt. by rewrite lookup_singleton_eq.
  - intros l [nd Hl]. apply lookup_singleton_Some in Hl as [-> _]. set_solver.
Qed.

(** The reclaiming loop deletes exactly the nodes before [divider_]. *)
Lemma reclaim_spec fuel (hp : gmap Z (node T)) pre d post h tl sz :
  chain hp (pre ++ d :: post) → (∀ l, is_Some (hp !! l) → l ∈ pre ++ d :: post) →
  head (pre ++ d :: post) = Some h → (length pre ≤ fuel)%nat →
  ∃ hp', reclaim fuel (LFQ hp h d tl sz) = Some (LFQ hp' d d tl sz) ∧
    chain hp' (d :: post) ∧ (∀ l, is_Some (hp' !! l) → l ∈ d :: post) ∧ values hp' post = values hp post.
Proof.
  revert hp pre h. induction fuel as [|fuel IH]; intros hp pre h Hc Hd Hh Hl.
  - destruct pre; [|simpl in Hl; lia]. simplify_eq/=. rewrite Z.eqb_refl. by exists hp.
  - destruct pre as [|p pre]; simplify_eq/=; [rewrite Z.eqb_refl; by exists hp|].
    destruct (Z.eqb_spec h d) as [->|Hne].
    { exfalso. destruct Hc as [Hnd _]. apply NoDup_cons in Hnd as [Hn _]. set_solver. }
    destruct (chain_lookup _ _ 0 h Hc eq_refl) as [v Hv]. rewrite Hv. simpl.
    assert (∃ h', (pre ++ d :: post) !! 0%nat = Some h') as [h' Hh'] by (destruct pre; simpl; eauto).
    rewrite Hh'. simpl.
    pose proof Hc as [Hnd _]. apply NoDup_cons in Hnd as [Hn _].
    destruct (IH (delete h hp) pre h') as (hp' & E & Hc' & Hd' & Hv').
    + by apply chain_tail.
    + intros l [nd Hnd]. apply lookup_delete_Some in Hnd as [Hne' Hnd].
      pose proof (Hd l (ex_intro _ _ Hnd)). set_solver.
    + by rewrite head_lookup.
    + lia.
    + exists hp'. split_and!; [done..|]. rewrite Hv'. apply values_delete. set_solver.
Qed.

Lemma size_map_chain (hp : gmap Z (node T)) seg :
  chain hp seg → (length seg ≤ length (map_to_list hp))%nat.
Proof.
  intros [Hnd Hc]. rewrite length_map_to_list, <- size_dom.
  assert (list_to_set seg ⊆@{gset Z} dom hp) as Hs.
  { intros l Hl%elem_of_list_to_set. apply list_elem_of_lookup in Hl as [i Hi].
    destruct (Hc _ _ Hi). apply elem_of_dom. eauto. }
  apply subseteq_size in Hs. by rewrite size_list_to_set in Hs.
Qed.

Lemma produce_at_spec q xs addr t :
  queue_of q xs → heap q !! addr = None →
  ∃ q', produce_at addr t q = Some q' ∧ queue_of q' (xs ++ [t]) ∧ head_ q' = divider_ q'.
Proof.
  intros (pre & d & post & Hc & Hd & Hh & Hdv & Hl & Hv & Hsz) Hf. simpl in *.
  destruct q as [hp h dv tl sz]; simpl in *. subst dv.
  apply last_Some in Hl as [seg Hseg].
  assert (∃ v, hp !! tl = Some (Node v None)) as [v Htl].
  { rewrite Hseg in Hc. by apply chain_last in Hc. }
  unfold produce_at. simpl. rewrite lookup_insert_ne, Htl by congruence. simpl.
  rewrite lookup_insert_eq. simpl.
  set (hp' := <[tl := _]> _).
  assert (addr ∉ pre ++ d :: post) as Hna by (by eapply chain_not_in).
  assert (chain hp' ((pre ++ d :: post) ++ [addr])) as Hc'.
  { rewrite Hseg in *. apply chain_link with t; [by apply chain_fresh|by rewrite lookup_insert_eq|done|].
    by rewrite lookup_insert_ne by congruence. }
  rewrite <- app_assoc in Hc'. simpl in Hc'.
  destruct (reclaim_spec (length (map_to_list hp')) hp' pre d (post ++ [addr]) h addr (s32 (sz + 1)))
    as (hp2 & -> & Hc2 & Hd2 & Hv2).
  - done.
  - intros l [nd E]. unfold hp' in E. apply lookup_insert_Some in E as [[<- _]|[_ E]].
    + pose proof (Hd tl (ex_intro _ _ Htl)). set_solver.
    + apply lookup_insert_Some in E as [[<- _]|[_ E]]; [set_solver|].
      pose proof (Hd l (ex_intro _ _ E)). set_solver.
  - by destruct pre.
  - pose proof (size_map_chain _ _ Hc') as Hs. len_solve.
  - eexists. split_and!; [done| |done]. exists [], d, (post ++ [addr]). simpl. split_and!; try done.
    + by rewrite app_comm_cons, last_snoc.
    + rewrite Hv2. unfold hp'. erewrite values_link by (by rewrite lookup_insert_ne by congruence).
      rewrite values_app, values_fresh, Hv, values_cons, lookup_insert_eq by set_solver. done.
    + rewrite Hsz, length_app, s32_add_l. f_equal. simpl. lia.
Qed.

Lemma produce_spec q xs t :
  queue_of q xs → ∃ q', produce t q = Some q' ∧ queue_of q' (xs ++ [t]).
Proof.
  intros Hq. destruct (produce_at_spec q xs (fresh (dom (heap q))) t Hq) as (q' & ? & ? & _); [|eauto].
  apply not_elem_of_dom, is_fresh.
Qed.

Lemma consume_spec q xs :
  queue_of q xs →
  match xs with
  | [] => consume q = Some (None, q)
  | x :: xs' => ∃ q', consume q = Some (Some x, q') ∧ queue_of q' xs'
  end.
Proof.
  intros (pre & d & post & Hc & Hd & Hh & Hdv & Hl & Hv & Hsz). simpl in *.
  destruct q as [hp h dv tl sz]; simpl in *. subst dv. unfold consume. simpl.
  destruct post as [|n post].
  - rewrite last_snoc in Hl. simplify_eq/=. by rewrite Z.eqb_refl.
  - destruct (chain_lookup _ _ (S (length pre)) n Hc) as [v Hn].
    { by rewrite lookup_app_r, Nat.sub_succ_l, Nat.sub_diag by lia. }
    destruct (chain_lookup _ _ (length pre) d Hc) as [w Hd'].
    { by rewrite lookup_app_r, Nat.sub_diag. }
    rewrite values_cons, Hn in Hv. simpl in Hv. subst xs. simpl.
    destruct (Z.eqb_spec d tl) as [->|Hne]; simpl.
    { exfalso. apply last_Some in Hl as [seg Hseg]. destruct Hc as [Hnd _].
      assert (length pre = length seg) as E.
      { eapply NoDup_lookup; [exact Hnd|by rewrite lookup_app_r, Nat.sub_diag|].
        by rewrite Hseg, lookup_app_r, Nat.sub_diag. }
      apply (f_equal length) in Hseg. len_solve. }
    rewrite Hd'. simpl. rewrite lookup_app_r, Nat.sub_succ_l, Nat.sub_diag by lia. simpl.
    rewrite Hn. simpl. eexists. split; [done|].
    exists (pre ++ [d]), n, post. rewrite <- app_assoc. simpl. split_and!; try done.
    rewrite Hsz, <- (Z.add_opp_r (s32 _)), s32_add_l. f_equal. simpl. lia.
Qed.

Lemma destroy_loop_spec fuel (hp : gmap Z (node T)) seg :
  chain hp seg → (∀ l, is_Some (hp !! l) → l ∈ seg) → (length seg ≤ fuel)%nat →
  destroy_loop fuel hp (head seg) = Some ∅.
Proof.
  revert hp seg. induction fuel as [|fuel IH]; intros hp seg Hc Hd Hl;
    (destruct seg as [|l seg];
      [simpl; f_equal; apply map_empty; intros l; destruct (hp !! l) eqn:E; [|done];
       exfalso; eapply not_elem_of_nil, Hd; eauto|simpl in Hl; try lia]).
  destruct (chain_lookup _ _ 0 l Hc eq_refl) as [v Hv]. simpl. rewrite Hv. simpl.
  rewrite <- head_lookup. apply IH; [by apply chain_tail| |lia].
  intros l' [nd E]. apply lookup_delete_Some in E as [Hne E].
  pose proof (Hd l' (ex_intro _ _ E)). set_solver.
Qed.

(** The destructor frees every node, none of them twice. *)
Lemma destroy_spec q xs : queue_of q xs → destroy q = Some ∅.
Proof.
  intros (pre & d & post & Hc & Hd & Hh & _). unfold destroy. rewrite <- Hh.
  apply destroy_loop_spec; [done|done|]. by apply size_map_chain.
Qed.
End Correct.

(** ** The interface of a queue

    What the workers rely on: a queue accepts any element and gives the
    elements back in order. [std::queue] satisfies it trivially. *)

Class Fifo (Q T : Type) := {
  fifo_push : T → Q → option Q;
  fifo_pop : Q → option (option T * Q);
  fifo_contents : Q → list T → Prop
}.

Class FifoSpec (Q T : Type) `{Fifo Q T} : Prop := {
  fifo_push_spec q xs t : fifo_contents q xs →
    ∃ q', fifo_push t q = Some q' ∧ fifo_contents q' (xs ++ [t]);
  fifo_pop_spec q xs : fifo_contents q xs →
    match xs with
    | [] => fifo_pop q = Some (None, q)
    | x :: xs' => ∃ q', fifo_pop q = Some (Some x, q') ∧ fifo_contents q' xs'
    end
}.

#[global] Instance lfq_fifo T : Fifo (lfq T) T := {|
  fifo_push := produce;
  fifo_pop := consume;
  fifo_contents := queue_of |}.

#[global] Instance lfq_fifo_spec T : FifoSpec (lfq T) T.
Proof. split; [apply produce_spec|apply consume_spec]. Qed.

(** [std::queue]: [push], and [front] with [pop] guarded by [empty]. *)
#[global] Instance std_queue_fifo T : Fifo (list T) T := {|
  fifo_push t q := Some (q ++ [t]);
  fifo_pop q := Some (match q with [] => (None, []) | x :: q' => (Some x, q') end);
  fifo_contents q xs := q = xs |}.

#[global] Instance std_queue_fifo_spec T : FifoSpec (list T) T.
Proof. split; simpl; intros q xs; [intros t ->; eauto|intros ->; destruct xs; eauto]. Qed.

(** ** One producer and one consumer, interleaved *)

Section Concurrent.
Context {T : Type} (dflt : T).

(** Where the producer is in [produce], with its local variables. *)
Inductive ppc :=
  | PIdle
  | PLink (n : Z)        (* [new Node(t)] done: next, [tail_->next = n] *)
  | PAdvance             (* next, [tail_ = tail_->next] *)
  | PCount               (* next, [++size_] *)
  | PTest                (* next, the test [head_ != divider_] *)
  | PStep (tmp : Z)      (* next, [head_ = head_->next] *)
  | PDelete (tmp : Z).   (* next, [delete tmp] *)

(** Where the consumer is in [consume]. *)
Inductive cpc :=
  | CIdle
  | CRead                (* the test said non-empty: next, [*result = ...] *)
  | CAdvance (v : T)     (* next, [divider_ = divider_->next] *)
  | CCount.              (* next, [--size_] *)

(** The shared object, both program points, and the ghost history: the
    values whose node became reachable through [tail_], and the values
    handed to the caller of [consume]. *)
Record cstate := CState {
  shared : lfq T;
  prod : ppc;
  cons : cpc;
  produced : list T;
  consumed : list T
}.

Definition set_heap (h : gmap Z (node T)) (q : lfq T) : lfq T :=
  LFQ h (head_ q) (divider_ q) (tail_ q) (size_ q).

(** One atomic action of the producer; [None] when it touches a deleted
    node or a null link. A new call places its node at a free address. *)
Definition prod_step (call : Z * T) (s : cstate) : option cstate :=
  let q := shared s in
  let go q pc := Some (CState q pc (cons s) (produced s) (consumed s)) in
  match prod s with
  | PIdle =>
      let '(addr, t) := call in
      if bool_decide (heap q !! addr = None)
      then go (set_heap (<[addr := Node t None]> (heap q)) q) (PLink addr)
      else Some s
  | PLink n =>
      nd ← heap q !! tail_ q;
      go (set_heap (<[tail_ q := Node (data nd) (Some n)]> (heap q)) q) PAdvance
  | PAdvance =>
      nd ← heap q !! tail_ q;
      tl ← next nd;
      nd' ← heap q !! tl;
      Some (CState (LFQ (heap q) (head_ q) (divider_ q) tl (size_ q)) PCount (cons s)
              (produced s ++ [data nd']) (consumed s))
  | PCount => go (LFQ (heap q) (head_ q) (divider_ q) (tail_ q) (s32 (size_ q + 1))) PTest
  | PTest => if head_ q =? divider_ q then go q PIdle else go q (PStep (head_ q))
  | PStep tmp =>
      nd ← heap q !! head_ q;
      h' ← next nd;
      go (LFQ (heap q) h' (divider_ q) (tail_ q) (size_ q)) (PDelete tmp)
  | PDelete tmp =>
      _ ← heap q !! tmp;
      go (set_heap (delete tmp (heap q)) q) PTest
  end.

(** One atomic action of the consumer; from [CIdle] it starts a call, which
    returns [false] at once when the queue looks empty. *)
Definition cons_step (s : cstate) : option cstate :=
  let q := shared s in
  let go q pc out := Some (CState q (prod s) pc (produced s) out) in
  match cons s with
  | CIdle => if divider_ q =? tail_ q then Some s else go q CRead (consumed s)
  | CRead =>
      nd ← heap q !! divider_ q;
      nx ← next nd;
      nd' ← heap q !! nx;
      go q (CAdvance (data nd')) (consumed s)
  | CAdvance v =>
      nd ← heap q !! divider_ q;
      nx ← next nd;
      go (LFQ (heap q) (head_ q) nx (tail_ q) (size_ q)) CCount (consumed s ++ [v])
  | CCount => go (LFQ (heap q) (head_ q) (divider_ q) (tail_ q) (s32 (size_ q - 1))) CIdle (consumed s)
  end.

Definition cinit (addr : Z) : cstate := CState (lfq_new dflt addr) PIdle CIdle [] [].

(** The scheduler picks either thread at every step. *)
Inductive cstep : cstate → cstate → Prop :=
  | cstep_prod call s s' : prod_step call s = Some s' → cstep s s'
  | cstep_cons s s' : cons_step s = Some s' → cstep s s'.

Inductive creach (addr : Z) : cstate → Prop :=
  | creach_init : creach addr (cinit addr)
  | creach_step s s' : creach addr s → cstep s s' → creach addr s'.

(** *** Invariant *)

Definition prod_inv (q : lfq T) (pc : ppc) (pre : list Z) (d : Z) (mid extra : list Z) : Prop :=
  let seg := pre ++ d :: mid ++ extra in
  match pc with
  | PLink n => extra = [] ∧ n ∉ seg ∧ ∃ t, heap q !! n = Some (Node t None)
  | PAdvance => ∃ n, extra = [n]
  | PStep tmp => extra = [] ∧ tmp = head_ q ∧ pre ≠ []
  | PDelete tmp => extra = [] ∧ tmp ∉ seg ∧ is_Some (heap q !! tmp)
  | _ => extra = []
  end.

Definition cons_inv (q : lfq T) (pc : cpc) (mid : list Z) : Prop :=
  match pc with
  | CRead => mid ≠ []
  | CAdvance v => head (values (heap q) mid) = Some v
  | _ => True
  end.

(** The chain from [head_]: deleted-soon nodes, [divider_], the nodes to
    consume up to [tail_], and the node linked but not yet published. *)
Definition cinv (s : cstate) : Prop :=
  let q := shared s in
  ∃ pre mid extra,
    let d := divider_ q in
    chain (heap q) (pre ++ d :: mid ++ extra) ∧
    head (pre ++ [d]) = Some (head_ q) ∧
    list.last (d :: mid) = Some (tail_ q) ∧
    prod_inv q (prod s) pre d mid extra ∧ cons_inv q (cons s) mid ∧
    produced s = consumed s ++ values (heap q) mid ∧
    size_ q = s32 (Z.of_nat (length mid)
      - (if prod s is PCount then 1 else 0) + (if cons s is CCount then 1 else 0)).

Lemma cinit_inv addr : cinv (cinit addr).
Proof.
  exists [], [], []. simpl. split_and!; try done.
  split; [apply NoDup_singleton|]. intros [|i] l Hi; simplify_eq/=. exists dflt. by rewrite lookup_singleton_eq.
Qed.

Lemma length_values (h : gmap Z (node T)) l seg r :
  chain h (l ++ seg ++ r) → length (values h seg) = length seg.
Proof.
  intros [_ Hc]. assert (∀ x, x ∈ seg → is_Some (h !! x)) as Hs.
  { intros x [i Hi]%list_elem_of_lookup. destruct (Hc (length l + i)%nat x) as [v Hv].
    { rewrite lookup_app_r by lia. replace (length l + i - length l)%nat with i by lia.
      by apply lookup_app_l_Some. }
    eauto. }
  clear Hc. induction seg as [|x seg IH]; [done|]. rewrite values_cons.
  destruct (Hs x) as [nd ->]; [set_solver|]. simpl. f_equal. apply IH. set_solver.
Qed.

(** Every action of the producer is defined and keeps the invariant. *)
Lemma prod_step_inv call s : cinv s → ∃ s', prod_step call s = Some s' ∧ cinv s'.
Proof.
  destruct s as [[hp h d tl sz] pc cc out got]. intros (pre & mid & extra & Hc & Hh & Hl & Hp & Hk & Ho & Hs).
  simpl in *. unfold prod_step; simpl. destruct pc as [|n| | | |tmp|tmp]; simpl in Hp.
  - (* a new call *)
    destruct call as [addr t]. case_bool_decide as Hf; [|by eexists; split; [done|]; exists pre, mid, extra].
    pose proof (chain_not_in _ _ _ Hc Hf) as Hni. subst extra. rewrite app_nil_r in *.
    eexists; split; [done|]. exists pre, mid, []. simpl. rewrite app_nil_r. split_and!; try done.
    + by apply chain_fresh.
    + exists t. by rewrite lookup_insert_eq.
    + destruct cc; simpl in *; try done. by rewrite values_fresh by set_solver.
    + by rewrite values_fresh by set_solver.
  - (* tail_->next = n *)
    destruct Hp as (-> & Hn & t & Ht). rewrite app_nil_r in *.
    destruct (proj1 (last_Some (d :: mid) tl) Hl) as [mid' Hm].
    assert (pre ++ d :: mid = (pre ++ mid') ++ [tl]) as Hseg by (rewrite Hm, app_assoc; done).
    rewrite Hseg in Hc, Hn. destruct (chain_last _ _ _ Hc) as [v Hv]. rewrite Hv. simpl.
    eexists; split; [done|]. exists pre, mid, [n]. simpl. split_and!; try done.
    + rewrite app_comm_cons, app_assoc, Hseg. by eapply chain_link.
    + eauto.
    + destruct cc; simpl in *; try done. by erewrite values_link.
    + by erewrite values_link.
  - (* tail_ = tail_->next *)
    destruct Hp as [n ->]. destruct (proj1 (last_Some (d :: mid) tl) Hl) as [mid' Hm].
    assert (pre ++ d :: mid ++ [n] = (pre ++ mid') ++ [tl; n]) as Hseg.
    { rewrite app_comm_cons, Hm, <- !app_assoc. done. }
    destruct (chain_lookup _ _ (length (pre ++ mid')) tl Hc) as [v Hv].
    { by rewrite Hseg, lookup_app_r, Nat.sub_diag. }
    destruct (chain_lookup _ _ (S (length (pre ++ mid'))) n Hc) as [w Hw].
    { by rewrite Hseg, lookup_app_r, Nat.sub_succ_l, Nat.sub_diag by lia. }
    rewrite Hv. simpl. rewrite Hseg, lookup_app_r, Nat.sub_succ_l, Nat.sub_diag by lia. simpl.
    rewrite Hw. simpl. eexists; split; [done|]. exists pre, (mid ++ [n]), []. simpl. rewrite app_nil_r.
    split_and!; try done.
    + by rewrite app_comm_cons, last_snoc.
    + destruct cc as [| |v'|]; simpl in *; try done; [by destruct mid|].
      rewrite values_app. destruct (values hp mid); [done|]. done.
    + rewrite Ho, values_app, values_cons, Hw, app_assoc. done.
    + rewrite Hs, length_app. simpl. f_equal. lia.
  - (* ++size_ *)
    subst extra. eexists; split; [done|]. exists pre, mid, []. simpl. split_and!; try done.
    rewrite Hs, s32_add_l. f_equal. lia.
  - (* head_ != divider_ *)
    subst extra. destruct (Z.eqb_spec h d).
    + eexists; split; [done|]. by exists pre, mid, [].
    + eexists; split; [done|]. exists pre, mid, []. simpl. split_and!; try done.
      intros ->. by simplify_eq/=.
  - (* head_ = head_->next *)
    destruct Hp as (-> & -> & Hpre). destruct pre as [|p pre]; [done|]. simplify_eq/=.
    destruct (chain_lookup _ _ 0 h Hc eq_refl) as [v Hv]. rewrite Hv. simpl.
    assert (∃ h', (pre ++ d :: mid ++ []) !! 0%nat = Some h' ∧ head (pre ++ [d]) = Some h') as (h' & Hh' & Hh2).
    { destruct pre; simpl; eauto. }
    rewrite Hh'. simpl. eexists; split; [done|]. exists pre, mid, []. simpl. split_and!; try done.
    + by eapply chain_drop.
    + destruct Hc as [Hnd _]. by apply NoDup_cons in Hnd as [? _].
  - (* delete tmp *)
    destruct Hp as (-> & Hn & [nd Ht]). rewrite Ht. simpl. eexists; split; [done|].
    exists pre, mid, []. simpl. assert (tmp ∉ mid) as Hm by set_solver. split_and!; try done.
    + by apply chain_delete.
    + destruct cc; simpl in *; try done. by rewrite values_delete.
    + by rewrite values_delete.
Qed.

(** The first node behind [divider_]. *)
Lemma chain_next (h : gmap Z (node T)) pre d n rest :
  chain h (pre ++ d :: n :: rest) →
  ∃ v w nx, h !! d = Some (Node v (Some n)) ∧ h !! n = Some (Node w nx).
Proof.
  intros Hc. destruct (chain_lookup _ _ (length pre) d Hc) as [v Hv].
  { by rewrite lookup_app_r, Nat.sub_diag. }
  destruct (chain_lookup _ _ (S (length pre)) n Hc) as [w Hw].
  { by rewrite lookup_app_r, Nat.sub_succ_l, Nat.sub_diag by lia. }
  rewrite lookup_app_r, Nat.sub_succ_l, Nat.sub_diag in Hv by lia. eauto.
Qed.

(** Every action of the consumer is defined and keeps the invariant. *)
Lemma cons_step_inv s : cinv s → ∃ s', cons_step s = Some s' ∧ cinv s'.
Proof.
  destruct s as [[hp h d tl sz] pc cc out got]. intros (pre & mid & extra & Hc & Hh & Hl & Hp & Hk & Ho & Hs).
  simpl in *. unfold cons_step; simpl. destruct cc as [| |v|]; simpl in Hk.
  - (* divider_ != tail_ *)
    destruct (Z.eqb_spec d tl); [by eexists; split; [done|]; exists pre, mid, extra|].
    eexists; split; [done|]. exists pre, mid, extra. simpl. split_and!; try done.
    intros ->. by simplify_eq/=.
  - (* *result = divider_->next->data *)
    destruct mid as [|n mid]; [done|]. destruct (chain_next hp pre d n (mid ++ extra) Hc) as (v & w & nx & Hv & Hw).
    rewrite Hv. simpl. rewrite Hw. simpl. eexists; split; [done|].
    exists pre, (n :: mid), extra. simpl. split_and!; try done. simpl. by rewrite Hw.
  - (* divider_ = divider_->next *)
    destruct mid as [|n mid]; [done|]. destruct (chain_next hp pre d n (mid ++ extra) Hc) as (v' & w & nx & Hv & Hw).
    rewrite Hv. simpl. rewrite values_cons, Hw in Hk, Ho. simplify_eq/=.
    eexists; split; [done|]. exists (pre ++ [d]), mid, extra. simpl. rewrite <- !app_assoc. split_and!; try done.
    + by destruct pre.
    + destruct pc; simpl in *; rewrite <- ?app_assoc; try done.
      destruct Hp as (? & ? & ?). by split_and!; [..|destruct pre].
    + f_equal. lia.
  - (* --size_ *)
    eexists; split; [done|]. exists pre, mid, extra. simpl. split_and!; try done.
    rewrite Hs, <- Z.add_opp_r, s32_add_l. f_equal. lia.
Qed.

Lemma creach_inv addr s : creach addr s → cinv s.
Proof.
  induction 1 as [|s s' _ IH Hstep]; [apply cinit_inv|].
  destruct Hstep as [call s s' E|s s' E].
  - destruct (prod_step_inv call s IH) as (s2 & E2 & H2). congruence.
  - destruct (cons_step_inv s IH) as (s2 & E2 & H2). congruence.
Qed.
End Concurrent.
Arguments cstate : clear implicits.
Arguments cpc : clear implicits.

(** ** Properties *)

(** A script of calls on a queue: [Some t] pushes [t], [None] pops. *)
Fixpoint fifo_exec {Q T} `{Fifo Q T} (script : list (option T)) (q : Q) : option (list (option T) * Q) :=
  match script with
  | [] => Some ([], q)
  | Some t :: script => q' ← fifo_push t q; fifo_exec script q'
  | None :: script => '(r, q') ← fifo_pop q; '(rs, q'') ← fifo_exec script q'; Some (r :: rs, q'')
  end.

(** Any two queues with the same contents answer a script alike. *)
Lemma fifo_exec_agree {Q1 Q2 T} `{FifoSpec Q1 T} `{FifoSpec Q2 T} script (q1 : Q1) (q2 : Q2) xs :
  fifo_contents q1 xs → fifo_contents q2 xs →
  ∃ rs q1' q2' xs', fifo_exec script q1 = Some (rs, q1') ∧ fifo_exec script q2 = Some (rs, q2') ∧
    fifo_contents q1' xs' ∧ fifo_contents q2' xs'.
Proof.
  revert q1 q2 xs. induction script as [|[t|] script IH]; intros q1 q2 xs Hc1 Hc2.
  - by exists [], q1, q2, xs.
  - destruct (fifo_push_spec q1 xs t Hc1) as (q1' & E1 & Hc1').
    destruct (fifo_push_spec q2 xs t Hc2) as (q2' & E2 & Hc2').
    simpl. rewrite E1, E2. simpl. by eapply IH.
  - pose proof (fifo_pop_spec q1 xs Hc1) as P1. pose proof (fifo_pop_spec q2 xs Hc2) as P2.
    assert (∃ r q1' q2' xs', fifo_pop q1 = Some (r, q1') ∧ fifo_pop q2 = Some (r, q2') ∧
      fifo_contents q1' xs' ∧ fifo_contents q2' xs') as (r & q1' & q2' & xs' & E1 & E2 & Hc1' & Hc2').
    { destruct xs as [|x xs]; [eauto 10|]. destruct P1 as (q1' & ? & ?), P2 as (q2' & ? & ?). eauto 10. }
    simpl. rewrite E1, E2. simpl.
    destruct (IH q1' q2' xs' Hc1' Hc2') as (rs & q1'' & q2'' & xs'' & E1' & E2' & ? & ?).
    rewrite E1', E2'. simpl. eauto 10.
Qed.

(** Used from one thread, the queue answers any script of [produce] and
    [consume] calls exactly as a first-in first-out queue does, never touches
    a deleted node, and its destructor then frees every node once. *)
Theorem lfq_behaves_as_queue {T} (dflt : T) addr script :
  ∃ rs q xs, fifo_exec script (lfq_new dflt addr) = Some (rs, q) ∧
    fifo_exec script ([] : list T) = Some (rs, xs) ∧ destroy q = Some ∅ ∧
    size q = s32 (Z.of_nat (length xs)).
Proof.
  destruct (fifo_exec_agree script (lfq_new dflt addr) ([] : list T) []) as (rs & q & xs & ys & E1 & E2 & H1 & H2).
  { apply lfq_new_spec. } { done. }
  simpl in H2. subst ys. exists rs, q, xs. split_and!; [done|done|exact (destroy_spec q xs H1)|].
  by destruct H1 as (? & ? & ? & ? & ? & ? & ? & ? & ? & ?).
Qed.

(** C9: with one producer and one consumer running at the same time, under
    every interleaving of their reads and writes no step dereferences a null
    link or a deleted node: the next action of either side is always
    defined. *)
Theorem lfq_concurrent_safe {T} (dflt : T) addr s call :
  creach dflt addr s → is_Some (prod_step call s) ∧ is_Some (cons_step s).
Proof.
  intros Hi%creach_inv. destruct (prod_step_inv call s Hi) as (? & -> & _).
  destruct (cons_step_inv s Hi) as (? & -> & _). eauto.
Qed.

(** C7: under every interleaving the values handed to the consumer are, in
    order and without loss or duplication, the first of the values published
    by the producer; and when the consumer finds [divider_ == tail_] it has
    received all of them. *)
Theorem lfq_concurrent_fifo {T} (dflt : T) addr s :
  creach dflt addr s →
  (∃ pending, produced s = consumed s ++ pending) ∧
  (divider_ (shared s) = tail_ (shared s) → consumed s = produced s).
Proof.
  intros Hi%creach_inv. destruct Hi as (pre & mid & extra & Hc & _ & Hl & _ & _ & Ho & _).
  split; [eauto|]. intros E. destruct mid as [|n mid]; [by rewrite Ho, app_nil_r|]. exfalso.
  rewrite E in Hc, Hl. apply last_Some in Hl as [l' Hl].
  destruct Hc as [Hnd _]. apply NoDup_app in Hnd as (_ & _ & Hnd).
  rewrite app_comm_cons, Hl, <- app_assoc in Hnd. destruct l' as [|x l']; simplify_eq/=.
  apply NoDup_cons in Hnd as [Hnd _]. set_solver.
Qed.

(** The counter behind [size()] and [empty()] differs by at most one from
    the number of elements published and not yet consumed, and equals it when
    neither side is inside a call. *)
Theorem lfq_concurrent_size {T} (dflt : T) addr s :
  creach dflt addr s → Z.of_nat (length (produced s)) < INT_MAX →
  let pending := Z.of_nat (length (produced s)) - Z.of_nat (length (consumed s)) in
  pending - 1 ≤ size (shared s) ≤ pending + 1 ∧
  (prod s = PIdle → cons s = CIdle → size (shared s) = pending).
Proof.
  intros Hi%creach_inv Hb. destruct Hi as (pre & mid & extra & Hc & _ & _ & _ & _ & Ho & Hs). cbv zeta.
  assert (length (values (heap (shared s)) mid) = length mid) as E.
  { apply (length_values _ (pre ++ [divider_ (shared s)]) mid extra). by rewrite <- app_assoc. }
  unfold size. rewrite Hs. rewrite Ho, length_app, E in Hb |- *. unfold INT_MAX in Hb.
  rewrite s32_small by (unfold INT_MIN, INT_MAX; destruct (prod s), (cons s); lia).
  split; [destruct (prod s), (cons s); lia|]. intros -> ->. lia.
Qed.

(** ** Witnesses *)

(** The producer publishes 7 and the consumer starts to fetch it. *)
Definition demo_state : cstate Z :=
  CState (LFQ {[ 1 := Node 0 (Some 2); 2 := Node 7 None ]} 1 1 2 0) PCount CRead [7] [].

Lemma demo_state_reach : creach 0 1 demo_state.
Proof.
  eapply creach_step; [eapply creach_step; [eapply creach_step; [eapply creach_step;
    [apply creach_init|]|]|]|].
  - apply (cstep_prod (2, 7)). vm_compute. reflexivity.
  - apply (cstep_prod (0, 0)). vm_compute. reflexivity.
  - apply (cstep_prod (0, 0)). vm_compute. reflexivity.
  - apply cstep_cons. vm_compute. reflexivity.
Qed.

Lemma lfq_concurrent_safe_witness : is_Some (prod_step (3, 8) demo_state) ∧ is_Some (cons_step demo_state).
Proof. apply (lfq_concurrent_safe 0 1 demo_state (3, 8)), demo_state_reach. Defined.

Lemma lfq_concurrent_fifo_witness :
  (∃ pending, produced demo_state = consumed demo_state ++ pending) ∧
  (divider_ (shared demo_state) = tail_ (shared demo_state) → consumed demo_state = produced demo_state).
Proof. apply (lfq_concurrent_fifo 0 1 demo_state), demo_state_reach. Defined.

Lemma lfq_concurrent_size_witness : 0 ≤ size (shared demo_state) ≤ 2.
Proof.
  destruct (lfq_concurrent_size 0 1 demo_state demo_state_reach ltac:(vm_compute; reflexivity)) as [H _].
  exact H.
Defined.

(** The counter can be seen at [-1]: the consumer takes an element between its
    publication and its count, and [empty()] is then false on an empty queue. *)
Example size_transiently_negative :
  ∃ s : cstate Z, creach 0 1 s ∧ size (shared s) = -1 ∧ empty (shared s) = false ∧
    consumed s = produced s.
Proof.
  eexists. split.
  - eapply creach_step; [eapply creach_step; [eapply creach_step; [apply demo_state_reach|]|]|].
    + apply cstep_cons. vm_compute. reflexivity.
    + apply cstep_cons. vm_compute. reflexivity.
    + apply cstep_cons. vm_compute. reflexivity.
  - vm_compute. done.
Qed.
