(* ===== verification/Crc32.v ===== *)
(** * CRC-32 (rtc_base/crc32.h, crc32.cc)

    The table-driven checksum that routes streams to workers, and its
    equivalence with the bit-by-bit division it is an optimisation of. *)

From S2P Require Import Prelude.

Definition kCrc32Polynomial : Z := 0xEDB88320.

(** The inner loop body of [LoadCrc32Table]. *)
Definition crc_shift (c : Z) : Z :=
  if Z.land c 1 =? 0 then Z.shiftr c 1
  else Z.lxor kCrc32Polynomial (Z.shiftr c 1).

(** [for (size_t j = 0; j < 8; ++j)] *)
Definition crc_shift8 (c : Z) : Z := Nat.iter 8 crc_shift c.

Definition LoadCrc32Table : list Z := (λ i, crc_shift8 (Z.of_nat i)) <$> seq 0 256.

(** [c = kCrc32Table[(c ^ u[i]) & 0xFF] ^ (c >> 8)] *)
Definition crc_byte (c u : Z) : Z :=
  Z.lxor (LoadCrc32Table !!! Z.to_nat (Z.land (Z.lxor c u) 0xFF)) (Z.shiftr c 8).

Definition UpdateCrc32 (start : Z) (buf : list Z) : Z :=
  Z.lxor (foldl crc_byte (Z.lxor start 0xFFFFFFFF) buf) 0xFFFFFFFF.

Definition ComputeCrc32 (buf : list Z) : Z := UpdateCrc32 0 buf.

(** ** The reference: one bit of the message at a time *)

Definition crc_byte_ref (c u : Z) : Z := crc_shift8 (Z.lxor c u).

Definition UpdateCrc32_ref (start : Z) (buf : list Z) : Z :=
  Z.lxor (foldl crc_byte_ref (Z.lxor start 0xFFFFFFFF) buf) 0xFFFFFFFF.

Lemma land_1_odd c : (Z.land c 1 =? 0) = negb (Z.testbit c 0).
Proof.
  change 1 with (Z.ones 1). rewrite Z.land_ones by lia. change (2 ^ 1) with 2.
  rewrite Z.bit0_odd, Zmod_odd. by destruct (Z.odd c).
Qed.

Definition feedback (b : bool) : Z := if b then kCrc32Polynomial else 0.

Lemma crc_shift_feedback c : crc_shift c = Z.lxor (feedback (Z.testbit c 0)) (Z.shiftr c 1).
Proof. unfold crc_shift. rewrite land_1_odd. by destruct (Z.testbit c 0). Qed.

(** A shift step is linear for exclusive or. *)
Lemma crc_shift_lxor a b : crc_shift (Z.lxor a b) = Z.lxor (crc_shift a) (crc_shift b).
Proof.
  rewrite !crc_shift_feedback, Z.shiftr_lxor, Z.lxor_spec.
  assert (∀ x y, feedback (xorb x y) = Z.lxor (feedback x) (feedback y)) as ->.
  { intros [] []; simpl; by rewrite ?Z.lxor_0_r, ?Z.lxor_0_l, ?Z.lxor_nilpotent. }
  rewrite !Z.lxor_assoc. f_equal. rewrite <- !Z.lxor_assoc. f_equal. apply Z.lxor_comm.
Qed.

Lemma crc_shift8_lxor a b : crc_shift8 (Z.lxor a b) = Z.lxor (crc_shift8 a) (crc_shift8 b).
Proof. unfold crc_shift8. simpl. by rewrite !crc_shift_lxor. Qed.

Lemma crc_shift_even c : crc_shift (2 * c) = c.
Proof.
  rewrite crc_shift_feedback, Z.testbit_even_0. simpl. rewrite Z.lxor_0_l, <- Z.div2_spec.
  by rewrite Z.div2_div, Z.mul_comm, Z.div_mul.
Qed.

(** Eight shifts of a value without low bits only move it. *)
Lemma crc_shift8_high c : crc_shift8 (Z.shiftl c 8) = c.
Proof.
  rewrite Z.shiftl_mul_pow2 by lia. unfold crc_shift8. simpl.
  replace (c * 2 ^ 8) with (2 * (2 * (2 * (2 * (2 * (2 * (2 * (2 * c)))))))) by lia.
  by rewrite !crc_shift_even.
Qed.

Lemma split_low_byte c : c = Z.lxor (Z.land c 0xFF) (Z.shiftl (Z.shiftr c 8) 8).
Proof.
  apply Z.bits_inj'. intros n Hn. rewrite Z.lxor_spec, Z.land_spec, Z.shiftl_spec by lia.
  change 0xFF with (Z.ones 8). destruct (Z.lt_ge_cases n 8).
  - rewrite Z.ones_spec_low, (Z.testbit_neg_r _ (n - 8)) by lia. by rewrite andb_true_r, xorb_false_r.
  - rewrite Z.ones_spec_high, Z.shiftr_spec by lia. rewrite andb_false_r, xorb_false_l. f_equal. lia.
Qed.

Lemma table_lookup c : LoadCrc32Table !!! Z.to_nat (Z.land c 0xFF) = crc_shift8 (Z.land c 0xFF).
Proof.
  assert (0 ≤ Z.land c 0xFF < 256) as Hr.
  { change 0xFF with (Z.ones 8). rewrite Z.land_ones by lia. apply Z.mod_pos_bound. lia. }
  unfold LoadCrc32Table. apply list_lookup_total_correct.
  rewrite list_lookup_fmap, lookup_seq_lt by lia. simpl. f_equal. f_equal. lia.
Qed.

Lemma crc_byte_correct c u : 0 ≤ u < 256 → crc_byte c u = crc_byte_ref c u.
Proof.
  intros Hu. unfold crc_byte, crc_byte_ref. rewrite table_lookup.
  rewrite (split_low_byte (Z.lxor c u)) at 2. rewrite crc_shift8_lxor, crc_shift8_high.
  f_equal. rewrite Z.shiftr_lxor, (Z.shiftr_div_pow2 u), (Z.div_small u) by lia.
  by rewrite Z.lxor_0_r.
Qed.

Lemma crc_fold_correct buf c : bytes_ok buf → foldl crc_byte c buf = foldl crc_byte_ref c buf.
Proof.
  intros Hb. revert c. induction Hb as [|u buf Hu _ IH]; intros c; [done|].
  simpl. by rewrite crc_byte_correct, IH.
Qed.

Lemma lxor_involutive_mask c : Z.lxor (Z.lxor c 0xFFFFFFFF) 0xFFFFFFFF = c.
Proof. by rewrite Z.lxor_assoc, Z.lxor_nilpotent, Z.lxor_0_r. Qed.

(** ** Range *)

Lemma lxor_range n a b : 0 ≤ n → 0 ≤ a < 2 ^ n → 0 ≤ b < 2 ^ n → 0 ≤ Z.lxor a b < 2 ^ n.
Proof.
  intros Hn Ha Hb. assert (0 ≤ Z.lxor a b) as H by (apply Z.lxor_nonneg; lia). split; [done|].
  destruct (Z.eq_dec (Z.lxor a b) 0) as [->|]; [lia|].
  destruct (Z.eq_dec a 0) as [->|]; [rewrite Z.lxor_0_l in *; lia|].
  destruct (Z.eq_dec b 0) as [->|]; [rewrite Z.lxor_0_r in *; lia|].
  apply Z.log2_lt_pow2; [lia|]. pose proof (Z.log2_lxor a b).
  assert (Z.log2 a < n) by (apply Z.log2_lt_pow2; lia).
  assert (Z.log2 b < n) by (apply Z.log2_lt_pow2; lia). lia.
Qed.

Lemma shiftr_range n c k : 0 ≤ k → 0 ≤ c < 2 ^ n → 0 ≤ Z.shiftr c k < 2 ^ n.
Proof.
  intros Hk Hc. rewrite Z.shiftr_div_pow2 by lia. split; [apply Z.div_pos; lia|].
  apply Z.le_lt_trans with c; [|lia]. apply Z.div_le_upper_bound; [lia|]. nia.
Qed.

Lemma crc_shift_range c : 0 ≤ c < 2 ^ 32 → 0 ≤ crc_shift c < 2 ^ 32.
Proof.
  intros Hc. rewrite crc_shift_feedback. apply lxor_range; [lia| |apply shiftr_range; lia].
  unfold feedback, kCrc32Polynomial. destruct (Z.testbit c 0); lia.
Qed.

Lemma crc_shift8_range c : 0 ≤ c < 2 ^ 32 → 0 ≤ crc_shift8 c < 2 ^ 32.
Proof. intros. unfold crc_shift8. simpl. do 8 apply crc_shift_range. done. Qed.

Lemma UpdateCrc32_range start buf :
  0 ≤ start < 2 ^ 32 → bytes_ok buf → 0 ≤ UpdateCrc32 start buf < 2 ^ 32.
Proof.
  intros Hs Hb. unfold UpdateCrc32. rewrite crc_fold_correct by done.
  apply lxor_range; [lia| |lia]. apply (lxor_range 32 start 0xFFFFFFFF) in Hs; [|lia|lia].
  revert Hs. generalize (Z.lxor start 0xFFFFFFFF). induction Hb as [|u buf Hu _ IH]; intros c Hc; [done|].
  simpl. apply IH. apply crc_shift8_range, lxor_range; [lia|lia|]. unfold byte_ok in Hu. lia.
Qed.

Lemma ComputeCrc32_range buf : bytes_ok buf → 0 ≤ ComputeCrc32 buf < 2 ^ 32.
Proof. apply UpdateCrc32_range. lia. Qed.

(** The check value of the CRC-32 catalogue. *)
Example crc32_check : ComputeCrc32 (b#"123456789") = 0xCBF43926.
Proof. vm_compute. reflexivity. Qed.

(** ** Properties *)

(** C18: the table-driven update computes the bit-by-bit CRC-32 of the
    message, and stays a 32-bit value. *)
Theorem crc32_table_correct start buf :
  0 ≤ start < 2 ^ 32 → bytes_ok buf →
  UpdateCrc32 start buf = UpdateCrc32_ref start buf ∧ 0 ≤ UpdateCrc32 start buf < 2 ^ 32.
Proof.
  intros Hs Hb. split; [|by apply UpdateCrc32_range].
  unfold UpdateCrc32, UpdateCrc32_ref. by rewrite crc_fold_correct.
Qed.

Lemma crc32_table_correct_witness :
  UpdateCrc32 0 (b#"stream") = UpdateCrc32_ref 0 (b#"stream") ∧ 0 ≤ UpdateCrc32 0 (b#"stream") < 2 ^ 32.
Proof.
  apply (crc32_table_correct 0 (b#"stream")); [lia|]. apply (bool_decide_unpack _). vm_compute. exact I.
Defined.

(** The checksum can be computed piecewise: updating the checksum of a
    first block with a second one gives the checksum of both. *)
Theorem crc32_incremental start xs ys :
  UpdateCrc32 (UpdateCrc32 start xs) ys = UpdateCrc32 start (xs ++ ys).
Proof. unfold UpdateCrc32. by rewrite lxor_involutive_mask, foldl_app. Qed.
