(* ===== verification/Slice.v ===== *)
(** * Slices of a buffer (rtc_base/slice.h)

    A [Slice] is a pointer into a block with a size: the commands of the
    protocol are cut out of the receive buffer with it. The block is the list
    of its bytes and the pointers are offsets into it. *)

From S2P Require Import Prelude.

Record slice := Slice {
  block : list Z;       (* the block [buffer_] points to the start of *)
  data_ : Z;            (* [data_ - buffer_] *)
  size_ : Z
}.

Definition slice_empty : slice := Slice [0] 0 0.
Definition slice_new (d : list Z) (n : Z) : slice := Slice d 0 n.
(** A [std::string] is its characters and a terminator. *)
Definition slice_of_string (s : list Z) : slice := Slice (s ++ [0]) 0 (Z.of_nat (length s)).
Definition slice_of_cstr (s : list Z) : res slice :=
  let* n := of_mem (strlen s) in Val (Slice s 0 n).

Definition buffer (s : slice) : list Z := block s.
Definition data (s : slice) : list Z := drop (Z.to_nat (data_ s)) (block s).
Definition size (s : slice) : Z := size_ s.
Definition is_empty (s : slice) : bool := size_ s =? 0.

Definition index (s : slice) (n : Z) : res Z :=
  let* _ := c_assert (n <? size s) in
  of_mem (block s !! Z.to_nat (data_ s + n)).

Definition clear (s : slice) : slice := slice_empty.

Definition remove_prefix (s : slice) (n : Z) : res slice :=
  let* _ := c_assert (n <=? size s) in
  Val (Slice (block s) (data_ s + n) (u64 (size_ s - n))).

Definition to_string (s : slice) : res (list Z) := of_mem (mread (block s) (data_ s) (size_ s)).

(** [memcmp] of the first [n] bytes of two slices. *)
Definition slice_memcmp (a b : slice) (n : Z) : res Z :=
  let* x := of_mem (mread (block a) (data_ a) n) in
  let* y := of_mem (mread (block b) (data_ b) n) in
  Val (memcmp x y).

Definition starts_with (s x : slice) : res bool :=
  if size_ x <=? size_ s then let* r := slice_memcmp s x (size_ x) in Val (r =? 0) else Val false.

Definition slice_eq (x y : slice) : res bool :=
  if size x =? size y then let* r := slice_memcmp x y (size x) in Val (r =? 0) else Val false.

Definition slice_ne (x y : slice) : res bool := let* b := slice_eq x y in Val (negb b).

(** [min_len] is an [int], converted back to [size_t] by [memcmp]. *)
Definition compare (a b : slice) : res Z :=
  let min_len := s32 (if size_ a <? size_ b then size_ a else size_ b) in
  let* r := slice_memcmp a b (u64 min_len) in
  Val (if r =? 0 then if size_ a <? size_ b then -1 else if size_ b <? size_ a then 1 else r else r).

(** ** Contents *)

(** [holds s bs]: the slice lies inside its block and covers the bytes [bs]. *)
Definition holds (s : slice) (bs : list Z) : Prop :=
  ∃ pre post, block s = pre ++ bs ++ post ∧ data_ s = Z.of_nat (length pre) ∧
    size_ s = Z.of_nat (length bs).

Lemma holds_read s bs n :
  holds s bs → 0 ≤ n ≤ size_ s → mread (block s) (data_ s) n = Some (take (Z.to_nat n) bs).
Proof.
  intros (pre & post & -> & -> & Hs) Hn. rewrite Hs in Hn.
  rewrite <- (take_drop (Z.to_nat n) bs) at 1. rewrite <- app_assoc.
  apply mread_app; [done|len_solve].
Qed.

Lemma holds_memcmp a b xs ys n :
  holds a xs → holds b ys → 0 ≤ n ≤ size_ a → n ≤ size_ b →
  slice_memcmp a b n = Val (memcmp (take (Z.to_nat n) xs) (take (Z.to_nat n) ys)).
Proof.
  intros Ha Hb Hn Hn'. unfold slice_memcmp.
  by rewrite (holds_read a xs), (holds_read b ys) by (done || lia).
Qed.

Lemma memcmp_eqb xs ys : length xs = length ys → (memcmp xs ys =? 0) = bool_decide (xs = ys).
Proof.
  intros Hl. pose proof (memcmp_eq xs ys Hl). case_bool_decide.
  - apply Z.eqb_eq. tauto.
  - apply Z.eqb_neq. tauto.
Qed.

(** ** Properties *)

(** For slices shorter than 2 GB [Slice::compare] is a total order: its
    sign is the lexicographic order of the bytes the slices cover, whatever
    lies around them in their blocks. *)
Theorem slice_compare_lexicographic a b xs ys :
  holds a xs → holds b ys → size_ a ≤ INT_MAX → size_ b ≤ INT_MAX →
  ∃ r, compare a b = Val r ∧ (r ?= 0) = lex_compare xs ys.
Proof.
  intros Ha Hb Hla Hlb. unfold compare.
  assert (size_ a = Z.of_nat (length xs)) as Ea by (by destruct Ha as (? & ? & ? & ? & ?)).
  assert (size_ b = Z.of_nat (length ys)) as Eb by (by destruct Hb as (? & ? & ? & ? & ?)).
  set (m := if size_ a <? size_ b then size_ a else size_ b).
  assert (m = Z.of_nat (length xs `min` length ys)) as Em by (unfold m; case_match; reflect_Z; lia).
  unfold INT_MAX in *. rewrite s32_small, u64_small by (unfold INT_MIN, INT_MAX; lia).
  rewrite (holds_memcmp a b xs ys) by (done || lia). cbn [mbind_res]. rewrite Em, Nat2Z.id.
  eexists. split; [done|]. rewrite (memcmp_lex xs ys _ eq_refl). set (r := memcmp _ _).
  destruct (Z.eqb_spec r 0) as [->|Hr].
  - rewrite Z.compare_refl, <- Ea, <- Eb.
    destruct (Z.ltb_spec (size_ a) (size_ b)); [symmetry; by apply Z.compare_lt_iff|].
    destruct (Z.ltb_spec (size_ b) (size_ a)); [symmetry; by apply Z.compare_gt_iff|].
    symmetry. apply Z.compare_eq_iff. lia.
  - by destruct (Z.compare_spec r 0).
Qed.

Definition demo_slice : slice := Slice (b#"xxabcd") 2 3.

Lemma demo_slice_holds : holds demo_slice (b#"abc").
Proof. by exists (b#"xx"), (b#"d"). Qed.

Lemma slice_compare_lexicographic_witness :
  ∃ r, compare demo_slice demo_slice = Val r ∧ (r ?= 0) = lex_compare (b#"abc") (b#"abc").
Proof.
  apply (slice_compare_lexicographic demo_slice demo_slice); try apply demo_slice_holds; vm_compute; congruence.
Defined.

(** The equality of slices and the prefix test decide equality of the
    bytes covered and being a prefix of them; removing a prefix and copying
    the rest out give the remaining bytes. *)
Theorem slice_prefix_laws a b xs ys :
  holds a xs → holds b ys → size_ a < 2 ^ 64 →
  slice_eq a b = Val (bool_decide (xs = ys)) ∧
  starts_with a b = Val (bool_decide (ys `prefix_of` xs)) ∧
  ∀ n, 0 ≤ n ≤ size_ a → ∃ s, remove_prefix a n = Val s ∧ holds s (drop (Z.to_nat n) xs) ∧
    to_string s = Val (drop (Z.to_nat n) xs).
Proof.
  intros Ha Hb Hw. pose proof Ha as (pre & post & Ba & Da & Ea). pose proof Hb as (_ & _ & _ & _ & Eb).
  split_and!.
  - unfold slice_eq, size. rewrite Ea, Eb. destruct (Z.eqb_spec (Z.of_nat (length xs)) (Z.of_nat (length ys))) as [E|E].
    + rewrite (holds_memcmp a b xs ys) by (done || lia). cbn [mbind_res].
      rewrite !take_ge by lia. by rewrite memcmp_eqb by lia.
    + rewrite bool_decide_eq_false_2; [done|]. intros ->. lia.
  - unfold starts_with. rewrite Ea, Eb. destruct (Z.leb_spec (Z.of_nat (length ys)) (Z.of_nat (length xs))) as [E|E].
    + rewrite (holds_memcmp a b xs ys) by (done || lia). cbn [mbind_res].
      rewrite Nat2Z.id, (take_ge ys), memcmp_eqb by len_solve. f_equal. apply bool_decide_ext. split.
      * intros <-. apply prefix_take.
      * intros [zs ->]. apply take_app_length.
    + rewrite bool_decide_eq_false_2; [done|]. intros H%prefix_length. lia.
  - intros n Hn. unfold remove_prefix, size. rewrite (proj2 (Z.leb_le n _)) by lia. cbn [c_assert mbind_res].
    rewrite u64_small by lia. eexists. split; [done|].
    assert (holds (Slice (block a) (data_ a + n) (size_ a - n)) (drop (Z.to_nat n) xs)) as H.
    { exists (pre ++ take (Z.to_nat n) xs), post. simpl. split_and!.
      - rewrite Ba, <- app_assoc, (app_assoc (take _ _)), take_drop. done.
      - len_solve.
      - len_solve. }
    split; [done|]. unfold to_string. cbn [block data_ size_].
    pose proof (holds_read _ _ (size_ a - n) H) as Hr. cbn [block data_ size_] in Hr.
    rewrite Hr by lia. cbn [of_mem]. f_equal. apply take_ge. len_solve.
Qed.

Lemma slice_prefix_laws_witness :
  slice_eq demo_slice demo_slice = Val true ∧ starts_with demo_slice demo_slice = Val true.
Proof.
  destruct (slice_prefix_laws demo_slice demo_slice (b#"abc") (b#"abc")) as (H1 & H2 & _);
    [apply demo_slice_holds|apply demo_slice_holds|vm_compute; reflexivity|].
  rewrite H1, H2. by rewrite !bool_decide_eq_true_2.
Defined.
