(* ===== verification/EventLoop.v ===== *)
(** * The event loop wrapper (base/event_loop.hpp, event_loop.cpp)

    [EventLoop] owns watchers ([IOWatcher], [Timewatcher]) that embed the
    structures of libev. The functions of libev are the class [LibEv], with
    the documented behaviour the wrapper relies on in [LibEvSpec]; the macros
    of its header that the wrapper expands ([ev_init], [ev_io_set],
    [ev_timer_set], [ev_is_active]) are definitions. A watcher that was
    deleted, a field that was never initialised and an [ev_io_set] on an
    active watcher (which libev forbids) are undefined behaviour. *)

From Stdlib Require Import SpecFloat.
From S2P Require Import Prelude.

(** ** The structures of libev *)

Definition EV_NONE : Z := 0x00.
Definition EV_READ : Z := 0x01.
Definition EV_WRITE : Z := 0x02.
Definition EV__IOFDSET : Z := 0x80.

(** [fd] and [events] hold no value before the first [ev_io_set]. *)
Record ev_io := EvIo {
  io_active : bool;
  io_fd : option Z;
  io_events : option Z
}.

Record ev_timer := EvTimer {
  tm_active : bool;
  tm_at : option spec_float;
  tm_repeat : option spec_float
}.

Definition ev_init_io (w : ev_io) : ev_io := EvIo false (io_fd w) (io_events w).
Definition ev_init_timer (w : ev_timer) : ev_timer := EvTimer false (tm_at w) (tm_repeat w).

(** The fields are read-only while the watcher is active. *)
Definition ev_io_set (w : ev_io) (fd events : Z) : res ev_io :=
  if io_active w then Undef else Val (EvIo false (Some fd) (Some (Z.lor events EV__IOFDSET))).
Definition ev_timer_set (w : ev_timer) (after repeat : spec_float) : res ev_timer :=
  if tm_active w then Undef else Val (EvTimer false (Some after) (Some repeat)).

(** The library, by the address of the watcher; [polled] is the descriptor
    and mask the loop waits for on behalf of a watcher, [armed] the delay and
    period of a timer. *)
Class LibEv (L : Type) := {
  ev_loop_new : L;
  ev_io_start : Z → ev_io → L → ev_io * L;
  ev_io_stop : Z → ev_io → L → ev_io * L;
  ev_timer_start : Z → ev_timer → L → ev_timer * L;
  ev_timer_stop : Z → ev_timer → L → ev_timer * L;
  ev_timer_again : Z → ev_timer → L → ev_timer * L;
  ev_break : L → L;
  polled : L → Z → option (Z * Z);
  armed : L → Z → option (spec_float * spec_float)
}.

Definition rw_mask (ev : Z) : Z := Z.land ev 3.

Class LibEvSpec (L : Type) `{LibEv L} : Prop := {
  ev_loop_new_spec id : polled ev_loop_new id = None ∧ armed ev_loop_new id = None;
  (* starting an inactive watcher polls its descriptor for its events *)
  ev_io_start_spec id fd ev l : 0 ≤ fd →
    let '(w, l') := ev_io_start id (EvIo false (Some fd) (Some ev)) l in
    (∃ ev', w = EvIo true (Some fd) (Some ev') ∧ rw_mask ev' = rw_mask ev) ∧
    polled l' id = Some (fd, rw_mask ev) ∧ (∀ j, j ≠ id → polled l' j = polled l j) ∧
    (∀ j, armed l' j = armed l j);
  (* stopping keeps the fields of the watcher *)
  ev_io_stop_spec id w l :
    let '(w', l') := ev_io_stop id w l in
    w' = EvIo false (io_fd w) (io_events w) ∧
    polled l' id = None ∧ (∀ j, j ≠ id → polled l' j = polled l j) ∧ (∀ j, armed l' j = armed l j);
  ev_timer_start_spec id at_ rep l :
    let '(w, l') := ev_timer_start id (EvTimer false (Some at_) (Some rep)) l in
    tm_active w = true ∧ tm_repeat w = Some rep ∧
    armed l' id = Some (at_, rep) ∧ (∀ j, j ≠ id → armed l' j = armed l j) ∧
    (∀ j, polled l' j = polled l j);
  ev_timer_stop_spec id w l :
    let '(w', l') := ev_timer_stop id w l in
    tm_active w' = false ∧ tm_repeat w' = tm_repeat w ∧
    armed l' id = None ∧ (∀ j, j ≠ id → armed l' j = armed l j) ∧ (∀ j, polled l' j = polled l j);
  (* with a positive period the timer is (re)started for it *)
  ev_timer_again_spec id w rep l : tm_repeat w = Some rep → SFltb (S754_zero false) rep = true →
    let '(w', l') := ev_timer_again id w l in
    tm_active w' = true ∧ tm_repeat w' = Some rep ∧
    armed l' id = Some (rep, rep) ∧ (∀ j, j ≠ id → armed l' j = armed l j) ∧
    (∀ j, polled l' j = polled l j);
  (* with a period of zero it is stopped *)
  ev_timer_again_stop_spec id w rep l : tm_repeat w = Some rep → SFeqb (S754_zero false) rep = true →
    let '(w', l') := ev_timer_again id w l in
    tm_active w' = false ∧ tm_repeat w' = Some rep ∧
    armed l' id = None ∧ (∀ j, j ≠ id → armed l' j = armed l j) ∧ (∀ j, polled l' j = polled l j);
  (* leaving [ev_run] changes no watcher *)
  ev_break_spec l id : polled (ev_break l) id = polled l id ∧ armed (ev_break l) id = armed l id
}.

(** ** The wrapper *)

Definition READ : Z := 0x1.
Definition WRITE : Z := 0x2.

Definition TRANS_TO_EV_MASK (mask : Z) : Z :=
  Z.lor (if Z.land mask READ =? 0 then 0 else EV_READ) (if Z.land mask WRITE =? 0 then 0 else EV_WRITE).
Definition TRANS_FROM_EV_MASK (mask : Z) : Z :=
  Z.lor (if Z.land mask EV_READ =? 0 then 0 else READ) (if Z.land mask EV_WRITE =? 0 then 0 else WRITE).

(** Callbacks and their data are addresses. *)
Record IOWatcher := IOW { cb_ : Z; w_data_ : Z; io_ : ev_io }.
Record Timewatcher := TimeW { t_cb_ : Z; t_data_ : Z; timer_ : ev_timer; repeat_ : bool }.

Record EventLoop (L : Type) := EL {
  loop_ : L;
  owner_ : Z;
  io_watchers : gmap Z IOWatcher;      (* live [IOWatcher] objects *)
  time_watchers : gmap Z Timewatcher   (* live [Timewatcher] objects *)
}.
Arguments EL {_} _ _ _ _.
Arguments loop_ {_} _.
Arguments owner_ {_} _.
Arguments io_watchers {_} _.
Arguments time_watchers {_} _.

Section Loop.
Context {L : Type} {E : LibEv L}.

Definition event_loop_new (owner : Z) : EventLoop L := EL ev_loop_new owner ∅ ∅.
Definition owner (el : EventLoop L) : Z := owner_ el.
Definition stop (el : EventLoop L) : EventLoop L :=
  EL (ev_break (loop_ el)) (owner_ el) (io_watchers el) (time_watchers el).

(** The [double] the library keeps as current time, in microseconds; a
    conversion outside the range of [unsigned long] is undefined. *)
Definition trunc_unsigned_long (f : spec_float) : res Z :=
  match f with
  | S754_zero _ => Val 0
  | S754_finite false m e =>
      let z := Z.shiftl (Zpos m) e in if z <? 2 ^ 64 then Val z else Undef
  | S754_finite true m e => if Z.shiftl (Zpos m) e =? 0 then Val 0 else Undef
  | _ => Undef
  end.

Definition now (ev_now : spec_float) : res Z :=
  trunc_unsigned_long (SFmul 53 1024 ev_now (binary_normalize 53 1024 1000000 0 false)).

(** The embedded [ev_io] starts with indeterminate [fd] and [events]. *)
Definition creat_io_event (cb data : Z) (el : EventLoop L) : Z * EventLoop L :=
  let id := fresh (dom (io_watchers el)) in
  let w := IOW cb data (ev_init_io (EvIo false None None)) in
  (id, EL (loop_ el) (owner_ el) (<[id:=w]> (io_watchers el)) (time_watchers el)).

Definition set_io (id : Z) (w : IOWatcher) (io : ev_io) (l : L) (el : EventLoop L) : EventLoop L :=
  EL l (owner_ el) (<[id := IOW (cb_ w) (w_data_ w) io]> (io_watchers el)) (time_watchers el).

Definition start_io_event (id fd mask : Z) (el : EventLoop L) : res (EventLoop L) :=
  let* w := of_mem (io_watchers el !! id) in
  let io := io_ w in
  if io_active io then
    let* ev := of_mem (io_events io) in
    let active_events := TRANS_FROM_EV_MASK ev in
    let new_events := Z.lor active_events mask in
    if new_events =? active_events then Val el
    else
      let new_events := TRANS_TO_EV_MASK new_events in
      let '(io, l) := ev_io_stop id io (loop_ el) in
      let* io := ev_io_set io fd new_events in
      let '(io, l) := ev_io_start id io l in
      Val (set_io id w io l el)
  else
    let events := TRANS_TO_EV_MASK mask in
    let* io := ev_io_set io fd events in
    let '(io, l) := ev_io_start id io (loop_ el) in
    Val (set_io id w io l el).

Definition stop_io_event (id fd mask : Z) (el : EventLoop L) : res (EventLoop L) :=
  let* w := of_mem (io_watchers el !! id) in
  let io := io_ w in
  let* ev := of_mem (io_events io) in
  let active_events := TRANS_FROM_EV_MASK ev in
  let new_events := Z.land active_events (Z.lnot mask) in
  if new_events =? active_events then Val el
  else
    let new_events := TRANS_TO_EV_MASK new_events in
    let '(io, l) := ev_io_stop id io (loop_ el) in
    if negb (new_events =? EV_NONE) then
      let* io := ev_io_set io fd new_events in
      let '(io, l) := ev_io_start id io l in
      Val (set_io id w io l el)
    else Val (set_io id w io l el).

Definition delete_io_event (id : Z) (el : EventLoop L) : res (EventLoop L) :=
  let* w := of_mem (io_watchers el !! id) in
  let '(_, l) := ev_io_stop id (io_ w) (loop_ el) in
  Val (EL l (owner_ el) (delete id (io_watchers el)) (time_watchers el)).

(** What [generic_io_cb] calls: the callback, the watcher, the descriptor, the
    translated events and the data. *)
Definition generic_io_cb (id revents : Z) (el : EventLoop L) : res (Z * Z * Z * Z * Z) :=
  let* w := of_mem (io_watchers el !! id) in
  let* fd := of_mem (io_fd (io_ w)) in
  Val (cb_ w, id, fd, TRANS_FROM_EV_MASK revents, w_data_ w).

Definition creat_timer (cb data : Z) (repeat : bool) (el : EventLoop L) : Z * EventLoop L :=
  let id := fresh (dom (time_watchers el)) in
  let w := TimeW cb data (ev_init_timer (EvTimer false None None)) repeat in
  (id, EL (loop_ el) (owner_ el) (io_watchers el) (<[id:=w]> (time_watchers el))).

Definition set_timer (id : Z) (w : Timewatcher) (t : ev_timer) (l : L) (el : EventLoop L) : EventLoop L :=
  EL l (owner_ el) (io_watchers el)
    (<[id := TimeW (t_cb_ w) (t_data_ w) t (repeat_ w)]> (time_watchers el)).

(** [float(usec) / 1000000], in single precision. *)
Definition seconds (usec : Z) : spec_float :=
  SFdiv 24 128 (binary_normalize 24 128 usec 0 false) (binary_normalize 24 128 1000000 0 false).

Definition start_timer (id usec : Z) (el : EventLoop L) : res (EventLoop L) :=
  let* w := of_mem (time_watchers el !! id) in
  let timer := timer_ w in
  let sec := seconds usec in
  if negb (repeat_ w) then
    let '(timer, l) := ev_timer_stop id timer (loop_ el) in
    let* timer := ev_timer_set timer sec (S754_zero false) in
    let '(timer, l) := ev_timer_start id timer l in
    Val (set_timer id w timer l el)
  else
    let timer := EvTimer (tm_active timer) (tm_at timer) (Some sec) in
    let '(timer, l) := ev_timer_again id timer (loop_ el) in
    Val (set_timer id w timer l el).

Definition stop_timer (id : Z) (el : EventLoop L) : res (EventLoop L) :=
  let* w := of_mem (time_watchers el !! id) in
  let '(timer, l) := ev_timer_stop id (timer_ w) (loop_ el) in
  Val (set_timer id w timer l el).

Definition delete_timer (id : Z) (el : EventLoop L) : res (EventLoop L) :=
  let* el := stop_timer id el in
  Val (EL (loop_ el) (owner_ el) (io_watchers el) (delete id (time_watchers el))).

(** [generic_time_cb]: the callback, the watcher and the data. *)
Definition generic_time_cb (id : Z) (el : EventLoop L) : res (Z * Z * Z) :=
  let* w := of_mem (time_watchers el !! id) in
  Val (t_cb_ w, id, t_data_ w).
End Loop.

(** ** Masks *)

Lemma rw_mask_cases ev : rw_mask ev = 0 ∨ rw_mask ev = 1 ∨ rw_mask ev = 2 ∨ rw_mask ev = 3.
Proof.
  assert (rw_mask ev = ev `mod` 4) as ->.
  { unfold rw_mask. change 3 with (Z.ones 2). by rewrite Z.land_ones by lia. }
  pose proof (Z.mod_pos_bound ev 4). lia.
Qed.

Lemma rw_mask_small m : 0 ≤ m < 4 → rw_mask m = m.
Proof. intros. unfold rw_mask. change 3 with (Z.ones 2). rewrite Z.land_ones by lia. by apply Z.mod_small. Qed.

(** Both translations keep the two bits and drop the rest. *)
Lemma trans_mask ev :
  Z.lor (if Z.land ev 1 =? 0 then 0 else 1) (if Z.land ev 2 =? 0 then 0 else 2) = rw_mask ev.
Proof.
  assert (Z.land ev 1 = Z.land (rw_mask ev) 1) as -> by (unfold rw_mask; by rewrite <- Z.land_assoc).
  assert (Z.land ev 2 = Z.land (rw_mask ev) 2) as -> by (unfold rw_mask; by rewrite <- Z.land_assoc).
  by destruct (rw_mask_cases ev) as [->|[->|[->| ->]]].
Qed.

Lemma trans_from ev : TRANS_FROM_EV_MASK ev = rw_mask ev.
Proof. apply trans_mask. Qed.

Lemma trans_to mask : TRANS_TO_EV_MASK mask = rw_mask mask.
Proof. apply trans_mask. Qed.

Lemma rw_mask_fdset m : rw_mask (Z.lor (rw_mask m) EV__IOFDSET) = rw_mask m.
Proof.
  unfold rw_mask. rewrite Z.land_lor_distr_l, <- Z.land_assoc. change (Z.land EV__IOFDSET 3) with 0.
  by rewrite Z.lor_0_r.
Qed.

Lemma mask_lor m mask : 0 ≤ mask < 4 → rw_mask (Z.lor (rw_mask m) mask) = Z.lor (rw_mask m) mask.
Proof.
  intros H. unfold rw_mask at 1. rewrite Z.land_lor_distr_l. fold (rw_mask mask).
  rewrite (rw_mask_small mask) by done. unfold rw_mask. by rewrite <- Z.land_assoc.
Qed.

Lemma mask_land m k : rw_mask (Z.land (rw_mask m) k) = Z.land (rw_mask m) k.
Proof.
  unfold rw_mask. rewrite <- (Z.land_assoc (Z.land m 3)), (Z.land_comm k 3), Z.land_assoc.
  by rewrite <- (Z.land_assoc m 3 3).
Qed.

(** ** What the loop waits for *)

(** The watcher and the library agree: an active watcher is polled for its
    fields, an inactive one is not polled. *)
Definition io_ok {L} `{LibEv L} (l : L) (id : Z) (w : ev_io) : Prop :=
  if io_active w
  then ∃ fd ev, io_fd w = Some fd ∧ io_events w = Some ev ∧ polled l id = Some (fd, rw_mask ev)
  else polled l id = None.

Record el_inv {L} `{LibEv L} (el : EventLoop L) : Prop := ELInv {
  inv_io id w : io_watchers el !! id = Some w → io_ok (loop_ el) id (io_ w);
  inv_io_none id : io_watchers el !! id = None → polled (loop_ el) id = None;
  inv_timer id w : time_watchers el !! id = Some w →
    is_Some (armed (loop_ el) id) ↔ tm_active (timer_ w) = true;
  inv_timer_none id : time_watchers el !! id = None → armed (loop_ el) id = None
}.

(** Everything but the polling of one watcher is as before. *)
Record io_frame {L} `{LibEv L} (id : Z) (el el' : EventLoop L) : Prop := IOFrame {
  fr_polled j : j ≠ id → polled (loop_ el') j = polled (loop_ el) j;
  fr_armed j : armed (loop_ el') j = armed (loop_ el) j;
  fr_timers : time_watchers el' = time_watchers el;
  fr_owner : owner_ el' = owner_ el;
  fr_others j : j ≠ id → io_watchers el' !! j = io_watchers el !! j;
  fr_callback : (λ w, (cb_ w, w_data_ w)) <$> io_watchers el' !! id
                = (λ w, (cb_ w, w_data_ w)) <$> io_watchers el !! id
}.

(** Adding events to what is polled, and taking some away. *)
Definition io_union (old : option (Z * Z)) (fd mask : Z) : option (Z * Z) :=
  match old with
  | Some (_, m) => if Z.lor m mask =? m then old else Some (fd, Z.lor m mask)
  | None => Some (fd, mask)
  end.

Definition io_minus (old : option (Z * Z)) (fd mask : Z) : option (Z * Z) :=
  match old with
  | Some (_, m) =>
      let m' := Z.land m (Z.lnot mask) in
      if m' =? m then old else if m' =? 0 then None else Some (fd, m')
  | None => None
  end.

Section Theory.
Context {L : Type} {E : LibEv L} {ES : LibEvSpec L}.
Implicit Types el : EventLoop L.

Lemma event_loop_new_inv o : el_inv (event_loop_new o).
Proof.
  split; simpl; intros id; try by rewrite lookup_empty.
  - intros _. apply ev_loop_new_spec.
  - intros _. apply ev_loop_new_spec.
Qed.

Lemma stop_inv el : el_inv el → el_inv (stop el).
Proof.
  assert (∀ id, polled (ev_break (loop_ el)) id = polled (loop_ el) id) as Hp by (intros; apply ev_break_spec).
  assert (∀ id, armed (ev_break (loop_ el)) id = armed (loop_ el) id) as Ha by (intros; apply ev_break_spec).
  intros [H1 H2 H3 H4]. split; simpl.
  - intros id w Hw. specialize (H1 id w Hw). unfold io_ok in *. by rewrite Hp.
  - intros id. rewrite Hp. apply H2.
  - intros id. rewrite Ha. apply H3.
  - intros id. rewrite Ha. apply H4.
Qed.

Lemma io_frame_refl id el : io_frame id el el.
Proof. by split. Qed.

(** A change to one watcher that keeps it in step with the library. *)
Lemma set_io_inv el id w io l :
  el_inv el → io_watchers el !! id = Some w → io_ok l id io →
  (∀ j, j ≠ id → polled l j = polled (loop_ el) j) → (∀ j, armed l j = armed (loop_ el) j) →
  el_inv (set_io id w io l el) ∧ io_frame id el (set_io id w io l el).
Proof.
  intros [H1 H2 H3 H4] Hw Hio Hp Ha. split; split; simpl; try done.
  - intros j w' Hj. destruct (decide (j = id)) as [->|Hne].
    + rewrite lookup_insert_eq in Hj. by simplify_eq.
    + rewrite lookup_insert_ne in Hj by done. specialize (H1 j w' Hj). unfold io_ok in *. by rewrite Hp.
  - intros j. rewrite lookup_insert_None. intros [Hj Hne]. rewrite Hp by done. by apply H2.
  - intros j. rewrite Ha. apply H3.
  - intros j. rewrite Ha. apply H4.
  - intros j Hj. by rewrite lookup_insert_ne.
  - by rewrite lookup_insert_eq, Hw.
Qed.

(** [ev_io_set] and [ev_io_start] on a stopped watcher. *)
Lemma restart_spec el id w l fd mask :
  el_inv el → io_watchers el !! id = Some w → 0 ≤ fd →
  (∀ j, j ≠ id → polled l j = polled (loop_ el) j) → (∀ j, armed l j = armed (loop_ el) j) →
  let '(io, l') := ev_io_start id (EvIo false (Some fd) (Some (Z.lor (rw_mask mask) EV__IOFDSET))) l in
  let el' := set_io id w io l' el in
  el_inv el' ∧ io_frame id el el' ∧ polled (loop_ el') id = Some (fd, rw_mask mask).
Proof.
  intros Hi Hw Hfd Hp Ha.
  pose proof (ev_io_start_spec id fd (Z.lor (rw_mask mask) EV__IOFDSET) l Hfd) as Hs.
  destruct (ev_io_start _ _ _) as [io l'].
  destruct Hs as ((ev & -> & Hev) & Hpol & Ho & Har). rewrite rw_mask_fdset in Hev, Hpol.
  destruct (set_io_inv el id w (EvIo true (Some fd) (Some ev)) l' Hi Hw) as [Hi' Hf].
  - unfold io_ok. simpl. exists fd, ev. by rewrite Hev.
  - intros j Hj. rewrite Ho by done. by apply Hp.
  - intros j. by rewrite Har.
  - done.
Qed.

Lemma start_io_event_spec el id fd mask :
  el_inv el → is_Some (io_watchers el !! id) → 0 ≤ fd → 0 ≤ mask < 4 →
  ∃ el', start_io_event id fd mask el = Val el' ∧ el_inv el' ∧ io_frame id el el' ∧
    polled (loop_ el') id = io_union (polled (loop_ el) id) fd mask.
Proof.
  intros Hi [w Hw] Hfd Hm. unfold start_io_event. rewrite Hw. cbn [of_mem mbind_res].
  pose proof (inv_io el Hi id w Hw) as Hio. unfold io_ok in Hio. destruct (io_active (io_ w)) eqn:Ea.
  - destruct Hio as (fd0 & ev & _ & -> & Hpol). cbn [of_mem mbind_res]. rewrite trans_from, Hpol.
    cbn [io_union]. destruct (Z.eqb_spec (Z.lor (rw_mask ev) mask) (rw_mask ev)).
    { exists el. split_and!; [done|done|apply io_frame_refl|done]. }
    rewrite trans_to. pose proof (ev_io_stop_spec id (io_ w) (loop_ el)) as Hst.
    destruct (ev_io_stop _ _ _) as [io l]. destruct Hst as (-> & _ & Hp & Ha).
    unfold ev_io_set. cbn [io_active mbind_res].
    pose proof (restart_spec el id w l fd (Z.lor (rw_mask ev) mask) Hi Hw Hfd Hp Ha) as Hr.
    destruct (ev_io_start _ _ _) as [io l']. rewrite mask_lor in Hr by done. destruct Hr as (? & ? & ?). eauto.
  - rewrite Hio, trans_to. unfold ev_io_set. rewrite Ea. cbn [mbind_res].
    pose proof (restart_spec el id w (loop_ el) fd mask Hi Hw Hfd) as Hr.
    destruct (ev_io_start _ _ _) as [io l']. rewrite rw_mask_small in Hr by done.
    destruct Hr as (? & ? & ?); [done|done|]. eauto.
Qed.

Lemma stop_io_event_spec el id fd mask fd0 m :
  el_inv el → polled (loop_ el) id = Some (fd0, m) → 0 ≤ fd →
  ∃ el', stop_io_event id fd mask el = Val el' ∧ el_inv el' ∧ io_frame id el el' ∧
    polled (loop_ el') id = io_minus (Some (fd0, m)) fd mask.
Proof.
  intros Hi Hpol Hfd. unfold stop_io_event.
  destruct (io_watchers el !! id) as [w|] eqn:Hw; [|by rewrite (inv_io_none el Hi) in Hpol].
  cbn [of_mem mbind_res]. pose proof (inv_io el Hi id w Hw) as Hio. unfold io_ok in Hio.
  destruct (io_active (io_ w)) eqn:Ea; [|congruence].
  destruct Hio as (fd1 & ev & _ & -> & Hpol'). simplify_eq. cbn [of_mem mbind_res].
  rewrite trans_from. cbn [io_minus]. destruct (Z.eqb_spec (Z.land (rw_mask ev) (Z.lnot mask)) (rw_mask ev)).
  { exists el. split_and!; [done|done|apply io_frame_refl|done]. }
  rewrite trans_to, mask_land. pose proof (ev_io_stop_spec id (io_ w) (loop_ el)) as Hst.
  destruct (ev_io_stop _ _ _) as [io l]. destruct Hst as (-> & Hn & Hp & Ha).
  unfold EV_NONE. destruct (Z.eqb_spec (Z.land (rw_mask ev) (Z.lnot mask)) 0) as [E0|E0]; cbn [negb].
  - destruct (set_io_inv el id w (EvIo false (io_fd (io_ w)) (io_events (io_ w))) l Hi Hw) as [Hi' Hf];
      [done|done|done|]. eauto.
  - unfold ev_io_set. cbn [io_active mbind_res].
    pose proof (restart_spec el id w l fd (Z.land (rw_mask ev) (Z.lnot mask)) Hi Hw Hfd Hp Ha) as Hr.
    rewrite mask_land in Hr. destruct (ev_io_start _ _ _) as [io l']. destruct Hr as (? & ? & ?). eauto.
Qed.

Lemma delete_io_event_spec el id :
  el_inv el → is_Some (io_watchers el !! id) →
  ∃ el', delete_io_event id el = Val el' ∧ el_inv el' ∧ io_watchers el' = delete id (io_watchers el) ∧
    polled (loop_ el') id = None ∧ (∀ j, j ≠ id → polled (loop_ el') j = polled (loop_ el) j) ∧
    time_watchers el' = time_watchers el ∧ (∀ j, armed (loop_ el') j = armed (loop_ el) j).
Proof.
  intros Hi [w Hw]. unfold delete_io_event. rewrite Hw. cbn [of_mem mbind_res].
  pose proof (ev_io_stop_spec id (io_ w) (loop_ el)) as Hst.
  destruct (ev_io_stop _ _ _) as [io l]. destruct Hst as (_ & Hn & Hp & Ha).
  eexists. split; [done|]. destruct Hi as [H1 H2 H3 H4]. split; [|done]. split; simpl.
  - intros j w' Hj. apply lookup_delete_Some in Hj as [Hne Hj]. specialize (H1 j w' Hj).
    unfold io_ok in *. by rewrite Hp.
  - intros j Hj. apply lookup_delete_None in Hj as [->|Hj]; [done|].
    destruct (decide (j = id)) as [->|]; [done|]. rewrite Hp by done. by apply H2.
  - intros j. rewrite Ha. apply H3.
  - intros j. rewrite Ha. apply H4.
Qed.

Lemma creat_io_event_spec el cb data :
  el_inv el →
  let '(id, el') := creat_io_event cb data el in
  el_inv el' ∧ io_watchers el !! id = None ∧
  io_watchers el' = <[id := IOW cb data (EvIo false None None)]> (io_watchers el) ∧
  loop_ el' = loop_ el ∧ time_watchers el' = time_watchers el ∧ polled (loop_ el') id = None.
Proof.
  intros [H1 H2 H3 H4]. simpl. set (id := fresh _).
  assert (io_watchers el !! id = None) as Hf by (apply not_elem_of_dom, is_fresh).
  split_and!; try done; [|by apply H2]. split; simpl; try done.
  - intros j w Hj. apply lookup_insert_Some in Hj as [[<- <-]|[_ Hj]]; [|by apply H1].
    unfold io_ok. simpl. by apply H2.
  - intros j [Hj _]%lookup_insert_None. by apply H2.
Qed.
End Theory.

(** ** Timers *)

Section Timers.
Context {L : Type} {E : LibEv L} {ES : LibEvSpec L}.
Implicit Types el : EventLoop L.

Lemma set_timer_inv el id w t l :
  el_inv el → time_watchers el !! id = Some w → (is_Some (armed l id) ↔ tm_active t = true) →
  (∀ j, j ≠ id → armed l j = armed (loop_ el) j) → (∀ j, polled l j = polled (loop_ el) j) →
  el_inv (set_timer id w t l el).
Proof.
  intros [H1 H2 H3 H4] Hw Ht Ha Hp. split; simpl.
  - intros j w' Hj. specialize (H1 j w' Hj). unfold io_ok in *. by rewrite Hp.
  - intros j. rewrite Hp. apply H2.
  - intros j w' Hj. apply lookup_insert_Some in Hj as [[<- <-]|[Hne Hj]]; [done|].
    rewrite Ha by done. by apply H3.
  - intros j [Hj Hne]%lookup_insert_None. rewrite Ha by done. by apply H4.
Qed.

(** A one-shot timer is armed once for the delay; a repeating one for the
    delay and then with the same period. *)
Lemma start_timer_spec el id w usec :
  el_inv el → time_watchers el !! id = Some w → SFltb (S754_zero false) (seconds usec) = true →
  ∃ el', start_timer id usec el = Val el' ∧ el_inv el' ∧
    armed (loop_ el') id = Some (seconds usec, if repeat_ w then seconds usec else S754_zero false) ∧
    (∀ j, j ≠ id → armed (loop_ el') j = armed (loop_ el) j) ∧
    (∀ j, polled (loop_ el') j = polled (loop_ el) j).
Proof.
  intros Hi Hw Hpos. unfold start_timer. rewrite Hw. cbn [of_mem mbind_res].
  destruct (repeat_ w); cbn [negb].
  - pose proof (ev_timer_again_spec id (EvTimer (tm_active (timer_ w)) (tm_at (timer_ w)) (Some (seconds usec)))
      (seconds usec) (loop_ el) eq_refl Hpos) as Hs.
    destruct (ev_timer_again _ _ _) as [t l]. destruct Hs as (Ht & _ & Ha & Ho & Hp).
    eexists. split; [done|]. split; [|done].
    apply set_timer_inv; [done|done|rewrite Ha, Ht; split; eauto|done|done].
  - pose proof (ev_timer_stop_spec id (timer_ w) (loop_ el)) as Hst.
    destruct (ev_timer_stop _ _ _) as [t0 l0]. destruct Hst as (Ht0 & _ & _ & Ho0 & Hp0).
    unfold ev_timer_set. rewrite Ht0. cbn [mbind_res].
    pose proof (ev_timer_start_spec id (seconds usec) (S754_zero false) l0) as Hs.
    destruct (ev_timer_start _ _ _) as [t l]. destruct Hs as (Ht & _ & Ha & Ho & Hp).
    eexists. split; [done|]. split_and!; try done.
    + apply set_timer_inv; [done|done|..].
      * rewrite Ha, Ht. split; eauto.
      * intros j Hj. by rewrite Ho, Ho0.
      * intros j. by rewrite Hp.
    + intros j Hj. simpl. by rewrite Ho, Ho0.
    + intros j. simpl. by rewrite Hp.
Qed.

Lemma delete_timer_spec el id :
  el_inv el → is_Some (time_watchers el !! id) →
  ∃ el', delete_timer id el = Val el' ∧ el_inv el' ∧ armed (loop_ el') id = None ∧
    time_watchers el' = delete id (time_watchers el) ∧
    (∀ j, j ≠ id → armed (loop_ el') j = armed (loop_ el) j) ∧
    (∀ j, polled (loop_ el') j = polled (loop_ el) j) ∧ io_watchers el' = io_watchers el.
Proof.
  intros Hi [w Hw]. unfold delete_timer, stop_timer. rewrite Hw. cbn [of_mem mbind_res].
  pose proof (ev_timer_stop_spec id (timer_ w) (loop_ el)) as Hst.
  destruct (ev_timer_stop _ _ _) as [t l]. destruct Hst as (Ht & _ & Ha & Ho & Hp).
  cbn [mbind_res]. eexists. split; [done|]. destruct Hi as [H1 H2 H3 H4].
  split_and!; simpl; try done; [|apply map_eq; intros j; destruct (decide (j = id)) as [->|];
    [by rewrite !lookup_delete_eq|by rewrite !lookup_delete_ne, lookup_insert_ne by done]].
  split; simpl.
  - intros j w' Hj. specialize (H1 j w' Hj). unfold io_ok in *. by rewrite Hp.
  - intros j. rewrite Hp. apply H2.
  - intros j w' Hj. apply lookup_delete_Some in Hj as [Hne Hj].
    rewrite lookup_insert_ne in Hj by done. rewrite Ho by done. by apply H3.
  - intros j Hj. destruct (decide (j = id)) as [->|]; [done|].
    rewrite lookup_delete_ne, lookup_insert_ne in Hj by done. rewrite Ho by done. by apply H4.
Qed.
End Timers.

(** ** Any sequence of calls on the descriptors *)

Inductive io_call :=
  | NewIo (cb data : Z)
  | StartIo (id fd mask : Z)
  | StopIo (id fd mask : Z)
  | DelIo (id : Z).

(** The contract: a live watcher waits for a set of events of a descriptor,
    or for nothing. [None] is a call outside the contract: a dead watcher, a
    stop of a watcher that waits for nothing, a negative descriptor. *)
Definition abs_io_step (c : io_call) (a : gmap Z (option (Z * Z))) : option (gmap Z (option (Z * Z))) :=
  match c with
  | NewIo _ _ => Some (<[fresh (dom a) := None]> a)
  | StartIo id fd mask =>
      old ← a !! id;
      if (0 <=? fd) && (0 <=? mask) && (mask <? 4) then Some (<[id := io_union old fd mask]> a) else None
  | StopIo id fd mask =>
      old ← a !! id; p ← old;
      if 0 <=? fd then Some (<[id := io_minus (Some p) fd mask]> a) else None
  | DelIo id => _ ← a !! id; Some (delete id a)
  end.

Fixpoint abs_io_run (cs : list io_call) (a : gmap Z (option (Z * Z))) : option (gmap Z (option (Z * Z))) :=
  match cs with [] => Some a | c :: cs => a' ← abs_io_step c a; abs_io_run cs a' end.

Section Calls.
Context {L : Type} {E : LibEv L} {ES : LibEvSpec L}.
Implicit Types el : EventLoop L.

Definition io_step (c : io_call) (el : EventLoop L) : res (EventLoop L) :=
  match c with
  | NewIo cb data => Val (creat_io_event cb data el).2
  | StartIo id fd mask => start_io_event id fd mask el
  | StopIo id fd mask => stop_io_event id fd mask el
  | DelIo id => delete_io_event id el
  end.

Fixpoint io_run (cs : list io_call) (el : EventLoop L) : res (EventLoop L) :=
  match cs with [] => Val el | c :: cs => let* el := io_step c el in io_run cs el end.

Definition io_rel el (a : gmap Z (option (Z * Z))) : Prop :=
  el_inv el ∧ ∀ id, a !! id = (λ _, polled (loop_ el) id) <$> io_watchers el !! id.

Lemma io_rel_insert el a id el' new :
  io_rel el a → is_Some (io_watchers el !! id) → el_inv el' → io_frame id el el' →
  polled (loop_ el') id = new → io_rel el' (<[id := new]> a).
Proof.
  intros [Hi Hr] [w Hw] Hi' [F1 F2 F3 F4 F5 F6] Hp. split; [done|]. intros j.
  destruct (decide (j = id)) as [->|Hne].
  - rewrite lookup_insert_eq, Hp. rewrite Hw in F6. by destruct (io_watchers el' !! id).
  - rewrite lookup_insert_ne, Hr, F1, F5 by done. done.
Qed.

Lemma io_step_refines c el a a' :
  io_rel el a → abs_io_step c a = Some a' → ∃ el', io_step c el = Val el' ∧ io_rel el' a'.
Proof.
  intros Hrel Hc. pose proof Hrel as [Hi Hr]. destruct c as [cb data|id fd mask|id fd mask|id]; simpl in Hc.
  - eexists. split; [done|]. pose proof (creat_io_event_spec el cb data Hi) as Hs.
    simplify_eq/=. assert (dom a = dom (io_watchers el)) as ->.
    { apply set_eq. intros id. rewrite !elem_of_dom, Hr, fmap_is_Some. done. }
    destruct Hs as (Hi' & Hf & _ & _ & _ & Hp). split; [done|]. intros j. simpl.
    destruct (decide (j = fresh (dom (io_watchers el)))) as [->|]; [|by rewrite !lookup_insert_ne, Hr].
    rewrite !lookup_insert_eq. simpl. by rewrite Hp.
  - rewrite Hr in Hc. destruct (io_watchers el !! id) eqn:Hw; simplify_eq/=.
    destruct (_ && _)%bool eqn:G; simplify_eq. reflect_Z.
    destruct (start_io_event_spec el id fd mask) as (el' & E1 & Hi' & Hf & Hp); [done|by rewrite Hw|done|done|].
    exists el'. split; [done|]. by eapply io_rel_insert; [| |done..].
  - rewrite Hr in Hc. destruct (io_watchers el !! id) eqn:Hw; simplify_eq/=.
    destruct (polled (loop_ el) id) as [[fd0 m]|] eqn:Hp0; simplify_eq/=.
    destruct (Z.leb_spec 0 fd); simplify_eq.
    destruct (stop_io_event_spec el id fd mask fd0 m) as (el' & E1 & Hi' & Hf & Hp); [done|done|done|].
    exists el'. split; [done|]. by eapply io_rel_insert; [| |done..].
  - rewrite Hr in Hc. destruct (io_watchers el !! id) eqn:Hw; simplify_eq/=.
    destruct (delete_io_event_spec el id) as (el' & E1 & Hi' & Hws & Hn & Hp & _); [done|by rewrite Hw|].
    exists el'. split; [done|]. split; [done|]. intros j. rewrite Hws.
    destruct (decide (j = id)) as [->|]; [by rewrite !lookup_delete_eq|].
    by rewrite !lookup_delete_ne, Hr, Hp by done.
Qed.

Lemma io_run_refines cs el a a' :
  io_rel el a → abs_io_run cs a = Some a' → ∃ el', io_run cs el = Val el' ∧ io_rel el' a'.
Proof.
  revert el a. induction cs as [|c cs IH]; intros el a Hr Hc; simplify_eq/=; [eauto|].
  destruct (abs_io_step c a) as [a1|] eqn:E1; simplify_eq/=.
  destruct (io_step_refines c el a a1 Hr E1) as (el1 & -> & Hr1). simpl. eauto.
Qed.

Lemma io_rel_new o : io_rel (event_loop_new o) ∅.
Proof. split; [apply event_loop_new_inv|]. intros id. simpl. by rewrite !lookup_empty. Qed.
End Calls.

(** ** A model of the library

    The smallest loop with the documented behaviour: it remembers what it
    polls and which timers are armed. *)

Definition demo_ev : Type := gmap Z (Z * Z) * gmap Z (spec_float * spec_float).

#[global] Instance demo_libev : LibEv demo_ev := {|
  ev_loop_new := (∅, ∅);
  ev_io_start id w l :=
    match io_active w, io_fd w, io_events w with
    | false, Some fd, Some ev =>
        (EvIo true (Some fd) (Some (Z.land ev (Z.lnot EV__IOFDSET))), (<[id := (fd, rw_mask ev)]> l.1, l.2))
    | _, _, _ => (w, l)
    end;
  ev_io_stop id w l := (EvIo false (io_fd w) (io_events w), (delete id l.1, l.2));
  ev_timer_start id w l :=
    match tm_active w, tm_at w, tm_repeat w with
    | false, Some a, Some r => (EvTimer true (Some a) (Some r), (l.1, <[id := (a, r)]> l.2))
    | _, _, _ => (w, l)
    end;
  ev_timer_stop id w l := (EvTimer false (tm_at w) (tm_repeat w), (l.1, delete id l.2));
  ev_timer_again id w l :=
    match tm_repeat w with
    | Some r =>
        if SFltb (S754_zero false) r
        then (EvTimer true (Some r) (Some r), (l.1, <[id := (r, r)]> l.2))
        else (EvTimer false (tm_at w) (Some r), (l.1, delete id l.2))
    | None => (w, l)
    end;
  ev_break l := l;
  polled l id := l.1 !! id;
  armed l id := l.2 !! id |}.

#[global] Instance demo_libev_spec : LibEvSpec demo_ev.
Proof.
  split; simpl; intros; rewrite ?lookup_empty, ?lookup_insert_eq, ?lookup_delete_eq.
  - done.
  - split_and!; [|done|intros; by rewrite lookup_insert_ne|done]. eexists. split; [done|].
    unfold rw_mask. rewrite <- Z.land_assoc. done.
  - split_and!; [done|done|intros; by rewrite lookup_delete_ne|done].
  - split_and!; [done|done|done|intros; by rewrite lookup_insert_ne|done].
  - split_and!; [done|done|done|intros; by rewrite lookup_delete_ne|done].
  - rewrite H, H0. simpl. rewrite lookup_insert_eq.
    split_and!; [done|done|done|intros; by rewrite lookup_insert_ne|done].
  - rewrite H. assert (SFltb (S754_zero false) rep = false) as ->.
    { destruct rep as [[]|[]| |[]]; (reflexivity || discriminate). }
    simpl. rewrite lookup_delete_eq. split_and!; [done|done|done|intros; by rewrite lookup_delete_ne|done].
  - done.
Qed.

(** ** Properties *)

(** C12: any sequence of calls on IO watchers that respects the contract
    (live watchers, stops only of watchers that wait) runs without misusing
    libev (no change of an active watcher, no uninitialised field, no dead
    watcher), and at its end the loop polls exactly, for every watcher, the
    union of the events started minus the events stopped, and nothing for a
    deleted watcher. *)
Theorem event_loop_refines {L} `{LibEvSpec L} o cs a :
  abs_io_run cs ∅ = Some a →
  ∃ el : EventLoop L, io_run cs (event_loop_new o) = Val el ∧ ∀ id, polled (loop_ el) id = mjoin (a !! id).
Proof.
  intros Hc. destruct (io_run_refines cs (event_loop_new o) ∅ a) as (el & E1 & Hi & Hr); [apply io_rel_new|done|].
  exists el. split; [done|]. intros id. rewrite Hr. destruct (io_watchers el !! id) eqn:Hw; [done|].
  simpl. by apply inv_io_none.
Qed.

Definition demo_calls : list io_call :=
  [NewIo 1 2; NewIo 3 4; StartIo 0 9 READ; StartIo 0 9 WRITE; StartIo 1 8 WRITE; StopIo 0 9 READ; DelIo 1].

Lemma event_loop_refines_witness :
  ∃ el : EventLoop demo_ev, io_run demo_calls (event_loop_new 7) = Val el ∧
    ∀ id, polled (loop_ el) id = mjoin (({[ 0 := Some (9, WRITE) ]} : gmap Z (option (Z * Z))) !! id).
Proof. apply (event_loop_refines 7 demo_calls). vm_compute. reflexivity. Defined.

(** A timer of the loop: arming it cancels what was armed before; a
    one-shot timer fires once after the delay, a repeating one with the delay
    as period; no other timer and no descriptor is affected. Deleting it
    leaves nothing armed. *)
Theorem event_loop_timers {L} `{LibEvSpec L} (el : EventLoop L) id w usec :
  el_inv el → time_watchers el !! id = Some w → SFltb (S754_zero false) (seconds usec) = true →
  ∃ el1 el2, start_timer id usec el = Val el1 ∧
    armed (loop_ el1) id = Some (seconds usec, if repeat_ w then seconds usec else S754_zero false) ∧
    (∀ j, j ≠ id → armed (loop_ el1) j = armed (loop_ el) j) ∧
    (∀ j, polled (loop_ el1) j = polled (loop_ el) j) ∧
    delete_timer id el1 = Val el2 ∧ el_inv el2 ∧ armed (loop_ el2) id = None ∧ time_watchers el2 !! id = None.
Proof.
  intros Hi Hw Hp. destruct (start_timer_spec el id w usec Hi Hw Hp) as (el1 & E1 & Hi1 & Ha & Ho & Hpo).
  assert (is_Some (time_watchers el1 !! id)) as Hs.
  { destruct (time_watchers el1 !! id) eqn:Hn; [done|]. by rewrite (inv_timer_none el1 Hi1 id Hn) in Ha. }
  destruct (delete_timer_spec el1 id Hi1 Hs) as (el2 & E2 & Hi2 & Hn & Ht & _).
  exists el1, el2. split_and!; try done. by rewrite Ht, lookup_delete_eq.
Qed.

Lemma event_loop_timers_witness :
  let '(id, el) := creat_timer 5 6 true (event_loop_new 7 : EventLoop demo_ev) in
  ∃ el1, start_timer id 100000 el = Val el1 ∧ armed (loop_ el1) id = Some (seconds 100000, seconds 100000).
Proof.
  destruct (event_loop_timers (creat_timer 5 6 true (event_loop_new 7 : EventLoop demo_ev)).2 0
    (TimeW 5 6 (EvTimer false None None) true) 100000) as (el1 & el2 & H1 & H2 & _).
  - split.
    + intros id w Hw. exfalso. vm_compute in Hw. discriminate.
    + intros id _. vm_compute. reflexivity.
    + intros id w Hw. simpl in Hw. apply lookup_insert_Some in Hw as [[<- <-]|[_ Hw]].
      * vm_compute. split; [intros [? [=]]|congruence].
      * rewrite lookup_empty in Hw. congruence.
    + intros id _. vm_compute. reflexivity.
  - vm_compute. reflexivity.
  - vm_compute. reflexivity.
  - exists el1. split; [exact H1|exact H2].
Defined.

(** Stopping events of a watcher that waits for nothing is not harmless: the
    mask kept from its last use decides, and the watcher is started again. *)
Example stop_reactivates :
  ∃ el : EventLoop demo_ev,
    io_run [NewIo 1 2; StartIo 0 9 3; StopIo 0 9 3] (event_loop_new 7) = Val el ∧ polled (loop_ el) 0 = None ∧
    (let* el' := stop_io_event 0 9 READ el in Val (polled (loop_ el') 0)) = Val (Some (9, WRITE)).
Proof. eexists. split; [vm_compute; reflexivity|]. split; vm_compute; reflexivity. Qed.
