(* ===== verification/Socket.v ===== *)
(** * Socket helpers (base/socket.cpp)

    The system calls are inputs: what each one answered, with its [errno].
    The helpers decide what the callers see. *)

From S2P Require Import Prelude.

Definition EINTR : Z := 4.
Definition EAGAIN : Z := 11.

(** An answer of the kernel: a value, or [-1] with an error number. *)
Inductive sys (A : Type) :=
  | Ok (a : A)
  | Err (errno : Z).
Arguments Ok {_} _.
Arguments Err {_} _.

(** ** Reading and writing *)

(** [read(fd, buf, len)] when [avail] is what the peer has sent: at most
    [len] bytes are copied, none at the end of the stream. *)
Definition sys_read (avail : list Z) (len : Z) : list Z := take (Z.to_nat len) avail.

(** The result and the bytes stored at the start of [buf]. *)
Definition sock_read_data (ans : sys (list Z)) (len : Z) : Z * list Z :=
  match ans with
  | Err errno => if errno =? EAGAIN then (0, []) else (-1, [])
  | Ok avail =>
      let d := sys_read avail len in
      let nread := s32 (Z.of_nat (length d)) in
      if nread =? 0 then (-1, d) else (nread, d)
  end.

(** [write] answered [n] bytes taken. *)
Definition sock_write_data (ans : sys Z) : Z :=
  match ans with
  | Err errno => if errno =? EAGAIN then 0 else -1
  | Ok n => s32 n
  end.

(** ** Accepting *)

(** [sockaddr_in] as the kernel fills it: address and port in network order. *)
Record sockaddr_in := SockAddr { sin_port : list Z; sin_addr : list Z }.

(** One turn of the loop: [break] follows the test in every case. *)
Definition generic_accept (ans : sys (Z * sockaddr_in)) : Z * option sockaddr_in :=
  match ans with
  | Ok (cfd, a) => (cfd, Some a)
  | Err errno => if errno =? EINTR then (-1, None) else (-1, None)
  end.

Definition ntohs (port : list Z) : Z := be_decode port.

Fixpoint dec_digits (fuel : nat) (v : Z) (acc : list Z) : list Z :=
  match fuel with
  | O => acc
  | S fuel => let acc := (48 + v `mod` 10) :: acc in
              if v `div` 10 =? 0 then acc else dec_digits fuel (v `div` 10) acc
  end.

Lemma dec_digits_length fuel v acc :
  (length (dec_digits fuel v acc) ≤ fuel + length acc)%nat.
Proof.
  revert v acc. induction fuel as [|fuel IH]; intros v acc; [simpl; lia|].
  cbn [dec_digits]. case_match; [cbn [length]; lia|]. etrans; [apply IH|cbn [length]; lia].
Qed.

#[global] Arguments dec_digits : simpl never.

(** [inet_ntoa]: the dotted decimal text of four bytes. *)
Definition inet_ntoa (addr : list Z) : list Z :=
  match (λ b, dec_digits 3 b []) <$> addr with
  | [a; b; c; d] => a ++ [46] ++ b ++ [46] ++ c ++ [46] ++ d
  | _ => []
  end.

(** [strcpy(ip, inet_ntoa(...))] into the caller's block. *)
Definition tcp_accept (ans : sys (Z * sockaddr_in)) (ip : option (list Z))
    : res (Z * option (list Z) * option Z) :=
  match generic_accept ans with
  | (cfd, oa) =>
      if cfd =? -1 then Val (-1, ip, None)
      else
        match oa with
        | None => Undef
        | Some a =>
            let* ip := match ip with
                       | None => Val None
                       | Some b => let* b := of_mem (mwrite b 0 (inet_ntoa (sin_addr a) ++ [0])) in Val (Some b)
                       end in
            Val (cfd, ip, Some (ntohs (sin_port a)))
        end
  end.

(** ** Options *)

Definition O_NONBLOCK : Z := 2048.

(** [fcntl(F_GETFL)], then [fcntl(F_SETFL)] with the flags it is given. *)
Definition sock_set_nonblock (getfl : sys Z) (setfl : Z → sys unit) : Z :=
  match getfl with
  | Err _ => -1
  | Ok flags => match setfl (Z.lor flags O_NONBLOCK) with Err _ => -1 | Ok _ => 0 end
  end.

Definition sock_set_nodelay (ans : sys unit) : Z :=
  match ans with Err _ => -1 | Ok _ => 0 end.

(** The host and port strings are in-out parameters; [port] is tested before
    it is ever assigned. *)
Definition sock_peer_to_str (ans : sys sockaddr_in) (host : list Z) (port : Z) : Z * list Z * Z :=
  match ans with
  | Err _ =>
      (-1, if bool_decide (host = []) then host else b#"?", if port =? 0 then port else 0)
  | Ok a => (0, inet_ntoa (sin_addr a), ntohs (sin_port a))
  end.

(** ** The listening socket

    The answers to [socket], [setsockopt], [inet_aton], [bind] and [listen],
    in the order of the calls; the result is the descriptor or [-1] and the
    descriptors closed on the way. *)

Record server_answers := ServerAnswers {
  a_socket : sys Z;
  a_setsockopt : sys unit;
  a_inet_aton : bool;
  a_bind : sys unit;
  a_listen : sys unit
}.

Definition create_tcp_server (a : server_answers) (host : list Z) : Z * list Z :=
  match a_socket a with
  | Err _ => (-1, [])
  | Ok sockfd =>
      match a_setsockopt a with
      | Err _ => (-1, [])
      | Ok _ =>
          if negb (bool_decide (host = [])) && negb (a_inet_aton a) then (-1, [sockfd])
          else
            match a_bind a with
            | Err _ => (-1, [sockfd])
            | Ok _ => match a_listen a with Err _ => (-1, [sockfd]) | Ok _ => (sockfd, []) end
            end
      end
  end.

(** ** Properties *)

(** The longest dotted address has fifteen characters, so the 128 bytes the
    caller of [tcp_accept] passes are enough. *)
Lemma inet_ntoa_length addr : (length (inet_ntoa addr) ≤ 15)%nat.
Proof.
  unfold inet_ntoa. destruct addr as [|a [|b [|c [|d [|e rest]]]]]; simpl fmap; simpl length; try lia.
  repeat (rewrite length_app; cbn [length app]).
  pose proof (dec_digits_length 3 a []). pose proof (dec_digits_length 3 b []).
  pose proof (dec_digits_length 3 c []). pose proof (dec_digits_length 3 d []).
  cbn [length] in *. lia.
Qed.

(** [sock_read_data] never reports more than it was asked for or than the
    peer sent; it separates the three cases its caller needs: data (a positive
    count and exactly those first bytes), nothing yet (zero), and failure or
    end of stream (minus one). *)
Theorem sock_read_data_cases ans len :
  0 ≤ len ≤ INT_MAX →
  let '(n, d) := sock_read_data ans len in
  (0 < n ∧ ∃ avail, ans = Ok avail ∧ d = take (Z.to_nat len) avail ∧ n = Z.of_nat (length d) ∧ n ≤ len) ∨
  (n = 0 ∧ d = [] ∧ ans = Err EAGAIN) ∨
  (n = -1 ∧ d = [] ∧ ans ≠ Err EAGAIN).
Proof.
  intros Hl. destruct ans as [avail|errno]; simpl.
  - unfold sys_read. set (d := take _ avail).
    assert (Z.of_nat (length d) ≤ len) as Hd by (unfold d; len_solve).
    rewrite s32_small by (unfold INT_MIN; lia). destruct (Z.eqb_spec (Z.of_nat (length d)) 0) as [E|E].
    + right; right. split_and!; [done|by destruct d|done].
    + left. split; [lia|]. eauto.
  - destruct (Z.eqb_spec errno EAGAIN) as [->|].
    + right; left. done.
    + right; right. split_and!; [done|done|congruence].
Qed.

Lemma sock_read_data_cases_witness :
  sock_read_data (Ok [7; 8; 9]) 2 = (2, [7; 8]).
Proof.
  destruct (sock_read_data_cases (Ok [7; 8; 9]) 2 ltac:(vm_compute; split; congruence)) as [[_ H]|[[H _]|[H _]]].
  - vm_compute. reflexivity.
  - vm_compute in H. discriminate.
  - vm_compute in H. discriminate.
Defined.

Lemma tcp_accept_spec ans ip :
  length ip = 128%nat →
  ∃ cfd ip' port, tcp_accept ans (Some ip) = Val (cfd, Some ip', port) ∧ length ip' = 128%nat ∧
    (cfd ≠ -1 → ∃ a, ans = Ok (cfd, a) ∧ port = Some (be_decode (sin_port a))).
Proof.
  intros Hl. unfold tcp_accept, generic_accept.
  destruct ans as [[cfd a]|errno].
  - destruct (Z.eqb_spec cfd (-1)) as [->|Hc]; [by eexists _, _, _|].
    pose proof (inet_ntoa_length (sin_addr a)) as Hn.
    rewrite mwrite_front by (rewrite length_app; simpl; lia). cbn [of_mem mbind_res].
    eexists _, _, _. split; [done|]. split; [rewrite length_app, length_drop, length_app; simpl; lia|].
    intros _. eauto.
  - assert ((if errno =? EINTR then (-1, None) else (-1, None)) = (-1, None : option sockaddr_in)) as ->
      by (by destruct (errno =? EINTR)).
    by eexists _, _, _.
Qed.

(** Accepting into a 128-byte address buffer never overflows it, whatever
    the kernel answers, and yields a descriptor only with the peer's port. *)
Theorem tcp_accept_safe ans ip :
  length ip = 128%nat →
  ∃ cfd ip' port, tcp_accept ans (Some ip) = Val (cfd, Some ip', port) ∧ length ip' = 128%nat ∧
    (cfd ≠ -1 → ∃ a, ans = Ok (cfd, a) ∧ port = Some (be_decode (sin_port a))).
Proof. apply tcp_accept_spec. Qed.

Lemma tcp_accept_safe_witness :
  ∃ cfd ip' port, tcp_accept (Ok (5, SockAddr [31; 144] [127; 0; 0; 1])) (Some (replicate 128 0))
    = Val (cfd, Some ip', port) ∧ length ip' = 128%nat ∧
    (cfd ≠ -1 → ∃ a, @Ok (Z * sockaddr_in) (5, SockAddr [31; 144] [127; 0; 0; 1]) = Ok (cfd, a) ∧
       port = Some (be_decode (sin_port a))).
Proof. apply (tcp_accept_safe (Ok (5, SockAddr [31; 144] [127; 0; 0; 1])) (replicate 128 0)). reflexivity. Defined.

(** An interrupted [accept] is not retried: the loop leaves with [-1]. *)
Example accept_interrupted : generic_accept (Err EINTR) = (-1, None).
Proof. reflexivity. Qed.
