(* ===== verification/TcpConnection.v ===== *)
(** * The protocol header, messages and connections
    (base/xhead.hpp, xrtcserver_def.hpp, server/tcp_connection.hpp and .cpp)

    A request is a 36-byte header and a JSON body. The header is the memory
    of [struct xhead_t] on a little-endian machine: the fields have no
    padding between them. *)

From S2P Require Import Prelude Zmalloc Sds Slice.

(** ** The header *)

Definition XHEAD_SIZE : Z := 36.
Definition XHEAD_MAGIC : Z := 0xfb202202.

Record xhead_t := XHead {
  id : Z;
  version : Z;
  log_id : Z;
  provider : list Z;
  magic_num : Z;
  reserved : Z;
  body_len : Z
}.

(** The fields fit their types. *)
Definition xhead_ok (h : xhead_t) : Prop :=
  (0 ≤ id h < 2 ^ 16 ∧ 0 ≤ version h < 2 ^ 16 ∧ 0 ≤ log_id h < 2 ^ 32) ∧
  (length (provider h) = 16%nat ∧ bytes_ok (provider h)) ∧
  (0 ≤ magic_num h < 2 ^ 32 ∧ 0 ≤ reserved h < 2 ^ 32 ∧ 0 ≤ body_len h < 2 ^ 32).

#[global] Instance xhead_ok_dec h : Decision (xhead_ok h).
Proof. unfold xhead_ok; apply _. Defined.

(** The bytes of the structure in memory. *)
Definition xhead_bytes (h : xhead_t) : list Z :=
  le_encode 2 (id h) ++ le_encode 2 (version h) ++ le_encode 4 (log_id h) ++ provider h ++
  le_encode 4 (magic_num h) ++ le_encode 4 (reserved h) ++ le_encode 4 (body_len h).

(** [(xhead_t* )p] and a field access: each field is read at its offset. *)
Definition field (m : list Z) (off n : Z) : option Z := le_decode <$> mread m off n.

Definition xh_id (m : list Z) : option Z := field m 0 2.
Definition xh_version (m : list Z) : option Z := field m 2 2.
Definition xh_log_id (m : list Z) : option Z := field m 4 4.
Definition xh_provider (m : list Z) : option (list Z) := mread m 8 16.
Definition xh_magic_num (m : list Z) : option Z := field m 24 4.
Definition xh_reserved (m : list Z) : option Z := field m 28 4.
Definition xh_body_len (m : list Z) : option Z := field m 32 4.

Definition xhead_read (m : list Z) : option xhead_t :=
  i ← xh_id m; v ← xh_version m; l ← xh_log_id m; p ← xh_provider m;
  g ← xh_magic_num m; r ← xh_reserved m; b ← xh_body_len m;
  Some (XHead i v l p g r b).

#[local] Opaque le_encode le_decode.

Lemma length_xhead_bytes h : length (provider h) = 16%nat → length (xhead_bytes h) = 36%nat.
Proof. intros Hp. unfold xhead_bytes. rewrite !length_app, !length_le_encode, Hp. done. Qed.

Lemma xhead_bytes_ok h : bytes_ok (provider h) → bytes_ok (xhead_bytes h).
Proof. intros Hp. unfold xhead_bytes. rewrite !bytes_ok_app. auto 10 with rtc. Qed.

(** One field of a structure in the middle of a block. *)
Lemma field_at m pre n z post off k :
  m = pre ++ le_encode n z ++ post → off = Z.of_nat (length pre) → k = Z.of_nat n →
  0 ≤ z < 2 ^ (8 * Z.of_nat n) → field m off k = Some z.
Proof.
  intros -> -> -> Hz. unfold field. rewrite mread_app by (rewrite ?length_le_encode; done).
  simpl. rewrite le_decode_encode. f_equal. by apply Z.mod_small.
Qed.

Lemma xhead_read_bytes h rest :
  xhead_ok h → xhead_read (xhead_bytes h ++ rest) = Some h.
Proof.
  intros ((Hi & Hv & Hl) & (Hp & Hb) & (Hm & Hr & Hn)).
  set (m := xhead_bytes h ++ rest).
  set (f1 := le_encode 2 (id h)). set (f2 := le_encode 2 (version h)). set (f3 := le_encode 4 (log_id h)).
  set (f5 := le_encode 4 (magic_num h)). set (f6 := le_encode 4 (reserved h)). set (f7 := le_encode 4 (body_len h)).
  assert (m = f1 ++ f2 ++ f3 ++ provider h ++ f5 ++ f6 ++ f7 ++ rest) as Em.
  { unfold m, xhead_bytes. by rewrite <- !app_assoc. }
  assert (length f1 = 2%nat ∧ length f2 = 2%nat ∧ length f3 = 4%nat ∧ length f5 = 4%nat ∧ length f6 = 4%nat)
    as (L1 & L2 & L3 & L5 & L6) by (split_and!; apply length_le_encode).
  assert (xh_id m = Some (id h)) as E1.
  { by apply (field_at m [] 2 _ (f2 ++ f3 ++ provider h ++ f5 ++ f6 ++ f7 ++ rest)). }
  assert (xh_version m = Some (version h)) as E2.
  { by apply (field_at m f1 2 _ (f3 ++ provider h ++ f5 ++ f6 ++ f7 ++ rest)); [|rewrite L1|..]. }
  assert (xh_log_id m = Some (log_id h)) as E3.
  { apply (field_at m (f1 ++ f2) 4 _ (provider h ++ f5 ++ f6 ++ f7 ++ rest)); [|len_solve|done|done].
    by rewrite Em, <- !app_assoc. }
  assert (xh_provider m = Some (provider h)) as E4.
  { unfold xh_provider. replace m with ((f1 ++ f2 ++ f3) ++ provider h ++ (f5 ++ f6 ++ f7 ++ rest))
      by (by rewrite Em, <- !app_assoc). apply mread_app; len_solve. }
  assert (xh_magic_num m = Some (magic_num h)) as E5.
  { apply (field_at m (f1 ++ f2 ++ f3 ++ provider h) 4 _ (f6 ++ f7 ++ rest)); [|len_solve|done|done].
    by rewrite Em, <- !app_assoc. }
  assert (xh_reserved m = Some (reserved h)) as E6.
  { apply (field_at m (f1 ++ f2 ++ f3 ++ provider h ++ f5) 4 _ (f7 ++ rest)); [|len_solve|done|done].
    by rewrite Em, <- !app_assoc. }
  assert (xh_body_len m = Some (body_len h)) as E7.
  { apply (field_at m (f1 ++ f2 ++ f3 ++ provider h ++ f5 ++ f6) 4 _ rest); [|len_solve|done|done].
    by rewrite Em, <- !app_assoc. }
  unfold xhead_read. rewrite E1, E2, E3, E4, E5, E6, E7. simpl. by destruct h.
Qed.

(** ** Messages between the servers (struct RtcMsg) *)

Definition CMDNO_PUSH : Z := 1.
Definition CMDNO_PULL : Z := 2.
Definition CMDNO_ANSWER : Z := 3.
Definition CMDNO_STOPPUSH : Z := 4.
Definition CMDNO_STOPPULL : Z := 5.
Definition MAX_RES_BUF : Z := 4096.

Record RtcMsg := Msg {
  cmdno : Z;
  uid : Z;
  stream_name : list Z;
  audio : Z;
  video : Z;
  m_log_id : Z;
  worker : option Z;   (* the signaling worker the request came from *)
  conn : option Z;     (* its connection *)
  sdp : list Z;
  err_no : Z;
  fd : Z
}.

Definition rtc_msg_default : RtcMsg := Msg (-1) 0 [] 0 0 0 None None [] 0 0.

(** ** Connections *)

Definition STATE_HEAD : Z := 0.
Definition STATE_BODY : Z := 1.

Record TcpConnection := Tcp {
  fd_ : Z;
  host_ : list Z;
  port_ : Z;
  io_watcher_ : Z;
  timer_watcher_ : Z;
  querybuf : sds;
  bytes_expected : Z;
  bytes_processed : Z;
  current_state : Z;
  last_interaction_time : Z;
  reply_list : list slice;
  cur_resp_pos : Z
}.

(** The constructor; the members it does not name get their defaults, the
    indeterminate ones ([port_], [last_interaction_time]) are overwritten by
    its only caller. *)
Definition TcpConnection_new {A : Allocator} (fd : Z) : res TcpConnection :=
  let* q := sdsempty in
  Val (Tcp fd [] 0 0 0 q XHEAD_SIZE 0 STATE_HEAD 0 [] 0).

(** The destructor releases the block of the receive buffer. *)
Definition TcpConnection_delete (c : TcpConnection) : option (list Z) := sdsfree (Some (querybuf c)).

(** ** Properties *)

(** The header read back from memory through the structure pointer is the
    header that was written, whatever follows it. *)
Theorem xhead_roundtrip h rest :
  xhead_ok h → length (xhead_bytes h) = Z.to_nat XHEAD_SIZE ∧
  xhead_read (xhead_bytes h ++ rest) = Some h.
Proof.
  intros Hh. split; [|by apply xhead_read_bytes].
  rewrite length_xhead_bytes; [done|]. by destruct Hh as (_ & (? & _) & _).
Qed.

Definition demo_head : xhead_t := XHead 1 2 77 (b#"rtc-client-0001!") XHEAD_MAGIC 0 5.

Lemma xhead_roundtrip_witness :
  length (xhead_bytes demo_head) = 36%nat ∧ xhead_read (xhead_bytes demo_head ++ [1; 2]) = Some demo_head.
Proof.
  apply (xhead_roundtrip demo_head [1; 2]). apply (bool_decide_unpack _). vm_compute. exact I.
Defined.
