(* ===== verification/SignalingRequest.v ===== *)
(** * Requests on a connection (server/signaling_worker.cpp, first half)

    How the bytes of a connection become requests: the receive step of
    [read_query], the framing loop [process_query_buffer] and the handlers
    [process_request_] and [process_push_]. The JSON library and the
    [RtcServer] the handlers talk to are parameters: [Json] is what the code
    uses of jsoncpp, and [RtcPort] is the one operation of the server, which
    [RtcServer.v] implements. *)

From S2P Require Import Prelude Zmalloc Sds SdsSpec Slice Socket TcpConnection.

(** jsoncpp: [json_parse] is [None] when the error string is not empty; the
    other operations are [None] when they throw a [Json::Exception]. *)
Class Json (V : Type) := {
  json_parse : list Z → option V;
  json_member : V → string → option V;
  asInt : V → option Z;
  asUInt64 : V → option Z;
  asString : V → option (list Z)
}.

(** The values have the width of their C++ types. *)
Class JsonSpec (V : Type) `{Json V} : Prop := {
  asInt_range v z : asInt v = Some z → INT_MIN ≤ z ≤ INT_MAX;
  asUInt64_range v z : asUInt64 v = Some z → 0 ≤ z < 2 ^ 64
}.

(** [g_rtc_server->send_rtc_msg(msg)]: its result and the new server state. *)
Class RtcPort (G : Type) := rtc_send : RtcMsg → G → Z * G.

(** ** Updates of a connection *)

Definition set_querybuf (q : sds) (c : TcpConnection) : TcpConnection :=
  Tcp (fd_ c) (host_ c) (port_ c) (io_watcher_ c) (timer_watcher_ c) q (bytes_expected c)
    (bytes_processed c) (current_state c) (last_interaction_time c) (reply_list c) (cur_resp_pos c).

Definition set_progress (expected processed state : Z) (c : TcpConnection) : TcpConnection :=
  Tcp (fd_ c) (host_ c) (port_ c) (io_watcher_ c) (timer_watcher_ c) (querybuf c) expected processed
    state (last_interaction_time c) (reply_list c) (cur_resp_pos c).

Definition set_interaction (t : Z) (c : TcpConnection) : TcpConnection :=
  Tcp (fd_ c) (host_ c) (port_ c) (io_watcher_ c) (timer_watcher_ c) (querybuf c) (bytes_expected c)
    (bytes_processed c) (current_state c) t (reply_list c) (cur_resp_pos c).

Definition set_replies (rs : list slice) (pos : Z) (c : TcpConnection) : TcpConnection :=
  Tcp (fd_ c) (host_ c) (port_ c) (io_watcher_ c) (timer_watcher_ c) (querybuf c) (bytes_expected c)
    (bytes_processed c) (current_state c) (last_interaction_time c) rs pos.

(** ** The handlers *)

Section Handlers.
Context {V : Type} {J : Json V} {G : Type} {P : RtcPort G}.

(** [this] and the connection are the addresses that travel in the message. *)
Definition process_push_ (this : Z) (cmd : Z) (p : Z) (c : TcpConnection) (root : V) (lid : Z) (g : G) : Z * G :=
  match
    u ← json_member root "uid" ≫= asUInt64;
    s ← json_member root "streamName" ≫= asString;
    a ← json_member root "audio" ≫= asInt;
    v ← json_member root "video" ≫= asInt;
    Some (u, s, a, v)
  with
  | None => (-1, g)
  | Some (u, s, a, v) =>
      rtc_send (Msg cmd u s a v lid (Some this) (Some p) [] 0 (fd_ c)) g
  end.

(** From the parsed body on: the command number selects the handler. *)
Definition dispatch (this p : Z) (c : TcpConnection) (lid : Z) (text : list Z) (g : G) : Z * G :=
  match json_parse text with
  | None => (-1, g)
  | Some root =>
      match json_member root "cmdno" ≫= asInt with
      | None => (-1, g)
      | Some cmd => if cmd =? CMDNO_PUSH then process_push_ this cmd p c root lid g else (0, g)
      end
  end.

(** The log identifier of the header goes into the log of every outcome. *)
Definition process_request_ (this p : Z) (c : TcpConnection) (header body : slice) (g : G) : res (Z * G) :=
  let* text := to_string body in
  let* lid := of_mem (xh_log_id (data header)) in
  Val (dispatch this p c lid text g).

(** One turn of the [while] loop; [inl] continues, [inr] returns. *)
Definition query_turn (this p : Z) (c : TcpConnection) (g : G) : res ((TcpConnection * G) + (Z * TcpConnection * G)) :=
  let q := buf (querybuf c) in
  if current_state c =? STATE_HEAD then
    let* magic := of_mem (xh_magic_num q) in
    if negb (magic =? XHEAD_MAGIC) then Val (inr (-1, c, g))
    else
      let* n := of_mem (xh_body_len q) in
      Val (inl (set_progress n XHEAD_SIZE STATE_BODY c, g))
  else if current_state c =? STATE_BODY then
    let header := slice_new q XHEAD_SIZE in
    let* n := of_mem (xh_body_len q) in
    let body := slice_new (drop (Z.to_nat XHEAD_SIZE) q) n in
    let* '(ret, g) := process_request_ this p c header body g in
    if ret <? 0 then Val (inr (-1, c, g))
    else Val (inl (set_progress (bytes_expected c) 65535 (current_state c) c, g))
  else Val (inl (c, g)).

(** [None] when the loop has not ended after [fuel] turns. *)
Fixpoint process_query_buffer (fuel : nat) (this p : Z) (c : TcpConnection) (g : G)
    : option (res (Z * TcpConnection * G)) :=
  if u64 (bytes_expected c + bytes_processed c) <=? sdslen (querybuf c) then
    match fuel with
    | O => None
    | S fuel =>
        match query_turn this p c g with
        | Val (inl (c, g)) => process_query_buffer fuel this p c g
        | Val (inr r) => Some (Val r)
        | Null => Some Null
        | Aborted => Some Aborted
        | Undef => Some Undef
        end
    end
  else Some (Val (0, c, g)).
End Handlers.

(** ** Receiving

    The part of [read_query] between the lookup of the connection and the
    parsing: room for what is expected, one read behind the content, and the
    new length. The result of [sock_read_data] comes with the connection. *)

Definition not_null {A} (r : res A) : res A := match r with Null => Undef | r => r end.

Section Receive.
Context {A : Allocator}.

Definition receive (ans : sys (list Z)) (now : Z) (c : TcpConnection) : res (Z * TcpConnection) :=
  let read_len := s32 (bytes_expected c) in
  let qb_len := s32 (sdslen (querybuf c)) in
  let* q := not_null (sdsMakeRoomFor (querybuf c) (u64 read_len)) in
  let '(nread, d) := sock_read_data ans (u64 read_len) in
  let* b := of_mem (mwrite (buf q) qb_len d) in
  let q := Sds (len q) (free q) b in
  let c := set_interaction now (set_querybuf q c) in
  if nread =? -1 then Val (-1, c)
  else
    let* q := (if 0 <? nread then sdsIncrLen q nread else Val q) in
    Val (nread, set_querybuf q c).
End Receive.

(** ** Framing *)

(** How far the connection is in a request with a body of [n] bytes. *)
Inductive phase := InHead | InBody | Handled.

Definition at_phase (ph : phase) (n : Z) (c : TcpConnection) : Prop :=
  match ph with
  | InHead => current_state c = STATE_HEAD ∧ bytes_expected c = XHEAD_SIZE ∧ bytes_processed c = 0
  | InBody => current_state c = STATE_BODY ∧ bytes_expected c = n ∧ bytes_processed c = XHEAD_SIZE
  | Handled => current_state c = STATE_BODY ∧ bytes_expected c = n ∧ bytes_processed c = 65535
  end.

(** What [phase] a connection that received [k] bytes of the request is in. *)
Definition phase_of (k n : Z) : phase :=
  if k <? XHEAD_SIZE then InHead else if k <? XHEAD_SIZE + n then InBody else Handled.

Lemma phase_incomplete k n : k < XHEAD_SIZE + n → phase_of k n ≠ Handled.
Proof. intros. unfold phase_of. rewrite (proj2 (Z.ltb_lt k (_ + n))) by done. by destruct (k <? XHEAD_SIZE). Qed.

Lemma phase_handled k n : 0 ≤ n → XHEAD_SIZE + n ≤ k → phase_of k n = Handled.
Proof.
  intros. unfold phase_of. by rewrite (proj2 (Z.ltb_ge k XHEAD_SIZE)), (proj2 (Z.ltb_ge k (_ + n))) by lia.
Qed.

Lemma field_prefix bs rest off n :
  off + n ≤ Z.of_nat (length bs) → field (bs ++ rest) off n = field bs off n.
Proof. intros. unfold field. by rewrite mread_app_l. Qed.

Section Framing.
Context {V : Type} {J : Json V} {G : Type} {P : RtcPort G}.
Context (h : xhead_t) (body extra : list Z).
Hypothesis h_ok : xhead_ok h.
Hypothesis h_magic : magic_num h = XHEAD_MAGIC.
Hypothesis h_len : body_len h = Z.of_nat (length body).

#[local] Notation n := (body_len h).
#[local] Notation stream := (xhead_bytes h ++ body ++ extra).

Lemma length_head : length (xhead_bytes h) = 36%nat.
Proof. apply length_xhead_bytes. by destruct h_ok as (_ & (? & _) & _). Qed.

Lemma stream_read :
  xh_magic_num stream = Some XHEAD_MAGIC ∧ xh_body_len stream = Some n ∧ xh_log_id stream = Some (log_id h).
Proof.
  pose proof (xhead_read_bytes h (body ++ extra) h_ok) as Hr. unfold xhead_read in Hr.
  destruct (xh_id _), (xh_version _), (xh_log_id _), (xh_provider _), (xh_magic_num _), (xh_reserved _),
    (xh_body_len _); try discriminate. simpl in Hr. injection Hr as Hr. rewrite <- h_magic, <- Hr. done.
Qed.

(** The fields read from a buffer that holds the header. *)
Lemma buffer_read q bs :
  repr q bs → bs `prefix_of` stream → XHEAD_SIZE ≤ Z.of_nat (length bs) →
  xh_magic_num (buf q) = Some XHEAD_MAGIC ∧ xh_body_len (buf q) = Some n ∧ xh_log_id (buf q) = Some (log_id h).
Proof.
  intros Hr [rest Hp] Hl. unfold XHEAD_SIZE in Hl. repr_destruct Hr as tail. simpl.
  destruct stream_read as (H1 & H2 & H3). rewrite Hp in H1, H2, H3.
  unfold xh_magic_num, xh_body_len, xh_log_id in *.
  rewrite field_prefix in H1, H2, H3 |- * by lia. rewrite !field_prefix by lia. done.
Qed.

(** The body cut out of a buffer that holds the request. *)
Lemma buffer_body q bs :
  repr q bs → bs `prefix_of` stream → XHEAD_SIZE + n ≤ Z.of_nat (length bs) →
  to_string (slice_new (drop (Z.to_nat XHEAD_SIZE) (buf q)) n) = Val body.
Proof.
  intros Hr [rest Hp] Hl. unfold XHEAD_SIZE in *. repr_destruct Hr as tail.
  unfold to_string, slice_new. cbn [block data_ size_ buf]. rewrite h_len in *.
  rewrite drop_app_le by lia. rewrite mread_app_l by len_solve.
  rewrite mread_take by len_solve. cbn [of_mem]. f_equal. rewrite Nat2Z.id.
  apply (f_equal (drop 36)) in Hp. rewrite drop_app_length' in Hp by (by rewrite length_head).
  rewrite drop_app_le in Hp by lia. apply (f_equal (take (length body))) in Hp.
  rewrite take_app_length, take_app_le in Hp by len_solve. symmetry. exact Hp.
Qed.

Lemma at_phase_progress ph c : at_phase ph n c →
  bytes_expected c + bytes_processed c =
    match ph with InHead => XHEAD_SIZE | InBody => n + XHEAD_SIZE | Handled => n + 65535 end.
Proof using Type. clear h_len. destruct ph; intros (_ & -> & ->); lia. Qed.

Lemma n_range : 0 ≤ n < 2 ^ 32.
Proof. by destruct h_ok as (_ & _ & (_ & _ & ?)). Qed.

(** The loop ends at once when what it waits for is not there. *)
Lemma pqb_wait fuel this p c g bs ph :
  repr (querybuf c) bs → at_phase ph n c →
  Z.of_nat (length bs) < bytes_expected c + bytes_processed c →
  process_query_buffer fuel this p c g = Some (Val (0, c, g)).
Proof using h_ok.
  clear h_len.
  intros Hr Hph Hl. rewrite (at_phase_progress ph c Hph) in Hl.
  pose proof n_range. destruct (repr_content _ _ Hr) as (Hs & _).
  assert (u64 (bytes_expected c + bytes_processed c) <=? sdslen (querybuf c) = false) as E.
  { rewrite (at_phase_progress ph c Hph), Hs. unfold XHEAD_SIZE in *.
    rewrite u64_small by (destruct ph; lia). apply Z.leb_gt. destruct ph; lia. }
  destruct fuel; cbn [process_query_buffer]; by rewrite E.
Qed.

Lemma pqb_turn fuel this p c g bs ph :
  repr (querybuf c) bs → at_phase ph n c →
  bytes_expected c + bytes_processed c ≤ Z.of_nat (length bs) →
  process_query_buffer (S fuel) this p c g =
    match query_turn this p c g with
    | Val (inl (c, g)) => process_query_buffer fuel this p c g
    | Val (inr r) => Some (Val r)
    | Null => Some Null
    | Aborted => Some Aborted
    | Undef => Some Undef
    end.
Proof using h_ok.
  clear h_len.
  intros Hr Hph Hl. cbn [process_query_buffer].
  assert (u64 (bytes_expected c + bytes_processed c) <=? sdslen (querybuf c) = true) as ->; [|done].
  destruct (repr_content _ _ Hr) as (-> & _). pose proof n_range.
  rewrite (at_phase_progress ph c Hph) in *. unfold XHEAD_SIZE in *.
  rewrite u64_small by (destruct ph; lia). apply Z.leb_le. lia.
Qed.

Lemma turn_head this p c g bs :
  repr (querybuf c) bs → bs `prefix_of` stream → at_phase InHead n c → XHEAD_SIZE ≤ Z.of_nat (length bs) →
  query_turn this p c g = Val (inl (set_progress n XHEAD_SIZE STATE_BODY c, g)).
Proof.
  intros Hr Hp (Hs & _) Hl. unfold query_turn. rewrite Hs. cbn [Z.eqb STATE_HEAD].
  destruct (buffer_read (querybuf c) bs Hr Hp Hl) as (-> & -> & _). done.
Qed.

Lemma turn_body this p c g bs :
  repr (querybuf c) bs → bs `prefix_of` stream → current_state c = STATE_BODY →
  XHEAD_SIZE + n ≤ Z.of_nat (length bs) →
  query_turn this p c g =
    let '(ret, g') := dispatch this p c (log_id h) body g in
    Val (if ret <? 0 then inr (-1, c, g')
         else inl (set_progress (bytes_expected c) 65535 STATE_BODY c, g')).
Proof.
  intros Hr Hp Hs Hl. pose proof n_range. unfold query_turn. rewrite Hs. cbn [Z.eqb STATE_HEAD STATE_BODY].
  destruct (buffer_read (querybuf c) bs Hr Hp) as (_ & -> & Hlid); [lia|]. cbn [of_mem mbind_res].
  unfold process_request_. rewrite (buffer_body _ bs) by done. cbn [mbind_res].
  unfold data, slice_new. cbn [block data_]. change (Z.to_nat 0) with 0%nat. rewrite drop_0, Hlid.
  cbn [of_mem mbind_res]. destruct (dispatch _ _ _ _ _ _) as [ret g']. cbn [mbind_res].
  by destruct (ret <? 0).
Qed.

(** A call of the loop before the request is complete only records how far
    the connection is. *)
Lemma pqb_incomplete fuel this p c g bs ph :
  repr (querybuf c) bs → bs `prefix_of` stream → at_phase ph n c → ph ≠ Handled →
  (ph = InBody → XHEAD_SIZE ≤ Z.of_nat (length bs)) → Z.of_nat (length bs) < XHEAD_SIZE + n →
  ∃ a b s, process_query_buffer (S fuel) this p c g = Some (Val (0, set_progress a b s c, g)) ∧
    at_phase (phase_of (Z.of_nat (length bs)) n) n (set_progress a b s c).
Proof.
  intros Hr Hp Hph Hne Hb Hl. pose proof n_range. unfold phase_of. rewrite (proj2 (Z.ltb_lt _ (_ + n))) by done.
  assert (∀ ph', at_phase ph' n c → Z.of_nat (length bs) < bytes_expected c + bytes_processed c →
    ∃ a b s, process_query_buffer (S fuel) this p c g = Some (Val (0, set_progress a b s c, g)) ∧
    at_phase ph' n (set_progress a b s c)) as Hw.
  { intros ph' Hph' Hlt. exists (bytes_expected c), (bytes_processed c), (current_state c).
    rewrite (pqb_wait _ _ _ c g bs ph') by done. destruct c; done. }
  destruct ph; [|..|done].
  - destruct (Z.ltb_spec (Z.of_nat (length bs)) XHEAD_SIZE).
    + apply (Hw InHead); [done|]. by rewrite (at_phase_progress InHead c Hph).
    + rewrite (pqb_turn _ _ _ c g bs InHead) by (done || by rewrite (at_phase_progress InHead c Hph)).
      rewrite (turn_head this p c g bs) by done. eexists _, _, _.
      rewrite (pqb_wait _ _ _ _ g bs InBody); [by split|done|done|]. simpl. lia.
  - rewrite (proj2 (Z.ltb_ge _ XHEAD_SIZE)) by (by apply Hb). apply (Hw InBody); [done|].
    rewrite (at_phase_progress InBody c Hph). lia.
Qed.

(** The call that finds the request complete handles it once. *)
Lemma pqb_complete fuel this p c g bs ph ret g' :
  repr (querybuf c) bs → bs `prefix_of` stream → at_phase ph n c → ph ≠ Handled →
  XHEAD_SIZE + n ≤ Z.of_nat (length bs) < n + 65535 →
  dispatch this p c (log_id h) body g = (ret, g') →
  process_query_buffer (S (S fuel)) this p c g =
    Some (Val (if ret <? 0 then (-1, set_progress n XHEAD_SIZE STATE_BODY c, g')
               else (0, set_progress n 65535 STATE_BODY c, g'))).
Proof.
  intros Hr Hp Hph Hne Hl Hd. pose proof n_range.
  set (c1 := set_progress n XHEAD_SIZE STATE_BODY c).
  assert (∀ f, process_query_buffer (S f) this p c1 g =
    Some (Val (if ret <? 0 then (-1, c1, g') else (0, set_progress n 65535 STATE_BODY c, g')))) as Hb.
  { intros f. rewrite (pqb_turn _ _ _ c1 g bs InBody) by (done || simpl; lia).
    rewrite (turn_body this p c1 g bs) by (done || lia).
    change (dispatch this p c1) with (dispatch this p c). rewrite Hd. destruct (ret <? 0); [done|].
    rewrite (pqb_wait _ _ _ _ g' bs Handled); [done|done|done|]. simpl. lia. }
  destruct ph; [|..|done].
  - rewrite (pqb_turn _ _ _ c g bs InHead)
      by (done || (rewrite (at_phase_progress InHead c Hph); lia)).
    rewrite (turn_head this p c g bs) by (done || lia). apply Hb.
  - assert (set_progress n XHEAD_SIZE STATE_BODY c = c) as Hc.
    { destruct Hph as (<- & <- & <-). by destruct c. }
    rewrite <- Hc at 1. apply Hb.
Qed.
End Framing.

(** ** Receiving one chunk *)

Section ReceiveTheory.
Context {A : Allocator} {AS : AllocatorSpec} {AT : AllocatorTotal}.

Lemma receive_spec avail now c bs :
  repr (querybuf c) bs → 0 < bytes_expected c ≤ INT_MAX →
  room (Z.of_nat (length bs) + bytes_expected c) → bytes_ok avail → avail ≠ [] →
  let d := take (Z.to_nat (bytes_expected c)) avail in
  ∃ q, receive (Ok avail) now c = Val (Z.of_nat (length d), set_querybuf q (set_interaction now c)) ∧
    repr q (bs ++ d).
Proof.
  intros Hr He Hroom Ha Hne d. unfold receive. destruct (repr_content _ _ Hr) as (-> & _ & _ & Hbs).
  assert (0 < Z.of_nat (length d) ≤ bytes_expected c) as Hd.
  { unfold d. rewrite length_take. destruct avail; [done|]. simpl length. lia. }
  assert (u64 (s32 (bytes_expected c)) = bytes_expected c) as ->.
  { rewrite s32_small by (unfold INT_MIN; lia). unfold INT_MAX in *. by rewrite u64_small by lia. }
  destruct (sdsMakeRoomFor_spec (querybuf c) bs (bytes_expected c)) as (q1 & -> & Hr1 & Hf & _); [done|lia|done|].
  cbn [not_null mbind_res]. unfold sock_read_data, sys_read. fold d.
  rewrite (s32_small (Z.of_nat (length d))) by (unfold INT_MIN; lia).
  rewrite (proj2 (Z.eqb_neq (Z.of_nat (length d)) 0)) by lia.
  repr_destruct Hr1 as tail. simpl in Hf. unfold INT_MAX in *.
  rewrite (s32_small (Z.of_nat (length bs))) by (unfold INT_MIN, INT_MAX; lia). cbn [buf len free].
  destruct (sdsIncrLen_spec bs tail d) as (b & q2 & -> & Hi & Hr2); [done|done|by apply bytes_ok_take|lia|done|].
  cbn [of_mem mbind_res]. rewrite (proj2 (Z.eqb_neq _ (-1))), (proj2 (Z.ltb_lt 0 _)) by lia.
  rewrite Hi. cbn [mbind_res]. exists q2. by destruct c.
Qed.

(** A call that stores nothing: only the time of the last interaction and
    perhaps the spare room change. *)
Lemma receive_none ans now c bs r :
  repr (querybuf c) bs → 0 ≤ bytes_expected c ≤ INT_MAX →
  room (Z.of_nat (length bs) + bytes_expected c) →
  sock_read_data ans (bytes_expected c) = (r, []) → r = 0 ∨ r = -1 →
  ∃ q, receive ans now c = Val (r, set_querybuf q (set_interaction now c)) ∧ repr q bs.
Proof.
  intros Hr He Hroom Hb Hcase. unfold receive. destruct (repr_content _ _ Hr) as (-> & _).
  assert (u64 (s32 (bytes_expected c)) = bytes_expected c) as ->.
  { rewrite s32_small by (unfold INT_MIN; lia). unfold INT_MAX in *. by rewrite u64_small by lia. }
  destruct (sdsMakeRoomFor_spec (querybuf c) bs (bytes_expected c)) as (q1 & -> & Hr1 & _); [done|lia|done|].
  cbn [not_null mbind_res]. rewrite Hb.
  pose proof Hr1 as Hr2. repr_destruct Hr1 as tail. unfold INT_MAX in *.
  rewrite s32_small by (unfold INT_MIN, INT_MAX; lia). cbn [buf len free].
  pose proof (mwrite_app bs [] (0 :: tail) [] (Z.of_nat (length bs)) eq_refl eq_refl) as Hw. simpl in Hw.
  rewrite Hw. cbn [of_mem mbind_res]. destruct Hcase as [-> | ->]; simpl; eexists; (split; [by destruct c|done]).
Qed.

Lemma receive_again now c bs :
  repr (querybuf c) bs → 0 ≤ bytes_expected c ≤ INT_MAX → room (Z.of_nat (length bs) + bytes_expected c) →
  ∃ q, receive (Err EAGAIN) now c = Val (0, set_querybuf q (set_interaction now c)) ∧ repr q bs.
Proof. intros. apply receive_none; [done|done|done|done|by left]. Qed.

(** Whatever the kernel answers, the content only grows by what was read. *)
Lemma receive_total ans now c bs :
  repr (querybuf c) bs → 0 ≤ bytes_expected c ≤ INT_MAX →
  room (Z.of_nat (length bs) + bytes_expected c) → (∀ avail, ans = Ok avail → bytes_ok avail) →
  ∃ nread d q, receive ans now c = Val (nread, set_querybuf q (set_interaction now c)) ∧ repr q (bs ++ d).
Proof.
  intros Hr He Hroom Ha. destruct ans as [avail|e].
  - destruct (decide (avail ≠ [] ∧ 0 < bytes_expected c)) as [[Hne Hpos]|Hno].
    + destruct (receive_spec avail now c bs) as (q & -> & Hq); [done|lia|done|by apply Ha|done|]. eauto.
    + destruct (receive_none (Ok avail) now c bs (-1)) as (q & -> & Hq);
        [done|done|done| |by right|exists (-1), [], q; by rewrite app_nil_r].
      unfold sock_read_data, sys_read. assert (take (Z.to_nat (bytes_expected c)) avail = []) as ->; [|done].
      destruct (decide (avail = [])) as [->|]; [apply take_nil|].
      assert (bytes_expected c = 0) as -> by (apply dec_stable; intros ?; apply Hno; split; [done|lia]). done.
  - destruct (receive_none (Err e) now c bs (if e =? EAGAIN then 0 else -1)) as (q & -> & Hq);
      [done|done|done|simpl; by destruct (e =? EAGAIN)|destruct (e =? EAGAIN); auto|].
    eexists _, [], q. by rewrite app_nil_r.
Qed.
End ReceiveTheory.

(** ** Any bytes at all *)

(** The progress recorded in a connection agrees with the bytes received. *)
Definition frame_ok (c : TcpConnection) (bs : list Z) : Prop :=
  at_phase InHead 0 c ∨
  ∃ n, xh_body_len bs = Some n ∧ 0 ≤ n < 2 ^ 32 ∧ XHEAD_SIZE ≤ Z.of_nat (length bs) ∧
    (at_phase InBody n c ∨ at_phase Handled n c).

Lemma frame_ok_app c c' bs d :
  frame_ok c bs → current_state c' = current_state c → bytes_expected c' = bytes_expected c →
  bytes_processed c' = bytes_processed c → frame_ok c' (bs ++ d).
Proof.
  intros H E1 E2 E3. unfold frame_ok, at_phase in *. rewrite E1, E2, E3.
  destruct H as [H|(n & Hn & Hr & Hl & H)]; [by left|right]. exists n. split_and!; try done; try len_solve.
  unfold xh_body_len in *. unfold XHEAD_SIZE in Hl. by rewrite field_prefix by lia.
Qed.

Lemma field_defined bs off n :
  bytes_ok bs → 0 ≤ off → 0 ≤ n → off + n ≤ Z.of_nat (length bs) →
  ∃ z, field bs off n = Some z ∧ 0 ≤ z < 2 ^ (8 * n).
Proof.
  intros Hb Ho Hn Hl. unfold field, mread. rewrite !(proj2 (Z.leb_le _ _)) by lia. simpl. eexists. split; [done|].
  pose proof (le_decode_bound (take (Z.to_nat n) (drop (Z.to_nat off) bs))) as H.
  replace (Z.of_nat (length (take (Z.to_nat n) (drop (Z.to_nat off) bs)))) with n in H by len_solve.
  apply H. auto with rtc.
Qed.

Section AnyBytes.
Context {V : Type} {J : Json V} {G : Type} {P : RtcPort G}.

(** A turn of the loop on buffered bytes never leaves the buffer. *)
Lemma turn_safe this p c g bs :
  repr (querybuf c) bs → frame_ok c bs → bytes_expected c + bytes_processed c ≤ Z.of_nat (length bs) →
  ∃ a b s g', frame_ok (set_progress a b s c) bs ∧
    (query_turn this p c g = Val (inl (set_progress a b s c, g')) ∨
     query_turn this p c g = Val (inr (-1, set_progress a b s c, g'))).
Proof.
  intros Hr Hf Hl. destruct (repr_content _ _ Hr) as (_ & _ & _ & Hb).
  assert (∀ off n, off + n ≤ Z.of_nat (length bs) → field (buf (querybuf c)) off n = field bs off n) as Hfield.
  { intros off n Ho. destruct (repr_buf _ _ Hr) as (tail & -> & _). by apply field_prefix. }
  unfold query_turn, xh_magic_num, xh_body_len, xh_log_id.
  assert (c = set_progress (bytes_expected c) (bytes_processed c) (current_state c) c) as Ec by (by destruct c).
  destruct Hf as [(H1 & H2 & H3)|(n & Hn & Hnr & H36 & Hph)].
  - rewrite H1. cbn [Z.eqb STATE_HEAD]. rewrite H2, H3 in Hl. unfold XHEAD_SIZE in *. rewrite !Hfield by lia.
    destruct (field_defined bs 24 4) as (mg & -> & _); [done|lia..|].
    destruct (field_defined bs 32 4) as (n & Hn & Hnr); [done|lia..|]. cbn [of_mem mbind_res].
    change (2 ^ (8 * 4)) with (2 ^ 32) in Hnr.
    destruct (negb _).
    + exists (bytes_expected c), (bytes_processed c), (current_state c), g. rewrite <- Ec. split; [by left|by right].
    + rewrite Hn. cbn [of_mem mbind_res]. eexists _, _, _, g. split; [|by left]. right. exists n.
      split_and!; [done|lia|lia|unfold XHEAD_SIZE; lia|by left].
  - assert (current_state c = STATE_BODY ∧ bytes_expected c = n ∧ XHEAD_SIZE ≤ bytes_processed c) as (H1 & H2 & H3).
    { unfold XHEAD_SIZE. destruct Hph as [(? & ? & H)|(? & ? & H)]; rewrite H; split_and!; done. }
    rewrite H1. cbn [Z.eqb STATE_HEAD STATE_BODY]. unfold xh_body_len, XHEAD_SIZE in *. rewrite Hfield, Hn by lia.
    cbn [of_mem mbind_res]. unfold process_request_, to_string, slice_new. cbn [block data_ size_].
    rewrite mread_take.
    2: { destruct (repr_buf _ _ Hr) as (tail & -> & _). rewrite length_drop, length_app. simpl. lia. }
    cbn [of_mem mbind_res]. unfold data. cbn [data_ block]. change (Z.to_nat 0) with 0%nat. rewrite drop_0.
    unfold xh_log_id. rewrite Hfield by lia. destruct (field_defined bs 4 4) as (lid & -> & _); [done|lia..|].
    cbn [of_mem mbind_res]. destruct (dispatch _ _ _ _ _ _) as [ret g']. cbn [mbind_res]. destruct (ret <? 0).
    + exists (bytes_expected c), (bytes_processed c), (current_state c), g'. rewrite <- Ec. split; [|by right].
      right. exists n. split_and!; [done|lia|lia|exact H36|done].
    + eexists _, _, _, g'. split; [|by left]. right. exists n.
      split_and!; [done|lia|lia|exact H36|]. right. simpl. by rewrite H2.
Qed.

Lemma pqb_safe fuel this p c g bs :
  repr (querybuf c) bs → frame_ok c bs →
  process_query_buffer fuel this p c g = None ∨
  ∃ r a b s g', process_query_buffer fuel this p c g = Some (Val (r, set_progress a b s c, g')) ∧
    frame_ok (set_progress a b s c) bs.
Proof.
  revert c g. induction fuel as [|fuel IH]; intros c g Hr Hf;
    (assert (c = set_progress (bytes_expected c) (bytes_processed c) (current_state c) c) as Ec by (by destruct c));
    cbn [process_query_buffer]; destruct (Z.leb_spec (u64 (bytes_expected c + bytes_processed c)) (sdslen (querybuf c))) as [Hl|Hl].
  1: by left.
  1, 3: right; exists 0, (bytes_expected c), (bytes_processed c), (current_state c), g; by rewrite <- Ec.
  destruct (turn_safe this p c g bs Hr Hf) as (a & b & s & g' & Hf' & [-> | ->]).
  - destruct (repr_content _ _ Hr) as (Hs & _). rewrite Hs, u64_small in Hl; [done|].
    destruct Hf as [(_ & -> & ->)|(n & _ & Hn & _ & [(_ & -> & ->)|(_ & -> & ->)])]; unfold XHEAD_SIZE; lia.
  - destruct (IH (set_progress a b s c) g') as [->|(r & a' & b' & s' & g'' & -> & Hf'')]; [done|done|by left|].
    right. by exists r, a', b', s', g''.
  - right. by exists (-1), a, b, s, g'.
Qed.
End AnyBytes.

(** ** A whole connection *)

Section Feed.
Context {A : Allocator} {V : Type} {J : Json V} {G : Type} {P : RtcPort G}.

(** One readable event: [None] finds nothing to read, [Some k] finds [k + 1]
    bytes (or all that remain) of what the peer sends. Two turns are enough
    for one event: the head and the body. *)
Definition feed_step (this p now : Z) (e : option nat) (st : TcpConnection * G * list Z)
    : option (res (TcpConnection * G * list Z)) :=
  let '(c, g, rest) := st in
  if bool_decide (rest = [] ∧ is_Some e) then Some (Val (c, g, rest))
  else
    let ans := match e with None => Err EAGAIN | Some k => Ok (take (S k) rest) end in
    match receive ans now c with
    | Val (nread, c) =>
        if nread =? -1 then Some (Val (c, g, rest))
        else
          match process_query_buffer 2 this p c g with
          | Some (Val (_, c, g)) => Some (Val (c, g, drop (Z.to_nat nread) rest))
          | Some _ => Some Undef
          | None => None
          end
    | _ => Some Undef
    end.

Fixpoint feed (this p now : Z) (es : list (option nat)) (st : TcpConnection * G * list Z)
    : option (res (TcpConnection * G * list Z)) :=
  match es with
  | [] => Some (Val st)
  | e :: es =>
      match feed_step this p now e st with
      | Some (Val st) => feed this p now es st
      | r => r
      end
  end.

Context {AS : AllocatorSpec} {AT : AllocatorTotal}.
Context (this p now : Z) (c0 : TcpConnection) (g0 g1 : G) (ret : Z) (h : xhead_t) (body extra : list Z).

#[local] Notation n := (body_len h).
#[local] Notation stream := (xhead_bytes h ++ body ++ extra).

Hypothesis h_ok : xhead_ok h.
Hypothesis h_magic : magic_num h = XHEAD_MAGIC.
Hypothesis h_len : body_len h = Z.of_nat (length body).
Hypothesis n_pos : 1 ≤ n.
Hypothesis stream_ok : bytes_ok body ∧ bytes_ok extra.
Hypothesis stream_room : room (Z.of_nat (length stream) + n).
Hypothesis stream_short : Z.of_nat (length stream) < n + 65535.
Hypothesis c0_fresh : repr (querybuf c0) [] ∧ at_phase InHead n c0.
Hypothesis handled : dispatch this p c0 (log_id h) body g0 = (ret, g1) ∧ 0 ≤ ret.

Record feed_inv (c : TcpConnection) (g : G) (bs rest : list Z) : Prop := FeedInv {
  fi_stream : stream = bs ++ rest;
  fi_repr : repr (querybuf c) bs;
  fi_phase : at_phase (phase_of (Z.of_nat (length bs)) n) n c;
  fi_fd : fd_ c = fd_ c0;
  fi_sent : g = if Z.of_nat (length bs) <? XHEAD_SIZE + n then g0 else g1
}.

Lemma dispatch_fd c c' : fd_ c = fd_ c' → dispatch this p c = @dispatch V J G P this p c'.
Proof. intros E. unfold dispatch, process_push_. by rewrite E. Qed.

Lemma stream_bytes : bytes_ok stream.
Proof.
  destruct stream_ok. rewrite !bytes_ok_app. split_and!; [|done|done].
  apply xhead_bytes_ok. by destruct h_ok as (_ & (_ & ?) & _).
Qed.

Lemma stream_length : Z.of_nat (length stream) = 36 + n + Z.of_nat (length extra).
Proof. rewrite !length_app, (length_head h h_ok), h_len. lia. Qed.

Lemma n_int : n ≤ INT_MAX.
Proof. pose proof stream_length. sds_bounds. lia. Qed.

(** What a connection expects next is positive and fits the buffer. *)
Lemma expected_ok c bs rest g :
  feed_inv c g bs rest →
  0 < bytes_expected c ≤ INT_MAX ∧ room (Z.of_nat (length bs) + bytes_expected c).
Proof.
  intros [Hs _ Hph _ _]. pose proof n_int. pose proof stream_length as Hl.
  assert (length bs ≤ length stream)%nat by (rewrite Hs, length_app; lia).
  unfold phase_of in Hph. sds_bounds.
  destruct (Z.ltb_spec (Z.of_nat (length bs)) XHEAD_SIZE);
    [|destruct (Z.ltb_spec (Z.of_nat (length bs)) (XHEAD_SIZE + n))];
    destruct Hph as (_ & -> & _); unfold XHEAD_SIZE in *; lia.
Qed.

Lemma waiting c bs rest g :
  feed_inv c g bs rest → Z.of_nat (length bs) < bytes_expected c + bytes_processed c.
Proof.
  intros [Hs _ Hph _ _]. rewrite (at_phase_progress h _ _ Hph).
  assert (length bs ≤ length stream)%nat by (rewrite Hs, length_app; lia).
  unfold phase_of. destruct (Z.ltb_spec (Z.of_nat (length bs)) XHEAD_SIZE); [done|].
  destruct (Z.ltb_spec (Z.of_nat (length bs)) (XHEAD_SIZE + n)); lia.
Qed.

Lemma feed_quiet c g bs rest :
  feed_inv c g bs rest →
  ∃ c', feed_step this p now None (c, g, rest) = Some (Val (c', g, rest)) ∧ feed_inv c' g bs rest.
Proof.
  intros Hi. destruct (expected_ok _ _ _ _ Hi) as [He Hm]. pose proof Hi as [Hs Hr Hph Hfd Hg].
  unfold feed_step. rewrite bool_decide_eq_false_2 by (by intros [_ []%is_Some_None]).
  destruct (receive_again now c bs) as (q & -> & Hq); [done|lia|done|]. cbn [Z.eqb].
  set (c' := set_querybuf q (set_interaction now c)).
  assert (feed_inv c' g bs rest) as Hi'.
  { split; [done|done| |done|done]. by destruct (phase_of _ _). }
  change 2%nat with (S 1). rewrite (pqb_wait h h_ok _ _ _ c' g bs (phase_of (Z.of_nat (length bs)) n)).
  - change (Z.to_nat 0) with 0%nat. rewrite drop_0. eauto.
  - done.
  - apply Hi'.
  - by eapply waiting.
Qed.

Lemma feed_data c g bs rest k :
  feed_inv c g bs rest → rest ≠ [] →
  ∃ c' g' bs' rest', feed_step this p now (Some k) (c, g, rest) = Some (Val (c', g', rest')) ∧
    feed_inv c' g' bs' rest' ∧ (length bs < length bs')%nat.
Proof.
  intros Hi Hne. destruct (expected_ok _ _ _ _ Hi) as [He Hm]. pose proof Hi as [Hs Hr Hph Hfd Hg].
  unfold feed_step. rewrite bool_decide_eq_false_2 by (by intros [? _]).
  assert (bytes_ok (take (S k) rest) ∧ take (S k) rest ≠ []) as [Hok Hnn].
  { split; [|by destruct rest]. apply bytes_ok_take. pose proof stream_bytes as Hb.
    rewrite Hs in Hb. by apply bytes_ok_app in Hb as [_ ?]. }
  destruct (receive_spec (take (S k) rest) now c bs) as (q & -> & Hq); [done..|].
  set (d := take (Z.to_nat (bytes_expected c)) (take (S k) rest)) in *.
  assert (d = take (length d) rest) as Hd.
  { unfold d. by rewrite take_take, take_length_take. }
  assert (0 < length d)%nat as Hd0.
  { unfold d. destruct rest; [done|]. rewrite !length_take. simpl length. lia. }
  rewrite (proj2 (Z.eqb_neq _ (-1))) by lia. rewrite Nat2Z.id.
  set (c' := set_querybuf q (set_interaction now c)).
  assert (stream = (bs ++ d) ++ drop (length d) rest) as Hs'.
  { rewrite Hs, <- app_assoc. f_equal. rewrite Hd at 1. by rewrite take_drop. }
  assert (bs ++ d `prefix_of` stream) as Hpre by (by exists (drop (length d) rest)).
  assert (at_phase (phase_of (Z.of_nat (length bs)) n) n c') as Hph' by (by destruct (phase_of _ _)).
  assert (fd_ c' = fd_ c0) as Hfd' by done.
  destruct handled as [Hdis Hret]. rewrite <- (dispatch_fd c' c0 Hfd') in Hdis.
  assert (∀ c'' g'', process_query_buffer 2 this p c' g = Some (Val (0, c'', g'')) →
    feed_inv c'' g'' (bs ++ d) (drop (length d) rest) →
    ∃ c' g' bs' rest', Some (Val (c'', g'', drop (length d) rest)) = Some (Val (c', g', rest')) ∧
    feed_inv c' g' bs' rest' ∧ (length bs < length bs')%nat) as Hfin.
  { intros c'' g'' _ Hi''. eexists _, _, (bs ++ d), _. split_and!; [done|done|len_solve]. }
  assert (length (bs ++ d) ≤ length stream)%nat by (by apply prefix_length).
  destruct (Z.ltb_spec (Z.of_nat (length (bs ++ d))) (XHEAD_SIZE + n)) as [Hlt|Hge].
  - (* the request is still incomplete *)
    assert (Z.of_nat (length bs) < XHEAD_SIZE + n) as Hlt0 by len_solve.
    destruct (pqb_incomplete h body extra h_ok h_magic 1 this p c' g (bs ++ d)
      (phase_of (Z.of_nat (length bs)) n)) as (a & b & s & E & Hat); [done|done|done| | |done|].
    { by apply phase_incomplete. }
    { unfold phase_of. destruct (Z.ltb_spec (Z.of_nat (length bs)) XHEAD_SIZE); [done|]. len_solve. }
    rewrite E. apply (Hfin _ _ E). split; [done|done|done|done|].
    rewrite (proj2 (Z.ltb_lt _ (_ + n))) by done. by rewrite Hg, (proj2 (Z.ltb_lt _ (_ + n))) by done.
  - destruct (Z.ltb_spec (Z.of_nat (length bs)) (XHEAD_SIZE + n)) as [Hlt0|Hge0].
    + (* this chunk completes it *)
      assert (process_query_buffer 2 this p c' g = Some (Val (0, set_progress n 65535 STATE_BODY c', g1))) as E.
      { rewrite (pqb_complete h body extra h_ok h_magic h_len 0 this p c' g (bs ++ d)
          (phase_of (Z.of_nat (length bs)) n) ret g1); [|done|done|done| |lia|by rewrite Hg].
        - by rewrite (proj2 (Z.ltb_ge ret 0)).
        - by apply phase_incomplete. }
      rewrite E. apply (Hfin _ _ E). split; [done|done| |done|by rewrite (proj2 (Z.ltb_ge _ (_ + n)))].
      by rewrite phase_handled by lia.
    + (* it was handled before *)
      assert (phase_of (Z.of_nat (length bs)) n = Handled) as Eph.
      { apply phase_handled; lia. }
      rewrite Eph in Hph'.
      assert (process_query_buffer 2 this p c' g = Some (Val (0, c', g))) as E.
      { apply (pqb_wait h h_ok _ _ _ c' g (bs ++ d) Handled); [done|done|].
        destruct Hph' as (_ & -> & ->). lia. }
      rewrite E. apply (Hfin _ _ E). split; [done|done| |done|by rewrite Hg, !(proj2 (Z.ltb_ge _ (_ + n))) by lia].
      by rewrite phase_handled by lia.
Qed.

(** How many of the events find data. *)
Definition reads (es : list (option nat)) : nat := length (omap (λ e, e) es).

Lemma feed_spec es c g bs rest :
  feed_inv c g bs rest →
  ∃ c' g' bs' rest', feed this p now es (c, g, rest) = Some (Val (c', g', rest')) ∧
    feed_inv c' g' bs' rest' ∧ (length stream `min` (length bs + reads es) ≤ length bs')%nat.
Proof.
  revert c g bs rest. induction es as [|e es IH]; intros c g bs rest Hi.
  { exists c, g, bs, rest. split_and!; [done|done|]. change (reads []) with 0%nat. lia. }
  assert (∃ c1 g1' bs1 rest1, feed_step this p now e (c, g, rest) = Some (Val (c1, g1', rest1)) ∧
    feed_inv c1 g1' bs1 rest1 ∧ (length bs ≤ length bs1)%nat ∧
    (is_Some e → rest = [] ∨ (length bs < length bs1)%nat)) as (c1 & g1' & bs1 & rest1 & E & Hi1 & Hle & Hlt).
  { destruct e as [k|].
    - destruct (decide (rest = [])) as [->|Hne].
      + exists c, g, bs, []. unfold feed_step. rewrite bool_decide_eq_true_2 by eauto. by split_and!; [..|left].
      + destruct (feed_data c g bs rest k Hi Hne) as (c1 & g1' & bs1 & rest1 & E & Hi1 & Hlt).
        exists c1, g1', bs1, rest1. split_and!; [done|done|lia|by right].
    - destruct (feed_quiet c g bs rest Hi) as (c1 & E & Hi1).
      exists c1, g, bs, rest. split_and!; [done|done|lia|by intros []%is_Some_None]. }
  destruct (IH c1 g1' bs1 rest1 Hi1) as (c2 & g2 & bs2 & rest2 & E2 & Hi2 & Hm).
  exists c2, g2, bs2, rest2. cbn [feed]. rewrite E. split_and!; [done|done|].
  destruct e as [k|]; [|by change (reads (None :: es)) with (reads es); lia].
  change (reads (Some k :: es)) with (S (reads es)).
  destruct Hlt as [->|Hlt]; [done| |lia].
  pose proof (f_equal length (fi_stream _ _ _ _ Hi)) as Hs. rewrite app_nil_r in Hs. lia.
Qed.
End Feed.

(** ** A request that cannot end *)

Section Stuck.
Context {V : Type} {J : Json V} {G : Type} {P : RtcPort G}.

(** Once a request was handled and the peer has sent as many more bytes as
    the loop waits for, the turn that follows leaves the connection as it is. *)
Lemma stuck_turn fuel this p h body extra c g bs :
  xhead_ok h → magic_num h = XHEAD_MAGIC → body_len h = Z.of_nat (length body) →
  repr (querybuf c) bs → bs `prefix_of` xhead_bytes h ++ body ++ extra →
  at_phase Handled (body_len h) c → body_len h + 65535 ≤ Z.of_nat (length bs) →
  0 ≤ (dispatch this p c (log_id h) body g).1 →
  process_query_buffer (S fuel) this p c g =
    process_query_buffer fuel this p c (dispatch this p c (log_id h) body g).2.
Proof.
  intros Hh Hm Hn Hr Hp Hph Hl Hd. pose proof (n_range h Hh).
  rewrite (pqb_turn h Hh fuel this p c g bs Handled) by (done || (destruct Hph as (_ & -> & ->); lia)).
  destruct Hph as (H1 & H2 & H3).
  rewrite (turn_body h body extra Hh Hm Hn this p c g bs) by (done || unfold XHEAD_SIZE; lia).
  destruct (dispatch _ _ _ _ _ _) as [ret g'] eqn:E. simpl in Hd.
  rewrite (proj2 (Z.ltb_ge ret 0)) by done. f_equal. rewrite <- H1, <- H3. by destruct c.
Qed.
End Stuck.

(** ** Properties *)

Section Properties.
Context {A : Allocator} {AS : AllocatorSpec} {AT : AllocatorTotal}.
Context {V : Type} {J : Json V} {G : Type} {P : RtcPort G}.

(** C1: a well-formed request is handled exactly once, however the network
    cuts it into chunks. On a fresh connection whose peer sends a header with
    the magic number, a body of the announced length (at least one byte) and
    possibly more bytes (fewer than the 65535 the loop tolerates), any
    sequence of readable events runs without error; the request is handed to
    its handler when its last byte has arrived, with exactly the body and log
    identifier sent, and never again; every event that finds data makes
    progress, so as many events as bytes receive everything. *)
Theorem request_exactly_once this p now c0 g0 g1 ret h body extra es :
  let n := body_len h in
  let stream := xhead_bytes h ++ body ++ extra in
  xhead_ok h → magic_num h = XHEAD_MAGIC → n = Z.of_nat (length body) → 1 ≤ n →
  bytes_ok body ∧ bytes_ok extra → room (Z.of_nat (length stream) + n) →
  Z.of_nat (length stream) < n + 65535 →
  repr (querybuf c0) [] ∧ at_phase InHead n c0 →
  dispatch this p c0 (log_id h) body g0 = (ret, g1) ∧ 0 ≤ ret →
  ∃ c g received rest, feed this p now es (c0, g0, stream) = Some (Val (c, g, rest)) ∧
    stream = received ++ rest ∧ repr (querybuf c) received ∧
    g = (if Z.of_nat (length received) <? XHEAD_SIZE + n then g0 else g1) ∧
    (length stream `min` reads es ≤ length received)%nat.
Proof.
  intros n stream Hh Hm Hn H1 Hok Hroom Hs [Hr Hph] Hd.
  assert (feed_inv c0 g0 g1 h body extra c0 g0 [] stream) as Hi.
  { split; [done|done|done|done|]. cbn [length]. unfold XHEAD_SIZE.
    by rewrite (proj2 (Z.ltb_lt _ _)) by lia. }
  destruct (feed_spec this p now c0 g0 g1 ret h body extra Hh Hm Hn H1 Hok Hroom Hs Hd es c0 g0 [] stream Hi)
    as (c & g & bs & rest & E & Hi' & Hle).
  exists c, g, bs, rest. split_and!; [done|apply Hi'|apply Hi'|apply Hi'|done].
Qed.

(** C14: a header with a wrong magic number is refused: the buffered bytes
    reach no handler, nothing is sent and the connection does not advance. *)
Theorem bad_magic_rejected fuel this p c g bs magic :
  repr (querybuf c) bs → XHEAD_SIZE ≤ Z.of_nat (length bs) → at_phase InHead 0 c →
  xh_magic_num bs = Some magic → magic ≠ XHEAD_MAGIC →
  process_query_buffer (S fuel) this p c g = Some (Val (-1, c, g)).
Proof.
  intros Hr Hl (H1 & H2 & H3) Hm Hne. cbn [process_query_buffer]. unfold query_turn.
  destruct (repr_content _ _ Hr) as (-> & _). rewrite H1, H2, H3. unfold XHEAD_SIZE in *.
  change (u64 (36 + 0)) with 36. rewrite (proj2 (Z.leb_le 36 _)) by done. cbn [Z.eqb STATE_HEAD].
  repr_destruct Hr as tail. rewrite H. cbn [buf]. unfold xh_magic_num in *.
  rewrite field_prefix, Hm by lia. cbn [of_mem mbind_res]. by rewrite (proj2 (Z.eqb_neq magic _)).
Qed.

(** The loop does not end by itself once a request was handled and the
    peer has sent 65535 more bytes than the body: no number of turns brings it
    to its exit, and every turn hands the same request over again. *)
Theorem query_loop_diverges this p h body extra c bs :
  xhead_ok h → magic_num h = XHEAD_MAGIC → body_len h = Z.of_nat (length body) →
  repr (querybuf c) bs → bs `prefix_of` xhead_bytes h ++ body ++ extra →
  at_phase Handled (body_len h) c → body_len h + 65535 ≤ Z.of_nat (length bs) →
  (∀ g, 0 ≤ (dispatch this p c (log_id h) body g).1) →
  ∀ fuel g, process_query_buffer fuel this p c g = None.
Proof.
  intros Hh Hm Hn Hr Hp Hph Hl Hd fuel. induction fuel as [|fuel IH]; intros g.
  - cbn [process_query_buffer]. pose proof (n_range h Hh). destruct (repr_content _ _ Hr) as (-> & _).
    destruct Hph as (_ & -> & ->). rewrite u64_small by lia. by rewrite (proj2 (Z.leb_le _ _)).
  - by rewrite (stuck_turn fuel this p h body extra c g bs) by auto.
Qed.

(** The length announced by a peer is not bounded: with a [body_len] of
    [0xFFFFFFFF] the room computed for the read wraps around, and a peer that
    sends as many bytes as are already buffered makes the worker write outside
    the allocation. *)
Theorem announced_length_overflows now c bs avail :
  repr (querybuf c) bs → bytes_expected c = 0xFFFFFFFF →
  1 ≤ Z.of_nat (length bs) < 500000 → Z.of_nat (length bs) ≤ Z.of_nat (length avail) < 2 ^ 31 →
  receive (Ok avail) now c = Undef.
Proof.
  intros Hr He Hl Hlt. unfold receive. rewrite He. change (u64 (s32 4294967295)) with 18446744073709551615.
  destruct (repr_content _ _ Hr) as (Hs & _). rewrite Hs. unfold sdsMakeRoomFor. rewrite Hs.
  repr_destruct Hr as tail. rename H into Eq. rewrite Eq. unfold sdsavail. cbn [free]. unfold INT_MAX in *.
  rewrite (u64_small (Z.of_nat (length tail))) by lia. rewrite (proj2 (Z.leb_gt _ _)) by lia.
  set (s0 := Sds _ _ _).
  assert (u64 (Z.of_nat (length bs) + 18446744073709551615) = Z.of_nat (length bs) - 1) as ->.
  { unfold uwrap. replace (_ + 18446744073709551615) with (Z.of_nat (length bs) - 1 + 1 * 2 ^ 64) by lia.
    rewrite Z.mod_add by lia. apply Z.mod_small. lia. }
  unfold SDS_MAX_PREALLOC. rewrite (proj2 (Z.ltb_lt _ _)) by lia. rewrite (u64_small (_ * 2)) by lia.
  unfold SDSHDR_SIZE. rewrite (u64_small (8 + _ + 1)) by lia.
  destruct (zrealloc_block_total (sds_block s0) (8 + (Z.of_nat (length bs) - 1) * 2 + 1)) as [blk E]; [lia|].
  assert (bytes_ok (sds_block s0)) as Hs0.
  { apply sds_block_bytes, bytes_ok_app; split; [done|by apply Forall_cons_2]. }
  destruct (zrealloc_block_spec (sds_block s0) (8 + (Z.of_nat (length bs) - 1) * 2 + 1) blk) as (Hb & _);
    [lia|done|done|].
  rewrite E. cbn [of_alloc mbind_res not_null]. unfold sock_read_data, sys_read.
  set (d := take _ avail).
  assert (length d = length avail) as Hd by (unfold d; rewrite length_take; lia). rewrite Hd.
  rewrite (s32_small (Z.of_nat (length avail))) by (unfold INT_MIN, INT_MAX; lia).
  rewrite (proj2 (Z.eqb_neq (Z.of_nat (length avail)) 0)) by lia. cbn [buf].
  rewrite (s32_small (Z.of_nat (length bs))) by (unfold INT_MIN, INT_MAX; lia).
  unfold mwrite. rewrite (proj2 (Z.leb_gt _ (Z.of_nat (length (drop 8 blk))))) by (rewrite length_drop; lia).
  by rewrite andb_false_r.
Qed.
End Properties.

(** ** Witnesses

    A JSON library that reads every non-empty text as one push request, and a
    server that logs what it is sent. *)

#[global] Instance demo_json : Json (list Z) := {|
  json_parse text := if bool_decide (text = []) then None else Some text;
  json_member v k := Some (b#k);
  asInt v := Some 1;
  asUInt64 v := Some 42;
  asString v := Some v |}.

#[global] Instance demo_json_spec : JsonSpec (list Z).
Proof. split; intros v z [= <-]; unfold INT_MIN, INT_MAX; lia. Qed.

#[global] Instance demo_port : RtcPort (list RtcMsg) := λ m g, (0, g ++ [m]).

Definition demo_conn (q : sds) (expected processed state : Z) : TcpConnection :=
  Tcp 9 [] 0 0 0 q expected processed state 0 [] 0.

Definition demo_body : list Z := b#"{..}!".
Definition demo_message : RtcMsg := Msg 1 42 (b#"streamName") 1 1 77 (Some 1) (Some 2) [] 0 9.

Lemma request_exactly_once_witness :
  ∃ c g received rest,
    @feed demo_alloc _ demo_json _ demo_port 1 2 0 [Some 4%nat; None; Some 99%nat; Some 99%nat]
      (demo_conn (Sds 0 0 [0]) XHEAD_SIZE 0 STATE_HEAD, [], xhead_bytes demo_head ++ demo_body ++ [8; 8])
      = Some (Val (c, g, rest)) ∧
    xhead_bytes demo_head ++ demo_body ++ [8; 8] = received ++ rest ∧ repr (querybuf c) received ∧
    g = (if Z.of_nat (length received) <? 41 then [] else [demo_message]) ∧ (3 ≤ length received)%nat.
Proof.
  apply (@request_exactly_once demo_alloc demo_spec demo_total _ demo_json _ demo_port 1 2 0
    (demo_conn (Sds 0 0 [0]) XHEAD_SIZE 0 STATE_HEAD) [] [demo_message] 0 demo_head demo_body [8; 8]).
  - apply (bool_decide_unpack _). vm_compute. exact I.
  - reflexivity.
  - reflexivity.
  - vm_compute. congruence.
  - split; apply (bool_decide_unpack _); vm_compute; exact I.
  - vm_compute. congruence.
  - vm_compute. reflexivity.
  - split; [apply demo_empty|done].
  - split; [reflexivity|lia].
Defined.

Definition demo_bad_head : list Z := xhead_bytes (XHead 1 2 77 (replicate 16 0) 7 0 5).

Definition demo_bad_buffer : sds := Sds 36 0 (demo_bad_head ++ [0]).

Lemma demo_bad_repr : repr demo_bad_buffer demo_bad_head.
Proof.
  apply (repr_intro 36 0 demo_bad_head []); [done|done|..|done];
    apply (bool_decide_unpack _); vm_compute; exact I.
Qed.

Lemma bad_magic_rejected_witness :
  let c := demo_conn demo_bad_buffer XHEAD_SIZE 0 STATE_HEAD in
  @process_query_buffer _ demo_json _ demo_port 1 1 2 c [] = Some (Val (-1, c, [])).
Proof.
  apply (@bad_magic_rejected _ demo_json _ demo_port 0 1 2 _ [] demo_bad_head 7).
  - apply demo_bad_repr.
  - vm_compute. congruence.
  - repeat split.
  - vm_compute. reflexivity.
  - vm_compute. congruence.
Defined.

(** A request with a five-byte body followed by 65535 bytes. *)
Definition demo_flood : list Z := xhead_bytes demo_head ++ demo_body ++ replicate (Z.to_nat 65535) 7.

Lemma demo_flood_length : Z.of_nat (length demo_flood) = 65576.
Proof. unfold demo_flood. rewrite !length_app, length_replicate, !Nat2Z.inj_add, Z2Nat.id by lia.
  vm_compute. reflexivity. Qed.

Lemma demo_flood_repr : repr (Sds 65576 0 (demo_flood ++ [0])) demo_flood.
Proof.
  apply repr_intro; [by rewrite demo_flood_length|done| |by apply Forall_nil_2|done].
  unfold demo_flood. rewrite !bytes_ok_app.
  split_and!; [apply (bool_decide_unpack _); vm_compute; exact I..|]. apply Forall_replicate. done.
Qed.

Lemma query_loop_diverges_witness :
  @process_query_buffer _ demo_json _ demo_port 1000 1 2
    (demo_conn (Sds 65576 0 (demo_flood ++ [0])) 5 65535 STATE_BODY) [] = None.
Proof.
  apply (@query_loop_diverges _ demo_json _ demo_port 1 2 demo_head demo_body (replicate (Z.to_nat 65535) 7)
    _ demo_flood).
  - apply (bool_decide_unpack _). vm_compute. exact I.
  - reflexivity.
  - reflexivity.
  - apply demo_flood_repr.
  - exists []. rewrite app_nil_r. reflexivity.
  - repeat split.
  - rewrite demo_flood_length. vm_compute. congruence.
  - intros g. simpl. lia.
Defined.

Lemma announced_length_overflows_witness :
  @receive demo_alloc (Ok (replicate 40 1)) 0 (demo_conn demo_bad_buffer 0xFFFFFFFF XHEAD_SIZE STATE_BODY) = Undef.
Proof.
  apply (@announced_length_overflows demo_alloc demo_spec demo_total 0 _ demo_bad_head (replicate 40 1)).
  - apply demo_bad_repr.
  - reflexivity.
  - vm_compute. split; congruence.
  - vm_compute. split; congruence.
Defined.
