(* ===== verification/SignalingWorker.v ===== *)
(** * The signaling worker (server/signaling_worker.hpp, signaling_worker.cpp)

    A worker owns an event loop, the table of connections indexed by
    descriptor, the queue of accepted descriptors and the queue of answers of
    the RTC side. Its handlers run on the loop's thread; the answers of the
    kernel are inputs of the handlers. The pipe that wakes the worker is the
    list of the notifications it holds (writes of four bytes are atomic and
    the descriptors are blocking, so a notification is refused only by a
    closed pipe). *)

From S2P Require Import Prelude Zmalloc Sds SdsSpec LockFreeQueue Slice EventLoop Socket TcpConnection.
From S2P Require Import SignalingRequest.

Definition QUIT : Z := 0.
Definition NEW_CONN : Z := 1.
Definition RTC_MSG : Z := 2.

(** struct signaling_server_conf *)
Record signaling_server_conf := SignalingConf {
  host : list Z;
  port : Z;
  worker_num : Z;
  connection_timeout : Z
}.

(** The callbacks registered with the loop. *)
Definition CB_RECV_NOTIFY : Z := 1.
Definition CB_CONN_IO : Z := 2.
Definition CB_CONN_TIMER : Z := 3.

Record SignalingWorker (L : Type) := SW {
  worker_id_ : Z;
  _options : signaling_server_conf;
  event_loop_ : EventLoop L;
  pipe_watcher_ : option Z;
  notify_recv_fd_ : Z;
  notify_send_fd_ : Z;
  thread_ : bool;                    (* a thread was started *)
  q_conn_ : lfq Z;
  conns_ : list (option Z);          (* by descriptor: address of the connection *)
  _q_msg : list RtcMsg;
  tcp : gmap Z TcpConnection;        (* live [TcpConnection] objects *)
  pipe : option (list Z);            (* pending notifications, [None] when not open *)
  closed : list Z                    (* descriptors closed so far *)
}.
Arguments SW {_} _ _ _ _ _ _ _ _ _ _ _ _ _.
Arguments worker_id_ {_} _.
Arguments _options {_} _.
Arguments event_loop_ {_} _.
Arguments pipe_watcher_ {_} _.
Arguments notify_recv_fd_ {_} _.
Arguments notify_send_fd_ {_} _.
Arguments thread_ {_} _.
Arguments q_conn_ {_} _.
Arguments conns_ {_} _.
Arguments _q_msg {_} _.
Arguments tcp {_} _.
Arguments pipe {_} _.
Arguments closed {_} _.

Section Setters.
Context {L : Type}.
Implicit Types w : SignalingWorker L.

(** The connections and what the loop does for them. *)
Definition with_conns el conns t cl w : SignalingWorker L :=
  SW (worker_id_ w) (_options w) el (pipe_watcher_ w) (notify_recv_fd_ w) (notify_send_fd_ w) (thread_ w)
    (q_conn_ w) conns (_q_msg w) t (pipe w) cl.

Definition set_conn (p : Z) (c : TcpConnection) w : SignalingWorker L :=
  with_conns (event_loop_ w) (conns_ w) (<[p:=c]> (tcp w)) (closed w) w.

Definition set_loop el w : SignalingWorker L := with_conns el (conns_ w) (tcp w) (closed w) w.

Definition set_pipe watcher rfd sfd ns w : SignalingWorker L :=
  SW (worker_id_ w) (_options w) (event_loop_ w) watcher rfd sfd (thread_ w)
    (q_conn_ w) (conns_ w) (_q_msg w) (tcp w) ns (closed w).

Definition set_queues q ms ns w : SignalingWorker L :=
  SW (worker_id_ w) (_options w) (event_loop_ w) (pipe_watcher_ w) (notify_recv_fd_ w) (notify_send_fd_ w)
    (thread_ w) q (conns_ w) ms (tcp w) ns (closed w).

Definition set_thread b w : SignalingWorker L :=
  SW (worker_id_ w) (_options w) (event_loop_ w) (pipe_watcher_ w) (notify_recv_fd_ w) (notify_send_fd_ w)
    b (q_conn_ w) (conns_ w) (_q_msg w) (tcp w) (pipe w) (closed w).
End Setters.

(** ** Life cycle and notifications *)

Section LifeCycle.
Context {L : Type} {E : LibEv L}.
Implicit Types w : SignalingWorker L.

Definition SignalingWorker_new (this worker_id : Z) (options : signaling_server_conf) (q_node : Z) : SignalingWorker L :=
  SW worker_id options (event_loop_new this) None (-1) (-1) false (lfq_new 0 q_node) [] [] ∅ None [].

(** [pipe] answered two descriptors or failed. *)
Definition init (this : Z) (ans : sys (Z * Z)) w : res (Z * SignalingWorker L) :=
  match ans with
  | Err _ => Val (-1, w)
  | Ok (rfd, sfd) =>
      let '(id, el) := creat_io_event CB_RECV_NOTIFY this (event_loop_ w) in
      let* el := start_io_event id rfd READ el in
      Val (0, set_pipe (Some id) rfd sfd (Some []) (set_loop el w))
  end.

Definition start w : bool * SignalingWorker L :=
  if thread_ w then (false, w) else (true, set_thread true w).

Definition notify (msg : Z) w : Z * SignalingWorker L :=
  match pipe w with
  | None => (-1, w)
  | Some ns => (0, set_queues (q_conn_ w) (_q_msg w) (Some (ns ++ [msg])) w)
  end.

Definition stop w : SignalingWorker L := (notify QUIT w).2.

Definition notify_new_conn (fd : Z) w : res (Z * SignalingWorker L) :=
  let* q := of_mem (produce fd (q_conn_ w)) in
  Val (notify NEW_CONN (set_queues q (_q_msg w) (pipe w) w)).

Definition push_msg (msg : RtcMsg) w : SignalingWorker L :=
  set_queues (q_conn_ w) (_q_msg w ++ [msg]) (pipe w) w.

Definition pop_msg w : option RtcMsg * SignalingWorker L :=
  match _q_msg w with
  | [] => (None, w)
  | m :: ms => (Some m, set_queues (q_conn_ w) ms (pipe w) w)
  end.

Definition send_rtc_msg (msg : RtcMsg) w : Z * SignalingWorker L := notify RTC_MSG (push_msg msg w).

Definition _stop w : res (SignalingWorker L) :=
  if negb (thread_ w) then Val w
  else
    let* pw := of_mem (pipe_watcher_ w) in
    let* el := delete_io_event pw (event_loop_ w) in
    let el := EventLoop.stop el in
    Val (with_conns el (conns_ w) (tcp w) (closed w ++ [notify_recv_fd_ w; notify_send_fd_ w])
           (set_pipe (pipe_watcher_ w) (notify_recv_fd_ w) (notify_send_fd_ w) None w)).
End LifeCycle.

(** ** Connections *)

Section Connections.
Context {L : Type} {E : LibEv L} {A : Allocator}.
Implicit Types w : SignalingWorker L.

(** [conns_[fd] = p]; the index operator does not check its bound. *)
Definition set_slot (fd : Z) (p : option Z) (conns : list (option Z)) : res (list (option Z)) :=
  if (0 <=? fd) && (fd <? Z.of_nat (length conns)) then Val (<[Z.to_nat fd := p]> conns) else Undef.

(** [conns_.resize(n, nullptr)] *)
Definition resize (n : Z) (conns : list (option Z)) : list (option Z) :=
  take (Z.to_nat n) conns ++ replicate (Z.to_nat n - length conns) None.

(** The peer's address and the time of the loop are inputs; the results of
    the two socket options are ignored by the code. *)
Definition new_conn (this : Z) (peer : sys sockaddr_in) (now : Z) (fd : Z) w : res (SignalingWorker L) :=
  if fd <? 0 then Val w
  else
    let* c := not_null (TcpConnection_new fd) in
    let p := fresh (dom (tcp w)) in
    let '(_, h, pt) := sock_peer_to_str peer (host_ c) (port_ c) in
    let '(io, el) := creat_io_event CB_CONN_IO this (event_loop_ w) in
    let* el := start_io_event io fd READ el in
    let '(tm, el) := creat_timer CB_CONN_TIMER p true el in
    let* el := start_timer tm 100000 el in
    let c := Tcp (fd_ c) h pt io tm (querybuf c) (bytes_expected c) (bytes_processed c) (current_state c)
               now (reply_list c) (cur_resp_pos c) in
    let* conns := (if Z.of_nat (length (conns_ w)) <=? fd then
                     if fd * 2 <=? INT_MAX then Val (resize (fd * 2) (conns_ w)) else Undef
                   else Val (conns_ w)) in
    let* conns := set_slot fd (Some p) conns in
    Val (with_conns el conns (<[p:=c]> (tcp w)) (closed w) w).

Definition close_conn_ (p : Z) w : res (SignalingWorker L) :=
  let* c := of_mem (tcp w !! p) in
  let cl := closed w ++ [fd_ c] in
  let* el := delete_timer (timer_watcher_ c) (event_loop_ w) in
  let* el := delete_io_event (io_watcher_ c) el in
  let* conns := set_slot (fd_ c) None (conns_ w) in
  Val (with_conns el conns (delete p (tcp w)) cl w).

(** The connection a descriptor stands for, if any. *)
Definition lookup_conn (fd : Z) w : option Z :=
  if (0 <=? fd) && (fd <? Z.of_nat (length (conns_ w))) then mjoin (conns_ w !! Z.to_nat fd) else None.

Definition process_timeout (now p : Z) w : res (SignalingWorker L) :=
  let* c := of_mem (tcp w !! p) in
  if u64 (connection_timeout (_options w)) <=? u64 (now - last_interaction_time c)
  then close_conn_ p w else Val w.

(** [conn_timer_cb]: the data of the timer is the connection. *)
Definition conn_timer_cb (now p : Z) w : res (SignalingWorker L) := process_timeout now p w.

Definition _add_reply (p : Z) (reply : slice) w : res (SignalingWorker L) :=
  let* c := of_mem (tcp w !! p) in
  let* el := start_io_event (io_watcher_ c) (fd_ c) WRITE (event_loop_ w) in
  Val (set_conn p (set_replies (reply_list c ++ [reply]) (cur_resp_pos c) c) (set_loop el w)).
End Connections.

(** ** Writing replies *)

(** How the [while] loop of [_write_reply] ends: the list is empty, a write
    failed, or it still runs after the kernel's answers given. *)
Inductive write_end := WDone | WFail | WSpin.

(** [write(fd, buf, len)] with [room] bytes free in the socket's buffer. *)
Definition sys_write (ans : sys Z) (len : Z) : sys Z :=
  match ans with Ok room => Ok (Z.min room len) | Err e => Err e end.

(** [sent] collects the bytes the kernel took. A finished reply is freed. *)
Fixpoint write_loop (answers : list (sys Z)) (replies : list slice) (pos : Z) (sent : list Z)
    : res (write_end * list slice * Z * list Z) :=
  match replies with
  | [] => Val (WDone, [], pos, sent)
  | reply :: rest =>
      match answers with
      | [] => Val (WSpin, replies, pos, sent)
      | a :: answers =>
          let len := u64 (Slice.size reply - pos) in
          let* d := of_mem (mread (block reply) (data_ reply + pos) len) in
          let nwritten := sock_write_data (sys_write a len) in
          if nwritten =? -1 then Val (WFail, replies, pos, sent)
          else if nwritten =? 0 then write_loop answers replies pos sent
          else
            let sent := sent ++ take (Z.to_nat nwritten) d in
            if Slice.size reply <=? u64 (nwritten + pos)
            then write_loop answers rest 0 sent
            else write_loop answers replies (u64 (pos + nwritten)) sent
      end
  end.

Section Replies.
Context {L : Type} {E : LibEv L} {A : Allocator}.
Implicit Types w : SignalingWorker L.

Definition _write_reply (answers : list (sys Z)) (now fd : Z) w : res (write_end * list Z * SignalingWorker L) :=
  if fd <=? 0 then Val (WFail, [], w)
  else
    match lookup_conn fd w with
    | None => Val (WFail, [], w)
    | Some p =>
        let* c := of_mem (tcp w !! p) in
        let* '(e, replies, pos, sent) := write_loop answers (reply_list c) (cur_resp_pos c) [] in
        let c := set_replies replies pos c in
        match e with
        | WDone =>
            let c := set_interaction now c in
            let* el := stop_io_event (io_watcher_ c) (fd_ c) WRITE (event_loop_ w) in
            Val (WDone, sent, set_conn p c (set_loop el w))
        | _ => Val (e, sent, set_conn p c w)
        end
    end.

(** ** Answers of the RTC side *)

Inductive jvalue := JInt (z : Z) | JStr (s : list Z).

(** [Json::writeString] of an object with the members assigned to it. *)
Context (json_write : list (string * jvalue) → list Z).

Definition response_members (msg : RtcMsg) : list (string * jvalue) :=
  if negb (err_no msg =? 0)
  then [("err_no"%string, JInt (err_no msg)); ("err_msg"%string, JStr (b#"process error"));
        ("offer"%string, JStr [])]
  else [("err_no"%string, JInt (err_no msg)); ("err_msg"%string, JStr (b#"process success"));
        ("offer"%string, JStr (sdp msg))].

(** The characters of [text.c_str()]: up to the first NUL. *)
Definition c_str (text : list Z) : list Z := take (scan_fwd (λ c, negb (c =? 0)) text) text.

(** [snprintf(b + off, n, "%s", text)] *)
Definition snprintf_s (b : list Z) (off n : Z) (text : list Z) : res (list Z) :=
  of_mem (mwrite b off (take (Z.to_nat (n - 1)) text ++ [0])).

(** The response: the request's header with the new body length, and the
    body. [null] when there is no memory. *)
Definition build_response (msg : RtcMsg) (c : TcpConnection) : res slice :=
  let* b := of_alloc (zmalloc_block (XHEAD_SIZE + MAX_RES_BUF)) in
  let* hd := of_mem (mread (buf (querybuf c)) 0 XHEAD_SIZE) in
  let* b := of_mem (mwrite b 0 hd) in
  let json_data := json_write (response_members msg) in
  let n := u32 (Z.of_nat (length json_data)) in
  let* b := of_mem (mwrite b 32 (le_encode 4 n)) in
  let* b := snprintf_s b XHEAD_SIZE MAX_RES_BUF (c_str json_data) in
  Val (slice_new b (u32 (XHEAD_SIZE + n))).

Definition _response_server_offer (msg : RtcMsg) w : res (SignalingWorker L) :=
  match conn msg with
  | None => Val w
  | Some p =>
      if (fd msg <? 0) || (Z.of_nat (length (conns_ w)) <=? fd msg) then Val w
      else if negb (bool_decide (lookup_conn (fd msg) w = Some p)) then Val w
      else
        let* c := of_mem (tcp w !! p) in
        match build_response msg c with
        | Null => Val w
        | r => let* reply := r in _add_reply p reply w
        end
  end.

Definition _process_rtc_msg w : res (SignalingWorker L) :=
  match pop_msg w with
  | (None, w) => Val w
  | (Some msg, w) => if cmdno msg =? CMDNO_PUSH then _response_server_offer msg w else Val w
  end.

(** ** Dispatch of notifications *)

Definition process_notify (this : Z) (peer : sys sockaddr_in) (now msg : Z) w : res (SignalingWorker L) :=
  if msg =? QUIT then _stop w
  else if msg =? NEW_CONN then
    let* '(r, q) := of_mem (consume (q_conn_ w)) in
    let w := set_queues q (_q_msg w) (pipe w) w in
    match r with Some fd => new_conn this peer now fd w | None => Val w end
  else if msg =? RTC_MSG then _process_rtc_msg w
  else Val w.

(** The callback of the pipe: one notification is read; a failed read is
    logged and ignored. *)
Definition signaling_worker_recv_notify (this : Z) (peer : sys sockaddr_in) (now : Z) w : res (SignalingWorker L) :=
  match pipe w with
  | Some (msg :: ns) => process_notify this peer now msg (set_queues (q_conn_ w) (_q_msg w) (Some ns) w)
  | _ => Val w
  end.

(** The thread the caller of [join] waits for, while its connections are
    idle: it serves the notifications until the loop was stopped, which closes
    the pipe. [None] when it waits for ever. *)
Fixpoint serve (n : nat) (this : Z) (peer : sys sockaddr_in) (now : Z) w : option (res (SignalingWorker L)) :=
  match pipe w with
  | None => Some (Val w)
  | Some [] => None
  | Some _ =>
      match n with
      | O => None
      | S n =>
          match signaling_worker_recv_notify this peer now w with
          | Val w => serve n this peer now w
          | r => Some r
          end
      end
  end.

Definition join (this : Z) (peer : sys sockaddr_in) (now : Z) w : option (res (SignalingWorker L)) :=
  if thread_ w then serve (length (default [] (pipe w))) this peer now w else Some (Val w).
End Replies.

(** ** Reading requests *)

Section Reading.
Context {L : Type} {E : LibEv L} {A : Allocator}.
Context {V : Type} {J : Json V} {G : Type} {P : RtcPort G}.
Implicit Types w : SignalingWorker L.

(** [None] when the parsing loop has not ended after [fuel] turns. *)
Definition read_query (fuel : nat) (this : Z) (ans : sys (list Z)) (now fd : Z) w (g : G)
    : option (res (SignalingWorker L * G)) :=
  match lookup_conn fd w with
  | None => Some (Val (w, g))
  | Some p =>
      match tcp w !! p with
      | None => Some Undef
      | Some c =>
          match receive ans now c with
          | Val (nread, c) =>
              let w := set_conn p c w in
              if nread =? -1 then Some (let* w := close_conn_ p w in Val (w, g))
              else
                match process_query_buffer fuel this p c g with
                | Some (Val (_, c, g)) => Some (Val (set_conn p c w, g))
                | Some Null => Some Null
                | Some Aborted => Some Aborted
                | Some Undef => Some Undef
                | None => None
                end
          | Null => Some Null
          | Aborted => Some Aborted
          | Undef => Some Undef
          end
      end
  end.

(** The callback of a connection: reading first, then writing; a connection
    closed by the read is not found by the write. [None] when the callback has
    not returned: the parsing loop has not ended after [fuel] turns, or the
    writing loop still runs after the kernel's answers given. *)
Definition conn_io_cb (fuel : nat) (this : Z) (ans : sys (list Z)) (answers : list (sys Z)) (now fd events : Z) w (g : G)
    : option (res (SignalingWorker L * G)) :=
  match
    if negb (Z.land events READ =? 0) then read_query fuel this ans now fd w g else Some (Val (w, g))
  with
  | Some (Val (w, g)) =>
      if negb (Z.land events WRITE =? 0) then
        match _write_reply answers now fd w with
        | Val (WSpin, _, _) => None
        | r => Some (let* '(_, _, w) := r in Val (w, g))
        end
      else Some (Val (w, g))
  | r => r
  end.
End Reading.

(** ** Destruction *)

Section Destruction.
Context {L : Type} {E : LibEv L}.

Fixpoint close_all (ps : list (option Z)) (w : SignalingWorker L) : res (SignalingWorker L) :=
  match ps with
  | [] => Val w
  | Some p :: ps => let* w := close_conn_ p w in close_all ps w
  | None :: ps => close_all ps w
  end.

(** The destructor closes every connection of the table. *)
Definition SignalingWorker_delete (w : SignalingWorker L) : res (SignalingWorker L) :=
  let* w := close_all (conns_ w) w in
  Val (set_thread false (with_conns (event_loop_ w) [] (tcp w) (closed w) w)).
End Destruction.
