(* ===== verification/SignalingInv.v ===== *)
(** * Invariant of the signaling worker

    The table of connections, the connection objects and the event loop
    agree: a descriptor's slot points to the live object of that descriptor,
    and the loop polls every connection for reading, and for writing exactly
    while replies are pending. Every handler of [SignalingWorker] keeps the
    invariant and runs without undefined behaviour. *)

From Stdlib Require Import SpecFloat.
From S2P Require Import Prelude Zmalloc Sds SdsSpec LockFreeQueue Slice EventLoop Socket TcpConnection.
From S2P Require Import SignalingRequest SignalingWorker.

(** A reply lies inside its block and is not empty. *)
Definition reply_ok (r : slice) : Prop := (∃ bs, holds r bs) ∧ 0 < size_ r < 2 ^ 31.

(** What the loop polls for a connection. *)
Definition conn_interest (c : TcpConnection) : Z * Z :=
  (fd_ c, match reply_list c with [] => READ | _ => Z.lor READ WRITE end).

Record conn_ok {L} `{LibEv L} (el : EventLoop L) (c : TcpConnection) : Prop := ConnOk {
  co_fd : 0 < fd_ c;
  co_poll : polled (loop_ el) (io_watcher_ c) = Some (conn_interest c);
  co_timer : is_Some (armed (loop_ el) (timer_watcher_ c));
  co_buf : ∃ bs, repr (querybuf c) bs ∧ frame_ok c bs;
  co_replies : Forall reply_ok (reply_list c);
  co_pos : match reply_list c with [] => cur_resp_pos c = 0 | r :: _ => 0 ≤ cur_resp_pos c < size_ r end
}.

Record sw_inv {L} `{LibEv L} (w : SignalingWorker L) : Prop := SWInv {
  sw_loop : el_inv (event_loop_ w);
  sw_slots i p : conns_ w !! i = Some (Some p) → ∃ c, tcp w !! p = Some c ∧ fd_ c = Z.of_nat i;
  sw_objects p c : tcp w !! p = Some c →
    conn_ok (event_loop_ w) c ∧ conns_ w !! Z.to_nat (fd_ c) = Some (Some p);
  sw_distinct p q c d : tcp w !! p = Some c → tcp w !! q = Some d → p ≠ q →
    io_watcher_ c ≠ io_watcher_ d ∧ timer_watcher_ c ≠ timer_watcher_ d;
  sw_pipe ns : pipe w = Some ns → ∃ pw, pipe_watcher_ w = Some pw ∧
    is_Some (polled (loop_ (event_loop_ w)) pw) ∧ ∀ p c, tcp w !! p = Some c → io_watcher_ c ≠ pw;
  sw_queue : ∃ fds, queue_of (q_conn_ w) fds
}.

Section Inv.
Context {L : Type} {E : LibEv L} {ES : LibEvSpec L}.
Implicit Types w : SignalingWorker L.

Lemma polled_live (el : EventLoop L) id : el_inv el → is_Some (polled (loop_ el) id) → is_Some (io_watchers el !! id).
Proof.
  intros Hi Hp. destruct (io_watchers el !! id) eqn:Hw; [done|].
  by rewrite (inv_io_none el Hi id Hw), is_Some_alt in Hp.
Qed.

Lemma armed_live (el : EventLoop L) id : el_inv el → is_Some (armed (loop_ el) id) → is_Some (time_watchers el !! id).
Proof.
  intros Hi Hp. destruct (time_watchers el !! id) eqn:Hw; [done|].
  by rewrite (inv_timer_none el Hi id Hw), is_Some_alt in Hp.
Qed.

(** The loop treats a connection as before when its two watchers are
    untouched. *)
Lemma conn_ok_frame el el' c :
  conn_ok el c → polled (loop_ el') (io_watcher_ c) = polled (loop_ el) (io_watcher_ c) →
  armed (loop_ el') (timer_watcher_ c) = armed (loop_ el) (timer_watcher_ c) → conn_ok (L := L) el' c.
Proof. intros [] Hp Ha. split; rewrite ?Hp, ?Ha; done. Qed.

(** One connection changes, with its own watcher at most. *)
Lemma update_conn_inv w p c c' el' :
  sw_inv w → tcp w !! p = Some c →
  fd_ c' = fd_ c → io_watcher_ c' = io_watcher_ c → timer_watcher_ c' = timer_watcher_ c →
  el_inv el' → io_frame (io_watcher_ c) (event_loop_ w) el' → conn_ok el' c' →
  sw_inv (set_conn p c' (set_loop el' w)).
Proof.
  intros [H1 H2 H3 H4 H5 H6] Hc Ef Ei Et Hi Hf Hok. split; simpl.
  - done.
  - intros i q Hq. destruct (H2 i q Hq) as (d & Hd & Hfd).
    destruct (decide (q = p)) as [->|]; [|by exists d; rewrite lookup_insert_ne].
    exists c'. rewrite lookup_insert_eq. split; [done|]. congruence.
  - intros q d Hd. apply lookup_insert_Some in Hd as [[<- <-]|[Hne Hd]].
    + rewrite Ef. split; [done|]. by apply H3.
    + destruct (H3 q d Hd) as [Hdok Hslot]. split; [|done].
      destruct (H4 q p d c Hd Hc) as [Hio _]; [done|].
      eapply conn_ok_frame; [done|by apply (fr_polled _ _ _ Hf)|apply (fr_armed _ _ _ Hf)].
  - assert (∀ q d, q ≠ p → tcp w !! q = Some d →
      io_watcher_ c' ≠ io_watcher_ d ∧ timer_watcher_ c' ≠ timer_watcher_ d) as Hd.
    { intros q d Hq Hqd. rewrite Ei, Et. by apply (H4 p q). }
    intros q r d e Hq Hr Hne.
    apply lookup_insert_Some in Hq as [[<- <-]|[? Hq]], Hr as [[<- <-]|[? Hr]]; [done|by apply (Hd r)| |by apply (H4 q r)].
    destruct (Hd q d) as [? ?]; [done|done|]. by split; apply not_eq_sym.
  - intros ns Hns. destruct (H5 ns Hns) as (pw & -> & Hpol & Hne). exists pw. split_and!; [done| |].
    + rewrite (fr_polled _ _ _ Hf); [done|]. apply not_eq_sym. by apply (Hne p c).
    + intros q d Hd. apply lookup_insert_Some in Hd as [[<- <-]|[_ Hd]]; [rewrite Ei; by apply (Hne p)|by apply (Hne q)].
  - done.
Qed.

(** The same when the loop does not change. *)
Lemma update_conn_inv' w p c c' :
  sw_inv w → tcp w !! p = Some c →
  fd_ c' = fd_ c → io_watcher_ c' = io_watcher_ c → timer_watcher_ c' = timer_watcher_ c →
  conn_ok (event_loop_ w) c' → sw_inv (set_conn p c' w).
Proof.
  intros Hi Hc Ef Ei Et Hok.
  assert (set_conn p c' w = set_conn p c' (set_loop (event_loop_ w) w)) as -> by (by destruct w).
  eapply update_conn_inv; [done|done|done|done|done|apply Hi|apply io_frame_refl|done].
Qed.

(** Changes outside the connections. *)
Lemma set_queues_inv w q ms ns fds :
  sw_inv w → queue_of q fds → (is_Some ns → is_Some (pipe w)) → sw_inv (set_queues q ms ns w).
Proof.
  intros [H1 H2 H3 H4 H5 H6] Hq Hp. split; simpl; try done; [|eauto].
  intros ns' ->. destruct Hp as [ns0 Hns]; [done|]. by apply (H5 ns0).
Qed.

Lemma lookup_conn_inv w fd p :
  sw_inv w → lookup_conn fd w = Some p → ∃ c, tcp w !! p = Some c ∧ fd_ c = fd.
Proof.
  intros Hi. unfold lookup_conn. destruct (_ && _)%bool eqn:G; [|done]. reflect_Z.
  destruct (conns_ w !! Z.to_nat fd) as [[q|]|] eqn:Hs; intros [= <-].
  destruct (sw_slots w Hi _ _ Hs) as (c & Hc & Hfd). exists c. split; [done|]. lia.
Qed.

Lemma lookup_conn_live w p c :
  sw_inv w → tcp w !! p = Some c → lookup_conn (fd_ c) w = Some p.
Proof.
  intros Hi Hc. destruct (sw_objects w Hi p c Hc) as [Hok Hs]. pose proof (co_fd _ _ Hok).
  unfold lookup_conn. pose proof (lookup_lt_Some _ _ _ Hs).
  rewrite (proj2 (Z.leb_le 0 (fd_ c))), (proj2 (Z.ltb_lt (fd_ c) _)) by lia. simpl. by rewrite Hs.
Qed.
End Inv.

(** ** Closing *)

Section Close.
Context {L : Type} {E : LibEv L} {ES : LibEvSpec L}.
Implicit Types w : SignalingWorker L.

(** Both watchers of the connection go, nothing else in the loop changes. *)
Lemma delete_watchers (el : EventLoop L) io tm :
  el_inv el → is_Some (polled (loop_ el) io) → is_Some (armed (loop_ el) tm) →
  ∃ el1 el2, delete_timer tm el = Val el1 ∧ delete_io_event io el1 = Val el2 ∧ el_inv el2 ∧
    polled (loop_ el2) io = None ∧ armed (loop_ el2) tm = None ∧
    (∀ j, j ≠ io → polled (loop_ el2) j = polled (loop_ el) j) ∧
    (∀ j, j ≠ tm → armed (loop_ el2) j = armed (loop_ el) j).
Proof.
  intros Hi Hio Htm.
  destruct (delete_timer_spec el tm Hi) as (el1 & E1 & Hi1 & Hn & _ & Ha & Hp & Hw); [by apply armed_live|].
  destruct (delete_io_event_spec el1 io Hi1) as (el2 & E2 & Hi2 & _ & Hn2 & Hp2 & _ & Ha2).
  { rewrite Hw. by apply polled_live. }
  exists el1, el2. split_and!; try done.
  - by rewrite Ha2.
  - intros j Hj. by rewrite Hp2, Hp.
  - intros j Hj. by rewrite Ha2, Ha.
Qed.

Lemma close_conn_spec w p c :
  sw_inv w → tcp w !! p = Some c →
  ∃ w', close_conn_ p w = Val w' ∧ sw_inv w' ∧ tcp w' = delete p (tcp w) ∧
    closed w' = closed w ++ [fd_ c] ∧ conns_ w' = <[Z.to_nat (fd_ c) := None]> (conns_ w) ∧
    polled (loop_ (event_loop_ w')) (io_watcher_ c) = None ∧
    armed (loop_ (event_loop_ w')) (timer_watcher_ c) = None.
Proof.
  intros Hi Hc. pose proof Hi as [H1 H2 H3 H4 H5 H6]. destruct (H3 p c Hc) as [Hok Hslot].
  unfold close_conn_. rewrite Hc. cbn [of_mem mbind_res].
  destruct (delete_watchers (event_loop_ w) (io_watcher_ c) (timer_watcher_ c))
    as (el1 & el2 & -> & E2 & Hi2 & Hn & Hnt & Hp & Ha); [done|by rewrite (co_poll _ _ Hok)|apply Hok|].
  cbn [mbind_res]. rewrite E2. cbn [mbind_res]. pose proof (co_fd _ _ Hok) as Hfd. pose proof (lookup_lt_Some _ _ _ Hslot).
  unfold set_slot. rewrite (proj2 (Z.leb_le 0 (fd_ c))), (proj2 (Z.ltb_lt (fd_ c) _)) by lia.
  cbn [andb mbind_res]. eexists. split; [done|]. split; [|done].
  split; simpl; try done.
  - intros i q Hq. apply list_lookup_insert_Some in Hq as [(_ & [=] & _)|[Hne Hq]].
    destruct (H2 i q Hq) as (d & Hd & Hfd'). exists d. rewrite lookup_delete_ne; [done|].
    intros ->. simplify_eq. lia.
  - intros q d Hd. apply lookup_delete_Some in Hd as [Hne Hd]. destruct (H3 q d Hd) as [Hokd Hsd].
    destruct (H4 p q c d Hc Hd Hne) as [Hio Htm]. split.
    + eapply conn_ok_frame; [done|by apply Hp, not_eq_sym|by apply Ha, not_eq_sym].
    + rewrite list_lookup_insert_ne; [done|]. intros Eq. rewrite Eq in Hslot. congruence.
  - intros q r d e Hd He. apply lookup_delete_Some in Hd as [_ Hd], He as [_ He]. by apply (H4 q r).
  - intros ns Hns. destruct (H5 ns Hns) as (pw & -> & Hpol & Hne). exists pw. split_and!; [done| |].
    + rewrite Hp; [done|]. apply not_eq_sym. by apply (Hne p).
    + intros q d Hd. apply lookup_delete_Some in Hd as [_ Hd]. by apply (Hne q).
Qed.

Lemma process_timeout_spec w p c now :
  sw_inv w → tcp w !! p = Some c →
  ∃ w', process_timeout now p w = Val w' ∧ sw_inv w' ∧
    (if u64 (connection_timeout (_options w)) <=? u64 (now - last_interaction_time c)
     then tcp w' = delete p (tcp w) ∧ closed w' = closed w ++ [fd_ c] ∧ lookup_conn (fd_ c) w' = None
     else w' = w).
Proof.
  intros Hi Hc. unfold process_timeout. rewrite Hc. cbn [of_mem mbind_res]. case_match; [|eauto].
  destruct (close_conn_spec w p c Hi Hc) as (w' & -> & Hi' & Ht & Hcl & Hcs & _). exists w'.
  split_and!; [done|done|done|done|]. unfold lookup_conn. case_match; [|done].
  rewrite Hcs. destruct (sw_objects w Hi p c Hc) as [_ Hslot]. pose proof (lookup_lt_Some _ _ _ Hslot).
  by rewrite list_lookup_insert_eq.
Qed.
End Close.

(** ** Opening *)

Section Open.
Context {L : Type} {E : LibEv L} {ES : LibEvSpec L}.
Context {A : Allocator} {AS : AllocatorSpec} {AT : AllocatorTotal}.
Implicit Types w : SignalingWorker L.

Lemma resize_lookup n conns i p :
  Z.of_nat (length conns) ≤ n → resize n conns !! i = Some (Some p) ↔ conns !! i = Some (Some p).
Proof.
  intros Hn. unfold resize. rewrite take_ge by lia.
  rewrite lookup_app_Some, lookup_replicate. naive_solver.
Qed.

(** The slot table of [new_conn]: grown if needed, the slot of [fd] set. *)
Lemma slots_spec conns fd p :
  0 < fd → fd * 2 ≤ INT_MAX →
  ∃ conns1 conns2,
    (if Z.of_nat (length conns) <=? fd then if fd * 2 <=? INT_MAX then Val (resize (fd * 2) conns) else Undef
     else Val conns) = Val conns1 ∧
    set_slot fd (Some p) conns1 = Val conns2 ∧ conns2 !! Z.to_nat fd = Some (Some p) ∧
    ∀ i q, i ≠ Z.to_nat fd → conns2 !! i = Some (Some q) ↔ conns !! i = Some (Some q).
Proof.
  intros Hfd Hm. rewrite (proj2 (Z.leb_le (fd * 2) INT_MAX)) by done. unfold set_slot.
  destruct (Z.leb_spec (Z.of_nat (length conns)) fd).
  - eexists _, _. split; [done|].
    assert (length (resize (fd * 2) conns) = Z.to_nat (fd * 2)) as Hl by (unfold resize; len_solve).
    rewrite (proj2 (Z.leb_le 0 fd)), (proj2 (Z.ltb_lt fd _)) by lia. split; [done|]. split.
    + apply list_lookup_insert_eq. lia.
    + intros i q Hi. rewrite list_lookup_insert_ne by done. apply resize_lookup. lia.
  - eexists _, _. split; [done|].
    rewrite (proj2 (Z.leb_le 0 fd)), (proj2 (Z.ltb_lt fd _)) by lia. split; [done|]. split.
    + apply list_lookup_insert_eq. lia.
    + intros i q Hi. by rewrite list_lookup_insert_ne.
Qed.

(** A new watcher polls the descriptor for reading, a new timer is armed. *)
Lemma new_watchers (el : EventLoop L) this p fd :
  el_inv el → 0 ≤ fd →
  let '(io, el1) := creat_io_event CB_CONN_IO this el in
  ∃ el2, start_io_event io fd READ el1 = Val el2 ∧
  let '(tm, el3) := creat_timer CB_CONN_TIMER p true el2 in
  ∃ el4, start_timer tm 100000 el3 = Val el4 ∧ el_inv el4 ∧
    polled (loop_ el) io = None ∧ armed (loop_ el) tm = None ∧
    polled (loop_ el4) io = Some (fd, READ) ∧
    armed (loop_ el4) tm = Some (seconds 100000, seconds 100000) ∧
    (∀ j, j ≠ io → polled (loop_ el4) j = polled (loop_ el) j) ∧
    (∀ j, j ≠ tm → armed (loop_ el4) j = armed (loop_ el) j).
Proof.
  intros Hi Hfd. pose proof (creat_io_event_spec el CB_CONN_IO this Hi) as Hs.
  destruct (creat_io_event _ _ _) as [io el1]. destruct Hs as (Hi1 & Hf & Hw & Hl & Ht & Hn).
  destruct (start_io_event_spec el1 io fd READ) as (el2 & E2 & Hi2 & Fr & Hp);
    [done|rewrite Hw, lookup_insert_eq; eauto|done|done|].
  exists el2. split; [done|]. rewrite Hn in Hp. cbn [io_union] in Hp.
  unfold creat_timer. set (tm := fresh _).
  assert (time_watchers el2 !! tm = None) as Htm by (apply not_elem_of_dom, is_fresh).
  set (el3 := EL _ _ _ _). set (wt := TimeW _ _ _ _) in el3.
  assert (armed (loop_ el2) tm = None) as Ha2 by (by apply inv_timer_none).
  assert (el_inv el3) as Hi3.
  { destruct Hi2 as [I1 I2 I3 I4]. split; [done|done| |]; simpl.
    - intros id w' Hw'. apply lookup_insert_Some in Hw' as [[<- <-]|[_ Hw']]; [|by apply I3].
      rewrite Ha2. split; [by intros []%is_Some_None|done].
    - intros id [Hid _]%lookup_insert_None. by apply I4. }
  destruct (start_timer_spec el3 tm wt 100000) as (el4 & E4 & Hi4 & Ha4 & Ho4 & Hp4);
    [done|apply lookup_insert_eq|vm_compute; done|].
  exists el4. split_and!; try done.
  - by rewrite <- Hl.
  - by rewrite <- Hl, <- (fr_armed _ _ _ Fr).
  - by rewrite Hp4.
  - intros j Hj. rewrite Hp4. simpl. rewrite (fr_polled _ _ _ Fr) by done. by rewrite Hl.
  - intros j Hj. rewrite Ho4 by done. simpl. rewrite (fr_armed _ _ _ Fr). by rewrite Hl.
Qed.

Lemma new_conn_spec w this peer now fd :
  sw_inv w → 0 < fd → fd * 2 ≤ INT_MAX → (∀ p c, tcp w !! p = Some c → fd_ c ≠ fd) →
  ∃ w' c, new_conn this peer now fd w = Val w' ∧ sw_inv w' ∧
    tcp w' = <[fresh (dom (tcp w)) := c]> (tcp w) ∧ fd_ c = fd ∧ repr (querybuf c) [] ∧
    at_phase InHead 0 c ∧ reply_list c = [] ∧ last_interaction_time c = now ∧ closed w' = closed w ∧
    q_conn_ w' = q_conn_ w ∧ _q_msg w' = _q_msg w ∧ pipe w' = pipe w.
Proof.
  intros Hi Hfd Hm Hfresh. pose proof Hi as [H1 H2 H3 H4 H5 H6].
  unfold new_conn. rewrite (proj2 (Z.ltb_ge fd 0)) by lia. unfold TcpConnection_new.
  destruct sdsempty_spec as (q & -> & Hq). cbn [mbind_res not_null host_ port_].
  destruct (sock_peer_to_str peer [] 0) as [[? h] pt].
  set (p := fresh (dom (tcp w))).
  assert (tcp w !! p = None) as Hp by (apply not_elem_of_dom, is_fresh).
  pose proof (new_watchers (event_loop_ w) this p fd H1 ltac:(lia)) as Hw.
  destruct (creat_io_event _ _ _) as [io el1]. destruct Hw as (el2 & -> & Hw). cbn [mbind_res].
  destruct (creat_timer _ _ _ _) as [tm el3]. destruct Hw as (el4 & -> & Hi4 & Hio & Htm & Hpio & Htm4 & Hpo & Hao).
  cbn [mbind_res fd_ querybuf bytes_expected bytes_processed current_state reply_list cur_resp_pos].
  destruct (slots_spec (conns_ w) fd p Hfd Hm) as (cs1 & cs2 & -> & E2 & Hs & Ho).
  cbn [mbind_res]. rewrite E2. cbn [mbind_res].
  set (c := Tcp _ _ _ _ _ _ _ _ _ _ _ _).
  assert (∀ r d, tcp w !! r = Some d → io_watcher_ d ≠ io ∧ timer_watcher_ d ≠ tm) as Hne.
  { intros r d Hd. destruct (H3 r d Hd) as [Hok _]. pose proof (co_poll _ _ Hok). pose proof (co_timer _ _ Hok) as [? ?].
    split; congruence. }
  eexists _, c. split; [done|]. split_and!; try done.
  split; simpl.
  - done.
  - intros i r Hr. destruct (decide (i = Z.to_nat fd)) as [->|Hi'].
    + rewrite Hs in Hr. simplify_eq. exists c. rewrite lookup_insert_eq. simpl. split; [done|lia].
    + apply Ho in Hr; [|done]. destruct (H2 i r Hr) as (d & Hd & Hf). exists d. rewrite lookup_insert_ne; [done|congruence].
  - intros r d Hd. apply lookup_insert_Some in Hd as [[<- <-]|[Hrp Hd]].
    + split; [|done]. split; simpl; [done|done|by rewrite Htm4|exists []; split; [done|by left]|by apply Forall_nil_2|done].
    + destruct (H3 r d Hd) as [Hok Hsl]. destruct (Hne r d Hd). split.
      * eapply conn_ok_frame; [done|by apply Hpo|by apply Hao].
      * apply Ho; [|done]. pose proof (Hfresh r d Hd). pose proof (co_fd _ _ Hok). lia.
  - intros r r' d d' Hd Hd' Hrr. apply lookup_insert_Some in Hd as [[<- <-]|[? Hd]], Hd' as [[<- <-]|[? Hd']];
      [done| | |by apply (H4 r r')]; simpl.
    + destruct (Hne r' d' Hd'). by split; apply not_eq_sym.
    + by apply (Hne r d).
  - intros ns Hns. destruct (H5 ns Hns) as (pw & -> & Hpol & Hpw). exists pw.
    assert (pw ≠ io) as Hpi by (intros ->; rewrite Hio in Hpol; by destruct Hpol).
    split_and!; [done|by rewrite Hpo|]. intros r d Hd.
    apply lookup_insert_Some in Hd as [[<- <-]|[_ Hd]]; simpl; [by apply not_eq_sym|by apply (Hpw r)].
  - done.
Qed.
End Open.

(** ** Replies on the wire *)

(** Where the worker is in the list of replies. *)
Definition pos_ok (replies : list slice) (pos : Z) : Prop :=
  match replies with [] => pos = 0 | r :: _ => 0 ≤ pos < size_ r end.

(** The bytes still to be sent. *)
Definition unsent (bss : list (list Z)) (pos : Z) : list Z := drop (Z.to_nat pos) (concat bss).

(** A socket has room for a number of bytes that is not negative. *)
Definition answer_ok (a : sys Z) : Prop := match a with Ok room => 0 ≤ room | Err _ => True end.

(** An answer that takes data, and how many of them there are. *)
Definition takes_data (a : sys Z) : Prop := match a with Ok room => 0 < room | Err _ => False end.

#[global] Instance takes_data_dec a : Decision (takes_data a).
Proof. destruct a; simpl; apply _. Defined.

Definition accepts (answers : list (sys Z)) : nat := length (filter takes_data answers).

(** No write failed but for lack of room. *)
Definition only_again (answers : list (sys Z)) : Prop := ∀ err, Err err ∈ answers → err = EAGAIN.

Lemma only_again_cons a answers :
  (∀ err, a = Err err → err = EAGAIN) → only_again answers → only_again (a :: answers).
Proof. intros Ha Has err [Heq|Hin]%elem_of_cons; [by apply Ha|by apply Has]. Qed.

(** One answer of the kernel on the first reply. *)
Lemma write_turn a answers r bs rest pos sent :
  holds r bs → 0 ≤ pos < size_ r → size_ r < 2 ^ 31 → answer_ok a →
  let n := match a with Ok room => Z.min room (size_ r - pos) | Err _ => 0 end in
  write_loop (a :: answers) (r :: rest) pos sent =
    match a with
    | Err e => if e =? EAGAIN then write_loop answers (r :: rest) pos sent else Val (WFail, r :: rest, pos, sent)
    | Ok _ =>
        if n =? 0 then write_loop answers (r :: rest) pos sent
        else
          let sent' := sent ++ take (Z.to_nat n) (drop (Z.to_nat pos) bs) in
          if size_ r <=? pos + n then write_loop answers rest 0 sent'
          else write_loop answers (r :: rest) (pos + n) sent'
    end.
Proof.
  intros Hr Hp Hs Ha n. cbn [write_loop]. unfold Slice.size. rewrite u64_small by lia.
  pose proof Hr as (pre & post & Hb & Hd & Hz).
  assert (mread (block r) (data_ r + pos) (size_ r - pos) = Some (drop (Z.to_nat pos) bs)) as ->.
  { rewrite Hb. replace (pre ++ bs ++ post) with ((pre ++ take (Z.to_nat pos) bs) ++ drop (Z.to_nat pos) bs ++ post)
      by (rewrite <- app_assoc, (app_assoc (take _ _)), take_drop; done).
    apply mread_app; len_solve. }
  cbn [of_mem mbind_res]. destruct a as [room|e]; cbn [sys_write sock_write_data].
  - fold n. assert (0 ≤ n ≤ size_ r - pos) as Hn by (unfold n; simpl in Ha; lia).
    rewrite s32_small by (unfold INT_MIN, INT_MAX; lia). rewrite (proj2 (Z.eqb_neq n (-1))) by lia.
    destruct (n =? 0); [done|]. rewrite !u64_small by lia. by rewrite (Z.add_comm n pos).
  - by destruct (e =? EAGAIN).
Qed.

Lemma unsent_step bs bss pos n :
  0 ≤ pos → 0 ≤ n → pos + n ≤ Z.of_nat (length bs) →
  unsent (bs :: bss) pos = take (Z.to_nat n) (drop (Z.to_nat pos) bs) ++ unsent (bs :: bss) (pos + n).
Proof.
  intros Hp Hn Hl. unfold unsent. cbn [concat]. rewrite !drop_app_le by lia.
  rewrite app_assoc. f_equal. replace (Z.to_nat (pos + n)) with (Z.to_nat pos + Z.to_nat n)%nat by lia.
  by rewrite <- drop_drop, take_drop.
Qed.

Lemma write_loop_spec answers replies bss pos sent :
  Forall2 holds replies bss → Forall reply_ok replies → pos_ok replies pos → Forall answer_ok answers →
  ∃ e replies' bss' pos' sent', write_loop answers replies pos sent = Val (e, replies', pos', sent') ∧
    Forall2 holds replies' bss' ∧ Forall reply_ok replies' ∧ pos_ok replies' pos' ∧
    sent ++ unsent bss pos = sent' ++ unsent bss' pos' ∧
    (e = WDone ↔ replies' = []) ∧ (e = WSpin → (length sent + accepts answers ≤ length sent')%nat ∧ only_again answers) ∧
    (e = WFail → ∃ err, Err err ∈ answers ∧ err ≠ EAGAIN).
Proof.
  intros Hh Hok Hp Ha. revert replies bss pos sent Hh Hok Hp.
  induction Ha as [|a answers Ha _ IH]; intros replies bss pos sent Hh Hok Hp.
  { destruct Hh as [|r bs replies bss Hr Hh].
    - by exists WDone, [], [], pos, sent.
    - exists WSpin, (r :: replies), (bs :: bss), pos, sent. split_and!; try done; [by constructor|].
      intros _. unfold accepts. simpl. split; [lia|]. by intros ? ?%elem_of_nil. }
  destruct Hh as [|r bs replies bss Hr Hh].
  { exists WDone, [], [], pos, sent. simpl. by split_and!. }
  pose proof Hok as [[_ Hs] Hok']%Forall_cons. simpl in Hp.
  assert (∀ pos1 sent1 replies1 bss1, Forall2 holds replies1 bss1 → Forall reply_ok replies1 → pos_ok replies1 pos1 →
    sent ++ unsent (bs :: bss) pos = sent1 ++ unsent bss1 pos1 → (∀ err, a = Err err → err = EAGAIN) →
    (length sent + accepts (a :: answers) ≤ length sent1 + accepts answers)%nat →
    ∃ e replies' bss' pos' sent', write_loop answers replies1 pos1 sent1 = Val (e, replies', pos', sent') ∧
    Forall2 holds replies' bss' ∧ Forall reply_ok replies' ∧ pos_ok replies' pos' ∧
    sent ++ unsent (bs :: bss) pos = sent' ++ unsent bss' pos' ∧
    (e = WDone ↔ replies' = []) ∧
    (e = WSpin → (length sent + accepts (a :: answers) ≤ length sent')%nat ∧ only_again (a :: answers)) ∧
    (e = WFail → ∃ err, Err err ∈ a :: answers ∧ err ≠ EAGAIN)) as Hnext.
  { intros pos1 sent1 replies1 bss1 Hh1 Hok1 Hp1 Eq Hag Hacc.
    destruct (IH replies1 bss1 pos1 sent1 Hh1 Hok1 Hp1) as (e & r' & b' & p' & s' & E & ? & ? & ? & Eq' & ? & Hsp & Hf).
    exists e, r', b', p', s'. split_and!; try done; [congruence|intros He; destruct (Hsp He); split; [lia|by apply only_again_cons]|].
    intros He. destruct (Hf He) as (err & Hin & Hne). exists err. split; [by apply elem_of_cons; right|done]. }
  pose proof Hr as (_ & _ & _ & _ & Hz).
  rewrite (write_turn a answers r bs) by (done || lia). destruct a as [room|err].
  - simpl in Ha. set (n := Z.min room (size_ r - pos)).
    assert (0 ≤ n ≤ size_ r - pos) as Hn by (unfold n; lia).
    destruct (Z.eqb_spec n 0) as [E0|E0].
    + apply (Hnext _ _ _ (bs :: bss)); [by constructor|done|done|done|done|].
      unfold accepts. rewrite filter_cons_False; [done|]. simpl. unfold n in E0. lia.
    + assert (accepts (Ok room :: answers) = S (accepts answers)) as Hacc.
      { unfold accepts. rewrite filter_cons_True; [done|]. simpl. unfold n in E0. lia. }
      set (d := take (Z.to_nat n) _). assert (length d = Z.to_nat n) as Hd by (unfold d; len_solve).
      destruct (Z.leb_spec (size_ r) (pos + n)).
      * apply (Hnext _ _ _ bss); [done|done| | |done|rewrite length_app; lia].
        { destruct Hh as [|r2 b2 ? ? _ _]; [done|]. apply Forall_cons in Hok' as [[_ ?] _]. simpl. lia. }
        rewrite (unsent_step bs bss pos n) by lia. rewrite app_assoc. f_equal. unfold unsent. cbn [concat].
        rewrite drop_app_ge by lia. f_equal. lia.
      * apply (Hnext _ _ _ (bs :: bss)); [by constructor|done|simpl; lia| |done|rewrite length_app; lia].
        rewrite (unsent_step bs bss pos n) by lia. by rewrite app_assoc.
  - assert (accepts (Err err :: answers) = accepts answers) as Hacc.
    { unfold accepts. by rewrite filter_cons_False by (by intros []). }
    destruct (Z.eqb_spec err EAGAIN) as [->|Hne].
    + apply (Hnext _ _ _ (bs :: bss)); [by constructor|done|done|done|by intros ? [= <-]|lia].
    + exists WFail, (r :: replies), (bs :: bss), pos, sent. split_and!; try done; [by constructor|].
      intros _. exists err. split; [by apply elem_of_cons; left|done].
Qed.

Section Replying.
Context {L : Type} {E : LibEv L} {ES : LibEvSpec L}.
Implicit Types w : SignalingWorker L.

Lemma replies_hold replies : Forall reply_ok replies → ∃ bss, Forall2 holds replies bss.
Proof.
  induction 1 as [|r rs [[bs Hr] _] _ [bss IH]]; [by exists []|]. exists (bs :: bss). by constructor.
Qed.

Lemma add_reply_spec w p c r :
  sw_inv w → tcp w !! p = Some c → reply_ok r →
  ∃ w', _add_reply p r w = Val w' ∧ sw_inv w' ∧ conns_ w' = conns_ w ∧ closed w' = closed w ∧
    q_conn_ w' = q_conn_ w ∧ _q_msg w' = _q_msg w ∧ pipe w' = pipe w ∧
    tcp w' = <[p := set_replies (reply_list c ++ [r]) (cur_resp_pos c) c]> (tcp w).
Proof.
  intros Hi Hc Hr. destruct (sw_objects w Hi p c Hc) as [Hok _]. pose proof Hok as [Hfd Hp Ht Hb Hrs Hpos].
  unfold _add_reply. rewrite Hc. cbn [of_mem mbind_res].
  destruct (start_io_event_spec (event_loop_ w) (io_watcher_ c) (fd_ c) WRITE) as (el' & -> & Hi' & Fr & Hp');
    [apply Hi|apply polled_live; [apply Hi|by rewrite Hp]|lia|done|].
  cbn [mbind_res]. eexists. split; [done|]. split; [|done].
  eapply update_conn_inv; try done. rewrite Hp in Hp'. split; simpl.
  - done.
  - rewrite Hp'. unfold conn_interest. simpl. by destruct (reply_list c).
  - by rewrite (fr_armed _ _ _ Fr).
  - done.
  - apply Forall_app; split; [done|by apply Forall_singleton].
  - destruct (reply_list c); simpl in *; [|done]. destruct Hr as [_ ?]. lia.
Qed.

Lemma write_reply_spec w answers now p c bss :
  sw_inv w → tcp w !! p = Some c → Forall answer_ok answers → Forall2 holds (reply_list c) bss →
  ∃ e sent w' c' bss', _write_reply answers now (fd_ c) w = Val (e, sent, w') ∧ sw_inv w' ∧
    tcp w' = <[p := c']> (tcp w) ∧ Forall2 holds (reply_list c') bss' ∧
    unsent bss (cur_resp_pos c) = sent ++ unsent bss' (cur_resp_pos c') ∧
    (e = WDone ↔ reply_list c' = []) ∧ (e = WSpin → (accepts answers ≤ length sent)%nat ∧ only_again answers) ∧
    (e = WFail → ∃ err, Err err ∈ answers ∧ err ≠ EAGAIN) ∧
    querybuf c' = querybuf c ∧ fd_ c' = fd_ c ∧ pos_ok (reply_list c') (cur_resp_pos c').
Proof.
  intros Hi Hc Ha Hh. destruct (sw_objects w Hi p c Hc) as [Hok _]. pose proof Hok as [Hfd Hp Ht Hb Hrs Hpos].
  unfold _write_reply. rewrite (proj2 (Z.leb_gt (fd_ c) 0)) by lia.
  rewrite (lookup_conn_live w p c Hi Hc), Hc. cbn [of_mem mbind_res].
  destruct (write_loop_spec answers (reply_list c) bss (cur_resp_pos c) [])
    as (e & rs & bss' & pos & sent & Ew & Hh' & Hok' & Hpos' & Hs & Hd & Hsp & Hf); [done|done|done|done|].
  assert (e ≠ WDone → conn_interest (set_replies rs pos c) = conn_interest c) as Hsame.
  { intros He. unfold conn_interest. simpl. destruct (reply_list c); [by destruct answers; simplify_eq/=|].
    destruct rs; [exfalso; by apply He, Hd|done]. }
  assert (e ≠ WDone → sw_inv (set_conn p (set_replies rs pos c) w)) as Hkeep.
  { intros He. apply (update_conn_inv' w p c); try done. split; simpl; try done. by rewrite (Hsame He). }
  rewrite Ew. cbn [mbind_res]. set (c1 := set_replies rs pos c) in *.
  destruct e; [|by eexists _, _, _, c1, bss'; split_and!; try done; apply Hkeep..].
  assert (rs = []) as -> by (by apply Hd).
  destruct (stop_io_event_spec (event_loop_ w) (io_watcher_ c) (fd_ c) WRITE _ _ (sw_loop w Hi) Hp)
    as (el' & Est & Hi' & Fr & Hp'); [lia|].
  change (io_watcher_ (set_interaction now c1)) with (io_watcher_ c).
  change (fd_ (set_interaction now c1)) with (fd_ c). rewrite Est. cbn [mbind_res].
  eexists _, _, _, (set_interaction now c1), bss'. split; [done|]. split_and!; try done.
  eapply update_conn_inv; try done. split; simpl; try done.
  - rewrite Hp'. unfold conn_interest. simpl. by destruct (reply_list c).
  - by rewrite (fr_armed _ _ _ Fr).
Qed.
End Replying.

(** ** Responses *)

Lemma c_str_id text : Forall (λ c, c ≠ 0) text → c_str text = text.
Proof.
  unfold c_str. induction 1 as [|c text Hc _ IH]; [done|]. simpl.
  rewrite (proj2 (Z.eqb_neq c 0)) by done. simpl. by rewrite IH.
Qed.

(** The bytes of a response: the header of the request with the length of
    the new body, and the body. *)
Definition response_bytes (request text : list Z) : list Z :=
  take 32 request ++ le_encode 4 (Z.of_nat (length text)) ++ text.

(** On a request with a proper header this is a proper message again. *)
Lemma response_bytes_head h rest text :
  xhead_ok h → response_bytes (xhead_bytes h ++ rest) text =
    xhead_bytes (XHead (id h) (version h) (log_id h) (provider h) (magic_num h) (reserved h)
      (Z.of_nat (length text))) ++ text.
Proof.
  intros (_ & (Hp & _) & _). unfold response_bytes, xhead_bytes. cbn [id version log_id provider magic_num reserved body_len].
  set (hd := le_encode 2 (id h) ++ le_encode 2 (version h) ++ le_encode 4 (log_id h) ++ provider h ++
    le_encode 4 (magic_num h) ++ le_encode 4 (reserved h)).
  assert (length hd = 32%nat) as Hl by (unfold hd; rewrite !length_app, !length_le_encode, Hp; done).
  replace ((le_encode 2 (id h) ++ le_encode 2 (version h) ++ le_encode 4 (log_id h) ++ provider h ++
    le_encode 4 (magic_num h) ++ le_encode 4 (reserved h) ++ le_encode 4 (body_len h)) ++ rest)
    with (hd ++ le_encode 4 (body_len h) ++ rest) by (unfold hd; by rewrite <- !app_assoc).
  rewrite take_app_le, take_ge by lia. unfold hd. by rewrite <- !app_assoc.
Qed.

Section Response.
Context {L : Type} {E : LibEv L} {ES : LibEvSpec L}.
Context {A : Allocator} {AS : AllocatorSpec} {AT : AllocatorTotal}.
Context (json_write : list (string * jvalue) → list Z).
Implicit Types w : SignalingWorker L.

(** The text fits the response buffer and holds no NUL, as the writer of the
    library escapes control characters. *)
Definition text_ok (msg : RtcMsg) : Prop :=
  let text := json_write (response_members msg) in
  Forall (λ c, c ≠ 0) text ∧ Z.of_nat (length text) < MAX_RES_BUF.

Lemma build_response_spec msg c bs :
  repr (querybuf c) bs → XHEAD_SIZE ≤ Z.of_nat (length bs) → text_ok msg →
  let text := json_write (response_members msg) in
  ∃ r, build_response json_write msg c = Val r ∧ holds r (response_bytes bs text) ∧ reply_ok r.
Proof.
  intros Hr Hl [Hz Ht] text. fold text in Hz, Ht. unfold MAX_RES_BUF, XHEAD_SIZE in *.
  unfold build_response, MAX_RES_BUF, XHEAD_SIZE. destruct (zmalloc_ok (36 + 4096)) as (b & -> & Hb & _); [lia|].
  cbn [of_alloc mbind_res]. repr_destruct Hr as tail. rewrite H. cbn [buf].
  rewrite mread_take by len_solve. cbn [of_mem mbind_res].
  rewrite take_app_le by lia. change (Z.to_nat 36) with 36%nat.
  rewrite mwrite_front by len_solve. cbn [of_mem mbind_res].
  replace (length (take 36 bs)) with 36%nat by len_solve.
  fold text. rewrite (u32_small (Z.of_nat (length text))) by lia.
  assert (take 36 bs ++ drop 36 b = take 32 bs ++ take 4 (drop 32 bs) ++ drop 36 b) as ->.
  { rewrite app_assoc. f_equal. by rewrite take_take_drop. }
  rewrite mwrite_app; [|len_solve|rewrite length_le_encode; len_solve]. cbn [of_mem mbind_res].
  unfold snprintf_s. rewrite c_str_id by done. rewrite (take_ge text) by lia.
  set (hd := take 32 bs ++ le_encode 4 (Z.of_nat (length text))).
  assert (length hd = 36%nat) as Hhd by (unfold hd; rewrite length_app, length_le_encode; len_solve).
  rewrite app_assoc. fold hd. rewrite <- (take_drop (S (length text)) (drop 36 b)).
  rewrite mwrite_app; [|by rewrite Hhd|len_solve]. cbn [of_mem mbind_res].
  rewrite u32_small by lia. set (r := slice_new _ _).
  assert (holds r (response_bytes bs text)) as Hh.
  { exists [], (0 :: drop (S (length text)) (drop 36 b)). simpl. split_and!; [|done|].
    - unfold response_bytes, hd. by rewrite <- !app_assoc.
    - unfold response_bytes. rewrite !length_app, length_le_encode. len_solve. }
  exists r. split_and!; [done|done|]. split; [eauto|]. simpl. lia.
Qed.

(** The answer of the RTC side reaches the connection it was asked on, if
    that one is still the connection of its descriptor. *)
Lemma response_server_offer_spec w msg :
  sw_inv w → text_ok msg →
  (∀ p c bs, tcp w !! p = Some c → conn msg = Some p → repr (querybuf c) bs → XHEAD_SIZE ≤ Z.of_nat (length bs)) →
  ∃ w', _response_server_offer json_write msg w = Val w' ∧ sw_inv w' ∧
    match conn msg ≫= (λ p, guard (lookup_conn (fd msg) w = Some p);; Some p) with
    | None => w' = w
    | Some p => ∃ c bs r, tcp w !! p = Some c ∧ repr (querybuf c) bs ∧
        holds r (response_bytes bs (json_write (response_members msg))) ∧
        tcp w' = <[p := set_replies (reply_list c ++ [r]) (cur_resp_pos c) c]> (tcp w)
    end.
Proof.
  intros Hi Ht Hq. unfold _response_server_offer. destruct (conn msg) as [p|] eqn:Ec; [|simpl; eauto].
  simpl. destruct (_ || _)%bool eqn:G.
  { rewrite option_guard_False; [simpl; eauto|]. unfold lookup_conn.
    apply orb_true_iff in G as [G|G]; reflect_Z.
    - by rewrite (proj2 (Z.leb_gt 0 (fd msg))).
    - by rewrite (proj2 (Z.ltb_ge (fd msg) _)), andb_false_r. }
  case_bool_decide as Hlk; cbn [negb]; [|rewrite option_guard_False by done; simpl; eauto].
  rewrite option_guard_True by done. simpl. destruct (lookup_conn_inv w (fd msg) p Hi Hlk) as (c & Hc & Hfd).
  rewrite Hc. cbn [of_mem mbind_res]. destruct (sw_objects w Hi p c Hc) as [Hok _].
  destruct (co_buf _ _ Hok) as (bs & Hbs & _).
  destruct (build_response_spec msg c bs) as (r & -> & Hh & Hrok); [done|by eapply Hq|done|].
  cbn [mbind_res]. destruct (add_reply_spec w p c r Hi Hc Hrok) as (w' & -> & Hi' & _ & _ & _ & _ & _ & Htcp).
  exists w'. split_and!; [done|done|]. eauto 10.
Qed.
End Response.

(** ** Every event of the loop *)

Section Events.
Context {L : Type} {E : LibEv L} {ES : LibEvSpec L}.
Context {A : Allocator} {AS : AllocatorSpec} {AT : AllocatorTotal}.
Context {V : Type} {J : Json V} {G : Type} {P : RtcPort G}.
Context (json_write : list (string * jvalue) → list Z).
Implicit Types w : SignalingWorker L.

(** What the peer announced leaves integer room for the next read. *)
Definition read_room (c : TcpConnection) : Prop :=
  ∀ bs, repr (querybuf c) bs → bytes_expected c ≤ INT_MAX ∧ room (Z.of_nat (length bs) + bytes_expected c).

Lemma frame_expected c bs : frame_ok c bs → 0 ≤ bytes_expected c.
Proof. intros [(_ & -> & _)|(n & _ & ? & _ & [(_ & -> & _)|(_ & -> & _)])]; unfold XHEAD_SIZE; lia. Qed.

Lemma read_query_spec fuel this ans now fd w (g : G) :
  sw_inv w → (∀ avail, ans = Ok avail → bytes_ok avail) →
  (∀ p c, lookup_conn fd w = Some p → tcp w !! p = Some c → read_room c) →
  read_query fuel this ans now fd w g = None ∨
  ∃ w' g', read_query fuel this ans now fd w g = Some (Val (w', g')) ∧ sw_inv w'.
Proof.
  intros Hi Ha Hroom. unfold read_query. destruct (lookup_conn fd w) as [p|] eqn:Hl; [|right; eauto].
  destruct (lookup_conn_inv w fd p Hi Hl) as (c & Hc & _). rewrite Hc.
  destruct (sw_objects w Hi p c Hc) as [Hok _]. pose proof Hok as [Hfd Hp Ht (bs & Hbs & Hfr) Hrs Hpos].
  destruct (Hroom p c eq_refl Hc bs Hbs) as [Hm Hrm]. pose proof (frame_expected c bs Hfr).
  destruct (receive_total ans now c bs) as (nread & d & q & -> & Hq); [done|lia|done|done|].
  set (c1 := set_querybuf q (set_interaction now c)).
  assert (frame_ok c1 (bs ++ d)) as Hfr1 by (by eapply frame_ok_app).
  assert (sw_inv (set_conn p c1 w)) as Hi1.
  { apply (update_conn_inv' w p c c1); try done. split; simpl; eauto. }
  assert (tcp (set_conn p c1 w) !! p = Some c1) as Hc1 by apply lookup_insert_eq.
  destruct (nread =? -1).
  - right. destruct (close_conn_spec _ p c1 Hi1 Hc1) as (w' & -> & Hi' & _). simpl. eauto.
  - destruct (pqb_safe fuel this p c1 g (bs ++ d) Hq Hfr1) as [->|(r & a & b & s & g' & -> & Hfr2)]; [by left|].
    right. eexists _, _. split; [done|].
    apply (update_conn_inv' _ p c1); try done. destruct (sw_objects _ Hi1 p c1 Hc1) as [[] _].
    split; simpl in *; eauto.
Qed.

Lemma write_reply_inv answers now fd w :
  sw_inv w → Forall answer_ok answers →
  ∃ e sent w', _write_reply answers now fd w = Val (e, sent, w') ∧ sw_inv w' ∧
    (e = WSpin → (accepts answers ≤ length sent)%nat ∧ only_again answers).
Proof.
  intros Hi Ha. destruct (Z.leb_spec fd 0) as [Hz|Hz].
  { unfold _write_reply. rewrite (proj2 (Z.leb_le fd 0)) by done. by eexists _, _, _. }
  destruct (lookup_conn fd w) as [p|] eqn:Hl.
  - destruct (lookup_conn_inv w fd p Hi Hl) as (c & Hc & <-).
    destruct (sw_objects w Hi p c Hc) as [Hok _]. destruct (replies_hold _ (co_replies _ _ Hok)) as [bss Hh].
    destruct (write_reply_spec w answers now p c bss Hi Hc Ha Hh) as (e & sent & w' & ? & ? & -> & Hi' & _ & _ & _ & _ & Hsp & _). eauto 10.
  - unfold _write_reply. rewrite (proj2 (Z.leb_gt fd 0)), Hl by done. by eexists _, _, _.
Qed.

Lemma stop_spec w : sw_inv w → is_Some (pipe w) →
  ∃ w', _stop w = Val w' ∧ sw_inv w' ∧ (thread_ w = true → pipe w' = None).
Proof.
  intros Hi [ns Hns]. unfold _stop. destruct (thread_ w); cbn [negb]; [|by exists w].
  destruct (sw_pipe w Hi ns Hns) as (pw & Hpw & Hlive & Hne). rewrite Hpw. cbn [of_mem mbind_res].
  destruct (delete_io_event_spec (event_loop_ w) pw (sw_loop w Hi)) as (el & -> & Hel & _ & _ & Hp & _ & Ha).
  { apply polled_live; [apply Hi|done]. }
  cbn [mbind_res]. eexists. split; [done|]. split; [|done]. destruct Hi as [H1 H2 H3 H4 H5 H6].
  split; simpl; try done; [by apply stop_inv|].
  intros p c Hc. destruct (H3 p c Hc) as [Hok Hs]. split; [|done].
  assert (∀ id, polled (ev_break (loop_ el)) id = polled (loop_ el) id ∧ armed (ev_break (loop_ el)) id = armed (loop_ el) id)
    as Hbr by (intros; apply ev_break_spec).
  eapply conn_ok_frame; [done| |]; simpl.
  - rewrite (proj1 (Hbr _)). apply Hp. by apply (Hne p).
  - by rewrite (proj2 (Hbr _)).
Qed.

Lemma start_worker_spec w : sw_inv w → sw_inv (SignalingWorker.start w).2.
Proof. intros []. unfold SignalingWorker.start. by destruct (thread_ w); split. Qed.

Lemma notify_inv msg w : sw_inv w → sw_inv (SignalingWorker.notify msg w).2.
Proof.
  intros Hi. unfold SignalingWorker.notify. destruct (sw_queue w Hi) as [fds Hq].
  destruct (pipe w) as [ns|] eqn:Ep; [|done]. by eapply set_queues_inv.
Qed.

Inductive sw_event :=
  | EvStart                                          (* the server starts the worker *)
  | EvStop                                           (* the server asks it to stop *)
  | EvIo (fd events : Z) (ans : sys (list Z)) (answers : list (sys Z)) (now : Z)
  | EvTimer (p now : Z)                              (* a connection's timer *)
  | EvNotify (peer : sys sockaddr_in) (now : Z)      (* the pipe is readable *)
  | EvAccept (fd : Z)                                (* the acceptor hands a descriptor over *)
  | EvAnswer (msg : RtcMsg).                         (* the RTC side answers *)

Definition sw_step (fuel : nat) (this : Z) (ev : sw_event) w (g : G) : option (res (SignalingWorker L * G)) :=
  match ev with
  | EvStart => Some (Val ((SignalingWorker.start w).2, g))
  | EvStop => Some (Val (SignalingWorker.stop w, g))
  | EvIo fd events ans answers now => conn_io_cb fuel this ans answers now fd events w g
  | EvTimer p now => Some (let* w := conn_timer_cb now p w in Val (w, g))
  | EvNotify peer now => Some (let* w := signaling_worker_recv_notify json_write this peer now w in Val (w, g))
  | EvAccept fd => Some (let* '(_, w) := notify_new_conn fd w in Val (w, g))
  | EvAnswer msg => Some (Val ((send_rtc_msg msg w).2, g))
  end.

(** The state in which the callback of a connection starts to write. *)
Definition after_read (fuel : nat) (this : Z) (ans : sys (list Z)) (now fd events : Z) w (g : G)
    : option (res (SignalingWorker L * G)) :=
  if negb (Z.land events READ =? 0) then read_query fuel this ans now fd w g else Some (Val (w, g)).

(** The parsing loop has not ended after [fuel] turns. *)
Definition still_parsing (fuel : nat) (this : Z) (ev : sw_event) w (g : G) : Prop :=
  match ev with
  | EvIo fd events ans _ now => after_read fuel this ans now fd events w g = None
  | _ => False
  end.

(** The writing loop has used up the kernel's answers: each of them that took
    data moved it on by a byte at least, no write failed but for lack of room,
    and replies are left. *)
Definition still_writing (fuel : nat) (this : Z) (ev : sw_event) w (g : G) : Prop :=
  match ev with
  | EvIo fd events ans answers now =>
      Z.land events WRITE ≠ 0 ∧
      ∃ w1 g1 sent w2, after_read fuel this ans now fd events w g = Some (Val (w1, g1)) ∧
        _write_reply answers now fd w1 = Val (WSpin, sent, w2) ∧
        (accepts answers ≤ length sent)%nat ∧ only_again answers
  | _ => False
  end.

(** What the environment guarantees: the kernel's answers are bytes and
    counts, a timer fires for a live connection, an accepted descriptor is
    positive, small and not in use; and what it cannot guarantee here but the
    code relies on: room for the announced length, a response that fits its
    buffer and an answer that finds the request's header still buffered. *)
Definition event_ok w (ev : sw_event) : Prop :=
  match ev with
  | EvIo fd _ ans answers _ =>
      (∀ avail, ans = Ok avail → bytes_ok avail) ∧ Forall answer_ok answers ∧
      (∀ p c, lookup_conn fd w = Some p → tcp w !! p = Some c → read_room c)
  | EvTimer p _ => is_Some (tcp w !! p)
  | EvNotify _ _ =>
      (∀ fd fds, queue_of (q_conn_ w) (fd :: fds) →
         fd < 0 ∨ (0 < fd ∧ fd * 2 ≤ INT_MAX ∧ ∀ p c, tcp w !! p = Some c → fd_ c ≠ fd)) ∧
      (∀ msg, head (_q_msg w) = Some msg → text_ok json_write msg ∧
         ∀ p c bs, tcp w !! p = Some c → conn msg = Some p → repr (querybuf c) bs → XHEAD_SIZE ≤ Z.of_nat (length bs))
  | _ => True
  end.

Lemma process_rtc_msg_spec w :
  sw_inv w →
  (∀ msg, head (_q_msg w) = Some msg → text_ok json_write msg ∧
     ∀ p c bs, tcp w !! p = Some c → conn msg = Some p → repr (querybuf c) bs → XHEAD_SIZE ≤ Z.of_nat (length bs)) →
  ∃ w', _process_rtc_msg json_write w = Val w' ∧ sw_inv w'.
Proof.
  intros Hi Hm. unfold _process_rtc_msg, pop_msg. destruct (_q_msg w) as [|msg ms] eqn:Eq; [eauto|].
  destruct (Hm msg eq_refl) as [Ht Hb]. destruct (sw_queue w Hi) as [fds Hq].
  assert (sw_inv (set_queues (q_conn_ w) ms (pipe w) w)) as Hi1 by (by eapply set_queues_inv).
  destruct (cmdno msg =? CMDNO_PUSH); [|eauto].
  destruct (response_server_offer_spec json_write _ msg Hi1 Ht Hb) as (w' & -> & Hi' & _). eauto.
Qed.

Lemma recv_notify_spec this peer now w :
  sw_inv w → event_ok w (EvNotify peer now) →
  ∃ w', signaling_worker_recv_notify json_write this peer now w = Val w' ∧ sw_inv w'.
Proof.
  intros Hi [Hf Hm]. unfold signaling_worker_recv_notify. destruct (pipe w) as [[|m ns]|] eqn:Ep; [eauto| |eauto].
  destruct (sw_queue w Hi) as [fds Hq].
  assert (sw_inv (set_queues (q_conn_ w) (_q_msg w) (Some ns) w)) as Hi1 by (eapply set_queues_inv; [done|done|by rewrite Ep]).
  unfold process_notify. destruct (m =? QUIT).
  { destruct (stop_spec _ Hi1) as (w' & ? & ? & _); [done|eauto]. }
  destruct (m =? NEW_CONN); [|destruct (m =? RTC_MSG); [by apply process_rtc_msg_spec|eauto]].
  cbn [q_conn_ set_queues]. pose proof (consume_spec (q_conn_ w) fds Hq) as Hcs. destruct fds as [|fd fds].
  - rewrite Hcs. cbn [of_mem mbind_res]. eexists. split; [done|]. by eapply set_queues_inv.
  - destruct Hcs as (q' & -> & Hq'). cbn [of_mem mbind_res].
    match goal with |- context [new_conn _ _ _ _ ?w1] =>
      assert (sw_inv w1) as Hi2 by (by eapply set_queues_inv); set (w2 := w1) in * end.
    destruct (Hf fd fds Hq) as [Hneg|(Hpos & Hsm & Hfr)].
    + unfold new_conn. rewrite (proj2 (Z.ltb_lt fd 0)) by done. eauto.
    + destruct (new_conn_spec w2 this peer now fd Hi2 Hpos Hsm Hfr) as (w' & ? & -> & Hi' & _). eauto.
Qed.

Lemma conn_io_cb_spec fuel this ans answers now fd events w (g : G) :
  sw_inv w → event_ok w (EvIo fd events ans answers now) →
  conn_io_cb fuel this ans answers now fd events w g = None ∧
    (still_parsing fuel this (EvIo fd events ans answers now) w g ∨
     still_writing fuel this (EvIo fd events ans answers now) w g) ∨
  ∃ w' g', conn_io_cb fuel this ans answers now fd events w g = Some (Val (w', g')) ∧ sw_inv w'.
Proof.
  intros Hi (Ha & Han & Hroom). unfold conn_io_cb, still_parsing, still_writing. fold (after_read fuel this ans now fd events w g).
  assert (after_read fuel this ans now fd events w g = None ∨
    ∃ w1 g1, after_read fuel this ans now fd events w g = Some (Val (w1, g1)) ∧ sw_inv w1) as [Hn|(w1 & g1 & Hr & Hi1)].
  { unfold after_read. destruct (negb _); [by apply read_query_spec|right; eauto]. }
  { left. rewrite Hn. auto. }
  rewrite Hr. destruct (Z.eqb_spec (Z.land events WRITE) 0) as [|Hev]; simpl; [right; eauto|].
  destruct (write_reply_inv answers now fd w1 Hi1 Han) as (e & sent & w2 & Hw & Hi2 & Hsp).
  rewrite Hw. destruct e; [right; simpl; eauto..|]. left. split; [done|]. right. split; [done|]. exists w1, g1, sent, w2. auto.
Qed.

Lemma sw_step_spec fuel this ev w (g : G) :
  sw_inv w → event_ok w ev →
  sw_step fuel this ev w g = None ∧ (still_parsing fuel this ev w g ∨ still_writing fuel this ev w g) ∨
  ∃ w' g', sw_step fuel this ev w g = Some (Val (w', g')) ∧ sw_inv w'.
Proof.
  intros Hi Hev. destruct ev as [| |fd events ans answers now|p now|peer now|fd|msg]; cbn [sw_step].
  - right. eexists _, _. split; [done|]. by apply start_worker_spec.
  - right. eexists _, _. split; [done|]. by apply notify_inv.
  - by apply conn_io_cb_spec.
  - right. destruct Hev as [c Hc]. unfold conn_timer_cb.
    destruct (process_timeout_spec w p c now Hi Hc) as (w' & -> & Hi' & _). simpl. eauto.
  - right. destruct (recv_notify_spec this peer now w Hi Hev) as (w' & -> & Hi'). simpl. eauto.
  - right. unfold notify_new_conn. destruct (sw_queue w Hi) as [fds Hq].
    destruct (produce_spec (q_conn_ w) fds fd Hq) as (q & -> & Hq'). cbn [of_mem mbind_res].
    assert (sw_inv (set_queues q (_q_msg w) (pipe w) w)) as Hi1 by (by eapply set_queues_inv).
    pose proof (notify_inv NEW_CONN _ Hi1) as Hn. destruct (notify _ _) as [? w']. simpl. eauto.
  - right. eexists _, _. split; [done|]. unfold send_rtc_msg, push_msg. destruct (sw_queue w Hi) as [fds Hq].
    apply notify_inv. by eapply set_queues_inv.
Qed.

Lemma new_worker_inv this wid opts node : sw_inv (SignalingWorker_new this wid opts node : SignalingWorker L).
Proof.
  split; simpl; try done.
  - apply event_loop_new_inv.
  - exists []. apply lfq_new_spec.
Qed.

Lemma init_spec this wid opts node rfd sfd :
  0 ≤ rfd →
  ∃ w', init this (Ok (rfd, sfd)) (SignalingWorker_new this wid opts node : SignalingWorker L) = Val (0, w') ∧
    sw_inv w' ∧ pipe w' = Some [] ∧ thread_ w' = false ∧ queue_of (q_conn_ w') [].
Proof.
  intros Hr. unfold init. cbn [event_loop_ SignalingWorker_new].
  pose proof (creat_io_event_spec (event_loop_new this : EventLoop L) CB_RECV_NOTIFY this (event_loop_new_inv this)) as Hs.
  destruct (creat_io_event _ _ _) as [pw el]. destruct Hs as (Hi & _ & Hw & _ & _ & Hn).
  destruct (start_io_event_spec el pw rfd READ) as (el' & -> & Hi' & _ & Hp);
    [done|rewrite Hw, lookup_insert_eq; eauto|done|done|].
  cbn [mbind_res]. eexists. split; [done|]. split; [|by split_and!; [| |apply lfq_new_spec]]. split; simpl; try done.
  - intros ns _. exists pw. split_and!; [done| |done]. rewrite Hp, Hn. simpl. eauto.
  - exists []. apply lfq_new_spec.
Qed.

(** A started worker without a notification ends when it is asked to. *)
Lemma stop_join_spec this peer now w :
  sw_inv w → pipe w = Some [] → thread_ w = true →
  ∃ w', SignalingWorker.join json_write this peer now (SignalingWorker.stop w) = Some (Val w') ∧
    sw_inv w' ∧ pipe w' = None.
Proof.
  intros Hi Hp Ht. unfold SignalingWorker.stop, SignalingWorker.notify. rewrite Hp. cbn [snd app].
  destruct (sw_queue w Hi) as [fds Hq].
  assert (sw_inv (set_queues (q_conn_ w) (_q_msg w) (Some [QUIT]) w)) as Hi1 by (by eapply set_queues_inv).
  assert (sw_inv (set_queues (q_conn_ w) (_q_msg w) (Some []) w)) as Hi2 by (by eapply set_queues_inv).
  destruct (stop_spec _ Hi2) as (w' & Hs & Hi' & Hp'); [done|]. exists w'.
  split; [|split; [done|by apply Hp']]. unfold SignalingWorker.join. cbn [thread_ set_queues pipe default from_option length].
  rewrite Ht. change (length (Datatypes.id [QUIT])) with 1%nat. cbn [SignalingWorker.serve pipe set_queues].
  assert (signaling_worker_recv_notify json_write this peer now
    (set_queues (q_conn_ w) (_q_msg w) (Some [QUIT]) w) = Val w') as ->; [exact Hs|]. cbn. by rewrite (Hp' Ht).
Qed.
End Events.

(** ** Properties *)

Section Properties.
Context {L : Type} {E : LibEv L} {ES : LibEvSpec L}.
Context {A : Allocator} {AS : AllocatorSpec} {AT : AllocatorTotal}.
Context {V : Type} {J : Json V} {G : Type} {P : RtcPort G}.
Context (json_write : list (string * jvalue) → list Z).
Implicit Types w : SignalingWorker L.

(** The states a worker can be in: it is created and initialised, then it is
    started, its loop delivers events and the server stops it, in any order
    within the contract of [event_ok]. The stop is a notification like the
    others: [_stop] runs when the worker reads it. *)
Inductive sw_reach (fuel : nat) (this : Z) : SignalingWorker L → G → Prop :=
  | sw_reach_init wid opts node rfd sfd w g :
      0 ≤ rfd → init this (Ok (rfd, sfd)) (SignalingWorker_new this wid opts node) = Val (0, w) →
      sw_reach fuel this w g
  | sw_reach_step w g ev w' g' :
      sw_reach fuel this w g → event_ok json_write w ev →
      sw_step json_write fuel this ev w g = Some (Val (w', g')) → sw_reach fuel this w' g'.

Lemma sw_reach_inv fuel this w g : sw_reach fuel this w g → sw_inv w.
Proof.
  induction 1 as [wid opts node rfd sfd w g Hr Hw|w g ev w' g' _ IH Hev Hs].
  - destruct (init_spec this wid opts node rfd sfd Hr) as (w' & Hw' & Hi & _). congruence.
  - destruct (sw_step_spec json_write fuel this ev w g IH Hev) as [[Hn _]|(w2 & g2 & Hs2 & Hi)]; congruence.
Qed.

(** C2: in every state a worker can reach, started, running or stopped, by
    events within the contract of [event_ok], the slot of a descriptor points to
    the live connection of that descriptor and only to it, every connection is
    polled for reading, and for writing exactly while it has unsent replies,
    its inactivity timer is armed, and no two connections share a watcher. The
    contract leaves out what the code does not survive: a length announced by
    the client that overflows the read ([announced_length_overflows]), an answer
    for a connection whose buffer holds no header ([stale_answer]) or longer
    than its buffer, and descriptor 0 ([new_conn_zero]). *)
Theorem worker_invariant fuel this w g :
  sw_reach fuel this w g →
  (∀ p c, tcp w !! p = Some c →
     lookup_conn (fd_ c) w = Some p ∧
     polled (loop_ (event_loop_ w)) (io_watcher_ c) =
       Some (fd_ c, match reply_list c with [] => READ | _ => Z.lor READ WRITE end) ∧
     is_Some (armed (loop_ (event_loop_ w)) (timer_watcher_ c)) ∧
     ∀ q d, tcp w !! q = Some d → q ≠ p → io_watcher_ d ≠ io_watcher_ c ∧ timer_watcher_ d ≠ timer_watcher_ c) ∧
  (∀ fd p, lookup_conn fd w = Some p → ∃ c, tcp w !! p = Some c ∧ fd_ c = fd).
Proof.
  intros Hr%sw_reach_inv. split; [|intros fd p; by apply lookup_conn_inv].
  intros p c Hc. destruct (sw_objects w Hr p c Hc) as [[_ Hp Ht _ _ _] _].
  split_and!; [by apply lookup_conn_live|done|done|]. intros q d Hd Hne. by apply (sw_distinct w Hr q p).
Qed.

(** C3: whatever the network, the timers and the other threads do within the
    contract of [event_ok] (as for C2), the next call or handler of a worker,
    its start and its stop included, never has undefined behaviour. It returns,
    unless it is the callback of a connection and one of its two loops still
    runs: the parsing loop after [fuel] turns, or the writing loop because the
    kernel's answers so far did not take every reply and none of them was an
    error other than [EAGAIN]. *)
Theorem worker_safe fuel this w g ev :
  sw_reach fuel this w g → event_ok json_write w ev →
  sw_step json_write fuel this ev w g = None ∧
    (still_parsing fuel this ev w g ∨ still_writing fuel this ev w g) ∨
  ∃ w' g', sw_step json_write fuel this ev w g = Some (Val (w', g')).
Proof.
  intros Hr%sw_reach_inv Hev.
  destruct (sw_step_spec json_write fuel this ev w g Hr Hev) as [H|(w' & g' & H & _)]; eauto.
Qed.

(** C4: replies leave the worker in order, without loss or repetition: what
    one call of [_write_reply] hands to the kernel is the next part of the
    unsent replies, and the rest stays queued. The call drains the queue when
    no write fails and the kernel takes data as often as there are bytes; it
    then stops asking for write events. *)
Theorem replies_in_order fuel this w g p c answers now bss :
  sw_reach fuel this w g → tcp w !! p = Some c → Forall answer_ok answers →
  Forall2 holds (reply_list c) bss →
  ∃ e sent w' c' bss', _write_reply answers now (fd_ c) w = Val (e, sent, w') ∧ tcp w' !! p = Some c' ∧
    Forall2 holds (reply_list c') bss' ∧
    unsent bss (cur_resp_pos c) = sent ++ unsent bss' (cur_resp_pos c') ∧
    ((∀ err, Err err ∈ answers → err = EAGAIN) → (length (unsent bss (cur_resp_pos c)) ≤ accepts answers)%nat →
     e = WDone ∧ sent = unsent bss (cur_resp_pos c) ∧
     polled (loop_ (event_loop_ w')) (io_watcher_ c') = Some (fd_ c', READ)).
Proof.
  intros Hr%sw_reach_inv Hc Ha Hh.
  destruct (write_reply_spec w answers now p c bss Hr Hc Ha Hh)
    as (e & sent & w' & c' & bss' & Hw & Hi & Ht & Hh' & Hs & Hd & Hsp & Hf & _ & Hfd & Hpos).
  assert (tcp w' !! p = Some c') as Hc' by (by rewrite Ht, lookup_insert_eq).
  exists e, sent, w', c', bss'. split_and!; try done. intros Herr Hacc.
  assert (reply_list c' = []) as Hnil.
  { destruct e; [by apply Hd|destruct Hf as (err & Hin & Hne); [done|by destruct (Hne (Herr _ Hin))]|].
    destruct Hh' as [|r bs rs bss' Hr' Hh']; [done|]. exfalso. destruct (Hsp eq_refl) as [Hsp' _].
    apply (f_equal length) in Hs. rewrite length_app in Hs. simpl in Hpos.
    destruct Hr' as (_ & _ & _ & _ & Hz). unfold unsent in Hs. cbn [concat] in Hs.
    unfold unsent in Hacc. rewrite !length_drop, !length_app in *. lia. }
  assert (e = WDone) as -> by (by apply Hd). split_and!; [done| |].
  - rewrite Hnil in Hh', Hpos. inversion Hh'; subst. rewrite Hs. unfold unsent. simpl. by rewrite drop_nil, app_nil_r.
  - destruct (sw_objects w' Hi p c' Hc') as [[_ Hp _ _ _ _] _]. rewrite Hp. unfold conn_interest. by rewrite Hnil.
Qed.

(** C11: the answer to a push request is queued as a well-formed message, the
    header buffered there with the length of the new body and then the body,
    on the connection that now has the address and the descriptor the request
    named; without such a connection the worker is left as it was. The code
    knows a connection by this pair only, so after a close it can be a later
    connection that got both ([stale_answer]); that connection's buffer is
    required to start with a header here. *)
Theorem response_wellformed fuel this w g msg h rest :
  sw_reach fuel this w g → text_ok json_write msg → xhead_ok h →
  (∀ p c bs, tcp w !! p = Some c → conn msg = Some p → repr (querybuf c) bs → bs = xhead_bytes h ++ rest) →
  ∃ w', _response_server_offer json_write msg w = Val w' ∧
    match conn msg ≫= (λ p, guard (lookup_conn (fd msg) w = Some p);; Some p) with
    | None => w' = w
    | Some p =>
        let text := json_write (response_members msg) in
        ∃ c r, tcp w !! p = Some c ∧
          tcp w' !! p = Some (set_replies (reply_list c ++ [r]) (cur_resp_pos c) c) ∧
          holds r (xhead_bytes (XHead (id h) (version h) (log_id h) (provider h) (magic_num h) (reserved h)
                                  (Z.of_nat (length text))) ++ text)
    end.
Proof.
  intros Hr%sw_reach_inv Ht Hh Hb.
  destruct (response_server_offer_spec json_write w msg Hr Ht) as (w' & E1 & _ & Hm).
  { intros p c bs Hc Hp Hbs. rewrite (Hb p c bs Hc Hp Hbs), length_app, length_xhead_bytes; [unfold XHEAD_SIZE; lia|].
    by destruct Hh as (_ & (? & _) & _). }
  exists w'. split; [done|]. destruct (conn msg) as [p|] eqn:Ec; [|done].
  cbn [mbind option_bind] in *.
  destruct (decide (lookup_conn (fd msg) w = Some p)) as [Hg|Hg];
    [rewrite option_guard_True in Hm |- * by done|rewrite option_guard_False in Hm |- * by done; done].
  cbn [mbind option_bind] in *. destruct Hm as (c & bs & r & Hc & Hbs & Hhold & Htcp). exists c, r.
  split_and!; [done|by rewrite Htcp, lookup_insert_eq|].
  rewrite (Hb p c bs Hc eq_refl Hbs), response_bytes_head in Hhold by done. exact Hhold.
Qed.

(** C13: a connection is closed by its timer exactly when the configured time
    has passed since its last interaction: its object and its slot go, its
    descriptor is closed once; before that the timer changes nothing. *)
Theorem timeout_closes fuel this w g p c now :
  sw_reach fuel this w g → tcp w !! p = Some c →
  ∃ w', conn_timer_cb now p w = Val w' ∧
    (if u64 (connection_timeout (_options w)) <=? u64 (now - last_interaction_time c)
     then tcp w' !! p = None ∧ lookup_conn (fd_ c) w' = None ∧ closed w' = closed w ++ [fd_ c]
     else w' = w).
Proof.
  intros Hr%sw_reach_inv Hc. destruct (process_timeout_spec w p c now Hr Hc) as (w' & E1 & _ & Hm).
  exists w'. split; [done|]. case_match; [|done]. destruct Hm as (Ht & Hcl & Hlk).
  split_and!; [by rewrite Ht, lookup_delete_eq|done|done].
Qed.
End Properties.

(** ** Witnesses

    A worker is started, accepts descriptor 9, receives a request on it, gets
    the answer of the RTC side and is stopped. *)

#[local] Existing Instance demo_alloc.
#[local] Existing Instance demo_spec.
#[local] Existing Instance demo_total.

Definition demo_write (ms : list (string * jvalue)) : list Z := b#"{ok}".
Definition demo_conf : signaling_server_conf := SignalingConf [] 9000 1 5000000.
Definition demo_peer : sys sockaddr_in := Ok (SockAddr [31; 144] [127; 0; 0; 1]).

Definition demo_w0 : SignalingWorker demo_ev :=
  match init 1 (Ok (5, 6)) (SignalingWorker_new 1 0 demo_conf 1) with
  | Val (_, w) => w
  | _ => SignalingWorker_new 1 0 demo_conf 1
  end.

Definition demo_event (ev : sw_event) (s : SignalingWorker demo_ev * list RtcMsg) : SignalingWorker demo_ev * list RtcMsg :=
  match sw_step demo_write 3 1 ev s.1 s.2 with Some (Val s') => s' | _ => s end.

Definition demo_s0 : SignalingWorker demo_ev * list RtcMsg := demo_event EvStart (demo_w0, []).
Definition demo_s1 : SignalingWorker demo_ev * list RtcMsg := demo_event (EvAccept 9) demo_s0.
Definition demo_s2 : SignalingWorker demo_ev * list RtcMsg := demo_event (EvNotify demo_peer 100) demo_s1.
Definition demo_request : list Z := xhead_bytes demo_head ++ demo_body.
Definition demo_s3 : SignalingWorker demo_ev * list RtcMsg :=
  demo_event (EvIo 9 READ (Ok demo_request) [] 200) demo_s2.
Definition demo_s4 : SignalingWorker demo_ev * list RtcMsg :=
  demo_event (EvIo 9 READ (Ok demo_body) [] 300) demo_s3.
Definition demo_answer : RtcMsg := Msg 1 42 (b#"streamName") 1 1 77 (Some 1) (Some 0) (b#"offer") 0 9.
Definition demo_s5 : SignalingWorker demo_ev * list RtcMsg := demo_event (EvAnswer demo_answer) demo_s4.
Definition demo_s6 : SignalingWorker demo_ev * list RtcMsg := demo_event (EvNotify demo_peer 400) demo_s5.
Definition demo_s7 : SignalingWorker demo_ev * list RtcMsg := demo_event EvStop demo_s6.
Definition demo_s8 : SignalingWorker demo_ev * list RtcMsg := demo_event (EvNotify demo_peer 500) demo_s7.

(** The object of the connection, once its two reads are done. *)
Definition demo_c4 : TcpConnection :=
  match tcp demo_s4.1 !! 0 with Some c => c | None => demo_conn (Sds 0 0 [0]) 0 0 0 end.

Notation demo_reach s := (sw_reach demo_write 3 1 s.1 s.2).

Lemma demo_reach0 : demo_reach demo_s0.
Proof.
  eapply (sw_reach_step _ _ _ demo_w0 [] EvStart); [|done|vm_compute; reflexivity].
  apply (sw_reach_init demo_write 3 1 0 demo_conf 1 5 6); [lia|vm_compute; reflexivity].
Qed.

Lemma demo_reach1 : demo_reach demo_s1.
Proof. eapply (sw_reach_step _ _ _ _ _ (EvAccept 9)); [apply demo_reach0|done|vm_compute; reflexivity]. Qed.

(** Live connections and the queue of a concrete state, by computation. *)
Lemma lookup_total_tcp (w : SignalingWorker demo_ev) p c l :
  map_to_list (tcp w) = l → tcp w !! p = Some c → (p, c) ∈ l.
Proof. intros <- Hc. by apply elem_of_map_to_list. Qed.

Lemma demo_reach2 : demo_reach demo_s2.
Proof.
  eapply (sw_reach_step _ _ _ _ _ (EvNotify demo_peer 100)); [apply demo_reach1| |vm_compute; reflexivity].
  split.
  - intros fd fds Hq. apply consume_spec in Hq as (q & Hq & _). right. vm_compute in Hq. simplify_eq.
    unfold INT_MAX. split_and!; [lia|lia|]. intros p c Hc.
    eapply lookup_total_tcp in Hc; [|vm_compute; reflexivity]. set_solver.
  - intros msg Hm. vm_compute in Hm. done.
Qed.

Lemma read_room_small c : bytes_expected c ≤ 1000 → len (querybuf c) ≤ 1000 → read_room c.
Proof. intros He Hl bs Hr. rewrite (repr_len _ _ Hr) in Hl. sds_bounds. split; lia. Qed.

(** A concrete state whose only connection is 0 with small numbers. *)
Lemma demo_io_ok (w : SignalingWorker demo_ev) c fd events avail answers now :
  map_to_list (tcp w) = [(0, c)] → bytes_expected c ≤ 1000 → len (querybuf c) ≤ 1000 → bytes_ok avail →
  Forall answer_ok answers → event_ok demo_write w (EvIo fd events (Ok avail) answers now).
Proof.
  intros Hw He Hl Ha Han. split_and!; [by intros ? [= <-]|done|]. intros p d _ Hd.
  eapply lookup_total_tcp in Hd; [|exact Hw]. apply list_elem_of_singleton in Hd as [= -> ->].
  by apply read_room_small.
Qed.

Lemma demo_reach3 : demo_reach demo_s3.
Proof.
  eapply (sw_reach_step _ _ _ _ _ (EvIo 9 READ (Ok demo_request) [] 200)); [apply demo_reach2| |vm_compute; reflexivity].
  eapply demo_io_ok; [vm_compute; reflexivity|vm_compute; congruence|vm_compute; congruence| |by apply Forall_nil_2].
  apply (bool_decide_unpack _). vm_compute. exact I.
Qed.

Lemma demo_reach4 : demo_reach demo_s4.
Proof.
  eapply (sw_reach_step _ _ _ _ _ (EvIo 9 READ (Ok demo_body) [] 300)); [apply demo_reach3| |vm_compute; reflexivity].
  eapply demo_io_ok; [vm_compute; reflexivity|vm_compute; congruence|vm_compute; congruence| |by apply Forall_nil_2].
  apply (bool_decide_unpack _). vm_compute. exact I.
Qed.

Lemma demo_reach5 : demo_reach demo_s5.
Proof. eapply (sw_reach_step _ _ _ _ _ (EvAnswer demo_answer)); [apply demo_reach4|done|vm_compute; reflexivity]. Qed.

Lemma demo_text_ok msg : text_ok demo_write msg.
Proof. split; [apply (bool_decide_unpack _); vm_compute; exact I|vm_compute; reflexivity]. Qed.

(** The buffer of connection 0 holds the request. *)
Lemma demo_buffered (w : SignalingWorker demo_ev) p c bs :
  map_to_list (tcp w) = [(0, demo_c4)] → tcp w !! p = Some c → repr (querybuf c) bs →
  bs = xhead_bytes demo_head ++ demo_body.
Proof.
  intros Hw Hc Hr. eapply lookup_total_tcp in Hc; [|exact Hw].
  apply list_elem_of_singleton in Hc. apply (f_equal snd) in Hc. cbn [snd] in Hc. subst c. destruct (repr_content _ _ Hr) as (Hl & Ht & _).
  assert (Z.of_nat (length bs) = 41) as H41 by (rewrite <- Hl; vm_compute; reflexivity).
  rewrite <- Ht. replace (length bs) with 41%nat by lia. vm_compute. reflexivity.
Qed.

Lemma demo_tcp4 : map_to_list (tcp demo_s4.1) = [(0, demo_c4)].
Proof. vm_compute. reflexivity. Qed.

Lemma demo_tcp5 : map_to_list (tcp demo_s5.1) = [(0, demo_c4)].
Proof. vm_compute. reflexivity. Qed.

Lemma demo_reach6 : demo_reach demo_s6.
Proof.
  eapply (sw_reach_step _ _ _ _ _ (EvNotify demo_peer 400)); [apply demo_reach5| |vm_compute; reflexivity].
  split.
  - intros fd fds Hq. apply consume_spec in Hq as (q & Hq & _). vm_compute in Hq. done.
  - intros msg _. split; [apply demo_text_ok|]. intros p c bs Hc _ Hr.
    rewrite (demo_buffered _ p c bs demo_tcp5 Hc Hr). vm_compute. congruence.
Qed.

Lemma demo_reach7 : demo_reach demo_s7.
Proof. eapply (sw_reach_step _ _ _ _ _ EvStop); [apply demo_reach6|done|vm_compute; reflexivity]. Qed.

(** Nothing is queued when the worker reads the request to stop. *)
Lemma demo_stop_ok : event_ok demo_write demo_s7.1 (EvNotify demo_peer 500).
Proof.
  split.
  - intros fd fds Hq. apply consume_spec in Hq as (q & Hq & _). vm_compute in Hq. done.
  - intros msg Hm. vm_compute in Hm. done.
Qed.

Lemma demo_reach8 : demo_reach demo_s8.
Proof. eapply (sw_reach_step _ _ _ _ _ (EvNotify demo_peer 500)); [apply demo_reach7|apply demo_stop_ok|vm_compute; reflexivity]. Qed.

(** After the stop: the pipe is closed and the connection still there. *)
Lemma worker_invariant_witness :
  pipe demo_s8.1 = None ∧ closed demo_s8.1 = [5; 6] ∧
  lookup_conn 9 demo_s8.1 = Some 0 ∧ ∃ c, tcp demo_s8.1 !! 0 = Some c ∧ fd_ c = 9.
Proof.
  assert (lookup_conn 9 demo_s8.1 = Some 0) as E by (vm_compute; reflexivity).
  split; [vm_compute; reflexivity|]. split; [vm_compute; reflexivity|]. split; [exact E|].
  apply (proj2 (worker_invariant demo_write 3 1 demo_s8.1 demo_s8.2 demo_reach8) 9 0 E).
Defined.

(** One handler that writes and one that stops the worker. *)
Lemma worker_safe_witness :
  let returns ev s :=
    (sw_step demo_write 3 1 ev s.1 s.2 = None ∧ (still_parsing 3 1 ev s.1 s.2 ∨ still_writing 3 1 ev s.1 s.2)) ∨
    ∃ w' g', sw_step demo_write 3 1 ev s.1 s.2 = Some (Val (w', g')) in
  returns (EvIo 9 WRITE (Ok []) [Ok 100] 500) demo_s6 ∧ returns (EvNotify demo_peer 500) demo_s7.
Proof.
  split.
  - apply (worker_safe demo_write 3 1 demo_s6.1 demo_s6.2 _ demo_reach6).
    eapply demo_io_ok; [vm_compute; reflexivity|vm_compute; congruence|vm_compute; congruence|by apply Forall_nil_2|].
    apply Forall_cons_2; [simpl; lia|by apply Forall_nil_2].
  - exact (worker_safe demo_write 3 1 demo_s7.1 demo_s7.2 _ demo_reach7 demo_stop_ok).
Defined.

Definition demo_c6 : TcpConnection :=
  match tcp demo_s6.1 !! 0 with Some c => c | None => demo_c4 end.
Definition demo_reply : list Z :=
  xhead_bytes (XHead 1 2 77 (b#"rtc-client-0001!") XHEAD_MAGIC 0 4) ++ b#"{ok}".

Lemma demo_c6_live : tcp demo_s6.1 !! 0 = Some demo_c6.
Proof. vm_compute. reflexivity. Qed.

Lemma demo_c6_replies : ∃ bss, Forall2 holds (reply_list demo_c6) bss.
Proof.
  destruct (sw_objects _ (sw_reach_inv _ _ _ _ _ demo_reach6) 0 demo_c6 demo_c6_live) as [Hok _].
  apply replies_hold, Hok.
Qed.

Lemma replies_in_order_witness :
  ∃ bss e sent w' c' bss', _write_reply [Ok 7; Err EAGAIN; Ok 1000] 500 (fd_ demo_c6) demo_s6.1 = Val (e, sent, w') ∧
    tcp w' !! 0 = Some c' ∧ Forall2 holds (reply_list c') bss' ∧
    unsent bss (cur_resp_pos demo_c6) = sent ++ unsent bss' (cur_resp_pos c').
Proof.
  destruct demo_c6_replies as [bss Hbss].
  destruct (replies_in_order demo_write 3 1 demo_s6.1 demo_s6.2 0 demo_c6 [Ok 7; Err EAGAIN; Ok 1000] 500 bss)
    as (e & sent & w' & c' & bss' & H1 & H2 & H3 & H4 & _).
  - exact demo_reach6.
  - exact demo_c6_live.
  - repeat (apply Forall_cons_2; [simpl; lia || exact I|]). apply Forall_nil_2.
  - exact Hbss.
  - exists bss, e, sent, w', c', bss'. split; [exact H1|]. split; [exact H2|]. split; [exact H3|exact H4].
Defined.

Lemma response_wellformed_witness :
  ∃ w', _response_server_offer demo_write demo_answer demo_s4.1 = Val w' ∧
    ∃ c r, tcp demo_s4.1 !! 0 = Some c ∧
      tcp w' !! 0 = Some (set_replies (reply_list c ++ [r]) (cur_resp_pos c) c) ∧ holds r demo_reply.
Proof.
  apply (response_wellformed demo_write 3 1 demo_s4.1 demo_s4.2 demo_answer demo_head demo_body).
  - apply demo_reach4.
  - apply demo_text_ok.
  - apply (bool_decide_unpack _). vm_compute. exact I.
  - intros p c bs Hc _ Hr. exact (demo_buffered _ p c bs demo_tcp4 Hc Hr).
Defined.

Lemma timeout_closes_witness :
  ∃ w', conn_timer_cb 5000300 0 demo_s4.1 = Val w' ∧ tcp w' !! 0 = None ∧ lookup_conn 9 w' = None ∧ closed w' = [9].
Proof. apply (timeout_closes demo_write 3 1 demo_s4.1 demo_s4.2 0 demo_c4 5000300); [apply demo_reach4|vm_compute; reflexivity]. Defined.

(** ** What the code gets wrong *)

(** Descriptor 0 on an empty table: [resize(0)] makes no room for its slot. *)
Example new_conn_zero : new_conn 1 demo_peer 100 0 demo_w0 = Undef.
Proof. vm_compute. reflexivity. Qed.

(** A connection is closed while its request is in flight, and the next one
    gets the same descriptor and address: the answer finds "its" connection
    and copies a header from a buffer that holds none. *)
Example stale_answer :
  match close_conn_ 0 demo_s4.1 with
  | Val w =>
      match new_conn 1 demo_peer 900 9 w with
      | Val w => _response_server_offer demo_write demo_answer w = Undef
      | _ => False
      end
  | _ => False
  end.
Proof. vm_compute. reflexivity. Qed.

(** While the socket is full the write loop does not leave: it asks again at
    once, as often as the kernel refuses, and the callback does not return. *)
Example write_spins :
  write_loop (replicate 1000 (Err EAGAIN)) [slice_new [1; 2; 3] 3] 0 [] = Val (WSpin, [slice_new [1; 2; 3] 3], 0, []).
Proof. vm_compute. reflexivity. Qed.

Example callback_spins :
  conn_io_cb 3 1 (Ok []) (replicate 1000 (Err EAGAIN)) 500 9 WRITE demo_s6.1 demo_s6.2 = None.
Proof. vm_compute. reflexivity. Qed.
