(* ===== verification/SignalingServer.v ===== *)
(** * The signaling server (server/signaling_server.hpp, signaling_server.cpp)

    The server owns the listening socket and the signaling workers; its thread
    accepts connections and hands each to the next worker in turn. The answers
    of the kernel and of the YAML library are inputs. A worker's thread is
    another thread: what it has done to its worker when [join] returns is an
    input of [_stop]. *)

From S2P Require Import Prelude LockFreeQueue EventLoop Socket SignalingWorker SignalingInv.

Definition QUIT : Z := 0.
Definition CB_RECV_NOTIFY : Z := 6.
Definition CB_ACCEPT : Z := 7.

Record SignalingServer (L : Type) := SS {
  _options : signaling_server_conf;
  event_loop_ : EventLoop L;
  IO_conn_watcher_ : option Z;
  _thread : bool;
  IO_pipe_watcher_ : option Z;
  _notify_recv_fd : Z;
  _notify_send_fd : Z;
  _listen_fd : Z;
  workers_ : list (SignalingWorker L);
  next_worker_ : Z;
  pipe : option (list Z);            (* pending notifications *)
  closed : list Z                    (* descriptors closed so far *)
}.
Arguments SS {_} _ _ _ _ _ _ _ _ _ _ _ _.
Arguments _options {_} _.
Arguments event_loop_ {_} _.
Arguments IO_conn_watcher_ {_} _.
Arguments _thread {_} _.
Arguments IO_pipe_watcher_ {_} _.
Arguments _notify_recv_fd {_} _.
Arguments _notify_send_fd {_} _.
Arguments _listen_fd {_} _.
Arguments workers_ {_} _.
Arguments next_worker_ {_} _.
Arguments pipe {_} _.
Arguments closed {_} _.

(** The document [YAML::LoadFile] returns: each member with its conversion,
    [None] where the conversion throws. *)
Record yaml_conf := YamlConf {
  y_host : option (list Z);
  y_port : option Z;
  y_worker_num : option Z;
  y_connection_timeout : option Z
}.

(** The assignments of the [try] block: the options as far as they were
    assigned, and whether an exception was thrown. *)
Definition load_options (y : yaml_conf) (o : signaling_server_conf) : bool * signaling_server_conf :=
  match y_host y with
  | None => (false, o)
  | Some h =>
      let o := SignalingConf h (port o) (worker_num o) (connection_timeout o) in
      match y_port y with
      | None => (false, o)
      | Some p =>
          let o := SignalingConf h p (worker_num o) (connection_timeout o) in
          match y_worker_num y with
          | None => (false, o)
          | Some n =>
              let o := SignalingConf h p n (connection_timeout o) in
              match y_connection_timeout y with
              | None => (false, o)
              | Some t => (true, SignalingConf h p n t)
              end
          end
      end
  end.

Section Server.
Context {L : Type} {E : LibEv L}.
Implicit Types s : SignalingServer L.

Definition set_workers (ws : list (SignalingWorker L)) (next : Z) s : SignalingServer L :=
  SS (_options s) (event_loop_ s) (IO_conn_watcher_ s) (_thread s) (IO_pipe_watcher_ s) (_notify_recv_fd s)
    (_notify_send_fd s) (_listen_fd s) ws next (pipe s) (closed s).

Definition set_pipe (ns : option (list Z)) s : SignalingServer L :=
  SS (_options s) (event_loop_ s) (IO_conn_watcher_ s) (_thread s) (IO_pipe_watcher_ s) (_notify_recv_fd s)
    (_notify_send_fd s) (_listen_fd s) (workers_ s) (next_worker_ s) ns (closed s).

(** The numbers of [_options] hold no value before [Init]. *)
Definition SignalingServer_new (this : Z) : SignalingServer L :=
  SS (SignalingConf [] 0 0 0) (event_loop_new this) None false None (-1) (-1) (-1) [] 0 None [].

Definition create_worker (this q_node : Z) (ans : sys (Z * Z)) (worker_id : Z) s : res (Z * SignalingServer L) :=
  let* '(rc, w) := SignalingWorker.init this ans (SignalingWorker_new this worker_id (_options s) q_node) in
  if negb (rc =? 0) then Val (-1, s)
  else
    let '(ok, w) := SignalingWorker.start w in
    if negb ok then Val (-1, s) else Val (0, set_workers (workers_ s ++ [w]) (next_worker_ s) s).

(** The loop over the workers at the end of [Init]. *)
Fixpoint create_workers (n : nat) (i : Z) (addr : Z → Z * Z) (answers : Z → sys (Z * Z)) s
    : res (Z * SignalingServer L) :=
  match n with
  | O => Val (0, s)
  | S n =>
      let* '(rc, s) := create_worker (addr i).1 (addr i).2 (answers i) i s in
      if negb (rc =? 0) then Val (-1, s) else create_workers n (i + 1) addr answers s
  end.

Definition Init (this : Z) (conf_file : list Z) (yaml : option yaml_conf) (pipe_ans : sys (Z * Z))
    (listen_ans : server_answers) (addr : Z → Z * Z) (answers : Z → sys (Z * Z)) s : res (Z * SignalingServer L) :=
  if bool_decide (conf_file = []) then Val (-1, s)
  else
    match yaml with
    | None => Val (-1, s)
    | Some y =>
        let '(ok, o) := load_options y (_options s) in
        let s := SS o (event_loop_ s) (IO_conn_watcher_ s) (_thread s) (IO_pipe_watcher_ s) (_notify_recv_fd s)
                   (_notify_send_fd s) (_listen_fd s) (workers_ s) (next_worker_ s) (pipe s) (closed s) in
        if negb ok then Val (-1, s)
        else
          match pipe_ans with
          | Err _ => Val (-1, s)
          | Ok (rfd, sfd) =>
              let '(pw, el) := creat_io_event CB_RECV_NOTIFY this (event_loop_ s) in
              let* el := start_io_event pw rfd READ el in
              let '(lfd, cl) := create_tcp_server listen_ans (host o) in
              let s := SS o el (IO_conn_watcher_ s) (_thread s) (Some pw) rfd sfd lfd (workers_ s) (next_worker_ s)
                         (Some []) (closed s ++ cl) in
              if lfd <? 0 then Val (-1, s)
              else
                let '(cw, el) := creat_io_event CB_ACCEPT this el in
                let* el := start_io_event cw lfd READ el in
                let s := SS o el (Some cw) (_thread s) (Some pw) rfd sfd lfd (workers_ s) (next_worker_ s)
                           (pipe s) (closed s) in
                create_workers (Z.to_nat (worker_num o)) 0 addr answers s
          end
    end.

Definition start s : bool * SignalingServer L :=
  if _thread s then (false, s)
  else (true, SS (_options s) (event_loop_ s) (IO_conn_watcher_ s) true (IO_pipe_watcher_ s) (_notify_recv_fd s)
                (_notify_send_fd s) (_listen_fd s) (workers_ s) (next_worker_ s) (pipe s) (closed s)).

Definition notify (msg : Z) s : Z * SignalingServer L :=
  match pipe s with
  | None => (-1, s)
  | Some ns => (0, set_pipe (Some (ns ++ [msg])) s)
  end.

Definition stop s : SignalingServer L := (notify QUIT s).2.

(** [index] is taken before the wrap; the index operator is not checked. *)
Definition dispatch_conn (fd : Z) s : res (SignalingServer L) :=
  let index := next_worker_ s in
  let next := next_worker_ s + 1 in
  let next := if Z.of_nat (length (workers_ s)) <=? u64 next then 0 else next in
  let* w := of_mem (if 0 <=? index then workers_ s !! Z.to_nat index else None) in
  let* '(_, w) := notify_new_conn fd w in
  Val (set_workers (<[Z.to_nat index := w]> (workers_ s)) next s).

(** The callback of the listening socket; [cip] is the local buffer. *)
Definition accept_new_conn (cip : list Z) (ans : sys (Z * sockaddr_in)) s : res (SignalingServer L) :=
  let* '(cfd, _, _) := tcp_accept ans (Some cip) in
  if cfd =? -1 then Val s else dispatch_conn cfd s.

(** [for(auto worker : workers_) { worker->stop(); worker->join(); }] *)
Fixpoint stop_workers (joined : SignalingWorker L → option (SignalingWorker L)) (ws : list (SignalingWorker L))
    : option (list (SignalingWorker L)) :=
  match ws with
  | [] => Some []
  | w :: ws => w ← joined (SignalingWorker.stop w); ws ← stop_workers joined ws; Some (w :: ws)
  end.

(** [None] when a [join] waits for ever. *)
Definition _stop (joined : SignalingWorker L → option (SignalingWorker L)) s : option (res (SignalingServer L)) :=
  if negb (_thread s) then Some (Val s)
  else
    match
      (let* pw := of_mem (IO_pipe_watcher_ s) in
       let* el := delete_io_event pw (event_loop_ s) in
       let* cw := of_mem (IO_conn_watcher_ s) in
       delete_io_event cw el)
    with
    | Val el =>
        ws ← stop_workers joined (workers_ s);
        Some (Val (SS (_options s) (EventLoop.stop el) (IO_conn_watcher_ s) (_thread s) (IO_pipe_watcher_ s)
                     (_notify_recv_fd s) (_notify_send_fd s) (_listen_fd s) ws (next_worker_ s) None
                     (closed s ++ [_notify_recv_fd s; _notify_send_fd s; _listen_fd s])))
    | _ => Some Undef
    end.

Definition _process_notify (joined : SignalingWorker L → option (SignalingWorker L)) (msg : Z) s
    : option (res (SignalingServer L)) :=
  if msg =? QUIT then _stop joined s else Some (Val s).

Definition signaling_server_recv_notify (joined : SignalingWorker L → option (SignalingWorker L)) s
    : option (res (SignalingServer L)) :=
  match pipe s with
  | Some (msg :: ns) => _process_notify joined msg (set_pipe (Some ns) s)
  | _ => Some (Val s)
  end.

(** The thread the caller of [join] waits for: it serves the notifications
    until the loop was stopped, which closes the pipe. *)
Fixpoint serve (joined : SignalingWorker L → option (SignalingWorker L)) (n : nat) s : option (res (SignalingServer L)) :=
  match pipe s with
  | None => Some (Val s)
  | Some [] => None
  | Some _ =>
      match n with
      | O => None
      | S n =>
          match signaling_server_recv_notify joined s with
          | Some (Val s) => serve joined n s
          | r => r
          end
      end
  end.

Definition join (joined : SignalingWorker L → option (SignalingWorker L)) s : option (res (SignalingServer L)) :=
  if _thread s then serve joined (length (default [] (pipe s))) s else Some (Val s).

(** The destructor deletes the workers in order; a thread that can still be
    joined terminates the program. *)
Definition SignalingServer_delete (joinable : bool) s : res (list (SignalingWorker L)) :=
  if _thread s && joinable then Aborted
  else foldr (λ w r, let* w := SignalingWorker_delete w in let* ws := r in Val (w :: ws)) (Val []) (workers_ s).
End Server.

(** ** Dealing connections out in turn *)

(** Every [n]-th of the descriptors, from the [i]-th on. *)
Definition deal (n i : nat) (fds : list Z) : list Z :=
  omap id (imap (λ j fd, if decide (j mod n = i)%nat then Some fd else None) fds).

Lemma deal_snoc n i fds fd :
  deal n i (fds ++ [fd]) = deal n i fds ++ (if decide (length fds mod n = i)%nat then [fd] else []).
Proof.
  unfold deal. rewrite imap_app, omap_app. f_equal. simpl. rewrite Nat.add_0_r. by destruct (decide _).
Qed.

Lemma deal_round n i xs : (i < n)%nat → (length xs ≤ n)%nat → deal n i xs = option_list (xs !! i).
Proof.
  intros Hi. induction xs as [|x xs IH] using rev_ind; intros Hl; [done|].
  rewrite deal_snoc, IH by len_solve. rewrite length_app in Hl. simpl in Hl. rewrite Nat.mod_small by lia.
  destruct (decide (length xs = i)) as [<-|Hne].
  - by rewrite lookup_ge_None_2, lookup_app_r, Nat.sub_diag by lia.
  - rewrite app_nil_r. destruct (decide (i < length xs)%nat); [by rewrite lookup_app_l|].
    rewrite !(lookup_ge_None_2 _ i); [done|len_solve|lia].
Qed.

Lemma deal_split n i xs ys : length xs = n → (i < n)%nat → deal n i (xs ++ ys) = option_list (xs !! i) ++ deal n i ys.
Proof.
  intros Hl Hi. rewrite <- (deal_round n i xs) by lia. unfold deal. rewrite imap_app, omap_app. f_equal. f_equal.
  apply imap_ext. intros j fd _. simpl. rewrite Hl.
  by rewrite <- (Nat.Div0.add_mod_idemp_l n j n), Nat.Div0.mod_same.
Qed.

Lemma deal_lookup n i j fds : (i < n)%nat → deal n i fds !! j = fds !! (j * n + i)%nat.
Proof.
  intros Hi. revert fds. induction j as [|j IH]; intros fds; destruct (decide (length fds ≤ n)%nat) as [Hl|Hl].
  - rewrite deal_round by done. simpl. by destruct (fds !! i).
  - simpl. rewrite <- (take_drop n fds) at 1. rewrite deal_split, lookup_take_lt by (rewrite ?length_take; lia).
    destruct (fds !! i) eqn:E; [done|]. apply lookup_ge_None in E. lia.
  - rewrite deal_round, (lookup_ge_None_2 fds (S j * n + i)) by lia. by destruct (fds !! i).
  - rewrite <- (take_drop n fds) at 1. rewrite deal_split, lookup_take_lt by (rewrite ?length_take; lia).
    destruct (lookup_lt_is_Some_2 fds i) as [x ->]; [lia|]. simpl. rewrite IH, lookup_drop. f_equal. lia.
Qed.

Section Dispatch.
Context {L : Type} {E : LibEv L} {ES : LibEvSpec L}.
Implicit Types s : SignalingServer L.

(** A server configured by [Init] for [n] workers. *)
Definition configured (n : nat) s : Prop :=
  ∃ this file y rfd sfd la addr answers, 0 ≤ rfd ∧ (∀ j r d, answers j = Ok (r, d) → 0 ≤ r) ∧
    y_worker_num y = Some (Z.of_nat n) ∧
    Init this file (Some y) (Ok (rfd, sfd)) la addr answers (SignalingServer_new this) = Val (0, s).

(** The descriptors dealt out so far wait in the queues of the workers, with
    one notification for each. *)
Record dealt (n : nat) (fds : list Z) s : Prop := Dealt {
  dealt_len : length (workers_ s) = n;
  dealt_next : next_worker_ s = Z.of_nat (length fds mod n);
  dealt_queues i w : workers_ s !! i = Some w →
    queue_of (q_conn_ w) (deal n i fds) ∧
    SignalingWorker.pipe w = Some (replicate (length (deal n i fds)) NEW_CONN)
}.

(** A worker that [Init] has created and started. *)
Definition worker_ready (w : SignalingWorker L) : Prop :=
  sw_inv w ∧ thread_ w = true ∧ SignalingWorker.pipe w = Some [] ∧ queue_of (q_conn_ w) [].

Lemma signaling_workers_spec addr answers n : ∀ i s s',
  (∀ j r d, answers j = Ok (r, d) → 0 ≤ r) →
  create_workers n i addr answers s = Val (0, s') →
  ∃ ws, s' = set_workers (workers_ s ++ ws) (next_worker_ s) s ∧ length ws = n ∧ Forall worker_ready ws.
Proof.
  induction n as [|n IH]; intros i s s' Ha; cbn [create_workers].
  - intros H. apply (f_equal (λ r, match r with Val (_, x) => x | _ => s end)) in H. simpl in H. subst s'.
    exists []. destruct s. by rewrite app_nil_r.
  - unfold create_worker. destruct (answers i) as [[r d]|e] eqn:Ei; [|simpl; congruence].
    destruct (SignalingInv.init_spec (addr i).1 i (_options s) (addr i).2 r d (Ha _ _ _ Ei))
      as (w & -> & Hi & Hp & Ht & Hq). cbn [mbind_res Z.eqb negb]. pose proof (start_worker_spec w Hi) as Hi'.
    unfold SignalingWorker.start in *. rewrite Ht in *. cbn [negb mbind_res snd] in *.
    intros H. destruct (IH _ _ _ Ha H) as (ws & -> & Hl & Hf). eexists (_ :: ws).
    split_and!; [|by simpl; rewrite Hl|constructor; [|done]].
    + unfold set_workers. cbn. by rewrite <- app_assoc.
    + done.
Qed.

Lemma load_options_num y o o' n :
  load_options y o = (true, o') → y_worker_num y = Some n → worker_num o' = n.
Proof.
  unfold load_options. intros H Hn. rewrite Hn in H. case_match; [|done]. case_match; [|done]. case_match; [|done].
  by simplify_eq/=.
Qed.

(** What [Init] leaves behind: the loop watches the pipe and the listening
    socket, and every worker is started. *)
Record ready s : Prop := Ready {
  rd_pipe : pipe s = Some [];
  rd_thread : _thread s = false;
  rd_loop : el_inv (event_loop_ s);
  rd_watch : ∃ pw cw, IO_pipe_watcher_ s = Some pw ∧ IO_conn_watcher_ s = Some cw ∧ pw ≠ cw ∧
    is_Some (io_watchers (event_loop_ s) !! pw) ∧ is_Some (io_watchers (event_loop_ s) !! cw);
  rd_workers : Forall worker_ready (workers_ s)
}.

(** A watcher that was created and started is there, with the others. *)
Lemma watch_spec (el : EventLoop L) cb this fd :
  el_inv el → 0 ≤ fd →
  let '(id, el1) := creat_io_event cb this el in
  ∃ el2, start_io_event id fd READ el1 = Val el2 ∧ el_inv el2 ∧ io_watchers el !! id = None ∧
    is_Some (io_watchers el2 !! id) ∧ ∀ j, j ≠ id → io_watchers el2 !! j = io_watchers el !! j.
Proof.
  intros Hi Hfd. pose proof (creat_io_event_spec el cb this Hi) as Hs. destruct (creat_io_event _ _ _) as [id el1].
  destruct Hs as (Hi1 & Hn & Hw & _ & _ & _).
  destruct (start_io_event_spec el1 id fd READ) as (el2 & E2 & Hi2 & Hf & _);
    [done|by rewrite Hw, lookup_insert_eq|done|done|]. exists el2. split_and!; [done|done|done| |].
  - pose proof (fr_callback _ _ _ Hf) as Hcb. rewrite Hw, lookup_insert_eq in Hcb. by destruct (io_watchers el2 !! id).
  - intros j Hj. rewrite (fr_others _ _ _ Hf) by done. by rewrite Hw, lookup_insert_ne.
Qed.

Lemma Init_ready this file y rfd sfd la addr answers n s :
  0 ≤ rfd → (∀ j r d, answers j = Ok (r, d) → 0 ≤ r) → y_worker_num y = Some n →
  Init this file (Some y) (Ok (rfd, sfd)) la addr answers (SignalingServer_new this) = Val (0, s) →
  ready s ∧ length (workers_ s) = Z.to_nat n ∧ next_worker_ s = 0.
Proof.
  intros Hr Ha Hn Hi. unfold Init in Hi.
  case_bool_decide; [congruence|]. cbn [_options SignalingServer_new] in Hi.
  destruct (load_options y _) as [ok o] eqn:Eo. destruct ok; cbn [negb] in Hi; [|congruence].
  apply (load_options_num _ _ _ _ Eo) in Hn. cbn [event_loop_] in Hi.
  pose proof (watch_spec (event_loop_new this : EventLoop L) CB_RECV_NOTIFY this rfd (event_loop_new_inv _) Hr) as Hs.
  destruct (creat_io_event _ _ _) as [pw el]. destruct Hs as (el1 & Ee & Hi1 & _ & Hw & _).
  rewrite Ee in Hi. cbn [mbind_res] in Hi.
  destruct (create_tcp_server la (host o)) as [lfd cl]. destruct (lfd <? 0) eqn:El; [congruence|]. reflect_Z.
  pose proof (watch_spec el1 CB_ACCEPT this lfd Hi1 El) as Hs.
  destruct (creat_io_event _ _ _) as [cw el2]. destruct Hs as (el3 & Ee3 & Hi3 & Hnew & Hcw & Hoth).
  rewrite Ee3 in Hi. cbn [mbind_res] in Hi.
  apply signaling_workers_spec in Hi as (ws & -> & Hl & Hf); [|done]. rewrite Hn in Hl.
  assert (pw ≠ cw) as Hne by (intros ->; rewrite Hnew in Hw; by destruct Hw).
  split; [|done]. split; cbn; [done|done|done| |done]. exists pw, cw. by rewrite (Hoth pw).
Qed.

Lemma configured_dealt n s : configured n s → dealt n [] s.
Proof.
  intros (this & file & y & rfd & sfd & la & addr & answers & Hr & Ha & Hn & Hi).
  destruct (Init_ready _ _ _ _ _ _ _ _ _ _ Hr Ha Hn Hi) as ([_ _ _ _ Hf] & Hl & Hx). rewrite Nat2Z.id in Hl.
  split; [done|by rewrite Hx, Nat.Div0.mod_0_l|]. intros i w Hw.
  by destruct (Forall_lookup_1 _ _ _ _ Hf Hw) as (_ & _ & -> & ?).
Qed.

(** Asked to stop, the thread of a server that was started ends, with the
    threads of its workers. *)
Lemma stop_join_server joined s :
  ready s → (∀ w, worker_ready w → ∃ w', joined (SignalingWorker.stop w) = Some w') →
  ∃ s', join joined (stop (start s).2) = Some (Val s') ∧ pipe s' = None ∧
    closed s' = closed s ++ [_notify_recv_fd s; _notify_send_fd s; _listen_fd s].
Proof.
  intros [Hp Ht Hl (pw & cw & Hpw & Hcw & Hne & Hwp & Hwc) Hws] Hj.
  assert (∃ ws', stop_workers joined (workers_ s) = Some ws') as [ws' Ews].
  { clear -Hws Hj. induction Hws as [|w ws Hw _ [ws' IH]]; cbn [stop_workers]; [by eexists|].
    destruct (Hj w Hw) as [w' ->]. cbn. rewrite IH. by eexists. }
  assert (stop (start s).2 = SS (_options s) (event_loop_ s) (Some cw) true (Some pw) (_notify_recv_fd s)
    (_notify_send_fd s) (_listen_fd s) (workers_ s) (next_worker_ s) (Some [QUIT]) (closed s)) as ->.
  { unfold start. rewrite Ht, <- Hpw, <- Hcw. unfold stop, notify. cbn [pipe snd]. by rewrite Hp. }
  unfold join. cbn [_thread pipe default from_option length Datatypes.id serve].
  unfold signaling_server_recv_notify. cbn [pipe]. change (_process_notify joined QUIT) with (_stop joined).
  unfold _stop. cbn [_thread set_pipe negb IO_pipe_watcher_ IO_conn_watcher_ event_loop_ workers_ of_mem mbind_res].
  destruct (delete_io_event_spec _ _ Hl Hwp) as (el1 & -> & Hl1 & Hd & _). cbn [mbind_res].
  destruct (delete_io_event_spec el1 cw Hl1) as (el2 & -> & _); [by rewrite Hd, lookup_delete_ne|].
  rewrite Ews. cbn. eexists. split; [done|]. by split.
Qed.

Lemma dispatch_spec n fds fd s :
  (0 < n)%nat → Z.of_nat n ≤ INT_MAX → dealt n fds s →
  ∃ s', dispatch_conn fd s = Val s' ∧ dealt n (fds ++ [fd]) s'.
Proof.
  intros Hn0 Hn [Hl Hx Hq]. unfold dispatch_conn. rewrite Hx. set (i := (length fds mod n)%nat).
  assert (i < n)%nat as Hi by (apply Nat.mod_upper_bound; lia). unfold INT_MAX in Hn.
  rewrite (proj2 (Z.leb_le 0 _)), Nat2Z.id, u64_small by lia.
  destruct (lookup_lt_is_Some_2 (workers_ s) i) as [w Ew]; [lia|]. rewrite Ew. cbn [of_mem mbind_res].
  destruct (Hq i w Ew) as [Hqw Hpw]. unfold notify_new_conn.
  destruct (produce_spec _ _ fd Hqw) as (q & -> & Hq'). cbn [of_mem mbind_res].
  unfold SignalingWorker.notify. cbn [SignalingWorker.pipe set_queues]. rewrite Hpw. cbn [mbind_res].
  eexists. split; [done|]. split; cbn [workers_ next_worker_ set_workers].
  - by rewrite length_insert.
  - rewrite length_app, Hl. cbn [length]. rewrite <- (Nat.Div0.add_mod_idemp_l (length fds) 1 n). fold i.
    destruct (Z.leb_spec (Z.of_nat n) (Z.of_nat i + 1)).
    + replace (i + 1)%nat with n by lia. by rewrite Nat.Div0.mod_same.
    + rewrite Nat.mod_small by lia. lia.
  - intros j w' Hj. rewrite deal_snoc. apply list_lookup_insert_Some in Hj as [(<- & <- & _)|(Hne & Hj)].
    + rewrite decide_True by done. split; [done|]. cbn. rewrite length_app, replicate_add. done.
    + rewrite decide_False by done. rewrite app_nil_r. by apply Hq.
Qed.

(** The descriptors of the successful [accept] calls. *)
Definition accepted (ans : list (sys (Z * sockaddr_in))) : list Z :=
  omap (λ a, match a with Ok (fd, _) => Some fd | Err _ => None end) ans.

Fixpoint accept_all (cip : list Z) (ans : list (sys (Z * sockaddr_in))) s : res (SignalingServer L) :=
  match ans with
  | [] => Val s
  | a :: ans => let* s := accept_new_conn cip a s in accept_all cip ans s
  end.

Lemma accept_spec n fds cip a s :
  (0 < n)%nat → Z.of_nat n ≤ INT_MAX → length cip = 128%nat → (∀ fd x, a = Ok (fd, x) → 0 ≤ fd) → dealt n fds s →
  ∃ s', accept_new_conn cip a s = Val s' ∧ dealt n (fds ++ accepted [a]) s'.
Proof.
  intros Hn0 Hn Hc Ha Hd. unfold accept_new_conn.
  destruct (tcp_accept_spec a cip Hc) as (cfd & ip & pt & Et & _ & Hcfd). rewrite Et. cbn [mbind_res].
  destruct (Z.eqb_spec cfd (-1)) as [->|Hne].
  - exists s. split; [done|]. unfold tcp_accept, generic_accept in Et. destruct a as [[fd x]|e]; cbn.
    + destruct (Z.eqb_spec fd (-1)) as [->|]; [by specialize (Ha _ _ eq_refl)|].
      destruct (of_mem _); cbn in Et; by simplify_eq.
    + by rewrite app_nil_r.
  - destruct (Hcfd Hne) as (x & -> & _). by apply dispatch_spec.
Qed.

(** ** Properties *)

(** Connections are dealt out in turn: with [n] workers the [k]-th
    accepted descriptor is queued at worker [k mod n], in the order of
    arrival, each with its notification; failed [accept] calls skip no
    worker and nothing is lost. *)
Theorem round_robin n s cip ans :
  (0 < n)%nat → Z.of_nat n ≤ INT_MAX → configured n s → length cip = 128%nat →
  Forall (λ a, ∀ fd x, a = Ok (fd, x) → 0 ≤ fd) ans →
  ∃ s', accept_all cip ans s = Val s' ∧ ∀ i, (i < n)%nat →
    ∃ w fds, workers_ s' !! i = Some w ∧ queue_of (q_conn_ w) fds ∧
      SignalingWorker.pipe w = Some (replicate (length fds) NEW_CONN) ∧
      ∀ j, fds !! j = accepted ans !! (j * n + i)%nat.
Proof.
  intros Hn0 Hn Hs%configured_dealt Hc Ha.
  assert (∀ pre s, dealt n pre s → ∃ s', accept_all cip ans s = Val s' ∧ dealt n (pre ++ accepted ans) s') as Hall.
  { clear s Hs. induction Ha as [|a ans Ha _ IH]; intros pre s Hs; cbn [accept_all].
    - exists s. by rewrite app_nil_r.
    - destruct (accept_spec n pre cip a s Hn0 Hn Hc Ha Hs) as (s1 & -> & Hs1). cbn [mbind_res].
      destruct (IH _ _ Hs1) as (s' & ? & Hs'). exists s'. split; [done|].
      rewrite <- app_assoc in Hs'. unfold accepted in *. by rewrite <- omap_app in Hs'. }
  destruct (Hall [] s Hs) as (s' & ? & [Hl _ Hq]). exists s'. split; [done|]. intros i Hi.
  destruct (lookup_lt_is_Some_2 (workers_ s') i) as [w Ew]; [lia|]. destruct (Hq i w Ew).
  exists w, (deal n i (accepted ans)). split_and!; [done..|]. intros j. by apply deal_lookup.
Qed.
End Dispatch.

(** ** Witnesses *)

Definition demo_yaml (n : Z) : yaml_conf := YamlConf (Some (b#"127.0.0.1")) (Some 9000) (Some n) (Some 30000000).
Definition demo_listen : server_answers := ServerAnswers (Ok 12) (Ok tt) true (Ok tt) (Ok tt).
Definition demo_worker_pipe (i : Z) : sys (Z * Z) := Ok (20 + 2 * Z.abs i, 21 + 2 * Z.abs i).

Definition demo_init (n : Z) : SignalingServer demo_ev :=
  match Init 3 (b#"signaling_server.yaml") (Some (demo_yaml n)) (Ok (10, 11)) demo_listen (λ i, (30 + i, 40 + i))
          demo_worker_pipe (SignalingServer_new 3) with
  | Val (_, s) => s
  | _ => SignalingServer_new 3
  end.

Lemma demo_configured : configured 2 (demo_init 2).
Proof.
  exists 3, (b#"signaling_server.yaml"), (demo_yaml 2), 10, 11, demo_listen, (λ i, (30 + i, 40 + i)), demo_worker_pipe.
  split_and!; [lia| |done|vm_compute; reflexivity]. intros j r d. unfold demo_worker_pipe. intros [= <- _]. lia.
Qed.

Definition demo_accepts : list (sys (Z * sockaddr_in)) :=
  [Ok (50, SockAddr [31; 144] [10; 0; 0; 1]); Err 11; Ok (51, SockAddr [31; 145] [10; 0; 0; 2]);
   Ok (52, SockAddr [31; 146] [10; 0; 0; 3])].

Lemma round_robin_witness :
  ∃ s', accept_all (replicate 128 0) demo_accepts (demo_init 2) = Val s' ∧
    ∃ w fds, workers_ s' !! 0%nat = Some w ∧ queue_of (q_conn_ w) fds ∧ fds !! 0%nat = Some 50 ∧ fds !! 1%nat = Some 52.
Proof.
  destruct (round_robin 2 (demo_init 2) (replicate 128 0) demo_accepts) as (s' & E & H).
  - lia.
  - vm_compute. congruence.
  - apply demo_configured.
  - reflexivity.
  - unfold demo_accepts. repeat constructor; intros fd x Hx; by simplify_eq.
  - exists s'. split; [exact E|]. destruct (H 0%nat) as (w & fds & ? & ? & _ & Hj); [lia|].
    exists w, fds. split_and!; [done|done|by rewrite Hj|by rewrite Hj].
Defined.

(** Without workers the first connection indexes an empty vector. *)
Example no_workers_undefined :
  accept_new_conn (replicate 128 0) (Ok (50, SockAddr [31; 144] [10; 0; 0; 1])) (demo_init 0) = Undef.
Proof. vm_compute. reflexivity. Qed.
