(* ===== verification/RtcWorker.v ===== *)
(** * The RTC worker (server/rtc_worker.hpp, rtc_worker.cpp)

    A worker owns an event loop, a pipe that wakes it and a lock-free queue of
    messages that the RTC server fills. It answers a message by filling in the
    SDP and handing it back to the signaling worker the message names, which
    is reached through the interface [SignalingPort]. The pipe is the list of
    notifications it holds, as for the signaling worker.

    A message travels as a [shared_ptr] that every stage gives up when it
    passes it on, so the value of the message is what travels here. *)

From S2P Require Import Prelude LockFreeQueue EventLoop Socket TcpConnection.

Definition QUIT : Z := 0.
Definition RTC_MSG : Z := 1.

(** struct RtcServerOptions *)
Record RtcServerOptions := RtcOptions { worker_num : Z }.

Definition CB_RECV_NOTIFY : Z := 4.

Record RtcWorker (L : Type) := RW {
  _options : RtcServerOptions;
  worker_id : Z;
  _el : EventLoop L;
  _notify_recv_fd : Z;
  _notify_send_fd : Z;
  _pipe_watcher : option Z;
  _thread : bool;
  _q_msg : lfq RtcMsg;
  pipe : option (list Z);            (* pending notifications, [None] when not open *)
  closed : list Z                    (* descriptors closed so far *)
}.
Arguments RW {_} _ _ _ _ _ _ _ _ _ _.
Arguments _options {_} _.
Arguments worker_id {_} _.
Arguments _el {_} _.
Arguments _notify_recv_fd {_} _.
Arguments _notify_send_fd {_} _.
Arguments _pipe_watcher {_} _.
Arguments _thread {_} _.
Arguments _q_msg {_} _.
Arguments pipe {_} _.
Arguments closed {_} _.

(** [static_cast<SignalingWorker*>(p)->send_rtc_msg(msg)]; the result is
    ignored by the caller, a dead worker is undefined. *)
Class SignalingPort (G : Type) := signaling_send : Z → RtcMsg → G → res G.

(** What the RTC side relies on: a message sent to a live signaling worker is
    appended to the messages waiting there, and nothing else changes. *)
Class SignalingPortSpec (G : Type) {SP : SignalingPort G} := {
  inbox : G → Z → option (list RtcMsg);
  signaling_send_spec p m g ms : inbox g p = Some ms →
    ∃ g', signaling_send p m g = Val g' ∧ inbox g' p = Some (ms ++ [m]) ∧
      ∀ p', p' ≠ p → inbox g' p' = inbox g p'
}.

Section Worker.
Context {L : Type} {E : LibEv L}.
Implicit Types w : RtcWorker L.

Definition set_queue (q : lfq RtcMsg) (ns : option (list Z)) w : RtcWorker L :=
  RW (_options w) (worker_id w) (_el w) (_notify_recv_fd w) (_notify_send_fd w) (_pipe_watcher w)
    (_thread w) q ns (closed w).

Definition RtcWorker_new (this worker_id : Z) (options : RtcServerOptions) (q_node : Z) : RtcWorker L :=
  RW options worker_id (event_loop_new this) (-1) (-1) None false (lfq_new rtc_msg_default q_node) None [].

Definition init (this : Z) (ans : sys (Z * Z)) w : res (Z * RtcWorker L) :=
  match ans with
  | Err _ => Val (-1, w)
  | Ok (rfd, sfd) =>
      let '(id, el) := creat_io_event CB_RECV_NOTIFY this (_el w) in
      let* el := start_io_event id rfd READ el in
      Val (0, RW (_options w) (worker_id w) el rfd sfd (Some id) (_thread w) (_q_msg w) (Some []) (closed w))
  end.

Definition start w : bool * RtcWorker L :=
  if _thread w then (false, w)
  else (true, RW (_options w) (worker_id w) (_el w) (_notify_recv_fd w) (_notify_send_fd w)
                (_pipe_watcher w) true (_q_msg w) (pipe w) (closed w)).

Definition notify (msg : Z) w : Z * RtcWorker L :=
  match pipe w with
  | None => (-1, w)
  | Some ns => (0, set_queue (_q_msg w) (Some (ns ++ [msg])) w)
  end.

Definition stop w : RtcWorker L := (notify QUIT w).2.

Definition push_msg (msg : RtcMsg) w : res (RtcWorker L) :=
  let* q := of_mem (produce msg (_q_msg w)) in Val (set_queue q (pipe w) w).

Definition pop_msg w : res (option RtcMsg * RtcWorker L) :=
  let* '(r, q) := of_mem (consume (_q_msg w)) in Val (r, set_queue q (pipe w) w).

Definition send_rtc_msg (msg : RtcMsg) w : res (Z * RtcWorker L) :=
  let* w := push_msg msg w in Val (notify RTC_MSG w).

Definition _stop w : res (RtcWorker L) :=
  if negb (_thread w) then Val w
  else
    let* pw := of_mem (_pipe_watcher w) in
    let* el := delete_io_event pw (_el w) in
    let el := EventLoop.stop el in
    Val (RW (_options w) (worker_id w) el (_notify_recv_fd w) (_notify_send_fd w) (_pipe_watcher w)
           (_thread w) (_q_msg w) None (closed w ++ [_notify_recv_fd w; _notify_send_fd w])).

Context {G : Type} {SP : SignalingPort G}.

(** [msg->sdp = "offer"] *)
Definition answer (msg : RtcMsg) : RtcMsg :=
  Msg (cmdno msg) (uid msg) (stream_name msg) (audio msg) (video msg) (m_log_id msg) (worker msg) (conn msg)
    (b#"offer") (err_no msg) (fd msg).

Definition _process_push (msg : RtcMsg) (g : G) : res G :=
  let msg := answer msg in
  match worker msg with
  | Some p => signaling_send p msg g
  | None => Val g
  end.

Definition process_rtc_msg w (g : G) : res (RtcWorker L * G) :=
  let* '(r, w) := pop_msg w in
  match r with
  | None => Val (w, g)
  | Some msg =>
      if cmdno msg =? CMDNO_PUSH then let* g := _process_push msg g in Val (w, g) else Val (w, g)
  end.

Definition _process_notify (msg : Z) w (g : G) : res (RtcWorker L * G) :=
  if msg =? QUIT then let* w := _stop w in Val (w, g)
  else if msg =? RTC_MSG then process_rtc_msg w g
  else Val (w, g).

Definition rtc_worker_recv_notify w (g : G) : res (RtcWorker L * G) :=
  match pipe w with
  | Some (msg :: ns) => _process_notify msg (set_queue (_q_msg w) (Some ns) w) g
  | _ => Val (w, g)
  end.

(** The thread the caller of [join] waits for: it serves the notifications
    until the loop was stopped, which closes the pipe. [None] when it waits
    for ever. *)
Fixpoint serve (n : nat) w (g : G) : option (res (RtcWorker L * G)) :=
  match pipe w with
  | None => Some (Val (w, g))
  | Some [] => None
  | Some _ =>
      match n with
      | O => None
      | S n =>
          match rtc_worker_recv_notify w g with
          | Val (w, g) => serve n w g
          | r => Some r
          end
      end
  end.

Definition join w (g : G) : option (res (RtcWorker L * G)) :=
  if _thread w then serve (length (default [] (pipe w))) w g else Some (Val (w, g)).

(** The destructor: deleting a thread that can still be joined terminates the
    program; the queue's destructor deletes its nodes. *)
Definition RtcWorker_delete (joinable : bool) w : res unit :=
  if _thread w && joinable then Aborted else let* _ := of_mem (destroy (_q_msg w)) in Val tt.
End Worker.

(** ** What a running worker does *)

Section Theory.
Context {L : Type} {E : LibEv L} {ES : LibEvSpec L}.
Implicit Types w : RtcWorker L.

(** A started worker with the messages [ms] in its queue and the
    notifications [ns] in its pipe: the loop polls the pipe for reading. *)
Record running w (ms : list RtcMsg) (ns : list Z) : Prop := Running {
  rw_queue : queue_of (_q_msg w) ms;
  rw_pipe : pipe w = Some ns;
  rw_thread : _thread w = true;
  rw_loop : el_inv (_el w);
  rw_watch : ∃ pw, _pipe_watcher w = Some pw ∧ is_Some (io_watchers (_el w) !! pw) ∧
    polled (loop_ (_el w)) pw = Some (_notify_recv_fd w, READ)
}.

Lemma rw_start_spec this wid opts node rfd sfd :
  0 ≤ rfd →
  ∃ w, init this (Ok (rfd, sfd)) (RtcWorker_new this wid opts node) = Val (0, w) ∧
    ∃ w', start w = (true, w') ∧ running w' [] [] ∧ _options w' = opts ∧ worker_id w' = wid.
Proof.
  intros Hr. unfold init. cbn [_el RtcWorker_new].
  pose proof (creat_io_event_spec (event_loop_new this) CB_RECV_NOTIFY this (event_loop_new_inv _)) as Hc.
  destruct (creat_io_event _ _ _) as [id el]. destruct Hc as (Hi & _ & Hw & _ & _ & Hp).
  destruct (start_io_event_spec el id rfd READ) as (el' & -> & Hi' & Hf & Hp'); [done| |done|done|].
  { by rewrite Hw, lookup_insert_eq. }
  eexists. split; [done|]. eexists. split; [done|]. split; [|done]. split; simpl; try done.
  - apply lfq_new_spec.
  - exists id. rewrite Hp', Hp. split_and!; [done| |done].
    pose proof (fr_callback _ _ _ Hf) as Hcb. rewrite Hw, lookup_insert_eq in Hcb.
    by destruct (io_watchers el' !! id).
Qed.

Lemma rw_send_spec w ms ns m :
  running w ms ns → ∃ w', send_rtc_msg m w = Val (0, w') ∧ running w' (ms ++ [m]) (ns ++ [RTC_MSG]).
Proof.
  intros [Hq Hp Ht Hl Hw]. destruct (produce_spec _ _ m Hq) as (q & Eq & Hq').
  unfold send_rtc_msg, push_msg. rewrite Eq. cbn [of_mem mbind_res]. unfold notify. simpl. rewrite Hp.
  eexists. split; [done|]. by split.
Qed.

(** [QUIT] closes the pipe and leaves the queue. *)
Lemma rw_stop_spec w ms ns :
  running w ms (QUIT :: ns) →
  ∃ w', _stop (set_queue (_q_msg w) (Some ns) w) = Val w' ∧ pipe w' = None ∧ _q_msg w' = _q_msg w ∧
    closed w' = closed w ++ [_notify_recv_fd w; _notify_send_fd w] ∧
    ∀ pw, _pipe_watcher w = Some pw → polled (loop_ (_el w')) pw = None.
Proof.
  intros [Hq Hp Ht Hl (pw & Hw & Hlive & _)]. unfold _stop. cbn [set_queue _thread _pipe_watcher _el].
  rewrite Ht, Hw. cbn [negb of_mem mbind_res].
  destruct (delete_io_event_spec _ _ Hl Hlive) as (el & -> & _ & _ & Hn & _). cbn [mbind_res].
  eexists. split; [done|]. split_and!; try done. intros ? [= <-]. simpl.
  by rewrite (proj1 (ev_break_spec _ _)).
Qed.

Context {G : Type} {SP : SignalingPort G} {SS : SignalingPortSpec G}.

(** A message the worker answers: a push of a live signaling worker. *)
Definition answerable (g : G) (m : RtcMsg) : Prop :=
  cmdno m = CMDNO_PUSH ∧ ∃ p ms, worker m = Some p ∧ inbox g p = Some ms.

(** [delivered g rs g']: the answers [rs] were appended, in order, to the
    inboxes of their workers, and the inboxes are otherwise as they were. *)
Definition delivered (g : G) (rs : list RtcMsg) (g' : G) : Prop :=
  ∀ p, inbox g' p = (λ ms, ms ++ filter (λ r, worker r = Some p) rs) <$> inbox g p.

Lemma delivered_nil g : delivered g [] g.
Proof. intros p. destruct (inbox g p); simpl; [by rewrite app_nil_r|done]. Qed.

Lemma delivered_trans g rs1 g1 rs2 g2 :
  delivered g rs1 g1 → delivered g1 rs2 g2 → delivered g (rs1 ++ rs2) g2.
Proof. intros H1 H2 p. rewrite H2, H1. destruct (inbox g p); simpl; [|done]. by rewrite filter_app, app_assoc. Qed.

Lemma answerable_delivered g rs g' m : delivered g rs g' → answerable g m → answerable g' m.
Proof. intros Hd (Hc & p & ms & Hp & Hi). split; [done|]. exists p. rewrite Hd, Hi. simpl. eauto. Qed.

Lemma rw_recv_spec w m ms ns g :
  running w (m :: ms) (RTC_MSG :: ns) → answerable g m →
  ∃ w' g', rtc_worker_recv_notify w g = Val (w', g') ∧ running w' ms ns ∧ delivered g [answer m] g'.
Proof.
  intros [Hq Hp Ht Hl Hw] (Hc & p & xs & Hm & Hx). unfold rtc_worker_recv_notify. rewrite Hp.
  change (_process_notify RTC_MSG) with (@process_rtc_msg L G SP). unfold process_rtc_msg, pop_msg.
  destruct (consume_spec _ _ Hq) as (q & Eq & Hq'). cbn [set_queue _q_msg]. rewrite Eq.
  cbn [of_mem mbind_res]. rewrite Hc. cbn [Z.eqb CMDNO_PUSH Pos.eqb]. unfold _process_push. cbn [answer worker].
  rewrite Hm. destruct (signaling_send_spec p (answer m) g xs Hx) as (g' & Eg & Hp' & Ho).
  rewrite Eg. cbn [mbind_res]. do 2 eexists. split; [done|]. split; [by split|].
  intros p'. rewrite filter_cons. cbn [answer worker]. rewrite Hm. destruct (decide (p' = p)) as [->|Hne].
  - rewrite decide_True by done. by rewrite Hp', Hx.
  - rewrite decide_False by congruence. rewrite Ho by done. rewrite filter_nil. apply delivered_nil.
Qed.

(** Serving the messages queued before a [QUIT] answers all of them, in
    order, and then ends. *)
Lemma rw_serve_spec ms : ∀ w g n,
  running w ms (replicate (length ms) RTC_MSG ++ [QUIT]) → Forall (answerable g) ms → (length ms < n)%nat →
  ∃ w' g', serve n w g = Some (Val (w', g')) ∧ pipe w' = None ∧ queue_of (_q_msg w') [] ∧
    delivered g (answer <$> ms) g'.
Proof.
  induction ms as [|m ms IH]; intros w g n Hr Hok Hn; (destruct n as [|n]; [simpl in Hn; lia|]).
  - destruct (rw_stop_spec w [] [] Hr) as (w' & Ew & Hp & Hq & _).
    cbn [serve]. rewrite (rw_pipe _ _ _ Hr). cbn [length replicate app].
    unfold rtc_worker_recv_notify. rewrite (rw_pipe _ _ _ Hr). cbn [length replicate app].
    change (_process_notify QUIT) with (λ w (g : G), let* w := _stop w in Val (w, g)). cbn beta.
    rewrite Ew. cbn [mbind_res]. exists w', g. split_and!; [|done| |apply delivered_nil].
    + destruct n; cbn [serve]; by rewrite Hp.
    + rewrite Hq. apply Hr.
  - apply Forall_cons in Hok as [Hm Hok].
    destruct (rw_recv_spec w m ms _ g Hr Hm) as (w1 & g1 & E1 & Hr1 & Hd1).
    destruct (IH w1 g1 n Hr1) as (w2 & g2 & E2 & ? & ? & Hd2); [|simpl in Hn; lia|].
    { eapply Forall_impl; [exact Hok|]. intros. by eapply answerable_delivered. }
    exists w2, g2. cbn [serve]. rewrite (rw_pipe _ _ _ Hr). cbn [length replicate app]. rewrite E1.
    split_and!; try done. rewrite fmap_cons. apply (delivered_trans g [answer m] g1); done.
Qed.

Lemma rw_stop_join_spec w ms g :
  running w ms (replicate (length ms) RTC_MSG) → Forall (answerable g) ms →
  ∃ w' g', join (stop w) g = Some (Val (w', g')) ∧ pipe w' = None ∧ queue_of (_q_msg w') [] ∧
    delivered g (answer <$> ms) g'.
Proof.
  intros [Hq Hp Ht Hl Hw] Hok. unfold stop, notify. rewrite Hp. unfold join. cbn [snd set_queue _thread pipe].
  rewrite Ht. cbn [default option_rect from_option]. apply rw_serve_spec; [by split|done|]. simpl. len_solve.
Qed.
End Theory.
