(* ===== verification/RtcServer.v ===== *)
(** * The RTC server (server/rtc_server.hpp, rtc_server.cpp)

    The server receives the messages of all signaling workers in a queue
    guarded by a mutex, is woken through a pipe, and hands each message to the
    worker that the CRC-32 of its stream name selects. The workers are owned
    objects; [YAML::LoadFile] with the conversions is an input ([None] for an
    exception), like the answers of the kernel. *)

From S2P Require Import Prelude LockFreeQueue Crc32 EventLoop Socket TcpConnection SignalingRequest RtcWorker.

Definition CB_RECV_NOTIFY : Z := 5.

Record RtcServer (L : Type) := RS {
  event_loop_ : EventLoop L;
  options_ : RtcServerOptions;
  pipe_watcher_ : option Z;
  notify_recv_fd_ : Z;
  notify_send_fd_ : Z;
  thread_ : bool;
  _q_msg : list RtcMsg;
  _workers : list (RtcWorker L);
  pipe : option (list Z);
  closed : list Z
}.
Arguments RS {_} _ _ _ _ _ _ _ _ _ _.
Arguments event_loop_ {_} _.
Arguments options_ {_} _.
Arguments pipe_watcher_ {_} _.
Arguments notify_recv_fd_ {_} _.
Arguments notify_send_fd_ {_} _.
Arguments thread_ {_} _.
Arguments _q_msg {_} _.
Arguments _workers {_} _.
Arguments pipe {_} _.
Arguments closed {_} _.

Section Server.
Context {L : Type} {E : LibEv L}.
Implicit Types s : RtcServer L.

Definition set_queue (ms : list RtcMsg) (ns : option (list Z)) s : RtcServer L :=
  RS (event_loop_ s) (options_ s) (pipe_watcher_ s) (notify_recv_fd_ s) (notify_send_fd_ s) (thread_ s)
    ms (_workers s) ns (closed s).

Definition set_workers (ws : list (RtcWorker L)) s : RtcServer L :=
  RS (event_loop_ s) (options_ s) (pipe_watcher_ s) (notify_recv_fd_ s) (notify_send_fd_ s) (thread_ s)
    (_q_msg s) ws (pipe s) (closed s).

(** [options_] holds no value before [Init]; a message cannot be routed then
    because there is no worker. *)
Definition RtcServer_new (this : Z) : RtcServer L :=
  RS (event_loop_new this) (RtcOptions 0) None (-1) (-1) false [] [] None [].

(** The address of the worker and of its queue's first node, and the answer
    of [pipe], are inputs. *)
Definition _create_worker (this q_node : Z) (ans : sys (Z * Z)) (worker_id : Z) s : res (Z * RtcServer L) :=
  let* '(rc, w) := RtcWorker.init this ans (RtcWorker_new this worker_id (options_ s) q_node) in
  if negb (rc =? 0) then Val (-1, s)
  else
    let '(ok, w) := RtcWorker.start w in
    if negb ok then Val (-1, s) else Val (0, set_workers (_workers s ++ [w]) s).

(** [for(int i=0;i<worker_num;i++) if(_create_worker(i)!=0) return -1;] *)
Fixpoint create_workers (n : nat) (i : Z) (addr : Z → Z * Z) (answers : Z → sys (Z * Z)) s : res (Z * RtcServer L) :=
  match n with
  | O => Val (0, s)
  | S n =>
      let* '(rc, s) := _create_worker (addr i).1 (addr i).2 (answers i) i s in
      if negb (rc =? 0) then Val (-1, s) else create_workers n (i + 1) addr answers s
  end.

(** An empty file name is only logged. *)
Definition Init (this : Z) (yaml : option Z) (ans : sys (Z * Z)) (addr : Z → Z * Z) (answers : Z → sys (Z * Z)) s
    : res (Z * RtcServer L) :=
  match yaml with
  | None => Val (-1, s)
  | Some n =>
      match ans with
      | Err _ => Val (-1, RS (event_loop_ s) (RtcOptions n) (pipe_watcher_ s) (notify_recv_fd_ s)
                            (notify_send_fd_ s) (thread_ s) (_q_msg s) (_workers s) (pipe s) (closed s))
      | Ok (rfd, sfd) =>
          let '(id, el) := creat_io_event CB_RECV_NOTIFY this (event_loop_ s) in
          let* el := start_io_event id rfd READ el in
          create_workers (Z.to_nat n) 0 addr answers
            (RS el (RtcOptions n) (Some id) rfd sfd (thread_ s) (_q_msg s) (_workers s) (Some []) (closed s))
      end
  end.

Definition start s : bool * RtcServer L :=
  if thread_ s then (false, s)
  else (true, RS (event_loop_ s) (options_ s) (pipe_watcher_ s) (notify_recv_fd_ s) (notify_send_fd_ s) true
                (_q_msg s) (_workers s) (pipe s) (closed s)).

Definition notify (msg : Z) s : Z * RtcServer L :=
  match pipe s with
  | None => (-1, s)
  | Some ns => (0, set_queue (_q_msg s) (Some (ns ++ [msg])) s)
  end.

Definition stop s : RtcServer L := (notify QUIT s).2.

Definition push_msg (msg : RtcMsg) s : RtcServer L := set_queue (_q_msg s ++ [msg]) (pipe s) s.

Definition pop_msg s : option RtcMsg * RtcServer L :=
  match _q_msg s with
  | [] => (None, s)
  | m :: ms => (Some m, set_queue ms (pipe s) s)
  end.

Definition send_rtc_msg (msg : RtcMsg) s : Z * RtcServer L := notify RTC_MSG (push_msg msg s).

(** The index of the worker: [num % worker_num] in [uint32_t]. *)
Definition get_worker (stream_name : list Z) s : option nat :=
  let n := Z.of_nat (length (_workers s)) in
  if (n =? 0) || negb (n =? u64 (worker_num (options_ s))) then None
  else
    let num := ComputeCrc32 stream_name in
    Some (Z.to_nat (num `mod` u32 (worker_num (options_ s)))).

Definition process_rtc_msg s : res (RtcServer L) :=
  match pop_msg s with
  | (None, s) => Val s
  | (Some msg, s) =>
      match get_worker (stream_name msg) s with
      | None => Val s
      | Some i =>
          let* w := of_mem (_workers s !! i) in
          let* '(_, w) := RtcWorker.send_rtc_msg msg w in
          Val (set_workers (<[i:=w]> (_workers s)) s)
      end
  end.

Context {G : Type} {SP : SignalingPort G}.

(** [for(auto worker:_workers) { worker->stop(); worker->join(); }]; [None]
    when a [join] waits for ever. *)
Fixpoint stop_workers (ws : list (RtcWorker L)) (g : G) : option (res (list (RtcWorker L) * G)) :=
  match ws with
  | [] => Some (Val ([], g))
  | w :: ws =>
      match RtcWorker.join (RtcWorker.stop w) g with
      | Some (Val (w, g)) =>
          match stop_workers ws g with
          | Some r => Some (let* '(ws, g) := r in Val (w :: ws, g))
          | None => None
          end
      | Some Null => Some Null
      | Some Aborted => Some Aborted
      | Some Undef => Some Undef
      | None => None
      end
  end.

Definition _stop s (g : G) : option (res (RtcServer L * G)) :=
  match pipe_watcher_ s with
  | None => Some Undef
  | Some pw =>
      match delete_io_event pw (event_loop_ s) with
      | Val el =>
          let el := EventLoop.stop el in
          match stop_workers (_workers s) g with
          | Some r =>
              Some (let* '(ws, g) := r in
                    Val (RS el (options_ s) (pipe_watcher_ s) (notify_recv_fd_ s) (notify_send_fd_ s) (thread_ s)
                           (_q_msg s) ws None (closed s ++ [notify_recv_fd_ s; notify_send_fd_ s]), g))
          | None => None
          end
      | _ => Some Undef
      end
  end.

Definition process_notify (msg : Z) s (g : G) : option (res (RtcServer L * G)) :=
  if msg =? QUIT then _stop s g
  else if msg =? RTC_MSG then Some (let* s := process_rtc_msg s in Val (s, g))
  else Some (Val (s, g)).

Definition rtc_server_recv_notify s (g : G) : option (res (RtcServer L * G)) :=
  match pipe s with
  | Some (msg :: ns) => process_notify msg (set_queue (_q_msg s) (Some ns) s) g
  | _ => Some (Val (s, g))
  end.

(** The thread the caller of [join] waits for, as for the workers. *)
Fixpoint serve (n : nat) s (g : G) : option (res (RtcServer L * G)) :=
  match pipe s with
  | None => Some (Val (s, g))
  | Some [] => None
  | Some _ =>
      match n with
      | O => None
      | S n =>
          match rtc_server_recv_notify s g with
          | Some (Val (s, g)) => serve n s g
          | r => r
          end
      end
  end.

Definition join s (g : G) : option (res (RtcServer L * G)) :=
  if thread_ s then serve (length (default [] (pipe s))) s g else Some (Val (s, g)).

(** The destructor's loop clears the vector it iterates over, which
    invalidates the iterator that the loop increments and compares next. *)
Definition delete_workers (joinable : RtcWorker L → bool) (ws : list (RtcWorker L)) : res unit :=
  match ws with
  | [] => Val tt
  | w :: _ => let* _ := RtcWorker_delete (joinable w) w in Undef
  end.

Definition RtcServer_delete (joinable : bool) (wjoinable : RtcWorker L → bool) s : res unit :=
  if thread_ s && joinable then Aborted else delete_workers wjoinable (_workers s).
End Server.

(** The server as the signaling workers see it. *)
#[global] Instance rtc_server_port {L} : RtcPort (RtcServer L) := send_rtc_msg.

(** ** Start *)

Section Start.
Context {L : Type} {E : LibEv L} {ES : LibEvSpec L}.
Implicit Types s : RtcServer L.

(** The part of a server that routing does not change. *)
Record server_up s (ns : list Z) : Prop := ServerUp {
  up_pipe : pipe s = Some ns;
  up_loop : el_inv (event_loop_ s);
  up_watch : ∃ pw, pipe_watcher_ s = Some pw ∧ is_Some (io_watchers (event_loop_ s) !! pw) ∧
    polled (loop_ (event_loop_ s)) pw = Some (notify_recv_fd_ s, READ)
}.

Lemma server_up_queue s ns ms ns' : server_up s ns → server_up (set_queue ms (Some ns') s) ns'.
Proof. by intros [? ? ?]. Qed.

Lemma server_up_workers s ns ws : server_up s ns → server_up (set_workers ws s) ns.
Proof. by intros [? ? ?]. Qed.

Lemma create_workers_spec addr answers n : ∀ i s s',
  (∀ j r d, answers j = Ok (r, d) → 0 ≤ r) →
  create_workers n i addr answers s = Val (0, s') →
  ∃ ws, s' = set_workers (_workers s ++ ws) s ∧ length ws = n ∧ Forall (λ w, running w [] []) ws.
Proof.
  induction n as [|n IH]; intros i s s' Ha; cbn [create_workers].
  - intros H. apply (f_equal (λ r, match r with Val (_, x) => x | _ => s end)) in H. simpl in H. subst s'.
    exists []. destruct s. by rewrite app_nil_r.
  - unfold _create_worker. destruct (answers i) as [[r d]|e] eqn:Ei; [|simpl; congruence].
    destruct (rw_start_spec (addr i).1 i (options_ s) (addr i).2 r d (Ha _ _ _ Ei))
      as (w & -> & w' & Hs & Hw & _). cbn [mbind_res negb Z.eqb]. rewrite Hs. cbn [negb mbind_res].
    intros H. destruct (IH _ _ _ Ha H) as (ws & -> & Hl & Hf). exists (w' :: ws).
    split_and!; [|by simpl; rewrite Hl|by constructor]. destruct s. unfold set_workers. simpl.
    by rewrite <- app_assoc.
Qed.

Lemma Init_spec this n rfd sfd addr answers s' :
  0 ≤ rfd → (∀ j r d, answers j = Ok (r, d) → 0 ≤ r) →
  Init this (Some n) (Ok (rfd, sfd)) addr answers (RtcServer_new this) = Val (0, s') →
  server_up s' [] ∧ _q_msg s' = [] ∧ worker_num (options_ s') = n ∧ length (_workers s') = Z.to_nat n ∧
  Forall (λ w, running w [] []) (_workers s').
Proof.
  intros Hr Ha. unfold Init. cbn [event_loop_ RtcServer_new].
  pose proof (creat_io_event_spec (event_loop_new this) CB_RECV_NOTIFY this (event_loop_new_inv _)) as Hc.
  destruct (creat_io_event _ _ _) as [id el]. destruct Hc as (Hi & _ & Hw & _ & _ & Hp).
  destruct (start_io_event_spec el id rfd READ) as (el' & -> & Hi' & Hf & Hp'); [done| |done|done|].
  { by rewrite Hw, lookup_insert_eq. }
  cbn [mbind_res]. intros H. apply create_workers_spec in H as (ws & -> & Hl & Hall); [|done].
  split_and!; try done. split; [done|done|]. exists id. simpl. rewrite Hp', Hp. split_and!; [done| |done].
  pose proof (fr_callback _ _ _ Hf) as Hcb. rewrite Hw, lookup_insert_eq in Hcb.
  by destruct (io_watchers el' !! id).
Qed.
End Start.
