(* ===== verification/RtcPipeline.v ===== *)
(** * From a push request to its answer

    The RTC side as a whole: signaling workers push messages into the queue of
    [RtcServer] and write a notification to its pipe, two separate actions of
    several threads; the server's thread pops one message per notification and
    hands it to the worker of its stream; the worker's thread answers it into
    the inbox of the signaling worker it came from. An execution is a sequence
    of these actions in any order the pipes allow. The threads that wait for a
    full pipe, and the steps inside a hand-over, are in [RtcLiveness]. *)

From S2P Require Import Prelude LockFreeQueue Crc32 EventLoop Socket TcpConnection SignalingWorker SignalingInv.
From S2P Require Import RtcWorker RtcServer.

Lemma mjoin_replicate_nil {T} k : mjoin (replicate k ([] : list T)) = [].
Proof. induction k as [|k IH]; [done|exact IH]. Qed.

Lemma filter_none {T} (P : T → Prop) `{∀ x, Decision (P x)} l : Forall (λ x, ¬ P x) l → filter P l = [].
Proof. induction 1; [done|]. by rewrite filter_cons_False. Qed.

(** ** Actions *)

Section Pipeline.
Context {L : Type} {E : LibEv L} {G : Type} {SP : SignalingPort G}.

Record pipeline := Pipeline {
  server : RtcServer L;
  port : G;
  unnotified : nat;          (* pushes whose notification is still to be written *)
  sent : list RtcMsg         (* every message pushed so far *)
}.

Inductive action := Push (m : RtcMsg) | Notify | ServerTurn | WorkerTurn (i : nat).

(** [None] when the action has to wait. *)
Definition act (a : action) (st : pipeline) : option (res pipeline) :=
  let s := server st in
  match a with
  | Push m => Some (Val (Pipeline (push_msg m s) (port st) (S (unnotified st)) (sent st ++ [m])))
  | Notify =>
      match unnotified st with
      | O => None
      | S n => Some (Val (Pipeline (notify RTC_MSG s).2 (port st) n (sent st)))
      end
  | ServerTurn =>
      match pipe s with
      | Some (_ :: _) =>
          match rtc_server_recv_notify s (port st) with
          | Some r => Some (let* '(s, g) := r in Val (Pipeline s g (unnotified st) (sent st)))
          | None => None
          end
      | _ => None
      end
  | WorkerTurn i =>
      match _workers s !! i with
      | Some w =>
          match RtcWorker.pipe w with
          | Some (_ :: _) =>
              Some (let* '(w, g) := rtc_worker_recv_notify w (port st) in
                    Val (Pipeline (set_workers (<[i:=w]> (_workers s)) s) g (unnotified st) (sent st)))
          | _ => None
          end
      | None => None
      end
  end.

Fixpoint acts (l : list action) (st : pipeline) : option (res pipeline) :=
  match l with
  | [] => Some (Val st)
  | a :: l => match act a st with Some (Val st) => acts l st | r => r end
  end.

Context {SS : SignalingPortSpec G}.

Definition action_ok (g0 : G) (a : action) : Prop :=
  match a with Push m => answerable g0 m | _ => True end.

(** A server that [Init] configured for [n] workers and that was started. *)
Definition started (n : Z) (s : RtcServer L) : Prop :=
  ∃ this rfd sfd addr answers s0, 0 ≤ rfd ∧ (∀ j r d, answers j = Ok (r, d) → 0 ≤ r) ∧
    Init this (Some n) (Ok (rfd, sfd)) addr answers (RtcServer_new this) = Val (0, s0) ∧ start s0 = (true, s).

Inductive reachable (n : Z) (g0 : G) : pipeline → Prop :=
| reach_start s : 0 < n ≤ INT_MAX → started n s → reachable n g0 (Pipeline s g0 0 [])
| reach_act a st st' : reachable n g0 st → action_ok g0 a → act a st = Some (Val st') → reachable n g0 st'.

(** ** The invariant *)

Notation of_stream sn := (filter (λ m, stream_name m = sn)).

Definition route (n : Z) (sn : list Z) : nat := Z.to_nat (ComputeCrc32 sn `mod` n).

(** [qs] are the worker queues, [rs] the answers so far. For every stream,
    the answers, what waits at its worker and what waits at the server are,
    in this order, the messages sent. *)
Record pinv (n : Z) (g0 : G) (st : pipeline) (qs : list (list RtcMsg)) (rs : list RtcMsg) : Prop := PInv {
  pi_num : worker_num (options_ (server st)) = n ∧ 0 < n ≤ INT_MAX ∧ length (_workers (server st)) = Z.to_nat n;
  pi_up : server_up (server st) (replicate (length (_q_msg (server st)) - unnotified st) RTC_MSG);
  pi_notes : (unnotified st ≤ length (_q_msg (server st)))%nat;
  pi_workers : Forall2 (λ w q, running w q (replicate (length q) RTC_MSG)) (_workers (server st)) qs;
  pi_routed i q : qs !! i = Some q → Forall (λ m, route n (stream_name m) = i) q;
  pi_answerable : Forall (answerable g0) (_q_msg (server st)) ∧ Forall (Forall (answerable g0)) qs;
  pi_delivered : delivered g0 rs (port st);
  pi_order sn :
    of_stream sn rs ++ (answer <$> of_stream sn (default [] (qs !! route n sn) ++ _q_msg (server st)))
    = answer <$> of_stream sn (sent st)
}.

(** ** Every action keeps it *)

Context {ES : LibEvSpec L}.

Lemma start_pinv n g0 s : 0 < n ≤ INT_MAX → started n s → pinv n g0 (Pipeline s g0 0 []) (replicate (Z.to_nat n) []) [].
Proof.
  intros Hn (this & rfd & sfd & addr & answers & s0 & Hr & Ha & Hi & Hs).
  apply Init_spec in Hi as ([Hp Hl Hw] & Hq & Hc & Hlen & Hall); [|done|done].
  unfold start in Hs. destruct (thread_ s0); [congruence|].
  assert (s = RS (event_loop_ s0) (options_ s0) (pipe_watcher_ s0) (notify_recv_fd_ s0) (notify_send_fd_ s0) true
    (_q_msg s0) (_workers s0) (pipe s0) (closed s0)) as -> by congruence.
  split; simpl; rewrite ?Hq; try done.
  - rewrite <- Hlen. clear -Hall. induction Hall; simpl; [by apply Forall2_nil_2|by apply Forall2_cons_2].
  - intros i q (-> & _)%lookup_replicate. constructor.
  - split; [constructor|]. by apply Forall_replicate.
  - apply delivered_nil.
  - intros sn. destruct (_ !! _) as [q|] eqn:Eq; [|done]. apply lookup_replicate in Eq as [-> _]. done.
Qed.

Lemma get_worker_spec (s : RtcServer L) n sn :
  worker_num (options_ s) = n → 0 < n ≤ INT_MAX → length (_workers s) = Z.to_nat n →
  get_worker sn s = Some (route n sn) ∧ (route n sn < length (_workers s))%nat.
Proof.
  intros Hc Hn Hl. unfold get_worker. unfold INT_MAX in Hn.
  rewrite Hl, Hc, Z2Nat.id, u64_small, u32_small by lia.
  rewrite (proj2 (Z.eqb_neq n 0)), Z.eqb_refl by lia. split; [done|].
  unfold route. pose proof (Z.mod_pos_bound (ComputeCrc32 sn) n). lia.
Qed.

Lemma push_pinv n g0 st qs rs m :
  pinv n g0 st qs rs → answerable g0 m →
  pinv n g0 (Pipeline (push_msg m (server st)) (port st) (S (unnotified st)) (sent st ++ [m])) qs rs.
Proof.
  intros [H1 [Hp Hl Hw] H3 H4 H5 [H6 H6'] H7 H8] Hm. split; simpl; try done.
  - split; simpl; [|done|done]. rewrite Hp. do 2 f_equal. len_solve.
  - len_solve.
  - split; [|done]. apply Forall_app; split; [done|by constructor].
  - intros sn. rewrite !filter_app, !fmap_app, <- H8, !filter_app, !fmap_app. by rewrite !app_assoc.
Qed.

Lemma notify_pinv n g0 st qs rs k :
  pinv n g0 st qs rs → unnotified st = S k →
  pinv n g0 (Pipeline (notify RTC_MSG (server st)).2 (port st) k (sent st)) qs rs.
Proof.
  intros [H1 [Hp Hl Hw] H3 H4 H5 H6 H7 H8] Hk. unfold notify. rewrite Hp. split; simpl; try done; [|lia].
  split; simpl; [|done|done]. f_equal. rewrite <- replicate_S_end. f_equal. lia.
Qed.

(** The head of the server's queue moves to the end of its worker's queue. *)
Lemma server_turn_pinv n g0 st qs rs ns :
  pinv n g0 st qs rs → pipe (server st) = Some (RTC_MSG :: ns) →
  ∃ s' qs', rtc_server_recv_notify (server st) (port st) = Some (Val (s', port st)) ∧
    pinv n g0 (Pipeline s' (port st) (unnotified st) (sent st)) qs' rs.
Proof.
  intros [H1 Hup H3 H4 H5 [H6 H6'] H7 H8] Hns. pose proof (up_pipe _ _ Hup) as Hp. rewrite Hns in Hp.
  destruct st as [s g u se]; cbn [server port unnotified sent] in *.
  destruct (_q_msg s) as [|m ms] eqn:Eq; [by simpl in Hp|].
  assert (u ≤ length ms ∧ ns = replicate (length ms - u) RTC_MSG)%nat as [Hu ->].
  { destruct (decide (u ≤ length ms)%nat) as [Hu|Hu].
    - cbn [length] in Hp. rewrite Nat.sub_succ_l in Hp by done. simpl in Hp. split; [done|congruence].
    - simpl length in *. replace (S (length ms) - u)%nat with O in Hp by lia. done. }
  unfold rtc_server_recv_notify. rewrite Hns.
  change (process_notify RTC_MSG) with (λ (s : RtcServer L) (g : G), Some (let* s := process_rtc_msg s in Val (s, g))).
  cbn beta. unfold process_rtc_msg, pop_msg. cbn [_q_msg set_queue]. rewrite Eq.
  set (s1 := set_queue ms (pipe _) _).
  destruct H1 as (Hc & Hn & Hl). destruct (get_worker_spec s1 n (stream_name m) Hc Hn Hl) as [-> Hi].
  change (_workers s1) with (_workers s) in *. set (i := route n (stream_name m)) in *.
  destruct (lookup_lt_is_Some_2 (_workers s) i Hi) as [w Ew]. rewrite Ew. cbn [of_mem mbind_res].
  destruct (Forall2_lookup_l _ _ _ _ _ H4 Ew) as (q & Eqs & Hq).
  destruct (rw_send_spec w q _ m Hq) as (w' & -> & Hq'). cbn [mbind_res].
  exists (set_workers (<[i:=w']> (_workers s)) s1), (<[i:=q ++ [m]]> qs).
  apply Forall_cons in H6 as [Hm H6]. split; [done|]. split; cbn [server port unnotified sent].
  - cbn. by rewrite length_insert.
  - apply server_up_workers. cbn [_q_msg set_workers set_queue s1]. exact (server_up_queue s _ ms _ Hup).
  - done.
  - cbn. apply Forall2_insert; [done|]. replace (length (q ++ [m])) with (S (length q)) by len_solve.
    by rewrite replicate_S_end.
  - intros j q' [(<- & <- & _)|(_ & Hj)]%list_lookup_insert_Some; [|by apply H5].
    apply Forall_app. split; [by eapply H5|]. by constructor.
  - split; [done|]. apply Forall_insert; [done|]. apply Forall_app. split; [|by constructor].
    by apply (Forall_lookup_1 _ _ _ _ H6' Eqs).
  - done.
  - intros sn. rewrite <- H8. f_equal. f_equal. cbn. destruct (decide (route n sn = i)) as [->|Hne].
    + rewrite list_lookup_insert_eq by (apply Forall2_length in H4; lia). rewrite Eqs. cbn.
      by rewrite <- app_assoc.
    + rewrite list_lookup_insert_ne by done. rewrite !filter_app, (filter_cons _ m).
      rewrite decide_False by (intros <-; done). done.
Qed.

(** The head of a worker's queue is answered. *)
Lemma worker_turn_pinv n g0 st qs rs i w x ns :
  pinv n g0 st qs rs → _workers (server st) !! i = Some w → RtcWorker.pipe w = Some (x :: ns) →
  ∃ w' g' qs' rs', rtc_worker_recv_notify w (port st) = Val (w', g') ∧
    pinv n g0 (Pipeline (set_workers (<[i:=w']> (_workers (server st))) (server st)) g' (unnotified st) (sent st)) qs' rs'.
Proof.
  intros [H1 Hup H3 H4 H5 [H6 H6'] H7 H8] Ew Hns.
  destruct st as [s g u se]; cbn [server port unnotified sent] in *.
  destruct (Forall2_lookup_l _ _ _ _ _ H4 Ew) as (q & Eqs & Hq).
  pose proof (rw_pipe _ _ _ Hq) as Hp. rewrite Hns in Hp. destruct q as [|m q]; [done|].
  pose proof (Forall_lookup_1 _ _ _ _ H6' Eqs) as [Hm Hqa]%Forall_cons.
  pose proof (H5 _ _ Eqs) as [Hri Hrq]%Forall_cons.
  destruct (rw_recv_spec w m q (replicate (length q) RTC_MSG) g Hq) as (w' & g' & Er & Hr' & Hd).
  { by eapply answerable_delivered. }
  assert (i < length qs)%nat as Hlt by by eapply lookup_lt_Some.
  exists w', g', (<[i:=q]> qs), (rs ++ [answer m]). split; [done|]. split; cbn [server port unnotified sent].
  - cbn. by rewrite length_insert.
  - by apply server_up_workers.
  - done.
  - cbn. by apply Forall2_insert.
  - intros j q' [(<- & <- & _)|(_ & Hj)]%list_lookup_insert_Some; [done|by apply H5].
  - split; [done|]. by apply Forall_insert.
  - by eapply delivered_trans.
  - intros sn. rewrite <- H8. cbn [_q_msg set_workers]. rewrite filter_app, <- app_assoc. f_equal.
    destruct (decide (route n sn = i)) as [->|Hne].
    + rewrite list_lookup_insert_eq, Eqs by done. cbn [default from_option app id].
      unfold Datatypes.id. cbn [app]. rewrite !filter_cons, filter_nil. cbn [answer stream_name].
      by destruct (decide (stream_name m = sn)).
    + rewrite list_lookup_insert_ne by done. rewrite filter_cons, decide_False; [done|].
      cbn [answer stream_name]. intros <-. done.
Qed.

Lemma act_pinv n g0 a st qs rs :
  pinv n g0 st qs rs → action_ok g0 a →
  act a st = None ∨ ∃ st' qs' rs', act a st = Some (Val st') ∧ pinv n g0 st' qs' rs'.
Proof.
  intros Hi Ha. destruct a as [m| | |i]; cbn [act].
  - right. eexists _, qs, rs. split; [done|]. by apply push_pinv.
  - destruct (unnotified st) as [|k] eqn:Ek; [by left|]. right. eexists _, qs, rs. split; [done|].
    by apply notify_pinv.
  - destruct (pipe (server st)) as [[|x ns]|] eqn:Ep; [by left| |by left].
    assert (x = RTC_MSG) as ->.
    { pose proof (up_pipe _ _ (pi_up _ _ _ _ _ Hi)) as Hp. rewrite Ep in Hp. by destruct (length _ - _)%nat; simplify_eq/=. }
    destruct (server_turn_pinv n g0 st qs rs ns Hi Ep) as (s' & qs' & -> & Hi').
    right. by eexists _, qs', rs.
  - destruct (_workers (server st) !! i) as [w|] eqn:Ew; [|by left].
    destruct (RtcWorker.pipe w) as [[|x ns]|] eqn:Ep; [by left| |by left].
    destruct (worker_turn_pinv n g0 st qs rs i w x ns Hi Ew Ep) as (w' & g' & qs' & rs' & -> & Hi').
    right. by eexists _, qs', rs'.
Qed.

Lemma reachable_pinv n g0 st : reachable n g0 st → ∃ qs rs, pinv n g0 st qs rs.
Proof.
  induction 1 as [s Hn Hs|a st st' _ (qs & rs & IH) Ha Hst]; [eauto using start_pinv|].
  destruct (act_pinv n g0 a st qs rs IH Ha) as [Hno|(? & ? & ? & ? & ?)]; [congruence|]. simplify_eq. eauto.
Qed.

(** ** Stopping *)

Lemma filter_mjoin_one {T} (P : T → Prop) `{∀ x, Decision (P x)} (qs : list (list T)) r :
  (∀ i q, qs !! i = Some q → i ≠ r → filter P q = []) → filter P (mjoin qs) = filter P (default [] (qs !! r)).
Proof.
  revert r. induction qs as [|q qs IH]; intros r Hq; [done|]. change (mjoin (q :: qs)) with (q ++ mjoin qs).
  rewrite filter_app. destruct r as [|r].
  - rewrite (IH (length qs)); [|intros i x Hi _; by apply (Hq (S i) x)].
    rewrite (lookup_ge_None_2 qs) by done. apply app_nil_r.
  - rewrite (Hq 0%nat q) by done. apply IH. intros i x Hi Hne. apply (Hq (S i) x); [done|lia].
Qed.

Lemma pinv_worker_stream n g0 st qs rs sn :
  pinv n g0 st qs rs → of_stream sn (mjoin qs) = of_stream sn (default [] (qs !! route n sn)).
Proof.
  intros Hi. apply filter_mjoin_one. intros i q Eq Hne. apply filter_none.
  eapply Forall_impl; [apply (pi_routed _ _ _ _ _ Hi _ _ Eq)|]. intros m Hm Hsn. apply Hne. by rewrite <- Hm, Hsn.
Qed.

Lemma stop_workers_spec (ws : list (RtcWorker L)) qs :
  Forall2 (λ w q, running w q (replicate (length q) RTC_MSG)) ws qs →
  ∀ g, Forall (Forall (answerable g)) qs →
  ∃ ws' g', stop_workers ws g = Some (Val (ws', g')) ∧ Forall (λ w, RtcWorker.pipe w = None) ws' ∧
    delivered g (answer <$> mjoin qs) g'.
Proof.
  induction 1 as [|w q ws qs Hw _ IH]; intros g Hg; cbn [stop_workers].
  - exists [], g. split_and!; [done|constructor|apply delivered_nil].
  - apply Forall_cons in Hg as [Hq Hg]. destruct (rw_stop_join_spec w q g Hw Hq) as (w' & g1 & -> & Hp & _ & Hd).
    destruct (IH g1) as (ws' & g2 & -> & Hps & Hd2).
    { eapply Forall_impl; [exact Hg|]. intros x Hx. eapply Forall_impl; [exact Hx|].
      intros m Hm. by eapply answerable_delivered. }
    exists (w' :: ws'), g2. split_and!; [done|by constructor|]. change (mjoin (q :: qs)) with (q ++ mjoin qs).
    rewrite fmap_app. by eapply delivered_trans.
Qed.

Lemma stop_pinv n g0 st qs rs :
  pinv n g0 st qs rs →
  ∃ s' g', RtcServer._stop (server st) (port st) = Some (Val (s', g')) ∧
    pipe s' = None ∧ Forall (λ w, RtcWorker.pipe w = None) (_workers s') ∧ delivered g0 (rs ++ (answer <$> mjoin qs)) g'.
Proof.
  intros Hi. destruct (pi_up _ _ _ _ _ Hi) as [_ Hl (pw & Hpw & Hlive & _)].
  unfold RtcServer._stop. rewrite Hpw. destruct (delete_io_event_spec _ _ Hl Hlive) as (el & -> & _).
  destruct (stop_workers_spec _ _ (pi_workers _ _ _ _ _ Hi) (port st)) as (ws & g' & -> & Hps & Hd).
  { eapply Forall_impl; [apply (pi_answerable _ _ _ _ _ Hi)|]. intros q Hq. eapply Forall_impl; [exact Hq|].
    intros m Hm. eapply answerable_delivered; [apply Hi|done]. }
  cbn. do 2 eexists. split; [done|]. split_and!; [done|done|]. eapply delivered_trans; [apply Hi|done].
Qed.

(** A server that is asked to stop before any message came: its thread and
    those of its workers end. *)
Lemma stop_join_started n s g :
  started n s →
  ∃ s' g', RtcServer.join (RtcServer.stop s) g = Some (Val (s', g')) ∧ pipe s' = None ∧
    Forall (λ w, RtcWorker.pipe w = None) (_workers s') ∧ delivered g [] g'.
Proof.
  intros (this & rfd & sfd & addr & answers & s0 & Hr & Ha & Hi & Hs).
  apply Init_spec in Hi as ([Hp Hl (pw & Hpw & Hlive & _)] & _ & _ & _ & Hall); [|done|done].
  unfold start in Hs. destruct (thread_ s0); [congruence|].
  assert (RtcServer.stop s = RS (event_loop_ s0) (options_ s0) (Some pw) (notify_recv_fd_ s0) (notify_send_fd_ s0) true
    (_q_msg s0) (_workers s0) (Some [QUIT]) (closed s0)) as ->.
  { apply (f_equal snd) in Hs. simpl in Hs. subst s. unfold RtcServer.stop, notify. cbn [pipe]. by rewrite Hp, <- Hpw. }
  unfold RtcServer.join. cbn [thread_ pipe default from_option length Datatypes.id RtcServer.serve].
  unfold rtc_server_recv_notify. cbn [pipe]. change (process_notify QUIT) with (@RtcServer._stop L E G SP).
  unfold RtcServer._stop. cbn [pipe_watcher_ set_queue event_loop_ _workers].
  destruct (delete_io_event_spec _ _ Hl Hlive) as (el & -> & _).
  destruct (stop_workers_spec (_workers s0) (replicate (length (_workers s0)) [])) with (g := g)
    as (ws & g' & -> & Hps & Hd).
  - clear -Hall. induction Hall; simpl; [by apply Forall2_nil_2|by apply Forall2_cons_2].
  - by apply Forall_replicate.
  - cbn. do 2 eexists. split; [done|]. split_and!; [done|done|].
    by rewrite mjoin_replicate_nil in Hd.
Qed.

(** ** Properties *)

(** C8: whatever the order in which the threads run, no action has undefined
    behaviour, every answer belongs to a request, no request is answered
    twice, and the answers of a stream come in the order of its requests: they
    are at any time a prefix of the answers to the requests sent. *)
Theorem rtc_answers_in_order n g0 st :
  reachable n g0 st →
  (∀ a, action_ok g0 a → act a st = None ∨ ∃ st', act a st = Some (Val st')) ∧
  ∃ rs, delivered g0 rs (port st) ∧ ∀ sn, of_stream sn rs `prefix_of` answer <$> of_stream sn (sent st).
Proof.
  intros (qs & rs & Hi)%reachable_pinv. split.
  - intros a Ha. destruct (act_pinv n g0 a st qs rs Hi Ha) as [|(st' & _ & _ & ? & _)]; eauto.
  - exists rs. split; [apply Hi|]. intros sn. rewrite <- (pi_order _ _ _ _ _ Hi sn). by eexists.
Qed.

(** C17: stopping the server ends: no [join] waits for ever, every pipe is
    closed, and every request that had reached a worker is answered before;
    the requests still in the server's own queue are exactly the ones that
    get no answer. *)
Theorem rtc_stop_drains n g0 st :
  reachable n g0 st →
  ∃ rs s' g', RtcServer._stop (server st) (port st) = Some (Val (s', g')) ∧
    pipe s' = None ∧ Forall (λ w, RtcWorker.pipe w = None) (_workers s') ∧ delivered g0 rs g' ∧
    ∀ sn, of_stream sn rs ++ (answer <$> of_stream sn (_q_msg (server st))) = answer <$> of_stream sn (sent st).
Proof.
  intros (qs & rs & Hi)%reachable_pinv. destruct (stop_pinv n g0 st qs rs Hi) as (s' & g' & Hs & Hp & Hps & Hd).
  exists (rs ++ (answer <$> mjoin qs)), s', g'. split_and!; [done..|]. intros sn.
  rewrite <- (pi_order _ _ _ _ _ Hi sn), filter_app, (filter_app _ (default [] _)), fmap_app, <- app_assoc.
  rewrite <- (pinv_worker_stream n g0 st qs rs sn Hi). f_equal. f_equal.
  generalize (mjoin qs). intros l. clear. induction l as [|m l IH]; [done|].
  rewrite fmap_cons, !filter_cons. cbn [answer stream_name]. destruct (decide _); [|done]. by rewrite fmap_cons, IH.
Qed.
End Pipeline.

(** ** The signaling workers behind the interface *)

Section Workers.
Context {L : Type}.

(** The live signaling workers, by address. *)
#[global] Instance workers_port : SignalingPort (gmap Z (SignalingWorker L)) := λ p m g,
  let* w := of_mem (g !! p) in Val (<[p := (SignalingWorker.send_rtc_msg m w).2]> g).

Lemma sw_send_queue m (w : SignalingWorker L) :
  SignalingWorker._q_msg (SignalingWorker.send_rtc_msg m w).2 = SignalingWorker._q_msg w ++ [m].
Proof. unfold SignalingWorker.send_rtc_msg, SignalingWorker.notify. by destruct (SignalingWorker.pipe _). Qed.

#[global, refine] Instance workers_port_spec : SignalingPortSpec (gmap Z (SignalingWorker L)) :=
  {| inbox g p := SignalingWorker._q_msg <$> g !! p |}.
Proof.
  intros p m g ms (w & Hw & ->)%fmap_Some. unfold signaling_send, workers_port. rewrite Hw. cbn [of_mem mbind_res].
  eexists. split; [done|]. split; [by rewrite lookup_insert_eq; cbn; rewrite sw_send_queue|].
  intros p' Hne. by rewrite lookup_insert_ne.
Defined.
End Workers.

(** ** Witnesses *)

Definition demo_ports : gmap Z (SignalingWorker demo_ev) := {[ 1 := demo_w0 ]}.

Definition demo_answers (i : Z) : sys (Z * Z) := Ok (20 + 2 * Z.abs i, 21 + 2 * Z.abs i).

Definition demo_server0 : RtcServer demo_ev :=
  match Init 2 (Some 2) (Ok (10, 11)) (λ i, (30 + i, 40 + i)) demo_answers (RtcServer_new 2) with
  | Val (_, s) => s
  | _ => RtcServer_new 2
  end.

Lemma demo_started : started 2 (RtcServer.start demo_server0).2.
Proof.
  exists 2, 10, 11, (λ i, (30 + i, 40 + i)), demo_answers, demo_server0.
  split_and!; [lia| |vm_compute; reflexivity|vm_compute; reflexivity].
  intros j r d. unfold demo_answers. intros [= <- _]. lia.
Qed.

Definition demo_msg (name : list Z) (id : Z) : RtcMsg := Msg CMDNO_PUSH id name 1 1 0 (Some 1) (Some 0) [] 0 9.

(** Two streams, three requests; the first was answered, one waits at a
    worker and one at the server. *)
Definition demo_schedule : list action :=
  [Push (demo_msg (b#"a") 1); Push (demo_msg (b#"b") 2); Notify; ServerTurn; Push (demo_msg (b#"a") 3);
   WorkerTurn (route 2 (b#"a")); Notify; ServerTurn].

Definition demo_pipeline : @pipeline demo_ev (gmap Z (SignalingWorker demo_ev)) :=
  match acts demo_schedule (Pipeline (RtcServer.start demo_server0).2 demo_ports 0 []) with
  | Some (Val st) => st
  | _ => Pipeline demo_server0 demo_ports 0 []
  end.

Lemma acts_reachable {L} `{LibEv L} {G} {SP : SignalingPort G} {SS : SignalingPortSpec G} n (g0 : G) l :
  ∀ (st st' : @pipeline L G), reachable n g0 st → Forall (action_ok g0) l → acts l st = Some (Val st') →
  reachable n g0 st'.
Proof.
  induction l as [|a l IH]; intros st st' Hr Hl Hs; cbn [acts] in Hs; [by simplify_eq|].
  apply Forall_cons in Hl as [Ha Hl]. destruct (act a st) as [[st1| | |]|] eqn:Ea; try done.
  eapply IH; [|done|done]. by eapply reach_act.
Qed.

Lemma demo_msg_ok name id : answerable demo_ports (demo_msg name id).
Proof. split; [done|]. exists 1, []. split; [done|]. vm_compute. reflexivity. Qed.

Lemma demo_pipeline_reachable : reachable 2 demo_ports demo_pipeline.
Proof.
  apply (acts_reachable 2 demo_ports demo_schedule (Pipeline (RtcServer.start demo_server0).2 demo_ports 0 [])).
  - apply reach_start; [by vm_compute|apply demo_started].
  - unfold demo_schedule. repeat constructor; apply demo_msg_ok.
  - vm_compute. reflexivity.
Qed.

Lemma rtc_answers_in_order_witness :
  (act (WorkerTurn (route 2 (b#"b"))) demo_pipeline = None ∨
   ∃ st', act (WorkerTurn (route 2 (b#"b"))) demo_pipeline = Some (Val st')) ∧
  ∃ rs, delivered demo_ports rs (port demo_pipeline) ∧
    filter (λ m, stream_name m = b#"a") rs `prefix_of` [answer (demo_msg (b#"a") 1); answer (demo_msg (b#"a") 3)].
Proof.
  destruct (rtc_answers_in_order 2 demo_ports demo_pipeline demo_pipeline_reachable) as [H1 (rs & Hd & Hp)].
  split; [by apply H1|]. exists rs. split; [exact Hd|]. apply (Hp (b#"a")).
Defined.

Lemma rtc_stop_drains_witness :
  ∃ rs s' g', RtcServer._stop (server demo_pipeline) (port demo_pipeline) = Some (Val (s', g')) ∧
    pipe s' = None ∧ delivered demo_ports rs g' ∧
    filter (λ m, stream_name m = b#"b") rs = [answer (demo_msg (b#"b") 2)].
Proof.
  destruct (rtc_stop_drains 2 demo_ports demo_pipeline demo_pipeline_reachable)
    as (rs & s' & g' & Hs & Hp & _ & Hd & Hr).
  exists rs, s', g'. split_and!; [exact Hs|exact Hp|exact Hd|].
  specialize (Hr (b#"b")). rewrite (eq_refl : _q_msg (server demo_pipeline) = [demo_msg (b#"a") 3]) in Hr.
  vm_compute (filter _ [_]) in Hr. rewrite app_nil_r in Hr. exact Hr.
Defined.

(** The destructor of a server with a worker is undefined even after all
    threads were joined. *)
Example server_destructor_undefined : RtcServer_delete false (λ _, false) demo_server0 = Undef.
Proof. vm_compute. reflexivity. Qed.
