(* ===== verification/RtcLiveness.v ===== *)
(** * Blocking pipes between the servers

    [RtcPipeline] lets a thread hand a message over in one step and pipes hold
    any number of notifications. Here every pipe holds [cap] notifications and
    a thread that writes to a full one waits, and the two statements of each
    [send_rtc_msg], the push into the queue and the write to the pipe, are
    separate steps between which every other thread can run:

    - a signaling worker's thread inside [RtcServer::send_rtc_msg], called from
      [SignalingWorker::process_push_]; it serves its own pipe only while it is
      in no such call;
    - the RTC server's thread inside [RtcWorker::send_rtc_msg];
    - an RTC worker's thread inside [SignalingWorker::send_rtc_msg], with the
      answer in the signaling worker's queue and its notification to write.

    The three kinds of threads wait for each other in a circle. The theorem
    shows that no notification is lost and that the circle cannot close while
    fewer than [3 * cap + 3] requests are on their way; an example closes it
    with that many. *)

From S2P Require Import Prelude LockFreeQueue Crc32 EventLoop Socket TcpConnection SignalingWorker SignalingInv.
From S2P Require Import RtcWorker RtcServer RtcPipeline.

Lemma sum_list_with_insert {T} (f : T → nat) l i x y :
  l !! i = Some x → (sum_list_with f (<[i:=y]> l) + f x = sum_list_with f l + f y)%nat.
Proof. revert i. induction l as [|z l IH]; intros [|i] Hi; simplify_eq/=; [lia|]. specialize (IH i Hi). lia. Qed.

Lemma sum_list_with_lookup {T} (f : T → nat) l i x : l !! i = Some x → (f x ≤ sum_list_with f l)%nat.
Proof. revert i. induction l as [|z l IH]; intros [|i] Hi; simplify_eq/=; [lia|]. specialize (IH i Hi). lia. Qed.

Lemma sum_list_with_zero {T} (f : T → nat) l : Forall (λ x, f x = 0%nat) l → sum_list_with f l = 0%nat.
Proof. induction 1 as [|x l Hx _ IH]; simpl; lia. Qed.

Lemma length_mjoin_insert {T} (qs : list (list T)) i q q' :
  qs !! i = Some q → (length (mjoin (<[i:=q']> qs)) + length q = length (mjoin qs) + length q')%nat.
Proof.
  revert i. induction qs as [|x qs IH]; intros [|i] Hi; simplify_eq/=; [len_solve|].
  rewrite !length_app. specialize (IH i Hi). lia.
Qed.

Lemma length_mjoin_lookup {T} (qs : list (list T)) i q : qs !! i = Some q → (length q ≤ length (mjoin qs))%nat.
Proof.
  revert i. induction qs as [|x qs IH]; intros [|i] Hi; simplify_eq/=; [len_solve|].
  rewrite length_app. specialize (IH i Hi). lia.
Qed.

(** ** Steps *)

(** The statements of a [send_rtc_msg] still to be executed. *)
Inductive send_op := OpPush (m : RtcMsg) | OpNotify (note : Z).

(** [RtcServer::send_rtc_msg] *)
Definition server_send (m : RtcMsg) : list send_op := [OpPush m; OpNotify RTC_MSG].

(** [RtcWorker::send_rtc_msg] *)
Definition worker_send (m : RtcMsg) : list send_op := [OpPush m; OpNotify RTC_MSG].

(** A signaling worker's thread: its address, where it is in a call of
    [RtcServer::send_rtc_msg], and the notifications in its own pipe. *)
Record sw_thread := SwThread { sw_addr : Z; sw_call : list send_op; sw_unread : nat }.

(** A pipe takes a notification; a closed one refuses it without waiting. *)
Definition room (cap : nat) (p : option (list Z)) : bool :=
  match p with Some ns => (length ns <? cap)%nat | None => true end.

Section Flow.
Context {L : Type} {E : LibEv L} {G : Type} {SP : SignalingPort G}.
Context (cap : nat).

Record flow := Flow {
  srv : RtcServer L;
  inboxes : G;
  threads : list sw_thread;
  server_at : option (nat * list send_op);   (* the server inside [send_rtc_msg] of a worker *)
  worker_at : list (option Z);               (* whom each RTC worker has still to notify *)
  requests : list RtcMsg;                    (* every message pushed so far *)
  taken : nat                                (* notifications read by the signaling workers *)
}.

Implicit Types f : flow.

Definition server_op (op : send_op) (s : RtcServer L) : option (res (RtcServer L)) :=
  match op with
  | OpPush m => Some (Val (push_msg m s))
  | OpNotify note => if room cap (pipe s) then Some (Val (notify note s).2) else None
  end.

Definition worker_op (op : send_op) (w : RtcWorker L) : option (res (RtcWorker L)) :=
  match op with
  | OpPush m => Some (RtcWorker.push_msg m w)
  | OpNotify note => if room cap (RtcWorker.pipe w) then Some (Val (RtcWorker.notify note w).2) else None
  end.

(** [process_push_] calls [send_rtc_msg] with a message of this worker. *)
Definition begin_call (k : nat) (m : RtcMsg) f : option (res flow) :=
  match threads f !! k with
  | Some (SwThread a [] u) =>
      Some (Val (Flow (srv f) (inboxes f) (<[k := SwThread a (server_send m) u]> (threads f)) (server_at f) (worker_at f)
                   (requests f) (taken f)))
  | _ => None
  end.

(** The next statement of the call. *)
Definition proceed (k : nat) f : option (res flow) :=
  match threads f !! k with
  | Some (SwThread a (op :: ops) u) =>
      match server_op op (srv f) with
      | Some r =>
          Some (let* s := r in
                Val (Flow s (inboxes f) (<[k := SwThread a ops u]> (threads f)) (server_at f) (worker_at f)
                       (requests f ++ match op with OpPush m => [m] | _ => [] end) (taken f)))
      | None => None
      end
  | _ => None
  end.

(** [process_rtc_msg] up to the call of [send_rtc_msg]. *)
Definition route_msg (s : RtcServer L) : res (RtcServer L * option (nat * list send_op)) :=
  match pop_msg s with
  | (None, s) => Val (s, None)
  | (Some m, s) =>
      match get_worker (stream_name m) s with
      | None => Val (s, None)
      | Some i => let* _ := of_mem (_workers s !! i) in Val (s, Some (i, worker_send m))
      end
  end.

(** The server's thread reads a notification. *)
Definition route_turn f : option (res flow) :=
  match server_at f, pipe (srv f) with
  | None, Some (note :: ns) =>
      let s := RtcServer.set_queue (_q_msg (srv f)) (Some ns) (srv f) in
      Some (let* '(s, at_) := (if note =? RTC_MSG then route_msg s else Val (s, None)) in
            Val (Flow s (inboxes f) (threads f) at_ (worker_at f) (requests f) (taken f)))
  | _, _ => None
  end.

(** The next statement of [RtcWorker::send_rtc_msg]. *)
Definition forward f : option (res flow) :=
  match server_at f with
  | Some (i, op :: ops) =>
      match _workers (srv f) !! i with
      | None => Some Undef
      | Some w =>
          match worker_op op w with
          | Some r =>
              Some (let* w := r in
                    Val (Flow (set_workers (<[i:=w]> (_workers (srv f))) (srv f)) (inboxes f) (threads f)
                           (match ops with [] => None | _ => Some (i, ops) end) (worker_at f) (requests f) (taken f)))
          | None => None
          end
      end
  | _ => None
  end.

(** The signaling worker that the message at the head of the queue names. *)
Definition answer_to (w : RtcWorker L) : option Z :=
  match RtcWorker.pipe w, RtcWorker.pop_msg w with
  | Some (note :: _), Val (Some m, _) =>
      if (note =? RTC_MSG) && (cmdno m =? CMDNO_PUSH) then worker m else None
  | _, _ => None
  end.

(** A worker's thread reads a notification and answers; the write to the
    signaling worker's pipe is left. *)
Definition serve_turn (i : nat) f : option (res flow) :=
  match _workers (srv f) !! i, worker_at f !! i with
  | Some w, Some None =>
      match RtcWorker.pipe w with
      | Some (_ :: _) =>
          Some (let* '(w', g) := rtc_worker_recv_notify w (inboxes f) in
                Val (Flow (set_workers (<[i:=w']> (_workers (srv f))) (srv f)) g (threads f) (server_at f)
                       (<[i := answer_to w]> (worker_at f)) (requests f) (taken f)))
      | _ => None
      end
  | _, _ => None
  end.

(** The signaling worker of an address. *)
Definition thread_of (p : Z) f : option (nat * sw_thread) := list_find (λ t, sw_addr t = p) (threads f).

Definition wake (i : nat) f : option (res flow) :=
  match worker_at f !! i with
  | Some (Some p) =>
      match thread_of p f with
      | Some (k, t) =>
          if (sw_unread t <? cap)%nat
          then Some (Val (Flow (srv f) (inboxes f) (<[k := SwThread (sw_addr t) (sw_call t) (S (sw_unread t))]> (threads f))
                            (server_at f) (<[i := None]> (worker_at f)) (requests f) (taken f)))
          else None
      | None => Some Undef
      end
  | _ => None
  end.

(** A signaling worker's thread, back in its loop, reads a notification. *)
Definition take_turn (k : nat) f : option (res flow) :=
  match threads f !! k with
  | Some (SwThread a [] (S u)) =>
      Some (Val (Flow (srv f) (inboxes f) (<[k := SwThread a [] u]> (threads f)) (server_at f) (worker_at f)
                   (requests f) (S (taken f))))
  | _ => None
  end.

Inductive step := Begin (k : nat) (m : RtcMsg) | Proceed (k : nat) | Route | Forward | Serve (i : nat) | Wake (i : nat) | Take (k : nat).

(** [None] when the thread has to wait. *)
Definition take_step (a : step) f : option (res flow) :=
  match a with
  | Begin k m => begin_call k m f
  | Proceed k => proceed k f
  | Route => route_turn f
  | Forward => forward f
  | Serve i => serve_turn i f
  | Wake i => wake i f
  | Take k => take_turn k f
  end.

Fixpoint take_steps (l : list step) f : option (res flow) :=
  match l with
  | [] => Some (Val f)
  | a :: l => match take_step a f with Some (Val f) => take_steps l f | r => r end
  end.

(** Everything but a new request. *)
Definition is_internal (a : step) : Prop := match a with Begin _ _ => False | _ => True end.

(** The split statements are those of the code: executed one after the other
    they are [send_rtc_msg] and [process_rtc_msg]. *)
Lemma server_send_code m (s : RtcServer L) :
  (foldl (λ s op, match op with OpPush m => push_msg m s | OpNotify x => (notify x s).2 end) s (server_send m))
  = (RtcServer.send_rtc_msg m s).2.
Proof. done. Qed.

Lemma route_forward_code (s : RtcServer L) :
  process_rtc_msg s =
  let* '(s, at_) := route_msg s in
  match at_ with
  | Some (i, [OpPush m; OpNotify x]) =>
      let* w := of_mem (_workers s !! i) in
      let* w := RtcWorker.push_msg m w in
      Val (set_workers (<[i := (RtcWorker.notify x w).2]> (_workers s)) s)
  | _ => Val s
  end.
Proof.
  unfold process_rtc_msg, route_msg. destruct (pop_msg s) as [[m|] s1]; [|done].
  destruct (get_worker _ s1) as [i|]; [|done]. destruct (_workers s1 !! i) as [w|] eqn:Ew; [|done].
  cbn [of_mem mbind_res worker_send]. rewrite Ew. cbn [of_mem mbind_res]. unfold RtcWorker.send_rtc_msg.
  destruct (RtcWorker.push_msg m w) as [w1| | |]; [|done..]. cbn [mbind_res]. by destruct (RtcWorker.notify _ w1).
Qed.
End Flow.

(** ** The invariant *)

Notation of_stream sn := (filter (λ m, stream_name m = sn)).

Section Invariant.
Context {L : Type} {E : LibEv L} {ES : LibEvSpec L} {G : Type} {SP : SignalingPort G} {SS : SignalingPortSpec G}.
Context (cap : nat) (n : Z) (g0 : G) (ps : list Z).
Implicit Types f : @flow L G.

Definition step_ok (a : step) f : Prop :=
  match a with
  | Begin k m => answerable g0 m ∧ ∃ t, threads f !! k = Some t ∧ worker m = Some (sw_addr t)
  | _ => True
  end.

(** The system of a server that [Init] configured for [n] workers, started,
    and the signaling workers at the addresses [ps]. *)
Inductive flows : flow → Prop :=
| flows_start s : 0 < n ≤ INT_MAX → started n s →
    flows (Flow s g0 ((λ p, SwThread p [] 0) <$> ps) None (replicate (Z.to_nat n) None) [] 0)
| flows_step a f f' : flows f → step_ok a f → take_step cap a f = Some (Val f') → flows f'.

Definition pushing (t : sw_thread) : nat := match sw_call t with OpPush _ :: _ => 1 | _ => 0 end.
Definition notifying (t : sw_thread) : nat := match sw_call t with [OpNotify _] => 1 | _ => 0 end.
Definition waking (o : option Z) : nat := match o with Some _ => 1 | None => 0 end.

(** Requests begun and not yet back at their signaling worker. *)
Definition in_flight f : nat := length (requests f) + sum_list_with pushing (threads f) - taken f.

(** The message the server has in hand and the notification it owes. *)
Definition held f : list RtcMsg := match server_at f with Some (_, OpPush m :: _) => [m] | _ => [] end.
Definition owes f (i : nat) : nat :=
  match server_at f with Some (j, [OpNotify _]) => if decide (i = j) then 1 else 0 | _ => 0 end.
Definition owing f : nat := match server_at f with Some (_, [OpNotify _]) => 1 | _ => 0 end.

Definition msg_ok (m : RtcMsg) : Prop := answerable g0 m ∧ ∃ p, p ∈ ps ∧ worker m = Some p.

Definition call_ok (t : sw_thread) : Prop :=
  sw_call t = [] ∨ sw_call t = [OpNotify RTC_MSG] ∨ ∃ m, sw_call t = server_send m ∧ msg_ok m.

Definition at_ok f : Prop :=
  server_at f = None ∨ ∃ i, (i < Z.to_nat n)%nat ∧
    (server_at f = Some (i, [OpNotify RTC_MSG]) ∨
     ∃ m, server_at f = Some (i, worker_send m) ∧ msg_ok m ∧ route n (stream_name m) = i).

(** As for the coarse pipeline; a notification is missing for every thread
    between its two statements. *)
Record finv f (qs : list (list RtcMsg)) (rs : list RtcMsg) : Prop := FInv {
  fi_num : worker_num (options_ (srv f)) = n ∧ 0 < n ≤ INT_MAX ∧ length (_workers (srv f)) = Z.to_nat n ∧
    length (worker_at f) = Z.to_nat n ∧ length qs = Z.to_nat n;
  fi_up : server_up (srv f) (replicate (length (_q_msg (srv f)) - sum_list_with notifying (threads f)) RTC_MSG);
  fi_notes : (sum_list_with notifying (threads f) ≤ length (_q_msg (srv f)))%nat;
  fi_threads : sw_addr <$> threads f = ps ∧ Forall call_ok (threads f);
  fi_at : at_ok f;
  fi_workers i w q : _workers (srv f) !! i = Some w → qs !! i = Some q →
    (owes f i ≤ length q)%nat ∧ running w q (replicate (length q - owes f i) RTC_MSG);
  fi_routed i q : qs !! i = Some q → Forall (λ m, route n (stream_name m) = i) q;
  fi_ok : Forall msg_ok (_q_msg (srv f)) ∧ Forall (Forall msg_ok) qs;
  fi_waking i p : worker_at f !! i = Some (Some p) → p ∈ ps;
  fi_delivered : delivered g0 rs (inboxes f);
  fi_order sn :
    of_stream sn rs ++ (answer <$> of_stream sn (default [] (qs !! route n sn) ++ held f ++ _q_msg (srv f)))
    = answer <$> of_stream sn (requests f);
  fi_count : length (requests f) =
    (length (_q_msg (srv f)) + length (held f) + length (mjoin qs) + sum_list_with waking (worker_at f)
     + sum_list_with sw_unread (threads f) + taken f)%nat
}.

(** The steps that are left: eight for a request that was not pushed yet. *)
Definition steps_left f (qs : list (list RtcMsg)) : nat :=
  8 * sum_list_with pushing (threads f) + sum_list_with notifying (threads f) + 6 * length (_q_msg (srv f))
  + 5 * length (held f) + owing f + 3 * length (mjoin qs)
  + 2 * sum_list_with waking (worker_at f) + sum_list_with sw_unread (threads f).

(** What every step of a thread achieves. *)
Definition progress f qs f' qs' : Prop :=
  steps_left f qs = S (steps_left f' qs') ∧ (in_flight f' ≤ in_flight f)%nat.

Lemma threads_addr (l : list sw_thread) k t t' :
  l !! k = Some t → sw_addr t' = sw_addr t → sw_addr <$> <[k:=t']> l = sw_addr <$> l.
Proof.
  intros Hk Ha. rewrite list_fmap_insert, Ha. apply list_insert_id. by rewrite list_lookup_fmap, Hk.
Qed.

(** One thread changes. *)
Lemma set_thread_ok (l : list sw_thread) k t t' :
  l !! k = Some t → sw_addr t' = sw_addr t → call_ok t' →
  sw_addr <$> l = ps ∧ Forall call_ok l → sw_addr <$> <[k:=t']> l = ps ∧ Forall call_ok (<[k:=t']> l).
Proof.
  intros Hk Ha Hc [Hp Hf]. split; [by rewrite (threads_addr _ _ t)|]. by apply Forall_insert.
Qed.

Lemma thread_sums (l : list sw_thread) k t t' :
  l !! k = Some t →
  (sum_list_with pushing (<[k:=t']> l) + pushing t = sum_list_with pushing l + pushing t' ∧
   sum_list_with notifying (<[k:=t']> l) + notifying t = sum_list_with notifying l + notifying t' ∧
   sum_list_with sw_unread (<[k:=t']> l) + sw_unread t = sum_list_with sw_unread l + sw_unread t')%nat.
Proof. intros Hk. by rewrite !(sum_list_with_insert _ _ _ _ _ Hk). Qed.

Lemma start_finv s : 0 < n ≤ INT_MAX → started n s →
  finv (Flow s g0 ((λ p, SwThread p [] 0) <$> ps) None (replicate (Z.to_nat n) None) [] 0)
    (replicate (Z.to_nat n) []) [].
Proof.
  intros Hn Hs. destruct (start_pinv n g0 s Hn Hs) as [(H1 & H2 & H3) Hu _ Hw Hr [Hq _] Hd Ho]. simpl in *.
  assert (_q_msg s = []) as Eq.
  { destruct Hs as (? & ? & ? & ? & ? & s0 & ? & ? & Hi & Hst).
    apply Init_spec in Hi as (_ & Hq0 & _); [|done|done]. unfold start in Hst.
    destruct (thread_ s0); [congruence|]. by apply (f_equal (_q_msg ∘ snd)) in Hst; simpl in Hst; rewrite <- Hst. }
  rewrite Eq in *. split; simpl; rewrite ?Eq.
  - by rewrite !length_replicate.
  - done.
  - rewrite sum_list_with_zero; [done|]. by apply Forall_fmap, Forall_true.
  - split; [rewrite <- list_fmap_compose; apply list_fmap_id|]. apply Forall_fmap, Forall_true. by left.
  - by left.
  - intros i w q Hi Hqi. unfold owes. simpl. split; [lia|]. rewrite Nat.sub_0_r.
    by apply (Forall2_lookup_lr _ _ _ _ _ _ Hw Hi Hqi).
  - done.
  - split; [constructor|]. by apply Forall_replicate.
  - intros i p [[=] _]%lookup_replicate.
  - done.
  - done.
  - rewrite (sum_list_with_zero waking) by (by apply Forall_replicate).
    rewrite (sum_list_with_zero sw_unread) by (by apply Forall_fmap, Forall_true).
    by rewrite mjoin_replicate_nil.
Qed.
(** ** Every step keeps it *)

Lemma begin_finv f qs rs k m a u :
  finv f qs rs → threads f !! k = Some (SwThread a [] u) → msg_ok m →
  finv (Flow (srv f) (inboxes f) (<[k := SwThread a (server_send m) u]> (threads f)) (server_at f) (worker_at f)
          (requests f) (taken f)) qs rs.
Proof.
  intros [] Hk Hm. destruct (thread_sums _ _ _ (SwThread a (server_send m) u) Hk) as (_ & Hn & Hu).
  unfold notifying in Hn at 2 4. simpl in Hn, Hu. rewrite !Nat.add_0_r in Hn. apply Nat.add_cancel_r in Hu.
  split; simpl; try rewrite Hn; try rewrite Hu; try done.
  apply (set_thread_ok _ _ _ _ Hk); [done| |done]. right. right. eauto.
Qed.

Lemma call_push_finv f qs rs k m a u :
  finv f qs rs → threads f !! k = Some (SwThread a (server_send m) u) → msg_ok m →
  let f' := Flow (push_msg m (srv f)) (inboxes f) (<[k := SwThread a [OpNotify RTC_MSG] u]> (threads f)) (server_at f)
              (worker_at f) (requests f ++ [m]) (taken f) in
  finv f' qs rs ∧ progress f qs f' qs.
Proof.
  intros [H1 Hup H3 H4 H5 H6 H7 [H8 H8'] H9 H10 H11 H12] Hk Hm f'.
  destruct (thread_sums _ _ _ (SwThread a [OpNotify RTC_MSG] u) Hk) as (Hp & Hn & Hu).
  unfold pushing in Hp at 2 4. unfold notifying in Hn at 2 4. simpl in Hp, Hn, Hu.
  split.
  - split; simpl; try done.
    + apply (server_up_queue _ _ (_q_msg (srv f) ++ [m])
        (replicate (length (_q_msg (srv f)) - sum_list_with notifying (threads f)) RTC_MSG)) in Hup as Hup'.
      unfold push_msg. rewrite (up_pipe _ _ Hup).
      replace (length (_q_msg (srv f) ++ [m]) - _)%nat
        with (length (_q_msg (srv f)) - sum_list_with notifying (threads f))%nat by len_solve. exact Hup'.
    + len_solve.
    + apply (set_thread_ok _ _ _ _ Hk); [done| |done]. right. by left.
    + split; [|done]. apply Forall_app; split; [done|by constructor].
    + intros sn. specialize (H11 sn). unfold held in *. simpl.
      rewrite (filter_app _ (requests f)), fmap_app, <- H11. rewrite !filter_app, !fmap_app. by rewrite !app_assoc.
    + unfold held in *. simpl. len_solve.
  - unfold progress, steps_left, in_flight, held, owing in *. simpl. rewrite !length_app. simpl. split; lia.
Qed.

Lemma call_notify_finv f qs rs k a u :
  finv f qs rs → threads f !! k = Some (SwThread a [OpNotify RTC_MSG] u) →
  let f' := Flow (notify RTC_MSG (srv f)).2 (inboxes f) (<[k := SwThread a [] u]> (threads f)) (server_at f)
              (worker_at f) (requests f ++ []) (taken f) in
  finv f' qs rs ∧ progress f qs f' qs.
Proof.
  intros [H1 Hup H3 H4 H5 H6 H7 [H8 H8'] H9 H10 H11 H12] Hk. rewrite app_nil_r. intros f'.
  destruct (thread_sums _ _ _ (SwThread a [] u) Hk) as (Hp & Hn & Hu).
  unfold pushing in Hp at 2 4. unfold notifying in Hn at 2 4. simpl in Hp, Hn, Hu.
  unfold f', notify. rewrite (up_pipe _ _ Hup). split.
  - split; simpl; try done.
    + apply (server_up_queue _ _ (_q_msg (srv f)) (replicate (length (_q_msg (srv f)) -
        sum_list_with notifying (<[k := SwThread a [] u]> (threads f))) RTC_MSG)) in Hup as Hup'.
      rewrite <- replicate_S_end. by replace (S (_ - _)) with (length (_q_msg (srv f)) -
        sum_list_with notifying (<[k := SwThread a [] u]> (threads f)))%nat by lia.
    + lia.
    + apply (set_thread_ok _ _ _ _ Hk); [done| |done]. by left.
    + unfold held in *. simpl. lia.
  - unfold progress, steps_left, in_flight, held, owing in *. simpl. split; lia.
Qed.

Lemma route_finv f qs rs ns :
  finv f qs rs → server_at f = None → pipe (srv f) = Some (RTC_MSG :: ns) →
  ∃ s' at_, route_msg (RtcServer.set_queue (_q_msg (srv f)) (Some ns) (srv f)) = Val (s', at_) ∧
    let f' := Flow s' (inboxes f) (threads f) at_ (worker_at f) (requests f) (taken f) in
    finv f' qs rs ∧ progress f qs f' qs.
Proof.
  intros [H1 Hup H3 H4 H5 H6 H7 [H8 H8'] H9 H10 H11 H12] Hat Hns.
  pose proof (up_pipe _ _ Hup) as Hp. rewrite Hns in Hp.
  destruct f as [s g ts at_ wa re tk]; cbn [srv inboxes threads server_at worker_at requests taken] in *. subst at_.
  destruct (_q_msg s) as [|m ms] eqn:Eq; [by simpl in Hp|].
  set (u := sum_list_with notifying ts) in *.
  assert (u ≤ length ms ∧ ns = replicate (length ms - u) RTC_MSG)%nat as [Hu ->].
  { destruct (decide (u ≤ length ms)%nat) as [Hu|Hu].
    - cbn [length] in Hp. rewrite Nat.sub_succ_l in Hp by done. simpl in Hp. split; [done|congruence].
    - simpl length in *. replace (S (length ms) - u)%nat with O in Hp by lia. done. }
  unfold route_msg, pop_msg. cbn [_q_msg RtcServer.set_queue]. set (s1 := RtcServer.set_queue ms (pipe _) _).
  destruct H1 as (Hc & Hn & Hl & Hwl & Hql).
  destruct (get_worker_spec s1 n (stream_name m) Hc Hn Hl) as [-> Hi].
  change (_workers s1) with (_workers s) in *. set (i := route n (stream_name m)) in *.
  destruct (lookup_lt_is_Some_2 (_workers s) i Hi) as [w Ew]. rewrite Ew. cbn [of_mem mbind_res].
  apply Forall_cons in H8 as [Hm H8]. do 2 eexists. split; [done|]. split.
  - split; simpl; try done.
    + exact (server_up_queue s _ ms _ Hup).
    + right. exists i. split; [lia|]. right. eauto.
    + unfold held. simpl. simpl in H12. lia.
  - unfold progress, steps_left, in_flight, held, owing in *. simpl. rewrite ?Eq. simpl. split; lia.
Qed.
Lemma rw_push_spec (w : RtcWorker L) ms ns m :
  running w ms ns → ∃ w', RtcWorker.push_msg m w = Val w' ∧ running w' (ms ++ [m]) ns.
Proof.
  intros [Hq Hp Ht Hl Hw]. destruct (produce_spec _ _ m Hq) as (q & Eq & Hq').
  unfold RtcWorker.push_msg. rewrite Eq. cbn [of_mem mbind_res]. eexists. split; [done|]. by split.
Qed.

Lemma rw_notify_spec (w : RtcWorker L) ms ns x :
  running w ms ns → running (RtcWorker.notify x w).2 ms (ns ++ [x]).
Proof. intros [Hq Hp Ht Hl Hw]. unfold RtcWorker.notify. rewrite Hp. by split. Qed.

(** The message in hand is the next of its stream at its worker. *)
Lemma held_order (qs : list (list RtcMsg)) q i m sn (rest : list RtcMsg) :
  qs !! i = Some q → route n (stream_name m) = i →
  of_stream sn (default [] (<[i := q ++ [m]]> qs !! route n sn) ++ rest) =
  of_stream sn (default [] (qs !! route n sn) ++ [m] ++ rest).
Proof.
  intros Eq Hm. destruct (decide (route n sn = i)) as [->|Hne].
  - rewrite list_lookup_insert_eq by (by eapply lookup_lt_Some). rewrite Eq. cbn. by rewrite <- app_assoc.
  - rewrite list_lookup_insert_ne by done. rewrite !filter_app, (filter_cons _ m), filter_nil.
    rewrite decide_False; [done|]. intros <-. done.
Qed.

Lemma forward_push_finv f qs rs i m w :
  finv f qs rs → server_at f = Some (i, worker_send m) → msg_ok m → route n (stream_name m) = i →
  _workers (srv f) !! i = Some w →
  ∃ w' q, RtcWorker.push_msg m w = Val w' ∧ qs !! i = Some q ∧
    let f' := Flow (set_workers (<[i:=w']> (_workers (srv f))) (srv f)) (inboxes f) (threads f)
                (Some (i, [OpNotify RTC_MSG])) (worker_at f) (requests f) (taken f) in
    finv f' (<[i := q ++ [m]]> qs) rs ∧ progress f qs f' (<[i := q ++ [m]]> qs).
Proof.
  intros [H1 Hup H3 H4 H5 H6 H7 [H8 H8'] H9 H10 H11 H12] Hat Hm Hr Hw.
  destruct H1 as (Hc & Hn & Hl & Hwl & Hql). pose proof (lookup_lt_Some _ _ _ Hw) as Hi.
  destruct (lookup_lt_is_Some_2 qs i) as [q Hq]; [lia|]. destruct (H6 i w q Hw Hq) as [Ho Hrun].
  unfold owes, held in *. rewrite Hat in *. cbn [worker_send] in *. rewrite Nat.sub_0_r in Hrun.
  destruct (rw_push_spec w q _ m Hrun) as (w' & -> & Hrun'). exists w', q. split; [done|]. split; [done|].
  pose proof (length_mjoin_insert qs i q (q ++ [m]) Hq) as Hj. rewrite length_app in Hj. simpl in Hj, H12. split.
  - split; simpl; try done.
    + by rewrite !length_insert.
    + by apply server_up_workers.
    + right. exists i. split; [lia|by left].
    + unfold owes. simpl. intros j v q' Hj' Hq'. destruct (decide (j = i)) as [->|Hne].
      * rewrite list_lookup_insert_eq in Hj' by lia. rewrite list_lookup_insert_eq in Hq' by lia. simplify_eq. rewrite length_app. simpl. split; [lia|].
        by replace (length q + 1 - 1)%nat with (length q) by lia.
      * rewrite list_lookup_insert_ne in Hj' by done. rewrite list_lookup_insert_ne in Hq' by done. exact (H6 j v q' Hj' Hq').
    + intros j q' [(<- & <- & _)|(_ & Hj')]%list_lookup_insert_Some; [|by apply H7].
      apply Forall_app. split; [by apply H7|by constructor].
    + split; [done|]. apply Forall_insert; [done|]. apply Forall_app. split; [|by constructor].
      by apply (Forall_lookup_1 _ _ _ _ H8' Hq).
    + intros sn. rewrite <- H11. f_equal. f_equal. unfold held. cbn [app server_at]. by apply held_order.
    + unfold held. simpl. lia.
  - unfold progress, steps_left, in_flight, held, owing. rewrite Hat. simpl. split; lia.
Qed.

Lemma forward_notify_finv f qs rs i w :
  finv f qs rs → server_at f = Some (i, [OpNotify RTC_MSG]) → _workers (srv f) !! i = Some w →
  let f' := Flow (set_workers (<[i:=(RtcWorker.notify RTC_MSG w).2]> (_workers (srv f))) (srv f)) (inboxes f)
              (threads f) None (worker_at f) (requests f) (taken f) in
  finv f' qs rs ∧ progress f qs f' qs.
Proof.
  intros [H1 Hup H3 H4 H5 H6 H7 [H8 H8'] H9 H10 H11 H12] Hat Hw.
  destruct H1 as (Hc & Hn & Hl & Hwl & Hql). pose proof (lookup_lt_Some _ _ _ Hw) as Hi.
  unfold owes, held in *. rewrite Hat in *. split.
  - split; simpl; try done.
    + by rewrite !length_insert.
    + by apply server_up_workers.
    + by left.
    + unfold owes. simpl. intros j v q' Hj' Hq'. split; [lia|]. rewrite Nat.sub_0_r.
      destruct (decide (j = i)) as [->|Hne].
      * rewrite list_lookup_insert_eq in Hj' by lia. simplify_eq. destruct (H6 i w q' Hw Hq') as [Ho Hrun].
        rewrite decide_True in Ho, Hrun by done.
        replace (length q') with (S (length q' - 1)) by lia. rewrite replicate_S_end.
        by apply rw_notify_spec.
      * rewrite list_lookup_insert_ne in Hj' by done. destruct (H6 j v q' Hj' Hq') as [_ Hrun].
        rewrite decide_False in Hrun by done. by rewrite Nat.sub_0_r in Hrun.
  - unfold progress, steps_left, in_flight, held, owing. rewrite Hat. simpl. split; lia.
Qed.

(** A worker answers the head of its queue. *)
Lemma serve_finv f qs rs i w x ns :
  finv f qs rs → _workers (srv f) !! i = Some w → worker_at f !! i = Some None → RtcWorker.pipe w = Some (x :: ns) →
  ∃ w' g' qs' rs', rtc_worker_recv_notify w (inboxes f) = Val (w', g') ∧
    let f' := Flow (set_workers (<[i:=w']> (_workers (srv f))) (srv f)) g' (threads f) (server_at f)
                (<[i := answer_to w]> (worker_at f)) (requests f) (taken f) in
    finv f' qs' rs' ∧ progress f qs f' qs'.
Proof.
  intros [H1 Hup H3 H4 H5 H6 H7 [H8 H8'] H9 H10 H11 H12] Hw Hat Hns.
  destruct H1 as (Hc & Hn & Hl & Hwl & Hql). pose proof (lookup_lt_Some _ _ _ Hw) as Hi.
  destruct (lookup_lt_is_Some_2 qs i) as [q Hq]; [lia|]. destruct (H6 i w q Hw Hq) as [Ho Hrun].
  pose proof (rw_pipe _ _ _ Hrun) as Hp. rewrite Hns in Hp.
  destruct (length q - owes f i)%nat as [|c] eqn:Ec; [done|]. simpl in Hp. simplify_eq Hp. intros -> ->.
  destruct q as [|m q]; [simpl in Ec; lia|]. simpl in Ec, Ho. simpl in Hrun.
  pose proof (Forall_lookup_1 _ _ _ _ H8' Hq) as [[Hm (p & Hps & Hmp)] Hqa]%Forall_cons.
  pose proof (H7 _ _ Hq) as [Hri Hrq]%Forall_cons.
  destruct (rw_recv_spec w m q (replicate c RTC_MSG) (inboxes f) Hrun) as (w' & g' & Er & Hr' & Hd).
  { by eapply answerable_delivered. }
  assert (answer_to w = Some p) as Ea.
  { unfold answer_to, RtcWorker.pop_msg. rewrite Hns. destruct (consume_spec _ _ (rw_queue _ _ _ Hrun)) as (? & -> & _).
    cbn [of_mem mbind_res]. rewrite (proj1 Hm). exact Hmp. }
  exists w', g', (<[i:=q]> qs), (rs ++ [answer m]). split; [done|]. rewrite Ea.
  pose proof (sum_list_with_insert waking _ _ _ (Some p) Hat) as Hwk. simpl in Hwk.
  pose proof (length_mjoin_insert qs i (m :: q) q Hq) as Hj. simpl in Hj. split.
  - split; simpl; try done.
    + by rewrite !length_insert.
    + by apply server_up_workers.
    + intros j v q' Hj' Hq'. destruct (decide (j = i)) as [->|Hne].
      * rewrite list_lookup_insert_eq in Hj' by lia. rewrite list_lookup_insert_eq in Hq' by lia.
        injection Hj' as <-. injection Hq' as <-. change (owes _ i) with (owes f i). split; [lia|].
        by replace (length q - owes f i)%nat with c by lia.
      * rewrite list_lookup_insert_ne in Hj' by done. rewrite list_lookup_insert_ne in Hq' by done. exact (H6 j v q' Hj' Hq').
    + intros j q' [(<- & <- & _)|(_ & Hj')]%list_lookup_insert_Some; [done|by apply H7].
    + split; [done|]. by apply Forall_insert.
    + intros j p' [(<- & [= <-] & _)|(_ & Hj')]%list_lookup_insert_Some; [done|by eapply H9].
    + by eapply delivered_trans.
    + intros sn. rewrite <- H11. change (held _) with (held f). rewrite filter_app, <- app_assoc. f_equal.
      destruct (decide (route n sn = i)) as [->|Hne].
      * rewrite list_lookup_insert_eq, Hq by lia. cbn [default from_option app id].
        unfold Datatypes.id. cbn [app]. rewrite !filter_cons, filter_nil. cbn [answer stream_name].
        by destruct (decide (stream_name m = sn)).
      * rewrite list_lookup_insert_ne by done. rewrite filter_cons, decide_False; [done|].
        cbn [answer stream_name]. intros <-. done.
    + unfold held in *. simpl. lia.
  - unfold progress, steps_left, in_flight, held, owing. simpl. split; lia.
Qed.

Lemma wake_finv f qs rs i p k t :
  finv f qs rs → worker_at f !! i = Some (Some p) → threads f !! k = Some t →
  let f' := Flow (srv f) (inboxes f) (<[k := SwThread (sw_addr t) (sw_call t) (S (sw_unread t))]> (threads f))
              (server_at f) (<[i := None]> (worker_at f)) (requests f) (taken f) in
  finv f' qs rs ∧ progress f qs f' qs.
Proof.
  intros [H1 Hup H3 H4 H5 H6 H7 [H8 H8'] H9 H10 H11 H12] Hat Hk f'.
  destruct (thread_sums _ _ _ (SwThread (sw_addr t) (sw_call t) (S (sw_unread t))) Hk) as (Hp & Hn & Hu).
  assert (pushing (SwThread (sw_addr t) (sw_call t) (S (sw_unread t))) = pushing t ∧
    notifying (SwThread (sw_addr t) (sw_call t) (S (sw_unread t))) = notifying t) as [Ep En] by done.
  rewrite Ep in Hp. rewrite En in Hn. apply Nat.add_cancel_r in Hp, Hn.
  pose proof (sum_list_with_insert waking _ _ _ None Hat) as Hwk. simpl in Hwk, Hu. split.
  - split; simpl; rewrite ?Hn; try done.
    + by rewrite length_insert.
    + apply (set_thread_ok _ _ _ _ Hk); [done| |done].
      apply (Forall_lookup_1 _ _ _ _ (proj2 H4) Hk).
    + intros j p' [(<- & [=] & _)|(_ & Hj')]%list_lookup_insert_Some. by eapply H9.
    + unfold held in *. simpl. lia.
  - unfold f', progress, steps_left, in_flight, held, owing. simpl. split; lia.
Qed.

Lemma take_finv f qs rs k a u :
  finv f qs rs → threads f !! k = Some (SwThread a [] (S u)) →
  let f' := Flow (srv f) (inboxes f) (<[k := SwThread a [] u]> (threads f)) (server_at f) (worker_at f)
              (requests f) (S (taken f)) in
  finv f' qs rs ∧ progress f qs f' qs.
Proof.
  intros [H1 Hup H3 H4 H5 H6 H7 [H8 H8'] H9 H10 H11 H12] Hk f'.
  destruct (thread_sums _ _ _ (SwThread a [] u) Hk) as (Hp & Hn & Hu).
  unfold pushing in Hp at 2 4. unfold notifying in Hn at 2 4. simpl in Hp, Hn, Hu.
  apply Nat.add_cancel_r in Hp, Hn. split.
  - split; simpl; rewrite ?Hn; try done.
    + apply (set_thread_ok _ _ _ _ Hk); [done| |done]. by left.
    + unfold held in *. simpl. lia.
  - unfold f', progress, steps_left, in_flight, held, owing. simpl. split; lia.
Qed.
Lemma thread_known f qs rs p :
  finv f qs rs → p ∈ ps → ∃ k t, thread_of p f = Some (k, t) ∧ threads f !! k = Some t ∧ sw_addr t = p.
Proof.
  intros Hi Hp. rewrite <- (proj1 (fi_threads _ _ _ Hi)) in Hp. apply list_elem_of_fmap in Hp as (t0 & -> & Ht0).
  destruct (list_find_elem_of (λ t, sw_addr t = sw_addr t0) (threads f) t0 Ht0 eq_refl) as [[k t] Hf].
  exists k, t. split; [exact Hf|]. apply list_find_Some in Hf as (? & ? & _). done.
Qed.

Lemma step_finv a f qs rs :
  finv f qs rs → step_ok a f →
  take_step cap a f = None ∨ ∃ f' qs' rs', take_step cap a f = Some (Val f') ∧ finv f' qs' rs' ∧
    (is_internal a → progress f qs f' qs').
Proof.
  intros Hi Ha. destruct a as [k m|k| | |i|i|k]; cbn [take_step is_internal].
  - unfold begin_call. destruct Ha as (Hm & t & Hk & Hp). rewrite Hk. destruct t as [a [|op ops] u]; [|by left].
    right. eexists _, qs, rs. split; [done|]. split; [|done]. apply begin_finv; [done|done|]. split; [done|].
    exists a. split; [|done]. rewrite <- (proj1 (fi_threads _ _ _ Hi)).
    apply list_elem_of_fmap. eexists. split; [|by eapply list_elem_of_lookup_2]. done.
  - unfold proceed. destruct (threads f !! k) as [[a ops u]|] eqn:Hk; [|by left].
    destruct (Forall_lookup_1 _ _ _ _ (proj2 (fi_threads _ _ _ Hi)) Hk) as [Hc|[Hc|(m & Hc & Hm)]];
      simpl in Hc; subst ops; [by left| |]; cbn [server_op server_send].
    + destruct (room cap _); [|by left]. right. eexists _, qs, rs. split; [done|].
      destruct (call_notify_finv f qs rs k a u Hi Hk) as [? ?]. done.
    + right. eexists _, qs, rs. split; [done|]. destruct (call_push_finv f qs rs k m a u Hi Hk Hm) as [? ?]. done.
  - unfold route_turn. destruct (server_at f) eqn:Hat; [by left|].
    destruct (pipe (srv f)) as [[|x ns]|] eqn:Hp; [by left| |by left]. right.
    assert (x = RTC_MSG) as ->.
    { pose proof (up_pipe _ _ (fi_up _ _ _ Hi)) as Hp'. rewrite Hp in Hp'. by destruct (length _ - _)%nat; simplify_eq/=. }
    destruct (route_finv f qs rs ns Hi Hat Hp) as (s' & at_ & Hr & Hi' & Hpr). rewrite Z.eqb_refl, Hr.
    eexists _, qs, rs. done.
  - unfold forward. destruct (fi_at _ _ _ Hi) as [->|(i & Hlt & Hat)]; [by left|].
    destruct (lookup_lt_is_Some_2 (_workers (srv f)) i) as [w Hw].
    { destruct (fi_num _ _ _ Hi) as (_ & _ & -> & _). done. }
    destruct Hat as [Hat|(m & Hat & Hm & Hr)]; rewrite Hat; cbn [worker_send]; rewrite Hw; cbn [worker_op].
    + destruct (room cap _); [|by left]. right. eexists _, qs, rs. split; [done|].
      destruct (forward_notify_finv f qs rs i w Hi Hat Hw) as [? ?]. done.
    + right. destruct (forward_push_finv f qs rs i m w Hi Hat Hm Hr Hw) as (w' & q & -> & _ & Hi' & Hpr).
      eexists _, _, rs. done.
  - unfold serve_turn. destruct (_workers (srv f) !! i) as [w|] eqn:Hw; [|by left].
    destruct (worker_at f !! i) as [[p|]|] eqn:Hat; [by left| |by left].
    destruct (RtcWorker.pipe w) as [[|x ns]|] eqn:Hp; [by left| |by left]. right.
    destruct (serve_finv f qs rs i w x ns Hi Hw Hat Hp) as (w' & g' & qs' & rs' & -> & Hi' & Hpr).
    eexists _, qs', rs'. done.
  - unfold wake. destruct (worker_at f !! i) as [[p|]|] eqn:Hat; [|by left..].
    destruct (thread_known f qs rs p Hi (fi_waking _ _ _ Hi _ _ Hat)) as (k & t & -> & Hk & _).
    destruct (_ <? _)%nat; [|by left]. right. eexists _, qs, rs. split; [done|].
    destruct (wake_finv f qs rs i p k t Hi Hat Hk) as [? ?]. done.
  - unfold take_turn. destruct (threads f !! k) as [[a [|op ops] [|u]]|] eqn:Hk; [by left| |by left..].
    right. eexists _, qs, rs. split; [done|]. destruct (take_finv f qs rs k a u Hi Hk) as [? ?]. done.
Qed.

Lemma flows_finv f : flows f → ∃ qs rs, finv f qs rs.
Proof.
  induction 1 as [s Hn Hs|a f f' _ (qs & rs & IH) Ha Hst]; [eauto using start_finv|].
  destruct (step_finv a f qs rs IH Ha) as [Hno|(? & ? & ? & ? & ? & _)]; [congruence|]. simplify_eq. eauto.
Qed.

(** ** When no thread can run *)

Definition stuck f : Prop := ∀ a, is_internal a → take_step cap a f = None.

(** A thread in a call waits for the server's pipe. *)
Lemma stuck_call f qs rs k t :
  finv f qs rs → stuck f → threads f !! k = Some t → sw_call t ≠ [] →
  sw_call t = [OpNotify RTC_MSG] ∧ (cap ≤ length (default [] (pipe (srv f))))%nat.
Proof.
  intros Hi Hs Hk Hne. specialize (Hs (Proceed k) I). cbn in Hs. unfold proceed in Hs. rewrite Hk in Hs.
  destruct t as [a ops u]. simpl in *.
  destruct (Forall_lookup_1 _ _ _ _ (proj2 (fi_threads _ _ _ Hi)) Hk) as [Hc|[Hc|(m & Hc & Hm)]];
    simpl in Hc; subst ops; [done| |done]. split; [done|]. cbn [server_op] in Hs. unfold room in Hs.
  rewrite (up_pipe _ _ (fi_up _ _ _ Hi)) in *. simpl. destruct (Nat.ltb_spec (length (replicate
    (length (_q_msg (srv f)) - sum_list_with notifying (threads f)) RTC_MSG)) cap); [done|lia].
Qed.

(** An RTC worker that has someone to wake waits for a thread in a call. *)
Lemma stuck_wake f qs rs i p :
  (0 < cap)%nat → finv f qs rs → stuck f → worker_at f !! i = Some (Some p) →
  ∃ k t, threads f !! k = Some t ∧ (cap ≤ sw_unread t)%nat ∧ sw_call t ≠ [].
Proof.
  intros Hcap Hi Hs Hat. pose proof (Hs (Wake i) I) as Hw. cbn in Hw. unfold wake in Hw. rewrite Hat in Hw.
  destruct (thread_known f qs rs p Hi (fi_waking _ _ _ Hi _ _ Hat)) as (k & t & Ht & Hk & _). rewrite Ht in Hw.
  destruct (Nat.ltb_spec (sw_unread t) cap); [done|]. exists k, t. split_and!; [done|done|]. intros Hc.
  specialize (Hs (Take k) I). cbn in Hs. unfold take_turn in Hs. rewrite Hk in Hs. destruct t as [a ops u].
  simpl in *. subst ops. destruct u; [lia|done].
Qed.

(** The server waits for a worker that waits in turn. *)
Lemma stuck_server f qs rs :
  (0 < cap)%nat → finv f qs rs → stuck f → server_at f ≠ None → (3 * cap + 3 ≤ in_flight f)%nat.
Proof.
  intros Hcap Hi Hs Hne. destruct (fi_at _ _ _ Hi) as [|(i & Hlt & Hat)]; [done|].
  destruct (fi_num _ _ _ Hi) as (_ & _ & Hl & Hwl & Hql).
  destruct (lookup_lt_is_Some_2 (_workers (srv f)) i) as [w Hw]; [lia|].
  destruct (lookup_lt_is_Some_2 qs i) as [q Hq]; [lia|].
  destruct (lookup_lt_is_Some_2 (worker_at f) i) as [o Ho]; [lia|].
  destruct (fi_workers _ _ _ Hi i w q Hw Hq) as [Hle Hrun]. pose proof (rw_pipe _ _ _ Hrun) as Hp.
  pose proof (Hs Forward I) as Hf. cbn in Hf. unfold forward in Hf.
  destruct Hat as [Hat|(m & Hat & _)]; rewrite Hat in Hf; cbn [worker_send] in Hf; rewrite Hw in Hf; cbn [worker_op] in Hf;
    [|done].
  assert (owes f i = 1%nat) as Howes by (unfold owes; rewrite Hat; by rewrite decide_True).
  rewrite Howes in *. unfold room in Hf. rewrite Hp, length_replicate in Hf.
  destruct (Nat.ltb_spec (length q - 1) cap) as [|Hfull]; [done|].
  destruct o as [p|].
  2:{ specialize (Hs (Serve i) I). cbn in Hs. unfold serve_turn in Hs. rewrite Hw, Ho, Hp in Hs.
      destruct (length q - 1)%nat; [lia|done]. }
  destruct (stuck_wake f qs rs i p Hcap Hi Hs Ho) as (k & t & Hk & Hun & Hc).
  destruct (stuck_call f qs rs k t Hi Hs Hk Hc) as [Hcall Hpipe].
  rewrite (up_pipe _ _ (fi_up _ _ _ Hi)) in Hpipe. simpl in Hpipe. rewrite length_replicate in Hpipe.
  pose proof (sum_list_with_lookup notifying _ _ _ Hk) as Hn1. unfold notifying in Hn1 at 1. rewrite Hcall in Hn1.
  pose proof (sum_list_with_lookup sw_unread _ _ _ Hk). pose proof (sum_list_with_lookup waking _ _ _ Ho) as Hwk.
  simpl in Hwk. pose proof (length_mjoin_lookup _ _ _ Hq). pose proof (fi_count _ _ _ Hi). unfold in_flight. lia.
Qed.

(** Every request was answered, in the order of its stream, and the signaling
    workers have read the notifications of all answers. *)
Definition all_answered f : Prop :=
  (∃ rs, delivered g0 rs (inboxes f) ∧ ∀ sn, of_stream sn rs = answer <$> of_stream sn (requests f)) ∧
  Forall (λ t, sw_call t = [] ∧ sw_unread t = 0%nat) (threads f) ∧ taken f = length (requests f).

Lemma stuck_done f qs rs :
  (0 < cap)%nat → finv f qs rs → stuck f → server_at f = None → all_answered f.
Proof.
  intros Hcap Hi Hs Hat. pose proof (up_pipe _ _ (fi_up _ _ _ Hi)) as Hp.
  destruct (fi_num _ _ _ Hi) as (_ & _ & Hl & Hwl & Hql).
  assert (length (_q_msg (srv f)) - sum_list_with notifying (threads f) = 0)%nat as Hempty.
  { destruct (length _ - _)%nat as [|c] eqn:Ec; [done|]. specialize (Hs Route I). cbn in Hs. unfold route_turn in Hs.
    rewrite Hat, Hp in Hs. done. }
  assert (Forall (λ t, sw_call t = []) (threads f)) as Hcalls.
  { apply Forall_lookup. intros k t Hk. destruct (sw_call t) eqn:Ec; [done|exfalso].
    destruct (stuck_call f qs rs k t Hi Hs Hk) as [_ Hfull]; [congruence|]. rewrite Hp, Hempty in Hfull. simpl in Hfull. lia. }
  assert (Forall (λ t, sw_unread t = 0%nat) (threads f)) as Hunread.
  { apply Forall_lookup. intros k t Hk. specialize (Hs (Take k) I). cbn in Hs. unfold take_turn in Hs. rewrite Hk in Hs.
    pose proof (Forall_lookup_1 _ _ _ _ Hcalls Hk) as Hc. destruct t as [a ops [|u]]; simpl in *; [done|by subst]. }
  assert (sum_list_with notifying (threads f) = 0%nat) as Hn.
  { apply sum_list_with_zero. eapply Forall_impl; [exact Hcalls|]. intros t Ht. unfold notifying. by rewrite Ht. }
  assert (Forall (λ o, o = None) (worker_at f)) as Hwk.
  { apply Forall_lookup. intros i [p|] Ho; [exfalso|done].
    destruct (stuck_wake f qs rs i p Hcap Hi Hs Ho) as (k & t & Hk & _ & Hc). apply Hc, (Forall_lookup_1 _ _ _ _ Hcalls Hk). }
  assert (Forall (λ q, q = []) qs) as Hqs.
  { apply Forall_lookup. intros i q Hq. pose proof (lookup_lt_Some _ _ _ Hq).
    destruct (lookup_lt_is_Some_2 (_workers (srv f)) i) as [w Hw]; [lia|].
    destruct (lookup_lt_is_Some_2 (worker_at f) i) as [o Ho]; [lia|].
    pose proof (Forall_lookup_1 _ _ _ _ Hwk Ho) as ->.
    destruct (fi_workers _ _ _ Hi i w q Hw Hq) as [_ Hrun]. pose proof (rw_pipe _ _ _ Hrun) as Hpw.
    unfold owes in Hpw. rewrite Hat, Nat.sub_0_r in Hpw. destruct q as [|m q]; [done|exfalso].
    specialize (Hs (Serve i) I). cbn in Hs. unfold serve_turn in Hs. by rewrite Hw, Ho, Hpw in Hs. }
  assert (_q_msg (srv f) = []) as Eq by (apply nil_length_inv; lia).
  assert (mjoin qs = []) as Ej by (clear -Hqs; induction Hqs as [|q qs -> _ IH]; [done|exact IH]).
  pose proof (fi_count _ _ _ Hi) as Hcount. unfold held in Hcount. rewrite Hat, Eq, Ej in Hcount. simpl in Hcount.
  rewrite (sum_list_with_zero sw_unread) in Hcount by done.
  rewrite (sum_list_with_zero waking) in Hcount by (eapply Forall_impl; [exact Hwk|by intros ? ->]).
  split_and!; [|by apply Forall_and|lia]. exists rs. split; [apply Hi|]. intros sn.
  rewrite <- (fi_order _ _ _ Hi sn), Eq. unfold held. rewrite Hat.
  destruct (qs !! route n sn) as [q|] eqn:Hq; [rewrite (Forall_lookup_1 _ _ _ _ Hqs Hq)|]; cbn; by rewrite app_nil_r.
Qed.

Lemma stuck_answered f qs rs :
  (0 < cap)%nat → finv f qs rs → stuck f → (in_flight f < 3 * cap + 3)%nat → all_answered f.
Proof.
  intros Hcap Hi Hs Hf. destruct (server_at f) eqn:Hat; [|by eapply stuck_done].
  pose proof (stuck_server f qs rs Hcap Hi Hs) as Hc. rewrite Hat in Hc. specialize (Hc ltac:(done)). lia.
Qed.
(** ** Schedules *)

Lemma steps_finv l : ∀ f qs rs f',
  finv f qs rs → Forall is_internal l → take_steps cap l f = Some (Val f') →
  ∃ qs' rs', finv f' qs' rs' ∧ steps_left f qs = (length l + steps_left f' qs')%nat ∧ (in_flight f' ≤ in_flight f)%nat.
Proof.
  induction l as [|a l IH]; intros f qs rs f' Hi Hl Hs; cbn [take_steps] in Hs; [simplify_eq; by exists qs, rs|].
  apply Forall_cons in Hl as [Ha Hl].
  destruct (step_finv a f qs rs Hi) as [Hno|(f1 & qs1 & rs1 & Ea & Hi1 & Hp)]; [by destruct a|by rewrite Hno in Hs|].
  rewrite Ea in Hs. destruct (Hp Ha) as [Hd Hf]. destruct (IH _ _ _ _ Hi1 Hl Hs) as (qs' & rs' & Hi' & Hd' & Hf').
  exists qs', rs'. split; [done|]. simpl. lia.
Qed.

(** The steps that could be possible in a state. *)
Definition candidates f : list step :=
  Route :: Forward ::
  (Proceed <$> seq 0 (length (threads f))) ++ (Take <$> seq 0 (length (threads f))) ++
  (Serve <$> seq 0 (length (worker_at f))) ++ (Wake <$> seq 0 (length (worker_at f))).

Lemma candidates_stuck f : Forall (λ a, take_step cap a f = None) (candidates f) → stuck f.
Proof.
  unfold candidates. rewrite !Forall_cons, !Forall_app, !Forall_fmap, !Forall_seq.
  intros (Hr & Hf & Hp & Ht & Hs & Hw) [k m|k| | |i|i|k]; try done; intros _.
  - destruct (decide (k < length (threads f))%nat); [apply Hp; lia|].
    cbn. unfold proceed. by rewrite (lookup_ge_None_2 (threads f)) by lia.
  - destruct (decide (i < length (worker_at f))%nat); [apply Hs; lia|].
    cbn. unfold serve_turn. rewrite (lookup_ge_None_2 (worker_at f)) by lia. by destruct (_ !! i).
  - destruct (decide (i < length (worker_at f))%nat); [apply Hw; lia|].
    cbn. unfold wake. by rewrite (lookup_ge_None_2 (worker_at f)) by lia.
  - destruct (decide (k < length (threads f))%nat); [apply Ht; lia|].
    cbn. unfold take_turn. by rewrite (lookup_ge_None_2 (threads f)) by lia.
Qed.

Lemma stuck_or_step f : stuck f ∨ ∃ a, is_internal a ∧ take_step cap a f ≠ None.
Proof.
  destruct (decide (Forall (λ a, ¬ is_Some (take_step cap a f)) (candidates f))) as [Hn|Hn].
  - left. apply candidates_stuck. eapply Forall_impl; [exact Hn|]. intros a. apply eq_None_not_Some.
  - right. apply not_Forall_Exists in Hn; [|apply _]. apply Exists_exists in Hn as (a & Hin & Ha).
    exists a. split; [|intros Hno; apply Ha; rewrite Hno; apply is_Some_None].
    unfold candidates in Hin. destruct a; try done. exfalso. set_solver.
Qed.

Lemma run_until_stuck c : ∀ f qs rs,
  finv f qs rs → (steps_left f qs < c)%nat →
  ∃ l f', Forall is_internal l ∧ take_steps cap l f = Some (Val f') ∧ stuck f'.
Proof.
  induction c as [|c IH]; intros f qs rs Hi Hc; [lia|]. destruct (stuck_or_step f) as [Hs|(a & Ha & Hne)].
  - exists [], f. split_and!; [constructor|done|done].
  - destruct (step_finv a f qs rs Hi) as [|(f1 & qs1 & rs1 & Ea & Hi1 & Hp)]; [by destruct a|done|].
    destruct (Hp Ha) as [Hd _]. destruct (IH _ _ _ Hi1) as (l & f' & Hl & Hrun & ?); [lia|].
    exists (a :: l), f'. split_and!; [by constructor| |done]. cbn [take_steps]. by rewrite Ea.
Qed.

(** C10: with pipes that hold [cap] notifications and make a writer wait, and
    pushes and notifications as separate steps: whatever the threads do, no
    step has undefined behaviour and no schedule without new requests goes on
    for ever. While fewer than [3 * cap + 3] requests are on their way, the
    threads can run until every request is answered, and every schedule that
    cannot be continued has done so: no wake-up is lost and no circle of
    waiting threads closes. *)
Theorem rtc_requests_answered f :
  (0 < cap)%nat → flows f →
  (∀ a, step_ok a f → take_step cap a f = None ∨ ∃ f', take_step cap a f = Some (Val f')) ∧
  (∃ k, ∀ l f', Forall is_internal l → take_steps cap l f = Some (Val f') → (length l ≤ k)%nat) ∧
  ((in_flight f < 3 * cap + 3)%nat →
   (∃ l f', Forall is_internal l ∧ take_steps cap l f = Some (Val f') ∧ all_answered f') ∧
   ∀ l f', Forall is_internal l → take_steps cap l f = Some (Val f') → stuck f' → all_answered f').
Proof.
  intros Hcap (qs & rs & Hi)%flows_finv. split_and!.
  - intros a Ha. destruct (step_finv a f qs rs Hi Ha) as [|(f' & _ & _ & ? & _)]; eauto.
  - exists (steps_left f qs). intros l f' Hl Hs. destruct (steps_finv l f qs rs f' Hi Hl Hs) as (? & ? & _ & ? & _). lia.
  - intros Hf. assert (∀ l f', Forall is_internal l → take_steps cap l f = Some (Val f') → stuck f' → all_answered f') as Hend.
    { intros l f' Hl Hs Hst. destruct (steps_finv l f qs rs f' Hi Hl Hs) as (qs' & rs' & Hi' & _ & Hle).
      eapply stuck_answered; [done|done|done|lia]. }
    split; [|done]. destruct (run_until_stuck _ f qs rs Hi (Nat.lt_succ_diag_r _)) as (l & f' & Hl & Hs & Hst). eauto 10.
Qed.
End Invariant.

(** ** Witnesses *)

Definition demo_start : @flow demo_ev (gmap Z (SignalingWorker demo_ev)) :=
  Flow (RtcServer.start demo_server0).2 demo_ports ((λ p, SwThread p [] 0) <$> [1]) None (replicate 2 None) [] 0.

Lemma steps_flows {L} `{LibEvSpec L} {G} {SP : SignalingPort G} {SS : SignalingPortSpec G} cap n (g0 : G) ps l :
  ∀ f f' : @flow L G, flows cap n g0 ps f →
  Forall (λ a, match a with Begin k m => answerable g0 m ∧ is_Some (worker m) ∧ ps !! k = worker m | _ => True end) l →
  take_steps cap l f = Some (Val f') → flows cap n g0 ps f'.
Proof.
  induction l as [|a l IH]; intros f f' Hf Hl Hs; cbn [take_steps] in Hs; [by simplify_eq|].
  apply Forall_cons in Hl as [Ha Hl]. destruct (take_step cap a f) as [[f1| | |]|] eqn:Ea; try done.
  eapply IH; [|done|done]. eapply flows_step; [done| |done]. destruct a; try done.
  destruct Ha as (Hm & [p Hp] & Hk). split; [done|]. destruct (flows_finv _ _ _ _ _ Hf) as (qs & rs & Hi).
  rewrite <- (proj1 (fi_threads _ _ _ _ _ _ Hi)), list_lookup_fmap, Hp in Hk.
  apply fmap_Some in Hk as (t & Ht & ->). eauto.
Qed.

(** One call of the signaling worker, up to its end. *)
Definition demo_call (name : list Z) (id : Z) : list step := [Begin 0 (demo_msg name id); Proceed 0; Proceed 0].

Lemma demo_flows cap l f :
  (0 < cap)%nat →
  Forall (λ a, match a with Begin k m => k = 0%nat ∧ ∃ name id, m = demo_msg name id | _ => True end) l →
  take_steps cap l demo_start = Some (Val f) → flows cap 2 demo_ports [1] f.
Proof.
  intros _ Hl. apply (steps_flows cap 2 demo_ports [1] l demo_start).
  - apply flows_start; [by vm_compute|apply demo_started].
  - eapply Forall_impl; [exact Hl|]. intros [k m|k| | |i|i|k]; try done. intros (-> & name & id & ->).
    split; [apply demo_msg_ok|]. split; [by eexists|done].
Qed.

(** One stream, pipes for a single notification: the first request was
    answered, the second is at its worker, the server has the third in hand
    and the fourth is pushed but not notified. *)
Definition demo_mid_steps : list step :=
  let i := route 2 (b#"a") in
  demo_call (b#"a") 1 ++ [Route; Forward; Forward; Serve i; Wake i] ++
  demo_call (b#"a") 2 ++ [Route; Forward; Forward] ++
  demo_call (b#"a") 3 ++ [Route] ++ [Begin 0 (demo_msg (b#"a") 4); Proceed 0].

Definition demo_mid : @flow demo_ev (gmap Z (SignalingWorker demo_ev)) :=
  match take_steps 1 demo_mid_steps demo_start with Some (Val f) => f | _ => demo_start end.

Lemma rtc_requests_answered_witness :
  length (requests demo_mid) = 4%nat ∧ in_flight demo_mid = 4%nat ∧
  ∃ l f', Forall is_internal l ∧ take_steps 1 l demo_mid = Some (Val f') ∧ all_answered demo_ports f'.
Proof.
  assert (in_flight demo_mid = 4%nat) as Hf by (vm_compute; reflexivity).
  split; [vm_compute; reflexivity|]. split; [exact Hf|].
  destruct (rtc_requests_answered 1 2 demo_ports [1] demo_mid) as (_ & _ & Hlive).
  - lia.
  - apply (demo_flows 1 demo_mid_steps); [lia| |vm_compute; reflexivity].
    unfold demo_mid_steps, demo_call. cbn [app]. repeat (apply Forall_cons_2; [eauto|]). apply Forall_nil_2.
  - apply Hlive. rewrite Hf. lia.
Defined.

(** ** What the code gets wrong *)

(** With [3 * cap + 3] requests on their way the circle closes: the signaling
    worker waits in [RtcServer::notify], the server in [RtcWorker::notify], the
    RTC worker in [SignalingWorker::notify] for the signaling worker. *)
Definition demo_circle_steps : list step :=
  let i := route 2 (b#"a") in
  demo_call (b#"a") 1 ++ [Route; Forward; Forward; Serve i; Wake i] ++
  demo_call (b#"a") 2 ++ [Route; Forward; Forward; Serve i] ++
  demo_call (b#"a") 3 ++ [Route; Forward; Forward] ++
  demo_call (b#"a") 4 ++ [Route; Forward] ++
  demo_call (b#"a") 5 ++ [Begin 0 (demo_msg (b#"a") 6); Proceed 0].

Definition demo_circle : @flow demo_ev (gmap Z (SignalingWorker demo_ev)) :=
  match take_steps 1 demo_circle_steps demo_start with Some (Val f) => f | _ => demo_start end.

Example circle_closes :
  flows 1 2 demo_ports [1] demo_circle ∧ in_flight demo_circle = 6%nat ∧ stuck 1 demo_circle ∧ taken demo_circle = 0%nat.
Proof.
  split_and!; [|vm_compute; reflexivity| |vm_compute; reflexivity].
  - apply (demo_flows 1 demo_circle_steps); [lia| |vm_compute; reflexivity].
    unfold demo_circle_steps, demo_call. cbn [app]. repeat (apply Forall_cons_2; [eauto|]). apply Forall_nil_2.
  - apply candidates_stuck. apply (bool_decide_unpack _). vm_compute. exact I.
Qed.
