(* ===== verification/Buffer.v ===== *)
(** * The growable buffer (rtc_base/buffer.h)

    [BufferT<T, ZeroOnFree>] owns a heap block of [capacity_] elements of
    which the first [size_] are in use. An element that was never written has
    no value ([None]). Elements are integers of the element type; [new] throws
    above [max_alloc] elements, which ends the process. The checks of debug
    builds ([RTC_DCHECK]) and the [ZeroOnFree] flag are parameters. *)

From S2P Require Import Prelude.

Notation cell := (option Z).

Record BufferT := Buf {
  size_ : Z;
  capacity_ : Z;
  data_ : option (list cell);
  freed : list (list cell)        (* the blocks given back so far *)
}.

Section Ops.
Context (RTC_DCHECK_IS_ON ZeroOnFree : bool) (max_alloc : Z).

Definition dcheck (c : bool) : res unit := if RTC_DCHECK_IS_ON then c_assert c else Val ().

Definition new_array (n : Z) : res (list cell) :=
  if n <=? max_alloc then Val (replicate (Z.to_nat n) None) else Aborted.

Definition zeros (n : Z) : list cell := replicate (Z.to_nat n) (Some 0).

Definition release (old : option (list cell)) (fr : list (list cell)) : list (list cell) :=
  match old with Some m => fr ++ [m] | None => fr end.

Definition IsConsistent (b : BufferT) : bool :=
  (match data_ b with Some _ => true | None => capacity_ b =? 0 end) && (size_ b <=? capacity_ b).

Definition set_size (n : Z) (b : BufferT) : BufferT := Buf n (capacity_ b) (data_ b) (freed b).

Definition set_block (m : list cell) (b : BufferT) : BufferT := Buf (size_ b) (capacity_ b) (Some m) (freed b).

(** [memcpy] and [ExplicitZeroMemory] to [data_.get() + off]; nothing is
    touched for a count of zero. *)
Definition write_at (off : Z) (cs : list cell) (b : BufferT) : res BufferT :=
  match data_ b with
  | Some m => let* m := of_mem (mwrite m off cs) in Val (set_block m b)
  | None => match cs with [] => Val b | _ => Undef end
  end.

Definition read_at (off n : Z) (b : BufferT) : res (list cell) :=
  match data_ b with
  | Some m => of_mem (mread m off n)
  | None => if n =? 0 then Val [] else Undef
  end.

Definition MaybeZeroCompleteBuffer (b : BufferT) : res BufferT :=
  if ZeroOnFree && (0 <? capacity_ b) then write_at 0 (zeros (capacity_ b)) b else Val b.

Definition ZeroTrailingData (count : Z) (b : BufferT) : res BufferT :=
  let* _ := dcheck (IsConsistent b) in
  let* _ := dcheck (count <=? u64 (capacity_ b - size_ b)) in
  write_at (size_ b) (zeros count) b.

Definition EnsureCapacityWithHeadroom (capacity : Z) (extra_headroom : bool) (b : BufferT) : res BufferT :=
  let* _ := dcheck (IsConsistent b) in
  if capacity <=? capacity_ b then Val b
  else
    let new_capacity := if extra_headroom then Z.max capacity (u64 (capacity_ b + capacity_ b / 2)) else capacity in
    let* new_data := new_array new_capacity in
    let* new_data := match data_ b with
                     | Some m => let* src := of_mem (mread m 0 (size_ b)) in of_mem (mwrite new_data 0 src)
                     | None => Val new_data
                     end in
    let* b := MaybeZeroCompleteBuffer b in
    let b := Buf (size_ b) new_capacity (Some new_data) (release (data_ b) (freed b)) in
    let* _ := dcheck (IsConsistent b) in
    Val b.

Definition EnsureCapacity (capacity : Z) (b : BufferT) : res BufferT := EnsureCapacityWithHeadroom capacity false b.

Definition BufferT_empty : BufferT := Buf 0 0 None [].

Definition BufferT_sized (size capacity : Z) : res BufferT :=
  let capacity := Z.max size capacity in
  let* d := (if 0 <? capacity then let* m := new_array capacity in Val (Some m) else Val None) in
  let b := Buf size capacity d [] in
  let* _ := dcheck (IsConsistent b) in
  Val b.

Definition BufferT_data (data : list cell) (capacity : Z) : res BufferT :=
  let* b := BufferT_sized (Z.of_nat (length data)) capacity in write_at 0 data b.

Definition size (b : BufferT) : res Z := let* _ := dcheck (IsConsistent b) in Val (size_ b).
Definition capacity (b : BufferT) : res Z := let* _ := dcheck (IsConsistent b) in Val (capacity_ b).
Definition empty (b : BufferT) : res bool := let* _ := dcheck (IsConsistent b) in Val (size_ b =? 0).

(** [data()]: the first element and what follows it. *)
Definition data (b : BufferT) : res (option (list cell)) := let* _ := dcheck (IsConsistent b) in Val (data_ b).

Definition SetSize (size : Z) (b : BufferT) : res BufferT :=
  let old_size := size_ b in
  let* b := EnsureCapacityWithHeadroom size true b in
  let b := set_size size b in
  if ZeroOnFree && (size_ b <? old_size) then ZeroTrailingData (u64 (old_size - size_ b)) b else Val b.

Definition AppendData (d : list Z) (b : BufferT) : res BufferT :=
  let* _ := dcheck (IsConsistent b) in
  let new_size := u64 (size_ b + Z.of_nat (length d)) in
  let* b := EnsureCapacityWithHeadroom new_size true b in
  let* b := write_at (size_ b) (Some <$> d) b in
  let b := set_size new_size b in
  let* _ := dcheck (IsConsistent b) in
  Val b.

(** [setter] gets the view and returns what it left there and its count. *)
Definition AppendData_with (max_elements : Z) (setter : list cell → list cell * Z) (b : BufferT) : res (Z * BufferT) :=
  let* _ := dcheck (IsConsistent b) in
  let old_size := size_ b in
  let* b := SetSize (u64 (old_size + max_elements)) b in
  let* _ := dcheck (IsConsistent b) in
  let* view := read_at old_size max_elements b in
  let '(view, written_elements) := setter view in
  let* b := write_at old_size view b in
  let* _ := c_assert (written_elements <=? max_elements) in
  let b := set_size (u64 (old_size + written_elements)) b in
  let* _ := dcheck (IsConsistent b) in
  Val (written_elements, b).

Definition SetData (d : list Z) (b : BufferT) : res BufferT :=
  let* _ := dcheck (IsConsistent b) in
  let old_size := size_ b in
  let* b := AppendData d (set_size 0 b) in
  if ZeroOnFree && (size_ b <? old_size) then ZeroTrailingData (u64 (old_size - size_ b)) b else Val b.

Definition SetData_with (max_elements : Z) (setter : list cell → list cell * Z) (b : BufferT) : res (Z * BufferT) :=
  let* _ := dcheck (IsConsistent b) in
  let old_size := size_ b in
  let* '(written, b) := AppendData_with max_elements setter (set_size 0 b) in
  let* b := (if ZeroOnFree && (size_ b <? old_size) then ZeroTrailingData (u64 (old_size - size_ b)) b else Val b) in
  Val (written, b).

Definition Clear (b : BufferT) : res BufferT :=
  let* b := MaybeZeroCompleteBuffer b in
  let b := set_size 0 b in
  let* _ := dcheck (IsConsistent b) in
  Val b.

Definition OnMovedFrom (b : BufferT) : res BufferT :=
  let* _ := dcheck (match data_ b with None => true | Some _ => false end) in
  Val (Buf (if RTC_DCHECK_IS_ON then 1 else 0) 0 (data_ b) (freed b)).

(** The new object and the one moved from. *)
Definition BufferT_move (buf : BufferT) : res (BufferT * BufferT) :=
  let* _ := dcheck (IsConsistent buf) in
  let this := Buf (size_ buf) (capacity_ buf) (data_ buf) [] in
  let* _ := dcheck (IsConsistent this) in
  let* buf := OnMovedFrom (Buf (size_ buf) (capacity_ buf) None (freed buf)) in
  Val (this, buf).

(** [operator=(BufferT&&)] *)
Definition move_assign (this buf : BufferT) : res (BufferT * BufferT) :=
  let* _ := dcheck (IsConsistent buf) in
  let* this := MaybeZeroCompleteBuffer this in
  let old := data_ this in
  let this := Buf (size_ buf) (capacity_ buf) (data_ buf) (release old (freed this)) in
  let* buf := OnMovedFrom (Buf (size_ buf) (capacity_ buf) None (freed buf)) in
  Val (this, buf).

Definition swap (a b : BufferT) : BufferT * BufferT :=
  (Buf (size_ b) (capacity_ b) (data_ b) (freed a), Buf (size_ a) (capacity_ a) (data_ a) (freed b)).

(** The blocks a destroyed buffer has given back. *)
Definition BufferT_delete (b : BufferT) : res (list (list cell)) :=
  let* b := MaybeZeroCompleteBuffer b in Val (release (data_ b) (freed b)).

(** A comparison with an element without a value is undefined. *)
Fixpoint memcmp_cells (xs ys : list cell) : res Z :=
  match xs, ys with
  | [], _ | _, [] => Val 0
  | Some x :: xs, Some y :: ys => if x <? y then Val (-1) else if y <? x then Val 1 else memcmp_cells xs ys
  | _, _ => Undef
  end.

(** [operator==] of an integral element type. *)
Definition buffer_eq (a b : BufferT) : res bool :=
  let* _ := dcheck (IsConsistent a) in
  if negb (size_ a =? size_ b) then Val false
  else
    let* xs := read_at 0 (size_ a) a in
    let* ys := read_at 0 (size_ a) b in
    let* r := memcmp_cells xs ys in
    Val (r =? 0).

Definition get (index : Z) (b : BufferT) : res Z :=
  let* _ := dcheck (index <? size_ b) in
  let* m := data b in
  let* c := match m with Some m => of_mem (m !! Z.to_nat index) | None => Undef end in
  of_mem c.

Definition set (index v : Z) (b : BufferT) : res BufferT :=
  let* _ := dcheck (index <? size_ b) in
  let* _ := data b in
  write_at index [Some v] b.
End Ops.

(** ** Well-formed buffers *)

(** The block has the size the object says, the used part is inside it. *)
Record buf_ok (b : BufferT) : Prop := BufOk {
  ok_size : 0 ≤ size_ b ≤ capacity_ b ∧ capacity_ b ≤ 2 ^ 62;
  ok_block : match data_ b with Some m => capacity_ b = Z.of_nat (length m) | None => capacity_ b = 0 end
}.

Definition block (b : BufferT) : list cell := default [] (data_ b).

(** The elements in use. *)
Definition content (b : BufferT) : list cell := take (Z.to_nat (size_ b)) (block b).

(** The block from element [k] on and the released blocks hold no data. *)
Definition wiped (c : cell) : Prop := c = None ∨ c = Some 0.
Definition clean_from (k : Z) (b : BufferT) : Prop :=
  Forall wiped (drop (Z.to_nat k) (block b)) ∧ Forall (Forall wiped) (freed b).
Definition clean (b : BufferT) : Prop := clean_from (size_ b) b.

Definition splice (m : list cell) (off : nat) (cs : list cell) : list cell :=
  take off m ++ cs ++ drop (off + length cs) m.

Lemma drop_splice_ge m off cs k :
  (off ≤ length m)%nat → (off + length cs ≤ k)%nat → drop k (splice m off cs) = drop k m.
Proof.
  intros Hm Hk. unfold splice. rewrite drop_app_ge, drop_app_ge, drop_drop by len_solve. f_equal. len_solve.
Qed.

Lemma drop_splice m off cs : (off ≤ length m)%nat → drop off (splice m off cs) = cs ++ drop (off + length cs) m.
Proof. intros Hm. unfold splice. apply drop_app_length'. len_solve. Qed.

Lemma take_splice m off cs : (off ≤ length m)%nat → take (off + length cs) (splice m off cs) = take off m ++ cs.
Proof.
  intros Hm. unfold splice. rewrite app_assoc. apply take_app_length'. len_solve.
Qed.

Lemma take_splice_le m off cs k : (k ≤ off ≤ length m)%nat → take k (splice m off cs) = take k m.
Proof. intros Hm. unfold splice. rewrite take_app_le by len_solve. rewrite take_take. f_equal. lia. Qed.

Lemma length_splice m off cs : (off + length cs ≤ length m)%nat → length (splice m off cs) = length m.
Proof. intros. unfold splice. len_solve. Qed.

Lemma drop_splice_part m off v w k :
  (off + length v ≤ length m)%nat → drop w v = drop w (take (length v) (drop off m)) → (w ≤ length v)%nat →
  (off + w ≤ k)%nat → drop k (splice m off v) = drop k m.
Proof.
  intros Hl Hv Hw Hk. replace k with (off + (w + (k - off - w)))%nat by lia.
  assert (∀ j (l : list cell), drop (off + (w + j)) l = drop j (drop w (drop off l))) as E.
  { intros. rewrite !drop_drop. f_equal; lia. }
  rewrite !E. f_equal. rewrite drop_splice by lia.
  rewrite drop_app_le, Hv by done. rewrite <- (take_drop (length v) (drop off m)) at 2.
  rewrite drop_app_le by len_solve. by rewrite drop_drop.
Qed.

Lemma take_splice_part m off v w :
  (off ≤ length m)%nat → (w ≤ length v)%nat → take (off + w) (splice m off v) = take off m ++ take w v.
Proof.
  intros Hm Hw. unfold splice. rewrite take_app_ge by len_solve. rewrite length_take, Nat.min_l by lia.
  f_equal. rewrite take_app_le by lia. f_equal. lia.
Qed.

Lemma wiped_zeros n : Forall wiped (zeros n).
Proof. apply Forall_replicate. by right. Qed.

Lemma drop_wiped j k (m : list cell) : (j ≤ k)%nat → Forall wiped (drop j m) → Forall wiped (drop k m).
Proof. intros Hjk H. replace k with (j + (k - j))%nat by lia. rewrite <- drop_drop. by apply Forall_drop. Qed.

Lemma wiped_splice m off cs k :
  Forall wiped (drop k m) → Forall wiped cs → Forall wiped (drop k (splice m off cs)).
Proof.
  intros Hm Hc. unfold splice. rewrite drop_app, skipn_firstn_comm, drop_app. repeat (apply Forall_app; split).
  - by apply Forall_take.
  - by apply Forall_drop.
  - rewrite drop_drop. eapply drop_wiped; [|done]. rewrite length_take. lia.
Qed.

Lemma clean_from_mono j k b : 0 ≤ j ≤ k → clean_from j b → clean_from k b.
Proof. intros Hjk [H1 H2]. split; [|done]. eapply drop_wiped; [|done]. lia. Qed.

Section Theory.
Context (RTC_DCHECK_IS_ON ZeroOnFree : bool) (max_alloc : Z).
Hypothesis max_alloc_ok : max_alloc ≤ 2 ^ 62.

Notation dcheck := (dcheck RTC_DCHECK_IS_ON).
Notation Ensure := (EnsureCapacityWithHeadroom RTC_DCHECK_IS_ON ZeroOnFree max_alloc).

Lemma dcheck_true : dcheck true = Val ().
Proof. unfold Buffer.dcheck. by destruct RTC_DCHECK_IS_ON. Qed.

Lemma ok_consistent b : buf_ok b → IsConsistent b = true.
Proof.
  intros [Hs Hb]. unfold IsConsistent. rewrite (proj2 (Z.leb_le (size_ b) _)) by lia.
  destruct (data_ b); [done|]. by rewrite Hb.
Qed.

Lemma length_block b : buf_ok b → length (block b) = Z.to_nat (capacity_ b).
Proof. intros [_ Hb]. unfold block. destruct (data_ b); simpl in *; lia. Qed.

(** Everything but the elements of the block is as before. *)
Definition same_shape (b b' : BufferT) : Prop :=
  size_ b' = size_ b ∧ capacity_ b' = capacity_ b ∧ freed b' = freed b.

Lemma write_at_spec off cs b :
  buf_ok b → 0 ≤ off → off + Z.of_nat (length cs) ≤ capacity_ b →
  ∃ b', write_at off cs b = Val b' ∧ buf_ok b' ∧ same_shape b b' ∧ block b' = splice (block b) (Z.to_nat off) cs.
Proof.
  intros [Hs Hb] Ho Hc. unfold write_at, block. destruct (data_ b) as [m|] eqn:Em.
  - unfold mwrite. rewrite (proj2 (Z.leb_le 0 off)), (proj2 (Z.leb_le _ _)) by lia. cbn [andb of_mem mbind_res].
    eexists. split; [done|]. split; [|by repeat split]. split; simpl; [done|]. len_solve.
  - destruct cs; [|simpl in Hc; lia]. exists b. split; [done|]. split; [split; [done|by rewrite Em]|].
    split; [done|]. rewrite Em. unfold splice. simpl. by rewrite drop_nil, take_nil.
Qed.

Lemma read_at_spec off n b :
  buf_ok b → 0 ≤ off → 0 ≤ n → off + n ≤ capacity_ b →
  read_at off n b = Val (take (Z.to_nat n) (drop (Z.to_nat off) (block b))).
Proof.
  intros [Hs Hb] Ho Hn Hc. unfold read_at, block. destruct (data_ b) as [m|]; simpl.
  - unfold mread. by rewrite (proj2 (Z.leb_le 0 off)), (proj2 (Z.leb_le 0 n)), (proj2 (Z.leb_le _ _)) by lia.
  - rewrite (proj2 (Z.eqb_eq n 0)) by lia. by rewrite drop_nil, take_nil.
Qed.

Lemma MaybeZero_spec b :
  buf_ok b →
  ∃ b', MaybeZeroCompleteBuffer ZeroOnFree b = Val b' ∧ buf_ok b' ∧ same_shape b b' ∧
    (data_ b' = None ↔ data_ b = None) ∧ (ZeroOnFree = true → Forall wiped (block b')) ∧
    (ZeroOnFree = false → b' = b).
Proof.
  intros Hb. unfold MaybeZeroCompleteBuffer. destruct ZeroOnFree; cbn [andb].
  2: { exists b. split_and!; try done; by repeat split. }
  destruct (Z.ltb_spec 0 (capacity_ b)) as [Hc|Hc].
  - assert (Z.of_nat (length (zeros (capacity_ b))) = capacity_ b) as Hz by (unfold zeros; len_solve).
    destruct (write_at_spec 0 (zeros (capacity_ b)) b) as (b' & E & Hb' & Hs & Hbl); [done|lia|lia|].
    exists b'. split; [done|]. split; [done|]. split; [done|]. split; [|split; [|done]].
    + unfold write_at in E. destruct Hb as [_ Hb]. destruct (data_ b) eqn:Ed; [|lia].
      destruct (of_mem _); simplify_eq/=. done.
    + intros _. rewrite Hbl. unfold splice. simpl. rewrite (length_replicate _ _ : length (zeros _) = _).
      rewrite drop_ge by (rewrite length_block by done; lia). rewrite app_nil_r. apply wiped_zeros.
  - exists b. assert (block b = []) as Hn.
    { apply length_zero_iff_nil. rewrite length_block by done. lia. }
    split_and!; try done. intros _. rewrite Hn. constructor.
Qed.

Lemma Ensure_spec cap extra b :
  buf_ok b → 2 * cap ≤ max_alloc →
  ∃ b', Ensure cap extra b = Val b' ∧ buf_ok b' ∧ size_ b' = size_ b ∧ content b' = content b ∧ cap ≤ capacity_ b' ∧
    capacity_ b ≤ capacity_ b' ∧
    (ZeroOnFree = true → ∀ k, 0 ≤ k → clean_from k b → clean_from k b').
Proof.
  intros Hb Hcap. unfold EnsureCapacityWithHeadroom. rewrite ok_consistent, dcheck_true by done. cbn [mbind_res].
  destruct (Z.leb_spec cap (capacity_ b)) as [Hle|Hgt]; [exists b; by split_and!|].
  pose proof Hb as [Hs Hd]. set (nc := if extra then _ else _).
  assert (cap ≤ nc ≤ max_alloc) as Hnc.
  { subst nc. destruct extra; [|lia].
    assert (0 ≤ capacity_ b / 2 ≤ capacity_ b) by (split; [apply Z.div_pos; lia|apply Z.div_le_upper_bound; lia]).
    rewrite u64_small by lia. lia. }
  unfold new_array. rewrite (proj2 (Z.leb_le nc _)) by lia. cbn [mbind_res].
  assert (match data_ b with
    | Some m => let* src := of_mem (mread m 0 (size_ b)) in of_mem (mwrite (replicate (Z.to_nat nc) None) 0 src)
    | None => Val (replicate (Z.to_nat nc) None) end
    = Val (content b ++ replicate (Z.to_nat nc - Z.to_nat (size_ b)) None)) as ->.
  { unfold content, block. destruct (data_ b) as [m|] eqn:Em; simpl.
    - rewrite mread_take by lia. cbn [of_mem mbind_res]. rewrite mwrite_front by len_solve. cbn [of_mem].
      do 2 f_equal. rewrite drop_replicate. f_equal. len_solve.
    - rewrite take_nil. simpl. do 2 f_equal. lia. }
  cbn [mbind_res]. destruct (MaybeZero_spec b Hb) as (b1 & -> & Hb1 & (Es & Ec & Ef) & Hnone & Hz & _).
  cbn [mbind_res]. rewrite Es, Ef. set (b2 := Buf _ _ _ _).
  assert (length (content b) = Z.to_nat (size_ b)) as Hl.
  { unfold content. rewrite length_take, length_block by done. lia. }
  assert (buf_ok b2) as Hb2. { split; simpl; [lia|]. len_solve. }
  rewrite ok_consistent, dcheck_true by done. cbn [mbind_res]. exists b2. split_and!; [done|done|done| |simpl; lia|simpl; lia|].
  - unfold content at 1. simpl. by apply take_app_length'.
  - intros Hzof k Hk [H1 H2]. split; simpl.
    + change (block b2) with (content b ++ replicate (Z.to_nat nc - Z.to_nat (size_ b)) (None : cell)).
      rewrite drop_app. apply Forall_app. split; [|apply Forall_drop, Forall_replicate; by left].
      unfold content. rewrite skipn_firstn_comm. by apply Forall_take.
    + unfold release. destruct (data_ b1) as [m|] eqn:Em; [|done]. apply Forall_app. split; [done|].
      constructor; [|done]. specialize (Hz Hzof). unfold block in Hz. by rewrite Em in Hz.
Qed.

(** ** What each operation does *)

(** The block does not shrink, and what was wiped beyond the used part stays
    wiped. *)
Record op_post (b b' : BufferT) : Prop := OpPost {
  op_ok : buf_ok b';
  op_cap : capacity_ b ≤ capacity_ b';
  op_clean : ZeroOnFree = true → ∀ k, 0 ≤ k → size_ b' ≤ k → clean_from k b → clean_from k b'
}.

Lemma length_content b : buf_ok b → length (content b) = Z.to_nat (size_ b).
Proof. intros Hb. unfold content. rewrite length_take, length_block by done. destruct Hb. lia. Qed.

Lemma set_size_ok n b : buf_ok b → 0 ≤ n ≤ capacity_ b → buf_ok (set_size n b).
Proof. intros [Hs H] Hn. split; simpl; [lia|done]. Qed.

Lemma ZeroTrailing_spec count b :
  buf_ok b → 0 ≤ count → size_ b + count ≤ capacity_ b →
  ∃ b', ZeroTrailingData RTC_DCHECK_IS_ON count b = Val b' ∧ buf_ok b' ∧ same_shape b b' ∧ content b' = content b ∧
    (∀ k, clean_from k b → clean_from k b') ∧ (clean_from (size_ b + count) b → clean b').
Proof.
  intros Hb Hn Hc. unfold ZeroTrailingData. rewrite ok_consistent, dcheck_true by done. cbn [mbind_res].
  pose proof (ok_size b Hb). rewrite u64_small, (proj2 (Z.leb_le count _)), dcheck_true by lia. cbn [mbind_res].
  assert (length (zeros count) = Z.to_nat count) as Hz by (unfold zeros; len_solve).
  destruct (write_at_spec (size_ b) (zeros count) b) as (b' & -> & Hb' & (Es & Ec & Ef) & Hbl); [done|lia|lia|].
  pose proof (length_block b Hb). exists b'. split; [done|]. split; [done|]. split; [done|]. split; [|split].
  - unfold content. rewrite Es, Hbl, take_splice_le by lia. done.
  - intros k [H1 H2]. unfold clean_from. rewrite Ef, Hbl. split; [|done]. apply wiped_splice; [done|apply wiped_zeros].
  - intros [H1 H2]. unfold clean, clean_from. rewrite Es, Ef, Hbl. split; [|done].
    rewrite drop_splice by lia. apply Forall_app. split; [apply wiped_zeros|].
    replace (Z.to_nat (size_ b) + length (zeros count))%nat with (Z.to_nat (size_ b + count)) by lia. done.
Qed.

(** The end of [SetSize] and of the [SetData] functions. *)
Lemma shrink_spec old b :
  buf_ok b → 0 ≤ old ≤ capacity_ b →
  ∃ b', (if ZeroOnFree && (size_ b <? old) then ZeroTrailingData RTC_DCHECK_IS_ON (u64 (old - size_ b)) b else Val b)
      = Val b' ∧ buf_ok b' ∧ same_shape b b' ∧ content b' = content b ∧
    (∀ k, clean_from k b → clean_from k b') ∧
    (ZeroOnFree = true → clean_from (Z.max old (size_ b)) b → clean b').
Proof.
  intros Hb Ho. pose proof (ok_size b Hb). destruct ZeroOnFree; cbn [andb]; [|exists b; by split_and!].
  destruct (Z.ltb_spec (size_ b) old) as [Hlt|Hge].
  - rewrite u64_small by lia.
    destruct (ZeroTrailing_spec (old - size_ b) b) as (b' & -> & ? & ? & ? & ? & Hcl); [done|lia|lia|].
    exists b'. split_and!; try done. intros _. rewrite Z.max_l by lia.
    by replace (size_ b + (old - size_ b)) with old in Hcl by lia.
  - exists b. split_and!; try done. intros _. by rewrite Z.max_r by lia.
Qed.

Lemma SetSize_spec n b :
  buf_ok b → 0 ≤ n → 2 * n ≤ max_alloc →
  ∃ b' ys, SetSize RTC_DCHECK_IS_ON ZeroOnFree max_alloc n b = Val b' ∧ op_post b b' ∧ size_ b' = n ∧
    content b' = take (Z.to_nat n) (content b) ++ ys ∧
    (ZeroOnFree = true → ∀ k, 0 ≤ k → clean_from k b → clean_from k b') ∧ (ZeroOnFree = true → clean b → clean b').
Proof.
  intros Hb Hn Hm. unfold SetSize. pose proof (ok_size b Hb).
  destruct (Ensure_spec n true b Hb Hm) as (b1 & -> & Hb1 & Es & Econt & Hc & Hc' & Hcl). cbn [mbind_res].
  pose proof (length_block b1 Hb1) as Hlb. pose proof (ok_size b1 Hb1).
  assert (take (Z.to_nat n) (block b1) = take (Z.to_nat n) (content b)
    ++ take (Z.to_nat n - Z.to_nat (size_ b)) (drop (Z.to_nat (size_ b)) (block b1))) as Ht.
  { rewrite <- Econt. unfold content. rewrite Es, take_take.
    rewrite <- (take_drop (Z.to_nat (size_ b)) (block b1)) at 1.
    rewrite take_app, length_take, take_take, Hlb. f_equal. f_equal. lia. }
  assert (buf_ok (set_size n b1)) as Hb2 by (apply set_size_ok; [done|lia]).
  destruct (shrink_spec (size_ b) (set_size n b1)) as (b' & -> & Hb' & (Es' & Ec' & _) & Ect & Hcl1 & Hcl2); [done|simpl; lia|].
  exists b'. eexists. split; [done|]. split; [|split; [done|split; [|split]]].
  - split; [done|by rewrite Ec'|]. intros Hz k Hk _ Hcb. by apply Hcl1, (Hcl Hz).
  - rewrite Ect. apply Ht.
  - intros Hz k Hk Hcb. by apply Hcl1, (Hcl Hz).
  - intros Hz Hcb. apply (Hcl2 Hz). cbn [size_ set_size]. apply (Hcl Hz); [lia|].
    eapply (clean_from_mono (size_ b)); [lia|done].
Qed.

Lemma AppendData_spec d b :
  buf_ok b → 2 * (size_ b + Z.of_nat (length d)) ≤ max_alloc →
  ∃ b', AppendData RTC_DCHECK_IS_ON ZeroOnFree max_alloc d b = Val b' ∧ op_post b b' ∧
    size_ b' = size_ b + Z.of_nat (length d) ∧ content b' = content b ++ (Some <$> d).
Proof.
  intros Hb Hm. unfold AppendData. pose proof (ok_size b Hb).
  rewrite ok_consistent, dcheck_true, u64_small by first [done|lia]. cbn [mbind_res].
  destruct (Ensure_spec (size_ b + Z.of_nat (length d)) true b Hb Hm) as (b1 & -> & Hb1 & Es & Ect & Hc & Hc' & Hcl).
  cbn [mbind_res]. pose proof (length_block b1 Hb1) as Hlb.
  assert (length ((Some : Z → cell) <$> d) = length d) as Hld by apply length_fmap.
  destruct (write_at_spec (size_ b1) (Some <$> d) b1) as (b2 & -> & Hb2 & (Es2 & Ec2 & Ef2) & Hbl); [done|lia|lia|].
  cbn [mbind_res]. set (b3 := set_size _ b2).
  assert (buf_ok b3) as Hb3 by (apply set_size_ok; [done|lia]).
  rewrite ok_consistent, dcheck_true by done. cbn [mbind_res]. exists b3. split; [done|].
  split; [split; [done|simpl; lia|]|split; [done|]].
  - intros Hz k Hk Hk'. simpl in Hk'. intros Hcb. apply (Hcl Hz k Hk) in Hcb as [H1 H2].
    split; [|by rewrite (Ef2 : freed b3 = _)]. rewrite (Hbl : block b3 = _), drop_splice_ge by lia. done.
  - rewrite <- Ect. unfold content. rewrite (Hbl : block b3 = _). cbn [size_ b3 set_size].
    replace (Z.to_nat (size_ b + Z.of_nat (length d)))
      with (Z.to_nat (size_ b1) + length ((Some : Z → cell) <$> d))%nat by lia.
    by rewrite take_splice by lia.
Qed.

Lemma SetData_spec d b :
  buf_ok b → 2 * Z.of_nat (length d) ≤ max_alloc →
  ∃ b', SetData RTC_DCHECK_IS_ON ZeroOnFree max_alloc d b = Val b' ∧ buf_ok b' ∧ content b' = Some <$> d ∧
    (ZeroOnFree = true → clean b → clean b').
Proof.
  intros Hb Hm. unfold SetData. pose proof (ok_size b Hb). rewrite ok_consistent, dcheck_true by done. cbn [mbind_res].
  destruct (AppendData_spec d (set_size 0 b)) as (b1 & -> & [Hb1 Hc Hcl] & Es & Ect).
  { apply set_size_ok; [done|lia]. } { simpl. lia. }
  cbn [mbind_res]. simpl in Hc, Es. destruct (shrink_spec (size_ b) b1) as (b' & -> & Hb' & _ & Ect' & _ & Hcl2); [done|lia|].
  exists b'. split; [done|]. split; [done|]. split; [by rewrite Ect', Ect|].
  intros Hz Hcb. apply (Hcl2 Hz), (Hcl Hz); [lia|lia|]. eapply (clean_from_mono (size_ b) _ (set_size 0 b)); [lia|done].
Qed.

Lemma Clear_spec b :
  buf_ok b → ∃ b', Clear RTC_DCHECK_IS_ON ZeroOnFree b = Val b' ∧ buf_ok b' ∧ content b' = [] ∧
    capacity_ b' = capacity_ b ∧ (ZeroOnFree = true → clean b → clean b').
Proof.
  intros Hb. unfold Clear. pose proof (ok_size b Hb).
  destruct (MaybeZero_spec b Hb) as (b1 & -> & Hb1 & (Es & Ec & Ef) & _ & Hz & _). cbn [mbind_res].
  assert (buf_ok (set_size 0 b1)) as Hb2 by (apply set_size_ok; [done|lia]).
  rewrite ok_consistent, dcheck_true by done. cbn [mbind_res]. eexists. split; [done|]. split; [done|].
  split; [done|]. split; [done|]. intros Hzf [_ H2]. split; [apply Forall_drop, (Hz Hzf)|]. simpl. by rewrite Ef.
Qed.

(** What the callers of the setter functions promise: the view keeps its
    length and nothing behind the returned count is touched. *)
Definition setter_ok (max : Z) (setter : list cell → list cell * Z) : Prop :=
  ∀ view, Z.of_nat (length view) = max →
    length (setter view).1 = length view ∧ 0 ≤ (setter view).2 ≤ max ∧
    drop (Z.to_nat (setter view).2) (setter view).1 = drop (Z.to_nat (setter view).2) view.

Lemma AppendData_with_spec max setter b :
  buf_ok b → 0 ≤ max → 2 * (size_ b + max) ≤ max_alloc → setter_ok max setter →
  ∃ b' view, Z.of_nat (length view) = max ∧
    AppendData_with RTC_DCHECK_IS_ON ZeroOnFree max_alloc max setter b = Val ((setter view).2, b') ∧ op_post b b' ∧
    size_ b' = size_ b + (setter view).2 ∧
    content b' = content b ++ take (Z.to_nat (setter view).2) (setter view).1.
Proof.
  intros Hb Hmax Hm Hset. unfold AppendData_with. pose proof (ok_size b Hb).
  rewrite ok_consistent, dcheck_true, u64_small by first [done|lia]. cbn [mbind_res].
  destruct (SetSize_spec (size_ b + max) b) as (b1 & ys & -> & [Hb1 Hc1 _] & Es & Ect & Hcl & _); [done|lia|lia|].
  cbn [mbind_res]. rewrite ok_consistent, dcheck_true by done. cbn [mbind_res].
  pose proof (ok_size b1 Hb1). pose proof (length_block b1 Hb1) as Hlb.
  rewrite read_at_spec by (done || lia). cbn [mbind_res]. set (view := take _ (drop _ (block b1))).
  assert (Z.of_nat (length view) = max) as Hv by (unfold view; len_solve).
  destruct (Hset view Hv) as (Hl & Hw & Hd). destruct (setter view) as [v' w] eqn:Ev. cbn [fst snd] in Hl, Hw, Hd.
  destruct (write_at_spec (size_ b) v' b1) as (b2 & -> & Hb2 & (Es2 & Ec2 & Ef2) & Hbl); [done|lia|lia|].
  cbn [mbind_res]. rewrite (proj2 (Z.leb_le w max)) by lia. cbn [c_assert mbind_res].
  rewrite u64_small by lia. assert (buf_ok (set_size (size_ b + w) b2)) as Hb3 by (apply set_size_ok; [done|lia]).
  rewrite ok_consistent, dcheck_true by done. cbn [mbind_res]. eexists _, view. rewrite Ev. cbn [fst snd].
  split; [done|]. split; [done|]. split; [split; [done|simpl; lia|]|split; [done|]].
  - intros Hz k Hk Hk' Hcb. simpl in Hk'. apply (Hcl Hz k Hk) in Hcb as [H1 H2]. split; [|by simpl; rewrite Ef2].
    rewrite (Hbl : block (set_size (size_ b + w) b2) = _), (drop_splice_part _ _ _ (Z.to_nat w)); [done|lia| |lia|lia].
    rewrite Hd. unfold view. do 2 f_equal. lia.
  - unfold content at 1. rewrite (Hbl : block (set_size (size_ b + w) b2) = _). cbn [size_ set_size].
    rewrite Z2Nat.inj_add, take_splice_part by lia. f_equal.
    assert (take (Z.to_nat (size_ b)) (content b1) = content b) as <-.
    { rewrite Ect, (take_ge (content b)) by (rewrite length_content by done; lia).
      apply take_app_length'. by rewrite length_content. }
    unfold content. rewrite take_take. f_equal. lia.
Qed.

Lemma SetData_with_spec max setter b :
  buf_ok b → 0 ≤ max → 2 * max ≤ max_alloc → setter_ok max setter →
  ∃ b' view, Z.of_nat (length view) = max ∧
    SetData_with RTC_DCHECK_IS_ON ZeroOnFree max_alloc max setter b = Val ((setter view).2, b') ∧ buf_ok b' ∧
    content b' = take (Z.to_nat (setter view).2) (setter view).1 ∧ (ZeroOnFree = true → clean b → clean b').
Proof.
  intros Hb Hmax Hm Hset. unfold SetData_with. pose proof (ok_size b Hb).
  rewrite ok_consistent, dcheck_true by done. cbn [mbind_res].
  destruct (AppendData_with_spec max setter (set_size 0 b)) as (b1 & view & Hv & -> & [Hb1 Hc Hcl] & Es & Ect);
    [apply set_size_ok; [done|lia]|done|simpl; lia|done|]. destruct (Hset view Hv) as (_ & Hw & _).
  cbn [mbind_res]. simpl in Hc, Es. destruct (shrink_spec (size_ b) b1) as (b' & -> & Hb' & _ & Ect' & _ & Hcl2); [done|lia|].
  exists b', view. split; [done|]. split; [done|]. split; [done|]. split; [by rewrite Ect', Ect|].
  intros Hz Hcb. apply (Hcl2 Hz), (Hcl Hz); [lia|lia|]. eapply (clean_from_mono (size_ b) _ (set_size 0 b)); [lia|done].
Qed.

(** ** Sequences of operations *)

Inductive buf_op :=
  | OAppend (d : list Z)
  | OSet (d : list Z)
  | OAppendWith (max : Z) (setter : list cell → list cell * Z)
  | OSetWith (max : Z) (setter : list cell → list cell * Z)
  | OSetSize (n : Z)
  | OEnsure (n : Z)
  | OClear.

Definition buf_apply (o : buf_op) (b : BufferT) : res BufferT :=
  match o with
  | OAppend d => AppendData RTC_DCHECK_IS_ON ZeroOnFree max_alloc d b
  | OSet d => SetData RTC_DCHECK_IS_ON ZeroOnFree max_alloc d b
  | OAppendWith m f => let* '(_, b) := AppendData_with RTC_DCHECK_IS_ON ZeroOnFree max_alloc m f b in Val b
  | OSetWith m f => let* '(_, b) := SetData_with RTC_DCHECK_IS_ON ZeroOnFree max_alloc m f b in Val b
  | OSetSize n => SetSize RTC_DCHECK_IS_ON ZeroOnFree max_alloc n b
  | OEnsure n => EnsureCapacity RTC_DCHECK_IS_ON ZeroOnFree max_alloc n b
  | OClear => Clear RTC_DCHECK_IS_ON ZeroOnFree b
  end.

Fixpoint buf_run (os : list buf_op) (b : BufferT) : res BufferT :=
  match os with
  | [] => Val b
  | o :: os => let* b := buf_apply o b in buf_run os b
  end.

(** The same operations on sequences; the elements that [SetSize] adds are
    unspecified, and a setter sees an unspecified view. *)
Definition abs_apply (o : buf_op) (xs ys : list cell) : Prop :=
  match o with
  | OAppend d => ys = xs ++ (Some <$> d)
  | OSet d => ys = Some <$> d
  | OAppendWith m f =>
      ∃ view, Z.of_nat (length view) = m ∧ ys = xs ++ take (Z.to_nat (f view).2) (f view).1
  | OSetWith m f =>
      ∃ view, Z.of_nat (length view) = m ∧ ys = take (Z.to_nat (f view).2) (f view).1
  | OSetSize n => length ys = Z.to_nat n ∧ ∃ zs, ys = take (Z.to_nat n) xs ++ zs
  | OEnsure _ => ys = xs
  | OClear => ys = []
  end.

Fixpoint abs_buf_run (os : list buf_op) (xs ys : list cell) : Prop :=
  match os with
  | [] => ys = xs
  | o :: os => ∃ zs, abs_apply o xs zs ∧ abs_buf_run os zs ys
  end.

Definition op_args_ok (o : buf_op) : Prop :=
  match o with
  | OAppendWith m f | OSetWith m f => 0 ≤ m ∧ setter_ok m f
  | OSetSize n | OEnsure n => 0 ≤ n
  | _ => True
  end.

(** The most elements an operation adds. *)
Definition op_room (o : buf_op) : Z :=
  match o with
  | OAppend d | OSet d => Z.of_nat (length d)
  | OAppendWith m _ | OSetWith m _ => m
  | OSetSize n | OEnsure n => n
  | OClear => 0
  end.

Lemma buf_room_nonneg o : op_args_ok o → 0 ≤ op_room o.
Proof. destruct o; simpl; lia. Qed.

Lemma buf_apply_spec o b :
  buf_ok b → op_args_ok o → 2 * (size_ b + op_room o) ≤ max_alloc →
  ∃ b', buf_apply o b = Val b' ∧ buf_ok b' ∧ size_ b' ≤ size_ b + op_room o ∧
    abs_apply o (content b) (content b') ∧ (ZeroOnFree = true → clean b → clean b').
Proof.
  intros Hb Ho Hm. pose proof (ok_size b Hb). destruct o as [d|d|m f|m f|n|n|]; cbn [buf_apply abs_apply op_room op_args_ok] in *.
  - destruct (AppendData_spec d b Hb Hm) as (b' & -> & [? ? Hcl] & Es & ?). exists b'. split_and!; try done; [lia|].
    intros Hz Hc. apply (Hcl Hz); [lia|lia|]. eapply (clean_from_mono (size_ b)); [lia|done].
  - destruct (SetData_spec d b Hb) as (b' & -> & Hb' & Ec & Hcl); [lia|]. exists b'. split_and!; try done.
    pose proof (length_content b' Hb') as Hl. rewrite Ec, length_fmap in Hl. lia.
  - destruct Ho as [Hm0 Hf]. destruct (AppendData_with_spec m f b Hb Hm0 Hm Hf) as (b' & view & Hv & -> & [? ? Hcl] & Es & ?).
    destruct (Hf view Hv) as (_ & Hw & _). exists b'. split_and!; [done|done|lia|eauto|].
    intros Hz Hc. apply (Hcl Hz); [lia|lia|]. eapply (clean_from_mono (size_ b)); [lia|done].
  - destruct Ho as [Hm0 Hf]. destruct (SetData_with_spec m f b Hb Hm0) as (b' & view & Hv & -> & Hb' & Ec & Hcl); [lia|done|].
    destruct (Hf view Hv) as (Hlv & Hw & _). exists b'. split_and!; [done|done| |eauto|done].
    pose proof (length_content b' Hb') as Hl. rewrite Ec, length_take in Hl. destruct Hb'. lia.
  - destruct (SetSize_spec n b Hb Ho) as (b' & ys & -> & [Hb' _ _] & Es & Ec & _ & Hcl); [lia|].
    exists b'. split_and!; [done|done|lia|by rewrite length_content, Es|eauto|done].
  - destruct (Ensure_spec n false b Hb) as (b' & E & Hb' & Es & Ec & _ & _ & Hcl); [lia|].
    exists b'. split_and!; [done|done|lia|done|]. intros Hz Hc. unfold clean. rewrite Es. by apply (Hcl Hz); [lia|].
  - destruct (Clear_spec b Hb) as (b' & E & Hb' & Ec & _ & Hcl). exists b'. split_and!; try done.
    pose proof (length_content b' Hb') as Hl. rewrite Ec in Hl. simpl in Hl. lia.
Qed.

Lemma buf_run_spec os : ∀ b,
  buf_ok b → Forall op_args_ok os → 2 * foldr Z.add (size_ b) (op_room <$> os) ≤ max_alloc →
  ∃ b', buf_run os b = Val b' ∧ buf_ok b' ∧ abs_buf_run os (content b) (content b') ∧
    (ZeroOnFree = true → clean b → clean b').
Proof.
  induction os as [|o os IH]; intros b Hb Hos Hm; [exists b; by split_and!|].
  apply Forall_cons in Hos as [Ho Hos]. rewrite fmap_cons in Hm. cbn [foldr] in Hm.
  assert (∀ k, foldr Z.add k (op_room <$> os) = k + foldr Z.add 0 (op_room <$> os)) as Hk.
  { intros k. clear. induction os as [|o os IH]; [simpl; lia|]. rewrite fmap_cons. cbn [foldr]. lia. }
  assert (0 ≤ foldr Z.add 0 (op_room <$> os)) as H0.
  { clear -Hos. induction Hos as [|o os Ho _ IH]; [done|]. rewrite fmap_cons. cbn [foldr].
    pose proof (buf_room_nonneg o Ho). lia. }
  rewrite Hk in Hm. destruct (buf_apply_spec o b Hb Ho) as (b1 & E1 & Hb1 & Hs1 & Ha1 & Hc1); [lia|].
  destruct (IH b1 Hb1 Hos) as (b2 & E2 & Hb2 & Ha2 & Hc2); [rewrite Hk; lia|].
  exists b2. cbn [buf_run]. rewrite E1. cbn [mbind_res]. split_and!; [done|done|by exists (content b1)|auto].
Qed.

(** ** Capacities *)

Lemma write_at_cap off cs b b' : write_at off cs b = Val b' → capacity_ b' = capacity_ b ∧ size_ b' = size_ b.
Proof. unfold write_at. intros H. destruct (data_ b); [inv_bind H; by simplify_eq|]. destruct cs; by simplify_eq. Qed.

Lemma MaybeZero_cap b b' : MaybeZeroCompleteBuffer ZeroOnFree b = Val b' → capacity_ b' = capacity_ b.
Proof.
  unfold MaybeZeroCompleteBuffer. destruct (ZeroOnFree && _); [intros H; by apply write_at_cap in H as [? _]|by intros [= ->]].
Qed.

Lemma Ensure_cap cap extra b b' :
  Ensure cap extra b = Val b' → capacity_ b ≤ max_alloc → capacity_ b ≤ capacity_ b' ≤ max_alloc.
Proof.
  unfold EnsureCapacityWithHeadroom. intros H Hb. inv_bind H. destruct (Z.leb_spec cap (capacity_ b)); [by simplify_eq|].
  set (nc := if extra then _ else _) in H. inv_bind H. inv_bind H. inv_bind H. inv_bind H. simplify_eq/=.
  unfold new_array in Ha0. destruct (Z.leb_spec nc max_alloc); [|done]. split; [|done]. subst nc. destruct extra; lia.
Qed.

Lemma ZeroTrailing_cap n b b' : ZeroTrailingData RTC_DCHECK_IS_ON n b = Val b' → capacity_ b' = capacity_ b.
Proof. unfold ZeroTrailingData. intros H. inv_bind H. inv_bind H. by apply write_at_cap in H as [? _]. Qed.

Lemma SetSize_cap n b b' :
  SetSize RTC_DCHECK_IS_ON ZeroOnFree max_alloc n b = Val b' → capacity_ b ≤ max_alloc →
  capacity_ b ≤ capacity_ b' ≤ max_alloc.
Proof.
  unfold SetSize. intros H Hb. inv_bind H. apply Ensure_cap in Ha; [|done].
  destruct (ZeroOnFree && _); [apply ZeroTrailing_cap in H; by rewrite H|by simplify_eq].
Qed.

Lemma AppendData_cap d b b' :
  AppendData RTC_DCHECK_IS_ON ZeroOnFree max_alloc d b = Val b' → capacity_ b ≤ max_alloc →
  capacity_ b ≤ capacity_ b' ≤ max_alloc.
Proof.
  unfold AppendData. intros H Hb. inv_bind H. inv_bind H. inv_bind H. inv_bind H. simplify_eq/=.
  apply Ensure_cap in Ha0; [|done]. apply write_at_cap in Ha1 as [-> _]. done.
Qed.

Lemma SetData_cap d b b' :
  SetData RTC_DCHECK_IS_ON ZeroOnFree max_alloc d b = Val b' → capacity_ b ≤ max_alloc →
  capacity_ b ≤ capacity_ b' ≤ max_alloc.
Proof.
  unfold SetData. intros H Hb. inv_bind H. inv_bind H. apply AppendData_cap in Ha0; [|done]. simpl in Ha0.
  destruct (ZeroOnFree && _); [apply ZeroTrailing_cap in H; by rewrite H|by simplify_eq].
Qed.

Lemma Clear_cap b b' : Clear RTC_DCHECK_IS_ON ZeroOnFree b = Val b' → capacity_ b' = capacity_ b.
Proof. unfold Clear. intros H. inv_bind H. inv_bind H. simplify_eq/=. by eapply MaybeZero_cap. Qed.

Lemma AppendData_with_cap m f b r :
  AppendData_with RTC_DCHECK_IS_ON ZeroOnFree max_alloc m f b = Val r → capacity_ b ≤ max_alloc →
  capacity_ b ≤ capacity_ r.2 ≤ max_alloc.
Proof.
  unfold AppendData_with. intros H Hb. inv_bind H. inv_bind H. inv_bind H. inv_bind H. destruct (f _) as [v w].
  inv_bind H. inv_bind H. inv_bind H. simplify_eq/=. apply SetSize_cap in Ha0; [|done]. by apply write_at_cap in Ha3 as [-> _].
Qed.

Lemma SetData_with_cap m f b r :
  SetData_with RTC_DCHECK_IS_ON ZeroOnFree max_alloc m f b = Val r → capacity_ b ≤ max_alloc →
  capacity_ b ≤ capacity_ r.2 ≤ max_alloc.
Proof.
  unfold SetData_with. intros H Hb. inv_bind H. apply bind_Val in H as ([w b1] & H1 & H). inv_bind H. simplify_eq/=.
  apply AppendData_with_cap in H1; [|done]. simpl in H1.
  destruct (ZeroOnFree && _); [apply ZeroTrailing_cap in Ha0; by rewrite Ha0|by simplify_eq].
Qed.

Lemma buf_apply_cap o b b' :
  buf_apply o b = Val b' → capacity_ b ≤ max_alloc → capacity_ b ≤ capacity_ b' ≤ max_alloc.
Proof.
  destruct o; cbn [buf_apply]; eauto using AppendData_cap, SetData_cap, SetSize_cap, Ensure_cap.
  - intros H Hb. apply bind_Val in H as ([w b1] & H1 & [= ->]). by apply AppendData_with_cap in H1.
  - intros H Hb. apply bind_Val in H as ([w b1] & H1 & [= ->]). by apply SetData_with_cap in H1.
  - intros H Hb. apply Clear_cap in H. by rewrite H.
Qed.

(** ** Construction *)

Lemma BufferT_sized_spec n cap :
  0 ≤ n → Z.max n cap ≤ max_alloc →
  ∃ b, BufferT_sized RTC_DCHECK_IS_ON max_alloc n cap = Val b ∧ buf_ok b ∧ size_ b = n ∧ capacity_ b = Z.max n cap.
Proof.
  intros Hn Hm. unfold BufferT_sized. destruct (Z.ltb_spec 0 (Z.max n cap)).
  - unfold new_array. rewrite (proj2 (Z.leb_le (Z.max n cap) _)) by lia. cbn [mbind_res]. set (b := Buf _ _ _ _).
    assert (buf_ok b) as Hb by (split; simpl; [lia|len_solve]). rewrite ok_consistent, dcheck_true by done.
    exists b. by split_and!.
  - cbn [mbind_res]. set (b := Buf _ _ _ _). assert (buf_ok b) as Hb by (split; simpl; lia).
    rewrite ok_consistent, dcheck_true by done. exists b. by split_and!.
Qed.

Lemma BufferT_data_spec cs cap :
  Z.max (Z.of_nat (length cs)) cap ≤ max_alloc →
  ∃ b, BufferT_data RTC_DCHECK_IS_ON max_alloc cs cap = Val b ∧ buf_ok b ∧ content b = cs ∧
    capacity_ b = Z.max (Z.of_nat (length cs)) cap.
Proof.
  intros Hm. unfold BufferT_data.
  destruct (BufferT_sized_spec (Z.of_nat (length cs)) cap) as (b & -> & Hb & Hs & Hc); [lia|done|]. cbn [mbind_res].
  destruct (write_at_spec 0 cs b) as (b' & -> & Hb' & (Es & Ec & _) & Hbl); [done|lia|lia|].
  exists b'. split_and!; [done|done| |lia]. unfold content. rewrite Hbl, Es, Hs, Nat2Z.id.
  apply (take_splice (block b) 0 cs). lia.
Qed.

(** Writing one element in use. *)
Lemma set_spec i v b :
  buf_ok b → 0 ≤ i < size_ b →
  ∃ b', Buffer.set RTC_DCHECK_IS_ON i v b = Val b' ∧ buf_ok b' ∧ capacity_ b' = capacity_ b ∧
    content b' = <[Z.to_nat i := Some v]> (content b).
Proof.
  intros Hb Hi. unfold Buffer.set, Buffer.data. pose proof (ok_size b Hb). pose proof (length_block b Hb) as Hlb.
  rewrite (proj2 (Z.ltb_lt i _)), dcheck_true, ok_consistent, dcheck_true by (done || lia). cbn [mbind_res].
  destruct (write_at_spec i [Some v] b) as (b' & -> & Hb' & (Es & Ec & _) & Hbl); [done|lia|simpl; lia|].
  exists b'. split_and!; try done. pose proof (length_content b Hb) as Hlc. rewrite insert_take_drop by lia.
  unfold content. rewrite Hbl, Es. unfold splice. cbn [length app].
  rewrite take_app_ge by len_solve. rewrite length_take, Nat.min_l by lia. rewrite take_take, Nat.min_l by lia.
  f_equal. destruct (Z.to_nat (size_ b) - Z.to_nat i)%nat as [|k] eqn:Ek; [lia|]. cbn [take]. f_equal.
  rewrite Nat.add_1_r, skipn_firstn_comm. f_equal. lia.
Qed.

(** ** Properties *)

(** C31: any sequence of buffer operations with enough memory runs without
    leaving the block or failing a check, in debug and release builds, and
    the elements in use are what the same operations give on sequences. *)
Theorem buffer_refines_sequence os b :
  buf_ok b → Forall op_args_ok os → 2 * foldr Z.add (size_ b) (op_room <$> os) ≤ max_alloc →
  ∃ b', buf_run os b = Val b' ∧ buf_ok b' ∧ abs_buf_run os (content b) (content b').
Proof. intros Hb Hos Hm. destruct (buf_run_spec os b Hb Hos Hm) as (b' & ? & ? & ? & _). eauto. Qed.

(** A buffer that zeroes on free never gives a block back, by growing or
    at its end, that still holds data. *)
Theorem buffer_zero_on_free os :
  ZeroOnFree = true → Forall op_args_ok os → 2 * foldr Z.add 0 (op_room <$> os) ≤ max_alloc →
  ∃ b blocks, buf_run os BufferT_empty = Val b ∧ BufferT_delete ZeroOnFree b = Val blocks ∧
    Forall (Forall wiped) blocks.
Proof.
  intros Hz Hos Hm. destruct (buf_run_spec os BufferT_empty) as (b & Eb & Hb & _ & Hcl); [by split|done|done|].
  destruct (MaybeZero_spec b Hb) as (b1 & Ez & Hb1 & (_ & _ & Ef) & _ & Hw & _).
  exists b, (release (data_ b1) (freed b1)). split; [done|]. unfold BufferT_delete. rewrite Ez. split; [done|].
  destruct (Hcl Hz) as [_ Hfr]; [split; constructor|]. rewrite Ef. unfold release. specialize (Hw Hz).
  unfold block in Hw. destruct (data_ b1); [|done]. apply Forall_app. split; [done|by constructor].
Qed.
End Theory.

(** ** Witnesses *)

Definition demo_setter (view : list cell) : list cell * Z := (take 2 [Some 7; Some 8] ++ drop 2 view, 2).

Definition demo_buf_ops : list buf_op :=
  [OAppend [1; 2; 3]; OAppendWith 5 demo_setter; OSetSize 4; OSet [9]; OEnsure 20; OAppend [10]].

Lemma demo_setter_ok : setter_ok 5 demo_setter.
Proof.
  intros view Hv. destruct view as [|a [|b view]]; [simpl in Hv; lia..|]. cbn. split; [done|]. split; [lia|done].
Qed.

Lemma demo_buf_args : Forall op_args_ok demo_buf_ops.
Proof. repeat (apply Forall_cons; split; [simpl; first [done|lia|split; [lia|apply demo_setter_ok]]|]). constructor. Qed.

Lemma buffer_refines_sequence_witness :
  ∃ b', buf_run true false 1000 demo_buf_ops BufferT_empty = Val b' ∧ buf_ok b' ∧
    abs_buf_run demo_buf_ops [] (content b').
Proof.
  apply (buffer_refines_sequence true false 1000 ltac:(lia) demo_buf_ops BufferT_empty).
  - by split.
  - apply demo_buf_args.
  - vm_compute. congruence.
Defined.

Lemma buffer_zero_on_free_witness :
  ∃ b blocks, buf_run true true 1000 demo_buf_ops BufferT_empty = Val b ∧ BufferT_delete true b = Val blocks ∧
    Forall (Forall wiped) blocks.
Proof.
  apply (buffer_zero_on_free true true 1000 ltac:(lia) demo_buf_ops).
  - reflexivity.
  - apply demo_buf_args.
  - vm_compute. congruence.
Defined.

Example demo_buf_result :
  (let* b := buf_run true true 1000 demo_buf_ops BufferT_empty in
   Val (content b, drop 2 (take 5 (block b)))) = Val ([Some 9; Some 10], [None; None; None]).
Proof. vm_compute. reflexivity. Qed.
