(* ===== verification/ByteIO.v ===== *)
(** * Integers in memory (rtc_base/byte_order.h, rtc_base/byte_io.h)

    [byte_order.h] stores and loads whole words through the byte order of the
    host, a parameter here; [byte_io.h] reads and writes the low [B] bytes of
    an integer type of [w] bytes byte by byte, with specialisations for the
    common sizes. Both directions of both byte orders are related to the
    positional encodings [be_encode] and [le_encode]. Memory is the list of
    the bytes from the pointer on. *)

From S2P Require Import Prelude.

(** ** byte_order.h *)

Section Host.
Context (big_endian : bool).

Definition IsHostBigEndian : bool := big_endian.

(** The bytes of an [n]-byte word in memory. *)
Definition host_store (n : nat) (memory : list Z) (v : Z) : res (list Z) :=
  of_mem (mwrite memory 0 (if big_endian then be_encode n v else le_encode n v)).
Definition host_load (n : nat) (memory : list Z) : res Z :=
  let* bs := of_mem (mread memory 0 (Z.of_nat n)) in
  Val (if big_endian then be_decode bs else le_decode bs).

Definition bswap (n : nat) (v : Z) : Z := le_decode (be_encode n v).
Definition htobe (n : nat) (v : Z) : Z := if big_endian then v else bswap n v.
Definition htole (n : nat) (v : Z) : Z := if big_endian then bswap n v else v.
Definition betoh (n : nat) (v : Z) : Z := if big_endian then v else bswap n v.
Definition letoh (n : nat) (v : Z) : Z := if big_endian then bswap n v else v.

Definition Set8 (memory : list Z) (offset v : Z) : res (list Z) := of_mem (mwrite memory offset [v]).
Definition Get8 (memory : list Z) (offset : Z) : res Z :=
  let* bs := of_mem (mread memory offset 1) in of_mem (head bs).

Definition SetBE16 (memory : list Z) (v : Z) : res (list Z) := host_store 2 memory (htobe 2 v).
Definition SetBE32 (memory : list Z) (v : Z) : res (list Z) := host_store 4 memory (htobe 4 v).
Definition SetBE64 (memory : list Z) (v : Z) : res (list Z) := host_store 8 memory (htobe 8 v).
Definition GetBE16 (memory : list Z) : res Z := let* v := host_load 2 memory in Val (betoh 2 v).
Definition GetBE32 (memory : list Z) : res Z := let* v := host_load 4 memory in Val (betoh 4 v).
Definition GetBE64 (memory : list Z) : res Z := let* v := host_load 8 memory in Val (betoh 8 v).
Definition SetLE16 (memory : list Z) (v : Z) : res (list Z) := host_store 2 memory (htole 2 v).
Definition SetLE32 (memory : list Z) (v : Z) : res (list Z) := host_store 4 memory (htole 4 v).
Definition SetLE64 (memory : list Z) (v : Z) : res (list Z) := host_store 8 memory (htole 8 v).
Definition GetLE16 (memory : list Z) : res Z := let* v := host_load 2 memory in Val (letoh 2 v).
Definition GetLE32 (memory : list Z) : res Z := let* v := host_load 4 memory in Val (letoh 4 v).
Definition GetLE64 (memory : list Z) : res Z := let* v := host_load 8 memory in Val (letoh 8 v).

Definition HostToNetwork16 (n : Z) : Z := htobe 2 n.
Definition HostToNetwork32 (n : Z) : Z := htobe 4 n.
Definition HostToNetwork64 (n : Z) : Z := htobe 8 n.
Definition NetworkToHost16 (n : Z) : Z := betoh 2 n.
Definition NetworkToHost32 (n : Z) : Z := betoh 4 n.
Definition NetworkToHost64 (n : Z) : Z := betoh 8 n.

(** The bytes of a word converted to network order are its big-endian bytes
    on either host. *)
Definition host_bytes (n : nat) (v : Z) : list Z := if big_endian then be_encode n v else le_encode n v.
Definition host_value (bs : list Z) : Z := if big_endian then be_decode bs else le_decode bs.

Lemma htobe_bytes n v : host_bytes n (htobe n v) = be_encode n v.
Proof.
  unfold host_bytes, htobe, bswap. destruct big_endian; [done|].
  apply le_encode_decode; [apply be_encode_bytes|apply length_be_encode].
Qed.

Lemma htole_bytes n v : host_bytes n (htole n v) = le_encode n v.
Proof.
  unfold host_bytes, htole, bswap. destruct big_endian; [|done]. unfold be_encode at 1.
  rewrite le_encode_decode; [|apply be_encode_bytes|apply length_be_encode]. unfold be_encode. apply reverse_involutive.
Qed.

Lemma betoh_value n bs : bytes_ok bs → length bs = n → betoh n (host_value bs) = be_decode bs.
Proof.
  intros Hb Hl. unfold host_value, betoh, bswap. destruct big_endian; [done|].
  unfold be_decode, be_encode. by rewrite le_encode_decode.
Qed.

Lemma letoh_value n bs : bytes_ok bs → length bs = n → letoh n (host_value bs) = le_decode bs.
Proof.
  intros Hb Hl. unfold host_value, letoh, bswap. destruct big_endian; [|done].
  by rewrite be_encode_decode.
Qed.
End Host.

(** ** byte_io.h *)

(** Conversion to the integer type [T] of [w] bytes. *)
Definition cast (w : nat) (is_signed : bool) (z : Z) : Z :=
  if is_signed then swrap (8 * Z.of_nat w) z else uwrap (8 * Z.of_nat w) z.

Section Readers.
Context (w : nat) (sg : bool).    (* T: its size and whether it is signed *)

(** [val |= static_cast<T>(data[i]) << ((B - 1 - i) * 8)] for the last [n] bytes. *)
Fixpoint read_be_loop (B n : nat) (data : list Z) (val : Z) : res Z :=
  match n with
  | O => Val val
  | S n' =>
      let i := (B - n)%nat in
      let* b := of_mem (data !! i) in
      read_be_loop B n' data (Z.lor val (cast w sg (Z.shiftl b (8 * Z.of_nat (B - 1 - i)))))
  end.

Definition InternalReadBigEndian (B : nat) (data : list Z) : res Z := read_be_loop B B data 0.

Fixpoint read_le_loop (B n : nat) (data : list Z) (val : Z) : res Z :=
  match n with
  | O => Val val
  | S n' =>
      let i := (B - n)%nat in
      let* b := of_mem (data !! i) in
      read_le_loop B n' data (Z.lor val (cast w sg (Z.shiftl b (8 * Z.of_nat i))))
  end.

Definition InternalReadLittleEndian (B : nat) (data : list Z) : res Z := read_le_loop B B data 0.

Definition ReadBigEndian_1 (data : list Z) : res Z := let* b0 := of_mem (data !! 0%nat) in Val (cast w sg b0).
Definition ReadLittleEndian_1 (data : list Z) : res Z := let* b0 := of_mem (data !! 0%nat) in Val (cast w sg b0).

Definition ReadBigEndian_2 (data : list Z) : res Z :=
  let* b0 := of_mem (data !! 0%nat) in
  let* b1 := of_mem (data !! 1%nat) in
  Val (cast w sg (Z.lor (Z.shiftl b0 8) b1)).
Definition ReadLittleEndian_2 (data : list Z) : res Z :=
  let* b0 := of_mem (data !! 0%nat) in
  let* b1 := of_mem (data !! 1%nat) in
  Val (cast w sg (Z.lor b0 (Z.shiftl b1 8))).

Definition Get (data : list Z) (index : nat) : res Z := let* b := of_mem (data !! index) in Val (cast w sg b).

(** [Get(data, i) << k], in [T] *)
Definition Get_shifted (data : list Z) (index : nat) (k : Z) : res Z :=
  let* b := Get data index in Val (cast w sg (Z.shiftl b k)).

Definition ReadBigEndian_4 (data : list Z) : res Z :=
  let* b0 := Get_shifted data 0 24 in
  let* b1 := Get_shifted data 1 16 in
  let* b2 := Get_shifted data 2 8 in
  let* b3 := Get data 3 in
  Val (Z.lor (Z.lor (Z.lor b0 b1) b2) b3).
Definition ReadLittleEndian_4 (data : list Z) : res Z :=
  let* b0 := Get data 0 in
  let* b1 := Get_shifted data 1 8 in
  let* b2 := Get_shifted data 2 16 in
  let* b3 := Get_shifted data 3 24 in
  Val (Z.lor (Z.lor (Z.lor b0 b1) b2) b3).

Definition ReadBigEndian_8 (data : list Z) : res Z :=
  let* b0 := Get_shifted data 0 56 in
  let* b1 := Get_shifted data 1 48 in
  let* b2 := Get_shifted data 2 40 in
  let* b3 := Get_shifted data 3 32 in
  let* b4 := Get_shifted data 4 24 in
  let* b5 := Get_shifted data 5 16 in
  let* b6 := Get_shifted data 6 8 in
  let* b7 := Get data 7 in
  Val (Z.lor (Z.lor (Z.lor (Z.lor (Z.lor (Z.lor (Z.lor b0 b1) b2) b3) b4) b5) b6) b7).
Definition ReadLittleEndian_8 (data : list Z) : res Z :=
  let* b0 := Get data 0 in
  let* b1 := Get_shifted data 1 8 in
  let* b2 := Get_shifted data 2 16 in
  let* b3 := Get_shifted data 3 24 in
  let* b4 := Get_shifted data 4 32 in
  let* b5 := Get_shifted data 5 40 in
  let* b6 := Get_shifted data 6 48 in
  let* b7 := Get_shifted data 7 56 in
  Val (Z.lor (Z.lor (Z.lor (Z.lor (Z.lor (Z.lor (Z.lor b0 b1) b2) b3) b4) b5) b6) b7).

(** [ByteReader<T, B, false>]: the specialisation the compiler picks. *)
Definition ReadBigEndian_raw (B : nat) (data : list Z) : res Z :=
  match B with
  | 1%nat => ReadBigEndian_1 data
  | 2%nat => ReadBigEndian_2 data
  | 4%nat => ReadBigEndian_4 data
  | 8%nat => ReadBigEndian_8 data
  | _ => InternalReadBigEndian B data
  end.
Definition ReadLittleEndian_raw (B : nat) (data : list Z) : res Z :=
  match B with
  | 1%nat => ReadLittleEndian_1 data
  | 2%nat => ReadLittleEndian_2 data
  | 4%nat => ReadLittleEndian_4 data
  | 8%nat => ReadLittleEndian_8 data
  | _ => InternalReadLittleEndian B data
  end.

(** The unsigned type [U] of the size of [T]. *)
Definition UnsignedOf (z : Z) : Z := uwrap (8 * Z.of_nat w) z.

Definition ReinterpretAsSigned (u : Z) : Z :=
  let kUnsignedHighestBitMask := Z.shiftl 1 (8 * Z.of_nat w - 1) in
  let kSignedHighestBitMask := - 2 ^ (8 * Z.of_nat w - 1) in
  if negb (Z.land u kUnsignedHighestBitMask =? 0)
  then Z.lor (Z.land u (Z.lnot kUnsignedHighestBitMask)) kSignedHighestBitMask
  else u.

(** The literal [1] is an [int]: a shift by its width or more is undefined. *)
Definition SignExtend (B : nat) (val : Z) : res Z :=
  let kMsb := u8 (Z.shiftr val (8 * Z.of_nat (B - 1))) in
  if negb (Z.land kMsb 0x80 =? 0) then
    let count := 8 * Z.of_nat (B mod w) in
    if 32 <=? count then Undef
    else
      let kUsedBitsMask := UnsignedOf (Z.shiftl 1 count - 1) in
      Val (UnsignedOf (Z.lor (Z.lnot kUsedBitsMask) val))
  else Val val.

(** [ByteReader<T, B>::ReadBigEndian] *)
Definition ReadBigEndian (B : nat) (data : list Z) : res Z :=
  let* v := ReadBigEndian_raw B data in
  if sg then
    let unsigned_val := UnsignedOf v in
    let* unsigned_val := (if (B <? w)%nat then SignExtend B unsigned_val else Val unsigned_val) in
    Val (ReinterpretAsSigned unsigned_val)
  else Val v.
Definition ReadLittleEndian (B : nat) (data : list Z) : res Z :=
  let* v := ReadLittleEndian_raw B data in
  if sg then
    let unsigned_val := UnsignedOf v in
    let* unsigned_val := (if (B <? w)%nat then SignExtend B unsigned_val else Val unsigned_val) in
    Val (ReinterpretAsSigned unsigned_val)
  else Val v.
End Readers.

Section Writers.
Context (w : nat) (sg : bool).

(** [data[i] = v] for a byte *)
Definition put (data : list Z) (i : nat) (v : Z) : res (list Z) := of_mem (mwrite data (Z.of_nat i) [u8 v]).

Fixpoint write_be_loop (B n : nat) (data : list Z) (val : Z) : res (list Z) :=
  match n with
  | O => Val data
  | S n' =>
      let i := (B - n)%nat in
      let* data := put data i (Z.shiftr val (8 * Z.of_nat (B - 1 - i))) in
      write_be_loop B n' data val
  end.

Fixpoint write_le_loop (B n : nat) (data : list Z) (val : Z) : res (list Z) :=
  match n with
  | O => Val data
  | S n' =>
      let i := (B - n)%nat in
      let* data := put data i (Z.shiftr val (8 * Z.of_nat i)) in
      write_le_loop B n' data val
  end.

Definition WriteBigEndian_1 (data : list Z) (val : Z) : res (list Z) := put data 0 val.
Definition WriteLittleEndian_1 (data : list Z) (val : Z) : res (list Z) := put data 0 val.

Definition WriteBigEndian_2 (data : list Z) (val : Z) : res (list Z) :=
  let* data := put data 0 (Z.shiftr val 8) in
  put data 1 val.
Definition WriteLittleEndian_2 (data : list Z) (val : Z) : res (list Z) :=
  let* data := put data 0 val in
  put data 1 (Z.shiftr val 8).

Definition WriteBigEndian_4 (data : list Z) (val : Z) : res (list Z) :=
  let* data := put data 0 (Z.shiftr val 24) in
  let* data := put data 1 (Z.shiftr val 16) in
  let* data := put data 2 (Z.shiftr val 8) in
  put data 3 val.
Definition WriteLittleEndian_4 (data : list Z) (val : Z) : res (list Z) :=
  let* data := put data 0 val in
  let* data := put data 1 (Z.shiftr val 8) in
  let* data := put data 2 (Z.shiftr val 16) in
  put data 3 (Z.shiftr val 24).

Definition WriteBigEndian_8 (data : list Z) (val : Z) : res (list Z) :=
  let* data := put data 0 (Z.shiftr val 56) in
  let* data := put data 1 (Z.shiftr val 48) in
  let* data := put data 2 (Z.shiftr val 40) in
  let* data := put data 3 (Z.shiftr val 32) in
  let* data := put data 4 (Z.shiftr val 24) in
  let* data := put data 5 (Z.shiftr val 16) in
  let* data := put data 6 (Z.shiftr val 8) in
  put data 7 val.
Definition WriteLittleEndian_8 (data : list Z) (val : Z) : res (list Z) :=
  let* data := put data 0 val in
  let* data := put data 1 (Z.shiftr val 8) in
  let* data := put data 2 (Z.shiftr val 16) in
  let* data := put data 3 (Z.shiftr val 24) in
  let* data := put data 4 (Z.shiftr val 32) in
  let* data := put data 5 (Z.shiftr val 40) in
  let* data := put data 6 (Z.shiftr val 48) in
  put data 7 (Z.shiftr val 56).

Definition ReinterpretAsUnsigned (val : Z) : Z := uwrap (8 * Z.of_nat w) val.

(** [ByteWriter<T, B>::WriteBigEndian] *)
Definition WriteBigEndian (B : nat) (data : list Z) (val : Z) : res (list Z) :=
  let val := if sg then ReinterpretAsUnsigned val else val in
  match B with
  | 1%nat => WriteBigEndian_1 data val
  | 2%nat => WriteBigEndian_2 data val
  | 4%nat => WriteBigEndian_4 data val
  | 8%nat => WriteBigEndian_8 data val
  | _ => write_be_loop B B data val
  end.
Definition WriteLittleEndian (B : nat) (data : list Z) (val : Z) : res (list Z) :=
  let val := if sg then ReinterpretAsUnsigned val else val in
  match B with
  | 1%nat => WriteLittleEndian_1 data val
  | 2%nat => WriteLittleEndian_2 data val
  | 4%nat => WriteLittleEndian_4 data val
  | 8%nat => WriteLittleEndian_8 data val
  | _ => write_le_loop B B data val
  end.
End Writers.

(** ** Bits and positional encodings *)

Lemma uwrap_lor k a b : 0 ≤ k → uwrap k (Z.lor a b) = Z.lor (uwrap k a) (uwrap k b).
Proof.
  intros Hk. unfold uwrap. apply Z.bits_inj'. intros i Hi.
  rewrite Z.lor_spec, !Z.testbit_mod_pow2, Z.lor_spec by lia. by destruct (i <? k).
Qed.

Lemma uwrap_swrap k z : 0 ≤ k → uwrap k (swrap k z) = uwrap k z.
Proof.
  intros Hk. unfold uwrap, swrap. rewrite Zminus_mod_idemp_l. f_equal. lia.
Qed.

Lemma uwrap_cast w sg z : uwrap (8 * Z.of_nat w) (cast w sg z) = uwrap (8 * Z.of_nat w) z.
Proof. unfold cast. destruct sg; [apply uwrap_swrap; lia|]. unfold uwrap. by rewrite Zmod_mod. Qed.

Lemma shiftl_byte_small b i k : byte_ok b → 0 ≤ i → i + 8 ≤ k → uwrap k (Z.shiftl b i) = Z.shiftl b i.
Proof.
  intros Hb Hi Hk. unfold byte_ok in Hb. apply uwrap_small. rewrite Z.shiftl_mul_pow2 by lia.
  assert (0 < 2 ^ i) by (apply Z.pow_pos_nonneg; lia).
  assert (2 ^ (i + 8) ≤ 2 ^ k) by (apply Z.pow_le_mono_r; lia). rewrite Z.pow_add_r in * by lia.
  change (2 ^ 8) with 256 in *. nia.
Qed.

Lemma le_decode_cons b bs : le_decode (b :: bs) = b + 256 * le_decode bs.
Proof. done. Qed.

Lemma le_decode_app xs ys : le_decode (xs ++ ys) = le_decode xs + 2 ^ (8 * Z.of_nat (length xs)) * le_decode ys.
Proof.
  induction xs as [|x xs IH]; [by rewrite Z.mul_1_l|]. cbn [app length]. rewrite !le_decode_cons, IH.
  replace (8 * Z.of_nat (S (length xs))) with (8 + 8 * Z.of_nat (length xs)) by lia.
  rewrite Z.pow_add_r by lia. change (2 ^ 8) with 256. lia.
Qed.

Lemma be_decode_lor b bs :
  byte_ok b → bytes_ok bs → be_decode (b :: bs) = Z.lor (Z.shiftl b (8 * Z.of_nat (length bs))) (be_decode bs).
Proof.
  intros Hb Hbs. unfold be_decode. rewrite reverse_cons, le_decode_app, length_reverse.
  assert (bytes_ok (reverse bs)) as Hr by by apply Forall_reverse.
  pose proof (le_decode_bound _ Hr) as Hd. rewrite length_reverse in Hd.
  rewrite Z.shiftl_mul_pow2, lor_add_disjoint by lia. rewrite le_decode_cons. change (le_decode []) with 0. lia.
Qed.

Lemma le_decode_lor b bs : byte_ok b → le_decode (b :: bs) = Z.lor b (Z.shiftl (le_decode bs) 8).
Proof.
  intros Hb. rewrite le_decode_cons, Z.lor_comm, Z.shiftl_mul_pow2 by lia.
  rewrite lor_add_disjoint by (unfold byte_ok in Hb; lia). change (2 ^ 8) with 256. lia.
Qed.

Lemma be_encode_S n v : be_encode (S n) v = u8 (Z.shiftr v (8 * Z.of_nat n)) :: be_encode n v.
Proof.
  unfold be_encode.
  assert (∀ n v, le_encode (S n) v = le_encode n v ++ [u8 (Z.shiftr v (8 * Z.of_nat n))]) as H.
  { clear. induction n as [|n IH]; intros v; [done|]. change (le_encode (S (S n)) v) with (v mod 256 :: le_encode (S n) (v / 256)).
    rewrite IH. change (le_encode (S n) v) with (v mod 256 :: le_encode n (v / 256)). cbn [app]. do 3 f_equal.
    rewrite !Z.shiftr_div_pow2 by lia. rewrite Z.div_div by lia. unfold uwrap. do 2 f_equal.
    replace (8 * Z.of_nat (S n)) with (8 + 8 * Z.of_nat n) by lia. by rewrite Z.pow_add_r by lia. }
  rewrite H, reverse_app. done.
Qed.

Lemma le_encode_S n v : le_encode (S n) v = u8 v :: le_encode n (Z.shiftr v 8).
Proof. change (le_encode (S n) v) with (v mod 256 :: le_encode n (v / 256)). by rewrite Z.shiftr_div_pow2 by lia. Qed.

Lemma le_encode_wrap n k v : (n ≤ k)%nat → le_encode n (uwrap (8 * Z.of_nat k) v) = le_encode n v.
Proof.
  intros Hk. assert (∀ x, le_encode n x = le_encode n (x mod 2 ^ (8 * Z.of_nat n))) as H.
  { intros x. rewrite <- le_decode_encode. symmetry. apply le_encode_decode; [apply le_encode_bytes|apply length_le_encode]. }
  rewrite H, (H v). f_equal. unfold uwrap. rewrite Z.mod_mod_divide; [done|].
  exists (2 ^ (8 * Z.of_nat (k - n))). rewrite <- Z.pow_add_r by lia. f_equal. lia.
Qed.

(** ** Readers compute the positional value *)

(** The sizes for which the templates are instantiated: a one-byte read has a
    one-byte type. *)
Definition width_ok (w B : nat) : Prop :=
  (w = 1 ∨ w = 2 ∨ w = 4 ∨ w = 8)%nat ∧ (0 < B ≤ w)%nat ∧ (B = 1 → w = 1)%nat.

Section ReaderTheory.
Context (w : nat) (sg : bool).
Notation bits := (8 * Z.of_nat w).

Lemma read_be_loop_spec B n data val :
  (n ≤ B ≤ w)%nat → (B ≤ length data)%nat → bytes_ok data →
  ∃ r, read_be_loop w sg B n data val = Val r ∧
    uwrap bits r = Z.lor (uwrap bits val) (be_decode (take n (drop (B - n) data))).
Proof.
  revert val. induction n as [|n IH]; intros val Hn Hl Hd.
  - exists val. split; [done|]. change (be_decode []) with 0. by rewrite Z.lor_0_r.
  - destruct (lookup_lt_is_Some_2 data (B - S n)) as [b Hb]; [lia|]. cbn [read_be_loop]. rewrite Hb. cbn [of_mem mbind_res].
    destruct (IH (Z.lor val (cast w sg (Z.shiftl b (8 * Z.of_nat (B - 1 - (B - S n))))))) as (r & -> & Hr); [lia|done|done|].
    exists r. split; [done|]. rewrite Hr. pose proof (Forall_lookup_1 _ _ _ _ Hd Hb) as Hbo.
    rewrite uwrap_lor, uwrap_cast, shiftl_byte_small by (done || lia).
    rewrite (drop_S data b (B - S n) Hb).
    replace (S (B - S n)) with (B - n)%nat by lia. cbn [take].
    rewrite be_decode_lor by first [done | by apply Forall_take, Forall_drop].
    rewrite length_take, length_drop, Z.lor_assoc. do 3 f_equal. lia.
Qed.

Lemma read_le_loop_spec B n data val :
  (n ≤ B ≤ w)%nat → (B ≤ length data)%nat → bytes_ok data →
  ∃ r, read_le_loop w sg B n data val = Val r ∧
    uwrap bits r = Z.lor (uwrap bits val) (Z.shiftl (le_decode (take n (drop (B - n) data))) (8 * Z.of_nat (B - n))).
Proof.
  revert val. induction n as [|n IH]; intros val Hn Hl Hd.
  - exists val. split; [done|]. change (le_decode []) with 0. by rewrite Z.shiftl_0_l, Z.lor_0_r.
  - destruct (lookup_lt_is_Some_2 data (B - S n)) as [b Hb]; [lia|]. cbn [read_le_loop]. rewrite Hb. cbn [of_mem mbind_res].
    destruct (IH (Z.lor val (cast w sg (Z.shiftl b (8 * Z.of_nat (B - S n)))))) as (r & -> & Hr); [lia|done|done|].
    exists r. split; [done|]. rewrite Hr. pose proof (Forall_lookup_1 _ _ _ _ Hd Hb) as Hbo.
    rewrite uwrap_lor, uwrap_cast, shiftl_byte_small by (done || lia).
    rewrite (drop_S data b (B - S n) Hb). replace (S (B - S n)) with (B - n)%nat by lia. cbn [take].
    rewrite le_decode_lor, Z.shiftl_lor, Z.shiftl_shiftl, Z.lor_assoc by (done || lia). do 2 f_equal. lia.
Qed.

Lemma cast_byte b : byte_ok b → (2 ≤ w)%nat → cast w sg b = b.
Proof.
  unfold byte_ok. intros Hb Hw. assert (2 ^ 15 ≤ 2 ^ (bits - 1)) by (apply Z.pow_le_mono_r; lia).
  assert (2 ^ bits = 2 * 2 ^ (bits - 1)) as Hp by (rewrite <- Z.pow_succ_r by lia; f_equal; lia).
  unfold cast. destruct sg; [|apply uwrap_small; lia]. apply swrap_small; lia.
Qed.

(** A read of the bytes [bs] with the given chain of shifted bytes. *)
Ltac read_chain :=
  repeat first [rewrite uwrap_cast | rewrite uwrap_lor by lia];
  repeat match goal with |- context [cast w sg ?b] => rewrite (cast_byte b) by (done || lia) end;
  repeat match goal with |- context [uwrap bits (Z.shiftl ?b ?k)] => rewrite (shiftl_byte_small b k) by (done || lia) end;
  repeat match goal with
    H : byte_ok ?b |- context [uwrap bits ?b] => rewrite <- (Z.shiftl_0_r b), (shiftl_byte_small b 0), (Z.shiftl_0_r b) by (done || lia)
  end.

Ltac bytes_of H :=
  repeat match type of H with
  | bytes_ok (_ :: _) => apply Forall_cons in H as [? H]
  | Forall _ (_ :: _) => apply Forall_cons in H as [? H]
  end.

Ltac take_bytes_be :=
  read_chain; cbn [take]; rewrite take_0; repeat (rewrite be_decode_lor by (done || solve_bytes));
  change (be_decode []) with 0; rewrite Z.lor_0_r, ?Z.lor_assoc; cbn [length Z.of_nat Pos.of_succ_nat Pos.succ Z.mul Pos.mul Pos.add];
  rewrite ?Z.shiftl_0_r; done.

Lemma ReadBigEndian_raw_spec B data :
  width_ok w B → (B ≤ length data)%nat → bytes_ok data →
  ∃ r, ReadBigEndian_raw w sg B data = Val r ∧ UnsignedOf w r = be_decode (take B data).
Proof.
  intros (Hw & HB & H1) Hl Hd. unfold UnsignedOf.
  assert (∃ r, InternalReadBigEndian w sg B data = Val r ∧ uwrap bits r = be_decode (take B data)) as Hgen.
  { destruct (read_be_loop_spec B B data 0) as (r & E & Hr); [lia|done|done|]. exists r. split; [done|].
    rewrite Hr, Nat.sub_diag. done. }
  destruct (decide (B = 1)%nat) as [->|]; [|destruct (decide (B = 2)%nat) as [->|];
    [|destruct (decide (B = 4)%nat) as [->|]; [|destruct (decide (B = 8)%nat) as [->|]]]].
  - destruct data as [|b0 data]; [simpl in Hl; lia|]. apply Forall_cons in Hd as [Hb0 _]. eexists. split; [done|]. take_bytes_be.
  - destruct data as [|b0 [|b1 data]]; [simpl in Hl; lia..|]. bytes_of Hd. eexists. split; [done|]. take_bytes_be.
  - destruct data as [|b0 [|b1 [|b2 [|b3 data]]]]; [simpl in Hl; lia..|]. bytes_of Hd. eexists. split; [done|]. take_bytes_be.
  - destruct data as [|b0 [|b1 [|b2 [|b3 [|b4 [|b5 [|b6 [|b7 data]]]]]]]]; [simpl in Hl; lia..|]. bytes_of Hd.
    eexists. split; [done|]. take_bytes_be.
  - do 9 (destruct B as [|B]; [lia || done|]). lia.
Qed.

Ltac take_bytes_le :=
  read_chain; cbn [take]; rewrite take_0; repeat (rewrite le_decode_lor by done);
  change (le_decode []) with 0; rewrite Z.shiftl_0_l, Z.lor_0_r;
  repeat first [rewrite Z.shiftl_lor | rewrite Z.shiftl_shiftl by lia]; rewrite ?Z.lor_assoc;
  cbn [Z.add Pos.add Pos.succ]; done.

Lemma ReadLittleEndian_raw_spec B data :
  width_ok w B → (B ≤ length data)%nat → bytes_ok data →
  ∃ r, ReadLittleEndian_raw w sg B data = Val r ∧ UnsignedOf w r = le_decode (take B data).
Proof.
  intros (Hw & HB & H1) Hl Hd. unfold UnsignedOf.
  assert (∃ r, InternalReadLittleEndian w sg B data = Val r ∧ uwrap bits r = le_decode (take B data)) as Hgen.
  { destruct (read_le_loop_spec B B data 0) as (r & E & Hr); [lia|done|done|]. exists r. split; [done|].
    rewrite Hr, Nat.sub_diag. by rewrite Z.shiftl_0_r. }
  destruct (decide (B = 1)%nat) as [->|]; [|destruct (decide (B = 2)%nat) as [->|];
    [|destruct (decide (B = 4)%nat) as [->|]; [|destruct (decide (B = 8)%nat) as [->|]]]].
  - destruct data as [|b0 data]; [simpl in Hl; lia|]. apply Forall_cons in Hd as [Hb0 _]. eexists. split; [done|]. take_bytes_le.
  - destruct data as [|b0 [|b1 data]]; [simpl in Hl; lia..|]. bytes_of Hd. eexists. split; [done|]. take_bytes_le.
  - destruct data as [|b0 [|b1 [|b2 [|b3 data]]]]; [simpl in Hl; lia..|]. bytes_of Hd. eexists. split; [done|]. take_bytes_le.
  - destruct data as [|b0 [|b1 [|b2 [|b3 [|b4 [|b5 [|b6 [|b7 data]]]]]]]]; [simpl in Hl; lia..|]. bytes_of Hd.
    eexists. split; [done|]. take_bytes_le.
  - do 9 (destruct B as [|B]; [lia || done|]). lia.
Qed.

(** ** Sign extension *)

Lemma top_bit m u : 0 ≤ m → 0 ≤ u < 2 ^ (m + 1) → (Z.land u (2 ^ m) =? 0) = (u <? 2 ^ m).
Proof.
  intros Hm Hu. rewrite Z.pow_add_r in Hu by lia. change (2 ^ 1) with 2 in Hu. destruct (Z.ltb_spec u (2 ^ m)) as [Hl|Hl].
  - apply Z.eqb_eq. rewrite Z.land_comm. assert (Z.lor (1 * 2 ^ m) u = 1 * 2 ^ m + u) as E by (apply lor_add_disjoint; lia).
    rewrite Z.mul_1_l in E. pose proof (Z.add_lor_land (2 ^ m) u). lia.
  - apply Z.eqb_neq. intros H0. assert (Z.testbit (Z.land u (2 ^ m)) m = false) as Hb by (by rewrite H0, Z.bits_0).
    rewrite Z.land_spec, Z.pow2_bits_true, andb_true_r in Hb by lia.
    assert (u / 2 ^ m = 1) as Hq by (symmetry; apply (Z.div_unique_pos u (2 ^ m) 1 (u - 2 ^ m)); lia).
    rewrite Z.testbit_eqb, Hq in Hb by lia. done.
Qed.

Lemma clear_top m r : 0 ≤ m → 0 ≤ r < 2 ^ m → Z.land (2 ^ m + r) (Z.lnot (2 ^ m)) = r.
Proof.
  intros Hm Hr. pose proof (lor_add_disjoint 1 r m Hm Hr) as E. rewrite Z.mul_1_l in E. rewrite <- E.
  rewrite Z.land_lor_distr_l, Z.land_lnot_diag, Z.lor_0_l. apply Z.bits_inj'. intros i Hi.
  rewrite Z.land_spec, Z.lnot_spec, Z.pow2_bits_eqb by lia. destruct (Z.eqb_spec m i) as [<-|]; [|by rewrite andb_true_r].
  rewrite andb_false_r. rewrite <- (Z.mod_small r (2 ^ m)), Z.testbit_mod_pow2 by lia. by rewrite Z.ltb_irrefl.
Qed.

(** Two's complement: the value of [n] bits read as signed. *)
Lemma swrap_bits n u : 0 < n → 0 ≤ u < 2 ^ n → swrap n u = if u <? 2 ^ (n - 1) then u else u - 2 ^ n.
Proof.
  intros Hn Hu. assert (2 ^ n = 2 * 2 ^ (n - 1)) as Hp by (rewrite <- Z.pow_succ_r by lia; f_equal; lia).
  unfold swrap. destruct (Z.ltb_spec u (2 ^ (n - 1))); [rewrite Z.mod_small by lia; lia|].
  replace (u + 2 ^ (n - 1)) with (u - 2 ^ (n - 1) + 1 * 2 ^ n) by lia. rewrite Z.mod_add by lia.
  rewrite Z.mod_small by lia. lia.
Qed.

Lemma ReinterpretAsSigned_spec u : (0 < w)%nat → 0 ≤ u < 2 ^ bits → ReinterpretAsSigned w u = swrap bits u.
Proof.
  intros Hw Hu. unfold ReinterpretAsSigned. rewrite Z.shiftl_1_l, swrap_bits by lia.
  assert (2 ^ bits = 2 * 2 ^ (bits - 1)) as Hp by (rewrite <- Z.pow_succ_r by lia; f_equal; lia).
  rewrite top_bit by (rewrite ?Z.sub_add; lia). destruct (Z.ltb_spec u (2 ^ (bits - 1))); [done|]. cbn [negb].
  replace u with (2 ^ (bits - 1) + (u - 2 ^ (bits - 1))) at 1 by lia. rewrite clear_top by lia.
  rewrite Z.lor_comm. replace (- 2 ^ (bits - 1)) with (- 1 * 2 ^ (bits - 1)) by lia. rewrite lor_add_disjoint by lia. lia.
Qed.

Lemma SignExtend_spec B v :
  (0 < B < w)%nat → (B ≤ 3)%nat → 0 ≤ v < 2 ^ (8 * Z.of_nat B) →
  SignExtend w B v = Val (UnsignedOf w (swrap (8 * Z.of_nat B) v)).
Proof.
  intros HB H3 Hv. unfold SignExtend. set (n := 8 * Z.of_nat B) in *.
  assert (2 ^ n = 2 ^ 8 * 2 ^ (8 * Z.of_nat (B - 1))) as Hp by (rewrite <- Z.pow_add_r by lia; f_equal; lia).
  assert (2 ^ (n - 1) = 2 ^ 7 * 2 ^ (8 * Z.of_nat (B - 1))) as Hp1 by (rewrite <- Z.pow_add_r by lia; f_equal; lia).
  assert (0 < 2 ^ (8 * Z.of_nat (B - 1))) as H0 by (apply Z.pow_pos_nonneg; lia).
  rewrite Z.shiftr_div_pow2 by lia. set (p := 2 ^ (8 * Z.of_nat (B - 1))) in *.
  assert (0 ≤ v / p < 256) as Hq by (split; [apply Z.div_pos; lia|apply Z.div_lt_upper_bound; lia]).
  rewrite u8_small by lia. change 0x80 with (2 ^ 7). rewrite (top_bit 7) by (change (2 ^ (7 + 1)) with 256; lia).
  rewrite swrap_bits by lia.
  assert ((v / p <? 2 ^ 7) = (v <? 2 ^ (n - 1))) as ->.
  { destruct (Z.ltb_spec v (2 ^ (n - 1))) as [Hl|Hl]; [apply Z.ltb_lt, Z.div_lt_upper_bound; lia|].
    apply Z.ltb_ge. apply Z.div_le_lower_bound; lia. }
  assert (2 ^ n ≤ 2 ^ bits) as Hle by (apply Z.pow_le_mono_r; lia).
  destruct (Z.ltb_spec v (2 ^ (n - 1))); cbn [negb].
  { unfold UnsignedOf. by rewrite uwrap_small by lia. }
  rewrite Nat.mod_small by lia. fold n. rewrite (proj2 (Z.leb_gt 32 n)) by lia. do 2 f_equal.
  rewrite Z.shiftl_1_l. unfold UnsignedOf. rewrite (uwrap_small bits (2 ^ n - 1)) by lia.
  replace (Z.lnot (2 ^ n - 1)) with (-1 * 2 ^ n) by (unfold Z.lnot; lia). rewrite lor_add_disjoint by lia. lia.
Qed.
End ReaderTheory.

(** ** Writers produce the positional bytes *)

Lemma put_insert data i v : (i < length data)%nat → put data i v = Val (<[i := u8 v]> data).
Proof.
  intros Hi. unfold put, mwrite. cbn [length]. rewrite (proj2 (Z.leb_le 0 _)), (proj2 (Z.leb_le _ _)) by lia.
  cbn [andb of_mem]. rewrite insert_take_drop by done. by rewrite Nat2Z.id, Nat.add_1_r.
Qed.

Lemma put_next pre b post v : put (pre ++ b :: post) (length pre) v = Val (pre ++ u8 v :: post).
Proof. rewrite put_insert by len_solve. by rewrite insert_app_r_alt, Nat.sub_diag by lia. Qed.

Lemma write_be_loop_spec B n pre mid post val :
  length pre = (B - n)%nat → length mid = n → (n ≤ B)%nat →
  write_be_loop B n (pre ++ mid ++ post) val = Val (pre ++ be_encode n val ++ post).
Proof.
  revert pre mid. induction n as [|n IH]; intros pre mid Hp Hm Hn; [by destruct mid|].
  destruct mid as [|b mid]; [done|]. cbn [write_be_loop app]. rewrite <- Hp, put_next. cbn [mbind_res].
  replace (pre ++ u8 _ :: mid ++ post) with ((pre ++ [u8 (Z.shiftr val (8 * Z.of_nat (B - 1 - length pre)))]) ++ mid ++ post)
    by by rewrite <- app_assoc.
  rewrite IH; [|len_solve|by simpl in Hm; lia|lia]. rewrite be_encode_S, <- app_assoc. cbn [app].
  do 4 f_equal. f_equal. lia.
Qed.

Lemma write_le_loop_spec B n pre mid post val :
  length pre = (B - n)%nat → length mid = n → (n ≤ B)%nat →
  write_le_loop B n (pre ++ mid ++ post) val = Val (pre ++ le_encode n (Z.shiftr val (8 * Z.of_nat (B - n))) ++ post).
Proof.
  revert pre mid. induction n as [|n IH]; intros pre mid Hp Hm Hn; [by destruct mid|].
  destruct mid as [|b mid]; [done|]. cbn [write_le_loop app]. rewrite <- Hp, put_next. cbn [mbind_res].
  replace (pre ++ u8 _ :: mid ++ post) with ((pre ++ [u8 (Z.shiftr val (8 * Z.of_nat (length pre)))]) ++ mid ++ post)
    by by rewrite <- app_assoc.
  rewrite IH; [|len_solve|by simpl in Hm; lia|lia]. rewrite le_encode_S, <- app_assoc, Z.shiftr_shiftr by lia. cbn [app].
  do 5 f_equal. f_equal. lia.
Qed.

Lemma WriteBigEndian_spec w sg B data val :
  width_ok w B → (B ≤ length data)%nat →
  WriteBigEndian w sg B data val = Val (be_encode B val ++ drop B data).
Proof.
  intros (Hw & HB & H1) Hl. assert (be_encode B (if sg then ReinterpretAsUnsigned w val else val) = be_encode B val) as <-.
  { destruct sg; [|done]. unfold be_encode, ReinterpretAsUnsigned. by rewrite le_encode_wrap by lia. }
  unfold WriteBigEndian. set (v := if sg then _ else _).
  assert (write_be_loop B B data v = Val (be_encode B v ++ drop B data)) as Hgen.
  { rewrite <- (take_drop B data) at 1. apply (write_be_loop_spec B B []); [simpl; lia|len_solve|lia]. }
  destruct (decide (B = 1)%nat) as [->|]; [|destruct (decide (B = 2)%nat) as [->|];
    [|destruct (decide (B = 4)%nat) as [->|]; [|destruct (decide (B = 8)%nat) as [->|]]]].
  all: try (rewrite <- Hgen; cbn [write_be_loop Nat.sub Z.of_nat Pos.of_succ_nat Pos.succ Z.mul Pos.mul Pos.add mbind_res];
    rewrite Z.shiftr_0_r).
  - unfold WriteBigEndian_1. by destruct (put _ _ _).
  - unfold WriteBigEndian_2. by repeat (destruct (put _ _ _); cbn [mbind_res]; [|done..]).
  - unfold WriteBigEndian_4. by repeat (destruct (put _ _ _); cbn [mbind_res]; [|done..]).
  - unfold WriteBigEndian_8. by repeat (destruct (put _ _ _); cbn [mbind_res]; [|done..]).
  - do 9 (destruct B as [|B]; [lia || done|]). lia.
Qed.

Lemma WriteLittleEndian_spec w sg B data val :
  width_ok w B → (B ≤ length data)%nat →
  WriteLittleEndian w sg B data val = Val (le_encode B val ++ drop B data).
Proof.
  intros (Hw & HB & H1) Hl. assert (le_encode B (if sg then ReinterpretAsUnsigned w val else val) = le_encode B val) as <-.
  { destruct sg; [|done]. unfold ReinterpretAsUnsigned. by rewrite le_encode_wrap by lia. }
  unfold WriteLittleEndian. set (v := if sg then _ else _).
  assert (write_le_loop B B data v = Val (le_encode B v ++ drop B data)) as Hgen.
  { pose proof (write_le_loop_spec B B [] (take B data) (drop B data) v) as H.
    rewrite Nat.sub_diag, Z.shiftr_0_r in H. cbn [app] in H. rewrite take_drop in H. apply H; [done|len_solve|lia]. }
  destruct (decide (B = 1)%nat) as [->|]; [|destruct (decide (B = 2)%nat) as [->|];
    [|destruct (decide (B = 4)%nat) as [->|]; [|destruct (decide (B = 8)%nat) as [->|]]]].
  all: try (rewrite <- Hgen; cbn [write_le_loop Nat.sub Z.of_nat Pos.of_succ_nat Pos.succ Z.mul Pos.mul Pos.add mbind_res];
    rewrite Z.shiftr_0_r).
  - unfold WriteLittleEndian_1. by destruct (put _ _ _).
  - unfold WriteLittleEndian_2. by repeat (destruct (put _ _ _); cbn [mbind_res]; [|done..]).
  - unfold WriteLittleEndian_4. by repeat (destruct (put _ _ _); cbn [mbind_res]; [|done..]).
  - unfold WriteLittleEndian_8. by repeat (destruct (put _ _ _); cbn [mbind_res]; [|done..]).
  - do 9 (destruct B as [|B]; [lia || done|]). lia.
Qed.

(** ** The result of an unsigned read is a value of its type *)

Section Range.
Context (w : nat).
Notation in_type z := (uwrap (8 * Z.of_nat w) z%Z = z%Z).

Lemma in_type_uwrap z : in_type (uwrap (8 * Z.of_nat w) z).
Proof. apply Zmod_mod. Qed.

Lemma in_type_cast z : in_type (cast w false z).
Proof. apply in_type_uwrap. Qed.

Lemma in_type_lor a b : in_type a → in_type b → in_type (Z.lor a b).
Proof. intros Ha Hb. rewrite uwrap_lor by lia. by rewrite Ha, Hb. Qed.

Hint Resolve in_type_uwrap in_type_cast in_type_lor : core.

Lemma read_be_loop_range B n data : ∀ val r, in_type val → read_be_loop w false B n data val = Val r → in_type r.
Proof.
  induction n as [|n IH]; intros val r Hv Hr; cbn [read_be_loop] in Hr; [by simplify_eq|].
  destruct (of_mem _) as [b| | |]; try done. cbn [mbind_res] in Hr. eapply IH; [|done]. auto.
Qed.

Lemma read_le_loop_range B n data : ∀ val r, in_type val → read_le_loop w false B n data val = Val r → in_type r.
Proof.
  induction n as [|n IH]; intros val r Hv Hr; cbn [read_le_loop] in Hr; [by simplify_eq|].
  destruct (of_mem _) as [b| | |]; try done. cbn [mbind_res] in Hr. eapply IH; [|done]. auto.
Qed.

Ltac explicit_bytes :=
  repeat match goal with
  | H : context [of_mem ?o] |- _ => destruct (of_mem o); cbn [mbind_res] in H; [|done..]
  end; simplify_eq; auto 10.

Lemma in_type_0 : in_type 0.
Proof. apply uwrap_small. split; [done|]. apply Z.pow_pos_nonneg; lia. Qed.

Lemma ReadBigEndian_raw_range B data r : ReadBigEndian_raw w false B data = Val r → in_type r.
Proof.
  intros H. unfold ReadBigEndian_raw, ReadBigEndian_1, ReadBigEndian_2, ReadBigEndian_4, ReadBigEndian_8, Get_shifted, Get in H.
  do 9 (try destruct B as [|B]); unfold InternalReadBigEndian in H;
    first [eapply read_be_loop_range; [apply in_type_0|exact H] | explicit_bytes].
Qed.

Lemma ReadLittleEndian_raw_range B data r : ReadLittleEndian_raw w false B data = Val r → in_type r.
Proof.
  intros H.
  unfold ReadLittleEndian_raw, ReadLittleEndian_1, ReadLittleEndian_2, ReadLittleEndian_4, ReadLittleEndian_8, Get_shifted, Get in H.
  do 9 (try destruct B as [|B]); unfold InternalReadLittleEndian in H;
    first [eapply read_le_loop_range; [apply in_type_0|exact H] | explicit_bytes].
Qed.
End Range.

(** ** Properties *)

(** The values [B] bytes of the type represent. A partial signed read of
    more than three bytes is excluded: see [sign_extend_undefined]. *)
Definition representable (w : nat) (sg : bool) (B : nat) (v : Z) : Prop :=
  if sg then - 2 ^ (8 * Z.of_nat B - 1) ≤ v < 2 ^ (8 * Z.of_nat B - 1) ∧ (B = w ∨ B ≤ 3)%nat
  else 0 ≤ v < 2 ^ (8 * Z.of_nat B).

(** From the unsigned value of the bytes to the value of the type. *)
Lemma read_finish w sg B v r :
  width_ok w B → representable w sg B v → UnsignedOf w r = v mod 2 ^ (8 * Z.of_nat B) →
  (sg = false → uwrap (8 * Z.of_nat w) r = r) →
  (if sg then
     let* u := (if (B <? w)%nat then SignExtend w B (UnsignedOf w r) else Val (UnsignedOf w r)) in
     Val (ReinterpretAsSigned w u)
   else Val r) = Val v.
Proof.
  intros (Hw & HB & _) Hv Hr Hs. set (n := 8 * Z.of_nat B) in *. set (k := 8 * Z.of_nat w) in *.
  assert (2 ^ n ≤ 2 ^ k) as Hle by (apply Z.pow_le_mono_r; lia). destruct sg; cbn [representable] in Hv.
  - destruct Hv as [Hv Hp]. fold n in Hv. assert (2 ^ n = 2 * 2 ^ (n - 1)) as Hn by (rewrite <- Z.pow_succ_r by lia; f_equal; lia).
    pose proof (Z.mod_pos_bound v (2 ^ n) ltac:(lia)) as Hm.
    assert (swrap n (v mod 2 ^ n) = v) as Hsw.
    { rewrite <- (swrap_small n v) at 2 by lia. unfold swrap. by rewrite Zplus_mod_idemp_l. }
    rewrite Hr. assert (2 ^ (n - 1) ≤ 2 ^ (k - 1)) by (apply Z.pow_le_mono_r; lia).
    destruct (Nat.ltb_spec B w) as [Hlt|Hge].
    + rewrite SignExtend_spec by (fold n; lia). cbn [mbind_res]. fold n. rewrite Hsw. f_equal.
      rewrite ReinterpretAsSigned_spec by first [lia|apply uwrap_range; lia]. fold k. unfold UnsignedOf. fold k.
      rewrite <- (swrap_small k v) at 2 by lia. unfold swrap, uwrap. by rewrite Zplus_mod_idemp_l.
    + assert (k = n) as Hkn by lia. cbn [mbind_res]. f_equal.
      rewrite ReinterpretAsSigned_spec by (fold k; rewrite ?Hkn; lia). fold k. by rewrite Hkn.
  - fold n in Hv. rewrite Z.mod_small in Hr by done. f_equal. rewrite <- Hr. symmetry. by apply Hs.
Qed.

(** An integer written with [ByteWriter] in either byte order occupies
    exactly its [B] bytes, most significant first or last, leaves the rest of
    the memory alone, and [ByteReader] gives it back, for every size, signed
    or unsigned, through the specialised and the generic templates alike. *)
Theorem byte_io_roundtrip w sg B data v :
  width_ok w B → (B ≤ length data)%nat → bytes_ok data → representable w sg B v →
  WriteBigEndian w sg B data v = Val (be_encode B v ++ drop B data) ∧
  ReadBigEndian w sg B (be_encode B v ++ drop B data) = Val v ∧
  WriteLittleEndian w sg B data v = Val (le_encode B v ++ drop B data) ∧
  ReadLittleEndian w sg B (le_encode B v ++ drop B data) = Val v.
Proof.
  intros Hw Hl Hd Hv. split; [by apply WriteBigEndian_spec|]. split; [|split; [by apply WriteLittleEndian_spec|]].
  - destruct (ReadBigEndian_raw_spec w sg B (be_encode B v ++ drop B data)) as (r & Er & Hr);
      [done|rewrite length_app, length_be_encode; lia|apply bytes_ok_app; split; [apply be_encode_bytes|by apply bytes_ok_drop]|].
    rewrite take_app_length' in Hr by (symmetry; apply length_be_encode). rewrite be_decode_encode in Hr.
    unfold ReadBigEndian. rewrite Er. cbn [mbind_res]. eapply read_finish; [done|done|done|].
    intros ->. by eapply ReadBigEndian_raw_range.
  - destruct (ReadLittleEndian_raw_spec w sg B (le_encode B v ++ drop B data)) as (r & Er & Hr);
      [done|rewrite length_app, length_le_encode; lia|apply bytes_ok_app; split; [apply le_encode_bytes|by apply bytes_ok_drop]|].
    rewrite take_app_length' in Hr by (symmetry; apply length_le_encode). rewrite le_decode_encode in Hr.
    unfold ReadLittleEndian. rewrite Er. cbn [mbind_res]. eapply read_finish; [done|done|done|].
    intros ->. by eapply ReadLittleEndian_raw_range.
Qed.

Lemma byte_io_roundtrip_witness :
  WriteBigEndian 4 true 3 [0; 0; 0; 9] (-2) = Val [255; 255; 254; 9] ∧
  ReadBigEndian 4 true 3 [255; 255; 254; 9] = Val (-2).
Proof.
  destruct (byte_io_roundtrip 4 true 3 [0; 0; 0; 9] (-2)) as (H1 & H2 & _).
  - split; [auto|split; [lia|lia]].
  - simpl. lia.
  - solve_bytes.
  - split; [split; vm_compute; congruence|lia].
  - split; [exact H1|exact H2].
Defined.

(** Reading a negative 40-bit number into [int64_t] shifts the [int] literal
    [1] by 40 bits. *)
Example sign_extend_undefined : ReadBigEndian 8 true 5 [0x80; 0; 0; 0; 0] = Undef.
Proof. vm_compute. reflexivity. Qed.

(** The words that [byte_order.h] stores in big- or little-endian order
    are the positional encodings whatever the order of the host, and loading
    gives them back. *)
Theorem byte_order_host_independent big n memory v :
  0 ≤ v < 2 ^ (8 * Z.of_nat n) → (n ≤ length memory)%nat →
  host_store big n memory (htobe big n v) = Val (be_encode n v ++ drop n memory) ∧
  (let* x := host_load big n (be_encode n v ++ drop n memory) in Val (betoh big n x)) = Val v ∧
  host_store big n memory (htole big n v) = Val (le_encode n v ++ drop n memory) ∧
  (let* x := host_load big n (le_encode n v ++ drop n memory) in Val (letoh big n x)) = Val v.
Proof.
  intros Hv Hl. unfold host_store, host_load.
  rewrite !mread_prefix by (rewrite ?length_be_encode, ?length_le_encode; lia). cbn [of_mem mbind_res].
  pose proof (htobe_bytes big n v) as Hb. pose proof (htole_bytes big n v) as Hle. unfold host_bytes in Hb, Hle.
  rewrite Hb, Hle, !mwrite_front by (rewrite ?length_be_encode, ?length_le_encode; lia).
  rewrite length_be_encode, length_le_encode. split; [done|]. split; [|split; [done|]].
  - f_equal. etrans; [apply betoh_value; [apply be_encode_bytes|apply length_be_encode]|].
    rewrite be_decode_encode. by apply Z.mod_small.
  - f_equal. etrans; [apply letoh_value; [apply le_encode_bytes|apply length_le_encode]|].
    rewrite le_decode_encode. by apply Z.mod_small.
Qed.

Lemma byte_order_host_independent_witness :
  SetBE32 false [0; 0; 0; 0; 7] 258 = Val [0; 0; 1; 2; 7] ∧ GetBE32 true [0; 0; 1; 2; 7] = Val 258.
Proof.
  destruct (byte_order_host_independent false 4 [0; 0; 0; 0; 7] 258) as (H1 & _); [vm_compute; split; congruence|simpl; lia|].
  destruct (byte_order_host_independent true 4 [0; 0; 0; 0; 7] 258) as (_ & H2 & _); [vm_compute; split; congruence|simpl; lia|].
  split; [exact H1|exact H2].
Defined.
