(* ===== verification/ByteBuffer.v ===== *)
(** * Serialisation (rtc_base/byte_buffer.h, byte_buffer.cc)

    [ByteBufferWriter] appends integers in network byte order, varints and
    byte strings to a [BufferT]; [ByteBufferReader] consumes them from a block
    it does not own. A [char] is its byte; conversions that extend its sign
    are written out. *)

From S2P Require Import Prelude Buffer ByteIO.

Section Writer.
Context (RTC_DCHECK_IS_ON ZeroOnFree : bool) (max_alloc : Z) (big_endian : bool).

Definition kDefaultCapacity : Z := 4096.

(** [Construct]; [None] for a null pointer. *)
Definition Construct_writer (bytes : option (list Z)) (size : Z) : res BufferT :=
  match bytes with
  | Some bs => AppendData RTC_DCHECK_IS_ON ZeroOnFree max_alloc bs BufferT_empty
  | None => EnsureCapacity RTC_DCHECK_IS_ON ZeroOnFree max_alloc size BufferT_empty
  end.

Definition ByteBufferWriter_new : res BufferT := Construct_writer None kDefaultCapacity.
Definition ByteBufferWriter_bytes (bytes : list Z) : res BufferT :=
  Construct_writer (Some bytes) (Z.of_nat (length bytes)).

Definition WriteBytes (val : list Z) (b : BufferT) : res BufferT := AppendData RTC_DCHECK_IS_ON ZeroOnFree max_alloc val b.

Definition WriteUInt8 (val : Z) (b : BufferT) : res BufferT := WriteBytes [val] b.
Definition WriteUInt16 (val : Z) (b : BufferT) : res BufferT :=
  let v := HostToNetwork16 big_endian val in WriteBytes (host_bytes big_endian 2 v) b.
(** The last three of the four bytes in memory. *)
Definition WriteUInt24 (val : Z) (b : BufferT) : res BufferT :=
  let v := HostToNetwork32 big_endian val in WriteBytes (drop 1 (host_bytes big_endian 4 v)) b.
Definition WriteUInt32 (val : Z) (b : BufferT) : res BufferT :=
  let v := HostToNetwork32 big_endian val in WriteBytes (host_bytes big_endian 4 v) b.
Definition WriteUInt64 (val : Z) (b : BufferT) : res BufferT :=
  let v := HostToNetwork64 big_endian val in WriteBytes (host_bytes big_endian 8 v) b.

(** The loop takes a turn for every seven bits; [None] when [fuel] turns were
    not enough. *)
Fixpoint write_uvarint (fuel : nat) (val : Z) (b : BufferT) : option (res BufferT) :=
  if 0x80 <=? val then
    match fuel with
    | O => None
    | S fuel =>
        let byte := u8 (Z.lor (s8 val) 0x80) in
        match WriteBytes [byte] b with
        | Val b => write_uvarint fuel (Z.shiftr val 7) b
        | r => Some r
        end
    end
  else Some (WriteBytes [u8 val] b).

Definition WriteUVarint (val : Z) (b : BufferT) : option (res BufferT) := write_uvarint 10 val b.

Definition WriteString (val : list Z) (b : BufferT) : res BufferT := WriteBytes val b.

(** Returns [data()]: the start of the whole buffer. *)
Definition ReserveWriteBuffer (len : Z) (b : BufferT) : res (option (list cell) * BufferT) :=
  let* n := Buffer.size RTC_DCHECK_IS_ON b in
  let* b := SetSize RTC_DCHECK_IS_ON ZeroOnFree max_alloc (u64 (n + len)) b in
  let* p := Buffer.data RTC_DCHECK_IS_ON b in
  Val (p, b).

Definition Resize (size : Z) (b : BufferT) : res BufferT := SetSize RTC_DCHECK_IS_ON ZeroOnFree max_alloc size b.
Definition Clear_writer (b : BufferT) : res BufferT := Clear RTC_DCHECK_IS_ON ZeroOnFree b.
Definition Length_writer (b : BufferT) : res Z := Buffer.size RTC_DCHECK_IS_ON b.
Definition Capacity_writer (b : BufferT) : res Z := Buffer.capacity RTC_DCHECK_IS_ON b.
End Writer.

(** ** The reader *)

Record ByteBufferReader := Reader {
  bytes_ : list Z;      (* the block, from [bytes_] on *)
  rsize_ : Z;
  start_ : Z;
  end_ : Z
}.

Section ReaderOps.
Context (big_endian : bool).

Definition Construct (bytes : list Z) (len : Z) : ByteBufferReader := Reader bytes len 0 len.
Definition ByteBufferReader_cstr (bytes : list Z) : res ByteBufferReader :=
  let* n := of_mem (strlen bytes) in Val (Construct bytes n).

Definition Length (r : ByteBufferReader) : Z := u64 (end_ r - start_ r).

Definition advance (n : Z) (r : ByteBufferReader) : ByteBufferReader :=
  Reader (bytes_ r) (rsize_ r) (u64 (start_ r + n)) (end_ r).

(** [None] for [false]. *)
Definition ReadBytes (len : Z) (r : ByteBufferReader) : res (option (list Z) * ByteBufferReader) :=
  if Length r <? len then Val (None, r)
  else
    let* bs := of_mem (mread (bytes_ r) (start_ r) len) in
    Val (Some bs, advance len r).

(** [valid]: the pointer for the result is not null. *)
Definition read_word (valid : bool) (len : Z) (conv : list Z → Z) (r : ByteBufferReader) : res (option Z * ByteBufferReader) :=
  if negb valid then Val (None, r)
  else
    let* '(o, r) := ReadBytes len r in
    match o with None => Val (None, r) | Some bs => Val (Some (conv bs), r) end.

Definition ReadUInt8 (valid : bool) (r : ByteBufferReader) : res (option Z * ByteBufferReader) :=
  read_word valid 1 (host_value big_endian) r.
Definition ReadUInt16 (valid : bool) (r : ByteBufferReader) : res (option Z * ByteBufferReader) :=
  read_word valid 2 (λ bs, NetworkToHost16 big_endian (host_value big_endian bs)) r.
(** Three bytes are read behind the first byte of a zero word. *)
Definition ReadUInt24 (valid : bool) (r : ByteBufferReader) : res (option Z * ByteBufferReader) :=
  read_word valid 3 (λ bs, NetworkToHost32 big_endian (host_value big_endian (0 :: bs))) r.
Definition ReadUInt32 (valid : bool) (r : ByteBufferReader) : res (option Z * ByteBufferReader) :=
  read_word valid 4 (λ bs, NetworkToHost32 big_endian (host_value big_endian bs)) r.
Definition ReadUInt64 (valid : bool) (r : ByteBufferReader) : res (option Z * ByteBufferReader) :=
  read_word valid 8 (λ bs, NetworkToHost64 big_endian (host_value big_endian bs)) r.

(** [for (int i = 0; i < 64; i += 7)], [n] turns left. *)
Fixpoint read_uvarint (n : nat) (i v : Z) (r : ByteBufferReader) : res (option Z * ByteBufferReader) :=
  match n with
  | O => Val (None, r)
  | S n =>
      let* '(o, r) := ReadBytes 1 r in
      match o with
      | None => Val (None, r)
      | Some bs =>
          let* byte := of_mem (head bs) in
          let byte := u64 (s8 byte) in
          let v := Z.lor v (u64 (Z.shiftl (Z.land byte 0x7F) i)) in
          if byte <? 0x80 then Val (Some v, r) else read_uvarint n (i + 7) v r
      end
  end.

Definition ReadUVarint (valid : bool) (r : ByteBufferReader) : res (option Z * ByteBufferReader) :=
  if negb valid then Val (None, r) else read_uvarint 10 0 0 r.

(** Appends to [val]; [None] for [false]. *)
Definition ReadString (val : option (list Z)) (len : Z) (r : ByteBufferReader)
    : res (option (list Z) * ByteBufferReader) :=
  match val with
  | None => Val (None, r)
  | Some s =>
      if Length r <? len then Val (None, r)
      else
        let* bs := of_mem (mread (bytes_ r) (start_ r) len) in
        Val (Some (s ++ bs), advance len r)
  end.

Definition Consume (size : Z) (r : ByteBufferReader) : bool * ByteBufferReader :=
  if Length r <? size then (false, r) else (true, advance size r).
End ReaderOps.

(** ** Varints *)

(** Seven bits per byte, the low ones first; all but the last byte have the
    continuation bit. *)
Fixpoint uvarint_bytes (fuel : nat) (val : Z) : list Z :=
  if 128 <=? val then
    match fuel with
    | O => []
    | S fuel => (128 + val mod 128) :: uvarint_bytes fuel (val / 128)
    end
  else [val].

Lemma set_continuation x : 0 ≤ x < 256 → Z.lor x 128 = 128 + x mod 128.
Proof.
  intros Hx. assert (Forall (λ x, Z.lor x 128 = 128 + x mod 128) (seqZ 0 256)) as H by (vm_compute; repeat constructor).
  rewrite Forall_forall in H. apply H, elem_of_seqZ. lia.
Qed.

Lemma continuation_byte val : u8 (Z.lor (s8 val) 0x80) = 128 + val mod 128.
Proof.
  rewrite uwrap_lor, uwrap_swrap by lia. change (u8 128) with 128.
  pose proof (byte_ok_u8 val). rewrite set_continuation by done. f_equal. unfold uwrap.
  apply Z.mod_mod_divide. by exists 2.
Qed.

Lemma uvarint_bytes_ok fuel val : 0 ≤ val → bytes_ok (uvarint_bytes fuel val).
Proof.
  revert val. induction fuel as [|fuel IH]; intros val Hv; cbn [uvarint_bytes]; destruct (Z.leb_spec 128 val).
  - constructor.
  - solve_bytes.
  - constructor; [pose proof (Z.mod_pos_bound val 128); unfold byte_ok; lia|]. apply IH. apply Z.div_pos; lia.
  - solve_bytes.
Qed.

Lemma uvarint_bytes_length fuel val : (length (uvarint_bytes fuel val) ≤ S fuel)%nat.
Proof.
  revert val. induction fuel as [|fuel IH]; intros val; cbn [uvarint_bytes]; destruct (128 <=? val); cbn [length]; try lia.
  specialize (IH (val / 128)). lia.
Qed.

Section WriterTheory.
Context (RTC_DCHECK_IS_ON ZeroOnFree : bool) (max_alloc : Z) (big_endian : bool).
Hypothesis max_alloc_ok : max_alloc ≤ 2 ^ 62.
Notation WriteBytes := (WriteBytes RTC_DCHECK_IS_ON ZeroOnFree max_alloc).

Definition wrote (b b' : BufferT) (bs : list Z) : Prop :=
  buf_ok b' ∧ size_ b' = size_ b + Z.of_nat (length bs) ∧ content b' = content b ++ (Some <$> bs).

Lemma WriteBytes_spec bs b :
  buf_ok b → 2 * (size_ b + Z.of_nat (length bs)) ≤ max_alloc → ∃ b', WriteBytes bs b = Val b' ∧ wrote b b' bs.
Proof.
  intros Hb Hm. destruct (AppendData_spec RTC_DCHECK_IS_ON ZeroOnFree max_alloc max_alloc_ok bs b Hb Hm) as (b' & E & [? _ _] & ? & ?).
  exists b'. by split_and!.
Qed.

Lemma wrote_trans b b1 b2 xs ys : wrote b b1 xs → wrote b1 b2 ys → wrote b b2 (xs ++ ys).
Proof.
  intros (_ & S1 & C1) (H & S2 & C2). split; [done|]. rewrite C2, C1, fmap_app, app_assoc, length_app. split; [lia|done].
Qed.

Lemma write_uvarint_spec fuel : ∀ val b,
  0 ≤ val < 2 ^ (7 * (Z.of_nat fuel + 1)) → buf_ok b → 2 * (size_ b + Z.of_nat fuel + 1) ≤ max_alloc →
  ∃ b', write_uvarint RTC_DCHECK_IS_ON ZeroOnFree max_alloc fuel val b = Some (Val b') ∧
    wrote b b' (uvarint_bytes fuel val).
Proof.
  induction fuel as [|fuel IH]; intros val b Hv Hb Hm; cbn [write_uvarint uvarint_bytes]; destruct (Z.leb_spec 0x80 val) as [Hge|Hlt].
  - change (2 ^ (7 * (Z.of_nat 0 + 1))) with 128 in Hv. lia.
  - destruct (WriteBytes_spec [u8 val] b Hb) as (b' & -> & H); [simpl; lia|]. rewrite u8_small in H by lia. eauto.
  - rewrite continuation_byte. destruct (WriteBytes_spec [128 + val mod 128] b Hb) as (b1 & -> & H1); [simpl; lia|].
    destruct H1 as (Hb1 & Hs1 & Hc1). simpl length in Hs1. rewrite Z.shiftr_div_pow2 by lia. change (2 ^ 7) with 128.
    destruct (IH (val / 128) b1) as (b2 & -> & H2); [|done|lia|].
    { split; [apply Z.div_pos; lia|]. apply Z.div_lt_upper_bound; [lia|].
      replace (7 * (Z.of_nat (S fuel) + 1)) with (7 + 7 * (Z.of_nat fuel + 1)) in Hv by lia.
      rewrite Z.pow_add_r in Hv by lia. change (2 ^ 7) with 128 in Hv. lia. }
    exists b2. split; [done|]. apply (wrote_trans b b1 b2 [_]); [by split_and!|done].
  - destruct (WriteBytes_spec [u8 val] b Hb) as (b' & -> & H); [simpl; lia|]. rewrite u8_small in H by lia. eauto.
Qed.
End WriterTheory.

(** ** What a reader has left *)

Definition holds_rest (r : ByteBufferReader) (rest : list Z) : Prop :=
  ∃ pre tl, bytes_ r = pre ++ rest ++ tl ∧ start_ r = Z.of_nat (length pre) ∧
    end_ r = start_ r + Z.of_nat (length rest) ∧ end_ r < 2 ^ 62.

Lemma rest_length r rest : holds_rest r rest → Length r = Z.of_nat (length rest).
Proof. intros (pre & tl & _ & Hs & He & Hb). unfold Length. rewrite u64_small by lia. lia. Qed.

Lemma rest_advance r bs rest :
  holds_rest r (bs ++ rest) →
  mread (bytes_ r) (start_ r) (Z.of_nat (length bs)) = Some bs ∧ holds_rest (advance (Z.of_nat (length bs)) r) rest.
Proof.
  intros (pre & tl & Hb & Hs & He & Hx). rewrite length_app in He. split.
  - rewrite Hb, <- !app_assoc. by apply mread_app.
  - exists (pre ++ bs), tl. cbn [advance bytes_ start_ end_]. rewrite u64_small by lia. rewrite length_app.
    split_and!; [by rewrite Hb, <- !app_assoc|lia|lia|done].
Qed.

Lemma ReadBytes_spec r bs rest :
  holds_rest r (bs ++ rest) →
  ∃ r', ReadBytes (Z.of_nat (length bs)) r = Val (Some bs, r') ∧ holds_rest r' rest.
Proof.
  intros Hr. unfold ReadBytes. rewrite (rest_length _ _ Hr), (proj2 (Z.ltb_ge _ _)) by len_solve.
  destruct (rest_advance _ _ _ Hr) as [-> Hr']. eexists. by split.
Qed.

(** Without enough data nothing is read and the position stays. *)
Lemma ReadBytes_short r rest len :
  holds_rest r rest → Z.of_nat (length rest) < len → ReadBytes len r = Val (None, r).
Proof. intros Hr Hl. unfold ReadBytes. by rewrite (rest_length _ _ Hr), (proj2 (Z.ltb_lt _ _)). Qed.

Lemma low_seven x : Z.land x 0x7F = x mod 128.
Proof. change 0x7F with (Z.ones 7). by rewrite Z.land_ones by lia. Qed.

Lemma read_uvarint_spec fuel : ∀ n val v r rest,
  (0 < n ≤ 10)%nat → let i := 7 * (10 - Z.of_nat n) in
  0 ≤ val < 2 ^ (64 - i) → val < 2 ^ (7 * (Z.of_nat fuel + 1)) → 0 ≤ v < 2 ^ i →
  holds_rest r (uvarint_bytes fuel val ++ rest) →
  ∃ r', read_uvarint n i v r = Val (Some (v + val * 2 ^ i), r') ∧ holds_rest r' rest.
Proof.
  induction fuel as [|fuel IH]; intros n val v r rest Hn i Hval Hf Hv Hr; (destruct n as [|n]; [lia|]);
    cbn [read_uvarint uvarint_bytes] in *; destruct (Z.leb_spec 128 val) as [Hge|Hlt].
  1: { change (2 ^ (7 * (Z.of_nat 0 + 1))) with 128 in Hf. lia. }
  1,3: destruct (ReadBytes_spec r [val] rest Hr) as (r' & E & Hr'); change (Z.of_nat (length [val])) with 1 in E;
    rewrite E; cbn [mbind_res head of_mem]; rewrite (swrap_small 8), (u64_small val), low_seven, (proj2 (Z.ltb_lt _ _)) by lia;
    exists r'; split; [|done]; do 3 f_equal; rewrite Z.mod_small by lia; rewrite Z.shiftl_mul_pow2 by lia;
    rewrite u64_small, Z.lor_comm, lor_add_disjoint by
      (try lia; assert (2 ^ 64 = 2 ^ (64 - i) * 2 ^ i) by (rewrite <- Z.pow_add_r by lia; f_equal; lia); nia); lia.
  cbn [app] in Hr. destruct (ReadBytes_spec r [128 + val mod 128] _ Hr) as (r1 & E & Hr1).
  change (Z.of_nat (length [_])) with 1 in E. rewrite E. cbn [mbind_res head of_mem].
  pose proof (Z.mod_pos_bound val 128 ltac:(lia)) as Hmb. set (m := val mod 128) in *.
  assert (u64 (s8 (128 + m)) = 2 ^ 64 - 128 + m) as ->.
  { rewrite swrap_bits by lia. rewrite (proj2 (Z.ltb_ge (128 + m) _)) by lia. unfold uwrap.
    replace (128 + m - 2 ^ 8) with (2 ^ 64 - 128 + m + (-1) * 2 ^ 64) by lia. rewrite Z.mod_add by lia. apply Z.mod_small. lia. }
  rewrite low_seven, (proj2 (Z.ltb_ge _ _)) by lia.
  assert ((2 ^ 64 - 128 + m) mod 128 = m) as ->.
  { replace (2 ^ 64 - 128 + m) with (m + (2 ^ 57 - 1) * 128) by lia. rewrite Z.mod_add by lia. apply Z.mod_small. lia. }
  assert (i + 7 < 64) as Hi.
  { destruct (Z.lt_ge_cases (i + 7) 64); [done|]. assert (2 ^ (64 - i) ≤ 2 ^ 7) by (apply Z.pow_le_mono_r; lia).
    change (2 ^ 7) with 128 in *. lia. }
  assert (2 ^ (64 - i) = 128 * 2 ^ (64 - (i + 7))) as Hp.
  { change 128 with (2 ^ 7). rewrite <- Z.pow_add_r by lia. f_equal. lia. }
  assert (2 ^ (i + 7) = 128 * 2 ^ i) as Hq.
  { change 128 with (2 ^ 7). rewrite <- Z.pow_add_r by lia. f_equal. lia. }
  assert (2 ^ (i + 7) ≤ 2 ^ 63) as Hle by (apply Z.pow_le_mono_r; lia).
  assert (val = 128 * (val / 128) + m) as Hd by (apply Z.div_mod; lia).
  assert (i + 7 = 7 * (10 - Z.of_nat n)) as Hn7 by lia.
  rewrite Z.shiftl_mul_pow2, u64_small, Z.lor_comm, lor_add_disjoint by (done || nia).
  rewrite Hn7. destruct (IH n (val / 128) (m * 2 ^ i + v) r1 rest) as (r' & -> & Hr').
  - lia.
  - rewrite <- Hn7. split; [apply Z.div_pos; lia|]. apply Z.div_lt_upper_bound; lia.
  - apply Z.div_lt_upper_bound; [lia|]. replace (7 * (Z.of_nat (S fuel) + 1)) with (7 + 7 * (Z.of_nat fuel + 1)) in Hf by lia.
    rewrite Z.pow_add_r in Hf by lia. change (2 ^ 7) with 128 in Hf. lia.
  - rewrite <- Hn7. nia.
  - done.
  - exists r'. split; [|done]. do 3 f_equal. rewrite <- Hn7, Hq. nia.
Qed.

(** ** Sequences of fields *)

Inductive field :=
  | FU8 (v : Z) | FU16 (v : Z) | FU24 (v : Z) | FU32 (v : Z) | FU64 (v : Z)
  | FVarint (v : Z)
  | FString (s : list Z).

Definition field_ok (f : field) : Prop :=
  match f with
  | FU8 v => 0 ≤ v < 2 ^ 8
  | FU16 v => 0 ≤ v < 2 ^ 16
  | FU24 v => 0 ≤ v < 2 ^ 24
  | FU32 v => 0 ≤ v < 2 ^ 32
  | FU64 v | FVarint v => 0 ≤ v < 2 ^ 64
  | FString s => bytes_ok s
  end.

(** The wire format. *)
Definition field_bytes (f : field) : list Z :=
  match f with
  | FU8 v => [v]
  | FU16 v => be_encode 2 v
  | FU24 v => be_encode 3 v
  | FU32 v => be_encode 4 v
  | FU64 v => be_encode 8 v
  | FVarint v => uvarint_bytes 10 v
  | FString s => s
  end.

Definition field_size (f : field) : Z :=
  match f with FString s => Z.of_nat (length s) | _ => 11 end.

Section Fields.
Context (RTC_DCHECK_IS_ON ZeroOnFree : bool) (max_alloc : Z) (big_endian : bool).

Definition write_field (f : field) (b : BufferT) : option (res BufferT) :=
  match f with
  | FU8 v => Some (WriteUInt8 RTC_DCHECK_IS_ON ZeroOnFree max_alloc v b)
  | FU16 v => Some (WriteUInt16 RTC_DCHECK_IS_ON ZeroOnFree max_alloc big_endian v b)
  | FU24 v => Some (WriteUInt24 RTC_DCHECK_IS_ON ZeroOnFree max_alloc big_endian v b)
  | FU32 v => Some (WriteUInt32 RTC_DCHECK_IS_ON ZeroOnFree max_alloc big_endian v b)
  | FU64 v => Some (WriteUInt64 RTC_DCHECK_IS_ON ZeroOnFree max_alloc big_endian v b)
  | FVarint v => WriteUVarint RTC_DCHECK_IS_ON ZeroOnFree max_alloc v b
  | FString s => Some (WriteString RTC_DCHECK_IS_ON ZeroOnFree max_alloc s b)
  end.

Fixpoint write_fields (fs : list field) (b : BufferT) : option (res BufferT) :=
  match fs with
  | [] => Some (Val b)
  | f :: fs => match write_field f b with Some (Val b) => write_fields fs b | r => r end
  end.

(** Reading a field of the same shape; [None] where the reader says [false]. *)
Definition as_field (c : Z → field) (x : res (option Z * ByteBufferReader)) : res (option field * ByteBufferReader) :=
  let* '(o, r) := x in Val (c <$> o, r).

Definition read_field (shape : field) (r : ByteBufferReader) : res (option field * ByteBufferReader) :=
  match shape with
  | FU8 _ => as_field FU8 (ReadUInt8 big_endian true r)
  | FU16 _ => as_field FU16 (ReadUInt16 big_endian true r)
  | FU24 _ => as_field FU24 (ReadUInt24 big_endian true r)
  | FU32 _ => as_field FU32 (ReadUInt32 big_endian true r)
  | FU64 _ => as_field FU64 (ReadUInt64 big_endian true r)
  | FVarint _ => as_field FVarint (ReadUVarint true r)
  | FString s => let* '(o, r) := ReadString (Some []) (Z.of_nat (length s)) r in Val (FString <$> o, r)
  end.

Fixpoint read_fields (shapes : list field) (r : ByteBufferReader) : res (option (list field) * ByteBufferReader) :=
  match shapes with
  | [] => Val (Some [], r)
  | f :: fs =>
      let* '(o, r) := read_field f r in
      match o with
      | None => Val (None, r)
      | Some x => let* '(os, r) := read_fields fs r in Val (cons x <$> os, r)
      end
  end.

Hypothesis max_alloc_ok : max_alloc ≤ 2 ^ 62.

Lemma field_bytes_size f : Z.of_nat (length (field_bytes f)) ≤ field_size f.
Proof.
  destruct f as [v|v|v|v|v|v|s]; cbn [field_bytes field_size length]; rewrite ?length_be_encode; try lia.
  pose proof (uvarint_bytes_length 10 v). lia.
Qed.

Lemma fields_bytes_size fs : Z.of_nat (length (mjoin (field_bytes <$> fs))) ≤ foldr Z.add 0 (field_size <$> fs).
Proof.
  induction fs as [|f fs IH]; [done|]. rewrite !fmap_cons. cbn [foldr].
  change (mjoin (field_bytes f :: (field_bytes <$> fs))) with (field_bytes f ++ mjoin (field_bytes <$> fs)).
  rewrite length_app. pose proof (field_bytes_size f). lia.
Qed.

Lemma be_encode_tail v : 0 ≤ v < 2 ^ 24 → drop 1 (be_encode 4 v) = be_encode 3 v.
Proof. intros. by rewrite be_encode_S. Qed.

Lemma write_field_spec f b :
  field_ok f → buf_ok b → 2 * (size_ b + field_size f) ≤ max_alloc →
  ∃ b', write_field f b = Some (Val b') ∧ wrote b b' (field_bytes f).
Proof.
  intros Hf Hb Hm. pose proof (field_bytes_size f) as Hsz.
  assert (∀ bs, bs = field_bytes f →
    ∃ b', WriteBytes RTC_DCHECK_IS_ON ZeroOnFree max_alloc bs b = Val b' ∧ wrote b b' (field_bytes f)) as Hw.
  { intros bs ->. apply WriteBytes_spec; [done|done|lia]. }
  destruct f as [v|v|v|v|v|v|s]; cbn [write_field field_bytes field_ok field_size] in *.
  1: destruct (Hw [v] eq_refl) as (b' & E & H).
  2: destruct (Hw (host_bytes big_endian 2 (HostToNetwork16 big_endian v))) as (b' & E & H); [apply htobe_bytes|].
  3: destruct (Hw (drop 1 (host_bytes big_endian 4 (HostToNetwork32 big_endian v)))) as (b' & E & H);
       [unfold HostToNetwork32; rewrite htobe_bytes; by apply be_encode_tail|].
  4: destruct (Hw (host_bytes big_endian 4 (HostToNetwork32 big_endian v))) as (b' & E & H); [apply htobe_bytes|].
  5: destruct (Hw (host_bytes big_endian 8 (HostToNetwork64 big_endian v))) as (b' & E & H); [apply htobe_bytes|].
  7: destruct (Hw s eq_refl) as (b' & E & H).
  6: { destruct (write_uvarint_spec RTC_DCHECK_IS_ON ZeroOnFree max_alloc max_alloc_ok 10 v b) as (b' & E & H); [|done|lia|by exists b'].
       split; [lia|]. eapply Z.lt_le_trans; [apply Hf|]. apply Z.pow_le_mono_r; lia. }
  all: exists b'; split; [f_equal; exact E|done].
Qed.

Lemma write_fields_spec fs : ∀ b,
  Forall field_ok fs → buf_ok b → 2 * foldr Z.add (size_ b) (field_size <$> fs) ≤ max_alloc →
  ∃ b', write_fields fs b = Some (Val b') ∧ wrote b b' (mjoin (field_bytes <$> fs)).
Proof.
  induction fs as [|f fs IH]; intros b Hfs Hb Hm.
  { exists b. split; [done|]. split; [done|]. simpl. rewrite app_nil_r. split; [lia|done]. }
  apply Forall_cons in Hfs as [Hf Hfs]. rewrite fmap_cons in Hm. cbn [foldr] in Hm.
  assert (∀ k, foldr Z.add k (field_size <$> fs) = k + foldr Z.add 0 (field_size <$> fs)) as Hk.
  { intros k. clear. induction fs as [|o os IH]; [simpl; lia|]. rewrite fmap_cons. cbn [foldr]. lia. }
  assert (0 ≤ foldr Z.add 0 (field_size <$> fs)) as H0.
  { clear. induction fs as [|f fs IH]; [done|]. rewrite fmap_cons. cbn [foldr]. destruct f; simpl; lia. }
  rewrite Hk in Hm. destruct (write_field_spec f b Hf Hb) as (b1 & E1 & H1); [lia|]. pose proof H1 as (Hb1 & Hs1 & _).
  pose proof (field_bytes_size f). destruct (IH b1 Hfs Hb1) as (b2 & E2 & H2); [rewrite Hk; lia|].
  exists b2. cbn [write_fields]. rewrite E1, E2. split; [done|]. by eapply wrote_trans.
Qed.

(** Reading the [n] bytes of a big-endian word. *)
Lemma read_word_spec n conv v r rest :
  0 ≤ v < 2 ^ (8 * Z.of_nat n) → holds_rest r (be_encode n v ++ rest) → conv (be_encode n v) = v →
  ∃ r', read_word true (Z.of_nat n) conv r = Val (Some v, r') ∧ holds_rest r' rest.
Proof.
  intros Hv Hr Hc. destruct (ReadBytes_spec r _ _ Hr) as (r' & E & Hr'). rewrite length_be_encode in E.
  exists r'. unfold read_word. rewrite E. cbn [negb mbind_res]. by rewrite Hc.
Qed.

Lemma network_value n v :
  0 ≤ v < 2 ^ (8 * Z.of_nat n) → betoh big_endian n (host_value big_endian (be_encode n v)) = v.
Proof.
  intros Hv. rewrite betoh_value by first [apply be_encode_bytes|apply length_be_encode].
  rewrite be_decode_encode. by apply Z.mod_small.
Qed.

Lemma read_field_spec f r rest :
  field_ok f → holds_rest r (field_bytes f ++ rest) →
  ∃ r', read_field f r = Val (Some f, r') ∧ holds_rest r' rest.
Proof.
  intros Hf Hr. destruct f as [v|v|v|v|v|v|s]; cbn [read_field field_bytes field_ok] in *.
  - destruct (ReadBytes_spec r [v] rest Hr) as (r' & E & Hr'). exists r'. unfold ReadUInt8, read_word.
    cbn [negb]. change 1 with (Z.of_nat (length [v])). rewrite E. cbn [mbind_res as_field]. split; [|done].
    assert (le_decode [v] = v) as Ev by (rewrite le_decode_cons; change (le_decode []) with 0; lia).
    unfold host_value. destruct big_endian; cbn [fmap option_fmap option_map]; [change (be_decode [v]) with (le_decode [v])|];
      by rewrite Ev.
  - destruct (read_word_spec 2 (λ bs, NetworkToHost16 big_endian (host_value big_endian bs)) v r rest) as (r' & E & Hr');
      [done|done|by apply network_value|]. exists r'. unfold ReadUInt16. change 2 with (Z.of_nat 2) at 1. by rewrite E.
  - destruct (read_word_spec 3 (λ bs, NetworkToHost32 big_endian (host_value big_endian (0 :: bs))) v r rest) as (r' & E & Hr');
      [done|done| |exists r'; unfold ReadUInt24; change 3 with (Z.of_nat 3) at 1; by rewrite E].
    replace (0 :: be_encode 3 v) with (be_encode 4 v); [apply (network_value 4); simpl; lia|].
    rewrite be_encode_S. f_equal. rewrite Z.shiftr_div_pow2, Z.div_small by (simpl; lia). done.
  - destruct (read_word_spec 4 (λ bs, NetworkToHost32 big_endian (host_value big_endian bs)) v r rest) as (r' & E & Hr');
      [done|done|by apply network_value|]. exists r'. unfold ReadUInt32. change 4 with (Z.of_nat 4) at 1. by rewrite E.
  - destruct (read_word_spec 8 (λ bs, NetworkToHost64 big_endian (host_value big_endian bs)) v r rest) as (r' & E & Hr');
      [done|done|by apply network_value|]. exists r'. unfold ReadUInt64. change 8 with (Z.of_nat 8) at 1. by rewrite E.
  - destruct (read_uvarint_spec 10 10 v 0 r rest) as (r' & E & Hr'); [lia|simpl; lia| |simpl; lia|done|].
    { eapply Z.lt_le_trans; [apply Hf|]. apply Z.pow_le_mono_r; lia. }
    exists r'. unfold ReadUVarint. cbn [negb].
    change (7 * (10 - Z.of_nat 10)) with 0 in E. rewrite E. cbn [as_field mbind_res fmap option_fmap option_map].
    by replace (0 + v * 2 ^ 0) with v by (rewrite Z.pow_0_r; lia).
  - exists (advance (Z.of_nat (length s)) r). destruct (rest_advance r s rest Hr) as [E Hr'].
    unfold ReadString. rewrite (rest_length _ _ Hr), (proj2 (Z.ltb_ge _ _)) by len_solve. by rewrite E.
Qed.

Lemma read_fields_spec fs : ∀ r rest,
  Forall field_ok fs → holds_rest r (mjoin (field_bytes <$> fs) ++ rest) →
  ∃ r', read_fields fs r = Val (Some fs, r') ∧ holds_rest r' rest.
Proof.
  induction fs as [|f fs IH]; intros r rest Hfs Hr; [by exists r|]. apply Forall_cons in Hfs as [Hf Hfs].
  change (mjoin (field_bytes <$> f :: fs)) with (field_bytes f ++ mjoin (field_bytes <$> fs)) in Hr.
  rewrite <- app_assoc in Hr. destruct (read_field_spec f r _ Hf Hr) as (r1 & E1 & Hr1).
  destruct (IH r1 rest Hfs Hr1) as (r2 & E2 & Hr2). exists r2. cbn [read_fields]. rewrite E1. cbn [mbind_res].
  by rewrite E2.
Qed.

(** ** Properties *)

(** C32: fields written one after the other are read back as they were written,
    on hosts of either byte order: integers of every width in network order,
    varints in seven-bit groups, strings as they are; the reader ends where
    the fields end. *)
Theorem byte_buffer_roundtrip fs b rest :
  Forall field_ok fs → buf_ok b → content b = [] → 2 * foldr Z.add 0 (field_size <$> fs) ≤ max_alloc →
  Z.of_nat (length rest) < 2 ^ 60 →
  ∃ b' bs r', write_fields fs b = Some (Val b') ∧ content b' = Some <$> bs ∧
    read_fields fs (Construct (bs ++ rest) (Z.of_nat (length (bs ++ rest)))) = Val (Some fs, r') ∧ holds_rest r' rest.
Proof.
  intros Hfs Hb Hc Hm Hl. assert (size_ b = 0) as Hs0.
  { pose proof (length_content b Hb) as H. rewrite Hc in H. simpl in H. destruct Hb. lia. }
  destruct (write_fields_spec fs b Hfs Hb) as (b' & E & Hb' & Hs' & Hc'); [by rewrite Hs0|].
  set (bs := mjoin (field_bytes <$> fs)) in *. rewrite Hc in Hc'.
  pose proof (fields_bytes_size fs) as Hbs. fold bs in Hbs.
  destruct (read_fields_spec fs (Construct (bs ++ rest) (Z.of_nat (length (bs ++ rest)))) rest) as (r' & Er & Hr'); [done| |].
  { exists [], []. cbn [Construct bytes_ start_ end_ length app]. fold bs. rewrite app_nil_r, length_app.
    split_and!; [done|done|lia|lia]. }
  exists b', bs, r'. done.
Qed.
End Fields.

(** ** Witnesses *)

Definition demo_fields : list field := [FU8 7; FU16 513; FU24 66051; FVarint 300; FU64 (2 ^ 63); FString [104; 105]; FU32 1].

Lemma byte_buffer_roundtrip_witness :
  ∃ b' bs r', write_fields true false 1000 false demo_fields BufferT_empty = Some (Val b') ∧ content b' = Some <$> bs ∧
    read_fields false demo_fields (Construct (bs ++ [9]) (Z.of_nat (length (bs ++ [9])))) = Val (Some demo_fields, r') ∧
    holds_rest r' [9].
Proof.
  apply (byte_buffer_roundtrip true false 1000 false ltac:(lia) demo_fields BufferT_empty [9]).
  - repeat (apply Forall_cons; split; [simpl; first [lia|solve_bytes]|]). apply Forall_nil_2.
  - by split.
  - reflexivity.
  - vm_compute. congruence.
  - vm_compute. reflexivity.
Defined.
