(* ===== verification/CowBuffer.v ===== *)
(** * Reference counts and the copy-on-write buffer
      (rtc_base/ref_counter.h, ref_counted_object.h, api/scoped_refptr.h,
       rtc_base/copy_on_write_buffer.h, copy_on_write_buffer.cc)

    The buffers live in a store of reference-counted objects; a
    [CopyOnWriteBuffer] holds a [scoped_refptr] to one of them, so that several
    of them share an object. The store and the [scoped_refptr] fields by
    object are the state; touching an object that was deleted is undefined.
    The main theorem is that the sharing is invisible: each operation changes
    the bytes of its own object only. *)

From S2P Require Import Prelude Buffer.

(** ** Reference counts *)

Inductive RefCountReleaseStatus := kDroppedLastRef | kOtherRefsRemained.

(** [std::atomic<int>] wraps around. *)
Definition IncRef (c : Z) : Z := s32 (c + 1).
Definition DecRef (c : Z) : RefCountReleaseStatus * Z :=
  let ref_count_after_subtract := c - 1 in
  (if ref_count_after_subtract =? 0 then kDroppedLastRef else kOtherRefsRemained, s32 (c - 1)).
Definition HasOneRef (c : Z) : bool := c =? 1.

Record RefCountedObject := RC { ref_count_ : Z; object : BufferT }.

Record store := Store {
  objs : gmap Z RefCountedObject;
  holders : gmap Z (option Z)          (* the [ptr_] of every live [scoped_refptr] *)
}.

Definition AddRef (p : Z) (st : store) : res store :=
  let* o := of_mem (objs st !! p) in
  Val (Store (<[p := RC (IncRef (ref_count_ o)) (object o)]> (objs st)) (holders st)).

(** [delete this] on the last reference. *)
Definition Release (p : Z) (st : store) : res (RefCountReleaseStatus * store) :=
  let* o := of_mem (objs st !! p) in
  let '(status, c) := DecRef (ref_count_ o) in
  match status with
  | kDroppedLastRef =>
      let* _ := BufferT_delete false (object o) in
      Val (status, Store (delete p (objs st)) (holders st))
  | kOtherRefsRemained => Val (status, Store (<[p := RC c (object o)]> (objs st)) (holders st))
  end.

Definition if_some (f : Z → store → res store) (p : option Z) (st : store) : res store :=
  match p with Some p => f p st | None => Val st end.
Definition Release' (p : Z) (st : store) : res store := let* '(_, st) := Release p st in Val st.

(** ** scoped_refptr, by the address of the field *)

Definition ptr_ (x : Z) (st : store) : res (option Z) := of_mem (holders st !! x).
Definition set_ptr (x : Z) (p : option Z) (st : store) : store := Store (objs st) (<[x := p]> (holders st)).

Definition refptr_empty (x : Z) (st : store) : store := set_ptr x None st.
(** [scoped_refptr(T* p)] *)
Definition refptr_raw (x : Z) (p : option Z) (st : store) : res store := if_some AddRef p (set_ptr x p st).
(** The copy constructor. *)
Definition refptr_copy (x y : Z) (st : store) : res store := let* p := ptr_ y st in refptr_raw x p st.
Definition release (x : Z) (st : store) : res (option Z * store) := let* p := ptr_ x st in Val (p, set_ptr x None st).
(** The move constructor. *)
Definition refptr_move (x y : Z) (st : store) : res store := let* '(p, st) := release y st in Val (set_ptr x p st).
Definition refptr_delete (x : Z) (st : store) : res store :=
  let* p := ptr_ x st in
  let* st := if_some Release' p st in
  Val (Store (objs st) (delete x (holders st))).
(** [operator=(T* p)]: the reference is taken before the old one is dropped. *)
Definition refptr_assign_raw (x : Z) (p : option Z) (st : store) : res store :=
  let* st := if_some AddRef p st in
  let* old := ptr_ x st in
  let* st := if_some Release' old st in
  Val (set_ptr x p st).
Definition refptr_assign (x y : Z) (st : store) : res store := let* p := ptr_ y st in refptr_assign_raw x p st.
Definition refptr_swap (x y : Z) (st : store) : res store :=
  let* p := ptr_ x st in
  let* q := ptr_ y st in
  Val (set_ptr y p (set_ptr x q st)).
(** [operator=(scoped_refptr&&)]: a temporary takes the pointer, swaps and is
    destroyed; [tmp] is its address. *)
Definition refptr_move_assign (tmp x y : Z) (st : store) : res store :=
  let* st := refptr_move tmp y st in
  let* st := refptr_swap tmp x st in
  refptr_delete tmp st.

(** ** CopyOnWriteBuffer *)

Section Cow.
Context (RTC_DCHECK_IS_ON : bool) (max_alloc : Z).

Notation dcheck := (dcheck RTC_DCHECK_IS_ON).

(** The object a buffer points to. *)
Definition deref (x : Z) (st : store) : res (option (Z * RefCountedObject)) :=
  let* p := ptr_ x st in
  match p with
  | None => Val None
  | Some p => let* o := of_mem (objs st !! p) in Val (Some (p, o))
  end.

Definition set_object (p : Z) (b : BufferT) (st : store) : res store :=
  let* o := of_mem (objs st !! p) in
  Val (Store (<[p := RC (ref_count_ o) b]> (objs st)) (holders st)).

Definition cow_consistent (x : Z) (st : store) : res bool :=
  let* o := deref x st in
  match o with
  | None => Val true
  | Some (_, o) => let* c := Buffer.capacity RTC_DCHECK_IS_ON (object o) in Val (0 <? c)
  end.

(** [RTC_DCHECK(IsConsistent())]; the reads of [size()] and [capacity()] after
    it are written as reads of the fields. *)
Definition check (x : Z) (st : store) : res unit :=
  if RTC_DCHECK_IS_ON then let* c := cow_consistent x st in c_assert c else Val ().

(** [buffer_ = new RefCountedObject<Buffer>(...)] *)
Definition assign_new (x : Z) (b : BufferT) (st : store) : res store :=
  let p := fresh (dom (objs st)) in
  refptr_assign_raw x (Some p) (Store (<[p := RC 0 b]> (objs st)) (holders st)).

(** [buffer_(new RefCountedObject<Buffer>(...))] *)
Definition construct_new (x : Z) (b : BufferT) (st : store) : res store :=
  let p := fresh (dom (objs st)) in
  refptr_raw x (Some p) (Store (<[p := RC 0 b]> (objs st)) (holders st)).

Definition cow_new (x : Z) (st : store) : store := refptr_empty x st.
Definition cow_copy (x y : Z) (st : store) : res store := refptr_copy x y st.
Definition cow_move (x y : Z) (st : store) : res store := refptr_move x y st.
Definition cow_delete (x : Z) (st : store) : res store := refptr_delete x st.

(** [CopyOnWriteBuffer(size, capacity)] *)
Definition cow_sized (x size capacity : Z) (st : store) : res store :=
  let* st := (if (0 <? size) || (0 <? capacity)
              then let* b := BufferT_sized RTC_DCHECK_IS_ON max_alloc size capacity in construct_new x b st
              else refptr_raw x None st) in
  let* _ := check x st in
  Val st.

(** [CopyOnWriteBuffer(data, size, capacity)] *)
Definition cow_data (x : Z) (d : list Z) (capacity : Z) (st : store) : res store :=
  let* st := cow_sized x (Z.of_nat (length d)) capacity st in
  let* o := deref x st in
  match o with
  | None => Val st
  | Some (p, o) => let* b := write_at 0 (Some <$> d) (object o) in set_object p b st
  end.

Definition cow_assign (x y : Z) (st : store) : res store :=
  let* _ := check x st in
  let* _ := check y st in
  if negb (x =? y) then refptr_assign x y st else Val st.

Definition cow_move_assign (tmp x y : Z) (st : store) : res store :=
  let* _ := check x st in
  let* _ := check y st in
  refptr_move_assign tmp x y st.

Definition cow_size (x : Z) (st : store) : res Z :=
  let* _ := check x st in
  let* o := deref x st in
  match o with None => Val 0 | Some (_, o) => Buffer.size RTC_DCHECK_IS_ON (object o) end.

Definition cow_capacity (x : Z) (st : store) : res Z :=
  let* _ := check x st in
  let* o := deref x st in
  match o with None => Val 0 | Some (_, o) => Buffer.capacity RTC_DCHECK_IS_ON (object o) end.

(** [cdata()] *)
Definition cdata (x : Z) (st : store) : res (option (list cell)) :=
  let* _ := check x st in
  let* o := deref x st in
  match o with None => Val None | Some (_, o) => Buffer.data RTC_DCHECK_IS_ON (object o) end.

(** [x] has a buffer: the copy keeps the elements in use. *)
Definition CloneDataIfReferenced (x new_capacity : Z) (st : store) : res store :=
  let* o := deref x st in
  match o with
  | None => Undef
  | Some (_, o) =>
      if HasOneRef (ref_count_ o) then Val st
      else
        let* cs := read_at 0 (size_ (object o)) (object o) in
        let* b := BufferT_data RTC_DCHECK_IS_ON max_alloc cs new_capacity in
        let* st := assign_new x b st in
        let* _ := check x st in
        Val st
  end.

(** An operation on the object of [x], which exists. *)
Definition on_object (x : Z) (f : BufferT → res BufferT) (st : store) : res store :=
  let* o := deref x st in
  match o with
  | None => Undef
  | Some (p, o) => let* b := f (object o) in set_object p b st
  end.

(** [data()[index] = v] through [operator[]] *)
Definition cow_set (x index v : Z) (st : store) : res store :=
  let* n := cow_size x st in
  let* _ := dcheck (index <? n) in
  let* _ := check x st in
  let* o := deref x st in
  match o with
  | None => Undef
  | Some (_, o) =>
      let* st := CloneDataIfReferenced x (capacity_ (object o)) st in
      on_object x (write_at index [Some v]) st
  end.

Definition cow_get (x index : Z) (st : store) : res Z :=
  let* n := cow_size x st in
  let* _ := dcheck (index <? n) in
  let* m := cdata x st in
  let* c := match m with Some m => of_mem (m !! Z.to_nat index) | None => Undef end in
  of_mem c.

Definition cow_SetData (x : Z) (d : list Z) (st : store) : res store :=
  let* _ := check x st in
  let* o := deref x st in
  let* st := match o with
             | None =>
                 if 0 <? Z.of_nat (length d) then
                   let* b := BufferT_data RTC_DCHECK_IS_ON max_alloc (Some <$> d) (Z.of_nat (length d)) in
                   assign_new x b st
                 else refptr_assign_raw x None st
             | Some (_, o) =>
                 if negb (HasOneRef (ref_count_ o)) then
                   let* b := BufferT_data RTC_DCHECK_IS_ON max_alloc (Some <$> d) (capacity_ (object o)) in
                   assign_new x b st
                 else on_object x (SetData RTC_DCHECK_IS_ON false max_alloc d) st
             end in
  let* _ := check x st in
  Val st.

(** [SetData(const CopyOnWriteBuffer&)] *)
Definition cow_SetData_from (x y : Z) (st : store) : res store := cow_assign x y st.

(** Without a buffer one is made even for no data. *)
Definition cow_AppendData (x : Z) (d : list Z) (st : store) : res store :=
  let* _ := check x st in
  let* o := deref x st in
  match o with
  | None =>
      let* b := BufferT_data RTC_DCHECK_IS_ON max_alloc (Some <$> d) (Z.of_nat (length d)) in
      let* st := assign_new x b st in
      let* _ := check x st in
      Val st
  | Some (_, o) =>
      let* st := CloneDataIfReferenced x
                   (Z.max (capacity_ (object o)) (u64 (size_ (object o) + Z.of_nat (length d)))) st in
      let* st := on_object x (AppendData RTC_DCHECK_IS_ON false max_alloc d) st in
      let* _ := check x st in
      Val st
  end.

(** [AppendData(const CopyOnWriteBuffer&)]: the pointer into [y] is read after
    [x] has grown, which is too late when growing frees the block of [y]. *)
Definition cow_AppendData_from (x y : Z) (st : store) : res store :=
  let* m := cdata y st in
  let* n := cow_size y st in
  let* cs := match m with Some m => of_mem (mread m 0 n) | None => Val [] end in
  let* d := of_mem (mapM id cs) in
  let* o := deref x st in
  match o with
  | Some (_, o) =>
      if (x =? y) && HasOneRef (ref_count_ o) && (capacity_ (object o) <? u64 (size_ (object o) + n)) then Undef
      else cow_AppendData x d st
  | None => cow_AppendData x d st
  end.

Definition cow_SetSize (x size : Z) (st : store) : res store :=
  let* _ := check x st in
  let* o := deref x st in
  match o with
  | None =>
      let* st := (if 0 <? size then let* b := BufferT_sized RTC_DCHECK_IS_ON max_alloc size size in assign_new x b st
                  else Val st) in
      let* _ := check x st in
      Val st
  | Some (_, o) =>
      let* st := (if negb (HasOneRef (ref_count_ o)) then
                    let* cs := read_at 0 (Z.min (size_ (object o)) size) (object o) in
                    let* b := BufferT_data RTC_DCHECK_IS_ON max_alloc cs (Z.max (capacity_ (object o)) size) in
                    assign_new x b st
                  else Val st) in
      let* st := on_object x (SetSize RTC_DCHECK_IS_ON false max_alloc size) st in
      let* _ := check x st in
      Val st
  end.

Definition cow_EnsureCapacity (x capacity : Z) (st : store) : res store :=
  let* _ := check x st in
  let* o := deref x st in
  match o with
  | None =>
      let* st := (if 0 <? capacity then let* b := BufferT_sized RTC_DCHECK_IS_ON max_alloc 0 capacity in assign_new x b st
                  else Val st) in
      let* _ := check x st in
      Val st
  | Some (_, o) =>
      if capacity <=? capacity_ (object o) then Val st
      else
        let* st := CloneDataIfReferenced x (Z.max (capacity_ (object o)) capacity) st in
        let* st := on_object x (EnsureCapacity RTC_DCHECK_IS_ON false max_alloc capacity) st in
        let* _ := check x st in
        Val st
  end.

Definition cow_Clear (x : Z) (st : store) : res store :=
  let* o := deref x st in
  match o with
  | None => Val st
  | Some (_, o) =>
      let* st := (if HasOneRef (ref_count_ o) then on_object x (Clear RTC_DCHECK_IS_ON false) st
                  else let* b := BufferT_sized RTC_DCHECK_IS_ON max_alloc 0 (capacity_ (object o)) in assign_new x b st) in
      let* _ := check x st in
      Val st
  end.

(** [std::swap(a.buffer_, b.buffer_)]: three moves through a temporary; [tmp']
    is the temporary of the assignments. *)
Definition cow_swap (tmp tmp' x y : Z) (st : store) : res store :=
  let* st := refptr_move tmp x st in
  let* st := refptr_move_assign tmp' x y st in
  let* st := refptr_move_assign tmp' y tmp st in
  refptr_delete tmp st.

Definition cow_eq (x y : Z) (st : store) : res bool :=
  let* _ := check x st in
  let* _ := check y st in
  let* p := ptr_ x st in
  let* q := ptr_ y st in
  if bool_decide (p = q) then Val true
  else
    let* a := deref x st in
    let* b := deref y st in
    match a, b with
    | Some (_, a), Some (_, b) => buffer_eq RTC_DCHECK_IS_ON (object a) (object b)
    | _, _ => Val false
    end.
End Cow.

(** ** Counting the holders of an object *)

Definition ind (v : option Z) (p : Z) : Z := if decide (v = Some p) then 1 else 0.
Definition refs (p : Z) (hs : gmap Z (option Z)) : Z := map_fold (λ _ v n, ind v p + n) 0 hs.

Lemma refs_insert_new p hs x v : hs !! x = None → refs p (<[x:=v]> hs) = ind v p + refs p hs.
Proof. intros Hx. unfold refs. rewrite map_fold_insert_L; [done| |done]. intros. lia. Qed.

Lemma refs_delete p hs x v : hs !! x = Some v → refs p hs = ind v p + refs p (delete x hs).
Proof. intros Hx. unfold refs. rewrite (map_fold_delete_L _ _ x v); [done| |done]. intros. lia. Qed.

Lemma refs_insert p hs x old v : hs !! x = Some old → refs p (<[x:=v]> hs) = refs p hs - ind old p + ind v p.
Proof.
  intros Hx. rewrite <- insert_delete_eq, refs_insert_new by apply lookup_delete_eq.
  rewrite (refs_delete p hs x old Hx). lia.
Qed.

Lemma refs_range p hs : 0 ≤ refs p hs ≤ Z.of_nat (base.size hs).
Proof.
  induction hs as [|x v hs Hx IH] using map_ind; [done|]. rewrite refs_insert_new, map_size_insert_None by done.
  unfold ind. destruct (decide _); lia.
Qed.

Lemma ind_self p : ind (Some p) p = 1.
Proof. unfold ind. by rewrite decide_True. Qed.

Lemma ind_other v p : v ≠ Some p → ind v p = 0.
Proof. intros. unfold ind. by rewrite decide_False. Qed.

Lemma refs_pos p hs x : hs !! x = Some (Some p) → 1 ≤ refs p hs.
Proof. intros Hx. rewrite (refs_delete p hs x _ Hx), ind_self. pose proof (refs_range p (delete x hs)). lia. Qed.

Lemma refs_one p hs x y : refs p hs = 1 → hs !! x = Some (Some p) → hs !! y = Some (Some p) → x = y.
Proof.
  intros H1 Hx Hy. destruct (decide (x = y)) as [|Hne]; [done|]. rewrite (refs_delete p hs x _ Hx), ind_self in H1.
  assert (1 ≤ refs p (delete x hs)) by (eapply (refs_pos p _ y); by rewrite lookup_delete_ne). lia.
Qed.

Lemma refs_none p hs : (∀ x, hs !! x ≠ Some (Some p)) → refs p hs = 0.
Proof.
  induction hs as [|x v hs Hx IH] using map_ind; intros Hn; [done|].
  rewrite refs_insert_new, ind_other, IH; [done| |specialize (Hn x); rewrite lookup_insert_eq in Hn; congruence|done].
  intros y Hy. apply (Hn y). rewrite lookup_insert_ne; [done|]. intros <-. congruence.
Qed.

(** ** The invariant of the store *)

Section CowTheory.
Context (RTC_DCHECK_IS_ON : bool) (max_alloc : Z).
Hypothesis max_alloc_ok : max_alloc ≤ 2 ^ 62.

(** The object at [r] has as many holders as its count says; an address
    without an object has none. *)
Definition counted_at (os : gmap Z RefCountedObject) (hs : gmap Z (option Z)) (r : Z) : Prop :=
  match os !! r with
  | Some o => ref_count_ o = refs r hs ∧ buf_ok (object o) ∧ 0 < capacity_ (object o) ≤ max_alloc
  | None => refs r hs = 0
  end.

(** Nothing dangles and, since every object has a holder, nothing leaks. *)
Definition inv (st : store) : Prop :=
  ∀ r, counted_at (objs st) (holders st) r ∧ (is_Some (objs st !! r) → 0 < refs r (holders st)).

(** Room for one more holder in the [int] counters. *)
Definition few (st : store) : Prop := Z.of_nat (base.size (holders st)) < INT_MAX.

(** What a buffer with the pointer [p] holds, and what each buffer holds. *)
Definition contents (os : gmap Z RefCountedObject) (p : option Z) : list cell :=
  match p with Some p => match os !! p with Some o => content (object o) | None => [] end | None => [] end.
Definition view (st : store) : gmap Z (list cell) := contents (objs st) <$> holders st.

Lemma IncRef_small c : 0 ≤ c < INT_MAX → IncRef c = c + 1.
Proof. intros. unfold IncRef. apply s32_small. unfold INT_MIN, INT_MAX in *. lia. Qed.

Lemma DecRef_small c : 0 < c ≤ INT_MAX → DecRef c = (if c =? 1 then kDroppedLastRef else kOtherRefsRemained, c - 1).
Proof.
  intros. unfold DecRef. rewrite s32_small by (unfold INT_MIN, INT_MAX in *; lia). f_equal.
  destruct (Z.eqb_spec (c - 1) 0), (Z.eqb_spec c 1); try done; lia.
Qed.

(** The effect of dropping one reference on the table of objects. *)
Definition dropped (p : Z) (o : RefCountedObject) (os : gmap Z RefCountedObject) : gmap Z RefCountedObject :=
  if ref_count_ o =? 1 then delete p os else <[p := RC (ref_count_ o - 1) (object o)]> os.

Lemma Release_spec p o st :
  objs st !! p = Some o → 0 < ref_count_ o ≤ INT_MAX →
  Release' p st = Val (Store (dropped p o (objs st)) (holders st)).
Proof.
  intros Ho Hc. unfold Release', Release. rewrite Ho. cbn [of_mem mbind_res]. rewrite DecRef_small by done. unfold dropped.
  by destruct (ref_count_ o =? 1).
Qed.

Lemma AddRef_spec p o st :
  objs st !! p = Some o → 0 ≤ ref_count_ o < INT_MAX →
  AddRef p st = Val (Store (<[p := RC (ref_count_ o + 1) (object o)]> (objs st)) (holders st)).
Proof. intros Ho Hc. unfold AddRef. rewrite Ho. cbn [of_mem mbind_res]. by rewrite IncRef_small. Qed.

Definition bumped (p : Z) (o : RefCountedObject) (os : gmap Z RefCountedObject) : gmap Z RefCountedObject :=
  <[p := RC (ref_count_ o + 1) (object o)]> os.

(** Taking a reference, by its effect at each address. *)
Lemma if_AddRef_spec p st :
  (∀ q, p = Some q → ∃ o, objs st !! q = Some o ∧ 0 ≤ ref_count_ o < INT_MAX) →
  ∃ os, if_some AddRef p st = Val (Store os (holders st)) ∧
    ∀ r, os !! r = (if decide (p = Some r) then (λ o, RC (ref_count_ o + 1) (object o)) <$> objs st !! r else objs st !! r).
Proof.
  intros Hp. destruct p as [p|]; [|by exists (objs st); destruct st]. destruct (Hp p eq_refl) as (o & Ho & Hc).
  exists (bumped p o (objs st)). split; [by apply AddRef_spec|]. intros r. unfold bumped.
  destruct (decide (Some p = Some r)) as [[= ->]|]; [by rewrite lookup_insert_eq, Ho|]. by rewrite lookup_insert_ne by congruence.
Qed.

Lemma if_Release_spec p st :
  (∀ q, p = Some q → ∃ o, objs st !! q = Some o ∧ 0 < ref_count_ o ≤ INT_MAX) →
  ∃ os, if_some Release' p st = Val (Store os (holders st)) ∧
    ∀ r, os !! r = (if decide (p = Some r)
                    then (o ← objs st !! r; if ref_count_ o =? 1 then None else Some (RC (ref_count_ o - 1) (object o)))
                    else objs st !! r).
Proof.
  intros Hp. destruct p as [p|]; [|by exists (objs st); destruct st]. destruct (Hp p eq_refl) as (o & Ho & Hc).
  exists (dropped p o (objs st)). split; [by apply Release_spec|]. intros r. unfold dropped.
  destruct (decide (Some p = Some r)) as [[= <-]|].
  - rewrite Ho. cbn. destruct (ref_count_ o =? 1); [apply lookup_delete_eq|apply lookup_insert_eq].
  - destruct (ref_count_ o =? 1); [apply lookup_delete_ne|apply lookup_insert_ne]; congruence.
Qed.

(** The counts are right but for [p], which may have no holder yet. *)
Definition almost (p : option Z) (st : store) : Prop :=
  ∀ r, counted_at (objs st) (holders st) r ∧ (is_Some (objs st !! r) → Some r ≠ p → 0 < refs r (holders st)).

(** Pointing [x] at [p] instead of at [old], whatever the aliasing between
    the two, is defined and leaves the other objects as they are. *)
Lemma assign_raw_step x old p st :
  almost p st → few st → holders st !! x = Some old → (∀ q, p = Some q → is_Some (objs st !! q)) →
  ∃ os, refptr_assign_raw x p st = Val (Store os (<[x:=p]> (holders st))) ∧
    ∀ r, match os !! r with
      | Some o => ref_count_ o = refs r (<[x:=p]> (holders st)) ∧ 0 < refs r (<[x:=p]> (holders st)) ∧
                  ∃ c, objs st !! r = Some (RC c (object o))
      | None => refs r (<[x:=p]> (holders st)) = 0
      end.
Proof.
  intros Hi Hf Hx Hp. unfold few in Hf.
  assert (∀ r, 0 ≤ refs r (holders st) < INT_MAX) as Hr by (intros r; pose proof (refs_range r (holders st)); lia).
  assert (∀ q o, objs st !! q = Some o → ref_count_ o = refs q (holders st)) as Hcnt.
  { intros q o Ho. destruct (Hi q) as [Hc _]. unfold counted_at in Hc. rewrite Ho in Hc. apply Hc. }
  destruct (if_AddRef_spec p st) as (os1 & E1 & H1).
  { intros q ->. destruct (Hp q eq_refl) as [o Ho]. exists o. by rewrite (Hcnt q o Ho). }
  destruct (if_Release_spec old (Store os1 (holders st))) as (os2 & E2 & H2).
  { intros q ->. cbn [objs]. rewrite H1. pose proof (refs_pos q _ x Hx). specialize (Hr q).
    destruct (objs st !! q) as [o|] eqn:Ho; [|destruct (Hi q) as [Hc _]; unfold counted_at in Hc; rewrite Ho in Hc; lia].
    pose proof (Hcnt q o Ho). destruct (decide _); eexists; (split; [done|]); cbn [ref_count_]; lia. }
  unfold refptr_assign_raw. rewrite E1. cbn [mbind_res]. unfold ptr_. cbn [holders]. rewrite Hx. cbn [of_mem mbind_res].
  rewrite E2. cbn [mbind_res]. exists os2. split; [done|]. intros r. cbn [objs] in H2.
  rewrite H2, H1, (refs_insert _ _ _ _ _ Hx). destruct (Hi r) as [Hc Hpos]. unfold counted_at in Hc. specialize (Hr r).
  destruct (objs st !! r) as [[c b]|] eqn:Ho; cbn in Hc |- *; unfold ind.
  - destruct Hc as (-> & _). specialize (Hpos ltac:(done)).
    destruct (decide (old = Some r)) as [->|], (decide (p = Some r)) as [->|]; cbn;
      try (specialize (Hpos ltac:(congruence))); repeat case_match; reflect_Z; simplify_eq/=;
      try (split_and!; [lia|lia|eauto]); try lia.
  - destruct (decide (old = Some r)) as [->|]; [pose proof (refs_pos r _ x Hx); lia|].
    destruct (decide (p = Some r)) as [->|]; [by destruct (Hp r eq_refl) as [? ?]; simplify_eq|]. cbn. lia.
Qed.

Lemma assign_raw_spec x old p st :
  almost p st → few st → holders st !! x = Some old → (∀ q, p = Some q → is_Some (objs st !! q)) →
  ∃ os, refptr_assign_raw x p st = Val (Store os (<[x:=p]> (holders st))) ∧ inv (Store os (<[x:=p]> (holders st))) ∧
    (∀ r o, os !! r = Some o → ∃ c, objs st !! r = Some (RC c (object o))).
Proof.
  intros Hi Hf Hx Hp. destruct (assign_raw_step x old p st Hi Hf Hx Hp) as (os & E & Hall).
  exists os. split; [done|]. split.
  - intros r. specialize (Hall r). unfold counted_at. cbn [objs holders]. destruct (os !! r) as [o|].
    + destruct Hall as (Ha & Hb & c & Ho). destruct (Hi r) as [Hc _]. unfold counted_at in Hc. rewrite Ho in Hc. by destruct Hc.
    + split; [done|]. by intros [? ?].
  - intros r o Ho. specialize (Hall r). rewrite Ho in Hall. by destruct Hall as (_ & _ & ?).
Qed.

Lemma inv_live st x p : inv st → holders st !! x = Some (Some p) → is_Some (objs st !! p).
Proof.
  intros Hi Hx. destruct (Hi p) as [Hc _]. unfold counted_at in Hc. destruct (objs st !! p); [done|].
  pose proof (refs_pos p _ x Hx). lia.
Qed.

(** The contents seen through the holders depend only on the objects. *)
Lemma view_same os0 os hs :
  inv (Store os hs) → (∀ r o, os !! r = Some o → ∃ c, os0 !! r = Some (RC c (object o))) →
  contents os <$> hs = contents os0 <$> hs.
Proof.
  intros Hi Ho. apply map_eq. intros y. rewrite !lookup_fmap. destruct (hs !! y) as [[r|]|] eqn:Hy; cbn; try done.
  destruct (inv_live (Store os hs) y r Hi Hy) as [o Hr]. cbn [objs] in Hr. destruct (Ho r o Hr) as [c Hr0].
  by rewrite Hr, Hr0.
Qed.

Lemma assign_raw_view x old p st :
  inv st → few st → holders st !! x = Some old → (∀ q, p = Some q → is_Some (objs st !! q)) →
  ∃ st', refptr_assign_raw x p st = Val st' ∧ inv st' ∧ holders st' = <[x:=p]> (holders st) ∧
    view st' = <[x := contents (objs st) p]> (view st).
Proof.
  intros Hi Hf Hx Hp. destruct (assign_raw_spec x old p st) as (os & E & Hi' & Ho); [|done|done|done|].
  { intros r. destruct (Hi r). split; auto. }
  eexists. split; [done|]. split; [done|]. split; [done|]. unfold view. cbn [objs holders].
  rewrite (view_same (objs st) os _ Hi' Ho). apply fmap_insert.
Qed.

Lemma assign_new_view x old b st :
  inv st → few st → holders st !! x = Some old → buf_ok b → 0 < capacity_ b ≤ max_alloc →
  ∃ st' p, assign_new x b st = Val st' ∧ inv st' ∧ holders st' = <[x:=Some p]> (holders st) ∧
    objs st' !! p = Some (RC 1 b) ∧ view st' = <[x := content b]> (view st).
Proof.
  intros Hi Hf Hx Hb Hc. unfold assign_new. set (p := fresh _).
  assert (objs st !! p = None) as Hp by (apply not_elem_of_dom, is_fresh).
  assert (∀ y, holders st !! y ≠ Some (Some p)) as Hnone.
  { intros y Hy. destruct (inv_live st y p Hi Hy). congruence. }
  set (st0 := Store _ _). destruct (assign_raw_spec x old (Some p) st0) as (os & E & Hi' & Ho); [|done|done| |].
  { intros r. destruct (Hi r) as [Hr Hpos]. unfold counted_at, st0 in *. cbn [objs holders].
    destruct (decide (r = p)) as [->|Hne].
    - rewrite lookup_insert_eq. cbn [ref_count_ object]. split; [|done]. by rewrite refs_none.
    - rewrite lookup_insert_ne by done. split; [done|]. intros. by apply Hpos. }
  { intros q [= <-]. unfold st0. cbn [objs]. by rewrite lookup_insert_eq. }
  change (holders st0) with (holders st) in *.
  exists (Store os (<[x:=Some p]> (holders st))), p. split; [done|]. split; [done|]. split; [done|].
  assert (os !! p = Some (RC 1 b)) as Hop.
  { destruct (inv_live (Store os (<[x:=Some p]> (holders st))) x p Hi') as [o Hop]; [apply lookup_insert_eq|].
    cbn [objs] in Hop. destruct (Ho p o Hop) as [c Hc0]. unfold st0 in Hc0. cbn [objs] in Hc0. rewrite lookup_insert_eq in Hc0.
    destruct (Hi' p) as [Hcnt _]. unfold counted_at in Hcnt. cbn [objs holders] in Hcnt. rewrite Hop in Hcnt.
    destruct Hcnt as [Hcnt _]. rewrite (refs_insert _ _ _ _ _ Hx), ind_self, refs_none, ind_other in Hcnt; [|congruence|done].
    rewrite Hop. destruct o as [c' b']. simpl in *. by simplify_eq. }
  split; [done|]. unfold view. cbn [objs holders]. rewrite (view_same (objs st0) os _ Hi' Ho), fmap_insert.
  unfold st0 at 1. cbn [contents objs]. rewrite lookup_insert_eq. cbn [object]. f_equal.
  apply map_eq. intros y. rewrite !lookup_fmap. destruct (holders st !! y) as [[r|]|] eqn:Hy; cbn; try done.
  rewrite lookup_insert_ne; [done|]. intros <-. by apply (Hnone y).
Qed.

(** A change of holders that keeps all counts. *)
Lemma inv_holders st hs : inv st → (∀ r, refs r hs = refs r (holders st)) → inv (Store (objs st) hs).
Proof. intros Hi Hr r. destruct (Hi r) as [Hc Hp]. unfold counted_at in *. cbn [objs holders]. by rewrite Hr. Qed.

Lemma view_set_ptr x p st : view (set_ptr x p st) = <[x := contents (objs st) p]> (view st).
Proof. unfold view, set_ptr. cbn [objs holders]. apply fmap_insert. Qed.

Lemma refs_None r hs x : hs !! x = None → refs r (<[x:=None]> hs) = refs r hs.
Proof. intros Hx. by rewrite refs_insert_new, ind_other. Qed.

Lemma cow_new_spec x st :
  inv st → holders st !! x = None → inv (cow_new x st) ∧ view (cow_new x st) = <[x:=[]]> (view st).
Proof.
  intros Hi Hx. split; [|apply view_set_ptr]. apply (inv_holders st); [done|]. intros r. by apply refs_None.
Qed.

(** Constructing from a pointer is assigning it to an empty holder. *)
Lemma refptr_raw_assign x p st : refptr_raw x p st = refptr_assign_raw x p (set_ptr x None st).
Proof.
  unfold refptr_raw, refptr_assign_raw, set_ptr, ptr_. destruct p as [p|]; cbn [if_some].
  - unfold AddRef. cbn [objs holders]. destruct (of_mem (objs st !! p)); cbn [mbind_res objs holders]; [|done..].
    rewrite lookup_insert_eq. cbn [of_mem mbind_res if_some objs holders]. by rewrite insert_insert_eq.
  - cbn [mbind_res objs holders]. rewrite lookup_insert_eq. cbn [of_mem mbind_res if_some objs holders]. by rewrite insert_insert_eq.
Qed.

Lemma cow_copy_spec x y p st :
  inv st → few (set_ptr x None st) → holders st !! x = None → holders st !! y = Some p →
  ∃ st', cow_copy x y st = Val st' ∧ inv st' ∧ view st' = <[x := contents (objs st) p]> (view st).
Proof.
  intros Hi Hf Hx Hy. unfold cow_copy, refptr_copy, ptr_. rewrite Hy. cbn [of_mem mbind_res]. rewrite refptr_raw_assign.
  destruct (cow_new_spec x st Hi Hx) as [Hi0 Hv0]. change (cow_new x st) with (set_ptr x None st) in *.
  destruct (assign_raw_view x None p (set_ptr x None st)) as (st' & E & Hi' & _ & Hv'); [done|done|apply lookup_insert_eq| |].
  { intros q ->. by apply (inv_live st y q). }
  exists st'. split_and!; [done|done|]. rewrite Hv', Hv0, insert_insert_eq. done.
Qed.

Lemma refs_move r hs x y p :
  hs !! x = None → hs !! y = Some p → refs r (<[x:=p]> (<[y:=None]> hs)) = refs r hs.
Proof.
  intros Hx Hy. assert (x ≠ y) as Hne by congruence.
  rewrite refs_insert_new, (refs_insert _ _ _ _ _ Hy) by by rewrite lookup_insert_ne.
  rewrite (ind_other None) by done. lia.
Qed.

Lemma cow_move_spec x y p st :
  inv st → holders st !! x = None → holders st !! y = Some p →
  ∃ st', cow_move x y st = Val st' ∧ inv st' ∧ view st' = <[x := contents (objs st) p]> (<[y:=[]]> (view st)) ∧
    holders st' = <[x:=p]> (<[y:=None]> (holders st)) ∧ objs st' = objs st.
Proof.
  intros Hi Hx Hy. unfold cow_move, refptr_move, release, ptr_. rewrite Hy. cbn [of_mem mbind_res].
  eexists. split; [done|]. split; [|split; [|done]].
  - apply (inv_holders st); [done|]. intros r. by apply refs_move.
  - by rewrite !view_set_ptr.
Qed.

Lemma cow_delete_spec x p st :
  inv st → few st → holders st !! x = Some p →
  ∃ st', cow_delete x st = Val st' ∧ inv st' ∧ view st' = delete x (view st) ∧ holders st' = delete x (holders st).
Proof.
  intros Hi Hf Hx. destruct (assign_raw_view x p None st) as (st1 & E1 & Hi1 & Hh1 & Hv1); [done|done|done|done|].
  unfold refptr_assign_raw in E1. change (if_some AddRef None st) with (Val st) in E1. cbn [mbind_res] in E1.
  unfold cow_delete, refptr_delete.
  unfold ptr_ in *. rewrite Hx in *. cbn [of_mem mbind_res] in *. destruct (if_some Release' p st) as [st2| | |]; try done.
  cbn [mbind_res] in *. assert (st1 = set_ptr x None st2) as -> by congruence.
  cbn [set_ptr objs holders] in Hh1.
  assert (delete x (holders st2) = delete x (holders st)) as Hd.
  { apply (f_equal (delete x)) in Hh1. by rewrite !delete_insert_eq in Hh1. }
  eexists. split; [done|]. split; [|split; [|done]].
  - apply (inv_holders (set_ptr x None st2)); [done|]. intros r. cbn [set_ptr holders].
    rewrite (refs_delete r (<[x:=None]> (holders st2)) x None) by apply lookup_insert_eq.
    rewrite delete_insert_eq, ind_other by done. lia.
  - rewrite view_set_ptr in Hv1. apply (f_equal (delete x)) in Hv1. rewrite !delete_insert_eq in Hv1.
    rewrite <- Hv1. unfold view. apply fmap_delete.
Qed.

Lemma refs_swap r hs x y p q :
  x ≠ y → hs !! x = Some p → hs !! y = Some q → refs r (<[y:=p]> (<[x:=q]> hs)) = refs r hs.
Proof.
  intros Hne Hx Hy. rewrite (refs_insert _ _ _ q), (refs_insert _ _ _ _ _ Hx); [lia|]. by rewrite lookup_insert_ne.
Qed.

Lemma refptr_swap_spec x y p q st :
  inv st → holders st !! x = Some p → holders st !! y = Some q →
  ∃ st', refptr_swap x y st = Val st' ∧ inv st' ∧
    view st' = <[y := contents (objs st) p]> (<[x := contents (objs st) q]> (view st)) ∧
    holders st' = <[y:=p]> (<[x:=q]> (holders st)) ∧ objs st' = objs st.
Proof.
  intros Hi Hx Hy. unfold refptr_swap, ptr_. rewrite Hx, Hy. cbn [of_mem mbind_res].
  eexists. split; [done|]. split; [|split; [|done]].
  - apply (inv_holders st); [done|]. intros r. cbn [set_ptr objs holders].
    destruct (decide (x = y)) as [->|Hne]; [|by apply refs_swap]. simplify_eq. by rewrite insert_insert_eq, insert_id.
  - by rewrite !view_set_ptr.
Qed.

Lemma set_ptr_set_ptr x p q st : set_ptr x p (set_ptr x q st) = set_ptr x p st.
Proof. unfold set_ptr. cbn. by rewrite insert_insert_eq. Qed.

(** ** The operations by what each buffer holds *)



Lemma view_lookup x st : view st !! x = contents (objs st) <$> holders st !! x.
Proof. apply lookup_fmap. Qed.

Lemma view_dom x st : view st !! x = None ↔ holders st !! x = None.
Proof. rewrite view_lookup. by destruct (holders st !! x). Qed.

Lemma view_live x ys st : view st !! x = Some ys → ∃ p, holders st !! x = Some p ∧ ys = contents (objs st) p.
Proof. rewrite view_lookup. intros (p & -> & ->)%fmap_Some. eauto. Qed.

(** [few] in terms of the views. *)
Definition room (n : Z) (v : gmap Z (list cell)) : Prop := Z.of_nat (base.size v) + n < INT_MAX.

Lemma room_few n st : 0 ≤ n → room n (view st) → few st.
Proof. unfold room, few, view. rewrite map_size_fmap. lia. Qed.

(** A buffer without an object, or with one. *)
Lemma inv_cases x ys st :
  inv st → view st !! x = Some ys →
  check RTC_DCHECK_IS_ON x st = Val () ∧
  ((holders st !! x = Some None ∧ deref x st = Val None ∧ ys = []) ∨
   (∃ p o, holders st !! x = Some (Some p) ∧ objs st !! p = Some o ∧ deref x st = Val (Some (p, o)) ∧
      ys = content (object o) ∧ buf_ok (object o) ∧ 0 < capacity_ (object o) ≤ max_alloc ∧
      ref_count_ o = refs p (holders st))).
Proof.
  intros Hi (p & Hx & ->)%view_live. unfold check, cow_consistent, deref, ptr_. rewrite Hx. cbn [of_mem mbind_res].
  destruct p as [p|]; cbn [of_mem mbind_res]; [|split; [by destruct RTC_DCHECK_IS_ON|by left]].
  destruct (inv_live st x p Hi Hx) as [o Ho]. destruct (Hi p) as [Hc _]. unfold counted_at in Hc. rewrite Ho in Hc.
  destruct Hc as (Hr & Hb & Hc). rewrite Ho. cbn [of_mem mbind_res]. unfold Buffer.capacity.
  rewrite ok_consistent, dcheck_true by done. cbn [mbind_res]. rewrite (proj2 (Z.ltb_lt 0 _)) by lia.
  split; [by destruct RTC_DCHECK_IS_ON|]. right. exists p, o. cbn [contents]. rewrite Ho. destruct Hc. by split_and!.
Qed.

(** [x] is the only holder of an object with the buffer [b]. *)
Definition owns (x : Z) (b : BufferT) (st : store) : Prop :=
  ∃ p, holders st !! x = Some (Some p) ∧ objs st !! p = Some (RC 1 b).

Lemma owns_one x p o st : holders st !! x = Some (Some p) → objs st !! p = Some o → HasOneRef (ref_count_ o) = true → owns x (object o) st.
Proof. intros Hx Ho Hc%Z.eqb_eq. exists p. destruct o as [c b]. simpl in *. by subst. Qed.

Lemma owns_view x b st : inv st → owns x b st → view st !! x = Some (content b) ∧ buf_ok b ∧ 0 < capacity_ b ≤ max_alloc.
Proof.
  intros Hi (p & Hx & Hp). rewrite view_lookup, Hx. cbn. rewrite Hp. split; [done|]. destruct (Hi p) as [Hc _].
  unfold counted_at in Hc. rewrite Hp in Hc. by destruct Hc as (_ & ? & ?).
Qed.

(** Changing the object of its only holder is seen by nobody else. *)
Lemma on_object_view x f b b' st :
  inv st → owns x b st → f b = Val b' → buf_ok b' → 0 < capacity_ b' ≤ max_alloc →
  ∃ st', on_object x f st = Val st' ∧ inv st' ∧ view st' = <[x := content b']> (view st).
Proof.
  intros Hi (p & Hx & Hp) Hf Hb' Hc'. unfold on_object, deref, ptr_, set_object. rewrite Hx. cbn [of_mem mbind_res].
  rewrite Hp. cbn [of_mem mbind_res object ref_count_]. rewrite Hf. cbn [mbind_res]. rewrite Hp. cbn [of_mem mbind_res]. eexists. split; [done|].
  destruct (Hi p) as [Hc _]. unfold counted_at in Hc. rewrite Hp in Hc. destruct Hc as (H1 & _). cbn [ref_count_] in H1.
  split.
  - intros r. destruct (Hi r) as [Hr Hpos]. unfold counted_at in *. cbn [objs holders].
    destruct (decide (p = r)) as [<-|Hne]; [|by rewrite lookup_insert_ne by done].
    rewrite lookup_insert_eq. cbn [ref_count_ object]. by rewrite <- H1.
  - unfold view. cbn [objs holders]. apply map_eq. intros y. destruct (decide (x = y)) as [<-|Hne].
    + rewrite lookup_insert_eq, lookup_fmap, Hx. cbn. by rewrite lookup_insert_eq.
    + rewrite lookup_insert_ne by done. rewrite !lookup_fmap. destruct (holders st !! y) as [[r|]|] eqn:Hy; cbn; try done.
      rewrite lookup_insert_ne; [done|]. intros <-. apply Hne. by eapply (refs_one p (holders st)).
Qed.

Lemma copy_view x y ys st :
  inv st → room 2 (view st) → view st !! x = None → view st !! y = Some ys →
  ∃ st', refptr_copy x y st = Val st' ∧ inv st' ∧ view st' = <[x:=ys]> (view st).
Proof.
  intros Hi Hr Hx%view_dom (p & Hy & ->)%view_live. apply cow_copy_spec; [done| |done|done].
  unfold few, set_ptr. cbn [holders]. rewrite map_size_insert_None by done. unfold room, view in Hr.
  rewrite map_size_fmap in Hr. lia.
Qed.

Lemma move_view x y ys st :
  inv st → view st !! x = None → view st !! y = Some ys →
  ∃ st', refptr_move x y st = Val st' ∧ inv st' ∧ view st' = <[x:=ys]> (<[y:=[]]> (view st)).
Proof.
  intros Hi Hx%view_dom (p & Hy & ->)%view_live.
  destruct (cow_move_spec x y p st Hi Hx Hy) as (st' & E & Hi' & Hv & _). eauto.
Qed.

Lemma delete_view x ys st :
  inv st → room 0 (view st) → view st !! x = Some ys →
  ∃ st', refptr_delete x st = Val st' ∧ inv st' ∧ view st' = delete x (view st).
Proof.
  intros Hi Hr (p & Hx & ->)%view_live.
  destruct (cow_delete_spec x p st Hi (room_few 0 st ltac:(lia) Hr) Hx) as (st' & E & Hi' & Hv & _). eauto.
Qed.

Lemma swap_view x y xs ys st :
  inv st → view st !! x = Some xs → view st !! y = Some ys →
  ∃ st', refptr_swap x y st = Val st' ∧ inv st' ∧ view st' = <[y:=xs]> (<[x:=ys]> (view st)).
Proof.
  intros Hi (p & Hx & ->)%view_live (q & Hy & ->)%view_live.
  destruct (refptr_swap_spec x y p q st Hi Hx Hy) as (st' & E & Hi' & Hv & _). eauto.
Qed.

Lemma assign_view x y xs ys st :
  inv st → room 0 (view st) → view st !! x = Some xs → view st !! y = Some ys →
  ∃ st', refptr_assign x y st = Val st' ∧ inv st' ∧ view st' = <[x:=ys]> (view st).
Proof.
  intros Hi Hr (p & Hx & ->)%view_live (q & Hy & ->)%view_live. unfold refptr_assign, ptr_. rewrite Hy.
  cbn [of_mem mbind_res]. destruct (assign_raw_view x p q st Hi (room_few 0 st ltac:(lia) Hr) Hx) as (st' & E & Hi' & _ & Hv).
  { intros r ->. by apply (inv_live st y r). }
  eauto.
Qed.

Lemma room_insert n x ys zs v : room n v → v !! x = Some ys → room n (<[x:=zs]> v).
Proof. intros Hr Hx. unfold room. by rewrite map_size_insert_Some. Qed.

Lemma room_insert_new n m x zs v : room n v → m + 1 ≤ n → room m (<[x:=zs]> v).
Proof.
  unfold room. intros Hr Hm. rewrite map_size_insert. destruct (v !! x); simpl; lia.
Qed.

Lemma move_assign_view tmp x y xs ys st :
  inv st → room 1 (view st) → view st !! tmp = None → view st !! x = Some xs → view st !! y = Some ys →
  ∃ st', refptr_move_assign tmp x y st = Val st' ∧ inv st' ∧ view st' = <[x:=ys]> (<[y:=[]]> (view st)).
Proof.
  intros Hi Hr Ht Hx Hy. assert (tmp ≠ x ∧ tmp ≠ y) as [Htx Hty] by (split; congruence). unfold refptr_move_assign.
  destruct (move_view tmp y ys st Hi Ht Hy) as (s1 & -> & Hi1 & Hv1). cbn [mbind_res].
  assert (∃ zs, view s1 !! x = Some zs) as [zs Hx1].
  { rewrite Hv1, lookup_insert_ne by done. destruct (decide (y = x)) as [->|]; [|by exists xs; rewrite lookup_insert_ne].
    exists []. apply lookup_insert_eq. }
  assert (view s1 !! tmp = Some ys) as Ht1 by (rewrite Hv1; apply lookup_insert_eq).
  destruct (swap_view tmp x ys zs s1 Hi1 Ht1 Hx1) as (s2 & -> & Hi2 & Hv2). cbn [mbind_res].
  destruct (delete_view tmp zs s2) as (s3 & -> & Hi3 & Hv3); [done| | |].
  - rewrite Hv2. apply (room_insert 0 x zs); [|by rewrite lookup_insert_ne]. apply (room_insert 0 tmp ys); [|done].
    rewrite Hv1. eapply room_insert_new; [by eapply room_insert|]. lia.
  - rewrite Hv2, lookup_insert_ne by done. apply lookup_insert_eq.
  - exists s3. split; [done|]. split; [done|]. rewrite Hv3, Hv2, Hv1, insert_insert_eq, delete_insert_ne by done.
    f_equal. rewrite delete_insert_eq, delete_id; [done|]. by rewrite lookup_insert_ne.
Qed.

Lemma std_swap_view tmp tmp' x y xs ys st :
  inv st → room 2 (view st) → view st !! tmp = None → view st !! tmp' = None → tmp ≠ tmp' →
  view st !! x = Some xs → view st !! y = Some ys →
  ∃ st', cow_swap tmp tmp' x y st = Val st' ∧ inv st' ∧ view st' = <[y:=xs]> (<[x:=ys]> (view st)).
Proof.
  intros Hi Hr Ht Ht' Hne Hx Hy. assert (tmp ≠ x ∧ tmp ≠ y ∧ tmp' ≠ x ∧ tmp' ≠ y) as (Htx & Hty & Htx' & Hty') by (split_and!; congruence).
  unfold cow_swap. destruct (move_view tmp x xs st Hi Ht Hx) as (s1 & -> & Hi1 & Hv1). cbn [mbind_res].
  set (zs := if decide (x = y) then [] else ys).
  assert (view s1 !! y = Some zs) as Hy1.
  { rewrite Hv1, lookup_insert_ne by done. subst zs. destruct (decide (x = y)) as [->|]; [apply lookup_insert_eq|by rewrite lookup_insert_ne]. }
  assert (room 1 (view s1)) as Hr1 by (rewrite Hv1; eapply room_insert_new; [by eapply room_insert|lia]).
  assert (view s1 !! x = Some []) as Hx1 by (rewrite Hv1, lookup_insert_ne by done; apply lookup_insert_eq).
  destruct (move_assign_view tmp' x y [] zs s1 Hi1 Hr1) as (s2 & -> & Hi2 & Hv2); [by rewrite Hv1, !lookup_insert_ne|done|done|].
  cbn [mbind_res]. assert (view s2 !! tmp = Some xs) as Ht2 by (rewrite Hv2, !lookup_insert_ne, Hv1 by done; apply lookup_insert_eq).
  assert (∃ ws, view s2 !! y = Some ws) as [ws Hy2].
  { rewrite Hv2. destruct (decide (x = y)) as [->|]; [eexists; apply lookup_insert_eq|rewrite lookup_insert_ne by done; eexists; apply lookup_insert_eq]. }
  assert (room 1 (view s2)) as Hr2.
  { rewrite Hv2. eapply room_insert; [by eapply room_insert|]. destruct (decide (y = x)) as [->|]; [apply lookup_insert_eq|by rewrite lookup_insert_ne]. }
  destruct (move_assign_view tmp' y tmp ws xs s2 Hi2 Hr2) as (s3 & -> & Hi3 & Hv3); [by rewrite Hv2, !lookup_insert_ne, Hv1, !lookup_insert_ne|done|done|].
  cbn [mbind_res]. destruct (delete_view tmp [] s3 Hi3) as (s4 & -> & Hi4 & Hv4).
  { rewrite Hv3. eapply room_insert; [|by rewrite lookup_insert_ne]. eapply room_insert; [|done]. unfold room in *. lia. }
  { rewrite Hv3, lookup_insert_ne by done. apply lookup_insert_eq. }
  exists s4. split; [done|]. split; [done|]. rewrite Hv4, Hv3, Hv2, Hv1. apply map_eq. intros k. subst zs.
  destruct (decide (k = tmp)) as [->|]; [rewrite lookup_delete_eq, !lookup_insert_ne by done; done|].
  rewrite lookup_delete_ne by done. destruct (decide (k = y)) as [->|]; [by rewrite !lookup_insert_eq|].
  rewrite (lookup_insert_ne _ y), (lookup_insert_ne _ tmp), (lookup_insert_ne (<[x:=ys]> (view st)) y) by done.
  destruct (decide (k = x)) as [->|]; [rewrite !lookup_insert_eq; by destruct (decide (x = y))|]. by rewrite !lookup_insert_ne.
Qed.

Lemma new_view x xs b st :
  inv st → room 0 (view st) → view st !! x = Some xs → buf_ok b → 0 < capacity_ b ≤ max_alloc →
  ∃ st', assign_new x b st = Val st' ∧ inv st' ∧ owns x b st' ∧ view st' = <[x := content b]> (view st).
Proof.
  intros Hi Hr (p & Hx & ->)%view_live Hb Hc.
  destruct (assign_new_view x p b st Hi (room_few 0 st ltac:(lia) Hr) Hx Hb Hc) as (st' & q & E & Hi' & Hh & Ho & Hv).
  exists st'. split_and!; try done. exists q. by rewrite Hh, lookup_insert_eq.
Qed.

(** A new object in a buffer under construction. *)
Lemma construct_view x b st :
  inv st → room 1 (view st) → view st !! x = None → buf_ok b → 0 < capacity_ b ≤ max_alloc →
  ∃ st', construct_new x b st = Val st' ∧ inv st' ∧ owns x b st' ∧ view st' = <[x := content b]> (view st).
Proof.
  intros Hi Hr Hx Hb Hc. unfold construct_new. rewrite refptr_raw_assign.
  change (set_ptr x None (Store ?os (holders st))) with (Store os (holders (set_ptr x None st))).
  change (objs st) with (objs (set_ptr x None st)).
  destruct (cow_new_spec x st Hi ltac:(by apply view_dom)) as [Hi0 Hv0]. change (cow_new x st) with (set_ptr x None st) in *.
  destruct (new_view x [] b (set_ptr x None st)) as (st' & E & Hi' & Ho & Hv); try done.
  - rewrite Hv0. eapply room_insert_new; [done|lia].
  - rewrite Hv0. apply lookup_insert_eq.
  - exists st'. split_and!; try done. by rewrite Hv, Hv0, insert_insert_eq.
Qed.

(** After cloning the buffer owns its object and shows the same bytes. *)
Lemma clone_view x p o cap st :
  inv st → room 0 (view st) → holders st !! x = Some (Some p) → objs st !! p = Some o →
  capacity_ (object o) ≤ cap ≤ max_alloc →
  ∃ st' b, CloneDataIfReferenced RTC_DCHECK_IS_ON max_alloc x cap st = Val st' ∧ inv st' ∧ owns x b st' ∧
    content b = content (object o) ∧ view st' = view st.
Proof.
  intros Hi Hr Hx Ho Hcap. assert (view st !! x = Some (content (object o))) as Hv by (rewrite view_lookup, Hx; cbn; by rewrite Ho).
  destruct (inv_cases x _ st Hi Hv) as [_ [(? & _)|(p' & o' & Hx' & Ho' & Hd & _ & Hb & Hc & _)]]; [congruence|].
  assert (p' = p ∧ o' = o) as [-> ->] by (split; congruence). clear Hx' Ho'.
  unfold CloneDataIfReferenced. rewrite Hd. cbn [mbind_res]. destruct (HasOneRef _) eqn:E1.
  { exists st, (object o). split_and!; try done. by eapply owns_one. }
  pose proof (ok_size _ Hb). rewrite read_at_spec by (done || lia). cbn [mbind_res]. rewrite drop_0. fold (content (object o)).
  pose proof (length_content _ Hb).
  destruct (BufferT_data_spec RTC_DCHECK_IS_ON max_alloc max_alloc_ok (content (object o)) cap) as (b & -> & Hb' & Ec & Hcb); [lia|].
  cbn [mbind_res]. destruct (new_view x _ b st Hi Hr Hv Hb') as (st' & -> & Hi' & Ho' & Hv'); [lia|]. cbn [mbind_res].
  assert (view st' = view st) as Hvv by by rewrite Hv', Ec, insert_id.
  rewrite <- Hvv in Hv. destruct (inv_cases x _ st' Hi' Hv) as [-> _]. cbn [mbind_res]. by exists st', b.
Qed.

(** An operation of the buffer class on the object [x] owns. *)
Lemma on_buf_op x b o f st :
  (∀ b, f b = buf_apply RTC_DCHECK_IS_ON false max_alloc o b) → inv st → owns x b st → op_args_ok o → 2 * (Z.of_nat (length (content b)) + op_room o) ≤ max_alloc →
  ∃ st' ys, on_object x f st = Val st' ∧ inv st' ∧
    check RTC_DCHECK_IS_ON x st' = Val () ∧ abs_apply o (content b) ys ∧ view st' = <[x:=ys]> (view st).
Proof.
  intros Hf Hi Ho Ha Hm. destruct (owns_view x b st Hi Ho) as (Hv & Hb & Hc).
  destruct (buf_apply_spec RTC_DCHECK_IS_ON false max_alloc max_alloc_ok o b Hb Ha) as (b' & E & Hb' & _ & Habs & _).
  { rewrite (length_content b Hb) in Hm. pose proof (ok_size b Hb). lia. }
  pose proof (buf_apply_cap _ _ _ o b b' E ltac:(lia)).
  destruct (on_object_view x f b b' st Hi Ho ltac:(by rewrite Hf) Hb' ltac:(lia)) as (st' & E' & Hi' & Hv').
  exists st', (content b'). split_and!; try done.
  destruct (inv_cases x (content b') st' Hi') as [? _]; [|done]. rewrite Hv'. apply lookup_insert_eq.
Qed.

Lemma check_insert x ys st v : inv st → view st = <[x:=ys]> v → check RTC_DCHECK_IS_ON x st = Val ().
Proof. intros Hi Hv. destruct (inv_cases x ys st Hi) as [? _]; [|done]. rewrite Hv. apply lookup_insert_eq. Qed.

(** A new object built from [cs], with the check that follows. *)
Lemma new_data_view x xs cs cap st :
  inv st → room 0 (view st) → view st !! x = Some xs → 0 < Z.max (Z.of_nat (length cs)) cap ≤ max_alloc →
  ∃ st' b, (let* b := BufferT_data RTC_DCHECK_IS_ON max_alloc cs cap in assign_new x b st) = Val st' ∧ inv st' ∧
    check RTC_DCHECK_IS_ON x st' = Val () ∧ owns x b st' ∧ content b = cs ∧ view st' = <[x:=cs]> (view st).
Proof.
  intros Hi Hr Hx Hm.
  destruct (BufferT_data_spec RTC_DCHECK_IS_ON max_alloc max_alloc_ok cs cap) as (b & -> & Hb & Ec & Hc); [lia|]. cbn [mbind_res].
  destruct (new_view x xs b st Hi Hr Hx Hb) as (st' & -> & Hi' & Ho & Hv); [lia|]. exists st', b. rewrite <- Ec.
  split_and!; try done. by eapply check_insert.
Qed.

Lemma new_sized_view x xs n cap st :
  inv st → room 0 (view st) → view st !! x = Some xs → 0 ≤ n → 0 < Z.max n cap ≤ max_alloc →
  ∃ st' ys, (let* b := BufferT_sized RTC_DCHECK_IS_ON max_alloc n cap in assign_new x b st) = Val st' ∧ inv st' ∧
    check RTC_DCHECK_IS_ON x st' = Val () ∧ length ys = Z.to_nat n ∧ view st' = <[x:=ys]> (view st).
Proof.
  intros Hi Hr Hx Hn Hm.
  destruct (BufferT_sized_spec RTC_DCHECK_IS_ON max_alloc max_alloc_ok n cap) as (b & -> & Hb & Es & Hc); [lia|lia|]. cbn [mbind_res].
  destruct (new_view x xs b st Hi Hr Hx Hb) as (st' & -> & Hi' & Ho & Hv); [lia|]. exists st', (content b).
  split_and!; try done; [by eapply check_insert|]. by rewrite length_content, Es.
Qed.

(** [SetData], [AppendData], [SetSize], [EnsureCapacity] and [Clear]; the
    sizes leave room for the growth by half. *)
Lemma SetData_view x xs d st :
  inv st → room 0 (view st) → view st !! x = Some xs → 2 * (Z.of_nat (length xs) + Z.of_nat (length d)) ≤ max_alloc →
  ∃ st', cow_SetData RTC_DCHECK_IS_ON max_alloc x d st = Val st' ∧ inv st' ∧ view st' = <[x := Some <$> d]> (view st).
Proof.
  intros Hi Hr Hx Hd. unfold cow_SetData.
  destruct (inv_cases x xs st Hi Hx) as [-> [(Hp & -> & ->)|(p & o & Hp & Ho & -> & -> & Hb & Hc & _)]]; cbn [mbind_res].
  - destruct (Z.ltb_spec 0 (Z.of_nat (length d))).
    + destruct (new_data_view x [] (Some <$> d) (Z.of_nat (length d)) st) as (st' & b & E & Hi' & Hk & _ & _ & Hv);
        [done|done|done|rewrite length_fmap; lia|]. rewrite E. cbn [mbind_res]. rewrite Hk. by exists st'.
    + destruct d; [|simpl in *; lia]. destruct (assign_raw_view x None None st Hi) as (st' & E & Hi' & _ & Hv);
        [by apply (room_few 0)|done|done|]. rewrite E. cbn [mbind_res]. rewrite (check_insert _ _ _ _ Hi' Hv). by exists st'.
  - destruct (HasOneRef _) eqn:E1; cbn [negb].
    + destruct (on_buf_op x (object o) (OSet d) (SetData RTC_DCHECK_IS_ON false max_alloc d) st ltac:(done) Hi ltac:(by eapply owns_one)) as (st' & ys & E & Hi' & Hk & -> & Hv); [done|done|].
      rewrite E. cbn [mbind_res]. rewrite Hk. by exists st'.
    + destruct (new_data_view x _ (Some <$> d) (capacity_ (object o)) st Hi Hr Hx) as (st' & b & E & Hi' & Hk & _ & _ & Hv);
        [rewrite length_fmap; lia|]. rewrite E. cbn [mbind_res]. rewrite Hk. by exists st'.
Qed.

(** Cloning and then operating on the owned object. *)
Lemma clone_then x p o cap op f st :
  (∀ b, f b = buf_apply RTC_DCHECK_IS_ON false max_alloc op b) → inv st → room 0 (view st) → holders st !! x = Some (Some p) → objs st !! p = Some o →
  capacity_ (object o) ≤ cap ≤ max_alloc → op_args_ok op →
  2 * (Z.of_nat (length (content (object o))) + op_room op) ≤ max_alloc →
  ∃ st' ys, (let* st := CloneDataIfReferenced RTC_DCHECK_IS_ON max_alloc x cap st in
     let* st := on_object x f st in
     let* _ := check RTC_DCHECK_IS_ON x st in Val st) = Val st' ∧ inv st' ∧
    abs_apply op (content (object o)) ys ∧ view st' = <[x:=ys]> (view st).
Proof.
  intros Hf Hi Hr Hx Ho Hc Ha Hm. destruct (clone_view x p o cap st Hi Hr Hx Ho Hc) as (s1 & b & -> & Hi1 & Ho1 & Ec & Hv1).
  rewrite <- Ec in Hm |- *. rewrite <- Hv1.
  cbn [mbind_res]. destruct (on_buf_op x b op f s1 Hf Hi1 Ho1 Ha Hm) as (st' & ys & -> & Hi' & Hk & Habs & Hv'). cbn [mbind_res].
  rewrite Hk. by exists st', ys.
Qed.

Lemma AppendData_view x xs d st :
  inv st → room 0 (view st) → view st !! x = Some xs → xs ++ (Some <$> d) ≠ [] →
  2 * (Z.of_nat (length xs) + Z.of_nat (length d)) ≤ max_alloc →
  ∃ st', cow_AppendData RTC_DCHECK_IS_ON max_alloc x d st = Val st' ∧ inv st' ∧
    view st' = <[x := xs ++ (Some <$> d)]> (view st).
Proof.
  intros Hi Hr Hx Hne Hd. unfold cow_AppendData.
  destruct (inv_cases x xs st Hi Hx) as [-> [(Hp & -> & ->)|(p & o & Hp & Ho & -> & -> & Hb & Hc & _)]]; cbn [mbind_res].
  - assert (0 < Z.of_nat (length d)) by (destruct d; simpl in *; [done|lia]).
    destruct (new_data_view x [] (Some <$> d) (Z.of_nat (length d)) st) as (st' & b & E & Hi' & Hk & _ & _ & Hv);
      [done|done|done|rewrite length_fmap; lia|].
    destruct (BufferT_data _ _ _ _); cbn [mbind_res] in *; try done. rewrite E. cbn [mbind_res]. rewrite Hk. by exists st'.
  - pose proof (ok_size _ Hb). rewrite (length_content _ Hb) in Hd. rewrite u64_small by lia.
    destruct (clone_then x p o (Z.max (capacity_ (object o)) (size_ (object o) + Z.of_nat (length d))) (OAppend d) (AppendData RTC_DCHECK_IS_ON false max_alloc d) st ltac:(done) Hi Hr Hp Ho)
      as (st' & ys & E & Hi' & -> & Hv); [lia|done|rewrite (length_content _ Hb); cbn [op_room]; lia|].
    rewrite E. by exists st'.
Qed.

Lemma EnsureCapacity_view x xs n st :
  inv st → room 0 (view st) → view st !! x = Some xs → 0 ≤ n → 2 * (Z.of_nat (length xs) + n) ≤ max_alloc →
  ∃ st', cow_EnsureCapacity RTC_DCHECK_IS_ON max_alloc x n st = Val st' ∧ inv st' ∧ view st' = view st.
Proof.
  intros Hi Hr Hx Hn Hd. unfold cow_EnsureCapacity.
  destruct (inv_cases x xs st Hi Hx) as [Hk0 [(Hp & -> & ->)|(p & o & Hp & Ho & -> & -> & Hb & Hc & _)]]; rewrite Hk0; cbn [mbind_res].
  - destruct (Z.ltb_spec 0 n); [|cbn [mbind_res]; rewrite Hk0; by exists st].
    destruct (new_sized_view x [] 0 n st) as (st' & ys & E & Hi' & Hk & Hl & Hv); [done|done|done|lia|lia|].
    destruct (BufferT_sized _ _ _ _); cbn [mbind_res] in *; try done. rewrite E. cbn [mbind_res]. rewrite Hk. exists st'.
    split_and!; try done. destruct ys; [|done]. by rewrite Hv, insert_id.
  - destruct (Z.leb_spec n (capacity_ (object o))); [by exists st|].
    destruct (clone_then x p o (Z.max (capacity_ (object o)) n) (OEnsure n) (EnsureCapacity RTC_DCHECK_IS_ON false max_alloc n) st ltac:(done) Hi Hr Hp Ho)
      as (st' & ys & E & Hi' & -> & Hv); [lia|done|done|].
    rewrite E. exists st'. split_and!; try done. by rewrite Hv, insert_id.
Qed.

Lemma Clear_view x xs st :
  inv st → room 0 (view st) → view st !! x = Some xs → 2 * Z.of_nat (length xs) ≤ max_alloc →
  ∃ st', cow_Clear RTC_DCHECK_IS_ON max_alloc x st = Val st' ∧ inv st' ∧ view st' = <[x:=[]]> (view st).
Proof.
  intros Hi Hr Hx Hm. unfold cow_Clear.
  destruct (inv_cases x xs st Hi Hx) as [_ [(Hp & -> & ->)|(p & o & Hp & Ho & -> & -> & Hb & Hc & _)]]; cbn [mbind_res].
  - exists st. split_and!; try done. by rewrite insert_id.
  - destruct (HasOneRef _) eqn:E1.
    + destruct (on_buf_op x (object o) OClear (Clear RTC_DCHECK_IS_ON false) st ltac:(done) Hi ltac:(by eapply owns_one)) as (st' & ys & E & Hi' & Hk & -> & Hv);
        [done|cbn [op_room]; lia|]. rewrite E. cbn [mbind_res]. rewrite Hk. by exists st'.
    + destruct (new_sized_view x _ 0 (capacity_ (object o)) st Hi Hr Hx) as (st' & ys & E & Hi' & Hk & Hl & Hv); [lia|lia|].
      destruct (BufferT_sized _ _ _ _); cbn [mbind_res] in *; try done. rewrite E. cbn [mbind_res]. rewrite Hk. exists st'.
      by destruct ys.
Qed.

Lemma SetSize_view x xs n st :
  inv st → room 0 (view st) → view st !! x = Some xs → 0 ≤ n → 2 * (Z.of_nat (length xs) + n) ≤ max_alloc →
  ∃ st' ys, cow_SetSize RTC_DCHECK_IS_ON max_alloc x n st = Val st' ∧ inv st' ∧
    abs_apply (OSetSize n) xs ys ∧ view st' = <[x:=ys]> (view st).
Proof.
  intros Hi Hr Hx Hn Hd. unfold cow_SetSize.
  destruct (inv_cases x xs st Hi Hx) as [Hk0 [(Hp & -> & ->)|(p & o & Hp & Ho & -> & -> & Hb & Hc & _)]]; rewrite Hk0; cbn [mbind_res].
  - destruct (Z.ltb_spec 0 n).
    + destruct (new_sized_view x [] n n st) as (st' & ys & E & Hi' & Hk & Hl & Hv); [done|done|done|lia|lia|].
      destruct (BufferT_sized _ _ _ _); cbn [mbind_res] in *; try done. rewrite E. cbn [mbind_res]. rewrite Hk. exists st', ys.
      split_and!; try done. split; [done|]. exists ys. by rewrite take_nil.
    + cbn [mbind_res]. rewrite Hk0. exists st, []. split_and!; [done|done| |by rewrite insert_id].
      replace n with 0 by lia. split; [done|]. by exists [].
  - pose proof (ok_size _ Hb). pose proof (length_content _ Hb) as Hlc. destruct (HasOneRef _) eqn:E1; cbn [negb mbind_res].
    + destruct (on_buf_op x (object o) (OSetSize n) (SetSize RTC_DCHECK_IS_ON false max_alloc n) st ltac:(done) Hi ltac:(by eapply owns_one)) as (st' & ys & E & Hi' & Hk & Habs & Hv);
        [done|done|]. rewrite E. cbn [mbind_res]. rewrite Hk. by exists st', ys.
    + rewrite read_at_spec by (done || lia). cbn [mbind_res]. rewrite drop_0.
      assert (take (Z.to_nat (Z.min (size_ (object o)) n)) (block (object o)) = take (Z.to_nat n) (content (object o))) as ->.
      { unfold content. rewrite take_take. f_equal. lia. }
      set (cs := take _ _). destruct (new_data_view x _ cs (Z.max (capacity_ (object o)) n) st Hi Hr Hx) as (s1 & b & E & Hi1 & Hk1 & Ho1 & Ec & Hv1).
      { subst cs. rewrite length_take. lia. }
      destruct (BufferT_data _ _ _ _); cbn [mbind_res] in E |- *; try done. rewrite E. cbn [mbind_res].
      destruct (on_buf_op x b (OSetSize n) (SetSize RTC_DCHECK_IS_ON false max_alloc n) s1 ltac:(done) Hi1 Ho1) as (st' & ys & E2 & Hi' & Hk & Habs & Hv); [done| |].
      { rewrite Ec. subst cs. rewrite length_take. cbn [op_room]. lia. }
      rewrite E2. cbn [mbind_res]. rewrite Hk. exists st', ys. split_and!; try done.
      * destruct Habs as (Hl & zs & ->). split; [done|]. exists zs. rewrite Ec. subst cs. by rewrite take_take, Nat.min_id.
      * by rewrite Hv, Hv1, insert_insert_eq.
Qed.

Lemma size_view x xs st : inv st → view st !! x = Some xs → cow_size RTC_DCHECK_IS_ON x st = Val (Z.of_nat (length xs)).
Proof.
  intros Hi Hx. unfold cow_size.
  destruct (inv_cases x xs st Hi Hx) as [-> [(Hp & -> & ->)|(p & o & Hp & Ho & -> & -> & Hb & Hc & _)]]; cbn [mbind_res]; [done|].
  unfold Buffer.size. rewrite ok_consistent, dcheck_true, length_content by done. cbn [mbind_res]. f_equal.
  pose proof (ok_size _ Hb). lia.
Qed.

Lemma set_view x xs i c st :
  inv st → room 0 (view st) → view st !! x = Some xs → 0 ≤ i < Z.of_nat (length xs) →
  ∃ st', cow_set RTC_DCHECK_IS_ON max_alloc x i c st = Val st' ∧ inv st' ∧
    view st' = <[x := <[Z.to_nat i := Some c]> xs]> (view st).
Proof.
  intros Hi Hr Hx Hb. unfold cow_set. rewrite (size_view x xs st Hi Hx). cbn [mbind_res].
  rewrite (proj2 (Z.ltb_lt i _)), dcheck_true by lia. cbn [mbind_res].
  destruct (inv_cases x xs st Hi Hx) as [-> [(Hp & -> & ->)|(p & o & Hp & Ho & -> & -> & Hb' & Hc & _)]]; cbn [mbind_res]; [simpl in Hb; lia|].
  destruct (clone_view x p o (capacity_ (object o)) st Hi Hr Hp Ho) as (s1 & b & -> & Hi1 & Ho1 & Ec & Hv1); [lia|]. cbn [mbind_res].
  destruct (owns_view x b s1 Hi1 Ho1) as (_ & Hb1 & Hc1). rewrite <- Ec, (length_content b Hb1) in Hb.
  destruct (set_spec RTC_DCHECK_IS_ON i c b Hb1) as (b' & Es & Hb2 & Hc2 & Ec2); [lia|].
  unfold Buffer.set in Es. apply bind_Val in Es as (? & _ & (? & _ & Es)%bind_Val).
  destruct (on_object_view x _ b b' s1 Hi1 Ho1 Es Hb2) as (st' & E & Hi' & Hv); [lia|]. exists st'.
  split_and!; try done. by rewrite Hv, Hv1, Ec2, Ec.
Qed.

Lemma sized_view x n cap st :
  inv st → room 1 (view st) → view st !! x = None → 0 ≤ n → Z.max n cap ≤ max_alloc →
  ∃ st' ys, cow_sized RTC_DCHECK_IS_ON max_alloc x n cap st = Val st' ∧ inv st' ∧ length ys = Z.to_nat n ∧
    view st' = <[x:=ys]> (view st) ∧
    (holders st' !! x = Some None ∧ n = 0 ∨ ∃ b, owns x b st' ∧ content b = ys).
Proof.
  intros Hi Hr Hx Hn Hm. unfold cow_sized. destruct ((0 <? n) || (0 <? cap)) eqn:E; reflect_Z.
  - destruct (BufferT_sized_spec RTC_DCHECK_IS_ON max_alloc max_alloc_ok n cap) as (b & -> & Hb & Es & Hc); [lia|lia|]. cbn [mbind_res].
    destruct (construct_view x b st Hi Hr Hx Hb) as (st' & -> & Hi' & Ho & Hv); [lia|]. cbn [mbind_res].
    rewrite (check_insert _ _ _ _ Hi' Hv). exists st', (content b). split_and!; [done|done|by rewrite length_content, Es|done|eauto].
  - destruct (cow_new_spec x st Hi ltac:(by apply view_dom)) as [Hi0 Hv0]. change (refptr_raw x None st) with (Val (cow_new x st)).
    cbn [mbind_res]. rewrite (check_insert _ _ _ _ Hi0 Hv0). exists (cow_new x st), [].
    split_and!; [done|done|cbn [length]; lia|done|]. left. split; [apply lookup_insert_eq|lia].
Qed.

Lemma data_view x d cap st :
  inv st → room 1 (view st) → view st !! x = None → Z.max (Z.of_nat (length d)) cap ≤ max_alloc →
  ∃ st', cow_data RTC_DCHECK_IS_ON max_alloc x d cap st = Val st' ∧ inv st' ∧ view st' = <[x := Some <$> d]> (view st).
Proof.
  intros Hi Hr Hx Hm. unfold cow_data.
  destruct (sized_view x (Z.of_nat (length d)) cap st) as (s1 & ys & -> & Hi1 & Hl & Hv & Hc); [done|done|done|lia|done|]. cbn [mbind_res].
  destruct Hc as [[Hn Hd]|(b & Ho & Ec)].
  - unfold deref, ptr_. rewrite Hn. exists s1. split_and!; try done. destruct d; [|simpl in Hd; lia]. by destruct ys.
  - destruct (owns_view x b s1 Hi1 Ho) as (_ & Hb & Hcap). pose proof (length_content b Hb) as Hlb. pose proof (ok_size b Hb).
    destruct (write_at_spec 0 (Some <$> d) b) as (b' & E & Hb' & (Es & Ecap & _) & Hbl); [done|lia|rewrite length_fmap; rewrite Ec in Hlb; lia|].
    destruct (on_object_view x (write_at 0 (Some <$> d)) b b' s1 Hi1 Ho E Hb' ltac:(lia)) as (st' & E' & Hi' & Hv').
    exists st'. unfold on_object in E'. split_and!; [by destruct (deref x s1) as [[[]|]| | |]|done|].
    rewrite Hv', Hv, insert_insert_eq. f_equal. unfold content. rewrite Hbl, Es.
    assert (Z.to_nat (size_ b) = length (Some <$> d)) as -> by (rewrite length_fmap; rewrite Ec in Hlb; lia).
    apply (take_splice (block b) 0). lia.
Qed.

Lemma cow_assign_view x y xs ys st :
  inv st → room 0 (view st) → view st !! x = Some xs → view st !! y = Some ys →
  ∃ st', cow_assign RTC_DCHECK_IS_ON x y st = Val st' ∧ inv st' ∧ view st' = <[x:=ys]> (view st).
Proof.
  intros Hi Hr Hx Hy. unfold cow_assign. destruct (inv_cases x xs st Hi Hx) as [-> _], (inv_cases y ys st Hi Hy) as [-> _].
  cbn [mbind_res]. destruct (Z.eqb_spec x y) as [->|Hne]; cbn [negb]; [|by eapply assign_view].
  exists st. split_and!; try done. by rewrite insert_id.
Qed.

Lemma cow_move_assign_view tmp x y xs ys st :
  inv st → room 1 (view st) → view st !! tmp = None → view st !! x = Some xs → view st !! y = Some ys →
  ∃ st', cow_move_assign RTC_DCHECK_IS_ON tmp x y st = Val st' ∧ inv st' ∧ view st' = <[x:=ys]> (<[y:=[]]> (view st)).
Proof.
  intros Hi Hr Ht Hx Hy. unfold cow_move_assign.
  destruct (inv_cases x xs st Hi Hx) as [-> _], (inv_cases y ys st Hi Hy) as [-> _]. by eapply move_assign_view.
Qed.

(** Reading does not look past the bytes of the buffer. *)
Lemma get_view x xs i c st :
  inv st → view st !! x = Some xs → 0 ≤ i → xs !! Z.to_nat i = Some (Some c) → cow_get RTC_DCHECK_IS_ON x i st = Val c.
Proof.
  intros Hi Hx Hi0 Hc. unfold cow_get. rewrite (size_view x xs st Hi Hx). cbn [mbind_res]. pose proof (lookup_lt_Some _ _ _ Hc).
  rewrite (proj2 (Z.ltb_lt i _)), dcheck_true by lia. cbn [mbind_res]. unfold cdata.
  destruct (inv_cases x xs st Hi Hx) as [-> [(Hp & -> & ->)|(p & o & Hp & Ho & -> & -> & Hb & Hcap & _)]]; cbn [mbind_res]; [done|].
  unfold Buffer.data. rewrite ok_consistent, dcheck_true by done. cbn [mbind_res]. unfold content, block in Hc.
  destruct (data_ (object o)) as [m|]; simpl in Hc; [|by rewrite take_nil in Hc].
  apply lookup_take_Some in Hc as [-> _]. done.
Qed.

Lemma cdata_view x xs st :
  inv st → view st !! x = Some xs →
  ∃ m, cdata RTC_DCHECK_IS_ON x st = Val m ∧
    (match m with Some m => of_mem (mread m 0 (Z.of_nat (length xs))) | None => Val [] end) = Val xs.
Proof.
  intros Hi Hx. unfold cdata.
  destruct (inv_cases x xs st Hi Hx) as [-> [(Hp & -> & ->)|(p & o & Hp & Ho & -> & -> & Hb & Hcap & _)]]; cbn [mbind_res].
  { by exists None. }
  unfold Buffer.data. rewrite ok_consistent, dcheck_true by done. cbn [mbind_res]. exists (data_ (object o)). split; [done|].
  pose proof (ok_size _ Hb). rewrite (length_content _ Hb), Z2Nat.id by lia.
  pose proof (read_at_spec 0 (size_ (object o)) (object o) Hb ltac:(lia) ltac:(lia) ltac:(lia)) as Hrd.
  rewrite drop_0 in Hrd. unfold read_at in Hrd. fold (content (object o)) in Hrd. destruct (data_ (object o)) eqn:Ed; [done|].
  destruct Hb as [_ Hbl]. rewrite Ed in Hbl. lia.
Qed.

Lemma AppendData_from_view x y xs d st :
  inv st → room 0 (view st) → x ≠ y → view st !! x = Some xs → view st !! y = Some (Some <$> d) → xs ++ (Some <$> d) ≠ [] →
  2 * (Z.of_nat (length xs) + Z.of_nat (length d)) ≤ max_alloc →
  ∃ st', cow_AppendData_from RTC_DCHECK_IS_ON max_alloc x y st = Val st' ∧ inv st' ∧
    view st' = <[x := xs ++ (Some <$> d)]> (view st).
Proof.
  intros Hi Hr Hne Hx Hy Hd Hm. unfold cow_AppendData_from. destruct (cdata_view y _ st Hi Hy) as (m & -> & Hrd). cbn [mbind_res].
  rewrite (size_view y _ st Hi Hy). cbn [mbind_res]. rewrite Hrd. cbn [mbind_res].
  assert (mapM id (Some <$> d) = Some d) as ->.
  { clear. induction d as [|z d IH]; [done|]. change (Some <$> z :: d) with (Some z :: (Some <$> d)). cbn. by rewrite IH. }
  cbn [of_mem mbind_res]. destruct (AppendData_view x xs d st Hi Hr Hx Hd Hm) as (st' & E & Hi' & Hv). exists st'.
  rewrite (proj2 (Z.eqb_neq x y)) by done. cbn [andb]. split_and!; try done.
  destruct (inv_cases x xs st Hi Hx) as [_ [(_ & -> & _)|(p & o & _ & _ & -> & _)]]; done.
Qed.

(** ** Programs on buffers *)

Inductive cow_op :=
  | CNew (x : Z) | CSized (x n cap : Z) | CData (x : Z) (d : list Z) (cap : Z)
  | CCopy (x y : Z) | CMove (x y : Z) | CDelete (x : Z)
  | CAssign (x y : Z) | CMoveAssign (x y : Z) | CSwap (x y : Z)
  | CSetByte (x i c : Z) | CSetData (x : Z) (d : list Z) | CSetDataFrom (x y : Z)
  | CAppend (x : Z) (d : list Z) | CAppendFrom (x y : Z)
  | CSetSize (x n : Z) | CEnsure (x n : Z) | CClear (x : Z).

(** Temporaries get addresses nobody uses. *)
Definition tmp_of (st : store) : Z := fresh (dom (holders st)).
Definition tmp_of' (st : store) : Z := fresh ({[tmp_of st]} ∪ dom (holders st)).

Definition cow_apply (o : cow_op) (st : store) : res store :=
  match o with
  | CNew x => Val (cow_new x st)
  | CSized x n cap => cow_sized RTC_DCHECK_IS_ON max_alloc x n cap st
  | CData x d cap => cow_data RTC_DCHECK_IS_ON max_alloc x d cap st
  | CCopy x y => cow_copy x y st
  | CMove x y => cow_move x y st
  | CDelete x => cow_delete x st
  | CAssign x y => cow_assign RTC_DCHECK_IS_ON x y st
  | CMoveAssign x y => cow_move_assign RTC_DCHECK_IS_ON (tmp_of st) x y st
  | CSwap x y => cow_swap (tmp_of st) (tmp_of' st) x y st
  | CSetByte x i c => cow_set RTC_DCHECK_IS_ON max_alloc x i c st
  | CSetData x d => cow_SetData RTC_DCHECK_IS_ON max_alloc x d st
  | CSetDataFrom x y => cow_SetData_from RTC_DCHECK_IS_ON x y st
  | CAppend x d => cow_AppendData RTC_DCHECK_IS_ON max_alloc x d st
  | CAppendFrom x y => cow_AppendData_from RTC_DCHECK_IS_ON max_alloc x y st
  | CSetSize x n => cow_SetSize RTC_DCHECK_IS_ON max_alloc x n st
  | CEnsure x n => cow_EnsureCapacity RTC_DCHECK_IS_ON max_alloc x n st
  | CClear x => cow_Clear RTC_DCHECK_IS_ON max_alloc x st
  end.

Fixpoint cow_run (os : list cow_op) (st : store) : res store :=
  match os with [] => Val st | o :: os => let* st := cow_apply o st in cow_run os st end.

(** The same program on independent byte sequences, one per variable. *)
Definition vars : Type := gmap Z (list cell).

Definition val_apply (o : cow_op) (v v' : vars) : Prop :=
  match o with
  | CNew x => v' = <[x:=[]]> v
  | CSized x n _ => ∃ ys, length ys = Z.to_nat n ∧ v' = <[x:=ys]> v
  | CData x d _ | CSetData x d => v' = <[x := Some <$> d]> v
  | CCopy x y | CAssign x y | CSetDataFrom x y => ∃ ys, v !! y = Some ys ∧ v' = <[x:=ys]> v
  | CMove x y | CMoveAssign x y => ∃ ys, v !! y = Some ys ∧ v' = <[x:=ys]> (<[y:=[]]> v)
  | CDelete x => v' = delete x v
  | CSwap x y => ∃ xs ys, v !! x = Some xs ∧ v !! y = Some ys ∧ v' = <[y:=xs]> (<[x:=ys]> v)
  | CSetByte x i c => ∃ xs, v !! x = Some xs ∧ v' = <[x := <[Z.to_nat i := Some c]> xs]> v
  | CAppend x d => ∃ xs, v !! x = Some xs ∧ v' = <[x := xs ++ (Some <$> d)]> v
  | CAppendFrom x y => ∃ xs ys, v !! x = Some xs ∧ v !! y = Some ys ∧ v' = <[x := xs ++ ys]> v
  | CSetSize x n => ∃ xs ys, v !! x = Some xs ∧ abs_apply (OSetSize n) xs ys ∧ v' = <[x:=ys]> v
  | CEnsure _ _ => v' = v
  | CClear x => v' = <[x:=[]]> v
  end.

(** What a program must respect: construct what does not exist, use what
    exists, stay within the memory; and what the code does not survive, a buffer
    appended to itself and nothing appended to an empty buffer. *)
Definition val_pre (o : cow_op) (v : vars) : Prop :=
  room 2 v ∧
  match o with
  | CNew x => v !! x = None
  | CSized x n cap => v !! x = None ∧ 0 ≤ n ∧ Z.max n cap ≤ max_alloc
  | CData x d cap => v !! x = None ∧ Z.max (Z.of_nat (length d)) cap ≤ max_alloc
  | CCopy x y | CMove x y => v !! x = None ∧ is_Some (v !! y)
  | CDelete x => is_Some (v !! x)
  | CAssign x y | CMoveAssign x y | CSwap x y | CSetDataFrom x y => is_Some (v !! x) ∧ is_Some (v !! y)
  | CSetByte x i _ => ∃ xs, v !! x = Some xs ∧ 0 ≤ i < Z.of_nat (length xs)
  | CSetData x d => ∃ xs, v !! x = Some xs ∧ 2 * (Z.of_nat (length xs) + Z.of_nat (length d)) ≤ max_alloc
  | CAppend x d => ∃ xs, v !! x = Some xs ∧ xs ++ (Some <$> d) ≠ [] ∧
      2 * (Z.of_nat (length xs) + Z.of_nat (length d)) ≤ max_alloc
  | CAppendFrom x y => x ≠ y ∧ ∃ xs d, v !! x = Some xs ∧ v !! y = Some (Some <$> d) ∧ xs ++ (Some <$> d) ≠ [] ∧
      2 * (Z.of_nat (length xs) + Z.of_nat (length d)) ≤ max_alloc
  | CSetSize x n | CEnsure x n => 0 ≤ n ∧ ∃ xs, v !! x = Some xs ∧ 2 * (Z.of_nat (length xs) + n) ≤ max_alloc
  | CClear x => ∃ xs, v !! x = Some xs ∧ 2 * Z.of_nat (length xs) ≤ max_alloc
  end.

Fixpoint val_run (os : list cow_op) (v v' : vars) : Prop :=
  match os with [] => v' = v | o :: os => ∃ w, val_apply o v w ∧ val_run os w v' end.

Fixpoint val_ok (os : list cow_op) (v : vars) : Prop :=
  match os with [] => True | o :: os => val_pre o v ∧ ∀ w, val_apply o v w → val_ok os w end.

Lemma tmp_fresh st : view st !! tmp_of st = None ∧ view st !! tmp_of' st = None ∧ tmp_of st ≠ tmp_of' st.
Proof.
  pose proof (is_fresh (dom (holders st))) as H1. pose proof (is_fresh ({[tmp_of st]} ∪ dom (holders st))) as H2.
  fold (tmp_of st) in H1. fold (tmp_of' st) in H2. apply not_elem_of_union in H2 as [H2 H3].
  split_and!; [by apply view_dom, not_elem_of_dom|by apply view_dom, not_elem_of_dom|set_solver].
Qed.

Lemma room_le n m v : n ≤ m → room m v → room n v.
Proof. unfold room. lia. Qed.

(** The simulation of an operation from its view lemma. *)
Local Ltac sim lem :=
  let st' := fresh "st'" in let Hv := fresh "Hv" in
  edestruct lem as (st' & ? & ? & Hv); [first [eassumption|lia]..|];
  exists st'; rewrite Hv; split_and!; [eassumption|eassumption|eauto 7].

Lemma cow_apply_sim o st :
  inv st → val_pre o (view st) → ∃ st', cow_apply o st = Val st' ∧ inv st' ∧ val_apply o (view st) (view st').
Proof.
  intros Hi [Hr Hp]. assert (room 0 (view st)) as Hr0 by (eapply room_le; [|exact Hr]; lia).
  assert (room 1 (view st)) as Hr1 by (eapply room_le; [|exact Hr]; lia). destruct (tmp_fresh st) as (Ht & Ht' & Hne).
  destruct o; cbn [cow_apply val_apply] in *; 
    repeat match goal with
    | H : is_Some (_ !! _) |- _ => destruct H as [? H]
    | H : _ ∧ _ |- _ => destruct H
    | H : ∃ _, _ |- _ => let xs := fresh "xs" in destruct H as [xs H]
    end.
  - destruct (cow_new_spec x st Hi) as [Hi' Hv]; [by apply view_dom|]. eauto.
  - destruct (sized_view x n cap st) as (st' & ys & ? & ? & ? & ? & _); eauto 7.
  - sim (data_view x d cap).
  - sim (copy_view x y).
  - sim (move_view x y).
  - sim (delete_view x).
  - sim (cow_assign_view x y).
  - sim (cow_move_assign_view (tmp_of st) x y).
  - sim (std_swap_view (tmp_of st) (tmp_of' st) x y).
  - sim (set_view x xs i c).
  - sim (SetData_view x xs d).
  - sim (cow_assign_view x y).
  - sim (AppendData_view x xs d).
  - sim (AppendData_from_view x y).
  - destruct (SetSize_view x xs n st) as (st' & ys & ? & ? & ? & ?); eauto 10.
  - sim (EnsureCapacity_view x xs n).
  - sim (Clear_view x).
Qed.

Lemma cow_run_sim os : ∀ st,
  inv st → val_ok os (view st) → ∃ st', cow_run os st = Val st' ∧ inv st' ∧ val_run os (view st) (view st').
Proof.
  induction os as [|o os IH]; intros st Hi Hok; [by exists st|]. destruct Hok as [Hp Hok].
  destruct (cow_apply_sim o st Hi Hp) as (s1 & E1 & Hi1 & Ha). destruct (IH s1 Hi1 (Hok _ Ha)) as (st' & E & Hi' & Hrun).
  exists st'. cbn [cow_run val_run]. rewrite E1. by split_and!; [|done|exists (view s1)].
Qed.

Lemma inv_empty : inv (Store ∅ ∅).
Proof. intros r. unfold counted_at. cbn [objs holders]. rewrite lookup_empty. split; [done|]. by intros [? ?]. Qed.

(** ** Properties *)

(** C33: copy-on-write is invisible: a program of constructions, copies, moves,
    swaps, writes, resizes and destructions of [CopyOnWriteBuffer]s runs without
    touching a freed object or failing a check, and every buffer holds what it
    holds when each variable owns its bytes; when the last buffer is destroyed no
    object is left. The program keeps to [val_pre]: it constructs what does not
    exist and uses what exists, writes bytes within the size, stays within the
    memory and the range of the reference count, appends another buffer only when
    all its bytes were written, never appends a buffer to itself (which reads a
    freed block, [self_append_undefined]) and never appends nothing to an empty
    buffer (which fails a check, [empty_append_inconsistent]). *)
Theorem cow_value_semantics os :
  val_ok os ∅ →
  ∃ st, cow_run os (Store ∅ ∅) = Val st ∧ val_run os ∅ (view st) ∧ (holders st = ∅ → objs st = ∅).
Proof.
  intros Hok. destruct (cow_run_sim os (Store ∅ ∅) inv_empty Hok) as (st & E & Hi & Hr).
  exists st. split_and!; [done|done|]. intros Hh. apply map_empty. intros r. destruct (Hi r) as [_ Hp]. rewrite Hh in Hp.
  destruct (objs st !! r); [|done]. specialize (Hp ltac:(done)). done.
Qed.
End CowTheory.

(** ** Witnesses *)

Definition demo_cow : list cow_op :=
  [CData 1 [10; 20; 30] 8; CCopy 2 1; CSetByte 2 0 99; CNew 3; CAssign 3 1; CAppend 3 [40]; CSwap 1 2;
   CDelete 1; CDelete 2; CDelete 3].

Local Ltac demo_step :=
  split; [split; [reflexivity|vm_compute; repeat (eexists || split || reflexivity || congruence)]|];
  let w := fresh "w" in let Hw := fresh "Hw" in intros w Hw; cbn [val_apply] in Hw;
  repeat match type of Hw with
  | ∃ _, _ => let xs := fresh in destruct Hw as [xs Hw]
  | _ ∧ _ => let H := fresh in destruct Hw as [H Hw]; vm_compute in H; injection H as <-
  end; subst w.

Lemma demo_cow_ok : val_ok 1000 demo_cow ∅.
Proof. unfold demo_cow. cbn [val_ok]. do 10 demo_step. exact I. Qed.

Lemma cow_value_semantics_witness :
  ∃ st, cow_run true 1000 demo_cow (Store ∅ ∅) = Val st ∧ val_run demo_cow ∅ (view st) ∧ (holders st = ∅ → objs st = ∅).
Proof. apply (cow_value_semantics true 1000 ltac:(lia) demo_cow). exact demo_cow_ok. Defined.

Example demo_cow_result :
  (let* st := cow_run true 1000 (take 7 demo_cow) (Store ∅ ∅) in Val (view st !! 1, view st !! 2, view st !! 3)) =
  Val (Some [Some 99; Some 20; Some 30], Some [Some 10; Some 20; Some 30], Some [Some 10; Some 20; Some 30; Some 40]).
Proof. vm_compute. reflexivity. Qed.

(** Appending a buffer to itself reads the block that growing has freed. *)
Example self_append_undefined : cow_run true 1000 [CData 1 [1; 2; 3] 3; CAppendFrom 1 1] (Store ∅ ∅) = Undef.
Proof. vm_compute. reflexivity. Qed.

(** Appending nothing to an empty buffer breaks its own postcondition. *)
Example empty_append_inconsistent : cow_run true 1000 [CNew 1; CAppend 1 []] (Store ∅ ∅) = Aborted.
Proof. vm_compute. reflexivity. Qed.
