(* ===== verification/TimeUtils.v ===== *)
(** * Time (rtc_base/time_utils.h, time_utils.cc, system_time.cc)

    Conversions between clocks and calendars. The monotonic clock of the system
    ([clock_gettime]) and the wall clock are inputs; a test clock overrides
    them. The theorems are that [TimestampWrapAroundHandler] recovers the
    64-bit times behind a stream of 32-bit timestamps and that [TmToSeconds]
    counts the seconds of the calendar. *)

From S2P Require Import Prelude.

Definition kNumMillisecsPerSec : Z := 1000.
Definition kNumMicrosecsPerSec : Z := 1000000.
Definition kNumNanosecsPerSec : Z := 1000000000.
Definition kNumMicrosecsPerMillisec : Z := kNumMicrosecsPerSec ÷ kNumMillisecsPerSec.
Definition kNumNanosecsPerMillisec : Z := kNumNanosecsPerSec ÷ kNumMillisecsPerSec.
Definition kNumNanosecsPerMicrosec : Z := kNumNanosecsPerSec ÷ kNumMicrosecsPerSec.

(** Arithmetic on [int] and [int64_t]: an overflow is undefined. *)
Definition int_ok (z : Z) : res Z := if (INT_MIN <=? z) && (z <=? INT_MAX) then Val z else Undef.
Definition int64_ok (z : Z) : res Z := if (- 2 ^ 63 <=? z) && (z <? 2 ^ 63) then Val z else Undef.

(** ** Clocks *)

Record timespec := TimeSpec { tv_sec : Z; tv_nsec : Z }.

(** What the process can ask for the time: the test clock, if one is set, and
    the answers of the system. *)
Record clocks := Clocks { g_clock : option Z; monotonic : timespec; wall_us : Z * Z }.

Definition SystemTimeNanos (c : clocks) : res Z :=
  let* s := int64_ok (kNumNanosecsPerSec * tv_sec (monotonic c)) in
  int64_ok (s + tv_nsec (monotonic c)).

Definition SystemTimeMillis (c : clocks) : res Z :=
  let* ns := SystemTimeNanos c in Val (ns ÷ kNumNanosecsPerMillisec).

Definition TimeNanos (c : clocks) : res Z :=
  match g_clock c with Some t => Val t | None => SystemTimeNanos c end.

Definition Time32 (c : clocks) : res Z := let* ns := TimeNanos c in Val (u32 (ns ÷ kNumNanosecsPerMillisec)).
Definition TimeMillis (c : clocks) : res Z := let* ns := TimeNanos c in Val (ns ÷ kNumNanosecsPerMillisec).
Definition TimeMicros (c : clocks) : res Z := let* ns := TimeNanos c in Val (ns ÷ kNumNanosecsPerMicrosec).

(** The functions of the current time take the value of [TimeMillis()]. *)
Definition TimeAfter (RTC_DCHECK_IS_ON : bool) (now elapsed : Z) : res Z :=
  let* _ := (if RTC_DCHECK_IS_ON then c_assert (0 <=? elapsed) else Val ()) in
  int64_ok (now + elapsed).
Definition TimeDiff32 (later earlier : Z) : Z := s32 (u32 (later - earlier)).
Definition TimeDiff (later earlier : Z) : res Z := int64_ok (later - earlier).
Definition TimeSince (now earlier : Z) : res Z := int64_ok (now - earlier).
Definition TimeUntil (now later : Z) : res Z := int64_ok (later - now).

Definition TimeUTCMicros (c : clocks) : res Z :=
  match g_clock c with
  | Some t => Val (t ÷ kNumNanosecsPerMicrosec)
  | None =>
      let* s := int64_ok ((wall_us c).1 * kNumMicrosecsPerSec) in
      int64_ok (s + (wall_us c).2)
  end.
Definition TimeUTCMillis (c : clocks) : res Z :=
  let* us := TimeUTCMicros c in Val (us ÷ kNumMicrosecsPerMillisec).

(** ** TimestampWrapAroundHandler *)

Record TimestampWrapAroundHandler := TWH { last_ts_ : Z; num_wrap_ : Z }.

Definition TimestampWrapAroundHandler_new : TimestampWrapAroundHandler := TWH 0 (-1).

Definition Unwrap (ts : Z) (h : TimestampWrapAroundHandler) : res (Z * TimestampWrapAroundHandler) :=
  if num_wrap_ h =? -1 then Val (ts, TWH ts 0)
  else if ts <? last_ts_ h then
    let n := if (0xf0000000 <=? last_ts_ h) && (ts <? 0x0fffffff) then num_wrap_ h + 1 else num_wrap_ h in
    let* r := int64_ok (ts + n * 2 ^ 32) in
    Val (r, TWH ts n)
  else if 0xf0000000 <? u32 (ts - last_ts_ h) then
    let* r := int64_ok (ts + (num_wrap_ h - 1) * 2 ^ 32) in
    Val (r, h)
  else
    let* r := int64_ok (ts + num_wrap_ h * 2 ^ 32) in
    Val (r, TWH ts (num_wrap_ h)).

Fixpoint unwrap_all (ts : list Z) (h : TimestampWrapAroundHandler) : res (list Z) :=
  match ts with
  | [] => Val []
  | t :: ts =>
      let* '(r, h) := Unwrap t h in
      let* rs := unwrap_all ts h in
      Val (r :: rs)
  end.

(** ** TmToSeconds *)

Record tm := Tm { tm_sec : Z; tm_min : Z; tm_hour : Z; tm_mday : Z; tm_mon : Z; tm_year : Z }.

Definition mdays : list Z := [31; 28; 31; 30; 31; 30; 31; 31; 30; 31; 30; 31].
Definition cumul_mdays : list Z := [0; 31; 59; 90; 120; 151; 181; 212; 243; 273; 304; 334].

Definition b2Z (b : bool) : Z := if b then 1 else 0.

(** [month] is checked before it indexes the tables. *)
Definition TmToSeconds (t : tm) : res Z :=
  let* year := int_ok (tm_year t + 1900) in
  let month := tm_mon t in
  let* day := int_ok (tm_mday t - 1) in
  let hour := tm_hour t in
  let min := tm_min t in
  let sec := tm_sec t in
  let expiry_in_leap_year :=
    (Z.rem year 4 =? 0) && (negb (Z.rem year 100 =? 0) || (Z.rem year 400 =? 0)) in
  if year <? 1970 then Val (-1)
  else if (month <? 0) || (11 <? month) then Val (-1)
  else
    let* md := of_mem (mdays !! Z.to_nat month) in
    if (day <? 0) || (md + b2Z (expiry_in_leap_year && (month =? 2 - 1)) <=? day) then Val (-1)
    else if (hour <? 0) || (23 <? hour) then Val (-1)
    else if (min <? 0) || (59 <? min) then Val (-1)
    else if (sec <? 0) || (59 <? sec) then Val (-1)
    else
      let* cm := of_mem (cumul_mdays !! Z.to_nat month) in
      let day := day + cm in
      let day := day + ((year ÷ 4 - 1970 ÷ 4) - (year ÷ 100 - 1970 ÷ 100) + (year ÷ 400 - 1970 ÷ 400)) in
      let day := if expiry_in_leap_year && (month <=? 2 - 1) then day - 1 else day in
      int64_ok (((((year - 1970) * 365 + day) * 24 + hour) * 60 + min) * 60 + sec).

(** ** The times behind wrapped timestamps *)

Lemma int64_ok_val z : - 2 ^ 63 ≤ z < 2 ^ 63 → int64_ok z = Val z.
Proof. intros. unfold int64_ok. by rewrite (proj2 (Z.leb_le _ _)), (proj2 (Z.ltb_lt _ _)) by lia. Qed.

Lemma int_ok_val z : INT_MIN ≤ z ≤ INT_MAX → int_ok z = Val z.
Proof. intros. unfold int_ok. by rewrite (proj2 (Z.leb_le _ _)), (proj2 (Z.leb_le _ _)) by lia. Qed.

(** The handler is at the time [T]. *)
Definition tracks (h : TimestampWrapAroundHandler) (T : Z) : Prop :=
  0 ≤ T < 2 ^ 62 ∧ last_ts_ h = T `mod` 2 ^ 32 ∧ num_wrap_ h = T / 2 ^ 32.

(** A time that lies in an earlier era does not move the handler back. *)
Definition latest (T t : Z) : Z := if t / 2 ^ 32 <? T / 2 ^ 32 then T else t.

Lemma Unwrap_spec h T t :
  tracks h T → t < 2 ^ 62 → Z.abs (t - T) < 0x0fffffff → 0 ≤ t ∨ t / 2 ^ 32 < T / 2 ^ 32 →
  ∃ h', Unwrap (t `mod` 2 ^ 32) h = Val (t, h') ∧ tracks h' (latest T t).
Proof.
  intros (HT & Hl & Hn) Ht Hd Hpos. unfold Unwrap, latest.
  pose proof (Z.div_mod T (2 ^ 32) ltac:(lia)) as ET. pose proof (Z.mod_pos_bound T (2 ^ 32) ltac:(lia)) as BT.
  pose proof (Z.div_mod t (2 ^ 32) ltac:(lia)) as Et. pose proof (Z.mod_pos_bound t (2 ^ 32) ltac:(lia)) as Bt.
  rewrite Hl, Hn. set (q := T / 2 ^ 32) in *. set (r := T `mod` 2 ^ 32) in *.
  set (q' := t / 2 ^ 32) in *. set (r' := t `mod` 2 ^ 32) in *.
  assert (0 ≤ q) by (apply Z.div_pos; lia). change (2 ^ 32) with 4294967296 in *.
  rewrite (proj2 (Z.eqb_neq q (-1))) by lia.
  assert (q' = q ∨ q' = q + 1 ∨ q' = q - 1) as [E|[E|E]] by lia.
  - rewrite (proj2 (Z.ltb_ge q' q)) by lia. destruct (Z.ltb_spec r' r).
    + destruct (Z.leb_spec 0xf0000000 r), (Z.ltb_spec r' 0x0fffffff); try lia; cbn [andb];
        rewrite int64_ok_val by lia; cbn [mbind_res]; eexists; (split; [do 2 f_equal; lia|]);
        (split; [lia|split; [done|cbn [num_wrap_]; done]]).
    + rewrite u32_small by lia. rewrite (proj2 (Z.ltb_ge 0xf0000000 (r' - r))) by lia.
      rewrite int64_ok_val by lia. cbn [mbind_res]. eexists. split; [do 2 f_equal; lia|]. split; [lia|split; done].
  - rewrite (proj2 (Z.ltb_ge q' q)) by lia. rewrite (proj2 (Z.ltb_lt r' r)) by lia.
    rewrite (proj2 (Z.leb_le 0xf0000000 r)), (proj2 (Z.ltb_lt r' 0x0fffffff)) by lia. cbn [andb].
    rewrite int64_ok_val by lia. cbn [mbind_res]. eexists. split; [do 2 f_equal; lia|]. split; [lia|split; [done|change (q + 1 = q'); lia]].
  - rewrite (proj2 (Z.ltb_lt q' q)) by lia. rewrite (proj2 (Z.ltb_ge r' r)) by lia.
    rewrite u32_small by lia. rewrite (proj2 (Z.ltb_lt 0xf0000000 (r' - r))) by lia.
    rewrite int64_ok_val by lia. cbn [mbind_res]. exists h. split; [do 2 f_equal; lia|]. split; [lia|split; [exact Hl|exact Hn]].
Qed.

(** A stream of times: each within 74 hours of the time the handler is at. *)
Fixpoint near (T : Z) (ts : list Z) : Prop :=
  match ts with
  | [] => True
  | t :: ts => 0 ≤ t < 2 ^ 62 ∧ Z.abs (t - T) < 0x0fffffff ∧ near (latest T t) ts
  end.

Lemma unwrap_all_spec ts : ∀ h T,
  tracks h T → near T ts → unwrap_all ((λ t, t `mod` 2 ^ 32) <$> ts) h = Val ts.
Proof.
  induction ts as [|t ts IH]; intros h T Hh Hn; [done|]. destruct Hn as (Ht & Hd & Hn).
  destruct (Unwrap_spec h T t) as (h' & E & Hh'); [done|lia|done|lia|].
  rewrite fmap_cons. cbn [unwrap_all]. rewrite E. cbn [mbind_res]. by rewrite (IH h' _ Hh' Hn).
Qed.

(** ** The calendar *)

Definition leap (y : Z) : bool := (y `mod` 4 =? 0) && (negb (y `mod` 100 =? 0) || (y `mod` 400 =? 0)).
Definition year_length (y : Z) : Z := 365 + b2Z (leap y).
Definition month_length (y : Z) (m : nat) : Z :=
  default 0 (mdays !! m) + b2Z (leap y && bool_decide (m = 1%nat)).

(** Days of the first [n] years from 1970 and of the first [m] months of a year. *)
Fixpoint days_of_years (n : nat) : Z :=
  match n with O => 0 | S n => days_of_years n + year_length (1970 + Z.of_nat n) end.
Fixpoint days_of_months (y : Z) (m : nat) : Z :=
  match m with O => 0 | S m => days_of_months y m + month_length y m end.

Record tm_valid (t : tm) : Prop := {
  tv_year : 1970 ≤ tm_year t + 1900 ≤ INT_MAX;
  tv_mon : 0 ≤ tm_mon t < 12;
  tv_day : 1 ≤ tm_mday t ≤ month_length (tm_year t + 1900) (Z.to_nat (tm_mon t));
  tv_time : 0 ≤ tm_hour t < 24 ∧ 0 ≤ tm_min t < 60 ∧ 0 ≤ tm_sec t < 60
}.

Definition calendar_seconds (t : tm) : Z :=
  let y := tm_year t + 1900 in
  let days := days_of_years (Z.to_nat (y - 1970)) + days_of_months y (Z.to_nat (tm_mon t)) + (tm_mday t - 1) in
  days * 86400 + tm_hour t * 3600 + tm_min t * 60 + tm_sec t.

(** The leap days up to a year, by the divisions of the code. *)
Definition leaps_to (y : Z) : Z := (y / 4 - 492) - (y / 100 - 19) + (y / 400 - 4).

Lemma leaps_step y : leaps_to (y + 1) = leaps_to y + b2Z (leap (y + 1)).
Proof.
  unfold leaps_to, leap. assert (∀ k, 0 < k → (y + 1) / k = y / k + (if (y + 1) `mod` k =? 0 then 1 else 0)) as Hk.
  { intros k Hk. pose proof (Z.div_mod y k ltac:(lia)). pose proof (Z.mod_pos_bound y k ltac:(lia)).
    destruct (Z.eq_dec (y `mod` k) (k - 1)) as [E|E].
    - rewrite <- (Z.mod_unique_pos (y + 1) k (y / k + 1) 0) by nia.
      rewrite <- (Z.div_unique_pos (y + 1) k (y / k + 1) 0) by nia. by simpl.
    - rewrite <- (Z.mod_unique_pos (y + 1) k (y / k) (y `mod` k + 1)) by nia.
      rewrite <- (Z.div_unique_pos (y + 1) k (y / k) (y `mod` k + 1)) by nia.
      rewrite (proj2 (Z.eqb_neq _ _)) by lia. lia. }
  rewrite !Hk by lia. pose proof (Z.div_mod (y + 1) 4 ltac:(lia)). pose proof (Z.div_mod (y + 1) 100 ltac:(lia)).
  pose proof (Z.div_mod (y + 1) 400 ltac:(lia)). pose proof (Z.mod_pos_bound (y + 1) 4 ltac:(lia)).
  pose proof (Z.mod_pos_bound (y + 1) 100 ltac:(lia)). pose proof (Z.mod_pos_bound (y + 1) 400 ltac:(lia)).
  destruct (Z.eqb_spec ((y + 1) `mod` 4) 0), (Z.eqb_spec ((y + 1) `mod` 100) 0), (Z.eqb_spec ((y + 1) `mod` 400) 0);
    simpl; lia.
Qed.

Lemma days_of_years_leaps n :
  days_of_years n = 365 * Z.of_nat n + leaps_to (1970 + Z.of_nat n) - b2Z (leap (1970 + Z.of_nat n)).
Proof.
  induction n as [|n IH]; [reflexivity|]. cbn [days_of_years]. rewrite IH. unfold year_length.
  replace (1970 + Z.of_nat (S n)) with (1970 + Z.of_nat n + 1) by lia. rewrite leaps_step. lia.
Qed.

Lemma days_of_months_table y m :
  (m < 12)%nat → days_of_months y m = default 0 (cumul_mdays !! m) + (if (2 <=? m)%nat then b2Z (leap y) else 0).
Proof.
  intros Hm. do 12 (destruct m as [|m]; [unfold days_of_months, month_length; simpl; destruct (leap y); reflexivity|]). lia.
Qed.

(** ** Properties *)

(** The 64-bit times behind a stream of 32-bit timestamps are recovered,
    across any number of wrap-arounds and reorderings, as long as each is
    within 0x0fffffff ms of the latest one. *)
Theorem unwrap_recovers t ts :
  0 ≤ t < 2 ^ 32 → near t ts →
  unwrap_all ((λ t, t `mod` 2 ^ 32) <$> t :: ts) TimestampWrapAroundHandler_new = Val (t :: ts).
Proof.
  intros Ht Hn. rewrite fmap_cons. cbn [unwrap_all]. rewrite Z.mod_small by lia.
  change (Unwrap t TimestampWrapAroundHandler_new) with (Val (t, TWH t 0)). cbn [mbind_res].
  rewrite (unwrap_all_spec ts (TWH t 0) t); [done| |done].
  split; [lia|]. cbn [last_ts_ num_wrap_]. by rewrite Z.mod_small, Z.div_small.
Qed.

Lemma rem_leap y :
  0 ≤ y → (Z.rem y 4 =? 0) && (negb (Z.rem y 100 =? 0) || (Z.rem y 400 =? 0)) = leap y.
Proof. intros. unfold leap. by rewrite !Z.rem_mod_nonneg by lia. Qed.

Lemma mdays_month y m :
  (m < 12)%nat → ∃ md, mdays !! m = Some md ∧ month_length y m = md + b2Z (leap y && bool_decide (m = 1%nat)).
Proof. intros Hm. unfold month_length. destruct (lookup_lt_is_Some_2 mdays m Hm) as [md ->]. eauto. Qed.

Lemma days_of_years_bound n : 0 ≤ days_of_years n ≤ 366 * Z.of_nat n.
Proof.
  induction n as [|n IH]; [done|]. cbn [days_of_years]. unfold year_length. destruct (leap _); simpl b2Z; lia.
Qed.

Lemma days_of_months_bound y m : (m < 12)%nat → 0 ≤ days_of_months y m ≤ 335.
Proof.
  intros Hm. rewrite days_of_months_table by done. destruct (lookup_lt_is_Some_2 cumul_mdays m Hm) as [cm Hcm].
  pose proof (Forall_lookup_1 (λ d, 0 ≤ d ≤ 334) cumul_mdays _ _ ltac:(repeat constructor; lia) Hcm) as Hb.
  rewrite Hcm. cbn [default] in *. simpl in Hb. destruct (2 <=? m)%nat, (leap y); simpl; lia.
Qed.

(** The day number the code computes is the one of the calendar. *)
Lemma day_number y mon day :
  1970 ≤ y → 0 ≤ mon < 12 →
  ∃ cm, cumul_mdays !! Z.to_nat mon = Some cm ∧ 0 ≤ cm ≤ 334 ∧
    let d := day + cm + ((y ÷ 4 - 1970 ÷ 4) - (y ÷ 100 - 1970 ÷ 100) + (y ÷ 400 - 1970 ÷ 400)) in
    (y - 1970) * 365 + (if leap y && (mon <=? 2 - 1) then d - 1 else d) =
      days_of_years (Z.to_nat (y - 1970)) + days_of_months y (Z.to_nat mon) + day.
Proof.
  intros Hy Hm. assert ((Z.to_nat mon < 12)%nat) as Hm' by lia.
  destruct (lookup_lt_is_Some_2 cumul_mdays (Z.to_nat mon) Hm') as [cm Hcm]. exists cm. split; [done|].
  split; [apply (Forall_lookup_1 (λ d, 0 ≤ d ≤ 334) cumul_mdays _ _ ltac:(repeat constructor; lia) Hcm)|].
  rewrite days_of_months_table, Hcm, days_of_years_leaps by done. cbn [default].
  replace (1970 + Z.of_nat (Z.to_nat (y - 1970))) with y by lia. rewrite !Z.quot_div_nonneg by lia. unfold leaps_to.
  change (1970 / 4) with 492. change (1970 / 100) with 19. change (1970 / 400) with 4.
  destruct (Z.leb_spec mon (2 - 1)), (Nat.leb_spec 2 (Z.to_nat mon)), (leap y); simpl; lia.
Qed.

(** [TmToSeconds] counts the seconds from 1970 by the Gregorian calendar,
    leap years included. *)
Lemma tm_to_seconds_valid t : tm_valid t → TmToSeconds t = Val (calendar_seconds t).
Proof.
  intros [Hy Hm Hd (Hh & Hmi & Hs)]. unfold TmToSeconds, calendar_seconds. set (y := tm_year t + 1900) in *.
  destruct (mdays_month y (Z.to_nat (tm_mon t)) ltac:(lia)) as (md & Hmd & Hml). rewrite Hml in Hd.
  pose proof (Forall_lookup_1 (λ d, d ≤ 31) mdays _ _ ltac:(repeat constructor; lia) Hmd) as H31. simpl in H31.
  unfold INT_MAX in *. assert (b2Z (leap y && bool_decide (Z.to_nat (tm_mon t) = 1%nat)) ≤ 1) by (destruct (_ && _); simpl; lia).
  rewrite (int_ok_val y), (int_ok_val (tm_mday t - 1)) by (unfold INT_MIN, INT_MAX; lia). cbn [mbind_res]. rewrite rem_leap by lia.
  rewrite (proj2 (Z.ltb_ge y 1970)), (proj2 (Z.ltb_ge (tm_mon t) 0)), (proj2 (Z.ltb_ge 11 _)) by lia. cbn [orb].
  rewrite Hmd. cbn [of_mem mbind_res].
  assert ((tm_mon t =? 2 - 1) = bool_decide (Z.to_nat (tm_mon t) = 1%nat)) as ->.
  { destruct (Z.eqb_spec (tm_mon t) (2 - 1)); [rewrite bool_decide_eq_true_2|rewrite bool_decide_eq_false_2]; lia. }
  rewrite (proj2 (Z.ltb_ge (tm_mday t - 1) 0)), (proj2 (Z.leb_gt _ _)) by lia. cbn [orb].
  rewrite (proj2 (Z.ltb_ge (tm_hour t) 0)), (proj2 (Z.ltb_ge 23 _)), (proj2 (Z.ltb_ge (tm_min t) 0)), (proj2 (Z.ltb_ge 59 (tm_min t))),
    (proj2 (Z.ltb_ge (tm_sec t) 0)), (proj2 (Z.ltb_ge 59 (tm_sec t))) by lia. cbn [orb].
  destruct (day_number y (tm_mon t) (tm_mday t - 1)) as (cm & Hcm & _ & Hdays); [lia|done|]. rewrite Hcm. cbn [of_mem mbind_res].
  cbv zeta in Hdays. rewrite Hdays. pose proof (days_of_years_bound (Z.to_nat (y - 1970))).
  pose proof (days_of_months_bound y (Z.to_nat (tm_mon t)) ltac:(lia)).
  rewrite int64_ok_val; [f_equal; lia|]. lia.
Qed.

(** Anything else is refused with -1: a year before 1970 and every field
    out of range, the day against the length of its month. *)
Lemma tm_to_seconds_rejects t :
  INT_MIN ≤ tm_year t + 1900 ≤ INT_MAX → INT_MIN ≤ tm_mday t - 1 → tm_mday t ≤ INT_MAX →
  ¬ tm_valid t → TmToSeconds t = Val (-1).
Proof.
  intros Hy Hd1 Hd2 Hnv. unfold TmToSeconds. set (y := tm_year t + 1900) in *.
  rewrite (int_ok_val y), (int_ok_val (tm_mday t - 1)) by lia. cbn [mbind_res].
  destruct (Z.ltb_spec y 1970); [done|]. rewrite rem_leap by lia.
  destruct ((tm_mon t <? 0) || (11 <? tm_mon t)) eqn:Em; [done|]. reflect_Z.
  destruct (mdays_month y (Z.to_nat (tm_mon t)) ltac:(lia)) as (md & Hmd & Hml). rewrite Hmd. cbn [of_mem mbind_res].
  assert ((tm_mon t =? 2 - 1) = bool_decide (Z.to_nat (tm_mon t) = 1%nat)) as ->.
  { destruct (Z.eqb_spec (tm_mon t) (2 - 1)); [rewrite bool_decide_eq_true_2|rewrite bool_decide_eq_false_2]; lia. }
  rewrite <- Hml. repeat (case_match; [done|]). exfalso. apply Hnv. reflect_Z. split; fold y; lia.
Qed.

(** [TmToSeconds] counts the seconds from 1970 by the Gregorian calendar,
    leap years included, and refuses exactly the dates that do not exist or
    lie before 1970. *)
Theorem tm_to_seconds_calendar t :
  INT_MIN ≤ tm_year t + 1900 ≤ INT_MAX → INT_MIN ≤ tm_mday t - 1 → tm_mday t ≤ INT_MAX →
  (tm_valid t → TmToSeconds t = Val (calendar_seconds t)) ∧ (¬ tm_valid t → TmToSeconds t = Val (-1)).
Proof. intros. split; [apply tm_to_seconds_valid|by apply tm_to_seconds_rejects]. Qed.

(** ** Witnesses *)

(** 29 February 2024, 12:34:56, and 29 February 2023. *)
Definition demo_tm : tm := Tm 56 34 12 29 1 124.
Definition demo_tm_bad : tm := Tm 56 34 12 29 1 123.

Lemma tm_to_seconds_calendar_witness :
  TmToSeconds demo_tm = Val 1709210096 ∧ calendar_seconds demo_tm = 1709210096 ∧ TmToSeconds demo_tm_bad = Val (-1).
Proof.
  assert (calendar_seconds demo_tm = 1709210096) as E by (vm_compute; reflexivity). rewrite <- E. split_and!; [|done|].
  - apply (tm_to_seconds_calendar demo_tm); [vm_compute; split; discriminate|vm_compute; discriminate..|].
    split; vm_compute; repeat split; discriminate.
  - apply (tm_to_seconds_calendar demo_tm_bad); [vm_compute; split; discriminate|vm_compute; discriminate..|].
    intros [_ _ [_ Hd] _]. vm_compute in Hd. by apply Hd.
Defined.

(** Two wrap-arounds, with a late timestamp of the previous era in between. *)
Lemma unwrap_recovers_witness :
  unwrap_all [4294967000; 100; 4294967290; 200] TimestampWrapAroundHandler_new =
    Val [4294967000; 4294967396; 4294967290; 4294967496].
Proof.
  apply (unwrap_recovers 4294967000 [4294967396; 4294967290; 4294967496]); [lia|].
  vm_compute. repeat split; congruence.
Defined.
