(* ===== verification/PriorityQueue.v ===== *)
(** * The heap algorithms of the C++ standard library

    [std::priority_queue] keeps its elements in a vector through [push_heap],
    [pop_heap] and [make_heap]. The standard fixes what these do and leaves the
    layout open, so they are an interface: the operations, and the laws of
    [alg.heap.operations]. The clients are proved against the laws; an
    implementation that keeps the vector sorted discharges them. *)

From stdpp Require Import sorting.
From S2P Require Import Prelude.

(** A strict weak order, as [operator<] has to be. *)
Class StrictWeak {A} (lt : A → A → bool) : Prop := {
  sw_asym x y : lt x y = true → lt y x = false;
  sw_ge_trans x y z : lt x y = false → lt y z = false → lt x z = false
}.

(** No element is above its parent. *)
Definition is_heap {A} (lt : A → A → bool) (c : list A) : Prop :=
  ∀ i x p, (0 < i)%nat → c !! i = Some x → c !! ((i - 1) / 2)%nat = Some p → lt p x = false.

Class StdHeap {A} (lt : A → A → bool) := {
  push_heap : list A → list A;
  pop_heap : list A → list A;
  make_heap : list A → list A;
  push_heap_spec c x : is_heap lt c → push_heap (c ++ [x]) ≡ₚ c ++ [x] ∧ is_heap lt (push_heap (c ++ [x]));
  pop_heap_spec x c : is_heap lt (x :: c) → ∃ c', pop_heap (x :: c) = c' ++ [x] ∧ c' ≡ₚ c ∧ is_heap lt c';
  make_heap_spec c : make_heap c ≡ₚ c ∧ is_heap lt (make_heap c)
}.

(** ** std::priority_queue *)

Section PriorityQueue.
Context {A} (lt : A → A → bool) {H : StdHeap lt}.

Definition pq_push (x : A) (c : list A) : list A := push_heap (c ++ [x]).
Definition pq_top (c : list A) : option A := list.head c.
Definition pq_pop (c : list A) : list A := take (length c - 1) (pop_heap c).

Context `{!StrictWeak lt}.

Lemma sw_refl x : lt x x = false.
Proof. destruct (lt x x) eqn:E; [|done]. rewrite <- E. by apply sw_asym. Qed.

Lemma is_heap_nil : is_heap lt [].
Proof. intros i x p _ Hx. by rewrite lookup_nil in Hx. Qed.

(** The first element of a heap is a greatest one. *)
Lemma heap_top x c : is_heap lt (x :: c) → ∀ i y, (x :: c) !! i = Some y → lt x y = false.
Proof.
  intros Hh i. induction i as [i IH] using lt_wf_ind; intros y Hy. destruct i as [|i].
  { simpl in Hy. simplify_eq. apply sw_refl. }
  assert (((S i - 1) / 2 < S i)%nat) as Hlt by (apply Nat.Div0.div_lt_upper_bound; lia).
  destruct (lookup_lt_is_Some_2 (x :: c) ((S i - 1) / 2)) as [p Hp].
  { pose proof (lookup_lt_Some _ _ _ Hy). lia. }
  apply (sw_ge_trans x p y); [by eapply IH|]. by apply (Hh (S i) y p); [lia| |].
Qed.

Lemma pq_push_spec x c : is_heap lt c → pq_push x c ≡ₚ x :: c ∧ is_heap lt (pq_push x c).
Proof.
  intros Hh. destruct (push_heap_spec c x Hh) as [Hp Hh']. split; [|done]. unfold pq_push. rewrite Hp.
  symmetry. apply Permutation_cons_append.
Qed.

Lemma pq_pop_spec x c : is_heap lt (x :: c) → pq_pop (x :: c) ≡ₚ c ∧ is_heap lt (pq_pop (x :: c)).
Proof.
  intros Hh. destruct (pop_heap_spec x c Hh) as (c' & E & Hp & Hh'). unfold pq_pop. rewrite E.
  rewrite take_app_length'; [done|]. rewrite Hp. simpl. lia.
Qed.
End PriorityQueue.

(** ** A sorted vector is a heap *)

Section Sorted.
Context {A} (lt : A → A → bool) `{!StrictWeak lt}.

(** Greatest first; equal elements keep their order. *)
Fixpoint insert_desc (x : A) (c : list A) : list A :=
  match c with
  | [] => [x]
  | y :: c' => if lt y x then x :: c else y :: insert_desc x c'
  end.
Definition sort_desc (c : list A) : list A := foldr insert_desc [] c.

Definition ge (x y : A) : Prop := lt x y = false.

Lemma insert_desc_perm x c : insert_desc x c ≡ₚ x :: c.
Proof.
  induction c as [|y c IH]; [done|]. cbn [insert_desc]. destruct (lt y x); [done|]. rewrite IH. apply Permutation_swap.
Qed.

Lemma insert_desc_sorted x c : StronglySorted ge c → StronglySorted ge (insert_desc x c).
Proof.
  induction 1 as [|y c Hc IH Hy]; [repeat constructor|]. cbn [insert_desc]. destruct (lt y x) eqn:E.
  - constructor; [by constructor|]. constructor; [by apply sw_asym|]. eapply Forall_impl; [done|]. intros z Hz.
    apply (sw_ge_trans x y z); [by apply sw_asym|done].
  - constructor; [done|]. rewrite insert_desc_perm. by constructor.
Qed.

Lemma sort_desc_perm c : sort_desc c ≡ₚ c.
Proof. induction c as [|x c IH]; [done|]. cbn. rewrite insert_desc_perm. by rewrite IH. Qed.

Lemma sort_desc_sorted c : StronglySorted ge (sort_desc c).
Proof. induction c; [constructor|]. by apply insert_desc_sorted. Qed.

Lemma sorted_ge c i j x y : StronglySorted ge c → (i ≤ j)%nat → c !! i = Some x → c !! j = Some y → lt x y = false.
Proof.
  intros Hs. revert i j. induction Hs as [|z c Hc IH Hz]; intros [|i] [|j] Hij Hx Hy; simplify_eq/=; try lia.
  - by apply sw_refl.
  - rewrite Forall_forall in Hz. apply Hz, list_elem_of_lookup. eauto.
  - by eapply (IH i j); [lia| |].
Qed.

Lemma sorted_is_heap c : StronglySorted ge c → is_heap lt c.
Proof.
  intros Hs i x p Hi Hx Hp. eapply sorted_ge; [done| |exact Hp|exact Hx]. apply Nat.Div0.div_le_upper_bound. lia.
Qed.

(** [pop_heap] moves the greatest element, the first, to the end. *)
#[global] Instance sorted_heap : StdHeap lt.
Proof.
  refine {| push_heap := sort_desc;
            pop_heap c := match c with [] => [] | x :: c => sort_desc c ++ [x] end;
            make_heap := sort_desc |}.
  - intros c x _. split; [apply sort_desc_perm|apply sorted_is_heap, sort_desc_sorted].
  - intros x c _. exists (sort_desc c). split_and!; [done|apply sort_desc_perm|apply sorted_is_heap, sort_desc_sorted].
  - intros c. split; [apply sort_desc_perm|apply sorted_is_heap, sort_desc_sorted].
Defined.
End Sorted.
