(* ===== verification/MessageQueue.v ===== *)
(** * The message queue of a thread (rtc_base/thread.h, thread.cc, thread_message.h)

    The queue part of [rtc::Thread]: messages are posted by any thread, at
    once or for a later time, and taken by the owner. The lock [crit_] makes
    every locked region one step; what the other threads do between the locked
    regions of [Get] is given as the list of their calls. Payloads are
    addresses; the queue deletes the payloads it drops, which the state
    records. [std::priority_queue] is the interface of [PriorityQueue]. *)

From stdpp Require Import sorting.
From S2P Require Import Prelude TimeUtils PriorityQueue.

Definition MQID_ANY : Z := u32 (-1).
Definition MQID_DISPOSE : Z := u32 (-2).
Definition kForever : Z := -1.

Record Message := Msg { posted_from : Z; phandler : option Z; message_id : Z; pdata : option Z }.

#[global] Instance Message_eq_dec : EqDecision Message.
Proof. solve_decision. Defined.

Definition Message_new : Message := Msg 0 None 0 None.

Definition Match (handler : option Z) (id : Z) (m : Message) : bool :=
  (bool_decide (handler = None) || bool_decide (handler = phandler m)) && ((id =? MQID_ANY) || (id =? message_id m)).

Record DelayedMessage := DMsg { delay_ms_ : Z; run_time_ms_ : Z; message_number_ : Z; msg_ : Message }.

(** [operator<]: what runs later is less, so that the greatest runs first. *)
Definition dm_lt (a b : DelayedMessage) : bool :=
  (run_time_ms_ b <? run_time_ms_ a) ||
  ((run_time_ms_ b =? run_time_ms_ a) && (message_number_ b <? message_number_ a)).

#[global] Instance dm_lt_sw : StrictWeak dm_lt.
Proof.
  split; unfold dm_lt; intros; rewrite ?orb_true_iff, ?orb_false_iff, ?andb_true_iff, ?andb_false_iff,
    ?Z.ltb_lt, ?Z.ltb_ge, ?Z.eqb_eq, ?Z.eqb_neq in *; lia.
Qed.

Record MQ := MkMQ {
  fPeekKeep_ : bool;
  msgPeek_ : Message;
  messages_ : list Message;
  delayed_messages_ : list DelayedMessage;   (* the vector of the priority queue *)
  delayed_next_num_ : Z;
  stop_ : Z;
  wakeups : Z;                               (* calls of [ss_->WakeUp()] *)
  posted : list Message;                     (* history: messages given to the queue, *)
  deleted : list Message;                    (* messages whose payload it deleted, *)
  handed : list Message                      (* and messages given back to a caller *)
}.

(** The state of a constructed [Thread]. *)
Definition Thread_new : MQ := MkMQ false Message_new [] [] 0 0 0 [] [] [].

Section Queue.
Context (RTC_DCHECK_IS_ON : bool) {H : StdHeap dm_lt}.

Definition dcheck (c : bool) : res unit := if RTC_DCHECK_IS_ON then c_assert c else Val ().

Definition set_lists (ms : list Message) (ds : list DelayedMessage) (q : MQ) : MQ :=
  MkMQ (fPeekKeep_ q) (msgPeek_ q) ms ds (delayed_next_num_ q) (stop_ q) (wakeups q) (posted q) (deleted q) (handed q).
Definition set_peek (k : bool) (m : Message) (q : MQ) : MQ :=
  MkMQ k m (messages_ q) (delayed_messages_ q) (delayed_next_num_ q) (stop_ q) (wakeups q) (posted q) (deleted q) (handed q).
Definition set_history (ps dl hd : list Message) (q : MQ) : MQ :=
  MkMQ (fPeekKeep_ q) (msgPeek_ q) (messages_ q) (delayed_messages_ q) (delayed_next_num_ q) (stop_ q) (wakeups q) ps dl hd.
Definition set_stop (s : Z) (q : MQ) : MQ :=
  MkMQ (fPeekKeep_ q) (msgPeek_ q) (messages_ q) (delayed_messages_ q) (delayed_next_num_ q) s (wakeups q)
    (posted q) (deleted q) (handed q).
Definition WakeUpSocketServer (q : MQ) : MQ :=
  MkMQ (fPeekKeep_ q) (msgPeek_ q) (messages_ q) (delayed_messages_ q) (delayed_next_num_ q) (stop_ q) (wakeups q + 1)
    (posted q) (deleted q) (handed q).

Definition note_posted (m : Message) (q : MQ) : MQ := set_history (posted q ++ [m]) (deleted q) (handed q) q.
Definition delete_payload (m : Message) (q : MQ) : MQ := set_history (posted q) (deleted q ++ [m]) (handed q) q.
Definition hand_over (m : Message) (q : MQ) : MQ := set_history (posted q) (deleted q) (handed q ++ [m]) q.

Definition Quit (q : MQ) : MQ := WakeUpSocketServer (set_stop 1 q).
Definition IsQuitting (q : MQ) : bool := negb (stop_ q =? 0).
Definition Restart (q : MQ) : MQ := set_stop 0 q.

(** The locked part of [Post] and the wake-up; the test of [IsQuitting] comes
    before the lock is taken, so another thread may quit in between. *)
Definition Post_locked (m : Message) (q : MQ) : MQ :=
  WakeUpSocketServer (set_lists (messages_ q ++ [m]) (delayed_messages_ q) (note_posted m q)).

Definition Post (m : Message) (time_sensitive : bool) (q : MQ) : res MQ :=
  let* _ := dcheck (negb time_sensitive) in
  if IsQuitting q then Val (delete_payload m (note_posted m q)) else Val (Post_locked m q).

Definition DoDelayPost_locked (delay_ms run_at_ms : Z) (m : Message) (q : MQ) : res MQ :=
  let delayed := DMsg delay_ms run_at_ms (delayed_next_num_ q) m in
  let num := u32 (delayed_next_num_ q + 1) in
  let* _ := dcheck (negb (0 =? num)) in
  Val (WakeUpSocketServer (MkMQ (fPeekKeep_ q) (msgPeek_ q) (messages_ q) (pq_push dm_lt delayed (delayed_messages_ q)) num
         (stop_ q) (wakeups q) (posted q ++ [m]) (deleted q) (handed q))).

Definition DoDelayPost (delay_ms run_at_ms : Z) (m : Message) (q : MQ) : res MQ :=
  if IsQuitting q then Val (delete_payload m (note_posted m q)) else DoDelayPost_locked delay_ms run_at_ms m q.

Definition PostDelayed (now delay_ms : Z) (m : Message) (q : MQ) : res MQ :=
  let* run_at := TimeAfter RTC_DCHECK_IS_ON now delay_ms in DoDelayPost delay_ms run_at m q.

Definition PostAt (now run_at_ms : Z) (m : Message) (q : MQ) : res MQ :=
  let* delay := TimeUntil now run_at_ms in DoDelayPost delay run_at_ms m q.

(** [PostDelayedTask]: the [uint32_t] becomes the [int] of [PostDelayed]; the
    message is for the handler of queued tasks. *)
Definition PostDelayedTask (now milliseconds from queued_task_handler_ task : Z) (q : MQ) : res MQ :=
  PostDelayed now (s32 milliseconds) (Msg from (Some queued_task_handler_) 0 (Some task)) q.

(** [Dispose(doomed)] *)
Definition Dispose (from : Z) (doomed : option Z) (q : MQ) : res MQ :=
  match doomed with Some d => Post (Msg from None MQID_DISPOSE (Some d)) false q | None => Val q end.

Definition GetDelay (now : Z) (q : MQ) : res Z :=
  match messages_ q with
  | _ :: _ => Val 0
  | [] =>
      match pq_top (delayed_messages_ q) with
      | Some d => let* t := TimeUntil now (run_time_ms_ d) in let delay := s32 t in Val (if delay <? 0 then 0 else delay)
      | None => Val kForever
      end
  end.

Definition size (q : MQ) : Z :=
  u64 (Z.of_nat (length (messages_ q)) + Z.of_nat (length (delayed_messages_ q)) + (if fPeekKeep_ q then 1 else 0)).
Definition empty (q : MQ) : bool := size q =? 0.

(** A matching message goes to the caller's list, when there is one, or its
    payload is deleted. *)
Definition drop_msg (m : Message) (acc : option (list Message) * MQ) : option (list Message) * MQ :=
  match acc.1 with
  | Some r => (Some (r ++ [m]), hand_over m acc.2)
  | None => (None, delete_payload m acc.2)
  end.

Definition ClearInternal (handler : option Z) (id : Z) (removed : option (list Message)) (q : MQ)
    : option (list Message) * MQ :=
  let f := Match handler id in
  let '(removed, q) :=
    if fPeekKeep_ q && f (msgPeek_ q)
    then let '(r, q) := drop_msg (msgPeek_ q) (removed, q) in (r, set_peek false (msgPeek_ q) q)
    else (removed, q) in
  let '(removed, q) := foldl (λ acc m, drop_msg m acc) (removed, q) (filter f (messages_ q)) in
  let q := set_lists (filter (λ m, negb (f m)) (messages_ q)) (delayed_messages_ q) q in
  let '(removed, q) := foldl (λ acc m, drop_msg m acc) (removed, q)
                         (msg_ <$> filter (λ d, f (msg_ d)) (delayed_messages_ q)) in
  (removed, set_lists (messages_ q) (make_heap (filter (λ d, negb (f (msg_ d))) (delayed_messages_ q))) q).

Definition Clear := ClearInternal.

(** ** Get

    The delayed messages that are due move to the end of the queue; then the
    first message is taken. The loop pops at most every delayed message. *)

Fixpoint promote (fuel : nat) (msCurrent : Z) (ms : list Message) (ds : list DelayedMessage)
    : res (Z * list Message * list DelayedMessage) :=
  match pq_top ds with
  | None => Val (kForever, ms, ds)
  | Some d =>
      if msCurrent <? run_time_ms_ d
      then let* t := TimeDiff (run_time_ms_ d) msCurrent in Val (t, ms, ds)
      else match fuel with
           | O => Undef
           | S fuel => promote fuel msCurrent (ms ++ [msg_ d]) (pq_pop dm_lt ds)
           end
  end.

(** One pass under the lock: the next delay, if it is computed, and the
    message taken, if any. *)
Definition locked_pass (first_pass : bool) (msCurrent cmsDelayNext : Z) (q : MQ) : res (Z * option Message * MQ) :=
  let* '(next, q) :=
    (if first_pass
     then let* '(next, ms, ds) := promote (length (delayed_messages_ q)) msCurrent (messages_ q) (delayed_messages_ q) in
          Val (next, set_lists ms ds q)
     else Val (cmsDelayNext, q)) in
  match messages_ q with
  | [] => Val (next, None, q)
  | m :: ms => Val (next, Some m, set_lists ms (delayed_messages_ q) q)
  end.

(** The time to wait: the delay of the next message or what is left. *)
Definition next_wait (cmsWait cmsElapsed cmsDelayNext : Z) : Z :=
  if cmsWait =? kForever then cmsDelayNext
  else
    let cmsNext := Z.max 0 (cmsWait - cmsElapsed) in
    if negb (cmsDelayNext =? kForever) && (cmsDelayNext <? cmsNext) then cmsDelayNext else cmsNext.

(** What the other threads do. [KPush] and [KPushDelayed] are the locked parts
    of calls whose test of [IsQuitting] came before. *)
Inductive call :=
  | KPost (m : Message)
  | KPush (m : Message)
  | KPostDelayed (now delay_ms : Z) (m : Message)
  | KPostAt (now run_at_ms : Z) (m : Message)
  | KPushDelayed (delay_ms run_at_ms : Z) (m : Message)
  | KClear (handler : option Z) (id : Z) (keep : bool)
  | KQuit
  | KRestart.

Definition run_call (k : call) (q : MQ) : res MQ :=
  match k with
  | KPost m => Post m false q
  | KPush m => Val (Post_locked m q)
  | KPostDelayed now d m => PostDelayed now d m q
  | KPostAt now t m => PostAt now t m q
  | KPushDelayed d t m => DoDelayPost_locked d t m q
  | KClear h id keep => Val (Clear h id (if keep then Some [] else None) q).2
  | KQuit => Val (Quit q)
  | KRestart => Val (Restart q)
  end.

Fixpoint run_calls (ks : list call) (q : MQ) : res MQ :=
  match ks with [] => Val q | k :: ks => let* q := run_call k q in run_calls ks q end.

(** One turn of the loop as the environment sees it: the calls before the lock
    is taken, those between its release and the test of [IsQuitting], and for
    a turn that waits the result of [ss_->Wait] and the time after it. *)
Record turn := Turn { t_before : list call; t_after : list call; t_wait : bool; t_now : Z }.

Inductive got := GotMsg (m : Message) | GotNone | StillRunning.

(** The loop of [Get] from a locked pass on; [waits] collects the arguments of
    [ss_->Wait]. *)
Fixpoint Get_loop (env : list turn) (cmsWait msStart msCurrent cmsElapsed : Z) (first_pass : bool) (cmsDelayNext : Z)
    (waits : list Z) (q : MQ) : res (got * list Z * MQ) :=
  match env with
  | [] => Val (StillRunning, waits, q)
  | t :: env =>
      let* q := run_calls (t_before t) q in
      let* '(next, om, q) := locked_pass first_pass msCurrent cmsDelayNext q in
      match om with
      | Some m =>
          if MQID_DISPOSE =? message_id m then
            let* _ := dcheck (bool_decide (phandler m = None)) in
            Get_loop env cmsWait msStart msCurrent cmsElapsed false next waits (delete_payload m q)
          else Val (GotMsg m, waits, q)
      | None =>
          let* q := run_calls (t_after t) q in
          if IsQuitting q then Val (GotNone, waits, q)
          else
            let cmsNext := s32 (next_wait cmsWait cmsElapsed next) in
            let waits := waits ++ [cmsNext] in
            if negb (t_wait t) then Val (GotNone, waits, q)
            else
              let* el := TimeDiff (t_now t) msStart in
              if negb (cmsWait =? kForever) && (cmsWait <=? el) then Val (GotNone, waits, q)
              else Get_loop env cmsWait msStart (t_now t) el true kForever waits q
      end
  end.

Definition Get (env : list turn) (now cmsWait : Z) (q : MQ) : res (got * list Z * MQ) :=
  if fPeekKeep_ q then Val (GotMsg (msgPeek_ q), [], set_peek false (msgPeek_ q) q)
  else Get_loop env cmsWait now now 0 true kForever [] q.

Definition Peek (env : list turn) (now cmsWait : Z) (q : MQ) : res (got * list Z * MQ) :=
  if fPeekKeep_ q then Val (GotMsg (msgPeek_ q), [], q)
  else
    let* '(g, waits, q) := Get env now cmsWait q in
    match g with
    | GotMsg m => Val (g, waits, set_peek true m q)
    | _ => Val (g, waits, q)
    end.

(** ** Dispatching

    The handler of a message is a client: it may call the queue, which the
    list of its calls says. A handler slower than the limit moves the limit. *)
Record dispatch_env := DispatchEnv { d_start : Z; d_calls : list call; d_end : Z }.

Definition kSlowDispatchLoggingThreshold : Z := 50.

Definition Dispatch (e : dispatch_env) (m : Message) (dispatch_warning_ms_ : Z) (q : MQ) : res (Z * MQ) :=
  match phandler m with
  | None => Undef
  | Some _ =>
      let* q := run_calls (d_calls e) q in
      let* diff := TimeDiff (d_end e) (d_start e) in
      Val (if dispatch_warning_ms_ <=? diff then s32 (diff + 1) else dispatch_warning_ms_, q)
  end.

(** A round of [ProcessMessages]: the time at which [Get] starts, what happens
    during it, the dispatch, and the time read after it. *)
Record round := Round { p_now : Z; p_env : list turn; p_dispatch : dispatch_env; p_after : Z }.

Inductive processed := PReturned (b : bool) | PRunning.

Fixpoint Process_loop (ps : list round) (cmsLoop cmsNext msEnd limit : Z) (out : list Message) (q : MQ)
    : res (processed * list Message * MQ) :=
  match ps with
  | [] => Val (PRunning, out, q)
  | p :: ps =>
      let* '(g, _, q) := Get (p_env p) (p_now p) cmsNext q in
      match g with
      | StillRunning => Val (PRunning, out, q)
      | GotNone => Val (PReturned (negb (IsQuitting q)), out, q)
      | GotMsg m =>
          let* '(limit, q) := Dispatch (p_dispatch p) m limit q in
          if negb (cmsLoop =? kForever) then
            let* t := TimeUntil (p_after p) msEnd in
            let cmsNext := s32 t in
            if cmsNext <? 0 then Val (PReturned true, out ++ [m], q)
            else Process_loop ps cmsLoop cmsNext msEnd limit (out ++ [m]) q
          else Process_loop ps cmsLoop cmsNext msEnd limit (out ++ [m]) q
      end
  end.

Definition ProcessMessages (ps : list round) (now cmsLoop : Z) (q : MQ) : res (processed * list Message * MQ) :=
  let* msEnd := (if kForever =? cmsLoop then Val 0 else TimeAfter RTC_DCHECK_IS_ON now cmsLoop) in
  Process_loop ps cmsLoop cmsLoop msEnd kSlowDispatchLoggingThreshold [] q.

(** [DoDestroy], once: everything left is dropped. The registration with the
    socket server and with the manager is [RemoveInternal]. *)
Definition DoDestroy (fDestroyed_ : bool) (q : MQ) : bool * MQ :=
  if fDestroyed_ then (true, q) else (true, (ClearInternal None MQID_ANY None q).2).
End Queue.

(** ** The order of the delayed messages *)

(** The order in which delayed messages become ready: by time, and at the same
    time by the number of their posting. *)
Definition sooner (a b : DelayedMessage) : Prop :=
  run_time_ms_ a < run_time_ms_ b ∨ (run_time_ms_ a = run_time_ms_ b ∧ message_number_ a ≤ message_number_ b).

Definition time_ok (t : Z) : Prop := - 2 ^ 62 ≤ t < 2 ^ 62.

Lemma time_diff_ok a b : time_ok a → time_ok b → TimeDiff a b = Val (a - b).
Proof. unfold time_ok. intros. apply int64_ok_val. lia. Qed.

Lemma dm_lt_sooner a b : dm_lt a b = false ↔ sooner a b.
Proof.
  unfold sooner, dm_lt. rewrite orb_false_iff, andb_false_iff, Z.eqb_neq, !Z.ltb_ge. lia.
Qed.

Lemma sooner_time a b : sooner a b → run_time_ms_ a ≤ run_time_ms_ b.
Proof. unfold sooner. lia. Qed.

Section Theory.
Context (RTC_DCHECK_IS_ON : bool) {H : StdHeap dm_lt}.

Notation heap := (is_heap dm_lt).

Lemma heap_soonest d ds : heap (d :: ds) → Forall (sooner d) ds.
Proof.
  intros Hh. rewrite Forall_forall. intros e [i Hi]%list_elem_of_lookup. by apply dm_lt_sooner, (heap_top dm_lt d ds Hh (S i)).
Qed.

(** What [promote] answers: the due messages in order, the others, and the
    time until the soonest of the others. *)
Record promoted (now next : Z) (ds due rest : list DelayedMessage) : Prop := {
  pr_perm : due ++ rest ≡ₚ ds;
  pr_sorted : StronglySorted sooner due;
  pr_due : Forall (λ d, run_time_ms_ d ≤ now) due;
  pr_rest : Forall (λ d, now < run_time_ms_ d) rest;
  pr_heap : heap rest;
  pr_next : match pq_top rest with Some d => next = run_time_ms_ d - now ∧ Forall (sooner d) rest | None => next = kForever end
}.

Lemma promote_spec n : ∀ now ms ds,
  (length ds ≤ n)%nat → heap ds → time_ok now → Forall (λ d, time_ok (run_time_ms_ d)) ds →
  ∃ next due rest, promote n now ms ds = Val (next, ms ++ (msg_ <$> due), rest) ∧ promoted now next ds due rest.
Proof.
  induction n as [|n IH]; intros now ms ds Hl Hh Hn Ht; destruct ds as [|d ds]; simpl in Hl; try lia.
  1,2: exists kForever, [], []; rewrite app_nil_r; split; [done|]; split; try done; try constructor.
  pose proof (heap_soonest d ds Hh) as Hs. apply Forall_cons in Ht as [Htd Ht]. cbn [promote pq_top list.head].
  destruct (Z.ltb_spec now (run_time_ms_ d)) as [Hlt|Hle].
  - rewrite time_diff_ok by done. cbn [mbind_res]. exists (run_time_ms_ d - now), [], (d :: ds). rewrite app_nil_r.
    assert (sooner d d) by (unfold sooner; lia).
    split; [done|]. split; try done; try constructor; try done.
    + eapply Forall_impl; [exact Hs|]. intros e ?%sooner_time. lia.
    + by constructor.
  - destruct (pq_pop_spec dm_lt d ds Hh) as [Hp Hh'].
    destruct (IH now (ms ++ [msg_ d]) (pq_pop dm_lt (d :: ds))) as (next & due & rest & -> & [P1 P2 P3 P4 P5 P6]);
      [rewrite Hp; lia|done|done|by rewrite Hp|].
    exists next, (d :: due), rest. split; [by rewrite <- app_assoc|].
    assert (due ++ rest ≡ₚ ds) as P by by rewrite P1. split; try done.
    + simpl. by rewrite P.
    + constructor; [done|]. rewrite <- P, Forall_app in Hs. by destruct Hs.
    + by constructor.
Qed.

(** ** The invariant *)

Record mq_ok (q : MQ) : Prop := {
  ok_heap : heap (delayed_messages_ q);
  ok_times : Forall (λ d, time_ok (run_time_ms_ d)) (delayed_messages_ q);
  ok_num : 0 ≤ delayed_next_num_ q < 2 ^ 32
}.

(** The messages in the queue, and the balance of its history. *)
Definition held (q : MQ) : list Message :=
  (if fPeekKeep_ q then [msgPeek_ q] else []) ++ messages_ q ++ (msg_ <$> delayed_messages_ q).
Definition balanced (q : MQ) : Prop := posted q ≡ₚ held q ++ deleted q ++ handed q.

Lemma Thread_new_ok : mq_ok Thread_new ∧ balanced Thread_new.
Proof. split; [split; simpl; [apply is_heap_nil|by apply Forall_nil|lia]|unfold balanced; reflexivity]. Qed.

(** A message that disposes something has no handler. *)
Definition msg_ok (m : Message) : Prop := message_id m = MQID_DISPOSE → phandler m = None.

Definition call_ok (k : call) : Prop :=
  match k with
  | KPost m | KPush m => msg_ok m
  | KPostDelayed now d m => msg_ok m ∧ time_ok now ∧ 0 ≤ d ∧ time_ok (now + d)
  | KPostAt now t m => msg_ok m ∧ time_ok now ∧ time_ok t
  | KPushDelayed _ t m => msg_ok m ∧ time_ok t
  | _ => True
  end.

(** ** Clearing *)

Definition history (removed : bool) (ms : list Message) (q : MQ) : MQ :=
  if removed then set_history (posted q) (deleted q) (handed q ++ ms) q
  else set_history (posted q) (deleted q ++ ms) (handed q) q.

Lemma history_nil r q : history r [] q = q.
Proof. destruct q, r; unfold history, set_history; simpl; by rewrite app_nil_r. Qed.

Lemma history_app r ms ms' q : history r ms' (history r ms q) = history r (ms ++ ms') q.
Proof. destruct q, r; unfold history, set_history; simpl; by rewrite app_assoc. Qed.

Lemma drop_all ms : ∀ removed q,
  foldl (λ acc m, drop_msg m acc) (removed, q) ms =
    ((λ r, r ++ ms) <$> removed, history (bool_decide (is_Some removed)) ms q).
Proof.
  induction ms as [|m ms IH]; intros removed q.
  - rewrite history_nil. destruct removed; simpl; [by rewrite app_nil_r|done].
  - cbn [foldl]. unfold drop_msg at 2. destruct removed as [r|]; cbn [fst snd]; rewrite IH.
    + change (hand_over m q) with (history true [m] q). rewrite bool_decide_eq_true_2 by done.
      rewrite history_app. simpl. by rewrite <- app_assoc.
    + change (delete_payload m q) with (history false [m] q). rewrite bool_decide_eq_false_2 by (by intros [? ?]).
      by rewrite history_app.
Qed.

Lemma filter_msgs (f : Message → bool) (ds : list DelayedMessage) : msg_ <$> filter (λ d, f (msg_ d)) ds = filter f (msg_ <$> ds).
Proof.
  induction ds as [|d ds IH]; [done|]. rewrite fmap_cons, !filter_cons. cbn beta.
  destruct (decide (f (msg_ d))); [by rewrite fmap_cons, IH|done].
Qed.

Lemma filter_split {A} (f : A → bool) (l : list A) : l ≡ₚ filter f l ++ filter (λ x, negb (f x)) l.
Proof.
  induction l as [|x l IH]; [done|]. rewrite !filter_cons. destruct (f x); simpl; [by rewrite <- IH|].
  rewrite <- Permutation_middle. by rewrite <- IH.
Qed.

Lemma filter_Forall {A} (P : A → Prop) (f : A → bool) (l : list A) : Forall P l → Forall P (filter f l).
Proof. induction 1 as [|x l Hx _ IH]; [constructor|]. rewrite filter_cons. case_decide; [by constructor|done]. Qed.

(** [Clear] takes exactly the matching messages, in the order of the queue. *)
Lemma mq_Clear_spec h id removed q :
  let f := Match h id in
  let gone := filter f (held q) in
  ∃ q', ClearInternal h id removed q = ((λ r, r ++ gone) <$> removed, q') ∧
    messages_ q' = filter (λ m, negb (f m)) (messages_ q) ∧
    delayed_messages_ q' = make_heap (filter (λ d, negb (f (msg_ d))) (delayed_messages_ q)) ∧
    fPeekKeep_ q' = fPeekKeep_ q && negb (f (msgPeek_ q)) ∧ msgPeek_ q' = msgPeek_ q ∧
    delayed_next_num_ q' = delayed_next_num_ q ∧ stop_ q' = stop_ q ∧ posted q' = posted q ∧
    deleted q' = deleted q ++ (if removed then [] else gone) ∧ handed q' = handed q ++ (if removed then gone else []).
Proof.
  intros f gone. unfold ClearInternal. fold f.
  set (pk := if fPeekKeep_ q && f (msgPeek_ q) then [msgPeek_ q] else []).
  assert ((if fPeekKeep_ q && f (msgPeek_ q)
     then let '(r, q0) := drop_msg (msgPeek_ q) (removed, q) in (r, set_peek false (msgPeek_ q0) q0) else (removed, q)) =
    ((λ r, r ++ pk) <$> removed,
     history (bool_decide (is_Some removed)) pk (set_peek (fPeekKeep_ q && negb (f (msgPeek_ q))) (msgPeek_ q) q))) as ->.
  { subst pk. destruct (f (msgPeek_ q)), (fPeekKeep_ q) eqn:?, q, removed; simplify_eq/=; unfold history, set_history, set_peek; simpl; rewrite ?app_nil_r; done. }
  set (q1 := history _ pk _). cbn zeta. rewrite drop_all.
  replace (bool_decide (is_Some ((λ r, r ++ pk) <$> removed))) with (bool_decide (is_Some removed))
    by (apply bool_decide_ext; by rewrite fmap_is_Some).
  set (q2 := set_lists _ _ _). rewrite drop_all, filter_msgs.
  eexists. split; [f_equal|].
  - assert (gone = pk ++ filter f (messages_ q1) ++ filter f (msg_ <$> delayed_messages_ q2)) as ->.
    { subst gone pk. unfold held. rewrite !filter_app. f_equal; [|subst q2 q1; by destruct q, removed].
      destruct (fPeekKeep_ q); cbn [andb]; [|done]. rewrite filter_cons. destruct (f (msgPeek_ q)); done. }
    destruct removed; simpl; [|done]. by rewrite <- !app_assoc.
  - subst q2 q1. assert (gone = pk ++ filter f (messages_ q) ++ filter f (msg_ <$> delayed_messages_ q)) as ->.
    { subst gone pk. unfold held. rewrite !filter_app. f_equal.
      destruct (fPeekKeep_ q); cbn [andb]; [|done]. rewrite filter_cons. destruct (f (msgPeek_ q)); done. }
    destruct removed; simpl; rewrite ?app_nil_r, <- ?app_assoc; by destruct q.
Qed.

(** ** Every step keeps the invariant and the balance *)

Record good (q : MQ) : Prop := Good {
  g_ok : mq_ok q;
  g_balanced : balanced q;
  g_msgs : Forall msg_ok (held q)
}.

(** The number of delayed messages grows by at most one a call. *)
Definition numbers (n : Z) (q : MQ) : Prop := delayed_next_num_ q + n < 2 ^ 32.

Lemma good_post m q : good q → msg_ok m → good (Post_locked m q).
Proof.
  intros [[H1 H2 H3] Hb Hm] Hmo. split; [by split| |].
  - unfold balanced, held in *. simpl. rewrite Hb. solve_Permutation.
  - unfold held in *. simpl. rewrite !Forall_app in *. naive_solver.
Qed.

Lemma good_refused m q : good q → good (delete_payload m (note_posted m q)).
Proof.
  intros [[H1 H2 H3] Hb Hm]. split; [by split| |done]. unfold balanced, held in *. simpl. rewrite Hb. solve_Permutation.
Qed.

Lemma dchk c : c = true → dcheck RTC_DCHECK_IS_ON c = Val ().
Proof. intros ->. unfold dcheck. by destruct RTC_DCHECK_IS_ON. Qed.

Lemma good_delay d t m q :
  good q → msg_ok m → time_ok t → numbers 1 q →
  ∃ q', DoDelayPost_locked RTC_DCHECK_IS_ON d t m q = Val q' ∧ good q' ∧ delayed_next_num_ q' = delayed_next_num_ q + 1 ∧
    delayed_messages_ q' ≡ₚ DMsg d t (delayed_next_num_ q) m :: delayed_messages_ q ∧ messages_ q' = messages_ q.
Proof.
  intros [[H1 H2 H3] Hb Hm] Hmo Ht Hn. unfold numbers in Hn. unfold DoDelayPost_locked. rewrite u32_small by lia.
  rewrite dchk by (rewrite (proj2 (Z.eqb_neq 0 _)) by lia; done). cbn [mbind_res]. eexists. split; [done|].
  destruct (pq_push_spec dm_lt (DMsg d t (delayed_next_num_ q) m) _ H1) as [Hp Hh].
  split; [|by split]. split; [split; simpl; [done|rewrite Hp; by constructor|lia]| |].
  - unfold balanced, held in *. simpl. rewrite Hp, Hb, fmap_cons. simpl. solve_Permutation.
  - unfold held in *. simpl. rewrite Hp, fmap_cons. rewrite !Forall_app, Forall_cons in *. naive_solver.
Qed.

Lemma held_clear (f : Message → bool) q q' :
  messages_ q' = filter (λ m, negb (f m)) (messages_ q) →
  delayed_messages_ q' = make_heap (filter (λ d, negb (f (msg_ d))) (delayed_messages_ q)) →
  fPeekKeep_ q' = fPeekKeep_ q && negb (f (msgPeek_ q)) → msgPeek_ q' = msgPeek_ q →
  held q' ≡ₚ filter (λ m, negb (f m)) (held q).
Proof.
  intros E1 E2 E3 E4. unfold held. rewrite E1, E2, E3, E4, !filter_app.
  rewrite (proj1 (make_heap_spec _)). rewrite (filter_msgs (λ m, negb (f m))).
  destruct (fPeekKeep_ q); cbn [andb]; [|done]. rewrite filter_cons. by destruct (f (msgPeek_ q)).
Qed.

Lemma good_clear h id removed q : good q → good (ClearInternal h id removed q).2.
Proof.
  intros [[H1 H2 H3] Hb Hm]. destruct (mq_Clear_spec h id removed q) as (q' & -> & E1 & E2 & E3 & E4 & E5 & _ & E7 & E8 & E9).
  cbn [snd]. set (f := Match h id) in *. pose proof (held_clear f q q' E1 E2 E3 E4) as Hh.
  destruct (make_heap_spec (filter (λ d, negb (f (msg_ d))) (delayed_messages_ q))) as [Hp Hhp].
  split; [split| |].
  - by rewrite E2.
  - rewrite E2, Hp. by apply (filter_Forall _ (λ x, negb _)).
  - by rewrite E5.
  - unfold balanced in *. rewrite E7, E8, E9, Hh, Hb, (filter_split f (held q)) at 1. destruct removed; rewrite app_nil_r; solve_Permutation.
  - rewrite Hh. by apply (filter_Forall _ (λ x, negb _)).
Qed.

Lemma run_call_good k q :
  good q → call_ok k → numbers 1 q →
  ∃ q', run_call RTC_DCHECK_IS_ON k q = Val q' ∧ good q' ∧ delayed_next_num_ q' ≤ delayed_next_num_ q + 1.
Proof.
  intros Hg Hk Hn. destruct k as [m|m|now d m|now t m|d t m|h id keep| |]; cbn [run_call call_ok] in *.
  - unfold Post. rewrite dchk by done. cbn [mbind_res]. destruct (IsQuitting q); eexists; (split; [done|]).
    + split; [by apply good_refused|simpl; lia].
    + split; [by apply good_post|simpl; lia].
  - eexists. split; [done|]. split; [by apply good_post|simpl; lia].
  - destruct Hk as (Hm & Ht & Hd & Htd). unfold PostDelayed, TimeAfter, time_ok in *.
    rewrite (proj2 (Z.leb_le 0 d)), int64_ok_val by lia. destruct RTC_DCHECK_IS_ON eqn:?; cbn [c_assert mbind_res]; unfold DoDelayPost;
      (destruct (IsQuitting q); [eexists; split; [done|]; split; [by apply good_refused|simpl; lia]|]);
      destruct (good_delay d (now + d) m q) as (q' & E & ? & ? & _); try done; subst; exists q'; split_and!; try done; lia.
  - destruct Hk as (Hm & Ht & Htd). unfold PostAt, TimeUntil, time_ok in *. rewrite int64_ok_val by lia. cbn [mbind_res].
    unfold DoDelayPost. destruct (IsQuitting q); [eexists; split; [done|]; split; [by apply good_refused|simpl; lia]|].
    destruct (good_delay (t - now) t m q) as (q' & -> & ? & ? & _); try done. exists q'. split_and!; try done. lia.
  - destruct Hk as (Hm & Ht). destruct (good_delay d t m q) as (q' & -> & ? & ? & _); try done. exists q'. split_and!; try done. lia.
  - eexists. split; [done|]. split; [by apply good_clear|]. unfold Clear.
    destruct (mq_Clear_spec h id (if keep then Some [] else None) q) as (q' & -> & _ & _ & _ & _ & E5 & _). cbn [snd]. lia.
  - eexists. split; [done|]. destruct Hg as [[? ? ?] Hb Hm]. split; [by split; [split| |]|simpl; lia].
  - eexists. split; [done|]. destruct Hg as [[? ? ?] Hb Hm]. split; [by split; [split| |]|simpl; lia].
Qed.

Lemma run_calls_good ks : ∀ n q,
  good q → Forall call_ok ks → 0 ≤ n → numbers (Z.of_nat (length ks) + n) q →
  ∃ q', run_calls RTC_DCHECK_IS_ON ks q = Val q' ∧ good q' ∧ numbers n q'.
Proof.
  induction ks as [|k ks IH]; intros n q Hg Hk Hn0 Hn; [by exists q|]. apply Forall_cons in Hk as [Hk Hks].
  unfold numbers in *. cbn [length] in Hn. destruct (run_call_good k q Hg Hk) as (q1 & E1 & Hg1 & Hn1); [unfold numbers; lia|].
  cbn [run_calls]. rewrite E1. cbn [mbind_res]. apply IH; [done|done|done|lia].
Qed.

(** A message has left the queue and is not accounted for yet. *)
Record good_out (m : Message) (q : MQ) : Prop := {
  go_ok : mq_ok q;
  go_balanced : posted q ≡ₚ m :: held q ++ deleted q ++ handed q;
  go_msgs : Forall msg_ok (m :: held q)
}.

Definition outcome (om : option Message) (q : MQ) : Prop := match om with Some m => good_out m q | None => good q end.

Lemma set_lists_good ms ds q : good q → mq_ok (set_lists ms ds q) → ms ++ (msg_ <$> ds) ≡ₚ messages_ q ++ (msg_ <$> delayed_messages_ q) →
  good (set_lists ms ds q).
Proof.
  intros [_ Hb Hm] Hok Hp. unfold balanced, held in *. split; [done| |]; unfold balanced, held; simpl; by rewrite Hp.
Qed.

Lemma take_first_good m ms q : good q → messages_ q = m :: ms → good_out m (set_lists ms (delayed_messages_ q) q).
Proof.
  intros [[H1 H2 H3] Hb Hm] E. unfold balanced, held in *. rewrite E in *. split; [by split| |]; unfold held; simpl.
  - rewrite Hb. simpl. solve_Permutation.
  - rewrite !Forall_app, Forall_cons in *. rewrite !Forall_app. naive_solver.
Qed.

Lemma locked_pass_good fp now dn q :
  good q → time_ok now →
  ∃ next om q', locked_pass fp now dn q = Val (next, om, q') ∧ outcome om q' ∧
    delayed_next_num_ q' = delayed_next_num_ q ∧ fPeekKeep_ q' = fPeekKeep_ q.
Proof.
  intros Hg Ht. unfold locked_pass.
  assert (∃ next q1, (if fp then let* '(next, ms, ds) := promote (length (delayed_messages_ q)) now (messages_ q) (delayed_messages_ q) in
      Val (next, set_lists ms ds q) else Val (dn, q)) = Val (next, q1) ∧ good q1 ∧ delayed_next_num_ q1 = delayed_next_num_ q ∧
      fPeekKeep_ q1 = fPeekKeep_ q) as (next & q1 & -> & Hg1 & Hn1 & Hp1).
  { destruct fp; [|eauto 7]. destruct (g_ok q Hg) as [H1 H2 H3].
    destruct (promote_spec (length (delayed_messages_ q)) now (messages_ q) (delayed_messages_ q)) as (next & due & rest & -> & [P1 _ _ _ P5 _]); try done.
    cbn [mbind_res]. eexists _, _. split; [done|]. split; [|done]. apply set_lists_good; [done| |].
    - split; simpl; [done| |done]. rewrite <- P1, Forall_app in H2. by destruct H2.
    - rewrite <- P1, fmap_app. by rewrite <- app_assoc. }
  cbn [mbind_res]. destruct (messages_ q1) as [|m ms] eqn:E.
  - exists next, None, q1. done.
  - exists next, (Some m), (set_lists ms (delayed_messages_ q1) q1). split; [done|]. split; [|done]. by apply take_first_good.
Qed.

Lemma dispose_good m q : good_out m q → good (delete_payload m q).
Proof.
  intros [[H1 H2 H3] Hb Hm]. apply Forall_cons in Hm as [_ Hm]. split; [by split| |done].
  unfold balanced, held in *. simpl. rewrite Hb. solve_Permutation.
Qed.

Definition turn_ok (t : turn) : Prop := Forall call_ok (t_before t) ∧ Forall call_ok (t_after t) ∧ time_ok (t_now t).
Definition turn_calls (t : turn) : Z := Z.of_nat (length (t_before t)) + Z.of_nat (length (t_after t)).
Definition env_calls (env : list turn) : Z := foldr (λ t n, turn_calls t + n) 0 env.

Lemma env_calls_nonneg env : 0 ≤ env_calls env.
Proof. induction env as [|t env IH]; [done|]. cbn [env_calls foldr]. fold (env_calls env). unfold turn_calls. lia. Qed.

Definition got_msg (g : got) : option Message := match g with GotMsg m => Some m | _ => None end.

Lemma Get_loop_good env : ∀ n cmsWait msStart msCurrent el fp dn waits q,
  good q → Forall turn_ok env → time_ok msStart → time_ok msCurrent → 0 ≤ n → numbers (env_calls env + n) q →
  ∃ g waits' q', Get_loop RTC_DCHECK_IS_ON env cmsWait msStart msCurrent el fp dn waits q = Val (g, waits', q') ∧
    outcome (got_msg g) q' ∧ numbers n q'.
Proof.
  induction env as [|t env IH]; intros n cmsWait msStart msCurrent el fp dn waits q Hg He Hs Hc Hn0 Hn.
  { by exists StillRunning, waits, q. }
  apply Forall_cons in He as [(Hb & Ha & Ht) He]. cbn [env_calls foldr] in Hn. fold (env_calls env) in Hn.
  pose proof (env_calls_nonneg env) as Hnn. unfold turn_calls in Hn. cbn [Get_loop].
  destruct (run_calls_good (t_before t) (Z.of_nat (length (t_after t)) + env_calls env + n) q Hg Hb) as (q1 & -> & Hg1 & Hn1);
    [lia|unfold numbers in *; lia|]. cbn [mbind_res].
  destruct (locked_pass_good fp msCurrent dn q1 Hg1 Hc) as (next & om & q2 & -> & Ho & En & _). cbn [mbind_res].
  unfold numbers in Hn1. rewrite <- En in Hn1. destruct om as [m|]; cbn [outcome] in Ho.
  - destruct (Z.eqb_spec MQID_DISPOSE (message_id m)) as [E|E].
    + rewrite dchk by (apply bool_decide_eq_true_2; pose proof (go_msgs _ _ Ho) as Hm; apply Forall_cons in Hm as [Hm _]; by apply Hm).
      cbn [mbind_res]. apply IH; try done; [by apply dispose_good|]. unfold numbers. simpl. lia.
    + exists (GotMsg m), waits, q2. split_and!; try done. unfold numbers. lia.
  - destruct (run_calls_good (t_after t) (env_calls env + n) q2 Ho Ha) as (q3 & -> & Hg3 & Hn3);
      [lia|unfold numbers; lia|]. cbn [mbind_res].
    assert (numbers n q3) as Hn4 by (unfold numbers in *; lia).
    destruct (IsQuitting q3); [exists GotNone; eauto|]. destruct (t_wait t); cbn [negb]; [|exists GotNone; eauto].
    rewrite time_diff_ok by done. cbn [mbind_res]. destruct (negb _ && _); [exists GotNone; eauto|]. by apply IH.
Qed.

(** Only [Peek] puts a message aside. *)
Lemma run_call_peek k q q' : run_call RTC_DCHECK_IS_ON k q = Val q' → fPeekKeep_ q = false → fPeekKeep_ q' = false.
Proof.
  assert (∀ d t m q q', DoDelayPost_locked RTC_DCHECK_IS_ON d t m q = Val q' → fPeekKeep_ q' = fPeekKeep_ q) as Hl.
  { clear. intros d t m q q' E. unfold DoDelayPost_locked in E. inv_bind E. by simplify_eq. }
  assert (∀ d t m q q', DoDelayPost RTC_DCHECK_IS_ON d t m q = Val q' → fPeekKeep_ q' = fPeekKeep_ q) as Hd.
  { clear -Hl. intros d t m q q' E. unfold DoDelayPost in E. destruct (IsQuitting q); [by simplify_eq|by apply Hl in E]. }
  destruct k as [m|m|now d m|now t m|d t m|h id keep| |]; cbn [run_call]; intros E Hq; simplify_eq; try done.
  - unfold Post in E. inv_bind E. destruct (IsQuitting q); by simplify_eq.
  - unfold PostDelayed in E. inv_bind E. apply Hd in E. congruence.
  - unfold PostAt in E. inv_bind E. apply Hd in E. congruence.
  - apply Hl in E. congruence.
  - unfold Clear. destruct (mq_Clear_spec h id (if keep then Some [] else None) q) as (q' & -> & _ & _ & E3 & _). cbn [snd].
    by rewrite E3, Hq.
Qed.

Lemma run_calls_peek ks : ∀ q q', run_calls RTC_DCHECK_IS_ON ks q = Val q' → fPeekKeep_ q = false → fPeekKeep_ q' = false.
Proof.
  induction ks as [|k ks IH]; intros q q' E Hq; cbn [run_calls] in E; [by simplify_eq|]. inv_bind E.
  eapply IH; [done|]. by eapply run_call_peek.
Qed.

Lemma locked_pass_peek fp now dn q next om q' :
  locked_pass fp now dn q = Val (next, om, q') → fPeekKeep_ q' = fPeekKeep_ q.
Proof.
  unfold locked_pass. intros E. apply bind_Val in E as ([n q1] & E1 & E).
  assert (fPeekKeep_ q1 = fPeekKeep_ q) as Hq1.
  { destruct fp; [|by simplify_eq]. apply bind_Val in E1 as ([[n' ms] ds] & _ & E1). by simplify_eq. }
  destruct (messages_ q1); by simplify_eq.
Qed.

Lemma Get_loop_peek env : ∀ cmsWait msStart msCurrent el fp dn waits q r,
  Get_loop RTC_DCHECK_IS_ON env cmsWait msStart msCurrent el fp dn waits q = Val r →
  fPeekKeep_ q = false → fPeekKeep_ r.2 = false.
Proof.
  induction env as [|t env IH]; intros cmsWait msStart msCurrent el fp dn waits q r E Hq; cbn [Get_loop] in E; [by simplify_eq|].
  inv_bind E. apply run_calls_peek in Ha; [|done]. apply bind_Val in E as ([[next om] q2] & E2 & E).
  apply locked_pass_peek in E2. rewrite Ha in E2. destruct om as [m|].
  - destruct (_ =? _); [|by simplify_eq]. inv_bind E. by eapply IH.
  - inv_bind E. apply run_calls_peek in Ha0; [|done]. destruct (IsQuitting a0); [by simplify_eq|].
    destruct (t_wait t); cbn [negb] in E; [|by simplify_eq]. inv_bind E. destruct (negb _ && _); [by simplify_eq|by eapply IH].
Qed.

(** ** Histories *)

(** The calls of all threads, one after another: the calls of any thread, and
    the owner's [Get] and [Peek] with what happens during them. *)
Inductive action :=
  | ACall (k : call)
  | AGet (env : list turn) (now cmsWait : Z)
  | APeek (env : list turn) (now cmsWait : Z).

(** Whether the call has returned: a [Get] that used up what happens during
    it still waits. *)
Definition run_action (a : action) (q : MQ) : res (bool * MQ) :=
  match a with
  | ACall k => let* q := run_call RTC_DCHECK_IS_ON k q in Val (true, q)
  | AGet env now cmsWait =>
      let* '(g, _, q) := Get RTC_DCHECK_IS_ON env now cmsWait q in
      Val (match g with GotMsg m => (true, hand_over m q) | GotNone => (true, q) | StillRunning => (false, q) end)
  | APeek env now cmsWait =>
      let* '(g, _, q) := Peek RTC_DCHECK_IS_ON env now cmsWait q in
      Val (match g with StillRunning => (false, q) | _ => (true, q) end)
  end.

(** The actions up to the end of the history or to the call that still waits:
    how many returned, and the queue. *)
Fixpoint run_actions (l : list action) (q : MQ) : res (nat * MQ) :=
  match l with
  | [] => Val (0%nat, q)
  | a :: l =>
      let* '(returned, q) := run_action a q in
      if returned : bool then let* '(n, q) := run_actions l q in Val (S n, q) else Val (0%nat, q)
  end.

Definition action_ok (a : action) : Prop :=
  match a with
  | ACall k => call_ok k
  | AGet env now _ | APeek env now _ => Forall turn_ok env ∧ time_ok now
  end.

Definition action_calls (a : action) : Z :=
  match a with ACall _ => 1 | AGet env _ _ | APeek env _ _ => env_calls env end.

Lemma Get_good n env now cmsWait q :
  good q → Forall turn_ok env → time_ok now → 0 ≤ n → numbers (env_calls env + n) q →
  ∃ g waits q', Get RTC_DCHECK_IS_ON env now cmsWait q = Val (g, waits, q') ∧ outcome (got_msg g) q' ∧ numbers n q' ∧
    fPeekKeep_ q' = false.
Proof.
  intros Hg He Ht Hn0 Hn. unfold Get. pose proof (env_calls_nonneg env). destruct (fPeekKeep_ q) eqn:Ek.
  - exists (GotMsg (msgPeek_ q)), [], (set_peek false (msgPeek_ q) q). split; [done|]. split; [|split; [unfold numbers in *; simpl; lia|done]].
    destruct Hg as [[H1 H2 H3] Hb Hm]. unfold balanced, held in *. rewrite Ek in *. split; [by split| |]; unfold held; simpl; [|done].
    rewrite Hb. done.
  - destruct (Get_loop_good env n cmsWait now now 0 true kForever [] q) as (g & waits & q' & E & Ho & Hn'); try done.
    exists g, waits, q'. split_and!; try done. by apply (Get_loop_peek _ _ _ _ _ _ _ _ _ _ E).
Qed.

Lemma hand_over_good m q : good_out m q → good (hand_over m q).
Proof.
  intros [[H1 H2 H3] Hb Hm]. apply Forall_cons in Hm as [_ Hm]. split; [by split| |done].
  unfold balanced, held in *. simpl. rewrite Hb. solve_Permutation.
Qed.

Lemma keep_good m q : good_out m q → fPeekKeep_ q = false → good (set_peek true m q).
Proof.
  intros [[H1 H2 H3] Hb Hm] Hk. unfold balanced, held in *. rewrite Hk in *.
  split; [by split| |]; unfold balanced, held; simpl; [by rewrite Hb|done].
Qed.

Lemma run_action_good n a q :
  good q → action_ok a → 0 ≤ n → numbers (action_calls a + n) q →
  ∃ b q', run_action a q = Val (b, q') ∧ good q' ∧ numbers n q'.
Proof.
  intros Hg Ha Hn0 Hn. destruct a as [k|env now w|env now w]; cbn [run_action action_ok action_calls] in *.
  - destruct (run_call_good k q Hg Ha) as (q' & -> & ? & ?); [unfold numbers in *; lia|]. exists true, q'. split_and!; try done. unfold numbers in *. lia.
  - destruct Ha as [He Ht]. destruct (Get_good n env now w q) as (g & waits & q' & -> & Ho & Hn' & _); try done. cbn [mbind_res].
    destruct g; cbn [got_msg outcome] in Ho; eexists _, _; (split; [done|]); [split; [by apply hand_over_good|done]|done..].
  - destruct Ha as [He Ht]. unfold Peek. destruct (fPeekKeep_ q) eqn:Ek.
    { cbn [mbind_res]. exists true, q. split_and!; try done. pose proof (env_calls_nonneg env). unfold numbers in *. lia. }
    destruct (Get_good n env now w q) as (g & waits & q' & -> & Ho & Hn' & Hk); try done. cbn [mbind_res].
    destruct g; cbn [got_msg outcome mbind_res] in *; eexists _, _; (split; [done|]); [split; [by apply keep_good|done]|done..].
Qed.

(** ** What [Get] returns *)

Definition is_dispose (m : Message) : bool := MQID_DISPOSE =? message_id m.

(** Nobody else uses the queue. *)
Definition quiet (t : turn) : Prop := t_before t = [] ∧ t_after t = [].

(** The queue after the first [i] ready messages were disposed of and the
    ready messages from [j] on remain. *)
Definition taken (i j : nat) (ready : list Message) (rest : list DelayedMessage) (q : MQ) : MQ :=
  set_history (posted q) (deleted q ++ take i ready) (handed q) (set_lists (drop j ready) rest q).

(** The first ready message that is not to be disposed of. *)
Fixpoint first_msg (i : nat) (ready : list Message) : option (nat * Message) :=
  match ready with
  | [] => None
  | m :: ready => if is_dispose m then first_msg (S i) ready else Some (i, m)
  end.

Lemma first_msg_shift i ready : first_msg i ready = (λ '(j, m), (i + j, m)%nat) <$> first_msg 0 ready.
Proof.
  revert i. induction ready as [|m ready IH]; intros i; [done|]. cbn [first_msg]. destruct (is_dispose m).
  - rewrite IH, (IH 1%nat). destruct (first_msg 0 ready) as [[j m']|]; [|done]. cbn. do 2 f_equal. lia.
  - cbn. by rewrite Nat.add_0_r.
Qed.

Lemma Get_loop_ready ready : ∀ env cmsWait msStart msCurrent el dn waits q,
  Forall quiet env → (length ready < length env)%nat → messages_ q = ready → Forall msg_ok ready →
  match first_msg 0 ready with
  | Some (i, m) =>
      Get_loop RTC_DCHECK_IS_ON env cmsWait msStart msCurrent el false dn waits q =
        Val (GotMsg m, waits, taken i (S i) ready (delayed_messages_ q) q)
  | None =>
      IsQuitting q = true →
      Get_loop RTC_DCHECK_IS_ON env cmsWait msStart msCurrent el false dn waits q =
        Val (GotNone, waits, taken (length ready) (length ready) ready (delayed_messages_ q) q)
  end.
Proof.
  induction ready as [|m ready IH]; intros env cmsWait msStart msCurrent el dn waits q Hq Hl Hm Hok;
    (destruct env as [|t env]; [simpl in Hl; lia|]); apply Forall_cons in Hq as [[Hb Ha] Hq]; cbn [first_msg Get_loop];
    rewrite Hb; cbn [run_calls mbind_res]; unfold locked_pass; cbn [mbind_res]; rewrite Hm.
  - intros Hquit. cbn [mbind_res]. rewrite Ha. cbn [run_calls mbind_res]. rewrite Hquit. unfold taken. simpl. rewrite app_nil_r.
    do 2 f_equal. destruct q; simpl in *; by subst.
  - cbn [mbind_res]. apply Forall_cons in Hok as [Hmo Hok]. fold (is_dispose m).
    destruct (is_dispose m) eqn:Ed; [|unfold taken; simpl; rewrite app_nil_r, ?drop_0; by destruct q].
    rewrite dchk by (apply bool_decide_eq_true_2, Hmo; symmetry; by apply Z.eqb_eq). cbn [mbind_res].
    set (q1 := delete_payload m _). rewrite first_msg_shift.
    specialize (IH env cmsWait msStart msCurrent el dn waits q1 Hq ltac:(simpl in Hl; lia) eq_refl Hok).
    destruct (first_msg 0 ready) as [[i m']|]; cbn.
    + rewrite IH. do 2 f_equal. unfold taken, q1. simpl. by rewrite <- app_assoc.
    + intros Hquit. rewrite IH by done. do 2 f_equal. unfold taken, q1. simpl. by rewrite <- app_assoc.
Qed.

(** The first pass is a later pass over the queue with the due messages. *)
Lemma Get_loop_first env cmsWait msStart msCurrent el dn waits q next ms rest :
  Forall quiet env →
  promote (length (delayed_messages_ q)) msCurrent (messages_ q) (delayed_messages_ q) = Val (next, ms, rest) →
  env ≠ [] →
  Get_loop RTC_DCHECK_IS_ON env cmsWait msStart msCurrent el true dn waits q =
    Get_loop RTC_DCHECK_IS_ON env cmsWait msStart msCurrent el false next waits (set_lists ms rest q).
Proof.
  intros Hq Hp Hne. destruct env as [|t env]; [done|]. apply Forall_cons in Hq as [[Hb Ha] Hq]. cbn [Get_loop]. rewrite Hb.
  cbn [run_calls mbind_res]. unfold locked_pass. rewrite Hp. done.
Qed.

Lemma Get_quiet_spec env now cmsWait q :
  mq_ok q → Forall msg_ok (held q) → fPeekKeep_ q = false → time_ok now →
  Forall quiet env → (length (messages_ q) + length (delayed_messages_ q) < length env)%nat →
  ∃ due rest, due ++ rest ≡ₚ delayed_messages_ q ∧ StronglySorted sooner due ∧
    Forall (λ d, run_time_ms_ d ≤ now) due ∧ Forall (λ d, now < run_time_ms_ d) rest ∧ is_heap dm_lt rest ∧
    let ready := messages_ q ++ (msg_ <$> due) in
    match first_msg 0 ready with
    | Some (i, m) => Get RTC_DCHECK_IS_ON env now cmsWait q = Val (GotMsg m, [], taken i (S i) ready rest q)
    | None => IsQuitting q = true →
        Get RTC_DCHECK_IS_ON env now cmsWait q = Val (GotNone, [], taken (length ready) (length ready) ready rest q)
    end.
Proof.
  intros [Hh Ht Hn] Hm Hk Hnow Hq Hl.
  destruct (promote_spec (length (delayed_messages_ q)) now (messages_ q) (delayed_messages_ q)) as (next & due & rest & Ep & [P1 P2 P3 P4 P5 _]); try done.
  exists due, rest. split_and!; try done. cbn zeta. set (ready := messages_ q ++ _) in *.
  unfold Get. rewrite Hk. assert (env ≠ []) by (destruct env; simpl in *; [lia|done]).
  rewrite (Get_loop_first env cmsWait now now 0 kForever [] q next ready rest Hq Ep) by done.
  assert (length ready ≤ length (messages_ q) + length (delayed_messages_ q))%nat.
  { subst ready. rewrite <- P1, !length_app, length_fmap. lia. }
  assert (Forall msg_ok ready) as Hr.
  { unfold held in Hm. rewrite Hk, <- P1, fmap_app in Hm. subst ready. rewrite !Forall_app in *. naive_solver. }
  pose proof (Get_loop_ready ready env cmsWait now now 0 next [] (set_lists ready rest q) Hq ltac:(lia) eq_refl Hr) as Hg.
  destruct (first_msg 0 ready) as [[i m]|]; exact Hg.
Qed.

Lemma first_msg_spec ready :
  match first_msg 0 ready with
  | Some (i, m) => is_dispose m = false ∧ ready !! i = Some m ∧
      filter (λ m, negb (is_dispose m)) ready = m :: filter (λ m, negb (is_dispose m)) (drop (S i) ready)
  | None => filter (λ m, negb (is_dispose m)) ready = []
  end.
Proof.
  induction ready as [|m ready IH]; [done|]. cbn [first_msg]. rewrite filter_cons. destruct (is_dispose m) eqn:E; simpl.
  - rewrite first_msg_shift. destruct (first_msg 0 ready) as [[i m']|]; simpl; [|done]. by destruct IH as (? & ? & ->).
  - by rewrite drop_0.
Qed.

(** A round in which nobody else uses the queue, with enough turns. *)
Definition quiet_round (now : Z) (n : nat) (p : round) : Prop :=
  p_now p = now ∧ Forall quiet (p_env p) ∧ (n < length (p_env p))%nat ∧
  d_calls (p_dispatch p) = [] ∧ time_ok (d_start (p_dispatch p)) ∧ time_ok (d_end (p_dispatch p)).

Definition has_handler (m : Message) : Prop := is_dispose m = false → is_Some (phandler m).

Lemma Dispatch_quiet now n p m limit q :
  quiet_round now n p → is_Some (phandler m) →
  ∃ limit', Dispatch RTC_DCHECK_IS_ON (p_dispatch p) m limit q = Val (limit', q).
Proof.
  intros (_ & _ & _ & Hc & Hs & He) [h Hh]. unfold Dispatch. rewrite Hh, Hc. cbn [run_calls mbind_res].
  rewrite time_diff_ok by done. eauto.
Qed.

(** The queue after a [Get] that took message [i] of [ready]. *)
Lemma taken_ok i j ready rest q :
  mq_ok q → Forall msg_ok ready → Forall msg_ok (msg_ <$> rest) → fPeekKeep_ q = false →
  is_heap dm_lt rest → Forall (λ d, time_ok (run_time_ms_ d)) rest →
  mq_ok (taken i j ready rest q) ∧ Forall msg_ok (held (taken i j ready rest q)).
Proof.
  intros [H1 H2 H3] Hr Hd Hk Hh Ht. split; [by split|]. unfold held, taken. simpl. rewrite Hk. simpl.
  apply Forall_app. split; [by apply Forall_drop|done].
Qed.

(** A thread that quits delivers what is ready: in order, once, and then
    returns. *)
Lemma drain n : ∀ ps limit out q now,
  mq_ok q → Forall msg_ok (held q) → fPeekKeep_ q = false → IsQuitting q = true → time_ok now →
  Forall has_handler (held q) →
  (length (messages_ q) + length (delayed_messages_ q) ≤ n)%nat →
  Forall (quiet_round now n) ps → (n < length ps)%nat →
  ∃ due rest q', due ++ rest ≡ₚ delayed_messages_ q ∧ StronglySorted sooner due ∧
    Forall (λ d, run_time_ms_ d ≤ now) due ∧ Forall (λ d, now < run_time_ms_ d) rest ∧
    Process_loop RTC_DCHECK_IS_ON ps kForever kForever 0 limit out q =
      Val (PReturned false, out ++ filter (λ m, negb (is_dispose m)) (messages_ q ++ (msg_ <$> due)), q') ∧
    messages_ q' = [] ∧ delayed_messages_ q' ≡ₚ rest.
Proof.
  induction n as [n IH] using lt_wf_ind. intros ps limit out q now Hok Hm Hk Hquit Hnow Hh Hl Hps Hlp.
  destruct ps as [|p ps]; [simpl in Hlp; lia|]. apply Forall_cons in Hps as [Hp Hps]. pose proof Hp as (Epn & Hpq & Hpl & _).
  destruct (Get_quiet_spec (p_env p) now kForever q) as (due & rest & P1 & P2 & P3 & P4 & P5 & HG); try done; [lia|].
  cbn zeta in HG. set (ready := messages_ q ++ (msg_ <$> due)) in *. pose proof (first_msg_spec ready) as Hf.
  cbn [Process_loop]. rewrite Epn. destruct (first_msg 0 ready) as [[i m]|].
  2: { rewrite HG by done. cbn [mbind_res]. exists due, rest, (taken (length ready) (length ready) ready rest q).
       change (IsQuitting (taken _ _ _ _ q)) with (IsQuitting q). fold ready. rewrite Hquit, Hf, app_nil_r.
       split_and!; try done. unfold taken. simpl. by apply drop_ge. }
  destruct Hf as (Hnd & Hi & Hfil). rewrite HG. cbn [mbind_res].
  assert (Forall msg_ok ready ∧ Forall has_handler ready ∧ Forall msg_ok (msg_ <$> rest) ∧ Forall has_handler (msg_ <$> rest)) as (Hr1 & Hr2 & Hr3 & Hr4).
  { unfold held in Hm, Hh. rewrite Hk, <- P1, fmap_app, app_assoc in Hm, Hh. subst ready. rewrite !Forall_app in *. naive_solver. }
  destruct (Dispatch_quiet now n p m limit (taken i (S i) ready rest q) Hp) as (limit' & ->).
  { rewrite Forall_lookup in Hr2. by apply (Hr2 _ _ Hi). }
  cbn [mbind_res negb Z.eqb kForever]. set (q1 := taken i (S i) ready rest q).
  assert (length ready + length rest = length (messages_ q) + length (delayed_messages_ q))%nat as Hlr.
  { subst ready. rewrite <- P1, !length_app, length_fmap. lia. }
  pose proof (lookup_lt_Some _ _ _ Hi) as Hil.
  destruct (taken_ok i (S i) ready rest q Hok Hr1 Hr3 Hk P5) as [Hok1 Hm1].
  { destruct Hok as [_ Ht _]. rewrite <- P1, Forall_app in Ht. by destruct Ht. }
  set (n1 := (length (messages_ q1) + length (delayed_messages_ q1))%nat).
  assert (n1 < n)%nat as Hn1 by (subst n1; unfold q1, taken; simpl; rewrite length_drop; lia).
  destruct (IH n1 Hn1 ps limit' (out ++ [m]) q1 now) as (due' & rest' & q' & Q1 & Q2 & Q3 & Q4 & -> & Q6 & Q7); try done.
  - unfold held, q1, taken. simpl. rewrite Hk. cbn [app]. apply Forall_app. split; [by apply Forall_drop|done].
  - eapply Forall_impl; [exact Hps|]. intros r (? & ? & ? & ? & ? & ?). split_and!; try done. lia.
  - simpl in Hlp. lia.
  - assert (due' = []) as ->.
    { destruct due' as [|d due']; [done|]. apply Forall_cons in Q3 as [Q3 _]. change (delayed_messages_ q1) with rest in Q1.
      rewrite <- Q1, <- app_comm_cons, Forall_cons in P4. lia. }
    exists due, rest, q'. split_and!; try done.
    + fold ready; rewrite Hfil. unfold q1, taken. simpl. rewrite app_nil_r, <- app_assoc. done.
    + rewrite Q7. by change (delayed_messages_ q1) with rest in Q1.
Qed.

(** ** Properties *)

(** C25: no message is lost or duplicated: in any history of posts, delayed
    posts, clears, quits, gets and peeks by any number of threads, up to its end
    or inside a [Get] that still waits, nothing is undefined or stops the
    process, every message given to the queue is, once, in the queue, given back
    to a caller, or dropped with its payload deleted, and the queue is well
    formed. The calls are fewer than 2^32 (the numbers of the delayed messages),
    delays are not negative, times lie within 2^62 ms, and messages to be
    disposed of have no handler. *)
Theorem mq_conserves l :
  Forall action_ok l → foldr Z.add 0 (action_calls <$> l) < 2 ^ 32 →
  ∃ n q, run_actions l Thread_new = Val (n, q) ∧ mq_ok q ∧ posted q ≡ₚ held q ++ deleted q ++ handed q.
Proof.
  intros Hl Hn. assert (good Thread_new) as Hg by (destruct Thread_new_ok; by split; [| |constructor]).
  assert (numbers (foldr Z.add 0 (action_calls <$> l)) Thread_new) as Hn1 by done. clear Hn. revert Hg Hn1.
  generalize Thread_new. induction Hl as [|a l Ha Hl IH]; intros q Hg Hn; [exists 0%nat, q; by destruct Hg|].
  rewrite fmap_cons in Hn. cbn [foldr] in Hn.
  assert (0 ≤ foldr Z.add 0 (action_calls <$> l)) as H0.
  { clear. induction l as [|a l IH]; [done|]. rewrite fmap_cons. cbn [foldr]. 
    destruct a as [|env ? ?|env ? ?]; cbn [action_calls]; [lia|pose proof (env_calls_nonneg env); lia..]. }
  destruct (run_action_good _ a q Hg Ha H0 Hn) as (b & q1 & E1 & Hg1 & Hn1). cbn [run_actions]. rewrite E1. cbn [mbind_res].
  destruct b; [|exists 0%nat, q1; by destruct Hg1]. destruct (IH q1 Hg1 Hn1) as (k & q2 & -> & ?). by exists (S k), q2.
Qed.

(** C26: with no other thread at work [Get] returns the first message, not to
    be disposed of, of the queue followed by the delayed messages that are
    due, those in the order of their times and, at the same time, of their
    posting; it disposes of what comes before it and leaves the rest; when
    there is none and the thread is quitting it returns without waiting. *)
Theorem mq_get_next env now cmsWait q :
  mq_ok q → Forall msg_ok (held q) → fPeekKeep_ q = false → time_ok now →
  Forall quiet env → (length (messages_ q) + length (delayed_messages_ q) < length env)%nat →
  ∃ due rest, due ++ rest ≡ₚ delayed_messages_ q ∧ StronglySorted sooner due ∧
    Forall (λ d, run_time_ms_ d ≤ now) due ∧ Forall (λ d, now < run_time_ms_ d) rest ∧ is_heap dm_lt rest ∧
    let ready := messages_ q ++ (msg_ <$> due) in
    match first_msg 0 ready with
    | Some (i, m) => Get RTC_DCHECK_IS_ON env now cmsWait q = Val (GotMsg m, [], taken i (S i) ready rest q)
    | None => IsQuitting q = true →
        Get RTC_DCHECK_IS_ON env now cmsWait q = Val (GotNone, [], taken (length ready) (length ready) ready rest q)
    end.
Proof. apply Get_quiet_spec. Qed.

(** Before it waits [Get] has handed out everything due, and it waits no
    longer than until the soonest delayed message is due nor than the caller
    asked, as long as the delay fits an [int]; it waits for ever only when
    nothing is delayed. *)
Theorem mq_no_oversleep now cmsWait cmsElapsed q next q' :
  mq_ok q → time_ok now → -1 ≤ cmsWait ≤ INT_MAX → 0 ≤ cmsElapsed →
  locked_pass true now kForever q = Val (next, None, q') →
  Forall (λ d, run_time_ms_ d - now ≤ INT_MAX) (delayed_messages_ q') →
  let w := s32 (next_wait cmsWait cmsElapsed next) in
  Forall (λ d, 0 ≤ w ≤ run_time_ms_ d - now) (delayed_messages_ q') ∧
  (cmsWait ≠ kForever → 0 ≤ w ≤ Z.max 0 (cmsWait - cmsElapsed)) ∧
  (w = kForever → cmsWait = kForever ∧ delayed_messages_ q' = []).
Proof.
  intros [Hh Ht Hn] Hnow Hw Hel E Hd. unfold locked_pass in E. apply bind_Val in E as ([n1 q1] & E1 & E).
  destruct (promote_spec (length (delayed_messages_ q)) now (messages_ q) (delayed_messages_ q)) as (next' & due & rest & Ep & [P1 P2 P3 P4 P5 P6]); try done.
  rewrite Ep in E1. cbn [mbind_res] in E1. simplify_eq. simpl in E. destruct (messages_ q ++ _); [|done]. simplify_eq. simpl in Hd |- *.
  unfold next_wait, kForever, INT_MAX in *. destruct rest as [|d rest]; simpl in P6.
  - subst next. split; [constructor|]. destruct (Z.eqb_spec cmsWait (-1)).
    + split; [done|]. rewrite s32_small by (unfold INT_MIN, INT_MAX; lia). done.
    + cbn [negb andb Z.eqb Z.leb Pos.eqb]. rewrite s32_small by (unfold INT_MIN, INT_MAX; lia). split; [lia|intros; exfalso; lia].
  - destruct P6 as [-> Hs]. apply Forall_cons in Hd as [Hd0 Hd]. apply Forall_cons in P4 as [P40 P4].
    assert (∀ w, 0 ≤ w ≤ run_time_ms_ d - now → Forall (λ e, 0 ≤ w ≤ run_time_ms_ e - now) (d :: rest)) as Hall.
    { intros w Hww. eapply Forall_impl; [exact Hs|]. intros e ?%sooner_time. cbn beta. lia. }
    destruct (Z.eqb_spec cmsWait (-1)) as [->|].
    + rewrite s32_small by (unfold INT_MIN, INT_MAX; lia). split; [apply Hall; lia|split; [lia|intros; exfalso; lia]].
    + rewrite (proj2 (Z.eqb_neq (run_time_ms_ d - now) (-1))) by lia. cbn [negb andb].
      destruct (Z.ltb_spec (run_time_ms_ d - now) (Z.max 0 (cmsWait - cmsElapsed)));
        rewrite s32_small by (unfold INT_MIN, INT_MAX; lia); (split; [apply Hall; lia|split; [lia|intros; exfalso; lia]]).
Qed.

(** C27: [ProcessMessages(kForever)] on a thread that is quitting still
    delivers every message that is ready or due at the time it starts, in order
    and once, and then returns false, leaving what is due later. This is for a
    queue used by nobody else meanwhile: no other thread and no handler calls
    it, nothing was peeked, every message has its handler, and the time read is
    the same throughout. *)
Theorem mq_quit_drains ps now q :
  mq_ok q → Forall msg_ok (held q) → fPeekKeep_ q = false → IsQuitting q = true → time_ok now → Forall has_handler (held q) →
  Forall (quiet_round now (length (messages_ q) + length (delayed_messages_ q))) ps →
  (length (messages_ q) + length (delayed_messages_ q) < length ps)%nat →
  ∃ due rest q', due ++ rest ≡ₚ delayed_messages_ q ∧ StronglySorted sooner due ∧
    Forall (λ d, run_time_ms_ d ≤ now) due ∧ Forall (λ d, now < run_time_ms_ d) rest ∧
    ProcessMessages RTC_DCHECK_IS_ON ps now kForever q =
      Val (PReturned false, filter (λ m, negb (is_dispose m)) (messages_ q ++ (msg_ <$> due)), q') ∧
    messages_ q' = [] ∧ delayed_messages_ q' ≡ₚ rest.
Proof. intros. by eapply (drain (length (messages_ q) + length (delayed_messages_ q))). Qed.
End Theory.

(** ** Witnesses *)

Definition demo_msg (i : Z) : Message := Msg 0 (Some 7) i (Some (100 + i)).
Definition demo_dispose (i : Z) : Message := Msg 0 None MQID_DISPOSE (Some (100 + i)).
Definition still : turn := Turn [] [] true 0.

Definition demo_history : list action :=
  [ACall (KPost (demo_msg 1)); ACall (KPostDelayed 0 50 (demo_msg 2)); ACall (KPostAt 0 20 (demo_msg 3));
   ACall (KPost (demo_dispose 4)); AGet [Turn [KPost (demo_msg 5)] [] true 0] 10 0; APeek [still; still] 60 0;
   AGet [] 60 0; ACall (KClear (Some 7) 2 false); ACall KQuit; ACall (KPost (demo_msg 6))].

Lemma demo_history_ok : Forall action_ok demo_history.
Proof.
  unfold demo_history, action_ok, call_ok, turn_ok, still, time_ok, msg_ok.
  repeat (apply Forall_cons; split); try apply Forall_nil; simpl; try done;
    repeat (split || apply Forall_cons || apply Forall_nil); simpl; try lia; try done; by intros E; vm_compute in E.
Qed.

Lemma mq_conserves_witness :
  ∃ n q, run_actions true demo_history Thread_new = Val (n, q) ∧ mq_ok q ∧ posted q ≡ₚ held q ++ deleted q ++ handed q.
Proof. apply (mq_conserves true demo_history); [apply demo_history_ok|vm_compute; reflexivity]. Defined.

Example demo_history_result :
  (let* '(n, q) := run_actions true demo_history Thread_new in Val (n, held q, deleted q, handed q)) =
    Val (10%nat, [demo_msg 3], [demo_dispose 4; demo_msg 2; demo_msg 6], [demo_msg 1; demo_msg 5]).
Proof. vm_compute. reflexivity. Qed.

(** A queue with a message, a disposal and two delayed messages. *)
Definition demo_q (stop : Z) : MQ :=
  MkMQ false Message_new [demo_dispose 4; demo_msg 1]
    [DMsg 20 20 1 (demo_msg 3); DMsg 50 50 0 (demo_msg 2)] 2 stop 4
    [demo_msg 1; demo_msg 2; demo_msg 3; demo_dispose 4] [] [].

Lemma demo_q_ok stop : mq_ok (demo_q stop) ∧ Forall msg_ok (held (demo_q stop)) ∧ Forall has_handler (held (demo_q stop)).
Proof.
  split_and!.
  - split; [|unfold time_ok; repeat (apply Forall_cons; split); [simpl; lia..|by apply Forall_nil]|simpl; lia].
    apply sorted_is_heap; [apply _|]. repeat constructor.
  - unfold held, msg_ok. simpl. repeat (apply Forall_cons; split); try by apply Forall_nil. all: by intros E; vm_compute in E.
  - unfold held, has_handler. simpl. repeat (apply Forall_cons; split); try by apply Forall_nil. all: by intros E; vm_compute in E.
Qed.

Lemma mq_get_next_witness :
  ∃ due rest, due ++ rest ≡ₚ delayed_messages_ (demo_q 0) ∧ StronglySorted sooner due ∧
    Forall (λ d, run_time_ms_ d ≤ 30) due ∧ Forall (λ d, 30 < run_time_ms_ d) rest ∧ is_heap dm_lt rest ∧
    let ready := messages_ (demo_q 0) ++ (msg_ <$> due) in
    match first_msg 0 ready with
    | Some (i, m) => Get true (replicate 5 still) 30 0 (demo_q 0) = Val (GotMsg m, [], taken i (S i) ready rest (demo_q 0))
    | None => IsQuitting (demo_q 0) = true →
        Get true (replicate 5 still) 30 0 (demo_q 0) = Val (GotNone, [], taken (length ready) (length ready) ready rest (demo_q 0))
    end.
Proof.
  destruct (demo_q_ok 0) as (H1 & H2 & _).
  apply (mq_get_next true (replicate 5 still) 30 0 (demo_q 0) H1 H2); [reflexivity|unfold time_ok; lia|repeat constructor|simpl; lia].
Defined.

Lemma mq_no_oversleep_witness :
  Forall (λ d, 0 ≤ 40 ≤ run_time_ms_ d - 10) [DMsg 50 50 0 (demo_msg 2)].
Proof.
  set (q := set_lists [] [DMsg 50 50 0 (demo_msg 2)] (demo_q 0)).
  assert (mq_ok q) as Hq.
  { split; [apply sorted_is_heap; [apply _|repeat constructor]| |simpl; lia].
    apply Forall_cons. split; [unfold time_ok; simpl; lia|by apply Forall_nil]. }
  apply (mq_no_oversleep 10 100 0 q 40 q Hq); [unfold time_ok; lia|unfold INT_MAX; lia|lia|vm_compute; reflexivity|].
  apply Forall_cons. split; [unfold INT_MAX; simpl; lia|by apply Forall_nil].
Defined.

Lemma mq_quit_drains_witness :
  ∃ due rest q', due ++ rest ≡ₚ delayed_messages_ (demo_q 1) ∧ StronglySorted sooner due ∧
    Forall (λ d, run_time_ms_ d ≤ 30) due ∧ Forall (λ d, 30 < run_time_ms_ d) rest ∧
    ProcessMessages true (replicate 5 (Round 30 (replicate 5 still) (DispatchEnv 0 [] 0) 0)) 30 kForever (demo_q 1) =
      Val (PReturned false, filter (λ m, negb (is_dispose m)) (messages_ (demo_q 1) ++ (msg_ <$> due)), q') ∧
    messages_ q' = [] ∧ delayed_messages_ q' ≡ₚ rest.
Proof.
  destruct (demo_q_ok 1) as (H1 & H2 & H3).
  apply (mq_quit_drains true (replicate 5 (Round 30 (replicate 5 still) (DispatchEnv 0 [] 0) 0)) 30 (demo_q 1) H1 H2);
    [reflexivity|reflexivity|unfold time_ok; lia|exact H3| |simpl; lia].
  apply Forall_replicate. unfold quiet_round, time_ok. simpl. split_and!; [done|repeat constructor|lia|done|lia..].
Defined.

(** A message for a time 2^32 - 1 ms ahead makes the owner wait for ever:
    the delay is cut to an [int] and becomes [kForever]. *)
Example far_message_waits_forever :
  (let* q := PostAt true 0 4294967295 (demo_msg 1) Thread_new in
   let* '(_, waits, _) := Get true [Turn [] [] false 0] 0 kForever q in Val waits) = Val [kForever].
Proof. vm_compute. reflexivity. Qed.

(** A task posted with a delay of 2^31 ms and more has a delay in the past: it is
    ready at once, where it was to run in about 25 days. *)
Example far_task_runs_at_once :
  (let* q := PostDelayedTask false 100 2147483648 0 1 2 Thread_new in
   let* '(g, _, _) := Get false [Turn [] [] false 100] 100 kForever q in Val (got_msg g)) = Val (Some (Msg 0 (Some 1) 0 (Some 2))) ∧
  PostDelayedTask true 100 2147483648 0 1 2 Thread_new = Aborted.
Proof. split; vm_compute; reflexivity. Qed.
