(* ===== verification/ThreadManager.v ===== *)
(** * The registry of threads (class ThreadManager of rtc_base/thread.h, thread.cc)

    The process-wide list of message queues and, in debug builds, the graph of
    which thread sends to which. A blocking [Send] adds an edge; before it does
    it walks the graph from the target, and a path back to the source, which
    could deadlock, ends the process. The main theorem is that this check is
    exact, that the walk ends, and that the graph never has a cycle. *)

From stdpp Require Import relations.
From S2P Require Import Prelude PriorityQueue MessageQueue.

Notation graph := (gmap Z (gset Z)).

Record ThreadManager := TM {
  message_queues_ : list Z;
  processing_ : Z;
  send_graph_ : graph;
  queues : gmap Z MQ            (* the queues of the registered threads *)
}.

Definition set_graph (g : graph) (m : ThreadManager) : ThreadManager :=
  TM (message_queues_ m) (processing_ m) g (queues m).

(** ** The list of queues *)

Section Manager.
Context (RTC_DCHECK_IS_ON : bool).

Notation dcheck := (MessageQueue.dcheck RTC_DCHECK_IS_ON).

Definition AddInternal (t : Z) (m : ThreadManager) : res ThreadManager :=
  let* _ := dcheck (processing_ m =? 0) in
  Val (TM (message_queues_ m ++ [t]) (processing_ m) (send_graph_ m) (queues m)).

(** [erase] of the first occurrence. *)
Fixpoint erase_first (t : Z) (l : list Z) : list Z :=
  match l with [] => [] | x :: l => if x =? t then l else x :: erase_first t l end.

Definition RemoveFromSendGraph (t : Z) (g : graph) : graph := (λ s, s ∖ {[t]}) <$> delete t g.

Definition RemoveInternal (t : Z) (m : ThreadManager) : res ThreadManager :=
  let* _ := dcheck (processing_ m =? 0) in
  Val (TM (erase_first t (message_queues_ m)) (processing_ m)
         (if RTC_DCHECK_IS_ON then RemoveFromSendGraph t (send_graph_ m) else send_graph_ m) (queues m)).

(** [ClearInternal(handler)] with the lock marked as processing. *)
Definition TM_ClearInternal `{!StdHeap dm_lt} (handler : option Z) (m : ThreadManager) : res ThreadManager :=
  let m := TM (message_queues_ m) (processing_ m + 1) (send_graph_ m) (queues m) in
  let* qs := foldl (λ r t, let* qs := r in
                           let* q := of_mem (qs !! t) in
                           Val (<[t := (Clear handler MQID_ANY None q).2]> qs))
               (Val (queues m)) (message_queues_ m) in
  Val (TM (message_queues_ m) (processing_ m - 1) (send_graph_ m) qs).

(** [ProcessAllMessageQueuesInternal]: a message to dispose of is posted to every
    queue that is processed; its payload counts in [queues_not_done] from its
    construction to its destruction. *)
Definition post_marker `{!StdHeap dm_lt} (now : Z) (processing : Z → bool) (r : res (Z * gmap Z MQ)) (t : Z) : res (Z * gmap Z MQ) :=
  let* '(queues_not_done, qs) := r in
  if negb (processing t) then Val (queues_not_done, qs) else
  let* q := of_mem (qs !! t) in
  let* q' := PostDelayed RTC_DCHECK_IS_ON now 0 (Msg 0 None MQID_DISPOSE (Some t)) q in
  Val (queues_not_done + (if IsQuitting q then 0 else 1), <[t := q']> qs).

Definition post_markers `{!StdHeap dm_lt} (now : Z) (processing : Z → bool) (m : ThreadManager) : res (Z * ThreadManager) :=
  let m := TM (message_queues_ m) (processing_ m + 1) (send_graph_ m) (queues m) in
  let* '(n, qs) := foldl (post_marker now processing) (Val (0, queues m)) (message_queues_ m) in
  Val (n, TM (message_queues_ m) (processing_ m - 1) (send_graph_ m) qs).

(** The loop that waits for them: how many were deleted before each test. The
    result is how often the queue of the calling thread was processed, [None]
    while it goes on. *)
Fixpoint wait_markers (deleted : list Z) (queues_not_done : Z) (has_current : bool) : option nat :=
  match deleted with
  | [] => None
  | d :: deleted =>
      let n := queues_not_done - d in
      if 0 <? n then (λ k, if has_current then S k else k) <$> wait_markers deleted n has_current else Some 0%nat
  end.

(** ** The graph of sends *)

Definition targets (g : graph) (x : Z) : gset Z := default ∅ (g !! x).

(** The loop over [all_targets], which grows as it goes; [send_graph_[x]] adds
    an empty entry when there is none. The order of a set is not observable.
    [None] when the loop has not ended after [fuel] turns. *)
Fixpoint walk (fuel : nat) (i : nat) (all_targets : list Z) (g : graph) : option (list Z * graph) :=
  match all_targets !! i with
  | None => Some (all_targets, g)
  | Some x =>
      match fuel with
      | O => None
      | S fuel => walk fuel (S i) (all_targets ++ elements (targets g x)) (<[x := targets g x]> g)
      end
  end.

Definition count (x : Z) (l : list Z) : nat := length (filter (λ y, y = x) l).

Definition RegisterSendAndCheckForCycles (fuel : nat) (source target : Z) (g : graph) : option (res graph) :=
  '(all, g) ← walk fuel 0 [target] g;
  Some (let* _ := c_assert (Z.of_nat (count source all) =? 0) in
        Val (<[source := targets g source ∪ {[target]}]> g)).
End Manager.

(** ** Paths *)

Definition sends (g : graph) (x y : Z) : Prop := y ∈ targets g x.
Definition acyclic (g : graph) : Prop := ∀ x, ¬ tc (sends g) x x.

(** Two graphs with the same edges. *)
Definition same_edges (g g' : graph) : Prop := ∀ x, targets g' x = targets g x.

Lemma same_edges_touch g x : same_edges g (<[x := targets g x]> g).
Proof.
  intros y. unfold targets. destruct (decide (x = y)) as [->|]; [by rewrite lookup_insert_eq|by rewrite lookup_insert_ne].
Qed.

Lemma same_edges_sends g g' x y : same_edges g g' → sends g' x y ↔ sends g x y.
Proof. intros Hs. unfold sends. by rewrite Hs. Qed.

#[local] Set Warnings "-register-all".

(** The number of turns the walk spends on [x] and everything behind it. *)
Inductive cost (g : graph) : Z → nat → Prop :=
  | cost_intro x cs : Forall2 (cost g) (elements (targets g x)) cs → cost g x (S (sum_list cs)).

Lemma sends_finite g x : pred_finite (tc (sends g) x).
Proof.
  exists (elements (map_fold (λ _ s acc, s ∪ acc) (∅ : gset Z) g)). intros y Hy. apply elem_of_elements.
  assert (∃ z, sends g z y) as [z Hz].
  { clear -Hy. induction Hy; eauto. }
  unfold sends, targets in Hz. destruct (g !! z) as [s|] eqn:Hg; simpl in Hz; [|set_solver]. clear -Hg Hz. revert Hg.
  induction g as [|k s' g Hk IH] using map_ind; [by rewrite lookup_empty|]. intros Hg.
  rewrite map_fold_insert_L; [|set_solver|done].
  destruct (decide (k = z)) as [->|]; [rewrite lookup_insert_eq in Hg; simplify_eq; set_solver|].
  rewrite lookup_insert_ne in Hg by done. apply elem_of_union_r. auto.
Qed.

Lemma sn_cost g x : sn (sends g) x → ∃ c, cost g x c.
Proof.
  induction 1 as [x _ IH]. assert (∀ l, (∀ y, y ∈ l → sends g x y) → ∃ cs, Forall2 (cost g) l cs) as Hl.
  { induction l as [|y l IHl]; intros Hy; [exists []; constructor|].
    destruct (IH y) as [c Hc]; [apply Hy; set_solver|]. destruct IHl as [cs Hcs]; [set_solver|]. exists (c :: cs). by constructor. }
  destruct (Hl (elements (targets g x))) as [cs Hcs]; [intros y Hy; by apply elem_of_elements|].
  eexists. by constructor.
Qed.

Lemma acyclic_cost g x : acyclic g → ∃ c, cost g x c.
Proof. intros Ha. apply sn_cost, tc_finite_sn; [exact Ha|apply sends_finite]. Qed.

(** ** The walk *)

Lemma cost_ext g g' x c : same_edges g g' → cost g x c → cost g' x c.
Proof.
  intros Hs. revert x c. fix IH 3. intros x c [x' cs Hcs]. constructor. rewrite Hs.
  induction Hcs; constructor; auto.
Qed.

(** What is behind the position [i] costs the fuel that is left. *)
Lemma walk_ends fuel : ∀ i all cs g,
  Forall2 (cost g) (drop i all) cs → (sum_list cs ≤ fuel)%nat → is_Some (walk fuel i all g).
Proof.
  induction fuel as [|fuel IH]; intros i all cs g Hcs Hf; cbn [walk]; destruct (all !! i) as [x|] eqn:Ex; try done.
  - apply drop_S in Ex. rewrite Ex in Hcs. apply Forall2_cons_inv_l in Hcs as (c & cs' & Hc & _ & ->). destruct Hc. simpl in Hf. lia.
  - pose proof (lookup_lt_Some _ _ _ Ex). apply drop_S in Ex. rewrite Ex in Hcs.
    apply Forall2_cons_inv_l in Hcs as (c & cs' & Hc & Hcs' & ->). destruct Hc as [x cs Hx]. simpl in Hf.
    apply (IH _ _ (cs' ++ cs)); [|rewrite sum_list_with_app; unfold sum_list in *; lia].
    eapply (Forall2_impl (cost g)); [|intros; eapply cost_ext; [apply same_edges_touch|done]].
    rewrite drop_app_le by lia. by apply Forall2_app.
Qed.

(** Everything in the list is behind its start, and the successors of what is
    before the position are in it. *)
Definition walked (g : graph) (t : Z) (i : nat) (all : list Z) : Prop :=
  t ∈ all ∧ Forall (λ y, rtc (sends g) t y) all ∧
  ∀ j x y, (j < i)%nat → all !! j = Some x → sends g x y → y ∈ all.

Lemma walked_end g t all : walked g t (length all) all → ∀ y, y ∈ all ↔ rtc (sends g) t y.
Proof.
  intros (Ht & Hall & Hcl) y. split; [intros Hy; rewrite Forall_forall in Hall; auto|]. revert y.
  apply rtc_ind_r; [done|]. intros x y _ Hxy IH. apply list_elem_of_lookup in IH as [j Hj].
  by apply (Hcl j x y); [eapply lookup_lt_Some| |].
Qed.

Lemma walked_step g t i all x :
  walked g t i all → all !! i = Some x → walked g t (S i) (all ++ elements (targets g x)).
Proof.
  intros (Ht & Hall & Hcl) Hx. split_and!.
  - set_solver.
  - apply Forall_app. split; [done|]. rewrite Forall_forall in *. intros y Hy%elem_of_elements.
    eapply rtc_r; [|exact Hy]. apply Hall, list_elem_of_lookup. eauto.
  - intros j z y Hj Hz Hzy. assert (j < length all)%nat as Hlt by (apply lookup_lt_Some in Hx; lia).
    rewrite lookup_app_l in Hz by done. destruct (decide (j = i)) as [->|].
    + simplify_eq. apply elem_of_app. right. by apply elem_of_elements.
    + apply elem_of_app. left. apply (Hcl j z); [lia|done|done].
Qed.

Lemma walk_spec fuel : ∀ i all g0 g t all' g',
  same_edges g0 g → walked g0 t i all → (i ≤ length all)%nat → walk fuel i all g = Some (all', g') →
  same_edges g0 g' ∧ ∀ y, y ∈ all' ↔ rtc (sends g0) t y.
Proof.
  induction fuel as [|fuel IH]; intros i all g0 g t all' g' Hs Hw Hi E; cbn [walk] in E;
    destruct (all !! i) as [x|] eqn:Ex; try done.
  1,3: simplify_eq; split; [done|]; apply lookup_ge_None in Ex; replace i with (length all') in Hw by lia; by apply walked_end.
  pose proof (lookup_lt_Some _ _ _ Ex). rewrite Hs in E.
  refine (IH _ _ g0 _ t all' g' _ _ _ E); [|by apply walked_step|rewrite length_app; lia].
  intros y. rewrite <- (Hs x). by rewrite same_edges_touch.
Qed.

Lemma walk_mono fuel fuel' : ∀ i all g r, (fuel ≤ fuel')%nat → walk fuel i all g = Some r → walk fuel' i all g = Some r.
Proof.
  revert fuel'. induction fuel as [|fuel IH]; intros [|fuel'] i all g r Hf E; try lia; cbn [walk] in *; try done.
  - by destruct (all !! i).
  - destruct (all !! i); [|done]. apply IH; [lia|done].
Qed.

Lemma walk_total g t :
  acyclic g → ∃ fuel0 all g', (∀ fuel, (fuel0 ≤ fuel)%nat → walk fuel 0 [t] g = Some (all, g')) ∧
    same_edges g g' ∧ ∀ y, y ∈ all ↔ rtc (sends g) t y.
Proof.
  intros Ha. destruct (acyclic_cost g t Ha) as [c Hc].
  destruct (walk_ends c 0 [t] [c] g) as [[all g'] E]; [by constructor|simpl; lia|]. exists c, all, g'.
  split; [intros fuel Hf; by eapply walk_mono|].
  apply (walk_spec c 0 [t] g g t all g'); [done| |simpl; lia|done].
  split_and!; [set_solver|by constructor|intros; lia].
Qed.

(** ** The new edge *)

Definition add_edge (s t : Z) (g : graph) : graph := <[s := targets g s ∪ {[t]}]> g.

Lemma add_edge_sends s t g x y : sends (add_edge s t g) x y ↔ sends g x y ∨ (x = s ∧ y = t).
Proof.
  unfold sends, add_edge, targets at 1. destruct (decide (s = x)) as [->|Hne].
  - rewrite lookup_insert_eq. simpl. set_solver.
  - rewrite lookup_insert_ne by done. fold (targets g x). split; [auto|]. intros [?|[? _]]; [done|congruence].
Qed.

(** A path of the larger graph stays in the old one or uses the new edge. *)
Lemma add_edge_path s t g x y :
  tc (sends (add_edge s t g)) x y → tc (sends g) x y ∨ (rtc (sends g) x s ∧ rtc (sends g) t y) ∨ rtc (sends g) t s.
Proof.
  induction 1 as [x y Hxy|x y z Hxy Hyz IH]; apply add_edge_sends in Hxy as [Hxy|[-> ->]].
  - left. by apply tc_once.
  - right. left. by split.
  - destruct IH as [IH|[[IH1 IH2]|IH]]; [left; by eapply tc_l|right; left; split; [by eapply rtc_l|done]|by right; right].
  - destruct IH as [IH|[[IH1 IH2]|IH]]; [right; left; split; [done|by apply tc_rtc]|by right; right|by right; right].
Qed.

Lemma add_edge_acyclic s t g : acyclic g → ¬ rtc (sends g) t s → acyclic (add_edge s t g).
Proof.
  intros Ha Hn x [Hx|[[H1 H2]|Hx]]%add_edge_path; [by apply (Ha x)| |done]. apply Hn. by eapply rtc_trans.
Qed.

Lemma sub_acyclic g g' : (∀ x y, sends g' x y → sends g x y) → acyclic g → acyclic g'.
Proof.
  intros Hs Ha x Hx. apply (Ha x). revert Hx. generalize x at 1 3. intros y Hx.
  induction Hx; [by apply tc_once, Hs|eapply tc_l; [by apply Hs|done]].
Qed.

Lemma remove_sends t g x y : sends (RemoveFromSendGraph t g) x y ↔ sends g x y ∧ x ≠ t ∧ y ≠ t.
Proof.
  unfold sends, RemoveFromSendGraph, targets. rewrite lookup_fmap. destruct (decide (t = x)) as [->|Hne].
  - rewrite lookup_delete_eq. simpl. set_solver.
  - rewrite lookup_delete_ne by done. destruct (g !! x) as [s|]; simpl; [|set_solver].
    rewrite elem_of_difference, elem_of_singleton. naive_solver.
Qed.

Lemma count_zero x l : (Z.of_nat (count x l) =? 0) = bool_decide (x ∉ l).
Proof.
  unfold count. destruct (decide (x ∈ l)) as [Hx|Hx].
  - rewrite bool_decide_eq_false_2 by auto. apply Z.eqb_neq. apply list_elem_of_split in Hx as (l1 & l2 & ->).
    rewrite filter_app, filter_cons_True by done. rewrite length_app. simpl. lia.
  - rewrite bool_decide_eq_true_2 by done. apply Z.eqb_eq. replace (filter (λ y, y = x) l) with ([] : list Z); [done|].
    clear -Hx. induction l as [|y l IH]; [done|]. rewrite filter_cons_False by set_solver. apply IH. set_solver.
Qed.

(** The check, its termination and its effect. *)
Definition checked (s t : Z) (g : graph) (r : res graph) : Prop :=
  (r = Aborted ∧ rtc (sends g) t s) ∨
  (∃ g', r = Val g' ∧ ¬ rtc (sends g) t s ∧ acyclic g' ∧ ∀ x y, sends g' x y ↔ sends g x y ∨ (x = s ∧ y = t)).

Lemma register_spec s t g :
  acyclic g → ∃ fuel0 r, (∀ fuel, (fuel0 ≤ fuel)%nat → RegisterSendAndCheckForCycles fuel s t g = Some r) ∧ checked s t g r.
Proof.
  intros Ha. destruct (walk_total g t Ha) as (fuel0 & all & g1 & Hw & Hs & Hall). eexists fuel0, _. split.
  { intros fuel Hf. unfold RegisterSendAndCheckForCycles. rewrite (Hw fuel Hf). reflexivity. }
  rewrite count_zero. unfold checked. destruct (decide (s ∈ all)) as [Hp|Hp].
  - left. rewrite bool_decide_eq_false_2 by auto. by rewrite <- Hall.
  - right. rewrite bool_decide_eq_true_2 by auto. cbn [c_assert mbind_res]. eexists. split; [done|].
    fold (add_edge s t g1). assert (∀ x y, sends g1 x y ↔ sends g x y) as Hse by (intros; by apply same_edges_sends).
    assert (acyclic g1) as Ha1 by (eapply sub_acyclic; [|exact Ha]; naive_solver). split_and!; [by rewrite <- Hall| |].
    + apply add_edge_acyclic; [done|]. intros Hr. apply Hp, Hall. clear -Hr Hse. induction Hr; [done|eapply rtc_l; [by apply Hse|done]].
    + intros x y. by rewrite add_edge_sends, Hse.
Qed.

(** ** Histories *)

(** What threads do to the graph: blocking sends and destructions. *)
Inductive graph_op := GSend (source target : Z) | GRemove (t : Z).

Definition graph_apply (fuel : nat) (o : graph_op) (g : graph) : option (res graph) :=
  match o with
  | GSend s t => RegisterSendAndCheckForCycles fuel s t g
  | GRemove t => Some (Val (RemoveFromSendGraph t g))
  end.

Fixpoint graph_run (fuel : nat) (os : list graph_op) (g : graph) : option (res graph) :=
  match os with
  | [] => Some (Val g)
  | o :: os => r ← graph_apply fuel o g; match r with Val g => graph_run fuel os g | _ => Some r end
  end.

(** The same on relations: a send that would close a cycle ends the process. *)
Inductive graph_spec : (Z → Z → Prop) → list graph_op → option (Z → Z → Prop) → Prop :=
  | gs_nil R : graph_spec R [] (Some R)
  | gs_cycle R s t os : rtc R t s → graph_spec R (GSend s t :: os) None
  | gs_send R s t os r :
      ¬ rtc R t s → graph_spec (λ x y, R x y ∨ (x = s ∧ y = t)) os r → graph_spec R (GSend s t :: os) r
  | gs_remove R t os r :
      graph_spec (λ x y, R x y ∧ x ≠ t ∧ y ≠ t) os r → graph_spec R (GRemove t :: os) r.

Lemma graph_apply_acyclic o g :
  acyclic g → ∃ fuel0 r, (∀ fuel, (fuel0 ≤ fuel)%nat → graph_apply fuel o g = Some r) ∧
    match o with
    | GSend s t => checked s t g r
    | GRemove t => ∃ g', r = Val g' ∧ acyclic g' ∧ ∀ x y, sends g' x y ↔ sends g x y ∧ x ≠ t ∧ y ≠ t
    end.
Proof.
  intros Ha. destruct o as [s t|t]; cbn [graph_apply]; [by apply register_spec|].
  exists 0%nat. eexists. split; [done|]. eexists. split; [done|]. split; [|apply remove_sends].
  eapply sub_acyclic; [|exact Ha]. intros x y Hs. by apply remove_sends in Hs as [? _].
Qed.

(** Relations with the same edges behave alike. *)
Lemma rtc_iff (R R' : Z → Z → Prop) : (∀ x y, R x y ↔ R' x y) → ∀ x y, rtc R x y ↔ rtc R' x y.
Proof. intros HR x y. split; (induction 1; [done|eapply rtc_l; [by apply HR|done]]). Qed.

Definition result_of (r : option (Z → Z → Prop)) (o : res graph) : Prop :=
  match r, o with
  | None, Aborted => True
  | Some R, Val g => acyclic g ∧ ∀ x y, sends g x y ↔ R x y
  | _, _ => False
  end.

Lemma graph_run_spec os : ∀ g (R : Z → Z → Prop),
  acyclic g → (∀ x y, sends g x y ↔ R x y) →
  ∃ fuel0 o r, (∀ fuel, (fuel0 ≤ fuel)%nat → graph_run fuel os g = Some o) ∧ graph_spec R os r ∧ result_of r o.
Proof.
  induction os as [|o os IH]; intros g R Ha HR.
  { exists 0%nat, (Val g), (Some R). split; [done|]. split; [constructor|done]. }
  destruct (graph_apply_acyclic o g Ha) as (f1 & r1 & E1 & Hr1).
  assert ((r1 = Aborted ∧ graph_spec R (o :: os) None) ∨
    ∃ g' R', r1 = Val g' ∧ acyclic g' ∧ (∀ x y, sends g' x y ↔ R' x y) ∧ ∀ r, graph_spec R' os r → graph_spec R (o :: os) r) as [[-> Hs]|(g' & R' & -> & Ha' & HR' & Hs)].
  { destruct o as [s t|t].
    - destruct Hr1 as [[-> Hp]|(g' & -> & Hp & Ha' & He)].
      + left. split; [done|]. apply gs_cycle. by apply (rtc_iff _ _ HR).
      + right. exists g', (λ x y, R x y ∨ (x = s ∧ y = t)). split_and!; try done; [intros; by rewrite He, HR|].
        intros r Hr. apply gs_send; [|done]. by rewrite <- (rtc_iff _ _ HR).
    - right. destruct Hr1 as (g' & -> & Ha' & He). exists g', (λ x y, R x y ∧ x ≠ t ∧ y ≠ t).
      split_and!; try done; [intros; by rewrite He, HR|]. intros r Hr. by apply gs_remove. }
  - exists f1, Aborted, None. split; [|done]. intros fuel Hf. cbn [graph_run]. by rewrite E1.
  - destruct (IH g' R' Ha' HR') as (f2 & o2 & r & E2 & Hs2 & Hres). exists (f1 + f2)%nat, o2, r. split; [|split; [by apply Hs|done]].
    intros fuel Hf. cbn [graph_run]. rewrite E1 by lia. cbn [mbind option_bind]. apply E2. lia.
Qed.

(** ** Clearing a handler from every queue *)

Section Clearing.
Context {H : StdHeap dm_lt}.

Definition cleared (handler : option Z) (q : MQ) : Prop := Forall (λ m, Match handler MQID_ANY m = false) (held q).

Lemma Clear_cleared handler id q : ∀ h', cleared h' q ∨ (h' = handler ∧ id = MQID_ANY) → cleared h' (Clear handler id None q).2.
Proof.
  intros h' Hc. unfold Clear. destruct (mq_Clear_spec handler id None q) as (q' & -> & E1 & E2 & E3 & E4 & _). cbn [snd].
  unfold cleared. rewrite (held_clear (Match handler id) q q' E1 E2 E3 E4). apply Forall_forall. intros m Hm.
  apply list_elem_of_filter in Hm as [Hn Hm]. destruct Hc as [Hc|[-> ->]].
  - unfold cleared in Hc. rewrite Forall_forall in Hc. auto.
  - by destruct (Match handler MQID_ANY m).
Qed.

Lemma clear_queues handler l : ∀ qs : gmap Z MQ,
  Forall (λ t, is_Some (qs !! t)) l →
  ∃ qs', foldl (λ r t, let* qs := r in let* q := of_mem (qs !! t) in Val (<[t := (Clear handler MQID_ANY None q).2]> qs)) (Val qs) l = Val qs' ∧
    (∀ t q, qs !! t = Some q → ∃ q', qs' !! t = Some q' ∧ (t ∈ l ∨ cleared handler q → cleared handler q')).
Proof.
  induction l as [|t l IH]; intros qs Hl.
  { exists qs. split; [done|]. intros t q Hq. exists q. split; [done|]. intros [Ht|?]; [by apply not_elem_of_nil in Ht|done]. }
  apply Forall_cons in Hl as [[q Hq] Hl]. cbn [foldl mbind_res]. rewrite Hq. cbn [of_mem mbind_res].
  set (q1 := (Clear handler MQID_ANY None q).2). destruct (IH (<[t:=q1]> qs)) as (qs' & -> & Hqs').
  { eapply Forall_impl; [exact Hl|]. intros u Hu. destruct (decide (t = u)) as [->|]; [by rewrite lookup_insert_eq|by rewrite lookup_insert_ne]. }
  exists qs'. split; [done|]. intros u qu Hu. destruct (decide (t = u)) as [->|Hne].
  - simplify_eq. destruct (Hqs' u q1) as (q' & Hq' & Hc); [apply lookup_insert_eq|]. exists q'. split; [done|]. intros _. apply Hc. right.
    apply Clear_cleared. by right.
  - destruct (Hqs' u qu) as (q' & Hq' & Hc); [by rewrite lookup_insert_ne|]. exists q'. split; [done|]. intros [Hin|Hcl]; apply Hc; set_solver.
Qed.

(** No registered queue keeps a message for the handler. *)
Lemma TM_Clear_spec handler m :
  Forall (λ t, is_Some (queues m !! t)) (message_queues_ m) →
  ∃ m', TM_ClearInternal handler m = Val m' ∧ message_queues_ m' = message_queues_ m ∧ processing_ m' = processing_ m ∧
    Forall (λ t, ∃ q, queues m' !! t = Some q ∧ cleared handler q) (message_queues_ m).
Proof.
  intros Hq. destruct (clear_queues handler (message_queues_ m) (queues m) Hq) as (qs & E & Hc).
  unfold TM_ClearInternal. cbn [queues message_queues_]. rewrite E. cbn [mbind_res]. eexists. split; [done|].
  split_and!; [done|simpl; lia|]. rewrite Forall_forall in *. intros t Ht. destruct (Hq t Ht) as [q Hqt].
  destruct (Hc t q Hqt) as (q' & ? & ?). exists q'. auto.
Qed.
End Clearing.

(** ** Properties *)

(** C28: in any history of blocking sends and thread destructions every check
    of the send graph ends; it stops the process exactly when the new edge
    would close a cycle of threads waiting for one another, and otherwise the
    graph has exactly the edges registered and no cycle. *)
Theorem send_graph_exact os :
  ∃ fuel0 o r, (∀ fuel, (fuel0 ≤ fuel)%nat → graph_run fuel os ∅ = Some o) ∧
    graph_spec (λ _ _, False) os r ∧ result_of r o.
Proof.
  assert (∀ x y, ¬ sends ∅ x y) as Hno by (intros x y; unfold sends, targets; rewrite lookup_empty; set_solver).
  apply (graph_run_spec os ∅ (λ _ _, False)); [|intros x y; split; [apply Hno|done]].
  intros x Hx. inversion Hx; subst; by eapply Hno.
Qed.

Example send_cycle_detected :
  graph_run 100 [GSend 1 2; GSend 2 3; GSend 1 3; GRemove 2; GSend 3 2] ∅ = Some (Val ({[3 := {[2]}; 1 := {[3]}; 2 := ∅]})) ∧
  graph_run 100 [GSend 1 2; GSend 2 3; GSend 3 1] ∅ = Some Aborted.
Proof. split; vm_compute; reflexivity. Qed.
