(* ===== verification/Base64.v ===== *)
(** * Base64 (rtc_base/third_party/base64/base64.h, base64.cc)

    Encoding and decoding with the decoder's options: which characters are
    skipped, whether padding is required, where the data may end. The theorems
    are that decoding an encoded text gives the bytes back, and that strict
    decoding succeeds on encoded texts only. Bytes and characters are integers
    below 256. *)

From S2P Require Import Prelude.

Definition kPad : Z := 61.
Definition pd : Z := 0xFD.
Definition sp : Z := 0xFE.
Definition il : Z := 0xFF.

Definition Base64Table : list Z := b#"ABCDEFGHIJKLMNOPQRSTUVWXYZabcdefghijklmnopqrstuvwxyz0123456789+/".

Definition DecodeTable : list Z := [
  il; il; il; il; il; il; il; il; il; sp;
  sp; sp; sp; sp; il; il; il; il; il; il;
  il; il; il; il; il; il; il; il; il; il;
  il; il; sp; il; il; il; il; il; il; il;
  il; il; il; 62; il; il; il; 63; 52; 53;
  54; 55; 56; 57; 58; 59; 60; 61; il; il;
  il; pd; il; il; il; 0;  1;  2;  3;  4;
  5;  6;  7;  8;  9;  10; 11; 12; 13; 14;
  15; 16; 17; 18; 19; 20; 21; 22; 23; 24;
  25; il; il; il; il; il; il; 26; 27; 28;
  29; 30; 31; 32; 33; 34; 35; 36; 37; 38;
  39; 40; 41; 42; 43; 44; 45; 46; 47; 48;
  49; 50; 51; il; il; il; il; il; il; il;
  il; il; il; il; il; il; il; il; il; il;
  il; il; il; il; il; il; il; il; il; il;
  il; il; il; il; il; il; il; il; il; il;
  il; il; il; il; il; il; il; il; il; il;
  il; il; il; il; il; il; il; il; il; il;
  il; il; il; il; il; il; il; il; il; il;
  il; il; il; il; il; il; il; il; il; il;
  il; il; il; il; il; il; il; il; il; il;
  il; il; il; il; il; il; il; il; il; il;
  il; il; il; il; il; il; il; il; il; il;
  il; il; il; il; il; il; il; il; il; il;
  il; il; il; il; il; il; il; il; il; il;
  il; il; il; il; il; il].

Definition DO_PARSE_STRICT : Z := 1.
Definition DO_PARSE_WHITE : Z := 2.
Definition DO_PARSE_ANY : Z := 3.
Definition DO_PARSE_MASK : Z := 3.
Definition DO_PAD_YES : Z := 4.
Definition DO_PAD_ANY : Z := 8.
Definition DO_PAD_NO : Z := 12.
Definition DO_PAD_MASK : Z := 12.
Definition DO_TERM_BUFFER : Z := 16.
Definition DO_TERM_CHAR : Z := 32.
Definition DO_TERM_ANY : Z := 48.
Definition DO_TERM_MASK : Z := 48.
Definition DO_STRICT : Z := Z.lor (Z.lor DO_PARSE_STRICT DO_PAD_YES) DO_TERM_BUFFER.
Definition DO_LAX : Z := Z.lor (Z.lor DO_PARSE_ANY DO_PAD_ANY) DO_TERM_CHAR.

(** Characters are [char]s seen as unsigned; the ranges are below 128. *)
Definition IsBase64Char (ch : Z) : bool :=
  ((65 <=? ch) && (ch <=? 90)) || ((97 <=? ch) && (ch <=? 122)) || ((48 <=? ch) && (ch <=? 57)) || (ch =? 43) || (ch =? 47).

(** [strchr] finds the terminating NUL too. *)
Fixpoint strchr_nul (s : list Z) (ch : Z) : option (list Z) :=
  match s with [] => None | c :: s' => if c =? ch then Some s else strchr_nul s' ch end.

Definition GetNextBase64Char (ch : Z) : res (option Z) :=
  match strchr_nul (Base64Table ++ [0]) ch with
  | None => Val None
  | Some p =>
      let* c := of_mem (p !! 1%nat) in
      let* first := of_mem (Base64Table !! 0%nat) in
      Val (Some (if c =? 0 then first else c))
  end.

Definition IsBase64Encoded (str : list Z) : bool := forallb IsBase64Char str.

(** ** Encoding *)

Definition table_at (c : Z) : res Z := of_mem (Base64Table !! Z.to_nat c).

(** One turn of the loop: up to three bytes, four characters. *)
Definition encode_turn (data : list Z) (len i dest_ix : Z) (result : list Z) : res (Z * Z * list Z) :=
  let* b := byte_at data i in
  let* ch := table_at (Z.land (Z.shiftr b 2) 0x3f) in
  let* result := set_char dest_ix ch result in
  let c := Z.land (Z.shiftl b 4) 0x3f in
  let i := i + 1 in
  let* c := (if i <? len then let* b := byte_at data i in Val (Z.lor c (Z.land (Z.shiftr b 4) 0x0f)) else Val c) in
  let* ch := table_at c in
  let* result := set_char (dest_ix + 1) ch result in
  let* '(i, result) :=
    (if i <? len then
       let* b := byte_at data i in
       let c := Z.land (Z.shiftl b 2) 0x3f in
       let i := i + 1 in
       let* c := (if i <? len then let* b := byte_at data i in Val (Z.lor c (Z.land (Z.shiftr b 6) 0x03)) else Val c) in
       let* ch := table_at c in
       let* result := set_char (dest_ix + 2) ch result in
       Val (i, result)
     else let* result := set_char (dest_ix + 2) kPad result in Val (i, result)) in
  let* '(i, result) :=
    (if i <? len then
       let* b := byte_at data i in
       let* ch := table_at (Z.land b 0x3f) in
       let* result := set_char (dest_ix + 3) ch result in
       Val (i + 1, result)
     else let* result := set_char (dest_ix + 3) kPad result in Val (i, result)) in
  Val (i, dest_ix + 4, result).

(** At most one turn per byte. *)
Fixpoint encode_loop (fuel : nat) (data : list Z) (len i dest_ix : Z) (result : list Z) : res (list Z) :=
  if i <? len then
    match fuel with
    | O => Undef
    | S fuel =>
        let* '(i, dest_ix, result) := encode_turn data len i dest_ix result in
        encode_loop fuel data len i dest_ix result
    end
  else Val result.

Definition EncodeFromArray (data : list Z) : res (list Z) :=
  let len := Z.of_nat (length data) in
  let result := replicate (Z.to_nat (((len + 2) / 3) * 4)) 0 in
  encode_loop (length data) data len 0 0 result.

Definition Encode (data : list Z) : res (list Z) := EncodeFromArray data.

(** ** Decoding *)

(** The locals of [GetNextQuantum]; the loop ends at the end of the data, after
    four values, or at a [break]. [rest] is the data from [q_dpos] on. *)
Record quantum := Q { byte_len : nat; pad_len : Z; pad_start : Z; q_dpos : Z; qbuf : list Z }.

Fixpoint quantum_loop (parse_flags : Z) (illegal_pads : bool) (rest : list Z) (q : quantum) : res quantum :=
  match rest with
  | [] => Val q
  | ch :: rest' =>
      if (byte_len q <? 4)%nat then
        let* v := of_mem (DecodeTable !! Z.to_nat ch) in
        let qb := <[byte_len q := v]> (qbuf q) in
        let stop := Val (Q (byte_len q) (pad_len q) (pad_start q) (q_dpos q) qb) in
        let next bl pl ps := quantum_loop parse_flags illegal_pads rest' (Q bl pl ps (q_dpos q + 1) qb) in
        if (il =? v) || (illegal_pads && (pd =? v)) then
          if negb (parse_flags =? DO_PARSE_ANY) then stop else next (byte_len q) (pad_len q) (pad_start q)
        else if sp =? v then
          if parse_flags =? DO_PARSE_STRICT then stop else next (byte_len q) (pad_len q) (pad_start q)
        else if pd =? v then
          if (byte_len q <? 2)%nat then
            if negb (parse_flags =? DO_PARSE_ANY) then stop else next (byte_len q) (pad_len q) (pad_start q)
          else if 4 <=? Z.of_nat (byte_len q) + pad_len q then
            if negb (parse_flags =? DO_PARSE_ANY) then stop else next (byte_len q) (pad_len q) (pad_start q)
          else next (byte_len q) (pad_len q + 1) (if pad_len q + 1 =? 1 then q_dpos q else pad_start q)
        else
          if 0 <? pad_len q then
            if negb (parse_flags =? DO_PARSE_ANY) then stop else next (S (byte_len q)) 0 (pad_start q)
          else next (S (byte_len q)) (pad_len q) (pad_start q)
      else Val q
  end.

(** The values found, zero-padded, whether the quantum is padded, and the
    position, moved back over illegal padding. *)
Definition GetNextQuantum (parse_flags : Z) (illegal_pads : bool) (data : list Z) (dpos : Z) (qb : list Z)
    : res (nat * bool * Z * list Z) :=
  let* q := quantum_loop parse_flags illegal_pads (drop (Z.to_nat dpos) data) (Q 0 0 0 dpos qb) in
  let qb := take (byte_len q) (qbuf q) ++ replicate (4 - byte_len q) 0 in
  let padded := Z.of_nat (byte_len q) + pad_len q =? 4 in
  let dpos := if negb padded && negb (pad_len q =? 0) then pad_start q else q_dpos q in
  Val (byte_len q, padded, dpos, qb).

(** The bytes of a quantum, and the bits left over. *)
Definition quantum_bytes (qlen : nat) (qb : list Z) : res (list Z * Z) :=
  let* q0 := of_mem (qb !! 0%nat) in
  let* q1 := of_mem (qb !! 1%nat) in
  let* q2 := of_mem (qb !! 2%nat) in
  let* q3 := of_mem (qb !! 3%nat) in
  let c := u8 (Z.lor (Z.shiftl q0 2) (Z.land (Z.shiftr q1 4) 0x3)) in
  if (2 <=? qlen)%nat then
    let out := [c] in
    let c := u8 (Z.lor (Z.land (Z.shiftl q1 4) 0xf0) (Z.land (Z.shiftr q2 2) 0xf)) in
    if (3 <=? qlen)%nat then
      let out := out ++ [c] in
      let c := u8 (Z.lor (Z.land (Z.shiftl q2 6) 0xc0) q3) in
      if (4 <=? qlen)%nat then Val (out ++ [c], 0) else Val (out, c)
    else Val (out, c)
  else Val ([], c).

Fixpoint decode_loop (fuel : nat) (flags : Z) (data : list Z) (len dpos : Z) (qb : list Z) (success : bool) (result : list Z)
    : res (bool * list Z * Z) :=
  let pad_flags := Z.land flags DO_PAD_MASK in
  let term_flags := Z.land flags DO_TERM_MASK in
  if dpos <? len then
    match fuel with
    | O => Undef
    | S fuel =>
        let* '(qlen, padded, dpos, qb) := GetNextQuantum (Z.land flags DO_PARSE_MASK) (DO_PAD_NO =? pad_flags) data dpos qb in
        let* '(out, c) := quantum_bytes qlen qb in
        let result := result ++ out in
        if (qlen <? 4)%nat then
          let success := if negb (DO_TERM_ANY =? term_flags) && negb (0 =? c) then false else success in
          let success := if (DO_PAD_YES =? pad_flags) && negb padded then false else success in
          Val (success, result, dpos)
        else decode_loop fuel flags data len dpos qb success result
    end
  else Val (success, result, dpos).

(** The result, the bytes and [data_used]. *)
Definition DecodeFromArray (RTC_DCHECK_IS_ON : bool) (data : list Z) (flags : Z) : res (bool * list Z * Z) :=
  let len := Z.of_nat (length data) in
  let chk c := if RTC_DCHECK_IS_ON then c_assert c else Val () in
  let* _ := chk (flags <=? Z.lor (Z.lor DO_PARSE_MASK DO_PAD_MASK) DO_TERM_MASK) in
  let* _ := chk (negb (0 =? Z.land flags DO_PARSE_MASK)) in
  let* _ := chk (negb (0 =? Z.land flags DO_PAD_MASK)) in
  let* _ := chk (negb (0 =? Z.land flags DO_TERM_MASK)) in
  let* '(success, result, dpos) := decode_loop (S (length data)) flags data len 0 [0; 0; 0; 0] true [] in
  let success := if (DO_TERM_BUFFER =? Z.land flags DO_TERM_MASK) && negb (dpos =? len) then false else success in
  Val (success, result, dpos).

Definition Decode (RTC_DCHECK_IS_ON : bool) (data : list Z) (flags : Z) : res (list Z) :=
  let* '(_, result, _) := DecodeFromArray RTC_DCHECK_IS_ON data flags in Val result.

Example encode_demo : Encode (b#"Man is") = Val (b#"TWFuIGlz") ∧ Encode (b#"Ma") = Val (b#"TWE=") ∧ Encode (b#"M") = Val (b#"TQ==").
Proof. split_and!; vm_compute; reflexivity. Qed.

Example decode_demo :
  DecodeFromArray true (b#"TWE=") DO_STRICT = Val (true, b#"Ma", 4) ∧
  DecodeFromArray true (b#"TW E=") DO_STRICT = Val (false, b#"M", 2) ∧
  DecodeFromArray true (b#"TW  E=!") DO_LAX = Val (true, b#"Ma", 7).
Proof. split_and!; vm_compute; reflexivity. Qed.

(** ** The standard's encoding *)

(** Four digits of six bits from three bytes read as one 24-bit number; a
    final group of one or two bytes is filled with zero bits and padded. *)
Definition digit (d : Z) : Z := Base64Table !!! Z.to_nat d.

Fixpoint rfc4648 (bs : list Z) : list Z :=
  match bs with
  | [] => []
  | [a] => let n := a * 65536 in [digit (n / 262144); digit ((n / 4096) `mod` 64); kPad; kPad]
  | [a; b] =>
      let n := a * 65536 + b * 256 in
      [digit (n / 262144); digit ((n / 4096) `mod` 64); digit ((n / 64) `mod` 64); kPad]
  | a :: b :: c :: bs =>
      let n := a * 65536 + b * 256 + c in
      digit (n / 262144) :: digit ((n / 4096) `mod` 64) :: digit ((n / 64) `mod` 64) :: digit (n `mod` 64) :: rfc4648 bs
  end.

(** ** Tables and bits, by exhaustion *)

Lemma enc0 a (H : 0 ≤ a < 256) : Z.land (Z.shiftr a 2) 0x3f = a / 4.
Proof. exhaust1 256 a H. Qed.
Lemma enc1' a (H : 0 ≤ a < 256) : Z.land (Z.shiftl a 4) 0x3f = a `mod` 4 * 16.
Proof. exhaust1 256 a H. Qed.
Lemma enc1 a b (H : 0 ≤ a < 256) (H' : 0 ≤ b < 256) :
  Z.lor (Z.land (Z.shiftl a 4) 0x3f) (Z.land (Z.shiftr b 4) 0x0f) = a `mod` 4 * 16 + b / 16.
Proof. exhaust2 256 256 a b H H'. Qed.
Lemma enc2' b (H : 0 ≤ b < 256) : Z.land (Z.shiftl b 2) 0x3f = b `mod` 16 * 4.
Proof. exhaust1 256 b H. Qed.
Lemma enc2 b c (H : 0 ≤ b < 256) (H' : 0 ≤ c < 256) :
  Z.lor (Z.land (Z.shiftl b 2) 0x3f) (Z.land (Z.shiftr c 6) 0x03) = b `mod` 16 * 4 + c / 64.
Proof. exhaust2 256 256 b c H H'. Qed.
Lemma enc3 c (H : 0 ≤ c < 256) : Z.land c 0x3f = c `mod` 64.
Proof. exhaust1 256 c H. Qed.

Lemma dec0 p q (H : 0 ≤ p < 64) (H' : 0 ≤ q < 64) :
  u8 (Z.lor (Z.shiftl p 2) (Z.land (Z.shiftr q 4) 0x3)) = p * 4 + q / 16.
Proof. exhaust2 64 64 p q H H'. Qed.
Lemma dec1 p q (H : 0 ≤ p < 64) (H' : 0 ≤ q < 64) :
  u8 (Z.lor (Z.land (Z.shiftl p 4) 0xf0) (Z.land (Z.shiftr q 2) 0xf)) = p `mod` 16 * 16 + q / 4.
Proof. exhaust2 64 64 p q H H'. Qed.
Lemma dec2 p q (H : 0 ≤ p < 64) (H' : 0 ≤ q < 64) :
  u8 (Z.lor (Z.land (Z.shiftl p 6) 0xc0) q) = p `mod` 4 * 64 + q.
Proof. exhaust2 64 64 p q H H'. Qed.

Lemma decode_digit d : 0 ≤ d < 64 → DecodeTable !! Z.to_nat (digit d) = Some d.
Proof.
  intros H. cut (bool_decide (DecodeTable !! Z.to_nat (digit d) = Some d) = true); [apply bool_decide_eq_true|].
  revert d H. apply (below_forall 64). vm_compute. reflexivity.
Qed.

(** What a table entry says about its character. *)
Definition entry_ok (ch : Z) : bool :=
  match DecodeTable !! Z.to_nat ch with
  | Some v => (v =? il) || (v =? sp) || ((v =? pd) && (ch =? kPad)) || ((0 <=? v) && (v <? 64) && (ch =? digit v))
  | None => false
  end.

Lemma entries_ok ch : 0 ≤ ch < 256 → entry_ok ch = true.
Proof. revert ch. apply (below_forall 256). vm_compute. reflexivity. Qed.

Lemma decode_table_char ch v :
  byte_ok ch → DecodeTable !! Z.to_nat ch = Some v →
  v = il ∨ v = sp ∨ (v = pd ∧ ch = kPad) ∨ (0 ≤ v < 64 ∧ ch = digit v).
Proof.
  intros H Hv. pose proof (entries_ok ch H) as Hc. unfold entry_ok in Hc. rewrite Hv in Hc.
  rewrite !orb_true_iff, !andb_true_iff, !Z.eqb_eq, Z.leb_le, Z.ltb_lt in Hc. tauto.
Qed.

Lemma table_at_digit d : 0 ≤ d < 64 → table_at d = Val (digit d).
Proof.
  intros H. unfold table_at, digit. rewrite (list_lookup_lookup_total_lt Base64Table); [done|].
  change (length Base64Table) with 64%nat. lia.
Qed.

(** ** The encoder writes the standard's encoding *)

Lemma triples_ind (P : list Z → Prop) :
  P [] → (∀ a, P [a]) → (∀ a b, P [a; b]) → (∀ a b c bs, P bs → P (a :: b :: c :: bs)) → ∀ bs, P bs.
Proof.
  intros H0 H1 H2 H3. fix IH 1. intros [|a [|b [|c bs]]]; [exact H0|apply H1|apply H2|apply H3, IH].
Qed.

Lemma rfc4648_length bs : Z.of_nat (length (rfc4648 bs)) = (Z.of_nat (length bs) + 2) / 3 * 4.
Proof.
  induction bs as [|a|a b|a b c bs IH] using triples_ind; try reflexivity.
  cbn [rfc4648 length]. rewrite !Nat2Z.inj_succ, IH.
  replace (Z.succ _ + 2) with (Z.of_nat (length bs) + 2 + 1 * 3) by lia. rewrite Z.div_add by lia. lia.
Qed.

(** The four digits of a group, from its bytes. *)
Lemma group_digits a b c :
  byte_ok a → byte_ok b → byte_ok c →
  let n := a * 65536 + b * 256 + c in
  n / 262144 = a / 4 ∧ (n / 4096) `mod` 64 = a `mod` 4 * 16 + b / 16 ∧ (n / 64) `mod` 64 = b `mod` 16 * 4 + c / 64 ∧
  n `mod` 64 = c `mod` 64.
Proof.
  unfold byte_ok. intros Ha Hb Hc. split_and!.
  - symmetry. apply (Z.div_unique _ _ _ (a `mod` 4 * 65536 + b * 256 + c)); div_solve.
  - replace ((a * 65536 + b * 256 + c) / 4096) with (a * 16 + b / 16).
    + symmetry. apply (Z.mod_unique _ _ (a / 4)); div_solve.
    + apply (Z.div_unique _ _ _ (b `mod` 16 * 256 + c)); div_solve.
  - replace ((a * 65536 + b * 256 + c) / 64) with (a * 1024 + b * 4 + c / 64).
    + symmetry. apply (Z.mod_unique _ _ (a * 16 + b / 16)); div_solve.
    + apply (Z.div_unique _ _ _ (c `mod` 64)); div_solve.
  - symmetry. apply (Z.mod_unique _ _ (a * 1024 + b * 4 + c / 64)); div_solve.
Qed.

(** One step of a turn: a byte read, a comparison with the length, a digit
    looked up, a character written. *)
Ltac turn_step :=
  first
  [ erewrite byte_at_app by reflexivity
  | rewrite set_char_at by (simpl; lia); cbn [insert list_insert]
  | rewrite enc0 by done | rewrite enc1 by done | rewrite enc1' by done
  | rewrite enc2 by done | rewrite enc2' by done | rewrite enc3 by done
  | rewrite table_at_digit by (unfold byte_ok in *; div_solve)
  | rewrite (proj2 (Z.ltb_lt _ _)) by (rewrite length_app; simpl; lia)
  | rewrite (proj2 (Z.ltb_ge _ _)) by (rewrite length_app; simpl; lia) ];
  cbn [mbind_res].

Ltac turn :=
  intros; unfold encode_turn; rewrite <- !Z.add_assoc;
  change (Z.of_nat 0 + 1) with (Z.of_nat 1); change (Z.of_nat 0 + 2) with (Z.of_nat 2);
  change (Z.of_nat 0 + 3) with (Z.of_nat 3); change (Z.of_nat 0 + 4) with (Z.of_nat 4);
  change (Z.of_nat 0 + (1 + 1)) with (Z.of_nat 2);
  repeat turn_step; rewrite <- ?Z.add_assoc; reflexivity.

Lemma encode_full pre a b c post done r0 r1 r2 r3 tl :
  byte_ok a → byte_ok b → byte_ok c →
  encode_turn (pre ++ a :: b :: c :: post) (Z.of_nat (length (pre ++ a :: b :: c :: post)))
    (Z.of_nat (length pre) + Z.of_nat 0) (Z.of_nat (length done) + Z.of_nat 0) (done ++ r0 :: r1 :: r2 :: r3 :: tl) =
  Val (Z.of_nat (length pre) + Z.of_nat 3, Z.of_nat (length done) + Z.of_nat 4,
       done ++ digit (a / 4) :: digit (a `mod` 4 * 16 + b / 16) :: digit (b `mod` 16 * 4 + c / 64) :: digit (c `mod` 64) :: tl).
Proof. turn. Qed.

Lemma encode_two pre a b done r0 r1 r2 r3 :
  byte_ok a → byte_ok b →
  encode_turn (pre ++ [a; b]) (Z.of_nat (length (pre ++ [a; b])))
    (Z.of_nat (length pre) + Z.of_nat 0) (Z.of_nat (length done) + Z.of_nat 0) (done ++ [r0; r1; r2; r3]) =
  Val (Z.of_nat (length pre) + Z.of_nat 2, Z.of_nat (length done) + Z.of_nat 4,
       done ++ [digit (a / 4); digit (a `mod` 4 * 16 + b / 16); digit (b `mod` 16 * 4); kPad]).
Proof. turn. Qed.

Lemma encode_one pre a done r0 r1 r2 r3 :
  byte_ok a →
  encode_turn (pre ++ [a]) (Z.of_nat (length (pre ++ [a])))
    (Z.of_nat (length pre) + Z.of_nat 0) (Z.of_nat (length done) + Z.of_nat 0) (done ++ [r0; r1; r2; r3]) =
  Val (Z.of_nat (length pre) + Z.of_nat 1, Z.of_nat (length done) + Z.of_nat 4,
       done ++ [digit (a / 4); digit (a `mod` 4 * 16); kPad; kPad]).
Proof. turn. Qed.

(** The digits of the specification are those of the encoder. *)
Lemma rfc4648_eqs a b c bs :
  byte_ok a → byte_ok b → byte_ok c →
  rfc4648 (a :: b :: c :: bs) =
    digit (a / 4) :: digit (a `mod` 4 * 16 + b / 16) :: digit (b `mod` 16 * 4 + c / 64) :: digit (c `mod` 64) :: rfc4648 bs ∧
  rfc4648 [a; b] = [digit (a / 4); digit (a `mod` 4 * 16 + b / 16); digit (b `mod` 16 * 4); kPad] ∧
  rfc4648 [a] = [digit (a / 4); digit (a `mod` 4 * 16); kPad; kPad].
Proof.
  intros Ha Hb Hc. assert (byte_ok 0) as H0 by (unfold byte_ok; lia).
  cbn [rfc4648].
  destruct (group_digits a b c Ha Hb Hc) as (-> & -> & -> & ->).
  destruct (group_digits a b 0 Ha Hb H0) as (E0 & E1 & E2 & _). rewrite Z.add_0_r in E0, E1, E2. rewrite E0, E1, E2.
  destruct (group_digits a 0 0 Ha H0 H0) as (F0 & F1 & _ & _). rewrite !Z.add_0_r in F0, F1. rewrite F0, F1.
  change (0 / 64) with 0. change (0 / 16) with 0. rewrite !Z.add_0_r. done.
Qed.

Lemma encode_loop_end fuel data len i d r : len ≤ i → encode_loop fuel data len i d r = Val r.
Proof. intros H. destruct fuel; simpl; by rewrite (proj2 (Z.ltb_ge _ _)). Qed.

Lemma encode_loop_turn fuel data pre bs (done : list Z) r i' d' r' :
  data = pre ++ bs → bs ≠ [] → (1 ≤ fuel)%nat →
  encode_turn data (Z.of_nat (length data)) (Z.of_nat (length pre) + Z.of_nat 0) (Z.of_nat (length done) + Z.of_nat 0) r = Val (i', d', r') →
  encode_loop fuel data (Z.of_nat (length data)) (Z.of_nat (length pre)) (Z.of_nat (length done)) r =
  encode_loop (pred fuel) data (Z.of_nat (length data)) i' d' r'.
Proof.
  intros -> Hne Hf. rewrite !Z.add_0_r. intros Ht. destruct fuel as [|fuel]; [lia|]. cbn [encode_loop pred].
  destruct bs; [done|]. rewrite (proj2 (Z.ltb_lt _ _)) by (rewrite length_app; simpl; lia). by rewrite Ht.
Qed.

Lemma encode_loop_spec bs : ∀ fuel pre done,
  bytes_ok bs → (length bs ≤ fuel)%nat →
  encode_loop fuel (pre ++ bs) (Z.of_nat (length (pre ++ bs))) (Z.of_nat (length pre)) (Z.of_nat (length done))
    (done ++ replicate (length (rfc4648 bs)) 0) = Val (done ++ rfc4648 bs).
Proof.
  unfold bytes_ok. assert (byte_ok 0) as H0 by (unfold byte_ok; lia).
  induction bs as [|a|a b|a b c bs IH] using triples_ind; intros fuel pre done Hb Hf;
    rewrite ?Forall_cons in Hb; cbn [length] in Hf.
  - apply encode_loop_end. len_solve.
  - destruct (rfc4648_eqs a 0 0 [] (proj1 Hb) H0 H0) as (_ & _ & ->).
    erewrite encode_loop_turn; [|done..|lia|apply encode_one, Hb]. apply encode_loop_end. len_solve.
  - destruct Hb as (Ha & Hb & _). destruct (rfc4648_eqs a b 0 [] Ha Hb H0) as (_ & -> & _).
    erewrite encode_loop_turn; [|done..|lia|by apply encode_two]. apply encode_loop_end. len_solve.
  - destruct Hb as (Ha & Hb & Hc & Hbs). destruct (rfc4648_eqs a b c bs Ha Hb Hc) as (-> & _ & _).
    cbn [length replicate]. erewrite encode_loop_turn; [|done..|lia|by apply encode_full].
    specialize (IH (pred fuel) (pre ++ [a; b; c])
      (done ++ [digit (a / 4); digit (a `mod` 4 * 16 + b / 16); digit (b `mod` 16 * 4 + c / 64); digit (c `mod` 64)]) Hbs ltac:(lia)).
    rewrite <- !app_assoc in IH. cbn [app] in IH. rewrite <- IH. f_equal; len_solve.
Qed.

Lemma EncodeFromArray_spec bs : bytes_ok bs → EncodeFromArray bs = Val (rfc4648 bs).
Proof.
  intros H. unfold EncodeFromArray. rewrite <- rfc4648_length, Nat2Z.id. by apply (encode_loop_spec bs (length bs) [] []).
Qed.

(** ** Quanta *)

Definition sextet (d : Z) : Prop := 0 ≤ d < 64.

Lemma quantum_digit flags ip d rest bl ps dpos qb :
  sextet d → (bl < 4)%nat →
  quantum_loop flags ip (digit d :: rest) (Q bl 0 ps dpos qb) =
  quantum_loop flags ip rest (Q (S bl) 0 ps (dpos + 1) (<[bl := d]> qb)).
Proof.
  intros Hd Hbl. cbn [quantum_loop byte_len qbuf pad_len pad_start q_dpos].
  rewrite (proj2 (Nat.ltb_lt _ _)) by done. rewrite decode_digit by done. cbn [of_mem mbind_res].
  unfold sextet, il, pd, sp in *. rewrite !(proj2 (Z.eqb_neq _ d)) by lia. by destruct ip.
Qed.

Lemma quantum_digits flags ip ds rest : ∀ bl ps dpos qb,
  Forall sextet ds → (bl + length ds ≤ 4)%nat → length qb = 4%nat →
  ∃ qb', quantum_loop flags ip ((digit <$> ds) ++ rest) (Q bl 0 ps dpos qb) =
         quantum_loop flags ip rest (Q (bl + length ds) 0 ps (dpos + Z.of_nat (length ds)) qb') ∧
         length qb' = 4%nat ∧ take (bl + length ds) qb' = take bl qb ++ ds.
Proof.
  induction ds as [|d ds IH]; intros bl ps dpos qb Hd Hbl Hqb.
  - exists qb. rewrite Nat.add_0_r, Z.add_0_r, app_nil_r. done.
  - apply Forall_cons in Hd as [Hd Hds]. cbn [length] in Hbl. rewrite fmap_cons. cbn [app].
    rewrite quantum_digit by (done || lia).
    destruct (IH (S bl) ps (dpos + 1) (<[bl := d]> qb) Hds ltac:(lia) ltac:(by rewrite length_insert)) as (qb' & E & Hl & Ht).
    exists qb'. rewrite E. split_and!; [|done|].
    + cbn [length]. do 2 f_equal; lia.
    + cbn [length]. replace (bl + S (length ds))%nat with (S bl + length ds)%nat by lia. rewrite Ht.
      rewrite take_S_r with (x := d) by (apply list_lookup_insert_eq; lia).
      rewrite take_insert_ge by lia. by rewrite <- app_assoc.
Qed.

Lemma quantum_pad flags rest bl pl ps dpos qb :
  (2 ≤ bl)%nat → 0 ≤ pl → Z.of_nat bl + pl < 4 → ∃ ps',
  quantum_loop flags false (kPad :: rest) (Q bl pl ps dpos qb) =
  quantum_loop flags false rest (Q bl (pl + 1) ps' (dpos + 1) (<[bl := pd]> qb)).
Proof.
  intros Hbl Hpl H. eexists. cbn [quantum_loop byte_len qbuf pad_len pad_start q_dpos].
  rewrite (proj2 (Nat.ltb_lt _ _)) by lia. change (DecodeTable !! Z.to_nat kPad) with (Some pd). cbn [of_mem mbind_res].
  change ((il =? pd) || false && (pd =? pd)) with false. change (sp =? pd) with false. change (pd =? pd) with true.
  cbn match. rewrite (proj2 (Nat.ltb_ge _ _)) by lia. rewrite (proj2 (Z.leb_gt _ _)) by lia. done.
Qed.

Lemma quantum_pads flags n : ∀ bl pl ps dpos qb,
  (2 ≤ bl)%nat → 0 ≤ pl → Z.of_nat bl + pl + Z.of_nat n ≤ 4 → ∃ ps' qb',
  quantum_loop flags false (replicate n kPad) (Q bl pl ps dpos qb) = Val (Q bl (pl + Z.of_nat n) ps' (dpos + Z.of_nat n) qb') ∧
  take bl qb' = take bl qb.
Proof.
  induction n as [|n IH]; intros bl pl ps dpos qb Hbl Hpl H.
  - exists ps, qb. by rewrite !Z.add_0_r.
  - cbn [replicate]. destruct (quantum_pad flags (replicate n kPad) bl pl ps dpos qb) as (ps1 & ->); [lia..|].
    destruct (IH bl (pl + 1) ps1 (dpos + 1) (<[bl := pd]> qb)) as (ps' & qb' & -> & Ht); [lia..|].
    exists ps', qb'. split; [do 2 f_equal; lia|]. by rewrite Ht, take_insert_ge by lia.
Qed.

Lemma quantum_four flags ip rest pl ps dpos qb : quantum_loop flags ip rest (Q 4 pl ps dpos qb) = Val (Q 4 pl ps dpos qb).
Proof. by destruct rest. Qed.

Lemma next_full flags ip pre ds post qb :
  Forall sextet ds → length ds = 4%nat → length qb = 4%nat →
  GetNextQuantum flags ip (pre ++ (digit <$> ds) ++ post) (Z.of_nat (length pre)) qb =
  Val (4%nat, true, Z.of_nat (length pre) + 4, ds).
Proof.
  intros Hds Hl Hqb. unfold GetNextQuantum. rewrite Nat2Z.id, drop_app_length.
  destruct (quantum_digits flags ip ds post 0 0 (Z.of_nat (length pre)) qb Hds ltac:(lia) Hqb) as (qb' & -> & Hl' & Ht).
  rewrite Hl in *. rewrite quantum_four. cbn [mbind_res byte_len pad_len pad_start q_dpos qbuf].
  cbn [Nat.add] in Ht |- *. rewrite Ht. by rewrite app_nil_r.
Qed.

Lemma next_padded flags pre ds n qb :
  Forall sextet ds → (2 ≤ length ds)%nat → (length ds + n = 4)%nat → length qb = 4%nat →
  GetNextQuantum flags false (pre ++ (digit <$> ds) ++ replicate n kPad) (Z.of_nat (length pre)) qb =
  Val (length ds, true, Z.of_nat (length pre) + 4, ds ++ replicate n 0).
Proof.
  intros Hds H2 Hn Hqb. unfold GetNextQuantum. rewrite Nat2Z.id, drop_app_length.
  destruct (quantum_digits flags false ds (replicate n kPad) 0 0 (Z.of_nat (length pre)) qb Hds ltac:(lia) Hqb) as (qb' & -> & Hl' & Ht).
  destruct (quantum_pads flags n (0 + length ds) 0 0 (Z.of_nat (length pre) + Z.of_nat (length ds)) qb') as (ps' & qb2 & -> & Ht2);
    [lia..|]. cbn [mbind_res byte_len pad_len pad_start q_dpos qbuf].
  rewrite Ht2, Ht. rewrite (proj2 (Z.eqb_eq _ 4)) by lia. cbn [negb andb].
  replace (4 - _)%nat with n by lia. rewrite <- Z.add_assoc. by replace (_ + Z.of_nat n) with 4 by lia.
Qed.

Lemma quantum_bytes_4 p q r s : sextet p → sextet q → sextet r → sextet s →
  quantum_bytes 4 [p; q; r; s] = Val ([p * 4 + q / 16; q `mod` 16 * 16 + r / 4; r `mod` 4 * 64 + s], 0).
Proof. intros. unfold quantum_bytes. cbn -[Z.lor Z.land Z.shiftl Z.shiftr uwrap]. by rewrite dec0, dec1, dec2. Qed.

Lemma quantum_bytes_3 p q r : sextet p → sextet q → sextet r →
  quantum_bytes 3 [p; q; r; 0] = Val ([p * 4 + q / 16; q `mod` 16 * 16 + r / 4], r `mod` 4 * 64).
Proof.
  intros. unfold quantum_bytes. cbn -[Z.lor Z.land Z.shiftl Z.shiftr uwrap].
  by rewrite dec0, dec1, dec2, Z.add_0_r by done.
Qed.

Lemma quantum_bytes_2 p q : sextet p → sextet q →
  quantum_bytes 2 [p; q; 0; 0] = Val ([p * 4 + q / 16], q `mod` 16 * 16).
Proof.
  intros. unfold quantum_bytes. cbn -[Z.lor Z.land Z.shiftl Z.shiftr uwrap].
  by rewrite dec0, dec1, Z.add_0_r by done.
Qed.

(** ** Decoding an encoded text *)

(** A turn of the decoder on a full quantum, and on the last one. *)
Lemma decode_full fuel flags data dpos qb result ds out p :
  dpos < Z.of_nat (length data) →
  GetNextQuantum (Z.land flags DO_PARSE_MASK) (DO_PAD_NO =? Z.land flags DO_PAD_MASK) data dpos qb = Val (4%nat, p, dpos + 4, ds) →
  quantum_bytes 4 ds = Val (out, 0) →
  decode_loop (S fuel) flags data (Z.of_nat (length data)) dpos qb true result =
  decode_loop fuel flags data (Z.of_nat (length data)) (dpos + 4) ds true (result ++ out).
Proof.
  intros Hl Hq Ho. cbn [decode_loop]. rewrite (proj2 (Z.ltb_lt _ _)) by done. rewrite Hq. cbn [mbind_res].
  rewrite Ho. done.
Qed.

Lemma decode_last fuel flags data dpos qb result n ds out dpos' :
  dpos < Z.of_nat (length data) → (n < 4)%nat →
  GetNextQuantum (Z.land flags DO_PARSE_MASK) (DO_PAD_NO =? Z.land flags DO_PAD_MASK) data dpos qb = Val (n, true, dpos', ds) →
  quantum_bytes n ds = Val (out, 0) →
  decode_loop (S fuel) flags data (Z.of_nat (length data)) dpos qb true result = Val (true, result ++ out, dpos').
Proof.
  intros Hl Hn Hq Ho. cbn [decode_loop]. rewrite (proj2 (Z.ltb_lt _ _)) by done. rewrite Hq. cbn [mbind_res].
  rewrite Ho. cbn [mbind_res]. rewrite (proj2 (Nat.ltb_lt _ _)) by done.
  change (0 =? 0) with true. cbn [negb]. by rewrite !andb_false_r.
Qed.

Ltac sextets := rewrite ?Forall_cons; unfold sextet, byte_ok in *; split_and?; try apply Forall_nil_2; div_solve.

Lemma decode_loop_spec flags bs : (DO_PAD_NO =? Z.land flags DO_PAD_MASK) = false → ∀ fuel pre qb result,
  bytes_ok bs → (length bs < fuel)%nat → length qb = 4%nat →
  decode_loop fuel flags (pre ++ rfc4648 bs) (Z.of_nat (length (pre ++ rfc4648 bs))) (Z.of_nat (length pre)) qb true result =
  Val (true, result ++ bs, Z.of_nat (length (pre ++ rfc4648 bs))).
Proof.
  intros Hflags. unfold bytes_ok. assert (byte_ok 0) as H0 by (unfold byte_ok; lia).
  induction bs as [|a|a b|a b c bs IH] using triples_ind; intros [|fuel] pre qb result Hb Hf Hqb;
    rewrite ?Forall_cons in Hb; cbn [length] in Hf; try lia.
  - cbn [decode_loop rfc4648]. rewrite (proj2 (Z.ltb_ge _ _)) by len_solve. by rewrite !app_nil_r.
  - destruct Hb as [Ha _]. destruct (rfc4648_eqs a 0 0 [] Ha H0 H0) as (_ & _ & ->).
    rewrite (decode_last _ _ _ _ _ _ 2 ([a / 4; a `mod` 4 * 16] ++ replicate 2 0) [a] (Z.of_nat (length pre) + 4)).
    + do 2 f_equal; len_solve.
    + len_solve.
    + lia.
    + rewrite Hflags. apply (next_padded _ pre [a / 4; a `mod` 4 * 16] 2 qb); [sextets|simpl; lia..].
    + cbn [app replicate]. rewrite quantum_bytes_2 by sextets. unfold byte_ok in *. repeat f_equal; div_solve.
  - destruct Hb as (Ha & Hb & _). destruct (rfc4648_eqs a b 0 [] Ha Hb H0) as (_ & -> & _).
    rewrite (decode_last _ _ _ _ _ _ 3 ([a / 4; a `mod` 4 * 16 + b / 16; b `mod` 16 * 4] ++ replicate 1 0) [a; b] (Z.of_nat (length pre) + 4)).
    + do 2 f_equal; len_solve.
    + len_solve.
    + lia.
    + rewrite Hflags. apply (next_padded _ pre [a / 4; a `mod` 4 * 16 + b / 16; b `mod` 16 * 4] 1 qb); [sextets|simpl; lia..].
    + cbn [app replicate]. rewrite quantum_bytes_3 by sextets. unfold byte_ok in *. repeat f_equal; div_solve.
  - destruct Hb as (Ha & Hb & Hc & Hbs). destruct (rfc4648_eqs a b c bs Ha Hb Hc) as (-> & _ & _).
    set (ds := [a / 4; a `mod` 4 * 16 + b / 16; b `mod` 16 * 4 + c / 64; c `mod` 64]).
    rewrite (decode_full _ _ _ _ _ _ ds [a; b; c] true).
    + specialize (IH fuel (pre ++ (digit <$> ds)) ds (result ++ [a; b; c]) Hbs ltac:(lia) eq_refl).
      rewrite <- !app_assoc in IH. subst ds. cbn [fmap list_fmap app] in IH. rewrite <- IH. f_equal; len_solve.
    + len_solve.
    + rewrite Hflags. apply (next_full _ _ pre ds (rfc4648 bs) qb); [unfold ds; sextets|simpl; lia..].
    + subst ds. rewrite quantum_bytes_4 by sextets. unfold byte_ok in *. repeat f_equal; div_solve.
Qed.

(** ** What a strict decoder accepts *)

Lemma take_insert_S (l : list Z) k x : (k < length l)%nat → take (S k) (<[k := x]> l) = take k l ++ [x].
Proof.
  intros H. rewrite take_S_r with (x := x) by by apply list_lookup_insert_eq. by rewrite take_insert_ge.
Qed.

Record quantum_ok (q : quantum) : Prop := {
  q_len : length (qbuf q) = 4%nat;
  q_pad : 0 ≤ pad_len q;
  q_sum : Z.of_nat (byte_len q) + pad_len q ≤ 4;
  q_two : 0 < pad_len q → (2 ≤ byte_len q)%nat }.

(** From [q] to [q'] the loop read digits, then padding. *)
Definition strict_reads (rest : list Z) (q q' : quantum) : Prop :=
  ∃ ds n rest', rest = (digit <$> ds) ++ replicate n kPad ++ rest' ∧ Forall sextet ds ∧ (0 < pad_len q → ds = []) ∧
    byte_len q' = (byte_len q + length ds)%nat ∧ pad_len q' = pad_len q + Z.of_nat n ∧
    q_dpos q' = q_dpos q + Z.of_nat (length ds + n) ∧
    take (byte_len q') (qbuf q') = take (byte_len q) (qbuf q) ++ ds ∧ quantum_ok q'.

Lemma strict_stop rest q qb :
  quantum_ok q → length qb = 4%nat → take (byte_len q) qb = take (byte_len q) (qbuf q) →
  strict_reads rest q (Q (byte_len q) (pad_len q) (pad_start q) (q_dpos q) qb).
Proof.
  intros [] Hl Ht. exists [], 0%nat, rest. cbn. rewrite app_nil_r, Nat.add_0_r, !Z.add_0_r. by split_and!.
Qed.

Lemma strict_pad rest q q' ps :
  quantum_ok q → (2 ≤ byte_len q)%nat → Z.of_nat (byte_len q) + pad_len q < 4 →
  (quantum_ok (Q (byte_len q) (pad_len q + 1) ps (q_dpos q + 1) (<[byte_len q := pd]> (qbuf q))) →
   strict_reads rest (Q (byte_len q) (pad_len q + 1) ps (q_dpos q + 1) (<[byte_len q := pd]> (qbuf q))) q') →
  strict_reads (kPad :: rest) q q'.
Proof.
  intros [Hlen Hpad Hsum Htwo] H2 H4 IH. unfold strict_reads in *; cbn in *.
  destruct IH as (ds & n & rest' & E & Hds & Hnil & Hbl & Hpl & Hdp & Ht & Hok); [split; cbn; try rewrite length_insert; lia|].
  rewrite Hnil in * by lia. exists [], (S n), rest'. rewrite take_insert_ge in Ht by lia. cbn in *. rewrite E.
  split_and!; try done; lia.
Qed.

Lemma strict_digit rest q q' v :
  quantum_ok q → (byte_len q < 4)%nat → pad_len q = 0 → sextet v →
  (quantum_ok (Q (S (byte_len q)) 0 (pad_start q) (q_dpos q + 1) (<[byte_len q := v]> (qbuf q))) →
   strict_reads rest (Q (S (byte_len q)) 0 (pad_start q) (q_dpos q + 1) (<[byte_len q := v]> (qbuf q))) q') →
  strict_reads (digit v :: rest) q q'.
Proof.
  intros [Hlen Hpad Hsum Htwo] H4 Hp Hv IH. unfold strict_reads in *; cbn in *.
  destruct IH as (ds & n & rest' & E & Hds & Hnil & Hbl & Hpl & Hdp & Ht & Hok); [split; cbn; try rewrite length_insert; lia|].
  rewrite take_insert_S in Ht by lia. exists (v :: ds), n, rest'. rewrite E. rewrite <- app_assoc in Ht. cbn.
  split_and!; try done; try lia. by constructor.
Qed.

Lemma quantum_strict rest : ∀ q q', bytes_ok rest → quantum_ok q →
  quantum_loop DO_PARSE_STRICT false rest q = Val q' → strict_reads rest q q'.
Proof.
  induction rest as [|ch rest IH]; intros q q' Hr Hq H; cbn [quantum_loop] in H.
  { injection H as <-. destruct q. by apply strict_stop; [|destruct Hq|]. }
  apply Forall_cons in Hr as [Hch Hr]. pose proof Hq as [Hlen Hpad Hsum Htwo].
  destruct (Nat.ltb_spec (byte_len q) 4); [|injection H as <-; destruct q; by apply strict_stop].
  destruct (DecodeTable !! Z.to_nat ch) as [v|] eqn:Hv; cbn [of_mem mbind_res] in H; [|done].
  pose proof (strict_stop (ch :: rest) q (<[byte_len q := v]> (qbuf q)) Hq ltac:(by rewrite length_insert)
    ltac:(by rewrite take_insert_ge by lia)) as Hstop.
  destruct (decode_table_char ch v Hch Hv) as [->|[->|[[-> ->]|[Hd ->]]]].
  - by injection H as <-.
  - by injection H as <-.
  - change ((il =? pd) || false && (pd =? pd)) with false in H. change (sp =? pd) with false in H. change (pd =? pd) with true in H.
    cbn match in H. destruct (Nat.ltb_spec (byte_len q) 2); [by injection H as <-|].
    destruct (Z.leb_spec 4 (Z.of_nat (byte_len q) + pad_len q)); [by injection H as <-|].
    eapply strict_pad; [done|lia..|]. intros Hok. by apply IH.
  - unfold il, sp, pd in H. rewrite !(proj2 (Z.eqb_neq _ v)) in H by lia. cbn match in H.
    destruct (Z.ltb_spec 0 (pad_len q)); [by injection H as <-|]. assert (pad_len q = 0) as E by lia. rewrite E in H.
    apply strict_digit; [done..|]. intros Hok. by apply IH.
Qed.

Lemma next_strict pre rest qb n p dpos ds :
  bytes_ok rest → length qb = 4%nat →
  GetNextQuantum DO_PARSE_STRICT false (pre ++ rest) (Z.of_nat (length pre)) qb = Val (n, p, dpos, ds) →
  p = true ∨ (4 ≤ n)%nat →
  ∃ vs k rest', rest = (digit <$> vs) ++ replicate k kPad ++ rest' ∧ Forall sextet vs ∧ (2 ≤ length vs)%nat ∧
    (length vs + k = 4)%nat ∧ n = length vs ∧ dpos = Z.of_nat (length pre) + 4 ∧ ds = vs ++ replicate k 0.
Proof.
  intros Hr Hqb H Hor. unfold GetNextQuantum in H. rewrite Nat2Z.id, drop_app_length in H.
  inv_bind H. apply quantum_strict in Ha as (vs & k & rest' & -> & Hvs & _ & Hbl & Hpl & Hdp & Ht & []); [|done|split; cbn; lia].
  cbn in Hbl, Hpl, Hdp, Ht. injection H as <- <- <- <-. rewrite Z.eqb_eq in Hor.
  exists vs, k, rest'. rewrite Ht. rewrite (proj2 (Z.eqb_eq _ _)) by lia. cbn.
  split_and!; try done; try lia. all: f_equal; f_equal; lia.
Qed.

(** The three shapes of an accepted group. *)
Lemma rfc4648_of_digits p q r s bs :
  sextet p → sextet q → sextet r → sextet s →
  digit p :: digit q :: digit r :: digit s :: rfc4648 bs =
    rfc4648 (p * 4 + q / 16 :: q `mod` 16 * 16 + r / 4 :: r `mod` 4 * 64 + s :: bs) ∧
  (r `mod` 4 * 64 = 0 → [digit p; digit q; digit r; kPad] = rfc4648 [p * 4 + q / 16; q `mod` 16 * 16 + r / 4]) ∧
  (q `mod` 16 * 16 = 0 → [digit p; digit q; kPad; kPad] = rfc4648 [p * 4 + q / 16]).
Proof.
  unfold sextet. intros Hp Hq Hr Hs. assert (byte_ok 0) as H0 by (unfold byte_ok; lia).
  assert (byte_ok (p * 4 + q / 16)) as Ha by (unfold byte_ok; div_solve).
  assert (byte_ok (q `mod` 16 * 16 + r / 4)) as Hb by (unfold byte_ok; div_solve).
  assert (byte_ok (r `mod` 4 * 64 + s)) as Hc by (unfold byte_ok; div_solve).
  destruct (rfc4648_eqs _ _ _ bs Ha Hb Hc) as (-> & -> & ->).
  split_and!; [|intros E..]; repeat f_equal; div_solve.
Qed.

Lemma list_two (vs : list Z) : length vs = 2%nat → ∃ p q, vs = [p; q].
Proof. destruct vs as [|p [|q [|]]]; try done. eauto. Qed.
Lemma list_three (vs : list Z) : length vs = 3%nat → ∃ p q r, vs = [p; q; r].
Proof. destruct vs as [|p [|q [|r [|]]]]; try done. eauto. Qed.
Lemma list_four (vs : list Z) : length vs = 4%nat → ∃ p q r s, vs = [p; q; r; s].
Proof. destruct vs as [|p [|q [|r [|s [|]]]]]; try done. eauto. Qed.

(** The last group of an accepted text. *)
Lemma strict_last vs k out :
  Forall sextet vs → (2 ≤ length vs < 4)%nat → (length vs + k = 4)%nat →
  quantum_bytes (length vs) (vs ++ replicate k 0) = Val (out, 0) →
  bytes_ok out ∧ (digit <$> vs) ++ replicate k kPad = rfc4648 out.
Proof.
  intros Hvs Hl Hk Ho. assert (sextet 0) as H0 by (unfold sextet; lia).
  assert (length vs = 2 ∨ length vs = 3)%nat as [E|E] by lia.
  - apply list_two in E as (p & q & ->). rewrite !Forall_cons in Hvs. destruct Hvs as (Hp & Hq & _).
    cbn in Hk. assert (k = 2%nat) as -> by lia. cbn [length app replicate] in Ho.
    rewrite quantum_bytes_2 in Ho by done. injection Ho as <- Hc.
    split; [repeat constructor; unfold sextet, byte_ok in *; div_solve|].
    by apply (rfc4648_of_digits p q 0 0 []).
  - apply list_three in E as (p & q & r & ->). rewrite !Forall_cons in Hvs. destruct Hvs as (Hp & Hq & Hr & _).
    cbn in Hk. assert (k = 1%nat) as -> by lia. cbn [length app replicate] in Ho.
    rewrite quantum_bytes_3 in Ho by done. injection Ho as <- Hc.
    split; [repeat constructor; unfold sextet, byte_ok in *; div_solve|].
    by apply (rfc4648_of_digits p q r 0 []).
Qed.

Lemma strict_group vs out c :
  Forall sextet vs → length vs = 4%nat → quantum_bytes 4 vs = Val (out, c) →
  bytes_ok out ∧ ∀ bs, (digit <$> vs) ++ rfc4648 bs = rfc4648 (out ++ bs).
Proof.
  intros Hvs Hl Ho. apply list_four in Hl as (p & q & r & s & ->). rewrite !Forall_cons in Hvs.
  destruct Hvs as (Hp & Hq & Hr & Hs & _). rewrite quantum_bytes_4 in Ho by done. injection Ho as <- <-.
  split; [repeat constructor; unfold sextet, byte_ok in *; div_solve|].
  intros bs. by apply (rfc4648_of_digits p q r s bs).
Qed.

Lemma decode_strict_inv fuel : ∀ pre rest qb result out,
  bytes_ok rest → length qb = 4%nat →
  decode_loop fuel DO_STRICT (pre ++ rest) (Z.of_nat (length (pre ++ rest))) (Z.of_nat (length pre)) qb true result =
    Val (true, out, Z.of_nat (length (pre ++ rest))) →
  ∃ bs, bytes_ok bs ∧ out = result ++ bs ∧ rest = rfc4648 bs.
Proof.
  induction fuel as [|fuel IH]; intros pre rest qb result out Hr Hqb H; cbn [decode_loop] in H;
    destruct (Z.ltb_spec (Z.of_nat (length pre)) (Z.of_nat (length (pre ++ rest)))) as [|Hge]; [done| | |];
    try (injection H as <-; exists []; rewrite length_app in Hge; destruct rest; [by rewrite app_nil_r|simpl in *; lia]).
  inv_bind H. destruct a as [[[n p] dpos] ds]. inv_bind H. destruct a as [o c]. cbn match in H.
  change (Z.land DO_STRICT DO_PARSE_MASK) with DO_PARSE_STRICT in Ha.
  change (DO_PAD_NO =? Z.land DO_STRICT DO_PAD_MASK) with false in Ha.
  change (DO_TERM_ANY =? Z.land DO_STRICT DO_TERM_MASK) with false in H.
  change (DO_PAD_YES =? Z.land DO_STRICT DO_PAD_MASK) with true in H.
  destruct (Nat.ltb_spec n 4) as [Hn|Hn].
  - cbn [negb andb] in H. destruct (Z.eqb_spec 0 c) as [<-|], p; try done. injection H as <- ->.
    apply next_strict in Ha as (vs & k & rest' & -> & Hvs & H2 & Hk & -> & Hd & ->); [|by eauto..].
    assert (rest' = []) as -> by (apply nil_length_inv; rewrite !length_app, length_fmap, length_replicate in Hd; lia).
    rewrite app_nil_r in *. destruct (strict_last vs k o) as [Ho Heq]; [done|lia|done..|]. by exists o.
  - apply next_strict in Ha as (vs & k & rest' & -> & Hvs & H2 & Hk & -> & -> & ->); [|by eauto..].
    assert (k = 0%nat) as -> by lia. cbn [replicate app] in *. rewrite app_nil_r in *.
    assert (length vs = 4%nat) as El by lia. rewrite El in Ha0. destruct (strict_group vs o c) as [Ho Heq]; [done..|].
    specialize (IH (pre ++ (digit <$> vs)) rest' vs (result ++ o) out). rewrite <- !app_assoc in IH.
    destruct IH as (bs & Hbs & -> & ->); [by apply bytes_ok_app in Hr as [_ ?]|done| |].
    + rewrite <- H. f_equal. rewrite length_app, length_fmap. lia.
    + exists (o ++ bs). rewrite bytes_ok_app, Heq, app_assoc. done.
Qed.

(** ** The theorems *)

Definition valid_flags (flags : Z) : Prop :=
  0 ≤ flags ≤ 63 ∧ Z.land flags DO_PARSE_MASK ≠ 0 ∧ Z.land flags DO_PAD_MASK ≠ 0 ∧ Z.land flags DO_TERM_MASK ≠ 0.

Lemma decode_from dchk flags data :
  valid_flags flags →
  DecodeFromArray dchk data flags =
  let* '(success, result, dpos) := decode_loop (S (length data)) flags data (Z.of_nat (length data)) 0 [0; 0; 0; 0] true [] in
  Val (if (DO_TERM_BUFFER =? Z.land flags DO_TERM_MASK) && negb (dpos =? Z.of_nat (length data)) then false else success, result, dpos).
Proof.
  intros (Hf & Hp & Hd & Ht). unfold DecodeFromArray. destruct dchk; [|done].
  change (Z.lor (Z.lor DO_PARSE_MASK DO_PAD_MASK) DO_TERM_MASK) with 63.
  rewrite (proj2 (Z.leb_le _ _)) by lia. rewrite !(proj2 (Z.eqb_neq 0 _)) by lia. done.
Qed.

Lemma decode_encoded dchk flags bs :
  bytes_ok bs → valid_flags flags → Z.land flags DO_PAD_MASK ≠ DO_PAD_NO →
  DecodeFromArray dchk (rfc4648 bs) flags = Val (true, bs, Z.of_nat (length (rfc4648 bs))).
Proof.
  intros Hb Hf Hn. rewrite decode_from by done.
  assert (length bs < S (length (rfc4648 bs)))%nat as Hl by (pose proof (rfc4648_length bs); div_solve).
  pose proof (decode_loop_spec flags bs (proj2 (Z.eqb_neq _ _) (not_eq_sym Hn)) _ [] [0; 0; 0; 0] [] Hb Hl eq_refl) as E.
  cbn [app length] in E. change (Z.of_nat 0) with 0 in E. rewrite E. cbn [mbind_res]. by rewrite Z.eqb_refl, andb_false_r.
Qed.

(** What the encoder writes decodes, with any options that do not forbid
    padding, to the bytes it was given, and the decoder uses all of it. *)
Theorem base64_roundtrip dchk flags bs :
  bytes_ok bs → valid_flags flags → Z.land flags DO_PAD_MASK ≠ DO_PAD_NO →
  ∃ text, Encode bs = Val text ∧ DecodeFromArray dchk text flags = Val (true, bs, Z.of_nat (length text)).
Proof.
  intros Hb Hf Hn. exists (rfc4648 bs). split; [by apply EncodeFromArray_spec|by apply decode_encoded].
Qed.

Example base64_roundtrip_witness :
  ∃ text, Encode (b#"Man i") = Val text ∧ DecodeFromArray true text DO_LAX = Val (true, b#"Man i", Z.of_nat (length text)).
Proof.
  apply (base64_roundtrip true DO_LAX (b#"Man i")); [|unfold valid_flags; split_and!; vm_compute; congruence|vm_compute; congruence].
  vm_compute. repeat constructor; congruence.
Defined.

(** A strict decoder accepts a text exactly when it is the standard's
    encoding of the bytes it returns, which is what the encoder writes: nothing
    that is not padded, has stray bits or trailing characters is let through,
    and no two texts decode to the same bytes. *)
Theorem base64_strict_exact dchk text bs used :
  bytes_ok text →
  DecodeFromArray dchk text DO_STRICT = Val (true, bs, used) ↔
  bytes_ok bs ∧ Encode bs = Val text ∧ text = rfc4648 bs ∧ used = Z.of_nat (length text).
Proof.
  intros Ht. assert (valid_flags DO_STRICT) as Hf by (unfold valid_flags; split_and!; vm_compute; congruence). split.
  - rewrite decode_from by done. intros H. inv_bind H. destruct a as [[ok out] dpos]. cbn match in H.
    change (DO_TERM_BUFFER =? Z.land DO_STRICT DO_TERM_MASK) with true in H. cbn [andb] in H.
    destruct (Z.eqb_spec dpos (Z.of_nat (length text))) as [->|]; [|done]. cbn in H. injection H as -> -> <-.
    apply (decode_strict_inv _ [] text) in Ha as (bs' & Hbs & -> & ->); [|done..]. cbn. split_and!; try done.
    by apply EncodeFromArray_spec.
  - intros (Hb & _ & -> & ->). by apply decode_encoded.
Qed.

Example base64_strict_exact_witness :
  DecodeFromArray true (b#"TWFuIGk=") DO_STRICT = Val (true, b#"Man i", 8) ↔
  bytes_ok (b#"Man i") ∧ Encode (b#"Man i") = Val (b#"TWFuIGk=") ∧ b#"TWFuIGk=" = rfc4648 (b#"Man i") ∧
  8 = Z.of_nat (length (b#"TWFuIGk=")).
Proof. apply (base64_strict_exact true (b#"TWFuIGk=") (b#"Man i") 8). vm_compute. repeat constructor; congruence. Defined.

(** [strchr] finds the terminating NUL, after which there is nothing to read. *)
Example next_char_of_nul : GetNextBase64Char 0 = Undef ∧ GetNextBase64Char 47 = Val (Some 65) ∧ GetNextBase64Char 33 = Val None.
Proof. split_and!; vm_compute; reflexivity. Qed.
