(* ===== verification/StringEncode.v ===== *)
(** * String encodings (rtc_base/string_encode.cc, string_utils.cc)

    Hexadecimal text with and without a delimiter, splitting and joining, and
    trimming. The theorems are that hexadecimal text reads back as the bytes it
    was made from and that nothing else is accepted, within the output buffer
    whatever the input; and that splitting and joining are inverse. Strings are
    lists of characters, integers below 256. *)

From S2P Require Import Prelude.

(** ** Hexadecimal text *)

Definition HEX : list Z := b#"0123456789abcdef".

(** [hex_encode(unsigned char)] *)
Definition hex_encode_val (RTC_DCHECK_IS_ON : bool) (val : Z) : res Z :=
  let* _ := (if RTC_DCHECK_IS_ON then c_assert (val <? 16) else Val ()) in
  if val <? 16 then byte_at HEX val else Val 33.

(** [hex_decode(char, unsigned char* )] *)
Definition hex_decode_char (ch : Z) : option Z :=
  if (48 <=? ch) && (ch <=? 57) then Some (ch - 48)
  else if (65 <=? ch) && (ch <=? 70) then Some (ch - 65 + 10)
  else if (97 <=? ch) && (ch <=? 102) then Some (ch - 97 + 10)
  else None.

Definition hex_encode_output_length (srclen delimiter : Z) : Z :=
  if negb (delimiter =? 0) && (0 <? srclen) then u64 (srclen * 3 - 1) else u64 (srclen * 2).

(** One turn per source byte. *)
Fixpoint hex_encode_loop (fuel : nat) (dchk : bool) (bsource : list Z) (srclen delimiter srcpos bufpos : Z) (buffer : list Z)
    : res (list Z) :=
  if srcpos <? srclen then
    match fuel with
    | O => Undef
    | S fuel =>
        let* ch := byte_at bsource srcpos in
        let srcpos := srcpos + 1 in
        let* c1 := hex_encode_val dchk (Z.land (Z.shiftr ch 4) 0xF) in
        let* buffer := set_char bufpos c1 buffer in
        let* c2 := hex_encode_val dchk (Z.land ch 0xF) in
        let* buffer := set_char (bufpos + 1) c2 buffer in
        let bufpos := bufpos + 2 in
        if negb (delimiter =? 0) && (srcpos <? srclen) then
          let* buffer := set_char bufpos delimiter buffer in
          hex_encode_loop fuel dchk bsource srclen delimiter srcpos (bufpos + 1) buffer
        else hex_encode_loop fuel dchk bsource srclen delimiter srcpos bufpos buffer
    end
  else Val buffer.

Definition hex_encode_with_delimiter (dchk : bool) (source : list Z) (delimiter : Z) : res (list Z) :=
  let srclen := Z.of_nat (length source) in
  let s := replicate (Z.to_nat (hex_encode_output_length srclen delimiter)) 0 in
  hex_encode_loop (length source) dchk source srclen delimiter 0 0 s.

Definition hex_encode (dchk : bool) (source : list Z) : res (list Z) := hex_encode_with_delimiter dchk source 0.

(** The return value and the buffer afterwards. *)
Fixpoint hex_decode_loop (fuel : nat) (source : list Z) (srclen delimiter srcpos bufpos : Z) (bbuffer : list Z)
    : res (Z * list Z) :=
  if srcpos <? srclen then
    match fuel with
    | O => Undef
    | S fuel =>
        if srclen - srcpos <? 2 then Val (0, bbuffer)
        else
          let* c1 := byte_at source srcpos in
          match hex_decode_char c1 with
          | None => Val (0, bbuffer)
          | Some h1 =>
              let* c2 := byte_at source (srcpos + 1) in
              match hex_decode_char c2 with
              | None => Val (0, bbuffer)
              | Some h2 =>
                  let* bbuffer := set_char bufpos (u8 (Z.lor (Z.shiftl h1 4) h2)) bbuffer in
                  let bufpos := bufpos + 1 in
                  let srcpos := srcpos + 2 in
                  if negb (delimiter =? 0) && (1 <? srclen - srcpos) then
                    let* c := byte_at source srcpos in
                    if negb (c =? delimiter) then Val (0, bbuffer)
                    else hex_decode_loop fuel source srclen delimiter (srcpos + 1) bufpos bbuffer
                  else hex_decode_loop fuel source srclen delimiter srcpos bufpos bbuffer
              end
          end
    end
  else Val (bufpos, bbuffer).

Definition hex_decode_with_delimiter (cbuffer source : list Z) (delimiter : Z) : res (Z * list Z) :=
  let buflen := Z.of_nat (length cbuffer) in
  let srclen := Z.of_nat (length source) in
  if buflen =? 0 then Val (0, cbuffer)
  else
    let needed := if negb (delimiter =? 0) then (srclen + 1) / 3 else srclen / 2 in
    if buflen <? needed then Val (0, cbuffer)
    else hex_decode_loop (length source) source srclen delimiter 0 0 cbuffer.

Definition hex_decode (cbuffer source : list Z) : res (Z * list Z) := hex_decode_with_delimiter cbuffer source 0.

Example hex_demo :
  hex_encode_with_delimiter true [0xde; 0xad; 0x01] 58 = Val (b#"de:ad:01") ∧
  hex_decode_with_delimiter [0; 0; 0; 0] (b#"dE:Ad:01") 58 = Val (3, [0xde; 0xad; 0x01; 0]) ∧
  hex_decode_with_delimiter [0; 0; 0; 0] (b#"de:ad:") 58 = Val (0, [0xde; 0xad; 0; 0]) ∧
  hex_decode_with_delimiter [0] (b#"de:ad") 58 = Val (0, [0]).
Proof. split_and!; vm_compute; reflexivity. Qed.

(** ** Splitting and joining *)

Definition substr (s : list Z) (pos n : Z) : list Z := take (Z.to_nat n) (drop (Z.to_nat pos) s).

(** [rest] is the source from [i] on. *)
Fixpoint fields_loop (source : list Z) (delimiter : Z) (i last : Z) (fields : list (list Z)) (rest : list Z) : Z * list (list Z) :=
  match rest with
  | [] => (last, fields)
  | c :: rest =>
      if c =? delimiter then fields_loop source delimiter (i + 1) (i + 1) (fields ++ [substr source last (i - last)]) rest
      else fields_loop source delimiter (i + 1) last fields rest
  end.

Definition split (source : list Z) (delimiter : Z) : list (list Z) :=
  let '(last, fields) := fields_loop source delimiter 0 0 [] source in
  fields ++ [drop (Z.to_nat last) source].

Fixpoint tokenize_loop (source : list Z) (delimiter : Z) (i last : Z) (fields : list (list Z)) (rest : list Z) : Z * list (list Z) :=
  match rest with
  | [] => (last, fields)
  | c :: rest =>
      if c =? delimiter then
        let fields := if negb (i =? last) then fields ++ [substr source last (i - last)] else fields in
        tokenize_loop source delimiter (i + 1) (i + 1) fields rest
      else tokenize_loop source delimiter (i + 1) last fields rest
  end.

Definition tokenize (source : list Z) (delimiter : Z) : list (list Z) :=
  let '(last, fields) := tokenize_loop source delimiter 0 0 [] source in
  let length := Z.of_nat (length source) in
  if negb (last =? length) then fields ++ [substr source last (length - last)] else fields.

(** [source.find(delimiter)] *)
Fixpoint find_char (source : list Z) (delimiter : Z) : option Z :=
  match source with
  | [] => None
  | c :: source => if c =? delimiter then Some 0 else (λ n, n + 1) <$> find_char source delimiter
  end.

(** The loop on [right_pos]; [rest] is the source from there on. *)
Fixpoint skip_loop (delimiter right_pos : Z) (rest : list Z) : Z :=
  match rest with
  | c :: rest => if c =? delimiter then skip_loop delimiter (right_pos + 1) rest else right_pos
  | [] => right_pos
  end.

Definition tokenize_first (source : list Z) (delimiter : Z) : option (list Z * list Z) :=
  match find_char source delimiter with
  | None => None
  | Some left_pos =>
      let right_pos := skip_loop delimiter (left_pos + 1) (drop (Z.to_nat (left_pos + 1)) source) in
      Some (substr source 0 left_pos, drop (Z.to_nat right_pos) source)
  end.

Fixpoint join_loop (source : list (list Z)) (delimiter : Z) (i : Z) (joined_string : list Z) : list Z :=
  match source with
  | [] => joined_string
  | f :: source =>
      let joined_string := if negb (i =? 0) then joined_string ++ [delimiter] else joined_string in
      join_loop source delimiter (i + 1) (joined_string ++ f)
  end.

Definition join (source : list (list Z)) (delimiter : Z) : list Z :=
  if Z.of_nat (length source) =? 0 then [] else join_loop source delimiter 0 [].

Example split_demo :
  split (b#"a,,b,") 44 = [b#"a"; []; b#"b"; []] ∧ tokenize (b#"a,,b,") 44 = [b#"a"; b#"b"] ∧
  join (split (b#"a,,b,") 44) 44 = b#"a,,b," ∧ tokenize_first (b#"a,,b,") 44 = Some (b#"a", b#"b,").
Proof. split_and!; vm_compute; reflexivity. Qed.

(** ** Trimming and bounded copies (string_utils.cc) *)

Definition kWhitespace : list Z := [32; 10; 13; 9].
Definition is_white (c : Z) : bool := existsb (Z.eqb c) kWhitespace.

Fixpoint find_first_not_of (s : list Z) : option Z :=
  match s with
  | [] => None
  | c :: s => if is_white c then (λ n, n + 1) <$> find_first_not_of s else Some 0
  end.

Definition find_last_not_of (s : list Z) : option Z :=
  (λ n, Z.of_nat (length s) - 1 - n) <$> find_first_not_of (reverse s).

Definition string_trim (s : list Z) : list Z :=
  match find_first_not_of s, find_last_not_of s with
  | Some first, Some last => substr s first (last - first + 1)
  | _, _ => []
  end.

Definition SIZE_UNKNOWN : Z := u64 (-1).

(** [source] is the memory at the source pointer. *)
Definition strcpyn (buffer : list Z) (source : list Z) (srclen : Z) : res (Z * list Z) :=
  let buflen := Z.of_nat (length buffer) in
  if buflen <=? 0 then Val (0, buffer)
  else
    let* srclen := (if srclen =? SIZE_UNKNOWN then of_mem (strlen source) else Val srclen) in
    let srclen := if buflen <=? srclen then buflen - 1 else srclen in
    let* bytes := of_mem (mread source 0 srclen) in
    let* buffer := of_mem (mwrite buffer 0 bytes) in
    let* buffer := set_char srclen 0 buffer in
    Val (srclen, buffer).

(** ** What hexadecimal text is *)

(** The lower-case digit, and the characters that are read as a digit. *)
Definition hexc (h : Z) : Z := if h <? 10 then 48 + h else 87 + h.
Definition nibble (c h : Z) : Prop := 0 ≤ h < 16 ∧ (c = hexc h ∨ (10 ≤ h ∧ c = hexc h - 32)).
Definition delim (d : Z) : list Z := if d =? 0 then [] else [d].

Fixpoint hex_text (d : Z) (bs : list Z) : list Z :=
  match bs with
  | [] => []
  | b :: bs => hexc (b / 16) :: hexc (b `mod` 16) :: match bs with [] => [] | _ => delim d ++ hex_text d bs end
  end.

(** The texts that stand for the bytes [bs]: digits of either case. *)
Inductive hex_reads (d : Z) : list Z → list Z → Prop :=
| reads_nil : hex_reads d [] []
| reads_last c1 c2 h1 h2 : nibble c1 h1 → nibble c2 h2 → hex_reads d [c1; c2] [h1 * 16 + h2]
| reads_cons c1 c2 h1 h2 b s bs : nibble c1 h1 → nibble c2 h2 → hex_reads d s (b :: bs) →
    hex_reads d (c1 :: c2 :: delim d ++ s) (h1 * 16 + h2 :: b :: bs).

Lemma hex_text_length d bs :
  Z.of_nat (length (hex_text d bs)) = if negb (d =? 0) && (0 <? Z.of_nat (length bs)) then Z.of_nat (length bs) * 3 - 1 else Z.of_nat (length bs) * 2.
Proof.
  induction bs as [|b [|b' bs] IH]; [by destruct (d =? 0)|by destruct (d =? 0)|].
  cbn [hex_text length] in *. rewrite !Nat2Z.inj_succ, length_app. unfold delim in *.
  destruct (d =? 0); cbn [negb andb length Nat.add] in *; rewrite ?(proj2 (Z.ltb_lt _ _)) in * by lia; lia.
Qed.

Lemma nibble_hexc h : 0 ≤ h < 16 → nibble (hexc h) h.
Proof. unfold nibble. intuition. Qed.

Lemma hex_text_reads d bs : bytes_ok bs → hex_reads d (hex_text d bs) bs.
Proof.
  induction bs as [|b [|b' bs] IH]; intros Hb; [constructor| |];
    apply Forall_cons in Hb as [Hb Hbs]; unfold byte_ok in Hb.
  all: pose proof (nibble_hexc (b / 16) ltac:(div_solve)); pose proof (nibble_hexc (b `mod` 16) ltac:(div_solve)).
  all: assert (b = b / 16 * 16 + b `mod` 16) as Hd by div_solve; cbn [hex_text].
  - rewrite Hd at 3. by apply reads_last.
  - rewrite Hd at 3. apply reads_cons; [done..|]. by apply IH.
Qed.

Lemma hex_decode_nibble c h : hex_decode_char c = Some h ↔ nibble c h.
Proof.
  unfold hex_decode_char, nibble, hexc.
  destruct (Z.leb_spec 48 c), (Z.leb_spec c 57), (Z.leb_spec 65 c), (Z.leb_spec c 70), (Z.leb_spec 97 c), (Z.leb_spec c 102);
    cbn [andb]; destruct (Z.ltb_spec h 10); split; intros; simplify_eq; try (f_equal; lia); exfalso; lia.
Qed.

Lemma hex_byte h1 h2 (H : 0 ≤ h1 < 16) (H' : 0 ≤ h2 < 16) : u8 (Z.lor (Z.shiftl h1 4) h2) = h1 * 16 + h2.
Proof. exhaust2 16 16 h1 h2 H H'. Qed.

Lemma hex_encode_val_spec dchk v : 0 ≤ v < 16 → hex_encode_val dchk v = Val (hexc v).
Proof.
  intros H. assert (byte_at HEX v = Val (hexc v)) as E.
  { unfold byte_at. rewrite (proj2 (Z.leb_le _ _)) by lia. cut ((HEX !!! Z.to_nat v =? hexc v) = true).
    - rewrite Z.eqb_eq. intros <-. rewrite list_lookup_lookup_total_lt; [done|]. change (length HEX) with 16%nat. lia.
    - revert v H. apply (below_forall 16). vm_compute. reflexivity. }
  unfold hex_encode_val. rewrite (proj2 (Z.ltb_lt _ _)) by lia. by destruct dchk.
Qed.

Lemma hex_hi b (H : 0 ≤ b < 256) : Z.land (Z.shiftr b 4) 0xF = b / 16.
Proof. exhaust1 256 b H. Qed.
Lemma hex_lo b (H : 0 ≤ b < 256) : Z.land b 0xF = b `mod` 16.
Proof. exhaust1 256 b H. Qed.

(** ** Encoding *)

(** Use a fact up to equality of its arguments. *)
Tactic Notation "eqapply" uconstr(H) :=
  let E := fresh in pose proof H as E; match type of E with ?P => match goal with |- ?Q => replace Q with P; [exact E|] end end.

Lemma byte_at_0 pre b post : byte_at (pre ++ b :: post) (Z.of_nat (length pre)) = Val b.
Proof. rewrite <- (byte_at_app pre b (b :: post) 0 eq_refl). f_equal. lia. Qed.
Lemma byte_at_1 pre a b post : byte_at (pre ++ a :: b :: post) (Z.of_nat (length pre) + 1) = Val b.
Proof. exact (byte_at_app pre b (a :: b :: post) 1 eq_refl). Qed.
Lemma byte_at_2 pre a b c post : byte_at (pre ++ a :: b :: c :: post) (Z.of_nat (length pre) + 2) = Val c.
Proof. exact (byte_at_app pre c (a :: b :: c :: post) 2 eq_refl). Qed.
Lemma set_char_0 done ch x tl : set_char (Z.of_nat (length done)) ch (done ++ x :: tl) = Val (done ++ ch :: tl).
Proof. pose proof (set_char_at 0 ch done (x :: tl) ltac:(simpl; lia)) as E. by rewrite Z.add_0_r in E. Qed.
Lemma set_char_1 done ch x y tl : set_char (Z.of_nat (length done) + 1) ch (done ++ x :: y :: tl) = Val (done ++ x :: ch :: tl).
Proof. apply (set_char_at 1 ch done (x :: y :: tl)). simpl. lia. Qed.
Lemma set_char_2 done ch x y z tl :
  set_char (Z.of_nat (length done) + 2) ch (done ++ x :: y :: z :: tl) = Val (done ++ x :: y :: ch :: tl).
Proof. apply (set_char_at 2 ch done (x :: y :: z :: tl)). simpl. lia. Qed.

Lemma hex_encode_loop_spec dchk d bs : ∀ fuel pre done,
  bytes_ok bs → (length bs ≤ fuel)%nat →
  hex_encode_loop fuel dchk (pre ++ bs) (Z.of_nat (length (pre ++ bs))) d (Z.of_nat (length pre)) (Z.of_nat (length done))
    (done ++ replicate (length (hex_text d bs)) 0) = Val (done ++ hex_text d bs).
Proof.
  induction bs as [|b bs IH]; intros fuel pre done Hb Hf; cbn [length] in Hf.
  { destruct fuel; cbn [hex_encode_loop]; by rewrite (proj2 (Z.ltb_ge _ _)) by len_solve. }
  apply Forall_cons in Hb as [Hb Hbs]. destruct fuel as [|fuel]; [lia|].
  cbn [hex_encode_loop hex_text length replicate]. rewrite (proj2 (Z.ltb_lt _ _)) by len_solve.
  rewrite byte_at_0. cbn [mbind_res]. rewrite hex_hi, hex_lo by done. unfold byte_ok in Hb.
  rewrite !hex_encode_val_spec by div_solve. cbn [mbind_res]. rewrite set_char_0. cbn [mbind_res].
  rewrite set_char_1. cbn [mbind_res].
  specialize (IH fuel (pre ++ [b])). rewrite <- !app_assoc in IH. cbn [app] in IH.
  destruct bs as [|b' bs].
  { rewrite (proj2 (Z.ltb_ge _ _)), andb_false_r by len_solve. cbn [length replicate].
    specialize (IH (done ++ [hexc (b / 16); hexc (b `mod` 16)]) Hbs ltac:(lia)). rewrite <- !app_assoc in IH.
    cbn [hex_text length replicate app] in IH. rewrite <- IH. f_equal; len_solve. }
  rewrite (proj2 (Z.ltb_lt _ _)) by len_solve. rewrite andb_true_r. unfold delim.
  destruct (Z.eqb_spec d 0) as [->|Hd]; cbn [negb].
  - specialize (IH (done ++ [hexc (b / 16); hexc (b `mod` 16)]) Hbs ltac:(lia)). rewrite <- !app_assoc in IH.
    cbn [app] in IH |- *. rewrite <- IH. f_equal; len_solve.
  - specialize (IH (done ++ [hexc (b / 16); hexc (b `mod` 16); d]) Hbs ltac:(lia)). rewrite <- !app_assoc in IH.
    cbn [app] in IH |- *. cbn [length replicate]. rewrite set_char_2. cbn [mbind_res]. rewrite <- IH. f_equal; len_solve.
Qed.

Lemma hex_encode_spec dchk bs d :
  bytes_ok bs → Z.of_nat (length bs) * 3 < 2 ^ 64 → hex_encode_with_delimiter dchk bs d = Val (hex_text d bs).
Proof.
  intros Hb Hl. unfold hex_encode_with_delimiter, hex_encode_output_length.
  pose proof (hex_text_length d bs) as E.
  replace (if _ && _ then _ else _) with (Z.of_nat (length (hex_text d bs))).
  - rewrite Nat2Z.id. by apply (hex_encode_loop_spec dchk d bs (length bs) [] []).
  - rewrite E. destruct (negb _ && _) eqn:Hc; rewrite u64_small; try done; try lia.
Qed.

(** ** Decoding *)

(** The bytes a text of this length can hold. *)
Definition room (d : Z) (n : nat) : Z := if negb (d =? 0) then (Z.of_nat n + 1) / 3 else Z.of_nat n / 2.

(** One turn on two digits. *)
Lemma hex_decode_pair fuel pre c1 c2 h1 h2 rest d out x tl :
  nibble c1 h1 → nibble c2 h2 →
  hex_decode_loop (S fuel) (pre ++ c1 :: c2 :: rest) (Z.of_nat (length (pre ++ c1 :: c2 :: rest))) d (Z.of_nat (length pre))
    (Z.of_nat (length out)) (out ++ x :: tl) =
  let buf := out ++ h1 * 16 + h2 :: tl in
  let loop pos := hex_decode_loop fuel (pre ++ c1 :: c2 :: rest) (Z.of_nat (length (pre ++ c1 :: c2 :: rest))) d
                    pos (Z.of_nat (length out) + 1) buf in
  if negb (d =? 0) && (1 <? Z.of_nat (length rest)) then
    match rest with
    | c :: _ => if negb (c =? d) then Val (0, buf) else loop (Z.of_nat (length pre) + 2 + 1)
    | [] => loop (Z.of_nat (length pre) + 2)
    end
  else loop (Z.of_nat (length pre) + 2).
Proof.
  intros H1 H2. cbn [hex_decode_loop]. rewrite (proj2 (Z.ltb_lt _ _)) by len_solve.
  rewrite (proj2 (Z.ltb_ge _ _)) by len_solve. rewrite byte_at_0, byte_at_1. cbn [mbind_res].
  rewrite (proj2 (hex_decode_nibble c1 h1) H1), (proj2 (hex_decode_nibble c2 h2) H2).
  rewrite set_char_0. cbn [mbind_res]. rewrite hex_byte by (apply H1 || apply H2).
  replace (Z.of_nat (length _) - (Z.of_nat (length pre) + 2)) with (Z.of_nat (length rest)) by len_solve.
  destruct rest as [|c rest]; [by rewrite andb_false_r|]. by rewrite byte_at_2.
Qed.

Lemma hex_decode_complete d s bs : hex_reads d s bs → ∀ fuel pre out tl,
  (length s ≤ fuel)%nat → (length bs ≤ length tl)%nat →
  hex_decode_loop fuel (pre ++ s) (Z.of_nat (length (pre ++ s))) d (Z.of_nat (length pre)) (Z.of_nat (length out)) (out ++ tl) =
  Val (Z.of_nat (length out + length bs), out ++ bs ++ drop (length bs) tl).
Proof.
  induction 1 as [|c1 c2 h1 h2 H1 H2|c1 c2 h1 h2 b s bs H1 H2 Hs IH]; intros fuel pre out tl Hf Ht; cbn [length] in Hf, Ht.
  - destruct fuel; cbn [hex_decode_loop]; rewrite (proj2 (Z.ltb_ge _ _)) by len_solve; cbn; by rewrite Nat.add_0_r.
  - destruct fuel as [|fuel]; [lia|]. destruct tl as [|x tl]; [simpl in Ht; lia|].
    rewrite (hex_decode_pair _ _ _ _ h1 h2) by done. cbn [length]. rewrite andb_false_r. cbn zeta.
    destruct fuel; cbn [hex_decode_loop]; rewrite (proj2 (Z.ltb_ge _ _)) by len_solve; do 2 f_equal; len_solve.
  - destruct fuel as [|fuel]; [lia|]. destruct tl as [|x tl]; [simpl in Ht; lia|].
    rewrite (hex_decode_pair _ _ _ _ h1 h2) by done. cbn zeta. cbn [length] in Ht.
    assert (2 ≤ length s)%nat as Hlen by (inversion Hs; simpl; lia).
    specialize (IH fuel (pre ++ c1 :: c2 :: delim d) (out ++ [h1 * 16 + h2]) tl).
    unfold delim in *. destruct (Z.eqb_spec d 0) as [->|Hd]; cbn [negb andb app] in *.
    + rewrite <- !app_assoc in IH. cbn [app] in IH.
      etransitivity; [|etransitivity; [apply IH; len_solve|]]; [f_equal; len_solve|]. do 2 f_equal; len_solve.
    + rewrite <- !app_assoc in IH. cbn [app] in IH. rewrite (proj2 (Z.ltb_lt _ _)) by len_solve. rewrite Z.eqb_refl. cbn [negb].
      etransitivity; [|etransitivity; [apply IH; len_solve|]]; [f_equal; len_solve|]. do 2 f_equal; len_solve.
Qed.

Lemma hex_reads_cons d c1 c2 h1 h2 s bs :
  nibble c1 h1 → nibble c2 h2 → hex_reads d s bs →
  hex_reads d (c1 :: c2 :: match s with [] => [] | _ => delim d ++ s end) (h1 * 16 + h2 :: bs).
Proof.
  intros H1 H2 Hs. destruct s as [|c s]; inversion Hs; subst; first [by apply reads_last | by apply reads_cons].
Qed.

(** The decoder came to an end inside its buffer, and gives something but zero
    only for a text that stands for bytes that fit. *)
Definition hex_outcome (d : Z) (s out tl : list Z) (r : res (Z * list Z)) : Prop :=
  ∃ n buf, r = Val (n, buf) ∧ length buf = (length out + length tl)%nat ∧
           (n ≠ 0 → ∃ bs, hex_reads d s bs ∧ (length bs ≤ length tl)%nat).

Lemma outcome_fail d s out tl (buf : list Z) : length buf = (length out + length tl)%nat → hex_outcome d s out tl (Val (0, buf)).
Proof. intros. do 2 eexists. by split_and!. Qed.

Lemma outcome_end d fuel pre out tl :
  hex_outcome d [] out tl
    (hex_decode_loop fuel (pre ++ []) (Z.of_nat (length (pre ++ []))) d (Z.of_nat (length pre)) (Z.of_nat (length out)) (out ++ tl)).
Proof.
  destruct fuel; cbn [hex_decode_loop]; rewrite (proj2 (Z.ltb_ge _ _)) by len_solve;
    (do 2 eexists; split_and!; [done|len_solve|]; intros _; exists []; split; [constructor|simpl; lia]).
Qed.

(** Two digits and the delimiter they need in front of what was read. *)
Lemma outcome_pair d c1 c2 h1 h2 s out x tl r :
  nibble c1 h1 → nibble c2 h2 → hex_outcome d s (out ++ [h1 * 16 + h2]) tl r →
  hex_outcome d (c1 :: c2 :: match s with [] => [] | _ => delim d ++ s end) out (x :: tl) r.
Proof.
  intros H1 H2 (n & buf & -> & Hl & Hn). exists n, buf. split_and!; [done|len_solve|].
  intros (bs & Hbs & Hle)%Hn. exists (h1 * 16 + h2 :: bs). split; [by apply hex_reads_cons|simpl; lia].
Qed.

(** A single character after two digits is not a text. *)
Lemma outcome_single d c1 c2 c out x tl fuel pre h1 h2 :
  hex_outcome d (c1 :: c2 :: [c]) out (x :: tl)
    (hex_decode_loop (S fuel) (pre ++ [c]) (Z.of_nat (length (pre ++ [c]))) d (Z.of_nat (length pre))
       (Z.of_nat (length out) + 1) (out ++ h1 * 16 + h2 :: tl)).
Proof.
  cbn [hex_decode_loop]. rewrite !(proj2 (Z.ltb_lt _ _)) by len_solve. apply outcome_fail. len_solve.
Qed.

Lemma hex_decode_sound d fuel : ∀ pre s out tl,
  (length s ≤ fuel)%nat → room d (length s) ≤ Z.of_nat (length tl) →
  hex_outcome d s out tl
    (hex_decode_loop fuel (pre ++ s) (Z.of_nat (length (pre ++ s))) d (Z.of_nat (length pre)) (Z.of_nat (length out)) (out ++ tl)).
Proof.
  induction fuel as [|fuel IH]; intros pre [|c1 [|c2 s]] out tl Hf Hr; cbn [length] in Hf; try lia; try apply outcome_end.
  - cbn [hex_decode_loop]. rewrite !(proj2 (Z.ltb_lt _ _)) by len_solve. apply outcome_fail. len_solve.
  - destruct tl as [|x tl]; [unfold room in Hr; destruct (d =? 0); cbn [negb length] in Hr; exfalso; div_solve|].
    destruct (hex_decode_char c1) as [h1|] eqn:H1, (hex_decode_char c2) as [h2|] eqn:H2;
      [|cbn [hex_decode_loop]; rewrite (proj2 (Z.ltb_lt _ _)) by len_solve; rewrite (proj2 (Z.ltb_ge _ _)) by len_solve;
        rewrite byte_at_0; cbn [mbind_res]; rewrite H1, ?byte_at_1; cbn [mbind_res]; rewrite ?H2; apply outcome_fail; len_solve..].
    apply hex_decode_nibble in H1, H2. rewrite (hex_decode_pair _ _ _ _ h1 h2) by done. cbn zeta.
    unfold room in *. cbn [length] in Hr.
    destruct (Z.eqb_spec d 0) as [->|Hd]; cbn [negb andb] in *.
    { specialize (IH (pre ++ [c1; c2]) s (out ++ [h1 * 16 + h2]) tl ltac:(lia) ltac:(div_solve)).
      apply (outcome_pair 0 c1 c2 h1 h2 s out x tl) in IH; [|done..]. rewrite <- !app_assoc in IH. cbn [app] in IH.
      replace (match s with [] => [] | _ => delim 0 ++ s end) with s in IH by by destruct s.
      eqapply IH. do 2 f_equal; len_solve. }
    destruct s as [|c [|c' s]]; cbn [length] in *; [change (1 <? Z.of_nat 0) with false|change (1 <? Z.of_nat 1) with false|].
    + apply (outcome_pair d c1 c2 h1 h2 [] out x tl); [done..|].
      pose proof (outcome_end d fuel (pre ++ [c1; c2]) (out ++ [h1 * 16 + h2]) tl) as E.
      rewrite <- !app_assoc in E. cbn [app] in E. eqapply E. do 2 f_equal; len_solve.
    + destruct fuel as [|fuel]; [lia|]. pose proof (outcome_single d c1 c2 c out x tl fuel (pre ++ [c1; c2]) h1 h2) as E.
      rewrite <- !app_assoc in E. cbn [app] in E. eqapply E. do 2 f_equal; len_solve.
    + rewrite (proj2 (Z.ltb_lt _ _)) by lia. destruct (Z.eqb_spec c d) as [->|]; cbn [negb]; [|apply outcome_fail; len_solve].
      specialize (IH (pre ++ [c1; c2; d]) (c' :: s) (out ++ [h1 * 16 + h2]) tl ltac:(simpl; lia) ltac:(cbn [length]; div_solve)).
      apply (outcome_pair d c1 c2 h1 h2 _ out x tl) in IH; [|done..]. rewrite <- !app_assoc in IH. cbn [app] in IH.
      unfold delim in IH. rewrite (proj2 (Z.eqb_neq d 0)) in IH by done. eqapply IH. do 2 f_equal; len_solve.
Qed.

Lemma hex_reads_room d s bs : hex_reads d s bs → room d (length s) = Z.of_nat (length bs).
Proof.
  unfold room. induction 1 as [| |c1 c2 h1 h2 b s bs _ _ _ IH]; unfold delim; destruct (Z.eqb_spec d 0); cbn [negb length app] in *; try done.
  all: rewrite !Nat2Z.inj_succ in *; div_solve.
Qed.

Lemma hex_decode_loop_of buffer source d :
  hex_decode_with_delimiter buffer source d =
  if (Z.of_nat (length buffer) =? 0) || (Z.of_nat (length buffer) <? room d (length source)) then Val (0, buffer)
  else hex_decode_loop (length source) source (Z.of_nat (length source)) d 0 0 buffer.
Proof. unfold hex_decode_with_delimiter, room. destruct (Z.of_nat (length buffer) =? 0); [done|]. by destruct (_ <? _). Qed.

(** The hexadecimal decoder ends inside its buffer on every input; it
    returns a count other than zero only for digits in pairs with the delimiter
    between them, and then the buffer starts with the bytes they stand for;
    every such text that fits is decoded; and the encoder writes one. *)
Theorem hex_codec dchk d buffer :
  (∀ source, ∃ n buf, hex_decode_with_delimiter buffer source d = Val (n, buf) ∧ length buf = length buffer ∧
     (n ≠ 0 → ∃ bs, hex_reads d source bs ∧ n = Z.of_nat (length bs) ∧ buf = bs ++ drop (length bs) buffer)) ∧
  (∀ source bs, hex_reads d source bs → (0 < length bs ≤ length buffer)%nat →
     hex_decode_with_delimiter buffer source d = Val (Z.of_nat (length bs), bs ++ drop (length bs) buffer)) ∧
  (∀ bs, bytes_ok bs → Z.of_nat (length bs) * 3 < 2 ^ 64 →
     ∃ text, hex_encode_with_delimiter dchk bs d = Val text ∧ hex_reads d text bs).
Proof.
  split_and!.
  - intros source. rewrite hex_decode_loop_of. destruct (_ || _) eqn:Hc; [exists 0, buffer; by split_and!|]. reflect_Z.
    destruct (hex_decode_sound d (length source) [] source [] buffer) as (n' & buf & E & Hl & Hn); [lia..|].
    exists n', buf. split_and!; [exact E|done|]. intros (bs & Hbs & Hle)%Hn. exists bs.
    rewrite (hex_decode_complete d source bs Hbs (length source) [] [] buffer) in E by lia. by injection E as <- <-.
  - intros source bs Hbs Hl. rewrite hex_decode_loop_of, (hex_reads_room d source bs Hbs).
    rewrite (proj2 (Z.eqb_neq _ _)), (proj2 (Z.ltb_ge _ _)) by lia. by apply (hex_decode_complete d source bs Hbs (length source) [] []); lia.
  - intros bs Hb Hl. exists (hex_text d bs). split; [by apply hex_encode_spec|by apply hex_text_reads].
Qed.

(** ** Splitting and joining are inverse *)

(** The fields of a text, [cur] being what was read of the first. *)
Fixpoint fields_from (d : Z) (cur rest : list Z) : list (list Z) :=
  match rest with
  | [] => [cur]
  | c :: rest => if c =? d then cur :: fields_from d [] rest else fields_from d (cur ++ [c]) rest
  end.

Lemma substr_mid pre cur rest : substr (pre ++ cur ++ rest) (Z.of_nat (length pre)) (Z.of_nat (length (pre ++ cur)) - Z.of_nat (length pre)) = cur.
Proof.
  unfold substr. rewrite Nat2Z.id, drop_app_length. replace (Z.to_nat _) with (length cur) by len_solve. apply take_app_length.
Qed.

Lemma fields_loop_spec d rest : ∀ pre cur fields,
  let '(last, fs) := fields_loop (pre ++ cur ++ rest) d (Z.of_nat (length (pre ++ cur))) (Z.of_nat (length pre)) fields rest in
  fs ++ [drop (Z.to_nat last) (pre ++ cur ++ rest)] = fields ++ fields_from d cur rest.
Proof.
  induction rest as [|c rest IH]; intros pre cur fields; cbn [fields_loop fields_from].
  - by rewrite Nat2Z.id, drop_app_length, app_nil_r.
  - destruct (c =? d).
    + specialize (IH (pre ++ cur ++ [c]) [] (fields ++ [cur])). rewrite substr_mid.
      rewrite <- !app_assoc in IH. rewrite app_nil_r in IH. cbn [app] in IH.
      replace (Z.of_nat (length (pre ++ cur)) + 1) with (Z.of_nat (length (pre ++ cur ++ [c]))) by len_solve. exact IH.
    + specialize (IH pre (cur ++ [c]) fields). rewrite <- !app_assoc in IH. cbn [app] in IH.
      replace (Z.of_nat (length (pre ++ cur)) + 1) with (Z.of_nat (length (pre ++ cur ++ [c]))) by len_solve. exact IH.
Qed.

Lemma split_spec s d : split s d = fields_from d [] s.
Proof.
  unfold split. pose proof (fields_loop_spec d s [] [] []) as H. cbn [app length] in H. change (Z.of_nat 0) with 0 in H.
  by destruct (fields_loop s d 0 0 [] s) as [last fs].
Qed.

Lemma tokenize_loop_spec d rest : ∀ pre cur fields,
  let source := pre ++ cur ++ rest in
  let '(last, fs) := tokenize_loop source d (Z.of_nat (length (pre ++ cur))) (Z.of_nat (length pre)) fields rest in
  (if negb (last =? Z.of_nat (length source)) then fs ++ [substr source last (Z.of_nat (length source) - last)] else fs) =
  fields ++ filter (.≠ []) (fields_from d cur rest).
Proof.
  induction rest as [|c rest IH]; intros pre cur fields; cbn [tokenize_loop fields_from].
  - rewrite app_nil_r. pose proof (substr_mid pre cur []) as Hs. rewrite app_nil_r in Hs. rewrite Hs.
    rewrite filter_cons, filter_nil. destruct cur as [|c cur].
    + rewrite app_nil_r, Z.eqb_refl. by rewrite app_nil_r.
    + rewrite (proj2 (Z.eqb_neq _ _)) by len_solve. done.
  - destruct (c =? d).
    + rewrite substr_mid, filter_cons. specialize (IH (pre ++ cur ++ [c]) []).
      rewrite <- !app_assoc in IH. rewrite app_nil_r in IH. cbn [app] in IH.
      replace (Z.of_nat (length (pre ++ cur)) + 1) with (Z.of_nat (length (pre ++ cur ++ [c]))) by len_solve.
      destruct cur as [|c' cur].
      * rewrite app_nil_r, Z.eqb_refl. apply (IH fields).
      * rewrite (proj2 (Z.eqb_neq _ _)) by len_solve. cbn [negb]. rewrite decide_True by done.
        specialize (IH (fields ++ [c' :: cur])). by rewrite <- app_assoc in IH.
    + specialize (IH pre (cur ++ [c]) fields). rewrite <- !app_assoc in IH. cbn [app] in IH.
      replace (Z.of_nat (length (pre ++ cur)) + 1) with (Z.of_nat (length (pre ++ cur ++ [c]))) by len_solve. exact IH.
Qed.

Lemma tokenize_spec s d : tokenize s d = filter (.≠ []) (split s d).
Proof.
  unfold tokenize. rewrite split_spec. pose proof (tokenize_loop_spec d s [] [] []) as H. cbn [app length] in H.
  change (Z.of_nat 0) with 0 in H. by destruct (tokenize_loop s d 0 0 [] s) as [last fs].
Qed.

Lemma mjoin_step d (f : list Z) fs : mjoin (cons d <$> (f :: fs)) = d :: f ++ mjoin (cons d <$> fs).
Proof. done. Qed.

Lemma join_loop_spec d fs : ∀ i acc, 0 < i → join_loop fs d i acc = acc ++ mjoin (cons d <$> fs).
Proof.
  induction fs as [|f fs IH]; intros i acc Hi; cbn [join_loop]; [by rewrite app_nil_r|].
  rewrite (proj2 (Z.eqb_neq _ _)) by lia. cbn [negb]. rewrite IH by lia. rewrite mjoin_step.
  by rewrite <- !app_assoc.
Qed.

Lemma join_cons d f fs : join (f :: fs) d = f ++ mjoin (cons d <$> fs).
Proof. unfold join. cbn [length join_loop]. rewrite (proj2 (Z.eqb_neq _ _)) by lia. by apply join_loop_spec. Qed.

Lemma fields_from_join d rest : ∀ cur, ∃ f fs, fields_from d cur rest = f :: fs ∧ f ++ mjoin (cons d <$> fs) = cur ++ rest.
Proof.
  induction rest as [|c rest IH]; intros cur; cbn [fields_from]; [by exists cur, []|].
  destruct (Z.eqb_spec c d) as [->|].
  - destruct (IH []) as (f & fs & E & H). exists cur, (fields_from d [] rest). split; [done|].
    by rewrite E, mjoin_step, H.
  - destruct (IH (cur ++ [c])) as (f & fs & E & H). exists f, fs. by rewrite H, <- app_assoc.
Qed.

Lemma fields_from_free d rest : ∀ cur, d ∉ cur → Forall (λ f, d ∉ f) (fields_from d cur rest).
Proof.
  induction rest as [|c rest IH]; intros cur Hc; cbn [fields_from]; [by repeat constructor|].
  destruct (Z.eqb_spec c d) as [->|]; [constructor; [done|]; apply IH; set_solver|apply IH; set_solver].
Qed.

Lemma fields_from_field d f : ∀ cur, d ∉ f → fields_from d cur f = [cur ++ f] ∧
  ∀ rest, fields_from d cur (f ++ d :: rest) = (cur ++ f) :: fields_from d [] rest.
Proof.
  induction f as [|c f IH]; intros cur Hf; cbn [fields_from app].
  - rewrite app_nil_r. split; [done|]. intros. by rewrite Z.eqb_refl.
  - rewrite not_elem_of_cons in Hf. destruct Hf as [Hc Hf]. rewrite (proj2 (Z.eqb_neq c d)) by done.
    destruct (IH (cur ++ [c]) Hf) as [H1 H2]. rewrite <- app_assoc in H1, H2. by split.
Qed.

Lemma split_joined d fs : ∀ f, Forall (λ f, d ∉ f) (f :: fs) → fields_from d [] (f ++ mjoin (cons d <$> fs)) = f :: fs.
Proof.
  induction fs as [|f' fs IH]; intros f [Hf Hfs]%Forall_cons.
  - rewrite fmap_nil. cbn [mjoin list_join]. rewrite app_nil_r. by apply fields_from_field.
  - rewrite mjoin_step.
    rewrite (proj2 (fields_from_field d f [] Hf)). cbn [app]. f_equal. by apply IH.
Qed.

(** Joining the fields of a text with the delimiter gives the text back and
    no field contains the delimiter; splitting the join of such fields gives
    the fields back; and the tokens are the fields that are not empty. *)
Theorem split_join d :
  (∀ s, join (split s d) d = s ∧ Forall (λ f, d ∉ f) (split s d) ∧ tokenize s d = filter (.≠ []) (split s d)) ∧
  (∀ fs, fs ≠ [] → Forall (λ f, d ∉ f) fs → split (join fs d) d = fs).
Proof.
  split.
  - intros s. rewrite tokenize_spec, split_spec. destruct (fields_from_join d s []) as (f & fs & E & H).
    split_and!; [by rewrite E, join_cons|apply fields_from_free; set_solver|done].
  - intros [|f fs] Hne Hf; [done|]. rewrite join_cons, split_spec. by apply split_joined.
Qed.

(** ** The first token *)

Lemma find_char_spec s d : match find_char s d with
  | Some n => ∃ pre post, s = pre ++ d :: post ∧ d ∉ pre ∧ n = Z.of_nat (length pre)
  | None => d ∉ s
  end.
Proof.
  induction s as [|c s IH]; cbn [find_char]; [set_solver|].
  destruct (Z.eqb_spec c d) as [->|]; [exists [], s; split_and!; [done|set_solver|done]|].
  destruct (find_char s d) as [n'|]; cbn; [|set_solver].
  destruct IH as (pre & post & -> & Hp & ->). exists (c :: pre), post. split_and!; [done|set_solver|simpl; lia].
Qed.

Lemma find_char_app pre d post : d ∉ pre → find_char (pre ++ d :: post) d = Some (Z.of_nat (length pre)).
Proof.
  induction pre as [|c pre IH]; intros H; cbn [app find_char length]; [by rewrite Z.eqb_refl|].
  rewrite not_elem_of_cons in H. rewrite (proj2 (Z.eqb_neq c d)) by naive_solver. rewrite IH by naive_solver. cbn. f_equal. lia.
Qed.

Lemma skip_loop_spec d rest : ∀ pos, ∃ k, skip_loop d pos rest = pos + Z.of_nat k ∧
  rest = replicate k d ++ drop k rest ∧ list.head (drop k rest) ≠ Some d.
Proof.
  induction rest as [|c rest IH]; intros pos; cbn [skip_loop]; [exists 0%nat; split_and!; [lia|done..]|].
  destruct (Z.eqb_spec c d) as [->|]; [|exists 0%nat; split_and!; [lia|done|simpl; congruence]].
  destruct (IH (pos + 1)) as (k & -> & H1 & H2). exists (S k). cbn. split_and!; [lia|by f_equal|done].
Qed.

(** [tokenize_first] cuts at the first run of delimiters, and fails exactly
    when there is none. *)
Lemma tokenize_first_spec s d : match tokenize_first s d with
  | Some (token, rest) => ∃ k, s = token ++ replicate (S k) d ++ rest ∧ d ∉ token ∧ list.head rest ≠ Some d
  | None => d ∉ s
  end.
Proof.
  unfold tokenize_first. pose proof (find_char_spec s d) as H. destruct (find_char s d) as [n|]; [|done].
  destruct H as (pre & post & -> & Hp & ->). cbn zeta.
  replace (Z.to_nat (Z.of_nat (length pre) + 1)) with (length (pre ++ [d])) by len_solve.
  rewrite cons_middle, (app_assoc pre), drop_app_length.
  destruct (skip_loop_spec d post (Z.of_nat (length pre) + 1)) as (k & -> & H1 & H2).
  exists k. replace (Z.to_nat (Z.of_nat (length pre) + 1 + Z.of_nat k)) with (length (pre ++ [d]) + k)%nat by len_solve.
  rewrite <- drop_drop, drop_app_length.
  replace (substr ((pre ++ [d]) ++ post) 0 (Z.of_nat (length pre))) with pre
    by (unfold substr; rewrite Nat2Z.id, drop_0, <- app_assoc; by rewrite take_app_length).
  split_and!; [|done..]. rewrite <- app_assoc. cbn. by rewrite <- H1.
Qed.

(** ** Trimming *)

Notation white := (λ c, is_white c = true).

Lemma find_first_not_of_spec s : match find_first_not_of s with
  | Some n => ∃ pre c post, s = pre ++ c :: post ∧ Forall white pre ∧ is_white c = false ∧ n = Z.of_nat (length pre)
  | None => Forall white s
  end.
Proof.
  induction s as [|c s IH]; cbn [find_first_not_of]; [done|]. destruct (is_white c) eqn:Hc; [|by exists [], c, s].
  destruct (find_first_not_of s) as [n|]; cbn; [|by constructor].
  destruct IH as (pre & c' & post & -> & Hp & Hc' & ->). exists (c :: pre), c', post.
  split_and!; [done|by constructor|done|simpl; lia].
Qed.

(** What lies between the first and the last character that is not white. *)
Lemma trim_middle pre c post init c' post' :
  pre ++ c :: post = init ++ c' :: post' → Forall white pre → is_white c' = false →
  ∃ mid, c :: post = mid ++ post' ∧ list.head mid = Some c ∧ list.last mid = Some c'.
Proof.
  intros E Hp Hc'. rewrite (cons_middle c'), (app_assoc init) in E. apply app_eq_inv in E as [(k & E1 & E2)|(k & E1 & E2)].
  - rewrite E1, !Forall_app, Forall_singleton in Hp. destruct Hp as [[_ ?] _]. congruence.
  - exists k. destruct k as [|x k].
    { rewrite app_nil_r in E1. rewrite <- E1, Forall_app, Forall_singleton in Hp. destruct Hp. congruence. }
    split_and!; [done|by injection E2 as ->|].
    assert (list.last (pre ++ x :: k) = Some c') as H by (rewrite <- E1; apply last_snoc). by rewrite last_app_cons in H.
Qed.

(** Trimming removes exactly the white space at both ends. *)
Lemma string_trim_spec s : ∃ pre post, s = pre ++ string_trim s ++ post ∧ Forall white pre ∧ Forall white post ∧
  (∀ c, list.head (string_trim s) = Some c ∨ list.last (string_trim s) = Some c → is_white c = false).
Proof.
  unfold string_trim, find_last_not_of.
  pose proof (find_first_not_of_spec s) as H1. pose proof (find_first_not_of_spec (reverse s)) as H2.
  destruct (find_first_not_of s) as [n|].
  2:{ exists s, []. rewrite app_nil_r. split_and!; [done..|]. by intros c [[=]|[=]]. }
  destruct H1 as (pre & c & post & E & Hp & Hc & ->).
  destruct (find_first_not_of (reverse s)) as [m|]; cbn [fmap option_fmap option_map].
  2:{ apply Forall_reverse in H2. rewrite reverse_involutive, E in H2. apply Forall_app in H2 as [_ [H2 _]%Forall_cons]. congruence. }
  destruct H2 as (post' & c' & init & E' & Hp' & Hc' & ->).
  apply (f_equal reverse) in E'. rewrite reverse_involutive, reverse_app, reverse_cons, <- app_assoc in E'. cbn [app] in E'.
  rewrite E in E' |- *. destruct (trim_middle _ _ _ _ _ _ E' Hp Hc') as (mid & Em & Hh & Hl). rewrite Em.
  exists pre, (reverse post'). unfold substr. rewrite Nat2Z.id, drop_app_length.
  replace (take _ _) with mid.
  - split_and!; [done|done|by apply Forall_reverse|]. intros x [Hx|Hx]; congruence.
  - symmetry. apply take_app_length'. rewrite !length_app, length_reverse. lia.
Qed.

(** A bounded copy: the string cut to the buffer, and a terminator. *)
Lemma strcpyn_spec buffer (cs : list Z) post :
  Forall (λ c, c ≠ 0) cs → (0 < length buffer)%nat →
  let n := (length cs `min` (length buffer - 1))%nat in
  strcpyn buffer (cs ++ 0 :: post) SIZE_UNKNOWN = Val (Z.of_nat n, take n cs ++ 0 :: drop (S n) buffer).
Proof.
  intros Hcs Hb n. unfold strcpyn. rewrite (proj2 (Z.leb_gt _ _)) by lia. rewrite Z.eqb_refl, strlen_app by done.
  cbn [of_mem mbind_res].
  assert ((if Z.of_nat (length buffer) <=? Z.of_nat (length cs) then Z.of_nat (length buffer) - 1 else Z.of_nat (length cs)) = Z.of_nat n) as ->
    by (destruct (Z.leb_spec (Z.of_nat (length buffer)) (Z.of_nat (length cs))); lia).
  rewrite mread_take by len_solve. rewrite Nat2Z.id, take_app_le by lia. cbn [of_mem mbind_res].
  rewrite mwrite_front by len_solve. cbn [of_mem mbind_res]. rewrite length_take, Nat.min_l by lia.
  assert (∃ x, drop n buffer = x :: drop (S n) buffer) as (x & ->).
  { destruct (lookup_lt_is_Some_2 buffer n) as [x Hx]; [lia|]. exists x. by apply drop_S. }
  assert (length (take n cs) = n) as Hn by (rewrite length_take; lia).
  rewrite <- Hn at 1. rewrite set_char_0. cbn [mbind_res]. done.
Qed.
