(* ===== verification/StringToNumber.v ===== *)
(** * Numbers and text (rtc_base/string_to_number.h, string_to_number.cc, string_encode.cc)

    Parsing of integers of every width over [strtoll] and [strtoull], and
    printing. The theorems say exactly which texts are read as which numbers,
    and that what [ToString] prints is read back. A [const char*] is the list of
    the characters before its terminator. *)

From S2P Require Import Prelude StringEncode.

(** ** The C library: [strtoll], [strtoull], [printf] of decimal integers *)

(** In the C locale; characters from 128 on are in no class. *)
Definition isdigit (c : Z) : bool := (48 <=? c) && (c <=? 57).
Definition isspace (c : Z) : bool := (c =? 32) || ((9 <=? c) && (c <=? 13)).

(** The value of a character as a digit; 36 for none. *)
Definition digit_value (c : Z) : Z :=
  if isdigit c then c - 48
  else if (97 <=? c) && (c <=? 122) then c - 87
  else if (65 <=? c) && (c <=? 90) then c - 55
  else 36.

Fixpoint skip_space (s : list Z) : list Z :=
  match s with c :: s' => if isspace c then skip_space s' else s | [] => [] end.

(** The longest run of digits: its value, its length, and what follows. *)
Fixpoint read_digits (base acc : Z) (s : list Z) : Z * nat * list Z :=
  match s with
  | c :: s' => if digit_value c <? base then let '(v, n, r) := read_digits base (acc * base + digit_value c) s' in (v, S n, r) else (acc, O, s)
  | [] => (acc, O, [])
  end.

(** The optional prefix [0x], and the base it or a leading zero selects. *)
Definition base_prefix (base : Z) (s : list Z) : Z * list Z :=
  match s with
  | c :: s' =>
      if c =? 48 then
        match s' with
        | x :: h :: s'' =>
            if ((base =? 0) || (base =? 16)) && ((x =? 120) || (x =? 88)) && (digit_value h <? 16) then (16, h :: s'')
            else (if base =? 0 then 8 else base, s)
        | _ => (if base =? 0 then 8 else base, s)
        end
      else (if base =? 0 then 10 else base, s)
  | [] => (if base =? 0 then 10 else base, s)
  end.

Definition sign_prefix (s : list Z) : bool * list Z :=
  match s with c :: s' => if c =? 45 then (true, s') else if c =? 43 then (false, s') else (false, s) | [] => (false, []) end.

(** The sign, the magnitude, and the rest of the text; [None] when there is
    nothing to convert, and then the end pointer is the start. *)
Definition strto (s : list Z) (base : Z) : option (bool * Z * list Z) :=
  let s := skip_space s in
  let '(neg, s) := sign_prefix s in
  let '(base, s) := base_prefix base s in
  let '(v, n, r) := read_digits base 0 s in
  match n with O => None | _ => Some (neg, v, r) end.

Definition LLONG_MAX : Z := 2 ^ 63 - 1.
Definition LLONG_MIN : Z := - 2 ^ 63.
Definition ULLONG_MAX : Z := 2 ^ 64 - 1.

(** The value, the text at the end pointer, and whether [errno] is set. *)
Definition strtoll (s : list Z) (base : Z) : Z * list Z * bool :=
  match strto s base with
  | None => (0, s, false)
  | Some (neg, v, r) =>
      let x := if neg then - v else v in
      if x <? LLONG_MIN then (LLONG_MIN, r, true) else if LLONG_MAX <? x then (LLONG_MAX, r, true) else (x, r, false)
  end.

Definition strtoull (s : list Z) (base : Z) : Z * list Z * bool :=
  match strto s base with
  | None => (0, s, false)
  | Some (neg, v, r) => if ULLONG_MAX <? v then (ULLONG_MAX, r, true) else (u64 (if neg then - v else v), r, false)
  end.

(** Decimal digits; at most one per turn, 20 for 64 bits. *)
Fixpoint decimal_digits (fuel : nat) (v : Z) : list Z :=
  match fuel with
  | O => []
  | S fuel => if v <? 10 then [48 + v] else decimal_digits fuel (v / 10) ++ [48 + v `mod` 10]
  end.
Definition decimal (v : Z) : list Z := if v <? 0 then 45 :: decimal_digits 20 (- v) else decimal_digits 20 v.

(** ** Parsing *)

Definition ParseSigned (str : list Z) (base : Z) : option Z :=
  match str with
  | c :: _ =>
      if isdigit c || (c =? 45) then
        let '(value, rest, errno) := strtoll str base in
        match rest with [] => if negb errno then Some value else None | _ => None end
      else None
  | [] => None
  end.

Definition ParseUnsigned (str : list Z) (base : Z) : option Z :=
  match str with
  | c :: _ =>
      if isdigit c || (c =? 45) then
        let is_negative := c =? 45 in
        let '(value, rest, errno) := strtoull str base in
        match rest with [] => if negb errno && ((value =? 0) || negb is_negative) then Some value else None | _ => None end
      else None
  | [] => None
  end.

(** An integral type: its signedness and its width, at most 64 as the
    [static_assert]s demand. *)
Record int_type := IT { is_signed : bool; bits : Z }.
Definition t_max (T : int_type) : Z := if is_signed T then 2 ^ (bits T - 1) - 1 else 2 ^ bits T - 1.
Definition t_lowest (T : int_type) : Z := if is_signed T then - 2 ^ (bits T - 1) else 0.

Definition StringToNumber (T : int_type) (str : list Z) (base : Z) : option Z :=
  if is_signed T then
    match ParseSigned str base with
    | Some value => if (t_lowest T <=? value) && (value <=? t_max T) then Some value else None
    | None => None
    end
  else
    match ParseUnsigned str base with
    | Some value => if value <=? t_max T then Some value else None
    | None => None
    end.

(** [str.c_str()] read as a C string ends at the first NUL. *)
Fixpoint c_string (s : list Z) : list Z :=
  match s with c :: s => if c =? 0 then [] else c :: c_string s | [] => [] end.

Definition StringToNumber_string (T : int_type) (str : list Z) (base : Z) : option Z := StringToNumber T (c_string str) base.

(** [FromString]: the value written, or [None] for [false]. *)
Definition FromString (T : int_type) (s : list Z) : option Z := StringToNumber_string T s 10.

Definition FromString_bool (s : list Z) : option bool :=
  if decide (s = b#"false") then Some false else if decide (s = b#"true") then Some true else None.

(** ** Printing *)

Definition ToString_bool (b : bool) : list Z := if b then b#"true" else b#"false".

(** [snprintf] into 32 characters: the whole length, and what fits. *)
Definition snprintf (size : nat) (text : list Z) : Z * list Z :=
  (Z.of_nat (length text), take (size - 1) text ++ replicate (size - length (take (size - 1) text)) 0).

Definition ToString (RTC_DCHECK_IS_ON : bool) (v : Z) : res (list Z) :=
  let '(len, buf) := snprintf 32 (decimal v) in
  let* _ := (if RTC_DCHECK_IS_ON then c_assert (len <=? 32) else Val ()) in
  of_mem (mread buf 0 len).

Definition int16 := IT true 16.
Definition uint16 := IT false 16.
Definition int32 := IT true 32.
Definition int64 := IT true 64.
Definition uint64 := IT false 64.

Example number_demo :
  StringToNumber int32 (b#"-2147483648") 10 = Some (-2147483648) ∧ StringToNumber int32 (b#"2147483648") 10 = None ∧
  StringToNumber uint16 (b#"-0") 10 = Some 0 ∧ StringToNumber uint16 (b#"-1") 10 = None ∧
  StringToNumber uint16 (b#"0x1f") 16 = Some 31 ∧ StringToNumber uint16 (b#"ff") 16 = None ∧
  StringToNumber int16 (b#"12 ") 10 = None ∧ StringToNumber uint64 (b#"18446744073709551616") 10 = None ∧
  StringToNumber int16 (b#"0x") 0 = None ∧ StringToNumber int16 (b#"017") 0 = Some 15 ∧
  ToString true (-32768) = Val (b#"-32768").
Proof. split_and!; vm_compute; reflexivity. Qed.

(** ** What is read *)

Definition all_digits (ds : list Z) : Prop := Forall (λ c, 48 ≤ c ≤ 57) ds.
Definition dec_value (ds : list Z) : Z := foldl (λ a c, a * 10 + (c - 48)) 0 ds.
Definition minus (neg : bool) : list Z := if neg then [45] else [].
Definition signed_value (neg : bool) (v : Z) : Z := if neg then - v else v.

Lemma isdigit_spec c : isdigit c = true ↔ 48 ≤ c ≤ 57.
Proof. unfold isdigit. rewrite andb_true_iff, !Z.leb_le. done. Qed.

Lemma digit_value_10 c : (digit_value c <? 10) = isdigit c.
Proof.
  unfold digit_value, isdigit. destruct (Z.leb_spec 48 c), (Z.leb_spec c 57); cbn [andb]; [apply Z.ltb_lt; lia|..];
    apply Z.ltb_ge; repeat case_match; reflect_Z; lia.
Qed.

Lemma read_digits_spec s : ∀ acc, ∃ ds r, s = ds ++ r ∧ all_digits ds ∧ (∀ c, list.head r = Some c → isdigit c = false) ∧
  read_digits 10 acc s = (foldl (λ a c, a * 10 + (c - 48)) acc ds, length ds, r).
Proof.
  induction s as [|c s IH]; intros acc; cbn [read_digits]; [exists [], []; by split_and!; [|constructor|..]|].
  rewrite digit_value_10. destruct (isdigit c) eqn:Hc.
  - destruct (IH (acc * 10 + digit_value c)) as (ds & r & -> & Hds & Hr & ->). exists (c :: ds), r.
    split_and!; [done|constructor; [by apply isdigit_spec|done]|done|]. unfold digit_value. by rewrite Hc.
  - exists [], (c :: s). split_and!; [done|constructor|by intros ? [= <-]|done].
Qed.

Lemma base_prefix_10 s : base_prefix 10 s = (10, s).
Proof. destruct s as [|c [|x [|h s]]]; cbn; [done|by destruct (c =? 48)..]. Qed.

(** The only texts from which a whole decimal number is read. *)
Lemma strto_10 c str neg v :
  isdigit c || (c =? 45) = true →
  strto (c :: str) 10 = Some (neg, v, []) ↔
  ∃ ds, ds ≠ [] ∧ all_digits ds ∧ c :: str = minus neg ++ ds ∧ v = dec_value ds.
Proof.
  intros Hc. unfold strto.
  assert (skip_space (c :: str) = c :: str) as ->.
  { cbn. unfold isspace. apply orb_true_iff in Hc as [Hc%isdigit_spec|Hc%Z.eqb_eq];
      repeat (rewrite (proj2 (Z.eqb_neq _ _)) by lia); destruct (Z.leb_spec 9 c), (Z.leb_spec c 13); try done; lia. }
  assert (∃ s, sign_prefix (c :: str) = (c =? 45, s) ∧ c :: str = minus (c =? 45) ++ s) as (s & -> & Es).
  { cbn. destruct (Z.eqb_spec c 45) as [->|]; [by eauto|]. rewrite orb_false_r in Hc. apply isdigit_spec in Hc.
    rewrite (proj2 (Z.eqb_neq c 43)) by lia. eauto. }
  rewrite base_prefix_10. destruct (read_digits_spec s 0) as (ds & r & -> & Hds & Hr & ->). split.
  - intros H. exists ds. destruct ds; [done|]. cbn [length] in H. injection H as <- <- ->. by rewrite app_nil_r in Es.
  - intros (ds' & Hne & Hds' & E & ->).
    assert (neg = (c =? 45) ∧ ds' = ds ++ r) as [-> ->].
    { destruct neg; cbn in E; [injection E as -> ->; cbn in Es; by simplify_eq|]. subst ds'.
      apply Forall_cons in Hds' as [Hc' _]. rewrite (proj2 (Z.eqb_neq c 45)) in * by lia. done. }
    apply Forall_app in Hds' as [_ Hr']. destruct r as [|x r].
    + rewrite app_nil_r in *. by destruct ds.
    + apply Forall_cons in Hr' as [Hx%isdigit_spec _]. by rewrite (Hr x) in Hx.
Qed.

(** ** Parsing is exact *)

Definition reads_as (str : list Z) (v : Z) : Prop :=
  ∃ neg ds, ds ≠ [] ∧ all_digits ds ∧ str = minus neg ++ ds ∧ v = signed_value neg (dec_value ds).

Lemma dec_value_nonneg ds : all_digits ds → 0 ≤ dec_value ds.
Proof.
  unfold dec_value. cut (∀ acc, 0 ≤ acc → all_digits ds → 0 ≤ foldl (λ a c, a * 10 + (c - 48)) acc ds); [intros H; apply H; lia|].
  induction ds as [|c ds IH]; intros acc Ha Hd; cbn; [done|]. apply Forall_cons in Hd as [Hc Hd]. apply IH; [lia|done].
Qed.

Lemma reads_as_first str v : reads_as str v → ∃ c s, str = c :: s ∧ isdigit c || (c =? 45) = true.
Proof.
  intros (neg & ds & Hne & Hds & -> & _). destruct neg; cbn; [by eauto|]. destruct ds as [|c ds]; [done|].
  apply Forall_cons in Hds as [Hc%isdigit_spec _]. exists c, ds. by rewrite Hc.
Qed.

Lemma ParseSigned_exact str v : ParseSigned str 10 = Some v ↔ reads_as str v ∧ LLONG_MIN ≤ v ≤ LLONG_MAX.
Proof.
  split.
  - unfold ParseSigned. destruct str as [|c str]; [done|]. destruct (isdigit c || (c =? 45)) eqn:Hc; [|done].
    unfold strtoll. destruct (strto (c :: str) 10) as [[[neg m] r]|] eqn:E; [|done].
    destruct (Z.ltb_spec (if neg then - m else m) LLONG_MIN); [by destruct r|].
    destruct (Z.ltb_spec LLONG_MAX (if neg then - m else m)); destruct r; try done. intros [= <-].
    apply strto_10 in E as (ds & Hne & Hds & Es & ->); [|done]. split; [|lia]. by exists neg, ds.
  - intros [Hr Hv]. destruct (reads_as_first str v Hr) as (c & s & -> & Hc). destruct Hr as (neg & ds & Hne & Hds & E & ->).
    unfold ParseSigned. rewrite Hc. unfold strtoll. rewrite (proj2 (strto_10 c s neg (dec_value ds) Hc)) by eauto.
    unfold signed_value in *. rewrite !(proj2 (Z.ltb_ge _ _)) by lia. done.
Qed.

Lemma ParseUnsigned_exact str v : ParseUnsigned str 10 = Some v ↔ reads_as str v ∧ 0 ≤ v ≤ ULLONG_MAX.
Proof.
  split.
  - unfold ParseUnsigned. destruct str as [|c str]; [done|]. destruct (isdigit c || (c =? 45)) eqn:Hc; [|done].
    unfold strtoull. destruct (strto (c :: str) 10) as [[[neg m] r]|] eqn:E; [|done].
    destruct (Z.ltb_spec ULLONG_MAX m); destruct r; try done. cbn [negb andb].
    apply strto_10 in E as (ds & Hne & Hds & Es & ->); [|done]. pose proof (dec_value_nonneg ds Hds).
    intros Hx. assert (c =? 45 = neg) as Hn.
    { destruct neg; [by injection Es as -> _|]. destruct ds as [|c' ds]; [done|]. injection Es as -> _.
      apply Forall_cons in Hds as [? _]. apply Z.eqb_neq. lia. }
    rewrite Hn in Hx. unfold ULLONG_MAX in *. destruct neg; cbn [negb orb] in Hx.
    + rewrite orb_false_r in Hx. destruct (Z.eqb_spec (u64 (- dec_value ds)) 0) as [E0|]; [|done]. injection Hx as <-.
      assert (dec_value ds = 0) as Ez by (unfold uwrap in E0; apply Z.mod_divide in E0 as [k Hk]; lia).
      split; [|rewrite E0; lia]. exists true, ds. rewrite E0. unfold signed_value. split_and!; try done. lia.
    + rewrite orb_true_r in Hx. injection Hx as <-. rewrite u64_small by lia. split; [|lia]. by exists false, ds.
  - intros [Hr Hv]. destruct (reads_as_first str v Hr) as (c & s & -> & Hc). destruct Hr as (neg & ds & Hne & Hds & E & ->).
    pose proof (dec_value_nonneg ds Hds) as Hd. unfold ParseUnsigned. rewrite Hc. unfold strtoull.
    rewrite (proj2 (strto_10 c s neg (dec_value ds) Hc)) by eauto. unfold signed_value, ULLONG_MAX in *.
    destruct neg.
    + assert (dec_value ds = 0) as -> by lia. done.
    + rewrite (proj2 (Z.ltb_ge _ _)), u64_small by lia. destruct ds as [|c' ds]; [done|]. injection E as -> _.
      apply Forall_cons in Hds as [? _]. rewrite (proj2 (Z.eqb_neq c' 45)) by lia. cbn. by rewrite orb_true_r.
Qed.

(** ** Printing *)

Lemma dec_value_snoc ds d : dec_value (ds ++ [d]) = dec_value ds * 10 + (d - 48).
Proof. unfold dec_value. by rewrite foldl_app. Qed.

Lemma decimal_digits_spec fuel : ∀ v, 0 ≤ v < 10 ^ Z.of_nat fuel → (0 < fuel)%nat →
  let ds := decimal_digits fuel v in
  all_digits ds ∧ dec_value ds = v ∧ (1 ≤ length ds ≤ fuel)%nat.
Proof.
  induction fuel as [|fuel IH]; intros v Hv Hf; [lia|]. cbn [decimal_digits]. destruct (Z.ltb_spec v 10).
  - split_and!; [repeat constructor; lia|cbn; lia|cbn; lia..].
  - rewrite Nat2Z.inj_succ, Z.pow_succ_r in Hv by lia.
    assert (0 < fuel)%nat as Hpos by (destruct fuel; [cbn in Hv; lia|lia]).
    destruct (IH (v / 10)) as (Hd & Hval & Hlen); [split; [apply Z.div_pos; lia|apply Z.div_lt_upper_bound; lia]|done|].
    cbn zeta. rewrite dec_value_snoc, Hval, length_app. cbn [length].
    split_and!; [apply Forall_app; split; [done|repeat constructor; div_solve]|div_solve|lia..].
Qed.

Lemma decimal_spec v : -10 ^ 20 < v < 10 ^ 20 → reads_as (decimal v) v ∧ (length (decimal v) ≤ 21)%nat ∧ Forall (λ c, c ≠ 0) (decimal v).
Proof.
  intros Hv. unfold decimal.
  assert (∀ w, 0 ≤ w < 10 ^ 20 → let ds := decimal_digits 20 w in
    ds ≠ [] ∧ all_digits ds ∧ dec_value ds = w ∧ (length ds ≤ 20)%nat ∧ Forall (λ c, c ≠ 0) ds) as Hw.
  { intros w Hw. destruct (decimal_digits_spec 20 w Hw ltac:(lia)) as (Hd & Hval & Hlen). cbn zeta.
    split_and!; [by intros E; rewrite E in Hlen; cbn in Hlen; lia|done|done|lia|].
    eapply Forall_impl; [exact Hd|]. cbn. lia. }
  destruct (Z.ltb_spec v 0).
  - destruct (Hw (- v) ltac:(lia)) as (H1 & H2 & H3 & H4 & H5). split_and!; [|cbn [length]; lia|by constructor].
    exists true, (decimal_digits 20 (- v)). cbn zeta in H3. rewrite H3. unfold signed_value. split_and!; try done. lia.
  - destruct (Hw v ltac:(lia)) as (H1 & H2 & H3 & H4 & H5). split_and!; [|lia|done].
    exists false, (decimal_digits 20 v). by rewrite H3.
Qed.

Lemma c_string_id s : Forall (λ c, c ≠ 0) s → c_string s = s.
Proof. induction 1 as [|c s Hc _ IH]; cbn; [done|]. by rewrite (proj2 (Z.eqb_neq c 0)), IH. Qed.

Lemma c_string_app text rest : Forall (λ c, c ≠ 0) text → c_string (text ++ 0 :: rest) = text.
Proof. induction 1 as [|c s Hc _ IH]; cbn; [done|]. by rewrite (proj2 (Z.eqb_neq c 0)), IH. Qed.

Lemma ToString_spec dchk v : -10 ^ 20 < v < 10 ^ 20 → ToString dchk v = Val (decimal v).
Proof.
  intros Hv. destruct (decimal_spec v Hv) as (_ & Hl & _). unfold ToString, snprintf.
  rewrite take_ge by lia. rewrite (proj2 (Z.leb_le _ 32)) by lia.
  rewrite mread_prefix by done. by destruct dchk.
Qed.

Lemma StringToNumber_exact T str v : 0 < bits T ≤ 64 →
  StringToNumber T str 10 = Some v ↔ reads_as str v ∧ t_lowest T ≤ v ≤ t_max T.
Proof.
  intros Hb. unfold StringToNumber.
  assert (LLONG_MIN ≤ - 2 ^ (bits T - 1) ∧ 2 ^ (bits T - 1) - 1 ≤ LLONG_MAX) as [Hlo Hhi].
  { pose proof (Z.pow_le_mono_r 2 (bits T - 1) 63 ltac:(lia) ltac:(lia)). unfold LLONG_MIN, LLONG_MAX. lia. }
  assert (2 ^ bits T - 1 ≤ ULLONG_MAX) as Hu.
  { pose proof (Z.pow_le_mono_r 2 (bits T) 64 ltac:(lia) ltac:(lia)). unfold ULLONG_MAX. lia. }
  unfold t_lowest, t_max. destruct (is_signed T).
  - split.
    + destruct (ParseSigned str 10) as [x|] eqn:E; [|done]. destruct (_ && _) eqn:Hr; [|done]. intros [= <-].
      apply ParseSigned_exact in E as [E _]. reflect_Z. done.
    + intros [Hr Hv]. rewrite (proj2 (ParseSigned_exact str v)) by (split; [done|lia]).
      by rewrite (proj2 (Z.leb_le _ _)), (proj2 (Z.leb_le _ _)) by lia.
  - split.
    + destruct (ParseUnsigned str 10) as [x|] eqn:E; [|done]. destruct (_ <=? _) eqn:Hr; [|done]. intros [= <-].
      apply ParseUnsigned_exact in E as [E ?]. reflect_Z. split; [done|lia].
    + intros [Hr Hv]. rewrite (proj2 (ParseUnsigned_exact str v)) by (split; [done|lia]).
      by rewrite (proj2 (Z.leb_le _ _)) by lia.
Qed.

Lemma t_range T v : 0 < bits T ≤ 64 → t_lowest T ≤ v ≤ t_max T → -10 ^ 20 < v < 10 ^ 20.
Proof.
  unfold t_lowest, t_max. intros Hb Hv. pose proof (Z.pow_le_mono_r 2 (bits T - 1) 63 ltac:(lia) ltac:(lia)).
  pose proof (Z.pow_le_mono_r 2 (bits T) 64 ltac:(lia) ltac:(lia)). destruct (is_signed T); lia.
Qed.

(** For an integral type of at most 64 bits [StringToNumber] accepts
    exactly the texts of an optional minus sign and decimal digits whose value
    the type can hold, and gives that value; and it reads back, through a
    [std::string], what [ToString] prints of any value of the type. *)
Theorem number_text dchk T :
  0 < bits T ≤ 64 →
  (∀ str v, StringToNumber T str 10 = Some v ↔
     (∃ neg ds, ds ≠ [] ∧ all_digits ds ∧ str = minus neg ++ ds ∧ v = signed_value neg (dec_value ds)) ∧
     t_lowest T ≤ v ≤ t_max T) ∧
  (∀ v, t_lowest T ≤ v ≤ t_max T → ∃ text, ToString dchk v = Val text ∧ FromString T text = Some v).
Proof.
  intros Hb. split; [intros; by apply StringToNumber_exact|].
  intros v Hv. pose proof (t_range T v Hb Hv) as H20. exists (decimal v). split; [by apply ToString_spec|].
  destruct (decimal_spec v H20) as (Hr & _ & H0). unfold FromString, StringToNumber_string. rewrite c_string_id by done.
  by apply StringToNumber_exact.
Qed.

Example number_text_witness : ∃ text, ToString true (-32768) = Val text ∧ FromString int16 text = Some (-32768).
Proof. apply (proj2 (number_text true int16 ltac:(cbn; lia))). vm_compute. split; congruence. Defined.

Lemma bool_text b : FromString_bool (ToString_bool b) = Some b.
Proof. by destruct b. Qed.

(** A string with a NUL inside is read up to the NUL. *)
Example trailing_contents_after_nul : FromString int32 [49; 50; 0; 120; 121] = Some 12.
Proof. reflexivity. Qed.
