(* ===== verification/IpAddress.v ===== *)
(** * IP addresses (rtc_base/ip_address.h, ip_address.cc)

    The version-agnostic address as its family and the sixteen bytes of its
    union, with comparison, classification, truncation to a prefix and the
    length of a mask, on hosts of either byte order. The theorems are that the
    comparison is the total order by family and number, that truncation keeps
    exactly the leading bits, and which masks have which length. [inet_ntop] and
    [inet_pton] are parameters. *)

From S2P Require Import Prelude ByteIO StringEncode StringToNumber.

Definition AF_UNSPEC : Z := 0.
Definition AF_INET : Z := 2.
Definition AF_INET6 : Z := 10.

Record IPAddress := IP { family_ : Z; u_ : list Z }.

#[global] Instance IPAddress_eq_dec : EqDecision IPAddress.
Proof. solve_decision. Defined.

Definition kV4MappedPrefix : list Z := [0; 0; 0; 0; 0; 0; 0; 0; 0; 0; 0xFF; 0xFF; 0; 0; 0; 0].
Definition k6To4Prefix : list Z := [0x20; 0x02; 0; 0; 0; 0; 0; 0; 0; 0; 0; 0; 0; 0; 0; 0].
Definition kTeredoPrefix : list Z := [0x20; 0x01; 0x00; 0x00; 0; 0; 0; 0; 0; 0; 0; 0; 0; 0; 0; 0].
Definition kV4CompatibilityPrefix : list Z := [0; 0; 0; 0; 0; 0; 0; 0; 0; 0; 0; 0; 0; 0; 0; 0].
Definition k6BonePrefix : list Z := [0x3f; 0xfe; 0; 0; 0; 0; 0; 0; 0; 0; 0; 0; 0; 0; 0; 0].
Definition kPrivateNetworkPrefix : list Z := [0xFD; 0; 0; 0; 0; 0; 0; 0; 0; 0; 0; 0; 0; 0; 0; 0].
Definition in6addr_any : list Z := replicate 16 0.
Definition in6addr_loopback : list Z := replicate 15 0 ++ [1].
Definition INADDR_ANY : Z := 0.
Definition INADDR_LOOPBACK : Z := 0x7f000001.

(** [inet_ntop] and [inet_pton] of the C library, and what is known of the
    texts: they read back, an IPv6 text is not an IPv4 text, and neither holds
    brackets or blanks. *)
Class InetText := {
  inet_ntop : Z → list Z → list Z;
  inet_pton : Z → list Z → option (list Z);
  ntop4_pton b : length b = 4%nat → bytes_ok b → inet_pton AF_INET (inet_ntop AF_INET b) = Some b;
  ntop6_pton b : length b = 16%nat → bytes_ok b → inet_pton AF_INET6 (inet_ntop AF_INET6 b) = Some b;
  ntop6_pton4 b : length b = 16%nat → bytes_ok b → inet_pton AF_INET (inet_ntop AF_INET6 b) = None;
  ntop_chars af b : bytes_ok b →
    Forall (λ c, 48 ≤ c ≤ 57 ∨ c = 46 ∨ (af = AF_INET6 ∧ (97 ≤ c ≤ 102 ∨ c = 58))) (inet_ntop af b);
  ntop_length af b : (af = AF_INET ∧ length b = 4%nat) ∨ (af = AF_INET6 ∧ length b = 16%nat) → bytes_ok b →
    (0 < length (inet_ntop af b) < 46)%nat
}.

Section Host.
Context (big_endian : bool) {inet : InetText}.

Notation host_bytes := (host_bytes big_endian).
Notation host_value := (host_value big_endian).
Notation HostToNetwork32 := (HostToNetwork32 big_endian).
Notation NetworkToHost32 := (NetworkToHost32 big_endian).

(** ** Construction and access *)

Definition ip_unspec : IPAddress := IP AF_UNSPEC (replicate 16 0).
Definition ip_v4 (ip4 : list Z) : IPAddress := IP AF_INET (ip4 ++ replicate 12 0).
Definition ip_v6 (ip6 : list Z) : IPAddress := IP AF_INET6 ip6.
Definition ip_host (ip_in_host_byte_order : Z) : IPAddress :=
  IP AF_INET (host_bytes 4 (HostToNetwork32 ip_in_host_byte_order) ++ replicate 12 0).

Definition family (ip : IPAddress) : Z := family_ ip.
Definition ipv6_address (ip : IPAddress) : list Z := u_ ip.
Definition ipv4_address (ip : IPAddress) : list Z := take 4 (u_ ip).

Definition v4AddressAsHostOrderInteger (ip : IPAddress) : Z :=
  if family_ ip =? AF_INET then NetworkToHost32 (host_value (take 4 (u_ ip))) else 0.

Definition overhead (ip : IPAddress) : Z :=
  if family_ ip =? AF_INET then 20 else if family_ ip =? AF_INET6 then 40 else 0.

Definition IPIsUnspec (ip : IPAddress) : bool := family ip =? AF_UNSPEC.
Definition IsNil (ip : IPAddress) : bool := IPIsUnspec ip.
Definition Size (ip : IPAddress) : Z :=
  if family_ ip =? AF_INET then 4 else if family_ ip =? AF_INET6 then 16 else 0.

Definition ip_eq (a b : IPAddress) : bool :=
  if negb (family_ a =? family_ b) then false
  else if family_ a =? AF_INET then memcmp (take 4 (u_ a)) (take 4 (u_ b)) =? 0
  else if family_ a =? AF_INET6 then memcmp (u_ a) (u_ b) =? 0
  else family_ a =? AF_UNSPEC.
Definition ip_neq (a b : IPAddress) : bool := negb (ip_eq a b).

Definition ip_lt (a b : IPAddress) : bool :=
  if negb (family_ a =? family_ b) then
    if family_ a =? AF_UNSPEC then true else (family_ a =? AF_INET) && (family_ b =? AF_INET6)
  else if family_ a =? AF_INET then
    NetworkToHost32 (host_value (take 4 (u_ a))) <? NetworkToHost32 (host_value (take 4 (u_ b)))
  else if family_ a =? AF_INET6 then memcmp (u_ a) (u_ b) <? 0
  else false.
Definition ip_gt (a b : IPAddress) : bool := ip_neq a b && negb (ip_lt a b).

(** ** Text *)

Definition ip_ToString (ip : IPAddress) : list Z :=
  if negb (family_ ip =? AF_INET) && negb (family_ ip =? AF_INET6) then []
  else inet_ntop (family_ ip) (if family_ ip =? AF_INET6 then u_ ip else take 4 (u_ ip)).

(** Lower-case hexadecimal, as [%x] prints it: at most 8 digits for 32 bits. *)
Fixpoint hex_digits (fuel : nat) (v : Z) : list Z :=
  match fuel with O => [] | S fuel => if v <? 16 then [hexc v] else hex_digits fuel (v / 16) ++ [hexc (v `mod` 16)] end.
Definition ToHex (i : Z) : list Z := hex_digits 8 (u32 i).

(** [rfind] of a character. *)
Definition rfind (s : list Z) (c : Z) : option Z := (λ n, Z.of_nat (length s) - 1 - n) <$> find_char (reverse s) c.

Definition ip_ToSensitiveString (ip : IPAddress) : res (list Z) :=
  if family_ ip =? AF_INET then
    let address := ip_ToString ip in
    match rfind address 46 with
    | None => Val []
    | Some find_pos => Val (take (Z.to_nat find_pos) address ++ b#".x")
    end
  else if family_ ip =? AF_INET6 then
    let addr := ipv6_address ip in
    let* a0 := of_mem (addr !! 0%nat) in let* a1 := of_mem (addr !! 1%nat) in
    let* a2 := of_mem (addr !! 2%nat) in let* a3 := of_mem (addr !! 3%nat) in
    let* a4 := of_mem (addr !! 4%nat) in let* a5 := of_mem (addr !! 5%nat) in
    let '(len, buf) := snprintf 46 (ToHex (Z.shiftl a0 8 + a1) ++ [58] ++ ToHex (Z.shiftl a2 8 + a3) ++ [58]
                                    ++ ToHex (Z.shiftl a4 8 + a5) ++ b#":x:x:x:x:x") in
    of_mem (mread buf 0 len)
  else Val [].

(** [inet_pton] reads [str.c_str()]. *)
Definition IPFromString (str : list Z) : bool * IPAddress :=
  match inet_pton AF_INET (c_string str) with
  | None =>
      match inet_pton AF_INET6 (c_string str) with
      | None => (false, ip_unspec)
      | Some addr6 => (true, ip_v6 addr6)
      end
  | Some addr => (true, ip_v4 addr)
  end.

(** ** Classification *)

Definition IPIsHelper (ip : IPAddress) (tomatch : list Z) (length : Z) : bool :=
  let n := Z.to_nat (Z.shiftr length 3) in
  memcmp (take n (ipv6_address ip)) (take n tomatch) =? 0.

(** [addr.s6_addr[i]], inside the array. *)
Definition s6_addr (ip : IPAddress) (i : nat) : Z := ipv6_address ip !!! i.

Definition IPIs6Bone ip := IPIsHelper ip k6BonePrefix 16.
Definition IPIs6To4 ip := IPIsHelper ip k6To4Prefix 16.
Definition IPIsTeredo ip := IPIsHelper ip kTeredoPrefix 32.
Definition IPIsV4Compatibility ip := IPIsHelper ip kV4CompatibilityPrefix 96.
Definition IPIsV4Mapped ip := IPIsHelper ip kV4MappedPrefix 96.

Definition IPIsLinkLocalV4 ip : bool := Z.shiftr (v4AddressAsHostOrderInteger ip) 16 =? Z.lor (Z.shiftl 169 8) 254.
Definition IPIsLinkLocalV6 ip : bool := (s6_addr ip 0 =? 0xFE) && (Z.land (s6_addr ip 1) 0xC0 =? 0x80).
Definition IPIsLinkLocal ip : bool :=
  if family ip =? AF_INET then IPIsLinkLocalV4 ip else if family ip =? AF_INET6 then IPIsLinkLocalV6 ip else false.

Definition IPIsMacBased ip : bool :=
  negb (Z.land (s6_addr ip 8) 0x02 =? 0) && (s6_addr ip 11 =? 0xFF) && (s6_addr ip 12 =? 0xFE).
Definition IPIsSiteLocal ip : bool := (s6_addr ip 0 =? 0xFE) && (Z.land (s6_addr ip 1) 0xC0 =? 0xC0).
Definition IPIsULA ip : bool := Z.land (s6_addr ip 0) 0xFE =? 0xFC.

Definition IPIsPrivateNetworkV4 ip : bool :=
  let ip_in_host_order := v4AddressAsHostOrderInteger ip in
  (Z.shiftr ip_in_host_order 24 =? 10) || (Z.shiftr ip_in_host_order 20 =? Z.lor (Z.shiftl 172 4) 1)
  || (Z.shiftr ip_in_host_order 16 =? Z.lor (Z.shiftl 192 8) 168).
Definition IPIsPrivateNetworkV6 ip : bool := IPIsHelper ip kPrivateNetworkPrefix 8.
Definition IPIsPrivateNetwork ip : bool :=
  if family ip =? AF_INET then IPIsPrivateNetworkV4 ip else if family ip =? AF_INET6 then IPIsPrivateNetworkV6 ip else false.

Definition IPIsSharedNetworkV4 ip : bool := Z.shiftr (v4AddressAsHostOrderInteger ip) 22 =? Z.lor (Z.shiftl 100 2) 1.
Definition IPIsSharedNetwork ip : bool := if family ip =? AF_INET then IPIsSharedNetworkV4 ip else false.

Definition IPIsAny ip : bool :=
  if family ip =? AF_INET then ip_eq ip (ip_host INADDR_ANY)
  else if family ip =? AF_INET6 then ip_eq ip (ip_v6 in6addr_any) || ip_eq ip (ip_v6 kV4MappedPrefix)
  else false.

Definition IPIsLoopbackV4 ip : bool := Z.shiftr (v4AddressAsHostOrderInteger ip) 24 =? 127.
Definition IPIsLoopbackV6 ip : bool := ip_eq ip (ip_v6 in6addr_loopback).
Definition IPIsLoopback ip : bool :=
  if family ip =? AF_INET then IPIsLoopbackV4 ip else if family ip =? AF_INET6 then IPIsLoopbackV6 ip else false.

Definition IPIsPrivate ip : bool := IPIsLinkLocal ip || IPIsLoopback ip || IPIsPrivateNetwork ip || IPIsSharedNetwork ip.

Definition IPAddressPrecedence ip : Z :=
  if family ip =? AF_INET then 30
  else if family ip =? AF_INET6 then
    if IPIsLoopback ip then 60
    else if IPIsULA ip then 50
    else if IPIsV4Mapped ip then 30
    else if IPIs6To4 ip then 20
    else if IPIsTeredo ip then 10
    else if IPIsV4Compatibility ip || IPIsSiteLocal ip || IPIs6Bone ip then 1
    else 40
  else 0.

Definition GetLoopbackIP (family : Z) : IPAddress :=
  if family =? AF_INET then ip_host INADDR_LOOPBACK else if family =? AF_INET6 then ip_v6 in6addr_loopback else ip_unspec.
Definition GetAnyIP (family : Z) : IPAddress :=
  if family =? AF_INET then ip_host INADDR_ANY else if family =? AF_INET6 then ip_v6 in6addr_any else ip_unspec.

(** ** Mapping *)

Definition ExtractMappedAddress (in6 : list Z) : list Z := take 4 (drop 12 in6).

Definition Normalized (ip : IPAddress) : IPAddress :=
  if negb (family_ ip =? AF_INET6) then ip
  else if negb (IPIsV4Mapped ip) then ip
  else ip_v4 (ExtractMappedAddress (u_ ip)).

Definition AsIPv6Address (ip : IPAddress) : IPAddress :=
  if negb (family_ ip =? AF_INET) then ip else ip_v6 (take 12 kV4MappedPrefix ++ take 4 (u_ ip)).

(** ** Words, truncation, hash and mask *)

(** [v6_as_ints]: the address as four words in memory. *)
Definition words (addr : list Z) : list (list Z) := [take 4 addr; take 4 (drop 4 addr); take 4 (drop 8 addr); take 4 (drop 12 addr)].

Definition HashIP (ip : IPAddress) : Z :=
  if family ip =? AF_INET then host_value (ipv4_address ip)
  else if family ip =? AF_INET6 then foldr Z.lxor 0 (host_value <$> words (ipv6_address ip))
  else 0.

(** One turn of the loop over the words. *)
Definition truncate_word (position inner_mask : Z) (i : nat) (w : list Z) : list Z :=
  if Z.of_nat i =? position then
    host_bytes 4 (HostToNetwork32 (Z.land (NetworkToHost32 (host_value w)) inner_mask))
  else if position <? Z.of_nat i then host_bytes 4 0
  else w.

Definition TruncateIP (ip : IPAddress) (length : Z) : IPAddress :=
  if length <? 0 then ip_unspec
  else if family ip =? AF_INET then
    if 31 <? length then ip
    else if length =? 0 then ip_host INADDR_ANY
    else
      let mask := s32 (u32 (Z.shiftl 0xFFFFFFFF (32 - length))) in
      let host_order_ip := NetworkToHost32 (host_value (ipv4_address ip)) in
      ip_v4 (host_bytes 4 (HostToNetwork32 (Z.land host_order_ip (u32 mask))))
  else if family ip =? AF_INET6 then
    if 127 <? length then ip
    else if length =? 0 then ip_v6 in6addr_any
    else
      let position := length / 32 in
      let inner_length := 32 - (length - position * 32) in
      let inner_mask := u32 (Z.shiftl 0xFFFFFFFF inner_length) in
      ip_v6 (mjoin (imap (truncate_word position inner_mask) (words (ipv6_address ip))))
  else ip_unspec.

(** The first word that is not all ones: its index, and the word if any. *)
Fixpoint mask_scan (i : Z) (ws : list (list Z)) : Z * Z :=
  match ws with
  | [] => (i, 0)
  | w :: ws => if negb (host_value w =? 0xFFFFFFFF) then (i, NetworkToHost32 (host_value w)) else mask_scan (i + 1) ws
  end.

Definition count_mask_word (bits word_to_count : Z) : Z :=
  if word_to_count =? 0 then bits
  else
    let w := Z.land word_to_count (u32 (Z.lxor word_to_count 0xFFFFFFFF + 1)) in
    let zeroes := 32 in
    let zeroes := if negb (w =? 0) then zeroes - 1 else zeroes in
    let zeroes := if negb (Z.land w 0x0000FFFF =? 0) then zeroes - 16 else zeroes in
    let zeroes := if negb (Z.land w 0x00FF00FF =? 0) then zeroes - 8 else zeroes in
    let zeroes := if negb (Z.land w 0x0F0F0F0F =? 0) then zeroes - 4 else zeroes in
    let zeroes := if negb (Z.land w 0x33333333 =? 0) then zeroes - 2 else zeroes in
    let zeroes := if negb (Z.land w 0x55555555 =? 0) then zeroes - 1 else zeroes in
    bits + (32 - zeroes).

Definition CountIPMaskBits (mask : IPAddress) : Z :=
  if family mask =? AF_INET then count_mask_word 0 (NetworkToHost32 (host_value (ipv4_address mask)))
  else if family mask =? AF_INET6 then
    let '(i, word_to_count) := mask_scan 0 (words (ipv6_address mask)) in
    count_mask_word (i * 32) word_to_count
  else 0.

End Host.

(** ** Interface addresses *)

Record InterfaceAddress := IA { ia_ip : IPAddress; ipv6_flags_ : Z }.

Definition IPV6_ADDRESS_FLAG_NONE : Z := 0.
Definition ia_default : InterfaceAddress := IA ip_unspec IPV6_ADDRESS_FLAG_NONE.
Definition ia_of (ip : IPAddress) : InterfaceAddress := IA ip IPV6_ADDRESS_FLAG_NONE.
Definition ia_eq (a b : InterfaceAddress) : bool := (ipv6_flags_ a =? ipv6_flags_ b) && ip_eq (ia_ip a) (ia_ip b).
Definition ia_neq (a b : InterfaceAddress) : bool := negb (ia_eq a b).
Definition ia_ToString `{InetText} (a : InterfaceAddress) : list Z :=
  ip_ToString (ia_ip a) ++ (if family (ia_ip a) =? AF_INET6 then b#"|flags:0x" ++ ToHex (ipv6_flags_ a) else []).
Definition IPFromString_flags `{InetText} (str : list Z) (flags : Z) : option InterfaceAddress :=
  let '(ok, ip) := IPFromString str in if ok then Some (IA ip flags) else None.

(** [ai_addr]: null, or the family and the address field of the socket
    address behind it. *)
Definition IPFromAddrInfo (ai_addr : option (Z * list Z)) : option IPAddress :=
  match ai_addr with
  | None => None
  | Some (sa_family, addr) =>
      if sa_family =? AF_INET then Some (ip_v4 addr) else if sa_family =? AF_INET6 then Some (ip_v6 addr) else None
  end.

Example ip_demo :
  CountIPMaskBits false (ip_v4 [255; 255; 240; 0]) = 20 ∧ CountIPMaskBits false (ip_v4 [255; 0; 255; 0]) = 24 ∧
  TruncateIP false (ip_v4 [192; 168; 130; 7]) 17 = ip_v4 [192; 168; 128; 0] ∧
  TruncateIP true (ip_v6 [0x20; 1; 0xd; 0xb8; 1; 2; 3; 4; 5; 6; 7; 8; 9; 10; 11; 12]) 36 =
    ip_v6 [0x20; 1; 0xd; 0xb8; 0; 0; 0; 0; 0; 0; 0; 0; 0; 0; 0; 0] ∧
  IPIsPrivate false (ip_v4 [172; 31; 255; 1]) = true ∧ IPIsPrivate true (ip_v4 [172; 32; 0; 1]) = false.
Proof. split_and!; vm_compute; reflexivity. Qed.

(** ** Bytes as numbers *)

Lemma be_decode_app xs ys : be_decode (xs ++ ys) = be_decode xs * 2 ^ (8 * Z.of_nat (length ys)) + be_decode ys.
Proof. unfold be_decode. rewrite reverse_app, le_decode_app, length_reverse. lia. Qed.

Lemma be_decode_cons x xs : be_decode (x :: xs) = x * 2 ^ (8 * Z.of_nat (length xs)) + be_decode xs.
Proof. change (x :: xs) with ([x] ++ xs). rewrite be_decode_app. change (be_decode [x]) with (x + 256 * 0). f_equal. lia. Qed.

Lemma be_decode_bound bs : bytes_ok bs → 0 ≤ be_decode bs < 2 ^ (8 * Z.of_nat (length bs)).
Proof. intros H. unfold be_decode. rewrite <- (length_reverse bs). apply le_decode_bound. by apply Forall_reverse. Qed.

Lemma memcmp_be xs ys : length xs = length ys → bytes_ok xs → bytes_ok ys → (memcmp xs ys <? 0) = (be_decode xs <? be_decode ys).
Proof.
  revert ys. induction xs as [|x xs IH]; intros [|y ys] Hl Hx Hy; simplify_eq/=; [done|].
  apply Forall_cons in Hx as [Hx Hxs], Hy as [Hy Hys]. rewrite !be_decode_cons.
  pose proof (be_decode_bound xs Hxs) as Bx. pose proof (be_decode_bound ys Hys) as By.
  rewrite Hl in *. set (P := 2 ^ (8 * Z.of_nat (length ys))) in *. symmetry.
  destruct (Z.ltb_spec x y); [apply Z.ltb_lt; nia|]. destruct (Z.ltb_spec y x); [apply Z.ltb_ge; nia|].
  assert (x = y) as -> by lia. rewrite IH by done. apply eq_iff_eq_true. rewrite !Z.ltb_lt. lia.
Qed.

Lemma be_decode_inj xs ys : length xs = length ys → bytes_ok xs → bytes_ok ys → be_decode xs = be_decode ys → xs = ys.
Proof.
  intros Hl Hx Hy E. rewrite <- (be_encode_decode (length xs) xs Hx eq_refl), <- (be_encode_decode (length xs) ys Hy (eq_sym Hl)).
  by rewrite E.
Qed.

(** Clearing the low bits of a word. *)
Lemma land_high_mask w k : 0 ≤ w < 2 ^ 32 → 0 ≤ k ≤ 32 → Z.land w (u32 (Z.shiftl 0xFFFFFFFF k)) = w / 2 ^ k * 2 ^ k.
Proof.
  intros Hw Hk. rewrite <- Z.shiftr_div_pow2, <- Z.shiftl_mul_pow2 by lia. apply Z.bits_inj'. intros i Hi.
  unfold uwrap. change 0xFFFFFFFF with (Z.ones 32). rewrite Z.land_spec, Z.testbit_mod_pow2, !Z.shiftl_spec by lia.
  destruct (Z.leb_spec k i); [|by rewrite !(Z.testbit_neg_r _ (i - k)), !andb_false_r by lia].
  rewrite Z.shiftr_spec by lia. replace (i - k + k) with i by lia.
  destruct (Z.ltb_spec i 32); cbn [andb]; [by rewrite Z.ones_spec_low, andb_true_r by lia|].
  rewrite andb_false_r. symmetry. rewrite <- (Z.mod_small w (2 ^ 32)) by done. apply Z.mod_pow2_bits_high. lia.
Qed.

Section Host_theory.
Context (big_endian : bool).
Notation host_bytes := (host_bytes big_endian).
Notation host_value := (host_value big_endian).
Notation HostToNetwork32 := (HostToNetwork32 big_endian).
Notation NetworkToHost32 := (NetworkToHost32 big_endian).

Lemma ntoh_value w : bytes_ok w → length w = 4%nat → NetworkToHost32 (host_value w) = be_decode w.
Proof. intros. by apply (betoh_value big_endian 4). Qed.

Lemma hton_bytes v : host_bytes 4 (HostToNetwork32 v) = be_encode 4 v.
Proof. apply (htobe_bytes big_endian 4). Qed.

Lemma host_bytes_0 : host_bytes 4 0 = replicate 4 0.
Proof. by destruct big_endian. Qed.

(** ** Well-formed addresses and their numbers *)

Definition valid_ip (ip : IPAddress) : Prop :=
  length (u_ ip) = 16%nat ∧ bytes_ok (u_ ip) ∧
  ((family_ ip = AF_UNSPEC ∧ u_ ip = replicate 16 0) ∨ (family_ ip = AF_INET ∧ drop 4 (u_ ip) = replicate 12 0) ∨ family_ ip = AF_INET6).

(** The bits of the address, and the number they make in network order. *)
Definition width (ip : IPAddress) : Z := if family_ ip =? AF_INET then 32 else if family_ ip =? AF_INET6 then 128 else 0.
Definition number (ip : IPAddress) : Z :=
  if family_ ip =? AF_INET then be_decode (take 4 (u_ ip)) else if family_ ip =? AF_INET6 then be_decode (u_ ip) else 0.

Lemma valid_v4 b : length b = 4%nat → bytes_ok b → valid_ip (ip_v4 b).
Proof.
  intros Hl Hb. split_and!; cbn; [len_solve| |right; left; split; [done|]].
  - apply bytes_ok_app. split; [done|]. by repeat constructor.
  - rewrite drop_app_length'; [done|lia].
Qed.

Lemma valid_v6 b : length b = 16%nat → bytes_ok b → valid_ip (ip_v6 b).
Proof. intros Hl Hb. split_and!; cbn; auto. Qed.

Lemma ip_host_v4 n : ip_host big_endian n = ip_v4 (be_encode 4 n).
Proof. unfold ip_host. by rewrite hton_bytes. Qed.

Lemma number_v4 b : length b = 4%nat → number (ip_v4 b) = be_decode b.
Proof. intros Hl. unfold number. cbn. by rewrite take_app_length'. Qed.

(** Same family and number, same address. *)
Lemma number_inj a b : valid_ip a → valid_ip b → family_ a = family_ b → number a = number b → a = b.
Proof.
  destruct a as [f u], b as [g v]. unfold valid_ip, number. cbn. intros (Hu & Bu & Ha) (Hv & Bv & Hb) <- E. f_equal.
  destruct Ha as [[-> ->]|[[-> Ha]| ->]], Hb as [[? ->]|[[? Hb]|?]]; try done; cbn in E.
  - rewrite <- (take_drop 4 u), <- (take_drop 4 v), Ha, Hb. f_equal.
    apply be_decode_inj; [by rewrite !length_take, Hu, Hv|by apply bytes_ok_take..|done].
  - apply be_decode_inj; [congruence|done..].
Qed.

(** ** The order *)

Definition rank (f : Z) : Z := if f =? AF_UNSPEC then 0 else if f =? AF_INET then 1 else 2.

Lemma ip_eq_spec a b : valid_ip a → valid_ip b → ip_eq a b = true ↔ a = b.
Proof.
  intros Ha Hb. pose proof (number_inj a b Ha Hb) as Hinj. destruct a as [f u], b as [g v].
  destruct Ha as (Hu & Bu & Ha), Hb as (Hv & Bv & Hb). unfold ip_eq, number in *. cbn in *.
  destruct (Z.eqb_spec f g) as [<-|]; cbn [negb]; [|split; [done|congruence]].
  destruct Ha as [[-> ->]|[[-> Ha]| ->]], Hb as [[? ->]|[[? Hb]|?]]; try done; cbn in *;
    rewrite Z.eqb_eq, memcmp_eq by (rewrite ?length_take; lia).
  - split; [intros E; apply Hinj; [done|by rewrite E]|by intros [= ->]].
  - split; [by intros ->|by intros [= ->]].
Qed.

Lemma ip_lt_spec a b : valid_ip a → valid_ip b →
  ip_lt big_endian a b = true ↔ rank (family_ a) < rank (family_ b) ∨ (family_ a = family_ b ∧ number a < number b).
Proof.
  destruct a as [f u], b as [g v]. intros (Hu & Bu & Ha) (Hv & Bv & Hb). unfold ip_lt, number, rank. cbn in *.
  destruct (Z.eqb_spec f g) as [<-|Hfg]; cbn [negb].
  - destruct Ha as [[-> ->]|[[-> Ha]| ->]], Hb as [[? ->]|[[? Hb]|?]]; try done; cbn.
    + split; [done|lia].
    + rewrite !ntoh_value by first [by apply bytes_ok_take|rewrite length_take; lia]. rewrite Z.ltb_lt. lia.
    + rewrite memcmp_be by (done || lia). rewrite Z.ltb_lt. lia.
  - destruct Ha as [[-> ->]|[[-> Ha]| ->]], Hb as [[-> ->]|[[-> Hb]| ->]]; try done; cbn; split; (done || lia || intuition lia).
Qed.

(** ** Truncation *)

Lemma u32_s32_u32 x : u32 (s32 (u32 x)) = u32 x.
Proof.
  unfold uwrap, swrap. change (2 ^ (32 - 1)) with 2147483648. change (2 ^ 32) with 4294967296. div_solve.
Qed.

(** Cutting a number below a bit of one of its words. *)
Lemma cut_word hi w lo e k :
  0 ≤ e → 0 ≤ k ≤ 32 → 0 ≤ lo < 2 ^ e →
  ((hi * 2 ^ 32 + w) * 2 ^ e + lo) / 2 ^ (e + k) * 2 ^ (e + k) = (hi * 2 ^ 32 + w / 2 ^ k * 2 ^ k) * 2 ^ e.
Proof.
  intros He Hk Hlo. rewrite Z.pow_add_r by lia. pose proof (Z.pow_pos_nonneg 2 e ltac:(lia) He).
  pose proof (Z.pow_pos_nonneg 2 k ltac:(lia) (proj1 Hk)).
  rewrite <- Z.div_div by lia. rewrite Z.div_add_l, (Z.div_small lo), Z.add_0_r by lia.
  replace (2 ^ 32) with (2 ^ (32 - k) * 2 ^ k) by (rewrite <- Z.pow_add_r by lia; f_equal; lia).
  rewrite (Z.mul_assoc hi), Z.div_add_l by lia. ring.
Qed.

Lemma words_spec u : length u = 16%nat → bytes_ok u → ∃ w0 w1 w2 w3, words u = [w0; w1; w2; w3] ∧ u = w0 ++ w1 ++ w2 ++ w3 ∧
  Forall (λ w, length w = 4%nat ∧ bytes_ok w) [w0; w1; w2; w3].
Proof.
  intros Hl Hb. exists (take 4 u), (take 4 (drop 4 u)), (take 4 (drop 8 u)), (take 4 (drop 12 u)). split_and!; [done| |].
  - do 16 (destruct u as [|? u]; [done|]). by destruct u.
  - repeat constructor; rewrite ?length_take, ?length_drop; try lia; by repeat first [apply bytes_ok_take|apply bytes_ok_drop].
Qed.

Lemma be_decode_4 w : length w = 4%nat → bytes_ok w → 0 ≤ be_decode w < 2 ^ 32.
Proof. intros Hl Hb. pose proof (be_decode_bound w Hb) as H. by rewrite Hl in H. Qed.

Lemma be_decode_words w0 w1 w2 w3 :
  length w1 = 4%nat → length w2 = 4%nat → length w3 = 4%nat →
  be_decode (w0 ++ w1 ++ w2 ++ w3) = ((be_decode w0 * 2 ^ 32 + be_decode w1) * 2 ^ 32 + be_decode w2) * 2 ^ 32 + be_decode w3.
Proof.
  intros H1 H2 H3. rewrite !be_decode_app, !length_app, H1, H2, H3.
  change (8 * Z.of_nat (4 + (4 + 4))) with (32 + 32 + 32). change (8 * Z.of_nat (4 + 4)) with (32 + 32). change (8 * Z.of_nat 4) with 32.
  rewrite !Z.pow_add_r by lia. ring.
Qed.

(** A truncated word: its bytes and its number. *)
Lemma truncate_word_spec position k i w :
  0 ≤ k ≤ 32 → length w = 4%nat → bytes_ok w →
  let w' := truncate_word big_endian position (u32 (Z.shiftl 0xFFFFFFFF k)) i w in
  length w' = 4%nat ∧ bytes_ok w' ∧
  be_decode w' = if Z.of_nat i =? position then be_decode w / 2 ^ k * 2 ^ k else if position <? Z.of_nat i then 0 else be_decode w.
Proof.
  intros Hk Hl Hb. pose proof (be_decode_4 w Hl Hb) as Hw. unfold truncate_word.
  destruct (Z.of_nat i =? position); [|destruct (position <? Z.of_nat i); [|done]].
  - rewrite ntoh_value, hton_bytes, land_high_mask by done. split_and!; [apply length_be_encode|apply be_encode_bytes|].
    rewrite be_decode_encode. apply Z.mod_small. change (8 * Z.of_nat 4) with 32.
    pose proof (Z.pow_pos_nonneg 2 k ltac:(lia) (proj1 Hk)).
    pose proof (Z.mul_div_le (be_decode w) (2 ^ k) ltac:(lia)). pose proof (Z.div_pos (be_decode w) (2 ^ k) ltac:(lia) ltac:(lia)). nia.
  - rewrite host_bytes_0. split_and!; [done|by repeat constructor|done].
Qed.

(** The words kept, cut and cleared make the number cut at that bit. *)
Lemma cut_words p k n0 n1 n2 n3 :
  0 ≤ p ≤ 3 → 0 ≤ k ≤ 32 → 0 ≤ n1 < 2 ^ 32 → 0 ≤ n2 < 2 ^ 32 → 0 ≤ n3 < 2 ^ 32 →
  let c i n := if i =? p then n / 2 ^ k * 2 ^ k else if p <? i then 0 else n in
  ((c 0 n0 * 2 ^ 32 + c 1 n1) * 2 ^ 32 + c 2 n2) * 2 ^ 32 + c 3 n3 =
  (((n0 * 2 ^ 32 + n1) * 2 ^ 32 + n2) * 2 ^ 32 + n3) / 2 ^ (32 * (3 - p) + k) * 2 ^ (32 * (3 - p) + k).
Proof.
  intros Hp Hk H1 H2 H3 c. assert (p = 0 ∨ p = 1 ∨ p = 2 ∨ p = 3) as [->|[->|[->| ->]]] by lia; subst c;
    cbn [Z.eqb Z.ltb Z.compare Pos.eqb Pos.compare Pos.compare_cont].
  - change (32 * (3 - 0)) with 96.
    pose proof (cut_word 0 n0 ((n1 * 2 ^ 32 + n2) * 2 ^ 32 + n3) 96 k ltac:(lia) Hk ltac:(lia)) as E.
    set (q := n0 / 2 ^ k * 2 ^ k) in *. etransitivity; [|etransitivity; [symmetry; exact E|]]; [lia|]. do 2 f_equal. lia.
  - change (32 * (3 - 1)) with 64.
    pose proof (cut_word n0 n1 (n2 * 2 ^ 32 + n3) 64 k ltac:(lia) Hk ltac:(lia)) as E.
    set (q := n1 / 2 ^ k * 2 ^ k) in *. etransitivity; [|etransitivity; [symmetry; exact E|]]; [lia|]. do 2 f_equal. lia.
  - change (32 * (3 - 2)) with 32.
    pose proof (cut_word (n0 * 2 ^ 32 + n1) n2 n3 32 k ltac:(lia) Hk ltac:(lia)) as E.
    set (q := n2 / 2 ^ k * 2 ^ k) in *. etransitivity; [|etransitivity; [symmetry; exact E|]]; [lia|]. do 2 f_equal.
  - change (32 * (3 - 3)) with 0.
    pose proof (cut_word ((n0 * 2 ^ 32 + n1) * 2 ^ 32 + n2) n3 0 0 k ltac:(lia) Hk ltac:(lia)) as E.
    set (q := n3 / 2 ^ k * 2 ^ k) in *. etransitivity; [|etransitivity; [symmetry; exact E|]]; [lia|]. do 2 f_equal. lia.
Qed.

Lemma truncate_words_spec u p k :
  length u = 16%nat → bytes_ok u → 0 ≤ p ≤ 3 → 0 ≤ k ≤ 32 →
  let r := mjoin (imap (truncate_word big_endian p (u32 (Z.shiftl 0xFFFFFFFF k))) (words u)) in
  length r = 16%nat ∧ bytes_ok r ∧ be_decode r = be_decode u / 2 ^ (32 * (3 - p) + k) * 2 ^ (32 * (3 - p) + k).
Proof.
  intros Hl Hb Hp Hk. destruct (words_spec u Hl Hb) as (w0 & w1 & w2 & w3 & -> & Eu & Hw).
  rewrite !Forall_cons in Hw. destruct Hw as ([L0 B0] & [L1 B1] & [L2 B2] & [L3 B3] & _).
  destruct (truncate_word_spec p k 0 w0 Hk L0 B0) as (L0' & B0' & N0).
  destruct (truncate_word_spec p k 1 w1 Hk L1 B1) as (L1' & B1' & N1).
  destruct (truncate_word_spec p k 2 w2 Hk L2 B2) as (L2' & B2' & N2).
  destruct (truncate_word_spec p k 3 w3 Hk L3 B3) as (L3' & B3' & N3).
  cbn [imap mjoin list_join]. unfold compose in *. rewrite app_nil_r. cbn zeta in *.
  split_and!; [len_solve|by rewrite !bytes_ok_app|].
  rewrite Eu, !be_decode_words by done. rewrite N0, N1, N2, N3.
  apply (cut_words p k); auto using be_decode_4.
Qed.

Lemma v4_inv ip : valid_ip ip → family_ ip = AF_INET → ∃ b, ip = ip_v4 b ∧ length b = 4%nat ∧ bytes_ok b.
Proof.
  destruct ip as [f u]. intros (Hl & Hb & Hc) Hf. cbn [family_ u_] in *. subst f. exists (take 4 u). split_and!; [|len_solve|by apply bytes_ok_take].
  unfold ip_v4. f_equal. destruct Hc as [[? _]|[[_ Hc]|?]]; try done. by rewrite <- Hc, take_drop.
Qed.

Lemma v6_inv ip : valid_ip ip → family_ ip = AF_INET6 → ∃ b, ip = ip_v6 b ∧ length b = 16%nat ∧ bytes_ok b.
Proof. destruct ip as [f u]. intros (Hl & Hb & _) Hf. cbn in *. subst f. by exists u. Qed.

Lemma cut_zero n : n / 2 ^ 0 * 2 ^ 0 = n.
Proof. by rewrite Z.div_1_r, Z.mul_1_r. Qed.

Lemma truncate_v4 b len :
  length b = 4%nat → bytes_ok b → 0 ≤ len →
  let r := TruncateIP big_endian (ip_v4 b) len in
  let cleared := 32 - len `min` 32 in
  valid_ip r ∧ family_ r = AF_INET ∧ number r = be_decode b / 2 ^ cleared * 2 ^ cleared.
Proof.
  intros Hl Hb Hlen. pose proof (be_decode_4 b Hl Hb) as Hn. unfold TruncateIP. rewrite (proj2 (Z.ltb_ge len 0)) by lia.
  change (family (ip_v4 b) =? AF_INET) with true. cbn match.
  destruct (Z.ltb_spec 31 len).
  { replace (32 - len `min` 32) with 0 by lia. rewrite cut_zero. auto using valid_v4, number_v4. }
  replace (32 - len `min` 32) with (32 - len) by lia. destruct (Z.eqb_spec len 0) as [->|].
  { rewrite ip_host_v4. rewrite (Z.div_small _ (2 ^ (32 - 0))) by done.
    split_and!; [apply valid_v4; [done|by repeat constructor]|done..]. }
  unfold ipv4_address. cbn [ip_v4 u_]. rewrite take_app_length' by lia. rewrite ntoh_value, u32_s32_u32, hton_bytes by done.
  rewrite land_high_mask by lia. split_and!; [apply valid_v4; [apply length_be_encode|apply be_encode_bytes]|done|].
  fold (ip_v4 (be_encode 4 (be_decode b / 2 ^ (32 - len) * 2 ^ (32 - len)))).
  rewrite number_v4 by apply length_be_encode. rewrite be_decode_encode. apply Z.mod_small. change (8 * Z.of_nat 4) with 32.
  pose proof (Z.pow_pos_nonneg 2 (32 - len) ltac:(lia) ltac:(lia)).
  pose proof (Z.mul_div_le (be_decode b) (2 ^ (32 - len)) ltac:(lia)).
  pose proof (Z.div_pos (be_decode b) (2 ^ (32 - len)) ltac:(lia) ltac:(lia)). nia.
Qed.

Lemma truncate_v6 b len :
  length b = 16%nat → bytes_ok b → 0 ≤ len →
  let r := TruncateIP big_endian (ip_v6 b) len in
  let cleared := 128 - len `min` 128 in
  valid_ip r ∧ family_ r = AF_INET6 ∧ number r = be_decode b / 2 ^ cleared * 2 ^ cleared.
Proof.
  intros Hl Hb Hlen. pose proof (be_decode_bound b Hb) as Hn. rewrite Hl in Hn. unfold TruncateIP. rewrite (proj2 (Z.ltb_ge len 0)) by lia.
  change (family (ip_v6 b) =? AF_INET) with false. change (family (ip_v6 b) =? AF_INET6) with true. cbn match.
  destruct (Z.ltb_spec 127 len).
  { replace (128 - len `min` 128) with 0 by lia. rewrite cut_zero. auto using valid_v6. }
  replace (128 - len `min` 128) with (128 - len) by lia. destruct (Z.eqb_spec len 0) as [->|].
  { rewrite (Z.div_small _ (2 ^ (128 - 0))) by done. split_and!; [|done..]. apply valid_v6; [done|]. by repeat constructor. }
  unfold ipv6_address. cbn [ip_v6 u_].
  destruct (truncate_words_spec b (len / 32) (32 - (len - len / 32 * 32)) Hl Hb) as (L & B & N); [div_solve..|].
  split_and!; [by apply valid_v6|done|]. etransitivity; [exact N|].
  replace (32 * (3 - len / 32) + (32 - (len - len / 32 * 32))) with (128 - len) by div_solve. done.
Qed.

(** Truncating an address to a length keeps that many leading bits of it
    and clears the others, in a well-formed address of the same family; a
    length beyond the address changes nothing. *)
Theorem truncate_ip_prefix ip len :
  valid_ip ip → family_ ip ≠ AF_UNSPEC → 0 ≤ len →
  let cleared := width ip - len `min` width ip in
  let r := TruncateIP big_endian ip len in
  valid_ip r ∧ family_ r = family_ ip ∧ number r = number ip / 2 ^ cleared * 2 ^ cleared.
Proof.
  intros Hv Hf Hlen. assert (family_ ip = AF_INET ∨ family_ ip = AF_INET6) as [E|E] by (destruct Hv as (_ & _ & [[? _]|[[? _]|?]]); auto; done).
  - destruct (v4_inv ip Hv E) as (b & -> & Hl & Hb). rewrite number_v4 by done. by apply truncate_v4.
  - destruct (v6_inv ip Hv E) as (b & -> & Hl & Hb). by apply truncate_v6.
Qed.
End Host_theory.

Example truncate_ip_prefix_witness :
  let ip := ip_v4 [192; 168; 130; 7] in
  valid_ip (TruncateIP false ip 17) ∧ family_ (TruncateIP false ip 17) = AF_INET ∧
  number (TruncateIP false ip 17) = number ip / 2 ^ (width ip - 17 `min` width ip) * 2 ^ (width ip - 17 `min` width ip).
Proof.
  apply (truncate_ip_prefix false (ip_v4 [192; 168; 130; 7]) 17); [|vm_compute; congruence|lia].
  apply valid_v4; [reflexivity|]. repeat constructor; lia.
Defined.

(** Equality of addresses is equality, and the comparison orders them
    first by family (none, IPv4, IPv6) and then by number: a strict total
    order, on hosts of either byte order. *)
Theorem ip_order big_endian a b :
  valid_ip a → valid_ip b →
  (ip_eq a b = true ↔ a = b) ∧
  (ip_lt big_endian a b = true ↔
     rank (family_ a) < rank (family_ b) ∨ (family_ a = family_ b ∧ number a < number b)) ∧
  (ip_gt big_endian a b = ip_lt big_endian b a).
Proof.
  intros Ha Hb. split_and!; [by apply ip_eq_spec|by apply ip_lt_spec|].
  unfold ip_gt, ip_neq. apply eq_iff_eq_true. rewrite andb_true_iff, !negb_true_iff, ip_lt_spec by done.
  rewrite <- !not_true_iff_false, ip_eq_spec, ip_lt_spec by done.
  pose proof (number_inj a b Ha Hb) as Hinj.
  assert (rank (family_ a) = rank (family_ b) → family_ a = family_ b) as Hr
    by (destruct Ha as (_ & _ & [[-> _]|[[-> _]| ->]]), Hb as (_ & _ & [[-> _]|[[-> _]| ->]]); done).
  split.
  - intros [Hne Hlt]. destruct (Z.lt_trichotomy (rank (family_ a)) (rank (family_ b))) as [?|[E|?]]; [tauto| |by left].
    right. split; [by rewrite Hr|]. destruct (Z.lt_trichotomy (number a) (number b)) as [?|[?|?]]; [tauto| |done].
    destruct Hne. auto.
  - intros [Hlt|[E Hlt]]; (split; [intros ->; lia|intros [?|[? ?]]]); try lia; rewrite ?H, ?E in *; lia.
Qed.

Example ip_order_witness :
  (ip_eq (ip_v4 [10; 0; 0; 2]) (ip_v4 [9; 1; 1; 1]) = true ↔ ip_v4 [10; 0; 0; 2] = ip_v4 [9; 1; 1; 1]) ∧
  (ip_lt false (ip_v4 [10; 0; 0; 2]) (ip_v4 [9; 1; 1; 1]) = true ↔ 1 < 1 ∨ (2 = 2 ∧ 167772162 < 151060737)) ∧
  (ip_gt false (ip_v4 [10; 0; 0; 2]) (ip_v4 [9; 1; 1; 1]) = ip_lt false (ip_v4 [9; 1; 1; 1]) (ip_v4 [10; 0; 0; 2])).
Proof.
  apply (ip_order false (ip_v4 [10; 0; 0; 2]) (ip_v4 [9; 1; 1; 1])); (apply valid_v4; [reflexivity|]; repeat constructor; lia).
Defined.

(** ** Masks *)

Definition all_ones (family : Z) : IPAddress := if family =? AF_INET then ip_v4 (replicate 4 255) else ip_v6 (replicate 16 255).

(** The all-ones address cut to [n] bits is a mask of [n] bits. *)
Lemma mask_bits big_endian n :
  (0 ≤ n ≤ 32 → CountIPMaskBits big_endian (TruncateIP big_endian (all_ones AF_INET) n) = n) ∧
  (0 ≤ n ≤ 128 → CountIPMaskBits big_endian (TruncateIP big_endian (all_ones AF_INET6) n) = n).
Proof.
  split; intros Hn.
  - assert (0 ≤ n < 33) as H by lia. clear Hn. destruct big_endian; exhaust1 33 n H.
  - assert (0 ≤ n < 129) as H by lia. clear Hn. destruct big_endian; exhaust1 129 n H.
Qed.

(** A mask with a hole is not counted up to the hole. *)
Example mask_with_hole big_endian : CountIPMaskBits big_endian (ip_v4 [255; 0; 255; 0]) = 24.
Proof. by destruct big_endian. Qed.

(** ** The ranges of private addresses *)

Lemma shiftr_eq n k c : 0 ≤ k → Z.shiftr n k = c ↔ c * 2 ^ k ≤ n < (c + 1) * 2 ^ k.
Proof.
  intros Hk. rewrite Z.shiftr_div_pow2 by done. pose proof (Z.pow_pos_nonneg 2 k ltac:(lia) Hk).
  pose proof (Z.div_mod n (2 ^ k)). pose proof (Z.mod_pos_bound n (2 ^ k)). nia.
Qed.

(** An IPv4 address is private exactly in 10/8, 172.16/12, 192.168/16,
    169.254/16, 127/8 and 100.64/10. *)
Lemma private_ranges big_endian b : length b = 4%nat → bytes_ok b →
  let n := be_decode b in
  IPIsPrivate big_endian (ip_v4 b) = true ↔
  be_decode [10; 0; 0; 0] ≤ n < be_decode [11; 0; 0; 0] ∨ be_decode [172; 16; 0; 0] ≤ n < be_decode [172; 32; 0; 0] ∨
  be_decode [192; 168; 0; 0] ≤ n < be_decode [192; 169; 0; 0] ∨ be_decode [169; 254; 0; 0] ≤ n < be_decode [169; 255; 0; 0] ∨
  be_decode [127; 0; 0; 0] ≤ n < be_decode [128; 0; 0; 0] ∨ be_decode [100; 64; 0; 0] ≤ n < be_decode [100; 128; 0; 0].
Proof.
  intros Hl Hb. cbn zeta. unfold IPIsPrivate, IPIsLinkLocal, IPIsLoopback, IPIsPrivateNetwork, IPIsSharedNetwork,
    IPIsLinkLocalV4, IPIsLoopbackV4, IPIsPrivateNetworkV4, IPIsSharedNetworkV4.
  change (family (ip_v4 b) =? AF_INET) with true. cbn match.
  assert (v4AddressAsHostOrderInteger big_endian (ip_v4 b) = be_decode b) as ->.
  { unfold v4AddressAsHostOrderInteger. cbn [ip_v4 family_ u_]. rewrite take_app_length' by lia. by apply ntoh_value. }
  rewrite !orb_true_iff, !Z.eqb_eq, !shiftr_eq by lia.
  repeat match goal with |- context [be_decode (?x :: ?l)] =>
    let v := eval vm_compute in (be_decode (x :: l)) in change (be_decode (x :: l)) with v end.
  change (Z.lor (Z.shiftl 169 8) 254) with 43518. change (Z.lor (Z.shiftl 172 4) 1) with 2753.
  change (Z.lor (Z.shiftl 192 8) 168) with 49320. change (Z.lor (Z.shiftl 100 2) 1) with 401. lia.
Qed.

(** Mapping an IPv4 address into IPv6 is undone by [Normalized]. *)
Lemma mapped_normalized b : length b = 4%nat → bytes_ok b → Normalized (AsIPv6Address (ip_v4 b)) = ip_v4 b.
Proof.
  intros Hl Hb. do 4 (destruct b as [|? b]; [done|]). destruct b; [|done]. reflexivity.
Qed.
