(* ===== verification/StringBuilder.v ===== *)
(** * String builders (rtc_base/strings/string_builder.h, string_builder.cc)

    [SimpleStringBuilder] writes into a buffer of fixed size. The theorem is
    that any sequence of appends leaves the concatenation of the pieces, cut to
    the buffer, with its terminator, and never writes outside; a debug build
    stops exactly when something would be cut. [StringBuilder] grows. *)

From S2P Require Import Prelude StringEncode StringToNumber.

Section Build.
Context (RTC_DCHECK_IS_ON : bool).

Definition dcheck (b : bool) : res unit := if RTC_DCHECK_IS_ON then c_assert b else Val ().

(** ** A buffer of fixed size *)

Record SimpleStringBuilder := SSB { buffer_ : list Z; size_ : Z }.

Definition buffer_size (sb : SimpleStringBuilder) : Z := Z.of_nat (length (buffer_ sb)).

Definition ssb_IsConsistent (sb : SimpleStringBuilder) : res bool :=
  if size_ sb <=? buffer_size sb - 1 then let* c := byte_at (buffer_ sb) (size_ sb) in Val (c =? 0) else Val false.

Definition ssb_new (buffer : list Z) : res SimpleStringBuilder :=
  let* buffer := set_char 0 0 buffer in
  let sb := SSB buffer 0 in
  let* ok := ssb_IsConsistent sb in
  let* _ := dcheck ok in Val sb.

(** [str] has at least [length] characters. *)
Definition Append (str : list Z) (length : Z) (sb : SimpleStringBuilder) : res SimpleStringBuilder :=
  let* _ := dcheck (size_ sb + length <? buffer_size sb) in
  let chars_added := length `min` (buffer_size sb - size_ sb - 1) in
  let* src := of_mem (mread str 0 chars_added) in
  let* buffer := of_mem (mwrite (buffer_ sb) (size_ sb) src) in
  let size := size_ sb + chars_added in
  let* buffer := set_char size 0 buffer in
  let sb := SSB buffer size in
  let* ok := ssb_IsConsistent sb in
  let* _ := dcheck ok in Val sb.

(** [vsnprintf(&buffer_[size_], n, ...)] writes at most [n] characters with the
    terminator and returns the length of the whole text. *)
Definition print_at (buffer : list Z) (off n : Z) (text : list Z) : res (list Z) :=
  if n <=? 0 then Val buffer else of_mem (mwrite buffer off (take (Z.to_nat (n - 1)) text ++ [0])).

Definition AppendFormat (text : list Z) (sb : SimpleStringBuilder) : res SimpleStringBuilder :=
  let len := Z.of_nat (length text) in
  let* buffer := print_at (buffer_ sb) (size_ sb) (buffer_size sb - size_ sb) text in
  let chars_added := len `min` (buffer_size sb - 1 - size_ sb) in
  let sb := SSB buffer (size_ sb + chars_added) in
  let* _ := dcheck (len =? chars_added) in
  let* ok := ssb_IsConsistent sb in
  let* _ := dcheck ok in Val sb.

(** [operator<<] for characters, C strings, strings and integers. *)
Definition put_cstr (str : list Z) sb : res SimpleStringBuilder := let* n := of_mem (strlen str) in Append str n sb.
Definition put_char (ch : Z) sb : res SimpleStringBuilder := Append [ch] 1 sb.
Definition put_string (str : list Z) sb : res SimpleStringBuilder := Append str (Z.of_nat (length str)) sb.
Definition put_int (i : Z) sb : res SimpleStringBuilder := AppendFormat (decimal i) sb.

(** [str()] read as a C string. *)
Definition ssb_str (sb : SimpleStringBuilder) : list Z := c_string (buffer_ sb).
Definition ssb_size (sb : SimpleStringBuilder) : Z := size_ sb.

(** ** A string that grows *)

Definition sb_string (str : list Z) (str_ : list Z) : list Z := str_ ++ str.
Definition sb_int (i : Z) (str_ : list Z) : res (list Z) := let* t := ToString RTC_DCHECK_IS_ON i in Val (str_ ++ t).
(** The text is predicted, room is made, and it is printed there; the
    terminator goes where the string has its own. *)
Definition sb_AppendFormat (text : list Z) (str_ : list Z) : list Z :=
  let predicted_length := Z.of_nat (length text) in
  if 0 <? predicted_length then
    let size := length str_ in
    let resized := str_ ++ replicate (Z.to_nat predicted_length) 0 in
    take size resized ++ take (Z.to_nat predicted_length) text
  else str_.
Definition sb_Clear (str_ : list Z) : list Z := [].
Definition sb_Release (str_ : list Z) : list Z * list Z := (str_, []).

(** ** The invariant *)

(** The buffer starts with what was built, then the terminator. *)
Definition holds (n : nat) (text : list Z) (sb : SimpleStringBuilder) : Prop :=
  length (buffer_ sb) = n ∧ size_ sb = Z.of_nat (length text) ∧ ∃ rest, buffer_ sb = text ++ 0 :: rest.

Lemma holds_consistent n text sb : holds n text sb → ssb_IsConsistent sb = Val true.
Proof.
  intros (Hn & Hs & rest & Hb). unfold ssb_IsConsistent, buffer_size. rewrite Hs, Hb.
  rewrite (proj2 (Z.leb_le _ _)) by len_solve. by rewrite byte_at_0.
Qed.

Lemma holds_finish n text sb : holds n text sb → (let* ok := ssb_IsConsistent sb in let* _ := dcheck ok in Val sb) = Val sb.
Proof. intros H. rewrite (holds_consistent n text sb H). unfold dcheck. by destruct RTC_DCHECK_IS_ON. Qed.

Lemma ssb_new_holds buffer : (0 < length buffer)%nat → ∃ sb, ssb_new buffer = Val sb ∧ holds (length buffer) [] sb.
Proof.
  intros H. destruct buffer as [|x rest]; [simpl in H; lia|]. unfold ssb_new.
  rewrite (set_char_0 [] 0 x rest : set_char 0 0 (x :: rest) = _). cbn [mbind_res app].
  assert (holds (length (x :: rest)) [] (SSB (0 :: rest) 0)) as Hh by (split_and!; [done|done|by exists rest]).
  exists (SSB (0 :: rest) 0). split; [by apply (holds_finish _ _ _ Hh)|done].
Qed.

(** What a piece leaves in a buffer that holds [text]: as much as fits. *)
Definition fitted (n : nat) (text piece : list Z) : list Z := take (n - 1) (text ++ piece).

Lemma take_fits n (text piece : list Z) : (length text < n)%nat →
  take (n - 1) (text ++ piece) = text ++ take (length piece `min` (n - length text - 1)) piece.
Proof.
  intros H. rewrite take_app_ge by lia. f_equal. destruct (Nat.min_spec (length piece) (n - length text - 1)) as [[? ->]|[? ->]].
  - rewrite firstn_all. apply take_ge. lia.
  - f_equal. lia.
Qed.

Lemma Append_spec n text piece post sb :
  holds n text sb → (RTC_DCHECK_IS_ON = true → (length text + length piece < n)%nat) →
  ∃ sb', Append (piece ++ post) (Z.of_nat (length piece)) sb = Val sb' ∧ holds n (fitted n text piece) sb'.
Proof.
  intros Hh Hd. pose proof Hh as (Hn & Hs & rest & Hb). unfold Append, buffer_size.
  assert (length text < n)%nat as Hlt by (rewrite <- Hn, Hb; len_solve).
  assert (dcheck (size_ sb + Z.of_nat (length piece) <? Z.of_nat (length (buffer_ sb))) = Val ()) as ->.
  { unfold dcheck. destruct RTC_DCHECK_IS_ON; [|done]. specialize (Hd eq_refl). by rewrite (proj2 (Z.ltb_lt _ _)) by lia. }
  cbn [mbind_res]. set (k := (length piece `min` (n - length text - 1))%nat).
  replace (Z.of_nat (length piece) `min` (Z.of_nat (length (buffer_ sb)) - size_ sb - 1)) with (Z.of_nat k) by lia.
  rewrite mread_take by len_solve. rewrite Nat2Z.id, take_app_le by lia. cbn [of_mem mbind_res].
  assert (k < length (0%Z :: rest))%nat as Hk by (rewrite Hb, length_app in Hn; lia).
  rewrite Hb, Hs. rewrite <- (take_drop k (0 :: rest)).
  rewrite mwrite_app by (done || (rewrite !length_take; lia)). cbn [of_mem mbind_res].
  destruct (drop k (0 :: rest)) as [|x tl] eqn:Ed; [apply (f_equal length) in Ed; rewrite length_drop in Ed; simpl in Ed, Hk; lia|].
  replace (Z.of_nat (length text) + Z.of_nat k) with (Z.of_nat (length (text ++ take k piece))) by len_solve.
  rewrite app_assoc, set_char_0. cbn [mbind_res].
  assert (holds n (fitted n text piece) (SSB ((text ++ take k piece) ++ 0 :: tl) (Z.of_nat (length (text ++ take k piece))))) as Hh'.
  { unfold fitted. rewrite take_fits by done. split_and!; [|done|by exists tl]. cbn [buffer_].
    apply (f_equal length) in Ed. rewrite length_drop in Ed. rewrite Hb, length_app in Hn. rewrite !length_app, length_take.
    cbn [length] in *. lia. }
  eexists. split; [by apply (holds_finish _ _ _ Hh')|done].
Qed.

Lemma AppendFormat_spec n text piece sb :
  holds n text sb → (RTC_DCHECK_IS_ON = true → (length text + length piece < n)%nat) →
  ∃ sb', AppendFormat piece sb = Val sb' ∧ holds n (fitted n text piece) sb'.
Proof.
  intros Hh Hd. pose proof Hh as (Hn & Hs & rest & Hb). unfold AppendFormat, print_at, buffer_size. rewrite Hn, Hs.
  assert (length text < n)%nat as Hlt by (rewrite <- Hn, Hb; len_solve).
  rewrite (proj2 (Z.leb_gt _ _)) by lia. set (k := (length piece `min` (n - length text - 1))%nat).
  assert (take (Z.to_nat (Z.of_nat n - Z.of_nat (length text) - 1)) piece = take k piece) as ->.
  { subst k. destruct (Nat.min_spec (length piece) (n - length text - 1)) as [[? ->]|[? ->]];
      [rewrite firstn_all; apply take_ge; lia|f_equal; lia]. }
  replace (Z.of_nat (length piece) `min` (Z.of_nat n - 1 - Z.of_nat (length text))) with (Z.of_nat k) by lia.
  assert (length (take k piece ++ [0%Z]) ≤ length (0%Z :: rest))%nat as Hk by (rewrite Hb, length_app in Hn; len_solve).
  rewrite Hb, <- (take_drop (length (take k piece ++ [0])) (0 :: rest)).
  rewrite mwrite_app by (done || (rewrite length_take; lia)). cbn [of_mem mbind_res].
  assert (dcheck (Z.of_nat (length piece) =? Z.of_nat k) = Val ()) as ->.
  { unfold dcheck. destruct RTC_DCHECK_IS_ON; [|done]. specialize (Hd eq_refl). by rewrite (proj2 (Z.eqb_eq _ _)) by lia. }
  cbn [mbind_res].
  match goal with |- context [ssb_IsConsistent ?sb'] => assert (holds n (fitted n text piece) sb') as Hh' end.
  { unfold fitted. rewrite take_fits by done. split_and!; cbn [buffer_ size_].
    - rewrite Hb, length_app in Hn. rewrite !length_app, length_drop. rewrite length_app in Hk. cbn [length] in *. lia.
    - len_solve.
    - eexists. by rewrite <- !app_assoc. }
  eexists. split; [by apply (holds_finish _ _ _ Hh')|done].
Qed.

Lemma too_long n text piece post sb :
  RTC_DCHECK_IS_ON = true → holds n text sb → (n ≤ length text + length piece)%nat →
  Append (piece ++ post) (Z.of_nat (length piece)) sb = Aborted ∧ AppendFormat piece sb = Aborted.
Proof.
  intros Hd Hh Hl. pose proof Hh as (Hn & Hs & rest & Hb).
  assert (length text < n)%nat as Hlt by (rewrite <- Hn, Hb; len_solve). split.
  - unfold Append, dcheck, buffer_size. rewrite Hd, Hs, Hn. by rewrite (proj2 (Z.ltb_ge _ _)) by lia.
  - unfold AppendFormat, print_at, buffer_size. rewrite Hn, Hs. rewrite (proj2 (Z.leb_gt _ _)) by lia.
    set (w := take _ piece ++ [0]).
    assert (∃ b, mwrite (buffer_ sb) (Z.of_nat (length text)) w = Some b) as (b & ->).
    { unfold mwrite. rewrite (proj2 (Z.leb_le _ _)), (proj2 (Z.leb_le _ _)); [by eexists|subst w; len_solve|lia]. }
    cbn [of_mem mbind_res]. unfold dcheck. rewrite Hd. by rewrite (proj2 (Z.eqb_neq _ _)) by lia.
Qed.

(** ** Building *)

(** What is put into the builder with one [<<], and its text. *)
Inductive piece := PString (s : list Z) | PCstr (s : list Z) | PChar (ch : Z) | PInt (i : Z).

Definition piece_text (p : piece) : list Z :=
  match p with PString s => s | PCstr s => s | PChar ch => [ch] | PInt i => decimal i end.

Definition put_piece (p : piece) (sb : SimpleStringBuilder) : res SimpleStringBuilder :=
  match p with PString s => put_string s sb | PCstr s => put_cstr (s ++ [0]) sb | PChar ch => put_char ch sb | PInt i => put_int i sb end.

(** A C string has no NUL inside. *)
Definition piece_ok (p : piece) : Prop := match p with PCstr s => Forall (λ c, c ≠ 0) s | _ => True end.

Fixpoint put_pieces (ps : list piece) (sb : SimpleStringBuilder) : res SimpleStringBuilder :=
  match ps with [] => Val sb | p :: ps => let* sb := put_piece p sb in put_pieces ps sb end.

Lemma put_piece_spec n text p sb : piece_ok p → holds n text sb →
  ((RTC_DCHECK_IS_ON = true → (length text + length (piece_text p) < n)%nat) →
     ∃ sb', put_piece p sb = Val sb' ∧ holds n (fitted n text (piece_text p)) sb') ∧
  (RTC_DCHECK_IS_ON = true → (n ≤ length text + length (piece_text p))%nat → put_piece p sb = Aborted).
Proof.
  intros Hp Hh. destruct p as [s|s|ch|i]; cbn [put_piece piece_text] in *; unfold put_string, put_cstr, put_char, put_int.
  - pose proof (Append_spec n text s [] sb Hh) as A. pose proof (too_long n text s [] sb) as B. rewrite app_nil_r in A, B.
    split; [exact A|intros; by apply B].
  - rewrite strlen_app by done. cbn [of_mem mbind_res].
    split; [by apply (Append_spec n text s [0])|intros; by apply (too_long n text s [0] sb)].
  - split; [by apply (Append_spec n text [ch] [])|intros; by apply (too_long n text [ch] [] sb)].
  - split; [by apply AppendFormat_spec|intros; by apply (too_long n text (decimal i) [] sb)].
Qed.

Lemma fitted_step n (text piece rest : list Z) : take (n - 1) (fitted n text piece ++ rest) = take (n - 1) (text ++ piece ++ rest).
Proof.
  unfold fitted. rewrite app_assoc. generalize (text ++ piece). intros l. generalize (n - 1)%nat. clear. intros m.
  revert m. induction l as [|x l IH]; intros [|m]; cbn; try done. by rewrite IH.
Qed.

Lemma holds_lt n text sb : holds n text sb → (length text < n)%nat.
Proof. intros (<- & _ & rest & ->). len_solve. Qed.

Lemma put_pieces_spec n ps : ∀ text sb, Forall piece_ok ps → holds n text sb →
  let all := text ++ mjoin (piece_text <$> ps) in
  if RTC_DCHECK_IS_ON && (n <=? length all)%nat then put_pieces ps sb = Aborted
  else ∃ sb', put_pieces ps sb = Val sb' ∧ holds n (take (n - 1) all) sb'.
Proof.
  induction ps as [|p ps IH]; intros text sb Hps Hh; pose proof (holds_lt n text sb Hh) as Hlt.
  - cbn zeta. rewrite fmap_nil, app_nil_r. rewrite (proj2 (Nat.leb_gt _ _)), andb_false_r by lia.
    exists sb. rewrite take_ge by lia. done.
  - apply Forall_cons in Hps as [Hp Hps]. destruct (put_piece_spec n text p sb Hp Hh) as [Hgood Hbad]. cbn zeta. cbn [put_pieces].
    change (mjoin (piece_text <$> p :: ps)) with (piece_text p ++ mjoin (piece_text <$> ps)).
    destruct (decide (RTC_DCHECK_IS_ON = true ∧ n ≤ length text + length (piece_text p)))%nat as [[Hd Hle]|Hok].
    + rewrite (Hbad Hd Hle), Hd. by rewrite (proj2 (Nat.leb_le _ _)) by len_solve.
    + destruct Hgood as (sb' & -> & Hh'); [intros Hd; destruct (decide (n ≤ length text + length (piece_text p)))%nat; [tauto|lia]|].
      cbn [mbind_res]. specialize (IH _ _ Hps Hh'). cbn zeta in IH. rewrite fitted_step in IH. cbn zeta.
      destruct RTC_DCHECK_IS_ON; [|exact IH].
      replace (fitted n text (piece_text p)) with (text ++ piece_text p) in IH by (symmetry; apply take_ge; rewrite length_app; lia).
      by rewrite <- app_assoc in IH.
Qed.
End Build.

(** Whatever is put into a [SimpleStringBuilder] over a buffer that is not
    empty, the buffer then holds the concatenation cut to what fits before the
    terminator, and nothing outside it is written; a debug build stops instead
    exactly when something would be cut. *)
Theorem string_builder_truncates dchk buffer ps :
  (0 < length buffer)%nat → Forall piece_ok ps →
  let text := mjoin (piece_text <$> ps) in
  let r := let* sb := ssb_new dchk buffer in put_pieces dchk ps sb in
  if dchk && (length buffer <=? length text)%nat then r = Aborted
  else ∃ sb, r = Val sb ∧ holds (length buffer) (take (length buffer - 1) text) sb.
Proof.
  intros Hl Hps. destruct (ssb_new_holds dchk buffer Hl) as (sb & -> & Hh). cbn [mbind_res].
  exact (put_pieces_spec dchk (length buffer) ps [] sb Hps Hh).
Qed.

Example string_builder_truncates_witness :
  ∃ sb, (let* sb := ssb_new false (replicate 6 7) in put_pieces false [PString (b#"ab"); PInt (-12); PCstr (b#"xyz")] sb) = Val sb ∧
    holds 6 (b#"ab-12") sb.
Proof.
  apply (string_builder_truncates false (replicate 6 7) [PString (b#"ab"); PInt (-12); PCstr (b#"xyz")]); [cbn; lia|].
  repeat constructor; vm_compute; congruence.
Defined.

Example string_builder_demo :
  (let* sb := ssb_new true (replicate 8 7) in let* sb := put_pieces true [PString (b#"ab"); PChar 58; PInt 443] sb in
   Val (ssb_str sb, ssb_size sb)) = Val (b#"ab:443", 6).
Proof. reflexivity. Qed.

(** The dynamic builder appends what it is told to print. *)
Lemma sb_AppendFormat_spec text str : sb_AppendFormat text str = str ++ text.
Proof.
  unfold sb_AppendFormat. destruct (Z.ltb_spec 0 (Z.of_nat (length text))).
  - rewrite take_app_length, Nat2Z.id, firstn_all. done.
  - destruct text; [by rewrite app_nil_r|simpl in *; lia].
Qed.
