(* ===== verification/SocketAddress.v ===== *)
(** * Socket addresses (rtc_base/socket_address.h, socket_address.cc)

    An address, a port, and a host name with what is known of it; text and
    [sockaddr] forms. The theorems are that the comparison, the equality and the
    hash agree, that the [sockaddr] forms read back, and when the text does. *)

From S2P Require Import Prelude ByteIO StringEncode StringToNumber StringBuilder IpAddress.

Record SocketAddress := SA { hostname_ : list Z; ip_ : IPAddress; port_ : Z; scope_id_ : Z; literal_ : bool }.

Section Host.
Context (big_endian : bool) (RTC_DCHECK_IS_ON : bool) {inet : InetText}.

Notation host_bytes := (host_bytes big_endian).
Notation host_value := (host_value big_endian).

(** ** Construction and modification *)

Definition sa_clear : SocketAddress := SA [] ip_unspec 0 0 false.

(** [dchecked_cast<uint16_t>(port)] *)
Definition SetPort (port : Z) (a : SocketAddress) : res SocketAddress :=
  let* _ := dcheck RTC_DCHECK_IS_ON ((0 <=? port) && (port <=? 65535)) in
  Val (SA (hostname_ a) (ip_ a) (u16 port) (scope_id_ a) (literal_ a)).

Definition SetIP_host (ip_as_host_order_integer : Z) (a : SocketAddress) : SocketAddress :=
  SA [] (ip_host big_endian ip_as_host_order_integer) (port_ a) 0 false.
Definition SetIP (ip : IPAddress) (a : SocketAddress) : SocketAddress := SA [] ip (port_ a) 0 false.
Definition SetIP_name (hostname : list Z) (a : SocketAddress) : SocketAddress :=
  let '(literal, ip) := IPFromString hostname in
  let ip := if negb literal then ip_unspec else ip in
  SA hostname ip (port_ a) 0 literal.
Definition SetResolvedIP_host (ip_as_host_order_integer : Z) (a : SocketAddress) : SocketAddress :=
  SA (hostname_ a) (ip_host big_endian ip_as_host_order_integer) (port_ a) 0 (literal_ a).
Definition SetResolvedIP (ip : IPAddress) (a : SocketAddress) : SocketAddress := SA (hostname_ a) ip (port_ a) 0 (literal_ a).
Definition SetScopeID (id : Z) (a : SocketAddress) : SocketAddress := SA (hostname_ a) (ip_ a) (port_ a) id (literal_ a).

(** The constructors set every field; what was there before is not read. *)
Definition sa_of_name (hostname : list Z) (port : Z) : res SocketAddress := SetPort port (SetIP_name hostname sa_clear).
Definition sa_of_host (ip : Z) (port : Z) : res SocketAddress := SetPort port (SetIP (ip_host big_endian ip) sa_clear).
Definition sa_of_ip (ip : IPAddress) (port : Z) : res SocketAddress := SetPort port (SetIP ip sa_clear).

Definition sa_IsNil (a : SocketAddress) : bool := bool_decide (hostname_ a = []) && IPIsUnspec (ip_ a) && (0 =? port_ a).
Definition IsComplete (a : SocketAddress) : bool := negb (IPIsAny big_endian (ip_ a)) && negb (0 =? port_ a).
Definition IsAnyIP (a : SocketAddress) : bool := IPIsAny big_endian (ip_ a).
Definition IsLoopbackIP (a : SocketAddress) : bool :=
  IPIsLoopback big_endian (ip_ a) || (IPIsAny big_endian (ip_ a) && bool_decide (c_string (hostname_ a) = b#"localhost")).
Definition IsPrivateIP (a : SocketAddress) : bool := IPIsPrivate big_endian (ip_ a).
Definition IsUnresolvedIP (a : SocketAddress) : bool := IPIsUnspec (ip_ a) && negb (literal_ a) && negb (bool_decide (hostname_ a = [])).
Definition sa_ip (a : SocketAddress) : Z := v4AddressAsHostOrderInteger big_endian (ip_ a).

(** ** Comparison *)

Definition string_lt (s t : list Z) : bool := match lex_compare s t with Lt => true | _ => false end.

Definition EqualIPs (a b : SocketAddress) : bool :=
  ip_eq (ip_ a) (ip_ b) &&
  ((negb (IPIsAny big_endian (ip_ a)) && negb (IPIsUnspec (ip_ a))) || bool_decide (hostname_ a = hostname_ b)).
Definition EqualPorts (a b : SocketAddress) : bool := port_ a =? port_ b.
Definition sa_eq (a b : SocketAddress) : bool := EqualIPs a b && EqualPorts a b.

Definition sa_lt (a b : SocketAddress) : bool :=
  if ip_neq (ip_ a) (ip_ b) then ip_lt big_endian (ip_ a) (ip_ b)
  else if (IPIsAny big_endian (ip_ a) || IPIsUnspec (ip_ a)) && negb (bool_decide (hostname_ a = hostname_ b)) then
    string_lt (hostname_ a) (hostname_ b)
  else port_ a <? port_ b.

Definition Hash (a : SocketAddress) : Z :=
  let h := Z.lxor 0 (HashIP big_endian (ip_ a)) in
  Z.lxor h (Z.lor (port_ a) (Z.shiftl (port_ a) 16)).

(** ** Text *)

Definition HostAsURIString (a : SocketAddress) : list Z :=
  if negb (literal_ a) && negb (bool_decide (hostname_ a = [])) then hostname_ a
  else if family (ip_ a) =? AF_INET6 then b#"[" ++ ip_ToString (ip_ a) ++ b#"]"
  else ip_ToString (ip_ a).

Definition HostAsSensitiveURIString (a : SocketAddress) : res (list Z) :=
  if negb (literal_ a) && negb (bool_decide (hostname_ a = [])) then Val (hostname_ a)
  else
    let* s := ip_ToSensitiveString (ip_ a) in
    Val (if family (ip_ a) =? AF_INET6 then b#"[" ++ s ++ b#"]" else s).

Definition PortAsString (a : SocketAddress) : list Z := decimal (port_ a).

(** [sb << host << ":" << port()] over a buffer of 1024 characters, read as a
    C string. *)
Definition host_port (host : list Z) (port : Z) : res (list Z) :=
  let* sb := ssb_new RTC_DCHECK_IS_ON (replicate 1024 0) in
  let* sb := put_string RTC_DCHECK_IS_ON host sb in
  let* sb := put_cstr RTC_DCHECK_IS_ON (b#":" ++ [0]) sb in
  let* sb := put_int RTC_DCHECK_IS_ON port sb in
  Val (ssb_str sb).

Definition sa_ToString (a : SocketAddress) : res (list Z) := host_port (HostAsURIString a) (port_ a).
Definition sa_ToSensitiveString (a : SocketAddress) : res (list Z) :=
  let* h := HostAsSensitiveURIString a in host_port h (port_ a).
Definition ToResolvedSensitiveString (a : SocketAddress) : res (list Z) :=
  if IsUnresolvedIP a then Val [] else let* h := ip_ToSensitiveString (ip_ a) in host_port h (port_ a).

(** [strtoul(s.c_str(), nullptr, 10)] as the [int] argument of [SetPort]. *)
Definition port_of (s : list Z) : Z := let '(v, _, _) := strtoull (c_string s) 10 in s32 v.

(** [str.find(c, pos)] *)
Definition find_from (s : list Z) (c pos : Z) : option Z := (λ n, pos + n) <$> find_char (drop (Z.to_nat pos) s) c.

(** [str.at(0)] throws on an empty string. *)
Definition sa_FromString (str : list Z) (a : SocketAddress) : res (bool * SocketAddress) :=
  match str with
  | [] => Aborted
  | c :: _ =>
      if c =? 91 then
        match rfind str 93 with
        | Some closebracket =>
            match find_from str 58 closebracket with
            | Some colon =>
                if closebracket <? colon then
                  let* a := SetPort (port_of (drop (Z.to_nat (colon + 1)) str)) a in
                  Val (true, SetIP_name (substr str 1 (closebracket - 1)) a)
                else Val (false, a)
            | None => Val (false, a)
            end
        | None => Val (true, a)
        end
      else
        match find_char str 58 with
        | None => Val (false, a)
        | Some pos =>
            let* a := SetPort (port_of (drop (Z.to_nat (pos + 1)) str)) a in
            Val (true, SetIP_name (substr str 0 pos) a)
        end
  end.

(** ** [sockaddr] forms *)

(** The structures in memory, as Linux lays them out: the family in two bytes
    of the host, the port in two of the network, an IPv4 address at 4, an IPv6
    address at 8 and its scope at 24. *)
Definition sizeof_sockaddr_in : Z := 16.
Definition sizeof_sockaddr_in6 : Z := 28.
Definition sizeof_sockaddr_storage : Z := 128.

Definition poke (off : Z) (bs : list Z) (m : list Z) : res (list Z) := of_mem (mwrite m off bs).
Definition peek_bytes (m : list Z) (off n : Z) : res (list Z) := of_mem (mread m off n).
Definition peek_value (m : list Z) (off n : Z) : res Z := let* b := peek_bytes m off n in Val (host_value b).

Definition ToSockAddr (a : SocketAddress) : res (list Z) :=
  let saddr := replicate (Z.to_nat sizeof_sockaddr_in) 0 in
  if negb (family (ip_ a) =? AF_INET) then poke 0 (host_bytes 2 AF_UNSPEC) saddr
  else
    let* saddr := poke 0 (host_bytes 2 AF_INET) saddr in
    let* saddr := poke 2 (host_bytes 2 (HostToNetwork16 big_endian (port_ a))) saddr in
    if IPIsAny big_endian (ip_ a) then poke 4 (host_bytes 4 INADDR_ANY) saddr
    else poke 4 (ipv4_address (ip_ a)) saddr.

Definition FromSockAddr (saddr : list Z) (a : SocketAddress) : res (bool * SocketAddress) :=
  let* sin_family := peek_value saddr 0 2 in
  if negb (sin_family =? AF_INET) then Val (false, a)
  else
    let* s_addr := peek_value saddr 4 4 in
    let a := SetIP_host (NetworkToHost32 big_endian s_addr) a in
    let* sin_port := peek_value saddr 2 2 in
    let* a := SetPort (NetworkToHost16 big_endian sin_port) a in
    Val (true, SA (hostname_ a) (ip_ a) (port_ a) (scope_id_ a) false).

(** The storage written and the size returned. *)
Definition ToSockAddrStorageHelper (ip : IPAddress) (port scope_id : Z) : res (Z * list Z) :=
  let addr := replicate (Z.to_nat sizeof_sockaddr_storage) 0 in
  let ss_family := u16 (family ip) in
  let* addr := poke 0 (host_bytes 2 ss_family) addr in
  if ss_family =? AF_INET6 then
    let* addr := poke 8 (ipv6_address ip) addr in
    let* addr := poke 2 (host_bytes 2 (HostToNetwork16 big_endian port)) addr in
    let* addr := poke 24 (host_bytes 4 (u32 scope_id)) addr in
    Val (sizeof_sockaddr_in6, addr)
  else if ss_family =? AF_INET then
    let* addr := poke 4 (ipv4_address ip) addr in
    let* addr := poke 2 (host_bytes 2 (HostToNetwork16 big_endian port)) addr in
    Val (sizeof_sockaddr_in, addr)
  else Val (0, addr).

Definition ToDualStackSockAddrStorage (a : SocketAddress) : res (Z * list Z) :=
  ToSockAddrStorageHelper (AsIPv6Address (ip_ a)) (port_ a) (scope_id_ a).
Definition ToSockAddrStorage (a : SocketAddress) : res (Z * list Z) :=
  ToSockAddrStorageHelper (ip_ a) (port_ a) (scope_id_ a).

Definition SocketAddressFromSockAddrStorage (addr : list Z) : res (option SocketAddress) :=
  let* ss_family := peek_value addr 0 2 in
  if ss_family =? AF_INET then
    let* b := peek_bytes addr 4 4 in
    let* port := peek_value addr 2 2 in
    let* out := sa_of_ip (ip_v4 b) (NetworkToHost16 big_endian port) in
    Val (Some out)
  else if ss_family =? AF_INET6 then
    let* b := peek_bytes addr 8 16 in
    let* port := peek_value addr 2 2 in
    let* out := sa_of_ip (ip_v6 b) (NetworkToHost16 big_endian port) in
    let* scope := peek_value addr 24 4 in
    Val (Some (SetScopeID (s32 scope) out))
  else Val None.

Definition EmptySocketAddressWithFamily (family : Z) : res SocketAddress :=
  if family =? AF_INET then sa_of_ip (ip_host big_endian INADDR_ANY) 0
  else if family =? AF_INET6 then sa_of_ip (ip_v6 in6addr_any) 0
  else Val sa_clear.

End Host.

(** ** The order *)

Definition valid_sa (a : SocketAddress) : Prop := valid_ip (ip_ a) ∧ bytes_ok (hostname_ a) ∧ 0 ≤ port_ a < 65536.

(** What an address is compared by: family, number, host name where it counts,
    port. *)
Definition sa_key (big_endian : bool) (a : SocketAddress) : list Z :=
  rank (family_ (ip_ a)) :: number (ip_ a) ::
  ((λ c, c + 1) <$> (if IPIsAny big_endian (ip_ a) || IPIsUnspec (ip_ a) then hostname_ a else [])) ++ [0; port_ a].

Lemma lex_compare_terminated h h' p p' : bytes_ok h → bytes_ok h' →
  lex_compare (((λ c, c + 1) <$> h) ++ [0; p]) (((λ c, c + 1) <$> h') ++ [0; p']) =
  match lex_compare h h' with Eq => p ?= p' | c => c end.
Proof.
  intros Hh. revert h'. induction Hh as [|c h Hc Hh IH]; intros [|c' h'] Hh'; cbn [lex_compare fmap list_fmap app].
  - rewrite Z.compare_refl. by destruct (p ?= p').
  - apply Forall_cons in Hh' as [Hc' _]. unfold byte_ok in Hc'. by rewrite (proj2 (Z.compare_lt_iff 0 (c' + 1))) by lia.
  - unfold byte_ok in Hc. by rewrite (proj2 (Z.compare_gt_iff (c + 1) 0)) by lia.
  - apply Forall_cons in Hh' as [Hc' Hh']. replace (c + 1 ?= c' + 1) with (c ?= c') by (destruct (Z.compare_spec c c'), (Z.compare_spec (c + 1) (c' + 1)); lia || done).
    destruct (c ?= c'); [by apply IH|done..].
Qed.

(** Same address, comparison of what is left. *)
Lemma sa_key_same_ip big_endian a b : valid_sa a → valid_sa b → ip_ a = ip_ b →
  lex_compare (sa_key big_endian a) (sa_key big_endian b) =
  match lex_compare (if IPIsAny big_endian (ip_ a) || IPIsUnspec (ip_ a) then hostname_ a else [])
                    (if IPIsAny big_endian (ip_ a) || IPIsUnspec (ip_ a) then hostname_ b else []) with
  | Eq => port_ a ?= port_ b | c => c end.
Proof.
  intros (_ & Ha & _) (_ & Hb & _) E. unfold sa_key. rewrite <- E. cbn [lex_compare]. rewrite !Z.compare_refl.
  apply lex_compare_terminated; (destruct (_ || _); [done|constructor]).
Qed.

Lemma rank_inj f g : rank f = rank g → (f = AF_UNSPEC ∨ f = AF_INET ∨ f = AF_INET6) → (g = AF_UNSPEC ∨ g = AF_INET ∨ g = AF_INET6) → f = g.
Proof. intros H [->|[->| ->]] [->|[->| ->]]; done. Qed.

Lemma valid_family ip : valid_ip ip → family_ ip = AF_UNSPEC ∨ family_ ip = AF_INET ∨ family_ ip = AF_INET6.
Proof. intros (_ & _ & [[? _]|[[? _]|?]]); auto. Qed.

(** Different addresses, comparison of the addresses. *)
Lemma sa_key_other_ip big_endian a b : valid_sa a → valid_sa b → ip_ a ≠ ip_ b →
  (lex_compare (sa_key big_endian a) (sa_key big_endian b) = Lt ↔ ip_lt big_endian (ip_ a) (ip_ b) = true) ∧
  lex_compare (sa_key big_endian a) (sa_key big_endian b) ≠ Eq.
Proof.
  intros (Ha & _) (Hb & _) Hne. rewrite ip_lt_spec by done. unfold sa_key. cbn [lex_compare].
  assert (rank (family_ (ip_ a)) = rank (family_ (ip_ b)) → number (ip_ a) ≠ number (ip_ b) ∧ family_ (ip_ a) = family_ (ip_ b)) as Hn.
  { intros Hr. assert (family_ (ip_ a) = family_ (ip_ b)) as Hf by (apply rank_inj; auto using valid_family).
    split; [|done]. intros Hn. by apply Hne, number_inj. }
  destruct (Z.compare_spec (rank (family_ (ip_ a))) (rank (family_ (ip_ b)))) as [Er|Hr|Hr].
  - destruct (Hn Er) as [Hnum Hf]. destruct (Z.compare_spec (number (ip_ a)) (number (ip_ b))); [lia|..]; split; try done; split; intros; try done; try lia.
  - split; [|done]. split; [auto|done].
  - split; [|done]. split; [done|]. intros [?|[Hf ?]]; [lia|]. rewrite Hf in Hr. lia.
Qed.

Lemma sa_eq_spec big_endian a b : valid_sa a → valid_sa b →
  sa_eq big_endian a b = true ↔ sa_key big_endian a = sa_key big_endian b.
Proof.
  intros Ha Hb. pose proof Ha as (Va & _). pose proof Hb as (Vb & _).
  rewrite <- lex_compare_eq. unfold sa_eq, EqualIPs, EqualPorts. rewrite !andb_true_iff, ip_eq_spec, Z.eqb_eq by done.
  destruct (decide (ip_ a = ip_ b)) as [E|Hne].
  - rewrite sa_key_same_ip by done. rewrite orb_true_iff, bool_decide_eq_true, <- negb_orb, negb_true_iff.
    destruct (IPIsAny big_endian (ip_ a) || IPIsUnspec (ip_ a)).
    + rewrite <- (lex_compare_eq (hostname_ a)).
      destruct (lex_compare (hostname_ a) (hostname_ b)); [rewrite Z.compare_eq_iff; tauto|split; [|done]..]; by intros [[_ [?|?]] _].
    + cbn [lex_compare]. rewrite Z.compare_eq_iff. tauto.
  - destruct (sa_key_other_ip big_endian a b Ha Hb Hne) as [_ ?]. tauto.
Qed.

Lemma sa_lt_spec big_endian a b : valid_sa a → valid_sa b →
  sa_lt big_endian a b = true ↔ lex_compare (sa_key big_endian a) (sa_key big_endian b) = Lt.
Proof.
  intros Ha Hb. pose proof Ha as (Va & _). pose proof Hb as (Vb & _).
  unfold sa_lt, ip_neq. destruct (decide (ip_ a = ip_ b)) as [E|Hne].
  - rewrite (proj2 (ip_eq_spec _ _ Va Vb)) by done. cbn [negb]. rewrite sa_key_same_ip by done.
    destruct (IPIsAny big_endian (ip_ a) || IPIsUnspec (ip_ a)); cbn [andb lex_compare]; [|by rewrite Z.ltb_lt, Z.compare_lt_iff].
    unfold string_lt. destruct (decide (hostname_ a = hostname_ b)) as [Eh|Hh].
    + rewrite bool_decide_true by done. cbn [negb]. rewrite (proj2 (lex_compare_eq _ _) Eh). by rewrite Z.ltb_lt, Z.compare_lt_iff.
    + rewrite bool_decide_false by done. cbn [negb]. destruct (lex_compare _ _) eqn:El; [|done..]. by apply lex_compare_eq in El.
  - assert (ip_eq (ip_ a) (ip_ b) = false) as -> by (apply not_true_is_false; by rewrite ip_eq_spec).
    cbn [negb]. symmetry. by apply sa_key_other_ip.
Qed.

(** The comparison of socket addresses is the lexicographic order by
    family, number, host name (for addresses that are unspecified or any) and
    port; two addresses are equal exactly when they agree in these; and equal
    addresses have the same hash. *)
Theorem socket_address_order big_endian a b :
  valid_sa a → valid_sa b →
  (sa_lt big_endian a b = true ↔ lex_compare (sa_key big_endian a) (sa_key big_endian b) = Lt) ∧
  (sa_eq big_endian a b = true ↔ sa_key big_endian a = sa_key big_endian b) ∧
  (sa_eq big_endian a b = true → Hash big_endian a = Hash big_endian b).
Proof.
  intros Ha Hb. split_and!; [by apply sa_lt_spec|by apply sa_eq_spec|].
  intros E. unfold sa_eq, EqualIPs, EqualPorts in E.
  rewrite !andb_true_iff, ip_eq_spec, Z.eqb_eq in E by (apply Ha || apply Hb).
  destruct E as [[E _] Ep]. unfold Hash. by rewrite E, Ep.
Qed.

Example socket_address_order_witness :
  let a := SA (b#"b.net") ip_unspec 80 0 false in let b := SA (b#"a.net") ip_unspec 443 0 false in
  (sa_lt false a b = true ↔ lex_compare (sa_key false a) (sa_key false b) = Lt) ∧
  (sa_eq false a b = true ↔ sa_key false a = sa_key false b) ∧ (sa_eq false a b = true → Hash false a = Hash false b).
Proof.
  apply (socket_address_order false (SA (b#"b.net") ip_unspec 80 0 false) (SA (b#"a.net") ip_unspec 443 0 false));
    (split_and!; [split_and!; [reflexivity|vm_compute; repeat constructor; congruence|left; split; reflexivity]
                 |vm_compute; repeat constructor; congruence|vm_compute; congruence|vm_compute; reflexivity]).
Defined.

(** ** The [sockaddr] forms read back *)

Section Storage.
Context (big_endian : bool) (dchk : bool).
Notation host_bytes := (host_bytes big_endian).
Notation host_value := (host_value big_endian).

Lemma host_value_bytes n v : 0 ≤ v < 2 ^ (8 * Z.of_nat n) → host_value (host_bytes n v) = v.
Proof.
  intros H. unfold ByteIO.host_value, ByteIO.host_bytes. destruct big_endian; rewrite ?be_decode_encode, ?le_decode_encode; by apply Z.mod_small.
Qed.

Lemma length_host_bytes n v : length (host_bytes n v) = n.
Proof. unfold ByteIO.host_bytes. destruct big_endian; [apply length_be_encode|apply length_le_encode]. Qed.

(** The port: two bytes of the network. *)
Lemma port_bytes port : 0 ≤ port < 65536 → ∃ p, host_bytes 2 (HostToNetwork16 big_endian port) = p ∧ length p = 2%nat ∧
  NetworkToHost16 big_endian (host_value p) = port.
Proof.
  intros H. eexists. split; [done|]. split; [apply length_host_bytes|].
  unfold NetworkToHost16. rewrite (betoh_value big_endian 2).
  - unfold HostToNetwork16. rewrite htobe_bytes, be_decode_encode. by apply Z.mod_small.
  - unfold HostToNetwork16. rewrite htobe_bytes. apply be_encode_bytes.
  - apply length_host_bytes.
Qed.

Lemma sa_of_ip_spec ip port : 0 ≤ port < 65536 → sa_of_ip dchk ip port = Val (SA [] ip port 0 false).
Proof.
  intros H. unfold sa_of_ip, SetPort, dcheck. cbn [hostname_ ip_ SetIP scope_id_ literal_].
  rewrite (proj2 (Z.leb_le _ _)), (proj2 (Z.leb_le _ _)) by lia.
  unfold uwrap. rewrite Z.mod_small by (change (2 ^ 16) with 65536; lia). by destruct dchk.
Qed.

Lemma poke_at pre old post src off : off = Z.of_nat (length pre) → length old = length src →
  poke off src (pre ++ old ++ post) = Val (pre ++ src ++ post).
Proof. intros. unfold poke. by rewrite mwrite_app. Qed.

Lemma peek_at pre mid post off n : off = Z.of_nat (length pre) → n = Z.of_nat (length mid) →
  peek_bytes (pre ++ mid ++ post) off n = Val mid.
Proof. intros. unfold peek_bytes. by rewrite mread_app. Qed.

Lemma peek_value_at pre mid post off n : off = Z.of_nat (length pre) → n = Z.of_nat (length mid) →
  peek_value big_endian (pre ++ mid ++ post) off n = Val (host_value mid).
Proof. intros. unfold peek_value. by rewrite peek_at. Qed.

(** The bytes of a storage, and what is read from them. *)
Lemma storage_v4 b port scope : length b = 4%nat → 0 ≤ port < 65536 →
  ∃ m, ToSockAddrStorageHelper big_endian (ip_v4 b) port scope = Val (sizeof_sockaddr_in, m) ∧
    SocketAddressFromSockAddrStorage big_endian dchk m = Val (Some (SA [] (ip_v4 b) port 0 false)).
Proof.
  intros Hb Hp. destruct (port_bytes port Hp) as (p & Ep & Lp & Np).
  unfold ToSockAddrStorageHelper. rewrite Ep. change (u16 (family (ip_v4 b))) with AF_INET.
  unfold ipv4_address. cbn [ip_v4 u_]. rewrite take_app_length' by lia.
  assert (host_value (host_bytes 2 AF_INET) = AF_INET) as Ef by (by apply host_value_bytes).
  pose proof (length_host_bytes 2 AF_INET) as Lf. set (f := host_bytes 2 AF_INET) in *. clearbody f.
  exists (f ++ p ++ b ++ replicate 120 0). split.
  - change (replicate (Z.to_nat sizeof_sockaddr_storage) 0) with ([] ++ replicate 2 0 ++ replicate 126 0).
    rewrite (poke_at [] (replicate 2 0) (replicate 126 0) f 0) by done. cbn [mbind_res app].
    change (AF_INET =? AF_INET6) with false. change (AF_INET =? AF_INET) with true. cbn match.
    change (replicate 126 0) with (replicate 2 0 ++ replicate 4 0 ++ replicate 120 0).
    rewrite app_assoc, (poke_at _ (replicate 4 0) _ b 4) by (done || len_solve). cbn [mbind_res]. rewrite <- app_assoc.
    rewrite (poke_at f (replicate 2 0) _ p 2) by (done || len_solve). done.
  - unfold SocketAddressFromSockAddrStorage.
    rewrite (peek_value_at [] f (p ++ b ++ replicate 120 0) 0 2 : _ → _ → peek_value _ (f ++ _) 0 2 = _) by (done || len_solve). cbn [mbind_res]. rewrite Ef.
    change (AF_INET =? AF_INET) with true. cbn match.
    rewrite (app_assoc f p), (peek_at (f ++ p) b) by len_solve. rewrite <- app_assoc. cbn [mbind_res].
    rewrite (peek_value_at f p _ 2 2) by (done || len_solve). cbn [mbind_res]. rewrite Np, sa_of_ip_spec by done. done.
Qed.

Lemma storage_v6 b port scope : length b = 16%nat → 0 ≤ port < 65536 → INT_MIN ≤ scope ≤ INT_MAX →
  ∃ m, ToSockAddrStorageHelper big_endian (ip_v6 b) port scope = Val (sizeof_sockaddr_in6, m) ∧
    SocketAddressFromSockAddrStorage big_endian dchk m = Val (Some (SA [] (ip_v6 b) port scope false)).
Proof.
  intros Hb Hp Hsc. destruct (port_bytes port Hp) as (p & Ep & Lp & Np).
  unfold ToSockAddrStorageHelper. rewrite Ep. change (u16 (family (ip_v6 b))) with AF_INET6.
  unfold ipv6_address. cbn [ip_v6 u_].
  assert (host_value (host_bytes 2 AF_INET6) = AF_INET6) as Ef by (by apply host_value_bytes).
  assert (host_value (host_bytes 4 (u32 scope)) = u32 scope) as Es by (apply host_value_bytes, uwrap_range; lia).
  pose proof (length_host_bytes 2 AF_INET6) as Lf. set (f := host_bytes 2 AF_INET6) in *. clearbody f.
  pose proof (length_host_bytes 4 (u32 scope)) as Ls. set (sc := host_bytes 4 (u32 scope)) in *. clearbody sc.
  exists (f ++ p ++ replicate 4 0 ++ b ++ sc ++ replicate 100 0). split.
  - change (replicate (Z.to_nat sizeof_sockaddr_storage) 0) with ([] ++ replicate 2 0 ++ replicate 126 0).
    rewrite (poke_at [] (replicate 2 0) (replicate 126 0) f 0) by done. cbn [mbind_res app].
    change (AF_INET6 =? AF_INET6) with true. cbn match.
    change (replicate 126 0) with ((replicate 2 0 ++ replicate 4 0) ++ replicate 16 0 ++ replicate 4 0 ++ replicate 100 0).
    rewrite app_assoc, (poke_at _ (replicate 16 0) _ b 8) by (done || len_solve). cbn [mbind_res]. rewrite <- !app_assoc.
    rewrite (poke_at f (replicate 2 0) _ p 2) by (done || len_solve). cbn [mbind_res].
    rewrite !app_assoc, <- (app_assoc _ (replicate 4 0) (replicate 100 0)).
    rewrite (poke_at _ (replicate 4 0) _ sc 24) by (done || len_solve). cbn [mbind_res]. by rewrite <- !app_assoc.
  - unfold SocketAddressFromSockAddrStorage.
    rewrite (peek_value_at [] f (p ++ replicate 4 0 ++ b ++ sc ++ replicate 100 0) 0 2 : _ → _ → peek_value _ (f ++ _) 0 2 = _) by (done || len_solve). cbn [mbind_res]. rewrite Ef.
    change (AF_INET6 =? AF_INET) with false. change (AF_INET6 =? AF_INET6) with true. cbn match.
    assert (f ++ p ++ replicate 4 0 ++ b ++ sc ++ replicate 100 0 = (f ++ p ++ replicate 4 0) ++ b ++ sc ++ replicate 100 0) as E1
      by by rewrite <- !app_assoc.
    assert (f ++ p ++ replicate 4 0 ++ b ++ sc ++ replicate 100 0 = (f ++ p ++ replicate 4 0 ++ b) ++ sc ++ replicate 100 0) as E2
      by by rewrite <- !app_assoc.
    rewrite E1 at 1. rewrite (peek_at (f ++ p ++ replicate 4 0) b) by len_solve. cbn [mbind_res].
    rewrite (peek_value_at f p _ 2 2) by (done || len_solve). cbn [mbind_res]. rewrite Np, sa_of_ip_spec by done. cbn [mbind_res].
    rewrite E2, (peek_value_at (f ++ p ++ replicate 4 0 ++ b) sc) by len_solve. cbn [mbind_res]. rewrite Es. unfold SetScopeID. cbn [hostname_ ip_ port_ literal_].
    replace (s32 (u32 scope)) with scope; [done|]. symmetry. unfold swrap, uwrap, INT_MIN, INT_MAX in *.
    change (2 ^ (32 - 1)) with 2147483648. change (2 ^ 32) with 4294967296. div_solve.
Qed.

(** An address written to a [sockaddr_storage] is read back with its port,
    and its scope if it is an IPv6 address; the dual-stack form reads back as
    the IPv6 address that normalizes to it; an unspecified address writes
    nothing that is read. *)
Theorem sockaddr_storage_roundtrip a :
  valid_sa a → INT_MIN ≤ scope_id_ a ≤ INT_MAX →
  (∃ n m, ToSockAddrStorage big_endian a = Val (n, m) ∧
     SocketAddressFromSockAddrStorage big_endian dchk m =
       Val (if family_ (ip_ a) =? AF_UNSPEC then None
            else Some (SA [] (ip_ a) (port_ a) (if family_ (ip_ a) =? AF_INET6 then scope_id_ a else 0) false))) ∧
  (family_ (ip_ a) ≠ AF_UNSPEC → ∃ m b,
     ToDualStackSockAddrStorage big_endian a = Val (sizeof_sockaddr_in6, m) ∧
     SocketAddressFromSockAddrStorage big_endian dchk m = Val (Some b) ∧
     family_ (ip_ b) = AF_INET6 ∧ port_ b = port_ a ∧ Normalized (ip_ b) = Normalized (ip_ a)).
Proof.
  intros (Hv & _ & Hp) Hsc. unfold ToSockAddrStorage, ToDualStackSockAddrStorage.
  destruct (valid_family _ Hv) as [Hf|[Hf|Hf]].
  - split; [|done]. rewrite Hf. change (AF_UNSPEC =? AF_UNSPEC) with true. cbn match. unfold ToSockAddrStorageHelper, family. rewrite Hf.
    do 2 eexists. split; [by destruct big_endian|by destruct big_endian].
  - destruct (v4_inv _ Hv Hf) as (b & E & Hl & Hb). rewrite E. split.
    + destruct (storage_v4 b (port_ a) (scope_id_ a) Hl Hp) as (m & E1 & E2). exists sizeof_sockaddr_in, m. by rewrite E1, E2.
    + intros _. assert (AsIPv6Address (ip_v4 b) = ip_v6 (take 12 kV4MappedPrefix ++ b)) as ->.
      { unfold AsIPv6Address. cbn [ip_v4 family_ u_]. by rewrite take_app_length' by lia. }
      destruct (storage_v6 (take 12 kV4MappedPrefix ++ b) (port_ a) (scope_id_ a)) as (m & E1 & E2); [len_solve|done..|].
      exists m. eexists. split_and!; [exact E1|exact E2|done|done|]. cbn [ip_].
      rewrite <- (mapped_normalized b Hl Hb). unfold AsIPv6Address. cbn [ip_v4 family_ u_]. by rewrite take_app_length' by lia.
  - destruct (v6_inv _ Hv Hf) as (b & E & Hl & Hb). rewrite E.
    destruct (storage_v6 b (port_ a) (scope_id_ a) Hl Hp Hsc) as (m & E1 & E2). split.
    + exists sizeof_sockaddr_in6, m. by rewrite E1, E2.
    + intros _. exists m. eexists. split_and!; [exact E1|exact E2|done..].
Qed.
End Storage.

Example sockaddr_storage_roundtrip_witness :
  let a := SA [] (ip_v4 [192; 168; 1; 9]) 5060 0 false in
  (∃ n m, ToSockAddrStorage false a = Val (n, m) ∧ SocketAddressFromSockAddrStorage false true m = Val (Some a)) ∧
  (2 ≠ AF_UNSPEC → ∃ m b, ToDualStackSockAddrStorage false a = Val (sizeof_sockaddr_in6, m) ∧
     SocketAddressFromSockAddrStorage false true m = Val (Some b) ∧ family_ (ip_ b) = AF_INET6 ∧ port_ b = 5060 ∧
     Normalized (ip_ b) = Normalized (ip_ a)).
Proof.
  apply (sockaddr_storage_roundtrip false true (SA [] (ip_v4 [192; 168; 1; 9]) 5060 0 false)); [|vm_compute; split; congruence].
  split_and!; [apply valid_v4; [reflexivity|repeat constructor; lia]|constructor|cbn; lia|cbn; lia].
Defined.

(** A mapped address is written as it is, with the family of IPv6. *)
Example mapped_address_stays_v6 :
  match ToSockAddrStorage false (SA [] (AsIPv6Address (ip_v4 [1; 2; 3; 4])) 80 0 false) with
  | Val (n, m) => n = sizeof_sockaddr_in6 ∧ take 2 m = [10; 0]
  | _ => False
  end.
Proof. vm_compute. done. Qed.

(** ** Text reads back *)

Lemma decimal_port port : 0 ≤ port < 65536 → all_digits (decimal port) ∧ port_of (decimal port) = port.
Proof.
  intros H. destruct (decimal_spec port ltac:(lia)) as (Hr & Hl & H0).
  assert (all_digits (decimal port)) as Hd.
  { unfold decimal. rewrite (proj2 (Z.ltb_ge _ _)) by lia. apply (decimal_digits_spec 20 port ltac:(lia) ltac:(lia)). }
  split; [done|]. unfold port_of. rewrite c_string_id by done. unfold strtoull.
  destruct (reads_as_first _ _ Hr) as (c & s & E & Hc). destruct Hr as (neg & ds & Hne & Hds & E' & Ev). rewrite E in *.
  rewrite (proj2 (strto_10 c s neg (dec_value ds) Hc)) by eauto. pose proof (dec_value_nonneg ds Hds).
  unfold ULLONG_MAX, signed_value in *.
  assert ((if neg then - dec_value ds else dec_value ds) = port) as -> by done.
  rewrite (proj2 (Z.ltb_ge _ _)) by (destruct neg; lia). rewrite u64_small by lia. apply s32_small. unfold INT_MIN, INT_MAX. lia.
Qed.

Section Text.
Context (dchk : bool).

Lemma host_port_spec host port :
  Forall (λ c, c ≠ 0) host → (length host < 1000)%nat → 0 ≤ port < 65536 →
  host_port dchk host port = Val (host ++ 58 :: decimal port).
Proof.
  intros Hh Hl Hp. destruct (decimal_spec port ltac:(lia)) as (_ & Hd & H0).
  destruct (ssb_new_holds dchk (replicate 1024 0) ltac:(rewrite length_replicate; lia)) as (sb & E & Hsb).
  unfold host_port. rewrite E. cbn [mbind_res]. rewrite length_replicate in Hsb.
  pose proof (put_pieces_spec dchk 1024 [PString host; PCstr (b#":"); PInt port] [] sb) as Hput. cbn zeta in Hput.
  replace ([] ++ mjoin (piece_text <$> [PString host; PCstr (b#":"); PInt port])) with (host ++ 58 :: decimal port) in Hput
    by (cbn; by rewrite app_nil_r).
  assert (length (host ++ 58%Z :: decimal port) < 1023)%nat as Hlen by len_solve.
  rewrite (proj2 (Nat.leb_gt _ _)), andb_false_r in Hput by lia.
  destruct Hput as (sb' & Ep & _ & _ & rest & Hb); [by repeat constructor|done|].
  rewrite take_ge in Hb by lia. cbn [put_pieces put_piece] in Ep. repeat inv_bind Ep.
  rewrite Ha. cbn [mbind_res]. rewrite Ha0. cbn [mbind_res]. rewrite Ha1. cbn [mbind_res]. injection Ep as ->.
  unfold ssb_str. rewrite Hb, c_string_app; [done|]. apply Forall_app. split; [done|by constructor].
Qed.

Lemma SetPort_spec port a : 0 ≤ port < 65536 → SetPort dchk port a = Val (SA (hostname_ a) (ip_ a) port (scope_id_ a) (literal_ a)).
Proof.
  intros H. unfold SetPort, dcheck. rewrite (proj2 (Z.leb_le _ _)), (proj2 (Z.leb_le _ _)) by lia.
  unfold uwrap. rewrite Z.mod_small by (change (2 ^ 16) with 65536; lia). by destruct dchk.
Qed.

Lemma digits_free c ds : all_digits ds → ¬ 48 ≤ c ≤ 57 → c ∉ ds.
Proof. intros Hd Hc Hin. unfold all_digits in Hd. rewrite Forall_forall in Hd. by apply Hc, Hd. Qed.

(** A host without brackets, a colon, and a port. *)
Lemma FromString_plain `{InetText} host port a :
  host ≠ [] → list.head host ≠ Some 91 → 58 ∉ host → 0 ≤ port < 65536 →
  sa_FromString dchk (host ++ 58 :: decimal port) a = Val (true, SetIP_name host (SA (hostname_ a) (ip_ a) port (scope_id_ a) (literal_ a))).
Proof.
  intros Hne Hhd Hc Hp. destruct (decimal_port port Hp) as [_ Hport]. unfold sa_FromString.
  destruct host as [|c host]; [done|]. cbn [app].
  rewrite (proj2 (Z.eqb_neq c 91)) by (cbn in Hhd; congruence).
  rewrite (app_comm_cons host (58 :: decimal port) c), find_char_app by done.
  replace (Z.to_nat (Z.of_nat (length (c :: host)) + 1)) with (length ((c :: host) ++ [58])) by len_solve.
  rewrite (cons_middle 58), (app_assoc (c :: host)), drop_app_length, Hport, SetPort_spec by done. cbn [mbind_res].
  unfold substr. rewrite Nat2Z.id, drop_0, <- app_assoc, take_app_length. done.
Qed.

(** A host in brackets. *)
Lemma FromString_brackets `{InetText} host port a :
  0 ≤ port < 65536 →
  sa_FromString dchk ((b#"[" ++ host ++ b#"]") ++ 58 :: decimal port) a =
  Val (true, SetIP_name host (SA (hostname_ a) (ip_ a) port (scope_id_ a) (literal_ a))).
Proof.
  intros Hp. destruct (decimal_port port Hp) as [Hd Hport].
  change (b#"[") with [91]. change (b#"]") with [93]. set (ds := decimal port) in *.
  replace (([91] ++ host ++ [93]) ++ 58 :: ds) with (91 :: host ++ 93 :: 58 :: ds) by (cbn; by rewrite <- app_assoc).
  unfold sa_FromString. cbn match. change (91 =? 91) with true. cbn match.
  assert (rfind (91 :: host ++ 93 :: 58 :: ds) 93 = Some (Z.of_nat (length host) + 1)) as ->.
  { unfold rfind. rewrite reverse_cons, reverse_app, !reverse_cons, <- !app_assoc. cbn [app].
    rewrite (cons_middle 58), app_assoc, find_char_app.
    - cbn. f_equal. rewrite !length_app, length_reverse. cbn [length]. lia.
    - rewrite not_elem_of_app, elem_of_reverse. split; [apply digits_free; [done|lia]|set_solver]. }
  assert (find_from (91 :: host ++ 93 :: 58 :: ds) 58 (Z.of_nat (length host) + 1) = Some (Z.of_nat (length host) + 2)) as ->.
  { unfold find_from. replace (Z.to_nat (Z.of_nat (length host) + 1)) with (length (91 :: host)) by (simpl; lia).
    rewrite app_comm_cons, drop_app_length. cbn. f_equal. lia. }
  rewrite (proj2 (Z.ltb_lt _ _)) by lia.
  replace (Z.to_nat (Z.of_nat (length host) + 2 + 1)) with (length (91 :: host ++ [93; 58])) by (cbn [length]; rewrite length_app; cbn [length]; lia).
  replace (91 :: host ++ 93 :: 58 :: ds) with ((91 :: host ++ [93; 58]) ++ ds) by (cbn; by rewrite <- app_assoc).
  rewrite drop_app_length, Hport, SetPort_spec by done. cbn [mbind_res]. do 3 f_equal.
  unfold substr. replace (Z.to_nat (_ - 1)) with (length host) by lia. change (Z.to_nat 1) with 1%nat. cbn [drop app].
  by rewrite drop_0, <- app_assoc, take_app_length.
Qed.

Lemma text_v4 `{InetText} b port a : length b = 4%nat → bytes_ok b → 0 ≤ port < 65536 → ∃ text,
  sa_ToString dchk (SA [] (ip_v4 b) port 0 false) = Val text ∧
  sa_FromString dchk text a = Val (true, SA (ip_ToString (ip_v4 b)) (ip_v4 b) port 0 true).
Proof.
  intros Hl Hb Hp.
  assert (ip_ToString (ip_v4 b) = inet_ntop AF_INET b) as Et by (unfold ip_ToString; cbn [ip_v4 family_ u_]; by rewrite take_app_length' by lia).
  pose proof (ntop_chars AF_INET b Hb) as Hch. destruct (ntop_length AF_INET b (or_introl (conj eq_refl Hl)) Hb) as [Hpos Hlen].
  unfold sa_ToString, HostAsURIString. cbn [literal_ hostname_ port_ ip_]. rewrite bool_decide_true by done. cbn [negb andb].
  change (family (ip_v4 b) =? AF_INET6) with false. cbn match. rewrite Et. set (t := inet_ntop AF_INET b) in *.
  assert (Forall (λ c, 48 ≤ c ≤ 57 ∨ c = 46) t) as Ht by (eapply Forall_impl; [exact Hch|]; cbn; intros c [?|[?|[? _]]]; auto; done).
  assert (Forall (λ c, c ≠ 0) t) as H0 by (eapply Forall_impl; [exact Ht|cbn; lia]).
  rewrite host_port_spec by (done || lia). eexists. split; [done|]. rewrite FromString_plain; [..|done].
  - unfold SetIP_name, IPFromString. rewrite c_string_id by done. unfold t. by rewrite ntop4_pton.
  - intros E0. rewrite E0 in Hpos. cbn in Hpos. lia.
  - intros E0. destruct t as [|c t']; [done|]. apply Forall_cons in Ht as [? _]. injection E0 as ->. lia.
  - intros Hin. rewrite Forall_forall in Ht. apply Ht in Hin. lia.
Qed.

Lemma text_v6 `{InetText} b port a : length b = 16%nat → bytes_ok b → 0 ≤ port < 65536 → ∃ text,
  sa_ToString dchk (SA [] (ip_v6 b) port 0 false) = Val text ∧
  sa_FromString dchk text a = Val (true, SA (ip_ToString (ip_v6 b)) (ip_v6 b) port 0 true).
Proof.
  intros Hl Hb Hp. assert (ip_ToString (ip_v6 b) = inet_ntop AF_INET6 b) as Et by done.
  pose proof (ntop_chars AF_INET6 b Hb) as Hch. destruct (ntop_length AF_INET6 b (or_intror (conj eq_refl Hl)) Hb) as [Hpos Hlen].
  unfold sa_ToString, HostAsURIString. cbn [literal_ hostname_ port_ ip_]. rewrite bool_decide_true by done. cbn [negb andb].
  change (family (ip_v6 b) =? AF_INET6) with true. cbn match. rewrite Et.
  assert (Forall (λ c, c ≠ 0) (inet_ntop AF_INET6 b)) as Ht by (eapply Forall_impl; [exact Hch|cbn; lia]).
  rewrite host_port_spec;
    [|change (b#"[") with [91]; change (b#"]") with [93]; rewrite !Forall_app, !Forall_singleton; split_and!; done
     |rewrite !length_app; change (length (b#"[")) with 1%nat; change (length (b#"]")) with 1%nat; lia|done].
  eexists. split; [done|]. rewrite FromString_brackets by done.
  unfold SetIP_name, IPFromString. rewrite c_string_id by done. by rewrite ntop6_pton4, ntop6_pton.
Qed.
End Text.

(** The text of an address and port is read back, whatever the object held
    before: an IPv4 or (in brackets) an IPv6 address as that address, a host
    name as that name, unresolved. *)
Theorem socket_address_text `{InetText} dchk port a :
  0 ≤ port < 65536 →
  (∀ ip, valid_ip ip → family_ ip ≠ AF_UNSPEC → ∃ text,
     sa_ToString dchk (SA [] ip port 0 false) = Val text ∧
     sa_FromString dchk text a = Val (true, SA (ip_ToString ip) ip port 0 true)) ∧
  (∀ host, host ≠ [] → list.head host ≠ Some 91 → 58 ∉ host → Forall (λ c, c ≠ 0) host → (length host < 1000)%nat →
     IPFromString host = (false, ip_unspec) → ∃ text,
     sa_ToString dchk (SA host ip_unspec port 0 false) = Val text ∧
     sa_FromString dchk text a = Val (true, SA host ip_unspec port 0 false)).
Proof.
  intros Hp. split.
  - intros ip Hv Hf. destruct (valid_family ip Hv) as [?|[E|E]]; [done|..].
    + destruct (v4_inv ip Hv E) as (b & -> & Hl & Hb). by apply text_v4.
    + destruct (v6_inv ip Hv E) as (b & -> & Hl & Hb). by apply text_v6.
  - intros host Hne Hhd Hc H0 Hlen Hip. unfold sa_ToString, HostAsURIString. cbn [literal_ hostname_ port_ ip_].
    rewrite bool_decide_false by done. cbn [negb andb]. rewrite host_port_spec by done.
    eexists. split; [done|]. rewrite FromString_plain by done. unfold SetIP_name. by rewrite Hip.
Qed.

(** ** An instance of the texts: dotted decimal, and eight groups of four
    hexadecimal digits *)

Definition text4 (b : list Z) : list Z := join (decimal <$> b) 46.
Definition parse4 (s : list Z) : option (list Z) :=
  let fs := split s 46 in
  if (length fs =? 4)%nat then mapM (λ f, StringToNumber (IT false 8) f 10) fs else None.

Fixpoint pairs (b : list Z) : list (list Z) := match b with x :: y :: b => [x; y] :: pairs b | _ => [] end.
Definition text6 (b : list Z) : list Z := join (hex_text 0 <$> pairs b) 58.
Definition parse_group (f : list Z) : option (list Z) :=
  match hex_decode [0; 0] f with Val (2, g) => Some g | _ => None end.
Definition parse6 (s : list Z) : option (list Z) := mjoin <$> mapM parse_group (split s 58).

Lemma join_free d x fs : x ≠ d → Forall (λ f, x ∉ f) fs → x ∉ join fs d.
Proof.
  intros Hx. destruct fs as [|f fs]; [intros; set_solver|]. intros [Hf Hfs]%Forall_cons. rewrite join_cons.
  induction Hfs as [|g fs Hg Hfs IH]; [rewrite fmap_nil; cbn; by rewrite app_nil_r|].
  rewrite mjoin_step. rewrite not_elem_of_app in *. set_solver.
Qed.

Lemma join_Forall (P : Z → Prop) d fs : P d → Forall (Forall P) fs → Forall P (join fs d).
Proof.
  intros Hd. destruct fs as [|f fs]; [by constructor|]. intros [Hf Hfs]%Forall_cons. rewrite join_cons. apply Forall_app. split; [done|].
  clear Hf. induction Hfs as [|g fs Hg Hfs IH]; [constructor|]. rewrite mjoin_step. constructor; [done|]. by apply Forall_app.
Qed.

Lemma byte_decimal x : byte_ok x → all_digits (decimal x) ∧ (1 ≤ length (decimal x) ≤ 3)%nat ∧ StringToNumber (IT false 8) (decimal x) 10 = Some x.
Proof.
  intros Hx. unfold byte_ok in Hx. destruct (decimal_port x ltac:(lia)) as [Hd _]. split_and!; [done|..].
  1,2: cut (((1 <=? length (decimal x)) && (length (decimal x) <=? 3))%nat = true);
    [rewrite andb_true_iff, !Nat.leb_le; lia|revert x Hx Hd; intros x Hx _; revert x Hx; apply (below_forall 256); vm_compute; reflexivity].
  apply StringToNumber_exact; [cbn; lia|]. split; [apply decimal_spec; lia|unfold t_lowest, t_max; cbn; lia].
Qed.

Lemma text4_parse b : length b = 4%nat → bytes_ok b → parse4 (text4 b) = Some b.
Proof.
  intros Hl Hb. unfold parse4, text4. rewrite split_spec.
  assert (fields_from 46 [] (join (decimal <$> b) 46) = decimal <$> b) as ->.
  { destruct b as [|x b]; [done|]. rewrite fmap_cons, join_cons. apply split_joined. rewrite <- fmap_cons.
    apply Forall_fmap. eapply Forall_impl; [exact Hb|]. intros y Hy. apply digits_free; [apply (byte_decimal y Hy)|lia]. }
  rewrite length_fmap, Hl. cbn match. apply mapM_Some_2, Forall2_fmap_l, Forall_Forall2_diag.
  eapply Forall_impl; [exact Hb|]. intros x Hx. apply (byte_decimal x Hx).
Qed.

Lemma hexc_char h : 0 ≤ h < 16 → 48 ≤ hexc h ≤ 57 ∨ 97 ≤ hexc h ≤ 102.
Proof. unfold hexc. intros H. destruct (Z.ltb_spec h 10); lia. Qed.

(** A group of two bytes: its text, its characters, and what is read. *)
Lemma group_text x y : byte_ok x → byte_ok y →
  Forall (λ c, 48 ≤ c ≤ 57 ∨ 97 ≤ c ≤ 102) (hex_text 0 [x; y]) ∧ length (hex_text 0 [x; y]) = 4%nat ∧
  parse_group (hex_text 0 [x; y]) = Some [x; y].
Proof.
  unfold byte_ok. intros Hx Hy. split_and!; [|done|].
  - change (hex_text 0 [x; y]) with [hexc (x / 16); hexc (x `mod` 16); hexc (y / 16); hexc (y `mod` 16)].
    rewrite !Forall_cons. split_and!; [apply hexc_char; div_solve..|constructor].
  - unfold parse_group, hex_decode. rewrite hex_decode_loop_of.
    assert (bytes_ok [x; y]) as Hb by (apply Forall_cons; split; [done|]; apply Forall_cons; split; [done|constructor]). pose proof (hex_text_reads 0 [x; y] Hb) as Hr.
    rewrite (hex_reads_room 0 _ _ Hr). cbn [length]. change ((_ =? 0) || _) with false. cbn match.
    pose proof (hex_decode_complete 0 _ _ Hr 4 [] [] [0; 0] ltac:(cbn; lia) ltac:(cbn; lia)) as E.
    change (hex_decode_loop 4 ([] ++ hex_text 0 [x; y]) (Z.of_nat (length ([] ++ hex_text 0 [x; y]))) 0 (Z.of_nat (length (A:=Z) [])) (Z.of_nat (length (A:=Z) [])) ([] ++ [0; 0]))
      with (hex_decode_loop (length (hex_text 0 [x; y])) (hex_text 0 [x; y]) (Z.of_nat (length (hex_text 0 [x; y]))) 0 0 0 [0; 0]) in E.
    by rewrite E.
Qed.

Lemma pairs_ok b : bytes_ok b → Forall (λ g, ∃ x y, g = [x; y] ∧ byte_ok x ∧ byte_ok y) (pairs b).
Proof.
  revert b. fix IH 1. intros [|x [|y b]] Hb; [constructor..|]. cbn [pairs].
  apply Forall_cons in Hb as [Hx [Hy Hb]%Forall_cons]. constructor; [by exists x, y|by apply IH].
Qed.

Lemma text6_chars b : bytes_ok b → Forall (λ c, 48 ≤ c ≤ 57 ∨ 97 ≤ c ≤ 102 ∨ c = 58) (text6 b).
Proof.
  intros Hb. apply join_Forall; [lia|]. apply Forall_fmap. eapply Forall_impl; [by apply pairs_ok|].
  intros g (x & y & -> & Hx & Hy). eapply Forall_impl; [apply (group_text x y Hx Hy)|]. cbn. lia.
Qed.

Lemma text6_parse b : length b = 16%nat → bytes_ok b → parse6 (text6 b) = Some b.
Proof.
  intros Hl Hb. unfold parse6, text6. rewrite split_spec. pose proof (pairs_ok b Hb) as Hp.
  assert (mjoin (pairs b) = b ∧ pairs b ≠ []) as [Hj Hne] by (do 16 (destruct b as [|? b]; [done|]); by destruct b).
  assert (fields_from 58 [] (join (hex_text 0 <$> pairs b) 58) = hex_text 0 <$> pairs b) as ->.
  { destruct (pairs b) as [|g gs]; [done|]. rewrite fmap_cons, join_cons. apply split_joined. rewrite <- fmap_cons.
    apply Forall_fmap. eapply Forall_impl; [exact Hp|]. intros g' (x & y & -> & Hx & Hy) Hin.
    destruct (group_text x y Hx Hy) as (Hc & _ & _). rewrite Forall_forall in Hc. apply Hc in Hin. lia. }
  assert (mapM parse_group (hex_text 0 <$> pairs b) = Some (pairs b)) as ->; [|cbn; by rewrite Hj].
  apply mapM_Some_2, Forall2_fmap_l, Forall_Forall2_diag. eapply Forall_impl; [exact Hp|].
  intros g (x & y & -> & Hx & Hy). apply (group_text x y Hx Hy).
Qed.

Definition plain_ntop (af : Z) (b : list Z) : list Z := if af =? AF_INET6 then text6 b else text4 b.
Definition plain_pton (af : Z) (s : list Z) : option (list Z) := if af =? AF_INET6 then parse6 s else parse4 s.

Lemma text4_chars b : bytes_ok b → Forall (λ c, 48 ≤ c ≤ 57 ∨ c = 46) (text4 b).
Proof.
  intros Hb. apply join_Forall; [lia|]. apply Forall_fmap. eapply Forall_impl; [exact Hb|].
  intros x Hx. eapply Forall_impl; [apply (byte_decimal x Hx)|]. cbn. lia.
Qed.

Lemma text6_parse4 b : bytes_ok b → parse4 (text6 b) = None.
Proof.
  intros Hb. unfold parse4. rewrite split_spec. pose proof (text6_chars b Hb) as Hc.
  assert (46 ∉ text6 b) as Hd by (intros Hin; rewrite Forall_forall in Hc; apply Hc in Hin; lia).
  by rewrite (proj1 (fields_from_field 46 (text6 b) [] Hd)).
Qed.

Lemma length_join4 f0 f1 f2 f3 d :
  length (join [f0; f1; f2; f3] d) = (length f0 + length f1 + length f2 + length f3 + 3)%nat.
Proof. rewrite join_cons, !mjoin_step, fmap_nil. cbn [mjoin list_join]. rewrite app_nil_r. repeat (rewrite length_app; cbn [length]). lia. Qed.

Lemma plain_length af b : (af = AF_INET ∧ length b = 4%nat) ∨ (af = AF_INET6 ∧ length b = 16%nat) → bytes_ok b →
  (0 < length (plain_ntop af b) < 46)%nat.
Proof.
  intros [[-> Hl]|[-> Hl]] Hb; unfold plain_ntop.
  - change (AF_INET =? AF_INET6) with false. cbn match. destruct b as [|p [|q [|r [|s [|]]]]]; try done.
    unfold bytes_ok in Hb. rewrite !Forall_cons in Hb. destruct Hb as (Hp & Hq & Hr & Hs & _). unfold text4.
    change (decimal <$> [p; q; r; s]) with [decimal p; decimal q; decimal r; decimal s]. rewrite length_join4.
    destruct (byte_decimal p Hp) as (_ & ? & _), (byte_decimal q Hq) as (_ & ? & _), (byte_decimal r Hr) as (_ & ? & _),
      (byte_decimal s Hs) as (_ & ? & _). lia.
  - change (AF_INET6 =? AF_INET6) with true. cbn match.
    do 16 (destruct b as [|? b]; [done|]). destruct b; [|done]. vm_compute. lia.
Qed.

#[global] Instance plain_inet : InetText.
Proof.
  refine {| inet_ntop := plain_ntop; inet_pton := plain_pton |}.
  - exact text4_parse.
  - exact text6_parse.
  - intros b _ Hb. by apply text6_parse4.
  - intros af b Hb. unfold plain_ntop. destruct (Z.eqb_spec af AF_INET6) as [->|].
    + eapply Forall_impl; [by apply text6_chars|]. cbn. tauto.
    + eapply Forall_impl; [by apply text4_chars|]. cbn. tauto.
  - exact plain_length.
Defined.

Example socket_address_text_witness : ∃ text,
  sa_ToString true (SA [] (ip_v4 [192; 168; 1; 9]) 5060 0 false) = Val text ∧
  sa_FromString true text sa_clear = Val (true, SA (b#"192.168.1.9") (ip_v4 [192; 168; 1; 9]) 5060 0 true).
Proof.
  apply (proj1 (socket_address_text (H := plain_inet) true 5060 sa_clear ltac:(lia)) (ip_v4 [192; 168; 1; 9])); [|vm_compute; congruence].
  apply valid_v4; [reflexivity|repeat constructor; lia].
Defined.

Example text_demo :
  sa_ToString true (SA [] (ip_v6 in6addr_loopback) 443 0 false) = Val (b#"[0000:0000:0000:0000:0000:0000:0000:0001]:443") ∧
  sa_FromString true (b#"[0000:0000:0000:0000:0000:0000:0000:0001]:443") sa_clear =
    Val (true, SA (b#"0000:0000:0000:0000:0000:0000:0000:0001") (ip_v6 in6addr_loopback) 443 0 true) ∧
  sa_FromString true (b#"host.net:80") sa_clear = Val (true, SA (b#"host.net") ip_unspec 80 0 false).
Proof. split_and!; vm_compute; reflexivity. Qed.

(** ** Texts that go wrong *)

(** An opening bracket without a closing one: success, and nothing changed. *)
Example unclosed_bracket `{InetText} dchk a : sa_FromString dchk (b#"[::1") a = Val (true, a).
Proof. reflexivity. Qed.

(** The empty text: [at] throws. *)
Example empty_text `{InetText} dchk a : sa_FromString dchk [] a = Aborted.
Proof. reflexivity. Qed.

(** A port that does not fit is not refused: it stops a debug build and is cut
    in a release build. *)
Example port_out_of_range :
  sa_FromString true (b#"h:65616") sa_clear = Aborted ∧
  sa_FromString false (b#"h:65616") sa_clear = Val (true, SA (b#"h") ip_unspec 80 0 false).
Proof. split; vm_compute; reflexivity. Qed.

(** The any-address read back from its text is not equal to it: the text became
    its host name. *)
Example any_address_text :
  match sa_FromString true (b#"0.0.0.0:80") sa_clear with
  | Val (true, b) => ip_ b = ip_v4 [0; 0; 0; 0] ∧ sa_eq false b (SA [] (ip_v4 [0; 0; 0; 0]) 80 0 false) = false
  | _ => False
  end.
Proof. vm_compute. done. Qed.

(** The older [sockaddr_in] form of an IPv4 address reads back too; the
    any-address is written as the constant that has the same bytes. *)
Lemma any_bytes big_endian b : length b = 4%nat → bytes_ok b →
  (if IPIsAny big_endian (ip_v4 b) then host_bytes big_endian 4 INADDR_ANY else ipv4_address (ip_v4 b)) = b.
Proof.
  intros Hl Hb. unfold IPIsAny, ipv4_address. change (family (ip_v4 b) =? AF_INET) with true. cbn match.
  destruct (ip_eq _ _) eqn:Eq; [|cbn [ip_v4 u_]; by rewrite take_app_length' by lia]. rewrite ip_host_v4 in Eq.
  apply ip_eq_spec in Eq; [|by apply valid_v4|by apply valid_v4; [|repeat constructor]].
  apply (f_equal u_), app_inj_1 in Eq as [-> _]; [by destruct big_endian|done].
Qed.

Lemma sockaddr_in_roundtrip big_endian dchk b port scope host lit a :
  length b = 4%nat → bytes_ok b → 0 ≤ port < 65536 →
  ∃ m, ToSockAddr big_endian (SA host (ip_v4 b) port scope lit) = Val m ∧
    FromSockAddr big_endian dchk m a = Val (true, SA [] (ip_v4 b) port 0 false).
Proof.
  intros Hl Hb Hp. destruct (port_bytes big_endian port Hp) as (p & Ep & Lp & Np).
  assert (host_value big_endian (host_bytes big_endian 2 AF_INET) = AF_INET) as Ef by (by apply host_value_bytes).
  pose proof (length_host_bytes big_endian 2 AF_INET) as Lf.
  unfold ToSockAddr. cbn [ip_ port_]. change (family (ip_v4 b) =? AF_INET) with true. cbn [negb].
  rewrite Ep. set (f := host_bytes big_endian 2 AF_INET) in *. clearbody f.
  exists (f ++ p ++ b ++ replicate 8 0). split.
  - change (replicate (Z.to_nat sizeof_sockaddr_in) 0) with ([] ++ replicate 2 0 ++ replicate 2 0 ++ replicate 4 0 ++ replicate 8 0).
    rewrite (poke_at [] (replicate 2 0) _ f 0) by done. cbn [mbind_res].
    rewrite app_nil_l, (poke_at f (replicate 2 0) _ p 2) by len_solve. cbn [mbind_res].
    assert (∀ src, length src = 4%nat → poke 4 src (f ++ p ++ replicate 4 0 ++ replicate 8 0) = Val (f ++ p ++ src ++ replicate 8 0)) as Hpoke.
    { intros src Hs. rewrite !(app_assoc f). apply poke_at; len_solve. }
    pose proof (any_bytes big_endian b Hl Hb) as Ha. destruct (IPIsAny big_endian (ip_v4 b)); rewrite Ha; by apply Hpoke.
  - unfold FromSockAddr. rewrite (peek_value_at big_endian [] f (p ++ b ++ replicate 8 0) 0 2 : _ → _ → peek_value _ (f ++ _) 0 2 = _) by len_solve.
    cbn [mbind_res]. rewrite Ef. change (AF_INET =? AF_INET) with true. cbn [negb].
    rewrite (app_assoc f), (peek_value_at big_endian (f ++ p) b _ 4 4), <- app_assoc by len_solve. cbn [mbind_res].
    rewrite (peek_value_at big_endian f p _ 2 2) by len_solve. cbn [mbind_res]. rewrite Np, ntoh_value, SetPort_spec by done. cbn.
    rewrite ip_host_v4, be_encode_decode by done. done.
Qed.
