(* ===== verification/Log.v ===== *)
(** * The log of the server (base/log.hpp, log.cpp)

    Any thread logs into one of two queues, each under its mutex; a writer
    thread empties them into two files. An execution is a sequence of calls of
    the loggers and of steps of the writer, each step ending at a place where
    another thread can act. What [stat], [open] and [mkdir] answer, whether a
    write succeeds and the formatted time are inputs. The theorems are that, as
    long as opening and writing succeed, what was logged is in the file, in the
    writer's hands or in the queue, in order and once, and that the writer gets
    everything out while it runs. The copy [OnLogMessage] prints on the terminal
    is left out. *)

From S2P Require Import Prelude Socket.

Inductive LoggingSeverity := LS_VERBOSE | LS_INFO | LS_WARNING | LS_ERROR | LS_NONE.

#[global] Instance LoggingSeverity_eq_dec : EqDecision LoggingSeverity.
Proof. solve_decision. Defined.

Definition severity_value (s : LoggingSeverity) : Z :=
  match s with LS_VERBOSE => 0 | LS_INFO => 1 | LS_WARNING => 2 | LS_ERROR => 3 | LS_NONE => 4 end.

Definition GetLogSeverity (log_level : list Z) : LoggingSeverity :=
  if decide (log_level = b#"INFO") then LS_INFO
  else if decide (log_level = b#"WARNING") then LS_WARNING
  else if decide (log_level = b#"ERROR") then LS_ERROR
  else if decide (log_level = b#"VERBOSE") then LS_VERBOSE
  else if decide (log_level = b#"NONE") then LS_NONE
  else LS_INFO.

(** An [ofstream]: whether it is open, whether it is in its good state, and the
    batches written. A write to a stream that is not open or in an error is
    lost; one that fails leaves the stream in the error, from which only a
    successful [open] takes it. *)
Record ofstream := Stream { is_open : bool; good : bool; batches : list (list Z) }.
Definition closed_stream : ofstream := Stream false true [].
Definition reopen (ok : bool) (f : ofstream) : ofstream := Stream ok ok (batches f).

(** [file<<text<<std::endl; file.flush()]; [written] is whether the system
    takes the data. *)
Definition write_batch (written : bool) (text : list Z) (f : ofstream) : ofstream :=
  if is_open f && good f then
    if written then Stream true true (batches f ++ [text]) else Stream true false (batches f)
  else Stream (is_open f) false (batches f).

(** The bytes of the file: each batch is ended by [std::endl]. *)
Definition file_bytes (f : ofstream) : list Z := mjoin ((λ text, text ++ [10]) <$> batches f).

Record XrtcLog := XL {
  log_dir : list Z; log_level : list Z; log_name : list Z;
  log_out_file : list Z; log_err_file : list Z;
  _out_file : ofstream; _err_file : ofstream;
  _log_queue : list (list Z); _err_queue : list (list Z);
  _log_thread : bool; _log_thread_running : bool;
  sink_severity : option LoggingSeverity       (* registered with [AddLogToStream] *)
}.

Definition XrtcLog_new (dir level name : list Z) : XrtcLog :=
  XL dir level name (dir ++ b#"/" ++ name ++ b#".log") (dir ++ b#"/" ++ name ++ b#".log.err")
     closed_stream closed_stream [] [] false false None.

Definition set_out f l := XL (log_dir l) (log_level l) (log_name l) (log_out_file l) (log_err_file l) f (_err_file l)
  (_log_queue l) (_err_queue l) (_log_thread l) (_log_thread_running l) (sink_severity l).
Definition set_err f l := XL (log_dir l) (log_level l) (log_name l) (log_out_file l) (log_err_file l) (_out_file l) f
  (_log_queue l) (_err_queue l) (_log_thread l) (_log_thread_running l) (sink_severity l).
Definition set_queues q e l := XL (log_dir l) (log_level l) (log_name l) (log_out_file l) (log_err_file l) (_out_file l)
  (_err_file l) q e (_log_thread l) (_log_thread_running l) (sink_severity l).
Definition set_thread t r l := XL (log_dir l) (log_level l) (log_name l) (log_out_file l) (log_err_file l) (_out_file l)
  (_err_file l) (_log_queue l) (_err_queue l) t r (sink_severity l).
Definition set_sink s l := XL (log_dir l) (log_level l) (log_name l) (log_out_file l) (log_err_file l) (_out_file l)
  (_err_file l) (_log_queue l) (_err_queue l) (_log_thread l) (_log_thread_running l) (Some s).

Definition EEXIST : Z := 17.

Definition InitLog (mkdir_ans : sys unit) (open_out open_err : bool) (l : XrtcLog) : Z * XrtcLog :=
  let l := set_sink (GetLogSeverity (log_level l)) l in
  match mkdir_ans with
  | Err e => if negb (e =? EEXIST) then (-1, l) else
      let l := set_out (reopen open_out (_out_file l)) l in
      if negb open_out then (-1, l)
      else let l := set_err (reopen open_err (_err_file l)) l in if negb open_err then (-1, l) else (0, l)
  | Ok _ =>
      let l := set_out (reopen open_out (_out_file l)) l in
      if negb open_out then (-1, l)
      else let l := set_err (reopen open_err (_err_file l)) l in if negb open_err then (-1, l) else (0, l)
  end.

(** ** The loggers *)

(** [stamp] is the local time as [put_time] prints it. *)
Definition log_message (stamp message : list Z) : list Z := stamp ++ b#" - " ++ message.

Definition OnLogMessage (stamp message : list Z) (severity : LoggingSeverity) (l : XrtcLog) : XrtcLog :=
  let m := log_message stamp message in
  if severity_value LS_WARNING <=? severity_value severity then set_queues (_log_queue l) (_err_queue l ++ [m]) l
  else set_queues (_log_queue l ++ [m]) (_err_queue l) l.

(** ** The writer *)

(** Where the writer is, with the text it holds. [Write* None] is a turn
    without anything to write. *)
Inductive writer :=
| Head | StatOut | StatErr | DrainLog | WriteLog (ss : option (list Z)) | DrainErr | WriteErr (ss : option (list Z)) | Sleep
| Finished.

(** The queue emptied into [ss]: [write_log] and the text. *)
Definition drain (q : list (list Z)) : option (list Z) := match q with [] => None | _ => Some (mjoin q) end.

(** One step; [missing] is whether [stat] failed, [opened] whether the [open]
    that follows succeeds and [written] whether the write does. *)
Definition writer_step (missing opened written : bool) (w : writer) (l : XrtcLog) : writer * XrtcLog :=
  match w with
  | Head => (if _log_thread_running l then StatOut else Finished, l)
  | StatOut => (StatErr, if missing then set_out (reopen opened (_out_file l)) l else l)
  | StatErr => (DrainLog, if missing then set_err (reopen opened (_err_file l)) l else l)
  | DrainLog => (WriteLog (drain (_log_queue l)), set_queues [] (_err_queue l) l)
  | WriteLog ss => (DrainErr, match ss with Some t => set_out (write_batch written t (_out_file l)) l | None => l end)
  | DrainErr => (WriteErr (drain (_err_queue l)), set_queues (_log_queue l) [] l)
  | WriteErr ss => (Sleep, match ss with Some t => set_err (write_batch written t (_err_file l)) l | None => l end)
  | Sleep => (Head, l)
  | Finished => (Finished, l)
  end.

Definition start_log_thread (l : XrtcLog) : bool * XrtcLog :=
  if _log_thread_running l then (false, l) else (true, set_thread true true l).

(** [stop_log_thread] up to the [join], and after it. *)
Definition stop_begin (l : XrtcLog) : XrtcLog := set_thread (_log_thread l) false l.
Definition stop_end (l : XrtcLog) : XrtcLog := if _log_thread l then set_thread false (_log_thread_running l) l else l.
(** [join_log_thread] waits and changes nothing; the destructor stops the
    thread and closes the files. *)
Definition XrtcLog_delete (l : XrtcLog) : XrtcLog :=
  let l := stop_end (stop_begin l) in set_err (reopen false (_err_file l)) (set_out (reopen false (_out_file l)) l).

(** ** Executions *)

Inductive log_event :=
| ELog (stamp message : list Z) (severity : LoggingSeverity)
| EWriter (missing opened written : bool)
| EStop.

Definition log_act (e : log_event) (st : writer * XrtcLog) : writer * XrtcLog :=
  let '(w, l) := st in
  match e with
  | ELog stamp message severity => (w, OnLogMessage stamp message severity l)
  | EWriter missing opened written => writer_step missing opened written w l
  | EStop => (w, stop_begin l)
  end.

Definition log_run (es : list log_event) (st : writer * XrtcLog) : writer * XrtcLog := foldl (λ st e, log_act e st) st es.

(** The texts logged, by the file they are for. *)
Definition is_err (s : LoggingSeverity) : bool := severity_value LS_WARNING <=? severity_value s.
Definition logged (err : bool) (es : list log_event) : list (list Z) :=
  omap (λ e, match e with ELog stamp m s => if eqb (is_err s) err then Some (log_message stamp m) else None | _ => None end) es.

(** What the writer holds for a file. *)
Definition in_hand (err : bool) (w : writer) : list Z :=
  match w with WriteLog (Some t) => if err then [] else t | WriteErr (Some t) => if err then t else [] | _ => [] end.

(** Every [open] and every write of the execution succeeds. *)
Definition opens (e : log_event) : Prop :=
  match e with EWriter missing opened written => (missing = true → opened = true) ∧ written = true | _ => True end.

Definition delivered (err : bool) (w : writer) (l : XrtcLog) : list Z :=
  mjoin (batches (if err then _err_file l else _out_file l)) ++ in_hand err w ++ mjoin (if err then _err_queue l else _log_queue l).

Example log_demo :
  let '(_, l) := InitLog (Err 17) true true (XrtcLog_new (b#"log") (b#"INFO") (b#"x")) in
  let '(_, l) := start_log_thread l in
  let '(w, l) := log_run [ELog (b#"t") (b#"a") LS_INFO; ELog (b#"t") (b#"b") LS_ERROR; ELog (b#"u") (b#"c") LS_INFO;
                          EWriter false true true; EWriter false true true; EWriter false true true; EWriter false true true; EWriter false true true;
                          ELog (b#"v") (b#"d") LS_INFO; EWriter false true true; EWriter false true true] (Head, l) in
  batches (_out_file l) = [b#"t - au - c"] ∧ batches (_err_file l) = [b#"t - b"] ∧ _log_queue l = [b#"v - d"] ∧ w = Sleep.
Proof. vm_compute. done. Qed.

(** ** Nothing is lost, doubled or reordered *)

Definition streams_open (l : XrtcLog) : Prop :=
  (is_open (_out_file l) = true ∧ good (_out_file l) = true) ∧ is_open (_err_file l) = true ∧ good (_err_file l) = true.

Lemma mjoin_snoc (ls : list (list Z)) x : mjoin (ls ++ [x]) = mjoin ls ++ x.
Proof. rewrite join_app. cbn. by rewrite app_nil_r. Qed.

Lemma drain_text q : mjoin q = match drain q with Some t => t | None => [] end.
Proof. by destruct q. Qed.

Lemma log_act_delivers err e w l : streams_open l → opens e →
  let '(w', l') := log_act e (w, l) in
  streams_open l' ∧ delivered err w' l' = delivered err w l ++ mjoin (logged err [e]).
Proof.
  intros [[Ho Go] [He Ge]] Hopen. unfold delivered, streams_open. destruct e as [stamp m s|missing opened written|]; cbn [log_act logged omap list_omap].
  - unfold OnLogMessage. fold (is_err s). destruct (is_err s), err; cbn; rewrite ?mjoin_snoc, ?app_nil_r, ?app_assoc; by split_and!.
  - destruct Hopen as [Hopen ->]. cbn [mjoin list_join]. rewrite app_nil_r. destruct w as [| | | |[t|]| |[t|]| |]; cbn; try (by split_and!).
    + destruct (_log_thread_running l); by split_and!.
    + destruct missing; [rewrite (Hopen eq_refl)|]; destruct err; cbn; by split_and!.
    + destruct missing; [rewrite (Hopen eq_refl)|]; destruct err; cbn; by split_and!.
    + split_and!; [done..|]. destruct err; [by destruct (drain _)|]. rewrite (drain_text (_log_queue l)). by destruct (drain (_log_queue l)); cbn; rewrite ?app_nil_r.
    + unfold write_batch; rewrite Ho, Go. cbn. split_and!; [done..|]. destruct err; cbn; rewrite ?mjoin_snoc, <- ?app_assoc; done.
    + split_and!; [done..|]. destruct err; [|by destruct (drain _)]. rewrite (drain_text (_err_queue l)). by destruct (drain (_err_queue l)); cbn; rewrite ?app_nil_r.
    + unfold write_batch; rewrite He, Ge. cbn. split_and!; [done..|]. destruct err; cbn; rewrite ?mjoin_snoc, <- ?app_assoc; done.
  - cbn [mjoin list_join]. rewrite app_nil_r. by split_and!.
Qed.

Lemma log_run_delivers err es : ∀ w l, streams_open l → Forall opens es →
  let '(w', l') := log_run es (w, l) in
  streams_open l' ∧ delivered err w' l' = delivered err w l ++ mjoin (logged err es).
Proof.
  induction es as [|e es IH]; intros w l Hs Hes; cbn [log_run foldl].
  - split; [done|]. by rewrite app_nil_r.
  - apply Forall_cons in Hes as [He Hes]. pose proof (log_act_delivers err e w l Hs He) as Hact.
    destruct (log_act e (w, l)) as [w1 l1]. destruct Hact as [Hs1 E1]. specialize (IH w1 l1 Hs1 Hes). unfold log_run in IH.
    destruct (foldl _ (w1, l1) es) as [w' l']. destruct IH as [Hs' E']. split; [done|].
    rewrite E', E1, <- app_assoc. f_equal. change (e :: es) with ([e] ++ es). unfold logged. by rewrite omap_app, join_app.
Qed.

(** ** The writer gets everything out *)

(** Two turns of the loop. *)
Definition two_turns : list log_event := replicate 16 (EWriter false true true).

Lemma two_turns_flush w l : _log_thread_running l = true → w ≠ Finished → 
  let '(w', l') := log_run two_turns (w, l) in
  in_hand false w' = [] ∧ in_hand true w' = [] ∧ _log_queue l' = [] ∧ _err_queue l' = [].
Proof.
  intros Hr Hw. destruct l as [a b c d e f g q1 q2 t r s]. cbn in Hr. subst r.
  destruct w as [| | | |[x|]| |[x|]| |]; try done; destruct q1, q2; vm_compute; done.
Qed.

Lemma running_kept es : ∀ w l, _log_thread_running l = true → w ≠ Finished → EStop ∉ es →
  let '(w', l') := log_run es (w, l) in _log_thread_running l' = true ∧ w' ≠ Finished.
Proof.
  induction es as [|e es IH]; intros w l Hr Hw Hs; cbn [log_run foldl]; [done|].
  assert (let '(w', l') := log_act e (w, l) in _log_thread_running l' = true ∧ w' ≠ Finished) as H1.
  { destruct e as [stamp m s|missing opened written|]; [|destruct w as [| | | |[]| |[]| |]|set_solver]; cbn; try done.
    - unfold OnLogMessage. by destruct (_ <=? _).
    - by rewrite Hr.
    - by destruct missing.
    - by destruct missing. }
  destruct (log_act e (w, l)) as [w1 l1]. destruct H1. apply IH; [done..|set_solver].
Qed.

(** In any interleaving of loggers and writer in which the files can be
    opened and written, the text logged for each file is what was written to it, followed
    by what the writer holds and what is queued: nothing is lost, doubled or
    reordered; and until the log is stopped two more turns of the writer get
    everything out. *)
Theorem log_delivers dir level name mk es :
  Forall opens es → (mk = Ok () ∨ mk = Err EEXIST) →
  let l0 := (start_log_thread (InitLog mk true true (XrtcLog_new dir level name)).2).2 in
  let '(w, l) := log_run es (Head, l0) in
  (∀ err, delivered err w l = mjoin (logged err es)) ∧
  (EStop ∉ es →
   let '(_, l') := log_run two_turns (w, l) in
   mjoin (batches (_out_file l')) = mjoin (logged false es) ∧ mjoin (batches (_err_file l')) = mjoin (logged true es)).
Proof.
  intros Hes Hmk l0.
  assert (streams_open l0 ∧ _log_thread_running l0 = true ∧ ∀ err, delivered err Head l0 = []) as (Hs & Hr & H0)
    by (destruct Hmk as [-> | ->]; split_and!; try done; by intros []).
  pose proof (log_run_delivers true es Head l0 Hs Hes) as Ht. pose proof (log_run_delivers false es Head l0 Hs Hes) as Hf.
  pose proof (running_kept es Head l0 Hr ltac:(done)) as Hrun.
  destruct (log_run es (Head, l0)) as [w l]. destruct Ht as [Hs' Ht], Hf as [_ Hf]. rewrite H0 in Ht, Hf. split; [by intros []|].
  intros Hstop. destruct (Hrun Hstop) as [Hr' Hw'].
  assert (Forall opens two_turns) as Ho by (by apply Forall_replicate).
  pose proof (log_run_delivers true two_turns w l Hs' Ho) as Ht2. pose proof (log_run_delivers false two_turns w l Hs' Ho) as Hf2.
  pose proof (two_turns_flush w l Hr' Hw') as Hfl. destruct (log_run two_turns (w, l)) as [w' l'].
  destruct Ht2 as [_ Ht2], Hf2 as [_ Hf2], Hfl as (Hh0 & Hh1 & Hq & He). unfold delivered in Ht2 at 1. unfold delivered in Hf2 at 1.
  rewrite Hh1, He, Ht in Ht2. rewrite Hh0, Hq, Hf in Hf2. cbn in Ht2, Hf2. rewrite !app_nil_r in Ht2, Hf2. done.
Qed.

Example log_delivers_witness :
  let l0 := (start_log_thread (InitLog (Err EEXIST) true true (XrtcLog_new (b#"log") (b#"INFO") (b#"x"))).2).2 in
  let '(w, l) := log_run [ELog (b#"t") (b#"a") LS_INFO; EWriter false true true; EWriter true true true] (Head, l0) in
  (∀ err, delivered err w l = mjoin (logged err [ELog (b#"t") (b#"a") LS_INFO; EWriter false true true; EWriter true true true])) ∧
  (EStop ∉ [ELog (b#"t") (b#"a") LS_INFO; EWriter false true true; EWriter true true true] →
   let '(_, l') := log_run two_turns (w, l) in
   mjoin (batches (_out_file l')) = mjoin (logged false [ELog (b#"t") (b#"a") LS_INFO; EWriter false true true; EWriter true true true]) ∧
   mjoin (batches (_err_file l')) = mjoin (logged true [ELog (b#"t") (b#"a") LS_INFO; EWriter false true true; EWriter true true true])).
Proof.
  apply (log_delivers (b#"log") (b#"INFO") (b#"x") (Err EEXIST) [ELog (b#"t") (b#"a") LS_INFO; EWriter false true true; EWriter true true true]).
  - repeat constructor.
  - right. reflexivity.
Defined.

(** Stopping does not wait for the queue: what is in it when the flag falls
    after the last drain is never written. *)
Example stop_loses_messages :
  let l0 := (start_log_thread (InitLog (Ok ()) true true (XrtcLog_new (b#"log") (b#"INFO") (b#"x"))).2).2 in
  let '(w, l) := log_run ([ELog (b#"t") (b#"bye") LS_INFO; EStop] ++ two_turns) (Head, l0) in
  w = Finished ∧ batches (_out_file l) = [] ∧ _log_queue (stop_end l) = [b#"t - bye"].
Proof. vm_compute. done. Qed.

(** A write that fails once, for lack of space say, leaves the stream in its
    error: nothing is written afterwards although the file is there. *)
Example write_error_sticks :
  let l0 := (start_log_thread (InitLog (Ok ()) true true (XrtcLog_new (b#"log") (b#"INFO") (b#"x"))).2).2 in
  let '(w, l) := log_run ([ELog (b#"t") (b#"a") LS_INFO] ++ replicate 8 (EWriter false true false)
                            ++ [ELog (b#"u") (b#"b") LS_INFO] ++ two_turns) (Head, l0) in
  file_bytes (_out_file l) = [] ∧ _log_queue l = [].
Proof. vm_compute. done. Qed.
