(* ===== verification/SafeNumerics.v ===== *)
(** * Integer conversions and comparisons (rtc_base/numerics)

    The checked and saturating casts, the comparisons across signedness and the
    minimum, maximum and clamp whose return type is computed from the argument
    types, for the eight integer types; [a op b] converts its operands as the
    language does. The theorems are that the range check is exact, that the
    comparisons are those of the integers, and that minimum, maximum and clamp
    return the exact value in a type that holds it. Floating point is left out. *)

From S2P Require Import Prelude.

Inductive ity := I8 | I16 | I32 | I64 | U8 | U16 | U32 | U64.

#[global] Instance ity_eq_dec : EqDecision ity.
Proof. solve_decision. Defined.

Definition is_signed (t : ity) : bool := match t with I8 | I16 | I32 | I64 => true | _ => false end.
Definition sizeof (t : ity) : Z := match t with I8 | U8 => 1 | I16 | U16 => 2 | I32 | U32 => 4 | I64 | U64 => 8 end.
Definition bits (t : ity) : Z := 8 * sizeof t.
Definition lowest (t : ity) : Z := if is_signed t then - 2 ^ (bits t - 1) else 0.
Definition max_of (t : ity) : Z := if is_signed t then 2 ^ (bits t - 1) - 1 else 2 ^ bits t - 1.

Definition in_range (t : ity) (z : Z) : Prop := lowest t ≤ z ≤ max_of t.
#[global] Instance in_range_dec t z : Decision (in_range t z).
Proof. unfold in_range. apply _. Defined.

(** [static_cast<t>] of an integer. *)
Definition conv (t : ity) (z : Z) : Z := if is_signed t then swrap (bits t) z else uwrap (bits t) z.

(** The integral promotions and the usual arithmetic conversions. *)
Definition int_promote (t : ity) : ity := if sizeof t <? 4 then I32 else t.
Definition common (t1 t2 : ity) : ity :=
  let p1 := int_promote t1 in
  let p2 := int_promote t2 in
  if eqb (is_signed p1) (is_signed p2) then if sizeof p1 <? sizeof p2 then p2 else p1
  else
    let '(s, u) := if is_signed p1 then (p1, p2) else (p2, p1) in
    if sizeof s <=? sizeof u then u else s.

Inductive cmp_op := EqOp | NeOp | LtOp | LeOp | GtOp | GeOp.

(** The comparison of the integers. *)
Definition cmp_Z (op : cmp_op) (a b : Z) : bool :=
  match op with
  | EqOp => a =? b | NeOp => negb (a =? b) | LtOp => a <? b | LeOp => a <=? b | GtOp => b <? a | GeOp => b <=? a
  end.

(** A value with its type, and [a op b]. *)
Notation cval := (ity * Z)%type.
Definition Op (op : cmp_op) (a b : cval) : bool :=
  let t := common a.1 b.1 in cmp_Z op (conv t a.2) (conv t b.2).
Definition static_cast_to (t : ity) (v : cval) : cval := (t, conv t v.2).

(** ** Range checks and casts (safe_conversions.h, safe_conversions_impl.h) *)

Inductive DstRange := OVERLAPS_RANGE | CONTAINS_RANGE.

Definition StaticRangeCheck (Dst Src : ity) : DstRange :=
  match is_signed Dst, is_signed Src with
  | true, true => if sizeof Src * 8 - 1 <=? sizeof Dst * 8 - 1 then CONTAINS_RANGE else OVERLAPS_RANGE
  | false, false => if sizeof Src <=? sizeof Dst then CONTAINS_RANGE else OVERLAPS_RANGE
  | true, false => if sizeof Src * 8 <=? sizeof Dst * 8 - 1 then CONTAINS_RANGE else OVERLAPS_RANGE
  | false, true => OVERLAPS_RANGE
  end.

Inductive RangeCheckResult := TYPE_VALID | TYPE_UNDERFLOW | TYPE_OVERFLOW | TYPE_INVALID.

#[global] Instance RangeCheckResult_eq_dec : EqDecision RangeCheckResult.
Proof. solve_decision. Defined.

(** [BASE_NUMERIC_RANGE_CHECK_RESULT] *)
Definition range_check_result (is_in_upper_bound is_in_lower_bound : bool) : RangeCheckResult :=
  match is_in_upper_bound, is_in_lower_bound with
  | true, true => TYPE_VALID
  | true, false => TYPE_UNDERFLOW
  | false, true => TYPE_OVERFLOW
  | false, false => TYPE_INVALID
  end.

Definition RangeCheck (Dst Src : ity) (value : Z) : RangeCheckResult :=
  let le_max := Op LeOp (Src, value) (static_cast_to Src (Dst, max_of Dst)) in
  match StaticRangeCheck Dst Src with
  | CONTAINS_RANGE => TYPE_VALID
  | OVERLAPS_RANGE =>
      match is_signed Dst, is_signed Src with
      | true, true => range_check_result le_max (Op GeOp (Src, value) (static_cast_to Src (Dst, lowest Dst)))
      | false, false => range_check_result le_max true
      | true, false => if sizeof Src <? sizeof Dst then TYPE_VALID else range_check_result le_max true
      | false, true =>
          if sizeof Src * 8 - 1 <=? sizeof Dst * 8 then range_check_result true (Op GeOp (Src, value) (static_cast_to Src (I32, 0)))
          else range_check_result le_max (Op GeOp (Src, value) (static_cast_to Src (I32, 0)))
      end
  end.

Definition IsValueInRangeForNumericType (Dst Src : ity) (value : Z) : bool := bool_decide (RangeCheck Dst Src value = TYPE_VALID).

Definition checked_cast (Dst Src : ity) (value : Z) : res Z :=
  let* _ := c_assert (IsValueInRangeForNumericType Dst Src value) in Val (conv Dst value).

Definition dchecked_cast (RTC_DCHECK_IS_ON : bool) (Dst Src : ity) (value : Z) : res Z :=
  let* _ := if RTC_DCHECK_IS_ON then c_assert (IsValueInRangeForNumericType Dst Src value) else Val () in Val (conv Dst value).

Definition saturated_cast (Dst Src : ity) (value : Z) : res Z :=
  match RangeCheck Dst Src value with
  | TYPE_VALID => Val (conv Dst value)
  | TYPE_UNDERFLOW => Val (lowest Dst)
  | TYPE_OVERFLOW => Val (max_of Dst)
  | TYPE_INVALID => Aborted
  end.

(** ** Comparisons (safe_compare.h) *)

Definition LargerIntImpl (N : Z) : option ity :=
  if N =? 1 then Some I16 else if N =? 2 then Some I32 else if N =? 4 then Some I64 else None.

(** A pointer has 8 bytes. *)
Definition LargerInt (T1 T2 : ity) : option ity :=
  LargerIntImpl (if (sizeof T1 <? sizeof T2) || (sizeof T1 <? 8) then sizeof T1 else 0).

Definition make_unsigned (t : ity) : ity := match t with I8 => U8 | I16 => U16 | I32 => U32 | I64 => U64 | _ => t end.
Definition MakeUnsigned (a : cval) : cval := static_cast_to (make_unsigned a.1) a.

(** The five overloads. *)
Definition Cmp (op : cmp_op) (a b : cval) : bool :=
  match is_signed a.1, is_signed b.1 with
  | true, false =>
      match LargerInt b.1 a.1 with
      | Some t => Op op a (static_cast_to t b)
      | None => if a.2 <? 0 then Op op (I32, -1) (I32, 0) else Op op (MakeUnsigned a) b
      end
  | false, true =>
      match LargerInt a.1 b.1 with
      | Some t => Op op (static_cast_to t a) b
      | None => if b.2 <? 0 then Op op (I32, 0) (I32, -1) else Op op a (MakeUnsigned b)
      end
  | _, _ => Op op a b
  end.

(** [RTC_SAFECMP_MAKE_FUN]; unary plus promotes. *)
Definition Safe (op : cmp_op) (a b : cval) : bool := Cmp op (int_promote a.1, a.2) (int_promote b.1, b.2).

(** ** Minimum and maximum (safe_minmax.h) *)

Definition low_of (t : ity) : cval := (t, lowest t).
Definition top_of (t : ity) : cval := (t, max_of t).

Definition min_t (T1 T2 : ity) : ity :=
  if Safe LtOp (low_of T1) (low_of T2) then T1
  else if Safe GtOp (low_of T1) (low_of T2) then T2
  else if Safe LeOp (top_of T1) (top_of T2) then T1 else T2.

Definition max_t (T1 T2 : ity) : ity := if Safe GeOp (top_of T1) (top_of T2) then T1 else T2.

(** [TypeOr]: the requested type or the computed one; [None] where the
    assertion stops the compilation. *)
Definition TypeOr (A : option ity) (B : ity) : option ity :=
  let type := default B A in
  if Safe LeOp (low_of type) (low_of B) && Safe GeOp (top_of type) (top_of B) then Some type else None.

Definition SafeMin (R : option ity) (a b : cval) : option cval :=
  R2 ← TypeOr R (min_t a.1 b.1); Some (if Safe LtOp a b then static_cast_to R2 a else static_cast_to R2 b).

Definition SafeMax (R : option ity) (a b : cval) : option cval :=
  R2 ← TypeOr R (max_t a.1 b.1); Some (if Safe GtOp a b then static_cast_to R2 a else static_cast_to R2 b).

(** ** Clamp *)

Definition r_min (T L H : ity) : option cval := m ← SafeMin None (low_of H) (low_of T); SafeMax None (low_of L) m.
Definition r_max (T L H : ity) : option cval := m ← SafeMax None (top_of L) (top_of T); SafeMin None (top_of H) m.

Definition AcceptableType (T L H A : ity) : bool :=
  match r_min T L H, r_max T L H with
  | Some lo, Some hi =>
      ((sizeof A <=? sizeof L) || (sizeof A <=? sizeof H) || (sizeof A <=? sizeof T)) &&
      (Safe LeOp (low_of A) lo && Safe LeOp hi (top_of A))
  | _, _ => false
  end.

Definition best_signed_type (T L H : ity) : ity :=
  if AcceptableType T L H I8 then I8 else if AcceptableType T L H I16 then I16 else if AcceptableType T L H I32 then I32 else I64.
Definition best_unsigned_type (T L H : ity) : ity :=
  if AcceptableType T L H U8 then U8 else if AcceptableType T L H U16 then U16 else if AcceptableType T L H U32 then U32 else U64.

Definition ClampType (T L H : ity) : option ity :=
  let type :=
    if is_signed T then if AcceptableType T L H (best_signed_type T L H) then best_signed_type T L H else best_unsigned_type T L H
    else if AcceptableType T L H (best_unsigned_type T L H) then best_unsigned_type T L H else best_signed_type T L H in
  if AcceptableType T L H type then Some type else None.

(** [RTC_DCHECK_LE(min, max)] compares with
    [SafeLe]. *)
Definition SafeClamp (RTC_DCHECK_IS_ON : bool) (R : option ity) (x mn mx : cval) : option (res cval) :=
  C ← ClampType x.1 mn.1 mx.1;
  R2 ← TypeOr R C;
  Some (let* _ := if RTC_DCHECK_IS_ON then c_assert (Safe LeOp mn mx) else Val () in
        Val (if Safe LeOp x mn then static_cast_to R2 mn else if Safe GeOp x mx then static_cast_to R2 mx else static_cast_to R2 x)).

Example numerics_demo :
  Safe LtOp (I32, -1) (U32, 1) = true ∧ Op LtOp (I32, -1) (U32, 1) = false ∧
  saturated_cast I8 I32 200 = Val 127 ∧ saturated_cast U16 I64 (-5) = Val 0 ∧ checked_cast U8 I32 256 = Aborted ∧
  SafeMin None (I32, -7) (U64, 9) = Some (I32, -7) ∧ SafeMin (Some U8) (I32, 7) (U64, 9) = None ∧
  SafeClamp true None (I64, -9) (U8, 3) (I16, 500) = Some (Val (I16, 3)).
Proof. vm_compute. done. Qed.

(** ** The conversions *)

Lemma conv_in t z : in_range t z → conv t z = z.
Proof.
  unfold in_range, lowest, max_of, conv, bits. intros H.
  destruct t; cbn [is_signed sizeof] in *; first [apply swrap_small; lia | apply uwrap_small; lia].
Qed.

Ltac ranges := unfold in_range, lowest, max_of, bits in *; cbn [is_signed sizeof fst snd] in *; lia.

Lemma op_exact op (a b : cval) : in_range (common a.1 b.1) a.2 → in_range (common a.1 b.1) b.2 → Op op a b = cmp_Z op a.2 b.2.
Proof. intros. unfold Op. by rewrite !conv_in. Qed.

Lemma range_promote t z : in_range t z → in_range (int_promote t) z.
Proof. destruct t; cbn; ranges. Qed.

Lemma range_common t1 t2 z1 z2 : is_signed t1 = is_signed t2 → in_range t1 z1 → in_range t2 z2 →
  in_range (common t1 t2) z1 ∧ in_range (common t1 t2) z2.
Proof. destruct t1, t2; cbn; try done; intros; split; ranges. Qed.

Lemma range_same t z1 z2 : in_range t z1 → in_range t z2 → in_range (common t t) z1 ∧ in_range (common t t) z2.
Proof. by apply range_common. Qed.

Lemma cmp_Z_neg op a b : a < 0 ≤ b → cmp_Z op a b = cmp_Z op (-1) 0 ∧ cmp_Z op b a = cmp_Z op 0 (-1).
Proof. intros. destruct op; cbn; lia. Qed.

Lemma cmp_exact op t1 t2 z1 z2 : in_range t1 z1 → in_range t2 z2 → 4 ≤ sizeof t1 → 4 ≤ sizeof t2 →
  Cmp op (t1, z1) (t2, z2) = cmp_Z op z1 z2.
Proof.
  intros H1 H2 S1 S2. unfold Cmp. cbn [fst snd].
  destruct (is_signed t1) eqn:E1, (is_signed t2) eqn:E2.
  1, 4: destruct (range_common t1 t2 z1 z2); [congruence|done|done|]; by apply op_exact.
  - destruct (LargerInt t2 t1) as [t|] eqn:El.
    + unfold static_cast_to. cbn [fst snd]. rewrite op_exact; cbn [fst snd]; destruct t1, t2; cbn in E1, E2, S1, S2, El; try done; try lia;
        simplify_eq; rewrite ?conv_in by ranges; cbn; try done; ranges.
    + destruct (z1 <? 0) eqn:Ez; reflect_Z.
      * rewrite op_exact by (vm_compute; done). cbn [snd]. symmetry. apply cmp_Z_neg. destruct t2; try done; ranges.
      * unfold MakeUnsigned, static_cast_to. cbn [fst snd].
        rewrite op_exact; cbn [fst snd]; destruct t1, t2; cbn in E1, E2, S1, S2, El; try done; try lia;
          cbn [make_unsigned]; rewrite ?conv_in by ranges; cbn; try done; ranges.
  - destruct (LargerInt t1 t2) as [t|] eqn:El.
    + unfold static_cast_to. cbn [fst snd]. rewrite op_exact; cbn [fst snd]; destruct t1, t2; cbn in E1, E2, S1, S2, El; try done; try lia;
        simplify_eq; rewrite ?conv_in by ranges; cbn; try done; ranges.
    + destruct (z2 <? 0) eqn:Ez; reflect_Z.
      * rewrite op_exact by (vm_compute; done). cbn [snd]. symmetry. apply cmp_Z_neg. destruct t1; try done; ranges.
      * unfold MakeUnsigned, static_cast_to. cbn [fst snd].
        rewrite op_exact; cbn [fst snd]; destruct t1, t2; cbn in E1, E2, S1, S2, El; try done; try lia;
          cbn [make_unsigned]; rewrite ?conv_in by ranges; cbn; try done; ranges.
Qed.

Lemma safe_exact op (a b : cval) : in_range a.1 a.2 → in_range b.1 b.2 → Safe op a b = cmp_Z op a.2 b.2.
Proof.
  intros Ha Hb. unfold Safe. destruct a as [t1 z1], b as [t2 z2]. cbn [fst snd] in *.
  apply cmp_exact; [by apply range_promote..| |]; [by destruct t1|by destruct t2].
Qed.

Lemma op_cast_exact op t Src v z : in_range Src v → in_range Src z → Op op (Src, v) (static_cast_to Src (t, z)) = cmp_Z op v z.
Proof.
  intros Hv Hz. unfold static_cast_to. cbn [snd]. rewrite conv_in by done.
  by rewrite op_exact by (cbn [fst snd]; by apply (range_same Src v z)).
Qed.

Lemma range_check_spec Dst Src v : in_range Src v →
  RangeCheck Dst Src v = if v <? lowest Dst then TYPE_UNDERFLOW else if max_of Dst <? v then TYPE_OVERFLOW else TYPE_VALID.
Proof.
  intros H. unfold RangeCheck. destruct (Z.ltb_spec v (lowest Dst)), (Z.ltb_spec (max_of Dst) v);
    destruct Dst, Src; try (by exfalso; ranges);
    cbv [StaticRangeCheck is_signed sizeof Z.leb Z.mul Z.sub Z.ltb Z.add Z.opp Z.compare Pos.compare Pos.compare_cont Pos.mul Pos.add
         Z.pos_sub Pos.succ Pos.pred_double Z.pred_double Z.double Z.succ_double];
    rewrite ?op_cast_exact by (first [assumption | ranges]); cbn [cmp_Z];
    repeat match goal with |- context [?a <=? ?b] => destruct (Z.leb_spec a b) end;
    cbn [range_check_result]; first [reflexivity | exfalso; ranges].
Qed.

(** ** The computed types *)

Definition all_ity : list ity := [I8; I16; I32; I64; U8; U16; U32; U64].

Lemma for_all_ity (P : ity → bool) : forallb P all_ity = true → ∀ t, P t = true.
Proof. intros H t. apply (proj1 (forallb_forall P all_ity) H). destruct t; cbn; tauto. Qed.

Lemma in_low t : in_range t (lowest t).
Proof. destruct t; ranges. Qed.
Lemma in_top t : in_range t (max_of t).
Proof. destruct t; ranges. Qed.

(** Every value of the second type is one of the first. *)
Definition contains (r t : ity) : bool := (lowest r <=? lowest t) && (max_of t <=? max_of r).

Lemma contains_range r t z : contains r t = true → in_range t z → in_range r z.
Proof. unfold contains, in_range. rewrite andb_true_iff. intros [? ?] ?. reflect_Z. lia. Qed.

Lemma TypeOr_spec A B : TypeOr A B = if contains (default B A) B then Some (default B A) else None.
Proof.
  unfold TypeOr. rewrite !safe_exact; cbn [fst snd low_of top_of]; try apply in_low; try apply in_top. done.
Qed.

Lemma contains_refl t : contains t t = true.
Proof. unfold contains. by rewrite !Z.leb_refl. Qed.

Lemma min_t_spec T1 T2 : min_t T1 T2 =
  if lowest T1 <? lowest T2 then T1 else if lowest T2 <? lowest T1 then T2 else if max_of T1 <=? max_of T2 then T1 else T2.
Proof. unfold min_t. rewrite !safe_exact; cbn [fst snd low_of top_of]; try apply in_low; try apply in_top. done. Qed.

Lemma max_t_spec T1 T2 : max_t T1 T2 = if max_of T2 <=? max_of T1 then T1 else T2.
Proof. unfold max_t. rewrite !safe_exact; cbn [fst snd low_of top_of]; try apply in_low; try apply in_top. done. Qed.

Lemma min_t_range (a b : cval) : in_range a.1 a.2 → in_range b.1 b.2 → in_range (min_t a.1 b.1) (a.2 `min` b.2).
Proof. destruct a as [t1 z1], b as [t2 z2]; cbn [fst snd]. intros. rewrite min_t_spec. unfold in_range in *. repeat case_match; reflect_Z; lia. Qed.

Lemma max_t_range (a b : cval) : in_range a.1 a.2 → in_range b.1 b.2 → in_range (max_t a.1 b.1) (a.2 `max` b.2).
Proof. destruct a as [t1 z1], b as [t2 z2]; cbn [fst snd]. intros. rewrite max_t_spec. unfold in_range in *. repeat case_match; reflect_Z; lia. Qed.

Lemma SafeMin_spec R (a b : cval) : in_range a.1 a.2 → in_range b.1 b.2 →
  SafeMin R a b = let t := default (min_t a.1 b.1) R in
    if contains t (min_t a.1 b.1) then Some (t, a.2 `min` b.2) else None.
Proof.
  intros Ha Hb. unfold SafeMin. rewrite TypeOr_spec. cbn zeta. destruct (contains _ _) eqn:Ec; [|done]. cbn [mbind option_bind].
  pose proof (contains_range _ _ _ Ec (min_t_range a b Ha Hb)) as Hm. rewrite safe_exact by done. cbn [cmp_Z]. unfold static_cast_to.
  destruct (Z.ltb_spec a.2 b.2); do 2 f_equal; rewrite conv_in; first [lia | by replace (a.2 `min` b.2) with a.2 in Hm by lia | by replace (a.2 `min` b.2) with b.2 in Hm by lia].
Qed.

Lemma SafeMax_spec R (a b : cval) : in_range a.1 a.2 → in_range b.1 b.2 →
  SafeMax R a b = let t := default (max_t a.1 b.1) R in
    if contains t (max_t a.1 b.1) then Some (t, a.2 `max` b.2) else None.
Proof.
  intros Ha Hb. unfold SafeMax. rewrite TypeOr_spec. cbn zeta. destruct (contains _ _) eqn:Ec; [|done]. cbn [mbind option_bind].
  pose proof (contains_range _ _ _ Ec (max_t_range a b Ha Hb)) as Hm. rewrite safe_exact by done. cbn [cmp_Z]. unfold static_cast_to.
  destruct (Z.ltb_spec b.2 a.2); do 2 f_equal; rewrite conv_in; first [lia | by replace (a.2 `max` b.2) with a.2 in Hm by lia | by replace (a.2 `max` b.2) with b.2 in Hm by lia].
Qed.

(** ** Clamping *)

Definition clamp (x mn mx : Z) : Z := mn `max` (x `min` mx).

(** The values clamping can give, and the types it may be given in. *)
Definition lo3 (T L H : ity) : Z := lowest L `max` (lowest H `min` lowest T).
Definition hi3 (T L H : ity) : Z := max_of H `min` (max_of L `max` max_of T).
Definition fits (T L H A : ity) : Prop :=
  ∀ x mn mx, in_range T x → in_range L mn → in_range H mx → mn ≤ mx → in_range A (clamp x mn mx).
Definition not_larger (T L H A : ity) : Prop := sizeof A ≤ sizeof T `max` (sizeof L `max` sizeof H).

Lemma around_zero t : lowest t ≤ 0 < max_of t.
Proof. destruct t; ranges. Qed.

Lemma fits_iff T L H A : fits T L H A ↔ lowest A ≤ lo3 T L H ∧ hi3 T L H ≤ max_of A.
Proof.
  pose proof (around_zero T). pose proof (around_zero L). pose proof (around_zero H). unfold fits, lo3, hi3, clamp, in_range. split.
  - intros Hf. split.
    + specialize (Hf (lowest T) (lowest L) (lowest L `max` lowest H)).
      assert (lowest A ≤ lowest L `max` (lowest T `min` (lowest L `max` lowest H))) by (apply Hf; lia). clear Hf. lia.
    + specialize (Hf (max_of T) (max_of L `min` max_of H) (max_of H)).
      assert (max_of L `min` max_of H `max` (max_of T `min` max_of H) ≤ max_of A) by (apply Hf; lia). clear Hf. lia.
  - intros. lia.
Qed.

Definition acceptable (T L H A : ity) : bool :=
  (sizeof A <=? sizeof T `max` (sizeof L `max` sizeof H)) && ((lowest A <=? lo3 T L H) && (hi3 T L H <=? max_of A)).

Lemma acceptable_iff T L H A : acceptable T L H A = true ↔ not_larger T L H A ∧ fits T L H A.
Proof. unfold acceptable, not_larger. rewrite fits_iff, !andb_true_iff, !Z.leb_le. done. Qed.

Lemma r_min_spec T L H : ∃ t, r_min T L H = Some (t, lo3 T L H) ∧ in_range t (lo3 T L H).
Proof.
  unfold r_min, lo3. rewrite SafeMin_spec by apply in_low. cbn [default]. rewrite contains_refl. cbn [mbind option_bind].
  pose proof (min_t_range (low_of H) (low_of T) (in_low H) (in_low T)).
  rewrite SafeMax_spec by (done || apply in_low). cbn [default]. rewrite contains_refl. eexists. split; [done|].
  by apply (max_t_range (low_of L) (_, _) (in_low L)).
Qed.

Lemma r_max_spec T L H : ∃ t, r_max T L H = Some (t, hi3 T L H) ∧ in_range t (hi3 T L H).
Proof.
  unfold r_max, hi3. rewrite SafeMax_spec by apply in_top. cbn [default]. rewrite contains_refl. cbn [mbind option_bind].
  pose proof (max_t_range (top_of L) (top_of T) (in_top L) (in_top T)).
  rewrite SafeMin_spec by (done || apply in_top). cbn [default]. rewrite contains_refl. eexists. split; [done|].
  by apply (min_t_range (top_of H) (_, _) (in_top H)).
Qed.

Lemma AcceptableType_spec T L H A : AcceptableType T L H A = acceptable T L H A.
Proof.
  unfold AcceptableType, acceptable. destruct (r_min_spec T L H) as (t & -> & Ht), (r_max_spec T L H) as (t' & -> & Ht').
  rewrite !safe_exact by (done || apply in_low || apply in_top). cbn [cmp_Z snd low_of top_of]. f_equal.
  destruct (Z.leb_spec (sizeof A) (sizeof L)), (Z.leb_spec (sizeof A) (sizeof H)), (Z.leb_spec (sizeof A) (sizeof T)); cbn; lia.
Qed.

(** The law of the result type: it can hold the result, is no larger than the
    largest argument type, has the signedness of the first argument where such a
    type exists and is the smallest of its signedness. *)
Definition clamp_law (T L H t : ity) : Prop :=
  fits T L H t ∧ not_larger T L H t ∧
  (is_signed t = is_signed T ∨ ∀ A, is_signed A = is_signed T → not_larger T L H A → ¬ fits T L H A) ∧
  (∀ A, is_signed A = is_signed t → not_larger T L H A → fits T L H A → sizeof t ≤ sizeof A).

Definition clamp_law_b (T L H t : ity) : bool :=
  acceptable T L H t &&
  (eqb (is_signed t) (is_signed T) || forallb (λ A, negb (eqb (is_signed A) (is_signed T) && acceptable T L H A)) all_ity) &&
  forallb (λ A, negb (eqb (is_signed A) (is_signed t) && acceptable T L H A) || (sizeof t <=? sizeof A)) all_ity.

Lemma clamp_law_b_sound T L H t : clamp_law_b T L H t = true → clamp_law T L H t.
Proof.
  unfold clamp_law_b. rewrite !andb_true_iff, orb_true_iff. intros [[Ha Hs] Hm]. apply acceptable_iff in Ha as [? ?].
  split_and!; [done..| |].
  - destruct Hs as [Hs|Hs]; [left; by apply eqb_prop|right]. intros A E1 E2 E3.
    pose proof (for_all_ity _ Hs A) as Hn. cbn beta in Hn. by rewrite E1, eqb_reflx, (proj2 (acceptable_iff T L H A)) in Hn.
  - intros A E1 E2 E3. pose proof (for_all_ity _ Hm A) as Hn. cbn beta in Hn.
    rewrite E1, eqb_reflx, (proj2 (acceptable_iff T L H A)) in Hn by done. cbn in Hn. by reflect_Z.
Qed.

Lemma ClampType_spec T L H : ∃ t, ClampType T L H = Some t ∧ clamp_law T L H t.
Proof.
  assert (match ClampType T L H with Some t => clamp_law_b T L H t | None => false end = true) as E.
  { unfold ClampType, best_signed_type, best_unsigned_type. rewrite !AcceptableType_spec.
    revert H. apply for_all_ity. revert L. apply (for_all_ity (λ L, forallb _ _)). revert T. apply (for_all_ity (λ T, forallb _ _)). by vm_compute. }
  destruct (ClampType T L H) as [t|]; [|done]. exists t. split; [done|]. by apply clamp_law_b_sound.
Qed.

(** ** The properties *)

(** The casts: the range check is exact, [checked_cast] stops on exactly the
    values that do not fit, and [saturated_cast] never stops and gives the
    nearest value of the type. *)
Lemma safe_casts Dst Src v : in_range Src v →
  IsValueInRangeForNumericType Dst Src v = bool_decide (in_range Dst v) ∧
  checked_cast Dst Src v = (if decide (in_range Dst v) then Val v else Aborted) ∧
  saturated_cast Dst Src v = Val (clamp v (lowest Dst) (max_of Dst)).
Proof.
  intros H. unfold checked_cast, saturated_cast, IsValueInRangeForNumericType, clamp. rewrite range_check_spec by done.
  pose proof (around_zero Dst). destruct (decide (in_range Dst v)) as [Hd|Hd].
  - rewrite conv_in by done. destruct Hd. rewrite (proj2 (Z.ltb_ge _ _)), (proj2 (Z.ltb_ge _ _)) by lia.
    split_and!; [by rewrite !bool_decide_true|done|f_equal; lia].
  - rewrite (bool_decide_false (in_range _ _)) by done. unfold in_range in Hd.
    destruct (Z.ltb_spec v (lowest Dst)); [|destruct (Z.ltb_spec (max_of Dst) v); [|lia]]; (split_and!; [done..|f_equal; lia]).
Qed.

Lemma SafeClamp_spec d (x mn mx : cval) : in_range x.1 x.2 → in_range mn.1 mn.2 → in_range mx.1 mx.2 → mn.2 ≤ mx.2 →
  ∃ t, clamp_law x.1 mn.1 mx.1 t ∧ SafeClamp d None x mn mx = Some (Val (t, clamp x.2 mn.2 mx.2)).
Proof.
  intros Hx Hn Hm Hle. destruct (ClampType_spec x.1 mn.1 mx.1) as (t & Et & Hlaw). exists t. split; [done|].
  unfold SafeClamp. rewrite Et. cbn [mbind option_bind]. rewrite TypeOr_spec. cbn [default]. rewrite contains_refl. cbn [mbind option_bind].
  rewrite !safe_exact by done. cbn [cmp_Z]. rewrite (proj2 (Z.leb_le mn.2 mx.2)) by done.
  destruct Hlaw as [Hf _]. pose proof (Hf x.2 mn.2 mx.2 Hx Hn Hm Hle) as Hr. unfold clamp in *.
  replace (if d then c_assert true else Val ()) with (Val ()) by (by destruct d). cbn [mbind_res]. unfold static_cast_to.
  destruct (Z.leb_spec x.2 mn.2); [|destruct (Z.leb_spec mx.2 x.2)]; do 3 f_equal; 
    (rewrite conv_in; [lia|]); match type of Hr with in_range _ ?y => match goal with |- in_range _ ?z => by assert (z = y) as -> by lia end end.
Qed.

(** C39: Across the integer types, the comparisons are those of the integers;
    minimum and maximum are exact and in a type that holds them, whether the
    default one or a larger one requested, and do not compile with a type that
    is too small; the clamp always compiles, returns the nearest value of
    the interval, and its type holds every result, is no larger than the
    arguments' types, keeps the signedness of the value where that is possible
    and is the smallest such type. *)
Theorem safe_numerics (a b c : cval) (d : bool) : in_range a.1 a.2 → in_range b.1 b.2 → in_range c.1 c.2 →
  (∀ op, Safe op a b = cmp_Z op a.2 b.2) ∧
  (∃ t, (t = a.1 ∨ t = b.1) ∧ in_range t (a.2 `min` b.2) ∧ SafeMin None a b = Some (t, a.2 `min` b.2) ∧
     ∀ r, SafeMin (Some r) a b = if contains r t then Some (r, a.2 `min` b.2) else None) ∧
  (∃ t, (t = a.1 ∨ t = b.1) ∧ in_range t (a.2 `max` b.2) ∧ SafeMax None a b = Some (t, a.2 `max` b.2) ∧
     ∀ r, SafeMax (Some r) a b = if contains r t then Some (r, a.2 `max` b.2) else None) ∧
  (b.2 ≤ c.2 → ∃ t, clamp_law a.1 b.1 c.1 t ∧ SafeClamp d None a b c = Some (Val (t, clamp a.2 b.2 c.2))).
Proof.
  intros Ha Hb Hc. split_and!.
  - intros op. by apply safe_exact.
  - exists (min_t a.1 b.1). split_and!.
    + rewrite min_t_spec. repeat case_match; tauto.
    + by apply min_t_range.
    + rewrite SafeMin_spec by done. cbn [default]. by rewrite contains_refl.
    + intros r. by rewrite SafeMin_spec by done.
  - exists (max_t a.1 b.1). split_and!.
    + rewrite max_t_spec. case_match; tauto.
    + by apply max_t_range.
    + rewrite SafeMax_spec by done. cbn [default]. by rewrite contains_refl.
    + intros r. by rewrite SafeMax_spec by done.
  - intros. by apply SafeClamp_spec.
Qed.

Lemma safe_numerics_witness :
  Safe LtOp (I64, -3) (U32, 4000000000) = true ∧
  ∃ t, clamp_law I64 U32 I16 t ∧ SafeClamp true None (I64, -3) (U32, 40) (I16, 50) = Some (Val (t, 40)).
Proof.
  split.
  - rewrite (proj1 (safe_numerics (I64, -3) (U32, 4000000000) (I16, 50) true ltac:(vm_compute; done) ltac:(vm_compute; done) ltac:(vm_compute; done))).
    reflexivity.
  - apply (safe_numerics (I64, -3) (U32, 40) (I16, 50) true); vm_compute; done.
Defined.
