(* ===== verification/Units.v ===== *)
(** * Time differences and time stamps (rtc_base/units/unit_base.h, api/units)

    Microseconds in an [int64_t] whose least and greatest values stand for the
    infinities. The theorems are that the arithmetic is that of the integers with
    two infinities wherever the result can be represented and that a debug build
    has no other results, that conversions round to the nearest, and that the two
    conversions to NTP time agree. Overflow of a signed operation is undefined.
    Floating-point operands are left out. *)

From S2P Require Import Prelude SafeNumerics StringBuilder.

Definition PlusInfinityVal : Z := 9223372036854775807.
Definition MinusInfinityVal : Z := -9223372036854775808.

(** A signed result that does not fit is undefined. *)
Definition int64 (z : Z) : res Z := if decide (in_range I64 z) then Val z else Undef.
(** Division of [int64_t] truncates. *)
Definition div64 (n d : Z) : res Z := if d =? 0 then Undef else int64 (n `quot` d).

Section Units.
Context (RTC_DCHECK_IS_ON : bool).
Notation dcheck := (StringBuilder.dcheck RTC_DCHECK_IS_ON).
Notation dchecked_cast := (dchecked_cast RTC_DCHECK_IS_ON).

(** ** [UnitBase] *)

Definition IsZero (v : Z) : bool := v =? 0.
Definition IsPlusInfinity (v : Z) : bool := v =? PlusInfinityVal.
Definition IsMinusInfinity (v : Z) : bool := v =? MinusInfinityVal.
Definition IsInfinite (v : Z) : bool := (v =? PlusInfinityVal) || (v =? MinusInfinityVal).
Definition IsFinite (v : Z) : bool := negb (IsInfinite v).

(** The integral overloads; [T] is the type of the argument. *)
Definition FromValue (one_sided : bool) (T : ity) (value : Z) : res Z :=
  let* _ := if one_sided then dcheck (Safe GeOp (T, value) (I32, 0)) else Val () in
  let* _ := dcheck (Safe GtOp (T, value) (I64, MinusInfinityVal)) in
  let* _ := dcheck (Safe LtOp (T, value) (I64, PlusInfinityVal)) in
  dchecked_cast I64 T value.

(** [value * denominator] is computed in the common type. *)
Definition FromFraction (one_sided : bool) (denominator : Z) (T : ity) (value : Z) : res Z :=
  let* _ := if one_sided then dcheck (Safe GeOp (T, value) (I32, 0)) else Val () in
  let* lo := div64 MinusInfinityVal denominator in
  let* _ := dcheck (Safe GtOp (T, value) (I64, lo)) in
  let* hi := div64 PlusInfinityVal denominator in
  let* _ := dcheck (Safe LtOp (T, value) (I64, hi)) in
  let C := common T I64 in
  let* p := if is_signed C then int64 (conv C value * denominator) else Val (conv C (value * denominator)) in
  dchecked_cast I64 C p.

Definition ToValue (T : ity) (v : Z) : res Z := let* _ := dcheck (IsFinite v) in dchecked_cast T I64 v.
Definition ToValueOr (fallback_value v : Z) : Z := if IsFinite v then v else fallback_value.

Definition DivRoundPositiveToNearest (n d : Z) : res Z := let* h := div64 d 2 in let* s := int64 (n + h) in div64 s d.
Definition DivRoundToNearest (n d : Z) : res Z :=
  let* h := if 0 <=? n then div64 d 2 else div64 (- d) 2 in let* s := int64 (n + h) in div64 s d.

Definition div_nearest (one_sided : bool) (n d : Z) : res Z :=
  if one_sided then DivRoundPositiveToNearest n d else DivRoundToNearest n d.

Definition ToFraction (one_sided : bool) (Denominator : Z) (T : ity) (v : Z) : res Z :=
  let* _ := dcheck (IsFinite v) in let* q := div_nearest one_sided v Denominator in dchecked_cast T I64 q.
Definition ToFractionOr (one_sided : bool) (Denominator fallback_value v : Z) : res Z :=
  if IsFinite v then div_nearest one_sided v Denominator else Val fallback_value.

Definition ToMultiple (Factor : Z) (T : ity) (v : Z) : res Z :=
  let* x := ToValue I64 v in
  let* lo := div64 (lowest T) Factor in
  let* _ := dcheck (Safe GeOp (I64, x) (I64, lo)) in
  let* hi := div64 (max_of T) Factor in
  let* _ := dcheck (Safe LeOp (I64, x) (I64, hi)) in
  let* p := int64 (x * Factor) in
  dchecked_cast T I64 p.

(** ** [RelativeUnit], of which [TimeDelta] is the only instance *)

Definition Clamped (min_value max_value v : Z) : Z := min_value `max` (v `min` max_value).

(** [operator+] and [operator-] of a relative unit with finite results of the
    given unit: [Timestamp] has the same bodies. *)
Definition unit_add (one_sided : bool) (a b : Z) : res Z :=
  if IsPlusInfinity a || IsPlusInfinity b then
    let* _ := dcheck (negb (IsMinusInfinity a)) in
    let* _ := dcheck (negb (IsMinusInfinity b)) in Val PlusInfinityVal
  else if IsMinusInfinity a || IsMinusInfinity b then
    let* _ := dcheck (negb (IsPlusInfinity a)) in
    let* _ := dcheck (negb (IsPlusInfinity b)) in Val MinusInfinityVal
  else
    let* x := ToValue I64 a in
    let* y := ToValue I64 b in
    let* s := int64 (x + y) in FromValue one_sided I64 s.

Definition unit_sub (one_sided : bool) (a b : Z) : res Z :=
  if IsPlusInfinity a || IsMinusInfinity b then
    let* _ := dcheck (negb (IsMinusInfinity a)) in
    let* _ := dcheck (negb (IsPlusInfinity b)) in Val PlusInfinityVal
  else if IsMinusInfinity a || IsPlusInfinity b then
    let* _ := dcheck (negb (IsPlusInfinity a)) in
    let* _ := dcheck (negb (IsMinusInfinity b)) in Val MinusInfinityVal
  else
    let* x := ToValue I64 a in
    let* y := ToValue I64 b in
    let* s := int64 (x - y) in FromValue one_sided I64 s.

(** [operator*] with an [int32_t] or [int64_t]. *)
Definition unit_mul (scalar v : Z) : res Z := let* x := ToValue I64 v in let* p := int64 (x * scalar) in FromValue false I64 p.

Definition round_checks (resolution v : Z) : res unit :=
  let* _ := dcheck (IsFinite v) in
  let* _ := dcheck (IsFinite resolution) in
  dcheck (Safe GtOp (I64, resolution) (I32, 0)).

Definition RoundTo (resolution v : Z) : res Z :=
  let* _ := round_checks resolution v in
  let* h := div64 resolution 2 in let* s := int64 (v + h) in let* q := div64 s resolution in unit_mul resolution q.
Definition RoundUpTo (resolution v : Z) : res Z :=
  let* _ := round_checks resolution v in
  let* s := int64 (v + resolution) in let* s := int64 (s - 1) in let* q := div64 s resolution in unit_mul resolution q.
Definition RoundDownTo (resolution v : Z) : res Z :=
  let* _ := round_checks resolution v in let* q := div64 v resolution in unit_mul resolution q.

(** ** [TimeDelta] *)

Definition td_Seconds (T : ity) (value : Z) : res Z := FromFraction false 1000000 T value.
Definition td_Millis (T : ity) (value : Z) : res Z := FromFraction false 1000 T value.
Definition td_Micros (T : ity) (value : Z) : res Z := FromValue false T value.
Definition td_seconds (T : ity) (v : Z) : res Z := ToFraction false 1000000 T v.
Definition td_ms (T : ity) (v : Z) : res Z := ToFraction false 1000 T v.
Definition td_us (T : ity) (v : Z) : res Z := ToValue T v.
Definition td_ns (T : ity) (v : Z) : res Z := ToMultiple 1000 T v.
Definition td_seconds_or (fallback_value v : Z) : res Z := ToFractionOr false 1000000 fallback_value v.
Definition td_ms_or (fallback_value v : Z) : res Z := ToFractionOr false 1000 fallback_value v.
Definition td_us_or (fallback_value v : Z) : Z := ToValueOr fallback_value v.
Definition Abs (v : Z) : res Z :=
  let* u := td_us I64 v in if u <? 0 then let* n := int64 (- u) in td_Micros I64 n else Val v.
Definition td_add (a b : Z) : res Z := unit_add false a b.
Definition td_sub (a b : Z) : res Z := unit_sub false a b.

(** ** [Timestamp] *)

Definition ts_Seconds (T : ity) (value : Z) : res Z := FromFraction true 1000000 T value.
Definition ts_Millis (T : ity) (value : Z) : res Z := FromFraction true 1000 T value.
Definition ts_Micros (T : ity) (value : Z) : res Z := FromValue true T value.
Definition ts_seconds (T : ity) (v : Z) : res Z := ToFraction true 1000000 T v.
Definition ts_ms (T : ity) (v : Z) : res Z := ToFraction true 1000 T v.
Definition ts_us (T : ity) (v : Z) : res Z := ToValue T v.
Definition ts_seconds_or (fallback_value v : Z) : res Z := ToFractionOr true 1000000 fallback_value v.
Definition ts_ms_or (fallback_value v : Z) : res Z := ToFractionOr true 1000 fallback_value v.
Definition ts_us_or (fallback_value v : Z) : Z := ToValueOr fallback_value v.
Definition ts_add (a delta : Z) : res Z := unit_add true a delta.
Definition ts_sub (a delta : Z) : res Z := unit_sub true a delta.
(** The difference of two time stamps is a [TimeDelta]. *)
Definition ts_diff (a other : Z) : res Z := unit_sub false a other.

(** ** Text (time_delta.cc, timestamp.cc) *)

Definition unit_text (seconds ms : Z → res Z) (value : Z) : res (list Z) :=
  let* sb := ssb_new RTC_DCHECK_IS_ON (replicate 64 0) in
  let put_num n unit := let* sb := put_int RTC_DCHECK_IS_ON n sb in put_cstr RTC_DCHECK_IS_ON (unit ++ [0]) sb in
  let* sb :=
    if IsPlusInfinity value then put_cstr RTC_DCHECK_IS_ON (b#"+inf ms" ++ [0]) sb
    else if IsMinusInfinity value then put_cstr RTC_DCHECK_IS_ON (b#"-inf ms" ++ [0]) sb
    else
      let* us := ToValue I64 value in
      if (us =? 0) || negb (us `rem` 1000 =? 0) then put_num us (b#" us")
      else
        let* m := ms value in
        if negb (m `rem` 1000 =? 0) then put_num m (b#" ms") else let* s := seconds value in put_num s (b#" s") in
  Val (ssb_str sb).

Definition td_ToString (value : Z) : res (list Z) := unit_text (td_seconds I64) (td_ms I64) value.
Definition ts_ToString (value : Z) : res (list Z) := unit_text (ts_seconds I64) (ts_ms I64) value.
End Units.

Example units_demo :
  td_Millis true I32 1500 = Val 1500000 ∧ td_ms true I64 1500499 = Val 1500 ∧ td_ms true I64 (-1500500) = Val (-1501) ∧
  td_add true PlusInfinityVal 7 = Val PlusInfinityVal ∧ td_add true PlusInfinityVal MinusInfinityVal = Aborted ∧
  ts_sub true 5 7 = Aborted ∧ ts_sub false 5 7 = Val (-2) ∧ ts_diff true 5 7 = Val (-2) ∧
  td_ToString true 2500000 = Val (b#"2500 ms") ∧ td_ToString true (-3000000) = Val (b#"-3 s") ∧
  ts_ToString true PlusInfinityVal = Val (b#"+inf ms") ∧ td_us true U8 256 = Aborted ∧ td_us false U8 256 = Val 0.
Proof. vm_compute. done. Qed.

(** ** The integers with two infinities *)

Inductive ext := MInf | Fin (z : Z) | PInf.

Definition ext_of (v : Z) : ext := if IsPlusInfinity v then PInf else if IsMinusInfinity v then MInf else Fin v.

Definition ext_neg (a : ext) : ext := match a with MInf => PInf | Fin z => Fin (- z) | PInf => MInf end.
(** The sum of opposite infinities is not defined. *)
Definition ext_add (a b : ext) : option ext :=
  match a, b with
  | PInf, MInf | MInf, PInf => None
  | PInf, _ | _, PInf => Some PInf
  | MInf, _ | _, MInf => Some MInf
  | Fin x, Fin y => Some (Fin (x + y))
  end.

(** What a unit can represent. *)
Definition fin_ok (one_sided : bool) (z : Z) : Prop := MinusInfinityVal < z < PlusInfinityVal ∧ (one_sided = true → 0 ≤ z).
Definition ext_ok (one_sided : bool) (e : ext) : Prop := match e with Fin z => fin_ok one_sided z | _ => True end.
#[global] Instance ext_ok_dec o e : Decision (ext_ok o e).
Proof. destruct e; cbn; unfold fin_ok; apply _. Defined.
Definition ext_val (e : ext) : Z := match e with MInf => MinusInfinityVal | Fin z => z | PInf => PlusInfinityVal end.

(** The result of an operation is the exact one where it exists. *)
Definition exact (one_sided dc : bool) (e : option ext) (r : res Z) : Prop :=
  match e with
  | Some x => if decide (ext_ok one_sided x) then r = Val (ext_val x) else dc = true → ∀ v, r ≠ Val v
  | None => dc = true → ∀ v, r ≠ Val v
  end.

Lemma i64_range z : in_range I64 z ↔ MinusInfinityVal ≤ z ≤ PlusInfinityVal.
Proof. done. Qed.

Lemma int64_in z : in_range I64 z → int64 z = Val z.
Proof. intros. unfold int64. by rewrite decide_True. Qed.

Section Exact.
Context (dc : bool).
Notation dcheck := (StringBuilder.dcheck dc).

Lemma dcheck_if b : dcheck b = if dc && negb b then Aborted else Val ().
Proof. by destruct dc, b. Qed.

Lemma cast_in T z : in_range I64 z → in_range T z → dchecked_cast dc T I64 z = Val z.
Proof.
  intros Hz HT. unfold dchecked_cast. rewrite conv_in by done. destruct (safe_casts T I64 z Hz) as [-> _].
  rewrite bool_decide_true by done. by destruct dc.
Qed.

Lemma ToValue_fin v : in_range I64 v → IsFinite v = true → ToValue dc I64 v = Val v.
Proof. intros Hv Hf. unfold ToValue. rewrite Hf, dcheck_if, andb_false_r. cbn [mbind_res]. by apply cast_in. Qed.

Lemma FromValue_exact one_sided z : in_range I64 z → exact one_sided dc (Some (Fin z)) (FromValue dc one_sided I64 z).
Proof.
  intros Hz. unfold exact, FromValue. rewrite cast_in by done.
  rewrite !safe_exact by first [done | vm_compute; done]. cbn [cmp_Z snd ext_val]. rewrite !dcheck_if.
  destruct (decide _) as [[Hr H0]|Hn]; cbn in *.
  - rewrite (proj2 (Z.ltb_lt _ _)), (proj2 (Z.ltb_lt _ _)), !andb_false_r by lia. destruct one_sided; [|done].
    rewrite (proj2 (Z.leb_le _ _)) by auto. by rewrite andb_false_r.
  - intros -> v. cbn. rewrite i64_range in Hz. unfold fin_ok in Hn.
    destruct one_sided, (Z.leb_spec 0 z), (Z.ltb_spec MinusInfinityVal z), (Z.ltb_spec z PlusInfinityVal); cbn; try done; exfalso; apply Hn; lia.
Qed.

Lemma not_val_bind (r : res Z) (f : Z → res Z) : (∀ v, r ≠ Val v) → ∀ v, mbind_res f r ≠ Val v.
Proof. intros H v. destruct r; cbn; try done. by destruct (H a). Qed.

Lemma FromValue_int64 one_sided z : exact one_sided dc (Some (Fin z)) (mbind_res (FromValue dc one_sided I64) (int64 z)).
Proof.
  unfold int64. destruct (decide (in_range I64 z)) as [Hz|Hz]; [by apply FromValue_exact|]. unfold exact.
  rewrite decide_False; [done|]. intros [Hr _]. apply Hz, i64_range. lia.
Qed.
Ltac ext_cases v := unfold ext_of; destruct (IsPlusInfinity v) eqn:?, (IsMinusInfinity v) eqn:?.

Lemma not_both v : IsPlusInfinity v = true → IsMinusInfinity v = true → False.
Proof. unfold IsPlusInfinity, IsMinusInfinity, PlusInfinityVal, MinusInfinityVal. intros. reflect_Z. lia. Qed.

Lemma finite_iff v : IsFinite v = negb (IsPlusInfinity v || IsMinusInfinity v).
Proof. done. Qed.

Lemma finite_of v : IsPlusInfinity v = false → IsMinusInfinity v = false → IsFinite v = true.
Proof. intros H1 H2. unfold IsFinite, IsInfinite. unfold IsPlusInfinity, IsMinusInfinity in *. by rewrite H1, H2. Qed.

Lemma unit_add_exact one_sided a b : in_range I64 a → in_range I64 b →
  exact one_sided dc (ext_add (ext_of a) (ext_of b)) (unit_add dc one_sided a b).
Proof.
  intros Ha Hb. unfold unit_add. ext_cases a; try (by exfalso; eapply not_both); ext_cases b; try (by exfalso; eapply not_both);
    cbn [orb ext_add]; rewrite ?dcheck_if.
  all: try (unfold exact; destruct dc; cbn; first [done | by intros ? ?]).
  rewrite !ToValue_fin by (done || by apply finite_of). apply FromValue_int64.
Qed.

Lemma unit_sub_exact one_sided a b : in_range I64 a → in_range I64 b →
  exact one_sided dc (ext_add (ext_of a) (ext_neg (ext_of b))) (unit_sub dc one_sided a b).
Proof.
  intros Ha Hb. unfold unit_sub. ext_cases a; try (by exfalso; eapply not_both); ext_cases b; try (by exfalso; eapply not_both);
    cbn [orb ext_add ext_neg]; rewrite ?dcheck_if.
  all: try (unfold exact; destruct dc; cbn; first [done | by intros ? ?]).
  rewrite !ToValue_fin by (done || by apply finite_of). cbn [mbind_res]. rewrite <- Z.add_opp_r. apply FromValue_int64.
Qed.

Lemma unit_mul_exact k a : in_range I64 a → IsFinite a = true → exact false dc (Some (Fin (a * k))) (unit_mul dc k a).
Proof. intros Ha Hf. unfold unit_mul. rewrite ToValue_fin by done. apply FromValue_int64. Qed.

(** ** Conversions *)

(** The nearest quotient, halves away from zero. *)
Definition nearest (n d : Z) : Z := if 0 <=? n then (n + d / 2) / d else - ((- n + d / 2) / d).

Lemma nearest_spec n d : 0 < d → 2 * Z.abs (n - d * nearest n d) ≤ d.
Proof.
  intros Hd. unfold nearest. destruct (Z.leb_spec 0 n).
  - pose proof (Z.div_mod (n + d / 2) d). pose proof (Z.mod_pos_bound (n + d / 2) d). pose proof (Z.div_mod d 2).
    pose proof (Z.mod_pos_bound d 2). lia.
  - pose proof (Z.div_mod (- n + d / 2) d). pose proof (Z.mod_pos_bound (- n + d / 2) d). pose proof (Z.div_mod d 2).
    pose proof (Z.mod_pos_bound d 2). lia.
Qed.

(** A value for which the rounding does not overflow. *)
Definition roundable (d n : Z) : Prop := MinusInfinityVal ≤ n - d / 2 ∧ n + d / 2 ≤ PlusInfinityVal.

Lemma nearest_range n d : 0 < d → in_range I64 n → in_range I64 (nearest n d).
Proof.
  intros Hd Hn. rewrite i64_range in Hn. rewrite i64_range. pose proof (nearest_spec n d Hd).
  destruct (decide (d = 1)) as [->|].
  2: { set (q := nearest n d) in *. destruct (decide (q = 0)); [unfold MinusInfinityVal, PlusInfinityVal; lia|].
       assert (2 * (2 * Z.abs q - 1) ≤ d * (2 * Z.abs q - 1)) by (apply Z.mul_le_mono_nonneg_r; lia).
       assert (d * (2 * Z.abs q - 1) ≤ 2 * Z.abs n) by (rewrite Z.mul_sub_distr_l, Z.mul_assoc, (Z.mul_comm d 2), <- Z.mul_assoc, <- (Z.abs_eq d) at 1 by lia; rewrite <- Z.abs_mul; lia).
       assert (2 * (2 * Z.abs q - 1) ≤ 2 * Z.abs n) as Hq by (etrans; eassumption). clearbody q. clear - Hn Hq.
       unfold MinusInfinityVal, PlusInfinityVal in *. lia. }
  unfold nearest in *. change (1 / 2) with 0 in *. rewrite !Z.div_1_r in *. destruct (0 <=? n); lia.
Qed.

Lemma div_nearest_spec one_sided n d : 1 < d < 4611686018427387904 → in_range I64 n → roundable d n → (one_sided = true → 0 ≤ n) →
  div_nearest one_sided n d = Val (nearest n d).
Proof.
  intros Hd Hn [Hlo Hhi] H0. rewrite i64_range in Hn. pose proof (Z.div_pos d 2). pose proof (Z.div_lt d 2).
  assert (∀ z, MinusInfinityVal ≤ z ≤ PlusInfinityVal → int64 z = Val z) as Hi by (intros; by apply int64_in, i64_range).
  assert (div64 d 2 = Val (d / 2)) as Ehalf by (unfold div64; cbn; rewrite Z.quot_div_nonneg by lia; apply Hi; unfold MinusInfinityVal, PlusInfinityVal; lia).
  pose proof (nearest_range n d) as Hr. rewrite i64_range in Hr.
  assert (0 ≤ n → (let* s := int64 (n + d / 2) in div64 s d) = Val (nearest n d)) as Hpos.
  { intros Hn0. rewrite Hi by (unfold MinusInfinityVal in *; lia). cbn [mbind_res]. unfold div64.
    rewrite (proj2 (Z.eqb_neq d 0)), Z.quot_div_nonneg by lia. unfold nearest in *. rewrite (proj2 (Z.leb_le 0 n)) in * by lia.
    apply Hi, Hr; lia. }
  unfold div_nearest, DivRoundPositiveToNearest, DivRoundToNearest. destruct one_sided.
  - rewrite Ehalf. cbn [mbind_res]. by apply Hpos, H0.
  - destruct (Z.leb_spec 0 n) as [Hn0|Hn0]; [rewrite Ehalf; cbn [mbind_res]; by apply Hpos|].
    assert (div64 (- d) 2 = Val (- (d / 2))) as ->.
    { unfold div64. cbn [Z.eqb]. rewrite Z.quot_opp_l, Z.quot_div_nonneg by lia. apply Hi. unfold MinusInfinityVal, PlusInfinityVal. lia. }
    cbn [mbind_res]. rewrite Hi by (unfold PlusInfinityVal in *; lia). cbn [mbind_res].
    unfold div64. rewrite (proj2 (Z.eqb_neq d 0)) by lia. replace (n + - (d / 2)) with (- (- n + d / 2)) by lia.
    rewrite Z.quot_opp_l, Z.quot_div_nonneg by lia. unfold nearest in *. rewrite (proj2 (Z.leb_gt 0 n)) in * by lia.
    apply Hi, Hr; lia.
Qed.

Lemma ToFraction_spec one_sided d v : 1 < d < 4611686018427387904 → in_range I64 v → IsFinite v = true → roundable d v →
  (one_sided = true → 0 ≤ v) → ToFraction dc one_sided d I64 v = Val (nearest v d).
Proof.
  intros Hd Hv Hf Hr H0. unfold ToFraction. rewrite Hf, dcheck_if, andb_false_r. cbn [mbind_res].
  rewrite div_nearest_spec by done. cbn [mbind_res]. apply cast_in; apply nearest_range; (done || lia).
Qed.
Lemma FromFraction_spec one_sided d T v : 1 < d < 4611686018427387904 → in_range T v →
  MinusInfinityVal `quot` d < v < PlusInfinityVal `quot` d → (one_sided = true → 0 ≤ v) →
  FromFraction dc one_sided d T v = Val (v * d) ∧ in_range I64 (v * d) ∧ IsFinite (v * d) = true ∧ roundable d (v * d).
Proof.
  intros Hd HT Hv H0.
  assert (PlusInfinityVal `quot` d * d ≤ PlusInfinityVal ∧ 0 ≤ PlusInfinityVal `quot` d) as [Hp Hp0].
  { rewrite Z.quot_div_nonneg by (unfold PlusInfinityVal; lia). split; [|by apply Z.div_pos; unfold PlusInfinityVal; lia].
    rewrite Z.mul_comm. apply Z.mul_div_le. lia. }
  assert (MinusInfinityVal ≤ MinusInfinityVal `quot` d * d ∧ MinusInfinityVal `quot` d ≤ 0) as [Hm Hm0].
  { change MinusInfinityVal with (Z.opp 9223372036854775808). rewrite Z.quot_opp_l, Z.quot_div_nonneg by lia.
    pose proof (Z.mul_div_le 9223372036854775808 d). pose proof (Z.div_pos 9223372036854775808 d). lia. }
  set (hi := PlusInfinityVal `quot` d) in *. set (lo := MinusInfinityVal `quot` d) in *.
  assert ((lo + 1) * d ≤ v * d ≤ (hi - 1) * d) as Hvd by (split; apply Z.mul_le_mono_nonneg_r; lia).
  assert (hi * d - d = (hi - 1) * d) by lia. assert (lo * d + d = (lo + 1) * d) by lia.
  assert (in_range I64 (v * d)) as Hr by (rewrite i64_range; lia).
  assert (in_range I64 hi ∧ in_range I64 lo) as [Hhi Hlo] by (rewrite !i64_range; unfold MinusInfinityVal, PlusInfinityVal in *; nia).
  split_and!; [|done| |].
  - unfold FromFraction, div64. rewrite (proj2 (Z.eqb_neq d 0)) by lia. fold hi lo. rewrite (int64_in hi), (int64_in lo) by done. cbn [mbind_res].
    rewrite !safe_exact by first [done | vm_compute; done]. cbn [cmp_Z snd].
    rewrite (proj2 (Z.ltb_lt lo v)), (proj2 (Z.ltb_lt v hi)), !dcheck_if, !andb_false_r by lia.
    replace (if one_sided then (if dc && negb (0 <=? v) then Aborted else Val ()) else Val ()) with (Val ()).
    2: { destruct one_sided; [|done]. rewrite (proj2 (Z.leb_le 0 v)) by auto. by rewrite andb_false_r. }
    cbn [mbind_res]. destruct (is_signed (common T I64)) eqn:Es.
    + assert (common T I64 = I64) as -> by (by destruct T). rewrite conv_in by (rewrite i64_range; unfold MinusInfinityVal, PlusInfinityVal in *; nia).
      rewrite int64_in by done. cbn [mbind_res]. by apply cast_in.
    + assert (T = U64) as -> by (by destruct T). change (common U64 I64) with U64.
      assert (0 ≤ v) by (by destruct HT). assert (0 ≤ v * d) by (apply Z.mul_nonneg_nonneg; lia).
      assert (in_range U64 (v * d)) by (rewrite i64_range in Hr; unfold in_range, lowest, max_of, bits, PlusInfinityVal in *; cbn [is_signed sizeof] in *; lia).
      rewrite conv_in by done. cbn [mbind_res]. unfold dchecked_cast. destruct (safe_casts I64 U64 (v * d)) as [-> _]; [done|].
      rewrite bool_decide_true, conv_in by done. by destruct dc.
  - apply finite_of; unfold IsPlusInfinity, IsMinusInfinity; apply Z.eqb_neq; lia.
  - split; pose proof (Z.div_lt d 2); pose proof (Z.div_pos d 2); lia.
Qed.

Lemma nearest_exact v d : 0 < d → nearest (v * d) d = v.
Proof. intros Hd. pose proof (nearest_spec (v * d) d Hd) as H. rewrite (Z.mul_comm d), <- Z.mul_sub_distr_r, Z.abs_mul in H. nia. Qed.
End Exact.

(** ** The properties *)

(** In both kinds of build, sums, differences and multiples of time
    differences and time stamps are those of the integers with two infinities
    wherever the unit can represent the result, and a debug build has no other
    results; what was made from seconds or milliseconds of any integer type is
    read back, and reading rounds to the nearest. *)
Theorem time_units_exact dc a b k : in_range I64 a → in_range I64 b →
  exact false dc (ext_add (ext_of a) (ext_of b)) (td_add dc a b) ∧
  exact false dc (ext_add (ext_of a) (ext_neg (ext_of b))) (td_sub dc a b) ∧
  exact true dc (ext_add (ext_of a) (ext_of b)) (ts_add dc a b) ∧
  exact true dc (ext_add (ext_of a) (ext_neg (ext_of b))) (ts_sub dc a b) ∧
  exact false dc (ext_add (ext_of a) (ext_neg (ext_of b))) (ts_diff dc a b) ∧
  (IsFinite a = true → exact false dc (Some (Fin (a * k))) (unit_mul dc k a)) ∧
  (∀ d T v, d = 1000 ∨ d = 1000000 → in_range T v → MinusInfinityVal `quot` d < v < PlusInfinityVal `quot` d →
     (let* t := FromFraction dc false d T v in ToFraction dc false d I64 t) = Val v ∧
     (0 ≤ v → (let* t := FromFraction dc true d T v in ToFraction dc true d I64 t) = Val v)) ∧
  (∀ d, d = 1000 ∨ d = 1000000 → IsFinite a = true → roundable d a →
     ∃ q, ToFraction dc false d I64 a = Val q ∧ 2 * Z.abs (a - d * q) ≤ d ∧
       (0 ≤ a → ToFraction dc true d I64 a = Val q)).
Proof.
  intros Ha Hb. split_and!; [by apply unit_add_exact|by apply unit_sub_exact|by apply unit_add_exact|by apply unit_sub_exact
    |by apply unit_sub_exact|intros; by apply unit_mul_exact| |].
  - intros d T v Hd HT Hv. assert (1 < d < 4611686018427387904) as Hd' by lia. split.
    + destruct (FromFraction_spec dc false d T v Hd' HT Hv) as (-> & Hr & Hf & Ho); [done|]. cbn [mbind_res].
      rewrite ToFraction_spec by done. rewrite nearest_exact by lia. done.
    + intros H0. destruct (FromFraction_spec dc true d T v Hd' HT Hv) as (-> & Hr & Hf & Ho); [done|]. cbn [mbind_res].
      rewrite ToFraction_spec by (done || (intros; apply Z.mul_nonneg_nonneg; lia)). rewrite nearest_exact by lia. done.
  - intros d Hd Hf Ho. assert (1 < d < 4611686018427387904) as Hd' by lia. exists (nearest a d).
    split_and!; [by apply ToFraction_spec|apply nearest_spec; lia|intros; by apply ToFraction_spec].
Qed.

Lemma time_units_exact_witness :
  td_add true 9223372036854775800 (-5) = Val 9223372036854775795 ∧
  (let* t := FromFraction true false 1000 U32 4000000000 in ToFraction true false 1000 I64 t) = Val 4000000000 ∧
  ∃ q, ToFraction true false 1000 I64 9223372036854775200 = Val q ∧ 2 * Z.abs (9223372036854775200 - 1000 * q) ≤ 1000.
Proof.
  split_and!.
  - destruct (time_units_exact true 9223372036854775800 (-5) 1) as [H _]; [vm_compute; done..|]. vm_compute in H. vm_compute. exact H.
  - destruct (time_units_exact true 0 0 1) as (_ & _ & _ & _ & _ & _ & H & _); [vm_compute; done..|].
    destruct (H 1000 U32 4000000000) as [E _]; [left; reflexivity|vm_compute; done|vm_compute; done|exact E].
  - destruct (time_units_exact true 9223372036854775200 0 1) as (_ & _ & _ & _ & _ & _ & _ & H); [vm_compute; done..|].
    destruct (H 1000) as (q & E & Hq & _); [left; reflexivity|vm_compute; reflexivity|vm_compute; done|].
    exists q. split; [exact E|exact Hq].
Defined.

(** Rounding to a resolution truncates toward zero first: a negative
    difference is not rounded up, down or to the nearest. *)
Example round_negative :
  RoundTo true 1000 (-1900) = Val (-1000) ∧ RoundDownTo true 1000 (-1500) = Val (-1000) ∧ RoundUpTo true 1000 (-1500) = Val 0.
Proof. vm_compute. done. Qed.

(** A finite time stamp near the end of its range overflows when it is read in
    milliseconds, and a sum overflows before it is checked. *)
Example reading_overflows : ts_ms true I64 9223372036854775806 = Undef ∧ td_add true 9223372036854775806 2 = Undef.
Proof. vm_compute. done. Qed.

Lemma round_nonneg dc r v : 0 < r → 0 ≤ v → v + r < PlusInfinityVal →
  RoundTo dc r v = Val ((v + r / 2) / r * r) ∧ RoundUpTo dc r v = Val ((v + r - 1) / r * r) ∧ RoundDownTo dc r v = Val (v / r * r).
Proof.
  intros Hr Hv Hm. pose proof (Z.div_pos r 2). pose proof (Z.div_lt_upper_bound r 2 r).
  assert (∀ z, 0 ≤ z ≤ PlusInfinityVal → in_range I64 z) as Hi by (intros; rewrite i64_range; unfold MinusInfinityVal; lia).
  assert (∀ z, 0 ≤ z < PlusInfinityVal → IsFinite z = true) as Hf
    by (intros; apply finite_of; unfold IsPlusInfinity, IsMinusInfinity, MinusInfinityVal; apply Z.eqb_neq; lia).
  assert (round_checks dc r v = Val ()) as Hc.
  { unfold round_checks. rewrite !Hf, !dcheck_if, !andb_false_r by lia. cbn [mbind_res].
    rewrite safe_exact by first [apply Hi; cbn; lia | vm_compute; done]. cbn [cmp_Z snd]. rewrite (proj2 (Z.ltb_lt 0 r)) by lia. by rewrite andb_false_r. }
  assert (∀ s, 0 ≤ s < PlusInfinityVal → (let* q := div64 s r in unit_mul dc r q) = Val (s / r * r)) as Hq.
  { intros s Hs. pose proof (Z.div_pos s r). pose proof (Z.mul_div_le s r). assert (s / r ≤ s) by (apply Z.div_le_upper_bound; nia).
    unfold div64. rewrite (proj2 (Z.eqb_neq r 0)), Z.quot_div_nonneg by lia. rewrite int64_in by (apply Hi; lia). cbn [mbind_res].
    pose proof (unit_mul_exact dc r (s / r)) as Hu. unfold exact in Hu. rewrite decide_True in Hu; [apply Hu; [apply Hi|apply Hf]; lia|].
    split; [unfold MinusInfinityVal; nia|done]. }
  unfold RoundTo, RoundUpTo, RoundDownTo. rewrite Hc. cbn [mbind_res]. split_and!.
  - assert (div64 r 2 = Val (r / 2)) as -> by (unfold div64; cbn [Z.eqb]; rewrite Z.quot_div_nonneg by lia; apply int64_in, Hi; lia). cbn [mbind_res].
    rewrite (int64_in (v + r / 2)) by (apply Hi; lia). cbn [mbind_res]. apply Hq. lia.
  - rewrite (int64_in (v + r)) by (apply Hi; lia). cbn [mbind_res]. rewrite (int64_in (v + r - 1)) by (apply Hi; lia). cbn [mbind_res]. apply Hq. lia.
  - apply Hq. lia.
Qed.
