(* ===== verification/Clock.v ===== *)
(** * Clocks and NTP time (system_wrappers/source/clock.cc, include/ntp_time.h)

    The conversion of a clock's microseconds to NTP time, by the real clock with
    the offset it measures once and by the simulated clock from its epoch. The
    theorems are that the NTP time determines the microseconds up to the wrap of
    2036, and that the two conversions agree. What the clocks of the system say
    is an input. *)

From S2P Require Import Prelude SafeNumerics Units TimeUtils.

(** ** [NtpTime]: seconds and their binary fractions in one [uint64_t] *)

Definition kFractionsPerSecond : Z := 4294967296.
Definition NtpTime_of (seconds fractions : Z) : Z := u64 (seconds * kFractionsPerSecond + fractions).
Definition ntp_Set (seconds fractions : Z) (value : Z) : Z := u64 (seconds * kFractionsPerSecond + fractions).
Definition ntp_Reset (value : Z) : Z := 0.
Definition ntp_Valid (value : Z) : bool := negb (value =? 0).
Definition ntp_eq (n1 n2 : Z) : bool := n1 =? n2.

Section Clock.
Context (RTC_DCHECK_IS_ON : bool).
Notation dcheck := (StringBuilder.dcheck RTC_DCHECK_IS_ON).

Definition ntp_seconds (value : Z) : res Z := dchecked_cast RTC_DCHECK_IS_ON U32 U64 (value / kFractionsPerSecond).
Definition ntp_fractions (value : Z) : res Z := dchecked_cast RTC_DCHECK_IS_ON U32 U64 (value `mod` kFractionsPerSecond).

(** ** The real clock *)

Definition kNtpJan1970Sec : Z := 2208988800.

(** [clock_time] and [utc_time] are what the two clocks said. *)
Definition NtpOffsetUsCalledOnce (clock_time utc_time : Z) : res Z :=
  let* d := int64 (utc_time - clock_time) in int64 (d + kNtpJan1970Sec * kNumMicrosecsPerSec).

Definition TimeMicrosToNtp (ntp_offset_us time_us : Z) : res Z :=
  let* time_ntp_us := int64 (time_us + ntp_offset_us) in
  let* _ := dcheck (Safe GeOp (I64, time_ntp_us) (I32, 0)) in
  let ntp_seconds := u32 (u64 (time_ntp_us `quot` kNumMicrosecsPerSec)) in
  let us_fractions := time_ntp_us `rem` kNumMicrosecsPerSec in
  let* p := int64 (us_fractions * 4294967296) in
  let ntp_fractions := u32 (p `quot` kNumMicrosecsPerSec) in
  Val (NtpTime_of ntp_seconds ntp_fractions).

Definition real_CurrentTime (now_us : Z) : res Z := ts_Micros RTC_DCHECK_IS_ON I64 now_us.

(** [system_dependent] is the floating-point conversion behind the switch. *)
Definition real_CurrentNtpTime (use_system_independent_ntp_time : bool) (offset now_us system_dependent : Z) : res Z :=
  if use_system_independent_ntp_time then TimeMicrosToNtp offset now_us else Val system_dependent.

Definition real_ConvertTimestampToNtpTime (offset timestamp : Z) : res Z :=
  let* us := ts_us RTC_DCHECK_IS_ON I64 timestamp in TimeMicrosToNtp offset us.

(** ** The simulated clock: its [time_us_] *)

Definition SimulatedClock_of (initial_time : Z) : res Z := ts_us RTC_DCHECK_IS_ON I64 initial_time.
Definition sim_CurrentTime (time_us : Z) : res Z := ts_Micros RTC_DCHECK_IS_ON I64 time_us.

Definition kNtpJan1970 : Z := 2208988800.

(** The fraction is computed in [double]: [(now_us % 1000000) * 2^32] is exact
    there, and the quotient, which is no integer only at a distance of at least
    1/15625 from one, is truncated to the same integer as the exact one. *)
Definition sim_ConvertTimestampToNtpTime (timestamp : Z) : res Z :=
  let* now_us := ts_us RTC_DCHECK_IS_ON I64 timestamp in
  let* s := int64 (now_us `quot` 1000000 + kNtpJan1970) in
  let seconds := u32 s in
  let fractions := (now_us `rem` 1000000 * 4294967296) `quot` 1000000 in
  let* fractions := if decide (in_range U32 fractions) then Val fractions else Undef in
  Val (NtpTime_of seconds fractions).

(** [fetch_add] of an atomic wraps. *)
Definition AdvanceTime (delta time_us : Z) : res Z :=
  let* d := td_us RTC_DCHECK_IS_ON I64 delta in Val (s64 (time_us + d)).
Definition AdvanceTimeMilliseconds (milliseconds time_us : Z) : res Z :=
  let* d := td_Millis RTC_DCHECK_IS_ON I64 milliseconds in AdvanceTime d time_us.
Definition AdvanceTimeMicroseconds (microseconds time_us : Z) : res Z :=
  let* d := td_Micros RTC_DCHECK_IS_ON I64 microseconds in AdvanceTime d time_us.

(** ** [Clock] *)

Definition TimeInMilliseconds (current : res Z) : res Z := let* t := current in ts_ms RTC_DCHECK_IS_ON I64 t.
Definition TimeInMicroseconds (current : res Z) : res Z := let* t := current in ts_us RTC_DCHECK_IS_ON I64 t.
Definition CurrentNtpTime (convert : Z → res Z) (current : res Z) : res Z := let* t := current in convert t.
End Clock.

Example clock_demo :
  (let* t := SimulatedClock_of true 1500000 in
   let* t := AdvanceTimeMilliseconds true 250 t in
   let* n := CurrentNtpTime (sim_ConvertTimestampToNtpTime true) (sim_CurrentTime true t) in
   let* s := ntp_seconds true n in let* f := ntp_fractions true n in Val (s, f)) = Val (2208988801, 3221225472).
Proof. vm_compute. done. Qed.

(** ** The properties *)

(** The fraction of a second determines its microseconds. *)
Lemma fraction_recovers u : 0 ≤ u < 1000000 →
  0 ≤ u * 4294967296 / 1000000 < 4294967296 ∧ (u * 4294967296 / 1000000 * 1000000 + 4294967295) / 4294967296 = u.
Proof.
  intros Hu. set (f := u * 4294967296 / 1000000).
  assert (1000000 * f ≤ u * 4294967296 < 1000000 * f + 1000000) as Hf.
  { pose proof (Z.div_mod (u * 4294967296) 1000000). pose proof (Z.mod_pos_bound (u * 4294967296) 1000000). unfold f. lia. }
  clearbody f. split; [lia|]. symmetry. apply Z.div_unique with (f * 1000000 + 4294967295 - 4294967296 * u); lia.
Qed.

Lemma ntp_parts dc s f : 0 ≤ s < 4294967296 → 0 ≤ f < 4294967296 →
  ntp_seconds dc (NtpTime_of s f) = Val s ∧ ntp_fractions dc (NtpTime_of s f) = Val f.
Proof.
  intros Hs Hf. unfold ntp_seconds, ntp_fractions, NtpTime_of, kFractionsPerSecond. rewrite u64_small by lia.
  replace ((s * 4294967296 + f) / 4294967296) with s by (apply Z.div_unique with f; lia).
  replace ((s * 4294967296 + f) `mod` 4294967296) with f by (apply Z.mod_unique with s; lia).
  assert (∀ z, 0 ≤ z < 4294967296 → dchecked_cast dc U32 U64 z = Val z) as Hc.
  { intros z Hz. assert (in_range U32 z) as H32 by (unfold in_range, lowest, max_of, bits; cbn [is_signed sizeof]; lia). unfold dchecked_cast.
    destruct (safe_casts U32 U64 z) as [-> _]; [unfold in_range, lowest, max_of, bits; cbn [is_signed sizeof]; lia|].
    rewrite bool_decide_true, conv_in by done. by destruct dc. }
  by rewrite !Hc.
Qed.

Lemma micros_to_ntp dc off t : 0 ≤ t + off ≤ PlusInfinityVal →
  TimeMicrosToNtp dc off t =
  Val (NtpTime_of (((t + off) / 1000000) `mod` 4294967296) ((t + off) `mod` 1000000 * 4294967296 / 1000000)).
Proof.
  intros H. unfold TimeMicrosToNtp, kNumMicrosecsPerSec. rewrite int64_in by (rewrite i64_range; unfold MinusInfinityVal; lia). cbn [mbind_res].
  rewrite safe_exact by first [rewrite i64_range; unfold MinusInfinityVal; cbn; lia | vm_compute; done]. cbn [cmp_Z snd].
  rewrite (proj2 (Z.leb_le 0 (t + off))), dcheck_if, andb_false_r, Z.quot_div_nonneg, Z.rem_mod_nonneg by lia. cbn [mbind_res].
  pose proof (Z.mod_pos_bound (t + off) 1000000 ltac:(lia)) as Hu. pose proof (proj1 (fraction_recovers _ Hu)).
  rewrite int64_in by (rewrite i64_range; unfold MinusInfinityVal, PlusInfinityVal; lia). cbn [mbind_res].
  rewrite Z.quot_div_nonneg by lia. rewrite (u32_small (_ / _)) by lia. rewrite (u64_small ((t + off) / 1000000)).
  - done.
  - split; [apply Z.div_pos; lia|]. apply Z.div_lt_upper_bound; unfold PlusInfinityVal in *; lia.
Qed.

(** A time stamp the clocks can represent converts to an NTP time whose
    seconds are those since the NTP epoch, modulo 2^32, and whose fraction
    determines the microseconds; and the simulated clock converts as the real
    clock does when that one measured the offset of the Unix epoch. *)
Theorem ntp_time_exact dc off t : 0 ≤ t + off ≤ PlusInfinityVal →
  (∃ n s f, TimeMicrosToNtp dc off t = Val n ∧ ntp_seconds dc n = Val s ∧ ntp_fractions dc n = Val f ∧
     s = ((t + off) / kNumMicrosecsPerSec) `mod` 4294967296 ∧
     (f * kNumMicrosecsPerSec + 4294967295) / 4294967296 = (t + off) `mod` kNumMicrosecsPerSec) ∧
  (0 ≤ t → NtpOffsetUsCalledOnce 0 0 = Val off → sim_ConvertTimestampToNtpTime dc t = real_ConvertTimestampToNtpTime dc off t).
Proof.
  intros H. split.
  - rewrite micros_to_ntp by done. unfold kNumMicrosecsPerSec.
    pose proof (Z.mod_pos_bound (t + off) 1000000 ltac:(lia)) as Hu. destruct (fraction_recovers _ Hu) as [Hf Hr].
    destruct (ntp_parts dc (((t + off) / 1000000) `mod` 4294967296) ((t + off) `mod` 1000000 * 4294967296 / 1000000))
      as [Es Ef]; [by apply Z.mod_pos_bound|done|]. eexists _, _, _. split_and!; [done|exact Es|exact Ef|done|exact Hr].
  - intros Ht Hoff. vm_compute in Hoff. injection Hoff as <-. unfold PlusInfinityVal in H.
    unfold sim_ConvertTimestampToNtpTime, real_ConvertTimestampToNtpTime, ts_us.
    rewrite ToValue_fin.
    2: { rewrite i64_range. unfold MinusInfinityVal, PlusInfinityVal. lia. }
    2: { apply finite_of; unfold IsPlusInfinity, IsMinusInfinity, MinusInfinityVal, PlusInfinityVal; apply Z.eqb_neq; lia. }
    cbn [mbind_res]. rewrite micros_to_ntp by (unfold PlusInfinityVal; lia). rewrite (Z.quot_div_nonneg t), (Z.rem_mod_nonneg t) by lia.
    assert (0 ≤ t / 1000000 ≤ t) as Hq by (split; [apply Z.div_pos; lia|apply Z.div_le_upper_bound; lia]).
    pose proof (Z.mod_pos_bound t 1000000 ltac:(lia)) as Hu. destruct (fraction_recovers _ Hu) as [Hf _].
    rewrite int64_in by (rewrite i64_range; unfold MinusInfinityVal, PlusInfinityVal, kNtpJan1970; lia). cbn [mbind_res].
    rewrite Z.quot_div_nonneg, decide_True by (first [lia | unfold in_range, lowest, max_of, bits; cbn [is_signed sizeof]; lia]). cbn [mbind_res].
    change 2208988800000000 with (kNtpJan1970 * 1000000). rewrite Z.div_add, Z.mod_add by lia. done.
Qed.

Lemma ntp_time_exact_witness :
  (∃ n s f, TimeMicrosToNtp true 2208988800000000 1700000000123456 = Val n ∧ ntp_seconds true n = Val s ∧ ntp_fractions true n = Val f ∧
     s = ((1700000000123456 + 2208988800000000) / kNumMicrosecsPerSec) `mod` 4294967296 ∧
     (f * kNumMicrosecsPerSec + 4294967295) / 4294967296 = (1700000000123456 + 2208988800000000) `mod` kNumMicrosecsPerSec) ∧
  sim_ConvertTimestampToNtpTime true 1700000000123456 = real_ConvertTimestampToNtpTime true 2208988800000000 1700000000123456.
Proof.
  destruct (ntp_time_exact true 2208988800000000 1700000000123456) as [H1 H2].
  - unfold PlusInfinityVal. lia.
  - split; [exact H1|]. apply H2; [lia|reflexivity].
Defined.
