(* ===== verification/PhysicalSocket.v ===== *)
(** * Sockets and the socket server (rtc_base/physical_socket_server.h, .cc, socket.h)

    The sockets, the dispatchers' keys and the set of descriptors the kernel
    polls, for Linux with epoll. The value and [errno] each system call leaves
    are inputs, as are the calls a slot makes when a signal reaches it; the
    kernel's set of polled descriptors is part of the state, because the
    question is whether it says what the sockets ask for. *)

From stdpp Require Import gmap.
From S2P Require Import Prelude IpAddress SocketAddress.

Definition DE_READ : Z := 1.
Definition DE_WRITE : Z := 2.
Definition DE_CONNECT : Z := 4.
Definition DE_CLOSE : Z := 8.
Definition DE_ACCEPT : Z := 16.

Definition EPOLLIN : Z := 1.
Definition EPOLLPRI : Z := 2.
Definition EPOLLOUT : Z := 4.
Definition EPOLLERR : Z := 8.
Definition EPOLLHUP : Z := 16.
Definition EPOLLRDHUP : Z := 8192.

Definition INVALID_SOCKET : Z := -1.
Definition SOCKET_ERROR : Z := -1.
Definition EINTR : Z := 4.
Definition EBADF : Z := 9.
Definition EAGAIN : Z := 11.
Definition EWOULDBLOCK : Z := 11.
Definition ECONNRESET : Z := 104.
Definition EALREADY : Z := 114.
Definition EINPROGRESS : Z := 115.
Definition SOCK_STREAM : Z := 1.
Definition SOCK_DGRAM : Z := 2.

Definition IsBlockingError (e : Z) : bool := (e =? EWOULDBLOCK) || (e =? EAGAIN) || (e =? EINPROGRESS).

Inductive ConnState := CS_CLOSED | CS_CONNECTING | CS_CONNECTED.
#[global] Instance ConnState_eq_dec : EqDecision ConnState.
Proof. solve_decision. Defined.

Inductive sock_option := OPT_DONTFRAGMENT | OPT_RCVBUF | OPT_SNDBUF | OPT_NODELAY | OPT_IPV6_V6ONLY | OPT_DSCP | OPT_RTP_SENDTIME_EXTN_ID.
#[global] Instance sock_option_eq_dec : EqDecision sock_option.
Proof. solve_decision. Defined.

(** What a system call returned, and [errno] after it. *)
Record syscall := Ans { ret : Z; errno : Z }.

(** A [SocketDispatcher] with its [PhysicalSocket]; [resolver_] is the resolver's
    number. *)
Record PhysicalSocket := PS {
  s_ : Z; udp_ : bool; sk_family_ : Z; error_ : Z; state_ : ConnState; resolver_ : option Z;
  enabled_events_ : Z; saved_enabled_events_ : Z }.

Inductive signal := SignalConnectEvent (a : Z) | SignalReadEvent (a : Z) | SignalWriteEvent (a : Z) | SignalCloseEvent (a err : Z).

(** The server with its [Signaler], the sockets by address, the kernel's set of
    polled descriptors with the events and key of each, and the signals sent. *)
Record world := World {
  epoll_fd_ : Z; next_dispatcher_key_ : Z; dispatcher_by_key_ : gmap Z Z; key_by_dispatcher_ : gmap Z Z;
  signal_wakeup_ : Z; afd_ : Z; fSignaled_ : bool; pipe_bytes : Z; fWait_ : bool;
  sockets : gmap Z PhysicalSocket; interest : gmap Z (Z * Z); sent : list signal }.

Definition set_maps n d k w := World (epoll_fd_ w) n d k (signal_wakeup_ w) (afd_ w) (fSignaled_ w) (pipe_bytes w) (fWait_ w) (sockets w) (interest w) (sent w).
Definition set_sockets s w := World (epoll_fd_ w) (next_dispatcher_key_ w) (dispatcher_by_key_ w) (key_by_dispatcher_ w) (signal_wakeup_ w) (afd_ w) (fSignaled_ w) (pipe_bytes w) (fWait_ w) s (interest w) (sent w).
Definition set_interest i w := World (epoll_fd_ w) (next_dispatcher_key_ w) (dispatcher_by_key_ w) (key_by_dispatcher_ w) (signal_wakeup_ w) (afd_ w) (fSignaled_ w) (pipe_bytes w) (fWait_ w) (sockets w) i (sent w).
Definition set_signaler f b wt w := World (epoll_fd_ w) (next_dispatcher_key_ w) (dispatcher_by_key_ w) (key_by_dispatcher_ w) (signal_wakeup_ w) (afd_ w) f b wt (sockets w) (interest w) (sent w).
Definition add_sent g w := World (epoll_fd_ w) (next_dispatcher_key_ w) (dispatcher_by_key_ w) (key_by_dispatcher_ w) (signal_wakeup_ w) (afd_ w) (fSignaled_ w) (pipe_bytes w) (fWait_ w) (sockets w) (interest w) (sent w ++ [g]).

Definition set_s v p := PS v (udp_ p) (sk_family_ p) (error_ p) (state_ p) (resolver_ p) (enabled_events_ p) (saved_enabled_events_ p).
Definition set_created u f p := PS (s_ p) u f (error_ p) (state_ p) (resolver_ p) (enabled_events_ p) (saved_enabled_events_ p).
Definition set_error v p := PS (s_ p) (udp_ p) (sk_family_ p) v (state_ p) (resolver_ p) (enabled_events_ p) (saved_enabled_events_ p).
Definition set_state v p := PS (s_ p) (udp_ p) (sk_family_ p) (error_ p) v (resolver_ p) (enabled_events_ p) (saved_enabled_events_ p).
Definition set_resolver v p := PS (s_ p) (udp_ p) (sk_family_ p) (error_ p) (state_ p) v (enabled_events_ p) (saved_enabled_events_ p).
Definition set_events v p := PS (s_ p) (udp_ p) (sk_family_ p) (error_ p) (state_ p) (resolver_ p) v (saved_enabled_events_ p).
Definition set_saved v p := PS (s_ p) (udp_ p) (sk_family_ p) (error_ p) (state_ p) (resolver_ p) (enabled_events_ p) v.

Definition sock (a : Z) (w : world) : res PhysicalSocket := of_mem (sockets w !! a).
Definition modify (a : Z) (f : PhysicalSocket → PhysicalSocket) (w : world) : res world :=
  let* p := sock a w in Val (set_sockets (<[a := f p]> (sockets w)) w).

Definition has (events flag : Z) : bool := negb (Z.land events flag =? 0).

Definition GetEpollEvents (ff : Z) : Z :=
  let events := if has ff (Z.lor DE_READ DE_ACCEPT) then EPOLLIN else 0 in
  if has ff (Z.lor DE_WRITE DE_CONNECT) then Z.lor events EPOLLOUT else events.

Section Sockets.
Context (RTC_DCHECK_IS_ON : bool).
Definition dcheck (b : bool) : res unit := if RTC_DCHECK_IS_ON then c_assert b else Val ().

(** ** The server's table *)

Definition GetDescriptor (a : Z) (w : world) : res Z :=
  if a =? signal_wakeup_ w then Val (afd_ w) else let* p := sock a w in Val (s_ p).
Definition GetRequestedEvents (a : Z) (w : world) : res Z :=
  if a =? signal_wakeup_ w then Val DE_READ else let* p := sock a w in Val (enabled_events_ p).

(** [epoll_ctl]: adding fails for a descriptor in the set, changing and
    deleting for one outside. *)
Definition AddEpoll (a key : Z) (w : world) : res world :=
  let* fd := GetDescriptor a w in
  let* _ := dcheck (negb (fd =? INVALID_SOCKET)) in
  if fd =? INVALID_SOCKET then Val w
  else
    let* ff := GetRequestedEvents a w in
    match interest w !! fd with
    | Some _ => let* _ := dcheck false in Val w
    | None => Val (set_interest (<[fd := (GetEpollEvents ff, key)]> (interest w)) w)
    end.

Definition RemoveEpoll (a : Z) (w : world) : res world :=
  let* fd := GetDescriptor a w in
  let* _ := dcheck (negb (fd =? INVALID_SOCKET)) in
  if fd =? INVALID_SOCKET then Val w else Val (set_interest (delete fd (interest w)) w).

Definition UpdateEpoll (a key : Z) (w : world) : res world :=
  let* fd := GetDescriptor a w in
  let* _ := dcheck (negb (fd =? INVALID_SOCKET)) in
  if fd =? INVALID_SOCKET then Val w
  else
    let* ff := GetRequestedEvents a w in
    match interest w !! fd with
    | Some _ => Val (set_interest (<[fd := (GetEpollEvents ff, key)]> (interest w)) w)
    | None => let* _ := dcheck false in Val w
    end.

(** [emplace] keeps what is there. *)
Definition emplace (k v : Z) (m : gmap Z Z) : gmap Z Z := match m !! k with Some _ => m | None => <[k := v]> m end.

Definition Add (a : Z) (w : world) : res world :=
  match key_by_dispatcher_ w !! a with
  | Some _ => Val w
  | None =>
      let key := next_dispatcher_key_ w in
      let w := set_maps (u64 (key + 1)) (emplace key a (dispatcher_by_key_ w)) (emplace a key (key_by_dispatcher_ w)) w in
      if negb (epoll_fd_ w =? INVALID_SOCKET) then AddEpoll a key w else Val w
  end.

Definition Remove (a : Z) (w : world) : res world :=
  match key_by_dispatcher_ w !! a with
  | None => Val w
  | Some key =>
      let w := set_maps (next_dispatcher_key_ w) (delete key (dispatcher_by_key_ w)) (delete a (key_by_dispatcher_ w)) w in
      if negb (epoll_fd_ w =? INVALID_SOCKET) then RemoveEpoll a w else Val w
  end.

Definition Update (a : Z) (w : world) : res world :=
  if epoll_fd_ w =? INVALID_SOCKET then Val w
  else match key_by_dispatcher_ w !! a with None => Val w | Some key => UpdateEpoll a key w end.

(** ** The events a socket asks for *)

Definition MaybeUpdateDispatcher (a old_events : Z) (w : world) : res world :=
  let* p := sock a w in
  if negb (GetEpollEvents (enabled_events_ p) =? GetEpollEvents old_events) && (saved_enabled_events_ p =? -1) then Update a w else Val w.

Definition change_events (a : Z) (f : Z → Z) (w : world) : res world :=
  let* p := sock a w in
  let* w := modify a (set_events (f (enabled_events_ p))) w in
  MaybeUpdateDispatcher a (enabled_events_ p) w.

Definition SetEnabledEvents (a events : Z) (w : world) : res world := change_events a (λ _, u8 events) w.
Definition EnableEvents (a events : Z) (w : world) : res world := change_events a (λ e, u8 (Z.lor e events)) w.
Definition DisableEvents (a events : Z) (w : world) : res world := change_events a (λ e, u8 (Z.land e (Z.lnot events))) w.

Definition StartBatchedEventUpdates (a : Z) (w : world) : res world :=
  let* p := sock a w in
  let* _ := dcheck (saved_enabled_events_ p =? -1) in modify a (set_saved (enabled_events_ p)) w.

Definition FinishBatchedEventUpdates (a : Z) (w : world) : res world :=
  let* p := sock a w in
  let* _ := dcheck (negb (saved_enabled_events_ p =? -1)) in
  let old_events := u8 (saved_enabled_events_ p) in
  let* w := modify a (set_saved (-1)) w in MaybeUpdateDispatcher a old_events w.

(** ** Opening and closing *)

Definition SetError (a error : Z) (w : world) : res world := modify a (set_error error) w.

(** [PhysicalSocket::Close], with the virtual [SetEnabledEvents]. *)
Definition PhysicalSocket_Close (a : Z) (closed : syscall) (w : world) : res (Z * world) :=
  let* p := sock a w in
  if s_ p =? INVALID_SOCKET then Val (0, w)
  else
    let w := set_interest (delete (s_ p) (interest w)) w in
    let* w := SetError a (errno closed) w in
    let* w := modify a (λ p, set_state CS_CLOSED (set_s INVALID_SOCKET p)) w in
    let* w := SetEnabledEvents a 0 w in
    let* w := modify a (set_resolver None) w in
    Val (ret closed, w).

Definition Close (a : Z) (closed : syscall) (w : world) : res (Z * world) :=
  let* p := sock a w in
  if s_ p =? INVALID_SOCKET then Val (0, w)
  else
    let* w := modify a (λ p, if negb (saved_enabled_events_ p =? -1) then set_saved 0 p else p) w in
    let* w := Remove a w in
    PhysicalSocket_Close a closed w.

Definition PhysicalSocket_Create (a family type : Z) (opened closed : syscall) (w : world) : res (bool * world) :=
  let* '(_, w) := Close a closed w in
  let* w := modify a (λ p, set_created (SOCK_DGRAM =? type) family (set_s (ret opened) p)) w in
  let* w := SetError a (errno opened) w in
  let* p := sock a w in
  let* w := if udp_ p then SetEnabledEvents a (Z.lor DE_READ DE_WRITE) w else Val w in
  Val (negb (s_ p =? INVALID_SOCKET), w).

Definition Initialize (a : Z) (w : world) : res (bool * world) :=
  let* p := sock a w in
  let* _ := dcheck (negb (s_ p =? INVALID_SOCKET)) in
  let* w := Add a w in Val (true, w).

Definition Create (a family type : Z) (opened closed : syscall) (w : world) : res (bool * world) :=
  let* '(ok, w) := PhysicalSocket_Create a family type opened closed w in
  if negb ok then Val (false, w) else Initialize a w.

(** [new SocketDispatcher(this)] at a fresh address; [udp_] is not initialized. *)
Definition new_socket : PhysicalSocket := PS INVALID_SOCKET false 0 0 CS_CLOSED None 0 (-1).

Definition CreateSocket (a family type : Z) (opened : syscall) (w : world) : res (option Z * world) :=
  let w := set_sockets (<[a := new_socket]> (sockets w)) w in
  let* '(ok, w) := Create a family type opened (Ans 0 0) w in
  if (ok : bool) then Val (Some a, w)
  else let* '(_, w) := Close a (Ans 0 0) w in Val (None, set_sockets (delete a (sockets w)) w).

(** [new SocketDispatcher(s, this)]: [type] is what [getsockopt] says of the
    descriptor. The constructor's own [SetEnabledEvents] is not the virtual one. *)
Definition WrapSocket (a fd type : Z) (getsockopt_ok : bool) (w : world) : res (option Z * world) :=
  let p :=
    if fd =? INVALID_SOCKET then new_socket
    else PS fd (SOCK_DGRAM =? (if getsockopt_ok then type else SOCK_STREAM)) 0 0 CS_CONNECTED None (Z.lor DE_READ DE_WRITE) (-1) in
  let* _ := if fd =? INVALID_SOCKET then Val () else dcheck getsockopt_ok in
  let w := set_sockets (<[a := p]> (sockets w)) w in
  let* '(_, w) := Initialize a w in Val (Some a, w).

(** [delete] of a socket. *)
Definition SocketDispatcher_delete (a : Z) (closed : syscall) (w : world) : res world :=
  let* '(_, w) := Close a closed w in Val (set_sockets (delete a (sockets w)) w).
(** ** The calls of the interface *)

Inductive NetworkBindingResult := SUCCESS | FAILURE | NOT_IMPLEMENTED | ADDRESS_NOT_FOUND | NETWORK_CHANGED.

Definition UpdateLastError (a : Z) (ans : syscall) (w : world) : res world := SetError a (errno ans) w.

(** [binder] is what the network binder said, where there is one; the address
    given to [bind] is returned with the result. *)
Definition Bind (big_endian : bool) (a : Z) (binder : option NetworkBindingResult) (bind_addr : SocketAddress) (ans : syscall) (w : world)
    : res (Z * option SocketAddress * world) :=
  let go addr := let* w := UpdateLastError a ans w in Val (ret ans, Some addr, w) in
  match binder with
  | Some r =>
      if IsAnyIP big_endian bind_addr then go bind_addr
      else
        match r with
        | SUCCESS => go (SetIP (GetAnyIP big_endian (family (ip_ bind_addr))) bind_addr)
        | NOT_IMPLEMENTED => go bind_addr
        | _ => if IsLoopbackIP big_endian bind_addr then go bind_addr else Val (-1, None, w)
        end
  | None => go bind_addr
  end.

Definition DoConnect (a : Z) (connect_addr : SocketAddress) (opened connected : syscall) (w : world) : res (Z * world) :=
  let* p := sock a w in
  let* '(ok, w) := if s_ p =? INVALID_SOCKET then Create a (family (ip_ connect_addr)) SOCK_STREAM opened (Ans 0 0) w else Val (true, w) in
  if negb ok then Val (SOCKET_ERROR, w)
  else
    let* w := UpdateLastError a connected w in
    let events := Z.lor DE_READ DE_WRITE in
    if ret connected =? 0 then
      let* w := modify a (set_state CS_CONNECTED) w in
      let* w := EnableEvents a events w in Val (0, w)
    else
      let* p := sock a w in
      if IsBlockingError (error_ p) then
        let* w := modify a (set_state CS_CONNECTING) w in
        let* w := EnableEvents a (Z.lor events DE_CONNECT) w in Val (0, w)
      else Val (SOCKET_ERROR, w).

(** [resolver] is the number of the resolver a name needs. *)
Definition Connect (a : Z) (addr : SocketAddress) (resolver : Z) (opened connected : syscall) (w : world) : res (Z * world) :=
  let* p := sock a w in
  if negb (bool_decide (state_ p = CS_CLOSED)) then let* w := SetError a EALREADY w in Val (SOCKET_ERROR, w)
  else if IsUnresolvedIP addr then
    let* w := modify a (λ p, set_state CS_CONNECTING (set_resolver (Some resolver) p)) w in Val (0, w)
  else DoConnect a addr opened connected w.

(** [Send] and [SendTo] after the system call; [MaybeRemapSendError] does nothing
    here. *)
Definition Send (a cb : Z) (sent : syscall) (w : world) : res (Z * world) :=
  let* w := UpdateLastError a sent w in
  let* _ := dcheck (ret sent <=? s32 cb) in
  let* p := sock a w in
  let* w := if ((0 <? ret sent) && (ret sent <? s32 cb)) || ((ret sent <? 0) && IsBlockingError (error_ p)) then EnableEvents a DE_WRITE w else Val w in
  Val (ret sent, w).
Definition SendTo (a length : Z) (sent : syscall) (w : world) : res (Z * world) := Send a length sent w.

Definition recv_events (a : Z) (received : syscall) (w : world) : res (Z * world) :=
  let* w := UpdateLastError a received w in
  let* p := sock a w in
  let success := (0 <=? ret received) || IsBlockingError (error_ p) in
  let* w := if udp_ p || success then EnableEvents a DE_READ w else Val w in
  Val (ret received, w).

Definition Recv (a length : Z) (received : syscall) (w : world) : res (Z * world) :=
  if (ret received =? 0) && negb (length =? 0) then
    let* w := EnableEvents a DE_READ w in
    let* w := SetError a EWOULDBLOCK w in Val (SOCKET_ERROR, w)
  else recv_events a received w.

Definition RecvFrom (a length : Z) (received : syscall) (w : world) : res (Z * world) := recv_events a received w.

Definition Listen (a : Z) (ans : syscall) (w : world) : res (Z * world) :=
  let* w := UpdateLastError a ans w in
  if ret ans =? 0 then
    let* w := modify a (set_state CS_CONNECTING) w in
    let* w := EnableEvents a DE_ACCEPT w in Val (ret ans, w)
  else Val (ret ans, w).

(** [new] is the address of the socket for the connection. *)
Definition Accept (a : Z) (accepted : syscall) (new type : Z) (getsockopt_ok : bool) (w : world) : res (option Z * world) :=
  let* w := EnableEvents a DE_ACCEPT w in
  let* w := UpdateLastError a accepted w in
  if ret accepted =? INVALID_SOCKET then Val (None, w) else WrapSocket new (ret accepted) type getsockopt_ok w.

(** ** Options *)

Definition IPPROTO_IP : Z := 0.
Definition IPPROTO_TCP : Z := 6.
Definition IPPROTO_IPV6 : Z := 41.
Definition SOL_SOCKET : Z := 1.
Definition IP_TOS : Z := 1.
Definition IP_MTU_DISCOVER : Z := 10.
Definition SO_RCVBUF : Z := 8.
Definition SO_SNDBUF : Z := 7.
Definition TCP_NODELAY : Z := 1.
Definition IPV6_TCLASS : Z := 67.
Definition IP_PMTUDISC_DONT : Z := 0.
Definition IP_PMTUDISC_DO : Z := 2.

(** The level and name; [RTC_NOTREACHED] stops a debug build. *)
Definition TranslateOption (opt : sock_option) (p : PhysicalSocket) : res (option (Z * Z)) :=
  match opt with
  | OPT_DONTFRAGMENT => Val (Some (IPPROTO_IP, IP_MTU_DISCOVER))
  | OPT_RCVBUF => Val (Some (SOL_SOCKET, SO_RCVBUF))
  | OPT_SNDBUF => Val (Some (SOL_SOCKET, SO_SNDBUF))
  | OPT_NODELAY => Val (Some (IPPROTO_TCP, TCP_NODELAY))
  | OPT_DSCP => Val (Some (if sk_family_ p =? AF_INET6 then (IPPROTO_IPV6, IPV6_TCLASS) else (IPPROTO_IP, IP_TOS)))
  | OPT_RTP_SENDTIME_EXTN_ID => Val None
  | OPT_IPV6_V6ONLY => let* _ := dcheck false in Val None
  end.

(** [value] is what [getsockopt] stored. *)
Definition GetOption (a : Z) (opt : sock_option) (getsockopt_ret value : Z) (w : world) : res (Z * Z) :=
  let* p := sock a w in
  let* lo := TranslateOption opt p in
  match lo with
  | None => Val (-1, value)
  | Some _ =>
      if getsockopt_ret =? -1 then Val (-1, value)
      else
        match opt with
        | OPT_DONTFRAGMENT => Val (getsockopt_ret, if negb (value =? IP_PMTUDISC_DONT) then 1 else 0)
        | OPT_DSCP => Val (getsockopt_ret, Z.shiftr value 2)
        | _ => Val (getsockopt_ret, value)
        end
  end.

(** The calls of [setsockopt] in order: level, name and value. *)
Definition SetOption (a : Z) (opt : sock_option) (value : Z) (ans : syscall) (w : world) : res (Z * list (Z * Z * Z) * world) :=
  let* p := sock a w in
  let* lo := TranslateOption opt p in
  match lo with
  | None => Val (-1, [], w)
  | Some (slevel, sopt) =>
      let value :=
        match opt with
        | OPT_DONTFRAGMENT => if negb (value =? 0) then IP_PMTUDISC_DO else IP_PMTUDISC_DONT
        | OPT_DSCP => s32 (Z.shiftl value 2)
        | _ => value
        end in
      let calls := (if sopt =? IPV6_TCLASS then [(IPPROTO_IP, IP_TOS, value)] else []) ++ [(slevel, sopt, value)] in
      let* w := if negb (ret ans =? 0) then UpdateLastError a ans w else Val w in
      Val (ret ans, calls, w)
  end.

(** ** What a slot does when a signal reaches it *)

Inductive call :=
| CConnect (a : Z) (addr : SocketAddress) (resolver : Z) (opened connected : syscall)
| CSend (a cb : Z) (sent : syscall)
| CRecv (a length : Z) (received : syscall)
| CRecvFrom (a length : Z) (received : syscall)
| CListen (a : Z) (ans : syscall)
| CAccept (a : Z) (accepted : syscall) (new type : Z)
| CClose (a : Z) (closed : syscall)
| CSetError (a error : Z)
| CCreateSocket (a family type : Z) (opened : syscall)
| CDelete (a : Z) (closed : syscall).

Definition do_call (c : call) (w : world) : res world :=
  match c with
  | CConnect a addr resolver opened connected => let* r := Connect a addr resolver opened connected w in Val r.2
  | CSend a cb sent => let* r := Send a cb sent w in Val r.2
  | CRecv a length received => let* r := Recv a length received w in Val r.2
  | CRecvFrom a length received => let* r := RecvFrom a length received w in Val r.2
  | CListen a ans => let* r := Listen a ans w in Val r.2
  | CAccept a accepted new type => let* r := Accept a accepted new type true w in Val r.2
  | CClose a closed => let* r := Close a closed w in Val r.2
  | CSetError a error => SetError a error w
  | CCreateSocket a family type opened => let* r := CreateSocket a family type opened w in Val r.2
  | CDelete a closed => SocketDispatcher_delete a closed w
  end.

Fixpoint do_calls (cs : list call) (w : world) : res world :=
  match cs with [] => Val w | c :: cs => let* w := do_call c w in do_calls cs w end.

(** What the slots connected to each signal do, in the state they find. *)
Context (slots : signal → world → list call).
Definition emit (g : signal) (w : world) : res world := let w := add_sent g w in do_calls (slots g w) w.

(** ** Events *)

Definition OnResolveResult (a resolver error : Z) (address : SocketAddress) (opened connected closed : syscall) (w : world) : res world :=
  let* p := sock a w in
  if negb (bool_decide (resolver_ p = Some resolver)) then Val w
  else
    let* '(error, w) := if error =? 0 then DoConnect a address opened connected w
                        else let* '(_, w) := Close a closed w in Val (error, w) in
    if negb (error =? 0) then let* w := SetError a error w in emit (SignalCloseEvent a error) w else Val w.

Definition SocketDispatcher_OnEvent (a ff err : Z) (w : world) : res world :=
  let* w := if has ff DE_CONNECT then modify a (set_state CS_CONNECTED) w else Val w in
  let* w := if has ff DE_CLOSE then modify a (set_state CS_CLOSED) w else Val w in
  let* w := StartBatchedEventUpdates a w in
  let* w := if has ff DE_CONNECT then let* w := DisableEvents a DE_CONNECT w in emit (SignalConnectEvent a) w else Val w in
  let* w := if has ff DE_ACCEPT then let* w := DisableEvents a DE_ACCEPT w in emit (SignalReadEvent a) w else Val w in
  let* w := if has ff DE_READ then let* w := DisableEvents a DE_READ w in emit (SignalReadEvent a) w else Val w in
  let* w := if has ff DE_WRITE then let* w := DisableEvents a DE_WRITE w in emit (SignalWriteEvent a) w else Val w in
  let* w := if has ff DE_CLOSE then let* w := SetEnabledEvents a 0 w in emit (SignalCloseEvent a err) w else Val w in
  FinishBatchedEventUpdates a w.

(** The [Signaler]: a byte in its pipe while it is signaled. *)
Definition Signal (w : world) : world :=
  if fSignaled_ w then w else set_signaler true (pipe_bytes w + 1) (fWait_ w) w.
Definition WakeUp (w : world) : world := Signal w.

Definition Signaler_OnEvent (w : world) : res world :=
  if fSignaled_ w then
    let n := 4 `min` pipe_bytes w in
    let* _ := dcheck (n =? 1) in Val (set_signaler false (pipe_bytes w - n) false w)
  else Val (set_signaler false (pipe_bytes w) false w).

Definition OnEvent (a ff err : Z) (w : world) : res world :=
  if a =? signal_wakeup_ w then Signaler_OnEvent w else SocketDispatcher_OnEvent a ff err w.

(** [peek] is what [recv] with [MSG_PEEK] left. *)
Definition IsDescriptorClosed (a : Z) (peek : syscall) (w : world) : res bool :=
  if a =? signal_wakeup_ w then Val false
  else
    let* p := sock a w in
    if udp_ p then Val (s_ p =? INVALID_SOCKET)
    else if 0 <? ret peek then Val false
    else if ret peek =? 0 then Val true
    else Val ((errno peek =? EBADF) || (errno peek =? ECONNRESET)).

(** [so_error] is what [getsockopt] says of [SO_ERROR]. *)
Definition ProcessEvents (a : Z) (readable writable check_error : bool) (so_error : Z) (peek : syscall) (w : world) : res world :=
  let errcode := if check_error then so_error else 0 in
  let* requested_events := GetRequestedEvents a w in
  let* ff :=
    if readable then
      if has requested_events DE_ACCEPT then Val DE_ACCEPT
      else if negb (errcode =? 0) then Val DE_CLOSE
      else let* c := IsDescriptorClosed a peek w in Val (if (c : bool) then DE_CLOSE else DE_READ)
    else Val 0 in
  let ff :=
    if writable then
      if has requested_events DE_CONNECT then if errcode =? 0 then Z.lor ff DE_CONNECT else Z.lor ff DE_CLOSE
      else Z.lor ff DE_WRITE
    else ff in
  if negb (ff =? 0) then OnEvent a ff errcode w else Val w.
(** ** Waiting *)

Definition ss_kForever : Z := -1.

(** One event [epoll_wait] reports, with what the kernel says of the socket. *)
Record epoll_event := Event { events : Z; key : Z; so_error : Z; peek : syscall }.

Definition process_epoll (e : epoll_event) (w : world) : res world :=
  match dispatcher_by_key_ w !! key e with
  | None => Val w
  | Some a =>
      ProcessEvents a (has (events e) (Z.lor EPOLLIN EPOLLPRI)) (has (events e) EPOLLOUT)
        (has (events e) (Z.lor (Z.lor EPOLLRDHUP EPOLLERR) EPOLLHUP)) (so_error e) (peek e) w
  end.

Fixpoint process_epolls (es : list epoll_event) (w : world) : res world :=
  match es with [] => Val w | e :: es => let* w := process_epoll e w in process_epolls es w end.

(** What [epoll_wait] or [poll] returned: an error or the events; and the time
    after the round. *)
Inductive wait_answer := WaitError (e : Z) | WaitEvents (es : list epoll_event).
Record round := Round { answered : wait_answer; now : Z }.

(** [None] while it still waits at the end of the rounds. *)
Fixpoint wait_epoll (cmsWait tvStop : Z) (rounds : list round) (w : world) : option (res (bool * world)) :=
  if negb (fWait_ w) then Some (Val (true, w))
  else
    match rounds with
    | [] => None
    | r :: rounds =>
        let after w := if negb (cmsWait =? ss_kForever) && (tvStop - now r <=? 0) then Some (Val (true, w)) else wait_epoll cmsWait tvStop rounds w in
        match answered r with
        | WaitError e => if negb (e =? EINTR) then Some (Val (false, w)) else after w
        | WaitEvents [] => Some (Val (true, w))
        | WaitEvents es =>
            match process_epolls es w with Val w => after w | Null => Some Null | Aborted => Some Aborted | Undef => Some Undef end
        end
    end.

Definition WaitEpoll (cmsWait start : Z) (rounds : list round) (w : world) : option (res (bool * world)) :=
  wait_epoll cmsWait (start + cmsWait) rounds (set_signaler (fSignaled_ w) (pipe_bytes w) true w).

(** [poll] of one dispatcher. *)
Fixpoint wait_poll (cmsWait tvStop dispatcher : Z) (rounds : list round) (w : world) : option (res (bool * world)) :=
  if negb (fWait_ w) then Some (Val (true, w))
  else
    match rounds with
    | [] => None
    | r :: rounds =>
        let after w := if negb (cmsWait =? ss_kForever) && (tvStop - now r <? 0) then Some (Val (true, w)) else wait_poll cmsWait tvStop dispatcher rounds w in
        match answered r with
        | WaitError e => if negb (e =? EINTR) then Some (Val (false, w)) else after w
        | WaitEvents [] => Some (Val (true, w))
        | WaitEvents (e :: _) =>
            match ProcessEvents dispatcher (has (events e) (Z.lor EPOLLIN EPOLLPRI)) (has (events e) EPOLLOUT)
                    (has (events e) (Z.lor (Z.lor EPOLLRDHUP EPOLLERR) EPOLLHUP)) (so_error e) (peek e) w with
            | Val w => after w | Null => Some Null | Aborted => Some Aborted | Undef => Some Undef
            end
        end
    end.

Definition WaitPoll (cmsWait start dispatcher : Z) (rounds : list round) (w : world) : option (res (bool * world)) :=
  wait_poll cmsWait (start + cmsWait) dispatcher rounds (set_signaler (fSignaled_ w) (pipe_bytes w) true w).

(** [select]: the descriptors it found readable and writable, and what the
    kernel says of each. *)
Inductive select_answer := SelectError (e : Z) | SelectTimeout | SelectReady (fdsRead fdsWrite : gset Z) (so_error : Z → Z) (peek : Z → syscall).

Definition current_dispatcher_keys (process_io : bool) (w : world) : list Z :=
  omap (λ kv, if negb process_io && negb (kv.2 =? signal_wakeup_ w) then None else Some kv.1) (map_to_list (dispatcher_by_key_ w)).

Fixpoint process_select (keys : list Z) (fdsRead fdsWrite : gset Z) (so_error : Z → Z) (peek : Z → syscall) (w : world) : res world :=
  match keys with
  | [] => Val w
  | key :: keys =>
      match dispatcher_by_key_ w !! key with
      | None => process_select keys fdsRead fdsWrite so_error peek w
      | Some a =>
          let* fd := GetDescriptor a w in
          let readable := bool_decide (fd ∈ fdsRead) in
          let writable := bool_decide (fd ∈ fdsWrite) in
          let* w := ProcessEvents a readable writable (readable || writable) (so_error fd) (peek fd) w in
          process_select keys (fdsRead ∖ {[fd]}) (fdsWrite ∖ {[fd]}) so_error peek w
      end
  end.

Fixpoint wait_select (process_io : bool) (rounds : list select_answer) (w : world) : option (res (bool * world)) :=
  if negb (fWait_ w) then Some (Val (true, w))
  else
    match rounds with
    | [] => None
    | SelectError e :: rounds => if negb (e =? EINTR) then Some (Val (false, w)) else wait_select process_io rounds w
    | SelectTimeout :: _ => Some (Val (true, w))
    | SelectReady r wr so_error peek :: rounds =>
        match process_select (current_dispatcher_keys process_io w) r wr so_error peek w with
        | Val w => wait_select process_io rounds w | Null => Some Null | Aborted => Some Aborted | Undef => Some Undef
        end
    end.

Definition WaitSelect (process_io : bool) (rounds : list select_answer) (w : world) : option (res (bool * world)) :=
  wait_select process_io rounds (set_signaler (fSignaled_ w) (pipe_bytes w) true w).

(** [Wait]; [rounds] and [selects] are what the kernel answers to the way of
    waiting that is chosen. *)
Definition Wait (cmsWait start : Z) (process_io : bool) (rounds : list round) (selects : list select_answer) (w : world)
    : option (res (bool * world)) :=
  if negb process_io then WaitPoll cmsWait start (signal_wakeup_ w) rounds w
  else if negb (epoll_fd_ w =? INVALID_SOCKET) then WaitEpoll cmsWait start rounds w
  else WaitSelect process_io selects w.

(** The server's constructor: [epoll_fd] from [epoll_create], the [Signaler] at
    address [signaler] with the reading end [afd] of its pipe. *)
Definition PhysicalSocketServer_new (epoll_fd signaler afd : Z) : res world :=
  Add signaler (World epoll_fd 0 ∅ ∅ signaler afd false 0 false ∅ ∅ []).
End Sockets.
