(* ===== verification/PhysicalSocketInv.v ===== *)
(** * The socket server polls what its sockets ask for

    The invariant of the sockets, the server's table and the kernel's set of
    polled descriptors, and its preservation by every call, by the events with
    whatever the slots do, and by the end of a name lookup. *)

From stdpp Require Import gmap.
From S2P Require Import Prelude IpAddress SocketAddress PhysicalSocket.

Notation INV := INVALID_SOCKET.

(** What the kernel should poll for a socket: during a batch, what it asked
    for at its start. *)
Definition polled (p : PhysicalSocket) : Z := if saved_enabled_events_ p =? -1 then enabled_events_ p else saved_enabled_events_ p.

Definition byte_events (p : PhysicalSocket) : Prop :=
  0 ≤ enabled_events_ p < 256 ∧ (saved_enabled_events_ p = -1 ∨ 0 ≤ saved_enabled_events_ p < 256).

(** A socket and its entries in the tables. *)
Definition sock_ok (w : world) (a : Z) (p : PhysicalSocket) : Prop :=
  byte_events p ∧
  if s_ p =? INV then key_by_dispatcher_ w !! a = None ∧ enabled_events_ p = 0 ∧ (saved_enabled_events_ p = -1 ∨ saved_enabled_events_ p = 0)
  else 0 ≤ s_ p ∧ ∃ k, key_by_dispatcher_ w !! a = Some k ∧ interest w !! s_ p = Some (GetEpollEvents (polled p), k).

(** [b] is the socket that is in a batch. *)
Record inv (b : option Z) (w : world) : Prop := Inv {
  i_epoll : epoll_fd_ w ≠ INV;
  i_sig : sockets w !! signal_wakeup_ w = None ∧ 0 ≤ afd_ w ∧
    ∃ k, key_by_dispatcher_ w !! signal_wakeup_ w = Some k ∧ interest w !! afd_ w = Some (EPOLLIN, k);
  i_pipe : pipe_bytes w = if fSignaled_ w then 1 else 0;
  i_maps : ∀ k a, dispatcher_by_key_ w !! k = Some a ↔ key_by_dispatcher_ w !! a = Some k;
  i_keys : ∀ k a, dispatcher_by_key_ w !! k = Some a → k < next_dispatcher_key_ w;
  i_next : 0 ≤ next_dispatcher_key_ w < 2 ^ 64;
  i_socks : ∀ a p, sockets w !! a = Some p → sock_ok w a p;
  i_fds : ∀ fd e k, interest w !! fd = Some (e, k) → ∃ a, dispatcher_by_key_ w !! k = Some a ∧
    (a = signal_wakeup_ w ∧ fd = afd_ w ∨ ∃ p, sockets w !! a = Some p ∧ s_ p = fd);
  i_live : ∀ a k, key_by_dispatcher_ w !! a = Some k → a = signal_wakeup_ w ∨ is_Some (sockets w !! a);
  i_batch : ∀ a p, sockets w !! a = Some p → (saved_enabled_events_ p ≠ -1 ↔ b = Some a);
  i_in : ∀ a, b = Some a → is_Some (sockets w !! a)
}.

(** Keys are never given out twice, the signaler stays, and a wait that was
    ended stays ended. *)
Record evolves (w w' : world) : Prop := Evolves {
  ev_next : next_dispatcher_key_ w ≤ next_dispatcher_key_ w';
  ev_keys : ∀ k a, k < next_dispatcher_key_ w → dispatcher_by_key_ w' !! k = Some a → dispatcher_by_key_ w !! k = Some a;
  ev_sig : signal_wakeup_ w' = signal_wakeup_ w ∧ afd_ w' = afd_ w ∧ (fWait_ w' = true → fWait_ w = true) ∧
    key_by_dispatcher_ w' !! signal_wakeup_ w = key_by_dispatcher_ w !! signal_wakeup_ w
}.

#[global] Instance evolves_refl : Reflexive evolves.
Proof. by split. Qed.
#[global] Instance evolves_trans : Transitive evolves.
Proof. intros w1 w2 w3 [? ? (E1 & ? & ? & ?)] [? ? (? & ? & ? & ?)]. split; [lia| |rewrite E1 in *; split_and!; [congruence..|by auto|congruence]]. intros k a Hk Hd. assert (k < next_dispatcher_key_ w2) by lia. eauto. Qed.

Lemma sock_eq a p w : sockets w !! a = Some p → sock a w = Val p.
Proof. intros H. unfold sock. by rewrite H. Qed.

Lemma modify_eq a f p w : sockets w !! a = Some p → modify a f w = Val (set_sockets (<[a := f p]> (sockets w)) w).
Proof. intros H. unfold modify. by rewrite (sock_eq _ _ _ H). Qed.

Section Inv.
Context (dc : bool).
Notation dcheck := (PhysicalSocket.dcheck dc).

Lemma check_true : dcheck true = Val ().
Proof. unfold PhysicalSocket.dcheck. by destruct dc. Qed.

Lemma not_sig b w a p : inv b w → sockets w !! a = Some p → a =? signal_wakeup_ w = false.
Proof. intros Hi Ha. apply Z.eqb_neq. intros ->. destruct (i_sig _ _ Hi) as [H _]. congruence. Qed.

(** The fields of a socket that the tables do not depend on. *)
Lemma inv_same b w a p p' : inv b w → sockets w !! a = Some p → s_ p' = s_ p → enabled_events_ p' = enabled_events_ p →
  saved_enabled_events_ p' = saved_enabled_events_ p → inv b (set_sockets (<[a := p']> (sockets w)) w).
Proof.
  intros Hi Ha Hs He Hv. destruct Hi as [H1 H2 H3 H4 H5 H6 H7 H8 H9 H10 H11]. split; try done; cbn.
  - destruct H2 as (Hn & H2). split; [|done]. rewrite lookup_insert_ne; [done|]. congruence.
  - intros c q Hq. apply lookup_insert_Some in Hq as [[<- <-]|[Hne Hq]]; [|by apply H7 in Hq].
    specialize (H7 _ _ Ha). unfold sock_ok, byte_events, polled in *. by rewrite Hs, He, Hv.
  - intros fd e k Hk. destruct (H8 _ _ _ Hk) as (c & Hc & [?|(q & Hq & Hf)]); exists c; split; [done|by left|done|right].
    destruct (decide (c = a)) as [->|]; [exists p'|exists q]; simplify_map_eq; split; [done|congruence|done|done].
  - intros c k Hc. destruct (H9 _ _ Hc) as [?|Hq]; [by left|right]. destruct (decide (c = a)) as [->|]; by simplify_map_eq.
  - intros c q Hq. apply lookup_insert_Some in Hq as [[<- <-]|[Hne Hq]]; [rewrite Hv|]; by apply H10.
  - intros c Hc. destruct (decide (c = a)) as [->|]; simplify_map_eq; [done|by apply H11].
Qed.
(** Two registered descriptors are different. *)
Lemma fd_unique b w a c p q : inv b w → sockets w !! a = Some p → sockets w !! c = Some q → s_ p ≠ INV → s_ q = s_ p → a = c.
Proof.
  intros Hi Ha Hc Hp Hs. pose proof (i_socks _ _ Hi _ _ Ha) as [_ Hpa]. pose proof (i_socks _ _ Hi _ _ Hc) as [_ Hqc].
  rewrite Hs in Hqc. rewrite (proj2 (Z.eqb_neq _ _)) in Hpa, Hqc by done.
  destruct Hpa as (_ & k & Hk & Hik), Hqc as (_ & k' & Hk' & Hik'). rewrite Hik in Hik'. injection Hik' as _ ->.
  apply (i_maps _ _ Hi) in Hk, Hk'. congruence.
Qed.

Lemma fd_not_afd b w a p : inv b w → sockets w !! a = Some p → s_ p ≠ INV → s_ p ≠ afd_ w.
Proof.
  intros Hi Ha Hp He. pose proof (i_socks _ _ Hi _ _ Ha) as [_ Hpa]. rewrite (proj2 (Z.eqb_neq _ _)) in Hpa by done.
  destruct Hpa as (_ & k & Hk & Hik). destruct (i_sig _ _ Hi) as (Hn & _ & k' & Hk' & Hik'). rewrite He, Hik' in Hik. injection Hik as _ ->.
  apply (i_maps _ _ Hi) in Hk, Hk'. congruence.
Qed.

(** An open socket changes what it asks for or its batch, and the kernel is told. *)
Lemma inv_poll b b' w a p p' k : inv b w → sockets w !! a = Some p → s_ p ≠ INV → key_by_dispatcher_ w !! a = Some k →
  s_ p' = s_ p → byte_events p' → (saved_enabled_events_ p' ≠ -1 ↔ b' = Some a) → (∀ c, c ≠ a → (b = Some c ↔ b' = Some c)) →
  inv b' (set_interest (<[s_ p := (GetEpollEvents (polled p'), k)]> (interest w)) (set_sockets (<[a := p']> (sockets w)) w)).
Proof.
  intros Hi Ha Hp Hk Hs Hb Hsv Hbb. pose proof (fd_not_afd _ _ _ _ Hi Ha Hp) as Hafd.
  pose proof (λ c q Hc, fd_unique _ _ a c p q Hi Ha Hc Hp) as Huniq. pose proof (i_socks _ _ Hi _ _ Ha) as [_ Hpa]. rewrite (proj2 (Z.eqb_neq _ _)) in Hpa by done.
  destruct Hi as [H1 H2 H3 H4 H5 H6 H7 H8 H9 H10 H11]. split; try done; cbn.
  - destruct H2 as (Hn & Hf & k' & Hk' & Hik'). split_and!; [rewrite lookup_insert_ne; [done|congruence]|done|]. exists k'.
    split; [done|]. by rewrite lookup_insert_ne.
  - intros c q Hq. apply lookup_insert_Some in Hq as [[<- <-]|[Hne Hq]].
    + split; [done|]. cbn. rewrite Hs, (proj2 (Z.eqb_neq _ _)) by done. split; [tauto|]. exists k. by rewrite lookup_insert_eq.
    + specialize (H7 _ _ Hq) as [Hbq Hq7]. split; [done|]. cbn. destruct (s_ q =? INV) eqn:Eq; [done|].
      rewrite lookup_insert_ne; [done|]. intros E. apply Hne. by apply (Huniq c q Hq).
  - intros fd e k' Hf. apply lookup_insert_Some in Hf as [[<- [= <- <-]]|[Hne Hf]].
    + exists a. split; [by apply H4|]. right. exists p'. by simplify_map_eq.
    + destruct (H8 _ _ _ Hf) as (c & Hc & [?|(q & Hq & Hfq)]); exists c; split; [done|by left|done|right].
      destruct (decide (c = a)) as [->|]; [simplify_eq|exists q]; by simplify_map_eq.
  - intros c k' Hc. destruct (H9 _ _ Hc) as [?|Hq]; [by left|right]. destruct (decide (c = a)) as [->|]; by simplify_map_eq.
  - intros c q Hq. apply lookup_insert_Some in Hq as [[<- <-]|[Hne Hq]]; [done|]. rewrite <- Hbb by done. by apply H10.
  - intros c Hc. destruct (decide (c = a)) as [->|Hne]; simplify_map_eq; [done|]. apply H11. by apply Hbb.
Qed.

Lemma evolves_same w s i : evolves w (set_interest i (set_sockets s w)).
Proof. by split. Qed.

Lemma interest_id w fd v : interest w !! fd = Some v → set_interest (<[fd := v]> (interest w)) w = w.
Proof. intros. destruct w; cbn in *. unfold set_interest; cbn. by rewrite insert_id. Qed.

(** [Update] of an open socket tells the kernel what it asks for. *)
Lemma Update_open w a p k : epoll_fd_ w ≠ INV → a =? signal_wakeup_ w = false → sockets w !! a = Some p → s_ p ≠ INV →
  key_by_dispatcher_ w !! a = Some k → is_Some (interest w !! s_ p) →
  Update dc a w = Val (set_interest (<[s_ p := (GetEpollEvents (enabled_events_ p), k)]> (interest w)) w).
Proof.
  intros He Hsig Ha Hp Hk [x Hx]. unfold Update. rewrite (proj2 (Z.eqb_neq _ _)) by done. rewrite Hk.
  unfold UpdateEpoll, GetDescriptor, GetRequestedEvents. rewrite Hsig, (sock_eq _ _ _ Ha). cbn [mbind_res].
  rewrite (proj2 (Z.eqb_neq _ _)) by done. cbn [negb]. rewrite check_true. cbn [mbind_res]. by rewrite Hx.
Qed.

Lemma change_open b w a p f : inv b w → sockets w !! a = Some p → s_ p ≠ INV → 0 ≤ f (enabled_events_ p) < 256 →
  ∃ w', change_events dc a f w = Val w' ∧ inv b w' ∧ evolves w w' ∧ sockets w' = <[a := set_events (f (enabled_events_ p)) p]> (sockets w) ∧
    next_dispatcher_key_ w' = next_dispatcher_key_ w.
Proof.
  intros Hi Ha Hp Hf. unfold change_events. rewrite (sock_eq _ _ _ Ha). cbn [mbind_res]. rewrite (modify_eq _ _ _ _ Ha). cbn [mbind_res].
  pose proof (i_socks _ _ Hi _ _ Ha) as [[Hb1 Hb2] Hpa]. rewrite (proj2 (Z.eqb_neq _ _)) in Hpa by done. destruct Hpa as (Hfd & k & Hk & Hik).
  set (p' := set_events _ p). set (w1 := set_sockets _ w).
  assert (inv b (set_interest (<[s_ p := (GetEpollEvents (polled p'), k)]> (interest w1)) w1)) as Hi'.
  { apply (inv_poll b b w a p p' k); [done..| |exact (i_batch _ _ Hi _ _ Ha)|done]. by split. }
  assert (sockets w1 !! a = Some p') as Ha1 by (cbn; by rewrite lookup_insert_eq).
  unfold MaybeUpdateDispatcher. rewrite (sock_eq _ _ _ Ha1). cbn [mbind_res]. change (enabled_events_ p') with (f (enabled_events_ p)).
  change (saved_enabled_events_ p') with (saved_enabled_events_ p).
  destruct (saved_enabled_events_ p =? -1) eqn:Es; [destruct (GetEpollEvents (f (enabled_events_ p)) =? GetEpollEvents (enabled_events_ p)) eqn:Ee|].
  - cbn [negb andb]. exists w1. split_and!; [done| |by split|done|done]. rewrite interest_id in Hi'; [done|]. cbn.
    unfold polled in *. cbn. rewrite Es in *. reflect_Z. by rewrite Ee.
  - cbn [negb andb]. assert (is_Some (interest w1 !! s_ p')) as Hx by (cbn; by rewrite Hik).
    rewrite (Update_open w1 a p' k); try done; [|apply (i_epoll _ _ Hi)|exact (not_sig _ _ _ _ Hi Ha)].
    eexists. split_and!; [done| |by split|done|done]. unfold polled in Hi'. cbn in Hi'. by rewrite Es in Hi'.
  - rewrite andb_false_r. exists w1. split_and!; [done| |by split|done|done]. rewrite interest_id in Hi'; [done|]. cbn.
    unfold polled in *. cbn. by rewrite Es in *.
Qed.
Lemma change_unreg w a p f : sockets w !! a = Some p → key_by_dispatcher_ w !! a = None →
  change_events dc a f w = Val (set_sockets (<[a := set_events (f (enabled_events_ p)) p]> (sockets w)) w).
Proof.
  intros Ha Hk. unfold change_events. rewrite (sock_eq _ _ _ Ha). cbn [mbind_res]. rewrite (modify_eq _ _ _ _ Ha). cbn [mbind_res].
  unfold MaybeUpdateDispatcher, Update, sock. cbn [sockets set_sockets]. rewrite lookup_insert_eq. cbn [of_mem].
  cbn [mbind_res key_by_dispatcher_ set_sockets]. rewrite Hk. destruct (_ && _); [|done]. cbn [epoll_fd_ set_sockets]. by destruct (epoll_fd_ w =? INV).
Qed.

Lemma change_closed b w a p f : inv b w → sockets w !! a = Some p → s_ p = INV → f 0 = 0 →
  ∃ w', change_events dc a f w = Val w' ∧ inv b w' ∧ evolves w w' ∧ sockets w' = <[a := set_events (f (enabled_events_ p)) p]> (sockets w) ∧
    next_dispatcher_key_ w' = next_dispatcher_key_ w.
Proof.
  intros Hi Ha Hp Hf. pose proof (i_socks _ _ Hi _ _ Ha) as [_ Hpa]. rewrite Hp, Z.eqb_refl in Hpa. destruct Hpa as (Hk & He & _).
  rewrite (change_unreg _ _ _ _ Ha Hk). eexists. split_and!; [done| |by split|done|done].
  apply (inv_same b w a p); [done..|cbn; by rewrite He|done].
Qed.

(** A socket whose events change by a function that keeps none none. *)
Lemma change_inv b w a p f : inv b w → sockets w !! a = Some p → (s_ p = INV → f 0 = 0) → (∀ e, 0 ≤ e < 256 → 0 ≤ f e < 256) →
  ∃ w', change_events dc a f w = Val w' ∧ inv b w' ∧ evolves w w' ∧ sockets w' = <[a := set_events (f (enabled_events_ p)) p]> (sockets w) ∧
    next_dispatcher_key_ w' = next_dispatcher_key_ w.
Proof.
  intros Hi Ha H0 Hf. destruct (decide (s_ p = INV)); [apply (change_closed b); auto|apply (change_open b); auto].
  apply Hf. by destruct (i_socks _ _ Hi _ _ Ha) as [[? _] _].
Qed.

(** A fresh descriptor is registered. *)
Lemma register b w a p' : inv b w → a =? signal_wakeup_ w = false → key_by_dispatcher_ w !! a = None →
  0 ≤ s_ p' → interest w !! s_ p' = None → byte_events p' → (saved_enabled_events_ p' ≠ -1 ↔ b = Some a) →
  GetEpollEvents (enabled_events_ p') = GetEpollEvents (polled p') → next_dispatcher_key_ w + 1 < 2 ^ 64 →
  ∃ w', Add dc a (set_sockets (<[a := p']> (sockets w)) w) = Val w' ∧ inv b w' ∧ evolves w w' ∧ sockets w' = <[a := p']> (sockets w) ∧
    sent w' = sent w.
Proof.
  intros Hi Hsig Hk Hfd Hfree Hb Hsv Hev Hn. unfold Add. cbn [key_by_dispatcher_ set_sockets]. rewrite Hk.
  cbn [next_dispatcher_key_ set_sockets dispatcher_by_key_ key_by_dispatcher_ epoll_fd_ set_maps].
  pose proof (i_next _ _ Hi). rewrite (proj2 (Z.eqb_neq _ _)) by apply (i_epoll _ _ Hi). cbn [negb]. set (n := next_dispatcher_key_ w) in *.
  assert (dispatcher_by_key_ w !! n = None) as Hn0.
  { destruct (dispatcher_by_key_ w !! n) eqn:E; [|done]. apply (i_keys _ _ Hi) in E. lia. }
  unfold AddEpoll, GetDescriptor, GetRequestedEvents, emplace. cbn [signal_wakeup_ set_maps set_sockets sockets interest]. rewrite Hsig, Hk, Hn0.
  unfold sock. cbn [sockets set_maps set_sockets]. rewrite lookup_insert_eq. cbn [of_mem mbind_res].
  rewrite (proj2 (Z.eqb_neq (s_ p') INV)) by (unfold INVALID_SOCKET; lia). cbn [negb]. rewrite check_true. cbn [mbind_res]. rewrite Hfree, Hev.
  rewrite u64_small by lia. eexists. split_and!; [done| |split; cbn; [lia| |split_and!; [done..|by rewrite lookup_insert_ne by (by apply Z.eqb_neq)]]|done|done].
  2: { intros k c Hkn. destruct (decide (k = n)) as [->|]; [lia|]. by simplify_map_eq. }
  reflect_Z. destruct Hi as [H1 H2 H3 H4 H5 H6 H7 H8 H9 H10 H11]. split; try done; cbn.
  - destruct H2 as (Hs & Hf & k' & Hk' & Hik'). split_and!; [by rewrite lookup_insert_ne|done|]. exists k'.
    rewrite !lookup_insert_ne; [done| |done]. congruence.
  - intros k c. destruct (decide (k = n)) as [->|Hkn], (decide (c = a)) as [->|Hca]; simplify_map_eq; try done.
    + split; [congruence|]. intros E. apply H4 in E. congruence.
    + split; [|congruence]. intros E. apply H4 in E. congruence.
  - intros k c E. destruct (decide (k = n)) as [->|Hkn]; simplify_map_eq; [lia|]. apply H5 in E. fold n in E. lia.
  - lia.
  - intros c q Hq. apply lookup_insert_Some in Hq as [[<- <-]|[Hne Hq]].
    + split; [done|]. cbn. rewrite (proj2 (Z.eqb_neq _ _)) by (unfold INVALID_SOCKET; lia). split; [done|]. exists n. by rewrite !lookup_insert_eq.
    + specialize (H7 _ _ Hq) as [Hbq Hq7]. split; [done|]. cbn. rewrite (lookup_insert_ne _ a c) by done. destruct (s_ q =? INV); [done|].
      destruct Hq7 as (? & k & Hkc & Hik). split; [done|]. exists k. split; [done|]. rewrite lookup_insert_ne; [done|]. congruence.
  - intros fd e k Hf. apply lookup_insert_Some in Hf as [[<- [= <- <-]]|[Hne Hf]].
    + exists a. rewrite lookup_insert_eq. split; [done|]. right. exists p'. by rewrite lookup_insert_eq.
    + destruct (H8 _ _ _ Hf) as (c & Hc & Hd). assert (c ≠ a) by (intros ->; apply H4 in Hc; congruence).
      assert (k ≠ n) by congruence. exists c. rewrite lookup_insert_ne by done. split; [done|]. by rewrite lookup_insert_ne by done.
  - intros c k Hc. destruct (decide (c = a)) as [->|]; simplify_map_eq; [by right|]. by eapply H9.
  - intros c q Hq. apply lookup_insert_Some in Hq as [[<- <-]|[Hne Hq]]; [done|by apply H10].
  - intros c Hc. destruct (decide (c = a)) as [->|]; simplify_map_eq; [done|by apply H11].
Qed.
(** A socket that is closed leaves the tables. *)
Lemma unregister b w a p p' k : inv b w → sockets w !! a = Some p → s_ p ≠ INV → key_by_dispatcher_ w !! a = Some k →
  s_ p' = INV → enabled_events_ p' = 0 → saved_enabled_events_ p' = (if saved_enabled_events_ p =? -1 then -1 else 0) →
  inv b (set_sockets (<[a := p']> (sockets w)) (set_interest (delete (s_ p) (interest w))
    (set_maps (next_dispatcher_key_ w) (delete k (dispatcher_by_key_ w)) (delete a (key_by_dispatcher_ w)) w))).
Proof.
  intros Hi Ha Hp Hk Hs He Hv. pose proof (fd_not_afd _ _ _ _ Hi Ha Hp) as Hafd. pose proof (not_sig _ _ _ _ Hi Ha) as Hsig. reflect_Z.
  pose proof (λ c q Hc, fd_unique _ _ a c p q Hi Ha Hc Hp) as Huniq. pose proof (i_socks _ _ Hi _ _ Ha) as [_ Hpa].
  rewrite (proj2 (Z.eqb_neq _ _)) in Hpa by done. destruct Hpa as (_ & k0 & Hk0 & Hik). rewrite Hk in Hk0. injection Hk0 as <-.
  destruct Hi as [H1 H2 H3 H4 H5 H6 H7 H8 H9 H10 H11]. split; try done; cbn.
  - destruct H2 as (Hn & Hf & k' & Hk' & Hik'). split_and!; [by rewrite lookup_insert_ne|done|]. exists k'.
    by rewrite lookup_delete_ne, lookup_delete_ne by done.
  - intros j c. destruct (decide (j = k)) as [->|], (decide (c = a)) as [->|]; simplify_map_eq; try done.
    + split; [done|]. intros E. apply H4 in E, Hk. congruence.
    + split; [|done]. intros E. apply H4 in E. congruence.
  - intros j c E. apply lookup_delete_Some in E as [_ E]. by apply H5 in E.
  - intros c q Hq. apply lookup_insert_Some in Hq as [[<- <-]|[Hne Hq]].
    + split; [split; [lia|destruct (_ =? -1); lia]|]. cbn. rewrite Hs, Z.eqb_refl, lookup_delete_eq. split_and!; [done..|]. destruct (_ =? -1); lia.
    + specialize (H7 _ _ Hq) as [Hbq Hq7]. split; [done|]. cbn. rewrite (lookup_delete_ne _ a c) by done. destruct (s_ q =? INV) eqn:Eq; [done|].
      destruct Hq7 as (? & j & Hj & Hij). split; [done|]. exists j. split; [done|]. rewrite lookup_delete_ne; [done|]. intros E. by apply Hne, (Huniq c q Hq).
  - intros fd e j Hf. apply lookup_delete_Some in Hf as [Hne Hf]. destruct (H8 _ _ _ Hf) as (c & Hc & Hd).
    assert (c ≠ a) as Hca. { intros ->. apply H4 in Hc. rewrite Hk in Hc. injection Hc as <-. destruct Hd as [[-> _]|(q & Hq & Hfd)]; [done|congruence]. }
    exists c. rewrite lookup_delete_ne; [split; [done|by rewrite lookup_insert_ne by done]|]. intros <-. apply H4 in Hk. congruence.
  - intros c j Hc. apply lookup_delete_Some in Hc as [Hne Hc]. rewrite lookup_insert_ne by done. by eapply H9.
  - intros c q Hq. apply lookup_insert_Some in Hq as [[<- <-]|[Hne Hq]]; [|by apply H10]. rewrite <- (H10 _ _ Ha), Hv.
    destruct (Z.eqb_spec (saved_enabled_events_ p) (-1)); lia.
  - intros c Hc. destruct (decide (c = a)) as [->|]; simplify_map_eq; [done|by apply H11].
Qed.

Lemma close_spec b w a p closed : inv b w → sockets w !! a = Some p →
  ∃ r w' p', Close dc a closed w = Val (r, w') ∧ inv b w' ∧ evolves w w' ∧ sockets w' = <[a := p']> (sockets w) ∧ s_ p' = INV ∧
    sent w' = sent w ∧ (s_ p = INV → w' = w) ∧ (s_ p ≠ INV → state_ p' = CS_CLOSED ∧ resolver_ p' = None ∧ interest w' = delete (s_ p) (interest w)).
Proof.
  intros Hi Ha. unfold Close. rewrite (sock_eq _ _ _ Ha). cbn [mbind_res]. destruct (Z.eqb_spec (s_ p) INV) as [Hp|Hp].
  { exists 0, w, p. split_and!; try done. by rewrite insert_id. }
  pose proof (i_socks _ _ Hi _ _ Ha) as [_ Hpa]. rewrite (proj2 (Z.eqb_neq _ _)) in Hpa by done. destruct Hpa as (_ & k & Hk & Hik).
  pose proof (not_sig _ _ _ _ Hi Ha) as Hsig. pose proof (i_epoll _ _ Hi) as Hep.
  rewrite (modify_eq _ _ _ _ Ha). cbn [mbind_res]. unfold Remove. cbn [key_by_dispatcher_ set_sockets]. rewrite Hk.
  cbn [epoll_fd_ set_maps set_sockets]. rewrite (proj2 (Z.eqb_neq (epoll_fd_ w) _)) by done. cbn [negb].
  unfold RemoveEpoll, GetDescriptor. cbn [signal_wakeup_ set_maps set_sockets]. rewrite Hsig. unfold sock at 1. cbn [sockets set_maps set_sockets].
  rewrite lookup_insert_eq. cbn [of_mem mbind_res]. set (p1 := if negb _ then _ else p). assert (s_ p1 = s_ p) as Hs1 by (unfold p1; by destruct (negb _)).
  rewrite Hs1, (proj2 (Z.eqb_neq (s_ p) INV)) by done. cbn [negb]. rewrite check_true. cbn [mbind_res].
  unfold PhysicalSocket_Close. unfold sock at 1. cbn [sockets set_maps set_sockets set_interest interest]. rewrite lookup_insert_eq. cbn [of_mem mbind_res].
  rewrite Hs1, (proj2 (Z.eqb_neq (s_ p) INV)) by done. unfold SetError.
  erewrite modify_eq by (cbn [sockets set_maps set_sockets set_interest]; apply lookup_insert_eq). cbn [mbind_res].
  erewrite modify_eq by (cbn [sockets set_maps set_sockets set_interest]; apply lookup_insert_eq). cbn [mbind_res].
  unfold SetEnabledEvents. erewrite change_unreg; [|cbn [sockets set_maps set_sockets set_interest]; apply lookup_insert_eq|cbn; apply lookup_delete_eq]. cbn [mbind_res].
  erewrite modify_eq by (cbn [sockets set_maps set_sockets set_interest]; apply lookup_insert_eq). cbn [mbind_res].
  cbn [sockets set_maps set_sockets set_interest interest next_dispatcher_key_ dispatcher_by_key_ key_by_dispatcher_]. rewrite !insert_insert_eq, delete_delete_eq.
  set (p' := set_resolver None _). eexists _, _, p'. split_and!; [done| | |done|done|done|done|done].
  - apply (unregister b w a p p' k); try done. cbn. unfold p1. by destruct (Z.eqb_spec (saved_enabled_events_ p) (-1)).
  - split; cbn; [lia| |split_and!; [done..|by rewrite lookup_delete_ne by (by apply Z.eqb_neq)]]. intros j c _ E. by apply lookup_delete_Some in E as [_ E].
Qed.
(** ** Sockets come and go *)

Lemma u8_range z : 0 ≤ u8 z < 256.
Proof. pose proof (uwrap_range 8 z). lia. Qed.

Lemma fresh_unreg b w a : inv b w → sockets w !! a = None → a ≠ signal_wakeup_ w → key_by_dispatcher_ w !! a = None ∧ b ≠ Some a.
Proof.
  intros Hi Ha Hs. split.
  - destruct (key_by_dispatcher_ w !! a) eqn:E; [|done]. destruct (i_live _ _ Hi _ _ E) as [?|[? ?]]; congruence.
  - intros ->. destruct (i_in _ _ Hi a eq_refl). congruence.
Qed.

Lemma inv_new b w a p : inv b w → sockets w !! a = None → a ≠ signal_wakeup_ w → s_ p = INV → enabled_events_ p = 0 → saved_enabled_events_ p = -1 →
  inv b (set_sockets (<[a := p]> (sockets w)) w).
Proof.
  intros Hi Ha Hs Hp He Hv. destruct (fresh_unreg _ _ _ Hi Ha Hs) as [Hk Hb]. destruct Hi as [H1 H2 H3 H4 H5 H6 H7 H8 H9 H10 H11]. split; try done; cbn.
  - destruct H2 as (Hn & H2). by rewrite lookup_insert_ne.
  - intros c q Hq. apply lookup_insert_Some in Hq as [[<- <-]|[Hne Hq]]; [|by apply H7 in Hq].
    split; [split; lia|]. rewrite Hp, Z.eqb_refl. cbn. tauto.
  - intros fd e k Hk'. destruct (H8 _ _ _ Hk') as (c & Hc & Hd). exists c. split; [done|]. rewrite lookup_insert_ne; [done|].
    intros ->. apply H4 in Hc. congruence.
  - intros c k Hc. destruct (decide (c = a)) as [->|]; simplify_map_eq. by eapply H9.
  - intros c q Hq. apply lookup_insert_Some in Hq as [[<- <-]|[Hne Hq]]; [naive_solver|by apply H10].
  - intros c Hc. destruct (decide (c = a)) as [->|]; simplify_map_eq; by apply H11.
Qed.

Lemma inv_delete b w a p : inv b w → sockets w !! a = Some p → s_ p = INV → b ≠ Some a → inv b (set_sockets (delete a (sockets w)) w).
Proof.
  intros Hi Ha Hp Hb. pose proof (i_socks _ _ Hi _ _ Ha) as [_ Hpa]. rewrite Hp, Z.eqb_refl in Hpa. destruct Hpa as (Hk & _).
  destruct Hi as [H1 H2 H3 H4 H5 H6 H7 H8 H9 H10 H11]. split; try done; cbn.
  - destruct H2 as (Hn & H2). split; [|done]. by rewrite lookup_delete_None; right.
  - intros c q Hq. apply lookup_delete_Some in Hq as [_ Hq]. by apply H7 in Hq.
  - intros fd e k Hk'. destruct (H8 _ _ _ Hk') as (c & Hc & Hd). exists c. split; [done|]. rewrite lookup_delete_ne; [done|].
    intros ->. apply H4 in Hc. congruence.
  - intros c k Hc. rewrite lookup_delete_ne by congruence. by eapply H9.
  - intros c q Hq. apply lookup_delete_Some in Hq as [_ Hq]. by apply H10.
  - intros c Hc. rewrite lookup_delete_ne by congruence. by apply H11.
Qed.

(** A descriptor that is not in use, and what the kernel can answer. *)
Definition fd_free (fd : Z) (w : world) : Prop := fd ≠ afd_ w ∧ ∀ a p, sockets w !! a = Some p → s_ p ≠ fd.
Definition fd_ok (opened : syscall) (w : world) : Prop :=
  ret opened = INV ∨ 0 ≤ ret opened ∧ fd_free (ret opened) w ∧ next_dispatcher_key_ w + 1 < 2 ^ 64.

Lemma free_interest b w fd : inv b w → fd_free fd w → interest w !! fd = None.
Proof.
  intros Hi [Hafd Hfree]. destruct (interest w !! fd) as [[e k]|] eqn:E; [|done].
  destruct (i_fds _ _ Hi _ _ _ E) as (a & _ & [[_ ?]|(p & Hp & Hs)]); [done|]. by destruct (Hfree _ _ Hp).
Qed.

Lemma create_spec b w a p family type opened closed : inv b w → sockets w !! a = Some p → s_ p = INV →
  (type ≠ SOCK_DGRAM ∨ saved_enabled_events_ p = -1) → fd_ok opened w →
  ∃ w' p', Create dc a family type opened closed w = Val (negb (ret opened =? INV), w') ∧ evolves w w' ∧
    sockets w' = <[a := p']> (sockets w) ∧ s_ p' = ret opened ∧ sent w' = sent w ∧
    (ret opened ≠ INV ∨ type ≠ SOCK_DGRAM → inv b w') ∧ (ret opened = INV → w' = set_sockets (<[a := p']> (sockets w)) w).
Proof.
  intros Hi Ha Hp Htype Hfd. pose proof (i_socks _ _ Hi _ _ Ha) as [[Hb1 Hb2] Hpa]. rewrite Hp, Z.eqb_refl in Hpa. destruct Hpa as (Hk & He & Hsv).
  pose proof (not_sig _ _ _ _ Hi Ha) as Hsig.
  unfold Create, PhysicalSocket_Create, Close. rewrite (sock_eq _ _ _ Ha). cbn [mbind_res]. rewrite Hp, Z.eqb_refl. cbn [mbind_res].
  rewrite (modify_eq _ _ _ _ Ha). cbn [mbind_res]. unfold SetError.
  erewrite modify_eq by (cbn [sockets set_sockets]; apply lookup_insert_eq). cbn [mbind_res].
  unfold sock at 1. cbn [sockets set_sockets]. rewrite lookup_insert_eq. cbn [of_mem mbind_res udp_ set_error set_created]. rewrite !insert_insert_eq.
  set (p1 := set_error _ _).
  assert (∃ p', (if SOCK_DGRAM =? type then SetEnabledEvents dc a (Z.lor DE_READ DE_WRITE) (set_sockets (<[a:=p1]> (sockets w)) (set_sockets (<[a:=set_created (SOCK_DGRAM =? type) family (set_s (ret opened) p)]> (sockets w)) w))
      else Val (set_sockets (<[a:=p1]> (sockets w)) (set_sockets (<[a:=set_created (SOCK_DGRAM =? type) family (set_s (ret opened) p)]> (sockets w)) w))) = Val (set_sockets (<[a := p']> (sockets w)) w)
    ∧ s_ p' = ret opened ∧ saved_enabled_events_ p' = saved_enabled_events_ p ∧ byte_events p' ∧ GetEpollEvents (enabled_events_ p') = GetEpollEvents (polled p') ∧
    (type ≠ SOCK_DGRAM → enabled_events_ p' = 0)) as (p' & -> & Hs' & Hv' & Hbe & Hpoll & Hen).
  { destruct (Z.eqb_spec SOCK_DGRAM type) as [Ht|Ht].
    - unfold SetEnabledEvents. erewrite change_unreg; [|cbn [sockets set_sockets]; apply lookup_insert_eq|done]. cbn [sockets set_sockets]. rewrite !insert_insert_eq.
      eexists. split_and!; [done|done|done| | |congruence]; cbn.
      + split; [apply u8_range|done].
      + unfold polled. cbn. assert (saved_enabled_events_ p = -1) as -> by (destruct Htype; [congruence|done]). done.
    - exists p1. split_and!; [done..| |cbn; done]. unfold polled. cbn. destruct Hsv as [-> | ->]; [done|]. cbn. by rewrite He. }
  cbn [mbind_res]. change (s_ p1) with (ret opened). destruct (Z.eqb_spec (ret opened) INV) as [Er|Er]; cbn [negb].
  - eexists _, p'. split_and!; [done|by split|done|done|done| |done]. intros [?|Ht]; [done|].
    apply (inv_same b w a p); try done; [congruence|rewrite Hen by done; done].
  - destruct Hfd as [?|(Hpos & Hfree%(free_interest b w _ Hi) & Hnext)]; [done|].
    destruct (register b w a p') as (w' & Ew & Hi' & Hev & Hso & Hse); try done; [congruence..|rewrite Hv'; exact (i_batch _ _ Hi _ _ Ha)|].
    unfold Initialize. unfold sock at 1. cbn [sockets set_sockets]. rewrite lookup_insert_eq. cbn [of_mem mbind_res].
    rewrite Hs', (proj2 (Z.eqb_neq (ret opened) INV)) by done. cbn [negb]. rewrite check_true. cbn [mbind_res]. rewrite Ew. cbn [mbind_res].
    eexists w', p'. by split_and!.
Qed.
(** ** The calls *)

(** A call leaves the invariant: its result is a world. *)
Definition keeps (b : option Z) (w : world) {A} (r : res (A * world)) : Prop := ∃ x w', r = Val (x, w') ∧ inv b w' ∧ evolves w w'.

Lemma modify_keeps b w a p f : inv b w → sockets w !! a = Some p → s_ (f p) = s_ p → enabled_events_ (f p) = enabled_events_ p →
  saved_enabled_events_ (f p) = saved_enabled_events_ p →
  ∃ w', modify a f w = Val w' ∧ inv b w' ∧ evolves w w' ∧ sockets w' = <[a := f p]> (sockets w) ∧ interest w' = interest w ∧
    next_dispatcher_key_ w' = next_dispatcher_key_ w ∧ dispatcher_by_key_ w' = dispatcher_by_key_ w.
Proof.
  intros Hi Ha ? ? ?. rewrite (modify_eq _ _ _ _ Ha). eexists. split_and!; [done|by apply (inv_same b w a p)|by split|done..].
Qed.

Lemma enable_keeps b w a p events : inv b w → sockets w !! a = Some p → s_ p ≠ INV →
  ∃ w', EnableEvents dc a events w = Val w' ∧ inv b w' ∧ evolves w w' ∧ sockets w' = <[a := set_events (u8 (Z.lor (enabled_events_ p) events)) p]> (sockets w) ∧
    next_dispatcher_key_ w' = next_dispatcher_key_ w.
Proof. intros Hi Ha Hp. by apply (change_open b w a p (λ e, u8 (Z.lor e events)) Hi Ha Hp), u8_range. Qed.

Ltac step_modify Hi Ha :=
  match goal with |- context [modify ?a ?f ?w] =>
    let w' := fresh "w" in let Hm := fresh "Hm" in let Hi' := fresh "Hi" in let He := fresh "Hev" in let Hs := fresh "Hso" in
    destruct (modify_keeps _ w a _ f Hi Ha) as (w' & Hm & Hi' & He & Hs & _); [done..|]; rewrite Hm; cbn [mbind_res]
  end.

Lemma doconnect_spec b w a p addr opened connected : inv b w → sockets w !! a = Some p → (s_ p = INV → fd_ok opened w) →
  ∃ x w', DoConnect dc a addr opened connected w = Val (x, w') ∧ inv b w' ∧ evolves w w' ∧ is_Some (sockets w' !! a).
Proof.
  intros Hi Ha Hfd. unfold DoConnect. rewrite (sock_eq _ _ _ Ha). cbn [mbind_res].
  assert (∃ ok w1 p1, (if s_ p =? INV then Create dc a (family (ip_ addr)) SOCK_STREAM opened (Ans 0 0) w else Val (true, w)) = Val (ok, w1) ∧
    inv b w1 ∧ evolves w w1 ∧ sockets w1 !! a = Some p1 ∧ (ok = true → s_ p1 ≠ INV)) as (ok & w1 & p1 & -> & Hi1 & He1 & Ha1 & Hok).
  { destruct (Z.eqb_spec (s_ p) INV) as [Hp|Hp]; [|by exists true, w, p].
    destruct (create_spec b w a p (family (ip_ addr)) SOCK_STREAM opened (Ans 0 0)) as (w1 & p1 & E & He & Hso & Hs & _ & Hinv & _); [done..|by left|by apply Hfd|].
    exists (negb (ret opened =? INV)), w1, p1. split_and!; [done|apply Hinv; by right|done|by rewrite Hso, lookup_insert_eq|].
    intros Ho. rewrite Hs. by destruct (Z.eqb_spec (ret opened) INV). }
  cbn [mbind_res]. destruct ok; cbn [negb]; [|by exists SOCKET_ERROR, w1]. specialize (Hok eq_refl).
  unfold UpdateLastError, SetError. step_modify Hi1 Ha1.
  assert (sockets w0 !! a = Some (set_error (errno connected) p1)) as Ha0 by (by rewrite Hso, lookup_insert_eq).
  assert (∀ st ev, ∃ w', (let* w := modify a (set_state st) w0 in let* w := EnableEvents dc a ev w in Val (0, w)) = Val (0, w') ∧ inv b w' ∧ evolves w w' ∧ is_Some (sockets w' !! a)) as Hgo.
  { intros st ev. step_modify Hi0 Ha0. destruct (enable_keeps b w2 a (set_state st (set_error (errno connected) p1)) ev) as (w3 & -> & Hi3 & He3 & Hso3 & _);
      [done|by rewrite Hso0, lookup_insert_eq|done|]. exists w3. split_and!; [done..| |rewrite Hso3, lookup_insert_eq; by eexists]. by repeat (etrans; [eassumption|]). }
  destruct (ret connected =? 0).
  - destruct (Hgo CS_CONNECTED (Z.lor DE_READ DE_WRITE)) as (w' & E & ? & ? & ?). by exists 0, w'.
  - rewrite (sock_eq _ _ _ Ha0). cbn [mbind_res]. destruct (IsBlockingError _).
    + destruct (Hgo CS_CONNECTING (Z.lor (Z.lor DE_READ DE_WRITE) DE_CONNECT)) as (w' & E & ? & ? & ?). by exists 0, w'.
    + exists SOCKET_ERROR, w0. split_and!; [done..|by etrans|by eexists].
Qed.

Lemma connect_keeps b w a p addr resolver opened connected : inv b w → sockets w !! a = Some p → (s_ p = INV → fd_ok opened w) →
  keeps b w (Connect dc a addr resolver opened connected w).
Proof.
  intros Hi Ha Hfd. unfold Connect. rewrite (sock_eq _ _ _ Ha). cbn [mbind_res]. destruct (negb _).
  - unfold SetError. step_modify Hi Ha. by exists SOCKET_ERROR, w0.
  - destruct (IsUnresolvedIP addr); [|destruct (doconnect_spec b w a p addr opened connected) as (x & w' & ? & ? & ? & _); [done..|]; by exists x, w']. step_modify Hi Ha. by exists 0, w0.
Qed.

Lemma send_keeps b w a p cb sent : inv b w → sockets w !! a = Some p → s_ p ≠ INV → ret sent ≤ s32 cb → keeps b w (Send dc a cb sent w).
Proof.
  intros Hi Ha Hp Hs. unfold Send, UpdateLastError, SetError. step_modify Hi Ha. rewrite (proj2 (Z.leb_le _ _)), check_true by done. cbn [mbind_res].
  assert (sockets w0 !! a = Some (set_error (errno sent) p)) as Ha0 by (by rewrite Hso, lookup_insert_eq). rewrite (sock_eq _ _ _ Ha0). cbn [mbind_res].
  destruct (_ || _).
  - destruct (enable_keeps b w0 a _ DE_WRITE Hi0 Ha0) as (w1 & -> & Hi1 & He1 & _); [done|]. exists (ret sent), w1. split_and!; [done..|by etrans].
  - by exists (ret sent), w0.
Qed.

Lemma recv_events_keeps b w a p received : inv b w → sockets w !! a = Some p → s_ p ≠ INV → keeps b w (recv_events dc a received w).
Proof.
  intros Hi Ha Hp. unfold recv_events, UpdateLastError, SetError. step_modify Hi Ha.
  assert (sockets w0 !! a = Some (set_error (errno received) p)) as Ha0 by (by rewrite Hso, lookup_insert_eq). rewrite (sock_eq _ _ _ Ha0). cbn [mbind_res].
  destruct (_ || _).
  - destruct (enable_keeps b w0 a _ DE_READ Hi0 Ha0) as (w1 & -> & Hi1 & He1 & _); [done|]. exists (ret received), w1. split_and!; [done..|by etrans].
  - by exists (ret received), w0.
Qed.

Lemma recv_keeps b w a p length received : inv b w → sockets w !! a = Some p → s_ p ≠ INV → keeps b w (Recv dc a length received w).
Proof.
  intros Hi Ha Hp. unfold Recv. destruct (_ && _); [|by eapply recv_events_keeps].
  destruct (enable_keeps b w a p DE_READ Hi Ha Hp) as (w1 & -> & Hi1 & He1 & Hso1 & _). cbn [mbind_res]. unfold SetError.
  assert (sockets w1 !! a = Some (set_events (u8 (Z.lor (enabled_events_ p) DE_READ)) p)) as Ha1 by (by rewrite Hso1, lookup_insert_eq).
  step_modify Hi1 Ha1. exists SOCKET_ERROR, w0. split_and!; [done..|by etrans].
Qed.

Lemma listen_keeps b w a p ans : inv b w → sockets w !! a = Some p → s_ p ≠ INV → keeps b w (Listen dc a ans w).
Proof.
  intros Hi Ha Hp. unfold Listen, UpdateLastError, SetError. step_modify Hi Ha.
  assert (sockets w0 !! a = Some (set_error (errno ans) p)) as Ha0 by (by rewrite Hso, lookup_insert_eq). destruct (ret ans =? 0); [|by exists (ret ans), w0].
  step_modify Hi0 Ha0. destruct (enable_keeps b w1 a (set_state CS_CONNECTING (set_error (errno ans) p)) DE_ACCEPT) as (w2 & -> & Hi2 & He2 & _);
    [done|by rewrite Hso0, lookup_insert_eq|done|]. exists (ret ans), w2. split_and!; [done..|]. by repeat (etrans; [eassumption|]).
Qed.
Lemma wrap_keeps b w a fd type : inv b w → sockets w !! a = None → a ≠ signal_wakeup_ w → 0 ≤ fd → fd_free fd w →
  next_dispatcher_key_ w + 1 < 2 ^ 64 → keeps b w (WrapSocket dc a fd type true w).
Proof.
  intros Hi Ha Hs Hfd Hfree Hn. destruct (fresh_unreg _ _ _ Hi Ha Hs) as [Hk Hb]. unfold WrapSocket.
  rewrite (proj2 (Z.eqb_neq fd INV)) by (unfold INVALID_SOCKET; lia). rewrite check_true. cbn [mbind_res].
  set (p := PS _ _ _ _ _ _ _ _).
  destruct (register b w a p) as (w' & Ew & Hi' & He & _); try done; [by apply Z.eqb_neq|by eapply free_interest|cbn; by split; [vm_compute|left]|].
  unfold Initialize. unfold sock at 1. cbn [sockets set_sockets]. rewrite lookup_insert_eq. cbn [of_mem mbind_res s_ p].
  rewrite (proj2 (Z.eqb_neq fd INV)) by (unfold INVALID_SOCKET; lia). cbn [negb]. rewrite check_true. cbn [mbind_res]. rewrite Ew. by exists (Some a), w'.
Qed.

Lemma free_same w w' a p p' fd : fd_free fd w → sockets w !! a = Some p → s_ p' = s_ p → sockets w' = <[a := p']> (sockets w) → afd_ w' = afd_ w → fd_free fd w'.
Proof.
  intros [Hafd Hf] Ha Hs Hso Haf. split; [congruence|]. intros c q Hq. rewrite Hso in Hq. apply lookup_insert_Some in Hq as [[<- <-]|[_ Hq]].
  - rewrite Hs. by eapply Hf.
  - by eapply Hf.
Qed.

Lemma accept_keeps b w a p accepted new type : inv b w → sockets w !! a = Some p → s_ p ≠ INV → sockets w !! new = None → new ≠ signal_wakeup_ w →
  fd_ok accepted w → keeps b w (Accept dc a accepted new type true w).
Proof.
  intros Hi Ha Hp Hnew Hsig Hfd. unfold Accept. destruct (enable_keeps b w a p DE_ACCEPT Hi Ha Hp) as (w1 & -> & Hi1 & He1 & Hso1 & Hn1). cbn [mbind_res].
  assert (new ≠ a) as Hne by congruence.
  set (p1 := set_events _ p) in Hso1. assert (sockets w1 !! a = Some p1) as Ha1 by (by rewrite Hso1, lookup_insert_eq).
  unfold UpdateLastError, SetError. destruct (modify_keeps b w1 a p1 (set_error (errno accepted)) Hi1 Ha1) as (w2 & -> & Hi2 & He2 & Hso2 & _ & Hn2 & _); [done..|]. cbn [mbind_res].
  destruct (Z.eqb_spec (ret accepted) INV) as [Er|Er].
  - exists None, w2. split_and!; [done..|by etrans].
  - destruct Hfd as [?|(Hpos & Hfree & Hnext)]; [done|]. pose proof (ev_sig _ _ He1) as (Hs1 & Hf1 & _). pose proof (ev_sig _ _ He2) as (Hs2 & Hf2 & _).
    destruct (wrap_keeps b w2 new (ret accepted) type) as (x & w3 & -> & Hi3 & He3).
    + done.
    + by rewrite Hso2, Hso1, !lookup_insert_ne by done.
    + congruence.
    + done.
    + apply (free_same w1 w2 a p1 (set_error (errno accepted) p1)); [|done..]. by apply (free_same w w1 a p p1).
    + congruence.
    + exists x, w3. split_and!; [done..|]. by repeat (etrans; [eassumption|]).
Qed.

Lemma create_socket_keeps b w a family type opened : inv b w → sockets w !! a = None → a ≠ signal_wakeup_ w → fd_ok opened w →
  keeps b w (CreateSocket dc a family type opened w).
Proof.
  intros Hi Ha Hs Hfd. unfold CreateSocket.
  assert (inv b (set_sockets (<[a := new_socket]> (sockets w)) w)) as Hi1 by (by apply inv_new).
  set (w1 := set_sockets _ w) in *. assert (sockets w1 !! a = Some new_socket) as Ha1 by (cbn; by rewrite lookup_insert_eq).
  destruct (create_spec b w1 a new_socket family type opened (Ans 0 0)) as (w2 & p2 & -> & He2 & Hso2 & Hs2 & _ & Hinv & Hfail); [done..|by right| |].
  { destruct Hfd as [?|(? & [? Hf] & ?)]; [by left|right]. split_and!; try done. split; [done|]. intros c q Hq. cbn in Hq. apply lookup_insert_Some in Hq as [[<- <-]|[_ Hq]]; [cbn; unfold INVALID_SOCKET; lia|by eapply Hf]. }
  cbn [mbind_res]. destruct (Z.eqb_spec (ret opened) INV) as [Er|Er]; cbn [negb].
  - specialize (Hfail Er). unfold Close. erewrite sock_eq by (rewrite Hso2; apply lookup_insert_eq). cbn [mbind_res]. rewrite Hs2, Er. cbn [Z.eqb INVALID_SOCKET Pos.eqb mbind_res].
    assert (set_sockets (delete a (sockets w2)) w2 = w) as ->.
    { rewrite Hfail. unfold w1, set_sockets. cbn. rewrite insert_insert_eq, delete_insert_id by done. by destruct w. }
    by exists None, w.
  - exists (Some a), w2. split_and!; [done|apply Hinv; by left|]. etrans; [|exact He2]. by split.
Qed.

Lemma delete_keeps b w a p closed : inv b w → sockets w !! a = Some p → b ≠ Some a →
  ∃ w', SocketDispatcher_delete dc a closed w = Val w' ∧ inv b w' ∧ evolves w w'.
Proof.
  intros Hi Ha Hb. unfold SocketDispatcher_delete. destruct (close_spec b w a p closed Hi Ha) as (r & w1 & p1 & -> & Hi1 & He1 & Hso & Hs1 & _).
  cbn [mbind_res]. eexists. split_and!; [done| |].
  - apply (inv_delete b w1 a p1); [done|by rewrite Hso, lookup_insert_eq|done..].
  - etrans; [exact He1|]. by split.
Qed.

(** What a call needs: a live socket, an open one where the descriptor is
    used, free addresses and descriptors for new sockets; a socket is not
    deleted by the slots of its own event. *)
Definition call_ok (b : option Z) (c : call) (w : world) : Prop :=
  match c with
  | CConnect a _ _ opened _ => ∃ p, sockets w !! a = Some p ∧ (s_ p = INV → fd_ok opened w)
  | CSend a cb sent => ∃ p, sockets w !! a = Some p ∧ s_ p ≠ INV ∧ ret sent ≤ s32 cb
  | CRecv a _ _ | CRecvFrom a _ _ | CListen a _ => ∃ p, sockets w !! a = Some p ∧ s_ p ≠ INV
  | CAccept a accepted new _ => ∃ p, sockets w !! a = Some p ∧ s_ p ≠ INV ∧ sockets w !! new = None ∧ new ≠ signal_wakeup_ w ∧ fd_ok accepted w
  | CClose a _ | CSetError a _ => is_Some (sockets w !! a)
  | CCreateSocket a _ _ opened => sockets w !! a = None ∧ a ≠ signal_wakeup_ w ∧ fd_ok opened w
  | CDelete a _ => is_Some (sockets w !! a) ∧ b ≠ Some a
  end.

Lemma keeps_snd b w {A} (r : res (A * world)) : keeps b w r → ∃ w', (let* x := r in Val x.2) = Val w' ∧ inv b w' ∧ evolves w w'.
Proof. intros (x & w' & -> & ? & ?). by exists w'. Qed.

Lemma do_call_inv b c w : inv b w → call_ok b c w → ∃ w', do_call dc c w = Val w' ∧ inv b w' ∧ evolves w w'.
Proof.
  intros Hi Hc. destruct c; cbn in *.
  - destruct Hc as (p & ? & ?). by eapply keeps_snd, connect_keeps.
  - destruct Hc as (p & ? & ? & ?). by eapply keeps_snd, send_keeps.
  - destruct Hc as (p & ? & ?). by eapply keeps_snd, recv_keeps.
  - destruct Hc as (p & ? & ?). by eapply keeps_snd, recv_events_keeps.
  - destruct Hc as (p & ? & ?). by eapply keeps_snd, listen_keeps.
  - destruct Hc as (p & ? & ? & ? & ? & ?). by eapply keeps_snd, accept_keeps.
  - destruct Hc as [p Hp]. destruct (close_spec b w a p closed Hi Hp) as (r & w1 & p1 & -> & ? & ? & _). by exists w1.
  - destruct Hc as [p Hp]. destruct (modify_keeps b w a p (set_error error) Hi Hp) as (w1 & E & ? & ? & _); [done..|]. by exists w1.
  - destruct Hc as (? & ? & ?). by eapply keeps_snd, create_socket_keeps.
  - destruct Hc as [[p Hp] ?]. by eapply delete_keeps.
Qed.
(** ** Events *)

Lemma inv_unbatch w a p : inv (Some a) w → sockets w !! a = Some p → s_ p = INV → inv None (set_sockets (<[a := set_saved (-1) p]> (sockets w)) w).
Proof.
  intros Hi Ha Hp. pose proof (i_socks _ _ Hi _ _ Ha) as [[Hb1 _] Hpa]. rewrite Hp, Z.eqb_refl in Hpa.
  destruct Hi as [H1 H2 H3 H4 H5 H6 H7 H8 H9 H10 H11]. split; try done; cbn.
  - destruct H2 as (Hn & H2). split; [|done]. rewrite lookup_insert_ne; [done|]. congruence.
  - intros c q Hq. apply lookup_insert_Some in Hq as [[<- <-]|[Hne Hq]]; [|by apply H7 in Hq].
    split; [split; cbn; [done|by left]|]. cbn. rewrite Hp, Z.eqb_refl. tauto.
  - intros fd e k Hk. destruct (H8 _ _ _ Hk) as (c & Hc & [?|(q & Hq & Hf)]); exists c; split; [done|by left|done|right].
    destruct (decide (c = a)) as [->|]; [exists (set_saved (-1) p)|exists q]; simplify_map_eq; split; done.
  - intros c k Hc. destruct (H9 _ _ Hc) as [?|Hq]; [by left|right]. destruct (decide (c = a)) as [->|]; by simplify_map_eq.
  - intros c q Hq. apply lookup_insert_Some in Hq as [[<- <-]|[Hne Hq]]; [cbn; split; [by intros []|done]|]. rewrite (H10 _ _ Hq). split; [congruence|done].
Qed.

Lemma start_batch w a p : inv None w → sockets w !! a = Some p → s_ p ≠ INV →
  ∃ w', StartBatchedEventUpdates dc a w = Val w' ∧ inv (Some a) w' ∧ evolves w w'.
Proof.
  intros Hi Ha Hp. unfold StartBatchedEventUpdates. rewrite (sock_eq _ _ _ Ha). cbn [mbind_res].
  pose proof (i_batch _ _ Hi _ _ Ha) as Hb. assert (saved_enabled_events_ p = -1) as Hsv by (destruct (decide (saved_enabled_events_ p = -1)); [done|naive_solver]).
  rewrite Hsv, Z.eqb_refl, check_true. cbn [mbind_res]. rewrite (modify_eq _ _ _ _ Ha).
  pose proof (i_socks _ _ Hi _ _ Ha) as [[Hb1 _] Hpa]. rewrite (proj2 (Z.eqb_neq _ _)) in Hpa by done. destruct Hpa as (_ & k & Hk & Hik).
  eexists. split_and!; [done| |by split].
  assert (inv (Some a) (set_interest (<[s_ p := (GetEpollEvents (polled (set_saved (enabled_events_ p) p)), k)]> (interest w))
    (set_sockets (<[a := set_saved (enabled_events_ p) p]> (sockets w)) w))) as Hi'.
  { apply (inv_poll None (Some a) w a p _ k); try done; cbn; [by split; [|right]|split; [done|cbn; lia]|intros c Hc; split; [done|congruence]]. }
  rewrite <- (interest_id (set_sockets (<[a := set_saved (enabled_events_ p) p]> (sockets w)) w) (s_ p) (GetEpollEvents (polled (set_saved (enabled_events_ p) p)), k)); [done|].
  cbn. unfold polled in *. rewrite Hsv in Hik. cbn in *. by rewrite (proj2 (Z.eqb_neq _ _)) by lia.
Qed.

Lemma finish_batch w a : inv (Some a) w → ∃ w', FinishBatchedEventUpdates dc a w = Val w' ∧ inv None w' ∧ evolves w w'.
Proof.
  intros Hi. destruct (i_in _ _ Hi a eq_refl) as [p Ha]. unfold FinishBatchedEventUpdates. rewrite (sock_eq _ _ _ Ha). cbn [mbind_res].
  pose proof (proj2 (i_batch _ _ Hi _ _ Ha) eq_refl) as Hsv. rewrite (proj2 (Z.eqb_neq _ _)) by done. cbn [negb]. rewrite check_true. cbn [mbind_res].
  rewrite (modify_eq _ _ _ _ Ha). cbn [mbind_res]. pose proof (i_socks _ _ Hi _ _ Ha) as [[Hb1 Hb2] Hpa].
  assert (0 ≤ saved_enabled_events_ p < 256) as Hrange by (by destruct Hb2). rewrite u8_small by done.
  set (p' := set_saved (-1) p). set (w1 := set_sockets _ w). assert (sockets w1 !! a = Some p') as Ha1 by (cbn; by rewrite lookup_insert_eq).
  unfold MaybeUpdateDispatcher. rewrite (sock_eq _ _ _ Ha1). cbn [mbind_res]. change (saved_enabled_events_ p') with (-1). cbn [Z.eqb Pos.eqb]. rewrite andb_true_r.
  change (enabled_events_ p') with (enabled_events_ p). destruct (Z.eqb_spec (s_ p) INV) as [Hp|Hp].
  - destruct Hpa as (Hk & He & [?|Hs0]); [done|]. rewrite He, Hs0, Z.eqb_refl. cbn [negb]. exists w1. split_and!; [done|by apply inv_unbatch|by split].
  - destruct Hpa as (Hfd & k & Hk & Hik).
    assert (inv None (set_interest (<[s_ p := (GetEpollEvents (polled p'), k)]> (interest w1)) w1)) as Hi'.
    { apply (inv_poll (Some a) None w a p p' k); try done; cbn; [by split; [|left]|intros c Hc; split; [congruence|done]]. }
    destruct (GetEpollEvents (enabled_events_ p) =? GetEpollEvents (saved_enabled_events_ p)) eqn:Ee; cbn [negb].
    + exists w1. split_and!; [done| |by split]. rewrite interest_id in Hi'; [done|]. cbn. unfold polled in *. cbn.
      rewrite (proj2 (Z.eqb_neq (saved_enabled_events_ p) (-1))) in Hik by done. reflect_Z. by rewrite Ee.
    + assert (is_Some (interest w1 !! s_ p')) as Hx by (cbn; by rewrite Hik).
      rewrite (Update_open w1 a p' k); try done; [|apply (i_epoll _ _ Hi)|exact (not_sig _ _ _ _ Hi Ha)].
      eexists. split_and!; [done|exact Hi'|by split].
Qed.

Lemma inv_sent b w g : inv b w → inv b (add_sent g w).
Proof. intros [H1 H2 H3 H4 H5 H6 H7 H8 H9 H10 H11]. by split. Qed.

Context (slots : signal → world → list call).

(** Slots that keep to the rules in every state they can find. *)
Fixpoint calls_ok (b : option Z) (cs : list call) (w : world) : Prop :=
  match cs with [] => True | c :: cs => call_ok b c w ∧ ∀ w', do_call dc c w = Val w' → calls_ok b cs w' end.
Definition slots_ok : Prop := ∀ b g w, inv b w → calls_ok b (slots g w) w.

Lemma do_calls_inv b cs : ∀ w, inv b w → calls_ok b cs w → ∃ w', do_calls dc cs w = Val w' ∧ inv b w' ∧ evolves w w'.
Proof.
  induction cs as [|c cs IH]; intros w Hi Hok; cbn [do_calls]; [by exists w|]. destruct Hok as [Hc Hcs].
  destruct (do_call_inv b c w Hi Hc) as (w1 & E & Hi1 & He1). rewrite E. cbn [mbind_res].
  destruct (IH w1 Hi1 (Hcs w1 E)) as (w2 & -> & Hi2 & He2). exists w2. split_and!; [done..|by etrans].
Qed.

Hypothesis Hslots : slots_ok.

Lemma emit_inv b g w : inv b w → ∃ w', emit dc slots g w = Val w' ∧ inv b w' ∧ evolves w w'.
Proof.
  intros Hi. unfold emit. apply (inv_sent b w g) in Hi as Hi1. destruct (do_calls_inv b (slots g (add_sent g w)) _ Hi1 (Hslots b g _ Hi1)) as (w' & -> & ? & He).
  exists w'. split_and!; [done..|]. etrans; [|exact He]. by split.
Qed.
Lemma change_batch w a f : inv (Some a) w → f 0 = 0 → (∀ e, 0 ≤ e < 256 → 0 ≤ f e < 256) →
  ∃ w', change_events dc a f w = Val w' ∧ inv (Some a) w' ∧ evolves w w'.
Proof.
  intros Hi H0 Hf. destruct (i_in _ _ Hi a eq_refl) as [p Ha].
  destruct (change_inv (Some a) w a p f) as (w' & E & ? & ? & _); [done|done|done|done|]. by exists w'.
Qed.

(** One branch of [OnEvent]: the event is disabled and signaled. *)
Lemma branch_inv w a f g (c : bool) : inv (Some a) w → f 0 = 0 → (∀ e, 0 ≤ e < 256 → 0 ≤ f e < 256) →
  ∃ w', (if c then let* w := change_events dc a f w in emit dc slots g w else Val w) = Val w' ∧ inv (Some a) w' ∧ evolves w w'.
Proof.
  intros Hi H0 Hf. destruct c; [|by exists w]. destruct (change_batch w a f Hi H0 Hf) as (w1 & -> & Hi1 & He1). cbn [mbind_res].
  destruct (emit_inv (Some a) g w1 Hi1) as (w2 & -> & Hi2 & He2). exists w2. split_and!; [done..|by etrans].
Qed.

Lemma set_state_inv w a p (c : bool) st : inv None w → sockets w !! a = Some p → s_ p ≠ INV →
  ∃ w' p', (if c then modify a (set_state st) w else Val w) = Val w' ∧ inv None w' ∧ evolves w w' ∧ sockets w' !! a = Some p' ∧ s_ p' ≠ INV.
Proof.
  intros Hi Ha Hp. destruct c; [|by exists w, p]. destruct (modify_keeps None w a p (set_state st)) as (w1 & -> & Hi1 & He1 & Hso & _); [done..|].
  exists w1, (set_state st p). split_and!; try done. by rewrite Hso, lookup_insert_eq.
Qed.

Lemma on_event_inv w a p ff err : inv None w → sockets w !! a = Some p → s_ p ≠ INV →
  ∃ w', SocketDispatcher_OnEvent dc slots a ff err w = Val w' ∧ inv None w' ∧ evolves w w'.
Proof.
  intros Hi Ha Hp. unfold SocketDispatcher_OnEvent.
  destruct (set_state_inv w a p (has ff DE_CONNECT) CS_CONNECTED) as (w1 & p1 & -> & Hi1 & He1 & Ha1 & Hp1); [done..|]. cbn [mbind_res].
  destruct (set_state_inv w1 a p1 (has ff DE_CLOSE) CS_CLOSED) as (w2 & p2 & -> & Hi2 & He2 & Ha2 & Hp2); [done..|]. cbn [mbind_res].
  destruct (start_batch w2 a p2 Hi2 Ha2 Hp2) as (w3 & -> & Hi3 & He3). cbn [mbind_res]. unfold DisableEvents, SetEnabledEvents.
  assert (∀ ev e, 0 ≤ e < 256 → 0 ≤ u8 (Z.land e (Z.lnot ev)) < 256) as Hr by (intros; apply u8_range).
  destruct (branch_inv w3 a (λ e, u8 (Z.land e (Z.lnot DE_CONNECT))) (SignalConnectEvent a) (has ff DE_CONNECT)) as (w4 & -> & Hi4 & He4); [done..|apply Hr|]. cbn [mbind_res].
  destruct (branch_inv w4 a (λ e, u8 (Z.land e (Z.lnot DE_ACCEPT))) (SignalReadEvent a) (has ff DE_ACCEPT)) as (w5 & -> & Hi5 & He5); [done..|apply Hr|]. cbn [mbind_res].
  destruct (branch_inv w5 a (λ e, u8 (Z.land e (Z.lnot DE_READ))) (SignalReadEvent a) (has ff DE_READ)) as (w6 & -> & Hi6 & He6); [done..|apply Hr|]. cbn [mbind_res].
  destruct (branch_inv w6 a (λ e, u8 (Z.land e (Z.lnot DE_WRITE))) (SignalWriteEvent a) (has ff DE_WRITE)) as (w7 & -> & Hi7 & He7); [done..|apply Hr|]. cbn [mbind_res].
  destruct (branch_inv w7 a (λ _, u8 0) (SignalCloseEvent a err) (has ff DE_CLOSE)) as (w8 & -> & Hi8 & He8); [done..|]. cbn [mbind_res].
  destruct (finish_batch w8 a Hi8) as (w9 & -> & Hi9 & He9). exists w9. split_and!; [done..|]. by repeat (etrans; [eassumption|]).
Qed.

Lemma signaler_inv w : inv None w → ∃ w', Signaler_OnEvent dc w = Val w' ∧ inv None w' ∧ evolves w w' ∧ fWait_ w' = false ∧ fSignaled_ w' = false.
Proof.
  intros [H1 H2 H3 H4 H5 H6 H7 H8 H9 H10 H11]. unfold Signaler_OnEvent. destruct (fSignaled_ w).
  - rewrite H3. change (4 `min` 1 =? 1) with true. rewrite check_true. cbn [mbind_res]. eexists. split_and!; [done| |by split|done|done]. by split.
  - eexists. split_and!; [done| |by split|done|done]. by split.
Qed.

Lemma process_events_inv w a k r wr ce so pk : inv None w → dispatcher_by_key_ w !! k = Some a →
  ∃ w', ProcessEvents dc slots a r wr ce so pk w = Val w' ∧ inv None w' ∧ evolves w w'.
Proof.
  intros Hi Hk. apply (i_maps _ _ Hi) in Hk. unfold ProcessEvents, GetRequestedEvents, IsDescriptorClosed, OnEvent.
  destruct (Z.eqb_spec a (signal_wakeup_ w)) as [->|Hne].
  - cbn [mbind_res]. change (has DE_READ DE_ACCEPT) with false. change (has DE_READ DE_CONNECT) with false. cbn [mbind_res].
    destruct (signaler_inv w Hi) as (w' & E & Hi' & He' & _).
    assert (∀ ff : Z, ∃ w', (if negb (ff =? 0) then Signaler_OnEvent dc w else Val w) = Val w' ∧ inv None w' ∧ evolves w w') as Hgo
      by (intros ff; destruct (negb (ff =? 0)); [by exists w'|by exists w]).
    destruct r; [destruct (negb ((if ce then so else 0) =? 0))|]; cbn [mbind_res]; apply Hgo.
  - destruct (i_live _ _ Hi _ _ Hk) as [?|[p Ha]]; [done|]. rewrite (sock_eq _ _ _ Ha). cbn [mbind_res].
    pose proof (i_socks _ _ Hi _ _ Ha) as [_ Hpa]. destruct (Z.eqb_spec (s_ p) INV) as [Hp|Hp]; [destruct Hpa; congruence|].
    assert (∀ c, ∃ ff, (if r then if has (enabled_events_ p) DE_ACCEPT then Val DE_ACCEPT else if negb ((if ce then so else 0) =? 0) then Val DE_CLOSE
      else let* c := c in Val (if (c : bool) then DE_CLOSE else DE_READ) else Val 0) = Val ff ∨ ¬ (∃ x, c = Val x)) as Hff.
    { intros c. destruct r; [|by exists 0; left]. destruct (has _ _); [by exists DE_ACCEPT; left|]. destruct (negb _); [by exists DE_CLOSE; left|].
      destruct c as [c| | |]; [|by exists 0; right; intros [? ?]..]. exists (if c then DE_CLOSE else DE_READ). by left. }
    match goal with |- context [let* c := ?x in Val (if c then DE_CLOSE else DE_READ)] => destruct (Hff x) as [ff [E|E]] end.
    + rewrite E. cbn [mbind_res]. match goal with |- ∃ w', (if ?c then _ else _) = _ ∧ _ => destruct c end; [by eapply on_event_inv|by exists w].
    + exfalso. apply E. destruct (udp_ p); [by eexists|]. destruct (0 <? ret pk); [by eexists|]. destruct (ret pk =? 0); by eexists.
Qed.

Lemma process_epoll_inv w e : inv None w → ∃ w', process_epoll dc slots e w = Val w' ∧ inv None w' ∧ evolves w w'.
Proof.
  intros Hi. unfold process_epoll. destruct (dispatcher_by_key_ w !! key e) as [a|] eqn:E; [|by exists w]. by eapply process_events_inv.
Qed.

Lemma resolve_inv w a p resolver error addr opened connected closed : inv None w → sockets w !! a = Some p → (s_ p = INV → fd_ok opened w) →
  ∃ w', OnResolveResult dc slots a resolver error addr opened connected closed w = Val w' ∧ inv None w' ∧ evolves w w'.
Proof.
  intros Hi Ha Hfd. unfold OnResolveResult. rewrite (sock_eq _ _ _ Ha). cbn [mbind_res]. destruct (negb _); [by exists w|].
  assert (∃ x w1 q, (if error =? 0 then DoConnect dc a addr opened connected w else let* '(_, w) := Close dc a closed w in Val (error, w)) = Val (x, w1)
    ∧ inv None w1 ∧ evolves w w1 ∧ sockets w1 !! a = Some q) as (x & w1 & q & E & Hi1 & He1 & Hq).
  { destruct (error =? 0).
    - destruct (doconnect_spec None w a p addr opened connected) as (x & w1 & ? & ? & ? & [q Hq]); [done..|]. by exists x, w1, q.
    - destruct (close_spec None w a p closed Hi Ha) as (r & w1 & p1 & -> & ? & ? & Hso & _). cbn [mbind_res]. exists error, w1, p1.
      split_and!; [done..|]. by rewrite Hso, lookup_insert_eq. }
  rewrite E. cbn [mbind_res]. destruct (negb (x =? 0)); [|by exists w1].
  destruct (modify_keeps None w1 a q (set_error x)) as (w2 & Em & Hi2 & He2 & _); [done..|]. unfold SetError. rewrite Em. cbn [mbind_res].
  destruct (emit_inv None (SignalCloseEvent a x) w2 Hi2) as (w3 & -> & Hi3 & He3). exists w3. split_and!; [done..|]. by repeat (etrans; [eassumption|]).
Qed.
(** ** Reachable states *)

Lemma new_inv epoll_fd signaler afd : epoll_fd ≠ INV → 0 ≤ afd → ∃ w, PhysicalSocketServer_new dc epoll_fd signaler afd = Val w ∧ inv None w.
Proof.
  intros He Hf. unfold PhysicalSocketServer_new, Add, AddEpoll, GetDescriptor, GetRequestedEvents, emplace. cbn. rewrite !lookup_empty.
  rewrite (proj2 (Z.eqb_neq epoll_fd INV)) by done. cbn. rewrite Z.eqb_refl. cbn. rewrite (proj2 (Z.eqb_neq afd INV)) by (unfold INVALID_SOCKET; lia).
  cbn [negb]. rewrite check_true. cbn. eexists. split; [done|]. split; cbn; try done.
  - split_and!; [done|done|]. exists 0. by rewrite !lookup_insert_eq.
  - intros k a. rewrite !lookup_insert_Some, !lookup_empty. naive_solver.
  - intros k a. rewrite lookup_insert_Some, lookup_empty. intros [[<- _]|[_ ?]]; [by vm_compute|done].
  - intros fd e k. rewrite lookup_insert_Some, lookup_empty. intros [[<- [= <- <-]]|[_ ?]]; [|done]. exists signaler. rewrite lookup_insert_eq. split; [done|]. by left.
  - intros a k. rewrite lookup_insert_Some, lookup_empty. intros [[<- _]|[_ ?]]; [by left|done].
Qed.

(** The histories of a server: calls from outside an event, events in any order
    the kernel likes, finished lookups, and waking up from any thread. *)
Inductive reachable : world → Prop :=
| r_new epoll_fd signaler afd w : epoll_fd ≠ INV → 0 ≤ afd → PhysicalSocketServer_new dc epoll_fd signaler afd = Val w → reachable w
| r_call c w w' : reachable w → call_ok None c w → do_call dc c w = Val w' → reachable w'
| r_event e w w' : reachable w → process_epoll dc slots e w = Val w' → reachable w'
| r_resolve a p resolver error addr opened connected closed w w' : reachable w → sockets w !! a = Some p → (s_ p = INV → fd_ok opened w) →
    OnResolveResult dc slots a resolver error addr opened connected closed w = Val w' → reachable w'
| r_wake w : reachable w → reachable (WakeUp w)
| r_wait w : reachable w → reachable (set_signaler (fSignaled_ w) (pipe_bytes w) true w).

Lemma wake_inv b w : inv b w → inv b (WakeUp w).
Proof.
  intros [H1 H2 H3 H4 H5 H6 H7 H8 H9 H10 H11]. unfold WakeUp, Signal. destruct (fSignaled_ w) eqn:E; [by split; rewrite ?E|].
  split; try done. cbn. lia.
Qed.

Lemma wait_inv b w : inv b w → inv b (set_signaler (fSignaled_ w) (pipe_bytes w) true w).
Proof. intros [H1 H2 H3 H4 H5 H6 H7 H8 H9 H10 H11]. by split. Qed.

Lemma reachable_inv w : reachable w → inv None w.
Proof.
  induction 1 as [? ? ? w ? ? E|c w w' _ IH Hc E|e w w' _ IH E|a p rs er ad o c cl w w' _ IH Ha Hfd E|w _ IH|w _ IH].
  - destruct (new_inv epoll_fd signaler afd) as (w0 & E0 & ?); [done..|]. congruence.
  - destruct (do_call_inv None c w IH Hc) as (w0 & ? & ? & _). congruence.
  - destruct (process_epoll_inv w e IH) as (w0 & ? & ? & _). congruence.
  - destruct (resolve_inv w a p rs er ad o c cl IH Ha Hfd) as (w0 & ? & ? & _). congruence.
  - by apply wake_inv.
  - by apply wait_inv.
Qed.

(** ** Waking up *)

Lemma process_epolls_inv es : ∀ w, inv None w → ∃ w', process_epolls dc slots es w = Val w' ∧ inv None w' ∧ evolves w w'.
Proof.
  induction es as [|e es IH]; intros w Hi; cbn [process_epolls]; [by exists w|].
  destruct (process_epoll_inv w e Hi) as (w1 & -> & Hi1 & He1). cbn [mbind_res]. destruct (IH w1 Hi1) as (w2 & -> & Hi2 & He2). exists w2. split_and!; [done..|by etrans].
Qed.

Lemma wakes_event w e : inv None w → key_by_dispatcher_ w !! signal_wakeup_ w = Some (key e) → has (events e) (Z.lor EPOLLIN EPOLLPRI) = true →
  ∃ w', process_epoll dc slots e w = Val w' ∧ inv None w' ∧ evolves w w' ∧ fWait_ w' = false.
Proof.
  intros Hi Hk Hr. destruct (signaler_inv w Hi) as (w' & E & Hi' & He & Hw & _). exists w'. split_and!; try done.
  apply (i_maps _ _ Hi) in Hk. unfold process_epoll. rewrite Hk, Hr. unfold ProcessEvents, GetRequestedEvents, IsDescriptorClosed, OnEvent. rewrite Z.eqb_refl.
  cbn [mbind_res]. change (has DE_READ DE_ACCEPT) with false. change (has DE_READ DE_CONNECT) with false.
  destruct (has (events e) EPOLLOUT), (negb (_ =? 0)); cbn [mbind_res]; exact E.
Qed.

Lemma wakes_events es : ∀ w e, inv None w → key_by_dispatcher_ w !! signal_wakeup_ w = Some (key e) → e ∈ es → has (events e) (Z.lor EPOLLIN EPOLLPRI) = true →
  ∃ w', process_epolls dc slots es w = Val w' ∧ inv None w' ∧ fWait_ w' = false.
Proof.
  induction es as [|x es IH]; intros w e Hi Hk He Hr; [by apply not_elem_of_nil in He|]. cbn [process_epolls].
  apply elem_of_cons in He as [->|He].
  - destruct (wakes_event w x Hi Hk Hr) as (w1 & -> & Hi1 & _ & Hw1). cbn [mbind_res]. destruct (process_epolls_inv es w1 Hi1) as (w2 & -> & Hi2 & He2).
    exists w2. split_and!; [done..|]. destruct (ev_sig _ _ He2) as (_ & _ & Hw & _). destruct (fWait_ w2); [|done]. rewrite Hw in Hw1; done.
  - destruct (process_epoll_inv w x Hi) as (w1 & -> & Hi1 & He1). cbn [mbind_res]. apply (IH w1 e Hi1); [|done..].
    destruct (ev_sig _ _ He1) as (Hs & _ & _ & Hks). by rewrite Hs, Hks.
Qed.
End Inv.
(** ** The properties *)

(** C19: In every history of the server, with slots that keep to the rules and
    whatever the kernel reports, the kernel polls every open socket for exactly
    the events it asks for, under the key of that socket, and nothing else but
    the wake-up pipe; every permitted call and every event has a result, none of
    the checks stops it, and a key that was given out never names another
    socket later, so that a late event cannot reach the wrong one. *)
Theorem socket_server_polls dc slots w : slots_ok dc slots → reachable dc slots w →
  (∀ a p, sockets w !! a = Some p → s_ p ≠ INV →
     ∃ k, dispatcher_by_key_ w !! k = Some a ∧ interest w !! s_ p = Some (GetEpollEvents (enabled_events_ p), k)) ∧
  (∀ fd ev k, interest w !! fd = Some (ev, k) → ∃ a, dispatcher_by_key_ w !! k = Some a ∧
     (a = signal_wakeup_ w ∧ fd = afd_ w ∨ ∃ p, sockets w !! a = Some p ∧ s_ p = fd)) ∧
  (∀ c, call_ok None c w → ∃ w', do_call dc c w = Val w' ∧
     ∀ k a, k < next_dispatcher_key_ w → dispatcher_by_key_ w' !! k = Some a → dispatcher_by_key_ w !! k = Some a) ∧
  (∀ e, ∃ w', process_epoll dc slots e w = Val w' ∧
     ∀ k a, k < next_dispatcher_key_ w → dispatcher_by_key_ w' !! k = Some a → dispatcher_by_key_ w !! k = Some a).
Proof.
  intros Hs Hr. pose proof (reachable_inv dc slots Hs w Hr) as Hi. split_and!.
  - intros a p Ha Hp. pose proof (i_socks _ _ Hi _ _ Ha) as [_ Hpa]. rewrite (proj2 (Z.eqb_neq _ _)) in Hpa by done. destruct Hpa as (_ & k & Hk & Hik).
    exists k. split; [by apply (i_maps _ _ Hi)|]. unfold polled in Hik. destruct (Z.eqb_spec (saved_enabled_events_ p) (-1)) as [_|Hn]; [done|].
    apply (i_batch _ _ Hi _ _ Ha) in Hn. done.
  - apply (i_fds _ _ Hi).
  - intros c Hc. destruct (do_call_inv dc None c w Hi Hc) as (w' & E & _ & He). exists w'. split; [done|]. apply (ev_keys _ _ He).
  - intros e. destruct (process_epoll_inv dc slots Hs w e Hi) as (w' & E & _ & He). exists w'. split; [done|]. apply (ev_keys _ _ He).
Qed.

(** C20: While the server is signaled its pipe holds one byte, and the round of
    a wait in which the kernel reports that pipe is the last: the wait returns
    true, the byte is read and the flags are down, whatever else is reported in
    the same round and whatever the slots do. *)
Theorem wake_up_ends_wait dc slots w cms stop es e t rounds : slots_ok dc slots → reachable dc slots w →
  key_by_dispatcher_ w !! signal_wakeup_ w = Some (key e) → e ∈ es → has (events e) (Z.lor EPOLLIN EPOLLPRI) = true →
  pipe_bytes (WakeUp w) = 1 ∧
  ∃ w', wait_epoll dc slots cms stop (Round (WaitEvents es) t :: rounds) (set_signaler (fSignaled_ w) (pipe_bytes w) true w) = Some (Val (true, w')) ∧
    fWait_ w' = false ∧ pipe_bytes w' = if fSignaled_ w' then 1 else 0.
Proof.
  intros Hs Hr Hk He Hin. pose proof (reachable_inv dc slots Hs w Hr) as Hi. split.
  - pose proof (i_pipe _ _ Hi) as Hp. unfold WakeUp, Signal. destruct (fSignaled_ w) eqn:E; cbn; lia.
  - pose proof (wait_inv None w Hi) as Hw. destruct (wakes_events dc slots Hs es _ e Hw Hk He Hin) as (w' & E & Hi' & Hf).
    exists w'. cbn [wait_epoll fWait_ set_signaler negb answered now]. destruct es as [|x es]; [by apply not_elem_of_nil in He|]. rewrite E.
    split_and!; [|done|apply (i_pipe _ _ Hi')]. destruct (negb _ && _); [done|]. destruct rounds; cbn; by rewrite Hf.
Qed.

(** ** A concrete server *)

(** Slots that read, write or close an open socket. *)
Definition demo_slots (g : signal) (w : world) : list call :=
  let if_open a c := match sockets w !! a with Some p => if s_ p =? INV then [] else [c] | None => [] end in
  match g with
  | SignalReadEvent a => if_open a (CRecv a 1500 (Ans 10 0))
  | SignalWriteEvent a => if_open a (CSend a 100 (Ans 40 0))
  | SignalConnectEvent a => if_open a (CSend a 100 (Ans (-1) EWOULDBLOCK))
  | SignalCloseEvent a _ => if_open a (CClose a (Ans 0 0))
  end.

Lemma demo_slots_ok dc : slots_ok dc demo_slots.
Proof.
  intros b g w Hi. unfold demo_slots. destruct g as [a|a|a|a err]; destruct (sockets w !! a) as [p|] eqn:Ha; try done;
    destruct (Z.eqb_spec (s_ p) INV); try done; (split; [|done]); cbn; eauto.
  - exists p. split_and!; [done|done|vm_compute; done].
  - exists p. split_and!; [done|done|vm_compute; done].
Qed.

Definition demo_world (cs : list call) : world :=
  match (let* w := PhysicalSocketServer_new true 3 1000 4 in do_calls true cs w) with Val w => w | _ => World 0 0 ∅ ∅ 0 0 false 0 false ∅ ∅ [] end.

Definition demo_udp : list call := [CCreateSocket 2000 AF_INET SOCK_DGRAM (Ans 5 0)].

Lemma demo_reachable : reachable true demo_slots (demo_world demo_udp).
Proof.
  apply (r_call true demo_slots (CCreateSocket 2000 AF_INET SOCK_DGRAM (Ans 5 0)) (demo_world [])).
  - apply (r_new true demo_slots 3 1000 4); vm_compute; done.
  - split_and!; [vm_compute; done|vm_compute; done|]. right. split_and!; [vm_compute; done| |vm_compute; done]. split; [vm_compute; done|].
    intros a p. change (sockets (demo_world [])) with (∅ : gmap Z PhysicalSocket). by rewrite lookup_empty.
  - vm_compute. done.
Qed.

Lemma socket_server_polls_witness :
  ∃ k, dispatcher_by_key_ (demo_world demo_udp) !! k = Some 2000 ∧ interest (demo_world demo_udp) !! 5 = Some (Z.lor EPOLLIN EPOLLOUT, k).
Proof.
  destruct (socket_server_polls true demo_slots (demo_world demo_udp)) as (H & _).
  - apply demo_slots_ok.
  - apply demo_reachable.
  - destruct (sockets (demo_world demo_udp) !! 2000) as [p|] eqn:Ep; [|vm_compute in Ep; discriminate Ep].
    assert (s_ p = 5 ∧ enabled_events_ p = 3) as [E5 E3] by (vm_compute in Ep; injection Ep as <-; split; reflexivity).
    destruct (H 2000 p Ep) as (k & Hk & Hi); [rewrite E5; discriminate|]. exists k. rewrite E5, E3 in Hi. split; [exact Hk|exact Hi].
Defined.

Lemma wake_up_ends_wait_witness :
  pipe_bytes (WakeUp (demo_world demo_udp)) = 1 ∧
  ∃ w', wait_epoll true demo_slots ss_kForever 0 [Round (WaitEvents [Event EPOLLOUT 1 0 (Ans 0 0); Event EPOLLIN 0 0 (Ans 0 0)]) 0]
          (set_signaler (fSignaled_ (demo_world demo_udp)) (pipe_bytes (demo_world demo_udp)) true (demo_world demo_udp)) = Some (Val (true, w')) ∧
    fWait_ w' = false ∧ pipe_bytes w' = if fSignaled_ w' then 1 else 0.
Proof.
  apply (wake_up_ends_wait true demo_slots (demo_world demo_udp) ss_kForever 0 [Event EPOLLOUT 1 0 (Ans 0 0); Event EPOLLIN 0 0 (Ans 0 0)] (Event EPOLLIN 0 0 (Ans 0 0))).
  - apply demo_slots_ok.
  - apply demo_reachable.
  - vm_compute. reflexivity.
  - right. left.
  - reflexivity.
Defined.

(** ** What the code gets wrong *)

(** An error that comes without readiness is dropped, though the kernel goes on
    reporting it. *)
Example error_only_dropped :
  process_epoll true demo_slots (Event (Z.lor EPOLLERR EPOLLHUP) 1 ECONNRESET (Ans (-1) ECONNRESET)) (demo_world demo_udp) = Val (demo_world demo_udp).
Proof. vm_compute. done. Qed.

(** A socket that was closed and is looking up a name cannot be closed: the
    lookup ends in an open connection. *)
Definition demo_name : SocketAddress := SA (b#"example") ip_unspec 80 0 false.
Definition demo_addr : SocketAddress := SA [] (ip_v4 [10; 0; 0; 1]) 80 0 false.
Example close_while_resolving :
  let w := demo_world [CCreateSocket 2000 AF_INET SOCK_STREAM (Ans 5 0); CClose 2000 (Ans 0 0);
                       CConnect 2000 demo_name 7 (Ans 0 0) (Ans 0 0); CClose 2000 (Ans 0 0)] in
  (state_ <$> sockets w !! 2000) = Some CS_CONNECTING ∧
  (let* w := OnResolveResult true demo_slots 2000 7 0 demo_addr (Ans 6 0) (Ans 0 0) (Ans 0 0) w in
   Val ((λ p, (s_ p, state_ p)) <$> sockets w !! 2000)) = Val (Some (6, CS_CONNECTED)).
Proof. vm_compute. done. Qed.

(** When the connection after a lookup fails, the error the socket reports is
    not the one of the system call. *)
Example resolve_error_lost :
  let w := demo_world [CCreateSocket 2000 AF_INET SOCK_STREAM (Ans 5 0); CConnect 2000 demo_name 7 (Ans 0 0) (Ans 0 0)] in
  (let* w := OnResolveResult true (λ _ _, []) 2000 7 0 demo_addr (Ans 0 0) (Ans (-1) 111) (Ans 0 0) w in
   Val (error_ <$> sockets w !! 2000, sent w)) = Val (Some (-1), [SignalCloseEvent 2000 (-1)]).
Proof. vm_compute. done. Qed.
