(* ===== verification/BufferQueue.v ===== *)
(** * The queue of packets (rtc_base/buffer_queue.h, buffer_queue.cc)

    A [BufferQueue] holds pointers to [Buffer] objects: those of the packets
    that wait ([queue_]) and those to use again ([free_list_]). The objects
    live in a store by address, so that a pointer in both lists, a pointer to
    a deleted object and a buffer that is never deleted show. The main theorem
    is that the object is a bounded queue of byte strings that never owns more
    buffers than its capacity. *)

From S2P Require Import Prelude Buffer.

Record BufferQueue := BQ {
  capacity_ : Z;
  default_size_ : Z;
  queue_ : list Z;
  free_list_ : list Z;
  heap : gmap Z BufferT          (* the buffers by address *)
}.

Definition BufferQueue_new (capacity default_size : Z) : BufferQueue := BQ capacity default_size [] [] ∅.

Definition set_lists (q f : list Z) (b : BufferQueue) : BufferQueue := BQ (capacity_ b) (default_size_ b) q f (heap b).
Definition set_heap (h : gmap Z BufferT) (b : BufferQueue) : BufferQueue :=
  BQ (capacity_ b) (default_size_ b) (queue_ b) (free_list_ b) h.

Definition BufferQueue_size (b : BufferQueue) : Z := Z.of_nat (length (queue_ b)).
Definition is_writable (b : BufferQueue) : bool := BufferQueue_size b <? capacity_ b.
Definition is_readable (b : BufferQueue) : bool := match queue_ b with [] => false | _ => true end.

(** The loop of [Clear]; it moves one pointer a turn. *)
Fixpoint clear_loop (q f : list Z) : list Z * list Z :=
  match q with
  | [] => (q, f)
  | p :: q => clear_loop q (f ++ [p])
  end.

Definition BufferQueue_Clear (b : BufferQueue) : BufferQueue :=
  let '(q, f) := clear_loop (queue_ b) (free_list_ b) in set_lists q f b.

Section Ops.
Context (RTC_DCHECK_IS_ON : bool) (max_alloc : Z).

(** [delete] of each pointer of a list. *)
Fixpoint delete_all (ps : list Z) (h : gmap Z BufferT) : res (gmap Z BufferT) :=
  match ps with
  | [] => Val h
  | p :: ps =>
      let* b := of_mem (h !! p) in
      let* _ := BufferT_delete false b in
      delete_all ps (delete p h)
  end.

(** The destructor; what is left of the store. *)
Definition BufferQueue_delete (b : BufferQueue) : res (gmap Z BufferT) :=
  let* h := delete_all (queue_ b) (heap b) in delete_all (free_list_ b) h.

(** [buffer] is the memory of the caller; the answer has what was written to
    it and to [*bytes_read], which nothing is written to when [false]. *)
Definition ReadFront (buffer : list cell) (bytes : Z) (b : BufferQueue) : res (option (list cell * Z) * BufferQueue) :=
  match queue_ b with
  | [] => Val (None, b)
  | packet :: rest =>
      let* p := of_mem (heap b !! packet) in
      let* n := Buffer.size RTC_DCHECK_IS_ON p in
      let bytes := Z.min bytes n in
      let* _ := Buffer.data RTC_DCHECK_IS_ON p in
      let* src := read_at 0 bytes p in
      let* buffer := of_mem (mwrite buffer 0 src) in
      Val (Some (buffer, bytes), set_lists rest (free_list_ b ++ [packet]) b)
  end.

(** The pointer to write to: the last of the free list or a new object. *)
Definition take_buffer (bytes : Z) (b : BufferQueue) : res (Z * BufferQueue) :=
  match list.last (free_list_ b) with
  | Some packet => Val (packet, set_lists (queue_ b) (removelast (free_list_ b)) b)
  | None =>
      let* p := BufferT_sized RTC_DCHECK_IS_ON max_alloc bytes (default_size_ b) in
      let packet := fresh (dom (heap b)) in
      Val (packet, set_heap (<[packet := p]> (heap b)) b)
  end.

Definition WriteBack (buffer : list Z) (b : BufferQueue) : res (option Z * BufferQueue) :=
  if BufferQueue_size b =? capacity_ b then Val (None, b)
  else
    let bytes := Z.of_nat (length buffer) in
    let* '(packet, b) := take_buffer bytes b in
    let* p := of_mem (heap b !! packet) in
    let* p := SetData RTC_DCHECK_IS_ON false max_alloc buffer p in
    let b := set_heap (<[packet := p]> (heap b)) b in
    Val (Some bytes, set_lists (queue_ b ++ [packet]) (free_list_ b) b).
End Ops.

(** ** Calls, and the queue they are seen as *)

Inductive bq_call :=
  | CWrite (buffer : list Z)
  | CRead (buffer : list cell) (bytes : Z)
  | CClear.

Inductive bq_answer :=
  | AWritten (bytes_written : option Z)
  | ARead (got : option (list cell * Z))
  | ANone.

Definition bq_step (dc : bool) (max_alloc : Z) (c : bq_call) (b : BufferQueue) : res (bq_answer * BufferQueue) :=
  match c with
  | CWrite d => let* '(r, b) := WriteBack dc max_alloc d b in Val (AWritten r, b)
  | CRead buf n => let* '(r, b) := ReadFront dc buf n b in Val (ARead r, b)
  | CClear => Val (ANone, BufferQueue_Clear b)
  end.

Fixpoint bq_run (dc : bool) (max_alloc : Z) (cs : list bq_call) (b : BufferQueue) : res (list bq_answer * BufferQueue) :=
  match cs with
  | [] => Val ([], b)
  | c :: cs =>
      let* '(a, b) := bq_step dc max_alloc c b in
      let* '(rest, b) := bq_run dc max_alloc cs b in
      Val (a :: rest, b)
  end.

(** A bounded queue of byte strings. A read copies as much of the oldest as
    fits and drops the rest of it. *)
Definition spec_step (cap : Z) (c : bq_call) (q : list (list Z)) : bq_answer * list (list Z) :=
  match c, q with
  | CWrite d, _ =>
      if Z.of_nat (length q) <? cap then (AWritten (Some (Z.of_nat (length d))), q ++ [d]) else (AWritten None, q)
  | CRead _ _, [] => (ARead None, [])
  | CRead buf n, d :: q =>
      let got := take (Z.to_nat n) d in
      (ARead (Some ((Some <$> got) ++ drop (length got) buf, Z.of_nat (length got))), q)
  | CClear, _ => (ANone, [])
  end.

Fixpoint spec_run (cap : Z) (cs : list bq_call) (q : list (list Z)) : list bq_answer * list (list Z) :=
  match cs with
  | [] => ([], q)
  | c :: cs =>
      let '(a, q) := spec_step cap c q in
      let '(rest, q) := spec_run cap cs q in
      (a :: rest, q)
  end.

(** A read has room for what it asks for; a packet is small enough to be
    allocated with the headroom of a growing buffer. *)
Definition call_ok (max_alloc : Z) (c : bq_call) : Prop :=
  match c with
  | CWrite d => 2 * Z.of_nat (length d) ≤ max_alloc
  | CRead buf n => 0 ≤ n ≤ Z.of_nat (length buf)
  | CClear => True
  end.

(** ** The representation *)

Definition packets (b : BufferQueue) : list Z := queue_ b ++ free_list_ b.

Definition holds (h : gmap Z BufferT) (p : Z) (d : list Z) : Prop :=
  ∃ b, h !! p = Some b ∧ content b = Some <$> d.

(** Every buffer of the store is well formed and in exactly one place, the
    queue holds the packets in order, and there are at most [capacity_]
    buffers in all. *)
Record represents (max_alloc : Z) (b : BufferQueue) (q : list (list Z)) : Prop := Repr {
  rp_default : 0 ≤ default_size_ b ≤ max_alloc;
  rp_nodup : NoDup (packets b);
  rp_dom : ∀ p, p ∈ packets b ↔ is_Some (heap b !! p);
  rp_ok : ∀ p c, heap b !! p = Some c → buf_ok c;
  rp_queue : Forall2 (holds (heap b)) (queue_ b) q;
  rp_bound : Z.of_nat (length (packets b)) ≤ capacity_ b
}.

Section Theory.
Context (dc : bool) (max_alloc : Z).
Hypothesis max_alloc_ok : max_alloc ≤ 2 ^ 62.

Notation represents := (represents max_alloc).

Lemma clear_loop_spec q f : clear_loop q f = ([], f ++ q).
Proof.
  revert f. induction q as [|p q IH]; intros f; simpl; [by rewrite app_nil_r|].
  by rewrite IH, <- app_assoc.
Qed.

Lemma new_represents cap dflt : 0 ≤ cap → 0 ≤ dflt ≤ max_alloc → represents (BufferQueue_new cap dflt) [].
Proof.
  intros Hc Hd. split; simpl; [done|constructor| | |constructor|done].
  - intros p. rewrite lookup_empty. split; [set_solver|by intros []].
  - intros p c. by rewrite lookup_empty.
Qed.

(** Moving the pointers around. *)
Lemma represents_perm b b' q q' :
  represents b q → packets b' ≡ₚ packets b → heap b' = heap b → capacity_ b' = capacity_ b →
  default_size_ b' = default_size_ b → Forall2 (holds (heap b)) (queue_ b') q' → represents b' q'.
Proof.
  intros [Hd Hn Hm Ho Hq Hb] Hp Eh Ec Ed Hq'. split; rewrite ?Eh, ?Ec, ?Ed; try done.
  - by rewrite Hp.
  - intros p. by rewrite Hp.
  - by rewrite Hp.
Qed.

Lemma Clear_represents b q : represents b q → represents (BufferQueue_Clear b) [].
Proof.
  intros H. unfold BufferQueue_Clear. rewrite clear_loop_spec.
  eapply represents_perm; [done| |done..|constructor]. unfold packets. simpl. by rewrite Permutation_app_comm.
Qed.

Lemma holds_length h q ds : Forall2 (holds h) q ds → length q = length ds.
Proof. apply Forall2_length. Qed.

Lemma holds_ext h h' q ds : Forall2 (holds h) q ds → (∀ p, p ∈ q → h' !! p = h !! p) → Forall2 (holds h') q ds.
Proof.
  induction 1 as [|p d q ds (c & Hc & Ec) _ IH]; intros Hh; constructor.
  - exists c. rewrite Hh by (by left). done.
  - apply IH. intros p' Hp'. apply Hh. by right.
Qed.

Lemma ReadFront_spec buf n b q :
  represents b q → 0 ≤ n ≤ Z.of_nat (length buf) →
  ∃ b', bq_step dc max_alloc (CRead buf n) b = Val ((spec_step (capacity_ b) (CRead buf n) q).1, b') ∧
    capacity_ b' = capacity_ b ∧ represents b' (spec_step (capacity_ b) (CRead buf n) q).2.
Proof.
  intros H Hn. simpl. unfold ReadFront. pose proof (rp_queue _ _ _ H) as Hq.
  destruct (queue_ b) as [|p rest] eqn:Eq; inversion Hq as [|? d ? ds (c & Hc & Ed) Hds Ea Eb]; subst; simpl.
  { by exists b. }
  pose proof (rp_ok _ _ _ H _ _ Hc) as Hok. pose proof (length_content c Hok) as Hl.
  rewrite Ed, length_fmap in Hl. pose proof (ok_size c Hok) as Hs.
  rewrite Hc. cbn [of_mem mbind_res]. unfold Buffer.size, Buffer.data.
  rewrite (ok_consistent c Hok), dcheck_true. cbn [mbind_res].
  assert (read_at 0 (Z.min n (size_ c)) c = Val (Some <$> take (Z.to_nat n) d)) as ->.
  { rewrite read_at_spec by (done || lia). simpl. rewrite fmap_take, <- Ed. unfold content.
    rewrite take_take. do 2 f_equal. lia. }
  cbn [mbind_res]. rewrite (mwrite_front buf (Some <$> take (Z.to_nat n) d)) by len_solve.
  cbn [of_mem mbind_res]. rewrite length_fmap.
  replace (Z.min n (size_ c)) with (Z.of_nat (length (take (Z.to_nat n) d))) by len_solve.
  eexists. split; [|split].
  - done.
  - done.
  - eapply represents_perm; [done| |done..]. unfold packets. simpl. rewrite Eq. simpl.
    rewrite app_assoc. by rewrite Permutation_app_comm.
Qed.

Lemma free_last b p : list.last (free_list_ b) = Some p → free_list_ b = removelast (free_list_ b) ++ [p].
Proof.
  intros Hl. apply last_Some in Hl as [l E]. rewrite E. by rewrite removelast_last.
Qed.

(** The buffer to write to: well formed, not in the queue, the others and the
    bound as before. *)
Lemma take_buffer_spec n b q :
  represents b q → 0 ≤ n ≤ max_alloc → BufferQueue_size b < capacity_ b →
  ∃ p b', take_buffer dc max_alloc n b = Val (p, b') ∧
    capacity_ b' = capacity_ b ∧ default_size_ b' = default_size_ b ∧ queue_ b' = queue_ b ∧
    p :: packets b' ≡ₚ packets b' ++ [p] ∧ NoDup (p :: packets b') ∧
    (∀ p', p' ∈ p :: packets b' ↔ is_Some (heap b' !! p')) ∧
    (∀ p' c, heap b' !! p' = Some c → buf_ok c) ∧
    (∀ p', p' ∈ queue_ b → heap b' !! p' = heap b !! p') ∧
    Z.of_nat (length (p :: packets b')) ≤ capacity_ b.
Proof.
  intros [Hd Hn Hm Ho Hq Hb] Hn0 Hsz. unfold take_buffer. destruct (list.last _) as [p|] eqn:El.
  - apply free_last in El. assert (packets b ≡ₚ p :: queue_ b ++ removelast (free_list_ b)) as Hp.
    { unfold packets at 1. rewrite El at 1. rewrite app_assoc. by rewrite Permutation_app_comm. }
    eexists _, _. split; [done|]. split_and!; try done; simpl.
    + by rewrite Permutation_app_comm.
    + by rewrite <- Hp.
    + intros p'. unfold packets at 1. simpl. by rewrite <- Hp.
    + by rewrite (Permutation_length Hp) in Hb.
  - apply last_None in El.
    destruct (BufferT_sized_spec dc max_alloc max_alloc_ok n (default_size_ b)) as (c & -> & Hc & _ & _); [lia|lia|].
    cbn [mbind_res]. set (p := fresh (dom (heap b))).
    assert (heap b !! p = None) as Hf by (apply not_elem_of_dom, is_fresh).
    assert (packets b = queue_ b) as Ep by (unfold packets; by rewrite El, app_nil_r).
    assert (p ∉ packets b) as Hp by (rewrite Hm, Hf; by intros []).
    eexists _, _. split; [done|]. change (packets (set_heap _ b)) with (packets b). split_and!; try done; simpl.
    + by rewrite Permutation_app_comm.
    + by constructor.
    + intros p'. rewrite elem_of_cons, Hm, lookup_insert_is_Some'. naive_solver.
    + intros p' c' [[<- <-]|[_ H]]%lookup_insert_Some; eauto.
    + intros p' Hp'. apply lookup_insert_ne. rewrite <- Ep in Hp'. by intros ->.
    + rewrite Ep. unfold BufferQueue_size in Hsz. lia.
Qed.

Lemma WriteBack_spec d b q :
  represents b q → 2 * Z.of_nat (length d) ≤ max_alloc →
  ∃ b', bq_step dc max_alloc (CWrite d) b = Val ((spec_step (capacity_ b) (CWrite d) q).1, b') ∧
    capacity_ b' = capacity_ b ∧ represents b' (spec_step (capacity_ b) (CWrite d) q).2.
Proof.
  intros H Hd. pose proof (rp_queue _ _ _ H) as Hq. pose proof (rp_bound _ _ _ H) as Hb.
  unfold packets in Hb. rewrite length_app in Hb. simpl. unfold WriteBack, BufferQueue_size.
  rewrite <- (holds_length _ _ _ Hq). destruct (Z.eqb_spec (Z.of_nat (length (queue_ b))) (capacity_ b)) as [E|E].
  { rewrite (proj2 (Z.ltb_ge _ _)) by lia. simpl. by exists b. }
  rewrite (proj2 (Z.ltb_lt _ _)) by lia.
  destruct (take_buffer_spec (Z.of_nat (length d)) b q H) as (p & b1 & -> & Ec & Ed & Eq & _ & Hn & Hm & Ho & Hh & Hl);
    [lia|unfold BufferQueue_size; lia|]. cbn [mbind_res].
  destruct (proj1 (Hm p)) as [c Hc]; [by left|]. rewrite Hc. cbn [of_mem mbind_res].
  destruct (SetData_spec dc false max_alloc max_alloc_ok d c) as (c' & -> & Hc' & Ect & _); [by eapply Ho|done|].
  cbn [mbind_res]. eexists. split; [done|]. split; [done|].
  assert (packets (set_lists (queue_ b1 ++ [p]) (free_list_ b1) (set_heap (<[p:=c']> (heap b1)) b1)) ≡ₚ p :: packets b1) as Hp.
  { unfold packets. simpl. rewrite <- app_assoc. simpl. by rewrite Permutation_middle. }
  split; try rewrite Hp; simpl.
  - rewrite Ed. apply H.
  - done.
  - intros p'. rewrite Hp, Hm, lookup_insert_is_Some'. split; [tauto|]. intros [<-|?]; [by rewrite Hc|done].
  - intros p' c0 [[<- <-]|[_ H0]]%lookup_insert_Some; eauto.
  - rewrite Eq. apply Forall2_app; [|constructor; [|constructor]].
    2: { exists c'. by rewrite lookup_insert_eq. }
    assert (p ∉ queue_ b) as Hnp.
    { apply NoDup_cons in Hn as [Hn _]. unfold packets in Hn. rewrite Eq in Hn. set_solver. }
    eapply holds_ext; [done|]. intros p' Hin. rewrite lookup_insert_ne by (by intros ->). by rewrite Hh.
  - by rewrite Ec.
Qed.

Lemma step_spec c b q :
  represents b q → call_ok max_alloc c →
  ∃ b', bq_step dc max_alloc c b = Val ((spec_step (capacity_ b) c q).1, b') ∧
    capacity_ b' = capacity_ b ∧ represents b' (spec_step (capacity_ b) c q).2.
Proof.
  destruct c; intros H Hc; [by apply WriteBack_spec|by apply ReadFront_spec|].
  exists (BufferQueue_Clear b). split_and!; [done| |by eapply Clear_represents].
  unfold BufferQueue_Clear. by destruct (clear_loop _ _).
Qed.

Lemma run_spec cs b q :
  represents b q → Forall (call_ok max_alloc) cs →
  ∃ b', bq_run dc max_alloc cs b = Val ((spec_run (capacity_ b) cs q).1, b') ∧
    capacity_ b' = capacity_ b ∧ represents b' (spec_run (capacity_ b) cs q).2.
Proof.
  intros H Hcs. revert b q H. induction Hcs as [|c cs Hc _ IH]; intros b q H; [by exists b|].
  destruct (step_spec c b q H Hc) as (b1 & E1 & Ec1 & H1). destruct (IH b1 _ H1) as (b2 & E2 & Ec2 & H2).
  exists b2. cbn [bq_run spec_run]. rewrite E1. cbn [mbind_res]. rewrite E2. cbn [mbind_res]. rewrite Ec1 in *.
  destruct (spec_step _ c q) as [a q1]. simpl in *. destruct (spec_run _ cs q1) as [r q2]. by rewrite Ec2.
Qed.

(** Each pointer is deleted once. *)
Lemma delete_all_spec ps h :
  NoDup ps → (∀ p, p ∈ ps → ∃ c, h !! p = Some c ∧ buf_ok c) →
  ∃ h', delete_all ps h = Val h' ∧ (∀ p, h' !! p = if decide (p ∈ ps) then None else h !! p).
Proof.
  revert h. induction ps as [|p ps IH]; intros h Hn Hh.
  { exists h. split; [done|]. intros p. by rewrite decide_False by set_solver. }
  apply NoDup_cons in Hn as [Hp Hn]. destruct (Hh p) as (c & Hc & Hok); [by left|]. cbn [delete_all].
  rewrite Hc. cbn [of_mem mbind_res]. unfold BufferT_delete. cbn [MaybeZeroCompleteBuffer andb mbind_res].
  destruct (IH (delete p h)) as (h' & -> & H'); [done| |].
  { intros p' Hp'. rewrite lookup_delete_ne by (by intros ->). apply Hh. by right. }
  exists h'. split; [done|]. intros p'. rewrite H'. destruct (decide (p' = p)) as [->|Hne].
  - rewrite (decide_True (P := p ∈ p :: ps)) by (by left). rewrite decide_False by done. by rewrite lookup_delete_eq.
  - rewrite lookup_delete_ne by done. repeat case_decide; set_solver.
Qed.

Lemma delete_spec b q : represents b q → BufferQueue_delete b = Val ∅.
Proof.
  intros [_ Hn Hm Ho _ _]. unfold BufferQueue_delete. apply NoDup_app in Hn as (Hq & Hqf & Hf).
  assert (∀ p, p ∈ packets b → ∃ c, heap b !! p = Some c ∧ buf_ok c) as Hin.
  { intros p [c Hc]%Hm. eauto. }
  destruct (delete_all_spec (queue_ b) (heap b)) as (h1 & -> & H1); [done| |].
  { intros p Hp. apply Hin. unfold packets. set_solver. }
  cbn [mbind_res]. destruct (delete_all_spec (free_list_ b) h1) as (h2 & -> & H2); [done| |].
  { intros p Hp. rewrite H1, decide_False by (intros ?; by eapply Hqf). apply Hin. unfold packets. set_solver. }
  f_equal. apply map_eq. intros p. rewrite lookup_empty, H2, H1. repeat case_decide; try done.
  apply eq_None_not_Some. rewrite <- Hm. unfold packets. set_solver.
Qed.
End Theory.

(** A [BufferQueue] is a bounded queue of packets. Whatever packets are
    written, read and cleared, every call has a result, and it is the one of a
    queue of byte strings: a write is refused exactly when [capacity] packets
    wait, a read returns as much of the oldest packet as fits and drops it.
    Never more than [capacity] buffers are owned, and the destructor deletes
    each of them once and leaves none. *)
Theorem buffer_queue_refines (dc : bool) (max_alloc cap dflt : Z) (cs : list bq_call) :
  max_alloc ≤ 2 ^ 62 → 0 ≤ cap → 0 ≤ dflt ≤ max_alloc → Forall (call_ok max_alloc) cs →
  ∃ b, bq_run dc max_alloc cs (BufferQueue_new cap dflt) = Val ((spec_run cap cs []).1, b) ∧
    BufferQueue_size b = Z.of_nat (length (spec_run cap cs []).2) ∧
    is_writable b = (Z.of_nat (length (spec_run cap cs []).2) <? cap) ∧
    is_readable b = negb (bool_decide ((spec_run cap cs []).2 = [])) ∧
    Z.of_nat (base.size (heap b)) ≤ cap ∧
    BufferQueue_delete b = Val ∅.
Proof.
  intros Hm Hc Hd Hcs.
  destruct (run_spec dc max_alloc Hm cs (BufferQueue_new cap dflt) []) as (b & E & Ec & H); [by apply new_represents|done|].
  simpl in E, Ec, H. exists b. pose proof (holds_length _ _ _ (rp_queue _ _ _ H)) as Hl.
  unfold is_writable, is_readable, BufferQueue_size. rewrite Hl, Ec. split_and!; try done.
  - destruct (queue_ b), (spec_run _ _ _).2; done.
  - rewrite <- size_dom. pose proof (rp_bound _ _ _ H) as Hb. rewrite Ec in Hb.
    assert (dom (heap b) = list_to_set (packets b)) as ->.
    { apply set_eq. intros p. rewrite elem_of_dom, elem_of_list_to_set. symmetry. apply H. }
    rewrite size_list_to_set by apply H. done.
  - by eapply delete_spec.
Qed.

Lemma buffer_queue_refines_witness :
  ∃ b, bq_run true 100 [CWrite [1; 2; 3]; CWrite [4]; CWrite [5]; CRead [None; None] 2; CWrite [6; 7]] (BufferQueue_new 2 4)
    = Val ([AWritten (Some 3); AWritten (Some 1); AWritten None; ARead (Some ([Some 1; Some 2], 2)); AWritten (Some 2)], b).
Proof.
  destruct (buffer_queue_refines true 100 2 4 [CWrite [1; 2; 3]; CWrite [4]; CWrite [5]; CRead [None; None] 2; CWrite [6; 7]])
    as (b & H & _); [lia|lia|lia| |exists b; exact H].
  repeat constructor; simpl; lia.
Defined.
