(* ===== verification/Sigslot.v ===== *)
(** * Signals and slots (rtc_base/third_party/sigslot/sigslot.h)

    A signal holds the list of its connections, an object with slots the set
    of the signals it is connected to, and the two keep each other up to date
    when either is deleted. Signals and objects live in a store by address;
    calling a member of a deleted one is undefined. A connection is a node of
    a [std::list], with an address of its own, so that the iterator a firing
    signal keeps ([m_current_iterator]) can dangle in the model as well. The
    threading policy is the default [single_threaded], whose locks do nothing.

    A slot is code of the program: [beh] says which operation the slot runs
    next, after looking at the state, so that slots connect, disconnect,
    delete and fire signals while a signal is firing. *)

From stdpp Require Import sorting.
From S2P Require Import Prelude.

(** [_opaque_connection] as the element of a list node. [pmethod] stands for
    the member function. *)
Record connection := Conn { node : Z; pdest : Z; pmethod : Z }.

#[global] Instance connection_eq_dec : EqDecision connection.
Proof. solve_decision. Defined.

(** [_opaque_connection::duplicate], put into a new list node. *)
Definition duplicate (n newtarget : Z) (c : connection) : connection := Conn n newtarget (pmethod c).

(** The iterator is the address of a node, or [None] for [end()]. *)
Record signal_base := Sig { m_connected_slots : list connection; m_current_iterator : option Z }.

Record world := World {
  signals : gmap Z signal_base;
  slots : gmap Z (gset Z);                    (* the objects with slots, with their [m_senders] *)
  next_node : Z;                              (* where the next list node is allocated *)
  called : list (connection * list Z);        (* history: the calls of slots, with the arguments *)
  firing : list Z                             (* history: the signals in [emit] now *)
}.

Definition world_new : world := World ∅ ∅ 0 [] [].

Definition set_signals (m : gmap Z signal_base) (w : world) : world :=
  World m (slots w) (next_node w) (called w) (firing w).
Definition set_slots (m : gmap Z (gset Z)) (w : world) : world :=
  World (signals w) m (next_node w) (called w) (firing w).
Definition set_sig (s : Z) (sb : signal_base) (w : world) : world := set_signals (<[s := sb]> (signals w)) w.
Definition set_senders (o : Z) (S : gset Z) (w : world) : world := set_slots (<[o := S]> (slots w)) w.
Definition set_next (n : Z) (w : world) : world := World (signals w) (slots w) n (called w) (firing w).
Definition set_firing (f : list Z) (w : world) : world :=
  World (signals w) (slots w) (next_node w) (called w) f.
Definition record_call (c : connection) (args : list Z) (w : world) : world :=
  World (signals w) (slots w) (next_node w) (called w ++ [(c, args)]) (firing w).

(** ** Lists with iterators *)

(** The element of a node, and the node that follows it. *)
Definition deref (it : Z) (l : list connection) : option connection := snd <$> list_find (λ c, node c = it) l.

Fixpoint next_of (it : Z) (l : list connection) : option Z :=
  match l with
  | [] => None
  | c :: l => if node c =? it then node <$> list.head l else next_of it l
  end.

(** [erase] takes the node out. *)
Definition without (ids : list Z) (l : list connection) : list connection := filter (λ c, node c ∉ ids) l.

(** Erasing the node of [c]; a firing signal that was about to call [c] goes
    on behind it. *)
Definition erase_connection (c : connection) (sb : signal_base) : signal_base :=
  Sig (without [node c] (m_connected_slots sb))
      (if bool_decide (m_current_iterator sb = Some (node c)) then next_of (node c) (m_connected_slots sb)
       else m_current_iterator sb).

(** ** has_slots *)

Definition do_signal_connect (o sender : Z) (w : world) : res world :=
  let* S := of_mem (slots w !! o) in Val (set_senders o ({[sender]} ∪ S) w).

Definition do_signal_disconnect (o sender : Z) (w : world) : res world :=
  let* S := of_mem (slots w !! o) in Val (set_senders o (S ∖ {[sender]}) w).

(** A [std::set] of pointers is visited in the order of the addresses. *)
Definition set_elements (S : gset Z) : list Z := merge_sort Z.le (elements S).

(** ** _signal_base *)

Definition do_slot_disconnect (s pslot : Z) (w : world) : res world :=
  let* sb := of_mem (signals w !! s) in
  Val (set_sig s (foldl (λ sb it, if pdest it =? pslot then erase_connection it sb else sb) sb (m_connected_slots sb)) w).

(** The loop goes on until [end()], over the nodes it appends as well. [i] is
    the position of the iterator; no result when the fuel runs out. *)
Fixpoint duplicate_loop (fuel : nat) (oldtarget newtarget : Z) (i : nat) (l : list connection) (n : Z)
    : option (list connection * Z) :=
  match fuel with
  | O => None
  | S fuel =>
      match l !! i with
      | None => Some (l, n)
      | Some it =>
          if pdest it =? oldtarget
          then duplicate_loop fuel oldtarget newtarget (S i) (l ++ [duplicate n newtarget it]) (n + 1)
          else duplicate_loop fuel oldtarget newtarget (S i) l n
      end
  end.

Definition do_slot_duplicate (s oldtarget newtarget : Z) (w : world) : res world :=
  let* sb := of_mem (signals w !! s) in
  let fuel := S (2 * length (m_connected_slots sb)) in
  let* '(l, n) := of_mem (duplicate_loop fuel oldtarget newtarget 0 (m_connected_slots sb) (next_node w)) in
  Val (set_next n (set_sig s (Sig l (m_current_iterator sb)) w)).

Definition is_empty (s : Z) (w : world) : res bool :=
  let* sb := of_mem (signals w !! s) in Val (bool_decide (m_connected_slots sb = [])).

Definition connected (s pclass : Z) (w : world) : res bool :=
  let* sb := of_mem (signals w !! s) in Val (existsb (λ c, pdest c =? pclass) (m_connected_slots sb)).

Fixpoint disconnect_all_loop (l : list connection) (s : Z) (it : option Z) (w : world) : res world :=
  match l with
  | [] => Val w
  | c :: l =>
      let w := set_sig s (Sig l it) w in
      let* w := do_signal_disconnect (pdest c) s w in
      disconnect_all_loop l s it w
  end.

Definition disconnect_all (s : Z) (w : world) : res world :=
  let* sb := of_mem (signals w !! s) in
  let* w := disconnect_all_loop (m_connected_slots sb) s (m_current_iterator sb) w in
  Val (set_sig s (Sig [] None) w).

Definition disconnect (s pclass : Z) (w : world) : res world :=
  let* sb := of_mem (signals w !! s) in
  match list_find (λ c, pdest c = pclass) (m_connected_slots sb) with
  | None => Val w
  | Some (_, it) => do_signal_disconnect pclass s (set_sig s (erase_connection it sb) w)
  end.

Definition connect (s pclass pmemfun : Z) (w : world) : res world :=
  let* sb := of_mem (signals w !! s) in
  let n := next_node w in
  let w := set_next (n + 1) (set_sig s (Sig (m_connected_slots sb ++ [Conn n pclass pmemfun]) (m_current_iterator sb)) w) in
  do_signal_connect pclass s w.

(** Objects are made at an address that is not in use. *)
Definition signal_new (s : Z) (w : world) : res world :=
  let* _ := of_mem (if bool_decide (signals w !! s = None) then Some () else None) in
  Val (set_sig s (Sig [] None) w).

Fixpoint copy_connections (s : Z) (cs : list connection) (w : world) : res world :=
  match cs with
  | [] => Val w
  | c :: cs =>
      let* w := do_signal_connect (pdest c) s w in
      let* sb := of_mem (signals w !! s) in
      let n := next_node w in
      let w := set_next (n + 1)
                 (set_sig s (Sig (m_connected_slots sb ++ [Conn n (pdest c) (pmethod c)]) (m_current_iterator sb)) w) in
      copy_connections s cs w
  end.

Definition signal_copy (o s : Z) (w : world) : res world :=
  let* ob := of_mem (signals w !! o) in
  let* w := signal_new s w in
  copy_connections s (m_connected_slots ob) w.

Definition signal_delete (s : Z) (w : world) : res world :=
  let* w := disconnect_all s w in Val (set_signals (delete s (signals w)) w).

(** ** has_slots, the rest *)

Definition has_slots_new (o : Z) (w : world) : res world :=
  let* _ := of_mem (if bool_decide (slots w !! o = None) then Some () else None) in Val (set_senders o ∅ w).

Fixpoint copy_senders (o this : Z) (senders : list Z) (w : world) : res world :=
  match senders with
  | [] => Val w
  | s :: senders =>
      let* w := do_slot_duplicate s o this w in
      let* w := do_signal_connect this s w in
      copy_senders o this senders w
  end.

Definition has_slots_copy (o this : Z) (w : world) : res world :=
  let* S := of_mem (slots w !! o) in
  let* w := has_slots_new this w in
  copy_senders o this (set_elements S) w.

Fixpoint disconnect_senders (o : Z) (senders : list Z) (w : world) : res world :=
  match senders with
  | [] => Val w
  | s :: senders => let* w := do_slot_disconnect s o w in disconnect_senders o senders w
  end.

(** [while (!m_senders.empty())]; no result when the fuel runs out. *)
Fixpoint do_disconnect_all (fuel : nat) (o : Z) (w : world) : res world :=
  match fuel with
  | O => Undef
  | S fuel =>
      let* S := of_mem (slots w !! o) in
      if bool_decide (S = ∅) then Val w
      else
        let w := set_senders o ∅ w in
        let* w := disconnect_senders o (set_elements S) w in
        do_disconnect_all fuel o w
  end.

(** Two turns: the first empties the set, the second finds it empty. *)
Definition slots_disconnect_all (o : Z) (w : world) : res world := do_disconnect_all 2 o w.

Definition has_slots_delete (o : Z) (w : world) : res world :=
  let* w := slots_disconnect_all o w in Val (set_slots (delete o (slots w)) w).

(** ** Programs that use signals *)

Inductive cmd :=
  | Connect (s o m : Z)
  | Disconnect (s o : Z)
  | DisconnectAll (s : Z)
  | NewSignal (s : Z)
  | CopySignal (s new : Z)
  | DeleteSignal (s : Z)
  | NewSlots (o : Z)
  | CopySlots (o new : Z)
  | SlotsDisconnectAll (o : Z)
  | DeleteSlots (o : Z)
  | Emit (s : Z) (args : list Z).

(** Everything but firing. *)
Definition exec_op (c : cmd) (w : world) : res world :=
  match c with
  | Connect s o m => connect s o m w
  | Disconnect s o => disconnect s o w
  | DisconnectAll s => disconnect_all s w
  | NewSignal s => signal_new s w
  | CopySignal s new => signal_copy s new w
  | DeleteSignal s => signal_delete s w
  | NewSlots o => has_slots_new o w
  | CopySlots o new => has_slots_copy o new w
  | SlotsDisconnectAll o => slots_disconnect_all o w
  | DeleteSlots o => has_slots_delete o w
  | Emit _ _ => Val w
  end.

Definition bind_run (m : option (res world)) (k : world → option (res world)) : option (res world) :=
  match m with
  | Some (Val w) => k w
  | m => m
  end.

(** The first line of [emit], and what holds of a signal that fires. *)
Definition start_emit (s : Z) (w : world) : res world :=
  let* sb := of_mem (signals w !! s) in
  let w := set_sig s (Sig (m_connected_slots sb) (node <$> list.head (m_connected_slots sb))) w in
  Val (set_firing (s :: firing w) w).

Definition end_emit (w : world) : world := set_firing (tail (firing w)) w.

Section Emit.
(** The [i]th operation of a call of slot [m] of object [o]; [None] returns. *)
Context (beh : Z → Z → list Z → nat → world → option cmd).

(** No result when the fuel runs out. *)
Fixpoint emit_loop (fuel : nat) (s : Z) (args : list Z) (w : world) {struct fuel} : option (res world) :=
  match fuel with
  | O => None
  | S fuel =>
      match signals w !! s with
      | None => Some Undef
      | Some sb =>
          match m_current_iterator sb with
          | None => Some (Val w)
          | Some it =>
              match deref it (m_connected_slots sb) with
              | None => Some Undef
              | Some conn =>
                  let w := set_sig s (Sig (m_connected_slots sb) (next_of it (m_connected_slots sb))) w in
                  match slots w !! pdest conn with
                  | None => Some Undef
                  | Some _ =>
                      bind_run (slot_body fuel (pdest conn) (pmethod conn) args 0 (record_call conn args w))
                               (emit_loop fuel s args)
                  end
              end
          end
      end
  end
with slot_body (fuel : nat) (o m : Z) (args : list Z) (i : nat) (w : world) {struct fuel} : option (res world) :=
  match fuel with
  | O => None
  | S fuel =>
      match beh o m args i w with
      | None => Some (Val w)
      | Some (Emit s args') =>
          bind_run (bind_run (Some (start_emit s w)) (emit_loop fuel s args'))
                   (λ w, slot_body fuel o m args (S i) (end_emit w))
      | Some c => bind_run (Some (exec_op c w)) (slot_body fuel o m args (S i))
      end
  end.

Definition emit (fuel : nat) (s : Z) (args : list Z) (w : world) : option (res world) :=
  bind_run (bind_run (Some (start_emit s w)) (emit_loop fuel s args)) (λ w, Some (Val (end_emit w))).
End Emit.

(** ** What links the two sides *)

Definition conns (w : world) (s : Z) : list connection := default [] (m_connected_slots <$> signals w !! s).
Definition senders (w : world) (o : Z) : gset Z := default ∅ (slots w !! o).

(** The iterator of a signal is in its list, which has each node once. *)
Record sig_ok (n : Z) (sb : signal_base) : Prop := SigOk {
  so_nodup : NoDup (node <$> m_connected_slots sb);
  so_fresh : Forall (λ c, node c < n) (m_connected_slots sb);
  so_iter : ∀ it, m_current_iterator sb = Some it → it ∈ node <$> m_connected_slots sb
}.

(** A signal has a connection to an object exactly when the object has it
    among its senders. A deleted signal has no connections and a deleted
    object no senders, so that nothing deleted is linked. *)
Record wf (w : world) : Prop := Wf {
  wf_sig : ∀ s sb, signals w !! s = Some sb → sig_ok (next_node w) sb;
  wf_links : ∀ s o, o ∈ pdest <$> conns w s ↔ s ∈ senders w o;
  wf_firing : ∀ s, s ∈ firing w → is_Some (signals w !! s)
}.

(** What a program may ask for. A signal is not deleted while it fires.
    [Disconnect] is for objects with at most one connection to the signal. *)
Definition allowed (w : world) (c : cmd) : Prop :=
  match c with
  | Connect s o _ => is_Some (signals w !! s) ∧ is_Some (slots w !! o)
  | Disconnect s o => is_Some (signals w !! s) ∧ (length (filter (λ c, pdest c = o) (conns w s)) ≤ 1)%nat
  | DisconnectAll s | Emit s _ => is_Some (signals w !! s)
  | NewSignal s => signals w !! s = None
  | CopySignal s new => is_Some (signals w !! s) ∧ signals w !! new = None
  | DeleteSignal s => is_Some (signals w !! s) ∧ s ∉ firing w
  | NewSlots o => slots w !! o = None
  | CopySlots o new => is_Some (slots w !! o) ∧ slots w !! new = None
  | SlotsDisconnectAll o | DeleteSlots o => is_Some (slots w !! o)
  end.

#[global] Instance allowed_dec w c : Decision (allowed w c).
Proof. destruct c; simpl; apply _. Defined.

(** ** Erasing *)

(** The connections before and from the iterator on. *)
Definition at_split (sb : signal_base) (P R : list connection) : Prop :=
  m_connected_slots sb = P ++ R ∧ m_current_iterator sb = node <$> list.head R.

Lemma without_app ids l l' : without ids (l ++ l') = without ids l ++ without ids l'.
Proof. apply filter_app. Qed.

Lemma without_without ids ids' l : without ids (without ids' l) = without (ids' ++ ids) l.
Proof.
  unfold without. rewrite list_filter_filter. apply list_filter_iff. intros c. set_solver.
Qed.

Lemma without_none ids l : (∀ c, c ∈ l → node c ∉ ids) → without ids l = l.
Proof.
  induction l as [|c l IH]; intros H; [done|]. unfold without. rewrite filter_cons_True by (apply H; by left).
  f_equal. apply IH. intros d Hd. apply H. by right.
Qed.

Lemma without_nil l : without [] l = l.
Proof. apply without_none. set_solver. Qed.

Lemma without_sublist ids l : without ids l `sublist_of` l.
Proof. apply sublist_filter. Qed.

Lemma next_of_app P c R :
  node c ∉ node <$> P → next_of (node c) (P ++ c :: R) = node <$> list.head R.
Proof.
  induction P as [|d P IH]; simpl; intros Hn.
  - by rewrite Z.eqb_refl.
  - apply not_elem_of_cons in Hn as [Hd Hn]. rewrite (proj2 (Z.eqb_neq _ _)) by done. auto.
Qed.

Lemma without_head c R : node c ∉ node <$> R → without [node c] (c :: R) = R.
Proof.
  intros H. unfold without. rewrite filter_cons_False by set_solver. apply without_none.
  intros d Hd E%list_elem_of_singleton. apply H. rewrite <- E. by apply list_elem_of_fmap_2.
Qed.

(** [sb'] is [sb] with the nodes [ids] erased; a signal that fires goes on
    with what is left of the rest. *)
Record shrunk (ids : list Z) (sb sb' : signal_base) : Prop := Shrunk {
  sh_slots : m_connected_slots sb' = without ids (m_connected_slots sb);
  sh_split : ∀ P R, at_split sb P R → at_split sb' (without ids P) (without ids R)
}.

Lemma shrunk_refl sb : shrunk [] sb sb.
Proof. split; intros; by rewrite ?without_nil. Qed.

Lemma shrunk_trans ids ids' sb sb1 sb2 : shrunk ids sb sb1 → shrunk ids' sb1 sb2 → shrunk (ids ++ ids') sb sb2.
Proof.
  intros [E1 H1] [E2 H2]. split; [by rewrite E2, E1, without_without|].
  intros P R H%H1%H2. by rewrite !without_without in H.
Qed.

Lemma sig_ok_split n sb : sig_ok n sb → ∃ P R, at_split sb P R.
Proof.
  intros [_ _ Hi]. unfold at_split. destruct (m_current_iterator sb) as [it|].
  - destruct (list_elem_of_fmap_1 _ _ _ (Hi it eq_refl)) as (c & -> & Hc).
    apply list_elem_of_split in Hc as (P & R & ->). by exists P, (c :: R).
  - exists (m_connected_slots sb), []. by rewrite app_nil_r.
Qed.

Lemma split_iter sb P R it : at_split sb P R → m_current_iterator sb = Some it → it ∈ node <$> m_connected_slots sb.
Proof.
  intros [-> ->] H. rewrite fmap_app. destruct R; simplify_eq/=. set_solver.
Qed.

Lemma shrunk_ok ids n sb sb' : shrunk ids sb sb' → sig_ok n sb → sig_ok n sb'.
Proof.
  intros [E H] Hok. destruct (sig_ok_split _ _ Hok) as (P & R & Hs). destruct Hok as [Hn Hf Hi]. split; rewrite ?E.
  - eapply sublist_NoDup; [done|]. apply fmap_sublist, without_sublist.
  - apply Forall_forall. intros c [_ Hc]%list_elem_of_filter. by eapply Forall_forall in Hf.
  - intros it Hit. rewrite <- E. eapply split_iter; eauto.
Qed.

Lemma erase_shrunk c sb : NoDup (node <$> m_connected_slots sb) → shrunk [node c] sb (erase_connection c sb).
Proof.
  intros Hn. split; [done|]. intros P R [E Ei]. unfold erase_connection, at_split. simpl. rewrite E, Ei in *.
  split; [apply without_app|]. rewrite fmap_app in Hn. apply NoDup_app in Hn as (_ & Hpr & Hr).
  destruct R as [|d R]; [done|]. simpl in *. apply NoDup_cons in Hr as [Hd Hr].
  case_bool_decide as Hc; simplify_eq.
  - rewrite <- Hc, next_of_app by (intros Hp; by apply (Hpr _ Hp); left). by rewrite without_head.
  - unfold without. rewrite filter_cons_True by (intros ?%list_elem_of_singleton; congruence). done.
Qed.

Lemma slot_disconnect_shrunk p todo sb :
  NoDup (node <$> m_connected_slots sb) →
  shrunk (node <$> filter (λ c, pdest c = p) todo) sb
    (foldl (λ sb it, if pdest it =? p then erase_connection it sb else sb) sb todo).
Proof.
  revert sb. induction todo as [|c todo IH]; intros sb Hn; [apply shrunk_refl|]. simpl.
  rewrite filter_cons. destruct (Z.eqb_spec (pdest c) p); [|rewrite decide_False by done; auto].
  rewrite decide_True by done. rewrite fmap_cons. apply (shrunk_trans [node c] _ _ (erase_connection c sb)).
  - by apply erase_shrunk.
  - apply IH. simpl. eapply sublist_NoDup; [done|]. apply fmap_sublist, without_sublist.
Qed.

Lemma filter_ext_in {A} (P Q : A → Prop) `{∀ x, Decision (P x), ∀ x, Decision (Q x)} (l : list A) :
  (∀ x, x ∈ l → P x ↔ Q x) → filter P l = filter Q l.
Proof.
  induction l as [|x l IH]; intros HPQ; [done|]. rewrite !filter_cons, IH by (intros; apply HPQ; by right).
  pose proof (HPQ x ltac:(by left)). by repeat case_decide; try tauto.
Qed.

Lemma NoDup_fmap_inj {A B} (f : A → B) (l : list A) x y :
  NoDup (f <$> l) → x ∈ l → y ∈ l → f x = f y → x = y.
Proof.
  induction l as [|z l IH]; [set_solver|]. rewrite fmap_cons, NoDup_cons. intros [Hz Hn] Hx Hy E.
  apply elem_of_cons in Hx as [->|Hx], Hy as [->|Hy]; [done| | |auto]; exfalso; apply Hz.
  - rewrite E. by apply list_elem_of_fmap_2.
  - rewrite <- E. by apply list_elem_of_fmap_2.
Qed.

(** All connections to [p] are gone, the others are as before. *)
Lemma without_dest p l :
  NoDup (node <$> l) → without (node <$> filter (λ c, pdest c = p) l) l = filter (λ c, pdest c ≠ p) l.
Proof.
  intros Hn. apply filter_ext_in. intros c Hc. rewrite list_elem_of_fmap. split.
  - intros H Hp. apply H. exists c. split; [done|]. by apply list_elem_of_filter.
  - intros Hp (d & Ed & [Hd Hin]%list_elem_of_filter). by rewrite (NoDup_fmap_inj node l c d) in Hp.
Qed.

(** ** The operations keep the links *)

Lemma conns_set_sig s sb w s' : conns (set_sig s sb w) s' = if decide (s' = s) then m_connected_slots sb else conns w s'.
Proof.
  unfold conns. simpl. case_decide; subst; [by rewrite lookup_insert_eq|by rewrite lookup_insert_ne].
Qed.

Lemma senders_set o S w o' : senders (set_senders o S w) o' = if decide (o' = o) then S else senders w o'.
Proof.
  unfold senders. simpl. case_decide; subst; [by rewrite lookup_insert_eq|by rewrite lookup_insert_ne].
Qed.

Lemma conns_Some w s sb : signals w !! s = Some sb → conns w s = m_connected_slots sb.
Proof. intros H. unfold conns. by rewrite H. Qed.

Lemma senders_Some w o S : slots w !! o = Some S → senders w o = S.
Proof. intros H. unfold senders. by rewrite H. Qed.

(** An object with a connection is alive. *)
Lemma dest_alive w s c : wf w → c ∈ conns w s → is_Some (slots w !! pdest c).
Proof.
  intros Hw Hc. assert (s ∈ senders w (pdest c)) as H by (apply Hw; by apply list_elem_of_fmap_2).
  unfold senders in H. destruct (slots w !! pdest c); [done|set_solver].
Qed.

Lemma sender_alive w s o : wf w → s ∈ senders w o → is_Some (signals w !! s).
Proof.
  intros Hw H%Hw. unfold conns in H. destruct (signals w !! s); [done|]. simpl in H. set_solver.
Qed.

Lemma sig_ok_mono n n' sb : n ≤ n' → sig_ok n sb → sig_ok n' sb.
Proof. intros Hn [H1 H2 H3]. split; try done. eapply Forall_impl; [done|]. simpl. lia. Qed.

(** The state after an operation: signals that are alive stay so, except for
    what is deleted. *)
Lemma wf_intro w w' :
  wf w → firing w' = firing w → next_node w ≤ next_node w' →
  (∀ s, s ∈ firing w → is_Some (signals w !! s) → is_Some (signals w' !! s)) →
  (∀ s sb, signals w' !! s = Some sb → signals w !! s = Some sb ∨ sig_ok (next_node w') sb) →
  (∀ s o, o ∈ pdest <$> conns w' s ↔ s ∈ senders w' o) → wf w'.
Proof.
  intros Hw Ef Hn Ha Hs Hl. split; [|done|].
  - intros s sb H. destruct (Hs _ _ H) as [H'|]; [|done]. eapply sig_ok_mono; [done|]. by eapply Hw.
  - intros s Hf. rewrite Ef in Hf. apply Ha; [done|]. by apply Hw.
Qed.

Lemma sig_ok_app n n' sb cs :
  sig_ok n sb → node <$> cs = seqZ n (n' - n) → n ≤ n' →
  sig_ok n' (Sig (m_connected_slots sb ++ cs) (m_current_iterator sb)).
Proof.
  intros [Hn Hf Hi] E Hle. assert (∀ c, c ∈ cs → n ≤ node c < n') as Hcs.
  { intros c Hc. apply (list_elem_of_fmap_2 node) in Hc. rewrite E, elem_of_seqZ in Hc. lia. }
  split; simpl; rewrite ?fmap_app.
  - rewrite E. apply NoDup_app. split_and!; [done| |apply NoDup_seqZ].
    intros x (c & -> & Hc)%list_elem_of_fmap. eapply Forall_forall in Hf; [|done]. rewrite elem_of_seqZ. simpl in Hf. lia.
  - apply Forall_app. split; [eapply Forall_impl; [done|]; simpl; lia|]. apply Forall_forall. intros c Hc%Hcs. lia.
  - intros it H%Hi. set_solver.
Qed.

Lemma sig_ok_push n sb o m :
  sig_ok n sb → sig_ok (n + 1) (Sig (m_connected_slots sb ++ [Conn n o m]) (m_current_iterator sb)).
Proof. intros H. eapply sig_ok_app; [done| |lia]. by rewrite Z.add_simpl_l. Qed.

(** Compare the links of a state, changed at signal [s] and object [o], with
    those before. *)
Ltac links Hw s o :=
  let s' := fresh "s'" in let o' := fresh "o'" in let HL := fresh "HL" in
  intros s' o'; pose proof (wf_links _ Hw s' o') as HL; unfold conns, senders in *; simpl in *;
  destruct (decide (s' = s)); destruct (decide (o' = o)); subst;
  rewrite ?lookup_insert_eq, ?lookup_insert_ne, ?lookup_delete_eq, ?lookup_delete_ne by done;
  repeat match goal with H : _ !! _ = Some _ |- _ => rewrite H in HL end; simpl in *;
  rewrite ?fmap_app, ?elem_of_app; simpl; try set_solver.

(** What holds of each operation. *)
Definition op_ok (w : world) (r : res world) : Prop :=
  ∃ w', r = Val w' ∧ wf w' ∧ firing w' = firing w ∧ called w' = called w.

Lemma connect_ok s o m w :
  wf w → is_Some (signals w !! s) → is_Some (slots w !! o) → op_ok w (connect s o m w).
Proof.
  intros Hw [sb Hs] [S Ho]. unfold connect, do_signal_connect. rewrite Hs. simpl. rewrite Ho. simpl.
  eexists. split_and!; [done| |done|done]. apply (wf_intro w); simpl; [done|done|lia| | |].
  - intros s' _ H. apply lookup_insert_is_Some'. by right.
  - intros s' sb' [[<- <-]|[_ H]]%lookup_insert_Some; [right|by left]. apply sig_ok_push. by eapply Hw.
  - links Hw s o.
Qed.

(** ** Disconnecting one object *)

Lemma dest_in p (l : list connection) : p ∈ pdest <$> l ↔ ∃ c, c ∈ l ∧ pdest c = p.
Proof. rewrite list_elem_of_fmap. naive_solver. Qed.

Lemma dests_without c o l :
  NoDup (node <$> l) → c ∈ l → o ≠ pdest c → o ∈ pdest <$> without [node c] l ↔ o ∈ pdest <$> l.
Proof.
  intros Hn Hc Ho. rewrite !dest_in. split.
  - intros (d & [_ Hd]%list_elem_of_filter & E). eauto.
  - intros (d & Hd & E). exists d. split; [|done]. apply list_elem_of_filter. split; [|done].
    intros En%list_elem_of_singleton. apply Ho. rewrite <- E. f_equal. by apply (NoDup_fmap_inj node l).
Qed.

Lemma dests_single c l :
  c ∈ l → (length (filter (λ d, pdest d = pdest c) l) ≤ 1)%nat → pdest c ∉ pdest <$> without [node c] l.
Proof.
  intros Hc Hl. rewrite dest_in. intros (d & [Hn Hd]%list_elem_of_filter & E).
  assert (d ∈ filter (λ d, pdest d = pdest c) l) as H1 by (by apply list_elem_of_filter).
  assert (c ∈ filter (λ d, pdest d = pdest c) l) as H2 by (by apply list_elem_of_filter).
  destruct (filter _ l) as [|x [|y r]]; simpl in Hl; [set_solver| |lia].
  apply list_elem_of_singleton in H1, H2. subst. apply Hn. by left.
Qed.

Lemma disconnect_ok s o w :
  wf w → is_Some (signals w !! s) → (length (filter (λ c, pdest c = o) (conns w s)) ≤ 1)%nat → op_ok w (disconnect s o w).
Proof.
  intros Hw [sb Hs] Hl. unfold disconnect. rewrite Hs. simpl.
  destruct (list_find _ _) as [[i c]|] eqn:Ef; [|by exists w].
  apply list_find_Some in Ef as (Hi & <- & _). apply list_elem_of_lookup_2 in Hi.
  pose proof (wf_sig _ Hw _ _ Hs) as Hok. rewrite (conns_Some _ _ _ Hs) in Hl.
  destruct (dest_alive w s c) as [S Ho]; [done|by rewrite (conns_Some _ _ _ Hs)|].
  unfold do_signal_disconnect. simpl. rewrite Ho. simpl.
  eexists. split_and!; [done| |done|done]. apply (wf_intro w); simpl; [done|done|lia| | |].
  - intros s' _ H. apply lookup_insert_is_Some'. by right.
  - intros s' sb' [[<- <-]|[_ H]]%lookup_insert_Some; [right|by left].
    eapply shrunk_ok; [|done]. apply erase_shrunk, Hok.
  - links Hw s (pdest c).
    + pose proof (dests_single c _ Hi Hl). set_solver.
    + rewrite dests_without by (done || apply Hok). set_solver.
Qed.

(** ** Disconnecting a signal *)

(** Every object of the list has lost the signal. *)
Lemma disconnect_all_loop_spec l s it w :
  signals w !! s = Some (Sig l it) → (∀ c, c ∈ l → is_Some (slots w !! pdest c)) →
  ∃ w', disconnect_all_loop l s it w = Val w' ∧ signals w' = <[s := Sig [] it]> (signals w) ∧
    next_node w' = next_node w ∧ called w' = called w ∧ firing w' = firing w ∧
    (∀ o, is_Some (slots w' !! o) ↔ is_Some (slots w !! o)) ∧
    (∀ o, senders w' o = if decide (o ∈ pdest <$> l) then senders w o ∖ {[s]} else senders w o).
Proof.
  revert w. induction l as [|c l IH]; intros w Hs Ha; simpl.
  { exists w. split_and!; try done. by rewrite insert_id. }
  destruct (Ha c) as [S Ho]; [by left|]. unfold do_signal_disconnect. simpl. rewrite Ho. cbn [of_mem mbind_res].
  destruct (IH (set_senders (pdest c) (S ∖ {[s]}) (set_sig s (Sig l it) w))) as (w' & -> & Es & En & Ec & Ef & Hsl & Hse).
  { simpl. by rewrite lookup_insert_eq. }
  { intros d Hd. simpl. apply lookup_insert_is_Some'. right. apply Ha. by right. }
  exists w'. split_and!; try done.
  - rewrite Es. simpl. by rewrite insert_insert_eq.
  - intros o. rewrite Hsl. simpl. rewrite lookup_insert_is_Some'. split; [|tauto]. intros [<-|?]; [by rewrite Ho|done].
  - intros o. rewrite Hse, senders_set. change (senders (set_sig _ _ _) o) with (senders w o).
    pose proof (senders_Some _ _ _ Ho). repeat case_decide; subst; set_solver.
Qed.

Lemma disconnect_all_spec s w :
  wf w → is_Some (signals w !! s) →
  ∃ w', disconnect_all s w = Val w' ∧ signals w' = <[s := Sig [] None]> (signals w) ∧
    next_node w' = next_node w ∧ called w' = called w ∧ firing w' = firing w ∧
    (∀ o, is_Some (slots w' !! o) ↔ is_Some (slots w !! o)) ∧
    (∀ o, senders w' o = senders w o ∖ {[s]}).
Proof.
  intros Hw [[l it] Hs]. unfold disconnect_all. rewrite Hs. cbn [of_mem mbind_res m_connected_slots m_current_iterator].
  destruct (disconnect_all_loop_spec l s it w) as (w' & -> & Es & En & Ec & Ef & Hsl & Hse); [done| |].
  { intros c Hc. apply (dest_alive w s); [done|]. by rewrite (conns_Some _ _ _ Hs). }
  cbn [mbind_res]. eexists. split; [done|]. simpl. rewrite Es, insert_insert_eq. split_and!; try done.
  intros o. change (senders (set_sig _ _ _) o) with (senders w' o). rewrite Hse.
  pose proof (wf_links _ Hw s o) as HL. rewrite (conns_Some _ _ _ Hs) in HL. simpl in HL. case_decide; set_solver.
Qed.

Lemma disconnect_all_ok s w : wf w → is_Some (signals w !! s) → op_ok w (disconnect_all s w).
Proof.
  intros Hw Hs. destruct (disconnect_all_spec s w Hw Hs) as (w' & -> & Es & En & Ec & Ef & _ & Hse).
  exists w'. split_and!; try done. apply (wf_intro w); rewrite ?Es, ?En; [done|done|lia| | |].
  - intros s' _ H. apply lookup_insert_is_Some'. by right.
  - intros s' sb' [[<- <-]|[_ H]]%lookup_insert_Some; [right|by left]. split; simpl; [constructor|constructor|done].
  - intros s' o'. rewrite Hse. pose proof (wf_links _ Hw s' o'). unfold conns in *. rewrite Es.
    destruct (decide (s' = s)) as [->|]; [rewrite lookup_insert_eq|rewrite lookup_insert_ne by done]; set_solver.
Qed.

Lemma signal_delete_ok s w : wf w → is_Some (signals w !! s) → s ∉ firing w → op_ok w (signal_delete s w).
Proof.
  intros Hw Hs Hf. unfold signal_delete. destruct (disconnect_all_spec s w Hw Hs) as (w' & -> & Es & En & Ec & Ef & _ & Hse).
  cbn [mbind_res]. eexists. split_and!; [done| |done|done]. apply (wf_intro w); simpl; rewrite ?Es, ?En, ?delete_insert_eq; [done|done|lia| | |].
  - intros s' Hin H. rewrite lookup_delete_ne; [done|]. by intros ->.
  - intros s' sb' [_ H]%lookup_delete_Some. by left.
  - intros s' o'. change (senders _ o') with (senders w' o'). rewrite Hse. pose proof (wf_links _ Hw s' o').
    unfold conns in *. simpl. rewrite ?Es, ?delete_insert_eq.
    destruct (decide (s' = s)) as [->|]; [rewrite lookup_delete_eq|rewrite lookup_delete_ne by done]; set_solver.
Qed.

(** ** Disconnecting an object *)

Lemma elem_of_set_elements x S : x ∈ set_elements S ↔ x ∈ S.
Proof. unfold set_elements. rewrite merge_sort_Permutation. apply elem_of_elements. Qed.

Lemma NoDup_set_elements S : NoDup (set_elements S).
Proof. unfold set_elements. rewrite merge_sort_Permutation. apply NoDup_elements. Qed.

(** Signals have only lost connections. *)
Definition signals_shrunk (w w' : world) : Prop :=
  ∀ s, option_Forall2 (λ sb sb', ∃ ids, shrunk ids sb sb') (signals w !! s) (signals w' !! s).

Lemma signals_shrunk_refl w : signals_shrunk w w.
Proof. intros s. destruct (signals w !! s); constructor. eexists. apply shrunk_refl. Qed.

Lemma signals_shrunk_trans w1 w2 w3 : signals_shrunk w1 w2 → signals_shrunk w2 w3 → signals_shrunk w1 w3.
Proof.
  intros H1 H2 s. specialize (H1 s). specialize (H2 s).
  destruct H1 as [sb1 sb2 [ids H1]|]; inversion H2 as [? sb3 [ids' H3]|]; subst; constructor.
  eexists. by eapply shrunk_trans.
Qed.

Lemma signals_shrunk_alive w w' s : signals_shrunk w w' → is_Some (signals w' !! s) ↔ is_Some (signals w !! s).
Proof. intros H. destruct (H s); rewrite ?is_Some_alt; done. Qed.

Lemma signals_shrunk_set s sb sb' ids w :
  signals w !! s = Some sb → shrunk ids sb sb' → signals_shrunk w (set_sig s sb' w).
Proof.
  intros Hs Hsh s'. simpl. destruct (decide (s' = s)) as [->|].
  - rewrite lookup_insert_eq, Hs. constructor. eauto.
  - rewrite lookup_insert_ne by done. apply signals_shrunk_refl.
Qed.

Definition same_but_signals (w w' : world) : Prop :=
  slots w' = slots w ∧ next_node w' = next_node w ∧ called w' = called w ∧ firing w' = firing w.

Lemma do_slot_disconnect_spec s o w :
  is_Some (signals w !! s) → (∀ s sb, signals w !! s = Some sb → sig_ok (next_node w) sb) →
  ∃ w', do_slot_disconnect s o w = Val w' ∧ same_but_signals w w' ∧ signals_shrunk w w' ∧
    (∀ s', conns w' s' = if decide (s' = s) then filter (λ c, pdest c ≠ o) (conns w s) else conns w s').
Proof.
  intros [sb Hs] Hok. unfold do_slot_disconnect. rewrite Hs. cbn [of_mem mbind_res].
  pose proof (so_nodup _ _ (Hok _ _ Hs)) as Hn. pose proof (slot_disconnect_shrunk o (m_connected_slots sb) sb Hn) as Hsh.
  eexists. split; [done|]. split; [done|]. split; [by eapply signals_shrunk_set|].
  intros s'. rewrite conns_set_sig, (conns_Some _ _ _ Hs). case_decide; [|done].
  rewrite (sh_slots _ _ _ Hsh). by apply without_dest.
Qed.

Lemma shrunk_all_ok w w' :
  signals_shrunk w w' → (∀ s sb, signals w !! s = Some sb → sig_ok (next_node w) sb) → next_node w' = next_node w →
  ∀ s sb, signals w' !! s = Some sb → sig_ok (next_node w') sb.
Proof.
  intros Hsh Hok En s sb' H. specialize (Hsh s). rewrite H in Hsh. inversion Hsh as [sb ? [ids Hs] E1|]; subst.
  rewrite En. eapply shrunk_ok; [done|]. by eapply Hok.
Qed.

Lemma disconnect_senders_spec o ss w :
  (∀ s, s ∈ ss → is_Some (signals w !! s)) → (∀ s sb, signals w !! s = Some sb → sig_ok (next_node w) sb) →
  ∃ w', disconnect_senders o ss w = Val w' ∧ same_but_signals w w' ∧ signals_shrunk w w' ∧
    (∀ s, conns w' s = if decide (s ∈ ss) then filter (λ c, pdest c ≠ o) (conns w s) else conns w s).
Proof.
  revert w. induction ss as [|s ss IH]; intros w Ha Hok; cbn [disconnect_senders].
  { exists w. split_and!; try done. apply signals_shrunk_refl. }
  destruct (do_slot_disconnect_spec s o w) as (w1 & -> & (E1 & E2 & E3 & E4) & Hsh & Hc); [apply Ha; by left|done|].
  cbn [mbind_res]. destruct (IH w1) as (w2 & -> & (F1 & F2 & F3 & F4) & Hsh2 & Hc2).
  - intros s' Hs'. apply (signals_shrunk_alive w w1); [done|]. apply Ha. by right.
  - by eapply shrunk_all_ok.
  - exists w2. split; [done|]. split; [unfold same_but_signals; split_and!; congruence|].
    split; [by eapply signals_shrunk_trans|]. intros s'. rewrite Hc2, Hc.
    destruct (decide (s' = s)) as [->|Hne].
    + rewrite (decide_True (P := s ∈ s :: ss)) by (by left). case_decide; [|done].
      apply list_filter_filter_l. done.
    + repeat case_decide; set_solver.
Qed.

Lemma slots_disconnect_all_spec o w :
  wf w → is_Some (slots w !! o) →
  ∃ w', slots_disconnect_all o w = Val w' ∧ slots w' = <[o := ∅]> (slots w) ∧ next_node w' = next_node w ∧
    called w' = called w ∧ firing w' = firing w ∧ signals_shrunk w w' ∧
    (∀ s, conns w' s = filter (λ c, pdest c ≠ o) (conns w s)).
Proof.
  intros Hw [S Ho]. unfold slots_disconnect_all. cbn [do_disconnect_all]. rewrite Ho. cbn [of_mem mbind_res].
  assert (∀ s, s ∉ S → filter (λ c, pdest c ≠ o) (conns w s) = conns w s) as Hno.
  { intros s Hs. rewrite <- (senders_Some _ _ _ Ho) in Hs. rewrite <- (wf_links _ Hw), dest_in in Hs.
    rewrite <- (without_nil (conns w s)) at 2. apply filter_ext_in. intros c Hc. split; [intros _; set_solver|]. intros _ E. eauto. }
  case_bool_decide as HS.
  { exists w. subst S. split_and!; try done; [by rewrite insert_id|apply signals_shrunk_refl|]. intros s. by rewrite Hno. }
  destruct (disconnect_senders_spec o (set_elements S) (set_senders o ∅ w)) as (w' & -> & (E1 & E2 & E3 & E4) & Hsh & Hc).
  { intros s Hs%elem_of_set_elements. simpl. apply (sender_alive w s o Hw). by rewrite (senders_Some _ _ _ Ho). }
  { simpl. apply Hw. }
  cbn [mbind_res]. rewrite E1. simpl. rewrite lookup_insert_eq. cbn [of_mem mbind_res]. rewrite bool_decide_true by done.
  exists w'. split_and!; try done. intros s. rewrite Hc. change (conns (set_senders o ∅ w) s) with (conns w s).
  case_decide as Hs; [done|]. rewrite elem_of_set_elements in Hs. by rewrite Hno.
Qed.

(** After an object is disconnected its links are gone on both sides. *)
Lemma dest_filter p o (l : list connection) : p ∈ pdest <$> filter (λ c, pdest c ≠ o) l ↔ p ≠ o ∧ p ∈ pdest <$> l.
Proof. rewrite !dest_in. setoid_rewrite list_elem_of_filter. naive_solver. Qed.

Lemma slots_shrunk_wf o w w' :
  wf w → next_node w' = next_node w → firing w' = firing w → signals_shrunk w w' →
  (∀ s, conns w' s = filter (λ c, pdest c ≠ o) (conns w s)) →
  (∀ o', senders w' o' = if decide (o' = o) then ∅ else senders w o') → wf w'.
Proof.
  intros Hw En Ef Hsh Hc Hse. apply (wf_intro w); [done|done|lia| | |].
  - intros s _ H. by apply (signals_shrunk_alive w w').
  - intros s sb H. right. eapply shrunk_all_ok; eauto using wf_sig.
  - intros s o'. rewrite Hc, Hse, dest_filter, (wf_links _ Hw). case_decide; set_solver.
Qed.

Lemma slots_disconnect_all_ok o w : wf w → is_Some (slots w !! o) → op_ok w (slots_disconnect_all o w).
Proof.
  intros Hw Ho. destruct (slots_disconnect_all_spec o w Hw Ho) as (w' & -> & Es & En & Ec & Ef & Hsh & Hc).
  exists w'. split_and!; try done. apply (slots_shrunk_wf o w); try done. intros o'. unfold senders. rewrite Es.
  case_decide; subst; [by rewrite lookup_insert_eq|by rewrite lookup_insert_ne].
Qed.

Lemma has_slots_delete_ok o w : wf w → is_Some (slots w !! o) → op_ok w (has_slots_delete o w).
Proof.
  intros Hw Ho. unfold has_slots_delete.
  destruct (slots_disconnect_all_spec o w Hw Ho) as (w' & -> & Es & En & Ec & Ef & Hsh & Hc).
  cbn [mbind_res]. eexists. split_and!; [done| |done|done]. apply (slots_shrunk_wf o w); try done.
  intros o'. unfold senders. simpl. rewrite Es, delete_insert_eq.
  case_decide; subst; [by rewrite lookup_delete_eq|by rewrite lookup_delete_ne].
Qed.

(** ** New objects and copies *)

Lemma signal_new_ok s w : wf w → signals w !! s = None → op_ok w (signal_new s w).
Proof.
  intros Hw Hs. unfold signal_new. rewrite bool_decide_true by done. cbn [of_mem mbind_res].
  eexists. split_and!; [done| |done|done]. apply (wf_intro w); simpl; [done|done|lia| | |].
  - intros s' _ H. apply lookup_insert_is_Some'. by right.
  - intros s' sb' [[<- <-]|[_ H]]%lookup_insert_Some; [right|by left]. split; simpl; [constructor|constructor|done].
  - intros s' o'. change (senders _ o') with (senders w o'). rewrite conns_set_sig, <- (wf_links _ Hw).
    case_decide; [|done]. subst. unfold conns. by rewrite Hs.
Qed.

Lemma has_slots_new_ok o w : wf w → slots w !! o = None → op_ok w (has_slots_new o w).
Proof.
  intros Hw Ho. unfold has_slots_new. rewrite bool_decide_true by done. cbn [of_mem mbind_res].
  eexists. split_and!; [done| |done|done]. apply (wf_intro w); simpl; [done|done|lia|done|by left|].
  intros s' o'. change (conns _ s') with (conns w s'). rewrite senders_set, (wf_links _ Hw).
  case_decide; [|done]. subst. unfold senders. by rewrite Ho.
Qed.

(** Copying a connection is connecting. *)
Lemma copy_connections_cons s c cs w :
  is_Some (signals w !! s) → is_Some (slots w !! pdest c) →
  copy_connections s (c :: cs) w = (let* w := connect s (pdest c) (pmethod c) w in copy_connections s cs w).
Proof.
  intros [sb Hs] [S Ho]. cbn [copy_connections]. unfold connect, do_signal_connect. rewrite Ho. simpl. rewrite Hs. simpl.
  by rewrite Ho.
Qed.

Lemma sigslot_connect_keeps s o m w w' :
  connect s o m w = Val w' →
  (∀ s', is_Some (signals w !! s') → is_Some (signals w' !! s')) ∧
  (∀ o', is_Some (slots w !! o') → is_Some (slots w' !! o')).
Proof.
  unfold connect, do_signal_connect. intros H. inv_bind H. inv_bind H. simplify_eq. simpl.
  setoid_rewrite lookup_insert_is_Some'. tauto.
Qed.

Lemma op_ok_trans w w1 r : firing w1 = firing w → called w1 = called w → op_ok w1 r → op_ok w r.
Proof. intros E1 E2 (w' & -> & H & E3 & E4). exists w'. split_and!; congruence. Qed.

Lemma copy_connections_ok s cs w :
  wf w → is_Some (signals w !! s) → (∀ c, c ∈ cs → is_Some (slots w !! pdest c)) → op_ok w (copy_connections s cs w).
Proof.
  revert w. induction cs as [|c cs IH]; intros w Hw Hs Ha; [by exists w|].
  assert (is_Some (slots w !! pdest c)) as Ho by (apply Ha; by left). rewrite copy_connections_cons by done.
  destruct (connect_ok s (pdest c) (pmethod c) w Hw Hs Ho) as (w1 & E & Hw1 & Ef & Ec). rewrite E. cbn [mbind_res].
  apply sigslot_connect_keeps in E as [Hk1 Hk2]. eapply op_ok_trans; [done|done|].
  apply IH; [done|auto|]. intros d Hd. apply Hk2, Ha. by right.
Qed.

Lemma signal_copy_ok o s w :
  wf w → is_Some (signals w !! o) → signals w !! s = None → op_ok w (signal_copy o s w).
Proof.
  intros Hw [ob Ho] Hs. unfold signal_copy. rewrite Ho. cbn [of_mem mbind_res].
  destruct (signal_new_ok s w Hw Hs) as (w1 & E & Hw1 & Ef & Ec). rewrite E. cbn [mbind_res].
  eapply op_ok_trans; [done|done|]. unfold signal_new in E. rewrite bool_decide_true in E by done. simplify_eq/=.
  apply copy_connections_ok; [done|simpl; by rewrite lookup_insert_eq|].
  intros c Hc. simpl. apply (dest_alive w o); [done|]. by rewrite (conns_Some _ _ _ Ho).
Qed.

(** The duplicates of connections, in nodes from [n] on. *)
Fixpoint duplicates (n newtarget : Z) (cs : list connection) : list connection :=
  match cs with
  | [] => []
  | c :: cs => duplicate n newtarget c :: duplicates (n + 1) newtarget cs
  end.

(** The loop passes over what it appends, and ends. *)
Lemma duplicate_loop_tail old new fuel A B n :
  Forall (λ c, pdest c ≠ old) B → (length B < fuel)%nat → duplicate_loop fuel old new (length A) (A ++ B) n = Some (A ++ B, n).
Proof.
  intros HB. revert A fuel. induction HB as [|c B Hc _ IH]; intros A [|fuel] Hf; simpl in Hf; try lia; cbn [duplicate_loop].
  - by rewrite app_nil_r, lookup_ge_None_2 by done.
  - rewrite lookup_app_r, Nat.sub_diag by done. simpl. rewrite (proj2 (Z.eqb_neq _ _)) by done.
    replace (A ++ c :: B) with ((A ++ [c]) ++ B) by (by rewrite <- app_assoc).
    replace (S (length A)) with (length (A ++ [c])) by (rewrite length_app; simpl; lia). apply IH. lia.
Qed.

Lemma duplicate_loop_spec old new todo fuel A B n :
  new ≠ old → Forall (λ c, pdest c ≠ old) B → (2 * length todo + length B < fuel)%nat →
  duplicate_loop fuel old new (length A) (A ++ todo ++ B) n
  = Some (A ++ todo ++ B ++ duplicates n new (filter (λ c, pdest c = old) todo),
          n + Z.of_nat (length (filter (λ c, pdest c = old) todo))).
Proof.
  intros Hne. revert fuel A B n. induction todo as [|c todo IH]; intros fuel A B n HB Hf.
  { simpl. rewrite app_nil_r, Z.add_0_r. by apply duplicate_loop_tail. }
  destruct fuel as [|fuel]; [lia|]. cbn [duplicate_loop length] in *.
  rewrite lookup_app_r, Nat.sub_diag by done. cbn [app lookup list_lookup].
  replace (A ++ c :: todo ++ B) with ((A ++ [c]) ++ todo ++ B) by (by rewrite <- !app_assoc).
  replace (S (length A)) with (length (A ++ [c])) by (rewrite length_app; simpl; lia).
  destruct (Z.eqb_spec (pdest c) old) as [E|E].
  - rewrite filter_cons_True by done. rewrite <- !app_assoc. rewrite (app_assoc A [c]).
    rewrite IH; [|apply Forall_app; by repeat constructor|rewrite length_app; simpl; lia].
    rewrite <- !app_assoc. do 2 f_equal. simpl length. lia.
  - rewrite filter_cons_False by done. rewrite IH by (done || lia). by rewrite <- !app_assoc.
Qed.

Lemma duplicates_nodes n new cs :
  node <$> duplicates n new cs = seqZ n (Z.of_nat (length cs)) ∧ Forall (λ c, pdest c = new) (duplicates n new cs) ∧
  length (duplicates n new cs) = length cs.
Proof.
  revert n. induction cs as [|c cs IH]; intros n; [done|].
  destruct (IH (n + 1)) as (E & H & El). cbn [duplicates length]. rewrite fmap_cons, E, El. rewrite (seqZ_cons n (Z.of_nat (S (length cs)))) by lia. split_and!; [|by constructor|done].
  do 2 f_equal; lia.
Qed.


Lemma do_slot_duplicate_spec s o this w :
  wf w → this ≠ o → is_Some (signals w !! s) →
  ∃ w' ds, do_slot_duplicate s o this w = Val w' ∧
    (∀ s', conns w' s' = if decide (s' = s) then conns w s ++ ds else conns w s') ∧
    Forall (λ c, pdest c = this) ds ∧ (o ∈ pdest <$> conns w s → ds ≠ []) ∧
    slots w' = slots w ∧ called w' = called w ∧ firing w' = firing w ∧ next_node w ≤ next_node w' ∧
    (∀ s', is_Some (signals w' !! s') ↔ is_Some (signals w !! s')) ∧
    (∀ s' sb, signals w' !! s' = Some sb → signals w !! s' = Some sb ∨ sig_ok (next_node w') sb).
Proof.
  intros Hw Hne [sb Hs]. unfold do_slot_duplicate. rewrite Hs. cbn [of_mem mbind_res].
  set (l := m_connected_slots sb). set (mine := filter (λ c, pdest c = o) l).
  assert (duplicate_loop (S (2 * length l)) o this 0 l (next_node w)
    = Some (l ++ duplicates (next_node w) this mine, next_node w + Z.of_nat (length mine))) as ->.
  { pose proof (duplicate_loop_spec o this l (S (2 * length l)) [] [] (next_node w)) as H.
    cbn [app length] in H. rewrite app_nil_r in H. apply H; [done|constructor|lia]. }
  cbn [of_mem mbind_res]. destruct (duplicates_nodes (next_node w) this mine) as (En & Hd & El).
  eexists _, _. split; [done|]. split_and!; try done; simpl.
  - intros s'. change (conns (set_next _ ?x) s') with (conns x s'). rewrite conns_set_sig, (conns_Some _ _ _ Hs). done.
  - rewrite (conns_Some _ _ _ Hs), dest_in. intros (c & Hc & Ec) E0. rewrite E0 in El.
    assert (c ∈ mine) as Hm by (by apply list_elem_of_filter). destruct mine; [set_solver|done].
  - lia.
  - intros s'. rewrite lookup_insert_is_Some'. split; [|tauto]. intros [<-|?]; [by rewrite Hs|done].
  - intros s' sb' [[<- <-]|[_ H]]%lookup_insert_Some; [right|by left].
    eapply sig_ok_app; [by eapply Hw| |lia]. rewrite En. f_equal. lia.
Qed.

Lemma copy_senders_ok o this ss w :
  wf w → this ≠ o → is_Some (slots w !! this) → (∀ s, s ∈ ss → s ∈ senders w o) → op_ok w (copy_senders o this ss w).
Proof.
  intros Hw Hne. revert w Hw. induction ss as [|s ss IH]; intros w Hw [S Ht] Ha; [by exists w|]. cbn [copy_senders].
  assert (s ∈ senders w o) as Hso by (apply Ha; by left).
  destruct (do_slot_duplicate_spec s o this w) as (w1 & ds & -> & Hc & Hd & Hds & Es & Ec & Ef & En & Hal & Hok); [done|done|by eapply sender_alive|].
  cbn [mbind_res]. unfold do_signal_connect. rewrite Es, Ht. cbn [of_mem mbind_res].
  eapply (op_ok_trans _ (set_senders this ({[s]} ∪ S) w1)); [done|done|].
  assert (∀ x, senders (set_senders this ({[s]} ∪ S) w1) x = if decide (x = this) then {[s]} ∪ senders w this else senders w x) as Hse.
  { intros x. rewrite senders_set. unfold senders. rewrite Es, Ht. done. }
  apply IH.
  - apply (wf_intro w); simpl; try done.
    + intros s' _. by rewrite Hal.
    + intros s' o'. change (conns _ s') with (conns w1 s'). rewrite Hc, Hse. pose proof (wf_links _ Hw s' o') as HL.
      apply (wf_links _ Hw), Hds in Hso. destruct ds as [|d ds]; [done|].
      assert (∀ x, x ∈ pdest <$> d :: ds ↔ x = this) as Hx.
      { intros x. rewrite dest_in. split; [intros (c & Hcc & <-); by eapply Forall_forall in Hd|].
        intros ->. exists d. split; [by left|by inversion Hd]. }
      repeat case_decide; subst; rewrite ?fmap_app, ?elem_of_app, ?Hx, ?HL; set_solver.
  - simpl. by rewrite lookup_insert_eq.
  - intros s' Hs'. rewrite Hse, decide_False by done. apply Ha. by right.
Qed.

Lemma has_slots_copy_ok o this w :
  wf w → is_Some (slots w !! o) → slots w !! this = None → op_ok w (has_slots_copy o this w).
Proof.
  intros Hw [S Ho] Ht. assert (this ≠ o) as Hne by congruence. unfold has_slots_copy. rewrite Ho. cbn [of_mem mbind_res].
  destruct (has_slots_new_ok this w Hw Ht) as (w1 & E & Hw1 & Ef & Ec). rewrite E. cbn [mbind_res].
  eapply op_ok_trans; [done|done|]. unfold has_slots_new in E. rewrite bool_decide_true in E by done. simplify_eq/=.
  apply copy_senders_ok; [done|done|simpl; by rewrite lookup_insert_eq|].
  intros s Hs%elem_of_set_elements. rewrite senders_set, decide_False by done. by rewrite (senders_Some _ _ _ Ho).
Qed.

(** Every operation a program may ask for has a result and keeps the links. *)
Lemma exec_op_ok c w : wf w → allowed w c → op_ok w (exec_op c w).
Proof.
  intros Hw Ha. destruct c; simpl in *; destruct_and?; eauto using connect_ok, disconnect_ok, disconnect_all_ok, signal_new_ok,
    signal_copy_ok, signal_delete_ok, has_slots_new_ok, has_slots_copy_ok, slots_disconnect_all_ok, has_slots_delete_ok.
  by exists w.
Qed.
