(* ===== verification/SigslotEmit.v ===== *)
(** * Firing signals (rtc_base/third_party/sigslot/sigslot.h)

    What [emit] does while its slots connect, disconnect, delete and fire:
    nothing that was deleted is touched, and a firing that is not fired again
    from its own slots calls what it was connected to, in order and once. *)

From S2P Require Import Prelude Sigslot.

Section Safe.
Context (beh : Z → Z → list Z → nat → world → option cmd).
Hypothesis beh_ok : ∀ o m args i w c, wf w → beh o m args i w = Some c → allowed w c.

(** Not undefined, and the links hold. *)
Definition safe (w : world) (r : option (res world)) : Prop :=
  match r with
  | None => True
  | Some (Val w') => wf w' ∧ firing w' = firing w
  | Some _ => False
  end.

Lemma safe_bind w r k :
  safe w r → (∀ w', wf w' → firing w' = firing w → safe w (k w')) → safe w (bind_run r k).
Proof. destruct r as [[w'| | |]|]; simpl; naive_solver. Qed.

Lemma safe_from w w' r : firing w' = firing w → safe w' r → safe w r.
Proof. intros E. destruct r as [[]|]; simpl; try done. by rewrite E. Qed.

Lemma iterator_moves n sb it c :
  sig_ok n sb → m_current_iterator sb = Some it → deref it (m_connected_slots sb) = Some c →
  ∃ P R, m_connected_slots sb = P ++ c :: R ∧ node c = it ∧ next_of it (m_connected_slots sb) = node <$> list.head R.
Proof.
  intros Hok Hit. unfold deref. destruct (list_find _ _) as [[i d]|] eqn:E; intros [= <-].
  apply list_find_Some in E as (Hl & <- & _). apply list_elem_of_lookup_2, list_elem_of_split in Hl as (P & R & E).
  exists P, R. split_and!; [done|done|]. rewrite E. apply next_of_app. pose proof (so_nodup _ _ Hok) as Hn.
  rewrite E, fmap_app, fmap_cons in Hn. apply NoDup_app in Hn as (_ & Hn & _). intros H%Hn. apply H. by left.
Qed.

Lemma deref_iterator n sb it :
  sig_ok n sb → m_current_iterator sb = Some it → ∃ c, deref it (m_connected_slots sb) = Some c.
Proof.
  intros [_ _ Hi] (c & -> & Hc)%Hi%list_elem_of_fmap. unfold deref.
  destruct (list_find _ _) as [[i d]|] eqn:E; [by eexists|].
  apply list_find_None in E. eapply Forall_forall in E; [|done]. done.
Qed.

(** Moving the iterator of a signal, and no more. *)
Lemma wf_set_iterator s sb it w :
  wf w → signals w !! s = Some sb → (∀ i, it = Some i → i ∈ node <$> m_connected_slots sb) →
  wf (set_sig s (Sig (m_connected_slots sb) it) w).
Proof.
  intros Hw Hs Hit. apply (wf_intro w); simpl; [done|done|lia| | |].
  - intros s' _ H. apply lookup_insert_is_Some'. by right.
  - intros s' sb' [[<- <-]|[_ H]]%lookup_insert_Some; [right|by left].
    destruct (wf_sig _ Hw _ _ Hs). by split.
  - intros s' o'. change (senders _ o') with (senders w o'). rewrite conns_set_sig, <- (wf_links _ Hw).
    case_decide; [|done]. subst. by rewrite (conns_Some _ _ _ Hs).
Qed.

Lemma wf_history w cs f : wf w → (∀ s, s ∈ f → is_Some (signals w !! s)) →
  wf (World (signals w) (slots w) (next_node w) cs f).
Proof. intros [H1 H2 H3] Hf. by split. Qed.

Lemma head_node (l : list connection) i : node <$> list.head l = Some i → i ∈ node <$> l.
Proof. destruct l; intros; simplify_eq/=. by left. Qed.

Lemma start_emit_ok s w :
  wf w → is_Some (signals w !! s) →
  ∃ w', start_emit s w = Val w' ∧ wf w' ∧ firing w' = s :: firing w ∧ called w' = called w ∧
    ∃ sb, signals w' !! s = Some sb ∧ at_split sb [] (conns w s).
Proof.
  intros Hw [sb Hs]. unfold start_emit. rewrite Hs. cbn [of_mem mbind_res]. eexists. split; [done|].
  assert (wf (set_sig s (Sig (m_connected_slots sb) (node <$> list.head (m_connected_slots sb))) w)) as Hw1.
  { apply wf_set_iterator; [done|done|]. apply head_node. }
  split_and!; [|done|done|].
  - apply wf_history; [done|]. intros s' [->|Hs']%elem_of_cons; [simpl; by rewrite lookup_insert_eq|]. by apply Hw1.
  - eexists. simpl. rewrite lookup_insert_eq, (conns_Some _ _ _ Hs). by repeat split.
Qed.

Lemma end_emit_ok s f w : wf w → firing w = s :: f → wf (end_emit w) ∧ firing (end_emit w) = f.
Proof.
  intros Hw E. unfold end_emit. rewrite E. split; [|done]. apply wf_history; [done|].
  intros s' Hs'. apply Hw. rewrite E. by right.
Qed.

Lemma emit_safe fuel :
  (∀ s args w, wf w → s ∈ firing w → safe w (emit_loop beh fuel s args w)) ∧
  (∀ o m args i w, wf w → safe w (slot_body beh fuel o m args i w)).
Proof.
  induction fuel as [|fuel [IHe IHb]]; [done|]. split.
  - intros s args w Hw Hf. cbn [emit_loop]. destruct (wf_firing _ Hw _ Hf) as [sb Hs]. rewrite Hs.
    pose proof (wf_sig _ Hw _ _ Hs) as Hok. destruct (m_current_iterator sb) as [it|] eqn:Hit; [|done].
    destruct (deref_iterator _ _ _ Hok Hit) as [c Hc]. rewrite Hc.
    destruct (iterator_moves _ _ _ _ Hok Hit Hc) as (P & R & E & <- & En). rewrite En. simpl.
    destruct (dest_alive w s c) as [S Ho]; [done|rewrite (conns_Some _ _ _ Hs), E; set_solver|]. rewrite Ho.
    assert (wf (set_sig s (Sig (m_connected_slots sb) (node <$> list.head R)) w)) as Hw1.
    { apply wf_set_iterator; [done|done|]. intros i Hi%head_node. rewrite E, fmap_app, fmap_cons. set_solver. }
    apply safe_bind; [apply (safe_from _ (record_call c args (set_sig s (Sig (m_connected_slots sb) (node <$> list.head R)) w))); [done|];
                      apply IHb, wf_history; [done|apply Hw1]|].
    intros w' Hw' Ef. eapply safe_from; [done|]. apply IHe; [done|]. by rewrite Ef.
  - intros o m args i w Hw. cbn [slot_body]. destruct (beh o m args i w) as [c|] eqn:Eb; [|done].
    pose proof (beh_ok _ _ _ _ _ _ Hw Eb) as Ha. destruct c as [| | | | | | | | | |s args'].
    11: { destruct (start_emit_ok s w Hw Ha) as (w1 & -> & Hw1 & Ef & _). cbn [bind_run].
      assert (safe w1 (emit_loop beh fuel s args' w1)) as H by (apply IHe; [done|rewrite Ef; by left]).
      destruct (emit_loop _ _ _ _ _) as [[w2| | |]|]; simpl in *; try done. destruct H as [Hw2 Ef2].
      destruct (end_emit_ok s (firing w) w2 Hw2) as [Hw3 Ef3]; [congruence|]. eapply safe_from; [done|]. by apply IHb. }
    all: destruct (exec_op_ok _ w Hw Ha) as (w' & E & Hw' & Ef & _); cbn [exec_op bind_run] in *; rewrite E;
      eapply safe_from; [done|]; by apply IHb.
Qed.
End Safe.

(** ** A signal whose slots do not fire it again *)

(** What a slot may do to the signal [s] that calls it: everything but adding
    connections to [s] and firing. *)
Definition quiet (s : Z) (c : cmd) : Prop :=
  match c with
  | Connect s' _ _ => s' ≠ s
  | CopySlots _ _ | Emit _ _ => False
  | _ => True
  end.

#[global] Instance quiet_dec s c : Decision (quiet s c).
Proof. destruct c; simpl; apply _. Defined.

(** The signal is alive before and after and has only lost connections. *)
Definition sig_shrunk (s : Z) (w w' : world) : Prop :=
  ∃ sb sb' ids, signals w !! s = Some sb ∧ signals w' !! s = Some sb' ∧ shrunk ids sb sb'.

Lemma sig_shrunk_same s w w' : is_Some (signals w !! s) → signals w' !! s = signals w !! s → sig_shrunk s w w'.
Proof. intros [sb Hs] E. exists sb, sb, []. rewrite E. split_and!; [done|done|apply shrunk_refl]. Qed.

Lemma sig_shrunk_trans s w1 w2 w3 : sig_shrunk s w1 w2 → sig_shrunk s w2 w3 → sig_shrunk s w1 w3.
Proof.
  intros (sb1 & sb2 & ids & E1 & E2 & H) (sb2' & sb3 & ids' & E2' & E3 & H'). simplify_eq.
  exists sb1, sb3, (ids ++ ids'). split_and!; [done|done|by eapply shrunk_trans].
Qed.

Lemma sig_shrunk_of_all s w w' : signals_shrunk w w' → is_Some (signals w !! s) → sig_shrunk s w w'.
Proof.
  intros H [sb Hs]. specialize (H s). rewrite Hs in H. destruct (signals w' !! s) as [sb'|] eqn:E; [|by inversion H]. inversion H as [? ? [ids Hi]|]; subst. by exists sb, sb', ids.
Qed.

Lemma shrunk_empty sb : shrunk (node <$> m_connected_slots sb) sb (Sig [] None).
Proof.
  assert (∀ l l', l ⊆ l' → without (node <$> l') l = []) as H.
  { intros l l' Hl. destruct (without (node <$> l') l) as [|c r] eqn:E; [done|]. exfalso.
    assert (c ∈ without (node <$> l') l) as [Hn Hc]%list_elem_of_filter by (rewrite E; by left).
    apply Hn, list_elem_of_fmap_2. by apply Hl. }
  split; [simpl; by rewrite H|]. intros P R [E _]. rewrite E. unfold at_split. by rewrite !H by set_solver.
Qed.

Lemma copy_connections_other s s' cs w w' :
  copy_connections s cs w = Val w' → s' ≠ s → signals w' !! s' = signals w !! s'.
Proof.
  intros H Hne. revert w H. induction cs as [|c cs IH]; intros w H; [by simplify_eq/=|]. cbn [copy_connections] in H.
  inv_bind H. inv_bind H. unfold do_signal_connect in Ha. inv_bind Ha. simplify_eq. apply IH in H. rewrite H. simpl.
  by rewrite lookup_insert_ne.
Qed.

Lemma exec_quiet s c w w' :
  wf w → allowed w c → quiet s c → s ∈ firing w → exec_op c w = Val w' → sig_shrunk s w w'.
Proof.
  intros Hw Ha Hq Hf E. pose proof (wf_firing _ Hw _ Hf) as Hs. destruct c as [s' o m|s' o|s'|s'|s' new|s'|o|o new|o|o|s' a]; simpl in *.
  - unfold connect, do_signal_connect in E. inv_bind E. inv_bind E. simplify_eq. apply sig_shrunk_same; [done|]. simpl.
    by rewrite lookup_insert_ne.
  - unfold disconnect in E. inv_bind E. destruct (list_find _ _) as [[i c]|]; [|simplify_eq; by apply sig_shrunk_same].
    unfold do_signal_disconnect in E. inv_bind E. simplify_eq/=. destruct (decide (s = s')) as [->|Hne].
    + destruct Hs as [sb Hs]. rewrite Hs in Ha0. simplify_eq/=. exists a, (erase_connection c a), [node c]. simpl.
      rewrite lookup_insert_eq. split_and!; [done|done|]. apply erase_shrunk. by destruct (wf_sig _ Hw _ _ Hs).
    + apply sig_shrunk_same; [done|]. simpl. by rewrite lookup_insert_ne.
  - destruct (disconnect_all_spec s' w Hw Ha) as (w2 & E2 & Es & _). rewrite E2 in E. simplify_eq.
    destruct (decide (s = s')) as [->|Hne].
    + destruct Hs as [sb Hs]. exists sb, (Sig [] None), (node <$> m_connected_slots sb). rewrite Es, lookup_insert_eq.
      split_and!; [done|done|apply shrunk_empty].
    + apply sig_shrunk_same; [done|]. by rewrite Es, lookup_insert_ne.
  - unfold signal_new in E. inv_bind E. simplify_eq. apply sig_shrunk_same; [done|]. simpl.
    rewrite lookup_insert_ne; [done|]. intros ->. rewrite Ha in Hs. by destruct Hs.
  - destruct Ha as [Ha Hn]. assert (s ≠ new) as Hne by (intros ->; rewrite Hn in Hs; by destruct Hs).
    unfold signal_copy, signal_new in E. inv_bind E. inv_bind E. inv_bind Ha1. simplify_eq.
    apply sig_shrunk_same; [done|]. erewrite copy_connections_other by done. simpl. by rewrite lookup_insert_ne.
  - destruct Ha as [Ha Hn]. unfold signal_delete in E.
    destruct (disconnect_all_spec s' w Hw Ha) as (w2 & E2 & Es & _). rewrite E2 in E. simplify_eq/=.
    assert (s ≠ s') by (intros E0; subst s; done). apply sig_shrunk_same; [done|]. simpl. by rewrite Es, delete_insert_eq, lookup_delete_ne.
  - unfold has_slots_new in E. inv_bind E. simplify_eq. by apply sig_shrunk_same.
  - done.
  - destruct (slots_disconnect_all_spec o w Hw Ha) as (w2 & E2 & _ & _ & _ & _ & Hsh & _). rewrite E2 in E. simplify_eq.
    by apply sig_shrunk_of_all.
  - unfold has_slots_delete in E. destruct (slots_disconnect_all_spec o w Hw Ha) as (w2 & E2 & _ & _ & _ & _ & Hsh & _).
    rewrite E2 in E. simplify_eq/=. apply sig_shrunk_of_all; [|done]. done.
  - done.
Qed.

Section Quiet.
Context (beh : Z → Z → list Z → nat → world → option cmd) (s : Z) (bound : nat).
Hypothesis beh_ok : ∀ o m args i w c, wf w → beh o m args i w = Some c → allowed w c.
Hypothesis beh_quiet : ∀ o m args i w c, beh o m args i w = Some c → quiet s c.
(** A slot returns after at most [bound] operations. *)
Hypothesis beh_returns : ∀ o m args i w, (bound ≤ i)%nat → beh o m args i w = None.

Lemma body_returns fuel o m args i w :
  wf w → s ∈ firing w → (bound - i < fuel)%nat →
  ∃ w', slot_body beh fuel o m args i w = Some (Val w') ∧ wf w' ∧ firing w' = firing w ∧ called w' = called w ∧
    sig_shrunk s w w'.
Proof.
  revert i w. induction fuel as [|fuel IH]; intros i w Hw Hf Hfuel; [lia|]. cbn [slot_body].
  destruct (beh o m args i w) as [c|] eqn:Eb.
  2: { exists w. split_and!; try done. apply sig_shrunk_same; [by apply Hw|done]. }
  assert (i < bound)%nat as Hi. { destruct (decide (bound ≤ i)%nat); [|lia]. rewrite beh_returns in Eb by done. done. }
  pose proof (beh_ok _ _ _ _ _ _ Hw Eb) as Ha. pose proof (beh_quiet _ _ _ _ _ _ Eb) as Hq.
  destruct (exec_op_ok c w Hw Ha) as (w1 & E & Hw1 & Ef & Ec).
  pose proof (exec_quiet s c w w1 Hw Ha Hq Hf E) as Hsh.
  destruct (IH (S i) w1) as (w2 & E2 & Hw2 & Ef2 & Ec2 & Hsh2); [done|by rewrite Ef|lia|].
  exists w2. split_and!; [|done|congruence|congruence|by eapply sig_shrunk_trans].
  destruct c; try done; cbn [bind_run]; by rewrite E.
Qed.

Lemma emit_loop_exact fuel args w sb P R :
  wf w → s ∈ firing w → signals w !! s = Some sb → at_split sb P R → (length R + bound + 1 < fuel)%nat →
  ∃ w' K P' R', emit_loop beh fuel s args w = Some (Val w') ∧ wf w' ∧ firing w' = firing w ∧
    called w' = called w ++ ((λ c, (c, args)) <$> K) ∧
    K `sublist_of` R ∧ conns w' s = P' ++ R' ∧ P' `sublist_of` P ∧ R' `sublist_of` K.
Proof.
  revert w sb P R. induction fuel as [|fuel IH]; intros w sb P R Hw Hf Hs [El Ei] Hfuel; [lia|].
  cbn [emit_loop]. rewrite Hs, Ei. destruct R as [|c R]; cbn [list.head fmap option_fmap option_map].
  { exists w, [], P, []. rewrite (conns_Some _ _ _ Hs), El. split_and!; try done. by rewrite app_nil_r. }
  pose proof (wf_sig _ Hw _ _ Hs) as Hok.
  destruct (deref_iterator _ _ _ Hok Ei) as [d Hd]. rewrite Hd.
  destruct (iterator_moves _ _ _ _ Hok Ei Hd) as (P1 & R1 & E1 & En & Enext).
  assert (d = c) as ->.
  { apply (NoDup_fmap_inj node (m_connected_slots sb)); [apply Hok|rewrite E1; set_solver|rewrite El; set_solver|done]. }
  assert (next_of (node c) (m_connected_slots sb) = node <$> list.head R) as ->.
  { rewrite El. apply next_of_app. pose proof (so_nodup _ _ Hok) as Hn.
    rewrite El, fmap_app, fmap_cons in Hn. apply NoDup_app in Hn as (_ & Hn & _). intros H%Hn. apply H. by left. }
  simpl. destruct (dest_alive w s c) as [S Ho]; [done|rewrite (conns_Some _ _ _ Hs), El; set_solver|]. rewrite Ho.
  set (w1 := set_sig s (Sig (m_connected_slots sb) (node <$> list.head R)) w).
  assert (wf w1) as Hw1.
  { apply wf_set_iterator; [done|done|]. intros i Hi%head_node. rewrite El, fmap_app, fmap_cons. set_solver. }
  destruct (body_returns fuel (pdest c) (pmethod c) args 0 (record_call c args w1)) as (w2 & -> & Hw2 & Ef2 & Ec2 & Hsh);
    [apply wf_history; [done|apply Hw1]|done|simpl in Hfuel; lia|].
  cbn in Ef2, Ec2. destruct Hsh as (sb1 & sb2 & ids & Hs1 & Hs2 & [_ Hspl]). simpl in Hs1. rewrite lookup_insert_eq in Hs1. simplify_eq.
  assert (at_split sb2 (without ids (P ++ [c])) (without ids R)) as Hat.
  { apply Hspl. split; simpl; [|done]. by rewrite El, <- app_assoc. }
  cbn [bind_run]. pose proof (sublist_length _ _ (without_sublist ids R)) as Hlen.
  destruct (IH w2 sb2 (without ids (P ++ [c])) (without ids R) Hw2) as (w3 & K & P' & R' & -> & Hw3 & Ef3 & Ec3 & HK & Ec & HP & HR);
    [by rewrite Ef2|done|done|simpl in Hfuel; lia|].
  assert (P' `sublist_of` P ++ [c]) as (Pa & Pb & -> & HPa & HPb)%sublist_app_r by (etrans; [done|apply without_sublist]).
  exists w3, (c :: K), Pa, (Pb ++ R'). split_and!; [done|done|congruence| | | |done|].
  - rewrite Ec3, Ec2. simpl. by rewrite <- app_assoc.
  - constructor. etrans; [done|apply without_sublist].
  - by rewrite Ec, <- app_assoc.
  - by apply (sublist_app Pb [c]).
Qed.

Lemma emit_exact_lemma fuel args w :
  wf w → is_Some (signals w !! s) → (length (conns w s) + bound + 1 < fuel)%nat →
  ∃ w' K, emit beh fuel s args w = Some (Val w') ∧ wf w' ∧ firing w' = firing w ∧
    called w' = called w ++ ((λ c, (c, args)) <$> K) ∧ K `sublist_of` conns w s ∧ conns w' s `sublist_of` K.
Proof.
  intros Hw Hs Hfuel. unfold emit.
  destruct (start_emit_ok s w Hw Hs) as (w1 & -> & Hw1 & Ef1 & Ec1 & sb & Hs1 & Hat). cbn [bind_run].
  destruct (emit_loop_exact fuel args w1 sb [] (conns w s)) as (w2 & K & P' & R' & -> & Hw2 & Ef2 & Ec2 & HK & Ec & HP & HR);
    [done|rewrite Ef1; by left|done|done|done|]. cbn [bind_run].
  destruct (end_emit_ok s (firing w) w2 Hw2) as [Hw3 Ef3]; [congruence|].
  exists (end_emit w2), K. split_and!; try done; [simpl; congruence|].
  change (conns (end_emit w2) s) with (conns w2 s). rewrite Ec. apply sublist_nil_r in HP as ->. done.
Qed.
End Quiet.

(** ** Results *)

(** C21: programs that use signals within the contract of [allowed] are safe.
    Take any program whose slots connect, disconnect, copy, delete and fire
    signals and objects, also while signals fire, under these conditions: it
    uses only signals and objects that exist, creates them under new addresses,
    does not delete a signal while it fires, and disconnects an object from a
    signal only when it is connected to it at most once ([disconnect] removes
    one connection but the sender altogether, see
    [disconnect_twice_connected]). However long it runs, no deleted signal or
    object is touched, no slot of a deleted object is called and no erased list
    node is visited; in the end a signal is connected to an object exactly when
    the object knows it as a sender. *)
Theorem signals_safe (beh : Z → Z → list Z → nat → world → option cmd) (fuel : nat) (o m : Z) (args : list Z) :
  (∀ o m args i w c, wf w → beh o m args i w = Some c → allowed w c) →
  match slot_body beh fuel o m args 0 world_new with
  | None => True
  | Some r => ∃ w, r = Val w ∧ wf w ∧ firing w = []
  end.
Proof.
  intros Hb. assert (wf world_new) as Hw.
  { split; simpl; [by intros s sb; rewrite lookup_empty| |set_solver]. intros s o'. unfold conns, senders. simpl.
    rewrite !lookup_empty. simpl. set_solver. }
  pose proof (proj2 (emit_safe beh Hb fuel) o m args 0%nat world_new Hw) as H.
  destruct (slot_body _ _ _ _ _ _ _) as [[w| | |]|]; simpl in H; try done. exists w. naive_solver.
Qed.

(** Object 10 has slots 1 and 2, object 11 slot 3. Slot 1 deletes object 11,
    which is to be called next, and slot 2 deletes its own object. *)
Definition deleting_program (o m : Z) (_ : list Z) (i : nat) (w : world) : option cmd :=
  let c :=
    match m, i with
    | 0, 0%nat => Some (NewSignal 5)
    | 0, 1%nat => Some (NewSlots 10)
    | 0, 2%nat => Some (NewSlots 11)
    | 0, 3%nat => Some (Connect 5 10 1)
    | 0, 4%nat => Some (Connect 5 11 3)
    | 0, 5%nat => Some (Connect 5 10 2)
    | 0, 6%nat => Some (Emit 5 [7])
    | 1, 0%nat => Some (DeleteSlots 11)
    | 2, 0%nat => Some (DeleteSlots 10)
    | _, _ => None
    end in
  match c with
  | Some c => if decide (allowed w c) then Some c else None
  | None => None
  end.

Lemma deleting_program_ok o m args i w c : deleting_program o m args i w = Some c → allowed w c.
Proof.
  unfold deleting_program. set (x := match m with 0 => _ | _ => _ end). clearbody x.
  destruct x; [|done]. case_decide; naive_solver.
Qed.

Lemma signals_safe_witness :
  ∃ w, slot_body deleting_program 20 0 0 [] 0 world_new = Some (Val w) ∧ wf w ∧
    called w = [(Conn 0 10 1, [7]); (Conn 2 10 2, [7])].
Proof.
  pose proof (signals_safe deleting_program 20 0 0 [] (λ o m a i w c _, deleting_program_ok o m a i w c)) as H.
  destruct (slot_body deleting_program 20 0 0 [] 0 world_new) as [[w| | |]|] eqn:E.
  - exists w. destruct H as (w' & [= <-] & Hw & _). split; [done|]. split; [done|].
    vm_compute in E. injection E as <-. reflexivity.
  - exfalso. destruct H as (w' & H & _). discriminate H.
  - exfalso. destruct H as (w' & H & _). discriminate H.
  - exfalso. destruct H as (w' & H & _). discriminate H.
  - exfalso. vm_compute in E. discriminate E.
Defined.

(** C22: firing calls what is connected. When the slots, within the contract of
    [allowed], fire no signal at all, copy no object's connections, connect
    nothing to this signal and do at most [bound] operations each, but otherwise
    do as they like, [emit] returns after a bounded number of steps; the slots
    it called are, in order and each at most once, slots that were connected
    when it started, and every slot that is still connected at the end was
    called. A slot that fires the signal again can leave a connected slot
    uncalled, see [nested_firing_skips]. *)
Theorem emit_exact (beh : Z → Z → list Z → nat → world → option cmd) (s : Z) (bound fuel : nat) (args : list Z) (w : world) :
  (∀ o m args i w c, wf w → beh o m args i w = Some c → allowed w c) →
  (∀ o m args i w c, beh o m args i w = Some c → quiet s c) →
  (∀ o m args i w, (bound ≤ i)%nat → beh o m args i w = None) →
  wf w → is_Some (signals w !! s) → (length (conns w s) + bound + 1 < fuel)%nat →
  ∃ w' K, emit beh fuel s args w = Some (Val w') ∧ wf w' ∧
    called w' = called w ++ ((λ c, (c, args)) <$> K) ∧ K `sublist_of` conns w s ∧ conns w' s `sublist_of` K.
Proof.
  intros Hb Hq Hr Hw Hs Hf. destruct (emit_exact_lemma beh s bound Hb Hq Hr fuel args w Hw Hs Hf) as (w' & K & ? & ? & ? & ? & ? & ?).
  by exists w', K.
Qed.

(** Slot 1 disconnects object 11; slot 4 does nothing. *)
Definition disconnecting_slots (o m : Z) (_ : list Z) (i : nat) (w : world) : option cmd :=
  match i with
  | 0%nat => if (m =? 1) && bool_decide (allowed w (SlotsDisconnectAll 11)) then Some (SlotsDisconnectAll 11) else None
  | _ => None
  end.

Definition three_slots : world :=
  World {[5 := Sig [Conn 0 10 1; Conn 1 11 3; Conn 2 12 4] None]} {[10 := {[5]}; 11 := {[5]}; 12 := {[5]}]} 3 [] [].

Lemma three_slots_wf : wf three_slots.
Proof.
  split.
  - intros s sb H. unfold three_slots in H. simpl in H. apply lookup_singleton_Some in H as [<- <-].
    split; simpl; [|repeat constructor; simpl; lia|done]. repeat (constructor; [set_solver|]). constructor.
  - intros s o. unfold conns, senders, three_slots. simpl. destruct (decide (s = 5)) as [->|Hs].
    + rewrite lookup_singleton_eq. simpl. destruct (decide (o = 10)) as [->|]; [by rewrite lookup_insert_eq; set_solver|].
      rewrite lookup_insert_ne by done. destruct (decide (o = 11)) as [->|]; [by rewrite lookup_insert_eq; set_solver|].
      rewrite lookup_insert_ne by done. destruct (decide (o = 12)) as [->|]; [by rewrite lookup_singleton_eq; set_solver|].
      rewrite lookup_singleton_ne by done. simpl. set_solver.
    + rewrite lookup_singleton_ne by done. simpl. split; [set_solver|].
      destruct (_ !! o) as [S|] eqn:E; simpl; [|set_solver]. repeat (apply lookup_insert_Some in E as [[<- <-]|[_ E]]; [set_solver|]).
      apply lookup_singleton_Some in E as [_ <-]. set_solver.
  - simpl. set_solver.
Qed.

Lemma emit_exact_witness :
  ∃ w' K, emit disconnecting_slots 10 5 [7] three_slots = Some (Val w') ∧ wf w' ∧
    called w' = called three_slots ++ ((λ c, (c, [7])) <$> K) ∧ K `sublist_of` conns three_slots 5 ∧ conns w' 5 `sublist_of` K.
Proof.
  apply (emit_exact disconnecting_slots 5 1 10 [7] three_slots).
  - intros o m args [|i] w c _ H; [|discriminate H]. unfold disconnecting_slots in H.
    destruct (m =? 1); [|discriminate H]. cbn [andb] in H. case_bool_decide as Ha; [|discriminate H].
    injection H as <-. exact Ha.
  - intros o m args [|i] w c H; [|discriminate H]. unfold disconnecting_slots in H.
    destruct (_ && _); [|discriminate H]. injection H as <-. exact I.
  - intros o m args [|i] w H; [lia|reflexivity].
  - exact three_slots_wf.
  - vm_compute. eexists. reflexivity.
  - vm_compute. lia.
Defined.

(** Object 10 is connected twice. [disconnect] removes one connection but takes
    the signal out of the senders of the object, so that deleting the object
    leaves the other connection, and firing calls a deleted object. *)
Definition twice_connected (o m : Z) (_ : list Z) (i : nat) (w : world) : option cmd :=
  match m, i with
  | 0, 0%nat => Some (NewSignal 5)
  | 0, 1%nat => Some (NewSlots 10)
  | 0, 2%nat => Some (Connect 5 10 1)
  | 0, 3%nat => Some (Connect 5 10 2)
  | 0, 4%nat => Some (Disconnect 5 10)
  | 0, 5%nat => Some (DeleteSlots 10)
  | 0, 6%nat => Some (Emit 5 [])
  | _, _ => None
  end.

Example disconnect_twice_connected : slot_body twice_connected 20 0 0 [] 0 world_new = Some Undef.
Proof. vm_compute. reflexivity. Qed.

(** The slot of object 10 fires its signal again, once. The inner firing leaves
    the shared iterator at the end, and the outer one calls no further slot:
    object 11 is called once for two firings. *)
Definition firing_again (o m : Z) (args : list Z) (i : nat) (w : world) : option cmd :=
  match m, args, i with
  | 0, _, 0%nat => Some (NewSignal 5)
  | 0, _, 1%nat => Some (NewSlots 10)
  | 0, _, 2%nat => Some (NewSlots 11)
  | 0, _, 3%nat => Some (Connect 5 10 1)
  | 0, _, 4%nat => Some (Connect 5 11 2)
  | 0, _, 5%nat => Some (Emit 5 [1])
  | 1, [1], 0%nat => Some (Emit 5 [2])
  | _, _, _ => None
  end.

Example nested_firing_skips :
  match slot_body firing_again 20 0 0 [] 0 world_new with
  | Some (Val w) => called w = [(Conn 0 10 1, [1]); (Conn 0 10 1, [2]); (Conn 1 11 2, [2])]
  | _ => False
  end.
Proof. vm_compute. reflexivity. Qed.
