(* ===== verification/MessageDigest.v ===== *)
(** * Digests, HMACs and certificate fingerprints
      (rtc_base/openssl_digest.cc, message_digest.h, message_digest.cc,
       ssl_fingerprint.cc)

    The hash functions are those of OpenSSL, the class [EVP]. A digest object
    collects what it is given until it is finished. The theorems are that
    [ComputeHmac] is the HMAC of RFC 2104 for every key, and that a fingerprint
    reads back from its text. Memory of [new char[n]] has no values until it is
    written. *)

From S2P Require Import Prelude StringEncode.

Inductive EVP_MD := EVP_md5 | EVP_sha1 | EVP_sha224 | EVP_sha256 | EVP_sha384 | EVP_sha512.

#[global] Instance EVP_MD_eq_dec : EqDecision EVP_MD.
Proof. solve_decision. Defined.

(** The hash functions of OpenSSL: the digest of a message has [EVP_MD_size]
    bytes, at most [EVP_MAX_MD_SIZE]. *)
Class EVP := {
  EVP_MD_size : EVP_MD → Z;
  evp_hash : EVP_MD → list Z → list Z;
  evp_size : ∀ md, 16 ≤ EVP_MD_size md ≤ 64;
  evp_length : ∀ md x, Z.of_nat (length (evp_hash md x)) = EVP_MD_size md;
  evp_bytes : ∀ md x, bytes_ok (evp_hash md x)
}.

Definition DIGEST_MD5 : list Z := b#"md5".
Definition DIGEST_SHA_1 : list Z := b#"sha-1".
Definition DIGEST_SHA_224 : list Z := b#"sha-224".
Definition DIGEST_SHA_256 : list Z := b#"sha-256".
Definition DIGEST_SHA_384 : list Z := b#"sha-384".
Definition DIGEST_SHA_512 : list Z := b#"sha-512".

Definition kMaxSize : Z := 64.
Definition kBlockSize : Z := 64.

(** Memory: a byte without a value was not written. *)
Notation cell := (option Z).
Definition new_chars (n : Z) : list cell := replicate (Z.to_nat n) None.
Definition values (m : list cell) : res (list Z) := of_mem (mapM id m).

Section Digest.
Context {E : EVP} (RTC_DCHECK_IS_ON : bool).

Definition dcheck (c : bool) : res unit := if RTC_DCHECK_IS_ON then c_assert c else Val ().

(** ** OpenSSLDigest *)

(** [ctx_] is what was given since [EVP_DigestInit_ex]. *)
Record OpenSSLDigest := Digest { md_ : option EVP_MD; ctx_ : list Z }.

Definition digest_evp (algorithm : list Z) : option EVP_MD :=
  if bool_decide (algorithm = DIGEST_MD5) then Some EVP_md5
  else if bool_decide (algorithm = DIGEST_SHA_1) then Some EVP_sha1
  else if bool_decide (algorithm = DIGEST_SHA_224) then Some EVP_sha224
  else if bool_decide (algorithm = DIGEST_SHA_256) then Some EVP_sha256
  else if bool_decide (algorithm = DIGEST_SHA_384) then Some EVP_sha384
  else if bool_decide (algorithm = DIGEST_SHA_512) then Some EVP_sha512
  else None.

Definition GetDigestEVP (algorithm : list Z) : res (option EVP_MD) :=
  match digest_evp algorithm with
  | None => Val None
  | Some md => let* _ := dcheck (16 <=? EVP_MD_size md) in Val (Some md)
  end.

(** [EVP_MD_type] of the hash functions above, and of none. *)
Definition GetDigestName (md : option EVP_MD) : option (list Z) :=
  match md with
  | Some EVP_md5 => Some DIGEST_MD5
  | Some EVP_sha1 => Some DIGEST_SHA_1
  | Some EVP_sha224 => Some DIGEST_SHA_224
  | Some EVP_sha256 => Some DIGEST_SHA_256
  | Some EVP_sha384 => Some DIGEST_SHA_384
  | Some EVP_sha512 => Some DIGEST_SHA_512
  | None => None
  end.

Definition GetDigestSize (algorithm : list Z) : res (option Z) :=
  let* md := GetDigestEVP algorithm in Val (EVP_MD_size <$> md).

Definition OpenSSLDigest_new (algorithm : list Z) : res OpenSSLDigest :=
  let* md := GetDigestEVP algorithm in Val (Digest md []).

Definition Size (d : OpenSSLDigest) : Z := match md_ d with None => 0 | Some md => EVP_MD_size md end.

Definition Update (buf : list Z) (d : OpenSSLDigest) : OpenSSLDigest :=
  match md_ d with None => d | Some _ => Digest (md_ d) (ctx_ d ++ buf) end.

(** [buf] is the memory of the caller from the pointer on, [len] what the
    caller says of it. *)
Definition Finish (buf : list cell) (len : Z) (d : OpenSSLDigest) : res (Z * list cell * OpenSSLDigest) :=
  match md_ d with
  | None => Val (0, buf, d)
  | Some md =>
      if len <? Size d then Val (0, buf, d)
      else
        let h := evp_hash md (ctx_ d) in
        let* buf := of_mem (mwrite buf 0 (Some <$> h)) in
        let* _ := dcheck (Z.of_nat (length h) =? Size d) in
        Val (Z.of_nat (length h), buf, Digest (md_ d) [])
  end.

(** ** message_digest.cc *)

Definition MessageDigestFactory_Create (alg : list Z) : res (option OpenSSLDigest) :=
  let* digest := OpenSSLDigest_new alg in
  if Size digest =? 0 then Val None else Val (Some digest).

Definition IsFips180DigestAlgorithm (alg : list Z) : bool :=
  bool_decide (alg = DIGEST_SHA_1) || bool_decide (alg = DIGEST_SHA_224) || bool_decide (alg = DIGEST_SHA_256)
  || bool_decide (alg = DIGEST_SHA_384) || bool_decide (alg = DIGEST_SHA_512).

Definition ComputeDigest_into (input : list Z) (output : list cell) (out_len : Z) (digest : OpenSSLDigest)
    : res (Z * list cell * OpenSSLDigest) :=
  Finish output out_len (Update input digest).

Definition ComputeDigest_alg_into (alg input : list Z) (output : list cell) (out_len : Z) : res (Z * list cell) :=
  let* digest := MessageDigestFactory_Create alg in
  match digest with
  | None => Val (0, output)
  | Some digest => let* '(n, output, _) := ComputeDigest_into input output out_len digest in Val (n, output)
  end.

Definition ComputeDigest_hex (input : list Z) (digest : OpenSSLDigest) : res (list Z * OpenSSLDigest) :=
  let output := new_chars (Size digest) in
  let* '(_, output, digest) := ComputeDigest_into input output (Size digest) digest in
  let* bytes := values output in
  let* text := hex_encode RTC_DCHECK_IS_ON bytes in
  Val (text, digest).

Definition ComputeDigest_alg (alg input : list Z) : res (option (list Z)) :=
  let* digest := MessageDigestFactory_Create alg in
  match digest with
  | None => Val None
  | Some digest => let* '(text, _) := ComputeDigest_hex input digest in Val (Some text)
  end.

(** The text, or the empty string. *)
Definition ComputeDigest (alg input : list Z) : res (list Z) :=
  let* r := ComputeDigest_alg alg input in Val (default [] r).

Definition ComputeHmac_into (key input : list Z) (output : list cell) (out_len : Z) (digest : OpenSSLDigest)
    : res (Z * list cell * OpenSSLDigest) :=
  let block_len := kBlockSize in
  let key_len := Z.of_nat (length key) in
  if 32 <? Size digest then Val (0, output, digest)
  else
    let new_key := new_chars block_len in
    let* '(new_key, digest) :=
      (if block_len <? key_len then
         let* '(_, new_key, digest) := ComputeDigest_into key new_key block_len digest in
         let* new_key := of_mem (mwrite new_key (Size digest) (replicate (Z.to_nat (block_len - Size digest)) (Some 0))) in
         Val (new_key, digest)
       else
         let* new_key := of_mem (mwrite new_key 0 (Some <$> key)) in
         let* new_key := of_mem (mwrite new_key key_len (replicate (Z.to_nat (block_len - key_len)) (Some 0))) in
         Val (new_key, digest)) in
    let* new_key := values new_key in
    let o_pad := Z.lxor 0x5c <$> new_key in
    let i_pad := Z.lxor 0x36 <$> new_key in
    let inner := new_chars (Size digest) in
    let digest := Update input (Update i_pad digest) in
    let* '(_, inner, digest) := Finish inner (Size digest) digest in
    let* inner := values inner in
    Finish output out_len (Update inner (Update o_pad digest)).

Definition ComputeHmac_alg_into (alg key input : list Z) (output : list cell) (out_len : Z) : res (Z * list cell) :=
  let* digest := MessageDigestFactory_Create alg in
  match digest with
  | None => Val (0, output)
  | Some digest => let* '(n, output, _) := ComputeHmac_into key input output out_len digest in Val (n, output)
  end.

Definition ComputeHmac_hex (key input : list Z) (digest : OpenSSLDigest) : res (list Z * OpenSSLDigest) :=
  let output := new_chars (Size digest) in
  let* '(_, output, digest) := ComputeHmac_into key input output (Size digest) digest in
  let* bytes := values output in
  let* text := hex_encode RTC_DCHECK_IS_ON bytes in
  Val (text, digest).

Definition ComputeHmac_alg (alg key input : list Z) : res (option (list Z)) :=
  let* digest := MessageDigestFactory_Create alg in
  match digest with
  | None => Val None
  | Some digest => let* '(text, _) := ComputeHmac_hex key input digest in Val (Some text)
  end.

Definition ComputeHmac (alg key input : list Z) : res (list Z) :=
  let* r := ComputeHmac_alg alg key input in Val (default [] r).

(** ** Certificates and fingerprints *)

(** A certificate is its DER bytes, which [X509_digest] hashes. *)
Definition cert_ComputeDigest (x509 algorithm : list Z) (digest : list cell) (size : Z) : res (option (Z * list cell)) :=
  let* md := GetDigestEVP algorithm in
  match md with
  | None => Val None
  | Some md =>
      if size <? EVP_MD_size md then Val None
      else
        let h := evp_hash md x509 in
        let* digest := of_mem (mwrite digest 0 (Some <$> h)) in
        Val (Some (Z.of_nat (length h), digest))
  end.

Record SSLFingerprint := Fingerprint { algorithm : list Z; digest : list Z }.

Definition SSLFingerprint_Create (alg x509 : list Z) : res (option SSLFingerprint) :=
  let digest_val := new_chars 64 in
  let* r := cert_ComputeDigest x509 alg digest_val 64 in
  match r with
  | None => Val None
  | Some (digest_len, digest_val) =>
      let* d := of_mem (mread digest_val 0 digest_len) in
      let* d := values d in
      Val (Some (Fingerprint alg d))
  end.

Definition CreateUniqueFromRfc4572 (alg fingerprint : list Z) : res (option SSLFingerprint) :=
  if bool_decide (alg = []) || negb (IsFips180DigestAlgorithm alg) then Val None
  else if bool_decide (fingerprint = []) then Val None
  else
    let value := replicate (Z.to_nat kMaxSize) 0 in
    let* '(value_len, value) := hex_decode_with_delimiter value fingerprint 58 in
    if value_len =? 0 then Val None
    else let* d := of_mem (mread value 0 value_len) in Val (Some (Fingerprint alg d)).

Definition toupper (c : Z) : Z := if (97 <=? c) && (c <=? 122) then c - 32 else c.

Definition fingerprint_eq (a b : SSLFingerprint) : bool :=
  bool_decide (algorithm a = algorithm b) && bool_decide (digest a = digest b).

Definition GetRfc4572Fingerprint (f : SSLFingerprint) : res (list Z) :=
  let* text := hex_encode_with_delimiter RTC_DCHECK_IS_ON (digest f) 58 in Val (toupper <$> text).

Definition ToString (f : SSLFingerprint) : res (list Z) :=
  let* text := GetRfc4572Fingerprint f in Val (algorithm f ++ [32] ++ text).
End Digest.

(** Hash functions with the sizes of the real ones, to run the code with. *)
Definition demo_size (md : EVP_MD) : Z :=
  match md with EVP_md5 => 16 | EVP_sha1 => 20 | EVP_sha224 => 28 | EVP_sha256 => 32 | EVP_sha384 => 48 | EVP_sha512 => 64 end.

Definition demo_hash (md : EVP_MD) (x : list Z) : list Z :=
  replicate (Z.to_nat (demo_size md)) (u8 (foldl (λ a b, 31 * a + b + 7) 1 x)).

Lemma demo_bounds md : 16 ≤ demo_size md ≤ 64.
Proof. destruct md; simpl; lia. Qed.

Lemma demo_length md x : Z.of_nat (length (demo_hash md x)) = demo_size md.
Proof. unfold demo_hash. rewrite length_replicate. by destruct md. Qed.

Lemma demo_bytes md x : bytes_ok (demo_hash md x).
Proof. apply Forall_replicate, byte_ok_u8. Qed.

#[global] Instance demo_evp : EVP := {|
  EVP_MD_size := demo_size; evp_hash := demo_hash;
  evp_size := demo_bounds; evp_length := demo_length; evp_bytes := demo_bytes
|}.

(** [Finish] into memory that is too small does not start over: the digest
    object goes on with the old input. *)
Example finish_short_keeps_input :
  match OpenSSLDigest_new true DIGEST_MD5 with
  | Val d =>
      match ComputeDigest_into true [1; 2] (new_chars 4) 4 d with
      | Val (n, _, d') => n = 0 ∧ ctx_ d' = [1; 2]
      | _ => False
      end
  | _ => False
  end.
Proof. vm_compute. done. Qed.

(** The string form of [ComputeHmac] for a hash of more than 32 bytes encodes
    memory that was never written. *)
Example hmac_of_uninitialised : ComputeHmac true DIGEST_SHA_512 [1] [2] = Undef.
Proof. vm_compute. reflexivity. Qed.

(** ** HMAC *)

(** RFC 2104: H(K xor opad, H(K xor ipad, text)) for a key of a block, which
    is the key or its hash, filled up with zeros. *)
Definition hmac_key `{EVP} (md : EVP_MD) (key : list Z) : list Z :=
  let k := if 64 <? Z.of_nat (length key) then evp_hash md key else key in
  k ++ replicate (64 - length k) 0.

Definition hmac `{EVP} (md : EVP_MD) (key text : list Z) : list Z :=
  let k := hmac_key md key in
  evp_hash md ((Z.lxor 0x5c <$> k) ++ evp_hash md ((Z.lxor 0x36 <$> k) ++ text)).

Section Theory.
Context {E : EVP} (dc : bool).

Lemma md_dcheck_true : dcheck dc true = Val ().
Proof. unfold dcheck. by destruct dc. Qed.

Lemma values_Some (xs : list Z) : values (Some <$> xs) = Val xs.
Proof.
  unfold values. assert (mapM id (Some <$> xs) = Some xs) as ->; [|done].
  induction xs as [|x xs IH]; [done|]. rewrite fmap_cons. simpl. by rewrite IH.
Qed.

Lemma length_hash md x : length (evp_hash md x) = Z.to_nat (EVP_MD_size md).
Proof. pose proof (evp_length md x). lia. Qed.

(** A digest that is finished has the hash of all it was given. *)
Lemma Finish_spec md ctx buf len :
  EVP_MD_size md ≤ len → len ≤ Z.of_nat (length buf) →
  Finish dc buf len (Digest (Some md) ctx)
  = Val (EVP_MD_size md, (Some <$> evp_hash md ctx) ++ drop (Z.to_nat (EVP_MD_size md)) buf, Digest (Some md) []).
Proof.
  intros H1 H2. unfold Finish. cbn [md_ Size ctx_]. rewrite (proj2 (Z.ltb_ge _ _)) by done.
  rewrite mwrite_front by (rewrite length_fmap, length_hash; lia). cbn [of_mem mbind_res].
  rewrite length_fmap, evp_length, Z.eqb_refl, md_dcheck_true, length_hash. done.
Qed.

Lemma Finish_new md ctx :
  Finish dc (new_chars (EVP_MD_size md)) (EVP_MD_size md) (Digest (Some md) ctx)
  = Val (EVP_MD_size md, Some <$> evp_hash md ctx, Digest (Some md) []).
Proof.
  pose proof (evp_size md). rewrite Finish_spec by (unfold new_chars; rewrite ?length_replicate; lia).
  unfold new_chars. by rewrite drop_ge, app_nil_r by (rewrite length_replicate; lia).
Qed.

(** The key block. *)
Lemma fill_key (k : list Z) :
  (length k ≤ 64)%nat →
  ∃ m, mwrite (new_chars 64) 0 (Some <$> k) = Some m ∧
    mwrite m (Z.of_nat (length k)) (replicate (Z.to_nat (64 - Z.of_nat (length k))) (Some 0))
    = Some (Some <$> (k ++ replicate (64 - length k) 0)).
Proof.
  intros Hk. eexists. split; [apply mwrite_front; unfold new_chars; len_solve|].
  set (old := drop _ _). rewrite <- (app_nil_r old), (mwrite_app (Some <$> k) old []).
  - rewrite app_nil_r, fmap_app, fmap_replicate. do 3 f_equal. lia.
  - by rewrite length_fmap.
  - subst old. unfold new_chars. len_solve.
Qed.

Lemma hmac_key_length md key : length (hmac_key md key) = 64%nat.
Proof.
  unfold hmac_key. rewrite length_app, length_replicate. pose proof (evp_size md).
  destruct (Z.ltb_spec 64 (Z.of_nat (length key))); rewrite ?length_hash; lia.
Qed.

(** A key of any length becomes a block. *)
Lemma key_block md key :
  EVP_MD_size md ≤ 32 →
  (if kBlockSize <? Z.of_nat (length key) then
     let* '(_, new_key, digest) := ComputeDigest_into dc key (new_chars kBlockSize) kBlockSize (Digest (Some md) []) in
     let* new_key := of_mem (mwrite new_key (Size digest) (replicate (Z.to_nat (kBlockSize - Size digest)) (Some 0))) in
     Val (new_key, digest)
   else
     let* new_key := of_mem (mwrite (new_chars kBlockSize) 0 (Some <$> key)) in
     let* new_key := of_mem (mwrite new_key (Z.of_nat (length key)) (replicate (Z.to_nat (kBlockSize - Z.of_nat (length key))) (Some 0))) in
     Val (new_key, Digest (Some md) []))
  = Val (Some <$> hmac_key md key, Digest (Some md) []).
Proof.
  intros Hs. pose proof (evp_size md). unfold kBlockSize, hmac_key. destruct (Z.ltb_spec 64 (Z.of_nat (length key))) as [Hk|Hk].
  - unfold ComputeDigest_into. cbn [Update md_ ctx_ app].
    rewrite Finish_spec by (unfold new_chars; rewrite ?length_replicate; lia). cbn [mbind_res Size md_].
    destruct (fill_key (evp_hash md key)) as (m & E1 & E2); [rewrite length_hash; lia|].
    rewrite mwrite_front in E1 by (unfold new_chars; rewrite length_fmap, length_hash, length_replicate; lia).
    rewrite length_fmap, length_hash in E1. injection E1 as <-. rewrite evp_length in E2. rewrite E2. done.
  - destruct (fill_key key) as (m & -> & E2); [lia|]. cbn [of_mem mbind_res]. rewrite E2. done.
Qed.

Lemma ComputeHmac_spec md key input buf len :
  EVP_MD_size md ≤ 32 → EVP_MD_size md ≤ len → len ≤ Z.of_nat (length buf) →
  ComputeHmac_into dc key input buf len (Digest (Some md) [])
  = Val (EVP_MD_size md, (Some <$> hmac md key input) ++ drop (Z.to_nat (EVP_MD_size md)) buf, Digest (Some md) []).
Proof.
  intros Hs Hl Hb. unfold ComputeHmac_into. cbn [Size md_]. rewrite (proj2 (Z.ltb_ge _ _)) by done.
  rewrite key_block by done. cbn [mbind_res]. rewrite values_Some. cbn [mbind_res Update md_ ctx_ Size app].
  rewrite Finish_new. cbn [mbind_res]. rewrite values_Some. cbn [mbind_res Update md_ ctx_ app]. by rewrite Finish_spec.
Qed.

Lemma GetDigestEVP_spec alg : GetDigestEVP dc alg = Val (digest_evp alg).
Proof.
  unfold GetDigestEVP. destruct (digest_evp alg) as [md|]; [|done]. pose proof (evp_size md).
  by rewrite (proj2 (Z.leb_le _ _)), md_dcheck_true by lia.
Qed.

Lemma Create_spec alg : MessageDigestFactory_Create dc alg = Val ((λ md, Digest (Some md) []) <$> digest_evp alg).
Proof.
  unfold MessageDigestFactory_Create, OpenSSLDigest_new. rewrite GetDigestEVP_spec. cbn [mbind_res].
  destruct (digest_evp alg) as [md|]; [|done]. unfold Size. cbn [md_]. pose proof (evp_size md).
  by rewrite (proj2 (Z.eqb_neq _ _)) by lia.
Qed.

Lemma hex_encode_bytes bs : bytes_ok bs → Z.of_nat (length bs) ≤ 64 → hex_encode dc bs = Val (hex_text 0 bs).
Proof. intros Hb Hl. unfold hex_encode. apply hex_encode_spec; [done|lia]. Qed.

Lemma hmac_bytes md key text : bytes_ok (hmac md key text) ∧ Z.of_nat (length (hmac md key text)) ≤ 64.
Proof. unfold hmac. split; [apply evp_bytes|]. rewrite evp_length. apply evp_size. Qed.

(** ** Fingerprints *)

Lemma toupper_nibble c h : nibble c h → nibble (toupper c) h.
Proof.
  unfold nibble, toupper, hexc. intros [Hh H]. split; [done|].
  destruct (Z.ltb_spec h 10), (Z.leb_spec 97 c), (Z.leb_spec c 122); simpl; lia.
Qed.

Lemma toupper_reads s bs : hex_reads 58 s bs → hex_reads 58 (toupper <$> s) bs.
Proof.
  induction 1 as [|c1 c2 h1 h2 H1 H2|c1 c2 h1 h2 b s bs H1 H2 _ IH].
  - constructor.
  - by apply reads_last; apply toupper_nibble.
  - replace (toupper <$> c1 :: c2 :: delim 58 ++ s) with (toupper c1 :: toupper c2 :: delim 58 ++ (toupper <$> s)) by done.
    by apply reads_cons; [apply toupper_nibble..|].
Qed.

Lemma decode_reads buffer s bs :
  hex_reads 58 s bs → (0 < length bs ≤ length buffer)%nat →
  hex_decode_with_delimiter buffer s 58 = Val (Z.of_nat (length bs), bs ++ drop (length bs) buffer).
Proof.
  intros Hs Hl. rewrite hex_decode_loop_of, (hex_reads_room 58 s bs Hs).
  rewrite (proj2 (Z.eqb_neq _ _)), (proj2 (Z.ltb_ge _ _)) by lia.
  by apply (hex_decode_complete 58 s bs Hs (length s) [] []); lia.
Qed.

Lemma fingerprint_reads alg d text :
  IsFips180DigestAlgorithm alg = true → hex_reads 58 text d → (0 < length d ≤ 64)%nat →
  CreateUniqueFromRfc4572 alg text = Val (Some (Fingerprint alg d)).
Proof.
  intros Ha Ht Hl. unfold CreateUniqueFromRfc4572. rewrite Ha.
  assert (alg ≠ []) as Hne by (intros ->; done). assert (text ≠ []) as Ht0 by (intros ->; inversion Ht; subst; simpl in Hl; lia).
  rewrite !bool_decide_false by done. cbn [negb orb].
  rewrite (decode_reads _ text d) by (done || (rewrite length_replicate; unfold kMaxSize; lia)). cbn [mbind_res].
  rewrite (proj2 (Z.eqb_neq _ _)) by lia. rewrite mread_take by len_solve. cbn [of_mem mbind_res].
  by rewrite Nat2Z.id, take_app_length.
Qed.

Lemma fingerprint_text d : bytes_ok d → (length d ≤ 64)%nat →
  ∃ text, (∀ alg, GetRfc4572Fingerprint dc (Fingerprint alg d) = Val text) ∧ hex_reads 58 text d.
Proof.
  intros Hb Hl. exists (toupper <$> hex_text 58 d). split.
  - intros alg. unfold GetRfc4572Fingerprint. cbn [digest]. by rewrite hex_encode_spec by (done || lia).
  - by apply toupper_reads, hex_text_reads.
Qed.

Lemma SSLFingerprint_Create_spec alg cert :
  SSLFingerprint_Create dc alg cert = Val ((λ md, Fingerprint alg (evp_hash md cert)) <$> digest_evp alg).
Proof.
  unfold SSLFingerprint_Create, cert_ComputeDigest. rewrite GetDigestEVP_spec. cbn [mbind_res].
  destruct (digest_evp alg) as [md|]; [|done]. pose proof (evp_size md). rewrite (proj2 (Z.ltb_ge _ _)) by lia.
  rewrite mwrite_front by (unfold new_chars; rewrite length_fmap, length_hash, length_replicate; lia). cbn [of_mem mbind_res].
  rewrite mread_take by len_solve. rewrite Nat2Z.id, take_app_length' by (by rewrite length_fmap).
  cbn [of_mem mbind_res]. by rewrite values_Some.
Qed.
End Theory.

(** HMAC is that of RFC 2104. For the algorithms with a digest of up to 32
    bytes and any key and text, the object form writes the HMAC and leaves a
    digest object that can be used again, and the form by name returns it as
    hexadecimal text; an unknown algorithm gives the empty string. *)
Theorem hmac_rfc2104 `{EVP} (dc : bool) (md : EVP_MD) (alg key text : list Z) (out : list cell) (out_len : Z) :
  EVP_MD_size md ≤ 32 → EVP_MD_size md ≤ out_len ≤ Z.of_nat (length out) →
  ComputeHmac_into dc key text out out_len (Digest (Some md) [])
    = Val (EVP_MD_size md, (Some <$> hmac md key text) ++ drop (Z.to_nat (EVP_MD_size md)) out, Digest (Some md) []) ∧
  (digest_evp alg = Some md → ComputeHmac dc alg key text = Val (hex_text 0 (hmac md key text))) ∧
  (digest_evp alg = None → ComputeHmac dc alg key text = Val []).
Proof.
  intros Hs [Hl Ho]. split_and!; [by apply ComputeHmac_spec| |]; intros Ha; unfold ComputeHmac, ComputeHmac_alg;
    rewrite Create_spec, Ha; [|done]. cbn [fmap option_fmap option_map mbind_res]. unfold ComputeHmac_hex. cbn [Size md_].
  pose proof (evp_size md).
  rewrite ComputeHmac_spec by (done || (unfold new_chars; rewrite ?length_replicate; lia)). cbn [mbind_res].
  unfold new_chars. rewrite drop_ge, app_nil_r by (rewrite length_replicate; lia). rewrite values_Some. cbn [mbind_res].
  destruct (hmac_bytes md key text). by rewrite hex_encode_bytes.
Qed.

Lemma hmac_rfc2104_witness :
  ∃ n out d, ComputeHmac_into true [1; 2; 3] [4; 5] (new_chars 20) 20 (Digest (Some EVP_sha1) []) = Val (n, out, d) ∧ n = 20 ∧
    ComputeHmac true DIGEST_SHA_1 [1; 2; 3] [4; 5] = Val (hex_text 0 (hmac EVP_sha1 [1; 2; 3] [4; 5])).
Proof.
  destruct (hmac_rfc2104 true EVP_sha1 DIGEST_SHA_1 [1; 2; 3] [4; 5] (new_chars 20) 20) as (H1 & H2 & _).
  - vm_compute. discriminate.
  - vm_compute. split; discriminate.
  - exists 20. eexists _, _. split; [exact H1|]. split; [reflexivity|]. apply H2. reflexivity.
Defined.

(** Fingerprints survive their text. The fingerprint of a certificate has
    the hash of the certificate; the text of RFC 4572 made from a fingerprint
    of a FIPS 180 algorithm, in upper case, is accepted and gives an equal
    fingerprint; the algorithms the code does not know give none. *)
Theorem fingerprint_roundtrip `{EVP} (dc : bool) (alg cert : list Z) :
  match digest_evp alg with
  | None => SSLFingerprint_Create dc alg cert = Val None
  | Some md =>
      ∃ f text, SSLFingerprint_Create dc alg cert = Val (Some f) ∧ digest f = evp_hash md cert ∧
        GetRfc4572Fingerprint dc f = Val text ∧ ToString dc f = Val (alg ++ [32] ++ text) ∧
        CreateUniqueFromRfc4572 alg text = Val (if IsFips180DigestAlgorithm alg then Some f else None) ∧
        fingerprint_eq f f = true
  end.
Proof.
  pose proof (SSLFingerprint_Create_spec dc alg cert) as E. destruct (digest_evp alg) as [md|] eqn:Ea; [|done].
  pose proof (evp_size md). pose proof (length_hash md cert) as Hl.
  destruct (fingerprint_text dc (evp_hash md cert)) as (text & Ht & Hr); [apply evp_bytes|lia|].
  eexists _, text. split_and!; [exact E|done|apply Ht|unfold ToString; by rewrite Ht| |].
  - destruct (IsFips180DigestAlgorithm alg) eqn:Hf; [apply fingerprint_reads; [done|done|simpl; lia]|].
    unfold CreateUniqueFromRfc4572. rewrite Hf. by rewrite orb_true_r.
  - unfold fingerprint_eq. by rewrite !bool_decide_true.
Qed.
