(* ===== verification/SslIdentity.v ===== *)
(** * Keys, PEM and certificate times (rtc_base/ssl_identity.h, ssl_identity.cc)

    The text formats of certificates and keys: the times of a certificate
    ([ASN1TimeToSec]) and PEM, base64 in lines between a header and a trailer.
    The theorems are that a time is read as the calendar says and that PEM reads
    back as the bytes it was made from. Memory is a block of bytes; an access
    past its end is undefined. *)

From S2P Require Import Prelude StringEncode Base64 TimeUtils.

(** ** Times *)

(** [strspn] with the digits; undefined when nothing stops it. *)
Fixpoint strspn_digits (m : list Z) : option Z :=
  match m with
  | [] => None
  | c :: m => if (48 <=? c) && (c <=? 57) then Z.succ <$> strspn_digits m else Some 0
  end.

(** [p] is the offset of the pointer; the value, the offset and the bytes left
    afterwards. *)
Fixpoint read_digits (n : nat) (m : list Z) (p x : Z) : res Z :=
  match n with
  | O => Val x
  | S n =>
      let* c := byte_at m p in
      let* x := int_ok (10 * x + c - 48) in
      read_digits n m (p + 1) x
  end.

Definition ASN1ReadInt (m : list Z) (p np : Z) (n : nat) : res (Z * Z * Z) :=
  let* x := read_digits n m p 0 in Val (x, p + Z.of_nat n, u64 (np - Z.of_nat n)).

Definition ASN1TimeToSec (s : list Z) (length : Z) (long_format : bool) : res Z :=
  let bytes_left := length in
  if length =? 0 then Val (-1)
  else
    let* last := byte_at s (length - 1) in
    if negb (last =? 90) then Val (-1)
    else
      let* n := of_mem (strspn_digits s) in
      if negb (n + 1 =? length) then Val (-1)
      else if bytes_left <? (if long_format then 11 else 9) then Val (-1)
      else
        let* '(year, p, bytes_left) := ASN1ReadInt s 0 bytes_left (if long_format then 4 else 2) in
        let year := if long_format then year - 1900 else if year <? 50 then year + 100 else year in
        let* '(mon, p, bytes_left) := ASN1ReadInt s p bytes_left 2 in
        let* '(mday, p, bytes_left) := ASN1ReadInt s p bytes_left 2 in
        let* '(hour, p, bytes_left) := ASN1ReadInt s p bytes_left 2 in
        let* '(min, p, bytes_left) := ASN1ReadInt s p bytes_left 2 in
        let* '(sec, p, bytes_left) := ASN1ReadInt s p bytes_left 2 in
        if negb (bytes_left =? 1) then Val (-1) else TmToSeconds (Tm sec min hour mday (mon - 1) year).

(** [X509_get_notAfter] has a type and the text. *)
Inductive asn1_type := V_ASN1_UTCTIME | V_ASN1_GENERALIZEDTIME | V_ASN1_OTHER.

Definition CertificateExpirationTime (type : asn1_type) (data : list Z) (length : Z) : res Z :=
  match type with
  | V_ASN1_UTCTIME => ASN1TimeToSec data length false
  | V_ASN1_GENERALIZEDTIME => ASN1TimeToSec data length true
  | V_ASN1_OTHER => Val (-1)
  end.

Example asn1_demo :
  ASN1TimeToSec (b#"240229123456Z") 13 false = Val 1709210096 ∧
  ASN1TimeToSec (b#"20240229123456Z") 15 true = Val 1709210096 ∧
  ASN1TimeToSec (b#"20230229123456Z") 15 true = Val (-1).
Proof. split_and!; vm_compute; reflexivity. Qed.

(** Ten digits and the [Z] pass the check of the length, and the fields are
    read to the fourteenth byte. *)
Example asn1_reads_past_the_end : ASN1TimeToSec (b#"2024022912Z") 11 true = Undef.
Proof. vm_compute. reflexivity. Qed.

(** ** KeyParams *)

Inductive KeyType := KT_RSA | KT_ECDSA | KT_LAST.
Definition KT_DEFAULT : KeyType := KT_ECDSA.
Inductive ECCurve := EC_NIST_P256 | EC_LAST.

Definition kRsaDefaultModSize : Z := 1024.
Definition kRsaDefaultExponent : Z := 0x10001.
Definition kRsaMinModSize : Z := 1024.
Definition kRsaMaxModSize : Z := 8192.

Record RSAParams := Rsa { mod_size : Z; pub_exp : Z }.

(** The union has the member that was written. *)
Inductive key_union := URsa (r : RSAParams) | UCurve (c : ECCurve).
Record KeyParams := KP { type_ : KeyType; params_ : key_union }.

(** [RTC_NOTREACHED] stops debug builds; a release build leaves the object
    without a value. *)
Definition KeyParams_new (key_type : KeyType) : res KeyParams :=
  match key_type with
  | KT_ECDSA => Val (KP KT_ECDSA (UCurve EC_NIST_P256))
  | KT_RSA => Val (KP KT_RSA (URsa (Rsa kRsaDefaultModSize kRsaDefaultExponent)))
  | KT_LAST => Undef
  end.

Definition KeyParams_RSA (mod_size pub_exp : Z) : res KeyParams :=
  let* kt := KeyParams_new KT_RSA in Val (KP (type_ kt) (URsa (Rsa (u32 mod_size) (u32 pub_exp)))).

Definition KeyParams_ECDSA (curve : ECCurve) : res KeyParams :=
  let* kt := KeyParams_new KT_ECDSA in Val (KP (type_ kt) (UCurve curve)).

Definition KeyParams_IsValid (k : KeyParams) : res bool :=
  match type_ k, params_ k with
  | KT_RSA, URsa r =>
      Val ((kRsaMinModSize <=? mod_size r) && (mod_size r <=? kRsaMaxModSize) && (mod_size r <? pub_exp r))
  | KT_ECDSA, UCurve c => Val (match c with EC_NIST_P256 => true | EC_LAST => false end)
  | KT_LAST, _ => Val false
  | _, _ => Undef
  end.

(** ** PEM *)

Definition kPemTypeCertificate : list Z := b#"CERTIFICATE".
Definition kPemTypeRsaPrivateKey : list Z := b#"RSA PRIVATE KEY".
Definition kPemTypeEcPrivateKey : list Z := b#"EC PRIVATE KEY".

(** [std::string::find] of a text. *)
Fixpoint is_prefix (pat s : list Z) : bool :=
  match pat, s with
  | [], _ => true
  | p :: pat, c :: s => (p =? c) && is_prefix pat s
  | _, [] => false
  end.

Fixpoint find (pat s : list Z) : option Z :=
  if is_prefix pat s then Some 0
  else match s with [] => None | _ :: s => Z.succ <$> find pat s end.

(** [find] from a position on. *)
Definition find_from (pat s : list Z) (pos : Z) : option Z := (λ i, pos + i) <$> find pat (drop (Z.to_nat pos) s).

(** [substr] with a count of the type [size_t]; it throws past the end. *)
Definition substr_at (s : list Z) (pos n : Z) : res (list Z) :=
  if Z.of_nat (length s) <? pos then Aborted else Val (substr s pos (Z.min n (Z.of_nat (length s) - pos))).

Definition pem_begin (pem_type : list Z) : list Z := b#"-----BEGIN " ++ pem_type ++ b#"-----".
Definition pem_end (pem_type : list Z) : list Z := b#"-----END " ++ pem_type ++ b#"-----".

Definition PemToDer (RTC_DCHECK_IS_ON : bool) (pem_type pem_string : list Z) : res (option (list Z)) :=
  match find (pem_begin pem_type) pem_string with
  | None => Val None
  | Some header =>
      match find_from [10] pem_string header with
      | None => Val None
      | Some body =>
          match find (pem_end pem_type) pem_string with
          | None => Val None
          | Some trailer =>
              let* inner := substr_at pem_string (body + 1) (u64 (trailer - (body + 1))) in
              let* der := Decode RTC_DCHECK_IS_ON inner (Z.lor (Z.lor DO_PARSE_WHITE DO_PAD_ANY) DO_TERM_BUFFER) in
              Val (Some der)
          end
      end
  end.

Definition kChunkSize : Z := 64.

Fixpoint chunk_loop (n : nat) (b64_encoded : list Z) (chunk_offset : Z) (result : list Z) : res (list Z) :=
  match n with
  | O => Val result
  | S n =>
      let* line := substr_at b64_encoded chunk_offset kChunkSize in
      chunk_loop n b64_encoded (chunk_offset + kChunkSize) (result ++ line ++ [10])
  end.

Definition DerToPem (pem_type data : list Z) : res (list Z) :=
  let result := pem_begin pem_type ++ [10] in
  let* b64_encoded := EncodeFromArray data in
  let chunks := (Z.of_nat (length b64_encoded) + (kChunkSize - 1)) / kChunkSize in
  let* result := chunk_loop (Z.to_nat chunks) b64_encoded 0 result in
  Val (result ++ pem_end pem_type ++ [10]).

Example pem_demo :
  match DerToPem kPemTypeCertificate (replicate 60 65) with
  | Val pem => PemToDer true kPemTypeCertificate pem = Val (Some (replicate 60 65))
  | _ => False
  end.
Proof. vm_compute. reflexivity. Qed.

(** ** Base64 in lines *)

Definition strip (s : list Z) : list Z := filter (.≠ 10) s.

(** Two states of the quantum loop that differ in position only. *)
Record same_quantum (q q' : quantum) : Prop := SameQ {
  sq_len : byte_len q' = byte_len q;
  sq_pad : pad_len q' = pad_len q;
  sq_vals : take (byte_len q) (qbuf q') = take (byte_len q) (qbuf q);
  sq_ok : quantum_ok q;
  sq_ok' : quantum_ok q'
}.

Lemma strip_cons c s : strip (c :: s) = if decide (c = 10) then strip s else c :: strip s.
Proof. unfold strip. rewrite filter_cons. repeat case_decide; done. Qed.

Lemma quantum_ok_next q v bl pl ps :
  quantum_ok q → (byte_len q < 4)%nat → 0 ≤ pl → Z.of_nat bl + pl ≤ 4 → (0 < pl → (2 ≤ bl)%nat) →
  quantum_ok (Q bl pl ps (q_dpos q + 1) (<[byte_len q := v]> (qbuf q))).
Proof. intros [] H1 H2 H3 H4. split; cbn; rewrite ?length_insert; lia. Qed.

Lemma same_next q q' v bl pl ps ps' :
  same_quantum q q' → (byte_len q < 4)%nat → (bl = byte_len q ∨ bl = S (byte_len q)) → 0 ≤ pl → Z.of_nat bl + pl ≤ 4 →
  (0 < pl → (2 ≤ bl)%nat) →
  same_quantum (Q bl pl ps (q_dpos q + 1) (<[byte_len q := v]> (qbuf q)))
               (Q bl pl ps' (q_dpos q' + 1) (<[byte_len q' := v]> (qbuf q'))).
Proof.
  intros [E1 E2 E3 H1 H2] Hl Hbl Hp Hs H0. pose proof (q_len _ H1). pose proof (q_len _ H2). rewrite E1. split; cbn; try done.
  - destruct Hbl as [->| ->]; [by rewrite !take_insert_ge by lia|]. rewrite !take_insert_S by lia. by rewrite E3.
  - by apply quantum_ok_next.
  - rewrite <- E1. apply quantum_ok_next; [done|lia|done..].
Qed.

(** The loop does the same with and without the line feeds. *)
Definition white_outcome (s : list Z) (q q2 : quantum) : Prop :=
  ∃ c r q' q2', s = c ++ r ∧
    quantum_loop DO_PARSE_WHITE false s q = Val q' ∧ quantum_loop DO_PARSE_WHITE false (strip s) q2 = Val q2' ∧
    same_quantum q' q2' ∧ q_dpos q' = q_dpos q + Z.of_nat (length c) ∧ q_dpos q2' = q_dpos q2 + Z.of_nat (length (strip c)).

Lemma same_put q q2 v : same_quantum q q2 → (byte_len q < 4)%nat →
  same_quantum (Q (byte_len q) (pad_len q) (pad_start q) (q_dpos q) (<[byte_len q := v]> (qbuf q)))
               (Q (byte_len q2) (pad_len q2) (pad_start q2) (q_dpos q2) (<[byte_len q2 := v]> (qbuf q2))).
Proof.
  intros [E1 E2 E3 [] []] Hl. split; cbn; try done; [by rewrite E1, !take_insert_ge by lia|split..]; cbn; rewrite ?length_insert; done.
Qed.

Lemma white_stop s q q2 q' q2' :
  quantum_loop DO_PARSE_WHITE false s q = Val q' → quantum_loop DO_PARSE_WHITE false (strip s) q2 = Val q2' →
  same_quantum q' q2' → q_dpos q' = q_dpos q → q_dpos q2' = q_dpos q2 → white_outcome s q q2.
Proof. intros H1 H2 H3 H4 H5. exists [], s, q', q2'. cbn. rewrite !Z.add_0_r. by split_and!. Qed.

Lemma white_next ch s q q2 q1 q21 :
  ch ≠ 10 → quantum_loop DO_PARSE_WHITE false (ch :: s) q = quantum_loop DO_PARSE_WHITE false s q1 →
  quantum_loop DO_PARSE_WHITE false (ch :: strip s) q2 = quantum_loop DO_PARSE_WHITE false (strip s) q21 →
  q_dpos q1 = q_dpos q + 1 → q_dpos q21 = q_dpos q2 + 1 → white_outcome s q1 q21 → white_outcome (ch :: s) q q2.
Proof.
  intros Hch E1 E2 D1 D2 (c & r & q' & q2' & -> & H1 & H2 & Hs & Hd & Hd2). exists (ch :: c), r, q', q2'.
  unfold strip in *. rewrite !(filter_cons_True _ ch) by done. rewrite E1. cbn [app length]. split_and!; try done; try lia.
  unfold strip in E2. rewrite filter_app in E2 |- *. cbn [app]. rewrite <- filter_app in E2 |- *. rewrite E2. done.
Qed.

Lemma white_quantum s : ∀ q q2, bytes_ok s → same_quantum q q2 → white_outcome s q q2.
Proof.
  induction s as [|ch s IH]; intros q q2 Hb Hsq.
  { eapply white_stop; try reflexivity. done. }
  apply Forall_cons in Hb as [Hch Hb]. pose proof (sq_len _ _ Hsq) as El. pose proof (sq_pad _ _ Hsq) as Ep.
  destruct (Nat.ltb_spec (byte_len q) 4) as [Hl|Hl].
  2: { eapply (white_stop _ _ _ q q2); [| |done..].
    - cbn [quantum_loop]. by rewrite (proj2 (Nat.ltb_ge _ _)).
    - destruct (strip (ch :: s)); [done|]. cbn [quantum_loop]. by rewrite El, (proj2 (Nat.ltb_ge _ _)). }
  destruct (sq_ok _ _ Hsq) as [Hlen Hpad Hsum Htwo].
  destruct (DecodeTable !! Z.to_nat ch) as [v|] eqn:Hv.
  2: { apply lookup_ge_None in Hv. unfold byte_ok in Hch. change (length DecodeTable) with 256%nat in Hv. lia. }
  destruct (decide (ch = 10)) as [->|Hne].
  { vm_compute in Hv. injection Hv as <-.
    set (q1 := Q (byte_len q) (pad_len q) (pad_start q) (q_dpos q + 1) (<[byte_len q := sp]> (qbuf q))).
    assert (same_quantum q1 q2) as Hs1.
    { destruct Hsq as [E1 E2 E3 H1 H2]. split; cbn; try done; [by rewrite take_insert_ge by lia|]. apply quantum_ok_next; try done; lia. }
    destruct (IH q1 q2 Hb Hs1) as (c & r & q' & q2' & -> & H1 & H2 & Hs & Hd & Hd2).
    exists (10 :: c), r, q', q2'. rewrite !strip_cons, !decide_True by done. split_and!; try done.
    - rewrite <- H1. cbn [quantum_loop]. rewrite (proj2 (Nat.ltb_lt _ _)) by done. reflexivity.
    - rewrite Hd. cbn [q1 q_dpos length]. subst q1. cbn. lia. }
  assert (strip (ch :: s) = ch :: strip s) as Est by (by rewrite strip_cons, decide_False).
  assert (∀ bl pl ps ps', (bl = byte_len q ∨ bl = S (byte_len q)) → 0 ≤ pl → Z.of_nat bl + pl ≤ 4 → (0 < pl → (2 ≤ bl)%nat) →
    quantum_loop DO_PARSE_WHITE false (ch :: s) q = quantum_loop DO_PARSE_WHITE false s (Q bl pl ps (q_dpos q + 1) (<[byte_len q := v]> (qbuf q))) →
    quantum_loop DO_PARSE_WHITE false (ch :: strip s) q2 = quantum_loop DO_PARSE_WHITE false (strip s) (Q bl pl ps' (q_dpos q2 + 1) (<[byte_len q2 := v]> (qbuf q2))) →
    white_outcome (ch :: s) q q2) as Hnext.
  { intros bl pl ps ps' H1 H2 H3 H4 E1 E2. eapply white_next; [done|exact E1|exact E2|done|done|]. apply IH; [done|]. by apply same_next. }
  pose proof (λ H1 H2, white_stop (ch :: s) q q2 _ _ H1 H2 (same_put q q2 v Hsq Hl) eq_refl eq_refl) as Hstop. rewrite Est in Hstop.
  cbn [quantum_loop] in *. rewrite El, Ep, !(proj2 (Nat.ltb_lt (byte_len q) 4)) in * by done. rewrite Hv in *. cbn [of_mem mbind_res] in *.
  change (negb (DO_PARSE_WHITE =? DO_PARSE_ANY)) with true in *. change (DO_PARSE_WHITE =? DO_PARSE_STRICT) with false in *.
  destruct (decode_table_char ch v Hch Hv) as [->|[->|[[-> ->]|[Hd ->]]]].
  - by apply Hstop.
  - apply (Hnext (byte_len q) (pad_len q) (pad_start q) (pad_start q2)); try done; [by left].
  - change ((il =? pd) || false && (pd =? pd)) with false in *. change (sp =? pd) with false in *. change (pd =? pd) with true in *.
    cbn match in *. destruct (Nat.ltb_spec (byte_len q) 2); [by apply Hstop|].
    destruct (Z.leb_spec 4 (Z.of_nat (byte_len q) + pad_len q)); [by apply Hstop|].
    eapply (Hnext (byte_len q) (pad_len q + 1)); [by left|lia|lia|lia|done..].
  - unfold il, sp, pd in *. rewrite !(proj2 (Z.eqb_neq _ v)) in * by lia. cbn match in *.
    destruct (Z.ltb_spec 0 (pad_len q)); [by apply Hstop|].
    apply (Hnext (S (byte_len q)) (pad_len q) (pad_start q) (pad_start q2)); [by right|lia|lia|lia|done..].
Qed.

Definition pem_flags : Z := Z.lor (Z.lor DO_PARSE_WHITE DO_PAD_ANY) DO_TERM_BUFFER.

(** A quantum from the text with and the text without line feeds. *)
Lemma next_white pre pre2 s qb qb2 :
  bytes_ok s → length qb = 4%nat → length qb2 = 4%nat →
  ∃ c r n p d d2 ds, s = c ++ r ∧
    GetNextQuantum DO_PARSE_WHITE false (pre ++ s) (Z.of_nat (length pre)) qb = Val (n, p, d, ds) ∧
    GetNextQuantum DO_PARSE_WHITE false (pre2 ++ strip s) (Z.of_nat (length pre2)) qb2 = Val (n, p, d2, ds) ∧
    (n ≤ 4)%nat ∧ length ds = 4%nat ∧
    (n = 4%nat → d = Z.of_nat (length (pre ++ c)) ∧ d2 = Z.of_nat (length (pre2 ++ strip c))).
Proof.
  intros Hb Hq Hq2. set (q := Q 0 0 0 (Z.of_nat (length pre)) qb). set (q2 := Q 0 0 0 (Z.of_nat (length pre2)) qb2).
  assert (same_quantum q q2) as Hs by (subst q q2; split; cbn; try done; split; cbn; lia || done).
  destruct (white_quantum s q q2 Hb Hs) as (c & r & q' & q2' & E & H1 & H2 & Hs' & Hd & Hd2).
  exists c, r. unfold GetNextQuantum. rewrite !Nat2Z.id, !drop_app_length. fold q q2. rewrite H1, H2. cbn [mbind_res].
  destruct Hs' as [E1 E2 E3 [L1 L2 L3 L4] [L1' _ _ _]]. rewrite E1, E2, E3.
  eexists _, _, _, _, _. split_and!; [done|done|done|lia|rewrite length_app, length_take, length_replicate; lia|].
  intros Hn. assert (pad_len q' = 0) as -> by lia. rewrite Hn. change (Z.of_nat 4 + 0 =? 4) with true. cbn [negb andb].
  rewrite Hd, Hd2, !length_app. subst q q2. cbn [q_dpos]. lia.
Qed.

Lemma decode_white fuel2 : ∀ fuel pre pre2 s qb qb2 success success2 result b out d,
  bytes_ok s → length qb = 4%nat → length qb2 = 4%nat → (fuel2 < fuel)%nat →
  decode_loop fuel2 pem_flags (pre2 ++ strip s) (Z.of_nat (length (pre2 ++ strip s))) (Z.of_nat (length pre2)) qb2 success2 result
    = Val (b, out, d) →
  ∃ b' d', decode_loop fuel pem_flags (pre ++ s) (Z.of_nat (length (pre ++ s))) (Z.of_nat (length pre)) qb success result
    = Val (b', out, d').
Proof.
  induction fuel2 as [|fuel2 IH]; intros [|fuel] pre pre2 s qb qb2 success success2 result b out d Hb Hq Hq2 Hf H; try lia;
    cbn [decode_loop] in H |- *; change (Z.land pem_flags DO_PARSE_MASK) with DO_PARSE_WHITE in *;
    change (DO_PAD_NO =? Z.land pem_flags DO_PAD_MASK) with false in *;
    destruct (next_white pre pre2 s qb qb2 Hb Hq Hq2) as (c & r & n & p & dp & dp2 & ds & Es & E1 & E2 & Hn & Hds & H4).
  all: destruct (Z.ltb_spec (Z.of_nat (length pre2)) (Z.of_nat (length (pre2 ++ strip s)))) as [Hlt|Hge]; try done.
  all: try (injection H as <- <- <-; assert (strip s = []) as Hnil by (apply nil_length_inv; rewrite length_app in Hge; lia);
    destruct (Z.of_nat (length pre) <? _); [|by eexists _, _]; rewrite E1; cbn [mbind_res];
    rewrite Hnil, app_nil_r in E2; unfold GetNextQuantum in E2; rewrite Nat2Z.id, drop_all in E2; cbn in E2;
    injection E2 as <- <- _ <-; cbn; rewrite app_nil_r; by eexists _, _).
  assert (s ≠ []) as Hs0 by (intros ->; rewrite app_nil_r in Hlt; lia).
  rewrite (proj2 (Z.ltb_lt _ (Z.of_nat (length (pre ++ s))))) by (rewrite length_app; destruct s; [done|simpl; lia]).
  rewrite E2 in H. rewrite E1. cbn [mbind_res] in H |- *. destruct (quantum_bytes n ds) as [[o cc]| | |]; try done.
  cbn [mbind_res] in H |- *. destruct (Nat.ltb_spec n 4).
  { injection H as _ <- _. by eexists _, _. }
  assert (n = 4%nat) as -> by lia. destruct (H4 eq_refl) as [-> ->]. subst s.
  assert (strip (c ++ r) = strip c ++ strip r) as Est by apply filter_app. rewrite Est, !app_assoc in H. rewrite !app_assoc.
  apply bytes_ok_app in Hb as [_ Hb]. eapply (IH fuel (pre ++ c) (pre2 ++ strip c) r ds ds); [done..|lia|exact H].
Qed.

(** What was encoded, with line feeds anywhere, decodes. *)
Lemma Decode_lines dc bs s : bytes_ok bs → bytes_ok s → strip s = rfc4648 bs → Decode dc s pem_flags = Val bs.
Proof.
  intros Hb Hs E. unfold Decode. rewrite decode_from by (vm_compute; repeat split; discriminate).
  assert (∃ fuel, (fuel < S (length s))%nat ∧
    decode_loop fuel pem_flags (strip s) (Z.of_nat (length (strip s))) 0 [0; 0; 0; 0] true [] = Val (true, bs, Z.of_nat (length (strip s))))
    as (fuel & Hf & H).
  { destruct (decide (bs = [])) as [->|Hne]; [exists 0%nat; split; [lia|]; by rewrite E|].
    exists (S (length bs)). split.
    - assert (length (strip s) ≤ length s)%nat by apply length_filter. rewrite E in *. pose proof (rfc4648_length bs).
      destruct bs; [done|]. simpl length in *. div_solve.
    - rewrite E. exact (decode_loop_spec pem_flags bs eq_refl (S (length bs)) [] [0; 0; 0; 0] [] Hb ltac:(lia) eq_refl). }
  destruct (decode_white fuel (S (length s)) [] [] s [0; 0; 0; 0] [0; 0; 0; 0] true true [] _ _ _ Hs eq_refl eq_refl Hf H) as (b' & d' & E').
  cbn [app length] in E'. change (Z.of_nat 0) with 0 in E'. rewrite E'. done.
Qed.

(** The characters of base64 text: bytes, no line feed and no dash. *)
Definition plain (c : Z) : Prop := byte_ok c ∧ c ≠ 10 ∧ c ≠ 45.

#[global] Instance plain_dec c : Decision (plain c).
Proof. unfold plain. apply _. Defined.

Lemma table_plain : Forall plain Base64Table.
Proof. apply (bool_decide_unpack _). vm_compute. exact I. Qed.

Lemma digit_plain d : plain (digit d).
Proof.
  unfold digit. rewrite list_lookup_total_alt. destruct (Base64Table !! Z.to_nat d) as [c|] eqn:E.
  - exact (Forall_lookup_1 _ _ _ _ table_plain E).
  - unfold plain, byte_ok. simpl. change (@inhabitant Z _) with 0. lia.
Qed.

Lemma rfc4648_plain bs : Forall plain (rfc4648 bs).
Proof.
  assert (plain kPad) by (unfold plain, byte_ok, kPad; lia).
  induction bs as [|a|a b|a b c bs IH] using triples_ind; cbn [rfc4648]; repeat (constructor; [done || apply digit_plain|]); done || constructor.
Qed.

(** ** Lines *)

Fixpoint lines (n : nat) (l : list Z) : list Z :=
  match n with
  | O => []
  | S n => take 64 l ++ [10] ++ lines n (drop 64 l)
  end.

Lemma chunk_loop_spec n l : ∀ off result,
  0 ≤ off → off + 64 * Z.of_nat n < Z.of_nat (length l) + 64 →
  chunk_loop n l off result = Val (result ++ lines n (drop (Z.to_nat off) l)).
Proof.
  induction n as [|n IH]; intros off result Ho Hn; cbn [chunk_loop lines]; [by rewrite app_nil_r|].
  unfold substr_at, kChunkSize, substr. rewrite (proj2 (Z.ltb_ge _ _)) by lia. cbn [mbind_res].
  rewrite IH by lia. rewrite <- !app_assoc. do 3 f_equal.
  - destruct (Z.min_spec 64 (Z.of_nat (length l) - off)) as [[Hl ->]|[Hl ->]]; [done|].
    rewrite !take_ge by (rewrite length_drop; lia). done.
  - do 2 f_equal. rewrite drop_drop. f_equal. lia.
Qed.

Lemma strip_plain l : Forall plain l → strip l = l.
Proof.
  induction 1 as [|c l [_ [Hc _]] _ IH]; [done|]. rewrite strip_cons, decide_False by done. by rewrite IH.
Qed.

Lemma strip_lines n l : Forall plain l → (length l ≤ 64 * n)%nat → strip (lines n l) = l.
Proof.
  revert l. induction n as [|n IH]; intros l Hp Hl; cbn [lines].
  - destruct l; [done|simpl in Hl; lia].
  - assert (strip (take 64 l ++ [10] ++ lines n (drop 64 l)) = strip (take 64 l) ++ strip (lines n (drop 64 l))) as ->.
    { unfold strip. rewrite !filter_app. done. }
    rewrite IH; [|by apply Forall_drop|rewrite length_drop; lia].
    rewrite strip_plain by (by apply Forall_take). apply take_drop.
Qed.

Lemma lines_chars n l : Forall plain l → Forall (λ c, byte_ok c ∧ c ≠ 45) (lines n l).
Proof.
  revert l. induction n as [|n IH]; intros l Hp; cbn [lines]; [constructor|].
  repeat (apply Forall_app; split); [|repeat constructor; unfold byte_ok; lia|by apply IH, Forall_drop].
  apply Forall_take. eapply Forall_impl; [done|]. unfold plain. naive_solver.
Qed.

Lemma lines_length n l : (length (lines n l) ≤ length l + n)%nat.
Proof.
  revert l. induction n as [|n IH]; intros l; cbn [lines]; [simpl; lia|].
  rewrite !length_app, length_take. specialize (IH (drop 64 l)). rewrite length_drop in IH. cbn [length]. lia.
Qed.

(** ** Searching *)

Lemma is_prefix_app pat s : is_prefix pat (pat ++ s) = true.
Proof. induction pat as [|p pat IH]; [done|]. simpl. by rewrite Z.eqb_refl. Qed.

Lemma find_here pat s : is_prefix pat s = true → find pat s = Some 0.
Proof. intros H. destruct s; cbn [find]; by rewrite H. Qed.

Lemma find_skip p pat l s :
  Forall (.≠ p) l → find (p :: pat) (l ++ s) = (λ i, Z.of_nat (length l) + i) <$> find (p :: pat) s.
Proof.
  induction 1 as [|c l Hc _ IH]; cbn [app length]; [by destruct (find (p :: pat) s)|].
  cbn [find is_prefix]. rewrite (proj2 (Z.eqb_neq p c)) by done. cbn [andb]. rewrite IH.
  destruct (find _ s); cbn [fmap option_fmap option_map]; [|done]. f_equal. lia.
Qed.

Lemma find_step pat c s : is_prefix pat (c :: s) = false → find pat (c :: s) = Z.succ <$> find pat s.
Proof. intros H. cbn [find]. by rewrite H. Qed.

(** Five dashes that are not followed by an [E]. *)
Lemma find_dashes pat x s :
  x ≠ 45 → x ≠ 69 →
  find (b#"-----E" ++ pat) (b#"-----" ++ x :: s) = (λ i, 6 + i) <$> find (b#"-----E" ++ pat) s.
Proof.
  intros H1 H2. change (b#"-----E") with [45; 45; 45; 45; 45; 69]. change (b#"-----") with [45; 45; 45; 45; 45]. cbn [app].
  rewrite <- Z.eqb_neq in H1, H2. rewrite Z.eqb_sym in H1, H2.
  rewrite !find_step by (cbn [is_prefix]; rewrite ?Z.eqb_refl, ?H1, ?H2; reflexivity).
  destruct (find _ s); cbn [fmap option_fmap option_map]; [|done]. f_equal. lia.
Qed.

(** ** PEM *)

(** A name of a kind of PEM text: one line, without dashes. *)
Definition pem_name (t : list Z) : Prop := Forall (λ c, c ≠ 10 ∧ c ≠ 45) t.

#[global] Instance pem_name_dec t : Decision (pem_name t).
Proof. unfold pem_name. apply _. Defined.

Lemma find_trailer t l s :
  pem_name t → Forall (λ c, byte_ok c ∧ c ≠ 45) l →
  find (pem_end t) (pem_begin t ++ [10] ++ l ++ pem_end t ++ s) = Some (Z.of_nat (length (pem_begin t)) + 1 + Z.of_nat (length l)).
Proof.
  intros Ht Hl. unfold pem_begin, pem_end.
  set (pat := b#"ND " ++ t ++ b#"-----"). change (b#"-----END " ++ t ++ b#"-----") with (b#"-----E" ++ pat).
  change (b#"-----BEGIN ") with (b#"-----" ++ [66] ++ b#"EGIN "). rewrite <- !app_assoc. cbn [app].
  rewrite find_dashes by done. rewrite (app_assoc (b#"EGIN ") t).
  assert (Forall (.≠ 45) (b#"EGIN " ++ t)) as H1.
  { apply Forall_app. split; [apply (bool_decide_unpack _); vm_compute; exact I|]. eapply Forall_impl; [done|]. naive_solver. }
  change (b#"-----E" ++ pat) with (45 :: b#"----E" ++ pat) at 1. rewrite find_skip by done.
  change (45 :: b#"----E" ++ pat) with (b#"-----E" ++ pat). rewrite find_dashes by done.
  change (b#"-----E" ++ pat) with (45 :: b#"----E" ++ pat) at 1.
  rewrite find_skip by (eapply Forall_impl; [done|]; naive_solver).
  change (45 :: b#"----E" ++ pat) with (b#"-----E" ++ pat). rewrite find_here by (rewrite (app_assoc (b#"-----E")); apply is_prefix_app).
  cbn [fmap option_fmap option_map]. f_equal. rewrite !length_app. simpl length. rewrite !length_app. simpl length. lia.
Qed.

Lemma DerToPem_spec t bs :
  bytes_ok bs → ∃ l, DerToPem t bs = Val (pem_begin t ++ [10] ++ l ++ pem_end t ++ [10]) ∧ strip l = rfc4648 bs ∧
    Forall (λ c, byte_ok c ∧ c ≠ 45) l ∧ Z.of_nat (length l) ≤ 4 * (Z.of_nat (length bs) + 3).
Proof.
  intros Hb. unfold DerToPem. rewrite EncodeFromArray_spec by done. cbn [mbind_res].
  set (b64 := rfc4648 bs). set (n := Z.to_nat _). pose proof (rfc4648_plain bs) as Hp. fold b64 in Hp.
  pose proof (rfc4648_length bs) as Hlen. fold b64 in Hlen. assert (64 * Z.of_nat n < Z.of_nat (length b64) + 64 ∧
    Z.of_nat (length b64) ≤ 64 * Z.of_nat n) as [Hn1 Hn2] by (subst n; unfold kChunkSize; div_solve).
  rewrite chunk_loop_spec by lia. cbn [mbind_res]. rewrite drop_0. exists (lines n b64). split_and!.
  - by rewrite <- !app_assoc.
  - apply strip_lines; [done|lia].
  - by apply lines_chars.
  - pose proof (lines_length n b64). div_solve.
Qed.

Lemma PemToDer_spec dc t l bs s :
  pem_name t → bytes_ok bs → strip l = rfc4648 bs → Forall (λ c, byte_ok c ∧ c ≠ 45) l → Z.of_nat (length l) < 2 ^ 64 →
  PemToDer dc t (pem_begin t ++ [10] ++ l ++ pem_end t ++ s) = Val (Some bs).
Proof.
  intros Ht Hb Hs Hl Hlen. unfold PemToDer. rewrite find_here by apply is_prefix_app.
  unfold find_from. rewrite drop_0.
  assert (Forall (.≠ 10) (pem_begin t)) as H10.
  { unfold pem_begin. repeat (apply Forall_app; split); [by apply (bool_decide_unpack _); vm_compute| |by apply (bool_decide_unpack _); vm_compute].
    eapply Forall_impl; [done|]. naive_solver. }
  rewrite find_skip by done. rewrite (find_here [10]) by done. cbn [fmap option_fmap option_map].
  rewrite find_trailer by done. rewrite u64_small by lia. unfold substr_at.
  rewrite (proj2 (Z.ltb_ge _ _)) by (rewrite !length_app; simpl length; lia).
  cbn [mbind_res]. unfold substr. change (Z.lor (Z.lor DO_PARSE_WHITE DO_PAD_ANY) DO_TERM_BUFFER) with pem_flags.
  replace (take _ _) with l; [by rewrite (Decode_lines dc bs l) by (done || (eapply Forall_impl; [done|]; naive_solver))|].
  rewrite (app_assoc (pem_begin t) [10]), drop_app_length' by (rewrite length_app; simpl length; lia).
  rewrite take_app_length'; [done|]. rewrite !length_app. simpl length. lia.
Qed.

(** PEM is lossless. For every one-line kind of PEM text without dashes
    and every block of bytes, [DerToPem] has a result, and [PemToDer] finds in
    it the bytes it was made from, line breaks, header and trailer aside. *)
Theorem pem_roundtrip (dc : bool) (t bs : list Z) :
  pem_name t → bytes_ok bs → Z.of_nat (length bs) < 2 ^ 60 →
  ∃ pem, DerToPem t bs = Val pem ∧ PemToDer dc t pem = Val (Some bs).
Proof.
  intros Ht Hb Hl. destruct (DerToPem_spec t bs Hb) as (l & E & Hs & Hc & Hlen). eexists. split; [exact E|].
  apply PemToDer_spec; [done..|]. lia.
Qed.

Lemma pem_roundtrip_witness :
  ∃ pem, DerToPem kPemTypeCertificate (replicate 60 65) = Val pem ∧ PemToDer true kPemTypeCertificate pem = Val (Some (replicate 60 65)).
Proof.
  apply (pem_roundtrip true kPemTypeCertificate (replicate 60 65)).
  - apply (bool_decide_unpack _). vm_compute. exact I.
  - apply (bool_decide_unpack _). vm_compute. exact I.
  - vm_compute. reflexivity.
Defined.

(** ** Times, exactly *)

Definition two (a b : Z) : Z := 10 * a + b.

(** The date and time written with the digits [ds]. *)
Definition asn1_fields (long_format : bool) (ds : list Z) : option tm :=
  match long_format, ds with
  | true, [y1; y2; y3; y4; m1; m2; d1; d2; h1; h2; i1; i2; s1; s2] =>
      Some (Tm (two s1 s2) (two i1 i2) (two h1 h2) (two d1 d2) (two m1 m2 - 1) (100 * two y1 y2 + two y3 y4 - 1900))
  | false, [y1; y2; m1; m2; d1; d2; h1; h2; i1; i2; s1; s2] =>
      let y := two y1 y2 in
      Some (Tm (two s1 s2) (two i1 i2) (two h1 h2) (two d1 d2) (two m1 m2 - 1) (if y <? 50 then y + 100 else y))
  | _, _ => None
  end.

Definition is_digit (d : Z) : Prop := 0 ≤ d ≤ 9.
Definition asn1_text (ds : list Z) : list Z := ((λ d, 48 + d) <$> ds) ++ [90].

Lemma strspn_text ds s : Forall is_digit ds → strspn_digits (asn1_text ds ++ s) = Some (Z.of_nat (length ds)).
Proof.
  unfold asn1_text. induction 1 as [|d ds Hd _ IH]; [done|]. unfold is_digit in Hd.
  rewrite fmap_cons. cbn [app strspn_digits length]. rewrite (proj2 (Z.leb_le _ _)), (proj2 (Z.leb_le _ _)) by lia. cbn [andb].
  rewrite IH. cbn [fmap option_fmap option_map]. f_equal. lia.
Qed.

Lemma strspn_inv s n : strspn_digits s = Some n → ∃ ds c r, s = ((λ d, 48 + d) <$> ds) ++ c :: r ∧ Forall is_digit ds ∧ n = Z.of_nat (length ds).
Proof.
  revert n. induction s as [|c s IH]; intros n H; [done|]. cbn [strspn_digits] in H. destruct ((48 <=? c) && (c <=? 57)) eqn:E; reflect_Z.
  - destruct (strspn_digits s) as [k|]; [|done]. injection H as <-. destruct (IH k eq_refl) as (ds & c' & r & -> & Hd & ->).
    exists (c - 48 :: ds), c', r. split_and!; [|constructor; [unfold is_digit; lia|done]|cbn [length]; lia].
    rewrite fmap_cons. cbn [app]. f_equal. lia.
  - injection H as <-. by exists [], c, s.
Qed.

(** Every byte of a block has a value; no sum of four overflows. *)
Lemma read_digits_some n m : ∀ p x, bytes_ok m → (n ≤ 4)%nat → 0 ≤ p → p + Z.of_nat n ≤ Z.of_nat (length m) →
  - 48 * (10 ^ Z.of_nat (4 - n) - 1) ≤ 9 * x ≤ 9 * 207 * (10 ^ Z.of_nat (4 - n) - 1) → ∃ y, read_digits n m p x = Val y.
Proof.
  induction n as [|n IH]; intros p x Hm Hn Hp Hl Hx; cbn [read_digits]; [by eexists|].
  destruct (m !! Z.to_nat p) as [c|] eqn:Hc; [|apply lookup_ge_None in Hc; lia].
  pose proof (Forall_lookup_1 _ _ _ _ Hm Hc) as Hb. unfold byte_ok in Hb.
  unfold byte_at. rewrite (proj2 (Z.leb_le _ _)) by lia. rewrite Hc. cbn [of_mem mbind_res].
  assert (10 ^ Z.of_nat (4 - n) = 10 * 10 ^ Z.of_nat (4 - S n)) as E10.
  { replace (4 - n)%nat with (S (4 - S n)) by lia. by rewrite Nat2Z.inj_succ, Z.pow_succ_r by lia. }
  assert (10 ^ Z.of_nat (4 - n) ≤ 10 ^ 4) by (apply Z.pow_le_mono_r; lia).
  assert (1 ≤ 10 ^ Z.of_nat (4 - S n)) by (pose proof (Z.pow_pos_nonneg 10 (Z.of_nat (4 - S n))); lia).
  rewrite int_ok_val by (unfold INT_MIN, INT_MAX; lia). cbn [mbind_res]. apply IH; try done; lia.
Qed.

Lemma ASN1ReadInt_some n m p np :
  bytes_ok m → (n ≤ 4)%nat → 0 ≤ p → p + Z.of_nat n ≤ Z.of_nat (length m) →
  ∃ y, ASN1ReadInt m p np n = Val (y, p + Z.of_nat n, u64 (np - Z.of_nat n)).
Proof.
  intros Hm Hn Hp Hl. unfold ASN1ReadInt. destruct (read_digits_some n m p 0) as [y ->]; [done..| |by exists y].
  assert (1 ≤ 10 ^ Z.of_nat (4 - n)) by (pose proof (Z.pow_pos_nonneg 10 (Z.of_nat (4 - n))); lia). lia.
Qed.

(** The code after the checks of the text. *)
Definition asn1_rest (s : list Z) (length : Z) (long_format : bool) : res Z :=
  let* '(year, p, bytes_left) := ASN1ReadInt s 0 length (if long_format then 4 else 2) in
  let year := if long_format then year - 1900 else if year <? 50 then year + 100 else year in
  let* '(mon, p, bytes_left) := ASN1ReadInt s p bytes_left 2 in
  let* '(mday, p, bytes_left) := ASN1ReadInt s p bytes_left 2 in
  let* '(hour, p, bytes_left) := ASN1ReadInt s p bytes_left 2 in
  let* '(min, p, bytes_left) := ASN1ReadInt s p bytes_left 2 in
  let* '(sec, p, bytes_left) := ASN1ReadInt s p bytes_left 2 in
  if negb (bytes_left =? 1) then Val (-1) else TmToSeconds (Tm sec min hour mday (mon - 1) year).

Definition asn1_digits (long_format : bool) : nat := if long_format then 14 else 12.

(** A text of another length is refused, given that the block is long enough. *)
Lemma asn1_rest_other s len long_format :
  bytes_ok s → 0 ≤ len < 2 ^ 64 → (asn1_digits long_format ≤ length s)%nat → len ≠ Z.of_nat (asn1_digits long_format) + 1 →
  asn1_rest s len long_format = Val (-1).
Proof.
  intros Hs Hl Hd Hne. unfold asn1_rest, asn1_digits in *.
  destruct (ASN1ReadInt_some (if long_format then 4 else 2) s 0 len) as [y ->]; [done|destruct long_format; lia..|]. cbn [mbind_res].
  do 5 (match goal with |- context [ASN1ReadInt s ?p ?np 2] => destruct (ASN1ReadInt_some 2 s p np) as [? ->];
    [done|lia|destruct long_format; lia..|]; cbn [mbind_res] end).
  rewrite (proj2 (Z.eqb_neq _ 1)); [done|]. unfold u64, uwrap. destruct long_format; div_solve.
Qed.

Lemma read_two s p np a b :
  byte_at s p = Val (48 + a) → byte_at s (p + 1) = Val (48 + b) → is_digit a → is_digit b →
  ASN1ReadInt s p np 2 = Val (two a b, p + 2, u64 (np - 2)).
Proof.
  intros Ha Hb Da Db. unfold is_digit in *. unfold ASN1ReadInt. cbn [read_digits]. rewrite Ha. cbn [mbind_res].
  rewrite int_ok_val by (unfold INT_MIN, INT_MAX; lia). cbn [mbind_res]. rewrite Hb. cbn [mbind_res].
  rewrite int_ok_val by (unfold INT_MIN, INT_MAX; lia). cbn [mbind_res]. unfold two. do 3 f_equal; lia.
Qed.

Lemma read_four s np a b c d :
  byte_at s 0 = Val (48 + a) → byte_at s 1 = Val (48 + b) → byte_at s 2 = Val (48 + c) → byte_at s 3 = Val (48 + d) →
  is_digit a → is_digit b → is_digit c → is_digit d →
  ASN1ReadInt s 0 np 4 = Val (100 * two a b + two c d, 4, u64 (np - 4)).
Proof.
  intros Ha Hb Hc Hd Da Db Dc Dd. unfold is_digit in *. unfold ASN1ReadInt. cbn [read_digits].
  rewrite Ha. cbn [mbind_res]. rewrite int_ok_val by (unfold INT_MIN, INT_MAX; lia). cbn [mbind_res].
  change (0 + 1) with 1. rewrite Hb. cbn [mbind_res]. rewrite int_ok_val by (unfold INT_MIN, INT_MAX; lia). cbn [mbind_res].
  change (1 + 1) with 2. rewrite Hc. cbn [mbind_res]. rewrite int_ok_val by (unfold INT_MIN, INT_MAX; lia). cbn [mbind_res].
  change (2 + 1) with 3. rewrite Hd. cbn [mbind_res]. rewrite int_ok_val by (unfold INT_MIN, INT_MAX; lia). cbn [mbind_res].
  unfold two. do 3 f_equal; lia.
Qed.

Lemma asn1_rest_exact long_format ds t r :
  Forall is_digit ds → asn1_fields long_format ds = Some t →
  asn1_rest (asn1_text ds ++ r) (Z.of_nat (asn1_digits long_format) + 1) long_format = TmToSeconds t.
Proof.
  intros Hd Ht. unfold asn1_fields in Ht. destruct long_format; repeat (destruct ds as [|? ds]; try discriminate Ht);
    injection Ht as <-; rewrite !Forall_cons in Hd; destruct Hd as (?&?&?&?&?&?&?&?&?&?&?&Hd); unfold asn1_rest, asn1_text;
    cbn [fmap list_fmap app asn1_digits].
  - destruct Hd as (?&?&?&_). erewrite read_four by (reflexivity || done). cbn [mbind_res].
    do 5 (erewrite read_two by (reflexivity || done); cbn [mbind_res]). reflexivity.
  - destruct Hd as (?&_). do 6 (erewrite read_two by (reflexivity || done); cbn [mbind_res]). reflexivity.
Qed.

Lemma asn1_fields_length long_format ds : length ds = asn1_digits long_format → is_Some (asn1_fields long_format ds).
Proof.
  unfold asn1_digits, asn1_fields. intros H.
  destruct long_format; repeat (destruct ds as [|? ds]; [discriminate H|]); destruct ds; done.
Qed.

Lemma ASN1TimeToSec_text (long_format : bool) ds r :
  Forall is_digit ds → ((if long_format then 11 else 9) ≤ length ds + 1)%nat →
  ASN1TimeToSec (asn1_text ds ++ r) (Z.of_nat (length ds) + 1) long_format
  = asn1_rest (asn1_text ds ++ r) (Z.of_nat (length ds) + 1) long_format.
Proof.
  intros Hd Hl. unfold ASN1TimeToSec. rewrite (proj2 (Z.eqb_neq _ 0)) by lia.
  assert (byte_at (asn1_text ds ++ r) (Z.of_nat (length ds) + 1 - 1) = Val 90) as ->.
  { rewrite Z.add_simpl_r. unfold asn1_text. rewrite <- app_assoc. cbn [app]. rewrite <- (length_fmap (λ d : Z, 48 + d) ds). apply byte_at_0. }
  cbn [mbind_res]. change (negb (90 =? 90)) with false. rewrite strspn_text by done. cbn [of_mem mbind_res].
  rewrite Z.eqb_refl. cbn [negb]. rewrite (proj2 (Z.ltb_ge _ _)) by (destruct long_format; lia). reflexivity.
Qed.

Lemma strspn_stops s i : s !! i = Some 90 → ∃ n, strspn_digits s = Some n.
Proof.
  revert i. induction s as [|c s IH]; intros i H; [done|]. cbn [strspn_digits].
  destruct ((48 <=? c) && (c <=? 57)) eqn:E; [|by eexists]. reflect_Z.
  destruct i as [|i]; [injection H as ->; lia|]. destruct (IH i H) as [n ->]. by eexists.
Qed.

Lemma asn1_refused long_format s len :
  bytes_ok s → 0 ≤ len ≤ Z.of_nat (length s) → len < 2 ^ 64 → (asn1_digits long_format ≤ length s)%nat →
  ¬ (∃ ds, Forall is_digit ds ∧ length ds = asn1_digits long_format ∧ take (Z.to_nat len) s = asn1_text ds) →
  ASN1TimeToSec s len long_format = Val (-1).
Proof.
  intros Hs Hl H64 Hd Hno. unfold ASN1TimeToSec. destruct (Z.eqb_spec len 0) as [|Hlen0]; [done|].
  destruct (s !! Z.to_nat (len - 1)) as [c|] eqn:Hc; [|apply lookup_ge_None in Hc; lia].
  unfold byte_at at 1. rewrite (proj2 (Z.leb_le _ _)), Hc by lia. cbn [of_mem mbind_res].
  destruct (Z.eqb_spec c 90) as [->|]; [|done]. cbn [negb]. destruct (strspn_stops _ _ Hc) as [n Hn]. rewrite Hn. cbn [of_mem mbind_res].
  destruct (Z.eqb_spec (n + 1) len) as [E|]; [|done]. cbn [negb].
  apply strspn_inv in Hn as (ds & c & r & Es & Hds & ->).
  assert (take (Z.to_nat len) s = asn1_text ds) as Ht.
  { rewrite Es in Hc |- *. replace (Z.to_nat (len - 1)) with (length ((λ d : Z, 48 + d) <$> ds)) in Hc by (rewrite length_fmap; lia).
    rewrite list_lookup_middle in Hc by done. injection Hc as ->. unfold asn1_text. rewrite (app_assoc _ [90] r).
    apply take_app_length'. rewrite length_app, length_fmap. simpl. lia. }
  destruct (Z.ltb_spec len (if long_format then 11 else 9)); [done|].
  apply (asn1_rest_other s len long_format); [done|lia|done|]. intros E'. apply Hno. exists ds. split_and!; [done|lia|done].
Qed.

(** The times of certificates are read as the calendar says. A text of
    the digits of a date and time and a [Z] (two digits of the year from 1950
    to 2049, or four) gives the seconds from 1970 by the Gregorian calendar if
    the date exists and is not before 1970, else -1; every other text gives -1.
    The block has to have the bytes of a full text, as the code reads that many
    in any case. *)
Theorem asn1_time_exact (long_format : bool) (s : list Z) (len : Z) :
  bytes_ok s → 0 ≤ len ≤ Z.of_nat (length s) → len < 2 ^ 64 → (asn1_digits long_format ≤ length s)%nat →
  (∀ ds t, Forall is_digit ds → asn1_fields long_format ds = Some t → take (Z.to_nat len) s = asn1_text ds →
     (tm_valid t → ASN1TimeToSec s len long_format = Val (calendar_seconds t)) ∧
     (¬ tm_valid t → ASN1TimeToSec s len long_format = Val (-1))) ∧
  (¬ (∃ ds, Forall is_digit ds ∧ length ds = asn1_digits long_format ∧ take (Z.to_nat len) s = asn1_text ds) →
     ASN1TimeToSec s len long_format = Val (-1)).
Proof.
  intros Hs Hl H64 Hd. split; [|by apply asn1_refused]. intros ds t Hds Ht E.
  assert (length ds = asn1_digits long_format) as El.
  { unfold asn1_fields in Ht. destruct long_format; repeat (destruct ds as [|? ds]; try discriminate Ht); reflexivity. }
  assert (len = Z.of_nat (length ds) + 1) as ->.
  { apply (f_equal length) in E. unfold asn1_text in E. rewrite length_take, length_app, length_fmap in E. simpl in E. lia. }
  rewrite <- (take_drop (Z.to_nat (Z.of_nat (length ds) + 1)) s), E.
  rewrite ASN1TimeToSec_text by (done || (rewrite El; destruct long_format; simpl; lia)).
  rewrite El, (asn1_rest_exact long_format ds t) by done.
  assert (-1900 ≤ tm_year t ≤ 9999 ∧ 0 ≤ tm_mday t ≤ 99) as [Hy Hm].
  { clear -Hds Ht. unfold asn1_fields in Ht. destruct long_format; repeat (destruct ds as [|? ds]; try discriminate Ht);
      injection Ht as <-; rewrite !Forall_cons in Hds; unfold is_digit, two in *; simpl; [lia|]. destruct (_ <? 50); lia. }
  split; [apply tm_to_seconds_valid|]. apply tm_to_seconds_rejects; unfold INT_MIN, INT_MAX; lia.
Qed.

Lemma asn1_time_exact_witness :
  ASN1TimeToSec (b#"240229123456Z") 13 false = Val 1709210096 ∧ ASN1TimeToSec (b#"20230229123456Z") 15 true = Val (-1) ∧
  ASN1TimeToSec (b#"2023022912345xZ") 15 true = Val (-1).
Proof.
  split_and!.
  - destruct (asn1_time_exact false (b#"240229123456Z") 13) as [H _];
      [by apply (bool_decide_unpack _); vm_compute|vm_compute; split; discriminate|reflexivity|vm_compute; lia|].
    destruct (H [2; 4; 0; 2; 2; 9; 1; 2; 3; 4; 5; 6] demo_tm) as [H' _];
      [repeat constructor; unfold is_digit; lia|reflexivity|reflexivity|].
    rewrite H'; [vm_compute; reflexivity|]. split; vm_compute; repeat split; discriminate.
  - destruct (asn1_time_exact true (b#"20230229123456Z") 15) as [H _];
      [by apply (bool_decide_unpack _); vm_compute|vm_compute; split; discriminate|reflexivity|vm_compute; lia|].
    destruct (H [2; 0; 2; 3; 0; 2; 2; 9; 1; 2; 3; 4; 5; 6] demo_tm_bad) as [_ H'];
      [repeat constructor; unfold is_digit; lia|reflexivity|reflexivity|].
    apply H'. intros [_ _ [_ Hd] _]. vm_compute in Hd. by apply Hd.
  - destruct (asn1_time_exact true (b#"2023022912345xZ") 15) as [_ H];
      [by apply (bool_decide_unpack _); vm_compute|vm_compute; split; discriminate|reflexivity|vm_compute; lia|].
    apply H. intros (ds & Hd & El & E). apply (f_equal (λ l : list Z, l !! 13%nat)) in E.
    unfold asn1_text in E. rewrite lookup_app_l, list_lookup_fmap in E by (rewrite length_fmap, El; simpl; lia).
    destruct (ds !! 13%nat) as [d|] eqn:Ed; [|discriminate E].
    pose proof (Forall_lookup_1 _ _ _ _ Hd Ed) as Hdig. unfold is_digit in Hdig.
    assert (120 = 48 + d) by (by injection E). lia.
Defined.
