(* ===== verification/SslStream.v ===== *)
(** * The TLS and DTLS stream (rtc_base/openssl_stream_adapter.h,
      openssl_stream_adapter.cc, ssl_stream_adapter.h, stream.h)

    [OpenSSLStreamAdapter] puts TLS or DTLS on top of a stream. The peer is
    accepted for a certificate whose digest was signaled before or will be
    later; until it is, nothing is read or written.

    OpenSSL is the class [OpenSSL]: what a call answers depends on the calls
    made so far. During a call OpenSSL may show the certificate of the peer to
    the callback of the adapter, whose verdict becomes part of the history. The
    program that uses the adapter is a function that says, for every signal,
    which functions of the adapter it calls before it returns ([client]); it
    is entered again for the signals these cause, to any depth.

    The build is the one with OpenSSL (not BoringSSL). *)

From S2P Require Import Prelude MessageDigest.

Inductive StreamState := SS_CLOSED | SS_OPENING | SS_OPEN.
Inductive StreamResult := SR_ERROR | SR_SUCCESS | SR_BLOCK | SR_EOS.
Definition SE_OPEN : Z := 1.
Definition SE_READ : Z := 2.
Definition SE_WRITE : Z := 4.
Definition SE_CLOSE : Z := 8.

Inductive SSLRole := SSL_CLIENT | SSL_SERVER.
Inductive SSLMode := SSL_MODE_TLS | SSL_MODE_DTLS.
Inductive SSLProtocolVersion :=
  | SSL_PROTOCOL_NOT_GIVEN
  | SSL_PROTOCOL_TLS_10
  | SSL_PROTOCOL_TLS_11
  | SSL_PROTOCOL_TLS_12.
Definition SSL_PROTOCOL_DTLS_10 : SSLProtocolVersion := SSL_PROTOCOL_TLS_11.
Definition SSL_PROTOCOL_DTLS_12 : SSLProtocolVersion := SSL_PROTOCOL_TLS_12.
Inductive SSLState := SSL_NONE | SSL_WAIT | SSL_CONNECTING | SSL_CONNECTED | SSL_ERROR | SSL_CLOSED.
Inductive SSLPeerCertificateDigestError := DE_NONE | UNKNOWN_ALGORITHM | INVALID_LENGTH | VERIFICATION_FAILED.
Inductive SSLHandshakeError := UNKNOWN | INCOMPATIBLE_CIPHERSUITE | MAX_VALUE.
Definition SSE_MSG_TRUNC : Z := 0xff0001.

#[global] Instance StreamState_eq_dec : EqDecision StreamState.
Proof. solve_decision. Defined.
#[global] Instance SSLRole_eq_dec : EqDecision SSLRole.
Proof. solve_decision. Defined.
#[global] Instance SSLMode_eq_dec : EqDecision SSLMode.
Proof. solve_decision. Defined.
#[global] Instance SSLState_eq_dec : EqDecision SSLState.
Proof. solve_decision. Defined.

(** ** OpenSSL *)

Definition SSL_ERROR_NONE : Z := 0.
Definition SSL_ERROR_WANT_READ : Z := 2.
Definition SSL_ERROR_WANT_WRITE : Z := 3.
Definition SSL_ERROR_ZERO_RETURN : Z := 6.

Definition SSL_AD_BAD_CERTIFICATE : Z := 42.

(** The protocol versions of a context, as OpenSSL numbers them. *)
Definition TLS1_VERSION : Z := 0x0301.
Definition TLS1_1_VERSION : Z := 0x0302.
Definition TLS1_2_VERSION : Z := 0x0303.
Definition DTLS1_VERSION : Z := 0xFEFF.
Definition DTLS1_2_VERSION : Z := 0xFEFD.

(** How a context is set up. *)
Record ctx_config := Ctx {
  ctx_mode : SSLMode;
  ctx_min : Z;
  ctx_max : Z;
  fail_if_no_peer_cert : bool
}.

Inductive ssl_event :=
  | ECtxNew (c : ctx_config)
  | ESslNew
  | EConnect
  | EAccept
  | ERead (n : Z)
  | EWrite (data : list Z)
  | EShutdown
  | EHandleTimeout
  | EVerdict (ok : bool).         (* what the callback said of the certificate *)

#[global] Instance ctx_config_eq_dec : EqDecision ctx_config.
Proof. solve_decision. Defined.
#[global] Instance ssl_event_eq_dec : EqDecision ssl_event.
Proof. solve_decision. Defined.

(** The last element of the history is the call that is asked about. *)
Class OpenSSL := {
  CTX_new_ok : list ssl_event → bool;                 (* [SSL_CTX_new] *)
  configure_identity_ok : list ssl_event → bool;      (* [identity_->ConfigureIdentity] *)
  use_srtp : list ssl_event → Z;                      (* [SSL_CTX_set_tlsext_use_srtp], 0 when it worked *)
  BIO_new_ok : list ssl_event → bool;
  SSL_new_ok : list ssl_event → bool;
  shown_cert : list ssl_event → option (list Z);      (* the certificate shown to the callback *)
  get_error : list ssl_event → Z;                     (* [SSL_get_error] *)
  read_bytes : list ssl_event → list Z;               (* what [SSL_read] put into the buffer *)
  write_code : list ssl_event → Z;                    (* what [SSL_write] returned *)
  pending : list ssl_event → Z;                       (* [SSL_pending] *)
  dtls_timeout : list ssl_event → option (Z * Z);     (* [DTLSv1_get_timeout]: seconds and microseconds *)
  no_shared_cipher : list ssl_event → bool            (* the reason of the last error *)
}.

(** What the adapter relies on. *)
Class OpenSSLLaws `{OpenSSL} := {
  (** a connection whose certificate was rejected does not succeed; *)
  rejected_fails h : EVerdict false ∈ h → get_error h ≠ SSL_ERROR_NONE;
  (** with [SSL_VERIFY_FAIL_IF_NO_PEER_CERT] a handshake succeeds after a
      certificate was shown only; *)
  cert_required h c : ECtxNew c ∈ h → fail_if_no_peer_cert c = true → get_error h = SSL_ERROR_NONE → ∃ ok, EVerdict ok ∈ h;
  (** a read that works has at least one byte and no more than asked for; *)
  read_some h n v : (v = [] ∨ ∃ ok, v = [EVerdict ok]) → get_error (h ++ ERead n :: v) = SSL_ERROR_NONE →
    0 < Z.of_nat (length (read_bytes (h ++ ERead n :: v))) ≤ n;
  (** so has a write; *)
  write_some h d v : (v = [] ∨ ∃ ok, v = [EVerdict ok]) → get_error (h ++ EWrite d :: v) = SSL_ERROR_NONE →
    0 < write_code (h ++ EWrite d :: v) ≤ Z.of_nat (length d);
  (** bytes that are pending can be read at once. *)
  pending_range h : 0 ≤ pending h < 2 ^ 32;
  pending_read h n : 0 < n ≤ pending h →
    shown_cert (h ++ [ERead n]) = None ∧ get_error (h ++ [ERead n]) = SSL_ERROR_NONE ∧
    pending (h ++ [ERead n]) = pending h - Z.of_nat (length (read_bytes (h ++ [ERead n])));
  timeout_range h s us : dtls_timeout h = Some (s, us) → 0 ≤ s < 10 ^ 6 ∧ 0 ≤ us < 10 ^ 6
}.

(** ** The adapter *)

Record peer_state := Peer {
  peer_cert_chain_ : option (list (list Z));
  peer_certificate_verified_ : bool;
  peer_certificate_digest_value_ : list Z;
  peer_certificate_digest_algorithm_ : list Z
}.

Record settings := Settings {
  role_ : SSLRole;
  ssl_mode_ : SSLMode;
  ssl_max_version_ : SSLProtocolVersion;
  dtls_handshake_timeout_ms_ : Z;
  support_legacy_tls_protocols_flag_ : bool;
  client_auth_enabled_ : bool;
  srtp_ciphers_ : list Z
}.

Inductive signal := SignalEvent (events err : Z) | SignalSSLHandshakeError (e : SSLHandshakeError).

(** Data of the program that went through TLS: the bytes, whether the peer had
    to be authenticated, and what was known of the peer. *)
Record transfer := Transfer { t_bytes : list Z; t_auth : bool; t_peer : peer_state }.

Record history := Hist {
  calls : list ssl_event;
  signaled : list signal;
  posted : list (Z * Z);                  (* the events posted to the owner *)
  received : list transfer;
  sent : list transfer
}.

Record adapter := Adapter {
  state_ : SSLState;
  ssl_error_code_ : Z;
  ssl_read_needs_write_ : bool;
  ssl_write_needs_read_ : bool;
  ssl_ : bool;                            (* not null *)
  ssl_ctx_ : bool;                        (* not null *)
  identity_ : bool;                       (* not null *)
  timeout_task_ : option Z;               (* the delay of the task, when it runs *)
  stream_state : StreamState;             (* [stream_->GetState()] *)
  conf : settings;
  peer : peer_state;
  hist : history
}.

Definition set_state (s : SSLState) (a : adapter) : adapter :=
  Adapter s (ssl_error_code_ a) (ssl_read_needs_write_ a) (ssl_write_needs_read_ a) (ssl_ a) (ssl_ctx_ a) (identity_ a)
    (timeout_task_ a) (stream_state a) (conf a) (peer a) (hist a).
Definition set_error_code (e : Z) (a : adapter) : adapter :=
  Adapter (state_ a) e (ssl_read_needs_write_ a) (ssl_write_needs_read_ a) (ssl_ a) (ssl_ctx_ a) (identity_ a)
    (timeout_task_ a) (stream_state a) (conf a) (peer a) (hist a).
Definition set_read_needs_write (b : bool) (a : adapter) : adapter :=
  Adapter (state_ a) (ssl_error_code_ a) b (ssl_write_needs_read_ a) (ssl_ a) (ssl_ctx_ a) (identity_ a)
    (timeout_task_ a) (stream_state a) (conf a) (peer a) (hist a).
Definition set_write_needs_read (b : bool) (a : adapter) : adapter :=
  Adapter (state_ a) (ssl_error_code_ a) (ssl_read_needs_write_ a) b (ssl_ a) (ssl_ctx_ a) (identity_ a)
    (timeout_task_ a) (stream_state a) (conf a) (peer a) (hist a).
Definition set_ssl (s c : bool) (a : adapter) : adapter :=
  Adapter (state_ a) (ssl_error_code_ a) (ssl_read_needs_write_ a) (ssl_write_needs_read_ a) s c (identity_ a)
    (timeout_task_ a) (stream_state a) (conf a) (peer a) (hist a).
Definition set_identity (i : bool) (a : adapter) : adapter :=
  Adapter (state_ a) (ssl_error_code_ a) (ssl_read_needs_write_ a) (ssl_write_needs_read_ a) (ssl_ a) (ssl_ctx_ a) i
    (timeout_task_ a) (stream_state a) (conf a) (peer a) (hist a).
Definition set_timer (t : option Z) (a : adapter) : adapter :=
  Adapter (state_ a) (ssl_error_code_ a) (ssl_read_needs_write_ a) (ssl_write_needs_read_ a) (ssl_ a) (ssl_ctx_ a) (identity_ a)
    t (stream_state a) (conf a) (peer a) (hist a).
Definition set_stream (s : StreamState) (a : adapter) : adapter :=
  Adapter (state_ a) (ssl_error_code_ a) (ssl_read_needs_write_ a) (ssl_write_needs_read_ a) (ssl_ a) (ssl_ctx_ a) (identity_ a)
    (timeout_task_ a) s (conf a) (peer a) (hist a).
Definition set_conf (c : settings) (a : adapter) : adapter :=
  Adapter (state_ a) (ssl_error_code_ a) (ssl_read_needs_write_ a) (ssl_write_needs_read_ a) (ssl_ a) (ssl_ctx_ a) (identity_ a)
    (timeout_task_ a) (stream_state a) c (peer a) (hist a).
Definition set_peer (p : peer_state) (a : adapter) : adapter :=
  Adapter (state_ a) (ssl_error_code_ a) (ssl_read_needs_write_ a) (ssl_write_needs_read_ a) (ssl_ a) (ssl_ctx_ a) (identity_ a)
    (timeout_task_ a) (stream_state a) (conf a) p (hist a).
Definition set_hist (h : history) (a : adapter) : adapter :=
  Adapter (state_ a) (ssl_error_code_ a) (ssl_read_needs_write_ a) (ssl_write_needs_read_ a) (ssl_ a) (ssl_ctx_ a) (identity_ a)
    (timeout_task_ a) (stream_state a) (conf a) (peer a) h.

Definition log_call (e : ssl_event) (a : adapter) : adapter :=
  let h := hist a in set_hist (Hist (calls h ++ [e]) (signaled h) (posted h) (received h) (sent h)) a.
Definition log_signal (s : signal) (a : adapter) : adapter :=
  let h := hist a in set_hist (Hist (calls h) (signaled h ++ [s]) (posted h) (received h) (sent h)) a.
Definition log_received (bs : list Z) (a : adapter) : adapter :=
  let h := hist a in
  set_hist (Hist (calls h) (signaled h) (posted h) (received h ++ [Transfer bs (client_auth_enabled_ (conf a)) (peer a)]) (sent h)) a.
Definition log_sent (bs : list Z) (a : adapter) : adapter :=
  let h := hist a in
  set_hist (Hist (calls h) (signaled h) (posted h) (received h) (sent h ++ [Transfer bs (client_auth_enabled_ (conf a)) (peer a)])) a.

Definition set_chain (c : option (list (list Z))) (a : adapter) : adapter :=
  let p := peer a in
  set_peer (Peer c (peer_certificate_verified_ p) (peer_certificate_digest_value_ p) (peer_certificate_digest_algorithm_ p)) a.
Definition set_verified (a : adapter) : adapter :=
  let p := peer a in
  set_peer (Peer (peer_cert_chain_ p) true (peer_certificate_digest_value_ p) (peer_certificate_digest_algorithm_ p)) a.
Definition set_digest (alg value : list Z) (a : adapter) : adapter :=
  let p := peer a in set_peer (Peer (peer_cert_chain_ p) (peer_certificate_verified_ p) value alg) a.

(** The constructor; the legacy flag is decided elsewhere. It leaves
    [ssl_error_code_] as it is; the code is read in states that set it only. *)
Definition OpenSSLStreamAdapter_new (legacy : bool) (stream : StreamState) : adapter :=
  Adapter SSL_NONE 0 false false false false false None stream
    (Settings SSL_CLIENT SSL_MODE_TLS SSL_PROTOCOL_TLS_12 50 legacy true [])
    (Peer None false [] []) (Hist [] [] [] [] []).

Section Ops.
Context {E : EVP} {L : OpenSSL} (RTC_DCHECK_IS_ON : bool).
(** What the slots connected to the signals of the adapter do. *)
Context (slots : signal → adapter → res adapter).

Notation dcheck := (MessageDigest.dcheck RTC_DCHECK_IS_ON).

Definition emit (s : signal) (a : adapter) : res adapter := slots s (log_signal s a).

Definition GetClientAuthEnabled (a : adapter) : bool := client_auth_enabled_ (conf a).

Definition WaitingToVerifyPeerCertificate (a : adapter) : bool :=
  GetClientAuthEnabled a && negb (peer_certificate_verified_ (peer a)).

Definition HasPeerCertificateDigest (a : adapter) : bool :=
  negb (bool_decide (peer_certificate_digest_algorithm_ (peer a) = [])) &&
  negb (bool_decide (peer_certificate_digest_value_ (peer a) = [])).

(** ** Verification *)

Definition VerifyPeerCertificate (a : adapter) : res (bool * adapter) :=
  match HasPeerCertificateDigest a, peer_cert_chain_ (peer a) with
  | true, Some (cert :: _) =>
      let* r := cert_ComputeDigest RTC_DCHECK_IS_ON cert (peer_certificate_digest_algorithm_ (peer a)) (new_chars 64) 64 in
      match r with
      | None => Val (false, a)
      | Some (digest_length, digest) =>
          let* d := of_mem (mread digest 0 digest_length) in
          let* computed_digest := values d in
          if negb (bool_decide (computed_digest = peer_certificate_digest_value_ (peer a))) then Val (false, a)
          else Val (true, set_verified a)
      end
  | _, _ => Val (false, a)
  end.

Definition SSLVerifyCallback (cert : list Z) (a : adapter) : res (bool * adapter) :=
  let a := set_chain (Some [cert]) a in
  if bool_decide (peer_certificate_digest_algorithm_ (peer a) = []) then Val (true, a) else VerifyPeerCertificate a.

(** A call of OpenSSL with the session [ssl_]: the callback runs if the call
    shows a certificate; the answer of [SSL_get_error]. *)
Definition ssl_call (e : ssl_event) (a : adapter) : res (Z * adapter) :=
  if negb (ssl_ a) then Undef
  else
    let a := log_call e a in
    let* a := match shown_cert (calls (hist a)) with
              | None => Val a
              | Some cert => let* '(ok, a) := SSLVerifyCallback cert a in Val (log_call (EVerdict ok) a)
              end in
    Val (get_error (calls (hist a)), a).

(** ** Ending *)

Definition Cleanup (alert : Z) (a : adapter) : adapter :=
  let a := if bool_decide (state_ a = SSL_ERROR) then a else set_error_code 0 (set_state SSL_CLOSED a) in
  let a := if ssl_ a then set_ssl false (ssl_ctx_ a) (log_call EShutdown a) else a in
  let a := if ssl_ctx_ a then set_ssl (ssl_ a) false a else a in
  let a := set_identity false a in
  let a := set_chain None a in
  set_timer None a.

Definition Error (err alert : Z) (signal : bool) (a : adapter) : res adapter :=
  let a := set_error_code err (set_state SSL_ERROR a) in
  let a := Cleanup alert a in
  if signal then emit (SignalEvent SE_CLOSE err) a else Val a.

Definition Close (a : adapter) : res adapter :=
  let a := Cleanup 0 a in
  let* _ := dcheck (bool_decide (state_ a = SSL_CLOSED) || bool_decide (state_ a = SSL_ERROR)) in
  Val (set_stream SS_CLOSED a).

(** ** The handshake *)

(** The versions of a context. *)
Definition min_version (c : settings) : Z :=
  if support_legacy_tls_protocols_flag_ c
  then match ssl_mode_ c with SSL_MODE_DTLS => DTLS1_VERSION | SSL_MODE_TLS => TLS1_VERSION end
  else match ssl_mode_ c with SSL_MODE_DTLS => DTLS1_2_VERSION | SSL_MODE_TLS => TLS1_2_VERSION end.

Definition max_version (c : settings) : Z :=
  if support_legacy_tls_protocols_flag_ c
  then match ssl_max_version_ c with
       | SSL_PROTOCOL_TLS_10 => match ssl_mode_ c with SSL_MODE_DTLS => DTLS1_VERSION | SSL_MODE_TLS => TLS1_VERSION end
       | SSL_PROTOCOL_TLS_11 => match ssl_mode_ c with SSL_MODE_DTLS => DTLS1_VERSION | SSL_MODE_TLS => TLS1_1_VERSION end
       | _ => match ssl_mode_ c with SSL_MODE_DTLS => DTLS1_2_VERSION | SSL_MODE_TLS => TLS1_2_VERSION end
       end
  else match ssl_mode_ c with SSL_MODE_DTLS => DTLS1_2_VERSION | SSL_MODE_TLS => TLS1_2_VERSION end.

Definition SetupSSLContext (a : adapter) : bool * adapter :=
  let c := conf a in
  let a := log_call (ECtxNew (Ctx (ssl_mode_ c) (min_version c) (max_version c) (GetClientAuthEnabled a))) a in
  if negb (CTX_new_ok (calls (hist a))) then (false, a)
  else if identity_ a && negb (configure_identity_ok (calls (hist a))) then (false, a)
  else if negb (bool_decide (srtp_ciphers_ c = [])) && negb (use_srtp (calls (hist a)) =? 0) then (false, a)
  else (true, a).

Definition SetTimeout (delay_ms : Z) (a : adapter) : res adapter :=
  let* _ := dcheck (0 <=? delay_ms) in
  let* _ := dcheck (bool_decide (timeout_task_ a = None)) in
  Val (set_timer (Some delay_ms) a).

(** The return value, 0 when it worked. *)
Definition ContinueSSL (a : adapter) : res (Z * adapter) :=
  let* _ := dcheck (bool_decide (state_ a = SSL_CONNECTING)) in
  let a := set_timer None a in
  let* '(ssl_error, a) := ssl_call (match role_ (conf a) with SSL_CLIENT => EConnect | SSL_SERVER => EAccept end) a in
  if ssl_error =? SSL_ERROR_NONE then
    let* _ := dcheck (negb (bool_decide (peer_cert_chain_ (peer a) = None)) || negb (GetClientAuthEnabled a)) in
    let a := set_state SSL_CONNECTED a in
    if negb (WaitingToVerifyPeerCertificate a)
    then let* a := emit (SignalEvent (Z.lor (Z.lor SE_OPEN SE_READ) SE_WRITE) 0) a in Val (0, a)
    else Val (0, a)
  else if ssl_error =? SSL_ERROR_WANT_READ then
    match dtls_timeout (calls (hist a)) with
    | Some (sec, usec) => let* a := SetTimeout (s32 (sec * 1000 + usec ÷ 1000)) a in Val (0, a)
    | None => Val (0, a)
    end
  else if ssl_error =? SSL_ERROR_WANT_WRITE then Val (0, a)
  else
    let ssl_handshake_err := if no_shared_cipher (calls (hist a)) then INCOMPATIBLE_CIPHERSUITE else UNKNOWN in
    let* a := emit (SignalSSLHandshakeError ssl_handshake_err) a in
    Val (if negb (ssl_error =? 0) then ssl_error else -1, a).

Definition BeginSSL (a : adapter) : res (Z * adapter) :=
  let* _ := dcheck (bool_decide (state_ a = SSL_CONNECTING)) in
  let* _ := dcheck (negb (ssl_ctx_ a)) in
  let '(ok, a) := SetupSSLContext a in
  let a := set_ssl (ssl_ a) ok a in
  if negb ok then Val (-1, a)
  else if negb (BIO_new_ok (calls (hist a))) then Val (-1, a)
  else
    let a := log_call ESslNew a in
    if negb (SSL_new_ok (calls (hist a))) then Val (-1, set_ssl false (ssl_ctx_ a) a)
    else ContinueSSL (set_ssl true (ssl_ctx_ a) a).

Definition StartSSL (a : adapter) : res (Z * adapter) :=
  if negb (bool_decide (state_ a = SSL_NONE)) then Val (-1, a)
  else if negb (bool_decide (stream_state a = SS_OPEN)) then Val (0, set_state SSL_WAIT a)
  else
    let a := set_state SSL_CONNECTING a in
    let* '(err, a) := BeginSSL a in
    if negb (err =? 0) then let* a := Error err 0 false a in Val (err, a) else Val (0, a).

(** The lambda of [SetTimeout], when the task runs. *)
Definition OnTimeout (a : adapter) : res adapter :=
  match timeout_task_ a with
  | None => Val a
  | Some _ =>
      let a := set_timer None a in
      if negb (ssl_ a) then Undef
      else
        let a := log_call EHandleTimeout a in
        let* '(_, a) := ContinueSSL a in
        Val a
  end.

(** ** Data *)

(** What [Read] and [Write] return: the result, the bytes read (or the number
    written) and the error, when they are set. *)
Record io_result := IO { io_sr : StreamResult; io_bytes : list Z; io_count : option Z; io_error : option Z }.

(** [checked_cast<int>(data_len)] *)
Definition INT_LIMIT : Z := 2147483647.
Definition cast_int (n : Z) : res Z := if n <=? INT_LIMIT then Val n else Aborted.

(** [under] is what the stream below answers when it is asked. *)
Definition Write (data : list Z) (under : io_result) (a : adapter) : res (io_result * adapter) :=
  let data_len := Z.of_nat (length data) in
  let through :=
    if data_len =? 0 then Val (IO SR_SUCCESS [] (Some 0) None, a)
    else
      let a := set_write_needs_read false a in
      let* _ := cast_int data_len in
      let* '(ssl_error, a) := ssl_call (EWrite data) a in
      let code := write_code (calls (hist a)) in
      if ssl_error =? SSL_ERROR_NONE then
        let* _ := dcheck (0 <? code) in
        let* _ := dcheck (code <=? data_len) in
        Val (IO SR_SUCCESS [] (Some code) None, log_sent (take (Z.to_nat code) data) a)
      else if ssl_error =? SSL_ERROR_WANT_READ then Val (IO SR_BLOCK [] None None, set_write_needs_read true a)
      else if ssl_error =? SSL_ERROR_WANT_WRITE then Val (IO SR_BLOCK [] None None, a)
      else
        let* a := Error (if negb (ssl_error =? 0) then ssl_error else -1) 0 false a in
        Val (IO SR_ERROR [] None (Some (ssl_error_code_ a)), a) in
  match state_ a with
  | SSL_NONE => Val (under, a)
  | SSL_WAIT | SSL_CONNECTING => Val (IO SR_BLOCK [] None None, a)
  | SSL_CONNECTED => if WaitingToVerifyPeerCertificate a then Val (IO SR_BLOCK [] None None, a) else through
  | SSL_ERROR | SSL_CLOSED => Val (IO SR_ERROR [] None (Some (ssl_error_code_ a)), a)
  end.

(** One turn reads up to 2048 bytes; no result when the fuel runs out. *)
Fixpoint FlushInput (fuel : nat) (left : Z) (a : adapter) : res adapter :=
  if left =? 0 then Val a
  else
    match fuel with
    | O => Undef
    | S fuel =>
        let toread := if 2048 <? left then 2048 else left in
        let* '(ssl_error, a) := ssl_call (ERead toread) a in
        let code := Z.of_nat (length (read_bytes (calls (hist a)))) in
        let* _ := dcheck (ssl_error =? SSL_ERROR_NONE) in
        if negb (ssl_error =? SSL_ERROR_NONE) then Error (if negb (ssl_error =? 0) then ssl_error else -1) 0 false a
        else FlushInput fuel (u32 (left - code)) a
    end.

Definition Read (data_len : Z) (under : io_result) (a : adapter) : res (io_result * adapter) :=
  let through :=
    if data_len =? 0 then Val (IO SR_SUCCESS [] (Some 0) None, a)
    else
      let a := set_read_needs_write false a in
      let* _ := cast_int data_len in
      let* '(ssl_error, a) := ssl_call (ERead data_len) a in
      let bytes := read_bytes (calls (hist a)) in
      let code := Z.of_nat (length bytes) in
      if ssl_error =? SSL_ERROR_NONE then
        let* _ := dcheck (0 <? code) in
        let* _ := dcheck (code <=? data_len) in
        let a := log_received bytes a in
        match ssl_mode_ (conf a) with
        | SSL_MODE_DTLS =>
            let p := pending (calls (hist a)) in
            if negb (p =? 0) then
              let* a := FlushInput (Z.to_nat p) p a in
              Val (IO SR_ERROR bytes (Some code) (Some SSE_MSG_TRUNC), a)
            else Val (IO SR_SUCCESS bytes (Some code) None, a)
        | SSL_MODE_TLS => Val (IO SR_SUCCESS bytes (Some code) None, a)
        end
      else if ssl_error =? SSL_ERROR_WANT_READ then Val (IO SR_BLOCK [] None None, a)
      else if ssl_error =? SSL_ERROR_WANT_WRITE then Val (IO SR_BLOCK [] None None, set_read_needs_write true a)
      else if ssl_error =? SSL_ERROR_ZERO_RETURN then let* a := Close a in Val (IO SR_EOS [] None None, a)
      else
        let* a := Error (if negb (ssl_error =? 0) then ssl_error else -1) 0 false a in
        Val (IO SR_ERROR [] None (Some (ssl_error_code_ a)), a) in
  match state_ a with
  | SSL_NONE => Val (under, a)
  | SSL_WAIT | SSL_CONNECTING => Val (IO SR_BLOCK [] None None, a)
  | SSL_CONNECTED => if WaitingToVerifyPeerCertificate a then Val (IO SR_BLOCK [] None None, a) else through
  | SSL_CLOSED => Val (IO SR_EOS [] None None, a)
  | SSL_ERROR => Val (IO SR_ERROR [] None (Some (ssl_error_code_ a)), a)
  end.

Definition GetState (a : adapter) : StreamState :=
  match state_ a with
  | SSL_WAIT | SSL_CONNECTING => SS_OPENING
  | SSL_CONNECTED => if WaitingToVerifyPeerCertificate a then SS_OPENING else SS_OPEN
  | _ => SS_CLOSED
  end.

(** ** Events of the stream below *)

Definition has (events flags : Z) : bool := negb (Z.land events flags =? 0).

(** [None] when an error ended the function. *)
Definition on_open (events : Z) (a : adapter) : res (option Z * adapter) :=
  if has events SE_OPEN then
    if negb (bool_decide (state_ a = SSL_WAIT)) then
      let* _ := dcheck (bool_decide (state_ a = SSL_NONE)) in Val (Some SE_OPEN, a)
    else
      let a := set_state SSL_CONNECTING a in
      let* '(err, a) := BeginSSL a in
      if negb (err =? 0) then let* a := Error err 0 true a in Val (None, a) else Val (Some 0, a)
  else Val (Some 0, a).

Definition on_read_write (events : Z) (a : adapter) : res (option Z * adapter) :=
  if has events (Z.lor SE_READ SE_WRITE) then
    match state_ a with
    | SSL_NONE => Val (Some (Z.land events (Z.lor SE_READ SE_WRITE)), a)
    | SSL_CONNECTING =>
        let* '(err, a) := ContinueSSL a in
        if negb (err =? 0) then let* a := Error err 0 true a in Val (None, a) else Val (Some 0, a)
    | SSL_CONNECTED =>
        let w := if (has events SE_READ && ssl_write_needs_read_ a) || has events SE_WRITE then SE_WRITE else 0 in
        let r := if (has events SE_WRITE && ssl_read_needs_write_ a) || has events SE_READ then SE_READ else 0 in
        Val (Some (Z.lor w r), a)
    | _ => Val (Some 0, a)
    end
  else Val (Some 0, a).

Definition OnEvent (events err : Z) (a : adapter) : res adapter :=
  let* '(r1, a) := on_open events a in
  match r1 with
  | None => Val a
  | Some e1 =>
      let* '(r2, a) := on_read_write events a in
      match r2 with
      | None => Val a
      | Some e2 =>
          let events_to_signal := Z.lor e1 e2 in
          let '(events_to_signal, signal_error, a) :=
            if has events SE_CLOSE then (Z.lor events_to_signal SE_CLOSE, err, Cleanup 0 a) else (events_to_signal, 0, a) in
          if negb (events_to_signal =? 0) then emit (SignalEvent events_to_signal signal_error) a else Val a
      end
  end.

(** ** Settings *)

Definition SetPeerCertificateDigest (digest_alg digest_val : list Z) (a : adapter)
    : res (bool * SSLPeerCertificateDigestError * adapter) :=
  let* _ := dcheck (negb (peer_certificate_verified_ (peer a))) in
  let* _ := dcheck (negb (HasPeerCertificateDigest a)) in
  let* expected_len := GetDigestSize RTC_DCHECK_IS_ON digest_alg in
  match expected_len with
  | None => Val (false, UNKNOWN_ALGORITHM, a)
  | Some expected_len =>
      if negb (expected_len =? Z.of_nat (length digest_val)) then Val (false, INVALID_LENGTH, a)
      else
        let a := set_digest digest_alg digest_val a in
        match peer_cert_chain_ (peer a) with
        | None => Val (true, DE_NONE, a)
        | Some _ =>
            let* '(ok, a) := VerifyPeerCertificate a in
            if negb ok then let* a := Error (-1) SSL_AD_BAD_CERTIFICATE false a in Val (false, VERIFICATION_FAILED, a)
            else if bool_decide (state_ a = SSL_CONNECTED) then
              let h := hist a in
              let a := set_hist (Hist (calls h) (signaled h) (posted h ++ [(Z.lor (Z.lor SE_OPEN SE_READ) SE_WRITE, 0)]) (received h) (sent h)) a in
              Val (true, DE_NONE, a)
            else Val (true, DE_NONE, a)
        end
  end.

(** The owner runs the first task that [PostEvent] gave it. *)
Definition RunPosted (a : adapter) : res adapter :=
  let h := hist a in
  match posted h with
  | [] => Val a
  | (events, err) :: rest => emit (SignalEvent events err) (set_hist (Hist (calls h) (signaled h) rest (received h) (sent h)) a)
  end.

(** [identity] is false for a null pointer. *)
Definition SetIdentity (identity : bool) (a : adapter) : res adapter :=
  let* _ := dcheck (negb (identity_ a)) in Val (set_identity identity a).

Definition SetServerRole (role : SSLRole) (a : adapter) : adapter :=
  let c := conf a in
  set_conf (Settings role (ssl_mode_ c) (ssl_max_version_ c) (dtls_handshake_timeout_ms_ c)
    (support_legacy_tls_protocols_flag_ c) (client_auth_enabled_ c) (srtp_ciphers_ c)) a.

Definition SetMode (mode : SSLMode) (a : adapter) : res adapter :=
  let* _ := dcheck (bool_decide (state_ a = SSL_NONE)) in
  let c := conf a in
  Val (set_conf (Settings (role_ c) mode (ssl_max_version_ c) (dtls_handshake_timeout_ms_ c)
    (support_legacy_tls_protocols_flag_ c) (client_auth_enabled_ c) (srtp_ciphers_ c)) a).

Definition SetMaxProtocolVersion (version : SSLProtocolVersion) (a : adapter) : res adapter :=
  let* _ := dcheck (negb (ssl_ctx_ a)) in
  let c := conf a in
  Val (set_conf (Settings (role_ c) (ssl_mode_ c) version (dtls_handshake_timeout_ms_ c)
    (support_legacy_tls_protocols_flag_ c) (client_auth_enabled_ c) (srtp_ciphers_ c)) a).

Definition SetInitialRetransmissionTimeout (timeout_ms : Z) (a : adapter) : res adapter :=
  let* _ := dcheck (negb (ssl_ctx_ a)) in
  let c := conf a in
  Val (set_conf (Settings (role_ c) (ssl_mode_ c) (ssl_max_version_ c) timeout_ms
    (support_legacy_tls_protocols_flag_ c) (client_auth_enabled_ c) (srtp_ciphers_ c)) a).

Definition SetClientAuthEnabledForTesting (enabled : bool) (a : adapter) : adapter :=
  let c := conf a in
  set_conf (Settings (role_ c) (ssl_mode_ c) (ssl_max_version_ c) (dtls_handshake_timeout_ms_ c)
    (support_legacy_tls_protocols_flag_ c) enabled (srtp_ciphers_ c)) a.

Definition IsTlsConnected (a : adapter) : bool := bool_decide (state_ a = SSL_CONNECTED).

(** ** The suites of SRTP *)

Definition kSrtpInvalidCryptoSuite : Z := 0.
Definition kSrtpAes128CmSha1_80 : Z := 0x0001.
Definition kSrtpAes128CmSha1_32 : Z := 0x0002.
Definition kSrtpAeadAes128Gcm : Z := 0x0007.
Definition kSrtpAeadAes256Gcm : Z := 0x0008.
Definition kCsAesCm128HmacSha1_80 : list Z := b#"AES_CM_128_HMAC_SHA1_80".
Definition kCsAesCm128HmacSha1_32 : list Z := b#"AES_CM_128_HMAC_SHA1_32".
Definition kCsAeadAes128Gcm : list Z := b#"AEAD_AES_128_GCM".
Definition kCsAeadAes256Gcm : list Z := b#"AEAD_AES_256_GCM".

Definition SrtpCryptoSuiteToName (crypto_suite : Z) : list Z :=
  if crypto_suite =? kSrtpAes128CmSha1_32 then kCsAesCm128HmacSha1_32
  else if crypto_suite =? kSrtpAes128CmSha1_80 then kCsAesCm128HmacSha1_80
  else if crypto_suite =? kSrtpAeadAes128Gcm then kCsAeadAes128Gcm
  else if crypto_suite =? kSrtpAeadAes256Gcm then kCsAeadAes256Gcm
  else [].

Definition SrtpCryptoSuiteFromName (crypto_suite : list Z) : Z :=
  if bool_decide (crypto_suite = kCsAesCm128HmacSha1_32) then kSrtpAes128CmSha1_32
  else if bool_decide (crypto_suite = kCsAesCm128HmacSha1_80) then kSrtpAes128CmSha1_80
  else if bool_decide (crypto_suite = kCsAeadAes128Gcm) then kSrtpAeadAes128Gcm
  else if bool_decide (crypto_suite = kCsAeadAes256Gcm) then kSrtpAeadAes256Gcm
  else kSrtpInvalidCryptoSuite.

(** The lengths of the key and of the salt. *)
Definition GetSrtpKeyAndSaltLengths (crypto_suite : Z) : option (Z * Z) :=
  if (crypto_suite =? kSrtpAes128CmSha1_32) || (crypto_suite =? kSrtpAes128CmSha1_80) then Some (16, 14)
  else if crypto_suite =? kSrtpAeadAes128Gcm then Some (16, 12)
  else if crypto_suite =? kSrtpAeadAes256Gcm then Some (32, 12)
  else None.

Definition IsGcmCryptoSuite (crypto_suite : Z) : bool :=
  (crypto_suite =? kSrtpAeadAes256Gcm) || (crypto_suite =? kSrtpAeadAes128Gcm).

Definition IsGcmCryptoSuiteName (crypto_suite : list Z) : bool :=
  bool_decide (crypto_suite = kCsAeadAes256Gcm) || bool_decide (crypto_suite = kCsAeadAes128Gcm).

(** A suite has a name, lengths and a family, or none of them, and the name
    leads back to it. *)
Lemma srtp_suites s :
  match GetSrtpKeyAndSaltLengths s with
  | Some _ => SrtpCryptoSuiteFromName (SrtpCryptoSuiteToName s) = s ∧ IsGcmCryptoSuiteName (SrtpCryptoSuiteToName s) = IsGcmCryptoSuite s
  | None => SrtpCryptoSuiteToName s = [] ∧ IsGcmCryptoSuite s = false
  end.
Proof.
  unfold GetSrtpKeyAndSaltLengths, SrtpCryptoSuiteToName, IsGcmCryptoSuite.
  destruct (Z.eqb_spec s kSrtpAes128CmSha1_32) as [->|]; [done|]. destruct (Z.eqb_spec s kSrtpAes128CmSha1_80) as [->|]; [done|].
  destruct (Z.eqb_spec s kSrtpAeadAes128Gcm) as [->|]; [done|]. by destruct (Z.eqb_spec s kSrtpAeadAes256Gcm) as [->|].
Qed.

Definition kSrtpCipherMap : list (list Z * Z) :=
  [(b#"SRTP_AES128_CM_SHA1_80", 0x0001); (b#"SRTP_AES128_CM_SHA1_32", 0x0002);
   (b#"SRTP_AEAD_AES_128_GCM", 0x0007); (b#"SRTP_AEAD_AES_256_GCM", 0x0008)].

(** [None] when a cipher is not in the table. *)
Fixpoint srtp_names (ciphers : list Z) (internal_ciphers : list Z) : option (list Z) :=
  match ciphers with
  | [] => Some internal_ciphers
  | cipher :: ciphers =>
      match list_find (λ e, e.2 = cipher) kSrtpCipherMap with
      | None => None
      | Some (_, (name, _)) =>
          srtp_names ciphers ((if bool_decide (internal_ciphers = []) then [] else internal_ciphers ++ [58]) ++ name)
      end
  end.

Definition SetDtlsSrtpCryptoSuites (ciphers : list Z) (a : adapter) : bool * adapter :=
  if negb (bool_decide (state_ a = SSL_NONE)) then (false, a)
  else
    match srtp_names ciphers [] with
    | None => (false, a)
    | Some [] => (false, a)
    | Some names =>
        let c := conf a in
        (true, set_conf (Settings (role_ c) (ssl_mode_ c) (ssl_max_version_ c) (dtls_handshake_timeout_ms_ c)
          (support_legacy_tls_protocols_flag_ c) (client_auth_enabled_ c) names) a)
    end.

(** The destructor; [Cleanup] frees what is left. *)
Definition OpenSSLStreamAdapter_delete (a : adapter) : adapter := Cleanup 0 (set_timer None a).
End Ops.

(** ** The stream below, as OpenSSL sees it *)

(** A BIO: whether an operation is to be tried again, for reading and for
    writing. *)
Record bio := Bio { retry_read : bool; retry_write : bool }.

Definition BIO_clear_retry_flags : bio := Bio false false.

Inductive BIO_CTRL :=
  | BIO_CTRL_RESET | BIO_CTRL_EOF | BIO_CTRL_WPENDING | BIO_CTRL_PENDING | BIO_CTRL_FLUSH
  | BIO_CTRL_DGRAM_QUERY_MTU | BIO_CTRL_other.

(** [out] and [inb] are false for null pointers; [under] is what the stream
    answers, its [io_count] the number of bytes on success. The bytes go to
    the memory of OpenSSL. *)
Definition stream_read (b : bio) (out : bool) (under : io_result) : res (Z * bio) :=
  if negb out then Val (-1, b)
  else
    let b := BIO_clear_retry_flags in
    match io_sr under with
    | SR_SUCCESS =>
        match io_count under with
        | Some read => let* n := cast_int read in Val (n, b)
        | None => Undef
        end
    | SR_BLOCK => Val (-1, Bio true (retry_write b))
    | _ => Val (-1, b)
    end.

Definition stream_write (b : bio) (inb : bool) (under : io_result) : res (Z * bio) :=
  if negb inb then Val (-1, b)
  else
    let b := BIO_clear_retry_flags in
    match io_sr under with
    | SR_SUCCESS =>
        match io_count under with
        | Some written => let* n := cast_int written in Val (n, b)
        | None => Undef
        end
    | SR_BLOCK => Val (-1, Bio (retry_read b) true)
    | _ => Val (-1, b)
    end.

Definition stream_puts (b : bio) (str : list Z) (under : io_result) : res (Z * bio) :=
  let* _ := cast_int (Z.of_nat (length str)) in stream_write b true under.

(** [ptr] is the stream the last argument points to. *)
Definition stream_ctrl (cmd : BIO_CTRL) (ptr : option StreamState) : res Z :=
  match cmd with
  | BIO_CTRL_RESET => Val 0
  | BIO_CTRL_EOF =>
      match ptr with
      | None => Undef
      | Some st => Val (if bool_decide (st = SS_CLOSED) then 1 else 0)
      end
  | BIO_CTRL_WPENDING | BIO_CTRL_PENDING => Val 0
  | BIO_CTRL_FLUSH => Val 1
  | BIO_CTRL_DGRAM_QUERY_MTU => Val 1200
  | BIO_CTRL_other => Val 0
  end.

(** ** Questions about a session *)

(** [ssl_version] is what [SSL_version] answers. *)
Definition GetSslVersion (ssl_version : Z) (a : adapter) : SSLProtocolVersion :=
  if negb (bool_decide (state_ a = SSL_CONNECTED)) then SSL_PROTOCOL_NOT_GIVEN
  else
    match ssl_mode_ (conf a) with
    | SSL_MODE_DTLS =>
        if ssl_version =? DTLS1_VERSION then SSL_PROTOCOL_DTLS_10
        else if ssl_version =? DTLS1_2_VERSION then SSL_PROTOCOL_DTLS_12
        else SSL_PROTOCOL_NOT_GIVEN
    | SSL_MODE_TLS =>
        if ssl_version =? TLS1_VERSION then SSL_PROTOCOL_TLS_10
        else if ssl_version =? TLS1_1_VERSION then SSL_PROTOCOL_TLS_11
        else if ssl_version =? TLS1_2_VERSION then SSL_PROTOCOL_TLS_12
        else SSL_PROTOCOL_NOT_GIVEN
    end.

Definition GetSslVersionBytes (ssl_version : Z) (a : adapter) : option Z :=
  if negb (bool_decide (state_ a = SSL_CONNECTED)) then None else Some ssl_version.

(** [current] is the number of the cipher of the session, none when there is
    none. *)
Definition GetSslCipherSuite (current : option Z) (a : adapter) : option Z :=
  if negb (bool_decide (state_ a = SSL_CONNECTED)) then None else u16 <$> current.

(** OpenSSL asks whether the stream is at its end without a pointer; the
    function reads through it. *)
Example eof_of_null : stream_ctrl BIO_CTRL_EOF None = Undef ∧ stream_ctrl BIO_CTRL_EOF (Some SS_CLOSED) = Val 1.
Proof. done. Qed.

(** ** Writing everything *)

(** [answers] are the results of [Write], each for the rest of the data; [None]
    while the loop waits for another one. The result and the bytes written. *)
Fixpoint WriteAll (answers : list io_result) (data_len total_written : Z) : res (option (StreamResult * Z)) :=
  if total_written <? data_len then
    match answers with
    | [] => Val None
    | r :: answers =>
        match io_sr r with
        | SR_SUCCESS =>
            match io_count r with
            | Some current_written => WriteAll answers data_len (u64 (total_written + current_written))
            | None => Undef
            end
        | result => Val (Some (result, total_written))
        end
    end
  else Val (Some (SR_SUCCESS, total_written)).

(** A stream that takes at least a byte and no more than it is given. *)
Fixpoint takes (answers : list io_result) (rest : Z) : Prop :=
  match answers with
  | [] => True
  | r :: answers => io_sr r = SR_SUCCESS → 0 < rest → ∃ n, io_count r = Some n ∧ 0 < n ≤ rest ∧ takes answers (rest - n)
  end.

(** On such a stream the loop ends, with everything written on success and
    less otherwise. *)
Lemma WriteAll_ok answers : ∀ data_len total,
  0 ≤ total ≤ data_len → data_len < 2 ^ 63 → data_len - total ≤ Z.of_nat (length answers) → takes answers (data_len - total) →
  ∃ result written, WriteAll answers data_len total = Val (Some (result, written)) ∧ total ≤ written ≤ data_len ∧
    (result = SR_SUCCESS ↔ written = data_len).
Proof.
  induction answers as [|r answers IH]; intros data_len total Ht Hd Hl Ha; simpl.
  - simpl in Hl. destruct (Z.ltb_spec total data_len); [lia|]. eexists _, _. split; [done|]. split; [lia|]. split; [lia|done].
  - destruct (Z.ltb_spec total data_len).
    + simpl in Ha. destruct (io_sr r) eqn:Hs; [|destruct (Ha eq_refl) as (n & -> & Hn & Hrest); [lia|]| |].
      2: { rewrite u64_small by lia.
           destruct (IH data_len (total + n)) as (result & written & -> & Hw & Hiff); [lia|lia|simpl in Hl; lia| |eexists _, _; split; [done|]; split; [lia|done]].
           by replace (data_len - (total + n)) with (data_len - total - n) by lia. }
      all: eexists _, _; split; [done|]; split; [lia|]; split; [done|lia].
    + eexists _, _. split; [done|]. split; [lia|]. split; [lia|done].
Qed.

(** ** Programs that use the adapter *)

Inductive acall :=
  | CStartSSL
  | CRead (n : Z) (under : io_result)
  | CWrite (data : list Z) (under : io_result)
  | CClose
  | CSetPeerCertificateDigest (alg value : list Z)
  | COnEvent (events err : Z)             (* the stream below signals *)
  | CTimeout                              (* the time of the task has come *)
  | CRunPosted
  | CStream (s : StreamState)             (* the stream below changes its state *)
  | CSetIdentity (identity : bool)
  | CSetServerRole (r : SSLRole)
  | CSetMode (m : SSLMode)
  | CSetMaxProtocolVersion (v : SSLProtocolVersion)
  | CSetInitialRetransmissionTimeout (t : Z)
  | CSetClientAuthEnabled (b : bool)
  | CSetDtlsSrtpCryptoSuites (l : list Z).

Section Programs.
Context {E : EVP} {L : OpenSSL} (dc : bool).

Definition run_call (slots : signal → adapter → res adapter) (c : acall) (a : adapter) : res adapter :=
  match c with
  | CStartSSL => let* '(_, a) := StartSSL dc slots a in Val a
  | CRead n under => let* '(_, a) := Read dc slots n under a in Val a
  | CWrite data under => let* '(_, a) := Write dc slots data under a in Val a
  | CClose => Close dc a
  | CSetPeerCertificateDigest alg value => let* '(_, _, a) := SetPeerCertificateDigest dc slots alg value a in Val a
  | COnEvent events err => OnEvent dc slots events err a
  | CTimeout => OnTimeout dc slots a
  | CRunPosted => RunPosted slots a
  | CStream s => Val (set_stream s a)
  | CSetIdentity i => SetIdentity dc i a
  | CSetServerRole r => Val (SetServerRole r a)
  | CSetMode m => SetMode dc m a
  | CSetMaxProtocolVersion v => SetMaxProtocolVersion dc v a
  | CSetInitialRetransmissionTimeout t => SetInitialRetransmissionTimeout dc t a
  | CSetClientAuthEnabled b => Val (SetClientAuthEnabledForTesting b a)
  | CSetDtlsSrtpCryptoSuites l => Val (SetDtlsSrtpCryptoSuites l a).2
  end.

(** [client s i a] is the [i]th function the slots call for signal [s], none
    to return; [n] bounds the calls and how deep they nest. *)
Fixpoint client_run (client : signal → nat → adapter → option acall) (n : nat) (s : signal) (i : nat) (a : adapter) : res adapter :=
  match n with
  | O => Val a
  | S n =>
      match client s i a with
      | None => Val a
      | Some c =>
          let* a := run_call (λ s a, client_run client n s 0 a) c a in
          client_run client n s (S i) a
      end
  end.

(** What the documentation and the checks of debug builds ask of a caller. *)
Definition permitted (a : adapter) (c : acall) : Prop :=
  match c with
  | CRead n _ => 0 ≤ n ≤ INT_LIMIT
  | CWrite data _ => Z.of_nat (length data) ≤ INT_LIMIT
  | CSetPeerCertificateDigest _ _ => peer_certificate_verified_ (peer a) = false ∧ HasPeerCertificateDigest a = false
  | COnEvent events _ => has events SE_OPEN = true → state_ a = SSL_NONE ∨ state_ a = SSL_WAIT
  | CSetIdentity _ => identity_ a = false
  | CSetMode _ => state_ a = SSL_NONE
  | CSetServerRole _ | CSetMaxProtocolVersion _ | CSetInitialRetransmissionTimeout _ | CSetClientAuthEnabled _ => ssl_ctx_ a = false
  | _ => True
  end.

#[global] Instance permitted_dec a c : Decision (permitted a c).
Proof. destruct c; simpl; apply _. Defined.

Context (client : signal → nat → adapter → option acall).

(** Calls of a program, with its slots called in between. *)
Inductive reachable : adapter → Prop :=
  | reach_new legacy stream : reachable (OpenSSLStreamAdapter_new legacy stream)
  | reach_call a c n a' :
      reachable a → permitted a c → run_call (λ s a, client_run client n s 0 a) c a = Val a' → reachable a'.
End Programs.
