(* ===== verification/SslStreamInv.v ===== *)
(** * Who is talked to (rtc_base/openssl_stream_adapter.cc)

    The invariant of [OpenSSLStreamAdapter] and what follows from it: data goes
    through TLS only to and from the peer whose certificate has the digest that
    was signaled, whatever the program, the network and the timers do. *)

From S2P Require Import Prelude MessageDigest SslStream.

Section Inv.
Context {E : EVP} {L : OpenSSL} {Laws : OpenSSLLaws} (dc : bool).

(** The certificate the peer showed has the digest that was signaled. *)
Definition peer_matches (p : peer_state) : Prop :=
  ∃ cert rest md, peer_cert_chain_ p = Some (cert :: rest) ∧
    digest_evp (peer_certificate_digest_algorithm_ p) = Some md ∧ evp_hash md cert = peer_certificate_digest_value_ p.

Definition transfer_ok (t : transfer) : Prop := t_auth t = true → peer_matches (t_peer t).

Definition open_session (a : adapter) : bool := bool_decide (state_ a = SSL_CONNECTING) || bool_decide (state_ a = SSL_CONNECTED).

(** What is known of the peer. It holds inside the functions as well. *)
Record core (a : adapter) : Prop := Core {
  c_digest : peer_certificate_verified_ (peer a) = true → HasPeerCertificateDigest a = true;
  c_match : ssl_ a = true → EVerdict false ∉ calls (hist a) → peer_certificate_verified_ (peer a) = true → peer_matches (peer a);
  c_chain : ssl_ a = true → (∃ ok, EVerdict ok ∈ calls (hist a)) → peer_cert_chain_ (peer a) ≠ None;
  c_ctx : ssl_ a = true → ∃ c, ECtxNew c ∈ calls (hist a) ∧ fail_if_no_peer_cert c = GetClientAuthEnabled a;
  c_logs : Forall transfer_ok (received (hist a)) ∧ Forall transfer_ok (sent (hist a))
}.

(** Between calls of the program there is a session exactly while connecting
    and connected, and a timer while connecting only. *)
Record inv (a : adapter) : Prop := Inv {
  i_core : core a;
  i_ssl : ssl_ a = open_session a;
  i_ctx : ssl_ctx_ a = open_session a;
  i_timer : timeout_task_ a ≠ None → state_ a = SSL_CONNECTING;
  i_fresh : state_ a = SSL_NONE ∨ state_ a = SSL_WAIT →
    calls (hist a) = [] ∧ peer_cert_chain_ (peer a) = None ∧ peer_certificate_verified_ (peer a) = false
}.

Lemma dcheck_ok b : b = true → MessageDigest.dcheck dc b = Val ().
Proof. intros ->. apply md_dcheck_true. Qed.

Lemma tls_new_inv legacy stream : inv (OpenSSLStreamAdapter_new legacy stream).
Proof. split; simpl; done. Qed.

(** ** The certificate *)

(** The digest of the first certificate of the chain is compared. *)
Lemma Verify_cert cert alg value md a :
  digest_evp alg = Some md →
  (let* r := cert_ComputeDigest dc cert alg (new_chars 64) 64 in
   match r with
   | None => Val (false, a)
   | Some (digest_length, digest) =>
       let* d := of_mem (mread digest 0 digest_length) in
       let* computed_digest := values d in
       if negb (bool_decide (computed_digest = value)) then Val (false, a) else Val (true, set_verified a)
   end) = Val (if bool_decide (evp_hash md cert = value) then (true, set_verified a) else (false, a)).
Proof.
  intros Em. unfold cert_ComputeDigest. rewrite GetDigestEVP_spec. cbn [mbind_res]. rewrite Em. pose proof (evp_size md).
  rewrite (proj2 (Z.ltb_ge _ _)) by lia.
  rewrite mwrite_front by (unfold new_chars; rewrite length_fmap, length_hash, length_replicate; lia). cbn [of_mem mbind_res].
  rewrite mread_take by len_solve. rewrite Nat2Z.id, take_app_length' by (by rewrite length_fmap). cbn [of_mem mbind_res].
  rewrite values_Some. cbn [mbind_res]. by case_bool_decide.
Qed.

Lemma VerifyPeerCertificate_spec a :
  ∃ ok, VerifyPeerCertificate dc a = Val (ok, if ok : bool then set_verified a else a) ∧
    (ok = true → HasPeerCertificateDigest a = true ∧ peer_matches (peer a)).
Proof.
  unfold VerifyPeerCertificate. destruct (HasPeerCertificateDigest a); [|by exists false].
  destruct (peer_cert_chain_ (peer a)) as [[|cert rest]|] eqn:Ec; [by exists false| |by exists false].
  destruct (digest_evp (peer_certificate_digest_algorithm_ (peer a))) as [md|] eqn:Em.
  - rewrite (Verify_cert _ _ _ md _ Em). case_bool_decide as Hd; [|by exists false].
    exists true. split; [done|]. intros _. split; [done|]. by exists cert, rest, md.
  - exists false. split; [|done]. unfold cert_ComputeDigest. rewrite GetDigestEVP_spec, Em. done.
Qed.

(** A call of OpenSSL changes what is known of the peer, and the history. *)
Definition same_session (a a' : adapter) : Prop :=
  state_ a' = state_ a ∧ timeout_task_ a' = timeout_task_ a ∧ ssl_ a' = ssl_ a ∧ ssl_ctx_ a' = ssl_ctx_ a ∧
  conf a' = conf a ∧ stream_state a' = stream_state a ∧ identity_ a' = identity_ a ∧
  (peer_certificate_verified_ (peer a) = true → peer_certificate_verified_ (peer a') = true).

Lemma callback_spec cert a :
  core a → ssl_ a = true →
  ∃ ok a', SSLVerifyCallback dc cert a = Val (ok, a') ∧ same_session a a' ∧ hist a' = hist a ∧
    core (log_call (EVerdict ok) a').
Proof.
  intros [H1 H2 H3 H4 H5] Hs. unfold SSLVerifyCallback. set (b := set_chain (Some [cert]) a).
  assert (∀ ok, (∃ o, EVerdict o ∈ calls (hist (log_call (EVerdict ok) b)))) as Hv by (intros ok; exists ok; simpl; set_solver).
  case_bool_decide as Ha.
  - exists true, b. split; [done|]. split; [done|]. split; [done|]. split; simpl; try done.
    + intros _ _ Hver. exfalso. apply H1 in Hver. unfold HasPeerCertificateDigest in Hver. simpl in Ha.
      rewrite Ha in Hver. by rewrite bool_decide_true in Hver.
    + intros _. destruct (H4 Hs) as (c & Hc & Hf). exists c. set_solver.
  - destruct (VerifyPeerCertificate_spec b) as (ok & -> & Hok). exists ok. eexists. split; [done|].
    destruct ok; (split; [done|]; split; [done|]; split; simpl; try done).
    + intros _. by destruct (Hok eq_refl).
    + intros _ _ _. destruct (Hok eq_refl) as [_ (c & r & md & E1 & E2 & E3)]. by exists c, r, md.
    + intros _. destruct (H4 Hs) as (c & Hc & Hf). exists c. set_solver.
    + intros _ Hno. exfalso. apply Hno. set_solver.
    + intros _. destruct (H4 Hs) as (c & Hc & Hf). exists c. set_solver.
Qed.

Definition is_call (e : ssl_event) : Prop := match e with EVerdict _ | ECtxNew _ => False | _ => True end.

Lemma log_call_core e a : is_call e → core a → core (log_call e a).
Proof.
  intros He [H1 H2 H3 H4 H5]. split; simpl; try done.
  - intros Hs Hno. apply H2; [done|]. set_solver.
  - intros Hs (ok & [Hin|Hin%list_elem_of_singleton]%elem_of_app); [eauto|]. subst e. done.
  - intros Hs. destruct (H4 Hs) as (c & Hc & Hf). exists c. set_solver.
Qed.

Lemma ssl_call_spec e a :
  core a → ssl_ a = true → is_call e →
  ∃ a' v, ssl_call dc e a = Val (get_error (calls (hist a')), a') ∧ core a' ∧ same_session a a' ∧
    (v = [] ∨ ∃ ok, v = [EVerdict ok]) ∧ hist a' = Hist (calls (hist a) ++ e :: v) (signaled (hist a)) (posted (hist a)) (received (hist a)) (sent (hist a)) ∧
    (shown_cert (calls (hist a) ++ [e]) = None → v = []).
Proof.
  intros Hc Hs He. unfold ssl_call. rewrite Hs. cbn [negb]. pose proof (log_call_core e a He Hc) as Hc1.
  change (calls (hist (log_call e a))) with (calls (hist a) ++ [e]).
  destruct (shown_cert (calls (hist a) ++ [e])) as [cert|] eqn:Esh.
  - destruct (callback_spec cert (log_call e a) Hc1 Hs) as (ok & a' & -> & Hss & Hh & Hc'). cbn [mbind_res].
    exists (log_call (EVerdict ok) a'), [EVerdict ok]. split; [done|]. split; [done|]. split; [exact Hss|].
    split; [right; by exists ok|]. split; [|done]. unfold log_call. simpl. rewrite Hh. simpl. by rewrite <- app_assoc.
  - cbn [mbind_res]. exists (log_call e a), []. split; [done|]. split_and!; try done. by left.
Qed.

(** ** Functions *)

Section Functions.
Context (slots : signal → adapter → res adapter).
Hypothesis slots_ok : ∀ s a, inv a → ∃ a', slots s a = Val a' ∧ inv a'.

Definition ok_res (r : res adapter) : Prop := ∃ a', r = Val a' ∧ inv a'.

Lemma emit_ok s a : inv a → ok_res (emit slots s a).
Proof.
  intros [[H1 H2 H3 H4 H5] Hs Hc Ht Hf]. apply slots_ok. split; simpl; try done.
Qed.

Lemma set_state_core s a : core a → core (set_state s a).
Proof. intros [H1 H2 H3 H4 H5]. by split. Qed.

Lemma set_timer_core t a : core a → core (set_timer t a).
Proof. intros [H1 H2 H3 H4 H5]. by split. Qed.

Lemma Cleanup_inv alert a : core a → inv (Cleanup alert a) ∧ (state_ (Cleanup alert a) = SSL_ERROR ∨ state_ (Cleanup alert a) = SSL_CLOSED).
Proof.
  destruct a as [st ec rw wr ss cc id tt sm cf [ch pv dv da] [cs sg po re se]]. intros [H1 H2 H3 H4 H5]. unfold Cleanup. simpl in *.
  case_bool_decide as Hst; destruct ss, cc; simpl; (split; [split; [split|..]|]); simpl; rewrite ?Hst; try done.
  all: try (by intros [|]); by auto.
Qed.

Lemma Error_ok err alert sig a : core a → ok_res (Error slots err alert sig a).
Proof.
  intros Hc. unfold Error. assert (core (set_error_code err (set_state SSL_ERROR a))) as Hc1 by (destruct Hc; by split).
  destruct (Cleanup_inv alert _ Hc1) as [Hi _]. destruct sig; [by apply emit_ok|by eexists].
Qed.

Lemma Close_ok a : core a → ok_res (Close dc a).
Proof.
  intros Hc. unfold Close. destruct (Cleanup_inv 0 a Hc) as [[[] ? ? ? ?] Hst].
  rewrite dcheck_ok by (by destruct Hst as [-> | ->]). cbn [mbind_res].
  eexists. split; [done|]. split; simpl; try done.
Qed.

(** A session that is set up. *)
Record connecting (a : adapter) : Prop := Connecting {
  cn_core : core a;
  cn_state : state_ a = SSL_CONNECTING;
  cn_ssl : ssl_ a = true;
  cn_ctx : ssl_ctx_ a = true
}.

Lemma connecting_inv a : connecting a → inv a.
Proof.
  intros [Hc Hst Hs Hx]. split; [done|unfold open_session; by rewrite Hst|unfold open_session; by rewrite Hst|done|].
  rewrite Hst. by intros [|].
Qed.

Lemma set_timer_connecting t a : connecting a → connecting (set_timer t a).
Proof. intros [Hc Hst Hs Hx]. split; try done. by apply set_timer_core. Qed.

Lemma delay_small s us : 0 ≤ s < 10 ^ 6 → 0 ≤ us < 10 ^ 6 → 0 ≤ s32 (s * 1000 + us ÷ 1000).
Proof.
  intros H1 H2. assert (0 ≤ us ÷ 1000 ≤ 1000) by (rewrite Z.quot_div_nonneg by lia; div_solve).
  change (10 ^ 6) with 1000000 in *. rewrite s32_small; unfold INT_MIN, INT_MAX; lia.
Qed.

(** A step of the handshake: the adapter can be used afterwards. *)
Lemma ContinueSSL_ok a : connecting a → ∃ err a', ContinueSSL dc slots a = Val (err, a') ∧ inv a'.
Proof.
  intros Hcn. pose proof (set_timer_connecting None a Hcn) as [Hc Hst Hs Hx]. unfold ContinueSSL.
  rewrite dcheck_ok by (rewrite (cn_state _ Hcn); done). cbn [mbind_res].
  destruct (ssl_call_spec (match role_ (conf (set_timer None a)) with SSL_CLIENT => EConnect | SSL_SERVER => EAccept end)
    (set_timer None a)) as (a1 & v & -> & Hc1 & (E1 & E2 & E3 & E4 & E5 & _) & _); [done|done|by destruct (role_ _)|]. cbn [mbind_res].
  assert (connecting a1) as Hcn1 by (split; [done|by rewrite E1|by rewrite E3|by rewrite E4]).
  destruct (Z.eqb_spec (get_error (calls (hist a1))) SSL_ERROR_NONE) as [Hnone|].
  - rewrite dcheck_ok. 2: { destruct (GetClientAuthEnabled a1) eqn:Hauth; [|by rewrite orb_true_r].
      destruct (c_ctx _ Hc1) as (c & Hin & Hfail); [apply Hcn1|]. rewrite Hauth in Hfail.
      destruct (cert_required _ c Hin Hfail Hnone) as [ok Hok].
      rewrite bool_decide_false; [done|]. apply (c_chain _ Hc1); [apply Hcn1|by exists ok]. }
    cbn [mbind_res]. assert (inv (set_state SSL_CONNECTED a1)) as Hi.
    { split; unfold open_session; simpl; [by apply set_state_core|apply Hcn1|apply Hcn1|rewrite E2; done|by intros [|]]. }
    destruct (negb _); [|by eexists _, _]. destruct (emit_ok (SignalEvent (Z.lor (Z.lor SE_OPEN SE_READ) SE_WRITE) 0) _ Hi) as (a2 & -> & Hi2).
    cbn [mbind_res]. by eexists _, _.
  - destruct (_ =? SSL_ERROR_WANT_READ).
    { destruct (dtls_timeout _) as [[sec usec]|] eqn:Hto; [|eexists _, _; split; [done|by apply connecting_inv]].
      apply timeout_range in Hto as [Ht1 Ht2]. unfold SetTimeout.
      rewrite (dcheck_ok (0 <=? _)) by (apply Z.leb_le; by apply delay_small). cbn [mbind_res].
      rewrite dcheck_ok by (by rewrite E2). cbn [mbind_res]. eexists _, _. split; [done|].
      by apply connecting_inv, set_timer_connecting. }
    destruct (_ =? SSL_ERROR_WANT_WRITE); [eexists _, _; split; [done|by apply connecting_inv]|].
    destruct (emit_ok (SignalSSLHandshakeError (if no_shared_cipher (calls (hist a1)) then INCOMPATIBLE_CIPHERSUITE else UNKNOWN)) a1)
      as (a2 & -> & Hi2); [by apply connecting_inv|]. cbn [mbind_res]. by eexists _, _.
Qed.

(** Before the session: nothing of the peer is known. *)
Record beginning (a : adapter) : Prop := Beginning {
  bg_core : core a;
  bg_state : state_ a = SSL_CONNECTING;
  bg_ssl : ssl_ a = false;
  bg_ctx : ssl_ctx_ a = false;
  bg_fresh : calls (hist a) = [] ∧ peer_cert_chain_ (peer a) = None ∧ peer_certificate_verified_ (peer a) = false
}.

Lemma BeginSSL_ok a : beginning a → ∃ err a', BeginSSL dc slots a = Val (err, a') ∧ core a' ∧ (err = 0 → inv a').
Proof.
  intros [[H1 H2 H3 H4 H5] Hst Hs Hx (Hcalls & Hch & Hv)]. unfold BeginSSL.
  rewrite !dcheck_ok by (by rewrite ?Hst, ?Hx). cbn [mbind_res].
  assert (∃ ok a1, SetupSSLContext a = (ok, a1) ∧
    a1 = log_call (ECtxNew (Ctx (ssl_mode_ (conf a)) (min_version (conf a)) (max_version (conf a)) (GetClientAuthEnabled a))) a)
    as (ok & a1 & -> & E1).
  { unfold SetupSSLContext. repeat (case_match; [by eexists _, _|]). by eexists _, _. }
  assert (∀ b, core (set_ssl (ssl_ a1) b a1)) as Hc1.
  { intros b. subst a1. split; simpl; rewrite ?Hs; done. }
  destruct ok; cbn [negb]; [|eexists _, _; split; [done|]; split; [done|done]].
  destruct (negb (BIO_new_ok _)); [eexists _, _; split; [done|]; split; [done|done]|].
  destruct (negb (SSL_new_ok _)).
  { eexists _, _. split; [done|]. split; [|done]. subst a1. split; simpl; done. }
  destruct (ContinueSSL_ok (set_ssl true (ssl_ctx_ (log_call ESslNew (set_ssl (ssl_ a1) true a1))) (log_call ESslNew (set_ssl (ssl_ a1) true a1))))
    as (err & a' & -> & Hi').
  - subst a1. split; [|done|done|done]. split; simpl; rewrite ?Hcalls, ?Hv; try done.
    + intros _ [ok Hin]. exfalso. set_solver.
    + intros _. exists (Ctx (ssl_mode_ (conf a)) (min_version (conf a)) (max_version (conf a)) (GetClientAuthEnabled a)).
      split; [|reflexivity]. simpl. set_solver.
  - exists err, a'. split; [done|]. split; [apply Hi'|done].
Qed.
Lemma inv_connecting a : inv a → state_ a = SSL_CONNECTING → connecting a.
Proof. intros [Hc Hs Hx _ _] Hst. unfold open_session in *. rewrite Hst in Hs, Hx. by split. Qed.

Lemma inv_beginning a : inv a → state_ a = SSL_NONE ∨ state_ a = SSL_WAIT → beginning (set_state SSL_CONNECTING a).
Proof.
  intros [Hc Hs Hx _ Hf] Hst. specialize (Hf Hst). unfold open_session in *.
  split; [by apply set_state_core|done|simpl; rewrite Hs; by destruct Hst as [-> | ->]|simpl; rewrite Hx; by destruct Hst as [-> | ->]|done].
Qed.

Lemma StartSSL_ok a : inv a → ∃ err a', StartSSL dc slots a = Val (err, a') ∧ inv a'.
Proof.
  intros Hi. unfold StartSSL. case_bool_decide as Hst; cbn [negb]; [|by eexists _, _].
  case_bool_decide; cbn [negb].
  - destruct (BeginSSL_ok (set_state SSL_CONNECTING a)) as (err & a1 & -> & Hc1 & Hi1); [by apply inv_beginning; [|left]|].
    cbn [mbind_res]. destruct (Z.eqb_spec err 0); cbn [negb]; [by eexists _, _; split; [|apply Hi1]|].
    destruct (Error_ok err 0 false a1 Hc1) as (a2 & -> & ?). cbn [mbind_res]. by eexists _, _.
  - eexists _, _. split; [done|]. destruct Hi as [Hc Hs Hx Ht Hf].
    unfold open_session in *. rewrite Hst in *. split; unfold open_session; simpl; try done; [by apply set_state_core|by intros Htt%Ht|by auto].
Qed.

Lemma OnTimeout_ok a : inv a → ok_res (OnTimeout dc slots a).
Proof.
  intros Hi. unfold OnTimeout. destruct (timeout_task_ a) as [t|] eqn:Et; [|by eexists].
  assert (connecting a) as Hcn by (apply inv_connecting; [done|]; apply Hi; by rewrite Et).
  cbn [ssl_ set_timer]. rewrite (cn_ssl _ Hcn). cbn [negb].
  destruct (ContinueSSL_ok (log_call EHandleTimeout (set_timer None a))) as (err & a' & -> & Hi').
  - pose proof (set_timer_connecting None a Hcn) as []. split; try done. by apply log_call_core.
  - by eexists.
Qed.
(** ** Data *)

Record connected (a : adapter) : Prop := Connected {
  cd_core : core a;
  cd_state : state_ a = SSL_CONNECTED;
  cd_ssl : ssl_ a = true;
  cd_ctx : ssl_ctx_ a = true;
  cd_timer : timeout_task_ a = None
}.

Lemma inv_connected a : inv a → state_ a = SSL_CONNECTED → connected a.
Proof.
  intros [Hc Hs Hx Ht _] Hst. unfold open_session in *. rewrite Hst in Hs, Hx, Ht. split; try done.
  destruct (timeout_task_ a); [|done]. by discriminate Ht.
Qed.

Lemma connected_inv a : connected a → inv a.
Proof.
  intros [Hc Hst Hs Hx Ht]. split; unfold open_session; rewrite ?Hst, ?Ht; try done. by intros [|].
Qed.

Lemma connected_call a a' : connected a → same_session a a' → core a' → connected a'.
Proof. intros [Hc Hst Hs Hx Ht] (E1 & E2 & E3 & E4 & _) Hc'. split; [done|congruence..]. Qed.

(** Data is exchanged with the peer that was verified only. *)
Lemma transfer_new bs a :
  core a → ssl_ a = true → get_error (calls (hist a)) = SSL_ERROR_NONE → WaitingToVerifyPeerCertificate a = false →
  transfer_ok (Transfer bs (client_auth_enabled_ (conf a)) (peer a)).
Proof.
  intros Hc Hs He Hw Ha. simpl in *. apply (c_match _ Hc); [done| |].
  - intros Hin. by apply rejected_fails in Hin.
  - unfold WaitingToVerifyPeerCertificate, GetClientAuthEnabled in Hw. rewrite Ha in Hw. by destruct (peer_certificate_verified_ _).
Qed.

Lemma still_verified a a' : same_session a a' → WaitingToVerifyPeerCertificate a = false → WaitingToVerifyPeerCertificate a' = false.
Proof.
  intros (_ & _ & _ & _ & E5 & _ & _ & E8). unfold WaitingToVerifyPeerCertificate, GetClientAuthEnabled. rewrite E5.
  destruct (client_auth_enabled_ _); [|done]. simpl. destruct (peer_certificate_verified_ (peer a)); [|done]. by rewrite E8.
Qed.

(** The rest of a datagram is dropped; as many turns as there are bytes are
    enough. *)
Lemma FlushInput_ok fuel a :
  connected a → pending (calls (hist a)) ≤ Z.of_nat fuel →
  ∃ a', FlushInput dc slots fuel (pending (calls (hist a))) a = Val a' ∧ connected a' ∧ pending (calls (hist a')) = 0 ∧
    received (hist a') = received (hist a).
Proof.
  revert a. induction fuel as [|fuel IH]; intros a Hcn Hle; pose proof (pending_range (calls (hist a))).
  - simpl. rewrite (proj2 (Z.eqb_eq _ _)) by lia. eexists. split; [done|]. split_and!; try done. lia.
  - cbn [FlushInput]. destruct (Z.eqb_spec (pending (calls (hist a))) 0) as [E0|Hne]; [by eexists|].
    set (n := if 2048 <? pending (calls (hist a)) then 2048 else pending (calls (hist a))). assert (0 < n ≤ pending (calls (hist a))) as Hn by (subst n; destruct (Z.ltb_spec 2048 (pending (calls (hist a)))); lia).
    destruct (pending_read _ n Hn) as (Hsh & Herr & Hp).
    destruct (ssl_call_spec (ERead n) a) as (a1 & v & -> & Hc1 & Hss & _ & Hh & Hv); [apply Hcn|apply Hcn|done|].
    rewrite (Hv Hsh) in Hh. cbn [mbind_res]. rewrite Hh. cbn [calls]. rewrite dcheck_ok by (by rewrite Herr). cbn [mbind_res]. rewrite Herr. change (negb (SSL_ERROR_NONE =? SSL_ERROR_NONE)) with false. cbn iota.
    pose proof (connected_call _ _ Hcn Hss Hc1) as Hcn1.
    destruct (read_some (calls (hist a)) n []) as [Hr1 Hr2]; [by left|done|].
    rewrite u32_small by lia. rewrite <- Hp.
    destruct (IH a1 Hcn1) as (a2 & He2 & Hcn2 & Hp2 & Hrec); [rewrite Hh; simpl; lia|].
    rewrite Hh in He2, Hrec. exists a2. by split_and!.
Qed.
Lemma log_received_connected bs a : connected a → transfer_ok (Transfer bs (client_auth_enabled_ (conf a)) (peer a)) → connected (log_received bs a).
Proof.
  intros [[H1 H2 H3 H4 [H5 H6]] Hst Hs Hx Ht] Hok. split; try done. split; simpl; try done. split; [|done]. by apply Forall_app_2; [|repeat constructor].
Qed.

Lemma log_sent_connected bs a : connected a → transfer_ok (Transfer bs (client_auth_enabled_ (conf a)) (peer a)) → connected (log_sent bs a).
Proof.
  intros [[H1 H2 H3 H4 [H5 H6]] Hst Hs Hx Ht] Hok. split; try done. split; simpl; try done. split; [done|]. by apply Forall_app_2; [|repeat constructor].
Qed.

Lemma set_needs_connected b a : connected a → connected (set_read_needs_write b a) ∧ connected (set_write_needs_read b a).
Proof. intros [[H1 H2 H3 H4 H5] Hst Hs Hx Ht]. split; split; try done. Qed.

Lemma cast_int_ok n : n ≤ INT_LIMIT → cast_int n = Val n.
Proof. intros H. unfold cast_int. by rewrite (proj2 (Z.leb_le _ _)). Qed.

Lemma Write_ok data under a :
  inv a → Z.of_nat (length data) ≤ INT_LIMIT → ∃ r a', Write dc slots data under a = Val (r, a') ∧ inv a'.
Proof.
  intros Hi Hlen. unfold Write. destruct (state_ a) eqn:Hst; try by eexists _, _.
  destruct (WaitingToVerifyPeerCertificate a) eqn:Hw; [by eexists _, _|]. destruct (Z.of_nat (length data) =? 0); [by eexists _, _|].
  pose proof (proj2 (set_needs_connected false a (inv_connected a Hi Hst))) as Hcn.
  rewrite cast_int_ok by done. cbn [mbind_res].
  destruct (ssl_call_spec (EWrite data) _ (cd_core _ Hcn) (cd_ssl _ Hcn)) as (a1 & v & -> & Hc1 & Hss & Hvv & Hh & _); [done|]. cbn [mbind_res].
  pose proof (connected_call _ _ Hcn Hss Hc1) as Hcn1.
  destruct (Z.eqb_spec (get_error (calls (hist a1))) SSL_ERROR_NONE) as [Hnone|].
  - assert (0 < write_code (calls (hist a1)) ≤ Z.of_nat (length data)) as Hcode.
    { rewrite Hh in *. simpl in *. by apply write_some. }
    rewrite !dcheck_ok by lia. cbn [mbind_res]. eexists _, _. split; [done|]. apply connected_inv, log_sent_connected; [done|].
    apply transfer_new; [done|apply Hcn1|done|by apply (still_verified _ _ Hss)].
  - destruct (_ =? SSL_ERROR_WANT_READ); [eexists _, _; split; [done|]; by apply connected_inv, set_needs_connected|].
    destruct (_ =? SSL_ERROR_WANT_WRITE); [eexists _, _; split; [done|]; by apply connected_inv|].
    match goal with |- context [Error slots ?e 0 false a1] => destruct (Error_ok e 0 false a1 Hc1) as (a2 & -> & Hi2) end.
    cbn [mbind_res]. by eexists _, _.
Qed.

Lemma Read_ok n under a :
  inv a → 0 ≤ n ≤ INT_LIMIT → ∃ r a', Read dc slots n under a = Val (r, a') ∧ inv a'.
Proof.
  intros Hi Hlen. unfold Read. destruct (state_ a) eqn:Hst; try by eexists _, _.
  destruct (WaitingToVerifyPeerCertificate a) eqn:Hw; [by eexists _, _|]. destruct (n =? 0); [by eexists _, _|].
  pose proof (proj1 (set_needs_connected false a (inv_connected a Hi Hst))) as Hcn.
  rewrite cast_int_ok by lia. cbn [mbind_res].
  destruct (ssl_call_spec (ERead n) _ (cd_core _ Hcn) (cd_ssl _ Hcn)) as (a1 & v & -> & Hc1 & Hss & Hvv & Hh & _); [done|]. cbn [mbind_res].
  pose proof (connected_call _ _ Hcn Hss Hc1) as Hcn1.
  destruct (Z.eqb_spec (get_error (calls (hist a1))) SSL_ERROR_NONE) as [Hnone|].
  - assert (0 < Z.of_nat (length (read_bytes (calls (hist a1)))) ≤ n) as Hcode.
    { rewrite Hh in *. simpl in *. by apply read_some. }
    rewrite !dcheck_ok by lia. cbn [mbind_res].
    assert (connected (log_received (read_bytes (calls (hist a1))) a1)) as Hcn2.
    { apply log_received_connected; [done|]. apply transfer_new; [done|apply Hcn1|done|by apply (still_verified _ _ Hss)]. }
    destruct (ssl_mode_ _); [eexists _, _; split; [done|]; by apply connected_inv|].
    destruct (negb _); [|eexists _, _; split; [done|]; by apply connected_inv].
    destruct (FlushInput_ok (Z.to_nat (pending (calls (hist (log_received (read_bytes (calls (hist a1))) a1))))) _ Hcn2) as (a2 & He & Hcn3 & _).
    { pose proof (pending_range (calls (hist (log_received (read_bytes (calls (hist a1))) a1)))). lia. }
    rewrite He. cbn [mbind_res]. eexists _, _. split; [done|]. by apply connected_inv.
  - destruct (_ =? SSL_ERROR_WANT_READ); [eexists _, _; split; [done|]; by apply connected_inv|].
    destruct (_ =? SSL_ERROR_WANT_WRITE); [eexists _, _; split; [done|]; by apply connected_inv, set_needs_connected|].
    destruct (_ =? SSL_ERROR_ZERO_RETURN). { destruct (Close_ok a1 Hc1) as (a2 & -> & Hi2). cbn [mbind_res]. by eexists _, _. }
    match goal with |- context [Error slots ?e 0 false a1] => destruct (Error_ok e 0 false a1 Hc1) as (a2 & -> & Hi2) end.
    cbn [mbind_res]. by eexists _, _.
Qed.
(** ** Events and settings *)

Definition go_or_end (r : res (option Z * adapter)) : Prop := ∃ o a', r = Val (o, a') ∧ inv a'.

Lemma handshake_result (r : res (Z * adapter)) :
  (∃ err a', r = Val (err, a') ∧ core a' ∧ (err = 0 → inv a')) →
  go_or_end (let* '(err, a) := r in
             if negb (err =? 0) then let* a := Error slots err 0 true a in Val (None, a) else Val (Some 0, a)).
Proof.
  intros (err & a1 & -> & Hc1 & Hi1). cbn [mbind_res]. destruct (Z.eqb_spec err 0); cbn [negb]; [by eexists _, _; split; [|apply Hi1]|].
  destruct (Error_ok err 0 true a1 Hc1) as (a2 & -> & ?). by eexists _, _.
Qed.

Lemma on_open_ok events a : inv a → (has events SE_OPEN = true → state_ a = SSL_NONE ∨ state_ a = SSL_WAIT) → go_or_end (on_open dc slots events a).
Proof.
  intros Hi Hp. unfold on_open. destruct (has events SE_OPEN); [|by eexists _, _]. specialize (Hp eq_refl).
  case_bool_decide as Hst; cbn [negb].
  - apply handshake_result, BeginSSL_ok, inv_beginning; [done|by right].
  - rewrite dcheck_ok by (apply bool_decide_true; by destruct Hp). by eexists _, _.
Qed.

Lemma on_read_write_ok events a : inv a → go_or_end (on_read_write dc slots events a).
Proof.
  intros Hi. unfold on_read_write. destruct (has _ _); [|by eexists _, _]. destruct (state_ a) eqn:Hst; try by eexists _, _.
  apply handshake_result. destruct (ContinueSSL_ok a) as (err & a1 & -> & Hi1); [by apply inv_connecting|].
  eexists _, _. split; [done|]. split; [apply Hi1|done].
Qed.

Lemma OnEvent_ok events err a :
  inv a → (has events SE_OPEN = true → state_ a = SSL_NONE ∨ state_ a = SSL_WAIT) → ok_res (OnEvent dc slots events err a).
Proof.
  intros Hi Hp. unfold OnEvent. destruct (on_open_ok events a Hi Hp) as ([e1|] & a1 & -> & Hi1); cbn [mbind_res]; [|by eexists].
  destruct (on_read_write_ok events a1 Hi1) as ([e2|] & a2 & -> & Hi2); cbn [mbind_res]; [|by eexists].
  destruct (has events SE_CLOSE).
  - destruct (negb _); [apply emit_ok, Cleanup_inv, Hi2|eexists; split; [done|apply Cleanup_inv, Hi2]].
  - destruct (negb _); [by apply emit_ok|by eexists].
Qed.

Lemma set_digest_core alg value a : core a → peer_certificate_verified_ (peer a) = false → core (set_digest alg value a).
Proof. intros [H1 H2 H3 H4 H5] Hv. split; simpl; try done; by rewrite Hv. Qed.

Lemma set_digest_inv alg value a : inv a → peer_certificate_verified_ (peer a) = false → inv (set_digest alg value a).
Proof. intros [Hc Hs Hx Ht Hf] Hv. split; try done. by apply set_digest_core. Qed.

Lemma set_verified_inv a :
  inv a → peer_cert_chain_ (peer a) ≠ None → HasPeerCertificateDigest a = true → peer_matches (peer a) → inv (set_verified a).
Proof.
  intros [[H1 H2 H3 H4 H5] Hs Hx Ht Hf] Hch Hh Hm. split; try done.
  intros Hst. by destruct (Hf Hst) as (_ & ? & _).
Qed.

Lemma post_inv h' a :
  inv a → calls h' = calls (hist a) → received h' = received (hist a) → sent h' = sent (hist a) → inv (set_hist h' a).
Proof.
  intros [[H1 H2 H3 H4 H5] Hs Hx Ht Hf] E1 E2 E3. split; [split|..]; simpl; rewrite ?E1, ?E2, ?E3; done.
Qed.

Lemma SetPeerCertificateDigest_ok alg value a :
  inv a → peer_certificate_verified_ (peer a) = false → HasPeerCertificateDigest a = false →
  ∃ ok e a', SetPeerCertificateDigest dc slots alg value a = Val (ok, e, a') ∧ inv a'.
Proof.
  intros Hi Hv Hn. unfold SetPeerCertificateDigest. rewrite Hv, Hn. rewrite !dcheck_ok by done. cbn [mbind_res].
  unfold GetDigestSize. rewrite GetDigestEVP_spec. cbn [mbind_res]. destruct (digest_evp alg) as [md|]; simpl; [|by eexists _, _, _].
  destruct (negb _); [by eexists _, _, _|]. pose proof (set_digest_inv alg value a Hi Hv) as Hi1.
  destruct (peer_cert_chain_ (peer a)) as [chain|] eqn:Hch; [|by eexists _, _, _].
  destruct (VerifyPeerCertificate_spec (set_digest alg value a)) as (ok & -> & Hok). cbn [mbind_res]. destruct ok; cbn [negb].
  - destruct (Hok eq_refl) as [Hh Hm]. assert (inv (set_verified (set_digest alg value a))) as Hi2.
    { apply set_verified_inv; [done| |done|done]. simpl. by rewrite Hch. }
    case_bool_decide; [|by eexists _, _, _]. eexists _, _, _. split; [done|]. by apply post_inv.
  - destruct (Error_ok (-1) SSL_AD_BAD_CERTIFICATE false _ (i_core _ Hi1)) as (a2 & He & Hi2). cbn [Error] in He.
    eexists _, _, _. split; [done|]. by simplify_eq.
Qed.

Lemma RunPosted_ok a : inv a → ok_res (RunPosted slots a).
Proof.
  intros Hi. unfold RunPosted. destruct (posted (hist a)) as [|[events err] rest]; [by eexists|]. by apply emit_ok, post_inv.
Qed.

(** The settings that say how a context is made are changed before there is
    one. *)
Lemma set_conf_inv c a : inv a → ssl_ctx_ a = false ∨ client_auth_enabled_ c = client_auth_enabled_ (conf a) → inv (set_conf c a).
Proof.
  intros [[H1 H2 H3 H4 H5] Hs Hx Ht Hf] Hno. split; try done. split; try done. simpl. intros Hss.
  destruct Hno as [Hno|Heq]; [congruence|]. destruct (H4 Hss) as (cf & ? & ?). exists cf. split; [done|].
  unfold GetClientAuthEnabled in *. simpl. congruence.
Qed.

Lemma run_call_ok c a : inv a → permitted a c → ok_res (run_call dc slots c a).
Proof.
  intros Hi Hp. destruct c; simpl in *.
  - destruct (StartSSL_ok a Hi) as (? & ? & -> & ?). by eexists.
  - destruct (Read_ok n under a Hi Hp) as (? & ? & -> & ?). by eexists.
  - destruct (Write_ok data under a Hi Hp) as (? & ? & -> & ?). by eexists.
  - apply Close_ok, Hi.
  - destruct Hp as [Hp1 Hp2]. destruct (SetPeerCertificateDigest_ok alg value a Hi Hp1 Hp2) as (? & ? & ? & -> & ?). by eexists.
  - by apply OnEvent_ok.
  - by apply OnTimeout_ok.
  - by apply RunPosted_ok.
  - eexists. split; [done|]. by destruct Hi as [[] ? ? ? ?].
  - unfold SetIdentity. rewrite Hp, dcheck_ok by done. eexists. split; [done|]. by destruct Hi as [[] ? ? ? ?].
  - eexists. split; [done|]. apply set_conf_inv; [done|by left].
  - unfold SetMode. rewrite dcheck_ok by (by rewrite Hp). eexists. split; [done|]. apply set_conf_inv; [done|by right].
  - unfold SetMaxProtocolVersion. rewrite dcheck_ok by (by rewrite Hp). eexists. split; [done|]. apply set_conf_inv; [done|by left].
  - unfold SetInitialRetransmissionTimeout. rewrite dcheck_ok by (by rewrite Hp). eexists. split; [done|]. apply set_conf_inv; [done|by left].
  - eexists. split; [done|]. apply set_conf_inv; [done|by left].
  - eexists. split; [done|]. unfold SetDtlsSrtpCryptoSuites. repeat (case_match; try done). simpl. apply set_conf_inv; [done|by right].
Qed.
End Functions.

(** ** Programs *)

Section Clients.
Context (client : signal → nat → adapter → option acall).
Hypothesis client_permitted : ∀ s i a c, client s i a = Some c → permitted a c.

(** Slots that call back into the adapter, to any depth. *)
Lemma client_run_ok n : ∀ s i a, inv a → ok_res (client_run dc client n s i a).
Proof.
  induction n as [|n IH]; intros s i a Hi; simpl; [by eexists|].
  destruct (client s i a) as [c|] eqn:Hc; [|by eexists].
  destruct (run_call_ok (λ s a, client_run dc client n s 0 a) (λ s a, IH s 0%nat a) c a Hi (client_permitted _ _ _ _ Hc)) as (a1 & -> & Hi1).
  by apply IH.
Qed.

Lemma program_call_ok n c a : inv a → permitted a c → ok_res (run_call dc (λ s a, client_run dc client n s 0 a) c a).
Proof. apply run_call_ok. intros s b. apply client_run_ok. Qed.

Lemma tls_reachable_inv a : reachable dc client a → inv a.
Proof.
  induction 1 as [|a c n a' _ IH Hp Hr]; [apply tls_new_inv|].
  destruct (program_call_ok n c a IH Hp) as (a1 & Hr1 & Hi1). rewrite Hr in Hr1. by simplify_eq.
Qed.

(** C5: Whatever the program, the network and OpenSSL do, no call of the
    stream fails in an assertion or uses a session that is not there; all the
    data that went through TLS went to or came from a peer whose certificate
    has the digest that was signaled, unless authentication was switched off;
    a session exists while connecting and connected only, and a timer while
    connecting only. *)
Theorem tls_peer_authenticated a :
  reachable dc client a →
  Forall transfer_ok (received (hist a) ++ sent (hist a)) ∧
  (ssl_ a = true ↔ state_ a = SSL_CONNECTING ∨ state_ a = SSL_CONNECTED) ∧
  (timeout_task_ a ≠ None → state_ a = SSL_CONNECTING) ∧
  (∀ n c, permitted a c → ∃ a', run_call dc (λ s a, client_run dc client n s 0 a) c a = Val a').
Proof.
  intros Hr. pose proof (tls_reachable_inv a Hr) as Hi. split_and!.
  - apply Forall_app. apply Hi.
  - rewrite (i_ssl _ Hi). unfold open_session. rewrite orb_true_iff, !bool_decide_eq_true. done.
  - apply Hi.
  - intros n c Hp. destruct (program_call_ok n c a Hi Hp) as (a' & ? & _). by eexists.
Qed.
End Clients.

(** A digest that arrives after the handshake decides the connection: when
    the certificate of the peer has it the stream is open and the owner is
    told so later; otherwise the session is ended for good. *)
Theorem late_digest_decides slots a cert rest alg value md :
  state_ a = SSL_CONNECTED → GetClientAuthEnabled a = true →
  permitted a (CSetPeerCertificateDigest alg value) →
  peer_cert_chain_ (peer a) = Some (cert :: rest) →
  digest_evp alg = Some md → alg ≠ [] → length value = Z.to_nat (EVP_MD_size md) →
  GetState a = SS_OPENING ∧
  if bool_decide (evp_hash md cert = value)
  then ∃ a', SetPeerCertificateDigest dc slots alg value a = Val (true, DE_NONE, a') ∧ GetState a' = SS_OPEN ∧
         posted (hist a') = posted (hist a) ++ [(Z.lor (Z.lor SE_OPEN SE_READ) SE_WRITE, 0)]
  else ∃ a', SetPeerCertificateDigest dc slots alg value a = Val (false, VERIFICATION_FAILED, a') ∧ GetState a' = SS_CLOSED ∧
         state_ a' = SSL_ERROR ∧ ssl_ a' = false ∧ posted (hist a') = posted (hist a).
Proof.
  intros Hst Ha [Hv Hn] Hch Hmd Halg Hlen. pose proof (evp_size md) as Hsz.
  split; [unfold GetState, WaitingToVerifyPeerCertificate; by rewrite Hst, Ha, Hv|].
  assert (value ≠ []) as Hne by (intros ->; simpl in Hlen; lia).
  assert (HasPeerCertificateDigest (set_digest alg value a) = true) as Hh.
  { unfold HasPeerCertificateDigest. simpl. by rewrite !bool_decide_false. }
  assert (VerifyPeerCertificate dc (set_digest alg value a) =
    Val (if bool_decide (evp_hash md cert = value) then (true, set_verified (set_digest alg value a)) else (false, set_digest alg value a))) as Hver.
  { unfold VerifyPeerCertificate. rewrite Hh. simpl peer_cert_chain_. rewrite Hch. by apply Verify_cert. }
  unfold SetPeerCertificateDigest. rewrite Hv, Hn. rewrite !dcheck_ok by done. cbn [mbind_res].
  unfold GetDigestSize. rewrite GetDigestEVP_spec, Hmd. cbn [mbind_res fmap option_fmap option_map].
  rewrite Hlen, Z2Nat.id, Z.eqb_refl by lia. cbn [negb]. simpl peer_cert_chain_. rewrite Hch, Hver.
  case_bool_decide; cbn [mbind_res negb].
  - rewrite bool_decide_true by done. eexists. split; [done|]. split; [|done]. unfold GetState, WaitingToVerifyPeerCertificate. simpl.
    by rewrite Hst, andb_false_r.
  - eexists. split; [done|]. clear. by destruct a as [st ec rw wr [] [] id tt sm cf p h].
Qed.
End Inv.

(** ** A session *)

(** A peer that shows a certificate in the second step of the handshake, and
    sends messages of three bytes. *)
Definition demo_cert : list Z := [1; 2; 3].

(** Bytes pending, bytes of the last call, whether the call makes sense, steps
    of the handshake. *)
Record demo_state := Demo { d_pending : Z; d_count : Z; d_valid : bool; d_steps : Z }.

Definition demo_step (d : demo_state) (e : ssl_event) : demo_state :=
  match e with
  | ERead n =>
      if n <=? 0 then Demo (d_pending d) 0 false (d_steps d)
      else
        let there := if d_pending d =? 0 then 3 else d_pending d in
        Demo (there - Z.min n there) (Z.min n there) true (d_steps d)
  | EWrite data => Demo (d_pending d) (Z.of_nat (length data)) (negb (bool_decide (data = []))) (d_steps d)
  | EVerdict _ => d
  | EConnect | EAccept => Demo (d_pending d) 0 true (d_steps d + 1)
  | _ => Demo (d_pending d) 0 true (d_steps d)
  end.

Definition demo_after (h : list ssl_event) : demo_state := foldl demo_step (Demo 0 0 true 0) h.

Definition demo_good (h : list ssl_event) : bool :=
  bool_decide (EVerdict true ∈ h) && negb (bool_decide (EVerdict false ∈ h)) && d_valid (demo_after h).

#[global] Instance demo_ssl : OpenSSL := {|
  CTX_new_ok _ := true; configure_identity_ok _ := true; use_srtp _ := 0; BIO_new_ok _ := true; SSL_new_ok _ := true;
  shown_cert h := match list.last h with Some EConnect | Some EAccept => if d_steps (demo_after h) =? 2 then Some demo_cert else None | _ => None end;
  get_error h := if demo_good h then SSL_ERROR_NONE else if d_steps (demo_after h) =? 1 then SSL_ERROR_WANT_READ else 1;
  read_bytes h := replicate (Z.to_nat (d_count (demo_after h))) 7;
  write_code h := d_count (demo_after h);
  pending h := if demo_good h then d_pending (demo_after h) else 0;
  dtls_timeout h := if d_steps (demo_after h) =? 1 then Some (0, 50000) else None;
  no_shared_cipher _ := false
|}.

Lemma demo_pending_range h : 0 ≤ d_pending (demo_after h) ≤ 3.
Proof.
  unfold demo_after. assert (0 ≤ d_pending (Demo 0 0 true 0) ≤ 3) as H by (simpl; lia). revert H. generalize (Demo 0 0 true 0).
  induction h as [|e h IH]; intros d Hd; simpl; [done|]. apply IH. destruct e; simpl; try lia.
  destruct (Z.leb_spec n 0); simpl; [lia|]. destruct (Z.eqb_spec (d_pending d) 0); lia.
Qed.

Lemma demo_after_call h e v : (v = [] ∨ ∃ ok, v = [EVerdict ok]) → demo_after (h ++ e :: v) = demo_step (demo_after h) e.
Proof. intros [-> | [ok ->]]; unfold demo_after; by rewrite foldl_app. Qed.

Lemma demo_error_none h : get_error h = SSL_ERROR_NONE → demo_good h = true.
Proof. simpl. destruct (demo_good h); [done|]. by destruct (_ =? 1). Qed.

#[global] Instance demo_laws : OpenSSLLaws.
Proof.
  split.
  - intros h Hin He%demo_error_none. unfold demo_good in He. rewrite (bool_decide_true (EVerdict false ∈ h)) in He by done.
    by rewrite andb_false_r in He.
  - intros h c _ _ He%demo_error_none. unfold demo_good in He. exists true. by case_bool_decide.
  - intros h n v Hv He%demo_error_none. simpl. unfold demo_good in He. apply andb_true_iff in He as [_ He].
    rewrite demo_after_call in * by done. rewrite length_replicate. simpl in *. pose proof (demo_pending_range h).
    destruct (Z.leb_spec n 0); [done|]. simpl. destruct (Z.eqb_spec (d_pending (demo_after h)) 0); lia.
  - intros h d v Hv He%demo_error_none. simpl. unfold demo_good in He. apply andb_true_iff in He as [_ He].
    rewrite demo_after_call in * by done. simpl in *. destruct d; [done|]. simpl. lia.
  - intros h. simpl. pose proof (demo_pending_range h). destruct (demo_good h); lia.
  - intros h n Hn. simpl in *. pose proof (demo_pending_range h). destruct (demo_good h) eqn:Hg; [|lia].
    assert (demo_after (h ++ [ERead n]) = Demo (d_pending (demo_after h) - n) n true (d_steps (demo_after h))) as Ha.
    { rewrite demo_after_call by (by left). simpl. destruct (Z.leb_spec n 0); [lia|].
      destruct (Z.eqb_spec (d_pending (demo_after h)) 0); [lia|]. by rewrite Z.min_l by lia. }
    assert (demo_good (h ++ [ERead n]) = true) as Hg'.
    { unfold demo_good in *. rewrite Ha. simpl. rewrite andb_true_r. apply andb_true_iff in Hg as [Hg _].
      apply andb_true_iff in Hg as [Hg1 Hg2]. apply bool_decide_eq_true in Hg1. apply negb_true_iff, bool_decide_eq_false in Hg2.
      rewrite bool_decide_true, bool_decide_false; [done|set_solver..]. }
    rewrite Hg', Ha, last_snoc, length_replicate. simpl. split_and!; [done|done|lia].
  - intros h s us. simpl. destruct (_ =? 1); intros; simplify_eq. lia.
Qed.

(** A program that reads when it is told to. *)
Definition demo_client (s : signal) (i : nat) (a : adapter) : option acall :=
  match s, i with
  | SignalEvent events _, O => if has events SE_READ then Some (CRead 2 (IO SR_BLOCK [] None None)) else None
  | _, _ => None
  end.

Lemma demo_client_permitted s i a c : demo_client s i a = Some c → permitted a c.
Proof. destruct s, i; simpl; try done. destruct (has _ _); [|done]. intros [= <-]. simpl. unfold INT_LIMIT. lia. Qed.

(** Calls one after the other, as long as each is permitted. *)
Fixpoint run_program (cs : list acall) (a : adapter) : option adapter :=
  match cs with
  | [] => Some a
  | c :: cs =>
      if bool_decide (permitted a c) then
        match run_call true (λ s a, client_run true demo_client 3 s 0 a) c a with Val a => run_program cs a | _ => None end
      else None
  end.

Lemma run_program_reachable cs a a' : reachable true demo_client a → run_program cs a = Some a' → reachable true demo_client a'.
Proof.
  revert a. induction cs as [|c cs IH]; intros a Hr; simpl; [by intros [= <-]|].
  case_bool_decide as Hp; [|done]. destruct (run_call _ _ _ _) as [a1| | |] eqn:Hc; try done. apply IH. exact (reach_call true demo_client a c 3 a1 Hr Hp Hc).
Qed.

Definition demo_digest : list Z := demo_hash EVP_sha256 demo_cert.
Definition demo_start : adapter := OpenSSLStreamAdapter_new false SS_OPEN.

(** The digest is known before the handshake; the second step of the handshake
    comes with the timer. *)
Definition demo_calls : list acall :=
  [CSetMode SSL_MODE_DTLS; CSetPeerCertificateDigest DIGEST_SHA_256 demo_digest; CStartSSL; CTimeout; CWrite [9; 8] (IO SR_BLOCK [] None None)].

Lemma tls_peer_authenticated_witness :
  ∃ a, reachable true demo_client a ∧
    t_bytes <$> received (hist a) = [[7; 7]] ∧ t_bytes <$> sent (hist a) = [[9; 8]] ∧ GetState a = SS_OPEN ∧
    Forall transfer_ok (received (hist a) ++ sent (hist a)).
Proof.
  destruct (run_program demo_calls demo_start) as [a|] eqn:Ha; [|vm_compute in Ha; discriminate].
  exists a. assert (reachable true demo_client a) as Hr by (eapply run_program_reachable; [apply reach_new|exact Ha]).
  split; [exact Hr|]. destruct (tls_peer_authenticated true demo_client demo_client_permitted a Hr) as [Hf _].
  split_and!; [..|exact Hf]; vm_compute in Ha; injection Ha as <-; reflexivity.
Defined.

(** The digest comes after the handshake, right or wrong. *)
Lemma late_digest_decides_witness :
  ∃ a, reachable true demo_client a ∧ GetState a = SS_OPENING ∧
    (∃ a', SetPeerCertificateDigest true (λ _ a, Val a) DIGEST_SHA_256 demo_digest a = Val (true, DE_NONE, a') ∧ GetState a' = SS_OPEN) ∧
    (∃ a', SetPeerCertificateDigest true (λ _ a, Val a) DIGEST_SHA_256 (replicate 32 0) a = Val (false, VERIFICATION_FAILED, a') ∧ ssl_ a' = false).
Proof.
  destruct (run_program [CStartSSL; COnEvent SE_READ 0] demo_start) as [a|] eqn:Ha; [|vm_compute in Ha; discriminate].
  exists a. assert (reachable true demo_client a) as Hr by (eapply run_program_reachable; [apply reach_new|exact Ha]).
  assert (state_ a = SSL_CONNECTED ∧ GetClientAuthEnabled a = true ∧ permitted a (CSetPeerCertificateDigest DIGEST_SHA_256 []) ∧
    peer_cert_chain_ (peer a) = Some [demo_cert]) as (H1 & H2 & H3 & H4).
  { vm_compute in Ha. injection Ha as <-. by repeat split. }
  split; [exact Hr|].
  destruct (late_digest_decides true (λ _ a, Val a) a demo_cert [] DIGEST_SHA_256 demo_digest EVP_sha256
    H1 H2 H3 H4 eq_refl ltac:(discriminate) eq_refl) as [Hopen (a1 & E1 & E2 & _)].
  destruct (late_digest_decides true (λ _ a, Val a) a demo_cert [] DIGEST_SHA_256 (replicate 32 0) EVP_sha256
    H1 H2 H3 H4 eq_refl ltac:(discriminate) eq_refl) as [_ (a2 & E3 & _ & _ & E4 & _)].
  split; [exact Hopen|]. split; [by exists a1|by exists a2].
Defined.

(** A step of the handshake that fails ends the stream and tells the program
    when an event of the stream below caused it, and does neither when the
    timer did: the adapter stays in its handshake, with no timer. *)
Example timer_hides_failure :
  let before := [CSetPeerCertificateDigest DIGEST_SHA_256 (replicate 32 0); CStartSSL] in
  (∃ a, run_program (before ++ [COnEvent SE_READ 0]) demo_start = Some a ∧ state_ a = SSL_ERROR ∧
     signaled (hist a) = [SignalSSLHandshakeError UNKNOWN; SignalEvent SE_CLOSE 1]) ∧
  (∃ a, run_program (before ++ [CTimeout]) demo_start = Some a ∧ state_ a = SSL_CONNECTING ∧ timeout_task_ a = None ∧
     signaled (hist a) = [SignalSSLHandshakeError UNKNOWN]).
Proof. split; eexists; (split; [vm_compute; reflexivity|by repeat split]). Qed.
