(* ===== verification/SslAdapter.v ===== *)
(** * TLS on a socket (rtc_base/openssl_adapter.h, openssl_adapter.cc,
      openssl_session_cache.cc, async_socket.cc, openssl_utility.cc)

    [OpenSSLAdapter] is a socket that speaks TLS or DTLS over another socket.
    The peer is accepted when its certificate names the host and the chain is
    good, or the program accepts it ([SSLPostConnectionCheck]).

    OpenSSL and the verifier of the program are the class [TlsLib]: what they
    answer depends on the calls made so far. The signals of the adapter are
    given to [slots], which may call the adapter. The build is the one with
    OpenSSL. *)

From S2P Require Import Prelude StringEncode MessageDigest SslStream.

Inductive TlsState := TLS_NONE | TLS_WAIT | TLS_CONNECTING | TLS_CONNECTED | TLS_ERROR.
Inductive ConnState := CS_CLOSED | CS_CONNECTING | CS_CONNECTED.
#[global] Instance TlsState_eq_dec : EqDecision TlsState.
Proof. solve_decision. Defined.
#[global] Instance ConnState_eq_dec : EqDecision ConnState.
Proof. solve_decision. Defined.

Definition SOCKET_ERROR : Z := -1.
Definition EWOULDBLOCK : Z := 11.
Definition ENOTCONN : Z := 107.

(** What is known of the peer when the handshake is over. *)
Record evidence := Evidence {
  names_host : bool;              (* the certificate is one of the host *)
  chain_good : bool;              (* [SSL_get_verify_result] *)
  program_accepts : bool;         (* [custom_cert_verifier_status_] *)
  errors_ignored : bool           (* [ignore_bad_cert_] *)
}.

Definition acceptable (e : evidence) : bool :=
  (names_host e && (chain_good e || program_accepts e)) || errors_ignored e.

Inductive tls_event :=
  | TCtxNew (mode : SSLMode) (enable_cache : bool)
  | TConfigureIdentity
  | TBioNew
  | TSslNew
  | TSetSession (session : Z)
  | TConnect
  | TAccept
  | TVerdict (ok : bool)          (* what the callback returned *)
  | TPostCheck (e : evidence)
  | TRead (n : Z)
  | TWrite (data : list Z)
  | THandleTimeout.

(** The last element of the history is the call that is asked about. *)
Class TlsLib := {
  tls_ctx_ok : list tls_event → bool;                   (* [SSL_CTX_new] and the root certificates *)
  tls_identity_ok : list tls_event → bool;              (* [ConfigureIdentity] *)
  tls_bio_ok : list tls_event → bool;
  tls_new_ok : list tls_event → bool;                   (* [SSL_new] *)
  tls_set_session : list tls_event → Z;
  tls_shown : list tls_event → list (bool * bool);      (* certificates shown: the verdict of OpenSSL and of the verifier *)
  tls_new_session : list tls_event → option Z;          (* a session to keep for later *)
  tls_error : list tls_event → Z;                       (* [SSL_get_error] *)
  tls_code : list tls_event → Z;                        (* what the call returned *)
  tls_bytes : list tls_event → list Z;                  (* what [SSL_read] read *)
  tls_timeout : list tls_event → option (Z * Z);        (* [DTLSv1_get_timeout] *)
  tls_peer_cert : list tls_event → bool;                (* [SSL_get_peer_certificate] is not null *)
  tls_check_host : list tls_event → list Z → Z;         (* [X509_check_host] *)
  tls_verify_ok : list tls_event → bool                 (* [SSL_get_verify_result] is [X509_V_OK] *)
}.

(** ** State *)

Record session := Sess {
  state_ : TlsState;
  ssl_read_needs_write_ : bool;
  ssl_write_needs_read_ : bool;
  pending_data_ : list Z;
  ssl_ : bool;                            (* not null *)
  ssl_ctx_ : bool;                        (* not null *)
  custom_cert_verifier_status_ : bool;
  timer : option Z                        (* the delay of [MSG_TIMEOUT], when it is posted *)
}.

Record config := Config {
  role_ : SSLRole;
  identity_ : bool;                       (* not null *)
  ssl_host_name_ : list Z;
  ssl_mode_ : SSLMode;
  ignore_bad_cert_ : bool;
  ssl_cert_verifier_ : bool;              (* not null *)
  alpn_protocols_ : list (list Z);
  elliptic_curves_ : list (list Z)
}.

Inductive asignal := SignalConnectEvent | SignalReadEvent | SignalWriteEvent | SignalCloseEvent (err : Z).

(** What went through TLS, with what was known of the peer. *)
Record exchange := Exchange { x_bytes : list Z; x_peer : option evidence }.

Record journal := Journal {
  tls_calls : list tls_event;
  fired : list asignal;
  clear_text : list (list Z);             (* sent on the socket below as it is *)
  tls_sent : list exchange;
  tls_received : list exchange;
  accepted : list Z;                      (* bytes of this session that [Send] took *)
  delivered : list Z                      (* bytes of this session that [SSL_write] took *)
}.

Record sadapter := SAdapter {
  ses : session;
  conf : config;
  ssl_session_cache_ : option (gmap (list Z) Z);   (* the cache that adapters share *)
  sock_state : ConnState;
  sock_error : Z;
  jr : journal
}.

Definition set_ses (s : session) (a : sadapter) : sadapter :=
  SAdapter s (conf a) (ssl_session_cache_ a) (sock_state a) (sock_error a) (jr a).
Definition set_conf (c : config) (a : sadapter) : sadapter :=
  SAdapter (ses a) c (ssl_session_cache_ a) (sock_state a) (sock_error a) (jr a).
Definition set_cache (c : option (gmap (list Z) Z)) (a : sadapter) : sadapter :=
  SAdapter (ses a) (conf a) c (sock_state a) (sock_error a) (jr a).
Definition set_sock (s : ConnState) (a : sadapter) : sadapter :=
  SAdapter (ses a) (conf a) (ssl_session_cache_ a) s (sock_error a) (jr a).
Definition SetError (e : Z) (a : sadapter) : sadapter :=
  SAdapter (ses a) (conf a) (ssl_session_cache_ a) (sock_state a) e (jr a).
Definition set_jr (j : journal) (a : sadapter) : sadapter :=
  SAdapter (ses a) (conf a) (ssl_session_cache_ a) (sock_state a) (sock_error a) j.

Definition upd_state (st : TlsState) (s : session) : session :=
  Sess st (ssl_read_needs_write_ s) (ssl_write_needs_read_ s) (pending_data_ s) (ssl_ s) (ssl_ctx_ s) (custom_cert_verifier_status_ s) (timer s).
Definition upd_read_nw (b : bool) (s : session) : session :=
  Sess (state_ s) b (ssl_write_needs_read_ s) (pending_data_ s) (ssl_ s) (ssl_ctx_ s) (custom_cert_verifier_status_ s) (timer s).
Definition upd_write_nr (b : bool) (s : session) : session :=
  Sess (state_ s) (ssl_read_needs_write_ s) b (pending_data_ s) (ssl_ s) (ssl_ctx_ s) (custom_cert_verifier_status_ s) (timer s).
Definition upd_pending (d : list Z) (s : session) : session :=
  Sess (state_ s) (ssl_read_needs_write_ s) (ssl_write_needs_read_ s) d (ssl_ s) (ssl_ctx_ s) (custom_cert_verifier_status_ s) (timer s).
Definition upd_ssl (b : bool) (s : session) : session :=
  Sess (state_ s) (ssl_read_needs_write_ s) (ssl_write_needs_read_ s) (pending_data_ s) b (ssl_ctx_ s) (custom_cert_verifier_status_ s) (timer s).
Definition upd_ctx (b : bool) (s : session) : session :=
  Sess (state_ s) (ssl_read_needs_write_ s) (ssl_write_needs_read_ s) (pending_data_ s) (ssl_ s) b (custom_cert_verifier_status_ s) (timer s).
Definition upd_custom (b : bool) (s : session) : session :=
  Sess (state_ s) (ssl_read_needs_write_ s) (ssl_write_needs_read_ s) (pending_data_ s) (ssl_ s) (ssl_ctx_ s) b (timer s).
Definition upd_timer (t : option Z) (s : session) : session :=
  Sess (state_ s) (ssl_read_needs_write_ s) (ssl_write_needs_read_ s) (pending_data_ s) (ssl_ s) (ssl_ctx_ s) (custom_cert_verifier_status_ s) t.

Definition on_ses (f : session → session) (a : sadapter) : sadapter := set_ses (f (ses a)) a.

Definition log_call (e : tls_event) (a : sadapter) : sadapter :=
  let j := jr a in set_jr (Journal (tls_calls j ++ [e]) (fired j) (clear_text j) (tls_sent j) (tls_received j) (accepted j) (delivered j)) a.
Definition log_fired (s : asignal) (a : sadapter) : sadapter :=
  let j := jr a in set_jr (Journal (tls_calls j) (fired j ++ [s]) (clear_text j) (tls_sent j) (tls_received j) (accepted j) (delivered j)) a.
Definition log_clear (bs : list Z) (a : sadapter) : sadapter :=
  let j := jr a in set_jr (Journal (tls_calls j) (fired j) (clear_text j ++ [bs]) (tls_sent j) (tls_received j) (accepted j) (delivered j)) a.

(** What was known of the peer of the session the history ends in. *)
Definition session_evidence (h : list tls_event) : option evidence :=
  foldl (λ known e, match e with TSslNew => None | TPostCheck ev => Some ev | _ => known end) None h.

Definition log_sent (bs : list Z) (a : sadapter) : sadapter :=
  let j := jr a in
  set_jr (Journal (tls_calls j) (fired j) (clear_text j) (tls_sent j ++ [Exchange bs (session_evidence (tls_calls j))]) (tls_received j)
    (accepted j) (delivered j ++ bs)) a.
Definition log_received (bs : list Z) (a : sadapter) : sadapter :=
  let j := jr a in
  set_jr (Journal (tls_calls j) (fired j) (clear_text j) (tls_sent j) (tls_received j ++ [Exchange bs (session_evidence (tls_calls j))])
    (accepted j) (delivered j)) a.
Definition log_accepted (bs : list Z) (a : sadapter) : sadapter :=
  let j := jr a in
  set_jr (Journal (tls_calls j) (fired j) (clear_text j) (tls_sent j) (tls_received j) (accepted j ++ bs) (delivered j)) a.
(** A session starts: nothing was taken or delivered yet. *)
Definition start_session (a : sadapter) : sadapter :=
  let j := jr a in set_jr (Journal (tls_calls j) (fired j) (clear_text j) (tls_sent j) (tls_received j) [] []) a.

Section Ops.
Context {L : TlsLib} (RTC_DCHECK_IS_ON : bool).
Context (slots : asignal → sadapter → res sadapter).

Notation dcheck := (MessageDigest.dcheck RTC_DCHECK_IS_ON).

(** The signals of [AsyncSocketAdapter]. *)
Definition fire (s : asignal) (a : sadapter) : res sadapter := slots s (log_fired s a).

(** ** Certificates *)

(** [verdict] is what the verifier of the program says of the certificate. *)
Definition SSLVerifyInternal (previous_status verdict : bool) (a : sadapter) : bool * sadapter :=
  if previous_status || negb (ssl_cert_verifier_ (conf a)) then (previous_status, a)
  else if negb verdict then (previous_status, a)
  else (true, on_ses (upd_custom true) a).

Definition SSLVerifyCallback (status verdict : bool) (a : sadapter) : bool * sadapter :=
  let '(status, a) := SSLVerifyInternal status verdict a in
  if negb status && ignore_bad_cert_ (conf a) then (true, a) else (status, a).

Definition VerifyPeerCertMatchesHost (a : sadapter) : bool :=
  let host := ssl_host_name_ (conf a) in
  if bool_decide (host = []) then false
  else if negb (ssl_ (ses a)) then false
  else if negb (tls_peer_cert (tls_calls (jr a))) then false
  else tls_check_host (tls_calls (jr a)) host =? 1.

Definition SSLPostConnectionCheck (a : sadapter) : bool * sadapter :=
  let e := Evidence (VerifyPeerCertMatchesHost a) (tls_verify_ok (tls_calls (jr a))) (custom_cert_verifier_status_ (ses a)) (ignore_bad_cert_ (conf a)) in
  let is_valid_cert_name := names_host e && (chain_good e || program_accepts e) in
  let is_valid_cert_name := if negb is_valid_cert_name && errors_ignored e then true else is_valid_cert_name in
  (is_valid_cert_name, log_call (TPostCheck e) a).

(** ** The cache of sessions *)

Definition LookupSession (hostname : list Z) (sessions_ : gmap (list Z) Z) : option Z := sessions_ !! hostname.
Definition AddSession (hostname : list Z) (new_session : Z) (sessions_ : gmap (list Z) Z) : gmap (list Z) Z :=
  <[hostname := new_session]> sessions_.

(** OpenSSL calls it for the contexts that were made for a cache only. *)
Definition NewSSLSessionCallback (session : Z) (a : sadapter) : sadapter :=
  match ssl_session_cache_ a with
  | None => a
  | Some sessions => set_cache (Some (AddSession (ssl_host_name_ (conf a)) session sessions)) a
  end.

(** A call of OpenSSL with the session [ssl_] and the callbacks it makes; the
    answer of [SSL_get_error]. *)
Definition tls_call (e : tls_event) (a : sadapter) : res (Z * sadapter) :=
  if negb (ssl_ (ses a)) then Undef
  else
    let a := log_call e a in
    let a := foldl (λ a c, let '(ok, a) := SSLVerifyCallback c.1 c.2 a in log_call (TVerdict ok) a) a (tls_shown (tls_calls (jr a))) in
    let a := match tls_new_session (tls_calls (jr a)) with None => a | Some s => NewSSLSessionCallback s a end in
    Val (tls_error (tls_calls (jr a)), a).

(** ** Starting and ending *)

Definition Cleanup (a : sadapter) : sadapter :=
  let c := conf a in
  let a := set_ses (Sess TLS_NONE false false [] false false false None) a in
  set_conf (Config (role_ c) false (ssl_host_name_ c) (ssl_mode_ c) (ignore_bad_cert_ c) (ssl_cert_verifier_ c) (alpn_protocols_ c) (elliptic_curves_ c)) a.

Definition Error (err : Z) (signal : bool) (a : sadapter) : res sadapter :=
  let a := SetError err (on_ses (upd_state TLS_ERROR) a) in
  if signal then fire (SignalCloseEvent err) a else Val a.

Definition CreateContext (mode : SSLMode) (enable_cache : bool) (a : sadapter) : bool * sadapter :=
  let a := log_call (TCtxNew mode enable_cache) a in (tls_ctx_ok (tls_calls (jr a)), a).

(** Each protocol after its length; nothing when one has a wrong length. *)
Fixpoint TransformAlpnProtocols (alpn_protocols : list (list Z)) (transformed_alpn : list Z) : list Z :=
  match alpn_protocols with
  | [] => transformed_alpn
  | proto :: rest =>
      let n := Z.of_nat (length proto) in
      if (n =? 0) || (0xFF <? n) then [] else TransformAlpnProtocols rest (transformed_alpn ++ [n] ++ proto)
  end.

Definition ContinueSSL (a : sadapter) : res (Z * sadapter) :=
  let* _ := dcheck (bool_decide (state_ (ses a) = TLS_CONNECTING)) in
  let a := on_ses (upd_timer None) a in
  let* '(error, a) := tls_call (match role_ (conf a) with SSL_CLIENT => TConnect | SSL_SERVER => TAccept end) a in
  let code := tls_code (tls_calls (jr a)) in
  if error =? SSL_ERROR_NONE then
    let '(ok, a) := SSLPostConnectionCheck a in
    if negb ok then Val (-1, Cleanup a)
    else
      let* a := fire SignalConnectEvent (on_ses (upd_state TLS_CONNECTED) a) in
      Val (0, a)
  else if error =? SSL_ERROR_WANT_READ then
    match tls_timeout (tls_calls (jr a)) with
    | Some (sec, usec) => Val (0, on_ses (upd_timer (Some (s32 (sec * 1000 + usec ÷ 1000)))) a)
    | None => Val (0, a)
    end
  else if error =? SSL_ERROR_WANT_WRITE then Val (0, a)
  else Val (if negb (code =? 0) then code else -1, a).

(** The steps of [BeginSSL] up to the handshake; false for an early return. *)
Definition prepare (a : sadapter) : res (bool * sadapter) :=
  let* a := match ssl_session_cache_ a with
            | Some _ => Val a
            | None =>
                let* _ := dcheck (negb (ssl_ctx_ (ses a))) in
                let '(ok, a) := CreateContext (ssl_mode_ (conf a)) false a in
                Val (on_ses (upd_ctx ok) a)
            end in
  if negb (ssl_ctx_ (ses a)) then Val (false, a)
  else
    let a := if identity_ (conf a) then log_call TConfigureIdentity a else a in
    if identity_ (conf a) && negb (tls_identity_ok (tls_calls (jr a))) then Val (false, a)
    else
      let a := log_call TBioNew a in
      if negb (tls_bio_ok (tls_calls (jr a))) then Val (false, a)
      else
        let a := start_session (log_call TSslNew a) in
        if negb (tls_new_ok (tls_calls (jr a))) then Val (false, a)
        else
          let a := on_ses (upd_ssl true) a in
          let host := ssl_host_name_ (conf a) in
          let cached := if bool_decide (host = []) then None else sessions ← ssl_session_cache_ a; LookupSession host sessions in
          let a := match cached with Some s => log_call (TSetSession s) a | None => a end in
          if match cached with Some _ => tls_set_session (tls_calls (jr a)) =? 0 | None => false end then Val (false, a)
          else
            let* _ := dcheck (Z.of_nat (length (TransformAlpnProtocols (alpn_protocols_ (conf a)) [])) <=? 4294967295) in
            Val (true, a).

(** [EarlyExitCatcher] cleans up unless the function ends well. *)
Definition BeginSSL (a : sadapter) : res (Z * sadapter) :=
  let* _ := dcheck (bool_decide (state_ (ses a) = TLS_CONNECTING)) in
  let* '(ok, a) := prepare a in
  if negb (ok : bool) then Val (-1, Cleanup a)
  else
    let* '(err, a) := ContinueSSL a in
    if negb (err =? 0) then Val (err, Cleanup a) else Val (0, a).

Definition set_host (host : list Z) (a : sadapter) : sadapter :=
  let c := conf a in
  set_conf (Config (role_ c) (identity_ c) host (ssl_mode_ c) (ignore_bad_cert_ c) (ssl_cert_verifier_ c) (alpn_protocols_ c) (elliptic_curves_ c)) a.

Definition StartSSL (hostname : list Z) (a : sadapter) : res (Z * sadapter) :=
  if negb (bool_decide (state_ (ses a) = TLS_NONE)) then Val (-1, a)
  else
    let a := set_host hostname a in
    if negb (bool_decide (sock_state a = CS_CONNECTED)) then Val (0, on_ses (upd_state TLS_WAIT) a)
    else
      let* '(err, a) := BeginSSL (on_ses (upd_state TLS_CONNECTING) a) in
      if negb (err =? 0) then let* a := Error err false a in Val (err, a) else Val (0, a).

(** ** Data *)

(** The return value and the answer of [SSL_get_error]. *)
Definition DoSslWrite (data : list Z) (a : sadapter) : res (Z * Z * sadapter) :=
  let a := on_ses (upd_write_nr false) a in
  let* _ := cast_int (Z.of_nat (length data)) in
  let* '(error, a) := tls_call (TWrite data) a in
  let ret := tls_code (tls_calls (jr a)) in
  if error =? SSL_ERROR_NONE then Val (ret, error, log_sent (take (Z.to_nat ret) data) a)
  else if error =? SSL_ERROR_WANT_READ then Val (SOCKET_ERROR, error, SetError EWOULDBLOCK (on_ses (upd_write_nr true) a))
  else if error =? SSL_ERROR_WANT_WRITE then Val (SOCKET_ERROR, error, SetError EWOULDBLOCK a)
  else if error =? SSL_ERROR_ZERO_RETURN then Val (SOCKET_ERROR, error, SetError EWOULDBLOCK a)
  else let* a := Error (if negb (ret =? 0) then ret else -1) false a in Val (SOCKET_ERROR, error, a).

(** The pending data is written first; false when some is left. *)
Definition flush_pending (a : sadapter) : res (bool * sadapter) :=
  let pending := pending_data_ (ses a) in
  if bool_decide (pending = []) then Val (true, a)
  else
    let* '(ret, _, a) := DoSslWrite pending a in
    if ret =? Z.of_nat (length pending) then Val (true, on_ses (upd_pending []) a) else Val (false, a).

(** [under] is what the socket below answers. *)
Definition Send (data : list Z) (under : Z) (a : sadapter) : res (Z * sadapter) :=
  match state_ (ses a) with
  | TLS_NONE => Val (under, log_clear data a)
  | TLS_WAIT | TLS_CONNECTING => Val (SOCKET_ERROR, SetError ENOTCONN a)
  | TLS_ERROR => Val (SOCKET_ERROR, a)
  | TLS_CONNECTED =>
      let* '(flushed, a) := flush_pending a in
      if negb (flushed : bool) then Val (SOCKET_ERROR, SetError EWOULDBLOCK a)
      else if bool_decide (data = []) then Val (0, a)
      else
        let* _ := dcheck (bool_decide (pending_data_ (ses a) = [])) in
        let* '(ret, error, a) := DoSslWrite data a in
        if (error =? SSL_ERROR_WANT_READ) || (error =? SSL_ERROR_WANT_WRITE) then
          let* _ := dcheck (bool_decide (pending_data_ (ses a) = [])) in
          let a := log_accepted data (on_ses (upd_pending data) a) in
          let* _ := dcheck (Z.of_nat (length data) <=? INT_LIMIT) in
          Val (Z.of_nat (length data), a)
        else Val (ret, if 0 <? ret then log_accepted (take (Z.to_nat ret) data) a else a)
  end.

(** [to_peer] says whether the address is the one of the peer. *)
Definition SendTo (data : list Z) (to_peer : bool) (under : Z) (a : sadapter) : res (Z * sadapter) :=
  if bool_decide (sock_state a = CS_CONNECTED) && to_peer then Send data under a
  else Val (SOCKET_ERROR, SetError ENOTCONN a).

(** The return value and the bytes. *)
Definition Recv (cb : Z) (under : Z * list Z) (a : sadapter) : res (Z * list Z * sadapter) :=
  match state_ (ses a) with
  | TLS_NONE => Val (under, a)
  | TLS_WAIT | TLS_CONNECTING => Val (SOCKET_ERROR, [], SetError ENOTCONN a)
  | TLS_ERROR => Val (SOCKET_ERROR, [], a)
  | TLS_CONNECTED =>
      if cb =? 0 then Val (0, [], a)
      else
        let a := on_ses (upd_read_nw false) a in
        let* _ := cast_int cb in
        let* '(error, a) := tls_call (TRead cb) a in
        let code := tls_code (tls_calls (jr a)) in
        if error =? SSL_ERROR_NONE then
          let bytes := tls_bytes (tls_calls (jr a)) in Val (code, bytes, log_received bytes a)
        else if error =? SSL_ERROR_WANT_READ then Val (SOCKET_ERROR, [], SetError EWOULDBLOCK a)
        else if error =? SSL_ERROR_WANT_WRITE then Val (SOCKET_ERROR, [], SetError EWOULDBLOCK (on_ses (upd_read_nw true) a))
        else if error =? SSL_ERROR_ZERO_RETURN then Val (SOCKET_ERROR, [], SetError EWOULDBLOCK a)
        else let* a := Error (if negb (code =? 0) then code else -1) false a in Val (SOCKET_ERROR, [], a)
  end.

Definition RecvFrom (cb : Z) (under : Z * list Z) (a : sadapter) : res (Z * list Z * sadapter) :=
  if bool_decide (sock_state a = CS_CONNECTED) then Recv cb under a
  else Val (SOCKET_ERROR, [], SetError ENOTCONN a).

Definition Close (a : sadapter) : sadapter := set_sock CS_CLOSED (on_ses (upd_state TLS_NONE) (Cleanup a)).

Definition GetState (a : sadapter) : ConnState :=
  if bool_decide (sock_state a = CS_CONNECTED) &&
     (bool_decide (state_ (ses a) = TLS_WAIT) || bool_decide (state_ (ses a) = TLS_CONNECTING))
  then CS_CONNECTING else sock_state a.

(** ** Events *)

(** The message [MSG_TIMEOUT] arrives. *)
Definition OnMessage (a : sadapter) : res sadapter :=
  match timer (ses a) with
  | None => Val a
  | Some _ =>
      let a := on_ses (upd_timer None) a in
      if negb (ssl_ (ses a)) then Undef
      else let* '(_, a) := ContinueSSL (log_call THandleTimeout a) in Val a
  end.

Definition OnConnectEvent (a : sadapter) : res sadapter :=
  if negb (bool_decide (state_ (ses a) = TLS_WAIT)) then
    let* _ := dcheck (bool_decide (state_ (ses a) = TLS_NONE)) in fire SignalConnectEvent a
  else
    let* '(err, a) := BeginSSL (on_ses (upd_state TLS_CONNECTING) a) in
    if negb (err =? 0) then fire (SignalCloseEvent err) a else Val a.

Definition continue_or_end (a : sadapter) : res sadapter :=
  let* '(err, a) := ContinueSSL a in
  if negb (err =? 0) then Error err true a else Val a.

Definition OnReadEvent (a : sadapter) : res sadapter :=
  match state_ (ses a) with
  | TLS_NONE => fire SignalReadEvent a
  | TLS_CONNECTING => continue_or_end a
  | TLS_CONNECTED =>
      let* a := if ssl_write_needs_read_ (ses a) then fire SignalWriteEvent a else Val a in
      fire SignalReadEvent a
  | _ => Val a
  end.

Definition OnWriteEvent (a : sadapter) : res sadapter :=
  match state_ (ses a) with
  | TLS_NONE => fire SignalWriteEvent a
  | TLS_CONNECTING => continue_or_end a
  | TLS_CONNECTED =>
      let* a := if ssl_read_needs_write_ (ses a) then fire SignalReadEvent a else Val a in
      let* '(_, a) := flush_pending a in
      fire SignalWriteEvent a
  | _ => Val a
  end.

Definition OnCloseEvent (err : Z) (a : sadapter) : res sadapter := fire (SignalCloseEvent err) a.

(** ** Settings *)

Definition SetIgnoreBadCert (ignore : bool) (a : sadapter) : sadapter :=
  let c := conf a in
  set_conf (Config (role_ c) (identity_ c) (ssl_host_name_ c) (ssl_mode_ c) ignore (ssl_cert_verifier_ c) (alpn_protocols_ c) (elliptic_curves_ c)) a.

Definition SetAlpnProtocols (protos : list (list Z)) (a : sadapter) : sadapter :=
  let c := conf a in
  set_conf (Config (role_ c) (identity_ c) (ssl_host_name_ c) (ssl_mode_ c) (ignore_bad_cert_ c) (ssl_cert_verifier_ c) protos (elliptic_curves_ c)) a.

Definition SetEllipticCurves (curves : list (list Z)) (a : sadapter) : sadapter :=
  let c := conf a in
  set_conf (Config (role_ c) (identity_ c) (ssl_host_name_ c) (ssl_mode_ c) (ignore_bad_cert_ c) (ssl_cert_verifier_ c) (alpn_protocols_ c) curves) a.

Definition SetMode (mode : SSLMode) (a : sadapter) : res sadapter :=
  let* _ := dcheck (negb (ssl_ctx_ (ses a))) in
  let* _ := dcheck (bool_decide (state_ (ses a) = TLS_NONE)) in
  let c := conf a in
  Val (set_conf (Config (role_ c) (identity_ c) (ssl_host_name_ c) mode (ignore_bad_cert_ c) (ssl_cert_verifier_ c) (alpn_protocols_ c) (elliptic_curves_ c)) a).

Definition SetCertVerifier (ssl_cert_verifier : bool) (a : sadapter) : res sadapter :=
  let* _ := dcheck (negb (ssl_ctx_ (ses a))) in
  let c := conf a in
  Val (set_conf (Config (role_ c) (identity_ c) (ssl_host_name_ c) (ssl_mode_ c) (ignore_bad_cert_ c) ssl_cert_verifier (alpn_protocols_ c) (elliptic_curves_ c)) a).

Definition SetIdentity (identity : bool) (a : sadapter) : res sadapter :=
  let* _ := dcheck (negb (identity_ (conf a))) in
  let c := conf a in
  Val (set_conf (Config (role_ c) identity (ssl_host_name_ c) (ssl_mode_ c) (ignore_bad_cert_ c) (ssl_cert_verifier_ c) (alpn_protocols_ c) (elliptic_curves_ c)) a).

Definition SetRole (role : SSLRole) (a : sadapter) : sadapter :=
  let c := conf a in
  set_conf (Config role (identity_ c) (ssl_host_name_ c) (ssl_mode_ c) (ignore_bad_cert_ c) (ssl_cert_verifier_ c) (alpn_protocols_ c) (elliptic_curves_ c)) a.

(** ** Creation *)

(** With a cache the adapter shares the context of the cache. *)
Definition OpenSSLAdapter_new (socket : ConnState) (ssl_session_cache : option (gmap (list Z) Z)) (ssl_cert_verifier : bool) : sadapter :=
  SAdapter (Sess TLS_NONE false false [] false (match ssl_session_cache with Some _ => true | None => false end) false None)
    (Config SSL_CLIENT false [] SSL_MODE_TLS false ssl_cert_verifier [] []) ssl_session_cache socket 0 (Journal [] [] [] [] [] [] []).

(** [socket] is the socket that [SSLAdapter::Accept] returned. *)
Definition Accept (socket : option ConnState) (a : sadapter) : res (option sadapter) :=
  let* _ := dcheck (bool_decide (role_ (conf a) = SSL_SERVER)) in
  match socket with
  | None => Val None
  | Some socket =>
      let adapter := OpenSSLAdapter_new socket None false in
      if negb (identity_ (conf a)) then Undef
      else
        let* adapter := SetIdentity true adapter in
        let adapter := SetIgnoreBadCert (ignore_bad_cert_ (conf a)) (SetRole SSL_SERVER adapter) in
        let* '(_, adapter) := StartSSL [] adapter in
        Val (Some adapter)
  end.

(** The factory: its mode, its cache and its verifier. *)
Record OpenSSLAdapterFactory := Factory {
  factory_mode : SSLMode;
  factory_cache : option (gmap (list Z) Z);
  factory_verifier : bool
}.

Definition OpenSSLAdapterFactory_new : OpenSSLAdapterFactory := Factory SSL_MODE_TLS None false.

Definition factory_SetMode (mode : SSLMode) (f : OpenSSLAdapterFactory) : res OpenSSLAdapterFactory :=
  let* _ := dcheck (bool_decide (factory_cache f = None)) in Val (Factory mode (factory_cache f) (factory_verifier f)).

Definition factory_SetCertVerifier (v : bool) (f : OpenSSLAdapterFactory) : res OpenSSLAdapterFactory :=
  let* _ := dcheck (bool_decide (factory_cache f = None)) in Val (Factory (factory_mode f) (factory_cache f) v).

Definition CreateAdapter (socket : ConnState) (f : OpenSSLAdapterFactory) : option sadapter * OpenSSLAdapterFactory :=
  match factory_cache f with
  | Some sessions => (Some (OpenSSLAdapter_new socket (Some sessions) (factory_verifier f)), f)
  | None =>
      if negb (tls_ctx_ok [TCtxNew (factory_mode f) true]) then (None, f)
      else
        let f := Factory (factory_mode f) (Some ∅) (factory_verifier f) in
        (Some (OpenSSLAdapter_new socket (Some ∅) (factory_verifier f)), f)
  end.
End Ops.

(** ** The socket below, as OpenSSL sees it *)

(** [result] is what the socket returns and [IsBlocking] whether its error says
    to try again; false for null pointers. *)
Definition socket_read (b : bio) (out : bool) (result : Z) (IsBlocking : bool) : Z * bio :=
  if negb out then (-1, b)
  else
    let b := BIO_clear_retry_flags in
    if 0 <? result then (result, b)
    else if IsBlocking then (-1, Bio true (retry_write b))
    else (-1, b).

Definition socket_write (b : bio) (inb : bool) (result : Z) (IsBlocking : bool) : Z * bio :=
  if negb inb then (-1, b)
  else
    let b := BIO_clear_retry_flags in
    if 0 <? result then (result, b)
    else if IsBlocking then (-1, Bio (retry_read b) true)
    else (-1, b).

Definition socket_puts (b : bio) (str : list Z) (result : Z) (IsBlocking : bool) : res (Z * bio) :=
  let* _ := cast_int (Z.of_nat (length str)) in Val (socket_write b true result IsBlocking).

(** [ptr] is the socket the last argument points to. *)
Definition socket_ctrl (cmd : BIO_CTRL) (ptr : option ConnState) : res Z :=
  match cmd with
  | BIO_CTRL_RESET => Val 0
  | BIO_CTRL_EOF =>
      match ptr with
      | None => Undef
      | Some st => Val (if bool_decide (st = CS_CLOSED) then 1 else 0)
      end
  | BIO_CTRL_WPENDING | BIO_CTRL_PENDING => Val 0
  | BIO_CTRL_FLUSH => Val 1
  | _ => Val 0
  end.

(** ** Programs *)

Inductive acall :=
  | CStartSSL (host : list Z)
  | CSend (data : list Z) (under : Z)
  | CSendTo (data : list Z) (to_peer : bool) (under : Z)
  | CRecv (cb : Z) (under : Z * list Z)
  | CRecvFrom (cb : Z) (under : Z * list Z)
  | CClose
  | COnMessage
  | COnConnectEvent
  | COnReadEvent
  | COnWriteEvent
  | COnCloseEvent (err : Z)
  | CSocket (s : ConnState)               (* the socket below changes its state *)
  | CCache (host : list Z) (session : Z)  (* another adapter adds a session *)
  | CSetIgnoreBadCert (b : bool)
  | CSetAlpnProtocols (l : list (list Z))
  | CSetEllipticCurves (l : list (list Z))
  | CSetMode (m : SSLMode)
  | CSetCertVerifier (b : bool)
  | CSetIdentity (b : bool)
  | CSetRole (r : SSLRole).

Section Programs.
Context {L : TlsLib} (dc : bool).

Definition run_call (slots : asignal → sadapter → res sadapter) (c : acall) (a : sadapter) : res sadapter :=
  match c with
  | CStartSSL host => let* '(_, a) := StartSSL dc slots host a in Val a
  | CSend data under => let* '(_, a) := Send dc slots data under a in Val a
  | CSendTo data to_peer under => let* '(_, a) := SendTo dc slots data to_peer under a in Val a
  | CRecv cb under => let* '(_, _, a) := Recv slots cb under a in Val a
  | CRecvFrom cb under => let* '(_, _, a) := RecvFrom slots cb under a in Val a
  | CClose => Val (Close a)
  | COnMessage => OnMessage dc slots a
  | COnConnectEvent => OnConnectEvent dc slots a
  | COnReadEvent => OnReadEvent dc slots a
  | COnWriteEvent => OnWriteEvent dc slots a
  | COnCloseEvent err => OnCloseEvent slots err a
  | CSocket s => Val (set_sock s a)
  | CCache host session => Val (match ssl_session_cache_ a with Some m => set_cache (Some (AddSession host session m)) a | None => a end)
  | CSetIgnoreBadCert b => Val (SetIgnoreBadCert b a)
  | CSetAlpnProtocols l => Val (SetAlpnProtocols l a)
  | CSetEllipticCurves l => Val (SetEllipticCurves l a)
  | CSetMode m => SetMode dc m a
  | CSetCertVerifier b => SetCertVerifier dc b a
  | CSetIdentity b => SetIdentity dc b a
  | CSetRole r => Val (SetRole r a)
  end.

(** [client s i a] is the [i]th function the slots call for signal [s], none
    to return; [n] bounds the calls and how deep they nest. *)
Fixpoint client_run (client : asignal → nat → sadapter → option acall) (n : nat) (s : asignal) (i : nat) (a : sadapter) : res sadapter :=
  match n with
  | O => Val a
  | S n =>
      match client s i a with
      | None => Val a
      | Some c =>
          let* a := run_call (λ s a, client_run client n s 0 a) c a in
          client_run client n s (S i) a
      end
  end.

(** The largest record of TLS. *)
Definition RECORD : Z := 16384.

(** What the checks of debug builds ask of a caller, and that no more than a
    record is sent at once, which the code takes for granted. *)
Definition permitted (a : sadapter) (c : acall) : Prop :=
  match c with
  | CSend data _ | CSendTo data _ _ => Z.of_nat (length data) ≤ RECORD
  | CRecv cb _ | CRecvFrom cb _ => 0 ≤ cb ≤ INT_LIMIT
  | COnConnectEvent => state_ (ses a) = TLS_NONE ∨ state_ (ses a) = TLS_WAIT
  | CSetAlpnProtocols l => Z.of_nat (length (TransformAlpnProtocols l [])) ≤ 4294967295
  | CSetMode _ => ssl_ctx_ (ses a) = false ∧ state_ (ses a) = TLS_NONE
  | CSetCertVerifier _ => ssl_ctx_ (ses a) = false
  | CSetIdentity _ => identity_ (conf a) = false
  | _ => True
  end.

#[global] Instance permitted_dec a c : Decision (permitted a c).
Proof. destruct c; simpl; apply _. Defined.

Context (client : asignal → nat → sadapter → option acall).

Inductive reachable : sadapter → Prop :=
  | reach_new socket cache verifier : reachable (OpenSSLAdapter_new socket cache verifier)
  | reach_call a c n a' :
      reachable a → permitted a c → run_call (λ s a, client_run client n s 0 a) c a = Val a' → reachable a'.
End Programs.
