(* ===== verification/SslAdapterInv.v ===== *)
(** * What goes through a TLS socket (rtc_base/openssl_adapter.cc)

    The invariant of [OpenSSLAdapter]: data goes through TLS only in sessions
    whose certificate passed the check, and the bytes that [Send] took are
    delivered once and in order as long as OpenSSL takes a record at a time.
    What the adapter does after a failed handshake is another matter; see the
    examples at the end. *)

From S2P Require Import Prelude MessageDigest SslStream SslAdapter.

(** A write of no more than a record is taken as a whole or not at all. *)
Definition is_verdict (e : tls_event) : Prop := match e with TVerdict _ => True | _ => False end.
Class TlsLaws `{TlsLib} := {
  write_whole h d v : Forall is_verdict v → Z.of_nat (length d) ≤ RECORD →
    tls_error (h ++ TWrite d :: v) = SSL_ERROR_NONE → tls_code (h ++ TWrite d :: v) = Z.of_nat (length d)
}.

Section Inv.
Context {L : TlsLib} {Laws : TlsLaws} (dc : bool).

Definition known_ok (k : option evidence) : Prop := ∃ e, k = Some e ∧ acceptable e = true.
Definition exchange_ok (x : exchange) : Prop := known_ok (x_peer x).

Notation st a := (state_ (ses a)).
Notation pend a := (pending_data_ (ses a)).

(** What went through TLS. *)
Record logs (j : journal) : Prop := Logs {
  l_sent : Forall exchange_ok (tls_sent j);
  l_received : Forall exchange_ok (tls_received j);
  l_prefix : delivered j `prefix_of` accepted j
}.

(** What holds inside the functions as well. *)
Record core (a : sadapter) : Prop := Core {
  c_logs : logs (jr a);
  c_stream : ssl_ (ses a) = true → delivered (jr a) ++ pend a = accepted (jr a);
  c_pending : pend a ≠ [] → ssl_ (ses a) = true ∧ known_ok (session_evidence (tls_calls (jr a)));
  c_length : Z.of_nat (length (pend a)) ≤ RECORD;
  c_alpn : Z.of_nat (length (TransformAlpnProtocols (alpn_protocols_ (conf a)) [])) ≤ 4294967295
}.

Record inv (a : sadapter) : Prop := Inv {
  i_core : core a;
  i_open : st a = TLS_CONNECTING ∨ st a = TLS_CONNECTED → ssl_ (ses a) = true;
  i_closed : st a = TLS_NONE ∨ st a = TLS_WAIT → ssl_ (ses a) = false;
  i_ctx : ssl_session_cache_ a = None → ssl_ctx_ (ses a) = ssl_ (ses a);
  i_timer : timer (ses a) ≠ None → st a = TLS_CONNECTING;
  i_checked : st a = TLS_CONNECTED → known_ok (session_evidence (tls_calls (jr a)));
  i_idle : st a = TLS_CONNECTING → pend a = []
}.

Lemma dcheck_holds b : b = true → MessageDigest.dcheck dc b = Val ().
Proof. intros ->. apply md_dcheck_true. Qed.

Lemma adapter_new_inv socket cache verifier : inv (OpenSSLAdapter_new socket cache verifier).
Proof. split; [split; [split|..]|..]; simpl; try done; [by intros [|]|by destruct cache]. Qed.

(** ** Calls of OpenSSL *)

Definition same_conn (a a' : sadapter) : Prop :=
  st a' = st a ∧ pend a' = pend a ∧ ssl_ (ses a') = ssl_ (ses a) ∧ ssl_ctx_ (ses a') = ssl_ctx_ (ses a) ∧
  timer (ses a') = timer (ses a) ∧ alpn_protocols_ (conf a') = alpn_protocols_ (conf a) ∧
  (ssl_session_cache_ a' = None ↔ ssl_session_cache_ a = None).

Definition more_calls (es : list tls_event) (j : journal) : journal :=
  Journal (tls_calls j ++ es) (fired j) (clear_text j) (tls_sent j) (tls_received j) (accepted j) (delivered j).

Lemma verify_same s v a : ∃ ok a', SSLVerifyCallback s v a = (ok, a') ∧ same_conn a a' ∧ jr a' = jr a.
Proof.
  unfold SSLVerifyCallback, SSLVerifyInternal. destruct (s || _); [|destruct v]; simpl.
  all: repeat match goal with |- context [if ?b then _ else _] => destruct b end; by eexists _, _.
Qed.

Lemma same_conn_trans a b c : same_conn a b → same_conn b c → same_conn a c.
Proof. unfold same_conn. intros; destruct_and!; split_and!; try congruence. by etrans. Qed.

Lemma shown_same l : ∀ a, let a' := foldl (λ a c, let '(ok, a) := SSLVerifyCallback c.1 c.2 a in log_call (TVerdict ok) a) a l in
  same_conn a a' ∧ ∃ v, Forall is_verdict v ∧ jr a' = more_calls v (jr a).
Proof.
  induction l as [|[s v] l IH]; intros a; simpl.
  - split; [done|]. exists []. split; [done|]. unfold more_calls. rewrite app_nil_r. by destruct (jr a).
  - destruct (verify_same s v a) as (ok & a1 & -> & Hs & Hj). destruct (IH (log_call (TVerdict ok) a1)) as (Hs2 & vs & Hvs & Hj2).
    split; [by eapply same_conn_trans; [exact Hs|]|]. exists (TVerdict ok :: vs). split; [by constructor|].
    rewrite Hj2. simpl. rewrite Hj. unfold more_calls. simpl. by rewrite <- app_assoc.
Qed.

Lemma tls_call_spec e a : ssl_ (ses a) = true →
  ∃ a' v, tls_call e a = Val (tls_error (tls_calls (jr a')), a') ∧ same_conn a a' ∧ Forall is_verdict v ∧ jr a' = more_calls (e :: v) (jr a).
Proof.
  intros Hs. unfold tls_call. rewrite Hs. cbn [negb].
  destruct (shown_same (tls_shown (tls_calls (jr (log_call e a)))) (log_call e a)) as (H1 & v & Hv & Hj).
  set (a1 := foldl _ _ _) in *. assert (jr a1 = more_calls (e :: v) (jr a)) as Hj1.
  { rewrite Hj. unfold more_calls. simpl. by rewrite <- app_assoc. }
  destruct (tls_new_session _) as [s|]; [|by exists a1, v].
  exists (NewSSLSessionCallback s a1), v. split; [done|]. unfold NewSSLSessionCallback.
  destruct (ssl_session_cache_ a1) eqn:Hc; [|by split_and!]. split; [|by split]. eapply same_conn_trans; [exact H1|].
  split_and!; try done. simpl. rewrite Hc. done.
Qed.

Definition plain (e : tls_event) : Prop := match e with TSslNew | TPostCheck _ => False | _ => True end.

Lemma evidence_plain h es : Forall plain es → session_evidence (h ++ es) = session_evidence h.
Proof.
  unfold session_evidence. rewrite foldl_app. generalize (foldl (λ known e, match e with TSslNew => None | TPostCheck ev => Some ev | _ => known end) None h).
  intros k H. revert k. induction H as [|e es He _ IH]; intros k; simpl; [done|]. by destruct e.
Qed.

Lemma plain_call e v : plain e → Forall is_verdict v → Forall plain (e :: v).
Proof. intros He Hv. constructor; [done|]. eapply Forall_impl; [exact Hv|]. by intros []. Qed.

(** A call changes nothing of what is known. *)
Lemma core_same a a' es : core a → same_conn a a' → Forall plain es → jr a' = more_calls es (jr a) → core a'.
Proof.
  intros [[H1 H2 H3] H4 H5 H6 H7] (E1 & E2 & E3 & E4 & E5 & E6 & E7) Hp Hj.
  split; [split|..]; rewrite ?E2, ?E3, ?E6, ?Hj; simpl; try done. by rewrite evidence_plain.
Qed.

Lemma inv_calls a a' es : inv a → same_conn a a' → Forall plain es → jr a' = more_calls es (jr a) → inv a'.
Proof.
  intros [Hc H1 H2 H3 H4 H5 H6] Hs Hp Hj. pose proof Hs as (E1 & E2 & E3 & E4 & E5 & E6 & E7).
  split; rewrite ?E1, ?E2, ?E3, ?E4, ?E5; try done; [by eapply core_same|by intros ?%E7; apply H3|].
  rewrite Hj. simpl. by rewrite evidence_plain.
Qed.

Lemma tls_call_inv e a : inv a → ssl_ (ses a) = true → plain e →
  ∃ a' v, tls_call e a = Val (tls_error (tls_calls (jr a')), a') ∧ inv a' ∧ same_conn a a' ∧ Forall is_verdict v ∧ jr a' = more_calls (e :: v) (jr a).
Proof.
  intros Hi Hs He. destruct (tls_call_spec e a Hs) as (a' & v & Hr & Hsame & Hv & Hj). exists a', v.
  split; [done|]. split; [|done]. by apply (inv_calls a a' (e :: v)); [..|apply plain_call|].
Qed.

Definition set_calls (es : list tls_event) (j : journal) : journal :=
  Journal es (fired j) (clear_text j) (tls_sent j) (tls_received j) (accepted j) (delivered j).

(** Changes that concern neither the session nor the data. *)
Definition same_data (j j' : journal) : Prop :=
  tls_calls j' = tls_calls j ∧ tls_sent j' = tls_sent j ∧ tls_received j' = tls_received j ∧ accepted j' = accepted j ∧ delivered j' = delivered j.

Lemma core_alike a a' : core a → same_conn a a' → same_data (jr a) (jr a') → core a'.
Proof.
  intros [[H1 H2 H3] H4 H5 H6 H7] (E1 & E2 & E3 & E4 & E5 & E6 & E7) (J1 & J2 & J3 & J4 & J5).
  split; [split|..]; rewrite ?E2, ?E3, ?E6, ?J1, ?J2, ?J3, ?J4, ?J5; done.
Qed.

Lemma inv_alike a a' : inv a → same_conn a a' → same_data (jr a) (jr a') → inv a'.
Proof.
  intros [Hc H1 H2 H3 H4 H5 H6] Hs Hj. pose proof Hs as (E1 & E2 & E3 & E4 & E5 & E6 & E7). pose proof Hj as (J1 & _).
  split; rewrite ?E1, ?E2, ?E3, ?E4, ?E5, ?J1; try done; [by eapply core_alike|by intros ?%E7; apply H3].
Qed.

(** ** Functions *)

Section Functions.
Context (slots : asignal → sadapter → res sadapter).
Hypothesis slots_ok : ∀ s a, inv a → ∃ a', slots s a = Val a' ∧ inv a'.

Definition ok_res (r : res sadapter) : Prop := ∃ a', r = Val a' ∧ inv a'.

Lemma fire_ok s a : inv a → ok_res (fire slots s a).
Proof. intros Hi. apply slots_ok. by apply (inv_alike a). Qed.

Definition alpn_ok (a : sadapter) : Prop := Z.of_nat (length (TransformAlpnProtocols (alpn_protocols_ (conf a)) [])) ≤ 4294967295.

Lemma ad_Cleanup_inv a : logs (jr a) → alpn_ok a → inv (Cleanup a).
Proof. intros [H1 H2 H3] H4. split; [split; [split|..]|..]; simpl; try done. by intros [|]. Qed.

Lemma Cleanup_core a : core a → inv (Cleanup a).
Proof. intros Hc. by apply ad_Cleanup_inv; apply Hc. Qed.

(** Before an error nothing is needed but that the timer is off. *)
Lemma ad_Error_ok err sig a :
  core a → (ssl_session_cache_ a = None → ssl_ctx_ (ses a) = ssl_ (ses a)) → timer (ses a) = None → ok_res (Error slots err sig a).
Proof.
  intros [[H1 H2 H3] H4 H5 H6 H7] Hx Ht. unfold Error. assert (inv (SetError err (on_ses (upd_state TLS_ERROR) a))) as Hi.
  { split; [by split|..]; simpl; rewrite ?Ht; try done; by intros [|]. }
  destruct sig; [by apply fire_ok|by eexists].
Qed.

Lemma ad_Close_ok a : core a → inv (Close a).
Proof. intros Hc. unfold Close. by apply (inv_alike (Cleanup a)); [apply Cleanup_core|..]. Qed.

(** ** The handshake *)

Record connecting (a : sadapter) : Prop := Connecting {
  cn_inv : inv a;
  cn_state : st a = TLS_CONNECTING
}.

Lemma stop_timer_inv a : inv a → inv (on_ses (upd_timer None) a) ∧ st (on_ses (upd_timer None) a) = st a.
Proof. intros [[] H1 H2 H3 H4 H5 H6]. split; [|done]. split; [by split|..]; simpl; done. Qed.

(** A failed step leaves the adapter without a timer. *)
Lemma ad_ContinueSSL_ok a : inv a → st a = TLS_CONNECTING →
  ∃ err a', ContinueSSL dc slots a = Val (err, a') ∧ inv a' ∧ (err ≠ 0 → timer (ses a') = None).
Proof.
  intros Hi Hst. unfold ContinueSSL. rewrite dcheck_holds by (by rewrite Hst). cbn [mbind_res].
  destruct (stop_timer_inv a Hi) as [Hi1 Hst1]. set (a1 := on_ses (upd_timer None) a) in *. rewrite Hst in Hst1.
  destruct (tls_call_inv (match role_ (conf a1) with SSL_CLIENT => TConnect | SSL_SERVER => TAccept end) a1 Hi1) as (a2 & v & -> & Hi2 & Hs & Hv & Hj);
    [by apply (i_open _ Hi1); left|by destruct (role_ _)|]. cbn [mbind_res].
  pose proof Hs as (E1 & E2 & E3 & E4 & E5 & E6 & E7). rewrite Hst1 in E1. change (timer (ses a1)) with (None : option Z) in E5.
  destruct (_ =? SSL_ERROR_NONE).
  - unfold SSLPostConnectionCheck. set (e := Evidence _ _ _ _). cbn zeta.
    destruct (if negb (names_host e && _) && errors_ignored e then true else _) eqn:Hok; cbn [negb].
    + assert (inv (on_ses (upd_state TLS_CONNECTED) (log_call (TPostCheck e) a2))) as Hi3.
      { assert (acceptable e = true) as Hacc by (unfold acceptable; by destruct (names_host e && _), (errors_ignored e)).
        assert (known_ok (session_evidence (tls_calls (jr a2) ++ [TPostCheck e]))) as Hk.
        { exists e. split; [|done]. unfold session_evidence. by rewrite foldl_app. }
        destruct Hi2 as [[] H1 H2 H3 H4 H5 H6]. split; [split|..]; simpl; try done; [by destruct c_logs0|by intros Hp; split; [apply c_pending0|]|by intros _; apply H1; left|by intros [|]]. }
      destruct (fire_ok SignalConnectEvent _ Hi3) as (a3 & -> & Hi4). cbn [mbind_res]. by eexists _, _.
    + eexists _, _. split; [done|]. split; [|done]. apply ad_Cleanup_inv; [|apply Hi2]. by destruct (c_logs _ (i_core _ Hi2)).
  - destruct (_ =? SSL_ERROR_WANT_READ).
    { destruct (tls_timeout _) as [[sec usec]|]; [|by eexists _, _]. eexists _, _. split; [done|]. split; [|done].
      destruct Hi2 as [[] H1 H2 H3 H4 H5 H6]. split; [by split|..]; simpl; done. }
    destruct (_ =? SSL_ERROR_WANT_WRITE); [by eexists _, _|]. eexists _, _. split; [done|]. by rewrite E5.
Qed.

(** Before a session. *)
Record unopened (a : sadapter) : Prop := Unopened {
  uo_logs : logs (jr a);
  uo_alpn : alpn_ok a;
  uo_pend : pend a = [];
  uo_state : st a = TLS_CONNECTING;
  uo_timer : timer (ses a) = None
}.

Lemma inv_starting a : inv a → st a = TLS_NONE ∨ st a = TLS_WAIT →
  unopened (on_ses (upd_state TLS_CONNECTING) a) ∧ (ssl_session_cache_ a = None → ssl_ctx_ (ses a) = false).
Proof.
  intros [[] H1 H2 H3 H4 H5 H6] Hst. split; [|intros Hc; rewrite (H3 Hc); by apply H2]. split; simpl; try done.
  - destruct (pend a); [done|]. destruct (c_pending0 ltac:(done)). by rewrite H2 in *.
  - destruct (timer (ses a)); [|done]. rewrite H4 in Hst by done. by destruct Hst.
Qed.

Lemma unopened_ctx b a : unopened a → unopened (on_ses (upd_ctx b) a).
Proof. intros [H1 H2 H3 H4 H5]. by split. Qed.

Lemma unopened_call e a : unopened a → unopened (log_call e a).
Proof. intros [[] H2 H3 H4 H5]. by split. Qed.

(** The context is there or it is made. *)
Lemma context_ok a : unopened a → (ssl_session_cache_ a = None → ssl_ctx_ (ses a) = false) →
  ∃ a', match ssl_session_cache_ a with
            | Some _ => Val a
            | None => let* _ := MessageDigest.dcheck dc (negb (ssl_ctx_ (ses a))) in
                let '(ok, a) := CreateContext (ssl_mode_ (conf a)) false a in Val (on_ses (upd_ctx ok) a)
            end = Val a' ∧ unopened a'.
Proof.
  intros Hu Hx. destruct (ssl_session_cache_ a) as [m|] eqn:Hc; [by exists a|].
  rewrite dcheck_holds by (by rewrite Hx). eexists. split; [done|].
  by apply unopened_ctx, unopened_call.
Qed.

(** A session that was set up: nothing was exchanged in it. *)
Lemma fresh_session a : unopened a → ssl_ctx_ (ses a) = true →
  inv (on_ses (upd_ssl true) (start_session (log_call TSslNew a))) ∧ st (on_ses (upd_ssl true) (start_session (log_call TSslNew a))) = TLS_CONNECTING.
Proof.
  intros [[H1 H2 H3] H4 Hp Hst Ht] Hx. split; [|done].
  split; [split; [by split|..]|..]; simpl; rewrite ?Hst, ?Hp; try done. by intros [|].
Qed.

Lemma prepare_ok a : unopened a → (ssl_session_cache_ a = None → ssl_ctx_ (ses a) = false) →
  ∃ ok a', prepare dc a = Val (ok, a') ∧ logs (jr a') ∧ alpn_ok a' ∧ (ok = true → inv a' ∧ st a' = TLS_CONNECTING).
Proof.
  intros Hu Hx. unfold prepare. destruct (context_ok a Hu Hx) as (a1 & -> & Hu1). cbn [mbind_res].
  destruct (ssl_ctx_ (ses a1)) eqn:Hctx; cbn [negb]; [|eexists _, _; split; [done|]; by destruct Hu1].
  set (a2 := if identity_ (conf a1) then _ else a1). assert (unopened a2 ∧ ssl_ctx_ (ses a2) = true) as [Hu2 Hx2].
  { subst a2. destruct (identity_ _); [|done]. split; [by apply unopened_call|done]. }
  destruct (_ && _); [eexists _, _; split; [done|]; by destruct Hu2|].
  pose proof (unopened_call TBioNew a2 Hu2) as Hu3. destruct (negb (tls_bio_ok _)); [eexists _, _; split; [done|]; by destruct Hu3|].
  destruct (negb (tls_new_ok _)). { eexists _, _. split; [done|]. by destruct Hu3 as [[] ? ? ? ?]. }
  destruct (fresh_session _ Hu3 Hx2) as [Hi4 Hst4]. set (a4 := on_ses (upd_ssl true) _) in *.
  set (cached := if bool_decide _ then None else _). clearbody cached.
  set (a5 := match cached with Some s => _ | None => a4 end).
  assert (inv a5 ∧ st a5 = TLS_CONNECTING) as [Hi5 Hst5].
  { subst a5. destruct cached as [s|]; [|done]. split; [|done]. by apply (inv_calls a4 _ [TSetSession s]); [..|by repeat constructor|]. }
  match goal with |- context [if ?b then Val (false, a5) else _] => destruct b end;
    [eexists _, _; split; [done|]; split; [apply Hi5|split; [apply Hi5|done]]|].
  rewrite dcheck_holds by (apply Z.leb_le, Hi5). cbn [mbind_res]. eexists _, _. split; [done|]. split; [apply Hi5|]. split; [apply Hi5|done].
Qed.

Lemma ad_BeginSSL_ok a : unopened a → (ssl_session_cache_ a = None → ssl_ctx_ (ses a) = false) →
  ∃ err a', BeginSSL dc slots a = Val (err, a') ∧ inv a' ∧ (err ≠ 0 → timer (ses a') = None).
Proof.
  intros Hu Hx. unfold BeginSSL. rewrite dcheck_holds by (by rewrite (uo_state _ Hu)). cbn [mbind_res].
  destruct (prepare_ok a Hu Hx) as (ok & a1 & -> & Hl & Ha & Hok). cbn [mbind_res].
  destruct ok; cbn [negb]; [|eexists _, _; split; [done|]; split; [by apply ad_Cleanup_inv|done]].
  destruct (Hok eq_refl) as [Hi1 Hst1]. destruct (ad_ContinueSSL_ok a1 Hi1 Hst1) as (err & a2 & -> & Hi2 & Ht2). cbn [mbind_res].
  destruct (negb (err =? 0)); [|by eexists _, _]. eexists _, _. split; [done|]. split; [by apply Cleanup_core, Hi2|done].
Qed.

Lemma ad_StartSSL_ok host a : inv a → ∃ err a', StartSSL dc slots host a = Val (err, a') ∧ inv a'.
Proof.
  intros Hi. unfold StartSSL. case_bool_decide as Hst; cbn [negb]; [|by eexists _, _].
  assert (inv (set_host host a)) as Hi1 by (by apply (inv_alike a)).
  case_bool_decide; cbn [negb].
  - destruct (inv_starting (set_host host a) Hi1 (or_introl Hst)) as [Hu Hx].
    destruct (ad_BeginSSL_ok _ Hu Hx) as (err & a1 & -> & Hi2 & Ht). cbn [mbind_res].
    destruct (Z.eqb_spec err 0); cbn [negb]; [by eexists _, _|].
    destruct (ad_Error_ok err false a1 (i_core _ Hi2) (i_ctx _ Hi2) (Ht ltac:(done))) as (a2 & -> & Hi3). cbn [mbind_res]. by eexists _, _.
  - eexists _, _. split; [done|]. destruct Hi1 as [[] H1 H2 H3 H4 H5 H6]. split; [by split|..]; simpl in *; rewrite ?Hst in *; try done.
    + by intros [|].
    + intros _. apply H2. by left.
    + by intros ?%H4.
Qed.

(** ** Data *)

(** A session that data goes through. *)
Record usable (a : sadapter) : Prop := Usable {
  us_inv : inv a;
  us_ssl : ssl_ (ses a) = true;
  us_known : known_ok (session_evidence (tls_calls (jr a)));
  us_timer : timer (ses a) = None
}.

Lemma connected_usable a : inv a → st a = TLS_CONNECTED → usable a.
Proof.
  intros Hi Hst. split; [done|apply (i_open _ Hi); by right|by apply (i_checked _ Hi)|].
  destruct (timer (ses a)) eqn:Ht; [|done]. rewrite (i_timer _ Hi) in Hst by (by rewrite Ht). done.
Qed.

Lemma pending_usable a : inv a → pend a ≠ [] → usable a.
Proof.
  intros Hi Hp. destruct (c_pending _ (i_core _ Hi) Hp) as [Hs Hk]. split; [done|done|done|].
  destruct (timer (ses a)) eqn:Ht; [|done]. destruct Hp. apply (i_idle _ Hi), (i_timer _ Hi). by rewrite Ht.
Qed.

(** What a write of no more than a record comes to: it is delivered as a
    whole, or nothing of it is. *)
Inductive write_outcome (data : list Z) (a : sadapter) : Z → Z → sadapter → Prop :=
  | Delivered a1 :
      usable a1 → same_conn a a1 → same_data (jr a) (set_calls (tls_calls (jr a)) (jr a1)) →
      write_outcome data a (Z.of_nat (length data)) SSL_ERROR_NONE (log_sent data a1)
  | Blocked error a1 :
      inv a1 → same_conn a a1 → error ≠ SSL_ERROR_NONE → write_outcome data a SOCKET_ERROR error a1
  | Failed error a1 :
      inv a1 → error ≠ SSL_ERROR_NONE → error ≠ SSL_ERROR_WANT_READ → error ≠ SSL_ERROR_WANT_WRITE → write_outcome data a SOCKET_ERROR error a1.

Lemma DoSslWrite_ok data a :
  usable a → Z.of_nat (length data) ≤ RECORD →
  ∃ ret error a', DoSslWrite slots data a = Val (ret, error, a') ∧ write_outcome data a ret error a'.
Proof.
  intros [Hi Hs Hk Ht] Hlen. unfold DoSslWrite.
  assert (inv (on_ses (upd_write_nr false) a)) as Hi0 by (by apply (inv_alike a)).
  unfold cast_int. rewrite (proj2 (Z.leb_le _ _)) by (unfold RECORD, INT_LIMIT in *; lia). cbn [mbind_res].
  destruct (tls_call_inv (TWrite data) _ Hi0 Hs) as (a1 & v & -> & Hi1 & Hsame & Hv & Hj); [done|]. cbn [mbind_res].
  assert (same_conn a a1) as Hsa by exact Hsame. pose proof Hsa as (E1 & E2 & E3 & E4 & E5 & E6 & E7).
  destruct (Z.eqb_spec (tls_error (tls_calls (jr a1))) SSL_ERROR_NONE) as [He|He].
  { rewrite Hj in He |- *. simpl in He |- *. rewrite write_whole, Nat2Z.id, firstn_all, He by done.
    eexists _, _, _. split; [done|]. apply Delivered; [|done|].
    - split; [done|by rewrite E3| |by rewrite E5]. rewrite Hj. simpl. rewrite evidence_plain; [done|by apply plain_call].
    - rewrite Hj. by split_and!. }
  destruct (_ =? SSL_ERROR_WANT_READ) eqn:Hwr. { eexists _, _, _. split; [done|]. apply Blocked; [by apply (inv_alike a1)|done|done]. }
  destruct (_ =? SSL_ERROR_WANT_WRITE) eqn:Hww. { eexists _, _, _. split; [done|]. apply Blocked; [by apply (inv_alike a1)|done|done]. }
  destruct (_ =? SSL_ERROR_ZERO_RETURN) eqn:Hz. { eexists _, _, _. split; [done|]. apply Blocked; [by apply (inv_alike a1)|done|done]. }
  match goal with |- context [Error slots ?e false a1] =>
    destruct (ad_Error_ok e false a1 (i_core _ Hi1) (i_ctx _ Hi1)) as (a2 & -> & Hi2); [by rewrite E5|] end.
  cbn [mbind_res]. eexists _, _, _. split; [done|]. apply Failed; [done|done|by apply Z.eqb_neq|by apply Z.eqb_neq].
Qed.

(** Pending data that was delivered is pending no more. *)
Lemma delivered_pending a a1 :
  pend a ≠ [] → inv a → usable a1 → same_conn a a1 → same_data (jr a) (set_calls (tls_calls (jr a)) (jr a1)) →
  inv (on_ses (upd_pending []) (log_sent (pend a) a1)).
Proof.
  intros Hp [Hc _ _ _ _ _ _] [[[[L1 L2 L3] H4 H5 H6 H7] I1 I2 I3 I4 I5 I6] Hs Hk Ht] (E1 & E2 & E3 & E4 & E5 & E6 & E7) _.
  assert (delivered (jr a1) ++ pend a = accepted (jr a1)) as Hst by (rewrite <- E2; by apply H4).
  split; [split; [split|..]|..]; simpl; try done.
  - apply Forall_app. split; [done|]. by repeat constructor.
  - by rewrite Hst.
  - by rewrite app_nil_r.
Qed.

Lemma flush_pending_ok a : inv a →
  ∃ b a', flush_pending slots a = Val (b, a') ∧ inv a' ∧ (b = true → pend a' = [] ∧ st a' = st a).
Proof.
  intros Hi. unfold flush_pending. case_bool_decide as Hp; [by eexists _, _|].
  pose proof (pending_usable a Hi Hp) as Hu.
  destruct (DoSslWrite_ok (pend a) a Hu (c_length _ (i_core _ Hi))) as (ret & error & a' & -> & Ho). cbn [mbind_res].
  assert (Z.of_nat (length (pend a)) ≠ SOCKET_ERROR) as Hne by (unfold SOCKET_ERROR; lia).
  destruct Ho as [a1 Hu1 Hs Hd|error a1 Hi1 Hs He|error a1 Hi1 He1 He2 He3].
  - rewrite Z.eqb_refl. eexists _, _. split; [done|]. split; [by apply delivered_pending|]. intros _. split; [done|]. apply Hs.
  - rewrite (proj2 (Z.eqb_neq _ _)) by done. by eexists _, _.
  - rewrite (proj2 (Z.eqb_neq _ _)) by done. by eexists _, _.
Qed.

(** Data that was delivered at once. *)
Lemma delivered_new data a :
  usable a → pend a = [] → inv (log_accepted data (log_sent data a)).
Proof.
  intros [[[[L1 L2 L3] H4 H5 H6 H7] I1 I2 I3 I4 I5 I6] Hs Hk Ht] Hp.
  assert (delivered (jr a) = accepted (jr a)) as Hst by (rewrite <- H4, Hp, app_nil_r; done).
  split; [split; [split|..]|..]; simpl; try done.
  - apply Forall_app. split; [done|]. by repeat constructor.
  - by rewrite Hst.
  - intros _. by rewrite Hp, app_nil_r, Hst.
Qed.

(** Data that was buffered. *)
Lemma buffered_new data a :
  inv a → st a = TLS_CONNECTED → pend a = [] → Z.of_nat (length data) ≤ RECORD → inv (log_accepted data (on_ses (upd_pending data) a)).
Proof.
  intros Hi Hst Hp Hlen. destruct (connected_usable a Hi Hst) as [_ Hs Hk Ht].
  destruct Hi as [[[L1 L2 L3] H4 H5 H6 H7] I1 I2 I3 I4 I5 I6].
  assert (delivered (jr a) = accepted (jr a)) as Hda by (rewrite <- H4, Hp, app_nil_r; done).
  split; [split; [split|..]|..]; simpl; try done.
  - rewrite Hda. by apply prefix_app_r.
  - intros _. by rewrite Hda.
  - by rewrite Hst.
Qed.

Lemma Send_ok data under a : inv a → Z.of_nat (length data) ≤ RECORD → ∃ r a', Send dc slots data under a = Val (r, a') ∧ inv a'.
Proof.
  intros Hi Hlen. unfold Send. destruct (st a) eqn:Hst; [| | | |by eexists _, _].
  - eexists _, _. split; [done|]. by apply (inv_alike a).
  - eexists _, _. split; [done|]. by apply (inv_alike a).
  - eexists _, _. split; [done|]. by apply (inv_alike a).
  - destruct (flush_pending_ok a Hi) as (b & a1 & -> & Hi1 & Hb). cbn [mbind_res].
    destruct b; cbn [negb]. 2: { eexists _, _. split; [done|]. by apply (inv_alike a1). }
    destruct (Hb eq_refl) as [Hp1 Hst1]. rewrite Hst in Hst1. case_bool_decide as Hd; [by eexists _, _|].
    rewrite (dcheck_holds (bool_decide (pend a1 = []))) by (by rewrite Hp1). cbn [mbind_res].
    destruct (DoSslWrite_ok data a1 (connected_usable _ Hi1 Hst1) Hlen) as (ret & error & a' & -> & Ho). cbn [mbind_res].
    destruct Ho as [a2 Hu2 Hs Hdt|error a2 Hi2 Hs He|error a2 Hi2 He1 He2 He3].
    + cbn [Z.eqb orb SSL_ERROR_NONE SSL_ERROR_WANT_READ SSL_ERROR_WANT_WRITE].
      rewrite (proj2 (Z.ltb_lt _ _)) by (destruct data; simpl; [done|lia]). rewrite Nat2Z.id, firstn_all.
      eexists _, _. split; [done|]. apply delivered_new; [done|]. destruct Hs as (_ & -> & _). done.
    + assert (st a2 = TLS_CONNECTED ∧ pend a2 = []) as [Hst2 Hp2] by (destruct Hs as (-> & -> & _); done).
      destruct (_ || _); [|by eexists _, _]. rewrite (dcheck_holds (bool_decide (pend a2 = []))) by (by rewrite Hp2). cbn [mbind_res].
      rewrite dcheck_holds by (apply Z.leb_le; unfold RECORD, INT_LIMIT in *; lia). cbn [mbind_res].
      eexists _, _. split; [done|]. by apply buffered_new.
    + rewrite (proj2 (Z.eqb_neq error SSL_ERROR_WANT_READ)), (proj2 (Z.eqb_neq error SSL_ERROR_WANT_WRITE)) by done. by eexists _, _.
Qed.

Lemma Recv_ok cb under a : inv a → 0 ≤ cb ≤ INT_LIMIT → ∃ r bs a', Recv slots cb under a = Val (r, bs, a') ∧ inv a'.
Proof.
  intros Hi Hcb. unfold Recv. destruct (st a) eqn:Hst; [| | | |by eexists _, _, _].
  - destruct under as [r bs]. by eexists _, _, _.
  - eexists _, _, _. split; [done|]. by apply (inv_alike a).
  - eexists _, _, _. split; [done|]. by apply (inv_alike a).
  - destruct (cb =? 0); [by eexists _, _, _|]. destruct (connected_usable a Hi Hst) as [_ Hs Hk Ht].
    assert (inv (on_ses (upd_read_nw false) a)) as Hi0 by (by apply (inv_alike a)).
    unfold cast_int. rewrite (proj2 (Z.leb_le _ _)) by lia. cbn [mbind_res].
    destruct (tls_call_inv (TRead cb) _ Hi0 Hs) as (a1 & v & -> & Hi1 & Hsame & Hv & Hj); [done|]. cbn [mbind_res].
    pose proof Hsame as (E1 & E2 & E3 & E4 & E5 & E6 & E7).
    destruct (_ =? SSL_ERROR_NONE).
    { eexists _, _, _. split; [done|]. pose proof (i_checked _ Hi1) as Hk1. rewrite E1 in Hk1. specialize (Hk1 Hst).
      destruct Hi1 as [[[L1 L2 L3] H4 H5 H6 H7] I1 I2 I3 I4 I5 I6]. split; [split; [split|..]|..]; simpl; try done.
      apply Forall_app. split; [done|]. by repeat constructor. }
    destruct (_ =? SSL_ERROR_WANT_READ). { eexists _, _, _. split; [done|]. by apply (inv_alike a1). }
    destruct (_ =? SSL_ERROR_WANT_WRITE). { eexists _, _, _. split; [done|]. by apply (inv_alike a1). }
    destruct (_ =? SSL_ERROR_ZERO_RETURN). { eexists _, _, _. split; [done|]. by apply (inv_alike a1). }
    match goal with |- context [Error slots ?e false a1] =>
      destruct (ad_Error_ok e false a1 (i_core _ Hi1) (i_ctx _ Hi1)) as (a2 & -> & Hi2); [by rewrite E5|] end.
    cbn [mbind_res]. by eexists _, _, _.
Qed.

(** ** Events *)

Lemma OnMessage_ok a : inv a → ok_res (OnMessage dc slots a).
Proof.
  intros Hi. unfold OnMessage. destruct (timer (ses a)) eqn:Ht; [|by eexists].
  assert (st a = TLS_CONNECTING) as Hst by (apply Hi; by rewrite Ht). destruct (stop_timer_inv a Hi) as [Hi1 Hst1]. rewrite Hst in Hst1.
  rewrite (i_open _ Hi1) by (by left). cbn [negb].
  destruct (ad_ContinueSSL_ok (log_call THandleTimeout (on_ses (upd_timer None) a))) as (err & a' & -> & Hi' & _); [|done|by eexists].
  by apply (inv_calls (on_ses (upd_timer None) a) _ [THandleTimeout]); [..|by repeat constructor|].
Qed.

Lemma OnConnectEvent_ok a : inv a → st a = TLS_NONE ∨ st a = TLS_WAIT → ok_res (OnConnectEvent dc slots a).
Proof.
  intros Hi Hst. unfold OnConnectEvent. case_bool_decide as Hw; cbn [negb].
  - destruct (inv_starting a Hi Hst) as [Hu Hx]. destruct (ad_BeginSSL_ok _ Hu Hx) as (err & a1 & -> & Hi1 & _). cbn [mbind_res].
    destruct (negb _); [by apply fire_ok|by eexists].
  - rewrite dcheck_holds by (apply bool_decide_true; by destruct Hst). by apply fire_ok.
Qed.

Lemma continue_or_end_ok a : inv a → st a = TLS_CONNECTING → ok_res (continue_or_end dc slots a).
Proof.
  intros Hi Hst. unfold continue_or_end. destruct (ad_ContinueSSL_ok a Hi Hst) as (err & a1 & -> & Hi1 & Ht). cbn [mbind_res].
  destruct (Z.eqb_spec err 0); cbn [negb]; [by eexists|]. apply ad_Error_ok; [apply Hi1|apply Hi1|by apply Ht].
Qed.

Lemma fire_if_ok (b : bool) s a : inv a → ok_res (if b then fire slots s a else Val a).
Proof. intros Hi. destruct b; [by apply fire_ok|by eexists]. Qed.

Lemma OnReadEvent_ok a : inv a → ok_res (OnReadEvent dc slots a).
Proof.
  intros Hi. unfold OnReadEvent. destruct (st a) eqn:Hst; [by apply fire_ok|by eexists|by apply continue_or_end_ok| |by eexists].
  destruct (fire_if_ok (ssl_write_needs_read_ (ses a)) SignalWriteEvent a Hi) as (a1 & -> & Hi1). cbn [mbind_res]. by apply fire_ok.
Qed.

Lemma OnWriteEvent_ok a : inv a → ok_res (OnWriteEvent dc slots a).
Proof.
  intros Hi. unfold OnWriteEvent. destruct (st a) eqn:Hst; [by apply fire_ok|by eexists|by apply continue_or_end_ok| |by eexists].
  destruct (fire_if_ok (ssl_read_needs_write_ (ses a)) SignalReadEvent a Hi) as (a1 & -> & Hi1). cbn [mbind_res].
  destruct (flush_pending_ok a1 Hi1) as (b & a2 & -> & Hi2 & _). cbn [mbind_res]. by apply fire_ok.
Qed.

Lemma ad_set_conf_inv c a : inv a → Z.of_nat (length (TransformAlpnProtocols (alpn_protocols_ c) [])) ≤ 4294967295 → inv (set_conf c a).
Proof. intros [[] H1 H2 H3 H4 H5 H6] Hc. split; [by split|..]; done. Qed.

Lemma ad_run_call_ok c a : inv a → permitted a c → ok_res (run_call dc slots c a).
Proof.
  intros Hi Hp. pose proof (c_alpn _ (i_core _ Hi)) as Hal. destruct c; simpl in *.
  - destruct (ad_StartSSL_ok host a Hi) as (? & ? & -> & ?). by eexists.
  - destruct (Send_ok data under a Hi Hp) as (? & ? & -> & ?). by eexists.
  - unfold SendTo. destruct (_ && _); [destruct (Send_ok data under a Hi Hp) as (? & ? & -> & ?); by eexists|].
    eexists. split; [done|]. by apply (inv_alike a).
  - destruct (Recv_ok cb under a Hi Hp) as (? & ? & ? & -> & ?). by eexists.
  - unfold RecvFrom. case_bool_decide; [destruct (Recv_ok cb under a Hi Hp) as (? & ? & ? & -> & ?); by eexists|].
    eexists. split; [done|]. by apply (inv_alike a).
  - eexists. split; [done|]. apply ad_Close_ok, Hi.
  - by apply OnMessage_ok.
  - by apply OnConnectEvent_ok.
  - by apply OnReadEvent_ok.
  - by apply OnWriteEvent_ok.
  - by apply fire_ok.
  - eexists. split; [done|]. by apply (inv_alike a).
  - eexists. split; [done|]. destruct (ssl_session_cache_ a) eqn:Hc; [|done]. apply (inv_alike a); [done| |done].
    split_and!; try done. simpl. by rewrite Hc.
  - eexists. split; [done|]. by apply ad_set_conf_inv.
  - eexists. split; [done|]. by apply ad_set_conf_inv.
  - eexists. split; [done|]. by apply ad_set_conf_inv.
  - unfold SetMode. destruct Hp as [-> ->]. rewrite !dcheck_holds by done. eexists. split; [done|]. by apply ad_set_conf_inv.
  - unfold SetCertVerifier. rewrite Hp, dcheck_holds by done. eexists. split; [done|]. by apply ad_set_conf_inv.
  - unfold SetIdentity. rewrite Hp, dcheck_holds by done. eexists. split; [done|]. by apply ad_set_conf_inv.
  - eexists. split; [done|]. by apply ad_set_conf_inv.
Qed.
End Functions.

(** ** Programs *)

Section Clients.
Context (client : asignal → nat → sadapter → option acall).
Hypothesis client_permitted : ∀ s i a c, client s i a = Some c → permitted a c.

Lemma slots_run_ok n : ∀ s i a, inv a → ok_res (client_run dc client n s i a).
Proof.
  induction n as [|n IH]; intros s i a Hi; simpl; [by eexists|].
  destruct (client s i a) as [c|] eqn:Hc; [|by eexists].
  destruct (ad_run_call_ok (λ s a, client_run dc client n s 0 a) (λ s a, IH s 0%nat a) c a Hi (client_permitted _ _ _ _ Hc)) as (a1 & -> & Hi1).
  by apply IH.
Qed.

Lemma adapter_call_ok n c a : inv a → permitted a c → ok_res (run_call dc (λ s a, client_run dc client n s 0 a) c a).
Proof. apply ad_run_call_ok. intros s b. apply slots_run_ok. Qed.

Lemma adapter_reachable_inv a : reachable dc client a → inv a.
Proof.
  induction 1 as [|a c n a' _ IH Hp Hr]; [apply adapter_new_inv|].
  destruct (adapter_call_ok n c a IH Hp) as (a1 & Hr1 & Hi1). rewrite Hr in Hr1. by simplify_eq.
Qed.

(** C6: Whatever the network, the timers and the program do, as long as no more
    than a record is sent at once: every call returns and fails no check; data
    went through TLS only in sessions whose certificate passed the check of the
    host and of the chain (or the program accepted it, or errors are ignored);
    and the bytes that [Send] took in a session are those that OpenSSL took, in
    order, each once, followed by the bytes that are pending. *)
Theorem tls_socket_delivers a :
  reachable dc client a →
  Forall exchange_ok (tls_sent (jr a) ++ tls_received (jr a)) ∧
  delivered (jr a) `prefix_of` accepted (jr a) ∧
  (st a = TLS_CONNECTED → delivered (jr a) ++ pend a = accepted (jr a)) ∧
  (∀ n c, permitted a c → ∃ a', run_call dc (λ s a, client_run dc client n s 0 a) c a = Val a').
Proof.
  intros Hr. pose proof (adapter_reachable_inv a Hr) as Hi. pose proof (c_logs _ (i_core _ Hi)) as [L1 L2 L3]. split_and!.
  - by apply Forall_app.
  - done.
  - intros Hst. apply (c_stream _ (i_core _ Hi)), (i_open _ Hi). by right.
  - intros n c Hp. destruct (adapter_call_ok n c a Hi Hp) as (a' & ? & _). by eexists.
Qed.
End Clients.
End Inv.

(** ** Sessions *)

(** The last call, without the callbacks it made. *)
Definition last_call (h : list tls_event) : option tls_event :=
  foldl (λ l e, match e with TVerdict _ => l | _ => Some e end) None h.

Definition count_calls (f : tls_event → bool) (h : list tls_event) : nat := length (List.filter f h).
Definition is_connect (e : tls_event) : bool := match e with TConnect | TAccept => true | _ => false end.
Definition is_write (e : tls_event) : bool := match e with TWrite _ => true | _ => false end.

(** An OpenSSL whose peer has a certificate of the host or not, whose handshake
    takes one step or two, and whose first write may block. *)
Definition demo_tls (good_host two_steps blocked : bool) : TlsLib := {|
  tls_ctx_ok _ := true; tls_identity_ok _ := true; tls_bio_ok _ := true; tls_new_ok _ := true; tls_set_session _ := 1;
  tls_shown h := match last_call h with Some TConnect => [(true, false)] | _ => [] end;
  tls_new_session _ := None;
  tls_error h :=
    match last_call h with
    | Some TConnect | Some TAccept => if two_steps && (count_calls is_connect h =? 1)%nat then SSL_ERROR_WANT_READ else SSL_ERROR_NONE
    | Some (TWrite _) => if blocked && (count_calls is_write h =? 1)%nat then SSL_ERROR_WANT_WRITE else SSL_ERROR_NONE
    | _ => SSL_ERROR_NONE
    end;
  tls_code h := match last_call h with Some (TWrite d) => Z.min (Z.of_nat (length d)) RECORD | Some (TRead n) => Z.min n 2 | _ => 1 end;
  tls_bytes h := match last_call h with Some (TRead n) => take (Z.to_nat n) [5; 6] | _ => [] end;
  tls_timeout h := if two_steps && (count_calls is_connect h =? 1)%nat then Some (0, 50000) else None;
  tls_peer_cert _ := true;
  tls_check_host _ _ := if good_host then 1 else 0;
  tls_verify_ok _ := true
|}.

Lemma last_call_app h e v : Forall is_verdict v → (∀ b, e ≠ TVerdict b) → last_call (h ++ e :: v) = Some e.
Proof.
  intros Hv He. unfold last_call. rewrite foldl_app. simpl.
  assert (∀ l k, Forall is_verdict l → foldl (λ l e, match e with TVerdict _ => l | _ => Some e end) k l = k) as H.
  { clear. intros l k Hl. revert k. induction Hl as [|[] l He _ IH]; intros k; simpl; done. }
  rewrite H by done. destruct e; try done. by destruct (He ok).
Qed.

#[global] Instance demo_tls_laws g t b : @TlsLaws (demo_tls g t b).
Proof. split. intros h d v Hv Hd _. simpl. rewrite last_call_app by done. lia. Qed.

(** A program that sends when it is connected and when it may write. *)
Definition eager_client (s : asignal) (i : nat) (a : sadapter) : option acall :=
  match s, i with
  | SignalConnectEvent, O => Some (CSend [1; 2; 3] 0)
  | SignalWriteEvent, O => Some (CSend [4] 0)
  | _, _ => None
  end.

Lemma eager_permitted s i a c : eager_client s i a = Some c → permitted a c.
Proof. destruct s, i; simpl; try done; intros [= <-]; simpl; unfold RECORD; lia. Qed.

(** Calls one after the other. [checked] says that only permitted ones are
    made. *)
Fixpoint run_calls (L : TlsLib) (client : asignal → nat → sadapter → option acall) (checked : bool) (cs : list acall) (a : sadapter) : option sadapter :=
  match cs with
  | [] => Some a
  | c :: cs =>
      if negb checked || bool_decide (permitted a c) then
        match run_call true (λ s a, client_run true client 3 s 0 a) c a with Val a => run_calls L client checked cs a | _ => None end
      else None
  end.

Lemma run_calls_reachable (L : TlsLib) client cs a a' :
  reachable true client a → run_calls L client true cs a = Some a' → reachable true client a'.
Proof.
  revert a. induction cs as [|c cs IH]; intros a Hr; simpl; [by intros [= <-]|].
  case_bool_decide as Hp; [|done]. destruct (run_call _ _ _ _) as [a1| | |] eqn:Hc; try done. apply IH.
  exact (reach_call true client a c 3 a1 Hr Hp Hc).
Qed.

Definition demo_host : list Z := b#"example.org".

Lemma tls_socket_delivers_witness :
  ∃ a, @reachable (demo_tls true true true) true eager_client a ∧ state_ (ses a) = TLS_CONNECTED ∧
    delivered (jr a) = [1; 2; 3; 4] ∧ x_bytes <$> tls_received (jr a) = [[5; 6]] ∧
    Forall exchange_ok (tls_sent (jr a) ++ tls_received (jr a)).
Proof.
  pose (L := demo_tls true true true).
  destruct (run_calls L eager_client true [CStartSSL demo_host; COnReadEvent; COnWriteEvent; CRecv 10 (0, [])] (OpenSSLAdapter_new CS_CONNECTED None false))
    as [a|] eqn:Ha; [|vm_compute in Ha; discriminate].
  exists a. assert (reachable true eager_client a) as Hr by (eapply run_calls_reachable; [apply reach_new|exact Ha]).
  split; [exact Hr|]. destruct (tls_socket_delivers true eager_client eager_permitted a Hr) as [Hf _].
  split_and!; [..|exact Hf]; vm_compute in Ha; injection Ha as <-; reflexivity.
Defined.

(** ** What goes wrong *)

Definition silent_client (s : asignal) (i : nat) (a : sadapter) : option acall := None.

(** A handshake that fails when the connection is made leaves the adapter as if
    TLS had never been asked for: what the program sends next goes out in clear
    text. When the socket was connected before, the adapter refuses to send. *)
Example failed_handshake_sends_clear_text :
  (∃ a, run_calls (demo_tls false false false) silent_client true
          [CStartSSL demo_host; COnConnectEvent; CSend [1; 2; 3] 3] (OpenSSLAdapter_new CS_CONNECTING None false) = Some a ∧
     fired (jr a) = [SignalCloseEvent (-1)] ∧ clear_text (jr a) = [[1; 2; 3]]) ∧
  (∃ a, run_calls (demo_tls false false false) silent_client true
          [CStartSSL demo_host; CSend [1; 2; 3] 3] (OpenSSLAdapter_new CS_CONNECTED None false) = Some a ∧
     state_ (ses a) = TLS_ERROR ∧ clear_text (jr a) = []).
Proof. split; eexists; (split; [vm_compute; reflexivity|by split]). Qed.

(** The same when the last step of the handshake comes with the timer, and then
    the program is not even told. *)
Example failed_timer_sends_clear_text :
  ∃ a, run_calls (demo_tls false true false) silent_client true
         [CSetMode SSL_MODE_DTLS; CStartSSL demo_host; COnMessage; CSend [1; 2; 3] 3] (OpenSSLAdapter_new CS_CONNECTED None false) = Some a ∧
    fired (jr a) = [] ∧ clear_text (jr a) = [[1; 2; 3]].
Proof. eexists. split; [vm_compute; reflexivity|by split]. Qed.

(** More than a record at once: when the write blocks at first, its start is
    delivered again each time the socket may be written. *)
Example large_send_repeats :
  let data := replicate (Z.to_nat RECORD) 1 ++ [2; 2] in
  match run_calls (demo_tls true false true) silent_client false
          [CStartSSL demo_host; CSend data 0; COnWriteEvent; COnWriteEvent] (OpenSSLAdapter_new CS_CONNECTED None false) with
  | Some a => bool_decide (accepted (jr a) = data) && bool_decide (delivered (jr a) = replicate (Z.to_nat (2 * RECORD)) 1)
  | None => false
  end = true.
Proof. vm_compute. reflexivity. Qed.

(** An adapter with a cache gives its context away when it is closed, and does
    not start again. *)
Example cached_adapter_starts_once :
  let calls := [CStartSSL demo_host; CClose; CSocket CS_CONNECTED; CStartSSL demo_host] in
  (∃ a, run_calls (demo_tls true false false) silent_client true calls (OpenSSLAdapter_new CS_CONNECTED (Some ∅) false) = Some a ∧
     state_ (ses a) = TLS_ERROR) ∧
  (∃ a, run_calls (demo_tls true false false) silent_client true calls (OpenSSLAdapter_new CS_CONNECTED None false) = Some a ∧
     state_ (ses a) = TLS_CONNECTED).
Proof. split; eexists; (split; [vm_compute; reflexivity|done]). Qed.

(** A socket that was accepted checks the certificate of the client against the
    empty host name: it connects only if errors are ignored. *)
Example accepted_checks_empty_host :
  let server := SetRole SSL_SERVER (OpenSSLAdapter_new CS_CONNECTED None false) in
  let accept ignore :=
    match SetIdentity true true (SetIgnoreBadCert ignore server) with
    | Val s => match @Accept (demo_tls true false false) true (λ _ a, Val a) (Some CS_CONNECTED) s with
               | Val (Some a) => Some (state_ (ses a)) | _ => None end
    | _ => None
    end in
  accept false = Some TLS_ERROR ∧ accept true = Some TLS_CONNECTED.
Proof. split; vm_compute; reflexivity. Qed.
