(* ===== verification/FieldTrial.v ===== *)
(** * Field trials (system_wrappers/source/field_trial.cc, include/field_trial.h)

    A text of names and groups, each ended by a slash, says which experiments
    are on. The theorems say which texts are valid, that merging two of them
    gives a valid one in which the second has precedence, and what is found in
    it. *)

From Stdlib Require Import Sorted.
From S2P Require Import Prelude StringEncode.

Definition kPersistentStringSeparator : Z := 47.

(** ** [std::map<std::string, std::string>] *)

Fixpoint str_lt (a b : list Z) : bool :=
  match a, b with
  | _, [] => false
  | [], _ :: _ => true
  | x :: a, y :: b => (x <? y) || ((x =? y) && str_lt a b)
  end.

Definition trial_map := list (list Z * list Z).

Fixpoint map_find (k : list Z) (m : trial_map) : option (list Z) :=
  match m with
  | [] => None
  | (k', v) :: m => if bool_decide (k = k') then Some v else map_find k m
  end.

(** [m[k] = v] *)
Fixpoint map_set (k v : list Z) (m : trial_map) : trial_map :=
  match m with
  | [] => [(k, v)]
  | (k', v') :: m' => if bool_decide (k = k') then (k, v) :: m' else if str_lt k k' then (k, v) :: m else (k', v') :: map_set k v m'
  end.

(** ** The texts *)

(** [find(c, pos)] *)
Definition find_sep (s : list Z) (pos : Z) : option Z :=
  (λ n, pos + n) <$> find_char (drop (Z.to_nat pos) s) kPersistentStringSeparator.

(** The name and the group at [next_item], and where the next ones start. *)
Definition next_trial (trials : list Z) (next_item : Z) : option (list Z * list Z * Z) :=
  match find_sep trials next_item with
  | None => None
  | Some name_end =>
      if next_item =? name_end then None
      else
        match find_sep trials (name_end + 1) with
        | None => None
        | Some group_name_end =>
            if name_end + 1 =? group_name_end then None
            else Some (substr trials next_item (name_end - next_item), substr trials (name_end + 1) (group_name_end - name_end - 1),
                       group_name_end + 1)
        end
  end.

(** No result when the fuel runs out. *)
Fixpoint valid_loop (fuel : nat) (trials : list Z) (next_item : Z) (field_trials : trial_map) : res bool :=
  if next_item <? Z.of_nat (length trials) then
    match fuel with
    | O => Undef
    | S fuel =>
        match next_trial trials next_item with
        | None => Val false
        | Some (name, group_name, next_item) =>
            match map_find name field_trials with
            | Some g =>
                if negb (bool_decide (g = group_name)) then Val false
                else valid_loop fuel trials next_item (map_set name group_name field_trials)
            | None => valid_loop fuel trials next_item (map_set name group_name field_trials)
            end
        end
    end
  else Val true.

Definition FieldTrialsStringIsValidInternal (trials : list Z) : res bool :=
  if bool_decide (trials = []) then Val true else valid_loop (length trials) trials 0 [].

Definition FieldTrialsStringIsValid (trials_string : list Z) : res bool := FieldTrialsStringIsValidInternal trials_string.

(** The loop takes two tokens at a time and leaves the last. *)
Fixpoint insert_tokens (tokens : list (list Z)) (fieldtrial_map : trial_map) : trial_map :=
  match tokens with
  | name :: group :: tokens => insert_tokens tokens (map_set name group fieldtrial_map)
  | _ => fieldtrial_map
  end.

Section Ops.
Context (RTC_DCHECK_IS_ON : bool).

Definition InsertOrReplaceFieldTrialStringsInMap (fieldtrial_map : trial_map) (trials_string : list Z) : res trial_map :=
  let* valid := FieldTrialsStringIsValidInternal trials_string in
  if (valid : bool) then Val (insert_tokens (split trials_string 47) fieldtrial_map)
  else if RTC_DCHECK_IS_ON then Aborted else Val fieldtrial_map.

Definition MergeFieldTrialsStrings (first second : list Z) : res (list Z) :=
  let* fieldtrial_map := InsertOrReplaceFieldTrialStringsInMap [] first in
  let* fieldtrial_map := InsertOrReplaceFieldTrialStringsInMap fieldtrial_map second in
  Val (foldl (λ merged fieldtrial, merged ++ fieldtrial.1 ++ [47] ++ fieldtrial.2 ++ [47]) [] fieldtrial_map).

(** ** The text of the process *)

Fixpoint find_loop (fuel : nat) (trials_string name : list Z) (next_item : Z) : res (list Z) :=
  if next_item <? Z.of_nat (length trials_string) then
    match fuel with
    | O => Undef
    | S fuel =>
        match next_trial trials_string next_item with
        | None => Val []
        | Some (field_name, field_value, next_item) =>
            if bool_decide (name = field_name) then Val field_value else find_loop fuel trials_string name next_item
        end
    end
  else Val [].

Definition FindFullName (trials_init_string : option (list Z)) (name : list Z) : res (list Z) :=
  match trials_init_string with
  | None => Val []
  | Some trials_string => if bool_decide (trials_string = []) then Val [] else find_loop (length trials_string) trials_string name 0
  end.

(** [s.find(pat) == 0] *)
Definition begins_with (pat s : list Z) : bool := bool_decide (take (length pat) s = pat).

Definition IsEnabled (trials_init_string : option (list Z)) (name : list Z) : res bool :=
  let* g := FindFullName trials_init_string name in Val (begins_with (b#"Enabled") g).

Definition IsDisabled (trials_init_string : option (list Z)) (name : list Z) : res bool :=
  let* g := FindFullName trials_init_string name in Val (begins_with (b#"Disabled") g).

(** The new text of the process. *)
Definition InitFieldTrialsFromString (trials_string : option (list Z)) : res (option (list Z)) :=
  let* ok := match trials_string with Some s => FieldTrialsStringIsValidInternal s | None => Val true end in
  if RTC_DCHECK_IS_ON && negb ok then Aborted else Val trials_string.

Definition GetFieldTrialString (trials_init_string : option (list Z)) : option (list Z) := trials_init_string.
End Ops.

Example merge_demo :
  MergeFieldTrialsStrings true (b#"B/on/A/Enabled5/") (b#"B/off/C/x/") = Val (b#"A/Enabled5/B/off/C/x/") ∧
  IsEnabled (Some (b#"A/Enabled5/B/off/C/x/")) (b#"A") = Val true ∧
  FieldTrialsStringIsValid (b#"A/on") = Val false ∧ FieldTrialsStringIsValid (b#"A/on/A/off/") = Val false.
Proof. split_and!; vm_compute; reflexivity. Qed.

(** ** Texts and lists of trials *)

(** Lengths of texts with characters in between. *)
Ltac text_len := repeat progress (rewrite ?length_app in *; cbn [length] in *); lia.

Definition trial_text (p : list Z * list Z) : list Z := p.1 ++ 47 :: p.2 ++ [47].
Definition trials_text (ps : trial_map) : list Z := mjoin (trial_text <$> ps).
Definition well_named (p : list Z * list Z) : Prop := p.1 ≠ [] ∧ p.2 ≠ [] ∧ 47 ∉ p.1 ∧ 47 ∉ p.2.

(** A name is always with the same group. *)
Definition consistent (ps : trial_map) : Prop := ∀ n g g', (n, g) ∈ ps → (n, g') ∈ ps → g = g'.

Lemma trials_text_cons n g ps : trials_text ((n, g) :: ps) = n ++ 47 :: g ++ 47 :: trials_text ps.
Proof. unfold trials_text. cbn. unfold trial_text. cbn. rewrite <- !app_assoc. cbn. by rewrite <- app_assoc. Qed.

Lemma find_sep_app pre mid post : 47 ∉ mid → find_sep (pre ++ mid ++ 47 :: post) (Z.of_nat (length pre)) = Some (Z.of_nat (length (pre ++ mid))).
Proof.
  intros H. unfold find_sep. rewrite Nat2Z.id, drop_app_length. unfold kPersistentStringSeparator. rewrite find_char_app by done.
  cbn. f_equal. text_len.
Qed.

Lemma find_sep_Some pre rest n :
  find_sep (pre ++ rest) (Z.of_nat (length pre)) = Some n → ∃ mid post, rest = mid ++ 47 :: post ∧ 47 ∉ mid ∧ n = Z.of_nat (length (pre ++ mid)).
Proof.
  unfold find_sep. rewrite Nat2Z.id, drop_app_length. pose proof (find_char_spec rest kPersistentStringSeparator) as H.
  destruct (find_char _ _) as [k|]; [|done]. destruct H as (mid & post & -> & ? & ->). intros [= <-].
  exists mid, post. split_and!; [done|done|text_len].
Qed.

Lemma next_trial_app pre n g rest :
  well_named (n, g) →
  next_trial (pre ++ n ++ 47 :: g ++ 47 :: rest) (Z.of_nat (length pre)) = Some (n, g, Z.of_nat (length (pre ++ n ++ 47 :: g ++ [47]))).
Proof.
  intros (Hn & Hg & Hn47 & Hg47). simpl in *. unfold next_trial. rewrite find_sep_app by done.
  assert (0 < length n)%nat by (destruct n; simpl; [done|lia]). assert (0 < length g)%nat by (destruct g; simpl; [done|lia]).
  rewrite (proj2 (Z.eqb_neq _ _)) by (rewrite length_app; lia).
  assert (Z.of_nat (length (pre ++ n)) + 1 = Z.of_nat (length (pre ++ n ++ [47]))) as -> by text_len.
  assert (pre ++ n ++ 47 :: g ++ 47 :: rest = (pre ++ n ++ [47]) ++ g ++ 47 :: rest) as E by (by rewrite <- !app_assoc).
  rewrite E at 1. rewrite find_sep_app by done. rewrite (proj2 (Z.eqb_neq _ _)) by (rewrite !length_app in *; simpl; lia).
  rewrite substr_mid. rewrite E.
  replace (Z.of_nat (length ((pre ++ n ++ [47]) ++ g)) - Z.of_nat (length (pre ++ n)) - 1)
    with (Z.of_nat (length ((pre ++ n ++ [47]) ++ g)) - Z.of_nat (length (pre ++ n ++ [47]))) by text_len.
  rewrite substr_mid. by replace (Z.of_nat (length ((pre ++ n ++ [47]) ++ g)) + 1) with (Z.of_nat (length (pre ++ n ++ 47 :: g ++ [47]))) by text_len.
Qed.

Lemma next_trial_Some pre rest n g p :
  next_trial (pre ++ rest) (Z.of_nat (length pre)) = Some (n, g, p) →
  ∃ rest', rest = n ++ 47 :: g ++ 47 :: rest' ∧ well_named (n, g) ∧ p = Z.of_nat (length (pre ++ n ++ 47 :: g ++ [47])).
Proof.
  intros H. assert (∃ n0 g0 rest', rest = n0 ++ 47 :: g0 ++ 47 :: rest' ∧ well_named (n0, g0)) as (n0 & g0 & rest' & -> & Hw).
  { unfold next_trial in H. destruct (find_sep _ _) as [e|] eqn:E1; [|done]. apply find_sep_Some in E1 as (n0 & post & -> & Hn & ->).
    destruct (Z.eqb_spec (Z.of_nat (length pre)) (Z.of_nat (length (pre ++ n0)))) as [|Hne]; [done|].
    assert (Z.of_nat (length (pre ++ n0)) + 1 = Z.of_nat (length (pre ++ n0 ++ [47]))) as E by text_len. rewrite E in H.
    assert (pre ++ n0 ++ 47 :: post = (pre ++ n0 ++ [47]) ++ post) as Ea by (by rewrite <- !app_assoc).
    rewrite Ea in H. destruct (find_sep _ _) as [e|] eqn:E2; [|done].
    apply find_sep_Some in E2 as (g0 & post' & -> & Hg & ->).
    destruct (Z.eqb_spec (Z.of_nat (length (pre ++ n0 ++ [47]))) (Z.of_nat (length ((pre ++ n0 ++ [47]) ++ g0)))) as [|Hne']; [done|].
    exists n0, g0, post'. split; [done|]. split_and!; simpl; [intros ->|intros ->|done|done]; [apply Hne|apply Hne']; text_len. }
  rewrite next_trial_app in H by done. injection H as <- <- <-. by exists rest'.
Qed.

(** ** The map *)

Lemma map_find_set k v m k' : map_find k' (map_set k v m) = if bool_decide (k' = k) then Some v else map_find k' m.
Proof.
  induction m as [|[k0 v0] m IH]; simpl; [done|]. destruct (decide (k = k0)) as [<-|Hk].
  - rewrite (bool_decide_true (k = k)) by done. simpl. by case_bool_decide.
  - rewrite (bool_decide_false (k = k0)) by done. destruct (str_lt k k0); simpl; [done|]. rewrite IH. repeat case_bool_decide; congruence.
Qed.

Lemma str_lt_trans a b c : str_lt a b = true → str_lt b c = true → str_lt a c = true.
Proof.
  revert b c. induction a as [|x a IH]; intros [|y b] [|z c]; simpl; try done.
  rewrite !orb_true_iff, !andb_true_iff, !Z.ltb_lt, !Z.eqb_eq. intros [?|[-> ?]] [?|[-> ?]]; [lia|lia|lia|]. eauto.
Qed.

Lemma str_lt_irrefl a : str_lt a a = false.
Proof. induction a as [|x a IH]; simpl; [done|]. by rewrite Z.ltb_irrefl, Z.eqb_refl. Qed.

Lemma str_lt_total a b : a ≠ b → str_lt a b = false → str_lt b a = true.
Proof.
  revert b. induction a as [|x a IH]; intros [|y b]; simpl; try done. intros Hne Hf.
  apply orb_false_iff in Hf as [Hx%Z.ltb_ge Hf]. rewrite orb_true_iff, andb_true_iff, Z.ltb_lt, Z.eqb_eq.
  destruct (Z.eqb_spec x y) as [->|]; [|left; lia]. right. split; [done|]. apply IH; [congruence|done].
Qed.

Definition ordered : trial_map → Prop := StronglySorted (λ p q, str_lt p.1 q.1 = true).

Lemma map_set_Forall (P : list Z * list Z → Prop) k v m : P (k, v) → Forall P m → Forall P (map_set k v m).
Proof.
  intros Hp. induction 1 as [|[k0 v0] m H0 Hm IH]; simpl; [by repeat constructor|].
  case_bool_decide; [by constructor|]. destruct (str_lt k k0); [by repeat constructor|by constructor].
Qed.

Lemma map_set_ordered k v m : ordered m → ordered (map_set k v m).
Proof.
  induction 1 as [|[k0 v0] m Hm IH H0]; simpl; [by repeat constructor|]. case_bool_decide as Hk; [subst; by constructor|].
  destruct (str_lt k k0) eqn:Hlt.
  - constructor; [by constructor|]. constructor; [done|]. eapply Forall_impl; [exact H0|]. intros q Hq. by eapply str_lt_trans.
  - constructor; [done|]. apply map_set_Forall; [|done]. by apply str_lt_total.
Qed.

Lemma ordered_consistent m : ordered m → consistent m.
Proof.
  induction 1 as [|[k0 v0] m Hm IH H0]; intros n g g'; [by intros ?%elem_of_nil|]. rewrite Forall_forall in H0.
  assert (∀ v, (k0, v) ∉ m) as Hno by (intros v Hin; apply H0 in Hin; simpl in Hin; by rewrite str_lt_irrefl in Hin).
  intros [?|H1]%elem_of_cons [?|H2]%elem_of_cons; simplify_eq; [done| | |by eapply IH].
  - by apply Hno in H2.
  - by apply Hno in H1.
Qed.

Lemma map_find_elem n g ps : map_find n ps = Some g → (n, g) ∈ ps.
Proof. induction ps as [|[n0 g0] ps IH]; simpl; [done|]. case_bool_decide; [intros [= ->]; subst; by left|]. right. by apply IH. Qed.

Lemma map_find_consistent n g ps : consistent ps → (n, g) ∈ ps → map_find n ps = Some g.
Proof.
  intros Hc Hin. destruct (map_find n ps) as [g'|] eqn:Hf; [f_equal; apply (Hc n); [by apply map_find_elem|done]|].
  exfalso. clear Hc. induction ps as [|[n0 g0] ps IH]; simpl in *; [by apply elem_of_nil in Hin|].
  case_bool_decide; [done|]. apply elem_of_cons in Hin as [?|?]; [simplify_eq|auto].
Qed.

(** ** Which texts are valid *)

(** Trials that agree with each other and with those seen before. *)
Fixpoint agrees (m ps : trial_map) : Prop :=
  match ps with
  | [] => True
  | (n, g) :: ps => (∀ g', map_find n m = Some g' → g' = g) ∧ agrees (map_set n g m) ps
  end.

Lemma agrees_consistent ps : ∀ m, agrees m ps ↔ (∀ n g g', (n, g) ∈ ps → map_find n m = Some g' → g' = g) ∧ consistent ps.
Proof.
  induction ps as [|[n g] ps IH]; intros m; simpl.
  { split; [|done]. intros _. split; [intros ? ? ? H; by apply elem_of_nil in H|intros ? ? ? H; by apply elem_of_nil in H]. }
  rewrite IH. split.
  - intros (H1 & H2 & H3). assert (∀ g', (n, g') ∈ ps → g' = g) as Hn.
    { intros g' Hin. symmetry. eapply (H2 n g'); [done|]. rewrite map_find_set. by rewrite bool_decide_true. }
    split.
    + intros n' g1 g2 [?|Hin]%elem_of_cons Hf; simplify_eq; [by apply H1|]. destruct (decide (n' = n)) as [->|].
      * rewrite (Hn _ Hin). by apply H1.
      * eapply (H2 n'); [done|]. by rewrite map_find_set, bool_decide_false.
    + intros n' g1 g2 [?|Ha]%elem_of_cons [?|Hb]%elem_of_cons; simplify_eq; [done| | |by eapply H3].
      * symmetry. by apply Hn.
      * by apply Hn.
  - intros [H1 H2]. split_and!.
    + intros g' Hf. eapply H1; [by left|done].
    + intros n' g1 g2 Hin. rewrite map_find_set. case_bool_decide.
      * intros [= <-]. subst n'. apply (H2 n); [by left|by right].
      * apply H1. by right.
    + intros n' g1 g2 Ha Hb. eapply H2; by right.
Qed.

Lemma trials_text_first (pre n g rest : list Z) ps :
  well_named (n, g) → Forall well_named ps → n ++ 47 :: g ++ 47 :: rest = trials_text ps → ∃ ps', ps = (n, g) :: ps' ∧ rest = trials_text ps'.
Proof.
  intros Hw Hps Heq. destruct ps as [|[n0 g0] ps]; [by destruct n|]. apply Forall_cons in Hps as [Hw0 Hps].
  rewrite trials_text_cons in Heq. pose proof (next_trial_app pre n g rest Hw) as H1. rewrite Heq, next_trial_app in H1 by done.
  injection H1 as -> -> _. exists ps. split; [done|]. apply app_inv_head in Heq. injection Heq as Heq. apply app_inv_head in Heq. by injection Heq.
Qed.

Lemma valid_loop_spec fuel : ∀ pre rest m, (length rest ≤ fuel)%nat →
  ∃ b, valid_loop fuel (pre ++ rest) (Z.of_nat (length pre)) m = Val b ∧
    (b = true ↔ ∃ ps, rest = trials_text ps ∧ Forall well_named ps ∧ agrees m ps).
Proof.
  induction fuel as [|fuel IH]; intros pre rest m Hle.
  { destruct rest; [|simpl in Hle; lia]. rewrite app_nil_r. simpl. rewrite Z.ltb_irrefl. exists true. split; [done|]. split; [|done].
    intros _. by exists []. }
  cbn [valid_loop]. destruct (Z.ltb_spec (Z.of_nat (length pre)) (Z.of_nat (length (pre ++ rest)))) as [Hlt|Hge].
  2: { assert (rest = []) as -> by (destruct rest; [done|]; text_len). exists true. split; [done|]. split; [|done]. intros _. by exists []. }
  destruct (next_trial _ _) as [[[n g] p]|] eqn:Hnt.
  - apply next_trial_Some in Hnt as (rest' & -> & Hw & ->).
    assert (pre ++ n ++ 47 :: g ++ 47 :: rest' = (pre ++ n ++ 47 :: g ++ [47]) ++ rest') as -> by (rewrite <- !app_assoc; cbn; by rewrite <- app_assoc).
    assert (length rest' ≤ fuel)%nat as Hle' by text_len.
    destruct (IH (pre ++ n ++ 47 :: g ++ [47]) rest' (map_set n g m) Hle') as (b & Hb & Hiff).
    assert (∀ ps, n ++ 47 :: g ++ 47 :: rest' = trials_text ps ∧ Forall well_named ps ∧ agrees m ps ↔
      ∃ ps', ps = (n, g) :: ps' ∧ rest' = trials_text ps' ∧ Forall well_named ps' ∧ (∀ g', map_find n m = Some g' → g' = g) ∧ agrees (map_set n g m) ps') as Hps.
    { intros ps. split.
      - intros (Ht & Hf & Ha). destruct (trials_text_first [] n g rest' ps Hw Hf Ht) as (ps' & -> & ->).
        exists ps'. apply Forall_cons in Hf as [_ Hf]. by destruct Ha.
      - intros (ps' & -> & -> & Hf & Ha & Hb'). rewrite trials_text_cons. split; [done|]. split; [by constructor|done]. }
    destruct (map_find n m) as [g'|] eqn:Hfm; [case_bool_decide as Hg; cbn [negb]|].
    + exists b. split; [done|]. rewrite Hiff. split; intros (ps & Hx).
      * exists ((n, g) :: ps). apply Hps. exists ps. naive_solver.
      * apply Hps in Hx as (ps' & ? & ?). exists ps'. naive_solver.
    + exists false. split; [done|]. split; [done|]. intros (ps & Hx). apply Hps in Hx as (ps' & ? & ? & ? & Hx & _). by destruct (Hg (Hx _ eq_refl)).
    + exists b. split; [done|]. rewrite Hiff. split; intros (ps & Hx).
      * exists ((n, g) :: ps). apply Hps. exists ps. naive_solver.
      * apply Hps in Hx as (ps' & ? & ?). exists ps'. naive_solver.
  - exists false. split; [done|]. split; [done|]. intros (ps & -> & Hf & _). exfalso.
    destruct ps as [|[n g] ps]; [unfold trials_text in Hlt; simpl in Hlt; rewrite app_nil_r in Hlt; lia|].
    rewrite trials_text_cons, next_trial_app in Hnt; [done|]. by apply Forall_cons in Hf as [].
Qed.

Lemma valid_spec s :
  ∃ b, FieldTrialsStringIsValid s = Val b ∧ (b = true ↔ ∃ ps, s = trials_text ps ∧ Forall well_named ps ∧ consistent ps).
Proof.
  unfold FieldTrialsStringIsValid, FieldTrialsStringIsValidInternal. case_bool_decide as Hs.
  - exists true. split; [done|]. split; [|done]. intros _. exists []. split_and!; [done|done|]. intros ? ? ? H. by apply elem_of_nil in H.
  - destruct (valid_loop_spec (length s) [] s []) as (b & Hb & Hiff); [done|]. exists b. split; [exact Hb|]. rewrite Hiff.
    split; intros (ps & H1 & H2 & H3); exists ps; (split; [done|]); (split; [done|]); [by apply agrees_consistent in H3 as [_ H3]|].
    apply agrees_consistent. by split.
Qed.

(** ** What is found *)

Lemma find_loop_spec name ps : ∀ fuel pre, Forall well_named ps → (length (trials_text ps) ≤ fuel)%nat →
  find_loop fuel (pre ++ trials_text ps) name (Z.of_nat (length pre)) = Val (default [] (map_find name ps)).
Proof.
  induction ps as [|[n g] ps IH]; intros fuel pre Hw Hle.
  - unfold trials_text. simpl. rewrite app_nil_r. destruct fuel; simpl; by rewrite Z.ltb_irrefl.
  - apply Forall_cons in Hw as [Hn Hw]. rewrite trials_text_cons in *. destruct fuel as [|fuel]; [exfalso; text_len|]. cbn [find_loop].
    rewrite (proj2 (Z.ltb_lt _ _)) by text_len. rewrite next_trial_app by done. cbn [map_find].
    case_bool_decide; [done|].
    assert (pre ++ n ++ 47 :: g ++ 47 :: trials_text ps = (pre ++ n ++ 47 :: g ++ [47]) ++ trials_text ps) as -> by (rewrite <- !app_assoc; cbn; by rewrite <- app_assoc).
    apply IH; [done|]. text_len.
Qed.

Lemma find_spec name ps : Forall well_named ps → FindFullName (Some (trials_text ps)) name = Val (default [] (map_find name ps)).
Proof.
  intros Hw. unfold FindFullName. case_bool_decide as Ht; [|by apply (find_loop_spec name ps _ [])].
  destruct ps as [|[n g] ps]; [done|]. rewrite trials_text_cons in Ht. by destruct n.
Qed.

(** ** Merging *)

Definition set_all (ps m : trial_map) : trial_map := foldl (λ m p, map_set p.1 p.2 m) m ps.

Lemma insert_tokens_spec ps : ∀ m, Forall well_named ps → insert_tokens (split (trials_text ps) 47) m = set_all ps m.
Proof.
  induction ps as [|[n g] ps IH]; intros m Hw; [done|]. apply Forall_cons in Hw as [(Hn & Hg & Hn47 & Hg47) Hw]. simpl in *.
  rewrite split_spec, trials_text_cons. rewrite (proj2 (fields_from_field 47 n [] Hn47)), (proj2 (fields_from_field 47 g [] Hg47)).
  cbn [app insert_tokens]. rewrite <- split_spec. by apply IH.
Qed.

Lemma set_all_find name ps m : consistent ps →
  map_find name (set_all ps m) = match map_find name ps with Some g => Some g | None => map_find name m end.
Proof.
  intros Hc. revert m. unfold set_all. induction ps as [|[n g] ps IH]; intros m; simpl; [done|].
  rewrite IH by (intros ? ? ? H1 H2; eapply Hc; by right). rewrite map_find_set. case_bool_decide as Hn; [subst name|done].
  destruct (map_find n ps) as [g'|] eqn:Hf; [|done]. f_equal. apply (Hc n); [right; by apply map_find_elem|by left].
Qed.

Lemma set_all_keeps ps m :
  Forall well_named ps → Forall well_named m → ordered m → Forall well_named (set_all ps m) ∧ ordered (set_all ps m).
Proof.
  unfold set_all. revert m. induction ps as [|[n g] ps IH]; intros m Hps Hm Ho; [done|]. apply Forall_cons in Hps as [Hn Hps]. simpl.
  apply IH; [done|by apply map_set_Forall|by apply map_set_ordered].
Qed.

Lemma merged_text m acc : foldl (λ merged fieldtrial, merged ++ fieldtrial.1 ++ [47] ++ fieldtrial.2 ++ [47]) acc m = acc ++ trials_text m.
Proof.
  revert acc. induction m as [|[n g] m IH]; intros acc; simpl; [by rewrite app_nil_r|]. rewrite IH, trials_text_cons.
  rewrite <- !app_assoc. cbn. by rewrite <- app_assoc.
Qed.

(** A text is valid exactly when it is a list of names and groups, none
    empty, each ended by a slash, and no name comes with two groups; merging
    two valid texts always gives a valid text, in which every name has the
    group it has in the second, or else in the first. *)
Theorem field_trials_merge dc a b :
  (∀ s, FieldTrialsStringIsValid s = Val true ↔ ∃ ps, s = trials_text ps ∧ Forall well_named ps ∧ consistent ps) ∧
  (FieldTrialsStringIsValid a = Val true → FieldTrialsStringIsValid b = Val true →
   ∃ m, MergeFieldTrialsStrings dc a b = Val m ∧ FieldTrialsStringIsValid m = Val true ∧
     ∀ name, ∃ ga gb, FindFullName (Some a) name = Val ga ∧ FindFullName (Some b) name = Val gb ∧
       FindFullName (Some m) name = Val (if bool_decide (gb = []) then ga else gb)).
Proof.
  assert (∀ s, FieldTrialsStringIsValid s = Val true ↔ ∃ ps, s = trials_text ps ∧ Forall well_named ps ∧ consistent ps) as Hv.
  { intros s. destruct (valid_spec s) as (r & -> & <-). split; [by intros [= ->]|by intros ->]. }
  split; [done|]. intros Ha Hb. pose proof Ha as Ha'. pose proof Hb as Hb'. apply Hv in Ha' as (pa & -> & Hwa & Hca). apply Hv in Hb' as (pb & -> & Hwb & Hcb).
  destruct (set_all_keeps pa [] Hwa) as [Hw1 Ho1]; [done|constructor|]. destruct (set_all_keeps pb _ Hwb Hw1 Ho1) as [Hw2 Ho2].
  exists (trials_text (set_all pb (set_all pa []))). split_and!.
  - unfold MergeFieldTrialsStrings, InsertOrReplaceFieldTrialStringsInMap, FieldTrialsStringIsValid in *. rewrite Ha. cbn [mbind_res].
    rewrite Hb. cbn [mbind_res]. rewrite !insert_tokens_spec by done. by rewrite merged_text.
  - apply Hv. eexists. split; [done|]. split; [done|]. by apply ordered_consistent.
  - intros name. do 2 eexists. rewrite !find_spec by done. split; [done|]. split; [done|]. f_equal.
    rewrite !set_all_find by done. destruct (map_find name pb) as [gb|] eqn:Hf; simpl.
    + rewrite bool_decide_false; [done|]. intros ->. apply map_find_elem in Hf. rewrite Forall_forall in Hwb. by apply Hwb in Hf as (_ & ? & _).
    + by destruct (map_find name pa).
Qed.

Lemma field_trials_merge_witness :
  ∃ m, MergeFieldTrialsStrings true (b#"B/on/A/Enabled5/") (b#"B/off/") = Val m ∧
    FindFullName (Some m) (b#"B") = Val (b#"off") ∧ FindFullName (Some m) (b#"A") = Val (b#"Enabled5").
Proof.
  destruct (field_trials_merge true (b#"B/on/A/Enabled5/") (b#"B/off/")) as [_ H].
  destruct (H ltac:(vm_compute; reflexivity) ltac:(vm_compute; reflexivity)) as (m & Hm & _ & Hf). exists m. split; [exact Hm|].
  destruct (Hf (b#"B")) as (ga & gb & E1 & E2 & E3). destruct (Hf (b#"A")) as (ga' & gb' & E1' & E2' & E3').
  vm_compute in E1, E2, E1', E2'. injection E1 as <-. injection E2 as <-. injection E1' as <-. injection E2' as <-. by split.
Defined.
