(* ===== verification/RepeatingTask.v ===== *)
(** * Repeating tasks and safety flags (rtc_base/task_utils/repeating_task.h,
      repeating_task.cc, pending_task_safety_flag.h, pending_task_safety_flag.cc,
      to_queued_task.h)

    A repeating task posts itself again after each run, with the delay its
    closure returned; its handle stops it through a flag the task and the handle
    share. The theorem is that the runs do not drift: the time a run is planned
    for is the first time plus the delays returned, however late the runs were,
    and that the closure of a task that was stopped does not run again.

    Times are microseconds. A queue holds the tasks in the order they were
    posted, each with its delay in milliseconds; when which task runs is up to
    the environment. *)

From S2P Require Import Prelude SafeNumerics Units.

(** ** State *)

(** The flag stands for the task as well. *)
Record rtask := RTask { alive_flag_ : Z; next_run_time_ : Z }.

Record tqueue := TQueue {
  flags : gmap Z bool;              (* [alive_] of the flags *)
  queue : list (Z * rtask);
  runs : list (Z * Z * Z);          (* the runs of closures: task, time and the delay returned *)
  firsts : gmap Z Z                 (* the time a task was to run first *)
}.

Definition set_flags (f : gmap Z bool) (q : tqueue) : tqueue := TQueue f (queue q) (runs q) (firsts q).
Definition set_queue (l : list (Z * rtask)) (q : tqueue) : tqueue := TQueue (flags q) l (runs q) (firsts q).
(** The delay is a [uint32_t]. *)
Definition post (delay_ms : Z) (t : rtask) (q : tqueue) : tqueue := set_queue (queue q ++ [(u32 delay_ms, t)]) q.

(** ** Flags *)

Definition CreateFlag (alive : bool) (q : tqueue) : Z * tqueue :=
  let f := fresh (dom (flags q)) in (f, set_flags (<[f := alive]> (flags q)) q).
Definition Create : tqueue → Z * tqueue := CreateFlag true.
Definition CreateDetached : tqueue → Z * tqueue := CreateFlag true.
Definition CreateDetachedInactive : tqueue → Z * tqueue := CreateFlag false.

Definition SetNotAlive (f : Z) (q : tqueue) : res tqueue :=
  let* _ := of_mem (flags q !! f) in Val (set_flags (<[f := false]> (flags q)) q).
Definition SetAlive (f : Z) (q : tqueue) : res tqueue :=
  let* _ := of_mem (flags q !! f) in Val (set_flags (<[f := true]> (flags q)) q).
Definition alive (f : Z) (q : tqueue) : res bool := of_mem (flags q !! f).

(** [ScopedTaskSafety] and [ScopedTaskSafetyDetached]: their destructor. *)
Definition ScopedTaskSafety_delete (flag_ : Z) (q : tqueue) : res tqueue := SetNotAlive flag_ q.

(** The tasks of [ToQueuedTask], with and without a flag. *)
Definition ClosureTask_Run (closure_ : tqueue → res tqueue) (q : tqueue) : res (bool * tqueue) :=
  let* q := closure_ q in Val (true, q).
Definition SafetyClosureTask_Run (safety_flag_ : Z) (closure_ : tqueue → res tqueue) (q : tqueue) : res (bool * tqueue) :=
  let* a := alive safety_flag_ q in
  if (a : bool) then let* q := closure_ q in Val (true, q) else Val (true, q).

(** ** Repeating tasks *)

Section Ops.
Context (RTC_DCHECK_IS_ON : bool).
Notation dcheck := (StringBuilder.dcheck RTC_DCHECK_IS_ON).
Notation ts_add := (ts_add RTC_DCHECK_IS_ON).
Notation ts_diff := (ts_diff RTC_DCHECK_IS_ON).
Notation td_sub := (td_sub RTC_DCHECK_IS_ON).
Notation td_ms := (td_ms RTC_DCHECK_IS_ON I64).

Definition RepeatingTaskBase_new (now first_delay alive_flag : Z) : res rtask :=
  let* next_run_time := ts_add now first_delay in Val (RTask alive_flag next_run_time).

Definition note_first (t : rtask) (q : tqueue) : tqueue :=
  TQueue (flags q) (queue q) (runs q) (<[alive_flag_ t := next_run_time_ t]> (firsts q)).

(** The handle is the flag. *)
Definition Start (now : Z) (q : tqueue) : res (Z * tqueue) :=
  let '(alive_flag, q) := CreateDetached q in
  let* t := RepeatingTaskBase_new now 0 alive_flag in
  Val (alive_flag, post 0 t (note_first t q)).

Definition DelayedStart (now first_delay : Z) (q : tqueue) : res (Z * tqueue) :=
  let '(alive_flag, q) := CreateDetached q in
  let* t := RepeatingTaskBase_new now first_delay alive_flag in
  let* ms := td_ms first_delay in
  Val (alive_flag, post ms t (note_first t q)).

Definition Stop (repeating_task_ : option Z) (q : tqueue) : res (option Z * tqueue) :=
  match repeating_task_ with
  | Some f => let* q := SetNotAlive f q in Val (None, q)
  | None => Val (None, q)
  end.

Definition Running (repeating_task_ : option Z) : bool := match repeating_task_ with Some _ => true | None => false end.

Definition note_run (f now delay : Z) (q : tqueue) : tqueue := TQueue (flags q) (queue q) (runs q ++ [(f, now, delay)]) (firsts q).

(** [closure] is run at time [now] and again read at [later], when it returned.
    True to delete the task. *)
Definition Run (closure : tqueue → res (Z * tqueue)) (now later : Z) (t : rtask) (q : tqueue) : res (bool * tqueue) :=
  let* a := alive (alive_flag_ t) q in
  if negb (a : bool) then Val (true, q)
  else
    let* '(delay, q) := closure q in
    let q := note_run (alive_flag_ t) now delay q in
    let* a := alive (alive_flag_ t) q in
    if negb (a : bool) then Val (true, q)
    else
      let* _ := dcheck (IsFinite delay) in
      let* lost_time := ts_diff later (next_run_time_ t) in
      let* next_run_time := ts_add (next_run_time_ t) delay in
      let* delay := td_sub delay lost_time in
      let delay := Z.max delay 0 in
      let* ms := td_ms delay in
      Val (false, post ms (RTask (alive_flag_ t) next_run_time) q).
End Ops.

(** ** Programs *)

(** What a closure, and the program between runs, does to tasks. *)
Inductive top := OStart (now : Z) | ODelayedStart (now first_delay : Z) | OStop (f : Z).

(** The task at a place of the queue runs. *)
Inductive tevent := TOp (o : top) | TRun (i : nat) (now later : Z) (body : list top) (delay : Z).

Section Programs.
Context (dc : bool).

Definition run_op (o : top) (q : tqueue) : res tqueue :=
  match o with
  | OStart now => let* '(_, q) := Start dc now q in Val q
  | ODelayedStart now d => let* '(_, q) := DelayedStart dc now d q in Val q
  | OStop f => let* '(_, q) := Stop (Some f) q in Val q
  end.

Fixpoint run_ops (os : list top) (q : tqueue) : res tqueue :=
  match os with
  | [] => Val q
  | o :: os => let* q := run_op o q in run_ops os q
  end.

Definition run_event (e : tevent) (q : tqueue) : res tqueue :=
  match e with
  | TOp o => run_op o q
  | TRun i now later body delay =>
      match queue q !! i with
      | None => Val q
      | Some (_, t) =>
          let* '(_, q) := Run dc (λ q, let* q := run_ops body q in Val (delay, q)) now later t (set_queue (base.delete i (queue q)) q) in Val q
      end
  end.

(** Times, and the times planned, are below this bound (150 thousand years). *)
Definition TIME : Z := 2 ^ 62.

Definition op_ok (o : top) (q : tqueue) : Prop :=
  match o with
  | OStart now => 0 ≤ now < TIME
  | ODelayedStart now d => 0 ≤ now < TIME ∧ 0 ≤ d ∧ now + d < TIME
  | OStop f => is_Some (flags q !! f)
  end.

(** A closure stops tasks that there are. *)
Fixpoint ops_ok (os : list top) (q : tqueue) : Prop :=
  match os with
  | [] => True
  | o :: os => op_ok o q ∧ match run_op o q with Val q => ops_ok os q | _ => True end
  end.

Definition event_ok (e : tevent) (q : tqueue) : Prop :=
  match e with
  | TOp o => op_ok o q
  | TRun i now later body delay =>
      match queue q !! i with
      | None => True
      | Some (_, t) => ops_ok body (set_queue (base.delete i (queue q)) q) ∧ 0 ≤ later < TIME ∧ 0 ≤ next_run_time_ t + delay < TIME
      end
  end.

Inductive happens : tqueue → tqueue → Prop :=
  | happens_none q : happens q q
  | happens_more q e q1 q2 : event_ok e q → run_event e q = Val q1 → happens q1 q2 → happens q q2.

Definition no_tasks : tqueue := TQueue ∅ [] [] ∅.
End Programs.

(** ** The invariant *)

Section Inv.
Context (dc : bool).

Definition delays_of (f : Z) (l : list (Z * Z * Z)) : Z := foldr (λ r s, (if r.1.1 =? f then r.2 else 0) + s) 0 l.

Lemma delays_of_app f l l' : delays_of f (l ++ l') = delays_of f l + delays_of f l'.
Proof. induction l as [|r l IH]; simpl; [done|]. unfold delays_of in *. simpl. rewrite IH. lia. Qed.

(** The time planned for a task is its first time and the delays returned. *)
Definition planned (q : tqueue) (f : Z) : option Z := (λ t, t + delays_of f (runs q)) <$> firsts q !! f.

Record inv (q : tqueue) : Prop := Inv {
  i_queue : Forall (λ e, planned q (alive_flag_ e.2) = Some (next_run_time_ e.2) ∧ 0 ≤ next_run_time_ e.2 < TIME ∧
                         is_Some (flags q !! alive_flag_ e.2)) (queue q);
  i_once : NoDup (alive_flag_ ∘ snd <$> queue q);
  i_runs : Forall (λ r, is_Some (flags q !! r.1.1)) (runs q);
  i_firsts : dom (firsts q) ⊆ dom (flags q)
}.

Lemma no_tasks_inv : inv no_tasks.
Proof. split; simpl; [done|by constructor|done|set_solver]. Qed.

Definition MAX : Z := 9223372036854775807.

Lemma ext_fin v : - MAX ≤ v < MAX → ext_of v = Fin v ∧ in_range I64 v ∧ IsFinite v = true.
Proof.
  intros Hv. assert (IsPlusInfinity v = false ∧ IsMinusInfinity v = false) as [H1 H2].
  { unfold IsPlusInfinity, IsMinusInfinity, PlusInfinityVal, MinusInfinityVal, MAX in *. split; apply Z.eqb_neq; lia. }
  split; [unfold ext_of; by rewrite H1, H2|]. split; [|by apply finite_of].
  apply i64_range. unfold MinusInfinityVal, PlusInfinityVal, MAX in *. lia.
Qed.

Lemma exact_fin one_sided z r : exact one_sided dc (Some (Fin z)) r → - MAX ≤ z < MAX → (one_sided = true → 0 ≤ z) → r = Val z.
Proof.
  unfold exact. intros H Hz H0. rewrite decide_True in H; [done|]. simpl. split; [|done].
  unfold MinusInfinityVal, PlusInfinityVal, MAX in *. lia.
Qed.

Lemma add_small one_sided a d : - MAX ≤ a < MAX → - MAX ≤ d < MAX → - MAX ≤ a + d < MAX → (one_sided = true → 0 ≤ a + d) →
  unit_add dc one_sided a d = Val (a + d).
Proof.
  intros Ha Hd Hs H0. destruct (ext_fin a Ha) as (Ea & Ra & _), (ext_fin d Hd) as (Ed & Rd & _).
  pose proof (unit_add_exact dc one_sided a d Ra Rd) as H. rewrite Ea, Ed in H. by apply exact_fin in H.
Qed.

Lemma sub_small one_sided a d : - MAX ≤ a < MAX → - MAX ≤ d < MAX → - MAX ≤ a - d < MAX → (one_sided = true → 0 ≤ a - d) →
  unit_sub dc one_sided a d = Val (a - d).
Proof.
  intros Ha Hd Hs H0. destruct (ext_fin a Ha) as (Ea & Ra & _), (ext_fin d Hd) as (Ed & Rd & _).
  pose proof (unit_sub_exact dc one_sided a d Ra Rd) as H. rewrite Ea, Ed in H. simpl in H. rewrite Z.add_opp_r in H. by apply exact_fin in H.
Qed.

Lemma ms_small d : 0 ≤ d < 2 * TIME - 1000 → Units.td_ms dc I64 d = Val (nearest d 1000).
Proof.
  unfold TIME. change (2 * 2 ^ 62) with 9223372036854775808. intros Hd.
  assert (- MAX ≤ d < MAX) as Hr by (unfold MAX; lia). destruct (ext_fin d Hr) as (_ & Rd & Fd).
  unfold td_ms. rewrite (ToFraction_spec dc false 1000 d); [done|lia|done|done| |done].
  unfold roundable, MinusInfinityVal, PlusInfinityVal. change (1000 `div` 2) with 500. lia.
Qed.

(** ** What operations between runs do *)

Record grows (q q' : tqueue) : Prop := Grows {
  g_flags f b : flags q !! f = Some b → ∃ b', flags q' !! f = Some b' ∧ (b = false → b' = false);
  g_runs : runs q' = runs q;
  g_firsts f : is_Some (flags q !! f) → firsts q' !! f = firsts q !! f;
  g_queue : ∃ l, queue q' = queue q ++ l ∧ Forall (λ e, flags q !! alive_flag_ e.2 = None) l
}.

Lemma grows_refl q : grows q q.
Proof. split; [by eauto|done|done|]. exists []. by rewrite app_nil_r. Qed.

Lemma grows_trans q1 q2 q3 : grows q1 q2 → grows q2 q3 → grows q1 q3.
Proof.
  intros [F1 R1 S1 (l1 & Q1 & N1)] [F2 R2 S2 (l2 & Q2 & N2)]. split.
  - intros f b Hf. destruct (F1 f b Hf) as (b1 & H1 & E1). destruct (F2 f b1 H1) as (b2 & H2 & E2). exists b2. auto.
  - congruence.
  - intros f [b Hf]. destruct (F1 f b Hf) as (b1 & H1 & _). rewrite S2 by (by eexists). apply S1. by eexists.
  - exists (l1 ++ l2). rewrite Q2, Q1, app_assoc. split; [done|]. apply Forall_app. split; [done|].
    eapply Forall_impl; [exact N2|]. intros e He. simpl in *. destruct (flags q1 !! alive_flag_ e.2) as [b|] eqn:Hb; [|done].
    destruct (F1 _ _ Hb) as (b1 & H1 & _). congruence.
Qed.

(** A new task. *)
Lemma post_new now d ms q :
  inv q → 0 ≤ now < TIME → 0 ≤ d → now + d < TIME →
  let f := fresh (dom (flags q)) in let t := RTask f (now + d) in
  let q' := post ms t (note_first t (set_flags (<[f := true]> (flags q)) q)) in inv q' ∧ grows q q'.
Proof.
  intros [H1 H2 H3 H4] Hn Hd Ht f t q'. assert (flags q !! f = None) as Hf by (apply not_elem_of_dom, is_fresh).
  assert (∀ g, is_Some (flags q !! g) → g ≠ f) as Hne by (intros g [b Hb] ->; congruence).
  assert (delays_of f (runs q) = 0) as Hz.
  { clear H1 H2 H4. induction (runs q) as [|r l IH]; [done|]. apply Forall_cons in H3 as [Hr Hl]. unfold delays_of in *. simpl. rewrite IH by done.
    rewrite (proj2 (Z.eqb_neq _ _)) by (by apply Hne). done. }
  assert (∀ g, is_Some (flags q !! g) → is_Some (flags q' !! g)) as Hkeep.
  { intros g Hg. simpl. rewrite lookup_insert_ne; [done|]. intros <-. by apply (Hne f). }
  split.
  - split.
    + simpl. apply Forall_app. split.
      * eapply Forall_impl; [exact H1|]. intros e (P1 & P2 & P3). split; [|split; [done|by apply Hkeep]].
        unfold planned in *. simpl. rewrite lookup_insert_ne; [done|]. intros E. by apply (Hne (alive_flag_ e.2)).
      * constructor; [|done]. simpl. split; [|split; [lia|by rewrite lookup_insert_eq]]. unfold planned. simpl. rewrite lookup_insert_eq. simpl. f_equal. lia.
    + simpl. rewrite fmap_app. apply NoDup_app. split; [done|]. split; [|by apply NoDup_singleton].
      intros g Hg. simpl. rewrite list_elem_of_singleton. intros ->. apply list_elem_of_fmap in Hg as (e & E & He).
      rewrite Forall_forall in H1. destruct (H1 e He) as (_ & _ & Hs). by apply (Hne _ Hs).
    + eapply Forall_impl; [exact H3|]. intros r Hr. by apply Hkeep.
    + simpl. rewrite !dom_insert. set_solver.
  - split; simpl; [|done| |].
    + intros g b Hg. exists b. split; [|done]. rewrite lookup_insert_ne; [done|]. intros <-. congruence.
    + intros g Hg. rewrite lookup_insert_ne; [done|]. intros E. by apply (Hne g).
    + by exists [(u32 ms, t)]; split; [|repeat constructor].
Qed.

Lemma run_op_ok o q : inv q → op_ok o q → ∃ q', run_op dc o q = Val q' ∧ inv q' ∧ grows q q'.
Proof.
  intros Hi Ho. destruct o as [now|now d|f]; simpl in Ho.
  - unfold run_op, Start, RepeatingTaskBase_new, ts_add. cbn [CreateDetached CreateFlag]. unfold TIME in *.
    rewrite add_small by (unfold MAX; lia). cbn [mbind_res]. eexists. split; [done|]. rewrite Z.add_0_r.
    destruct (post_new now 0 0 q Hi) as [H1 H2]; [unfold TIME; lia|lia|unfold TIME; lia|]. rewrite Z.add_0_r in *. by split.
  - unfold run_op, DelayedStart, RepeatingTaskBase_new, ts_add. cbn [CreateDetached CreateFlag]. unfold TIME in *.
    rewrite add_small by (unfold MAX; lia). cbn [mbind_res]. rewrite ms_small by (unfold TIME; lia). cbn [mbind_res].
    eexists. split; [done|]. apply post_new; [done|unfold TIME; lia|lia|unfold TIME; lia].
  - destruct Ho as [b Hb]. unfold run_op, Stop, SetNotAlive. rewrite Hb. cbn [of_mem mbind_res]. eexists. split; [done|].
    assert (∀ g, is_Some (flags q !! g) → is_Some (<[f:=false]> (flags q) !! g)) as Hk.
    { intros g Hg. destruct (decide (g = f)) as [->|]; [by rewrite lookup_insert_eq|by rewrite lookup_insert_ne]. }
    destruct Hi as [H1 H2 H3 H4]. split.
    + split; simpl; [|done| |rewrite dom_insert; set_solver].
      * eapply Forall_impl; [exact H1|]. intros e (P1 & P2 & P3). split; [exact P1|]. split; [exact P2|by apply Hk].
      * eapply Forall_impl; [exact H3|]. intros r Hr. by apply Hk.
    + split; simpl; [|done|done|exists []; by rewrite app_nil_r].
      intros g b' Hg. destruct (decide (g = f)) as [->|]; [exists false; by rewrite lookup_insert_eq|exists b'; by rewrite lookup_insert_ne].
Qed.

Lemma run_ops_ok os : ∀ q, inv q → ops_ok dc os q → ∃ q', run_ops dc os q = Val q' ∧ inv q' ∧ grows q q'.
Proof.
  induction os as [|o os IH]; intros q Hi Ho; simpl in *; [exists q; split_and!; [done|done|apply grows_refl]|].
  destruct Ho as [Ho Hos]. destruct (run_op_ok o q Hi Ho) as (q1 & E1 & Hi1 & G1). rewrite E1 in *. cbn [mbind_res].
  destruct (IH q1 Hi1 Hos) as (q2 & E2 & Hi2 & G2). exists q2. split; [done|]. split; [done|]. by eapply grows_trans.
Qed.

(** ** A run *)

(** The task that runs is out of the queue, and nothing in the queue is it. *)
Record running (f : Z) (next : Z) (q : tqueue) : Prop := Running' {
  r_inv : inv q;
  r_flag : is_Some (flags q !! f);
  r_planned : planned q f = Some next;
  r_out : f ∉ (alive_flag_ ∘ snd <$> queue q)
}.

Lemma take_task i ms t q : inv q → queue q !! i = Some (ms, t) →
  running (alive_flag_ t) (next_run_time_ t) (set_queue (base.delete i (queue q)) q) ∧ 0 ≤ next_run_time_ t < TIME.
Proof.
  intros [H1 H2 H3 H4] Hq. pose proof (delete_Permutation _ _ _ Hq) as Hp.
  rewrite Hp in H1, H2. apply Forall_cons in H1 as [(P1 & P2 & P3) H1]. simpl in *. apply NoDup_cons in H2 as [Hn H2].
  split; [|done]. split; [by split|done|done|done].
Qed.

Lemma running_grows f next q q' : running f next q → inv q' → grows q q' → running f next q'.
Proof.
  intros [Hi [b Hf] Hp Ho] Hi' [F R S (l & Q & N)]. split; [done| | |].
  - destruct (F f b Hf) as (b' & -> & _). by eexists.
  - unfold planned in *. rewrite R, S by (by eexists). done.
  - rewrite Q, fmap_app, elem_of_app. intros [H|H]; [done|]. apply list_elem_of_fmap in H as (e & E & He).
    rewrite Forall_forall in N. apply N in He. simpl in E. congruence.
Qed.

Lemma delays_other f g now d l : f ≠ g → delays_of g (l ++ [(f, now, d)]) = delays_of g l.
Proof. intros Hne. rewrite delays_of_app. unfold delays_of at 2. simpl. rewrite (proj2 (Z.eqb_neq f g)) by done. lia. Qed.

Lemma delays_same f now d l : delays_of f (l ++ [(f, now, d)]) = delays_of f l + d.
Proof. rewrite delays_of_app. unfold delays_of at 2. simpl. rewrite Z.eqb_refl. lia. Qed.

Lemma note_run_ok f next now d q : running f next q → running f (next + d) (note_run f now d q).
Proof.
  intros [[H1 H2 H3 H4] Hf Hp Ho]. split; [|done| |done].
  - split; simpl; [|done| |done].
    + apply Forall_forall. intros e He. rewrite Forall_forall in H1. destruct (H1 e He) as (P1 & P2 & P3). split; [|done].
      unfold planned in *. simpl. rewrite delays_other; [done|]. intros ->. apply Ho. apply list_elem_of_fmap. by exists e.
    + apply Forall_app. split; [done|]. by repeat constructor.
  - unfold planned in *. simpl. rewrite delays_same. destruct (firsts q !! f); [|done]. simpl in *. injection Hp as <-. f_equal. lia.
Qed.

Lemma post_again f next ms q : running f next q → 0 ≤ next < TIME → inv (post ms (RTask f next) q).
Proof.
  intros [[H1 H2 H3 H4] Hf Hp Ho] Hn. split; simpl; [|rewrite fmap_app; apply NoDup_app|done|done].
  - apply Forall_app. split; [done|]. apply Forall_singleton. by split.
  - split; [done|]. split; [|by apply NoDup_singleton]. intros g Hg. simpl. rewrite list_elem_of_singleton. by intros ->.
Qed.

(** What an event does: flags are only lowered, and closures run only for tasks
    that are alive. *)
Record progress (q q' : tqueue) : Prop := Progress {
  p_inv : inv q';
  p_flags f b : flags q !! f = Some b → ∃ b', flags q' !! f = Some b' ∧ (b = false → b' = false);
  p_runs : ∃ l, runs q' = runs q ++ l ∧ Forall (λ r, flags q !! r.1.1 ≠ Some false) l
}.

Lemma grows_progress q q' : inv q' → grows q q' → progress q q'.
Proof. intros Hi [F R _ _]. split; [done|done|]. exists []. by rewrite R, app_nil_r. Qed.

(** The run of a task that is alive. *)
Lemma Run_ok body now later delay t q0 :
  running (alive_flag_ t) (next_run_time_ t) q0 → 0 ≤ next_run_time_ t < TIME → flags q0 !! alive_flag_ t = Some true →
  ops_ok dc body q0 → 0 ≤ later < TIME → 0 ≤ next_run_time_ t + delay < TIME →
  ∃ b q', Run dc (λ q, let* q := run_ops dc body q in Val (delay, q)) now later t q0 = Val (b, q') ∧ progress q0 q' ∧
    (flags q' !! alive_flag_ t = Some true →
     list.last (queue q') = Some (u32 (nearest (Z.max (next_run_time_ t + delay - later) 0) 1000), RTask (alive_flag_ t) (next_run_time_ t + delay))).
Proof.
  intros Hrun Hn Hal Hops Hl Hd. set (f := alive_flag_ t) in *. set (next := next_run_time_ t) in *.
  unfold Run. fold f next. unfold alive. rewrite Hal. cbn [of_mem mbind_res negb].
  destruct (run_ops_ok body q0 (r_inv _ _ _ Hrun) Hops) as (q1 & -> & Hi1 & G1). cbn [mbind_res].
  pose proof (note_run_ok f next now delay q1 (running_grows _ _ _ _ Hrun Hi1 G1)) as Hrun2.
  destruct (g_flags _ _ G1 f true Hal) as (b & Hb & _). cbn [flags note_run]. rewrite Hb. cbn [of_mem mbind_res].
  assert (∀ q', inv q' → flags q' = flags q1 → runs q' = runs (note_run f now delay q1) → progress q0 q') as Hprog.
  { intros q' Hi' Ef Er. split; [done| |].
    - intros g c Hg. rewrite Ef. by apply (g_flags _ _ G1).
    - rewrite Er. simpl. rewrite (g_runs _ _ G1). exists [(f, now, delay)]. split; [done|]. apply Forall_singleton. simpl. by rewrite Hal. }
  destruct b; cbn [negb].
  - assert (- MAX ≤ delay < MAX) as Hdr by (unfold TIME, MAX in *; lia). destruct (ext_fin delay Hdr) as (_ & _ & ->).
    rewrite dcheck_if, andb_false_r. cbn [mbind_res]. unfold ts_diff, ts_add, td_sub. unfold TIME in *.
    rewrite (sub_small false later next) by (unfold MAX in *; lia). cbn [mbind_res].
    rewrite (add_small true next delay) by (unfold MAX in *; lia). cbn [mbind_res].
    rewrite (sub_small false delay (later - next)) by (unfold MAX in *; lia). cbn [mbind_res].
    replace (delay - (later - next)) with (next + delay - later) by lia. rewrite ms_small by (unfold TIME in *; lia). cbn [mbind_res].
    eexists _, _. split; [done|]. split.
    + apply Hprog; [|done|done]. by apply post_again.
    + intros _. simpl. by rewrite last_snoc.
  - eexists _, _. split; [done|]. split; [apply Hprog; [apply Hrun2|done|done]|]. simpl. by rewrite Hb.
Qed.

Lemma run_event_ok e q : inv q → event_ok dc e q → ∃ q', run_event dc e q = Val q' ∧ progress q q'.
Proof.
  intros Hi He. destruct e as [o|i now later body delay]; simpl in *.
  - destruct (run_op_ok o q Hi He) as (q' & -> & Hi' & G). exists q'. split; [done|]. by apply grows_progress.
  - destruct (queue q !! i) as [[ms t]|] eqn:Hq; [|exists q; split; [done|]; apply grows_progress; [done|apply grows_refl]].
    destruct He as (Hops & Hl & Hd). destruct (take_task i ms t q Hi Hq) as [Hrun Hn]. pose proof (r_flag _ _ _ Hrun) as [b Hb].
    destruct b.
    + destruct (Run_ok body now later delay t _ Hrun Hn Hb Hops Hl Hd) as (b & q' & -> & [P1 P2 P3] & _). cbn [mbind_res].
      exists q'. split; [done|]. by split.
    + unfold Run, alive. rewrite Hb. cbn [of_mem mbind_res negb]. eexists. split; [done|]. split; [apply Hrun|by eauto|].
      exists []. by rewrite app_nil_r.
Qed.

Lemma happens_progress q q' : inv q → happens dc q q' → progress q q'.
Proof.
  intros Hi H. induction H as [q|q e q1 q2 He Hr _ IH]; [apply grows_progress; [done|apply grows_refl]|].
  destruct (run_event_ok e q Hi He) as (q1' & Hr' & [P1 P2 (l1 & P3 & P4)]). rewrite Hr in Hr'. injection Hr' as <-.
  destruct (IH P1) as [Q1 Q2 (l2 & Q3 & Q4)]. split; [done| |].
  - intros f b Hf. destruct (P2 f b Hf) as (b1 & H1 & E1). destruct (Q2 f b1 H1) as (b2 & H2 & E2). exists b2. auto.
  - exists (l1 ++ l2). rewrite Q3, P3, app_assoc. split; [done|]. apply Forall_app. split; [done|].
    eapply Forall_impl; [exact Q4|]. intros r Hn Hf. destruct (P2 _ _ Hf) as (b & Hb & E). by rewrite E in Hb.
Qed.

(** C34: Whatever the tasks and the program do and however late tasks run, with
    times below the bound: every event has a result; the time a queued task is
    planned for is the time it was first planned for plus the delays its
    closure returned; after a run it is posted with the time that is left until
    then, to the nearest millisecond; and the closure of a task that was
    stopped does not run again. *)
Theorem repeating_no_drift q :
  happens dc no_tasks q →
  (∀ e, event_ok dc e q → ∃ q', run_event dc e q = Val q') ∧
  (∀ ms t, (ms, t) ∈ queue q → planned q (alive_flag_ t) = Some (next_run_time_ t)) ∧
  (∀ i now later body delay ms t q',
     queue q !! i = Some (ms, t) → event_ok dc (TRun i now later body delay) q →
     run_event dc (TRun i now later body delay) q = Val q' → flags q !! alive_flag_ t = Some true → flags q' !! alive_flag_ t = Some true →
     list.last (queue q') = Some (u32 (nearest (Z.max (next_run_time_ t + delay - later) 0) 1000), RTask (alive_flag_ t) (next_run_time_ t + delay))) ∧
  (∀ f q', flags q !! f = Some false → happens dc q q' →
     flags q' !! f = Some false ∧ filter (λ r, r.1.1 = f) (runs q') = filter (λ r, r.1.1 = f) (runs q)).
Proof.
  intros Hh. assert (inv q) as Hi by (apply (happens_progress no_tasks); [apply no_tasks_inv|done]). split_and!.
  - intros e He. destruct (run_event_ok e q Hi He) as (q' & ? & _). by exists q'.
  - intros ms t Ht. destruct Hi as [H1 _ _ _]. rewrite Forall_forall in H1. by apply H1 in Ht as [? _].
  - intros i now later body delay ms t q' Hq He Hr Hal Hal'. simpl in He, Hr. rewrite Hq in He, Hr. destruct He as (Hops & Hl & Hd).
    destruct (take_task i ms t q Hi Hq) as [Hrun Hn].
    destruct (Run_ok body now later delay t _ Hrun Hn Hal Hops Hl Hd) as (b & q1 & Hr1 & _ & Hlast). rewrite Hr1 in Hr. cbn [mbind_res] in Hr.
    injection Hr as <-. by apply Hlast.
  - intros f q' Hf Hh'. destruct (happens_progress q q' Hi Hh') as [_ P2 (l & -> & P4)]. destruct (P2 f false Hf) as (b & -> & E).
    rewrite E by done. split; [done|]. rewrite filter_app.
    assert (filter (λ r, r.1.1 = f) l = []) as ->; [|by rewrite app_nil_r].
    clear -P4 Hf. induction P4 as [|r l Hr _ IH]; [done|]. rewrite filter_cons_False; [done|]. by intros <-.
Qed.
End Inv.

(** A task of 20 ms that runs late twice and then stops itself. *)
Definition demo_events : list tevent :=
  [TOp (ODelayedStart 1000 20000); TRun 0 24000 25000 [] 20000; TRun 0 47300 47600 [] 20000].

#[global] Instance op_ok_dec o q : Decision (op_ok o q).
Proof. destruct o; simpl; apply _. Defined.

#[global] Instance ops_ok_dec os : ∀ q, Decision (ops_ok true os q).
Proof.
  induction os as [|o os IH]; intros q; simpl; [apply _|].
  apply and_dec; [apply _|]. destruct (run_op true o q); apply _ || apply IH.
Defined.

#[global] Instance event_ok_dec e q : Decision (event_ok true e q).
Proof. destruct e as [o|i now later body delay]; simpl; [apply _|]. destruct (queue q !! i) as [[ms t]|]; apply _. Defined.

(** Events one after the other, as long as they are permitted. *)
Fixpoint run_events (es : list tevent) (q : tqueue) : option tqueue :=
  match es with
  | [] => Some q
  | e :: es => if bool_decide (event_ok true e q) then match run_event true e q with Val q => run_events es q | _ => None end else None
  end.

Lemma run_events_happens es : ∀ q q', run_events es q = Some q' → happens true q q'.
Proof.
  induction es as [|e es IH]; intros q q'; simpl; [intros [= <-]; constructor|].
  case_bool_decide as He; [|done]. destruct (run_event true e q) as [q1| | |] eqn:Hr; try done. intros H. econstructor; [exact He|exact Hr|by apply IH].
Qed.

Lemma repeating_no_drift_witness :
  ∃ q, happens true no_tasks q ∧ (runs q).*2 = [20000; 20000] ∧ queue q = [(13, RTask 0 61000)] ∧ planned q 0 = Some 61000 ∧
    ∃ q', run_event true (TRun 0 62000 62500 [OStop 0] 20000) q = Val q' ∧ queue q' = [].
Proof.
  destruct (run_events demo_events no_tasks) as [q|] eqn:Hq; [|vm_compute in Hq; discriminate].
  exists q. assert (happens true no_tasks q) as Hh by (eapply run_events_happens; exact Hq).
  split; [exact Hh|]. destruct (repeating_no_drift true q Hh) as (Hev & Hpl & _ & _).
  assert (queue q = [(13, RTask 0 61000)]) as Eq by (vm_compute in Hq; injection Hq as <-; reflexivity).
  assert ((runs q).*2 = [20000; 20000]) as Er by (vm_compute in Hq; injection Hq as <-; reflexivity).
  split; [exact Er|]. split; [exact Eq|].
  split; [apply (Hpl 13 (RTask 0 61000)); rewrite Eq; apply list_elem_of_singleton; reflexivity|].
  destruct (Hev (TRun 0 62000 62500 [OStop 0] 20000)) as (q' & Hq').
  { apply (bool_decide_unpack _). vm_compute in Hq. injection Hq as <-. vm_compute. exact I. }
  exists q'. split; [exact Hq'|]. vm_compute in Hq. injection Hq as <-. vm_compute in Hq'. injection Hq' as <-. reflexivity.
Defined.
