(* ===== verification/Event.v ===== *)
(** * Events, the null socket server and the recursive lock
      (rtc_base/event.h, event.cc, null_socket_server.cc,
      deprecated/recursive_critical_section.cc, synchronization/yield_policy.cc)

    The POSIX code. An event is a flag under a mutex with a condition variable;
    [Wait] waits for the flag in one or two rounds, the first up to the time of
    the warning. What other threads do to the event while a wait has released
    the mutex, and what the condition variable answers, is an input. The
    theorems are that a wait is blocked only while the event is not signalled,
    that it answers true exactly when it saw the signal, which it then takes
    unless the event is reset by hand, and that every [Set] lets at most one
    waiter through; and that the recursive lock counts its owner's entries. *)

From S2P Require Import Prelude TimeUtils MessageQueue.

(** ** Time *)

(** [now] is what [clock_gettime] answered. *)
Definition GetTimespec (now : timespec) (milliseconds_from_now : Z) : res timespec :=
  let* sec := int64_ok (tv_sec now + milliseconds_from_now `quot` 1000) in
  let* nsec := int64_ok (tv_nsec now + milliseconds_from_now `rem` 1000 * 1000000) in
  if 1000000000 <=? nsec then
    let* sec := int64_ok (sec + 1) in Val (TimeSpec sec (nsec - 1000000000))
  else Val (TimeSpec sec nsec).

(** ** Events *)

Record Event := Ev { is_manual_reset_ : bool; event_status_ : bool }.
Definition set_status (b : bool) (e : Event) : Event := Ev (is_manual_reset_ e) b.

(** The arguments are the answers of the four initialisations of pthread. *)
Definition Event_new (manual_reset initially_signaled : bool) (mutex_init attr_init setclock cond_init : Z) : res Event :=
  let* _ := c_assert (mutex_init =? 0) in
  let* _ := c_assert (attr_init =? 0) in
  let* _ := c_assert (setclock =? 0) in
  let* _ := c_assert (cond_init =? 0) in
  Val (Ev manual_reset initially_signaled).
Definition Event_default := Event_new false false.

Definition Set_ (e : Event) : Event := set_status true e.
Definition Reset (e : Event) : Event := set_status false e.

(** What another thread does in one hold of the mutex; [OTake] is the end of a
    [Wait] of its own. *)
Inductive other := OSet | OReset | OTake.

(** The end of a wait whose loop ended without error. *)
Definition take (e : Event) : Event := if is_manual_reset_ e then e else set_status false e.

Definition run_other (o : other) (e : Event) : Event :=
  match o with
  | OSet => Set_ e
  | OReset => Reset e
  | OTake => if event_status_ e then take e else e
  end.
Definition run_others (os : list other) (e : Event) : Event := foldl (λ e o, run_other o e) e os.

(** One call of [pthread_cond_wait] or [pthread_cond_timedwait]: what the others
    did meanwhile, and the answer. *)
Record wakeup := Wakeup { w_others : list other; w_error : Z }.

Inductive wait_call := WYield (policy : Z) | WCondWait | WTimedWait (ts : timespec) | WWarn.

#[global] Instance timespec_eq_dec : EqDecision timespec.
Proof. solve_decision. Defined.
#[global] Instance wait_call_eq_dec : EqDecision wait_call.
Proof. solve_decision. Defined.

Inductive waiting := WBlocked | WError (error : Z).

(** The loop of the lambda [wait]: its result, the wake-ups left, the event and
    the calls made. *)
Fixpoint wait_loop (env : list wakeup) (timeout_ts : option timespec) (error : Z) (e : Event) (tr : list wait_call)
  : waiting * list wakeup * Event * list wait_call :=
  if event_status_ e then (WError error, env, e, tr)
  else if negb (error =? 0) then (WError error, env, e, tr)
  else
    let call := match timeout_ts with None => WCondWait | Some ts => WTimedWait ts end in
    match env with
    | [] => (WBlocked, [], e, tr ++ [call])
    | w :: env => wait_loop env timeout_ts (w_error w) (run_others (w_others w) e) (tr ++ [call])
    end.

Definition kEventForever : Z := -1.
Definition ETIMEDOUT : Z := 110.

Inductive wait_result := StillWaiting | Returned (b : bool).

(** [Wait(give_up_after_ms, warn_after_ms)]; [now] is the clock for the two
    deadlines and [policy] the yield policy of the thread. *)
Definition Wait (policy : option Z) (now_warn now_give_up : timespec) (give_up_after_ms warn_after_ms : Z)
  (env : list wakeup) (e : Event) : res (wait_result * list wakeup * Event * list wait_call) :=
  let* warn_ts :=
    (if (warn_after_ms =? kEventForever) ||
        (negb (give_up_after_ms =? kEventForever) && (give_up_after_ms <? warn_after_ms)) then Val None
     else let* ts := GetTimespec now_warn warn_after_ms in Val (Some ts)) in
  let* give_up_ts :=
    (if give_up_after_ms =? kEventForever then Val None
     else let* ts := GetTimespec now_give_up give_up_after_ms in Val (Some ts)) in
  let tr := match policy with Some p => [WYield p] | None => [] end in
  let '(r, env, e, tr) :=
    match warn_ts with
    | None => wait_loop env give_up_ts 0 e tr
    | Some _ =>
        let '(r, env, e, tr) := wait_loop env warn_ts 0 e tr in
        match r with
        | WError error => if error =? ETIMEDOUT then wait_loop env give_up_ts 0 e (tr ++ [WWarn]) else (r, env, e, tr)
        | WBlocked => (r, env, e, tr)
        end
    end in
  match r with
  | WBlocked => Val (StillWaiting, env, e, tr)
  | WError error =>
      let e := if (error =? 0) && negb (is_manual_reset_ e) then set_status false e else e in
      Val (Returned (error =? 0), env, e, tr)
  end.

(** The overload with one argument. *)
Definition Wait_default (policy : option Z) (now_warn now_give_up : timespec) (give_up_after_ms : Z) :=
  Wait policy now_warn now_give_up give_up_after_ms (if give_up_after_ms =? kEventForever then 3000 else kEventForever).

(** ** The socket server without sockets *)

Section Servers.
Context (RTC_DCHECK_IS_ON : bool).
Notation dcheck := (MessageQueue.dcheck RTC_DCHECK_IS_ON).

Definition null_Wait (policy : option Z) (now_warn now_give_up : timespec) (cms : Z) (process_io : bool)
  (env : list wakeup) (event_ : Event) : res (wait_result * list wakeup * Event * list wait_call) :=
  let* '(r, env, e, tr) := Wait policy now_warn now_give_up cms kEventForever env event_ in
  Val (match r with StillWaiting => StillWaiting | Returned _ => Returned true end, env, e, tr).
Definition null_WakeUp (event_ : Event) : Event := Set_ event_.
Definition null_CreateSocket (family type : Z) : res (option Z) := let* _ := dcheck false in Val None.

(** ** The recursive lock *)

(** The mutex of pthread with its owner and depth, and the two fields the checks
    use. Threads are positive. *)
Record Crit := MkCrit { mutex_ : option (Z * nat); thread_ : Z; recursion_count_ : Z }.
Definition Crit_new : Crit := MkCrit None 0 0.

Definition CurrentThreadIsOwner (self : Z) (c : Crit) : bool := if RTC_DCHECK_IS_ON then thread_ c =? self else true.

(** [pthread_mutex_lock] on a recursive mutex; [None] when it blocks. *)
Definition pm_lock (self : Z) (m : option (Z * nat)) : option (option (Z * nat)) :=
  match m with
  | None => Some (Some (self, 1%nat))
  | Some (o, n) => if o =? self then Some (Some (o, S n)) else None
  end.

(** The bookkeeping that [Enter] and [TryEnter] share. *)
Definition entered (self : Z) (m : option (Z * nat)) (c : Crit) : res Crit :=
  if RTC_DCHECK_IS_ON then
    let* t := (if recursion_count_ c =? 0 then let* _ := dcheck (thread_ c =? 0) in Val self
               else let* _ := dcheck (CurrentThreadIsOwner self c) in Val (thread_ c)) in
    let* n := int_ok (recursion_count_ c + 1) in
    Val (MkCrit m t n)
  else Val (MkCrit m (thread_ c) (recursion_count_ c)).

Definition Enter (self : Z) (c : Crit) : option (res Crit) :=
  m ← pm_lock self (mutex_ c); Some (entered self m c).

Definition TryEnter (self : Z) (c : Crit) : res (bool * Crit) :=
  match pm_lock self (mutex_ c) with
  | None => Val (false, c)
  | Some m => let* c := entered self m c in Val (true, c)
  end.

(** [pthread_mutex_unlock] of a recursive mutex fails for another thread. *)
Definition pm_unlock (self : Z) (m : option (Z * nat)) : option (Z * nat) :=
  match m with
  | Some (o, n) => if o =? self then match n with S (S n) => Some (o, S n) | _ => None end else m
  | None => m
  end.

Definition Leave (self : Z) (c : Crit) : res Crit :=
  let* _ := dcheck (CurrentThreadIsOwner self c) in
  let* c :=
    (if RTC_DCHECK_IS_ON then
       let n := recursion_count_ c - 1 in
       let* _ := dcheck (0 <=? n) in
       Val (MkCrit (mutex_ c) (if n =? 0 then 0 else thread_ c) n)
     else Val c) in
  Val (MkCrit (pm_unlock self (mutex_ c)) (thread_ c) (recursion_count_ c)).
End Servers.

(** ** The deadline *)

Definition ts_nanos (t : timespec) : Z := tv_sec t * 1000000000 + tv_nsec t.
Definition ts_ok (t : timespec) : Prop := 0 ≤ tv_nsec t < 1000000000 ∧ 0 ≤ tv_sec t < 2 ^ 62.

Lemma GetTimespec_exact now ms : ts_ok now → 0 ≤ ms ≤ INT_MAX →
  ∃ t, GetTimespec now ms = Val t ∧ ts_nanos t = ts_nanos now + ms * 1000000 ∧ 0 ≤ tv_nsec t < 1000000000.
Proof.
  intros [Hn Hs] Hm. unfold GetTimespec, INT_MAX in *.
  rewrite Z.quot_div_nonneg, Z.rem_mod_nonneg by lia.
  pose proof (Z.div_mod ms 1000 ltac:(lia)). pose proof (Z.mod_pos_bound ms 1000 ltac:(lia)).
  assert (ms / 1000 < 2 ^ 31) by (apply Z.div_lt_upper_bound; lia). assert (0 ≤ ms / 1000) by (apply Z.div_pos; lia).
  assert (∀ z, - 2 ^ 63 ≤ z < 2 ^ 63 → int64_ok z = Val z) as Hok.
  { intros z Hz. unfold int64_ok. replace (- 2 ^ 63 <=? z) with true by lia. by replace (z <? 2 ^ 63) with true by lia. }
  rewrite !Hok by lia. cbn [mbind_res]. case_match; [rewrite Hok by lia|]; cbn [mbind_res];
    eexists; (split; [done|]); unfold ts_nanos; cbn [tv_sec tv_nsec]; reflect_Z; lia.
Qed.

(** ** The loop *)

(** Signals that have not been taken: those of the event and those set. *)
Definition sets (os : list other) : nat := length (filter (λ o, match o with OSet => true | _ => false end = true) os).
Definition set_count (env : list wakeup) : nat := sum_list_with (λ w, sets (w_others w)) env.
Definition token (e : Event) : nat := if event_status_ e then 1 else 0.

(** Waits of others that got through. *)
Fixpoint taken_by (os : list other) (e : Event) : nat :=
  match os with
  | [] => 0
  | o :: os => (match o with OTake => token e | _ => 0 end + taken_by os (run_other o e))%nat
  end.

Definition run_wakeups (ws : list wakeup) (e : Event) : Event := foldl (λ e w, run_others (w_others w) e) e ws.
Fixpoint taken_during (ws : list wakeup) (e : Event) : nat :=
  match ws with [] => 0 | w :: ws => (taken_by (w_others w) e + taken_during ws (run_others (w_others w) e))%nat end.

Lemma run_wakeups_app ws ws' e : run_wakeups (ws ++ ws') e = run_wakeups ws' (run_wakeups ws e).
Proof. apply foldl_app. Qed.

Lemma run_other_manual o e : is_manual_reset_ (run_other o e) = is_manual_reset_ e.
Proof. destruct e as [[] []], o; reflexivity. Qed.
Lemma run_others_manual os : ∀ e, is_manual_reset_ (run_others os e) = is_manual_reset_ e.
Proof. induction os as [|o os IH]; intros e; [done|]. cbn [run_others foldl]. etrans; [apply IH|apply run_other_manual]. Qed.
Lemma run_wakeups_manual ws : ∀ e, is_manual_reset_ (run_wakeups ws e) = is_manual_reset_ e.
Proof. induction ws as [|w ws IH]; intros e; [done|]. cbn [run_wakeups foldl]. etrans; [apply IH|apply run_others_manual]. Qed.

(** A signal is taken once. *)
Lemma tokens_others os : ∀ e, is_manual_reset_ e = false →
  (taken_by os e + token (run_others os e) ≤ token e + sets os)%nat.
Proof.
  induction os as [|o os IH]; intros e Hm; [simpl; unfold sets; simpl; lia|]. cbn [taken_by run_others foldl].
  specialize (IH (run_other o e)). rewrite run_other_manual in IH. specialize (IH Hm). unfold run_others in IH.
  unfold sets in *. destruct o; rewrite ?filter_cons_True, ?filter_cons_False by done; cbn [length];
    destruct e as [[] []]; try done; unfold token in *; cbn in *; lia.
Qed.

Lemma tokens_wakeups ws : ∀ e, is_manual_reset_ e = false →
  (taken_during ws e + token (run_wakeups ws e) ≤ token e + set_count ws)%nat.
Proof.
  induction ws as [|w ws IH]; intros e Hm; [simpl; lia|]. cbn [taken_during run_wakeups foldl].
  specialize (IH (run_others (w_others w) e)). rewrite run_others_manual in IH. specialize (IH Hm).
  pose proof (tokens_others (w_others w) e Hm). unfold set_count, run_wakeups in *. cbn [sum_list_with]. lia.
Qed.

(** What a loop used up and what it found. *)
Record loop_end (env : list wakeup) (error : Z) (e : Event) (r : waiting) (env' : list wakeup) (e' : Event) (used : list wakeup) : Prop := {
  le_env : env = used ++ env';
  le_event : e' = run_wakeups used e;
  le_result : match r with
              | WBlocked => env' = [] ∧ event_status_ e' = false
              | WError x => (x = 0 ∧ event_status_ e' = true) ∨ (x ≠ 0 ∧ ((used = [] ∧ x = error) ∨ ∃ w, list.last used = Some w ∧ w_error w = x))
              end
}.

Lemma wait_loop_spec env : ∀ ts error e tr r env' e' tr',
  wait_loop env ts error e tr = (r, env', e', tr') → ∃ used, loop_end env error e r env' e' used.
Proof.
  induction env as [|w env IH]; intros ts error e tr r env' e' tr' E; cbn [wait_loop] in E.
  - exists []. destruct (event_status_ e) eqn:Es; [|destruct (Z.eqb_spec error 0)]; cbn [negb] in E; simplify_eq; split; try done;
      destruct (decide (error = 0)); auto.
  - destruct (event_status_ e) eqn:Es; [|destruct (Z.eqb_spec error 0)]; cbn [negb] in E.
    1,3: simplify_eq; exists []; split; try done; destruct (decide (error = 0)); auto.
    apply IH in E as [used [E1 E2 E3]]. exists (w :: used). split; [by rewrite E1|done|]. destruct r as [|x]; [done|].
    destruct E3 as [?|[Hx E3]]; [by left|right]. split; [done|]. right. destruct E3 as [[-> Hxe]|(w' & Hl & Hw')].
    + exists w. by rewrite Hxe.
    + exists w'. split; [|done]. rewrite last_cons, Hl. done.
Qed.

(** ** Waiting *)

Definition got (r : wait_result) : nat := match r with Returned true => 1 | _ => 0 end.

(** What a wait used up and how it ended: blocked only while there is no signal;
    true when it saw one, which it takes; false after an error, with the event
    as the others left it. *)
Record waited (env : list wakeup) (e : Event) (r : wait_result) (env' : list wakeup) (e' : Event) (used : list wakeup) : Prop := {
  wd_env : env = used ++ env';
  wd_result : match r with
              | StillWaiting => env' = [] ∧ e' = run_wakeups used e ∧ event_status_ e' = false
              | Returned true => event_status_ (run_wakeups used e) = true ∧ e' = take (run_wakeups used e)
              | Returned false => e' = run_wakeups used e ∧ ∃ w, list.last used = Some w ∧ w_error w ≠ 0
              end;
  wd_tokens : is_manual_reset_ e = false → (taken_during used e + got r + token e' ≤ token e + set_count used)%nat
}.

(** The end of [Wait] after its last loop. *)
Definition wait_end (x : waiting * list wakeup * Event * list wait_call) : wait_result * list wakeup * Event * list wait_call :=
  let '(r, env, e, tr) := x in
  match r with
  | WBlocked => (StillWaiting, env, e, tr)
  | WError error =>
      (Returned (error =? 0), env, if (error =? 0) && negb (is_manual_reset_ e) then set_status false e else e, tr)
  end.

Lemma wait_end_spec env e x r env' e' tr' y e0 used0 :
  e = run_wakeups used0 e0 →
  wait_loop env x 0 e y = (r, env', e', tr') →
  ∃ used, waited (used0 ++ env) e0 (wait_end (r, env', e', tr')).1.1.1 env' (wait_end (r, env', e', tr')).1.2 (used0 ++ used).
Proof.
  intros -> E. apply wait_loop_spec in E as [used [E1 -> E3]]. exists used. rewrite <- run_wakeups_app in *.
  pose proof (λ Hm, tokens_wakeups (used0 ++ used) e0 Hm) as Ht. pose proof (run_wakeups_manual (used0 ++ used) e0) as Hman.
  remember (run_wakeups (used0 ++ used) e0) as e1 eqn:He1.
  destruct r as [|error]; cbn [wait_end fst snd] in *.
  - destruct E3 as [-> Es]. split; [by rewrite E1, <- app_assoc|by rewrite <- He1|]. cbn [got]. intros Hm. specialize (Ht Hm). lia.
  - destruct E3 as [[-> Es]|[Hx E3]].
    + split; [by rewrite E1, <- app_assoc| |].
      * cbn. rewrite <- He1. split; [done|]. unfold take. by destruct (is_manual_reset_ e1).
      * intros Hm. specialize (Ht Hm). rewrite Hm in Hman. cbn. rewrite Hman. cbn. unfold token in *. rewrite Es in Ht. cbn. lia.
    + apply Z.eqb_neq in Hx as Hx'. rewrite Hx'. cbn [andb]. split; [by rewrite E1, <- app_assoc| |].
      * split; [by rewrite <- He1|]. destruct E3 as [[-> ->]|(w & Hl & <-)]; [done|]. exists w. split; [|done].
        rewrite last_app, Hl. done.
      * intros Hm. specialize (Ht Hm). cbn [got]. lia.
Qed.

Definition ms_ok (ms : Z) : Prop := ms = kEventForever ∨ 0 ≤ ms ≤ INT_MAX.

(** ** The lock against its meaning *)

(** A lock as its owner and the depth of its entries. *)
Inductive lock_op := LEnter (self : Z) | LTry (self : Z) | LLeave (self : Z).

(** [None]: the operation blocks; [Some None]: it is misuse. *)
Definition lock_spec (o : lock_op) (l : option (Z * nat)) : option (option (bool * option (Z * nat))) :=
  match o, l with
  | LEnter s, None => Some (Some (true, Some (s, 1%nat)))
  | LEnter s, Some (o, n) => if o =? s then Some (Some (true, Some (o, S n))) else None
  | LTry s, None => Some (Some (true, Some (s, 1%nat)))
  | LTry s, Some (o, n) => Some (Some (if o =? s then (true, Some (o, S n)) else (false, l)))
  | LLeave s, Some (o, 1%nat) => Some (if o =? s then Some (true, None) else None)
  | LLeave s, Some (o, n) => Some (if o =? s then Some (true, Some (o, pred n)) else None)
  | LLeave s, None => Some None
  end.

Definition lock_apply (dchecks : bool) (o : lock_op) (c : Crit) : option (res (bool * Crit)) :=
  match o with
  | LEnter s => r ← Enter dchecks s c; Some (let* c := r in Val (true, c))
  | LTry s => Some (TryEnter dchecks s c)
  | LLeave s => Some (let* c := Leave dchecks s c in Val (true, c))
  end.

Definition op_self (o : lock_op) : Z := match o with LEnter s | LTry s | LLeave s => s end.
Definition depth (l : option (Z * nat)) : nat := match l with Some (_, n) => n | None => 0 end.

(** The fields the checks use agree with the mutex. *)
Definition crit_ok (dchecks : bool) (c : Crit) : Prop :=
  match mutex_ c with
  | Some (o, n) => o ≠ 0 ∧ (0 < n)%nat ∧ (dchecks = true → thread_ c = o ∧ recursion_count_ c = Z.of_nat n)
  | None => dchecks = true → thread_ c = 0 ∧ recursion_count_ c = 0
  end.

(** What an operation answers, against the meaning of the lock. *)
Definition lock_answer (dchecks : bool) (r : option (option (bool * option (Z * nat)))) (a : option (res (bool * Crit))) : Prop :=
  match r, a with
  | None, None => True
  | Some (Some (b, l)), Some (Val (b', c)) => b' = b ∧ mutex_ c = l ∧ crit_ok dchecks c
  | Some None, Some x => dchecks = true → x = Aborted
  | _, _ => False
  end.

Lemma int_succ n : (n < Z.to_nat INT_MAX)%nat → int_ok (Z.of_nat n + 1) = Val (Z.of_nat (S n)).
Proof.
  intros Hn. unfold int_ok, INT_MAX, INT_MIN in *. replace (-2147483648 <=? Z.of_nat n + 1) with true by lia.
  replace (Z.of_nat n + 1 <=? 2147483647) with true by lia. cbn [andb]. f_equal. lia.
Qed.

Lemma entered_ok dchecks s m c :
  s ≠ 0 → crit_ok dchecks c → pm_lock s (mutex_ c) = Some m → (depth (mutex_ c) < Z.to_nat INT_MAX)%nat →
  ∃ c', entered dchecks s m c = Val c' ∧ mutex_ c' = m ∧ crit_ok dchecks c'.
Proof.
  intros Hs Hc Hm Hd. unfold entered, crit_ok, pm_lock, CurrentThreadIsOwner in *. destruct (mutex_ c) as [[o n]|] eqn:Em.
  - destruct (Z.eqb_spec o s) as [->|]; [|done]. simplify_eq. destruct Hc as (Ho & Hn & Hc). destruct dchecks.
    + destruct (Hc eq_refl) as [-> ->]. replace (Z.of_nat n =? 0) with false by lia. rewrite Z.eqb_refl. cbn [dcheck c_assert mbind_res].
      rewrite int_succ by done. cbn [mbind_res]. eexists. split; [done|]. split; [done|]. cbn. split_and!; [done|lia|done].
    + eexists. split; [done|]. split; [done|]. cbn. split_and!; [done|lia|done].
  - simplify_eq. destruct dchecks.
    + destruct (Hc eq_refl) as [-> ->]. cbn [dcheck c_assert mbind_res Z.eqb]. change (0 + 1) with (Z.of_nat 0 + 1).
      rewrite int_succ by (unfold INT_MAX; lia). cbn [mbind_res]. eexists. split; [done|]. split; [done|]. cbn. split_and!; [done|lia|done].
    + eexists. split; [done|]. split; [done|]. cbn. split_and!; [done|lia|done].
Qed.

Lemma leave_ok dchecks s c :
  crit_ok dchecks c → lock_answer dchecks (lock_spec (LLeave s) (mutex_ c)) (lock_apply dchecks (LLeave s) c).
Proof.
  intros Hc. destruct c as [m t r]. unfold lock_apply, Leave, crit_ok, CurrentThreadIsOwner in *. cbn [mutex_ thread_ recursion_count_] in *.
  destruct m as [[o n]|].
  - destruct Hc as (Ho & Hn & Hc). destruct n as [|n]; [lia|]. destruct dchecks.
    + destruct (Hc eq_refl) as [-> ->]. destruct (Z.eqb_spec o s) as [->|Hne]; [|unfold lock_spec; destruct n; by rewrite (proj2 (Z.eqb_neq o s) Hne)].
      cbn [dcheck c_assert mbind_res]. rewrite (proj2 (Z.leb_le 0 (Z.of_nat (S n) - 1))) by lia.
      cbn [c_assert mbind_res mutex_ thread_ recursion_count_].
      unfold lock_spec, pm_unlock. rewrite Z.eqb_refl. destruct n as [|n]; cbn [lock_answer mutex_]; (split; [done|]); (split; [done|]).
      * by cbn.
      * cbn [crit_ok mutex_ thread_ recursion_count_]. split_and!; [done|lia|]. intros _.
        rewrite (proj2 (Z.eqb_neq (Z.of_nat (S (S n)) - 1) 0)) by lia. split; [done|lia].
    + unfold lock_spec, pm_unlock. cbn [mutex_ mbind_res dcheck]. destruct (Z.eqb_spec o s) as [->|Hne]; destruct n; cbn; rewrite ?Z.eqb_refl;
        try (destruct (Z.eqb_spec o s); [done|]); cbn; auto with lia.
  - unfold lock_spec. cbn. destruct dchecks; [|done]. destruct (Hc eq_refl) as [-> ->]. intros _. destruct (0 =? s) eqn:E; [|done].
    done.
Qed.

Lemma lock_refines dchecks o c :
  crit_ok dchecks c → op_self o ≠ 0 → (depth (mutex_ c) < Z.to_nat INT_MAX)%nat →
  lock_answer dchecks (lock_spec o (mutex_ c)) (lock_apply dchecks o c).
Proof.
  intros Hc Hs Hd. destruct o as [s|s|s]; cbn [op_self] in Hs; [| |by apply leave_ok].
  all: pose proof (λ m, entered_ok dchecks s m c Hs Hc) as He; unfold lock_apply, Enter, TryEnter, lock_spec, pm_lock in *;
    destruct (mutex_ c) as [[o n]|] eqn:Em; [destruct (Z.eqb_spec o s) as [->|]|].
  all: try (destruct (He _ eq_refl Hd) as (c' & E & Hm & Hok); cbn [mbind option_bind]; rewrite E; cbn; by rewrite Hm).
  all: cbn; by rewrite ?Em.
Qed.

(** ** Properties *)

(** A wait on an event has a result whatever the other threads and the
    condition variable do; it is blocked only while the event is not signalled;
    it answers true exactly when it saw the signal, and then takes it unless the
    event is reset by hand; and of an event that is not, every [Set] lets at most
    one waiter through. *)
Theorem event_wait_exact policy now_warn now_give_up giveup warn env e :
  ts_ok now_warn → ts_ok now_give_up → ms_ok giveup → ms_ok warn →
  ∃ r env' e' tr used, Wait policy now_warn now_give_up giveup warn env e = Val (r, env', e', tr) ∧
    waited env e r env' e' used.
Proof.
  intros Hw Hg Hgm Hwm. unfold Wait.
  set (bw := (warn =? kEventForever) || _). assert (∃ warn_ts, (if bw then Val None else let* ts := GetTimespec now_warn warn in Val (Some ts)) = Val warn_ts) as [warn_ts ->].
  { destruct Hwm as [->|Hwm]; [exists None; reflexivity|]. destruct bw; [eexists; reflexivity|].
    destruct (GetTimespec_exact now_warn warn Hw Hwm) as (t & -> & _). eexists; reflexivity. }
  assert (∃ gts, (if giveup =? kEventForever then Val None else let* ts := GetTimespec now_give_up giveup in Val (Some ts)) = Val gts) as [gts ->].
  { destruct Hgm as [->|Hgm]; [exists None; reflexivity|]. destruct (giveup =? kEventForever); [eexists; reflexivity|].
    destruct (GetTimespec_exact now_give_up giveup Hg Hgm) as (t & -> & _). eexists; reflexivity. }
  cbn [mbind_res]. set (tr := match policy with Some p => [WYield p] | None => [] end). clearbody tr.
  set (X := match warn_ts with None => _ | Some _ => _ end).
  assert (∃ used0 env1 x tr1, env = used0 ++ env1 ∧ X = wait_loop env1 x 0 (run_wakeups used0 e) tr1) as (used0 & env1 & x & tr1 & Henv & HX).
  { subst X. destruct warn_ts as [ts|]; [|by eexists [], env, gts, tr].
    destruct (wait_loop env (Some ts) 0 e tr) as [[[r env1] e1] tr1] eqn:E. pose proof E as [used0 [E1 E2 _]]%wait_loop_spec. destruct r as [|error].
    { exists [], env, (Some ts), tr. by rewrite <- E. }
    destruct (error =? ETIMEDOUT); [|exists [], env, (Some ts), tr; by rewrite <- E].
    exists used0, env1, gts, (tr1 ++ [WWarn]). by rewrite E2. }
  rewrite HX. destruct (wait_loop env1 x 0 _ tr1) as [[[r env'] e'] tr'] eqn:E.
  destruct (wait_end_spec _ _ _ _ _ _ _ _ e used0 eq_refl E) as [used Hwd]. rewrite Henv.
  destruct r; eexists _, _, _, _, _; (split; [reflexivity|exact Hwd]).
Qed.

Lemma event_wait_exact_witness :
  ts_ok (TimeSpec 5 999000000) ∧ ms_ok 20 ∧ ms_ok kEventForever ∧
  ∃ r env' e' tr used,
    Wait None (TimeSpec 5 999000000) (TimeSpec 5 999000000) 20 kEventForever
      [Wakeup [OReset] 0; Wakeup [OSet; OTake] 0; Wakeup [OTake; OSet] 0; Wakeup [] 0] (Ev false false) = Val (r, env', e', tr) ∧
    waited [Wakeup [OReset] 0; Wakeup [OSet; OTake] 0; Wakeup [OTake; OSet] 0; Wakeup [] 0] (Ev false false) r env' e' used.
Proof.
  assert (ts_ok (TimeSpec 5 999000000)) as Ht by (unfold ts_ok; simpl; lia).
  assert (ms_ok 20) as Hm by (right; unfold INT_MAX; lia). assert (ms_ok kEventForever) as Hf by by left.
  split; [exact Ht|]. split; [exact Hm|]. split; [exact Hf|].
  apply (event_wait_exact None (TimeSpec 5 999000000) (TimeSpec 5 999000000) 20 kEventForever
    [Wakeup [OReset] 0; Wakeup [OSet; OTake] 0; Wakeup [OTake; OSet] 0; Wakeup [] 0] (Ev false false)); assumption.
Defined.

(** When both times are equal the warning is given, then the wait gives up. *)
Example event_warns_at_equal_times :
  (λ x, match x with Val (r, _, _, tr) => Some (r, length (filter (λ c, c = WWarn) tr)) | _ => None end)
    (Wait None (TimeSpec 0 0) (TimeSpec 0 0) 5 5 [Wakeup [] ETIMEDOUT; Wakeup [] ETIMEDOUT] (Ev false false))
  = Some (Returned false, 1%nat).
Proof. vm_compute. reflexivity. Qed.

(** The recursive lock behaves as an owner with a depth: entering blocks
    exactly when another thread owns it, leaving gives it up with the last entry,
    the fields of the checks always agree with the mutex, so no check fires on
    correct use, and leaving by a thread that does not own it is caught. *)
Theorem recursive_lock_refines dchecks o c :
  crit_ok dchecks c → op_self o ≠ 0 → (depth (mutex_ c) < Z.to_nat INT_MAX)%nat →
  lock_answer dchecks (lock_spec o (mutex_ c)) (lock_apply dchecks o c).
Proof. intros Hc Hs Hd. by apply lock_refines. Qed.

Lemma recursive_lock_refines_witness :
  crit_ok true (MkCrit (Some (7, 2%nat)) 7 2) ∧
  lock_answer true (lock_spec (LEnter 7) (Some (7, 2%nat))) (lock_apply true (LEnter 7) (MkCrit (Some (7, 2%nat)) 7 2)).
Proof.
  assert (crit_ok true (MkCrit (Some (7, 2%nat)) 7 2)) as Hc by (cbn; split_and!; lia).
  split; [exact Hc|]. apply (recursive_lock_refines true (LEnter 7) (MkCrit (Some (7, 2%nat)) 7 2)); [exact Hc|simpl; lia|unfold INT_MAX; simpl; lia].
Defined.
