(* ===== verification/Sending.v ===== *)
(** * Blocking sends between threads (rtc_base/thread.h, thread.cc: [Send],
      [InvokeInternal], [PostTask], [Run], the policy of invokes)

    Several threads run their loops, and handlers send to, post to and quit other
    threads. A blocking [Send] posts a task to its target whose destruction, after
    the handler ran or when the task is dropped, sets [ready] under the lock of
    the target and wakes the sender up; the sender waits for [ready] in a loop
    around the wait of its own socket server. One step of the system is one step
    of one thread between two accesses to shared state; the order of the steps is
    arbitrary.

    A handler is the list of the calls it makes. A thread is the stack of its
    activations. Threads that are not [rtc::Thread]s send too, with an event of
    their own. *)

From stdpp Require Import relations.
From S2P Require Import Prelude MessageQueue ThreadManager.

#[local] Set Warnings "-register-all".

(** ** Handlers and tasks *)

Inductive cmd :=
  | CSend (t : Z) (h : list cmd)           (* [t->Send] with a handler that does [h] *)
  | CPost (t : Z) (h : list cmd)           (* [t->PostTask] *)
  | CQuit (t : Z)                          (* [t->Quit()] *)
  | CAllow (u v : Z)                       (* [u->AllowInvokesToThread(v)] *)
  | CDisallow (u : Z)                      (* [u->DisallowAllInvokes()] *)
  | CBlocking (u : Z) (allow : bool).      (* [u->SetAllowBlockingCalls(allow)] *)

(** A task of a send, which knows its call, or another task. *)
Inductive task := TSend (c : Z) (h : list cmd) | TPost (h : list cmd).

(** What a thread is in the middle of. *)
Inductive frame :=
  | FRun (cs : list cmd)                   (* a handler with the calls left *)
  | FTask (c : Z)                          (* the task of call [c], around its handler *)
  | FTest (t : Z) (k : task)               (* [Post], before the test of [IsQuitting] *)
  | FPush (t : Z) (k : task)               (* [Post], before the locked part *)
  | FWake (t : Z)                          (* [Post] and [Quit], before the wake-up *)
  | FClean (c : Z)                         (* the cleanup of the task of [c] *)
  | FSig (c : Z)                           (* the cleanup with the lock held and [ready] set *)
  | FWait (c : Z) (waited sleeping : bool) (* the loop at the end of [Send] *)
  | FDone (c : Z)                          (* the wait for [done_event] *)
  | FGet (sleeping : bool).                (* [Get] of the loop of the thread *)

(** ** State *)

Record thr := Thr {
  rtc_ : bool;                             (* an [rtc::Thread] *)
  stop_ : bool;
  queue : list task;
  awake : bool;                            (* the event of its socket server *)
  stack : list frame;
  crit_ : option Z;                        (* who holds the lock of its queue *)
  blocking_call_count_ : Z;
  could_be_blocking_call_count_ : Z;
  allowed_threads_ : list Z;
  invoke_policy_enabled_ : bool;
  blocking_calls_allowed_ : bool
}.

Definition set_thr_stack (k : list frame) (x : thr) : thr :=
  Thr (rtc_ x) (stop_ x) (queue x) (awake x) k (crit_ x) (blocking_call_count_ x) (could_be_blocking_call_count_ x)
    (allowed_threads_ x) (invoke_policy_enabled_ x) (blocking_calls_allowed_ x).
Definition set_thr_queue (q : list task) (x : thr) : thr :=
  Thr (rtc_ x) (stop_ x) q (awake x) (stack x) (crit_ x) (blocking_call_count_ x) (could_be_blocking_call_count_ x)
    (allowed_threads_ x) (invoke_policy_enabled_ x) (blocking_calls_allowed_ x).
Definition set_thr_awake (a : bool) (x : thr) : thr :=
  Thr (rtc_ x) (stop_ x) (queue x) a (stack x) (crit_ x) (blocking_call_count_ x) (could_be_blocking_call_count_ x)
    (allowed_threads_ x) (invoke_policy_enabled_ x) (blocking_calls_allowed_ x).
Definition set_thr_stop (b : bool) (x : thr) : thr :=
  Thr (rtc_ x) b (queue x) (awake x) (stack x) (crit_ x) (blocking_call_count_ x) (could_be_blocking_call_count_ x)
    (allowed_threads_ x) (invoke_policy_enabled_ x) (blocking_calls_allowed_ x).
Definition set_thr_crit (o : option Z) (x : thr) : thr :=
  Thr (rtc_ x) (stop_ x) (queue x) (awake x) (stack x) o (blocking_call_count_ x) (could_be_blocking_call_count_ x)
    (allowed_threads_ x) (invoke_policy_enabled_ x) (blocking_calls_allowed_ x).
Definition set_thr_counts (n m : Z) (x : thr) : thr :=
  Thr (rtc_ x) (stop_ x) (queue x) (awake x) (stack x) (crit_ x) n m
    (allowed_threads_ x) (invoke_policy_enabled_ x) (blocking_calls_allowed_ x).
Definition set_thr_policy (l : list Z) (e b : bool) (x : thr) : thr :=
  Thr (rtc_ x) (stop_ x) (queue x) (awake x) (stack x) (crit_ x) (blocking_call_count_ x) (could_be_blocking_call_count_ x) l e b.

(** The variables of one [Send] that waits. *)
Record call := Call { sender : Z; current_thread : option Z; target : Z; ready : bool }.
Definition set_ready (c : call) : call := Call (sender c) (current_thread c) (target c) true.

(** What can be observed of the sends: a handler starts and ends on a thread, a
    task is dropped unrun, a send returns; and the direct calls. *)
Inductive event := EStart (c t : Z) | EEnd (c t : Z) | EDrop (c : Z) | EReturn (c t : Z) | ELocal (t : Z).

Record sys := Sys { threads : gmap Z thr; calls : gmap Z call; send_graph_ : graph; log : list event }.

Definition upd (i : Z) (f : thr → thr) (s : sys) : sys := Sys (alter f i (threads s)) (calls s) (send_graph_ s) (log s).
Definition set_calls (m : gmap Z call) (s : sys) : sys := Sys (threads s) m (send_graph_ s) (log s).
Definition set_sgraph (g : graph) (s : sys) : sys := Sys (threads s) (calls s) g (log s).
Definition emit (e : event) (s : sys) : sys := Sys (threads s) (calls s) (send_graph_ s) (log s ++ [e]).

Notation go i k := (upd i (set_thr_stack k)).
Notation wake t := (upd t (set_thr_awake true)).

(** An [rtc::Thread] object. *)
Definition object (t : Z) (s : sys) : option thr :=
  match threads s !! t with Some x => if rtc_ x then Some x else None | None => None end.

(** The lock can be entered by [i]. *)
Definition may_enter (i : Z) (x : thr) : bool := match crit_ x with None => true | Some j => j =? i end.

(** ** Counting the blocking calls of a scope *)

(** The scope remembers the counters of the thread at its start. *)
Record scoped_count := ScopedCount {
  base_blocking_call_count_ : Z; base_could_be_blocking_call_count_ : Z; min_blocking_calls_for_callback_ : Z
}.
Definition ScopedCountBlockingCalls_new (x : thr) : scoped_count :=
  ScopedCount (blocking_call_count_ x) (could_be_blocking_call_count_ x) 0.
Definition set_minimum_call_count_for_callback (minimum : Z) (c : scoped_count) : scoped_count :=
  ScopedCount (base_blocking_call_count_ c) (base_could_be_blocking_call_count_ c) minimum.
Definition GetBlockingCallCount (c : scoped_count) (x : thr) : Z := u32 (blocking_call_count_ x - base_blocking_call_count_ c).
Definition GetCouldBeBlockingCallCount (c : scoped_count) (x : thr) : Z :=
  u32 (could_be_blocking_call_count_ x - base_could_be_blocking_call_count_ c).
Definition GetTotalBlockedCallCount (c : scoped_count) (x : thr) : Z := u32 (GetBlockingCallCount c x + GetCouldBeBlockingCallCount c x).
(** The arguments of the callback, when it is called. *)
Definition ScopedCountBlockingCalls_delete (c : scoped_count) (x : thr) : option (Z * Z) :=
  if min_blocking_calls_for_callback_ c <=? GetTotalBlockedCallCount c x
  then Some (GetBlockingCallCount c x, GetCouldBeBlockingCallCount c x) else None.

(** The scope that forbids blocking calls and puts back what was allowed. *)
Definition ScopedDisallowBlockingCalls_new (x : thr) : bool * thr :=
  (blocking_calls_allowed_ x, set_thr_policy (allowed_threads_ x) (invoke_policy_enabled_ x) false x).
Definition ScopedDisallowBlockingCalls_delete (previous_state_ : bool) (x : thr) : thr :=
  set_thr_policy (allowed_threads_ x) (invoke_policy_enabled_ x) previous_state_ x.

(** ** Steps *)

Section Steps.
Context (RTC_DCHECK_IS_ON NDEBUG : bool).
Notation dcheck := (MessageQueue.dcheck RTC_DCHECK_IS_ON).

Definition IsInvokeToThreadAllowed (t : Z) (x : thr) : bool :=
  if RTC_DCHECK_IS_ON then
    if negb (invoke_policy_enabled_ x) then true else existsb (λ a, a =? t) (allowed_threads_ x)
  else true.

(** [AssertBlockingIsAllowedOnCurrentThread], on thread [x]. *)
Definition AssertBlockingIsAllowed (x : thr) : res unit :=
  if NDEBUG then Val () else dcheck (negb (rtc_ x) || blocking_calls_allowed_ x).

(** The part of a blocking [Send] before the task is posted: the counter, the
    policy and the graph. *)
Definition register_send (fuel : nat) (i t : Z) (x : thr) (s : sys) : option (res sys) :=
  if RTC_DCHECK_IS_ON && rtc_ x then
    let s := upd i (set_thr_counts (u32 (blocking_call_count_ x + 1)) (could_be_blocking_call_count_ x)) s in
    if IsInvokeToThreadAllowed t x then
      r ← RegisterSendAndCheckForCycles fuel i t (send_graph_ s);
      Some (let* g := r in Val (set_sgraph g s))
    else Some Aborted
  else Some (Val s).

(** [t->Send(h)] by thread [i], whose stack is then [k]. *)
Definition Send (fuel : nat) (i t : Z) (h : list cmd) (k : list frame) (x : thr) (s : sys) : option (res sys) :=
  match object t s with
  | None => Some Undef
  | Some y =>
      if stop_ y then Some (let* _ := dcheck false in Val (go i k s))
      else if i =? t then
        Some (let* _ := dcheck (IsInvokeToThreadAllowed t x) in
              let s := (if RTC_DCHECK_IS_ON
                        then upd i (set_thr_counts (blocking_call_count_ x) (u32 (could_be_blocking_call_count_ x + 1))) s
                        else s) in
              Val (emit (ELocal t) (go i (FRun h :: k) s)))
      else
        match AssertBlockingIsAllowed x with
        | Val _ =>
            r ← register_send fuel i t x s;
            Some (let* s := r in
                  let c := fresh (dom (calls s)) in
                  let s := set_calls (<[c := Call i (if rtc_ x then Some i else None) t false]> (calls s)) s in
                  Val (go i (FTest t (TSend c h) :: (if rtc_ x then FWait c false false else FDone c) :: k) s))
        | _ => Some Aborted
        end
  end.

(** [InvokeInternal] sends to a handler on its stack that calls the functor. *)
Definition InvokeInternal := Send.

(** [PostTask]: the message is for the handler of queued tasks. *)
Definition PostTask (i t : Z) (h : list cmd) (k : list frame) (s : sys) : res sys := Val (go i (FTest t (TPost h) :: k) s).

Definition Quit (i t : Z) (k : list frame) (s : sys) : res sys :=
  let* _ := of_mem (object t s) in Val (go i (FWake t :: k) (upd t (set_thr_stop true) s)).

Definition AllowInvokesToThread (i u v : Z) (k : list frame) (s : sys) : res sys :=
  if RTC_DCHECK_IS_ON then
    if i =? u then
      let* y := of_mem (object u s) in
      Val (go i k (upd u (set_thr_policy (allowed_threads_ y ++ [v]) true (blocking_calls_allowed_ y)) s))
    else PostTask i u [CAllow u v] k s
  else Val (go i k s).

Definition DisallowAllInvokes (i u : Z) (k : list frame) (s : sys) : res sys :=
  if RTC_DCHECK_IS_ON then
    if i =? u then
      let* y := of_mem (object u s) in
      Val (go i k (upd u (set_thr_policy [] true (blocking_calls_allowed_ y)) s))
    else PostTask i u [CDisallow u] k s
  else Val (go i k s).

Definition SetAllowBlockingCalls (i u : Z) (allow : bool) (k : list frame) (s : sys) : res sys :=
  let* y := of_mem (object u s) in
  let* _ := dcheck (i =? u) in
  Val (go i k (upd u (set_thr_policy (allowed_threads_ y) (invoke_policy_enabled_ y) allow) s)).

(** One call of a handler. *)
Definition run_cmd (fuel : nat) (i : Z) (c : cmd) (k : list frame) (x : thr) (s : sys) : option (res sys) :=
  match c with
  | CSend t h => Send fuel i t h k x s
  | CPost t h => Some (PostTask i t h k s)
  | CQuit t => Some (Quit i t k s)
  | CAllow u v => Some (AllowInvokesToThread i u v k s)
  | CDisallow u => Some (DisallowAllInvokes i u k s)
  | CBlocking u b => Some (SetAllowBlockingCalls i u b k s)
  end.

(** [Post] tests whether the thread is quitting and drops the task if it is, by
    deleting it here. *)
Definition post_test (i t : Z) (k : task) (st : list frame) (s : sys) : res sys :=
  let* y := of_mem (object t s) in
  if stop_ y then
    Val (match k with
         | TSend c _ => emit (EDrop c) (go i (FClean c :: st) s)
         | TPost _ => go i st s
         end)
  else Val (go i (FPush t k :: st) s).

Definition post_push (i t : Z) (k : task) (st : list frame) (s : sys) : option (res sys) :=
  match object t s with
  | None => Some Undef
  | Some y =>
      if may_enter i y then Some (Val (go i (FWake t :: st) (upd t (set_thr_queue (queue y ++ [k])) s))) else None
  end.

(** The cleanup of the task of a send: [ready] under the lock of the target and
    the wake-up of the sender, or the event. *)
Definition cleanup (i c : Z) (st : list frame) (s : sys) : option (res sys) :=
  match calls s !! c with
  | None => Some Undef
  | Some cl =>
      let s' := set_calls (<[c := set_ready cl]> (calls s)) s in
      match current_thread cl with
      | None => Some (Val (go i st s'))
      | Some _ =>
          match object (target cl) s with
          | None => Some Undef
          | Some y =>
              if may_enter i y then Some (Val (go i (FSig c :: st) (upd (target cl) (set_thr_crit (Some i)) s'))) else None
          end
      end
  end.

Definition cleanup_signal (i c : Z) (st : list frame) (s : sys) : res sys :=
  let* cl := of_mem (calls s !! c) in
  let* me := of_mem (current_thread cl) in
  let* _ := of_mem (object me s) in
  Val (go i st (upd (target cl) (set_thr_crit None) (wake me s))).

(** The loop at the end of [Send]: the test of [ready] under the lock, and the
    return with the wake-up that the waits may have swallowed. *)
Definition send_test (i c : Z) (waited : bool) (st : list frame) (s : sys) : option (res sys) :=
  match calls s !! c with
  | None => Some Undef
  | Some cl =>
      match object (target cl) s with
      | None => Some Undef
      | Some y =>
          if may_enter i y then
            Some (Val (if ready cl then emit (EReturn c i) (go i st (if waited then wake i s else s))
                       else go i (FWait c waited true :: st) s))
          else None
      end
  end.

Definition send_done (i c : Z) (st : list frame) (s : sys) : option (res sys) :=
  match calls s !! c with
  | None => Some Undef
  | Some cl => if ready cl then Some (Val (emit (EReturn c i) (go i st s))) else None
  end.

(** [Wait(kForever)] of the socket server; it may also return for a reason of
    its own. *)
Definition ss_wait (spurious : bool) (i : Z) (st : list frame) (x : thr) (s : sys) : option (res sys) :=
  if spurious then Some (Val (go i st s))
  else if awake x then Some (Val (go i st (upd i (set_thr_awake false) s))) else None.

(** [Get] and [Dispatch] of the loop of the thread. *)
Definition get_next (i : Z) (st : list frame) (x : thr) (s : sys) : option (res sys) :=
  if may_enter i x then
    Some (Val (match queue x with
               | TSend c h :: q => emit (EStart c i) (go i (FRun h :: FTask c :: FGet false :: st) (upd i (set_thr_queue q) s))
               | TPost h :: q => go i (FRun h :: FGet false :: st) (upd i (set_thr_queue q) s)
               | [] => if stop_ x then go i st s else go i (FGet true :: st) s
               end))
  else None.

(** One step of thread [i]; [None] when it is blocked or has nothing to do. *)
Definition step (fuel : nat) (spurious : bool) (i : Z) (s : sys) : option (res sys) :=
  x ← threads s !! i;
  match stack x with
  | [] => None
  | FRun [] :: st => Some (Val (go i st s))
  | FRun (c :: cs) :: st => run_cmd fuel i c (FRun cs :: st) x s
  | FTask c :: st => Some (Val (emit (EEnd c i) (go i (FClean c :: st) s)))
  | FTest t k :: st => Some (post_test i t k st s)
  | FPush t k :: st => post_push i t k st s
  | FWake t :: st => Some (let* _ := of_mem (object t s) in Val (go i st (wake t s)))
  | FClean c :: st => cleanup i c st s
  | FSig c :: st => Some (cleanup_signal i c st s)
  | FWait c w false :: st => send_test i c w st s
  | FWait c w true :: st => ss_wait spurious i (FWait c true false :: st) x s
  | FDone c :: st => send_done i c st s
  | FGet false :: st => get_next i st x s
  | FGet true :: st => ss_wait spurious i (FGet false :: st) x s
  end.
End Steps.

(** ** The parts of the threads *)

Definition part {A} (f : thr → A) (s : sys) : gmap Z A := f <$> threads s.

Notation stacks := (part stack).
Notation queues := (part queue).
Notation awakes := (part awake).
Notation stops := (part stop_).
Notation rtcs := (part rtc_).
Notation crits := (part crit_).

Section Parts.
Context {A : Type} (f : thr → A).

Lemma part_same i g s : (∀ x, f (g x) = f x) → part f (upd i g s) = part f s.
Proof.
  intros Hg. apply map_eq. intros j. unfold part, upd. cbn [threads]. rewrite !lookup_fmap.
  destruct (decide (i = j)) as [->|Hne]; [rewrite lookup_alter_eq|by rewrite lookup_alter_ne].
  destruct (threads s !! j); cbn; [by rewrite Hg|done].
Qed.

Lemma part_set i g v s : (∀ x, f (g x) = v) → part f (upd i g s) = alter (λ _, v) i (part f s).
Proof.
  intros Hg. apply map_eq. intros j. unfold part, upd. cbn [threads]. rewrite lookup_fmap.
  destruct (decide (i = j)) as [->|Hne]; [rewrite !lookup_alter_eq|by rewrite !lookup_alter_ne, lookup_fmap].
  rewrite lookup_fmap. destruct (threads s !! j); cbn; [by rewrite Hg|done].
Qed.

Lemma part_calls m s : part f (set_calls m s) = part f s.
Proof. done. Qed.
Lemma part_graph g s : part f (set_sgraph g s) = part f s.
Proof. done. Qed.
Lemma part_emit e s : part f (emit e s) = part f s.
Proof. done. Qed.
End Parts.

Lemma stacks_go i k s : stacks (go i k s) = alter (λ _, k) i (stacks s).
Proof. by apply part_set. Qed.
Lemma queues_set i q s : queues (upd i (set_thr_queue q) s) = alter (λ _, q) i (queues s).
Proof. by apply part_set. Qed.
Lemma awakes_set i b s : awakes (upd i (set_thr_awake b) s) = alter (λ _, b) i (awakes s).
Proof. by apply part_set. Qed.
Lemma stops_set i b s : stops (upd i (set_thr_stop b) s) = alter (λ _, b) i (stops s).
Proof. by apply part_set. Qed.
Lemma crits_set i o s : crits (upd i (set_thr_crit o) s) = alter (λ _, o) i (crits s).
Proof. by apply part_set. Qed.

Create HintDb parts.
Hint Rewrite @part_calls @part_graph @part_emit stacks_go queues_set awakes_set stops_set crits_set : parts.

(** Pushes a part through the updates of a state. *)
Ltac parts_simp :=
  repeat first [progress autorewrite with parts | rewrite part_same by (intros; reflexivity)];
  cbn [calls log send_graph_ upd emit set_calls set_sgraph].

Lemma part_Some {A} (f : thr → A) i s x : threads s !! i = Some x → part f s !! i = Some (f x).
Proof. intros E. unfold part. by rewrite lookup_fmap, E. Qed.

Lemma object_Some t s y : object t s = Some y ↔ threads s !! t = Some y ∧ rtc_ y = true.
Proof. unfold object. destruct (threads s !! t) as [x|]; [destruct (rtc_ x) eqn:E|]; (split; [intros [=]|intros [[=] ?]]); subst; auto; congruence. Qed.

(** States that differ in the counters and the policies only. *)
Record same (s s0 : sys) : Prop := Same {
  sm_stacks : stacks s0 = stacks s; sm_queues : queues s0 = queues s; sm_awakes : awakes s0 = awakes s;
  sm_stops : stops s0 = stops s; sm_rtcs : rtcs s0 = rtcs s; sm_crits : crits s0 = crits s;
  sm_calls : calls s0 = calls s; sm_log : log s0 = log s
}.

Lemma same_refl s : same s s.
Proof. done. Qed.
Lemma same_counts i n m s : same s (upd i (set_thr_counts n m) s).
Proof. split; parts_simp; done. Qed.
Lemma same_policy i l e b s : same s (upd i (set_thr_policy l e b) s).
Proof. split; parts_simp; done. Qed.
#[export] Hint Resolve same_refl same_counts same_policy : parts.

(** ** The steps by their effect *)

(** [t] is an [rtc::Thread] that exists. *)
Notation is_object s t := (rtcs s !! t = Some true).
(** The lock of [t] is free for [i]. *)
Definition can_enter (i t : Z) (s : sys) : Prop := ∃ o, crits s !! t = Some o ∧ (o = None ∨ o = Some i).

(** The frame of a send that waits. *)
Definition wait_frame (rtc : bool) (c : Z) : frame := if rtc then FWait c false false else FDone c.

Section Acts.
Context (RTC_DCHECK_IS_ON : bool).

(** What a handler's call does to the state, [st] being the stack under it. *)
Inductive cmd_act (i : Z) (c : cmd) (st : list frame) (s : sys) : sys → Prop :=
  | ca_refused t h : c = CSend t h → RTC_DCHECK_IS_ON = false → stops s !! t = Some true → cmd_act i c st s (go i st s)
  | ca_local t h s0 : c = CSend t h → i = t → same s s0 → send_graph_ s0 = send_graph_ s →
      cmd_act i c st s (emit (ELocal t) (go i (FRun h :: st) s0))
  | ca_send t h s0 rtc cid : c = CSend t h → i ≠ t → is_object s t → stops s !! t = Some false → same s s0 → rtcs s !! i = Some rtc →
      calls s !! cid = None →
      (if RTC_DCHECK_IS_ON && rtc then ∃ fuel, RegisterSendAndCheckForCycles fuel i t (send_graph_ s) = Some (Val (send_graph_ s0))
       else send_graph_ s0 = send_graph_ s) →
      cmd_act i c st s (go i (FTest t (TSend cid h) :: wait_frame rtc cid :: st)
        (set_calls (<[cid := Call i (if rtc then Some i else None) t false]> (calls s)) s0))
  | ca_post t h : (c = CPost t h ∨ (i ≠ t ∧ h = [c] ∧ ((∃ v, c = CAllow t v) ∨ c = CDisallow t))) →
      cmd_act i c st s (go i (FTest t (TPost h) :: st) s)
  | ca_quit t : c = CQuit t → is_object s t → cmd_act i c st s (go i (FWake t :: st) (upd t (set_thr_stop true) s))
  | ca_policy s0 : same s s0 → send_graph_ s0 = send_graph_ s → (∀ t h, c ≠ CSend t h) → cmd_act i c st s (go i st s0).

Inductive act (spurious : bool) (i : Z) (s : sys) : sys → Prop :=
  | a_pop st : stacks s !! i = Some (FRun [] :: st) → act spurious i s (go i st s)
  | a_cmd c cs st s' : stacks s !! i = Some (FRun (c :: cs) :: st) → cmd_act i c (FRun cs :: st) s s' → act spurious i s s'
  | a_task c st : stacks s !! i = Some (FTask c :: st) → act spurious i s (emit (EEnd c i) (go i (FClean c :: st) s))
  | a_drop t c h st : stacks s !! i = Some (FTest t (TSend c h) :: st) → stops s !! t = Some true →
      act spurious i s (emit (EDrop c) (go i (FClean c :: st) s))
  | a_drop_post t h st : stacks s !! i = Some (FTest t (TPost h) :: st) → stops s !! t = Some true → act spurious i s (go i st s)
  | a_test t k st : stacks s !! i = Some (FTest t k :: st) → stops s !! t = Some false → act spurious i s (go i (FPush t k :: st) s)
  | a_push t k q st : stacks s !! i = Some (FPush t k :: st) → is_object s t → queues s !! t = Some q → can_enter i t s →
      act spurious i s (go i (FWake t :: st) (upd t (set_thr_queue (q ++ [k])) s))
  | a_wake t st : stacks s !! i = Some (FWake t :: st) → is_object s t → act spurious i s (go i st (wake t s))
  | a_done c cl st : stacks s !! i = Some (FClean c :: st) → calls s !! c = Some cl → current_thread cl = None →
      act spurious i s (go i st (set_calls (<[c := set_ready cl]> (calls s)) s))
  | a_clean c cl me st : stacks s !! i = Some (FClean c :: st) → calls s !! c = Some cl → current_thread cl = Some me →
      is_object s (target cl) → can_enter i (target cl) s →
      act spurious i s (go i (FSig c :: st) (upd (target cl) (set_thr_crit (Some i)) (set_calls (<[c := set_ready cl]> (calls s)) s)))
  | a_sig c cl me st : stacks s !! i = Some (FSig c :: st) → calls s !! c = Some cl → current_thread cl = Some me → is_object s me →
      act spurious i s (go i st (upd (target cl) (set_thr_crit None) (wake me s)))
  | a_return c w cl st : stacks s !! i = Some (FWait c w false :: st) → calls s !! c = Some cl → ready cl = true → can_enter i (target cl) s →
      act spurious i s (emit (EReturn c i) (go i st (if w then wake i s else s)))
  | a_sleep c w cl st : stacks s !! i = Some (FWait c w false :: st) → calls s !! c = Some cl → ready cl = false → can_enter i (target cl) s →
      act spurious i s (go i (FWait c w true :: st) s)
  | a_waited c w st : stacks s !! i = Some (FWait c w true :: st) → spurious = false → awakes s !! i = Some true →
      act spurious i s (go i (FWait c true false :: st) (upd i (set_thr_awake false) s))
  | a_waited_spurious c w st : stacks s !! i = Some (FWait c w true :: st) → spurious = true → act spurious i s (go i (FWait c true false :: st) s)
  | a_event c cl st : stacks s !! i = Some (FDone c :: st) → calls s !! c = Some cl → ready cl = true →
      act spurious i s (emit (EReturn c i) (go i st s))
  | a_start c h q st : stacks s !! i = Some (FGet false :: st) → queues s !! i = Some (TSend c h :: q) → can_enter i i s →
      act spurious i s (emit (EStart c i) (go i (FRun h :: FTask c :: FGet false :: st) (upd i (set_thr_queue q) s)))
  | a_start_post h q st : stacks s !! i = Some (FGet false :: st) → queues s !! i = Some (TPost h :: q) → can_enter i i s →
      act spurious i s (go i (FRun h :: FGet false :: st) (upd i (set_thr_queue q) s))
  | a_gone st : stacks s !! i = Some (FGet false :: st) → queues s !! i = Some [] → stops s !! i = Some true → act spurious i s (go i st s)
  | a_idle st : stacks s !! i = Some (FGet false :: st) → queues s !! i = Some [] → stops s !! i = Some false → can_enter i i s →
      act spurious i s (go i (FGet true :: st) s)
  | a_awake st : stacks s !! i = Some (FGet true :: st) → spurious = false → awakes s !! i = Some true →
      act spurious i s (go i (FGet false :: st) (upd i (set_thr_awake false) s))
  | a_awake_spurious st : stacks s !! i = Some (FGet true :: st) → spurious = true → act spurious i s (go i (FGet false :: st) s).
End Acts.

Section StepActs.
Context (RTC_DCHECK_IS_ON NDEBUG : bool).
Notation step := (step RTC_DCHECK_IS_ON NDEBUG).
Notation act := (act RTC_DCHECK_IS_ON).

Lemma may_enter_can i t s y : threads s !! t = Some y → may_enter i y = true → can_enter i t s.
Proof.
  intros Ht He. exists (crit_ y). split; [by apply part_Some|]. unfold may_enter in He. destruct (crit_ y) as [j|]; [right|by left].
  apply Z.eqb_eq in He. by subst.
Qed.

Lemma dcheck_Val (b : bool) u : MessageQueue.dcheck RTC_DCHECK_IS_ON b = Val u → RTC_DCHECK_IS_ON = false ∨ b = true.
Proof. destruct RTC_DCHECK_IS_ON, b; by auto. Qed.

Lemma register_send_act fuel i t x s s0 :
  threads s !! i = Some x → register_send RTC_DCHECK_IS_ON fuel i t x s = Some (Val s0) →
  same s s0 ∧ if RTC_DCHECK_IS_ON && rtc_ x then ∃ fuel, RegisterSendAndCheckForCycles fuel i t (send_graph_ s) = Some (Val (send_graph_ s0))
              else send_graph_ s0 = send_graph_ s.
Proof.
  intros Hx E. unfold register_send in E. destruct (RTC_DCHECK_IS_ON && rtc_ x); [|by simplify_eq].
  destruct (IsInvokeToThreadAllowed _ _ _); [|done]. cbn [send_graph_ upd] in E.
  destruct (RegisterSendAndCheckForCycles fuel i t (send_graph_ s)) as [[g| | |]|] eqn:Er; cbn in E; simplify_eq.
  split; [|by exists fuel]. split; parts_simp; done.
Qed.

Lemma Send_act fuel i t h st x s s' :
  threads s !! i = Some x → Send RTC_DCHECK_IS_ON NDEBUG fuel i t h st x s = Some (Val s') → cmd_act RTC_DCHECK_IS_ON i (CSend t h) st s s'.
Proof.
  intros Hx E. unfold Send in E. destruct (object t s) as [y|] eqn:Ho; [|done]. apply object_Some in Ho as [Ht Hr].
  pose proof (part_Some stop_ _ _ _ Ht) as Hst. pose proof (part_Some rtc_ _ _ _ Ht) as Hrt. rewrite Hr in Hrt.
  destruct (stop_ y) eqn:Es.
  { injection E as E. inv_bind E. apply dcheck_Val in Ha as [?|?]; [|done]. simplify_eq. by eapply ca_refused. }
  destruct (Z.eqb_spec i t) as [->|Hne].
  { injection E as E. inv_bind E. simplify_eq. eapply ca_local; [done|done| |]; destruct RTC_DCHECK_IS_ON; auto with parts. }
  destruct (AssertBlockingIsAllowed _ _ _); try done.
  destruct (register_send _ _ _ _ _ _) as [r|] eqn:Er; [|done]. cbn in E. injection E as E. inv_bind E. simplify_eq.
  apply register_send_act in Er as [Hs Hg]; [|done]. rewrite (sm_calls _ _ Hs).
  change (if rtc_ x then FWait (fresh (dom (calls s))) false false else FDone (fresh (dom (calls s)))) with (wait_frame (rtc_ x) (fresh (dom (calls s)))).
  eapply ca_send; try done; [by apply part_Some|]. apply not_elem_of_dom, is_fresh.
Qed.

Lemma run_cmd_act fuel i c st x s s' :
  threads s !! i = Some x → run_cmd RTC_DCHECK_IS_ON NDEBUG fuel i c st x s = Some (Val s') → cmd_act RTC_DCHECK_IS_ON i c st s s'.
Proof.
  intros Hx E. destruct c as [t h|t h|t|u v|u|u b]; cbn [run_cmd] in E; [by eapply Send_act|..]; injection E as E.
  - simplify_eq. eapply ca_post. by left.
  - unfold Quit in E. inv_bind E. simplify_eq. destruct (object t s) as [y|] eqn:Ho; [|done]. apply object_Some in Ho as [Ht Hr].
    apply ca_quit; [done|]. by rewrite (part_Some _ _ _ _ Ht), Hr.
  - unfold AllowInvokesToThread in E. destruct RTC_DCHECK_IS_ON; [destruct (Z.eqb_spec i u) as [->|]|].
    + inv_bind E. simplify_eq. eapply ca_policy; auto with parts.
    + unfold PostTask in E. simplify_eq. eapply ca_post. eauto 8.
    + simplify_eq. eapply ca_policy; auto with parts.
  - unfold DisallowAllInvokes in E. destruct RTC_DCHECK_IS_ON; [destruct (Z.eqb_spec i u) as [->|]|].
    + inv_bind E. simplify_eq. eapply ca_policy; auto with parts.
    + unfold PostTask in E. simplify_eq. eapply ca_post. eauto 8.
    + simplify_eq. eapply ca_policy; auto with parts.
  - unfold SetAllowBlockingCalls in E. inv_bind E. inv_bind E. simplify_eq. eapply ca_policy; auto with parts.
Qed.

(** Every step is one of the listed ones. *)
Lemma step_act fuel spurious i s s' : step fuel spurious i s = Some (Val s') → act spurious i s s'.
Proof.
  unfold Sending.step. destruct (threads s !! i) as [x|] eqn:Hx; [|done]. cbn [mbind option_bind].
  pose proof (part_Some stack _ _ _ Hx) as Hst. pose proof (part_Some queue _ _ _ Hx) as Hq.
  pose proof (part_Some awake _ _ _ Hx) as Ha. pose proof (part_Some stop_ _ _ _ Hx) as Hs.
  destruct (stack x) as [|f st] eqn:Ef; [done|].
  destruct f as [[|c cs]|c|t k|t k|t|c|c|c w sl|c|sl]; intros E.
  - simplify_eq. by eapply a_pop.
  - eapply a_cmd; [done|]. by eapply run_cmd_act.
  - simplify_eq. by eapply a_task.
  - injection E as E. unfold post_test in E. inv_bind E. destruct (object t s) as [y|] eqn:Ho; [|done]. apply object_Some in Ho as [Ht Hr].
    injection Ha0 as <-. pose proof (part_Some stop_ _ _ _ Ht) as Hsy. destruct (stop_ y) eqn:Ey; simplify_eq.
    + destruct k; [by eapply a_drop|by eapply a_drop_post].
    + by eapply a_test.
  - unfold post_push in E. destruct (object t s) as [y|] eqn:Ho; [|done]. apply object_Some in Ho as [Ht Hr].
    destruct (may_enter i y) eqn:Em; simplify_eq. eapply a_push; [done|by rewrite (part_Some _ _ _ _ Ht), Hr|by apply part_Some|by eapply may_enter_can].
  - injection E as E. inv_bind E. destruct (object t s) as [y|] eqn:Ho; [|done]. apply object_Some in Ho as [Ht Hr]. simplify_eq.
    eapply a_wake; [done|]. by rewrite (part_Some _ _ _ _ Ht), Hr.
  - unfold cleanup in E. destruct (calls s !! c) as [cl|] eqn:Ec; [|done]. destruct (current_thread cl) as [me|] eqn:Em; [|simplify_eq; by eapply a_done].
    destruct (object (target cl) s) as [y|] eqn:Ho; [|done]. apply object_Some in Ho as [Ht Hr].
    destruct (may_enter i y) eqn:He; simplify_eq. eapply a_clean; [done|done|done|by rewrite (part_Some _ _ _ _ Ht), Hr|by eapply may_enter_can].
  - injection E as E. unfold cleanup_signal in E. do 3 inv_bind E. simplify_eq. destruct (calls s !! c) as [cl|] eqn:Ec; [|done]. injection Ha0 as <-.
    destruct (current_thread cl) as [me|] eqn:Em; [|done]. injection Ha1 as <-. destruct (object me s) as [y|] eqn:Ho; [|done].
    apply object_Some in Ho as [Ht Hr]. eapply a_sig; [done|done|done|by rewrite (part_Some _ _ _ _ Ht), Hr].
  - destruct sl; [unfold ss_wait in E; destruct spurious; [simplify_eq; by eapply a_waited_spurious|]|].
    { destruct (awake x) eqn:Eaw; simplify_eq. by eapply a_waited. }
    unfold send_test in E. destruct (calls s !! c) as [cl|] eqn:Ec; [|done]. destruct (object (target cl) s) as [y|] eqn:Ho; [|done].
    apply object_Some in Ho as [Ht Hr]. destruct (may_enter i y) eqn:Em; simplify_eq.
    destruct (ready cl) eqn:Er; [eapply a_return|eapply a_sleep]; try done; by eapply may_enter_can.
  - unfold send_done in E. destruct (calls s !! c) as [cl|] eqn:Ec; [|done]. destruct (ready cl) eqn:Er; simplify_eq. by eapply a_event.
  - destruct sl; [unfold ss_wait in E; destruct spurious; [simplify_eq; by eapply a_awake_spurious|]|].
    { destruct (awake x) eqn:Eaw; simplify_eq. by eapply a_awake. }
    unfold get_next in E. destruct (may_enter i x) eqn:Em; simplify_eq. pose proof (may_enter_can _ _ _ _ Hx Em).
    destruct (queue x) as [|[c h|h] q] eqn:Eq; [destruct (stop_ x) eqn:Es|..]; by econstructor.
Qed.
End StepActs.
