(* ===== verification/SendingInv.v ===== *)
(** * The invariants of blocking sends

    Every interleaving of the threads of [Sending]: a send returns only after its
    handler ran once, on the target, or its task was dropped because the target
    was quitting; no wake-up is lost; and in a build with checks a system whose
    handlers are finite and quit no thread runs to an end in which every send has
    returned, or the check of the send graph stopped it. *)

From stdpp Require Import relations.
From S2P Require Import Prelude MessageQueue ThreadManager Sending.

Notation stacks := (part stack).
Notation queues := (part queue).
Notation awakes := (part awake).
Notation stops := (part stop_).
Notation rtcs := (part rtc_).
Notation crits := (part crit_).

(** ** Sums over the threads *)

Definition msum {A} (f : Z → A → nat) (m : gmap Z A) : nat := map_fold (λ i x n, (f i x + n)%nat) 0%nat m.

Lemma msum_insert {A} (f : Z → A → nat) m i x : m !! i = None → msum f (<[i:=x]> m) = (f i x + msum f m)%nat.
Proof. intros Hi. unfold msum. rewrite map_fold_insert_L; [done| |done]. intros. lia. Qed.

Lemma msum_split {A} (f : Z → A → nat) m i x : m !! i = Some x → msum f m = (f i x + msum f (delete i m))%nat.
Proof. intros Hi. rewrite <- (insert_delete_id m i x) at 1 by done. apply msum_insert, lookup_delete_eq. Qed.

(** A sum after one entry was replaced. *)
Lemma msum_alter {A} (f : Z → A → nat) m i x v :
  m !! i = Some x → (msum f (alter (λ _, v) i m) + f i x = msum f m + f i v)%nat.
Proof.
  intros Hi. rewrite (msum_split f (alter _ i m) i v) by (by rewrite lookup_alter_eq, Hi).
  rewrite (msum_split f m i x Hi). replace (delete i (alter (λ _, v) i m)) with (delete i m); [lia|].
  apply map_eq. intros j. destruct (decide (i = j)) as [->|]; [by rewrite !lookup_delete_eq|].
  by rewrite !lookup_delete_ne, lookup_alter_ne.
Qed.

Lemma msum_ge {A} (f : Z → A → nat) m i x : m !! i = Some x → (f i x ≤ msum f m)%nat.
Proof. intros Hi. rewrite (msum_split f m i x Hi). lia. Qed.

Lemma msum_pos {A} (f : Z → A → nat) m : (0 < msum f m)%nat → ∃ i x, m !! i = Some x ∧ (0 < f i x)%nat.
Proof.
  induction m as [|i x m Hi IH] using map_ind; [unfold msum; rewrite map_fold_empty; lia|]. rewrite msum_insert by done. intros Hp.
  destruct (decide (0 < f i x)%nat); [exists i, x; by rewrite lookup_insert_eq|].
  destruct IH as (j & y & Hj & Hy); [lia|]. exists j, y. split; [|done]. rewrite lookup_insert_ne; [done|]. intros ->. congruence.
Qed.

Lemma msum_zero {A} (f : Z → A → nat) m : (∀ i x, m !! i = Some x → f i x = 0%nat) → msum f m = 0%nat.
Proof.
  intros Hz. destruct (decide (0 < msum f m)%nat) as [(i & x & Hi & Hp)%msum_pos|]; [|lia]. rewrite (Hz i x Hi) in Hp. lia.
Qed.

(** How many entries of a list satisfy a test. *)
Definition nof {A} (p : A → bool) (l : list A) : nat := sum_list_with (λ x, Nat.b2n (p x)) l.

Lemma nof_cons {A} (p : A → bool) x l : nof p (x :: l) = (Nat.b2n (p x) + nof p l)%nat.
Proof. done. Qed.
Lemma nof_nil {A} (p : A → bool) : nof p [] = 0%nat.
Proof. done. Qed.
Lemma nof_app {A} (p : A → bool) l l' : nof p (l ++ l') = (nof p l + nof p l')%nat.
Proof. apply sum_list_with_app. Qed.

Lemma nof_pos {A} (p : A → bool) l : (0 < nof p l)%nat ↔ ∃ x, x ∈ l ∧ p x = true.
Proof.
  induction l as [|y l IH]; rewrite ?nof_nil, ?nof_cons; [split; [lia|intros (x & Hx & _); by apply not_elem_of_nil in Hx]|].
  destruct (p y) eqn:Ep; cbn [Nat.b2n].
  - split; [intros _; exists y; set_solver|lia].
  - rewrite Nat.add_0_l, IH. split; intros (x & Hx & Hp); exists x; [set_solver|]. split; [|done].
    apply elem_of_cons in Hx as [->|]; [congruence|done].
Qed.

(** ** Counting a call *)

Section Counts.
Context (c : Z).

Definition task_of (k : task) : bool := match k with TSend c' _ => c' =? c | TPost _ => false end.
Definition posting (f : frame) : bool := match f with FTest _ k | FPush _ k => task_of k | _ => false end.
Definition running (f : frame) : bool := match f with FTask c' => c' =? c | _ => false end.
Definition cleaning (f : frame) : bool := match f with FClean c' => c' =? c | _ => false end.
Definition awaiting (f : frame) : bool := match f with FWait c' _ _ | FDone c' => c' =? c | _ => false end.
Definition is_start (e : event) : bool := match e with EStart c' _ => c' =? c | _ => false end.
Definition is_end (e : event) : bool := match e with EEnd c' _ => c' =? c | _ => false end.
Definition is_drop (e : event) : bool := match e with EDrop c' => c' =? c | _ => false end.
Definition is_return (e : event) : bool := match e with EReturn c' _ => c' =? c | _ => false end.
End Counts.

Definition in_stacks (p : frame → bool) (s : sys) : nat := msum (λ _, nof p) (stacks s).
Definition in_queues (p : task → bool) (s : sys) : nat := msum (λ _, nof p) (queues s).

(** The task of a call is in one place until its handler starts or it is
    dropped; the handler runs until it ends; then the cleanup sets [ready]; and
    the sender waits until the send returns. *)
Definition counted (s : sys) : Prop := ∀ c,
  let pending := (in_stacks (posting c) s + in_queues (task_of c) s)%nat in
  let started := nof (is_start c) (log s) in
  let ended := nof (is_end c) (log s) in
  let dropped := nof (is_drop c) (log s) in
  let returned := nof (is_return c) (log s) in
  match calls s !! c with
  | None =>
      pending = 0%nat ∧ in_stacks (running c) s = 0%nat ∧ in_stacks (cleaning c) s = 0%nat ∧ in_stacks (awaiting c) s = 0%nat ∧
      started = 0%nat ∧ ended = 0%nat ∧ dropped = 0%nat ∧ returned = 0%nat
  | Some cl =>
      (pending + started + dropped = 1)%nat ∧ (started = in_stacks (running c) s + ended)%nat ∧
      (ended + dropped = in_stacks (cleaning c) s + Nat.b2n (ready cl))%nat ∧
      (in_stacks (awaiting c) s + returned = 1)%nat ∧ (returned ≤ Nat.b2n (ready cl))%nat
  end.

(** Replaces the sums of the state after a step by those before it. *)
Ltac sums :=
  unfold in_stacks, in_queues in *; parts_simp;
  repeat match goal with
  | |- context [msum ?f (alter (λ _, ?k) ?i ?m)] =>
      let E := fresh "E" in
      epose proof (msum_alter f m i _ k ltac:(eassumption)) as E;
      revert E; generalize (msum f (alter (λ _, k) i m)); intros ? E
  end;
  repeat match goal with
  | H : context [nof _ (_ :: _)] |- _ => rewrite !nof_cons in H
  | H : context [nof _ (_ ++ _)] |- _ => rewrite !nof_app in H
  end;
  rewrite ?nof_app, ?nof_cons, ?nof_nil in *;
  cbn [posting running cleaning awaiting task_of is_start is_end is_drop is_return Nat.b2n] in *.

Ltac use_same H := rewrite ?(sm_stacks _ _ H), ?(sm_queues _ _ H), ?(sm_awakes _ _ H), ?(sm_stops _ _ H), ?(sm_rtcs _ _ H),
  ?(sm_crits _ _ H), ?(sm_calls _ _ H), ?(sm_log _ _ H).

(** ** Where the parts of a call are *)

Definition holds_call (cs : gmap Z call) (c : Z) (P : call → Prop) : Prop := ∃ cl, cs !! c = Some cl ∧ P cl.

Definition task_ok (cs : gmap Z call) (t : Z) (k : task) : Prop :=
  match k with TSend c _ => holds_call cs c (λ cl, target cl = t) | TPost _ => True end.

Definition frame_ok (cs : gmap Z call) (i : Z) (f : frame) : Prop :=
  match f with
  | FTest t k | FPush t k => task_ok cs t k
  | FTask c => holds_call cs c (λ cl, target cl = i)
  | FClean c => holds_call cs c (λ _, True)
  | FSig c => holds_call cs c (λ cl, ready cl = true ∧ current_thread cl = Some (sender cl))
  | FWait c _ _ => holds_call cs c (λ cl, sender cl = i ∧ current_thread cl = Some i)
  | FDone c => holds_call cs c (λ cl, sender cl = i ∧ current_thread cl = None)
  | FRun _ | FWake _ | FGet _ => True
  end.

Definition event_ok (cs : gmap Z call) (e : event) : Prop :=
  match e with
  | EStart c t | EEnd c t => holds_call cs c (λ cl, target cl = t)
  | EReturn c t => holds_call cs c (λ cl, sender cl = t)
  | EDrop _ | ELocal _ => True
  end.

Record placed (s : sys) : Prop := {
  pl_stacks : ∀ i st, stacks s !! i = Some st → Forall (frame_ok (calls s) i) st;
  pl_queues : ∀ i q, queues s !! i = Some q → Forall (task_ok (calls s) i) q;
  pl_log : Forall (event_ok (calls s)) (log s);
  pl_calls : ∀ c cl, calls s !! c = Some cl → rtcs s !! target cl = Some true ∧
    ((current_thread cl = None ∧ rtcs s !! sender cl = Some false) ∨ (current_thread cl = Some (sender cl) ∧ rtcs s !! sender cl = Some true))
}.

(** A table of calls that has grown. *)
Definition call_le (a b : call) : Prop :=
  sender b = sender a ∧ current_thread b = current_thread a ∧ target b = target a ∧ (ready a = true → ready b = true).
Definition calls_le (m m' : gmap Z call) : Prop := ∀ c a, m !! c = Some a → ∃ b, m' !! c = Some b ∧ call_le a b.

Lemma calls_le_refl m : calls_le m m.
Proof. intros c a Ha. exists a. unfold call_le. auto. Qed.
Lemma calls_le_new m c cl : m !! c = None → calls_le m (<[c := cl]> m).
Proof.
  intros Hn x a Ha. exists a. rewrite lookup_insert_ne by (intros ->; congruence). unfold call_le. auto.
Qed.
Lemma calls_le_ready m c cl : m !! c = Some cl → calls_le m (<[c := set_ready cl]> m).
Proof.
  intros Hc x a Ha. destruct (decide (c = x)) as [->|Hne].
  - simplify_eq. exists (set_ready cl). rewrite lookup_insert_eq. unfold call_le. auto.
  - exists a. rewrite lookup_insert_ne by done. unfold call_le. auto.
Qed.
#[local] Hint Resolve calls_le_refl calls_le_new calls_le_ready : parts.

Lemma task_ok_le m m' t k : calls_le m m' → task_ok m t k → task_ok m' t k.
Proof. intros Hle. destruct k; cbn; [|done]. intros (cl & Hc & <-). destruct (Hle _ _ Hc) as (b & Hb & ? & ? & ? & ?). by exists b. Qed.

Lemma frame_ok_le m m' i f : calls_le m m' → frame_ok m i f → frame_ok m' i f.
Proof.
  intros Hle. destruct f; cbn; try done; try (by apply task_ok_le).
  all: intros (cl & Hc & HP); destruct (Hle _ _ Hc) as (b & Hb & H1 & H2 & H3 & H4); exists b; split; [done|].
  all: rewrite ?H1, ?H2, ?H3; naive_solver.
Qed.

Lemma event_ok_le m m' e : calls_le m m' → event_ok m e → event_ok m' e.
Proof.
  intros Hle. destruct e; cbn; try done; intros (cl & Hc & HP); destruct (Hle _ _ Hc) as (b & Hb & H1 & H2 & H3 & H4); exists b;
    (split; [done|]); congruence.
Qed.

(** A property of every thread's part after one part was replaced. *)
Lemma all_alter {A} (P : Z → A → Prop) (m : gmap Z A) i v :
  (∀ j y, m !! j = Some y → P j y) → (is_Some (m !! i) → P i v) → ∀ j y, alter (λ _, v) i m !! j = Some y → P j y.
Proof.
  intros Hm Hv j y. destruct (decide (i = j)) as [->|Hne].
  - rewrite lookup_alter_eq. destruct (m !! j) eqn:E; [|done]. intros [= <-]. by apply Hv.
  - rewrite lookup_alter_ne by done. apply Hm.
Qed.

Lemma all_impl {A} (P Q : Z → A → Prop) (m : gmap Z A) :
  (∀ j y, P j y → Q j y) → (∀ j y, m !! j = Some y → P j y) → ∀ j y, m !! j = Some y → Q j y.
Proof. auto. Qed.

(** The cases of which call the step was about. *)
Ltac count_cases x :=
  try match goal with |- context [<[?c := set_ready ?cl]> _ !! x] =>
    destruct (decide (c = x)) as [->|];
    [rewrite lookup_insert_eq; match goal with H : _ !! x = Some cl |- _ => rewrite H in * end|rewrite lookup_insert_ne by done]
  end;
  repeat match goal with H : context [?c =? x] |- _ => destruct (Z.eqb_spec c x); subst; cbn [Nat.b2n] in * end;
  repeat match goal with |- context [?c =? x] => destruct (Z.eqb_spec c x); subst; cbn [Nat.b2n] in * end;
  cbn [ready set_ready Nat.b2n];
  try match goal with H : _ !! x = Some ?cl, H' : ready ?cl = _ |- _ => rewrite H in *; rewrite H' in *; cbn [Nat.b2n] in * end;
  first [congruence | lia | match goal with |- context [match ?o with Some _ => _ | None => _ end] => destruct o end; lia].

(** Splits a step into its cases, those of the handlers' calls included. *)
Ltac act_cases Ha :=
  destruct Ha;
  try match goal with H : Sending.cmd_act _ _ _ _ _ _ |- _ => destruct H end;
  repeat match goal with |- context [if ?w then upd _ _ _ else _] => is_var w; destruct w end;
  parts_simp;
  try match goal with H : same _ _ |- _ => use_same H end.

Notation is_object s t := (rtcs s !! t = Some true).

Section Preservation.
Context (RTC_DCHECK_IS_ON : bool).
Notation act := (act RTC_DCHECK_IS_ON).
Notation cmd_act := (cmd_act RTC_DCHECK_IS_ON).

Lemma counted_cmd i c cs st s s' :
  stacks s !! i = Some (FRun (c :: cs) :: st) → cmd_act i c (FRun cs :: st) s s' → counted s → counted s'.
Proof.
  intros Hst Ha Hc x. specialize (Hc x). destruct Ha as [| ? ? s0 ? ? Hs|? ? s0 rtc cid ? ? ? ? Hs ? Hn| | |s0 Hs]; sums; use_same Hs; sums.
  all: try (destruct (calls s !! x); lia).
  destruct (decide (cid = x)) as [->|Hne].
  - rewrite lookup_insert_eq. rewrite Hn in Hc. destruct rtc; cbn in *; rewrite ?Z.eqb_refl in *; cbn in *; lia.
  - rewrite lookup_insert_ne by done. apply Z.eqb_neq in Hne. destruct rtc; cbn in *; rewrite ?Hne in *; cbn in *; destruct (calls s !! x); lia.
Qed.

Lemma counted_act spurious i s s' : act spurious i s s' → counted s → counted s'.
Proof.
  intros Ha Hc. destruct Ha; [|by eapply counted_cmd|..]; intros x; specialize (Hc x); try (destruct w); sums; count_cases x.
Qed.

(** What has to be shown of a step of thread [i] whose stack becomes [st']. *)
Lemma placed_step i st' s s' :
  placed s → stacks s' = alter (λ _, st') i (stacks s) → calls_le (calls s) (calls s') → rtcs s' = rtcs s →
  Forall (frame_ok (calls s') i) st' →
  (∀ j q k, queues s' !! j = Some q → k ∈ q → (∃ q0, queues s !! j = Some q0 ∧ k ∈ q0) ∨ task_ok (calls s') j k) →
  (∀ e, e ∈ log s' → e ∈ log s ∨ event_ok (calls s') e) →
  (∀ c cl, calls s' !! c = Some cl → (∃ a, calls s !! c = Some a ∧ call_le a cl) ∨
     (is_object s (target cl) ∧ ((current_thread cl = None ∧ rtcs s !! sender cl = Some false) ∨ (current_thread cl = Some (sender cl) ∧ is_object s (sender cl))))) →
  placed s'.
Proof.
  intros [P1 P2 P3 P4] Hst Hle Hr Hf Hq Hl Hc. split.
  - rewrite Hst. apply all_alter; [|done]. intros j y Hj. eapply Forall_impl; [by apply P1|]. intros. by eapply frame_ok_le.
  - intros j q Hj. apply Forall_forall. intros k Hk. destruct (Hq j q k Hj Hk) as [(q0 & Hq0 & Hk0)|?]; [|done].
    eapply task_ok_le; [done|]. specialize (P2 _ _ Hq0). rewrite Forall_forall in P2. auto.
  - apply Forall_forall. intros e He. destruct (Hl e He) as [He0|?]; [|done]. eapply event_ok_le; [done|]. rewrite Forall_forall in P3. auto.
  - rewrite Hr. intros c cl Hcl. destruct (Hc c cl Hcl) as [(a & Ha & -> & -> & -> & _)|?]; [|done]. by eapply P4.
Qed.

(** The table of calls is as it was. *)
Lemma calls_kept s : ∀ c cl, calls s !! c = Some cl → (∃ a, calls s !! c = Some a ∧ call_le a cl) ∨
  (is_object s (target cl) ∧ ((current_thread cl = None ∧ rtcs s !! sender cl = Some false) ∨ (current_thread cl = Some (sender cl) ∧ is_object s (sender cl)))).
Proof. intros c cl Hc. left. exists cl. unfold call_le. auto. Qed.

Lemma calls_ready s c0 cl0 : calls s !! c0 = Some cl0 → ∀ c cl, <[c0 := set_ready cl0]> (calls s) !! c = Some cl →
  (∃ a, calls s !! c = Some a ∧ call_le a cl) ∨
  (is_object s (target cl) ∧ ((current_thread cl = None ∧ rtcs s !! sender cl = Some false) ∨ (current_thread cl = Some (sender cl) ∧ is_object s (sender cl)))).
Proof.
  intros H0 c cl. destruct (decide (c0 = c)) as [->|]; [rewrite lookup_insert_eq|rewrite lookup_insert_ne by done; apply calls_kept].
  intros [= <-]. left. exists cl0. unfold call_le. auto.
Qed.

Lemma queues_kept s cs : ∀ j q k, queues s !! j = Some q → k ∈ q → (∃ q0, queues s !! j = Some q0 ∧ k ∈ q0) ∨ task_ok cs j k.
Proof. intros j q k Hj Hk. left. eauto. Qed.

Lemma queues_popped s i k0 q cs : queues s !! i = Some (k0 :: q) → ∀ j q' k, alter (λ _, q) i (queues s) !! j = Some q' → k ∈ q' →
  (∃ q0, queues s !! j = Some q0 ∧ k ∈ q0) ∨ task_ok cs j k.
Proof.
  intros Hi j q' k. destruct (decide (i = j)) as [->|]; [|rewrite lookup_alter_ne by done; apply queues_kept].
  rewrite lookup_alter_eq, Hi. intros [= <-] Hk. left. exists (k0 :: q). set_solver.
Qed.

Lemma queues_pushed s i k0 q cs : queues s !! i = Some q → task_ok cs i k0 → ∀ j q' k, alter (λ _, q ++ [k0]) i (queues s) !! j = Some q' → k ∈ q' →
  (∃ q0, queues s !! j = Some q0 ∧ k ∈ q0) ∨ task_ok cs j k.
Proof.
  intros Hi Hk0 j q' k. destruct (decide (i = j)) as [->|]; [|rewrite lookup_alter_ne by done; apply queues_kept].
  rewrite lookup_alter_eq, Hi. intros [= <-] [Hk| ->%list_elem_of_singleton]%elem_of_app; eauto.
Qed.

Lemma log_kept (s : sys) cs : ∀ e, e ∈ log s → e ∈ log s ∨ event_ok cs e.
Proof. auto. Qed.

Lemma log_new (s : sys) cs e0 : event_ok cs e0 → ∀ e, e ∈ log s ++ [e0] → e ∈ log s ∨ event_ok cs e.
Proof. intros He e [?| ->%list_elem_of_singleton]%elem_of_app; auto. Qed.

Ltac kept := first [apply queues_kept | apply calls_kept | apply log_kept | (by apply calls_ready) | (by eapply queues_popped) | (by apply queues_pushed) | (apply log_new; done)].

Lemma placed_top s i f st cs :
  placed s → stacks s !! i = Some (f :: st) → calls_le (calls s) cs → frame_ok cs i f ∧ Forall (frame_ok cs i) st.
Proof.
  intros Hp Hst Hle. pose proof (pl_stacks s Hp i _ Hst) as [Hf Hr]%Forall_cons. split; [by eapply frame_ok_le|].
  eapply Forall_impl; [exact Hr|]. intros. by eapply frame_ok_le.
Qed.

Lemma placed_cmd i c cs st s s' :
  stacks s !! i = Some (FRun (c :: cs) :: st) → cmd_act i c (FRun cs :: st) s s' → placed s → placed s'.
Proof.
  intros Hst Ha Hp. destruct (placed_top s i _ _ (calls s) Hp Hst ltac:(auto with parts)) as [_ Hr].
  destruct Ha as [| ? ? s0 ? ? Hs|t h s0 rtc cid ? ? ? ? Hs Hrt Hn| | |s0 Hs];
    (eapply (placed_step i _ s); [done|parts_simp; use_same Hs; reflexivity|parts_simp; use_same Hs; auto with parts|parts_simp; use_same Hs; done|..]);
    parts_simp; use_same Hs; try kept; rewrite ?Forall_cons; try (split_and?; done).
  - assert (calls_le (calls s) (<[cid := Call i (if rtc then Some i else None) t false]> (calls s))) as Hle by auto with parts.
    destruct (placed_top s i _ _ _ Hp Hst Hle) as [_ Hr']. split_and!; try done.
    + cbn. eexists. split; [apply lookup_insert_eq|done].
    + destruct rtc; cbn; eexists; (split; [apply lookup_insert_eq|done]).
  - intros x cl. destruct (decide (cid = x)) as [->|]; [rewrite lookup_insert_eq|rewrite lookup_insert_ne by done; apply calls_kept].
    intros [= <-]. right. cbn. split; [done|]. destruct rtc; auto.
Qed.

Lemma placed_act spurious i s s' : act spurious i s s' → placed s → placed s'.
Proof.
  intros Ha Hp. destruct Ha; [|by eapply placed_cmd|..];
    (match goal with H : stacks s !! i = Some (_ :: _) |- _ => destruct (placed_top s i _ _ (calls s) Hp H ltac:(auto with parts)) as [Hf Hr] end);
    try (match goal with |- context [if ?w then _ else _] => destruct w end);
    (eapply (placed_step i _ s); [done|parts_simp; reflexivity|parts_simp; auto with parts|parts_simp; done|..]);
    parts_simp; try kept; rewrite ?Forall_cons; try (split_and?; done).
  - destruct Hf as (cl & Hc & _). split; [|done]. by exists cl.
  - destruct Hf as (cl & Hc & _). split; [|done]. by exists cl.
  - by eapply (placed_top s i _ _ _ Hp); [|apply calls_le_ready].
  - split; [|by eapply (placed_top s i _ _ _ Hp); [|apply calls_le_ready]]. eexists. split; [apply lookup_insert_eq|]. split; [done|].
    destruct (pl_calls s Hp c cl) as [_ [[? _]|[? _]]]; [done|congruence|done].
  - apply log_new. destruct Hf as (cl' & ? & ? & _). by exists cl'.
  - apply log_new. destruct Hf as (cl' & ? & ? & _). by exists cl'.
  - apply log_new. destruct Hf as (cl' & ? & ? & _). by exists cl'.
  - split_and!; try done. pose proof (pl_queues s Hp i _ ltac:(eassumption)) as [Ht _]%Forall_cons. done.
  - apply log_new. pose proof (pl_queues s Hp i _ ltac:(eassumption)) as [Ht _]%Forall_cons. done.
Qed.

(** ** The shape of the stacks *)

(** Frames that may be under another one. *)
Definition resting (f : frame) : bool :=
  match f with FRun _ | FTask _ | FWait _ _ false | FDone _ | FGet false => true | _ => false end.

(** The loop of the thread is at the bottom. *)
Fixpoint loop_base (st : list frame) : Prop :=
  match st with [] => True | FGet _ :: st => st = [] | _ :: st => loop_base st end.

Definition stack_ok (st : list frame) : Prop := Forall (λ f, resting f = true) (tail st) ∧ loop_base st.

Definition shaped (s : sys) : Prop := ∀ i st, stacks s !! i = Some st → stack_ok st.

Lemma stack_ok_pop f st : stack_ok (f :: st) → stack_ok st ∧ Forall (λ f, resting f = true) st ∧ loop_base st.
Proof.
  intros [H1 H2]. cbn [tail] in H1. assert (loop_base st) as Hb by (destruct f; cbn in H2; subst; done).
  split_and!; [split; [|done]|done|done]. destruct st; [done|]. by apply Forall_cons in H1 as [_ ?].
Qed.

Lemma shaped_act spurious i s s' : act spurious i s s' → shaped s → shaped s'.
Proof.
  intros Ha Hs. assert (∃ st', stacks s' = alter (λ _, st') i (stacks s) ∧ (is_Some (stacks s !! i) → stack_ok st')) as (st' & E & Hst').
  2:{ unfold shaped. rewrite E. by apply all_alter. }
  act_cases Ha; eexists; (split; [reflexivity|]); intros _;
    match goal with H : stacks s !! i = Some (_ :: _) |- _ => destruct (stack_ok_pop _ _ (Hs i _ H)) as (Ho & Hr & Hb); destruct (Hs i _ H) as [_ Hl] end;
    try exact Ho; try (match goal with |- context [wait_frame ?r _] => destruct r end);
    (split; cbn [tail loop_base wait_frame] in *; [rewrite ?Forall_cons; split_and?; done|done]).
Qed.

(** ** The locks *)

(** A lock that is held is held by a thread about to signal. *)
Definition locked_ok (s : sys) : Prop := ∀ t j, crits s !! t = Some (Some j) →
  ∃ c st, stacks s !! j = Some (FSig c :: st) ∧ holds_call (calls s) c (λ cl, target cl = t).

(** ** No wake-up is lost *)

Definition waking (t : Z) (f : frame) : bool := match f with FWake t' => t' =? t | _ => false end.
Definition signalling (c : Z) (f : frame) : bool := match f with FSig c' => c' =? c | _ => false end.

(** A thread is awake, or is about to be woken up by another one. *)
Definition woken (t : Z) (s : sys) : Prop := awakes s !! t = Some true ∨ (0 < in_stacks (waking t) s)%nat.
Definition signalled (c t : Z) (s : sys) : Prop := awakes s !! t = Some true ∨ (0 < in_stacks (signalling c) s)%nat.

(** A thread that sleeps with something to do is woken up. *)
Definition sleep_ok (s : sys) (j : Z) (st : list frame) : Prop :=
  match st with
  | FGet true :: _ => ((∃ k q, queues s !! j = Some (k :: q)) ∨ stops s !! j = Some true) → woken j s
  | FWait c _ true :: _ => holds_call (calls s) c (λ cl, ready cl = true) → signalled c j s
  | _ => True
  end.
Definition no_lost_wakeup (s : sys) : Prop := ∀ j st, stacks s !! j = Some st → sleep_ok s j st.

Lemma alter_true (m : gmap Z bool) t j : m !! j = Some true → alter (λ _, true) t m !! j = Some true.
Proof. intros E. destruct (decide (t = j)) as [->|]; [by rewrite lookup_alter_eq, E|by rewrite lookup_alter_ne]. Qed.
Lemma alter_other {A} (m : gmap Z A) f i j v : i ≠ j → m !! j = Some v → alter f i m !! j = Some v.
Proof. intros Hne E. by rewrite lookup_alter_ne. Qed.
Lemma alter_here {A} (m : gmap Z A) v j : is_Some (m !! j) → alter (λ _, v) j m !! j = Some v.
Proof. intros [x E]. by rewrite lookup_alter_eq, E. Qed.
#[local] Hint Resolve alter_true alter_other alter_here : parts.

(** The steps of one thread keep what they must of the others. *)
Lemma woken_act spurious i s s' j : act spurious i s s' → i ≠ j → is_Some (awakes s !! j) → woken j s → woken j s'.
Proof.
  intros Ha Hne Hj Hw. unfold woken, in_stacks in *. act_cases Ha; sums; (destruct Hw as [Hw|Hw]; [left; auto with parts|]);
    try (right; cbn in *; try (match goal with E : context [wait_frame ?r _] |- _ => destruct r end); cbn in *; lia).
  cbn in *. destruct (Z.eqb_spec t j) as [->|]; [left; auto with parts|right; cbn in *; lia].
Qed.

Lemma signalled_act spurious i s s' c j :
  act spurious i s s' → i ≠ j → is_Some (awakes s !! j) → holds_call (calls s) c (λ cl, current_thread cl = Some j) →
  signalled c j s → signalled c j s'.
Proof.
  intros Ha Hne Hj Hc Hw. unfold signalled, in_stacks in *. act_cases Ha; sums; (destruct Hw as [Hw|Hw]; [left; auto with parts|]);
    try (right; cbn in *; try (match goal with E : context [wait_frame ?r _] |- _ => destruct r end); cbn in *; lia).
  cbn in *. destruct (Z.eqb_spec c0 c) as [->|]; [|right; cbn in *; lia]. destruct Hc as (cl' & Hcl & Hme). simplify_eq. left. auto with parts.
Qed.

(** What gives a sleeping thread something to do also wakes it up. *)
Lemma work_act spurious i s s' j : act spurious i s s' → i ≠ j →
  ((∃ k q, queues s' !! j = Some (k :: q)) ∨ stops s' !! j = Some true) →
  ((∃ k q, queues s !! j = Some (k :: q)) ∨ stops s !! j = Some true) ∨ (0 < in_stacks (waking j) s')%nat.
Proof.
  intros Ha Hne. unfold in_stacks. act_cases Ha; rewrite ?lookup_alter_ne by done; auto; intros Hw; try (left; exact Hw).
  - destruct (decide (t = j)) as [->|]; [|rewrite lookup_alter_ne in Hw by done; auto].
    right. sums. cbn in *. rewrite Z.eqb_refl in *. cbn in *. lia.
  - destruct (decide (t = j)) as [->|]; [|rewrite lookup_alter_ne in Hw by done; auto].
    right. sums. cbn in *. rewrite Z.eqb_refl in *. cbn in *. lia.
Qed.

Lemma ready_act spurious i s s' c j : act spurious i s s' → i ≠ j →
  holds_call (calls s) c (λ cl, current_thread cl = Some j) → holds_call (calls s') c (λ cl, ready cl = true) →
  holds_call (calls s) c (λ cl, ready cl = true) ∨ (0 < in_stacks (signalling c) s')%nat.
Proof.
  intros Ha Hne Hc. unfold in_stacks. act_cases Ha; auto; intros (cl' & Hcl' & Hr).
  - left. destruct Hc as (a & Ha & _). rewrite lookup_insert_ne in Hcl' by congruence. by exists cl'.
  - destruct (decide (c0 = c)) as [->|]; [|rewrite lookup_insert_ne in Hcl' by done; left; by exists cl'].
    destruct Hc as (a & Ha & Hcu). congruence.
  - destruct (decide (c0 = c)) as [->|]; [|rewrite lookup_insert_ne in Hcl' by done; left; by exists cl'].
    right. sums. cbn in *. rewrite Z.eqb_refl in *. cbn in *. lia.
Qed.

Lemma stacks_other spurious i s s' j : act spurious i s s' → i ≠ j → stacks s' !! j = stacks s !! j.
Proof. intros Ha Hne. act_cases Ha; by rewrite lookup_alter_ne. Qed.

Lemma part_is_Some {A B} (f : thr → A) (g : thr → B) s j x : part f s !! j = Some x → is_Some (part g s !! j).
Proof. unfold part. rewrite !lookup_fmap. destruct (threads s !! j); [by eexists|done]. Qed.

(** A frame that may be under another one does not sleep. *)
Lemma resting_sleep s j st : Forall (λ f, resting f = true) st → sleep_ok s j st.
Proof. destruct st as [|f st]; [done|]. intros [Hf _]%Forall_cons. by destruct f as [| | | | | | |? ? []| |[]]. Qed.

Lemma no_lost_wakeup_act spurious i s s' :
  act spurious i s s' → placed s → shaped s → no_lost_wakeup s → no_lost_wakeup s'.
Proof.
  intros Ha Hp Hsh Hw j st Hj. destruct (decide (i = j)) as [->|Hne].
  - revert Hj. act_cases Ha; rewrite lookup_alter_eq;
      match goal with H : stacks s !! j = Some (_ :: _) |- _ => rewrite H; destruct (stack_ok_pop _ _ (Hsh j _ H)) as (_ & Hr & _) end;
      cbn [fmap option_fmap option_map]; intros [= <-]; try (by apply resting_sleep); try done.
    + cbn [sleep_ok]. parts_simp. intros (cl' & Hcl & Hrd). congruence.
    + cbn [sleep_ok]. parts_simp. intros [(k & q & Hq)|Hs]; congruence.
  - rewrite (stacks_other _ _ _ _ _ Ha Hne) in Hj. specialize (Hw j st Hj). pose proof (part_is_Some stack awake s j st Hj) as Hex.
    destruct st as [|[| | | | | | |c w []| |[]] st]; try done; cbn [sleep_ok] in *.
    + pose proof (pl_stacks s Hp j _ Hj) as [(cl & Hcl & Hsn & Hcu) _]%Forall_cons.
      assert (holds_call (calls s) c (λ cl, current_thread cl = Some j)) as Hc by by exists cl.
      intros Hr. apply (ready_act _ _ _ _ _ _ Ha Hne Hc) in Hr as [Hr|Hr]; [|by right]. eapply signalled_act; eauto.
    + intros Hr. apply (work_act _ _ _ _ _ Ha Hne) in Hr as [Hr|Hr]; [|by right]. eapply woken_act; eauto.
Qed.

Lemma calls_le_act spurious i s s' : act spurious i s s' → calls_le (calls s) (calls s').
Proof. intros Ha. act_cases Ha; auto with parts. Qed.

Lemma holds_call_le m m' c (P : call → Prop) :
  calls_le m m' → (∀ a b, call_le a b → P a → P b) → holds_call m c P → holds_call m' c P.
Proof. intros Hle HP (a & Ha & Hp). destruct (Hle c a Ha) as (b & Hb & Hab). exists b. eauto. Qed.

Lemma locked_act spurious i s s' : act spurious i s s' → locked_ok s → locked_ok s'.
Proof.
  intros Ha Hl t j Ht. pose proof (calls_le_act _ _ _ _ Ha) as Hle.
  assert (crits s !! t = Some (Some j) ∧ (i = j → False) ∨ (∃ c st, stacks s' !! j = Some (FSig c :: st) ∧ holds_call (calls s') c (λ cl, target cl = t)))
    as [[Ht0 Hne]|?]; [| |done].
  - revert Ht Hle. act_cases Ha; intros Ht Hle; try (left; split; [exact Ht|intros <-; destruct (Hl t i Ht) as (c' & st' & ? & _); congruence]).
    + destruct (decide (target cl = t)) as [Heq|Hne].
      * subst t. rewrite lookup_alter_eq in Ht. destruct (crits s !! target cl) eqn:Ec; [|done]. cbn in Ht. simplify_eq. right. parts_simp.
        eexists c, st. split; [apply alter_here; by eexists|]. eexists. split; [apply lookup_insert_eq|done].
      * rewrite lookup_alter_ne in Ht by done. left. split; [done|]. intros <-. destruct (Hl t i Ht) as (c' & st' & ? & _). congruence.
    + destruct (decide (target cl = t)) as [Heq|Hne]; [subst t; rewrite lookup_alter_eq in Ht; by destruct (crits s !! target cl)|].
      rewrite lookup_alter_ne in Ht by done. left. split; [done|]. intros <-. destruct (Hl t i Ht) as (c' & st' & ? & (cl' & ? & ?)). congruence.
  - destruct (Hl t j Ht0) as (c & st & Hst & Hc). exists c, st. rewrite (stacks_other _ _ _ _ _ Ha Hne). split; [done|].
    eapply holds_call_le; [done| |done]. by intros a b (_ & _ & -> & _) ->.
Qed.

(** ** Every step takes work away *)

Definition is_posted_policy (i u : Z) : nat := if i =? u then 1 else 15.

(** What is left to do in a call of a handler on thread [i]. *)
Fixpoint cmd_w (i : Z) (c : cmd) : nat :=
  match c with
  | CSend t h => (20 + sum_list_with (cmd_w t) h)%nat
  | CPost t h => (10 + sum_list_with (cmd_w t) h)%nat
  | CQuit _ => 5
  | CAllow u _ | CDisallow u => is_posted_policy i u
  | CBlocking _ _ => 1
  end.

Definition task_w (t : Z) (k : task) : nat :=
  match k with TSend _ h => (8 + sum_list_with (cmd_w t) h)%nat | TPost h => (2 + sum_list_with (cmd_w t) h)%nat end.

Definition frame_w (i : Z) (f : frame) : nat :=
  match f with
  | FRun cs => (1 + sum_list_with (cmd_w i) cs)%nat
  | FTask _ => 6
  | FTest t k => (5 + task_w t k)%nat
  | FPush t k => (4 + task_w t k)%nat
  | FWake _ => 3
  | FClean _ => 5
  | FSig _ => 4
  | FWait _ _ sleeping => if sleeping then 3 else 4
  | FDone _ => 1
  | FGet sleeping => if sleeping then 0 else 1
  end.

Definition weight (s : sys) : nat :=
  (msum (λ i, sum_list_with (frame_w i)) (stacks s) + msum (λ t, sum_list_with (task_w t)) (queues s) +
   msum (λ _ b, if b : bool then 2 else 0) (awakes s))%nat.

Lemma cmd_w_pos i c : (1 ≤ cmd_w i c)%nat.
Proof. destruct c; cbn; try lia; unfold is_posted_policy; case_match; lia. Qed.

Lemma weight_act i s s' : act false i s s' → (weight s' < weight s)%nat.
Proof.
  intros Ha. unfold weight. act_cases Ha; try done;
    try match goal with H : rtcs s !! ?t = Some true |- context [alter _ ?t (awakes s)] =>
      let b := fresh "b" in let Hb := fresh "Hb" in destruct (part_is_Some rtc_ awake s t true H) as [b Hb]; destruct b end;
    try match goal with H : stacks s !! ?t = Some _ |- context [alter _ ?t (awakes s)] =>
      let b := fresh "b" in let Hb := fresh "Hb" in destruct (part_is_Some stack awake s t _ H) as [b Hb]; destruct b; try congruence end;
    repeat match goal with
    | |- context [msum ?f (alter (λ _, ?k) ?i ?m)] =>
        let E := fresh "E" in epose proof (msum_alter f m i _ k ltac:(eassumption)) as E;
        revert E; generalize (msum f (alter (λ _, k) i m)); intros ? E
    end;
    repeat match goal with E : context [sum_list_with _ (_ ++ _)] |- _ => rewrite sum_list_with_app in E end;
    try match goal with E : context [wait_frame ?r _] |- _ => destruct r end;
    cbn [sum_list_with frame_w task_w cmd_w wait_frame] in *; subst; cbn [cmd_w] in *; try lia.
  - destruct H0 as [->|(Hne & -> & Hc)]; cbn [cmd_w sum_list_with] in *; [lia|]. apply Z.eqb_neq in Hne.
    destruct Hc as [[v ->]| ->]; cbn [cmd_w] in *; unfold is_posted_policy in *; rewrite Hne, Z.eqb_refl in *; lia.
  - pose proof (cmd_w_pos i c). lia.
Qed.

(** ** The graph of the sends *)

(** Every send that waits has its edge, and there is no cycle. *)
Definition graph_ok (s : sys) : Prop :=
  acyclic (send_graph_ s) ∧
  ∀ c cl me, calls s !! c = Some cl → current_thread cl = Some me → sends (send_graph_ s) me (target cl).

Lemma register_checked fuel x y g r : acyclic g → RegisterSendAndCheckForCycles fuel x y g = Some r → checked x y g r.
Proof.
  intros Hg E. destruct (register_spec x y g Hg) as (fuel0 & r0 & Hr & Hc). specialize (Hr (fuel0 + fuel)%nat ltac:(lia)).
  enough (RegisterSendAndCheckForCycles (fuel0 + fuel) x y g = Some r) by congruence.
  unfold RegisterSendAndCheckForCycles in *. destruct (walk fuel 0 [y] g) as [p|] eqn:Ew; [|done].
  by rewrite (walk_mono fuel (fuel0 + fuel) 0 [y] g p ltac:(lia) Ew).
Qed.

Lemma graph_same s s' : graph_ok s → send_graph_ s' = send_graph_ s → calls s' = calls s → graph_ok s'.
Proof. intros [H1 H2] Hg Hc. unfold graph_ok. by rewrite Hg, Hc. Qed.

Lemma graph_ready s s' c cl : graph_ok s → calls s !! c = Some cl → send_graph_ s' = send_graph_ s → calls s' = <[c := set_ready cl]> (calls s) → graph_ok s'.
Proof.
  intros [H1 H2] Hcl Hg Hc. split; rewrite Hg; [done|]. rewrite Hc. intros x cl' me. destruct (decide (c = x)) as [->|].
  - rewrite lookup_insert_eq. intros [= <-]. cbn. by apply (H2 x).
  - rewrite lookup_insert_ne by done. apply H2.
Qed.

Lemma graph_act spurious i s s' : RTC_DCHECK_IS_ON = true → act spurious i s s' → graph_ok s → graph_ok s'.
Proof.
  intros Hd Ha Hg. destruct Ha; try (by eapply graph_same); try (by eapply graph_ready);
    [|destruct w; by eapply graph_same].
  match goal with H : Sending.cmd_act _ _ _ _ _ _ |- _ => destruct H as [|? ? s0 ? ? Hs|t h s0 rtc cid ? Hne ? ? Hs ? Hn Hr| | |s0 Hs] end;
    try (eapply graph_same; [done|done|]; parts_simp; by use_same Hs).
  rewrite Hd in Hr. destruct Hg as [G1 G2]. destruct rtc; cbn [andb] in Hr.
  - destruct Hr as [fuel Hr]. apply register_checked in Hr as [[? _]|(g' & [= <-] & _ & Ha' & He)]; [done| |done].
    split; [done|]. cbn. intros x cl me. destruct (decide (cid = x)) as [->|].
    + rewrite lookup_insert_eq. intros [= <-]. cbn. intros [= <-]. apply He. auto.
    + rewrite lookup_insert_ne by done. intros. apply He. left. eauto.
  - split; cbn; rewrite Hr; [done|]. intros x cl me. destruct (decide (cid = x)) as [->|].
    + rewrite lookup_insert_eq. by intros [= <-].
    + rewrite lookup_insert_ne by done. apply G2.
Qed.

(** ** Systems that do not quit *)

Fixpoint quits (c : cmd) : bool :=
  match c with CSend _ h | CPost _ h => existsb quits h | CQuit _ => true | _ => false end.
Definition task_quits (k : task) : bool := match k with TSend _ h | TPost h => existsb quits h end.
Definition frame_quits (f : frame) : bool :=
  match f with FRun cs => existsb quits cs | FTest _ k | FPush _ k => task_quits k | _ => false end.

Record steady (s : sys) : Prop := {
  sd_stacks : ∀ i st, stacks s !! i = Some st → Forall (λ f, frame_quits f = false) st;
  sd_queues : ∀ i q, queues s !! i = Some q → Forall (λ k, task_quits k = false) q;
  sd_stops : ∀ i b, stops s !! i = Some b → b = false;
  sd_log : Forall (λ e, ∀ c, e ≠ EDrop c) (log s)
}.

(** Threads have their loop at the bottom, others have none. *)
Definition based (s : sys) : Prop := ∀ i st, stacks s !! i = Some st →
  (rtcs s !! i = Some true → ∃ b, list.last st = Some (FGet b)) ∧ (rtcs s !! i = Some false → Forall (λ f, ∀ b, f ≠ FGet b) st).

Lemma wait_frame_quiet rtc c : frame_quits (wait_frame rtc c) = false.
Proof. by destruct rtc. Qed.

(** The frames a step leaves quit no thread when those before it did not. *)
Lemma steady_stacks spurious i s s' : act spurious i s s' → steady s →
  ∀ j st, stacks s' !! j = Some st → Forall (λ f, frame_quits f = false) st.
Proof.
  intros Ha [S1 S2 S3 S4].
  assert (∃ f st, stacks s !! i = Some (f :: st)) as (f & st & Hst) by (destruct Ha; eauto).
  pose proof (S1 i _ Hst) as [Hf Hr]%Forall_cons.
  act_cases Ha; simplify_eq; apply all_alter; try done; intros _; rewrite ?Forall_cons;
    cbn [frame_quits existsb] in Hf; try (apply orb_false_iff in Hf as [Hq Hf]); cbn [quits] in *;
    try (match goal with H : queues s !! i = Some (_ :: _) |- _ => pose proof (S2 i _ H) as [Hk _]%Forall_cons end);
    split_and?; try done; try apply wait_frame_quiet.
  destruct H0 as [->|(_ & -> & _)]; cbn [frame_quits task_quits existsb]; [done|]. by rewrite Hq.
Qed.

Lemma steady_act spurious i s s' : act spurious i s s' → steady s → steady s'.
Proof.
  intros Ha Hsd. pose proof (steady_stacks _ _ _ _ Ha Hsd) as Hss. destruct Hsd as [S1 S2 S3 S4].
  assert (∃ f st, stacks s !! i = Some (f :: st)) as (f & st & Hst) by (destruct Ha; eauto).
  pose proof (S1 i _ Hst) as [Hf Hr]%Forall_cons. split; [done|..]; clear Hss.
  - act_cases Ha; simplify_eq; try done; apply all_alter; try done; intros _.
    + apply Forall_app. split; [by eapply S2|]. by constructor.
    + by pose proof (S2 i _ ltac:(eassumption)) as [_ ?]%Forall_cons.
    + by pose proof (S2 i _ ltac:(eassumption)) as [_ ?]%Forall_cons.
  - act_cases Ha; simplify_eq; try done.
  - act_cases Ha; simplify_eq; try done; try (apply Forall_app; split; [done|]; by constructor).
    by pose proof (S3 t _ ltac:(eassumption)).
Qed.

Lemma based_act spurious i s s' : act spurious i s s' → shaped s → steady s → based s → based s'.
Proof.
  intros Ha Hsh Hsd Hb. unfold based. assert (rtcs s' = rtcs s) as -> by (act_cases Ha; done).
  assert (∃ st', stacks s' = alter (λ _, st') i (stacks s) ∧ (∀ st, stacks s !! i = Some st →
    (∀ b, list.last st = Some (FGet b) → ∃ b, list.last st' = Some (FGet b)) ∧ (Forall (λ f, ∀ b, f ≠ FGet b) st → Forall (λ f, ∀ b, f ≠ FGet b) st')))
    as (st' & -> & Hst').
  { act_cases Ha; eexists; (split; [reflexivity|]); intros st0 Hst0; simplify_eq.
    all: split; [intros b; rewrite ?last_cons; destruct (list.last st) as [g|]; cbn; intros [= Hg]; subst; try (by eauto); by pose proof (sd_stops s Hsd _ _ ltac:(eassumption))|].
    all: rewrite ?Forall_cons; intros Hf; destruct_and?; split_and?; try done; try (by destruct rtc).
    all: match goal with H : ∀ b, FGet _ ≠ FGet b |- _ => by destruct (H _ eq_refl) end. }
  apply all_alter; [done|]. intros [st Hst]. destruct (Hst' st Hst) as [H1 H2]. destruct (Hb i st Hst) as [B1 B2]. split; [|auto].
  intros Hr. destruct (B1 Hr) as [b Hl]. eauto.
Qed.
End Preservation.

(** ** Progress *)

Record sound (s : sys) : Prop := {
  so_counted : counted s; so_placed : placed s; so_shaped : shaped s; so_locked : locked_ok s; so_wakeups : no_lost_wakeup s
}.

Lemma sound_act dchecks spurious i s s' : act dchecks spurious i s s' → sound s → sound s'.
Proof.
  intros Ha [H1 H2 H3 H4 H5].
  split; [by eapply counted_act|by eapply placed_act|by eapply shaped_act|by eapply locked_act|by eapply no_lost_wakeup_act].
Qed.

Section Progress.
Context (NDEBUG : bool).
Notation step := (step true NDEBUG).

(** No thread can go on. *)
Definition stuck (s : sys) : Prop := ∀ fuel i, step fuel false i s = None.

Lemma threads_stack s i st : stacks s !! i = Some st → ∃ x, threads s !! i = Some x ∧ stack x = st.
Proof. unfold part. rewrite lookup_fmap. destruct (threads s !! i) as [x|]; [|done]. intros [= <-]. eauto. Qed.

Lemma stuck_free s i t y : stuck s → locked_ok s → threads s !! t = Some y → may_enter i y = true.
Proof.
  intros Hs Hl Ht. unfold may_enter. destruct (crit_ y) as [j|] eqn:Ec; [|done]. exfalso.
  destruct (Hl t j) as (c & st & Hst & _); [by rewrite (part_Some _ _ _ _ Ht), Ec|].
  apply threads_stack in Hst as (x & Hx & Est). specialize (Hs 0%nat j). unfold Sending.step in Hs. rewrite Hx in Hs. cbn in Hs. by rewrite Est in Hs.
Qed.

Lemma Send_steps s i t h st x : graph_ok s → ∃ fuel, Send true NDEBUG fuel i t h st x s ≠ None.
Proof.
  intros [Hg _]. destruct (register_spec i t (send_graph_ s) Hg) as (fuel & r & Hr & _). exists fuel. specialize (Hr fuel ltac:(lia)).
  unfold Send. destruct (object t s); [|done]. destruct (stop_ t0); [done|]. destruct (i =? t); [done|].
  destruct (AssertBlockingIsAllowed _ _ _); try done. unfold register_send. destruct (true && rtc_ x); [|done].
  destruct (IsInvokeToThreadAllowed _ _ _); [|done]. cbn [send_graph_ upd]. by rewrite Hr.
Qed.

(** What a thread of a stuck system is in the middle of. *)
Lemma stuck_top s i f st :
  stuck s → locked_ok s → graph_ok s → stacks s !! i = Some (f :: st) →
  (∃ c w, f = FWait c w true ∧ awakes s !! i = Some false) ∨
  (∃ c cl, f = FDone c ∧ calls s !! c = Some cl ∧ ready cl = false) ∨ (f = FGet true ∧ awakes s !! i = Some false).
Proof.
  intros Hs Hl Hg Hst. apply threads_stack in Hst as (x & Hx & Est). pose proof (part_Some awake _ _ _ Hx) as Haw.
  pose proof (λ fuel, Hs fuel i) as Hi. unfold Sending.step in Hi. rewrite Hx in Hi. cbn [mbind option_bind] in Hi. rewrite Est in Hi.
  pose proof (Hi 0%nat) as H0.
  destruct f as [[|c cs]|c|t k|t k|t|c|c|c w sl|c|sl]; try done.
  - destruct c; cbn [run_cmd] in *; try done. destruct (Send_steps s i t h (FRun cs :: st) x Hg) as [fuel Hf]. by rewrite Hi in Hf.
  - unfold post_push in H0. destruct (object t s) as [y|] eqn:Ho; [|done]. apply object_Some in Ho as [Hy _]. by rewrite (stuck_free s i t y Hs Hl Hy) in H0.
  - unfold cleanup in H0. destruct (calls s !! c) as [cl|]; [|done]. destruct (current_thread cl); [|done].
    destruct (object (target cl) s) as [y|] eqn:Ho; [|done]. apply object_Some in Ho as [Hy _]. by rewrite (stuck_free s i _ y Hs Hl Hy) in H0.
  - destruct sl.
    + left. exists c, w. split; [done|]. unfold ss_wait in H0. by destruct (awake x).
    + unfold send_test in H0. destruct (calls s !! c) as [cl|]; [|done]. destruct (object (target cl) s) as [y|] eqn:Ho; [|done].
      apply object_Some in Ho as [Hy _]. by rewrite (stuck_free s i _ y Hs Hl Hy) in H0.
  - right. left. unfold send_done in H0. destruct (calls s !! c) as [cl|] eqn:Ec; [|done]. destruct (ready cl) eqn:Er; [done|]. eauto.
  - destruct sl.
    + right. right. split; [done|]. unfold ss_wait in H0. by destruct (awake x).
    + unfold get_next in H0. by rewrite (stuck_free s i i x Hs Hl Hx) in H0.
Qed.

Section Stuck.
Context (s : sys) (Hs : stuck s) (Hso : sound s) (Hg : graph_ok s) (Hb : based s).

Lemma stuck_none (p : frame → bool) :
  (∀ f, resting f = true → p f = false) → (∀ c w, p (FWait c w true) = false) → p (FGet true) = false → in_stacks p s = 0%nat.
Proof.
  intros Hr Hw Hgt. apply msum_zero. intros i st Hst. destruct (decide (0 < nof p st)%nat) as [Hp|]; [|lia]. exfalso.
  apply nof_pos in Hp as (f & Hf & Hpf). destruct st as [|f0 st]; [by apply not_elem_of_nil in Hf|].
  apply elem_of_cons in Hf as [->|Hf].
  - destruct (stuck_top s i f0 st Hs (so_locked s Hso) Hg Hst) as [(c & w & -> & _)|[(c & cl & -> & _)|[-> _]]].
    + by rewrite Hw in Hpf.
    + by rewrite Hr in Hpf.
    + congruence.
  - destruct (stack_ok_pop _ _ (so_shaped s Hso i _ Hst)) as (_ & Hrest & _). rewrite Forall_forall in Hrest. by rewrite (Hr f (Hrest f Hf)) in Hpf.
Qed.

Ltac no_frames := apply stuck_none; [intros [| | | | | | |? ? []| |[]]; done|done|done].

Definition waits_for (i c : Z) : Prop := ∃ w st, stacks s !! i = Some (FWait c w true :: st).

(** An [rtc::Thread] of a stuck system with something to do waits itself. *)
Lemma stuck_busy t st :
  stacks s !! t = Some st → is_object s t → ((∃ k q, queues s !! t = Some (k :: q)) ∨ ∃ c, FTask c ∈ st) → ∃ c, waits_for t c.
Proof.
  intros Hst Hr Hwork. destruct (Hb t st Hst) as [Hbase _]. destruct (Hbase Hr) as [b Hl]. destruct st as [|f st]; [done|].
  destruct (stuck_top s t f st Hs (so_locked s Hso) Hg Hst) as [(c & w & -> & _)|[(c & cl & -> & Hcl & _)|[-> Haw]]].
  - exists c, w, st. done.
  - exfalso. pose proof (pl_stacks s (so_placed s Hso) t _ Hst) as [(cl' & Hcl' & Hsn & Hcu) _]%Forall_cons. simplify_eq.
    destruct (pl_calls s (so_placed s Hso) c cl Hcl) as [_ [[_ ?]|[? _]]]; congruence.
  - exfalso. destruct (so_shaped s Hso t _ Hst) as [_ Hlb]. cbn in Hlb. subst st.
    destruct Hwork as [Hq|[c Hc]]; [|apply elem_of_cons in Hc as [?|Hc]; [done|by apply not_elem_of_nil in Hc]].
    pose proof (so_wakeups s Hso t _ Hst) as Hw. cbn [sleep_ok] in Hw. destruct (Hw (or_introl Hq)) as [?|Hn]; [congruence|].
    assert (in_stacks (waking t) s = 0%nat) by no_frames. lia.
Qed.

(** A call that is not ready waits for a thread that waits. *)
Lemma stuck_chain c cl : calls s !! c = Some cl → ready cl = false → ∃ c', waits_for (target cl) c'.
Proof.
  intros Hcl Hr. pose proof (so_counted s Hso c) as Hc. rewrite Hcl, Hr in Hc. destruct Hc as (H1 & H2 & H3 & _).
  assert (in_stacks (cleaning c) s = 0%nat) by no_frames. assert (in_stacks (posting c) s = 0%nat) by no_frames.
  destruct (pl_calls s (so_placed s Hso) c cl Hcl) as [Hobj _].
  destruct (decide (0 < in_queues (task_of c) s)%nat) as [Hq|Hq].
  - apply msum_pos in Hq as (t & q & Htq & (k & Hk & Hkc)%nof_pos). pose proof (pl_queues s (so_placed s Hso) t q Htq) as Ht.
    rewrite Forall_forall in Ht. specialize (Ht k Hk). destruct k as [c' h|]; [|done]. cbn in Hkc. apply Z.eqb_eq in Hkc as ->.
    destruct Ht as (cl' & ? & <-). simplify_eq. destruct (part_is_Some queue stack s _ _ Htq) as [st Hst].
    eapply stuck_busy; [done|done|]. left. destruct q as [|k q]; [by apply not_elem_of_nil in Hk|]. eauto.
  - assert (0 < in_stacks (running c) s)%nat as Hrun by (cbn [Nat.b2n] in *; lia). apply msum_pos in Hrun as (t & st & Hst & (f & Hf & Hfc)%nof_pos).
    destruct f; try done. cbn in Hfc. apply Z.eqb_eq in Hfc as ->. pose proof (pl_stacks s (so_placed s Hso) t st Hst) as Ht.
    rewrite Forall_forall in Ht. destruct (Ht _ Hf) as (cl' & ? & <-). simplify_eq. eapply stuck_busy; eauto.
Qed.

Lemma stuck_no_wait i c : ¬ waits_for i c.
Proof.
  revert c. assert (sn (sends (send_graph_ s)) i) as Hsn by (apply tc_finite_sn; [apply Hg|apply sends_finite]).
  induction Hsn as [i _ IH]. intros c (w & st & Hst).
  pose proof (pl_stacks s (so_placed s Hso) i _ Hst) as [(cl & Hcl & Hsn & Hcu) _]%Forall_cons.
  destruct (ready cl) eqn:Er.
  - pose proof (so_wakeups s Hso i _ Hst) as Hw. cbn [sleep_ok] in Hw. destruct Hw as [Haw|Hn]; [by exists cl| |].
    + destruct (stuck_top s i _ st Hs (so_locked s Hso) Hg Hst) as [(?&?&?&?)|[(?&?&?&_)|[? _]]]; congruence.
    + assert (in_stacks (signalling c) s = 0%nat) by no_frames. lia.
  - destruct (stuck_chain c cl Hcl Er) as [c' Hc']. destruct Hg as [_ He]. exact (IH _ (He c cl i Hcl Hcu) c' Hc').
Qed.

(** The threads of a stuck system are in their loops, and the others are done. *)
Lemma stuck_end i st : stacks s !! i = Some st → (is_object s i → st = [FGet true]) ∧ (rtcs s !! i = Some false → st = []).
Proof.
  intros Hst. destruct (Hb i st Hst) as [B1 B2]. destruct st as [|f st]; [split; [intros Hr; destruct (B1 Hr) as [b ?]; done|done]|].
  destruct (stuck_top s i f st Hs (so_locked s Hso) Hg Hst) as [(c & w & -> & _)|[(c & cl & -> & Hcl & Hr)|[-> Haw]]].
  - exfalso. apply (stuck_no_wait i c). by exists w, st.
  - exfalso. destruct (stuck_chain c cl Hcl Hr) as [c' Hc']. by apply (stuck_no_wait _ _ Hc').
  - destruct (so_shaped s Hso i _ Hst) as [_ Hlb]. cbn in Hlb. subst st. split; [done|]. intros Hf. pose proof (B2 Hf) as [Hn _]%Forall_cons.
    by destruct (Hn true eq_refl).
Qed.

Lemma stuck_returned c cl : calls s !! c = Some cl → nof (is_return c) (log s) = 1%nat ∧ ready cl = true.
Proof.
  intros Hcl. pose proof (so_counted s Hso c) as Hc. rewrite Hcl in Hc. destruct Hc as (_ & _ & _ & H4 & H5).
  destruct (decide (0 < in_stacks (awaiting c) s)%nat) as [Ha|Ha]; [|destruct (ready cl); cbn in H5; split; (lia || done)].
  exfalso. apply msum_pos in Ha as (i & st & Hst & (f & Hf & Hfc)%nof_pos).
  destruct (stuck_end i st Hst) as [E1 E2]. destruct (part_is_Some stack rtc_ s i st Hst) as [[] Hr].
  - rewrite (E1 Hr) in Hf. apply list_elem_of_singleton in Hf as ->. done.
  - rewrite (E2 Hr) in Hf. by apply not_elem_of_nil in Hf.
Qed.
End Stuck.
End Progress.

(** ** Runs *)

(** A schedule: which thread steps, whether its wait returns for a reason of its
    own, and the fuel of the walk of the graph. *)
Fixpoint run (dchecks ndebug : bool) (ls : list (nat * bool * Z)) (s : sys) : option (res sys) :=
  match ls with
  | [] => Some (Val s)
  | (fuel, spurious, i) :: ls =>
      r ← step dchecks ndebug fuel spurious i s;
      match r with Val s => run dchecks ndebug ls s | _ => Some r end
  end.

(** A property that steps keep holds after every schedule. *)
Lemma run_keeps (P : sys → Prop) dchecks ndebug ls : ∀ s s',
  (∀ spurious i s s', act dchecks spurious i s s' → P s → P s') → P s → run dchecks ndebug ls s = Some (Val s') → P s'.
Proof.
  induction ls as [|[[fuel sp] i] ls IH]; intros s s' HP Hs E; cbn [run] in E; [by simplify_eq|].
  destruct (step dchecks ndebug fuel sp i s) as [r|] eqn:Er; [|done]. cbn in E. destruct r as [s1| | |]; try done.
  eapply IH; [done| |done]. eapply HP; [by eapply step_act|done].
Qed.

Lemma run_weight dchecks ndebug ls : ∀ s s',
  Forall (λ l, l.1.2 = false) ls → run dchecks ndebug ls s = Some (Val s') → (length ls + weight s' ≤ weight s)%nat.
Proof.
  induction ls as [|[[fuel sp] i] ls IH]; intros s s' Hf E; cbn [run] in E; [simplify_eq; cbn; lia|].
  apply Forall_cons in Hf as [Hsp Hf]. cbn in Hsp. subst sp.
  destruct (step dchecks ndebug fuel false i s) as [r|] eqn:Er; [|done]. cbn in E. destruct r as [s1| | |]; try done.
  apply step_act, weight_act in Er. specialize (IH _ _ Hf E). cbn [length]. lia.
Qed.

(** Threads in their loops with tasks posted to them, and other threads with
    calls to make. *)
Definition thr_new (rtc : bool) (hs : list (list cmd)) (st : list frame) : thr :=
  Thr rtc false (TPost <$> hs) false st None 0 0 [] false true.
Definition boot (ts : list (Z * list (list cmd))) (os : list (Z * list cmd)) : sys :=
  Sys (list_to_map (((λ t, (t.1, thr_new true t.2 [FGet false])) <$> ts) ++ ((λ o, (o.1, thr_new false [] [FRun o.2])) <$> os))) ∅ ∅ [].

Definition thr_fresh (x : thr) : Prop :=
  ∃ hs cs, x = thr_new true hs [FGet false] ∨ x = thr_new false [] [FRun cs].

Lemma boot_fresh ts os i x : threads (boot ts os) !! i = Some x → thr_fresh x.
Proof.
  intros E. apply elem_of_list_to_map_2, elem_of_app in E as [E|E]; apply list_elem_of_fmap in E as ([? ?] & [= -> ->] & _).
  - eexists _, []. by left.
  - eexists [], _. by right.
Qed.

Lemma part_fresh {A} (f : thr → A) ts os i v : part f (boot ts os) !! i = Some v → ∃ x, thr_fresh x ∧ f x = v ∧ threads (boot ts os) !! i = Some x.
Proof.
  unfold part. rewrite lookup_fmap. destruct (threads (boot ts os) !! i) as [x|] eqn:E; [|done]. intros [= <-].
  exists x. split; [by eapply boot_fresh|done].
Qed.

Lemma nof_posts c hs : nof (task_of c) (TPost <$> hs) = 0%nat.
Proof. induction hs; [done|]. cbn [fmap list_fmap]. by rewrite nof_cons. Qed.

Lemma boot_no_frames (p : frame → bool) ts os : p (FGet false) = false → (∀ cs, p (FRun cs) = false) → in_stacks p (boot ts os) = 0%nat.
Proof.
  intros Hg Hr. apply msum_zero. intros i st (x & (hs & cs & [-> | ->]) & <- & _)%part_fresh; cbn [stack thr_new];
    rewrite nof_cons, ?Hg, ?Hr; done.
Qed.

Lemma boot_sound ts os : sound (boot ts os).
Proof.
  split.
  - intros c. cbn [calls boot]. rewrite lookup_empty. rewrite !boot_no_frames by done. split_and!; try done.
    rewrite Nat.add_0_l. apply msum_zero. intros i q (x & (hs & cs & [-> | ->]) & <- & _)%part_fresh; cbn [queue thr_new]; apply nof_posts.
  - split; try done.
    + intros i st (x & (hs & cs & [-> | ->]) & <- & _)%part_fresh; cbn [stack thr_new]; by repeat constructor.
    + intros i q (x & (hs & cs & [-> | ->]) & <- & _)%part_fresh; cbn [queue thr_new]; apply Forall_fmap, Forall_forall; done.
  - intros i st (x & (hs & cs & [-> | ->]) & <- & _)%part_fresh; cbn [stack thr_new]; by repeat constructor.
  - intros t j (x & (hs & cs & [-> | ->]) & E & _)%part_fresh; done.
  - intros i st (x & (hs & cs & [-> | ->]) & <- & _)%part_fresh; done.
Qed.

Lemma boot_graph ts os : graph_ok (boot ts os).
Proof.
  split; [|intros c cl me; cbn; by rewrite lookup_empty].
  assert (∀ x y, ¬ sends ∅ x y) as Hno by (intros x y; unfold sends, targets; rewrite lookup_empty; set_solver).
  intros x Hx. inversion Hx; subst; by eapply Hno.
Qed.

Lemma boot_based ts os : based (boot ts os).
Proof.
  intros i st (x & (hs & cs & [-> | ->]) & <- & Hx)%part_fresh; rewrite (part_Some _ _ _ _ Hx); cbn.
  - split; [eauto|done].
  - split; [done|]. intros _. by repeat constructor.
Qed.

Definition quiet (ts : list (Z * list (list cmd))) (os : list (Z * list cmd)) : bool :=
  forallb (λ t, forallb (λ h, negb (existsb quits h)) t.2) ts && forallb (λ o, negb (existsb quits o.2)) os.

Lemma boot_steady ts os : quiet ts os = true → steady (boot ts os).
Proof.
  unfold quiet. rewrite andb_true_iff, !forallb_forall. intros [Ht Ho].
  assert (∀ i x, threads (boot ts os) !! i = Some x → Forall (λ f, frame_quits f = false) (stack x) ∧ Forall (λ k, task_quits k = false) (queue x)) as Hx.
  { intros i x E. apply elem_of_list_to_map_2, elem_of_app in E as [E|E]; apply list_elem_of_fmap in E as ([k v] & [= -> ->] & Hin); cbn [stack queue thr_new fst snd].
    - split; [by repeat constructor|]. apply Forall_fmap, Forall_forall. intros h Hh. cbn. apply list_elem_of_In in Hin, Hh.
      specialize (Ht _ Hin). cbn in Ht. rewrite forallb_forall in Ht. specialize (Ht _ Hh). by destruct (existsb quits h).
    - split; [|by constructor]. constructor; [|done]. cbn. apply list_elem_of_In in Hin. specialize (Ho _ Hin). cbn in Ho. by destruct (existsb quits v). }
  split; [| | |by constructor].
  - intros i st (x & _ & <- & E)%part_fresh. by apply (Hx i).
  - intros i st (x & _ & <- & E)%part_fresh. by apply (Hx i).
  - by intros i b (x & (hs & cs & [-> | ->]) & <- & _)%part_fresh.
Qed.

(** ** The order of what is observed *)

(** A send returns after its handler ended or its task was dropped. *)
Definition ordered (s : sys) : Prop := ∀ l1 l2 c i, log s = l1 ++ EReturn c i :: l2 → (nof (is_end c) l1 + nof (is_drop c) l1 = 1)%nat.

(** Tasks are dropped only by a target that was quitting. *)
Definition drops_ok (s : sys) : Prop := ∀ c, EDrop c ∈ log s → holds_call (calls s) c (λ cl, stops s !! target cl = Some true).

Section Order.
Context (dchecks : bool).
Notation act := (act dchecks).

Lemma log_act spurious i s s' : act spurious i s s' → log s' = log s ∨ ∃ e, log s' = log s ++ [e] ∧
  match e with
  | EReturn c _ => holds_call (calls s) c (λ cl, ready cl = true)
  | EDrop c => ∃ t h st, stacks s !! i = Some (FTest t (TSend c h) :: st) ∧ stops s !! t = Some true
  | _ => True
  end.
Proof.
  intros Ha. act_cases Ha; auto; right; eexists; (split; [reflexivity|]); try done; try (by eexists).
  by exists t, h, st.
Qed.

Lemma ordered_act spurious i s s' : act spurious i s s' → counted s → ordered s → ordered s'.
Proof.
  intros Ha Hc Ho l1 l2 c j E. destruct (log_act _ _ _ _ Ha) as [El|(e & El & He)]; rewrite El in E; [by eapply Ho|].
  destruct l2 as [|e2 l2 _] using rev_ind.
  - apply app_inj_tail in E as [<- ->]. destruct He as (cl & Hcl & Hr). specialize (Hc c). rewrite Hcl, Hr in Hc. cbn [Nat.b2n] in Hc. lia.
  - rewrite app_comm_cons, app_assoc in E. apply app_inj_tail in E as [E _]. by eapply Ho.
Qed.

Lemma stops_act spurious i s s' t : act spurious i s s' → stops s !! t = Some true → stops s' !! t = Some true.
Proof. intros Ha Ht. act_cases Ha; try done. by apply alter_true. Qed.

Lemma drops_act spurious i s s' : act spurious i s s' → placed s → drops_ok s → drops_ok s'.
Proof.
  intros Ha Hp Hd c Hc. pose proof (calls_le_act dchecks _ _ _ _ Ha) as Hle.
  assert (holds_call (calls s) c (λ cl, stops s !! target cl = Some true)) as (cl & Hcl & Hst).
  { destruct (log_act _ _ _ _ Ha) as [El|(e & El & He)]; rewrite El in Hc; [auto|]. apply elem_of_app in Hc as [Hc|Hc]; [auto|].
    apply list_elem_of_singleton in Hc as <-. destruct He as (t & h & st & Hst & Hs).
    pose proof (pl_stacks s Hp i _ Hst) as [(cl & ? & <-) _]%Forall_cons. by exists cl. }
  destruct (Hle c cl Hcl) as (b & Hb & _ & _ & Ht & _). exists b. split; [done|]. rewrite Ht. by eapply stops_act.
Qed.
End Order.

(** ** Properties *)

(** What is known of a send that returned. *)
Record send_done_right (s : sys) (c i : Z) : Prop := {
  sr_once : nof (is_return c) (log s) = 1%nat;
  sr_how : holds_call (calls s) c (λ cl, sender cl = i ∧
    ((nof (is_start c) (log s) = 1%nat ∧ nof (is_end c) (log s) = 1%nat ∧ EStart c (target cl) ∈ log s ∧ EEnd c (target cl) ∈ log s) ∨
     (nof (is_start c) (log s) = 0%nat ∧ EDrop c ∈ log s ∧ stops s !! target cl = Some true)))
}.

(** An event of a call that is in the log is the one on the call's target. *)
Lemma logged_end s c cl : placed s → calls s !! c = Some cl → (0 < nof (is_end c) (log s))%nat → EEnd c (target cl) ∈ log s.
Proof.
  intros Hp Hcl (e & He & Hec)%nof_pos. pose proof (pl_log s Hp) as Hl. rewrite Forall_forall in Hl. specialize (Hl e He).
  destruct e as [|c' t| | |]; try done. cbn in Hec. apply Z.eqb_eq in Hec as ->. destruct Hl as (cl' & ? & <-). by simplify_eq.
Qed.
Lemma logged_start s c cl : placed s → calls s !! c = Some cl → (0 < nof (is_start c) (log s))%nat → EStart c (target cl) ∈ log s.
Proof.
  intros Hp Hcl (e & He & Hec)%nof_pos. pose proof (pl_log s Hp) as Hl. rewrite Forall_forall in Hl. specialize (Hl e He).
  destruct e as [c' t| | | |]; try done. cbn in Hec. apply Z.eqb_eq in Hec as ->. destruct Hl as (cl' & ? & <-). by simplify_eq.
Qed.
Lemma logged_drop s c : (0 < nof (is_drop c) (log s))%nat → EDrop c ∈ log s.
Proof. intros (e & He & Hec)%nof_pos. destruct e; try done. cbn in Hec. by apply Z.eqb_eq in Hec as ->. Qed.

Lemma run_sound dchecks ndebug ts os ls s :
  run dchecks ndebug ls (boot ts os) = Some (Val s) → sound s ∧ ordered s ∧ drops_ok s.
Proof.
  eapply (run_keeps (λ s, sound s ∧ ordered s ∧ drops_ok s)).
  - intros sp i s0 s' Ha (H1 & H2 & H3). split; [by eapply sound_act|]. split; [eapply ordered_act|eapply drops_act]; eauto; apply H1.
  - split; [apply boot_sound|]. split; [intros [|? ?] l2 c i E; done|]. intros c Hc. by apply not_elem_of_nil in Hc.
Qed.

(** C24: in every interleaving, in every build and whoever quits, a blocking send
    that returned has returned once; its handler has run exactly once, on the
    target and to its end, before the return, or its task was dropped without
    running because the target was quitting. *)
Theorem send_exactly_once dchecks ndebug ts os ls s l1 l2 c i :
  run dchecks ndebug ls (boot ts os) = Some (Val s) → log s = l1 ++ EReturn c i :: l2 →
  send_done_right s c i ∧ (nof (is_end c) l1 + nof (is_drop c) l1 = 1)%nat.
Proof.
  intros E El. apply run_sound in E as (Hso & Ho & Hd). split; [|by eapply Ho].
  assert (EReturn c i ∈ log s) as Hin by (rewrite El; set_solver).
  pose proof (pl_log s (so_placed s Hso)) as Hl. rewrite Forall_forall in Hl. destruct (Hl _ Hin) as (cl & Hcl & Hsn).
  assert (0 < nof (is_return c) (log s))%nat as Hr by (apply nof_pos; exists (EReturn c i); split; [done|apply Z.eqb_refl]).
  pose proof (so_counted s Hso c) as Hc. rewrite Hcl in Hc. destruct Hc as (H1 & H2 & H3 & H4 & H5).
  assert (ready cl = true) as Hrd by (destruct (ready cl); [done|cbn in H5; lia]). rewrite Hrd in *. cbn [Nat.b2n] in *.
  split; [lia|]. exists cl. split; [done|]. split; [done|].
  destruct (decide (0 < nof (is_drop c) (log s))%nat) as [Hdr|Hdr].
  - right. apply logged_drop in Hdr as Hdl. destruct (Hd c Hdl) as (cl' & ? & ?). simplify_eq. split_and!; [lia|done|done].
  - left. split_and!; [lia|lia|apply logged_start|apply logged_end]; try done; try apply Hso; lia.
Qed.

(** Thread 1 sends to thread 2, whose handler posts back to thread 1. *)
Definition demo_threads : list (Z * list (list cmd)) := [(1, [[CSend 2 [CPost 1 []]]]); (2, [])].
Definition demo_schedule : list (nat * bool * Z) :=
  (λ i, (9%nat, false, i)) <$>
    [1; 1; 1; 1; 1; 1; 2; 2; 2; 2; 2; 1; 1; 2; 2; 2; 2; 1; 1; 1; 1; 1; 1; 1; 1; 2; 2; 2].

Definition demo_state : sys := match run true false demo_schedule (boot demo_threads []) with Some (Val s) => s | _ => boot [] [] end.

Lemma send_exactly_once_witness :
  run true false demo_schedule (boot demo_threads []) = Some (Val demo_state) ∧
  ∃ l1 l2 c, log demo_state = l1 ++ EReturn c 1 :: l2 ∧ send_done_right demo_state c 1 ∧ (nof (is_end c) l1 + nof (is_drop c) l1 = 1)%nat.
Proof.
  assert (run true false demo_schedule (boot demo_threads []) = Some (Val demo_state)) as Hrun by (vm_compute; reflexivity).
  split; [exact Hrun|]. exists [EStart 0 2; EEnd 0 2], [], 0.
  assert (log demo_state = [EStart 0 2; EEnd 0 2] ++ EReturn 0 1 :: []) as Hlog by (vm_compute; reflexivity).
  split; [exact Hlog|]. exact (send_exactly_once true false demo_threads [] demo_schedule demo_state _ _ _ _ Hrun Hlog).
Defined.

(** C23: with the checks on, finite handlers and no thread quitting, every
    schedule has at most as many steps as there is work at the start, so no wait
    goes on for ever; and where no thread can take another step, every thread is
    back in its loop with an empty queue and every blocking send has returned
    with its handler run exactly once on its target: no deadlock and no lost
    wake-up. *)
Theorem send_total ndebug ts os ls s :
  quiet ts os = true → Forall (λ l, l.1.2 = false) ls → run true ndebug ls (boot ts os) = Some (Val s) →
  (length ls ≤ weight (boot ts os))%nat ∧
  (stuck ndebug s →
    (∀ i st, stacks s !! i = Some st → st = [FGet true] ∨ st = []) ∧
    (∀ i q, is_object s i → queues s !! i = Some q → q = []) ∧
    ∀ c cl, calls s !! c = Some cl → send_done_right s c (sender cl) ∧ nof (is_end c) (log s) = 1%nat ∧ EEnd c (target cl) ∈ log s).
Proof.
  intros Hq Hf E. split; [pose proof (run_weight _ _ _ _ _ Hf E); lia|]. intros Hst.
  pose proof E as (Hso & Ho & Hd)%run_sound.
  assert (graph_ok s ∧ steady s ∧ based s) as (Hg & Hsd & Hb).
  { enough (sound s ∧ graph_ok s ∧ steady s ∧ based s) by tauto.
    eapply (run_keeps (λ s, sound s ∧ graph_ok s ∧ steady s ∧ based s)); [| |exact E].
    - intros sp i s0 s' Ha (H1 & H2 & H3 & H4).
      split_and!; [by eapply sound_act|eapply (graph_act true); [reflexivity|exact Ha|exact H2]|by eapply steady_act|eapply based_act; eauto; apply H1].
    - split_and!; [apply boot_sound|apply boot_graph|by apply boot_steady|apply boot_based]. }
  split_and!.
  - intros i st Hi. destruct (stuck_end ndebug s Hst Hso Hg Hb i st Hi) as [H1 H2].
    destruct (part_is_Some stack rtc_ s i st Hi) as [[] Hr]; auto.
  - intros i q Hr Hi. destruct q as [|k q]; [done|]. exfalso. destruct (part_is_Some queue stack s i _ Hi) as [st Hi'].
    destruct (stuck_busy ndebug s Hst Hso Hg Hb i st Hi' Hr) as [c Hc]; [eauto|]. by apply (stuck_no_wait ndebug s Hst Hso Hg Hb i c).
  - intros c cl Hcl. destruct (stuck_returned ndebug s Hst Hso Hg Hb c cl Hcl) as [Hret Hrd].
    pose proof (so_counted s Hso c) as Hc. rewrite Hcl, Hrd in Hc. destruct Hc as (H1 & H2 & H3 & H4 & H5). cbn [Nat.b2n] in *.
    assert (nof (is_drop c) (log s) = 0%nat) as Hnd.
    { destruct (decide (0 < nof (is_drop c) (log s))%nat) as [Hdr%logged_drop|]; [|lia]. pose proof (sd_log s Hsd) as Hl. rewrite Forall_forall in Hl.
      by destruct (Hl _ Hdr c). }
    assert (EEnd c (target cl) ∈ log s) by (apply logged_end; [apply Hso|done|lia]).
    split_and!; [|lia|done]. split; [done|]. exists cl. split; [done|]. split; [done|]. left.
    split_and!; [lia|lia|apply logged_start; [apply Hso|done|lia]|done].
Qed.

Lemma demo_stuck : stuck false demo_state.
Proof.
  intros fuel i. unfold step. destruct (threads demo_state !! i) as [x|] eqn:E; [|done]. cbn [mbind option_bind].
  apply elem_of_map_to_list in E. assert (Forall (λ p, stack p.2 = [FGet true] ∧ awake p.2 = false) (map_to_list (threads demo_state))) as Hf
    by (vm_compute; repeat constructor).
  rewrite Forall_forall in Hf. destruct (Hf _ E) as [Hst Haw]. cbn in Hst, Haw. rewrite Hst. unfold ss_wait. by rewrite Haw.
Qed.

Lemma send_total_witness :
  quiet demo_threads [] = true ∧ run true false demo_schedule (boot demo_threads []) = Some (Val demo_state) ∧ stuck false demo_state ∧
  (length demo_schedule ≤ weight (boot demo_threads []))%nat ∧
  ∀ c cl, calls demo_state !! c = Some cl → send_done_right demo_state c (sender cl).
Proof.
  assert (quiet demo_threads [] = true) as Hq by (vm_compute; reflexivity).
  assert (Forall (λ l, l.1.2 = false) demo_schedule) as Hf by (repeat constructor).
  assert (run true false demo_schedule (boot demo_threads []) = Some (Val demo_state)) as Hrun by (vm_compute; reflexivity).
  split; [exact Hq|]. split; [exact Hrun|]. split; [exact demo_stuck|].
  destruct (send_total false demo_threads [] demo_schedule demo_state Hq Hf Hrun) as [Hlen Hend]. split; [exact Hlen|].
  intros c cl Hcl. destruct (Hend demo_stuck) as (_ & _ & Hall). exact (proj1 (Hall c cl Hcl)).
Defined.

(** Whether thread [i] can take a step. *)
Definition can_step (dchecks : bool) (i : Z) (s : sys) : bool := match step dchecks true 9 false i s with Some _ => true | None => false end.
Definition returned (s : sys) : nat := length (filter (λ e, match e with EReturn _ _ => true | _ => false end = true) (log s)).

(** A send back to a sender that waits: without the checks both threads wait for
    ever; with them the process is stopped before it comes to that. *)
Definition cycle_threads : list (Z * list (list cmd)) := [(1, [[CSend 2 [CSend 1 []]]]); (2, [])].
Definition cycle_schedule : list (nat * bool * Z) :=
  (λ i, (9%nat, false, i)) <$> [1; 1; 1; 1; 1; 1; 2; 2; 2; 2; 2; 1; 1; 2; 2; 2].

Example send_cycle :
  (λ r, match r with Some (Val s) => Some (existsb (λ i, can_step false i s) [1; 2], returned s) | _ => None end)
    (run false true cycle_schedule (boot cycle_threads [])) = Some (false, 0%nat) ∧
  run true true cycle_schedule (boot cycle_threads []) = Some Aborted.
Proof. vm_compute. split; reflexivity. Qed.

(** A thread outside sends to thread 2; after the test of [IsQuitting] and before
    the message is queued, thread 2 is told to quit and leaves its loop. The
    send waits for ever. *)
Definition race_schedule : list (nat * bool * Z) := (λ i, (9%nat, false, i)) <$> [9; 9; 8; 8; 2; 9; 9].

Example send_quit_race :
  (λ r, match r with Some (Val s) => Some (existsb (λ i, can_step true i s) [2; 8; 9], returned s, length <$> queues s !! 2) | _ => None end)
    (run true true (race_schedule ++ [(9%nat, false, 8)]) (boot [(2, [])] [(9, [CSend 2 []]); (8, [CQuit 2])])) = Some (false, 0%nat, Some 1%nat).
Proof. vm_compute. reflexivity. Qed.
