(* ===== verification/ThreadLife.v ===== *)
(** * The life of a thread object (rtc_base/thread.h, thread.cc: construction,
      [Start], [Stop], [Join], [PreRun], the wrapping of existing threads, the
      current thread; api/task_queue/task_queue_base.cc)

    [rtc::Thread] objects, the threads of the system, and the two thread-local
    pointers that say which object a system thread belongs to: that of the
    manager and that of the task queues, which an object sets and restores
    through its registration. The theorem is that in every sequence of calls and
    starts and ends of system threads the two pointers agree, no object is
    current on two threads, nothing that is current or registered has been
    deleted, and a stopped thread has ended.

    The POSIX code; [pthread_create] answers with an error or a new thread. The
    build may have the checks of [RTC_DCHECK] or not. *)

From S2P Require Import Prelude TimeUtils MessageQueue ThreadManager.

(** ** State *)

Record tobj := TObj {
  owned_ : bool;
  thread_ : Z;                              (* the pthread, 0 when there is none *)
  quitting : bool;
  fInitialized_ : bool;
  fDestroyed_ : bool;
  task_queue_registration_ : option (option Z)   (* the setter, with its [previous_] *)
}.

Definition set_thread (owned : bool) (th : Z) (x : tobj) : tobj :=
  TObj owned th (quitting x) (fInitialized_ x) (fDestroyed_ x) (task_queue_registration_ x).
Definition set_quitting (q : bool) (x : tobj) : tobj :=
  TObj (owned_ x) (thread_ x) q (fInitialized_ x) (fDestroyed_ x) (task_queue_registration_ x).
Definition set_flags (i d : bool) (x : tobj) : tobj :=
  TObj (owned_ x) (thread_ x) (quitting x) i d (task_queue_registration_ x).
Definition set_registration (r : option (option Z)) (x : tobj) : tobj :=
  TObj (owned_ x) (thread_ x) (quitting x) (fInitialized_ x) (fDestroyed_ x) r.

(** A system thread that [Start] made: before [PreRun], in [Run], and ended. *)
Inductive os_state := OSNew (t : Z) | OSRun (t : Z) | OSEnd.

Record world := World {
  objs : gmap Z tobj;                       (* the objects that exist *)
  key_ : gmap Z Z;                          (* the current object of a system thread *)
  current : gmap Z Z;                       (* its current task queue *)
  message_queues_ : list Z;
  main_thread_ref_ : Z;
  pthreads : gmap Z os_state
}.

Definition set_objs (m : gmap Z tobj) (w : world) : world := World m (key_ w) (current w) (message_queues_ w) (main_thread_ref_ w) (pthreads w).
Definition set_key (m : gmap Z Z) (w : world) : world := World (objs w) m (current w) (message_queues_ w) (main_thread_ref_ w) (pthreads w).
Definition set_current (m : gmap Z Z) (w : world) : world := World (objs w) (key_ w) m (message_queues_ w) (main_thread_ref_ w) (pthreads w).
Definition set_mqs (l : list Z) (w : world) : world := World (objs w) (key_ w) (current w) l (main_thread_ref_ w) (pthreads w).
Definition set_pthreads (m : gmap Z os_state) (w : world) : world := World (objs w) (key_ w) (current w) (message_queues_ w) (main_thread_ref_ w) m.

(** Access to an object; it is undefined when the object is gone. *)
Definition get (t : Z) (w : world) : res tobj := of_mem (objs w !! t).
Definition put (t : Z) (x : tobj) (w : world) : world := set_objs (<[t := x]> (objs w)) w.

(** A thread-local pointer, null when absent. *)
Definition set_tls (self : Z) (v : option Z) (m : gmap Z Z) : gmap Z Z :=
  match v with Some t => <[self := t]> m | None => delete self m end.

Section Life.
Context (RTC_DCHECK_IS_ON : bool).
Notation dcheck := (MessageQueue.dcheck RTC_DCHECK_IS_ON).

(** ** The current thread *)

(** [CurrentTaskQueueSetter]. *)
Definition Setter_new (self t : Z) (w : world) : option Z * world :=
  (current w !! self, set_current (set_tls self (Some t) (current w)) w).
Definition Setter_delete (self : Z) (previous_ : option Z) (w : world) : world :=
  set_current (set_tls self previous_ (current w)) w.

(** The new setter exists before the old one is deleted. *)
Definition EnsureIsCurrentTaskQueue (self t : Z) (w : world) : res world :=
  let* x := get t w in
  let '(previous_, w) := Setter_new self t w in
  let w := match task_queue_registration_ x with Some p => Setter_delete self p w | None => w end in
  Val (put t (set_registration (Some previous_) x) w).

Definition ClearCurrentTaskQueue (self t : Z) (w : world) : res world :=
  let* x := get t w in
  let w := match task_queue_registration_ x with Some p => Setter_delete self p w | None => w end in
  Val (put t (set_registration None x) w).

Definition CurrentThread (self : Z) (w : world) : option Z := key_ w !! self.
Definition SetCurrentThreadInternal (self : Z) (t : option Z) (w : world) : world := set_key (set_tls self t (key_ w)) w.
Definition ChangeCurrentThreadForTest := SetCurrentThreadInternal.

Definition SetCurrentThread (self : Z) (t : option Z) (w : world) : res world :=
  let* w :=
    (match t with
     | Some t => EnsureIsCurrentTaskQueue self t w
     | None => match CurrentThread self w with Some c => ClearCurrentTaskQueue self c w | None => Val w end
     end) in
  Val (SetCurrentThreadInternal self t w).

Definition IsCurrent (self t : Z) (w : world) : bool := bool_decide (CurrentThread self w = Some t).
Definition IsMainThread (self : Z) (w : world) : bool := self =? main_thread_ref_ w.

(** ** Construction *)

Definition Add (t : Z) (w : world) : world := set_mqs (message_queues_ w ++ [t]) w.
Definition Remove (t : Z) (w : world) : world := set_mqs (erase_first t (message_queues_ w)) w.

Definition DoInit (t : Z) (w : world) : res world :=
  let* x := get t w in
  if fInitialized_ x then Val w else Val (Add t (put t (set_flags true (fDestroyed_ x) x) w)).

(** The queue and the socket server are cleared as well. *)
Definition LifeDestroy (t : Z) (w : world) : res world :=
  let* x := get t w in
  if fDestroyed_ x then Val w else Val (Remove t (put t (set_flags (fInitialized_ x) true x) w)).

(** [t] is the address of the new object. *)
Definition Thread_new (t : Z) (do_init : bool) (w : world) : res world :=
  let w := put t (TObj true 0 false false false None) w in
  if do_init then DoInit t w else Val w.

(** ** Starting and wrapping *)

Definition IsRunning (x : tobj) : bool := negb (thread_ x =? 0).
Definition IsOwned (t : Z) (w : world) : res bool :=
  let* x := get t w in let* _ := dcheck (IsRunning x) in Val (owned_ x).

(** [created] is the answer of [pthread_create]. *)
Definition Start (t : Z) (created : Z + Z) (w : world) : res (bool * world) :=
  let* x := get t w in
  let* _ := dcheck (negb (IsRunning x)) in
  if IsRunning x then Val (false, w) else
  let x := set_quitting false x in
  match created with
  | inl error_code => Val (false, put t (set_thread true 0 x) w)
  | inr pid =>
      let* _ := dcheck (negb (pid =? 0)) in
      Val (true, set_pthreads (<[pid := OSNew t]> (pthreads w)) (put t (set_thread true pid x) w))
  end.

Definition WrapCurrentWithThreadManager (self t : Z) (w : world) : res (bool * world) :=
  let* x := get t w in
  let* _ := dcheck (negb (IsRunning x)) in
  let* w := SetCurrentThread self (Some t) (put t (set_thread false self x) w) in
  Val (true, w).
Definition WrapCurrent := WrapCurrentWithThreadManager.
Definition SafeWrapCurrent := WrapCurrentWithThreadManager.

Definition UnwrapCurrent (self t : Z) (w : world) : res world :=
  let* w := SetCurrentThread self None w in
  let* x := get t w in
  Val (put t (set_thread (owned_ x) 0 x) w).

(** [Thread::Current]: the main thread is wrapped when it has no object yet;
    [fresh_t] is the address a new object would have. *)
Definition Current (self fresh_t : Z) (w : world) : res (option Z * world) :=
  match CurrentThread self w with
  | Some t => Val (Some t, w)
  | None =>
      if IsMainThread self w then
        let* w := Thread_new fresh_t true w in
        let* '(_, w) := WrapCurrentWithThreadManager self fresh_t w in Val (Some fresh_t, w)
      else Val (None, w)
  end.

Definition WrapCurrentThread (self fresh_t : Z) (w : world) : res (Z * world) :=
  match CurrentThread self w with
  | Some t => Val (t, w)
  | None =>
      let* w := Thread_new fresh_t true w in
      let* '(_, w) := WrapCurrentWithThreadManager self fresh_t w in Val (fresh_t, w)
  end.

(** ** Stopping *)

Definition LifeQuit (t : Z) (w : world) : res world := let* x := get t w in Val (put t (set_quitting true x) w).

(** [pthread_join]: [None] while the thread has not ended. Joining oneself is
    refused; joining a thread [Start] did not make is undefined here. *)
Definition pthread_join (self pid : Z) (w : world) : option (res unit) :=
  if pid =? self then Some (Val ()) else
  match pthreads w !! pid with
  | Some OSEnd => Some (Val ())
  | Some _ => None
  | None => Some Undef
  end.

Definition Join (self t fresh_t : Z) (w : world) : option (res world) :=
  match get t w with
  | Val x =>
      if negb (IsRunning x) then Some (Val w) else
      match dcheck (negb (IsCurrent self t w)), Current self fresh_t w with
      | Val _, Val (_, w) =>
          r ← pthread_join self (thread_ x) w;
          Some (let* _ := r in let* x := get t w in Val (put t (set_thread (owned_ x) 0 x) w))
      | Val _, _ => Some Undef
      | _, _ => Some Aborted
      end
  | _ => Some Undef
  end.

Definition Stop (self t fresh_t : Z) (w : world) : option (res world) :=
  match LifeQuit t w with Val w => Join self t fresh_t w | _ => Some Undef end.

(** [~Thread]; the registration, if there is one, is deleted with the object, on
    the calling thread. *)
Definition Thread_delete (self t fresh_t : Z) (w : world) : option (res world) :=
  r ← Stop self t fresh_t w;
  Some (let* w := r in
        let* w := LifeDestroy t w in
        let* x := get t w in
        let w := match task_queue_registration_ x with Some p => Setter_delete self p w | None => w end in
        Val (set_objs (base.delete t (objs w)) w)).

(** [Delete] of a task queue. *)
Definition Delete (self t fresh_t : Z) (w : world) : option (res world) :=
  r ← Stop self t fresh_t w; match r with Val w => Thread_delete self t fresh_t w | e => Some e end.

(** [SleepMs]: what [nanosleep] is asked for and what the caller is told;
    [allowed] is [blocking_calls_allowed_] of the current thread, if any. *)
Definition SleepMs (NDEBUG : bool) (allowed : option bool) (milliseconds ret : Z) : res (timespec * bool) :=
  let* _ := (if NDEBUG then Val () else dcheck (default true allowed)) in
  Val (TimeSpec (milliseconds `quot` 1000) (milliseconds `rem` 1000 * 1000000), ret =? 0).

Definition UnwrapCurrentThread (self fresh_t : Z) (w : world) : option (res world) :=
  match CurrentThread self w with
  | None => Some (Val w)
  | Some t =>
      match IsOwned t w with
      | Val true => Some (Val w)
      | Val false => match UnwrapCurrent self t w with Val w => Thread_delete self t fresh_t w | _ => Some Undef end
      | Aborted => Some Aborted
      | _ => Some Undef
      end
  end.

(** ** The system thread: [PreRun] before [Run] and after it *)

Definition PreRun_begin (pid : Z) (w : world) : res world :=
  match pthreads w !! pid with
  | Some (OSNew t) => let* w := SetCurrentThread pid (Some t) w in Val (set_pthreads (<[pid := OSRun t]> (pthreads w)) w)
  | _ => Undef
  end.

(** [Run] returns once the thread is quitting. *)
Definition PreRun_end (pid : Z) (w : world) : option (res world) :=
  match pthreads w !! pid with
  | Some (OSRun t) =>
      match get t w with
      | Val x => if quitting x then Some (let* w := SetCurrentThread pid None w in Val (set_pthreads (<[pid := OSEnd]> (pthreads w)) w)) else None
      | _ => Some Undef
      end
  | _ => Some Undef
  end.

(** ** Threads that install themselves *)

Definition AutoThread_new (self t : Z) (w : world) : res world :=
  let* w := Thread_new t false w in
  match CurrentThread self w with
  | None => let* w := DoInit t w in SetCurrentThread self (Some t) w
  | Some _ => Val w
  end.

Definition AutoThread_delete (self t fresh_t : Z) (w : world) : option (res world) :=
  r ← Stop self t fresh_t w;
  match r with
  | Val w =>
      match (let* w := LifeDestroy t w in
             if IsCurrent self t w then SetCurrentThread self None w else Val w) with
      | Val w => Thread_delete self t fresh_t w
      | e => Some e
      end
  | e => Some e
  end.

(** [AutoSocketServerThread]: the thread it replaced is handed back. *)
Definition AutoSocketServerThread_new (self t : Z) (w : world) : res (option Z * world) :=
  let* w := Thread_new t false w in
  let* w := DoInit t w in
  let old_thread_ := CurrentThread self w in
  let* w := SetCurrentThread self None w in
  let* w := SetCurrentThread self (Some t) w in
  Val (old_thread_, match old_thread_ with Some o => Remove o w | None => w end).

Definition AutoSocketServerThread_delete (self t fresh_t : Z) (old_thread_ : option Z) (w : world) : option (res world) :=
  match dcheck (IsCurrent self t w) with
  | Val _ =>
      r ← Stop self t fresh_t w;
      match r with
      | Val w =>
          match (let* w := LifeDestroy t w in
                 let* w := SetCurrentThread self None w in
                 let* w := SetCurrentThread self old_thread_ w in
                 Val (match old_thread_ with Some o => Add o w | None => w end)) with
          | Val w => Thread_delete self t fresh_t w
          | e => Some e
          end
      | e => Some e
      end
  | _ => Some Aborted
  end.

(** [CurrentThreadSetter] of the tests. *)
Definition CurrentThreadSetter_new (self t : Z) (w : world) : option Z * option Z * world :=
  let '(previous_tq, w) := Setter_new self t w in
  (previous_tq, CurrentThread self w, ChangeCurrentThreadForTest self (Some t) w).
Definition CurrentThreadSetter_delete (self : Z) (previous_tq previous_ : option Z) (w : world) : world :=
  Setter_delete self previous_tq (ChangeCurrentThreadForTest self previous_ w).

Definition IsProcessingMessagesForTesting (self t : Z) (w : world) : res bool :=
  let* x := get t w in Val ((owned_ x || IsCurrent self t w) && negb (quitting x)).
End Life.

(** ** The invariant *)

Record life_ok (w : world) : Prop := {
  (* the two pointers agree *)
  lo_same : current w = key_ w;
  (* a current object exists, knows its thread and has the registration *)
  lo_key : ∀ o t, key_ w !! o = Some t → o ≠ 0 ∧ ∃ x, objs w !! t = Some x ∧ thread_ x = o ∧ task_queue_registration_ x = Some None;
  lo_reg : ∀ t x, objs w !! t = Some x → task_queue_registration_ x = None ∨ key_ w !! thread_ x = Some t;
  (* the manager lists the objects that exist, once *)
  lo_nodup : NoDup (message_queues_ w);
  lo_listed : ∀ t, t ∈ message_queues_ w ↔ is_Some (objs w !! t);
  lo_flags : ∀ t x, objs w !! t = Some x → fInitialized_ x = true ∧ fDestroyed_ x = false;
  (* what the system threads are doing *)
  lo_new : ∀ o t, pthreads w !! o = Some (OSNew t) → key_ w !! o = None ∧ o ≠ 0 ∧ ∃ x, objs w !! t = Some x ∧ thread_ x = o ∧ owned_ x = true;
  lo_run : ∀ o t, pthreads w !! o = Some (OSRun t) → key_ w !! o = Some t;
  lo_end : ∀ o, pthreads w !! o = Some OSEnd → key_ w !! o = None ∧ o ≠ 0;
  (* where the thread of an object is *)
  lo_owned : ∀ t x, objs w !! t = Some x → thread_ x ≠ 0 → owned_ x = true →
    pthreads w !! thread_ x = Some (OSNew t) ∨ pthreads w !! thread_ x = Some (OSRun t) ∨ pthreads w !! thread_ x = Some OSEnd;
  lo_wrapped : ∀ t x, objs w !! t = Some x → thread_ x ≠ 0 → owned_ x = false → key_ w !! thread_ x = Some t ∧ pthreads w !! thread_ x = None
}.

(** A system thread that runs: one [Start] made, or another. *)
Definition caller (self : Z) (w : world) : Prop := self ≠ 0 ∧ (pthreads w !! self = None ∨ ∃ t, pthreads w !! self = Some (OSRun t)).

Ltac lookups :=
  repeat match goal with
  | H : <[_ := _]> _ !! _ = Some _ |- _ => apply lookup_insert_Some in H as [[? ?]|[? ?]]; subst
  | H : base.delete _ _ !! _ = Some _ |- _ => apply lookup_delete_Some in H as [? ?]; subst
  | H : Some _ = Some _ |- _ => injection H as H; subst
  end.

(** A new object. *)
Lemma life_new t w : life_ok w → objs w !! t = None →
  life_ok (World (<[t := TObj true 0 false true false None]> (objs w)) (key_ w) (current w) (message_queues_ w ++ [t]) (main_thread_ref_ w) (pthreads w)).
Proof.
  intros [L1 L2 L3 L4 L5 L6 L7 L8 L9 L10 L11] Hn. split; cbn [objs key_ current message_queues_ pthreads]; try done.
  - intros o u Hu. destruct (L2 o u Hu) as (Ho & x & Hx & Hr). split; [done|]. exists x. split; [|done]. rewrite lookup_insert_ne; [done|congruence].
  - intros u x Hx. lookups; [by left|by apply L3].
  - apply NoDup_app. split_and!; [done| |apply NoDup_singleton]. intros u Hu ->%list_elem_of_singleton. apply L5 in Hu as [? ?]. congruence.
  - intros u. rewrite elem_of_app, list_elem_of_singleton, L5. destruct (decide (u = t)) as [->|]; [rewrite lookup_insert_eq|rewrite lookup_insert_ne by done].
    + split; [by eexists|by right].
    + split; [intros [?|?]; done|by left].
  - intros u x Hx. lookups; [done|by eapply L6].
  - intros o u Hu. destruct (L7 o u Hu) as (Hk & Ho & x & Hx & Hr). split_and!; try done. exists x. split; [|done]. rewrite lookup_insert_ne; [done|congruence].
  - intros u x Hx. lookups; [done|by apply L10].
  - intros u x Hx. lookups; [done|by apply L11].
Qed.

(** An object becomes current on its thread. *)
Definition attached (self : Z) (x : tobj) : tobj := set_registration (Some None) (set_thread (owned_ x) self x).

Lemma life_wrap self t x w : life_ok w → objs w !! t = Some x → thread_ x = 0 → key_ w !! self = None → pthreads w !! self = None → self ≠ 0 →
  life_ok (World (<[t := attached self (set_thread false self x)]> (objs w)) (<[self := t]> (key_ w)) (<[self := t]> (current w))
    (message_queues_ w) (main_thread_ref_ w) (pthreads w)).
Proof.
  intros [L1 L2 L3 L4 L5 L6 L7 L8 L9 L10 L11] Hx Ht Hk Hp Hs.
  assert (∀ o, key_ w !! o ≠ Some t) as Hnt. { intros o Ho. destruct (L2 o t Ho) as (? & x' & ? & ? & _). congruence. }
  split; cbn [objs key_ current message_queues_ pthreads]; try done.
  - by rewrite L1.
  - intros o u Hu. lookups.
    + split; [done|]. eexists. rewrite lookup_insert_eq. done.
    + destruct (L2 o u) as (Ho & y & Hy & Hr); [done|]. split; [done|]. exists y. split; [|done]. rewrite lookup_insert_ne; [done|]. intros ->. by apply (Hnt o).
  - intros u y Hy. lookups; [right; cbn; by rewrite lookup_insert_eq|]. destruct (L3 u y) as [?|Hu]; [done|by left|]. right.
    rewrite lookup_insert_ne; [done|]. intros ->. congruence.
  - intros u. rewrite L5. destruct (decide (u = t)) as [->|]; [rewrite lookup_insert_eq, Hx; split; by eexists|by rewrite lookup_insert_ne].
  - intros u y Hy. lookups; cbn; by eapply L6.
  - intros o u Hu. destruct (L7 o u Hu) as (Hko & Ho & y & Hy & Hyo & Hr). split_and!; [rewrite lookup_insert_ne; congruence|done|].
    exists y. split; [|done]. rewrite lookup_insert_ne; [done|]. intros ->. congruence.
  - intros o u Hu. rewrite lookup_insert_ne; [by apply L8|]. congruence.
  - intros o Hu. destruct (L9 o Hu) as [? ?]. split; [|done]. rewrite lookup_insert_ne; congruence.
  - intros u y Hy. lookups; [done|by apply L10].
  - intros u y Hy Hy0 Hyo. lookups; [cbn; by rewrite lookup_insert_eq|]. destruct (L11 u y) as [? ?]; try done. split; [|done].
    rewrite lookup_insert_ne; [done|]. intros ->. congruence.
Qed.

(** An object changes in what the invariant does not look at. *)
Lemma life_put t x y w : life_ok w → objs w !! t = Some x → thread_ y = thread_ x → task_queue_registration_ y = task_queue_registration_ x →
  fInitialized_ y = fInitialized_ x → fDestroyed_ y = fDestroyed_ x → (thread_ x = 0 ∨ owned_ y = owned_ x) → life_ok (put t y w).
Proof.
  intros [L1 L2 L3 L4 L5 L6 L7 L8 L9 L10 L11] Hx E1 E2 E3 E4 E5. split; cbn [put set_objs objs key_ current message_queues_ pthreads]; try done.
  - intros o u Hu. destruct (L2 o u Hu) as (Ho & z & Hz & Hr). split; [done|]. destruct (decide (t = u)) as [->|].
    + simplify_eq. exists y. by rewrite lookup_insert_eq, E1, E2.
    + exists z. by rewrite lookup_insert_ne.
  - intros u z Hz. lookups; [rewrite E1, E2; by apply L3|by apply L3].
  - intros u. rewrite L5. destruct (decide (u = t)) as [->|]; [rewrite lookup_insert_eq, Hx; split; by eexists|by rewrite lookup_insert_ne].
  - intros u z Hz. lookups; [rewrite E3, E4; by eapply L6|by eapply L6].
  - intros o u Hu. destruct (L7 o u Hu) as (Hk & Ho & z & Hz & Hzo & Hr). split_and!; try done. destruct (decide (t = u)) as [->|].
    + simplify_eq. exists y. rewrite lookup_insert_eq, E1. split_and!; try done. destruct E5 as [?| ->]; congruence.
    + exists z. by rewrite lookup_insert_ne.
  - intros u z Hz Hz0 Hzo. lookups; [|by apply L10]. rewrite E1 in *. apply L10; [done|done|]. destruct E5 as [?| <-]; [done|done].
  - intros u z Hz Hz0 Hzo. lookups; [|by apply L11]. rewrite E1 in *. apply L11; [done|done|]. destruct E5 as [?| <-]; [done|done].
Qed.

(** A wrapped object is let go. *)
Lemma life_unwrap self t x w : life_ok w → objs w !! t = Some x → key_ w !! self = Some t → owned_ x = false →
  life_ok (World (<[t := set_thread false 0 (set_registration None x)]> (objs w)) (base.delete self (key_ w)) (base.delete self (current w))
    (message_queues_ w) (main_thread_ref_ w) (pthreads w)).
Proof.
  intros [L1 L2 L3 L4 L5 L6 L7 L8 L9 L10 L11] Hx Hk Hown.
  destruct (L2 self t Hk) as (Hs & x' & ? & Hth & _). simplify_eq.
  destruct (L11 t x Hx Hs Hown) as [_ Hp].
  split; cbn [objs key_ current message_queues_ pthreads]; try done.
  - by rewrite L1.
  - intros o u Hu. lookups. destruct (L2 o u) as (Ho & y & Hy & Hyo & Hr); [done|]. split; [done|]. exists y. split; [|done].
    rewrite lookup_insert_ne; [done|]. intros ->. congruence.
  - intros u y Hy. lookups; [by left|]. destruct (L3 u y) as [?|Hu]; [done|by left|]. right. rewrite lookup_delete_ne; [done|]. intros Heq. rewrite Heq in Hk. congruence.
  - intros u. rewrite L5. destruct (decide (u = t)) as [->|]; [rewrite lookup_insert_eq, Hx; split; by eexists|by rewrite lookup_insert_ne].
  - intros u y Hy. lookups; cbn; by eapply L6.
  - intros o u Hu. destruct (L7 o u Hu) as (Hko & Ho & y & Hy & Hyo & Hr).
    split_and!; [rewrite lookup_delete_ne; congruence|done|]. exists y. split; [|done]. rewrite lookup_insert_ne; [done|]. intros ->. congruence.
  - intros o u Hu. rewrite lookup_delete_ne; [by apply L8|]. congruence.
  - intros o Hu. destruct (L9 o Hu) as [? ?]. split; [|done]. rewrite lookup_delete_ne; congruence.
  - intros u y Hy Hy0. lookups; [done|by apply L10].
  - intros u y Hy Hy0 Hyo. lookups; [done|]. destruct (L11 u y) as [? ?]; try done. split; [|done].
    rewrite lookup_delete_ne; [done|]. congruence.
Qed.

(** A thread is started. *)
Lemma life_start pid t x w : life_ok w → objs w !! t = Some x → thread_ x = 0 →
  pid ≠ 0 → pthreads w !! pid = None → key_ w !! pid = None →
  life_ok (World (<[t := set_thread true pid (set_quitting false x)]> (objs w)) (key_ w) (current w)
    (message_queues_ w) (main_thread_ref_ w) (<[pid := OSNew t]> (pthreads w))).
Proof.
  intros [L1 L2 L3 L4 L5 L6 L7 L8 L9 L10 L11] Hx Ht Hpid Hp Hk.
  assert (∀ o, key_ w !! o ≠ Some t) as Hnt. { intros o Ho. destruct (L2 o t Ho) as (? & x' & ? & ? & _). congruence. }
  split; cbn [objs key_ current message_queues_ pthreads]; try done.
  - intros o u Hu. destruct (L2 o u Hu) as (Ho & y & Hy & Hr). split; [done|]. exists y. split; [|done]. rewrite lookup_insert_ne; [done|]. intros ->. by apply (Hnt o).
  - intros u y Hy. lookups; [|by apply L3]. left. cbn. destruct (L3 _ x Hx) as [?|Hkx]; [done|]. by destruct (Hnt _ Hkx).
  - intros u. rewrite L5. destruct (decide (u = t)) as [->|]; [rewrite lookup_insert_eq, Hx; split; by eexists|by rewrite lookup_insert_ne].
  - intros u y Hy. lookups; cbn; by eapply L6.
  - intros o u Hu. lookups.
    + injection H0 as ->. split_and!; try done. eexists. by rewrite lookup_insert_eq.
    + destruct (L7 o u) as (Hko & Ho & y & Hy & Hyo & Hr); [done|]. split_and!; try done. exists y. split; [|done]. rewrite lookup_insert_ne; [done|]. intros ->. congruence.
  - intros o u Hu. lookups; [done|by apply L8].
  - intros o Hu. lookups; [done|by apply L9].
  - intros u y Hy Hy0 Hyo. lookups; [cbn; rewrite lookup_insert_eq; by left|]. rewrite lookup_insert_ne; [by apply L10|]. intros Heq.
    destruct (L10 u y) as [?|[?|?]]; try done; congruence.
  - intros u y Hy Hy0 Hyo. lookups; [done|]. destruct (L11 u y) as [? ?]; try done. split; [done|]. rewrite lookup_insert_ne; [done|]. congruence.
Qed.

(** [PreRun] makes the object current. *)
Lemma life_begin pid t x w : life_ok w → pthreads w !! pid = Some (OSNew t) → objs w !! t = Some x →
  life_ok (World (<[t := set_registration (Some None) x]> (objs w)) (<[pid := t]> (key_ w)) (<[pid := t]> (current w))
    (message_queues_ w) (main_thread_ref_ w) (<[pid := OSRun t]> (pthreads w))).
Proof.
  intros [L1 L2 L3 L4 L5 L6 L7 L8 L9 L10 L11] Hp Hx. destruct (L7 pid t Hp) as (Hk & Hpid & x' & ? & Hth & Hown). simplify_eq.
  assert (∀ o, key_ w !! o ≠ Some t) as Hnt. { intros o Ho. destruct (L2 o t Ho) as (? & y & ? & ? & _). congruence. }
  split; cbn [objs key_ current message_queues_ pthreads]; try done.
  - by rewrite L1.
  - intros o u Hu. lookups.
    + split; [done|]. eexists. rewrite lookup_insert_eq. done.
    + destruct (L2 o u) as (Ho & y & Hy & Hr); [done|]. split; [done|]. exists y. split; [|done]. rewrite lookup_insert_ne; [done|]. intros ->. by apply (Hnt o).
  - intros u y Hy. lookups; [right; cbn; by rewrite lookup_insert_eq|]. destruct (L3 u y) as [?|Hu]; [done|by left|]. right.
    rewrite lookup_insert_ne; [done|]. intros Heq. rewrite Heq in Hk. congruence.
  - intros u. rewrite L5. destruct (decide (u = t)) as [->|]; [rewrite lookup_insert_eq, Hx; split; by eexists|by rewrite lookup_insert_ne].
  - intros u y Hy. lookups; cbn; by eapply L6.
  - intros o u Hu. lookups; [done|]. destruct (L7 o u) as (Hko & Ho & y & Hy & Hyo & Hr); [done|]. split_and!; [rewrite lookup_insert_ne; congruence|done|].
    exists y. split; [|done]. rewrite lookup_insert_ne; [done|]. intros ->. congruence.
  - intros o u Hu. lookups; [by rewrite lookup_insert_eq; congruence|]. rewrite lookup_insert_ne; [by apply L8|done].
  - intros o Hu. lookups; [done|]. destruct (L9 o) as [? ?]; [done|]. split; [|done]. rewrite lookup_insert_ne; [done|done].
  - intros u y Hy Hy0 Hyo. lookups; [cbn; rewrite lookup_insert_eq; auto|]. rewrite lookup_insert_ne; [by apply L10|]. intros Heq.
    destruct (L10 u y) as [?|[?|?]]; try done; congruence.
  - intros u y Hy Hy0 Hyo. lookups; [cbn in *; congruence|]. destruct (L11 u y) as [? ?]; try done. split; rewrite lookup_insert_ne; try done; congruence.
Qed.

(** ... and lets it go when [Run] has returned. *)
Lemma life_end pid t x w : life_ok w → pthreads w !! pid = Some (OSRun t) → objs w !! t = Some x → owned_ x = true →
  life_ok (World (<[t := set_registration None x]> (objs w)) (base.delete pid (key_ w)) (base.delete pid (current w))
    (message_queues_ w) (main_thread_ref_ w) (<[pid := OSEnd]> (pthreads w))).
Proof.
  intros [L1 L2 L3 L4 L5 L6 L7 L8 L9 L10 L11] Hp Hx Hown. pose proof (L8 pid t Hp) as Hk. destruct (L2 pid t Hk) as (Hpid & x' & ? & Hth & _). simplify_eq.
  split; cbn [objs key_ current message_queues_ pthreads]; try done.
  - by rewrite L1.
  - intros o u Hu. lookups. destruct (L2 o u) as (Ho & y & Hy & Hyo & Hr); [done|]. split; [done|]. exists y. split; [|done].
    rewrite lookup_insert_ne; [done|]. intros ->. congruence.
  - intros u y Hy. lookups; [by left|]. destruct (L3 u y) as [?|Hu]; [done|by left|]. right. rewrite lookup_delete_ne; [done|]. intros Heq. rewrite Heq in Hk. congruence.
  - intros u. rewrite L5. destruct (decide (u = t)) as [->|]; [rewrite lookup_insert_eq, Hx; split; by eexists|by rewrite lookup_insert_ne].
  - intros u y Hy. lookups; cbn; by eapply L6.
  - intros o u Hu. lookups; [done|]. destruct (L7 o u) as (Hko & Ho & y & Hy & Hyo & Hr); [done|]. split_and!; [rewrite lookup_delete_ne; congruence|done|].
    exists y. split; [|done]. rewrite lookup_insert_ne; [done|]. intros ->. congruence.
  - intros o u Hu. lookups; [done|]. rewrite lookup_delete_ne; [by apply L8|done].
  - intros o Hu. lookups; [by rewrite lookup_delete_eq|]. destruct (L9 o) as [? ?]; [done|]. split; [|done]. by rewrite lookup_delete_ne.
  - intros u y Hy Hy0 Hyo. lookups; [cbn; rewrite lookup_insert_eq; auto|]. rewrite lookup_insert_ne; [by apply L10|]. intros Heq.
    destruct (L10 u y) as [?|[?|?]]; try done; congruence.
  - intros u y Hy Hy0 Hyo. lookups; [cbn in *; congruence|]. destruct (L11 u y) as [? ?]; try done.
    split; [rewrite lookup_delete_ne; [done|]|rewrite lookup_insert_ne; [done|]]; congruence.
Qed.

(** A thread that ended is joined. *)
Lemma life_join t x w : life_ok w → objs w !! t = Some x → pthreads w !! thread_ x = Some OSEnd →
  life_ok (put t (set_thread (owned_ x) 0 x) w).
Proof.
  intros [L1 L2 L3 L4 L5 L6 L7 L8 L9 L10 L11] Hx Hp. destruct (L9 _ Hp) as [Hk H0].
  assert (task_queue_registration_ x = None) as Hreg by (destruct (L3 t x Hx); congruence).
  split; cbn [put set_objs objs key_ current message_queues_ pthreads]; try done.
  - intros o u Hu. destruct (L2 o u Hu) as (Ho & y & Hy & Hyo & Hr). split; [done|]. exists y. split; [|done]. rewrite lookup_insert_ne; [done|]. intros ->. congruence.
  - intros u y Hy. lookups; [by left|by apply L3].
  - intros u. rewrite L5. destruct (decide (u = t)) as [->|]; [rewrite lookup_insert_eq, Hx; split; by eexists|by rewrite lookup_insert_ne].
  - intros u y Hy. lookups; cbn; by eapply L6.
  - intros o u Hu. destruct (L7 o u Hu) as (Hko & Ho & y & Hy & Hyo & Hr). split_and!; try done.
    exists y. split; [|done]. rewrite lookup_insert_ne; [done|]. intros ->. congruence.
  - intros u y Hy Hy0 Hyo. lookups; [done|by apply L10].
  - intros u y Hy Hy0 Hyo. lookups; [done|by apply L11].
Qed.

Lemma erase_first_spec t l : NoDup l → NoDup (erase_first t l) ∧ ∀ u, u ∈ erase_first t l ↔ u ∈ l ∧ u ≠ t.
Proof.
  induction l as [|x l IH]; intros Hnd; cbn [erase_first]; [split; [done|set_solver]|].
  apply NoDup_cons in Hnd as [Hx Hnd]. destruct (Z.eqb_spec x t) as [->|Hne].
  - split; [done|]. intros u. rewrite elem_of_cons. split; [intros Hu; split; [by right|congruence]|intros [[?|?] ?]; done].
  - destruct (IH Hnd) as [H1 H2]. split; [apply NoDup_cons; split; [rewrite H2; tauto|done]|].
    intros u. rewrite !elem_of_cons, H2. split; [intros [->|[? ?]]; auto|intros [[?|?] ?]; auto].
Qed.

(** An object that is nowhere current is deleted. *)
Lemma life_delete t x w : life_ok w → objs w !! t = Some x → thread_ x = 0 →
  life_ok (World (base.delete t (objs w)) (key_ w) (current w) (erase_first t (message_queues_ w)) (main_thread_ref_ w) (pthreads w)).
Proof.
  intros [L1 L2 L3 L4 L5 L6 L7 L8 L9 L10 L11] Hx Ht. destruct (erase_first_spec t _ L4) as [E1 E2].
  split; cbn [objs key_ current message_queues_ pthreads]; try done.
  - intros o u Hu. destruct (L2 o u Hu) as (Ho & y & Hy & Hyo & Hr). split; [done|]. exists y. split; [|done]. rewrite lookup_delete_ne; [done|]. intros ->. congruence.
  - intros u y Hy. lookups. by apply L3.
  - intros u. rewrite E2, L5. destruct (decide (u = t)) as [->|]; [rewrite lookup_delete_eq|rewrite lookup_delete_ne by done].
    + split; [intros [_ ?]; done|by intros [? ?]].
    + split; [by intros [? _]|done].
  - intros u y Hy. lookups. by eapply L6.
  - intros o u Hu. destruct (L7 o u Hu) as (Hko & Ho & y & Hy & Hyo & Hr). split_and!; try done.
    exists y. split; [|done]. rewrite lookup_delete_ne; [done|]. intros ->. congruence.
  - intros u y Hy Hy0 Hyo. lookups. by apply L10.
  - intros u y Hy Hy0 Hyo. lookups. by apply L11.
Qed.

(** ** The operations keep it *)

Section Keep.
Context (dchecks : bool).

Lemma life_dcheck_true : MessageQueue.dcheck dchecks true = Val ().
Proof. by destruct dchecks. Qed.

Lemma set_current_some self t x w : life_ok w → key_ w !! self = None → objs w !! t = Some x → task_queue_registration_ x = None →
  ∀ y, task_queue_registration_ y = None →
  SetCurrentThread self (Some t) (put t y w) =
    Val (World (<[t := set_registration (Some None) y]> (objs w)) (<[self := t]> (key_ w)) (<[self := t]> (current w))
      (message_queues_ w) (main_thread_ref_ w) (pthreads w)).
Proof.
  intros Hw Hk Hx Hr y Hy. unfold SetCurrentThread, EnsureIsCurrentTaskQueue, get, put. cbn [objs set_objs]. rewrite lookup_insert_eq.
  cbn [of_mem mbind_res]. unfold Setter_new. rewrite Hy. cbn [mbind_res]. unfold SetCurrentThreadInternal. cbn.
  by rewrite (lo_same w Hw), Hk, insert_insert_eq.
Qed.

Lemma set_current_none self t x w : life_ok w → key_ w !! self = Some t → objs w !! t = Some x →
  SetCurrentThread self None w =
    Val (World (<[t := set_registration None x]> (objs w)) (base.delete self (key_ w)) (base.delete self (current w))
      (message_queues_ w) (main_thread_ref_ w) (pthreads w)).
Proof.
  intros Hw Hk Hx. unfold SetCurrentThread, CurrentThread. rewrite Hk. unfold ClearCurrentTaskQueue, get. rewrite Hx. cbn [of_mem mbind_res].
  destruct (lo_key w Hw self t Hk) as (_ & x' & ? & _ & Hr). simplify_eq. rewrite Hr. done.
Qed.

Lemma unregistered t x w : life_ok w → objs w !! t = Some x → thread_ x = 0 → task_queue_registration_ x = None.
Proof.
  intros Hw Hx Ht. destruct (lo_reg w Hw t x Hx) as [?|Hk]; [done|]. rewrite Ht in Hk. by destruct (lo_key w Hw _ _ Hk) as [? _].
Qed.

Lemma caller_free self w : life_ok w → caller self w → key_ w !! self = None → pthreads w !! self = None.
Proof. intros Hw [_ [?|[t Ht]]] Hk; [done|]. rewrite (lo_run w Hw _ _ Ht) in Hk. done. Qed.

(** Wrapping keeps the invariant and makes the object current. *)
Lemma wrap_ok self t x w : life_ok w → objs w !! t = Some x → caller self w → key_ w !! self = None → thread_ x = 0 →
  ∃ w', WrapCurrentWithThreadManager dchecks self t w = Val (true, w') ∧ life_ok w' ∧ key_ w' = <[self := t]> (key_ w) ∧ pthreads w' = pthreads w ∧
    objs w' = <[t := attached self (set_thread false self x)]> (objs w).
Proof.
  intros Hw Hx Hc Hk Ht. unfold WrapCurrentWithThreadManager, get, IsRunning. rewrite Hx. cbn [of_mem mbind_res]. rewrite Ht. cbn [Z.eqb negb]. rewrite life_dcheck_true. cbn [mbind_res].
  pose proof (unregistered t x w Hw Hx Ht) as Hr.
  rewrite (set_current_some self t x w Hw Hk Hx Hr (set_thread false self x)) by done. cbn [mbind_res].
  eexists. split; [done|]. split; [|done]. apply (life_wrap self t x w); try done; [by apply caller_free|apply Hc].
Qed.

Lemma new_ok t w : life_ok w → objs w !! t = None →
  ∃ w', Thread_new t true w = Val w' ∧ life_ok w' ∧ key_ w' = key_ w ∧ pthreads w' = pthreads w ∧
    objs w' = <[t := TObj true 0 false true false None]> (objs w).
Proof.
  intros Hw Hn. unfold Thread_new, DoInit, get, put. cbn [objs set_objs]. rewrite lookup_insert_eq. cbn [of_mem mbind_res fInitialized_].
  eexists. split; [done|]. cbn. rewrite insert_insert_eq. split; [|done]. by apply (life_new t w).
Qed.

(** A new object for the calling thread. *)
Lemma new_wrap_ok self f w : life_ok w → objs w !! f = None → caller self w → key_ w !! self = None →
  ∃ w1 w', Thread_new f true w = Val w1 ∧ WrapCurrentWithThreadManager dchecks self f w1 = Val (true, w') ∧ life_ok w' ∧
    pthreads w' = pthreads w ∧ (∀ t, t ≠ f → objs w' !! t = objs w !! t) ∧ (∀ o, o ≠ self → key_ w' !! o = key_ w !! o).
Proof.
  intros Hw Hn Hc Hk. destruct (new_ok f w Hw Hn) as (w1 & E1 & Hw1 & K1 & P1 & O1).
  destruct (wrap_ok self f (TObj true 0 false true false None) w1) as (w2 & E2 & Hw2 & K2 & P2 & O2); try done.
  - by rewrite O1, lookup_insert_eq.
  - unfold caller. by rewrite P1.
  - by rewrite K1.
  - exists w1, w2. split_and!; try done; [congruence| |].
    + intros t Ht. rewrite O2, O1, !lookup_insert_ne; congruence.
    + intros o Ho. rewrite K2, K1, lookup_insert_ne; congruence.
Qed.

Lemma Current_ok self f w : life_ok w → objs w !! f = None → caller self w →
  ∃ r w', Current dchecks self f w = Val (r, w') ∧ life_ok w' ∧ pthreads w' = pthreads w ∧ (∀ t, t ≠ f → objs w' !! t = objs w !! t).
Proof.
  intros Hw Hn Hc. unfold Current, CurrentThread. destruct (key_ w !! self) as [t|] eqn:Hk; [by eexists _, _|].
  destruct (IsMainThread self w); [|by eexists _, _].
  destruct (new_wrap_ok self f w Hw Hn Hc Hk) as (w1 & w2 & E1 & E2 & Hw2 & P2 & O2 & _). rewrite E1. cbn [mbind_res]. rewrite E2. cbn [mbind_res].
  by eexists _, _.
Qed.

(** What a call that may block answers: nothing yet, while [blocked] holds, or
    a value with the property. *)
Definition answers (r : option (res world)) (blocked : Prop) (P : world → Prop) : Prop :=
  match r with None => blocked | Some (Val w) => P w | _ => False end.

Lemma answers_impl r B C (P Q : world → Prop) : answers r B P → (B → C) → (∀ w, P w → Q w) → answers r C Q.
Proof. destruct r as [[]|]; cbn; auto. Qed.

(** The object after [Stop]: its thread, if it had one, has ended. *)
Definition stopped (t : Z) (x : tobj) (w w' : world) : Prop :=
  life_ok w' ∧ pthreads w' = pthreads w ∧ (∃ x', objs w' !! t = Some x' ∧ thread_ x' = 0) ∧
  (thread_ x ≠ 0 → pthreads w' !! thread_ x = Some OSEnd).

Lemma Stop_ok self t f x w :
  life_ok w → objs w !! t = Some x → (owned_ x = true ∨ thread_ x = 0) → caller self w → objs w !! f = None →
  key_ w !! self ≠ Some t →
  answers (Stop dchecks self t f w) (pthreads w !! thread_ x ≠ Some OSEnd) (stopped t x w).
Proof.
  intros Hw Hx Ho Hc Hf Hcur. unfold Stop, LifeQuit, get. rewrite Hx. cbn [of_mem mbind_res].
  assert (life_ok (put t (set_quitting true x) w)) as Hw1 by (eapply life_put; eauto).
  set (w1 := put t (set_quitting true x) w) in *. assert (objs w1 !! t = Some (set_quitting true x)) as Hx1 by apply lookup_insert_eq.
  assert (t ≠ f) as Hne by congruence. assert (objs w1 !! f = None) as Hf1 by (cbn; by rewrite lookup_insert_ne).
  assert (key_ w1 = key_ w ∧ pthreads w1 = pthreads w) as [Ek Ep] by done. clearbody w1.
  unfold Join, get. rewrite Hx1. cbn [of_mem]. unfold IsRunning. cbn [thread_ set_quitting].
  destruct (Z.eqb_spec (thread_ x) 0) as [E0|H0]; cbn [negb].
  { cbn. split_and!; [done|done| |done]. by exists (set_quitting true x). }
  destruct Ho as [Ho|]; [|done]. assert (IsCurrent self t w1 = false) as Ecur by (apply bool_decide_eq_false; unfold CurrentThread; by rewrite Ek).
  rewrite Ecur. cbn [negb]. rewrite life_dcheck_true.
  assert (caller self w1) as Hc1 by (unfold caller; by rewrite Ep).
  destruct (Current_ok self f w1 Hw1 Hf1 Hc1) as (r & w2 & -> & Hw2 & P2 & O2).
  unfold pthread_join. destruct (Z.eqb_spec (thread_ x) self) as [Es|Hs].
  { exfalso. apply bool_decide_eq_false in Ecur. apply Ecur. unfold CurrentThread. rewrite Ek. destruct (lo_owned w Hw t x Hx H0 Ho) as [Hp|[Hp|Hp]]; rewrite Es in Hp.
    - destruct Hc as [_ [?|[u ?]]]; congruence.
    - by apply (lo_run w Hw).
    - destruct Hc as [_ [?|[u ?]]]; congruence. }
  rewrite P2, Ep. destruct (lo_owned w Hw t x Hx H0 Ho) as [Hp|[Hp|Hp]]; rewrite Hp; cbn [mbind option_bind answers]; [congruence..|].
  rewrite O2, Hx1 by done. cbn [of_mem mbind_res answers]. assert (objs w2 !! t = Some (set_quitting true x)) as Hx2 by (by rewrite O2).
  split_and!.
  - apply (life_join t (set_quitting true x) w2); [done|done|]. cbn. by rewrite P2, Ep.
  - cbn. congruence.
  - exists (set_thread (owned_ (set_quitting true x)) 0 (set_quitting true x)). cbn. by rewrite lookup_insert_eq.
  - intros _. cbn. congruence.
Qed.

Lemma Thread_delete_ok self t f x w :
  life_ok w → objs w !! t = Some x → (owned_ x = true ∨ thread_ x = 0) → caller self w → objs w !! f = None →
  key_ w !! self ≠ Some t →
  answers (Thread_delete dchecks self t f w) (pthreads w !! thread_ x ≠ Some OSEnd) (λ w', life_ok w' ∧ objs w' !! t = None ∧ (thread_ x ≠ 0 → pthreads w' !! thread_ x = Some OSEnd)).
Proof.
  intros Hw Hx Ho Hc Hf Hcur. unfold Thread_delete. pose proof (Stop_ok self t f x w Hw Hx Ho Hc Hf Hcur) as Hs.
  destruct (Stop dchecks self t f w) as [[w1| | |]|]; cbn [mbind option_bind answers] in *; try done. destruct Hs as (Hw1 & P1 & (x1 & Hx1 & Ht1) & He).
  cbn [mbind_res]. unfold LifeDestroy, get. rewrite Hx1. cbn [of_mem mbind_res]. destruct (lo_flags w1 Hw1 t x1 Hx1) as [Hi Hd]. rewrite Hd.
  cbn [Remove put set_mqs set_objs objs mbind_res]. rewrite lookup_insert_eq. cbn [of_mem mbind_res set_flags task_queue_registration_].
  rewrite (unregistered t x1 w1 Hw1 Hx1 Ht1). cbn [mbind_res set_objs objs key_ current message_queues_ main_thread_ref_ pthreads].
  split_and!; [|apply lookup_delete_eq|done]. unfold set_objs, Remove, set_mqs, put, set_objs. cbn [objs key_ current message_queues_ main_thread_ref_ pthreads].
  rewrite delete_insert_eq. by apply (life_delete t x1 w1).
Qed.

(** ** Histories *)

(** The calls a program may make and the steps of the threads it started; [f] is
    the address of an object that may be made on the way. A [Stop] that has to
    wait is a [LQuit] at the time of the call and a [LStop] when it returns. *)
Inductive life_op :=
  | LNew (t : Z) | LStart (t : Z) (created : Z + Z) | LStop (self t f : Z) | LDelete (self t f : Z)
  | LWrap (self t : Z) | LUnwrap (self t : Z) | LMgrWrap (self f : Z) | LMgrUnwrap (self f : Z) | LCurrent (self f : Z)
  | LQuit (t : Z) | LBegin (pid : Z) | LEnd (pid : Z).

Definition life_apply (o : life_op) (w : world) : option (res world) :=
  match o with
  | LNew t => Some (Thread_new t true w)
  | LStart t created => Some (let* '(_, w) := Start dchecks t created w in Val w)
  | LStop self t f => Stop dchecks self t f w
  | LDelete self t f => Thread_delete dchecks self t f w
  | LWrap self t => Some (let* '(_, w) := WrapCurrent dchecks self t w in Val w)
  | LUnwrap self t => Some (UnwrapCurrent self t w)
  | LMgrWrap self f => Some (let* '(_, w) := WrapCurrentThread dchecks self f w in Val w)
  | LMgrUnwrap self f => UnwrapCurrentThread dchecks self f w
  | LCurrent self f => Some (let* '(_, w) := Current dchecks self f w in Val w)
  | LQuit t => Some (LifeQuit t w)
  | LBegin pid => Some (PreRun_begin pid w)
  | LEnd pid => PreRun_end pid w
  end.

(** Correct use: objects that exist are used, from threads that run; a thread is
    not wrapped over another; what is wrapped is unwrapped on its own thread and
    not stopped; the system gives threads new names. *)
Definition life_use (o : life_op) (w : world) : Prop :=
  match o with
  | LNew t => objs w !! t = None
  | LStart t created => is_Some (objs w !! t) ∧ match created with inr pid => pthreads w !! pid = None ∧ key_ w !! pid = None | inl _ => True end
  | LStop self t f | LDelete self t f =>
      (∃ x, objs w !! t = Some x ∧ (owned_ x = true ∨ thread_ x = 0)) ∧ caller self w ∧ objs w !! f = None
  | LWrap self t => is_Some (objs w !! t) ∧ caller self w ∧ key_ w !! self = None
  | LUnwrap self t => key_ w !! self = Some t ∧ ∃ x, objs w !! t = Some x ∧ owned_ x = false
  | LMgrWrap self f | LMgrUnwrap self f | LCurrent self f => caller self w ∧ objs w !! f = None
  | LQuit t => is_Some (objs w !! t)
  | LBegin pid => ∃ t, pthreads w !! pid = Some (OSNew t)
  | LEnd pid => ∃ t, pthreads w !! pid = Some (OSRun t)
  end.

(** What the [RTC_DCHECK]s test: a thread that runs is not started or wrapped,
    a thread does not stop or delete itself, a new thread has a name. *)
Definition checks_pass (o : life_op) (w : world) : bool :=
  match o with
  | LStart t created =>
      match objs w !! t with Some x => thread_ x =? 0 | None => true end && match created with inr pid => negb (pid =? 0) | inl _ => true end
  | LWrap _ t => match objs w !! t with Some x => thread_ x =? 0 | None => true end
  | LStop self t _ | LDelete self t _ => negb (bool_decide (key_ w !! self = Some t))
  | _ => true
  end.

(** A build without the checks relies on the caller for what they test. *)
Definition life_op_ok (o : life_op) (w : world) : Prop := life_use o w ∧ (dchecks = false → checks_pass o w = true).

Lemma Start_ok t created w : life_ok w → life_use (LStart t created) w → checks_pass (LStart t created) w = true →
  answers (life_apply (LStart t created) w) False life_ok.
Proof.
  intros Hw [[x Hx] Hc]. cbn [life_apply checks_pass]. rewrite Hx. intros [E0%Z.eqb_eq Hp]%andb_prop.
  unfold Start, get. rewrite Hx. cbn [of_mem mbind_res]. unfold IsRunning. rewrite E0. cbn [Z.eqb negb]. rewrite life_dcheck_true. cbn [mbind_res].
  destruct created as [e|pid].
  - cbn. eapply (life_put t x); eauto.
  - rewrite Hp, life_dcheck_true. cbn [mbind_res answers]. destruct Hc as [Hp1 Hp2]. apply negb_true_iff, Z.eqb_neq in Hp.
    exact (life_start pid t x w Hw Hx E0 Hp Hp1 Hp2).
Qed.

Lemma Unwrap_ok self t x w : life_ok w → key_ w !! self = Some t → objs w !! t = Some x → owned_ x = false →
  ∃ w', UnwrapCurrent self t w = Val w' ∧ life_ok w' ∧ objs w' = <[t := set_thread false 0 (set_registration None x)]> (objs w) ∧ pthreads w' = pthreads w.
Proof.
  intros Hw Hk Hx Ho. unfold UnwrapCurrent. rewrite (set_current_none self t x w Hw Hk Hx). cbn [mbind_res]. unfold get. cbn [objs]. rewrite lookup_insert_eq.
  cbn [of_mem mbind_res]. eexists. split; [done|]. unfold put, set_objs. cbn [objs key_ current message_queues_ main_thread_ref_ pthreads].
  rewrite insert_insert_eq. cbn [owned_ set_registration]. rewrite Ho. split; [by apply (life_unwrap self t x w)|done].
Qed.

Lemma PreRun_begin_ok pid w : life_ok w → life_use (LBegin pid) w → answers (life_apply (LBegin pid) w) False life_ok.
Proof.
  intros Hw [t Hp]. cbn [life_apply]. unfold PreRun_begin. rewrite Hp. destruct (lo_new w Hw pid t Hp) as (Hk & Hpid & x & Hx & Hth & Hown).
  assert (task_queue_registration_ x = None) as Hr by (destruct (lo_reg w Hw t x Hx); congruence).
  replace w with (put t x w) at 1 by (unfold put, set_objs; rewrite insert_id by done; by destruct w).
  rewrite (set_current_some pid t x w Hw Hk Hx Hr x Hr). cbn [mbind_res answers]. by apply (life_begin pid t x w).
Qed.

Lemma PreRun_end_ok pid w : life_ok w → life_use (LEnd pid) w → answers (life_apply (LEnd pid) w) True life_ok.
Proof.
  intros Hw [t Hp]. cbn [life_apply]. unfold PreRun_end. rewrite Hp. pose proof (lo_run w Hw pid t Hp) as Hk.
  destruct (lo_key w Hw pid t Hk) as (Hpid & x & Hx & Hth & Hr). unfold get. rewrite Hx. cbn [of_mem]. destruct (quitting x); [|done].
  rewrite (set_current_none pid t x w Hw Hk Hx). cbn [mbind_res answers]. apply (life_end pid t x w); try done.
  destruct (owned_ x) eqn:Ho; [done|]. destruct (lo_wrapped w Hw t x Hx) as [_ ?]; congruence.
Qed.

Lemma life_apply_ok o w : life_ok w → life_use o w → checks_pass o w = true → answers (life_apply o w) True life_ok.
Proof.
  intros Hw Ho Hk0. destruct o as [t|t created|self t f|self t f|self t|self t|self f|self f|self f|t|pid|pid].
  - destruct (new_ok t w Hw Ho) as (w' & E & ? & _). cbn [life_apply]. by rewrite E.
  - eapply answers_impl; [by apply Start_ok|done|done].
  - destruct Ho as ((x & Hx & Hox) & Hc & Hf). apply negb_true_iff, bool_decide_eq_false in Hk0.
    eapply answers_impl; [by apply (Stop_ok self t f x)|done|]. by intros w' (? & _).
  - destruct Ho as ((x & Hx & Hox) & Hc & Hf). apply negb_true_iff, bool_decide_eq_false in Hk0.
    eapply answers_impl; [by apply (Thread_delete_ok self t f x)|done|]. by intros w' (? & _).
  - destruct Ho as ([x Hx] & Hc & Hk). cbn [life_apply]. unfold WrapCurrent. cbn [checks_pass] in Hk0. rewrite Hx in Hk0. apply Z.eqb_eq in Hk0.
    destruct (wrap_ok self t x w Hw Hx Hc Hk Hk0) as (w' & -> & ? & _). done.
  - destruct Ho as (Hk & x & Hx & Hox). cbn [life_apply]. destruct (Unwrap_ok self t x w Hw Hk Hx Hox) as (w' & -> & ? & _). done.
  - destruct Ho as [Hc Hf]. cbn [life_apply]. unfold WrapCurrentThread, CurrentThread. destruct (key_ w !! self) eqn:Hk; [done|].
    destruct (new_wrap_ok self f w Hw Hf Hc Hk) as (w1 & w2 & -> & E & ? & _). cbn [mbind_res]. rewrite E. done.
  - destruct Ho as [Hc Hf]. cbn [life_apply]. unfold UnwrapCurrentThread, CurrentThread. destruct (key_ w !! self) as [t|] eqn:Hk; [|done].
    destruct (lo_key w Hw self t Hk) as (Hs & x & Hx & Hth & Hr). unfold IsOwned, get, IsRunning. rewrite Hx. cbn [of_mem mbind_res].
    rewrite Hth. apply Z.eqb_neq in Hs. rewrite Hs. cbn [negb]. rewrite life_dcheck_true. cbn [mbind_res]. destruct (owned_ x) eqn:Eo; [done|].
    destruct (Unwrap_ok self t x w Hw Hk Hx Eo) as (w' & -> & Hw' & O' & P').
    eapply answers_impl; [eapply (Thread_delete_ok self t f (set_thread false 0 (set_registration None x)))|done|by intros w2 (? & _)]; try done.
    + by rewrite O', lookup_insert_eq.
    + by right.
    + unfold caller. by rewrite P'.
    + rewrite O', lookup_insert_ne; [done|]. congruence.
    + intros Hk'. destruct (lo_key w' Hw' self t Hk') as (Hs' & y & Hy & Hyt & _). rewrite O', lookup_insert_eq in Hy. by simplify_eq/=.
  - destruct Ho as [Hc Hf]. cbn [life_apply]. destruct (Current_ok self f w Hw Hf Hc) as (r & w' & -> & ? & _). done.
  - destruct Ho as [x Hx]. cbn [life_apply]. unfold LifeQuit, get. rewrite Hx. cbn [of_mem mbind_res answers]. eapply (life_put t x); eauto.
  - eapply answers_impl; [by apply PreRun_begin_ok|done|done].
  - by apply PreRun_end_ok.
Qed.
End Keep.

(** A thread that stops itself. *)
Lemma Stop_self self t f x w : objs w !! t = Some x → thread_ x ≠ 0 → key_ w !! self = Some t → Stop true self t f w = Some Aborted.
Proof.
  intros Hx H0 Hk. unfold Stop, LifeQuit, get. rewrite Hx. cbn [of_mem mbind_res]. unfold Join, get, put. cbn [objs set_objs].
  rewrite lookup_insert_eq. cbn [of_mem]. unfold IsRunning. cbn [thread_ set_quitting]. apply Z.eqb_neq in H0. rewrite H0. cbn [negb].
  unfold IsCurrent, CurrentThread. cbn [key_ set_objs]. by rewrite Hk, bool_decide_eq_true_2.
Qed.

(** A check that does not pass ends the process. *)
Lemma life_apply_checked o w : life_ok w → life_use o w → checks_pass o w = false → life_apply true o w = Some Aborted.
Proof.
  intros Hw Ho Hk. destruct o as [t|t created|self t f|self t f|self t|self t|self f|self f|self f|t|pid|pid]; try done; cbn [checks_pass life_apply] in *.
  - destruct Ho as [[x Hx] _]. rewrite Hx in Hk. unfold Start, get. rewrite Hx. cbn [of_mem mbind_res]. unfold IsRunning.
    destruct (thread_ x =? 0); [|done]. destruct created as [|pid]; [done|]. cbn in *. by rewrite Hk.
  - apply negb_false_iff, bool_decide_eq_true in Hk. destruct Ho as ((x & Hx & _) & _).
    destruct (lo_key w Hw self t Hk) as (H0 & x' & Hx' & Hth & _). simplify_eq. by apply (Stop_self (thread_ x) t f x).
  - apply negb_false_iff, bool_decide_eq_true in Hk. destruct Ho as ((x & Hx & _) & _).
    destruct (lo_key w Hw self t Hk) as (H0 & x' & Hx' & Hth & _). simplify_eq.
    unfold Thread_delete. rewrite (Stop_self (thread_ x) t f x) by done. done.
  - destruct Ho as [[x Hx] _]. rewrite Hx in Hk. unfold WrapCurrent, WrapCurrentWithThreadManager, get. rewrite Hx. cbn [of_mem mbind_res]. unfold IsRunning.
    by rewrite Hk.
Qed.


(** ** Scopes *)

(** Deleting an object with no thread that is not registered. *)
Lemma delete_plain self t f x w : objs w !! t = Some x → thread_ x = 0 → fDestroyed_ x = true → task_queue_registration_ x = None →
  ∀ d, Thread_delete d self t f w = Some (Val (set_objs (base.delete t (objs w)) w)).
Proof.
  intros Hx Ht Hd Hr d. unfold Thread_delete, Stop, LifeQuit, get. rewrite Hx. cbn [of_mem mbind_res]. unfold Join, get, put. cbn [objs set_objs].
  rewrite lookup_insert_eq. cbn [of_mem]. unfold IsRunning. cbn [thread_ set_quitting]. rewrite Ht. cbn [Z.eqb negb mbind option_bind mbind_res].
  unfold LifeDestroy, get. cbn [objs set_objs]. rewrite lookup_insert_eq. cbn [of_mem mbind_res fDestroyed_ set_quitting]. rewrite Hd. cbn [mbind_res objs set_objs].
  rewrite lookup_insert_eq. cbn [of_mem mbind_res task_queue_registration_ set_quitting]. rewrite Hr. unfold set_objs. cbn [objs key_ current message_queues_ main_thread_ref_ pthreads].
  by rewrite delete_insert_eq.
Qed.

Lemma erase_first_app t l : t ∉ l → erase_first t (l ++ [t]) = l.
Proof.
  induction l as [|x l IH]; intros Hn; cbn [erase_first app]; [by rewrite Z.eqb_refl|].
  destruct (Z.eqb_spec x t) as [->|]; [set_solver|]. rewrite IH; [done|set_solver].
Qed.

Lemma erase_first_perm t l : t ∈ l → l ≡ₚ erase_first t l ++ [t].
Proof.
  induction l as [|x l IH]; intros Hn; [by apply not_elem_of_nil in Hn|]. cbn [erase_first]. destruct (Z.eqb_spec x t) as [->|].
  - by rewrite Permutation_app_comm.
  - apply elem_of_cons in Hn as [?|Hn]; [done|]. cbn. by rewrite <- IH.
Qed.

Lemma sct_some self t x w : objs w !! t = Some x → task_queue_registration_ x = None →
  SetCurrentThread self (Some t) w =
    Val (World (<[t := set_registration (Some (current w !! self)) x]> (objs w)) (<[self := t]> (key_ w)) (<[self := t]> (current w))
      (message_queues_ w) (main_thread_ref_ w) (pthreads w)).
Proof.
  intros Hx Hr. unfold SetCurrentThread, EnsureIsCurrentTaskQueue, get. rewrite Hx. cbn [of_mem mbind_res]. unfold Setter_new. by rewrite Hr.
Qed.

Lemma sct_none self t x p w : key_ w !! self = Some t → objs w !! t = Some x → task_queue_registration_ x = Some p →
  SetCurrentThread self None w =
    Val (World (<[t := set_registration None x]> (objs w)) (base.delete self (key_ w)) (set_tls self p (current w))
      (message_queues_ w) (main_thread_ref_ w) (pthreads w)).
Proof.
  intros Hk Hx Hr. unfold SetCurrentThread, CurrentThread. rewrite Hk. unfold ClearCurrentTaskQueue, get. rewrite Hx. cbn [of_mem mbind_res]. by rewrite Hr.
Qed.

Lemma sct_nothing self w : key_ w !! self = None → SetCurrentThread self None w = Val w.
Proof.
  intros Hk. unfold SetCurrentThread, CurrentThread. rewrite Hk. cbn. unfold SetCurrentThreadInternal, set_key, set_tls.
  rewrite delete_id by done. by destruct w.
Qed.

(** What an [AutoSocketServerThread] makes of a world. *)
Definition with_auto (self t : Z) (w : world) : world :=
  World (<[t := TObj true 0 false true false (Some None)]>
      (match key_ w !! self with Some o => match objs w !! o with Some x => <[o := set_registration None x]> (objs w) | None => objs w end | None => objs w end))
    (<[self := t]> (key_ w)) (<[self := t]> (current w))
    (match key_ w !! self with Some o => erase_first o (message_queues_ w ++ [t]) | None => message_queues_ w ++ [t] end) (main_thread_ref_ w) (pthreads w).

Lemma AutoSocketServerThread_new_ok self t w : life_ok w → objs w !! t = None →
  AutoSocketServerThread_new self t w = Val (key_ w !! self, with_auto self t w).
Proof.
  intros Hw Hn. pose proof (lo_same w Hw) as Hs. unfold AutoSocketServerThread_new, Thread_new. cbn [mbind_res].
  unfold DoInit, get, put. cbn [objs set_objs]. rewrite lookup_insert_eq. cbn [of_mem mbind_res fInitialized_].
  unfold Add, set_mqs, set_objs. cbn [objs key_ current message_queues_ main_thread_ref_ pthreads set_flags owned_ thread_ quitting task_queue_registration_ fDestroyed_].
  rewrite insert_insert_eq. unfold CurrentThread. cbn [key_].
  destruct (key_ w !! self) as [o|] eqn:Hk.
  - destruct (lo_key w Hw self o Hk) as (_ & x & Hx & _ & Hr). assert (o ≠ t) by congruence.
    rewrite (sct_none self o x None) by (cbn; rewrite ?lookup_insert_ne by done; done). cbn [mbind_res set_tls objs key_ current message_queues_ main_thread_ref_ pthreads].
    rewrite (sct_some self t (TObj true 0 false true false None)) by (cbn; rewrite ?lookup_insert_ne, ?lookup_insert_eq by done; done).
    cbn [mbind_res objs key_ current message_queues_ main_thread_ref_ pthreads]. rewrite lookup_delete_eq. unfold with_auto, Remove, set_mqs. rewrite Hk, Hx.
    cbn [objs key_ current message_queues_ main_thread_ref_ pthreads]. rewrite !insert_delete_eq. do 3 f_equal.
    rewrite (insert_insert_ne (objs w)) by done. by rewrite insert_insert_eq.
  - rewrite sct_nothing by done. cbn [mbind_res]. rewrite (sct_some self t (TObj true 0 false true false None)) by (cbn; rewrite ?lookup_insert_eq; done).
    cbn [mbind_res objs key_ current message_queues_ main_thread_ref_ pthreads]. rewrite Hs, Hk. unfold with_auto. rewrite Hk, Hs, insert_insert_eq. done.
Qed.

Definition after_auto (self t : Z) (w : world) : world :=
  set_mqs (match key_ w !! self with
           | Some o => erase_first t (erase_first o (message_queues_ w ++ [t])) ++ [o]
           | None => erase_first t (message_queues_ w ++ [t])
           end) w.

Lemma AutoSocketServerThread_delete_ok dchecks self t f w : life_ok w → objs w !! t = None →
  AutoSocketServerThread_delete dchecks self t f (key_ w !! self) (with_auto self t w) = Some (Val (after_auto self t w)).
Proof.
  intros Hw Hn. pose proof (lo_same w Hw) as Hs. unfold AutoSocketServerThread_delete, IsCurrent, CurrentThread. cbn [key_ with_auto].
  rewrite lookup_insert_eq, bool_decide_eq_true_2 by done. replace (MessageQueue.dcheck dchecks true) with (Val ()) by (by destruct dchecks). cbv iota beta.
  unfold Stop, LifeQuit, get. cbn [objs with_auto]. rewrite lookup_insert_eq. cbn [of_mem mbind_res]. unfold Join, get, put. cbn [objs set_objs].
  rewrite lookup_insert_eq. cbn [of_mem]. unfold IsRunning. cbn [thread_ set_quitting Z.eqb negb mbind option_bind].
  unfold LifeDestroy, get, put, set_objs. cbn [objs key_ current message_queues_ main_thread_ref_ pthreads]. rewrite lookup_insert_eq.
  cbn [of_mem mbind_res fDestroyed_ set_quitting]. unfold Remove, set_mqs, set_objs. cbn [objs key_ current message_queues_ main_thread_ref_ pthreads].
  rewrite !insert_insert_eq. cbn [set_flags set_quitting owned_ thread_ quitting fInitialized_ fDestroyed_ task_queue_registration_].
  erewrite (sct_none self t) by (cbn; rewrite ?lookup_insert_eq; reflexivity).
  cbn [mbind_res set_tls objs key_ current message_queues_ main_thread_ref_ pthreads set_registration owned_ thread_ quitting fInitialized_ fDestroyed_].
  unfold with_auto, after_auto. cbn [objs key_ current message_queues_ main_thread_ref_ pthreads].
  rewrite !delete_insert_eq, !insert_insert_eq. cbn [set_flags set_quitting set_registration owned_ thread_ quitting fInitialized_ fDestroyed_ task_queue_registration_].
  destruct (key_ w !! self) as [o|] eqn:Hk.
  - destruct (lo_key w Hw self o Hk) as (_ & x & Hx & _ & Hr). assert (o ≠ t) by congruence. rewrite Hx.
    erewrite (sct_some self o) by (cbn; rewrite ?lookup_insert_ne, ?lookup_insert_eq by done; reflexivity).
    cbn [mbind_res objs key_ current message_queues_ main_thread_ref_ pthreads]. rewrite lookup_delete_eq, !insert_delete_eq.
    erewrite (delete_plain self t f) by (cbn; rewrite ?lookup_insert_ne, ?lookup_insert_eq by done; reflexivity).
    unfold set_objs, Add, set_mqs. cbn [objs key_ current message_queues_ main_thread_ref_ pthreads]. do 2 f_equal. f_equal.
    + rewrite (insert_insert_ne _ o t) by done. rewrite delete_insert_eq, insert_insert_eq. rewrite delete_id by (by rewrite lookup_insert_ne).
      apply insert_id. rewrite Hx. f_equal. destruct x. cbn in *. by subst.
    + by rewrite insert_id.
    + rewrite Hs. by rewrite insert_id.
  - rewrite sct_nothing by (cbn; apply lookup_delete_eq). cbn [mbind_res].
    erewrite (delete_plain self t f) by (cbn; rewrite ?lookup_insert_eq; reflexivity).
    unfold set_objs, set_mqs. cbn [objs key_ current message_queues_ main_thread_ref_ pthreads]. do 2 f_equal. f_equal.
    + rewrite delete_insert_eq, delete_id by done. done.
    + by rewrite delete_id.
    + by rewrite Hs, delete_id.
Qed.

(** ** Properties *)

Definition world_new (main : Z) : world := World ∅ ∅ ∅ [] main ∅.

Lemma world_new_ok main : life_ok (world_new main).
Proof. split; cbn; try done; try (intros *; by rewrite lookup_empty); [constructor|]. intros t. rewrite lookup_empty. split; [set_solver|by intros [? ?]]. Qed.

Section Histories.
Context (dchecks : bool).

(** Operations in any order, by any threads, each of correct use and each with a
    result. *)
Inductive life_runs : world → list life_op → world → Prop :=
  | lr_nil w : life_runs w [] w
  | lr_cons o os w w1 w2 : life_op_ok dchecks o w → life_apply dchecks o w = Some (Val w1) → life_runs w1 os w2 → life_runs w (o :: os) w2.

(** With the checks on, correct use ends at the check that does not pass. *)
Lemma life_step_ok o w : life_ok w → life_op_ok dchecks o w →
  if checks_pass o w then answers (life_apply dchecks o w) True life_ok else dchecks = true ∧ life_apply dchecks o w = Some Aborted.
Proof.
  intros Hw [Hu Hd]. destruct (checks_pass o w) eqn:Hk; [by apply life_apply_ok|].
  destruct dchecks; [|by specialize (Hd eq_refl)]. split; [done|]. by apply life_apply_checked.
Qed.

Lemma life_runs_ok w os w' : life_runs w os w' → life_ok w → life_ok w'.
Proof.
  induction 1 as [|o os w w1 w2 Ho E _ IH]; [done|]. intros Hw. apply IH. pose proof (life_step_ok o w Hw Ho) as Ha.
  rewrite E in Ha. destruct (checks_pass o w); [done|by destruct Ha].
Qed.

(** C29: in any history of threads being made, started, told to quit, wrapped,
    stopped and deleted within the contract of [life_op_ok], with the system
    threads starting and ending at any time, in builds with and without the
    checks: the current thread and the current task queue of every system thread
    agree, no object is current on two of them, what is current or registered
    with the manager exists, and no object is registered twice. The next call
    uses no object that is gone; a build with the checks ends the process exactly
    when what the checks test does not hold, a build without them relies on the
    caller for it. [Stop] and the destructor wait exactly until the system thread
    has ended. *)
Theorem thread_life main os w :
  life_runs (world_new main) os w →
  (∀ o, current w !! o = CurrentThread o w) ∧
  (∀ o o' t, CurrentThread o w = Some t → CurrentThread o' w = Some t → o = o') ∧
  (∀ o t, CurrentThread o w = Some t → is_Some (objs w !! t)) ∧
  NoDup (message_queues_ w) ∧ (∀ t, t ∈ message_queues_ w ↔ is_Some (objs w !! t)) ∧
  (∀ o, life_op_ok dchecks o w →
    if checks_pass o w then answers (life_apply dchecks o w) True life_ok
    else dchecks = true ∧ life_apply dchecks o w = Some Aborted) ∧
  (∀ self t f x, life_use (LStop self t f) w → checks_pass (LStop self t f) w = true → objs w !! t = Some x → thread_ x ≠ 0 →
    answers (life_apply dchecks (LStop self t f) w) (pthreads w !! thread_ x ≠ Some OSEnd)
      (λ w', pthreads w' !! thread_ x = Some OSEnd) ∧
    answers (life_apply dchecks (LDelete self t f) w) (pthreads w !! thread_ x ≠ Some OSEnd)
      (λ w', pthreads w' !! thread_ x = Some OSEnd ∧ objs w' !! t = None)).
Proof.
  intros Hr. pose proof (life_runs_ok _ _ _ Hr (world_new_ok main)) as Hw. unfold CurrentThread. split_and!.
  - by rewrite (lo_same w Hw).
  - intros o o' t H1 H2. destruct (lo_key w Hw o t H1) as (_ & x & Hx & <- & _), (lo_key w Hw o' t H2) as (_ & x' & Hx' & <- & _). congruence.
  - intros o t Ht. destruct (lo_key w Hw o t Ht) as (_ & x & Hx & _). by eexists.
  - apply (lo_nodup w Hw).
  - apply (lo_listed w Hw).
  - intros o Ho. by apply life_step_ok.
  - intros self t f x ((x' & Hx' & Hox) & Hc & Hf) Hk%negb_true_iff%bool_decide_eq_false Hx Ht. assert (x' = x) as -> by congruence. cbn [life_apply]. split.
    + eapply answers_impl; [by apply (Stop_ok dchecks self t f x)|done|]. intros w' (_ & _ & _ & He). auto.
    + eapply answers_impl; [by apply (Thread_delete_ok dchecks self t f x)|done|]. intros w' (_ & Hd & He). auto.
Qed.
End Histories.

(** Thread 10 is started on system thread 7 by the main thread 1, which the first
    [Current] wraps as object 20; it begins, is told to quit, ends, is stopped,
    started again on 8, and deleted. *)
Definition demo_ops : list life_op :=
  [LNew 10; LStart 10 (inr 7); LBegin 7; LCurrent 1 20; LQuit 10; LEnd 7; LStop 1 10 30;
   LStart 10 (inr 8); LBegin 8; LQuit 10; LEnd 8; LDelete 1 10 30].
Definition demo_life (n : nat) : world :=
  foldl (λ w o, match life_apply false o w with Some (Val w) => w | _ => w end) (world_new 1) (take n demo_ops).

Lemma demo_runs (d : bool) : life_runs d (world_new 1) demo_ops (demo_life 12).
Proof.
  assert (∀ o w, life_use o w → checks_pass o w = true → life_op_ok d o w) as Hok by (by split).
  unfold demo_ops.
  eapply lr_cons; [apply Hok; reflexivity|by destruct d; vm_compute; reflexivity|].
  eapply lr_cons; [apply Hok; [split; [by eexists|split; reflexivity]|reflexivity]|by destruct d; vm_compute; reflexivity|].
  eapply lr_cons; [apply Hok; [by eexists|reflexivity]|by destruct d; vm_compute; reflexivity|].
  eapply lr_cons; [apply Hok; [split; [split; [done|by left]|reflexivity]|reflexivity]|by destruct d; vm_compute; reflexivity|].
  eapply lr_cons; [apply Hok; [by eexists|reflexivity]|by destruct d; vm_compute; reflexivity|].
  eapply lr_cons; [apply Hok; [by eexists|reflexivity]|by destruct d; vm_compute; reflexivity|].
  eapply lr_cons; [apply Hok; [split; [eexists; split; [reflexivity|by left]|split; [split; [done|by left]|reflexivity]]|vm_compute; reflexivity]
    |by destruct d; vm_compute; reflexivity|].
  eapply lr_cons; [apply Hok; [split; [by eexists|split; reflexivity]|reflexivity]|by destruct d; vm_compute; reflexivity|].
  eapply lr_cons; [apply Hok; [by eexists|reflexivity]|by destruct d; vm_compute; reflexivity|].
  eapply lr_cons; [apply Hok; [by eexists|reflexivity]|by destruct d; vm_compute; reflexivity|].
  eapply lr_cons; [apply Hok; [by eexists|reflexivity]|by destruct d; vm_compute; reflexivity|].
  eapply lr_cons; [apply Hok; [split; [eexists; split; [reflexivity|by left]|split; [split; [done|by left]|reflexivity]]|vm_compute; reflexivity]
    |by destruct d; vm_compute; reflexivity|].
  vm_compute. apply lr_nil.
Qed.

Lemma thread_life_witness :
  life_runs false (world_new 1) demo_ops (demo_life 12) ∧ objs (demo_life 12) !! 10 = None ∧
  pthreads (demo_life 12) !! 8 = Some OSEnd ∧ CurrentThread 1 (demo_life 12) = Some 20 ∧ NoDup (message_queues_ (demo_life 12)).
Proof.
  destruct (thread_life false 1 demo_ops (demo_life 12) (demo_runs false)) as (_ & _ & _ & Hnd & _).
  split; [apply demo_runs|]. split; [vm_compute; reflexivity|]. split; [vm_compute; reflexivity|].
  split; [vm_compute; reflexivity|exact Hnd].
Defined.

(** A thread that installs itself over the current one restores, when its
    scope ends, the current thread and task queue and all objects as they were,
    and the manager lists the same queues again. *)
Theorem auto_thread_restores dchecks self t f w :
  life_ok w → objs w !! t = None →
  ∃ old w1 w2, AutoSocketServerThread_new self t w = Val (old, w1) ∧ CurrentThread self w1 = Some t ∧
    AutoSocketServerThread_delete dchecks self t f old w1 = Some (Val w2) ∧
    objs w2 = objs w ∧ key_ w2 = key_ w ∧ current w2 = current w ∧ message_queues_ w2 ≡ₚ message_queues_ w.
Proof.
  intros Hw Hn. exists (key_ w !! self), (with_auto self t w), (after_auto self t w).
  split_and!; [by apply AutoSocketServerThread_new_ok|apply lookup_insert_eq|by apply AutoSocketServerThread_delete_ok|done..|].
  assert (t ∉ message_queues_ w) as Ht by (rewrite (lo_listed w Hw), Hn; by intros [? ?]).
  unfold after_auto. cbn [message_queues_ set_mqs]. destruct (key_ w !! self) as [o|] eqn:Hk; [|by rewrite erase_first_app].
  destruct (lo_key w Hw self o Hk) as (_ & x & Hx & _). assert (o ∈ message_queues_ w) as Ho by (rewrite (lo_listed w Hw), Hx; by eexists).
  assert (o ≠ t) as Hne by congruence.
  assert (∀ l, o ∈ l → erase_first o (l ++ [t]) = erase_first o l ++ [t]) as He.
  { clear -Hne. induction l as [|y l IH]; intros Ho; [by apply not_elem_of_nil in Ho|]. cbn [erase_first app].
    destruct (Z.eqb_spec y o); [done|]. apply elem_of_cons in Ho as [?|Ho]; [done|]. by rewrite IH. }
  rewrite He by done. rewrite erase_first_app; [by rewrite <- erase_first_perm|].
  destruct (erase_first_spec o _ (lo_nodup w Hw)) as [_ E2]. rewrite E2. tauto.
Qed.

Lemma auto_thread_restores_witness :
  life_ok (world_new 1) ∧ ∃ old w1 w2, AutoSocketServerThread_new 1 30 (world_new 1) = Val (old, w1) ∧ CurrentThread 1 w1 = Some 30 ∧
    AutoSocketServerThread_delete true 1 30 40 old w1 = Some (Val w2) ∧
    objs w2 = ∅ ∧ key_ w2 = ∅ ∧ current w2 = ∅ ∧ message_queues_ w2 ≡ₚ [].
Proof. split; [apply world_new_ok|]. exact (auto_thread_restores true 1 30 40 (world_new 1) (world_new_ok 1) eq_refl). Defined.

(** A thread made current twice on the same system thread: the old registration
    is deleted after the new one was made, and takes the task queue with it. *)
Example set_current_twice :
  (λ r, match r with Val w => Some (CurrentThread 1 w, current w !! 1) | _ => None end)
    (let* w := Thread_new 10 true (world_new 1) in
     let* w := SetCurrentThread 1 (Some 10) w in
     SetCurrentThread 1 (Some 10) w) = Some (Some 10, None).
Proof. reflexivity. Qed.

(** A thread that was never started counts as processing messages. *)
Example never_started_processes :
  (let* w := Thread_new 10 true (world_new 1) in IsProcessingMessagesForTesting 1 10 w) = Val true.
Proof. reflexivity. Qed.

(** Without the checks an object can be wrapped on two system threads and is
    then current on both. *)
Example wrapped_twice :
  (λ r, match r with Val (_, w) => Some (CurrentThread 1 w, CurrentThread 2 w) | _ => None end)
    (let* w := Thread_new 10 true (world_new 1) in
     let* '(_, w) := WrapCurrent false 1 10 w in WrapCurrent false 2 10 w) = Some (Some 10, Some 10).
Proof. reflexivity. Qed.
