(* ===== verification/Synchronization.v ===== *)
(** * Locks, sequence checkers and platform threads
      (rtc_base/synchronization/mutex.h, mutex.cc, mutex_pthread.h,
      sequence_checker_internal.cc, rtc_base/platform_thread.h, platform_thread.cc)

    The mutex with its record of the owner, the spin lock of global variables,
    the checker that an object is used on one sequence, and the handles of worker
    threads that are moved between objects. The theorems are that the spin lock
    excludes all but one thread in every interleaving, that between two detaches
    a checker accepts the callers of one sequence only, and that every thread
    spawned to be joined is joined exactly once, by the one object that holds its
    handle. *)

From S2P Require Import Prelude MessageQueue.

Section Sync.
Context (RTC_DCHECK_IS_ON : bool).
Notation dcheck := (MessageQueue.dcheck RTC_DCHECK_IS_ON).

(** ** [MutexImpl] *)

(** The mutex of pthread, which does not nest, and the record of the owner. *)
Record Mutex := MkMutex { locked_by : option Z; is_owned_ : bool; latest_owner_ : Z }.

(** [OwnerRecord] is empty without the checks. *)
Definition SetOwner (self : Z) (m : Mutex) : Mutex := if RTC_DCHECK_IS_ON then MkMutex (locked_by m) true self else m.
Definition ClearOwner (m : Mutex) : Mutex := if RTC_DCHECK_IS_ON then MkMutex (locked_by m) false (latest_owner_ m) else m.
Definition AssertOwned (self : Z) (m : Mutex) : res unit :=
  if RTC_DCHECK_IS_ON then
    let* _ := c_assert (is_owned_ m) in c_assert (latest_owner_ m =? self)
  else Val ().

(** [None]: it blocks. *)
Definition Lock (self : Z) (m : Mutex) : option Mutex :=
  match locked_by m with
  | None => Some (SetOwner self (MkMutex (Some self) (is_owned_ m) (latest_owner_ m)))
  | Some _ => None
  end.
Definition TryLock (self : Z) (m : Mutex) : bool * Mutex :=
  match locked_by m with
  | None => (true, SetOwner self (MkMutex (Some self) (is_owned_ m) (latest_owner_ m)))
  | Some _ => (false, m)
  end.
Definition AssertHeld := AssertOwned.
Definition Unlock (m : Mutex) : Mutex :=
  let m := ClearOwner m in MkMutex None (is_owned_ m) (latest_owner_ m).

(** ** [GlobalMutex] *)

(** [exchange] answers with the old value. *)
Definition exchange (v old : Z) : Z * Z := (old, v).

(** One turn of the loop of [Lock]: true when the lock was taken. *)
Definition global_Lock_turn (mutex_locked_ : Z) : bool * Z :=
  let '(old, v) := exchange 1 mutex_locked_ in (old =? 0, v).
Definition global_Unlock (mutex_locked_ : Z) : res Z :=
  let '(old, v) := exchange 0 mutex_locked_ in
  let* _ := dcheck (old =? 1) in Val v.

(** ** [SequenceCheckerImpl] *)

(** Where a call comes from: its task queue, if any, its thread, and the queue of
    the system, which only one system has. *)
Record seq_ctx := SeqCtx { cur_queue : option Z; cur_thread : Z; cur_system_queue : option Z }.

Record checker := Checker { attached_ : bool; valid : seq_ctx }.

Definition SequenceCheckerImpl_new (c : seq_ctx) : checker := Checker true c.

Definition opt_eqb (a b : option Z) : bool :=
  match a, b with Some x, Some y => x =? y | None, None => true | _, _ => false end.
Definition is_some (a : option Z) : bool := match a with Some _ => true | None => false end.

Definition seq_IsCurrent (c : seq_ctx) (k : checker) : bool * checker :=
  if negb (attached_ k) then (true, Checker true c)
  else
    let v := valid k in
    if is_some (cur_queue v) || is_some (cur_queue c) then (opt_eqb (cur_queue v) (cur_queue c), k)
    else if is_some (cur_system_queue v) && opt_eqb (cur_system_queue v) (cur_system_queue c) then (true, k)
    else (cur_thread v =? cur_thread c, k).

Definition Detach (k : checker) : checker := Checker false (valid k).

(** The last line of [ExpectationToString]; [None] when the checker is not
    attached. *)
Inductive mismatch := MQueue | MSystemQueue | MThread | MNothing.
Definition ExpectationToString (c : seq_ctx) (k : checker) : option mismatch :=
  if negb (attached_ k) then None
  else
    let v := valid k in
    Some (if (is_some (cur_queue v) || is_some (cur_queue c)) && negb (opt_eqb (cur_queue v) (cur_queue c)) then MQueue
          else if is_some (cur_system_queue v) && negb (opt_eqb (cur_system_queue v) (cur_system_queue c)) then MSystemQueue
          else if negb (cur_thread v =? cur_thread c) then MThread else MNothing).

(** ** [PlatformThread] *)

Inductive ThreadPriority := kLow | kNormal | kHigh | kRealtime.

(** The priority asked of the system, between its limits for [SCHED_FIFO]. *)
Definition sched_priority (min_prio max_prio : Z) (p : ThreadPriority) : res (option Z) :=
  if (min_prio =? -1) || (max_prio =? -1) then Val None
  else if max_prio - min_prio <=? 2 then Val None
  else
    let top_prio := max_prio - 1 in
    let low_prio := min_prio + 1 in
    Val (Some (match p with
               | kLow => low_prio
               | kNormal => (low_prio + top_prio - 1) `quot` 2
               | kHigh => Z.max (top_prio - 2) low_prio
               | kRealtime => top_prio
               end)).

(** [ret] is the answer of [pthread_setschedparam]. *)
Definition SetPriority (min_prio max_prio : Z) (p : ThreadPriority) (ret : Z) : res bool :=
  let* r := sched_priority min_prio max_prio p in
  Val (match r with None => false | Some _ => ret =? 0 end).

(** An object with its handle; the system with the threads that run, whether
    they can be joined, and those joined. *)
Record pthread_obj := PObj { handle_ : option Z; joinable_ : bool }.
Record psys := PSys { pobjs : gmap Z pthread_obj; spawned : gmap Z bool; ended : gset Z; joined : list Z }.

Definition set_pobjs (m : gmap Z pthread_obj) (s : psys) : psys := PSys m (spawned s) (ended s) (joined s).

(** [SpawnThread]: [created] is the answer of [pthread_create]. *)
Definition SpawnThread (name : list Z) (joinable : bool) (created : Z + Z) (s : psys) : res (pthread_obj * psys) :=
  let* _ := dcheck (negb (Z.of_nat (length name) =? 0)) in
  let* _ := dcheck (Z.of_nat (length name) <? 64) in
  match created with
  | inl error => Aborted
  | inr h => Val (PObj (Some h) joinable, PSys (pobjs s) (<[h := joinable]> (spawned s)) (ended s) (joined s))
  end.
Definition SpawnJoinable (name : list Z) := SpawnThread name true.
Definition SpawnDetached (name : list Z) := SpawnThread name false.

(** [None] while the thread has not ended. *)
Definition Finalize (o : Z) (s : psys) : option (res psys) :=
  match pobjs s !! o with
  | None => Some Undef
  | Some x =>
      match handle_ x with
      | None => Some (Val s)
      | Some h =>
          let s' := set_pobjs (<[o := PObj None (joinable_ x)]> (pobjs s)) s in
          if joinable_ x then
            if bool_decide (h ∈ ended s) then
              Some (let* _ := c_assert (bool_decide (h ∉ joined s)) in
                    Val (PSys (pobjs s') (spawned s) (ended s) (joined s ++ [h])))
            else None
          else Some (Val s')
      end
  end.

(** The move constructor into the new object [o]. *)
Definition move_new (o rhs : Z) (s : psys) : res psys :=
  let* x := of_mem (pobjs s !! rhs) in
  Val (set_pobjs (<[rhs := PObj None (joinable_ x)]> (<[o := x]> (pobjs s))) s).

Definition move_assign (o rhs : Z) (s : psys) : option (res psys) :=
  r ← Finalize o s;
  Some (let* s := r in
        let* x := of_mem (pobjs s !! rhs) in
        let s := set_pobjs (<[o := x]> (pobjs s)) s in
        Val (set_pobjs (<[rhs := PObj None (joinable_ x)]> (pobjs s)) s)).

Definition PlatformThread_delete (o : Z) (s : psys) : option (res psys) :=
  r ← Finalize o s;
  Some (let* s := r in Val (set_pobjs (base.delete o (pobjs s)) s)).

Definition pthread_empty (x : pthread_obj) : bool := negb (is_some (handle_ x)).
Definition GetHandle (x : pthread_obj) : option Z := handle_ x.
End Sync.

(** ** The spin lock in every interleaving *)

(** The lock and the threads that hold it. *)
Inductive global_step (dchecks : bool) : Z * gset Z → res (Z * gset Z) → Prop :=
  | gl_turn self v hs : self ∉ hs →
      global_step dchecks (v, hs) (Val ((global_Lock_turn v).2, if (global_Lock_turn v).1 then {[self]} ∪ hs else hs))
  | gl_unlock self v hs : self ∈ hs →
      global_step dchecks (v, hs) (let* v := global_Unlock dchecks v in Val (v, hs ∖ {[self]})).

Inductive global_runs (dchecks : bool) : res (Z * gset Z) → Prop :=
  | gr_start : global_runs dchecks (Val (0, ∅))
  | gr_step s r : global_runs dchecks (Val s) → global_step dchecks s r → global_runs dchecks r.

Definition global_ok (s : Z * gset Z) : Prop := (s.1 = 0 ∧ s.2 = ∅) ∨ (s.1 = 1 ∧ ∃ h, s.2 = {[h]}).

Lemma global_step_ok dchecks s r : global_ok s → global_step dchecks s r → ∃ s', r = Val s' ∧ global_ok s'.
Proof.
  intros Hs Hr. destruct Hr as [self v hs Hn|self v hs Hin].
  - eexists. split; [done|]. destruct Hs as [[E1 E2]|[E1 [h E2]]]; cbn in E1, E2; subst; right; cbn; [|by eauto].
    split; [done|]. exists self. set_solver.
  - destruct Hs as [[E1 E2]|[E1 [h E2]]]; cbn in E1, E2; subst; [by apply elem_of_empty in Hin|]. apply elem_of_singleton in Hin as ->.
    exists (0, {[h]} ∖ {[h]}). split; [by destruct dchecks|]. left. cbn. split; [done|]. set_solver.
Qed.

(** ** The sequence of a call *)

(** Calls are of one sequence when they share the task queue, or the thread when
    there is none. *)
Definition sequence_of (c : seq_ctx) : Z + Z := match cur_queue c with Some q => inl q | None => inr (cur_thread c) end.

(** The answers of a checker to calls that come one after the other. *)
Fixpoint checks (cs : list seq_ctx) (k : checker) : list bool * checker :=
  match cs with
  | [] => ([], k)
  | c :: cs => let '(b, k) := seq_IsCurrent c k in let '(bs, k) := checks cs k in (b :: bs, k)
  end.

Definition same_seq (a b : seq_ctx) : bool := bool_decide (sequence_of a = sequence_of b).

Lemma attached_answer a c : cur_system_queue a = None → seq_IsCurrent c (Checker true a) = (same_seq a c, Checker true a).
Proof.
  intros Ha. unfold seq_IsCurrent, same_seq, sequence_of. cbn [attached_ negb valid]. rewrite Ha. cbn [is_some andb].
  destruct (cur_queue a) as [q|], (cur_queue c) as [q'|]; cbn; f_equal.
  - destruct (Z.eqb_spec q q') as [->|]; [by rewrite bool_decide_eq_true_2|rewrite bool_decide_eq_false_2; congruence].
  - destruct (Z.eqb_spec (cur_thread a) (cur_thread c)) as [->|]; [by rewrite bool_decide_eq_true_2|rewrite bool_decide_eq_false_2; congruence].
Qed.

Lemma attached_checks a cs : cur_system_queue a = None → checks cs (Checker true a) = (same_seq a <$> cs, Checker true a).
Proof.
  intros Ha. induction cs as [|c cs IH]; [done|]. cbn [checks fmap list_fmap]. rewrite attached_answer by done. by rewrite IH.
Qed.

(** ** Who holds the handle of a thread *)

Record handles_ok (s : psys) : Prop := {
  ho_unique : ∀ o o' x x' h, pobjs s !! o = Some x → pobjs s !! o' = Some x' → handle_ x = Some h → handle_ x' = Some h → o = o';
  ho_held : ∀ o x h, pobjs s !! o = Some x → handle_ x = Some h → spawned s !! h = Some (joinable_ x) ∧ h ∉ joined s;
  ho_joined : ∀ h, h ∈ joined s → spawned s !! h = Some true ∧ h ∈ ended s;
  ho_once : NoDup (joined s);
  ho_kept : ∀ h, spawned s !! h = Some true → h ∈ joined s ∨ ∃ o x, pobjs s !! o = Some x ∧ handle_ x = Some h
}.

Inductive handle_op :=
  | HSpawn (o : Z) (name : list Z) (joinable : bool) (created : Z + Z) | HEnd (h : Z) | HFinalize (o : Z)
  | HMove (o rhs : Z) | HAssign (o rhs : Z) | HDelete (o : Z).

Definition handle_apply (dchecks : bool) (op : handle_op) (s : psys) : option (res psys) :=
  match op with
  | HSpawn o name j created => Some (let* '(x, s) := SpawnThread dchecks name j created s in Val (set_pobjs (<[o := x]> (pobjs s)) s))
  | HEnd h => Some (Val (PSys (pobjs s) (spawned s) ({[h]} ∪ ended s) (joined s)))
  | HFinalize o => Finalize o s
  | HMove o rhs => Some (move_new o rhs s)
  | HAssign o rhs => move_assign o rhs s
  | HDelete o => PlatformThread_delete o s
  end.

(** Objects that exist are used, new ones have new addresses, threads new names. *)
Definition handle_op_ok (op : handle_op) (s : psys) : Prop :=
  match op with
  | HSpawn o _ _ created => pobjs s !! o = None ∧ match created with inr h => spawned s !! h = None | _ => True end
  | HEnd h => True
  | HFinalize o | HDelete o => is_Some (pobjs s !! o)
  | HMove o rhs => pobjs s !! o = None ∧ is_Some (pobjs s !! rhs)
  | HAssign o rhs => is_Some (pobjs s !! o) ∧ is_Some (pobjs s !! rhs)
  end.

Lemma Finalize_ok o s : handles_ok s → is_Some (pobjs s !! o) →
  match Finalize o s with
  | None => True
  | Some r => ∃ s', r = Val s' ∧ handles_ok s' ∧ (∃ j, pobjs s' = <[o := PObj None j]> (pobjs s)) ∧ spawned s' = spawned s
  end.
Proof.
  intros [H1 H2 H3 H4 H5] [x Hx]. unfold Finalize. rewrite Hx. destruct (handle_ x) as [h|] eqn:Eh.
  2:{ exists s. split_and!; try done. exists (joinable_ x). rewrite insert_id; [done|]. rewrite Hx. destruct x; cbn in *. by subst. }
  destruct (H2 o x h Hx Eh) as [Hsp Hnj].
  assert (∀ o' x', <[o := PObj None (joinable_ x)]> (pobjs s) !! o' = Some x' → ∀ h', handle_ x' = Some h' → pobjs s !! o' = Some x' ∧ h' ≠ h) as Hold.
  { intros o' x' Ho' h' Hh'. apply lookup_insert_Some in Ho' as [[<- <-]|[Hne Ho']]; [done|]. split; [done|]. intros ->. by destruct (Hne (H1 o o' x x' h Hx Ho' Eh Hh')). }
  destruct (joinable_ x) eqn:Ej.
  - case_bool_decide as He; [|done]. rewrite bool_decide_eq_true_2 by done. cbn [c_assert mbind_res]. eexists. split; [done|].
    split_and!; [|by eexists|done]. split; cbn [pobjs spawned ended joined set_pobjs].
    + intros o1 o2 x1 x2 h' E1 E2 F1 F2. apply (Hold _ _ E1) in F1 as E1'. apply (Hold _ _ E2) in F2 as E2'. eapply H1; [apply E1'|apply E2'|done|done].
    + intros o' x' h' E' F'. destruct (Hold _ _ E' _ F') as [E'' Hne]. destruct (H2 _ _ _ E'' F') as [? ?]. split; [done|]. set_solver.
    + intros h' [Hh'| ->%list_elem_of_singleton]%elem_of_app; [by apply H3|done].
    + apply NoDup_app. split_and!; [done| |apply NoDup_singleton]. intros y Hy ->%list_elem_of_singleton. done.
    + intros h' Hh'. destruct (decide (h' = h)) as [->|Hne]; [left; set_solver|]. destruct (H5 h' Hh') as [?|(o' & x' & E' & F')]; [left; set_solver|].
      right. exists o', x'. split; [|done]. rewrite lookup_insert_ne; [done|]. intros ->. congruence.
  - eexists. split; [done|]. split_and!; [|by eexists|done]. split; cbn [pobjs spawned ended joined set_pobjs]; try done.
    + intros o1 o2 x1 x2 h' E1 E2 F1 F2. apply (Hold _ _ E1) in F1 as E1'. apply (Hold _ _ E2) in F2 as E2'. eapply H1; [apply E1'|apply E2'|done|done].
    + intros o' x' h' E' F'. destruct (Hold _ _ E' _ F') as [E'' Hne]. by destruct (H2 _ _ _ E'' F') as [? ?].
    + intros h' Hh'. destruct (H5 h' Hh') as [?|(o' & x' & E' & F')]; [by left|].
      right. exists o', x'. split; [|done]. rewrite lookup_insert_ne; [done|]. intros ->. congruence.
Qed.

(** A handle goes from [rhs] to an object that holds none. *)
Lemma move_ok o rhs x s : handles_ok s → pobjs s !! rhs = Some x → (∀ y, pobjs s !! o = Some y → handle_ y = None) →
  handles_ok (set_pobjs (<[rhs := PObj None (joinable_ x)]> (<[o := x]> (pobjs s))) s).
Proof.
  intros [H1 H2 H3 H4 H5] Hx Ho.
  assert (∀ o' x' h', <[rhs := PObj None (joinable_ x)]> (<[o := x]> (pobjs s)) !! o' = Some x' → handle_ x' = Some h' →
    (o' = o ∧ x' = x ∧ o ≠ rhs) ∨ (pobjs s !! o' = Some x' ∧ o' ≠ o ∧ o' ≠ rhs)) as Hold.
  { intros o' x' h' E F. apply lookup_insert_Some in E as [[<- <-]|[? E]]; [done|]. apply lookup_insert_Some in E as [[<- <-]|[? E]]; [left|right]; auto. }
  split; cbn [pobjs spawned ended joined set_pobjs]; try done.
  - intros o1 o2 x1 x2 h' E1 E2 F1 F2. destruct (Hold _ _ _ E1 F1) as [(-> & -> & ?)|(E1' & ? & Hr1)], (Hold _ _ _ E2 F2) as [(-> & -> & ?)|(E2' & ? & Hr2)]; try done.
    + destruct (Hr2 (H1 _ _ _ _ _ E2' Hx F2 F1)).
    + destruct (Hr1 (H1 _ _ _ _ _ E1' Hx F1 F2)).
    + by eapply H1.
  - intros o' x' h' E F. destruct (Hold _ _ _ E F) as [(-> & -> & ?)|(E' & _)]; eauto.
  - intros h' Hh'. destruct (H5 h' Hh') as [?|(o' & x' & E' & F')]; [by left|right].
    destruct (decide (o' = rhs)) as [->|Hne].
    + assert (x' = x) as -> by congruence. destruct (decide (o = rhs)) as [->|]; [specialize (Ho _ Hx); congruence|].
      exists o, x. rewrite lookup_insert_ne, lookup_insert_eq by done. done.
    + exists o', x'. rewrite lookup_insert_ne by done. rewrite lookup_insert_ne; [done|]. intros ->. specialize (Ho _ E'). congruence.
Qed.

Definition handle_answer (r : option (res psys)) : Prop :=
  match r with None | Some Aborted => True | Some (Val s) => handles_ok s | _ => False end.

Lemma dcheck_cases d b : MessageQueue.dcheck d b = Val () ∨ MessageQueue.dcheck d b = Aborted.
Proof. destruct d, b; auto. Qed.

Lemma handle_apply_ok dchecks op s : handles_ok s → handle_op_ok op s → handle_answer (handle_apply dchecks op s).
Proof.
  intros Hs Ho. destruct op as [o name j created|h|o|o rhs|o rhs|o]; cbn [handle_apply handle_op_ok] in *.
  - destruct Ho as [Hn Hc]. unfold SpawnThread.
    destruct (dcheck_cases dchecks (negb (Z.of_nat (length name) =? 0))) as [-> | ->]; [|done]. cbn [mbind_res].
    destruct (dcheck_cases dchecks (Z.of_nat (length name) <? 64)) as [-> | ->]; [|done]. cbn [mbind_res].
    destruct created as [e|h]; [done|]. cbn. destruct Hs as [H1 H2 H3 H4 H5].
    assert (∀ o' x' h', <[o := PObj (Some h) j]> (pobjs s) !! o' = Some x' → handle_ x' = Some h' →
      (o' = o ∧ h' = h ∧ x' = PObj (Some h) j) ∨ (pobjs s !! o' = Some x' ∧ h' ≠ h)) as Hold.
    { intros o' x' h' E F. apply lookup_insert_Some in E as [[<- <-]|[? E]]; [left; cbn in F; by simplify_eq|right]. split; [done|].
      intros ->. destruct (H2 _ _ _ E F) as [? _]. congruence. }
    split; cbn [pobjs spawned ended joined set_pobjs]; try done.
    + intros o1 o2 x1 x2 h' G1 G2 F1 F2. destruct (Hold _ _ _ G1 F1) as [(-> & -> & _)|[G1' ?]], (Hold _ _ _ G2 F2) as [(-> & ? & _)|[G2' ?]]; try done. by eapply H1.
    + intros o' x' h' E F. destruct (Hold _ _ _ E F) as [(-> & -> & ->)|[E' Hne]].
      * rewrite lookup_insert_eq. split; [done|]. intros Hj. destruct (H3 _ Hj) as [? _]. congruence.
      * rewrite lookup_insert_ne by done. eauto.
    + intros h' Hj. destruct (H3 _ Hj) as [? ?]. split; [|done]. rewrite lookup_insert_ne; congruence.
    + intros h' Hh'. apply lookup_insert_Some in Hh' as [[<- ->]|[Hne Hh']].
      * right. exists o, (PObj (Some h) true). by rewrite lookup_insert_eq.
      * destruct (H5 h' Hh') as [?|(o' & x' & E' & F')]; [by left|right]. exists o', x'. split; [|done]. rewrite lookup_insert_ne; [done|]. congruence.
  - destruct Hs as [H1 H2 H3 H4 H5]. split; cbn; try done. intros h' Hj. destruct (H3 _ Hj). set_solver.
  - pose proof (Finalize_ok o s Hs Ho) as Hf. destruct (Finalize o s) as [r|]; [|done]. by destruct Hf as (s' & -> & ? & _).
  - destruct Ho as [Hn [x Hx]]. unfold move_new. rewrite Hx. cbn. apply move_ok; [done|done|]. intros y Hy. congruence.
  - destruct Ho as [Hn [x Hx]]. unfold move_assign. pose proof (Finalize_ok o s Hs Hn) as Hf. destruct (Finalize o s) as [r|]; [|done].
    destruct Hf as (s' & -> & Hs' & [j Hp] & _). cbn [mbind option_bind mbind_res].
    assert (∃ x', pobjs s' !! rhs = Some x') as [x' Hx'].
    { rewrite Hp. destruct (decide (o = rhs)) as [->|]; [rewrite lookup_insert_eq|rewrite lookup_insert_ne by done]; by eexists. }
    rewrite Hx'. cbn. apply (move_ok o rhs x' s'); [done|done|]. intros y Hy. rewrite Hp, lookup_insert_eq in Hy. by simplify_eq.
  - unfold PlatformThread_delete. pose proof (Finalize_ok o s Hs Ho) as Hf. destruct (Finalize o s) as [r|]; [|done].
    destruct Hf as (s' & -> & Hs' & [j Hp] & _). cbn. destruct Hs' as [H1 H2 H3 H4 H5]. split; cbn; try done.
    + intros o1 o2 x1 x2 h' [_ E1]%lookup_delete_Some [_ E2]%lookup_delete_Some F1 F2. by eapply H1.
    + intros o' x' h' [_ E]%lookup_delete_Some F. eauto.
    + intros h' Hh'. destruct (H5 h' Hh') as [?|(o' & x' & E' & F')]; [by left|right]. exists o', x'. split; [|done]. rewrite lookup_delete_ne; [done|].
      intros ->. rewrite Hp, lookup_insert_eq in E'. by simplify_eq.
Qed.

(** ** Properties *)

(** In every interleaving of threads that take and release the spin lock at
    most one holds it, a release is never the one of a free lock, and a thread
    that finds it free takes it at once. *)
Theorem global_mutex_excludes dchecks r :
  global_runs dchecks r → ∃ v hs, r = Val (v, hs) ∧ (∀ a b, a ∈ hs → b ∈ hs → a = b) ∧ ((global_Lock_turn v).1 = true ↔ hs = ∅).
Proof.
  intros Hr. assert (∃ s, r = Val s ∧ global_ok s) as ([v hs] & -> & Hs).
  { induction Hr as [|s r _ (s' & [= <-] & Hs) Hstep]; [exists (0, ∅); split; [done|by left]|by eapply global_step_ok]. }
  exists v, hs. split; [done|]. destruct Hs as [[E1 E2]|[E1 [h E2]]]; cbn in E1, E2; subst; cbn.
  - split; [set_solver|done].
  - split; [set_solver|]. split; [done|]. intros E. exfalso. assert (h ∈ ({[h]} : gset Z)) as Hh by set_solver. rewrite E in Hh. by apply elem_of_empty in Hh.
Qed.

Lemma global_mutex_excludes_witness :
  global_runs true (Val (1, {[7]})) ∧ ∃ v (hs : gset Z), Val (1, {[7]}) = Val (v, hs) ∧ (∀ a b : Z, a ∈ hs → b ∈ hs → a = b) ∧ ((global_Lock_turn v).1 = true ↔ hs = ∅).
Proof.
  assert (global_runs true (Val (1, {[7]}))) as Hr.
  { replace (Val (1, {[7]} : gset Z)) with (Val ((global_Lock_turn 0).2, if (global_Lock_turn 0).1 then {[7]} ∪ ∅ else ∅ : gset Z)) by (f_equal; f_equal; cbn; set_solver).
    eapply gr_step; [apply gr_start|]. apply gl_turn. set_solver. }
  split; [exact Hr|]. exact (global_mutex_excludes true _ Hr).
Defined.

(** After a detach a checker accepts the first call, and from then on
    exactly the calls of the sequence of that one: its task queue, or its thread
    when it has none. *)
Theorem sequence_checker_one_sequence c cs k :
  cur_system_queue c = None →
  checks (c :: cs) (Detach k) = (true :: (same_seq c <$> cs), Checker true c).
Proof. intros Hc. cbn [checks]. unfold seq_IsCurrent, Detach. cbn [attached_ negb]. by rewrite attached_checks. Qed.

Lemma sequence_checker_one_sequence_witness :
  checks [SeqCtx (Some 5) 1 None; SeqCtx (Some 5) 2 None; SeqCtx None 1 None] (Detach (SequenceCheckerImpl_new (SeqCtx None 9 None))) =
    (true :: [true; false], Checker true (SeqCtx (Some 5) 1 None)).
Proof. exact (sequence_checker_one_sequence (SeqCtx (Some 5) 1 None) [SeqCtx (Some 5) 2 None; SeqCtx None 1 None] _ eq_refl). Defined.

(** Objects in any order of spawning, moving, finalizing and deleting. *)
Inductive handle_runs (dchecks : bool) : psys → Prop :=
  | hr_start : handle_runs dchecks (PSys ∅ ∅ ∅ [])
  | hr_step s op s' : handle_runs dchecks s → handle_op_ok op s → handle_apply dchecks op s = Some (Val s') → handle_runs dchecks s'.

(** In any history of threads being spawned, their objects moved, assigned,
    finalized and deleted, no handle is held by two objects, no thread is joined
    twice or before it ended, and a thread spawned to be joined has been joined
    or an object still holds it; the next operation keeps this. *)
Theorem platform_thread_handles dchecks s :
  handle_runs dchecks s →
  (∀ o o' x x' h, pobjs s !! o = Some x → pobjs s !! o' = Some x' → handle_ x = Some h → handle_ x' = Some h → o = o') ∧
  NoDup (joined s) ∧ (∀ h, h ∈ joined s → h ∈ ended s) ∧
  (∀ h, spawned s !! h = Some true → h ∈ joined s ∨ ∃ o x, pobjs s !! o = Some x ∧ handle_ x = Some h) ∧
  ∀ op, handle_op_ok op s → handle_answer (handle_apply dchecks op s).
Proof.
  intros Hr. assert (handles_ok s) as Hs.
  { induction Hr as [|s op s' _ IH Ho E]; [split; cbn; try done; [set_solver|constructor]|].
    pose proof (handle_apply_ok dchecks op s IH Ho) as Ha. by rewrite E in Ha. }
  split_and!; [apply (ho_unique s Hs)|apply (ho_once s Hs)|intros h Hh; by apply (ho_joined s Hs)|apply (ho_kept s Hs)|].
  intros op Ho. by apply handle_apply_ok.
Qed.

Lemma platform_thread_handles_witness :
  handle_runs true (PSys {[2 := PObj (Some 70) true]} {[70 := true]} ∅ []) ∧ NoDup (joined (PSys {[2 := PObj (Some 70) true]} {[70 := true]} ∅ [])).
Proof.
  assert (handle_runs true (PSys {[2 := PObj (Some 70) true]} {[70 := true]} ∅ [])) as Hr.
  { eapply (hr_step true _ (HSpawn 2 b#"worker" true (inr 70))); [apply hr_start|split; reflexivity|reflexivity]. }
  split; [exact Hr|]. destruct (platform_thread_handles true _ Hr) as (_ & Hnd & _). exact Hnd.
Defined.

(** The priorities are in order and between the limits. *)
Lemma priorities_ordered min_prio max_prio :
  0 ≤ min_prio → 2 < max_prio - min_prio →
  ∃ l n h r, sched_priority min_prio max_prio kLow = Val (Some l) ∧ sched_priority min_prio max_prio kNormal = Val (Some n) ∧
    sched_priority min_prio max_prio kHigh = Val (Some h) ∧ sched_priority min_prio max_prio kRealtime = Val (Some r) ∧
    min_prio < l ≤ n ∧ n ≤ h ≤ r ∧ r < max_prio.
Proof.
  intros Hm Hd. unfold sched_priority. rewrite (proj2 (Z.eqb_neq min_prio (-1))), (proj2 (Z.eqb_neq max_prio (-1))), (proj2 (Z.leb_gt _ 2)) by lia. cbn [orb].
  do 4 eexists. do 4 (split; [done|]). rewrite Z.quot_div_nonneg by lia. split_and!; try lia; div_solve.
Qed.
