(* ===== verification/Logging.v ===== *)
(** * The log of rtc_base (logging.h, logging.cc)

    A log statement builds one line of text and hands it to the debug output
    and to every registered sink that wants its severity. The state is the
    static members of [LogMessage] and the sinks, which form a linked list
    through their own fields. What the clocks, the thread id and [strerror]
    answer are inputs. The theorems are that the list and the cached severity
    are what was registered, whatever is added and removed, that a statement
    that is skipped would have reached nobody, and that, with the log of the
    server as a sink, what the statements say is in its files. *)

From S2P Require Import Prelude StringEncode StringToNumber StringBuilder TimeUtils IpAddress Socket Log.

(** ** Sinks *)

Record LogSink := Sink { next_ : option Z; min_severity_ : LoggingSeverity }.

Record logs := LG {
  g_min_sev : LoggingSeverity; g_dbg_sev : LoggingSeverity;
  log_to_stderr_ : bool;
  streams_ : option Z; streams_empty_ : bool;
  thread_ : bool; timestamp_ : bool;
  log_path_prefix_ : list Z;
  g_start : option Z; g_start_wallclock : option Z;
  sinks : gmap Z LogSink
}.

Definition logs_new (NDEBUG : bool) : logs :=
  let sev := if NDEBUG then LS_VERBOSE else LS_INFO in
  LG sev sev true None true false false [] None None ∅.

Definition set_severities m d g := LG m d (log_to_stderr_ g) (streams_ g) (streams_empty_ g) (thread_ g) (timestamp_ g)
  (log_path_prefix_ g) (g_start g) (g_start_wallclock g) (sinks g).
Definition set_to_stderr b g := LG (g_min_sev g) (g_dbg_sev g) b (streams_ g) (streams_empty_ g) (thread_ g) (timestamp_ g)
  (log_path_prefix_ g) (g_start g) (g_start_wallclock g) (sinks g).
Definition set_streams h e s g := LG (g_min_sev g) (g_dbg_sev g) (log_to_stderr_ g) h e (thread_ g) (timestamp_ g)
  (log_path_prefix_ g) (g_start g) (g_start_wallclock g) s.
Definition set_flags th ts g := LG (g_min_sev g) (g_dbg_sev g) (log_to_stderr_ g) (streams_ g) (streams_empty_ g) th ts
  (log_path_prefix_ g) (g_start g) (g_start_wallclock g) (sinks g).
Definition set_prefix p g := LG (g_min_sev g) (g_dbg_sev g) (log_to_stderr_ g) (streams_ g) (streams_empty_ g) (thread_ g)
  (timestamp_ g) p (g_start g) (g_start_wallclock g) (sinks g).
Definition set_starts s w g := LG (g_min_sev g) (g_dbg_sev g) (log_to_stderr_ g) (streams_ g) (streams_empty_ g) (thread_ g)
  (timestamp_ g) (log_path_prefix_ g) s w (sinks g).

Definition sev_leb (a b : LoggingSeverity) : bool := severity_value a <=? severity_value b.
(** [std::min]. *)
Definition sev_min (a b : LoggingSeverity) : LoggingSeverity := if severity_value b <? severity_value a then b else a.

(** [for (entry = streams_; entry != nullptr; entry = entry->next_)]: the sinks
    it visits. A list that comes back to itself makes the loop endless. *)
Fixpoint entries (fuel : nat) (s : gmap Z LogSink) (entry : option Z) : res (list (Z * LogSink)) :=
  match entry with
  | None => Val []
  | Some p =>
      match fuel with
      | O => Undef
      | S fuel => let* e := of_mem (s !! p) in let* r := entries fuel s (next_ e) in Val ((p, e) :: r)
      end
  end.
Definition all_entries (g : logs) : res (list (Z * LogSink)) := entries (size (sinks g)) (sinks g) (streams_ g).

Definition UpdateMinLogSeverity (g : logs) : res logs :=
  let* es := all_entries g in
  Val (set_severities (foldl (λ m e, sev_min m (min_severity_ e.2)) (g_dbg_sev g) es) (g_dbg_sev g) g).

(** [LogSink()] and [~LogSink()]; a new sink's severity is not initialised. *)
Definition LogSink_new (p : Z) (garbage : LoggingSeverity) (g : logs) : logs :=
  set_streams (streams_ g) (streams_empty_ g) (<[p := Sink None garbage]> (sinks g)) g.
Definition LogSink_delete (p : Z) (g : logs) : logs := set_streams (streams_ g) (streams_empty_ g) (base.delete p (sinks g)) g.

Definition AddLogToStream (stream : Z) (min_sev : LoggingSeverity) (g : logs) : res logs :=
  let* _ := of_mem (sinks g !! stream) in
  UpdateMinLogSeverity (set_streams (Some stream) false (<[stream := Sink (streams_ g) min_sev]> (sinks g)) g).

(** [LogSink** entry]: [None] is [&streams_], [Some p] is [&p->next_]. *)
Definition read_cell (entry : option Z) (g : logs) : res (option Z) :=
  match entry with None => Val (streams_ g) | Some p => let* e := of_mem (sinks g !! p) in Val (next_ e) end.
Definition write_cell (entry : option Z) (v : option Z) (g : logs) : res logs :=
  match entry with
  | None => Val (set_streams v (streams_empty_ g) (sinks g) g)
  | Some p =>
      let* e := of_mem (sinks g !! p) in
      Val (set_streams (streams_ g) (streams_empty_ g) (<[p := Sink v (min_severity_ e)]> (sinks g)) g)
  end.

Fixpoint remove_loop (fuel : nat) (stream : Z) (entry : option Z) (g : logs) : res logs :=
  let* v := read_cell entry g in
  match v with
  | None => Val g
  | Some q =>
      match fuel with
      | O => Undef
      | S fuel =>
          if q =? stream then let* e := of_mem (sinks g !! q) in write_cell entry (next_ e) g
          else remove_loop fuel stream (Some q) g
      end
  end.

Definition RemoveLogToStream (stream : Z) (g : logs) : res logs :=
  let* g := remove_loop (size (sinks g)) stream None g in
  UpdateMinLogSeverity (set_streams (streams_ g) (bool_decide (streams_ g = None)) (sinks g) g).

Definition GetLogToStream (stream : option Z) (g : logs) : res LoggingSeverity :=
  let* es := all_entries g in
  Val (foldl (λ sev e, if bool_decide (stream = None) || bool_decide (stream = Some e.1) then sev_min sev (min_severity_ e.2) else sev)
         LS_NONE es).

(** ** Settings *)

Definition GetMinLogSeverity (g : logs) : Z := severity_value (g_min_sev g).
Definition GetLogToDebug (g : logs) : LoggingSeverity := g_dbg_sev g.
Definition LogCheckLevel (sev : LoggingSeverity) (g : logs) : bool := GetMinLogSeverity g <=? severity_value sev.
Definition LogThreads (on : bool) (g : logs) : logs := set_flags on (timestamp_ g) g.
Definition LogTimestamps (on : bool) (g : logs) : logs := set_flags (thread_ g) on g.
Definition SetLogPathPrefix (prefix : list Z) (g : logs) : logs := set_prefix prefix g.
Definition SetLogToStderr (b : bool) (g : logs) : logs := set_to_stderr b g.
Definition LogToDebug (min_sev : LoggingSeverity) (g : logs) : res logs :=
  UpdateMinLogSeverity (set_severities (g_min_sev g) min_sev g).

(** One token of [ConfigureLogging]. *)
Definition configure_token (token : list Z) (st : logs * LoggingSeverity * LoggingSeverity) : logs * LoggingSeverity * LoggingSeverity :=
  let '(g, current_level, debug_level) := st in
  if decide (token = []) then st
  else if decide (token = b#"tstamp") then (LogTimestamps true g, current_level, debug_level)
  else if decide (token = b#"thread") then (LogThreads true g, current_level, debug_level)
  else if decide (token = b#"verbose") then (g, LS_VERBOSE, debug_level)
  else if decide (token = b#"info") then (g, LS_INFO, debug_level)
  else if decide (token = b#"warning") then (g, LS_WARNING, debug_level)
  else if decide (token = b#"error") then (g, LS_ERROR, debug_level)
  else if decide (token = b#"none") then (g, LS_NONE, debug_level)
  else if decide (token = b#"debug") then (g, current_level, current_level)
  else st.

Definition ConfigureLogging (params : list Z) (g : logs) : res logs :=
  let '(g, _, debug_level) := foldl (λ st t, configure_token t st) (g, LS_VERBOSE, GetLogToDebug g) (tokenize params 32) in
  LogToDebug debug_level g.

Definition IsNoop (severity : LoggingSeverity) (g : logs) : bool :=
  if sev_leb (g_dbg_sev g) severity || sev_leb (g_min_sev g) severity then false else streams_empty_ g.

(** ** Messages *)

Definition GetSeverityStr (sev : LoggingSeverity) : list Z :=
  match sev with
  | LS_VERBOSE => b#"VERBOSE"
  | LS_INFO => b#"INFO"
  | LS_WARNING => b#"WARNING"
  | LS_ERROR => b#"ERROR"
  | LS_NONE => b#"NONE"
  end.

(** [strrchr] and [strstr]: the offset of what they find. *)
Fixpoint strrchr (s : list Z) (c : Z) : option Z :=
  match s with
  | [] => None
  | x :: t => match strrchr t c with Some i => Some (i + 1) | None => if x =? c then Some 0 else None end
  end.
Fixpoint strstr (s needle : list Z) : option Z :=
  if bool_decide (needle `prefix_of` s) then Some 0
  else match s with [] => None | _ :: t => (λ i, i + 1) <$> strstr t needle end.

(** A null pointer is below every other. *)
Definition ptr_gtb (a b : option Z) : bool :=
  match a, b with Some a, Some b => b <? a | Some _, None => true | None, _ => false end.

Definition FilenameFromPath (prefix file : list Z) : list Z :=
  let end1 := strrchr file 47 in
  let end1 := if decide (prefix = []) then end1 else strstr file (c_string prefix) in
  let end2 := strrchr file 92 in
  match end1, end2 with
  | None, None => file
  | _, _ => drop (Z.to_nat (default 0 (if ptr_gtb end1 end2 then end1 else end2) + 1)) file
  end.

Inductive LogErrorContext := ERRCTX_NONE | ERRCTX_ERRNO | ERRCTX_HRESULT.

#[global] Instance LogErrorContext_eq_dec : EqDecision LogErrorContext.
Proof. solve_decision. Defined.

(** What a statement reads of the system. The two readings of the monotonic
    clock are the arguments of [TimeDiff], which may be read in either order;
    [tmp_buf] is the uninitialised buffer on the stack. *)
Record log_env := Env {
  now : clocks; start_now : clocks; wall : Z; thread_id : Z; strerror : Z → list Z; tmp_buf : list Z }.

Definition LogStartTime (c : clocks) (g : logs) : res (Z * logs) :=
  match g_start g with
  | Some t => Val (t, g)
  | None => let* t := SystemTimeMillis c in Val (t, set_starts (Some t) (g_start_wallclock g) g)
  end.
Definition WallClockStartTime (time : Z) (g : logs) : Z * logs :=
  match g_start_wallclock g with
  | Some t => (t, g)
  | None => (u32 time, set_starts (g_start g) (Some (u32 time)) g)
  end.

(** The texts of the formats [%03] PRId64 and [%08X]. *)
Definition print03 (v : Z) : list Z :=
  let digits := decimal (Z.abs v) in
  let sign := if v <? 0 then [45] else [] in
  sign ++ replicate (3 - length sign - length digits) 48 ++ digits.
Definition HEX_UPPER : list Z := b#"0123456789ABCDEF".
Fixpoint hex_upper (n : nat) (v : Z) : list Z :=
  match n with O => [] | S n => hex_upper n (v / 16) ++ [nth (Z.to_nat (v `mod` 16)) HEX_UPPER 48] end.

Record LogMessage := LM { severity_ : LoggingSeverity; extra_ : list Z; print_stream_ : list Z }.

Section Messages.
Context (RTC_DCHECK_IS_ON : bool).
Notation dcheck := (dcheck RTC_DCHECK_IS_ON).
Notation sb_int := (sb_int RTC_DCHECK_IS_ON).

Definition timestamp_text (e : log_env) (g : logs) : res (list Z * logs) :=
  let* later := SystemTimeMillis (now e) in
  let* '(earlier, g) := LogStartTime (start_now e) g in
  let* time := TimeDiff later earlier in
  let '(_, g) := WallClockStartTime (wall e) g in
  let '(len, timestamp) := snprintf 50 (b#"[" ++ print03 (time ÷ 1000) ++ b#":" ++ print03 (Z.rem time 1000) ++ b#"]") in
  let* _ := dcheck (len <? 50) in
  Val (c_string timestamp, g).

Definition error_text (e : log_env) (err_ctx : LogErrorContext) (err : Z) : res (list Z) :=
  let* tmp := ssb_new RTC_DCHECK_IS_ON (tmp_buf e) in
  let* tmp := AppendFormat RTC_DCHECK_IS_ON (b#"[0x" ++ hex_upper 8 (u32 err) ++ b#"]") tmp in
  let* tmp :=
    (match err_ctx with
     | ERRCTX_ERRNO =>
         let* tmp := put_cstr RTC_DCHECK_IS_ON (b#" " ++ [0]) tmp in put_cstr RTC_DCHECK_IS_ON (strerror e err ++ [0]) tmp
     | _ => Val tmp
     end) in
  Val (ssb_str tmp).

Definition LogMessage_new (e : log_env) (file : option (list Z)) (line : Z) (sev : LoggingSeverity)
  (err_ctx : LogErrorContext) (err : Z) (g : logs) : res (LogMessage * logs) :=
  let print_stream := sb_string (b#": ") (sb_string (GetSeverityStr sev) []) in
  let* '(print_stream, g) :=
    (if timestamp_ g then let* '(t, g) := timestamp_text e g in Val (sb_string t print_stream, g) else Val (print_stream, g)) in
  let* print_stream :=
    (if thread_ g then
       let* s := sb_int (thread_id e) (sb_string (b#"[") print_stream) in Val (sb_string (b#"] ") s)
     else Val print_stream) in
  let* print_stream :=
    (match file with
     | Some file =>
         let s := sb_string (b#":") (sb_string (FilenameFromPath (log_path_prefix_ g) file) (sb_string (b#"(") print_stream)) in
         let* s := sb_int line s in Val (sb_string (b#"): ") s)
     | None => Val print_stream
     end) in
  let* extra := (if decide (err_ctx = ERRCTX_NONE) then Val [] else error_text e err_ctx err) in
  Val (LM sev extra print_stream, g).

(** The constructors without an error and with a tag. *)
Definition LogMessage_plain (e : log_env) (file : option (list Z)) (line : Z) (sev : LoggingSeverity) (g : logs) : res (LogMessage * logs) :=
  LogMessage_new e file line sev ERRCTX_NONE 0 g.
Definition LogMessage_tagged (e : log_env) (file : option (list Z)) (line : Z) (sev : LoggingSeverity) (tag : list Z) (g : logs)
  : res (LogMessage * logs) :=
  let* '(m, g) := LogMessage_plain e file line sev g in
  Val (LM (severity_ m) (extra_ m) (sb_string (b#": ") (sb_string tag (print_stream_ m))), g).

Definition FinishPrintStream (m : LogMessage) : LogMessage :=
  let s := if decide (extra_ m = []) then print_stream_ m else sb_string (extra_ m) (sb_string (b#" : ") (print_stream_ m)) in
  LM (severity_ m) (extra_ m) (sb_string [10] s).

(** What a statement puts out: text on [stderr], and calls of sinks. *)
Inductive log_out := OStderr (text : list Z) | OSink (sink : Z) (text : list Z) (severity : LoggingSeverity).

Definition OutputToDebug (str : list Z) (g : logs) : list log_out := if log_to_stderr_ g then [OStderr (c_string str)] else [].

Definition LogMessage_delete (m : LogMessage) (g : logs) : res (list log_out) :=
  let '(str, _) := sb_Release (print_stream_ (FinishPrintStream m)) in
  let debug := if sev_leb (g_dbg_sev g) (severity_ m) then OutputToDebug str g else [] in
  let* es := all_entries g in
  Val (debug ++ omap (λ e, if sev_leb (min_severity_ e.2) (severity_ m) then Some (OSink e.1 str (severity_ m)) else None) es).

(** The default [OnLogMessage] of a sink with a tag. *)
Definition OnLogMessage_tag (msg tag : list Z) : list Z := tag ++ (b#": " ++ msg).

(** ** Statements *)

(** [file_], and the line above three bits of severity. *)
Record LogMetadata := Meta { file_ : option (list Z); line_and_sev_ : Z }.
Definition LogMetadata_new (file : option (list Z)) (line : Z) (severity : LoggingSeverity) : LogMetadata :=
  Meta file (Z.lor (u32 (Z.shiftl (u32 line) 3)) (severity_value severity)).
Definition Line (m : LogMetadata) : Z := s32 (Z.shiftr (line_and_sev_ m) 3).
Definition Severity (m : LogMetadata) : res LoggingSeverity :=
  let v := Z.land (line_and_sev_ m) 0x7 in
  if v =? 0 then Val LS_VERBOSE else if v =? 1 then Val LS_INFO else if v =? 2 then Val LS_WARNING
  else if v =? 3 then Val LS_ERROR else if v =? 4 then Val LS_NONE else Undef.

Inductive LogArgType :=
| kEnd | kInt | kLong | kLongLong | kUInt | kULong | kULongLong | kDouble | kLongDouble
| kCharP | kStdString | kStringView | kVoidP | kLogMetadata | kLogMetadataErr.

#[global] Instance LogArgType_eq_dec : EqDecision LogArgType.
Proof. solve_decision. Defined.

(** The values [MakeVal] makes. Of a floating point number the text [ToString]
    prints is kept. *)
Inductive LogArg :=
| AInt (i : Z) | ALong (i : Z) | ALongLong (i : Z) | AUInt (i : Z) | AULong (i : Z) | AULongLong (i : Z)
| ADouble (text : list Z) | ALongDouble (text : list Z)
| ACharP (s : option (list Z)) | AStdString (s : list Z) | AStringView (s : list Z) | AVoidP (p : Z)
| AMeta (m : LogMetadata) | AMetaErr (m : LogMetadata) (err_ctx : LogErrorContext) (err : Z).

Definition arg_type (a : LogArg) : LogArgType :=
  match a with
  | AInt _ => kInt | ALong _ => kLong | ALongLong _ => kLongLong | AUInt _ => kUInt | AULong _ => kULong | AULongLong _ => kULongLong
  | ADouble _ => kDouble | ALongDouble _ => kLongDouble | ACharP _ => kCharP | AStdString _ => kStdString
  | AStringView _ => kStringView | AVoidP _ => kVoidP | AMeta _ => kLogMetadata | AMetaErr _ _ _ => kLogMetadataErr
  end.

(** [va_arg]: the next argument, which must have the type asked for. *)
Definition va_arg (t : LogArgType) (args : list LogArg) : res (LogArg * list LogArg) :=
  match args with
  | a :: rest => if decide (arg_type a = t) then Val (a, rest) else Undef
  | [] => Undef
  end.

(** [stream() << va_arg(...)]; [None] is the [default] of the switch. *)
Definition put_arg (t : LogArgType) (args : list LogArg) (s : list Z) : res (option (list Z * list LogArg)) :=
  match t with
  | kEnd | kLogMetadata | kLogMetadataErr => Val None
  | _ =>
      let* '(a, rest) := va_arg t args in
      let* s :=
        (match a with
         | AInt i | ALong i | ALongLong i | AUInt i | AULong i | AULongLong i => sb_int i s
         | ADouble text | ALongDouble text => Val (sb_string text s)
         | ACharP p => Val (sb_string (match p with Some str => str | None => b#"(null)" end) s)
         | AStdString str | AStringView str => Val (sb_string str s)
         | AVoidP p => Val (sb_string (ToHex p) s)
         | _ => Undef
         end) in
      Val (Some (s, rest))
  end.

(** The loop over the format up to [kEnd]: the text, and whether it reached it. *)
Fixpoint log_loop (fmt : list LogArgType) (args : list LogArg) (s : list Z) : res (list Z) :=
  match fmt with
  | [] => Undef
  | kEnd :: _ => Val s
  | t :: fmt =>
      let* r := put_arg t args s in
      match r with
      | Some (s, args) => log_loop fmt args s
      | None => let* _ := dcheck false in Val s
      end
  end.

Definition Log (e : log_env) (fmt : list LogArgType) (args : list LogArg) (g : logs) : res (list log_out * logs) :=
  match fmt with
  | [] => Undef
  | t :: fmt =>
      let* meta :=
        (match t with
         | kLogMetadata =>
             let* '(a, rest) := va_arg kLogMetadata args in
             match a with AMeta m => Val (Some (m, ERRCTX_NONE, 0, rest)) | _ => Undef end
         | kLogMetadataErr =>
             let* '(a, rest) := va_arg kLogMetadataErr args in
             match a with AMetaErr m ctx err => Val (Some (m, ctx, err, rest)) | _ => Undef end
         | _ => let* _ := dcheck false in Val None
         end) in
      match meta with
      | None => Val ([], g)
      | Some (meta, err_ctx, err, args) =>
          let* sev := Severity meta in
          let* '(m, g) := LogMessage_new e (file_ meta) (Line meta) sev err_ctx err g in
          let* s := log_loop fmt args (print_stream_ m) in
          let* out := LogMessage_delete (LM (severity_ m) (extra_ m) s) g in
          Val (out, g)
      end
  end.

(** A [LogStreamer] is its arguments, the most recent first; [Call] hands them
    on in the order they were written. *)
Fixpoint streamer_Call (streamer : list LogArg) (args : list LogArg) : list LogArgType * list LogArg :=
  match streamer with
  | [] => ((arg_type <$> args) ++ [kEnd], args)
  | a :: prior => streamer_Call prior (a :: args)
  end.
Definition streamer_put (streamer : list LogArg) (a : LogArg) : list LogArg := a :: streamer.
Definition LogCall (e : log_env) (streamer : list LogArg) (g : logs) : res (list log_out * logs) :=
  let '(fmt, args) := streamer_Call streamer [] in Log e fmt args g.

(** [RTC_LOG(sev) << args] and [RTC_LOG_E(sev, ctx, err) << args]. *)
Definition RTC_LOG (e : log_env) (sev : LoggingSeverity) (file : list Z) (line : Z) (args : list LogArg) (g : logs)
  : res (list log_out * logs) :=
  if IsNoop sev g then Val ([], g)
  else LogCall e (foldl streamer_put (streamer_put [] (AMeta (LogMetadata_new (Some file) line sev))) args) g.
Definition RTC_LOG_E (e : log_env) (sev : LoggingSeverity) (ctx : LogErrorContext) (err : Z) (file : list Z) (line : Z)
  (args : list LogArg) (g : logs) : res (list log_out * logs) :=
  if IsNoop sev g then Val ([], g)
  else LogCall e (foldl streamer_put (streamer_put [] (AMetaErr (LogMetadata_new (Some file) line sev) ctx err)) args) g.
End Messages.

(** ** The log of the server as a sink *)

(** [XrtcLog::InitLog] up to the [mkdir]: the settings of the process, and the
    registration of the object [p]. *)
Definition InitLog_sink (p : Z) (level : list Z) (g : logs) : res logs :=
  let* g := ConfigureLogging (b#"thread tstamp") g in
  AddLogToStream p (GetLogSeverity level) (SetLogPathPrefix (b#"/src") g).
Definition set_log_to_stderr (b : bool) (g : logs) : logs := SetLogToStderr b g.

Definition demo_clock (s ns : Z) : clocks := Clocks None (TimeSpec s ns) (0, 0).
Definition demo_env (s ns : Z) : log_env :=
  Env (demo_clock s ns) (demo_clock s ns) 1700000000 4711 (λ _, b#"No such file or directory") (replicate 1024 7).

Example log_statement_demo :
  (let* g := InitLog_sink 1 (b#"WARNING") (LogSink_new 1 LS_NONE (logs_new true)) in
   let* '(o1, g) := RTC_LOG true (demo_env 5 0) LS_INFO (b#"/home/x/src/server/main.cpp") 57 [ACharP (Some (b#"receive signal:")); AInt 15] g in
   let* '(o2, g) := RTC_LOG_E true (demo_env 66 7000000) LS_ERROR ERRCTX_ERRNO 2 (b#"/home/x/src/server/main.cpp") 9
                      [ACharP None; AULongLong 18446744073709551615; AVoidP 0x7fff12345678] (set_log_to_stderr false g) in
   Val (o1, o2)) =
  Val ([OStderr (b#"INFO: [000:000][4711] (src/server/main.cpp:57): receive signal:15" ++ [10])],
       [OSink 1 (b#"ERROR: [061:007][4711] (src/server/main.cpp:9): (null)1844674407370955161512345678 : [0x00000002] No such file or directory" ++ [10])
          LS_ERROR]).
Proof. vm_compute. reflexivity. Qed.

(** ** The list of sinks *)

(** From [h] the list leads through the sinks [es], each with its severity. *)
Fixpoint chain (s : gmap Z LogSink) (h : option Z) (es : list (Z * LoggingSeverity)) : Prop :=
  match es with
  | [] => h = None
  | (p, sev) :: es => h = Some p ∧ ∃ n, s !! p = Some (Sink n sev) ∧ chain s n es
  end.

Definition min_of (dbg : LoggingSeverity) (es : list (Z * LoggingSeverity)) : LoggingSeverity := foldl sev_min dbg es.*2.

Record registry (es : list (Z * LoggingSeverity)) (g : logs) : Prop := {
  r_chain : chain (sinks g) (streams_ g) es;
  r_once : NoDup es.*1;
  r_min : g_min_sev g = min_of (g_dbg_sev g) es;
  r_empty : streams_empty_ g = bool_decide (es = [])
}.

Lemma chain_dom s es : ∀ h, chain s h es → (list_to_set es.*1 : gset Z) ⊆ dom s.
Proof.
  induction es as [|[p sev] es IH]; intros h; cbn; [set_solver|]. intros (_ & n & Hp & Hc).
  apply union_subseteq. split; [apply singleton_subseteq_l, elem_of_dom; by eexists|by eapply IH].
Qed.

Lemma chain_size s h es : chain s h es → NoDup es.*1 → (length es ≤ size s)%nat.
Proof.
  intros Hc Hn. rewrite <- size_dom, <- (length_fmap fst es), <- (size_list_to_set (C := gset Z) es.*1) by done.
  by eapply subseteq_size, chain_dom.
Qed.

Definition entry_of (e : Z * LogSink) : Z * LoggingSeverity := (e.1, min_severity_ e.2).

Lemma entries_chain s es : ∀ fuel h, chain s h es → (length es ≤ fuel)%nat → ∃ l, entries fuel s h = Val l ∧ entry_of <$> l = es.
Proof.
  induction es as [|[p sev] es IH]; intros fuel h; cbn.
  - intros -> _. exists []. by destruct fuel.
  - intros (-> & n & Hp & Hc) Hf. destruct fuel as [|fuel]; [lia|]. cbn. rewrite Hp. cbn.
    destruct (IH fuel n Hc ltac:(lia)) as (l & -> & <-). by eexists.
Qed.

Lemma all_entries_chain es g : chain (sinks g) (streams_ g) es → NoDup es.*1 → ∃ l, all_entries g = Val l ∧ entry_of <$> l = es.
Proof. intros Hc Hn. apply entries_chain; [done|by eapply chain_size]. Qed.

Lemma chain_frame s s' es : ∀ h, chain s h es → (∀ p, p ∈ es.*1 → s' !! p = s !! p) → chain s' h es.
Proof.
  induction es as [|[p sev] es IH]; intros h; cbn; [done|]. intros (-> & n & Hp & Hc) Hs. split; [done|].
  exists n. split; [rewrite Hs by set_solver; done|]. apply IH; [done|]. intros q Hq. apply Hs. set_solver.
Qed.

Lemma update_registry es g : chain (sinks g) (streams_ g) es → NoDup es.*1 → streams_empty_ g = bool_decide (es = []) →
  UpdateMinLogSeverity g = Val (set_severities (min_of (g_dbg_sev g) es) (g_dbg_sev g) g) ∧
  registry es (set_severities (min_of (g_dbg_sev g) es) (g_dbg_sev g) g).
Proof.
  intros Hc Hn He. destruct (all_entries_chain es g Hc Hn) as (l & E & Hl). unfold UpdateMinLogSeverity. rewrite E. cbn [mbind_res].
  replace (foldl _ (g_dbg_sev g) l) with (min_of (g_dbg_sev g) es); [done|]. unfold min_of. rewrite <- Hl, <- list_fmap_compose.
  generalize (g_dbg_sev g). clear. induction l as [|e l IH]; intros d; cbn; [done|]. apply IH.
Qed.

Lemma add_registry es g p sev : registry es g → p ∉ es.*1 → is_Some (sinks g !! p) →
  ∃ g', AddLogToStream p sev g = Val g' ∧ registry ((p, sev) :: es) g' ∧ g_dbg_sev g' = g_dbg_sev g ∧ dom (sinks g') = dom (sinks g).
Proof.
  intros [Hc Hn Hm He] Hp [k Hk]. unfold AddLogToStream. rewrite Hk. cbn [of_mem mbind_res].
  destruct (update_registry ((p, sev) :: es) (set_streams (Some p) false (<[p:=Sink (streams_ g) sev]> (sinks g)) g)) as [-> Hr]; cbn.
  - split; [done|]. exists (streams_ g). rewrite lookup_insert_eq. split; [done|].
    eapply chain_frame; [done|]. intros q Hq. by rewrite lookup_insert_ne by set_solver.
  - by constructor.
  - done.
  - eexists. split_and!; [done..|]. cbn. rewrite dom_insert_L. apply elem_of_dom_2 in Hk. set_solver.
Qed.

Definition without (p : Z) (es : list (Z * LoggingSeverity)) : list (Z * LoggingSeverity) := filter (λ e, e.1 ≠ p) es.

Lemma sinks_without_none p es : p ∉ es.*1 → without p es = es.
Proof.
  unfold without. induction es as [|[q sev] es IH]; [done|]. intros [Hq Hp]%not_elem_of_cons. rewrite filter_cons_True by (cbn in *; congruence).
  f_equal. by apply IH.
Qed.

Lemma without_sub p es q : q ∈ (without p es).*1 → q ∈ es.*1 ∧ q ≠ p.
Proof. unfold without. intros (e & -> & [? ?]%list_elem_of_filter)%list_elem_of_fmap. split; [by apply list_elem_of_fmap_2|done]. Qed.

Lemma without_NoDup p es : NoDup es.*1 → NoDup (without p es).*1.
Proof.
  unfold without. induction es as [|[q sev] es IH]; [done|]. intros [Hq Hn]%NoDup_cons. rewrite filter_cons. case_decide; [|by apply IH].
  cbn. apply NoDup_cons. split; [|by apply IH]. intros H'%without_sub. naive_solver.
Qed.

(** The cell the loop is at leads to [es]; afterwards it leads to them without
    the sink, and no other sink has changed. *)
Lemma remove_chain p es : ∀ fuel entry v g,
  read_cell entry g = Val v → chain (sinks g) v es → NoDup es.*1 → (∀ q, entry = Some q → q ∉ es.*1) → (length es ≤ fuel)%nat →
  ∃ h s v', remove_loop fuel p entry g = Val (set_streams h (streams_empty_ g) s g) ∧ chain s v' (without p es) ∧
    (match entry with
     | None => h = v'
     | Some q => h = streams_ g ∧ ∃ n sev, sinks g !! q = Some (Sink n sev) ∧ s !! q = Some (Sink v' sev)
     end) ∧
    (∀ q, q ∉ es.*1 → entry ≠ Some q → s !! q = sinks g !! q) ∧ dom s = dom (sinks g).
Proof.
  induction es as [|[q sev] es IH]; intros fuel entry v g Hv Hc Hn Hent Hf; cbn in Hc.
  - subst v. exists (streams_ g), (sinks g), None. split_and!; try done.
    + destruct fuel; cbn; rewrite Hv; by destruct g.
    + destruct entry as [q|]; cbn in Hv; [|congruence]. split; [done|].
      destruct (sinks g !! q) as [[n sev]|]; cbn in Hv; [|done]. injection Hv as ->. by exists None, sev.
  - destruct Hc as (-> & n & Hq & Hc). apply NoDup_cons in Hn as [Hqn Hn]. cbn in Hf. destruct fuel as [|fuel]; [lia|].
    cbn [remove_loop]. rewrite Hv. cbn [mbind_res]. destruct (Z.eqb_spec q p) as [<-|Hqp].
    + rewrite Hq. cbn [of_mem mbind_res next_]. unfold without. rewrite filter_cons_False by (cbn; tauto). fold (without q es).
      rewrite sinks_without_none by done. destruct entry as [r|]; cbn [write_cell].
      * cbn in Hv. destruct (sinks g !! r) as [[nr sr]|] eqn:Hr; cbn in Hv; [|done]. injection Hv as ->. cbn.
        specialize (Hent r eq_refl). cbn in Hent. eexists _, _, n. split; [done|]. split_and!.
        -- eapply chain_frame; [done|]. intros x Hx. by rewrite lookup_insert_ne by set_solver.
        -- done.
        -- exists (Some q), sr. by rewrite lookup_insert_eq.
        -- intros x Hx Hne. by rewrite lookup_insert_ne by congruence.
        -- rewrite dom_insert_L. apply elem_of_dom_2 in Hr. set_solver.
      * by exists n, (sinks g), n.
    + destruct (IH fuel (Some q) n g) as (h & s & v' & -> & Hc' & (-> & n0 & sev0 & Hq0 & Hs) & Hfr & Hd); try done.
      { cbn. by rewrite Hq. }
      { by intros ? [= <-]. }
      { lia. }
      rewrite Hq in Hq0. injection Hq0 as <- <-.
      exists (streams_ g), s, (Some q). split_and!; [done|..]; [|  |intros x Hx Hne; apply Hfr; cbn in Hx; set_solver|done].
      * unfold without. rewrite filter_cons_True by done. split; [done|]. by exists v'.
      * destruct entry as [r|]; [|by injection Hv]. split; [done|]. specialize (Hent r eq_refl). cbn in Hent.
        cbn in Hv. destruct (sinks g !! r) as [[nr sr]|] eqn:Hr; cbn in Hv; [|done]. injection Hv as ->.
        exists (Some q), sr. split; [done|]. rewrite Hfr; [done|set_solver..].
Qed.

Lemma remove_registry es g p : registry es g →
  ∃ g', RemoveLogToStream p g = Val g' ∧ registry (without p es) g' ∧ g_dbg_sev g' = g_dbg_sev g ∧ dom (sinks g') = dom (sinks g).
Proof.
  intros [Hc Hn Hm He]. unfold RemoveLogToStream.
  destruct (remove_chain p es (size (sinks g)) None (streams_ g) g eq_refl Hc Hn ltac:(done) (chain_size _ _ _ Hc Hn))
    as (h & s & v' & -> & Hc' & -> & _ & Hd). cbn [mbind_res].
  destruct (update_registry (without p es) (set_streams v' (bool_decide (v' = None)) s (set_streams v' (streams_empty_ g) s g))) as [E Hr].
  - done.
  - by apply without_NoDup.
  - cbn. apply bool_decide_ext. destruct (without p es) as [|[]]; cbn in Hc'; [done|]. destruct Hc' as [-> _]. done.
  - cbn in E |- *. rewrite E. eexists. by split_and!.
Qed.

(** ** What the registry answers *)

Lemma sev_min_value a b : severity_value (sev_min a b) = severity_value a `min` severity_value b.
Proof. unfold sev_min. destruct (Z.ltb_spec (severity_value b) (severity_value a)); lia. Qed.

Lemma min_of_le es : ∀ dbg sev, sev_leb (min_of dbg es) sev = true ↔ sev_leb dbg sev = true ∨ ∃ p s, (p, s) ∈ es ∧ sev_leb s sev = true.
Proof.
  unfold min_of, sev_leb. induction es as [|[p s] es IH]; intros dbg sev; cbn [fmap list_fmap foldl snd].
  - split; [by left|]. intros [?|(? & ? & []%not_elem_of_nil & _)]; done.
  - rewrite IH, !Z.leb_le, sev_min_value. split.
    + intros [H|(q & t & ? & ?)]; [|right; exists q, t; set_solver].
      destruct (Z.min_spec (severity_value dbg) (severity_value s)) as [[_ E]|[_ E]]; rewrite E in H; [by left|].
      right. exists p, s. split; [set_solver|by apply Z.leb_le].
    + intros [H|(q & t & Hq & H)]; [left; lia|]. apply elem_of_cons in Hq as [[= -> ->]|Hq]; [left; apply Z.leb_le in H; lia|right; by exists q, t].
Qed.

Lemma check_level_exact es g sev : registry es g →
  LogCheckLevel sev g = true ↔ sev_leb (g_dbg_sev g) sev = true ∨ ∃ p s, (p, s) ∈ es ∧ sev_leb s sev = true.
Proof. intros [_ _ Hm _]. unfold LogCheckLevel, GetMinLogSeverity. rewrite Hm. apply min_of_le. Qed.

Lemma noop_exact es g sev : registry es g → IsNoop sev g = true ↔ LogCheckLevel sev g = false ∧ es = [].
Proof.
  intros Hr. pose proof (check_level_exact es g sev Hr) as Hl. destruct Hr as [_ _ Hm He]. unfold IsNoop.
  change (sev_leb (g_min_sev g) sev) with (LogCheckLevel sev g). rewrite He.
  destruct (sev_leb (g_dbg_sev g) sev) eqn:Ed; cbn [orb].
  - split; [done|]. intros [H _]. destruct Hl as [_ Hl]. rewrite Hl in H; [done|by left].
  - destruct (LogCheckLevel sev g); [split; naive_solver|]. rewrite bool_decide_eq_true. naive_solver.
Qed.

Definition wanted (sev : LoggingSeverity) (text : list Z) (e : Z * LoggingSeverity) : option log_out :=
  if sev_leb e.2 sev then Some (OSink e.1 text sev) else None.

Lemma delete_exact es m g : registry es g →
  let text := print_stream_ (FinishPrintStream m) in
  LogMessage_delete m g = Val ((if sev_leb (g_dbg_sev g) (severity_ m) && log_to_stderr_ g then [OStderr (c_string text)] else [])
                               ++ omap (wanted (severity_ m) text) es).
Proof.
  intros [Hc Hn _ _]. destruct (all_entries_chain es g Hc Hn) as (l & E & <-). unfold LogMessage_delete. rewrite E. cbn [mbind_res sb_Release].
  unfold OutputToDebug. f_equal. f_equal; [by destruct (sev_leb _ _), (log_to_stderr_ g)|].
  clear. induction l as [|[q e] l IH]; cbn; [done|]. unfold wanted at 1. cbn.
  destruct (sev_leb (min_severity_ e) (severity_ m)); [f_equal|]; exact IH.
Qed.

Lemma get_stream_skip p l : ∀ sev, p ∉ (entry_of <$> l).*1 →
  foldl (λ sev e, if bool_decide (Some p = None) || bool_decide (Some p = Some e.1) then sev_min sev (min_severity_ e.2) else sev) sev l = sev.
Proof.
  induction l as [|[q e] l IH]; intros sev; [done|]. intros [Hq Hp]%not_elem_of_cons. cbn in Hq |- *.
  rewrite bool_decide_eq_false_2 by congruence. by apply IH.
Qed.

Lemma get_stream_exact es g p : registry es g →
  (∀ s, (p, s) ∈ es → GetLogToStream (Some p) g = Val s) ∧ (p ∉ es.*1 → GetLogToStream (Some p) g = Val LS_NONE).
Proof.
  intros [Hc Hn _ _]. destruct (all_entries_chain es g Hc Hn) as (l & E & <-). unfold GetLogToStream. rewrite E. cbn [mbind_res].
  split; [|intros Hp; by rewrite get_stream_skip]. intros s Hs. f_equal. clear E Hc.
  induction l as [|[q e] l IH]; [by apply not_elem_of_nil in Hs|]. cbn in Hn, Hs. apply NoDup_cons in Hn as [Hq Hn].
  apply elem_of_cons in Hs as [[= -> ->]|Hs]; cbn [foldl fst snd].
  - rewrite (bool_decide_eq_true_2 (Some q = Some q)), orb_true_r by done. rewrite get_stream_skip by done. by destruct (min_severity_ e).
  - rewrite (bool_decide_eq_false_2 (Some p = Some q)); [by apply IH|]. intros [= ->]. apply Hq, list_elem_of_fmap. by exists (q, s).
Qed.

(** ** Histories *)

Inductive log_op :=
| LSinkNew (p : Z) (garbage : LoggingSeverity) | LSinkDelete (p : Z)
| LAdd (p : Z) (sev : LoggingSeverity) | LRemove (p : Z)
| LDebug (sev : LoggingSeverity) | LConfigure (params : list Z)
| LStderr (b : bool) | LThreads (b : bool) | LTimestamps (b : bool) | LPrefix (prefix : list Z).

Definition log_apply (o : log_op) (g : logs) : res logs :=
  match o with
  | LSinkNew p garbage => Val (LogSink_new p garbage g)
  | LSinkDelete p => Val (LogSink_delete p g)
  | LAdd p sev => AddLogToStream p sev g
  | LRemove p => RemoveLogToStream p g
  | LDebug sev => LogToDebug sev g
  | LConfigure params => ConfigureLogging params g
  | LStderr b => Val (SetLogToStderr b g)
  | LThreads b => Val (LogThreads b g)
  | LTimestamps b => Val (LogTimestamps b g)
  | LPrefix prefix => Val (SetLogPathPrefix prefix g)
  end.
Fixpoint log_apply_all (ops : list log_op) (g : logs) : res logs :=
  match ops with [] => Val g | o :: ops => let* g := log_apply o g in log_apply_all ops g end.

(** What was asked for: who wants which severities, the latest first, and the
    objects that exist. *)
Record wishes := Wishes { w_sinks : list (Z * LoggingSeverity); w_live : gset Z; w_debug : LoggingSeverity }.
Definition wishes_new (NDEBUG : bool) : wishes := Wishes [] ∅ (if NDEBUG then LS_VERBOSE else LS_INFO).

Definition level_of (token : list Z) : option LoggingSeverity :=
  if decide (token = b#"verbose") then Some LS_VERBOSE else if decide (token = b#"info") then Some LS_INFO
  else if decide (token = b#"warning") then Some LS_WARNING else if decide (token = b#"error") then Some LS_ERROR
  else if decide (token = b#"none") then Some LS_NONE else None.
(** The debug level after the words: the level named last before the last
    "debug". *)
Fixpoint debug_after (level debug : LoggingSeverity) (words : list (list Z)) : LoggingSeverity :=
  match words with
  | [] => debug
  | t :: words =>
      match level_of t with
      | Some l => debug_after l debug words
      | None => debug_after level (if decide (t = b#"debug") then level else debug) words
      end
  end.

Definition wish (o : log_op) (w : wishes) : wishes :=
  match o with
  | LSinkNew p _ => Wishes (w_sinks w) ({[p]} ∪ w_live w) (w_debug w)
  | LSinkDelete p => Wishes (w_sinks w) (w_live w ∖ {[p]}) (w_debug w)
  | LAdd p sev => Wishes ((p, sev) :: w_sinks w) (w_live w) (w_debug w)
  | LRemove p => Wishes (without p (w_sinks w)) (w_live w) (w_debug w)
  | LDebug sev => Wishes (w_sinks w) (w_live w) sev
  | LConfigure params => Wishes (w_sinks w) (w_live w) (debug_after LS_VERBOSE (w_debug w) (tokenize params 32))
  | _ => w
  end.

(** A sink is not made where one is, not deleted while it is registered, and
    registered once. *)
Definition log_op_ok (o : log_op) (w : wishes) : Prop :=
  match o with
  | LSinkNew p _ => p ∉ w_live w
  | LSinkDelete p => p ∉ (w_sinks w).*1
  | LAdd p _ => p ∈ w_live w ∧ p ∉ (w_sinks w).*1
  | _ => True
  end.
Fixpoint log_ops_ok (ops : list log_op) (w : wishes) : Prop :=
  match ops with [] => True | o :: ops => log_op_ok o w ∧ log_ops_ok ops (wish o w) end.
Definition wish_all (ops : list log_op) (w : wishes) : wishes := foldl (λ w o, wish o w) w ops.

Definition granted (w : wishes) (g : logs) : Prop :=
  registry (w_sinks w) g ∧ dom (sinks g) = w_live w ∧ g_dbg_sev g = w_debug w.

Lemma registry_ext es g g' : registry es g → g_min_sev g' = g_min_sev g → g_dbg_sev g' = g_dbg_sev g → streams_ g' = streams_ g →
  streams_empty_ g' = streams_empty_ g → (∀ p, p ∈ es.*1 → sinks g' !! p = sinks g !! p) → registry es g'.
Proof. intros [Hc Hn Hm He] E1 E2 E3 E4 E5. split; rewrite ?E1, ?E2, ?E3, ?E4; try done. by eapply chain_frame. Qed.

Lemma debug_granted w g sev : granted w g → ∃ g', LogToDebug sev g = Val g' ∧ granted (Wishes (w_sinks w) (w_live w) sev) g' ∧
  log_to_stderr_ g' = log_to_stderr_ g ∧ thread_ g' = thread_ g ∧ timestamp_ g' = timestamp_ g ∧
  log_path_prefix_ g' = log_path_prefix_ g ∧ g_start g' = g_start g.
Proof.
  intros ([Hc Hn Hm He] & Hd & _). unfold LogToDebug.
  destruct (update_registry (w_sinks w) (set_severities (g_min_sev g) sev g)) as [-> Hr]; [done..|].
  eexists. split; [done|]. by split_and!.
Qed.

Definition next_debug (t : list Z) (level debug : LoggingSeverity) : LoggingSeverity :=
  match level_of t with Some _ => debug | None => if decide (t = b#"debug") then level else debug end.

Lemma set_flags_id g : g = set_flags (thread_ g) (timestamp_ g) g.
Proof. by destruct g. Qed.

Lemma configure_token_spec t g level debug : ∃ th tm,
  configure_token t (g, level, debug) = (set_flags th tm g, default level (level_of t), next_debug t level debug).
Proof.
  unfold configure_token, next_debug.
  case_decide; [subst t; exists (thread_ g), (timestamp_ g); by rewrite <- set_flags_id|].
  case_decide; [subst t; by eexists _, _|]. case_decide; [subst t; by eexists _, _|].
  exists (thread_ g), (timestamp_ g). rewrite <- set_flags_id. unfold level_of. by repeat case_decide.
Qed.

Lemma configure_fold ts : ∀ g level debug, ∃ th tm level',
  foldl (λ st t, configure_token t st) (g, level, debug) ts = (set_flags th tm g, level', debug_after level debug ts).
Proof.
  induction ts as [|t ts IH]; intros g level debug; cbn [foldl debug_after].
  - exists (thread_ g), (timestamp_ g), level. by rewrite <- set_flags_id.
  - destruct (configure_token_spec t g level debug) as (th & tm & ->).
    destruct (IH (set_flags th tm g) (default level (level_of t)) (next_debug t level debug)) as (th' & tm' & level' & ->).
    exists th', tm', level'. unfold next_debug. by destruct (level_of t).
Qed.

Lemma log_apply_granted o w g : granted w g → log_op_ok o w → ∃ g', log_apply o g = Val g' ∧ granted (wish o w) g'.
Proof.
  intros Hg Hok. pose proof Hg as (Hr & Hd & Hs). pose proof (r_chain _ _ Hr) as Hc.
  assert (∀ g', registry (w_sinks w) g' → dom (sinks g') = w_live w → g_dbg_sev g' = w_debug w → granted w g') as Hkeep by (by intros; split_and!).
  destruct o as [p gb|p|p sev|p|sev|params|b|b|b|pre]; cbn [log_apply wish log_op_ok] in *.
  - eexists. split; [done|]. split_and!; [|cbn; by rewrite dom_insert_L, Hd|done].
    eapply registry_ext; [done..|]. intros q Hq. cbn. rewrite lookup_insert_ne; [done|]. intros ->.
    apply Hok. rewrite <- Hd. apply (chain_dom _ _ _ Hc). by apply elem_of_list_to_set.
  - eexists. split; [done|]. split_and!; [|cbn; by rewrite dom_delete_L, Hd|done].
    eapply registry_ext; [done..|]. intros q Hq. cbn. rewrite lookup_delete_ne; [done|]. by intros ->.
  - destruct Hok as [Hl Hp]. destruct (add_registry (w_sinks w) g p sev Hr Hp) as (g' & -> & Hr' & E & E').
    { apply elem_of_dom. by rewrite Hd. }
    eexists. split; [done|]. split_and!; cbn; congruence || done.
  - destruct (remove_registry (w_sinks w) g p Hr) as (g' & -> & Hr' & E & E'). eexists. split; [done|]. split_and!; cbn; congruence || done.
  - destruct (debug_granted w g sev Hg) as (g' & -> & Hg' & _). by eexists.
  - unfold ConfigureLogging. destruct (configure_fold (tokenize params 32) g LS_VERBOSE (GetLogToDebug g)) as (th & tm & l & ->).
    destruct (debug_granted w (set_flags th tm g) (debug_after LS_VERBOSE (GetLogToDebug g) (tokenize params 32))) as (g' & -> & Hg' & _).
    { apply Hkeep; [by eapply registry_ext|done..]. }
    eexists. split; [done|]. unfold GetLogToDebug in Hg'. by rewrite Hs in Hg'.
  - eexists. split; [done|]. apply Hkeep; [by eapply registry_ext|done..].
  - eexists. split; [done|]. apply Hkeep; [by eapply registry_ext|done..].
  - eexists. split; [done|]. apply Hkeep; [by eapply registry_ext|done..].
  - eexists. split; [done|]. apply Hkeep; [by eapply registry_ext|done..].
Qed.

Lemma log_apply_all_granted ops : ∀ w g, granted w g → log_ops_ok ops w → ∃ g', log_apply_all ops g = Val g' ∧ granted (wish_all ops w) g'.
Proof.
  induction ops as [|o ops IH]; intros w g Hg; cbn [log_apply_all log_ops_ok wish_all foldl]; [by eexists|].
  intros [Ho Hops]. destruct (log_apply_granted o w g Hg Ho) as (g1 & -> & Hg1). by apply IH.
Qed.

Lemma logs_new_granted NDEBUG : granted (wishes_new NDEBUG) (logs_new NDEBUG).
Proof. split_and!; [split; try done; constructor|apply dom_empty_L|done]. Qed.

(** In any history of sinks being made, registered once, removed and
    deleted and of levels being set, every loop over the list of sinks ends and
    touches only sinks that exist; a message goes to the debug output and,
    once and the latest first, to exactly the sinks that asked for its
    severity; the cached level says whether anyone wants a severity, and a
    statement is skipped exactly when nobody does and nobody is registered. *)
Theorem log_registry_exact NDEBUG ops : log_ops_ok ops (wishes_new NDEBUG) →
  let w := wish_all ops (wishes_new NDEBUG) in
  ∃ g, log_apply_all ops (logs_new NDEBUG) = Val g ∧ NoDup (w_sinks w).*1 ∧
  (∀ m, let text := print_stream_ (FinishPrintStream m) in
     LogMessage_delete m g = Val ((if sev_leb (w_debug w) (severity_ m) && log_to_stderr_ g then [OStderr (c_string text)] else [])
                                  ++ omap (wanted (severity_ m) text) (w_sinks w))) ∧
  (∀ sev, (LogCheckLevel sev g = true ↔
             sev_leb (w_debug w) sev = true ∨ ∃ p s, (p, s) ∈ w_sinks w ∧ sev_leb s sev = true) ∧
          (IsNoop sev g = true ↔ LogCheckLevel sev g = false ∧ w_sinks w = [])) ∧
  (∀ p, (∀ s, (p, s) ∈ w_sinks w → GetLogToStream (Some p) g = Val s) ∧
        (p ∉ (w_sinks w).*1 → GetLogToStream (Some p) g = Val LS_NONE)).
Proof.
  intros Hops w. destruct (log_apply_all_granted ops _ _ (logs_new_granted NDEBUG) Hops) as (g & E & Hr & _ & Hd). fold w in Hr, Hd.
  exists g. split_and!; [done|apply (r_once _ _ Hr)|..].
  - intros m text. rewrite <- Hd. by apply delete_exact.
  - intros sev. rewrite <- Hd. split; [by apply check_level_exact|by apply noop_exact].
  - intros p. by apply get_stream_exact.
Qed.

Definition demo_ops : list log_op :=
  [LSinkNew 1 LS_NONE; LSinkNew 2 LS_INFO; LAdd 1 LS_WARNING; LAdd 2 LS_ERROR; LConfigure (b#"tstamp error debug info"); LRemove 1;
   LSinkDelete 1].

Lemma log_registry_exact_witness :
  log_ops_ok demo_ops (wishes_new true) ∧ w_sinks (wish_all demo_ops (wishes_new true)) = [(2, LS_ERROR)] ∧
  w_debug (wish_all demo_ops (wishes_new true)) = LS_ERROR ∧
  ∃ g, log_apply_all demo_ops (logs_new true) = Val g ∧ NoDup (w_sinks (wish_all demo_ops (wishes_new true))).*1.
Proof.
  assert (log_ops_ok demo_ops (wishes_new true)) as H by (cbn; set_solver).
  split_and!; [exact H|reflexivity|reflexivity|].
  destruct (log_registry_exact true demo_ops H) as (g & E & Hn & _). exists g. split; [exact E|exact Hn].
Defined.

Lemma entries_self s p sev : s !! p = Some (Sink (Some p) sev) → ∀ fuel, entries fuel s (Some p) = Undef.
Proof. intros Hp. induction fuel as [|fuel IH]; [done|]. cbn [entries]. rewrite Hp. cbn [of_mem mbind_res next_]. by rewrite IH. Qed.

(** A sink that is registered twice is its own successor, and the next loop
    over the list does not end, with whatever fuel. *)
Example sink_added_twice g sev : AddLogToStream 1 LS_INFO (LogSink_new 1 LS_NONE (logs_new true)) = Val g →
  AddLogToStream 1 sev g = Undef ∧ ∀ fuel, entries fuel (<[1 := Sink (streams_ g) sev]> (sinks g)) (Some 1) = Undef.
Proof.
  vm_compute. intros [= <-]. split; [reflexivity|]. by apply (entries_self _ 1 sev).
Qed.

(** ** The text of a statement *)










Section Text.
Context (RTC_DCHECK_IS_ON : bool).





















End Text.

(** ** From the statements to the files of the server *)





























