(* ===== verification/Helpers.v ===== *)
(** * Random strings and numbers (rtc_base/helpers.cc)

    A global generator, the one of OpenSSL or a predictable one for tests. The
    bytes OpenSSL gives are inputs. The theorems are that the characters of a
    random string are drawn without bias, that the UUIDs are those of version 4
    and all of them, and that the number that must not be zero is not. *)

From S2P Require Import Prelude.

(** The generators; the one for tests has a seed. *)
Inductive RandomGenerator := SecureRandomGenerator | TestRandomGenerator (seed_ : Z).

Definition TestRandomGenerator_new : RandomGenerator := TestRandomGenerator 7.

(** The value, and the new seed. *)
Definition GetRandom (seed : Z) : Z * Z :=
  let seed := s32 (seed * 214013 + 2531011) in (Z.land (Z.shiftr seed 16) 0x7fff, seed).

Fixpoint test_Generate (len : nat) (seed : Z) : list Z * Z :=
  match len with
  | O => ([], seed)
  | S len => let '(r, seed) := GetRandom seed in let '(bs, seed) := test_Generate len seed in (u8 r :: bs, seed)
  end.

(** [answer] is what [RAND_bytes] does: the bytes, or a failure. The result is
    the bytes in the buffer. *)
Definition Generate (len : nat) (answer : option (list Z)) (rng : RandomGenerator) : option (list Z) * RandomGenerator :=
  match rng with
  | SecureRandomGenerator => (answer, rng)
  | TestRandomGenerator seed => let '(bs, seed) := test_Generate len seed in (Some bs, TestRandomGenerator seed)
  end.

Definition SetRandomTestMode (test : bool) : RandomGenerator := if test then TestRandomGenerator_new else SecureRandomGenerator.

Definition kBase64 : list Z := b#"ABCDEFGHIJKLMNOPQRSTUVWXYZabcdefghijklmnopqrstuvwxyz0123456789+/".
Definition kHex : list Z := b#"0123456789abcdef".
Definition kUuidDigit17 : list Z := b#"89ab".

(** [table[bytes[i] % table_size]]. *)
Definition pick (table : list Z) (table_size : Z) (b : Z) : res Z := of_mem (table !! Z.to_nat (b `mod` table_size)).
Fixpoint picks (table : list Z) (table_size : Z) (bs : list Z) : res (list Z) :=
  match bs with
  | [] => Val []
  | b :: bs => let* c := pick table table_size b in let* s := picks table table_size bs in Val (c :: s)
  end.

(** The string, and whether it was made; the division by a table size of zero
    is undefined. *)
Definition CreateRandomString_with (len : nat) (table : list Z) (table_size : Z) (answer : option (list Z)) (rng : RandomGenerator)
  : res (bool * list Z * RandomGenerator) :=
  if table_size =? 0 then Undef
  else if negb (Z.rem 256 table_size =? 0) then Val (false, [], rng)
  else
    let '(bytes, rng) := Generate len answer rng in
    match bytes with
    | None => Val (false, [], rng)
    | Some bytes => let* str := picks table table_size (take len bytes) in Val (true, str, rng)
    end.
Definition CreateRandomString_out (len : nat) := CreateRandomString_with len kBase64 64.
Definition CreateRandomString_table (len : nat) (table : list Z) := CreateRandomString_with len table (s32 (Z.of_nat (length table))).
Definition CreateRandomString (len : nat) (answer : option (list Z)) (rng : RandomGenerator) : res (list Z * RandomGenerator) :=
  let* r := CreateRandomString_out len answer rng in
  let '(ok, str, rng) := r in
  match ok with true => Val (str, rng) | false => Aborted end.

(** [data->at(0)] of an empty string throws. *)
Definition CreateRandomData (length : nat) (answer : option (list Z)) (rng : RandomGenerator) : res (option (list Z) * RandomGenerator) :=
  match length with O => Aborted | _ => Val (Generate length answer rng) end.

(** Characters [i] to [j] of the bytes as hexadecimal digits. *)
Definition hex_run (bytes : list Z) (i j : nat) : res (list Z) := picks kHex 16 (take (j - i) (drop i bytes)).

Definition CreateRandomUuid (answer : option (list Z)) (rng : RandomGenerator) : res (list Z * RandomGenerator) :=
  let '(bytes, rng) := Generate 31 answer rng in
  match bytes with
  | None => Aborted
  | Some bytes =>
      let* s1 := hex_run bytes 0 8 in
      let* s2 := hex_run bytes 8 12 in
      let* s3 := hex_run bytes 12 15 in
      let* b15 := of_mem (bytes !! 15%nat) in
      let* c := pick kUuidDigit17 4 b15 in
      let* s4 := hex_run bytes 16 19 in
      let* s5 := hex_run bytes 19 31 in
      Val (s1 ++ [45] ++ s2 ++ [45] ++ [52] ++ s3 ++ [45] ++ [c] ++ s4 ++ [45] ++ s5, rng)
  end.

Section Ids.
Context (big_endian : bool).

Definition CreateRandomId (answer : option (list Z)) (rng : RandomGenerator) : res (Z * RandomGenerator) :=
  let '(bytes, rng) := Generate 4 answer rng in
  match bytes with
  | None => Aborted
  | Some bytes => Val ((if big_endian then be_decode else le_decode) (take 4 bytes), rng)
  end.

(** The operands of [|] may be evaluated in either order; [high] comes first
    when [high_first]. *)
Definition CreateRandomId64 (high_first : bool) (a1 a2 : option (list Z)) (rng : RandomGenerator) : res (Z * RandomGenerator) :=
  let* '(x, rng) := CreateRandomId a1 rng in
  let* '(y, rng) := CreateRandomId a2 rng in
  let '(high, low) := if high_first then (x, y) else (y, x) in
  Val (Z.lor (u64 (Z.shiftl high 32)) low, rng).

(** [None] when the answers are used up. *)
Fixpoint CreateRandomNonZeroId (answers : list (option (list Z))) (rng : RandomGenerator) : option (res (Z * RandomGenerator)) :=
  match answers with
  | [] => None
  | a :: answers =>
      match CreateRandomId a rng with
      | Val (id, rng) => if id =? 0 then CreateRandomNonZeroId answers rng else Some (Val (id, rng))
      | Null => Some Null
      | Aborted => Some Aborted
      | Undef => Some Undef
      end
  end.
End Ids.

(** ** Characters without bias *)

(** What [RAND_bytes] documents of a success. *)
Definition answer_ok (len : nat) (answer : option (list Z)) : Prop := ∃ bs, answer = Some bs ∧ length bs = len ∧ bytes_ok bs.

Lemma test_Generate_ok len : ∀ seed, length (test_Generate len seed).1 = len ∧ bytes_ok (test_Generate len seed).1.
Proof.
  induction len as [|len IH]; intros seed; cbn [test_Generate]; [by repeat constructor|].
  destruct (GetRandom seed) as [r seed1]. specialize (IH seed1). destruct (test_Generate len seed1) as [bs seed2]. destruct IH as [Hl Hb].
  cbn in Hl, Hb |- *. split; [by f_equal|]. constructor; [apply byte_ok_u8|done].
Qed.

Lemma Generate_ok len answer rng : answer_ok len answer → ∃ bs rng', Generate len answer rng = (Some bs, rng') ∧ length bs = len ∧ bytes_ok bs.
Proof.
  intros (bs & -> & Hl & Hb). destruct rng as [|seed]; cbn [Generate]; [by eexists _, _|].
  pose proof (test_Generate_ok len seed). destruct (test_Generate len seed) as [bs' seed']. eexists _, _. by split.
Qed.

Lemma pick_spec table n b : 0 < n ≤ Z.of_nat (length table) → pick table n b = Val (table !!! Z.to_nat (b `mod` n)).
Proof.
  intros Hn. unfold pick. assert (0 ≤ b `mod` n < n) by (apply Z.mod_pos_bound; lia).
  destruct (lookup_lt_is_Some_2 table (Z.to_nat (b `mod` n))) as [c E]; [lia|]. rewrite E. by rewrite (list_lookup_total_correct _ _ _ E).
Qed.

Lemma picks_spec table n bs : 0 < n ≤ Z.of_nat (length table) → picks table n bs = Val ((λ b, table !!! Z.to_nat (b `mod` n)) <$> bs).
Proof. intros Hn. induction bs as [|b bs IH]; [done|]. cbn [picks]. rewrite pick_spec, IH by done. done. Qed.

(** Which of the 256 bytes give the character [k]. *)
Definition hits (n k : Z) : list Z := filter (λ b, b `mod` n = k) (seqZ 0 256).

Lemma hits_even n k : 0 < n → 256 `mod` n = 0 → 0 ≤ k < n → Z.of_nat (length (hits n k)) = 256 / n.
Proof.
  intros Hn Hd Hk. assert (n ≤ 256) by (destruct (Z.le_gt_cases n 256); [done|]; rewrite Z.mod_small in Hd; lia).
  assert (forallb (λ n, if 256 `mod` n =? 0 then forallb (λ k, Z.of_nat (length (hits n k)) =? 256 / n) (seqZ 0 n) else true) (seqZ 0 257) = true)
    as Hall by (vm_compute; reflexivity).
  pose proof (below_forall 257 _ Hall n ltac:(lia)) as Hb. cbv beta in Hb. rewrite Hd in Hb. cbn [Z.eqb] in Hb.
  apply Z.eqb_eq. exact (below_forall n _ Hb k Hk).
Qed.

(** A random string is drawn from its table without bias: where the size
    of the table divides 256 the string has the length asked for, each of its
    characters is the entry of the table that one random byte names, and every
    entry is named by the same number of bytes; with any other table but the
    empty one the call fails and changes nothing. *)
Theorem random_string_unbiased len table answer rng : Z.of_nat (length table) < 2 ^ 31 → table ≠ [] →
  let n := Z.of_nat (length table) in
  (256 `mod` n = 0 → answer_ok len answer →
     ∃ bytes rng' str, Generate len answer rng = (Some bytes, rng') ∧ length bytes = len ∧ bytes_ok bytes ∧
       CreateRandomString_table len table answer rng = Val (true, str, rng') ∧ length str = len ∧
       (∀ i b, bytes !! i = Some b → str !! i = table !! Z.to_nat (b `mod` n)) ∧
       (∀ k, 0 ≤ k < n → Z.of_nat (length (hits n k)) = 256 / n)) ∧
  (256 `mod` n ≠ 0 → CreateRandomString_table len table answer rng = Val (false, [], rng)).
Proof.
  intros Hs Hne n. assert (0 < n) as Hn by (destruct table; [done|subst n; cbn; lia]).
  unfold CreateRandomString_table, CreateRandomString_with. rewrite s32_small by (unfold INT_MIN, INT_MAX; lia). fold n.
  rewrite (proj2 (Z.eqb_neq n 0)) by lia. rewrite Z.rem_mod_nonneg by lia. split.
  - intros Hd Ha. destruct (Generate_ok len answer rng Ha) as (bytes & rng' & E & Hl & Hb). rewrite E, Hd. cbn [negb Z.eqb].
    rewrite picks_spec by (subst n; lia). cbn [mbind_res]. eexists bytes, rng', _. split_and!; [done..| | |].
    + by rewrite length_fmap, length_take, Hl, Nat.min_id.
    + intros i b Hi. rewrite list_lookup_fmap, take_ge, Hi by lia. cbn [fmap option_fmap option_map].
      assert (0 ≤ b `mod` n < n) by (apply Z.mod_pos_bound; lia). symmetry. apply list_lookup_lookup_total_lt. subst n. lia.
    + intros k Hk. by apply hits_even.
  - intros Hd. by rewrite (proj2 (Z.eqb_neq _ 0)).
Qed.

Lemma random_string_unbiased_witness :
  ∃ bytes rng' str, Generate 3 (Some [17; 66; 255]) SecureRandomGenerator = (Some bytes, rng') ∧ length bytes = 3%nat ∧ bytes_ok bytes ∧
    CreateRandomString_table 3 (b#"01") (Some [17; 66; 255]) SecureRandomGenerator = Val (true, str, rng') ∧ length str = 3%nat ∧
    (∀ i b, bytes !! i = Some b → str !! i = b#"01" !! Z.to_nat (b `mod` 2)) ∧ (∀ k, 0 ≤ k < 2 → Z.of_nat (length (hits 2 k)) = 256 / 2).
Proof.
  apply (random_string_unbiased 3 (b#"01") (Some [17; 66; 255]) SecureRandomGenerator); [cbn; lia|discriminate|reflexivity|].
  exists [17; 66; 255]. split_and!; [reflexivity|reflexivity|]. repeat (apply Forall_cons; split; [unfold byte_ok; lia|]). apply Forall_nil. exact I.
Defined.

Example empty_table_undefined : CreateRandomString_table 4 [] (Some [1; 2; 3; 4]) SecureRandomGenerator = Undef.
Proof. reflexivity. Qed.
Example no_random_data_aborts : CreateRandomData 0 (Some []) SecureRandomGenerator = Aborted.
Proof. reflexivity. Qed.

(** ** UUIDs and ids *)

Definition hex_string (n : nat) (s : list Z) : Prop := length s = n ∧ Forall (λ c, c ∈ kHex) s.

(** xxxxxxxx-xxxx-4xxx-yxxx-xxxxxxxxxxxx, with y one of 8, 9, a and b. *)
Definition uuid4 (s : list Z) : Prop := ∃ s1 s2 s3 c s4 s5,
  s = s1 ++ [45] ++ s2 ++ [45] ++ [52] ++ s3 ++ [45] ++ [c] ++ s4 ++ [45] ++ s5 ∧
  hex_string 8 s1 ∧ hex_string 4 s2 ∧ hex_string 3 s3 ∧ c ∈ kUuidDigit17 ∧ hex_string 3 s4 ∧ hex_string 12 s5.

Definition hexes (bs : list Z) : list Z := (λ b, kHex !!! Z.to_nat (b `mod` 16)) <$> bs.

Lemma table_mem (table : list Z) n b : 0 < n ≤ Z.of_nat (length table) → table !!! Z.to_nat (b `mod` n) ∈ table.
Proof.
  intros Hn. assert (0 ≤ b `mod` n < n) by (apply Z.mod_pos_bound; lia).
  apply list_elem_of_lookup_total_2. lia.
Qed.

Lemma hexes_string bs : hex_string (length bs) (hexes bs).
Proof.
  split; [apply length_fmap|]. apply Forall_fmap, Forall_true. intros b. apply (table_mem kHex 16). split; [lia|]. by vm_compute.
Qed.

(** Every digit comes from its own index. *)
Lemma table_index (table : list Z) n c : n = Z.of_nat (length table) → n ≤ 256 → c ∈ table → ∃ b, 0 ≤ b < 256 ∧ table !!! Z.to_nat (b `mod` n) = c.
Proof.
  intros -> Hn (i & Hi)%list_elem_of_lookup. pose proof (lookup_lt_Some _ _ _ Hi). exists (Z.of_nat i). split; [lia|].
  rewrite Z.mod_small, Nat2Z.id by lia. by apply list_lookup_total_correct.
Qed.

Lemma hex_string_bytes n s : hex_string n s → ∃ bs, length bs = n ∧ bytes_ok bs ∧ hexes bs = s.
Proof.
  intros [<- Hs]. induction Hs as [|c s Hc _ (bs & Hl & Hb & E)]; [exists []; split_and!; [done|constructor|done]|].
  destruct (table_index kHex 16 c eq_refl ltac:(lia) Hc) as (b & Hb1 & Hb2). exists (b :: bs).
  unfold hexes in *. rewrite fmap_cons, Hb2, E. split_and!; [cbn [length]; by rewrite Hl|constructor; [exact Hb1|done]|done].
Qed.

Definition uuid_text (b1 b2 b3 : list Z) (b15 : Z) (b4 b5 : list Z) : list Z :=
  hexes b1 ++ [45] ++ hexes b2 ++ [45] ++ [52] ++ hexes b3 ++ [45] ++ [kUuidDigit17 !!! Z.to_nat (b15 `mod` 4)] ++ hexes b4 ++ [45] ++ hexes b5.

Lemma hex_run_mid pre mid post : hex_run (pre ++ mid ++ post) (length pre) (length pre + length mid) = Val (hexes mid).
Proof.
  unfold hex_run. rewrite drop_app_length, Nat.add_comm, Nat.add_sub, take_app_length. apply picks_spec. split; [lia|]. by vm_compute.
Qed.

Lemma uuid_bytes b1 b2 b3 b15 b4 b5 answer rng rng' :
  length b1 = 8%nat → length b2 = 4%nat → length b3 = 3%nat → length b4 = 3%nat → length b5 = 12%nat →
  Generate 31 answer rng = (Some (b1 ++ b2 ++ b3 ++ [b15] ++ b4 ++ b5), rng') →
  CreateRandomUuid answer rng = Val (uuid_text b1 b2 b3 b15 b4 b5, rng').
Proof.
  intros L1 L2 L3 L4 L5 E. unfold CreateRandomUuid. rewrite E.
  pose proof (hex_run_mid [] b1 (b2 ++ b3 ++ [b15] ++ b4 ++ b5)) as H1.
  pose proof (hex_run_mid b1 b2 (b3 ++ [b15] ++ b4 ++ b5)) as H2.
  pose proof (hex_run_mid (b1 ++ b2) b3 ([b15] ++ b4 ++ b5)) as H3.
  pose proof (hex_run_mid (b1 ++ b2 ++ b3 ++ [b15]) b4 b5) as H4.
  pose proof (hex_run_mid (b1 ++ b2 ++ b3 ++ [b15] ++ b4) b5 []) as H5.
  rewrite ?app_nil_r in H5. rewrite ?length_app, ?L1, ?L2, ?L3, ?L4, ?L5, <- ?app_assoc in *. cbn [length app Nat.add] in H1, H2, H3, H4, H5 |- *.
  rewrite H1, H2, H3. cbn [mbind_res].
  assert ((b1 ++ b2 ++ b3 ++ b15 :: b4 ++ b5) !! 15%nat = Some b15) as ->.
  { rewrite !app_assoc. rewrite lookup_app_r; rewrite ?length_app, ?L1, ?L2, ?L3; [done|lia]. }
  cbn [of_mem mbind_res]. rewrite pick_spec by (split; [lia|by vm_compute]). cbn [mbind_res]. rewrite H4, H5. cbn [mbind_res]. done.
Qed.

(** Random UUIDs have the form of version 4, every UUID of that form can
    be produced, and a failure of the generator never yields one. *)
Theorem uuid_exact s :
  uuid4 s ↔ ∃ bytes, length bytes = 31%nat ∧ bytes_ok bytes ∧ CreateRandomUuid (Some bytes) SecureRandomGenerator = Val (s, SecureRandomGenerator).
Proof.
  split.
  - intros (s1 & s2 & s3 & c & s4 & s5 & -> & H1 & H2 & H3 & Hc & H4 & H5).
    destruct (hex_string_bytes _ _ H1) as (b1 & L1 & B1 & <-), (hex_string_bytes _ _ H2) as (b2 & L2 & B2 & <-),
      (hex_string_bytes _ _ H3) as (b3 & L3 & B3 & <-), (hex_string_bytes _ _ H4) as (b4 & L4 & B4 & <-),
      (hex_string_bytes _ _ H5) as (b5 & L5 & B5 & <-), (table_index kUuidDigit17 4 c eq_refl ltac:(lia) Hc) as (b & Hb1 & <-).
    exists (b1 ++ b2 ++ b3 ++ [b] ++ b4 ++ b5). split_and!.
    + rewrite !length_app, L1, L2, L3, L4, L5. done.
    + unfold bytes_ok. rewrite !Forall_app. split_and!; try done. constructor; [exact Hb1|constructor].
    + by apply uuid_bytes.
  - intros (bytes & Hl & Hb & E). 
    set (b1 := take 8 bytes). set (b2 := take 4 (drop 8 bytes)). set (b3 := take 3 (drop 12 bytes)).
    set (b4 := take 3 (drop 16 bytes)). set (b5 := drop 19 bytes).
    destruct (lookup_lt_is_Some_2 bytes 15) as [b Hb15]; [lia|].
    assert (bytes = b1 ++ b2 ++ b3 ++ [b] ++ b4 ++ b5) as Ebytes.
    { subst b1 b2 b3 b4 b5. rewrite <- (take_drop 8 bytes) at 1. f_equal.
      rewrite <- (take_drop 4 (drop 8 bytes)) at 1. f_equal. rewrite drop_drop. cbn [Nat.add].
      rewrite <- (take_drop 3 (drop 12 bytes)) at 1. f_equal. rewrite drop_drop. cbn [Nat.add].
      rewrite (drop_S bytes b 15 Hb15). cbn [app]. f_equal. rewrite <- (take_drop 3 (drop 16 bytes)) at 1. f_equal. by rewrite drop_drop. }
    rewrite (uuid_bytes b1 b2 b3 b b4 b5 _ _ SecureRandomGenerator) in E;
      [|subst b1 b2 b3 b4 b5; rewrite ?length_take, ?length_drop; lia..|cbn [Generate]; by rewrite Ebytes at 1].
    injection E as <-. exists (hexes b1), (hexes b2), (hexes b3), (kUuidDigit17 !!! Z.to_nat (b `mod` 4)), (hexes b4), (hexes b5).
    split; [done|]. pose proof hexes_string as Hh.
    assert (∀ n bs, length bs = n → hex_string n (hexes bs)) as Hh' by (intros n bs <-; apply Hh).
    split_and!; try (apply Hh'; subst b1 b2 b3 b4 b5; rewrite ?length_take, ?length_drop; lia).
    apply table_mem. split; [lia|by vm_compute].
Qed.

(** The loop for a number that is not zero ends with the first answer that
    gives one, whatever the byte order, and gives that. *)
Lemma nonzero_id big_endian answers rng : Forall (answer_ok 4) answers →
  match CreateRandomNonZeroId big_endian answers rng with
  | Some (Val (id, _)) => 0 < id < 2 ^ 32
  | Some _ => False
  | None => rng = SecureRandomGenerator → Forall (λ a, a = Some [0; 0; 0; 0]) answers
  end.
Proof.
  revert rng. induction answers as [|a answers IH]; intros rng Ha; cbn [CreateRandomNonZeroId]; [by constructor|].
  apply Forall_cons in Ha as [Ha Has]. unfold CreateRandomId. destruct (Generate_ok 4 a rng Ha) as (bs & rng' & E & Hl & Hb). rewrite E.
  rewrite take_ge by lia. set (id := (if big_endian then be_decode else le_decode) bs).
  assert (0 ≤ id < 2 ^ 32 ∧ (id = 0 → bs = [0; 0; 0; 0])) as [Hid Hz].
  { destruct bs as [|x0 [|x1 [|x2 [|x3 []]]]]; try done. unfold bytes_ok in Hb. rewrite !Forall_cons in Hb. unfold byte_ok in Hb.
    subst id. destruct big_endian; [unfold be_decode; change (reverse [x0; x1; x2; x3]) with [x3; x2; x1; x0]|]; unfold le_decode;
      (split; [lia|intros ?; repeat f_equal; lia]). }
  destruct (Z.eqb_spec id 0) as [H0|H0]; [|lia].
  specialize (IH rng' Has). destruct (CreateRandomNonZeroId big_endian answers rng') as [[[]| | |]|]; try done.
  intros ->. cbn [Generate] in E. injection E as -> <-. constructor; [by rewrite (Hz H0)|by apply IH].
Qed.
