(* ===== verification/EventTracer.v ===== *)
(** * Tracing to a file (rtc_base/event_tracer.cc, trace_event.h)

    While a capture is active, any thread adds events to a queue; a logging
    thread writes them to a file as JSON. An execution is a sequence of steps of
    the threads that add events, of the logging thread, and of the owner, who
    starts and stops captures. The theorem is that the file of a capture is the
    list of the events added to it, in order and once, with at least all that
    were added before the capture was stopped, and that stopping ends. *)

From S2P Require Import Prelude StringToNumber IpAddress StringBuilder.

(** ** Values *)

(** A value with its [TRACE_VALUE_TYPE]. Strings are C strings, without the
    terminator; of a double the text [%f] prints is kept. *)
Inductive TraceValue :=
| VBool (as_bool : bool) | VUint (as_uint : Z) | VInt (as_int : Z) | VDouble (as_text : list Z) | VPointer (as_pointer : Z)
| VString (as_string : list Z) | VCopyString (as_string : list Z).

Definition value_type (v : TraceValue) : Z :=
  match v with VBool _ => 1 | VUint _ => 2 | VInt _ => 3 | VDouble _ => 4 | VPointer _ => 5 | VString _ => 6 | VCopyString _ => 7 end.

(** [SetTraceValue] for integers; [std::string] values are copied. *)
Definition SetTraceValue_uint (arg : Z) : TraceValue := VUint (u64 arg).
Definition SetTraceValue_int (arg : Z) : TraceValue := VInt (s64 (u64 arg)).
Definition SetTraceValue_string (arg : list Z) : TraceValue := VCopyString (c_string arg).

(** The loop over the characters, from the one at [*c] to the one before the
    terminator; on an empty string it starts with the terminator and runs on
    behind the string. *)
Fixpoint escape_loop (s : list Z) : list Z :=
  match s with [] => [] | c :: s => (if (c =? 34) || (c =? 92) then [92; c] else [c]) ++ escape_loop s end.
Definition escape (s : list Z) : res (list Z) := match s with [] => Undef | _ => Val (escape_loop s) end.

Definition kTraceArgBufferLength : nat := 32.
(** [%p] of the C library. *)
Definition print_pointer (p : Z) : list Z := if p =? 0 then b#"(nil)" else b#"0x" ++ hex_digits 16 p.

(** The text in the buffer, cut to it. *)
Definition in_buffer (text : list Z) : list Z :=
  let print_length := length text in
  let output_length := if Z.of_nat print_length <? Z.of_nat kTraceArgBufferLength then print_length else (kTraceArgBufferLength - 1)%nat in
  take output_length text.

Definition TraceArgValueAsString (v : TraceValue) : res (list Z) :=
  match v with
  | VString s | VCopyString s => let* e := escape s in Val ([34] ++ e ++ [34])
  | VBool b => Val (in_buffer (if b then b#"true" else b#"false"))
  | VUint n | VInt n => Val (in_buffer (decimal n))
  | VDouble text => Val (in_buffer text)
  | VPointer p => Val (in_buffer ([34] ++ print_pointer p ++ [34]))
  end.

Record TraceArg := Arg { arg_name : list Z; arg_value : TraceValue }.
Record TraceEvent := Ev {
  ev_name : list Z; category_enabled : list Z; phase : Z; ev_args : list TraceArg; timestamp : Z; pid : Z; tid : Z }.

(** ** The text of an event *)

Fixpoint args_loop (is_first_argument : bool) (args : list TraceArg) (args_str : list Z) : res (list Z) :=
  match args with
  | [] => Val args_str
  | a :: args =>
      let args_str := if is_first_argument then args_str else args_str ++ b#"," in
      let* v := TraceArgValueAsString (arg_value a) in
      args_loop false args (args_str ++ [32; 34] ++ arg_name a ++ [34] ++ b#": " ++ v)
  end.
Definition args_text (args : list TraceArg) : res (list Z) :=
  match args with
  | [] => Val []
  | _ => let* s := args_loop true args (b#", " ++ [34] ++ b#"args" ++ [34] ++ b#": {") in Val (s ++ b#" }")
  end.

Definition quoted (s : list Z) : list Z := [34] ++ s ++ [34].
Definition field (key value : list Z) : list Z := b#", " ++ quoted key ++ b#": " ++ value.
Definition event_text (has_logged_event : bool) (e : TraceEvent) : res (list Z) :=
  let* args_str := args_text (ev_args e) in
  Val ((if has_logged_event then b#"," else b#" ") ++ b#"{ " ++ quoted (b#"name") ++ b#": " ++ quoted (ev_name e)
       ++ field (b#"cat") (quoted (category_enabled e)) ++ field (b#"ph") (quoted [phase e]) ++ field (b#"ts") (decimal (timestamp e))
       ++ field (b#"pid") (decimal (pid e)) ++ field (b#"tid") (decimal (tid e)) ++ c_string args_str ++ b#"}" ++ [10]).

(** The events of a turn of the loop. *)
Fixpoint events_text (has_logged_event : bool) (es : list TraceEvent) : res (list Z) :=
  match es with
  | [] => Val []
  | e :: es => let* t := event_text has_logged_event e in let* r := events_text true es in Val (t ++ r)
  end.
Definition header_text : list Z := b#"{ " ++ quoted (b#"traceEvents") ++ b#": [" ++ [10].
Definition footer_text : list Z := b#"]}" ++ [10].

(** ** Categories *)

Definition kDisabledTracePrefix : list Z := b#"disabled-by-default-".

(** The loop compares up to the terminators. *)
Fixpoint category_loop (prefix name : list Z) : bool :=
  match prefix, name with
  | [], _ => true
  | p :: prefix, n :: name => if p =? n then category_loop prefix name else false
  | _ :: _, [] => false
  end.
Definition InternalGetCategoryEnabled (name : list Z) : list Z := if category_loop kDisabledTracePrefix name then [] else name.

(** ** The logger and its threads *)

(** Where the logging thread is; [has] is [has_logged_event]. *)
Inductive log_thread :=
| LNone | LHead | LWait (has : bool) | LSwap (has shutting_down : bool) | LWrite (has shutting_down : bool) (events : list TraceEvent)
| LFoot | LEnded.

(** The atomic flag, whether the logger exists, its queue and shutdown event,
    the text of the file that is being written and of those that are done, the
    logging thread, whether the owner waits for it, and the events of threads
    that have read the flag and not added them yet. *)
Record tracer := T {
  g_event_logging_active : bool; g_event_logger : bool; trace_events_ : list TraceEvent; shutdown_event_ : bool;
  output_file_ : option (list Z); closed_files : list (list Z); logging_thread_ : log_thread; joining : bool;
  adding : list TraceEvent }.

Definition tracer_new : tracer := T false false [] false None [] LNone false [].
Definition set_thread th t := T (g_event_logging_active t) (g_event_logger t) (trace_events_ t) (shutdown_event_ t) (output_file_ t)
  (closed_files t) th (joining t) (adding t).
Definition set_events es t := T (g_event_logging_active t) (g_event_logger t) es (shutdown_event_ t) (output_file_ t)
  (closed_files t) (logging_thread_ t) (joining t) (adding t).
Definition set_file f t := T (g_event_logging_active t) (g_event_logger t) (trace_events_ t) (shutdown_event_ t) f
  (closed_files t) (logging_thread_ t) (joining t) (adding t).
Definition set_shutdown b t := T (g_event_logging_active t) (g_event_logger t) (trace_events_ t) b (output_file_ t)
  (closed_files t) (logging_thread_ t) (joining t) (adding t).

Section Tracer.
Context (RTC_DCHECK_IS_ON : bool).
Notation dcheck := (dcheck RTC_DCHECK_IS_ON).

Definition fprintf (text : list Z) (t : tracer) : res tracer :=
  let* f := of_mem (output_file_ t) in Val (set_file (Some (f ++ text)) t).

Definition AddTraceEvent (e : TraceEvent) (t : tracer) : res tracer :=
  if g_event_logger t then Val (set_events (trace_events_ t ++ [e]) t) else Undef.

(** [InternalAddTraceEvent] reads the flag, and then adds the event. *)
Definition add_begin (e : TraceEvent) (t : tracer) : tracer :=
  if g_event_logging_active t then
    T (g_event_logging_active t) (g_event_logger t) (trace_events_ t) (shutdown_event_ t) (output_file_ t) (closed_files t)
      (logging_thread_ t) (joining t) (adding t ++ [e])
  else t.
Definition add_end (i : nat) (t : tracer) : res tracer :=
  match adding t !! i with
  | None => Undef
  | Some e =>
      AddTraceEvent e (T (g_event_logging_active t) (g_event_logger t) (trace_events_ t) (shutdown_event_ t) (output_file_ t)
                         (closed_files t) (logging_thread_ t) (joining t) (base.delete i (adding t)))
  end.
(** Both at once, for the events the owner itself adds. *)
Definition TRACE_EVENT_INSTANT0 (e : TraceEvent) (t : tracer) : res tracer :=
  if g_event_logging_active t then AddTraceEvent e t else Val t.

(** A step of [Log]; [timed_out] is whether the wait for the shutdown event
    gives up although it may be set. *)
Definition Log_step (timed_out : bool) (t : tracer) : res tracer :=
  match logging_thread_ t with
  | LHead =>
      let* _ := dcheck (bool_decide (output_file_ t ≠ None)) in
      let* t := fprintf header_text t in Val (set_thread (LWait false) t)
  | LWait has =>
      let shutting_down := shutdown_event_ t && negb timed_out in
      Val (set_thread (LSwap has shutting_down) (if shutting_down then set_shutdown false t else t))
  | LSwap has sd => Val (set_thread (LWrite has sd (trace_events_ t)) (set_events [] t))
  | LWrite has sd events =>
      let* text := events_text has events in
      let* t := fprintf text t in
      Val (set_thread (if sd then LFoot else LWait (has || negb (bool_decide (events = [])))) t)
  | LFoot =>
      let* t := fprintf footer_text t in
      let* f := of_mem (output_file_ t) in
      Val (T (g_event_logging_active t) (g_event_logger t) (trace_events_ t) (shutdown_event_ t) None (closed_files t ++ [f]) LEnded
             (joining t) (adding t))
  | LNone | LEnded => Undef
  end.

Definition Start (e : TraceEvent) (t : tracer) : res tracer :=
  let* _ := dcheck (bool_decide (output_file_ t = None)) in
  let t := set_events [] (set_file (Some []) t) in
  if g_event_logging_active t then Aborted
  else
    TRACE_EVENT_INSTANT0 e
      (T true (g_event_logger t) (trace_events_ t) (shutdown_event_ t) (output_file_ t) (closed_files t) LHead (joining t) (adding t)).

(** [Stop] up to the join. *)
Definition Stop (e : TraceEvent) (t : tracer) : res tracer :=
  let* t := TRACE_EVENT_INSTANT0 e t in
  if g_event_logging_active t then
    Val (T false (g_event_logger t) (trace_events_ t) true (output_file_ t) (closed_files t) (logging_thread_ t) true (adding t))
  else Val t.

(** [logging_thread_.Finalize()] returns when the thread has ended. *)
Definition Stop_join (t : tracer) : option tracer :=
  match logging_thread_ t with
  | LEnded => Some (T (g_event_logging_active t) (g_event_logger t) (trace_events_ t) (shutdown_event_ t) (output_file_ t) (closed_files t)
                      LNone false (adding t))
  | _ => None
  end.

Definition SetupInternalTracer (t : tracer) : res tracer :=
  if g_event_logger t then Aborted
  else Val (T (g_event_logging_active t) true [] false None (closed_files t) LNone false (adding t)).
(** [fopen] succeeds when [opens]. *)
Definition StartInternalCapture (opens : bool) (e : TraceEvent) (t : tracer) : res (bool * tracer) :=
  if negb (g_event_logger t) then Val (false, t)
  else if negb opens then Val (false, t)
  else let* t := Start e t in Val (true, t).
Definition StopInternalCapture (e : TraceEvent) (t : tracer) : res tracer := if g_event_logger t then Stop e t else Val t.
(** [ShutdownInternalTracer] after the capture was stopped. *)
Definition shutdown_delete (t : tracer) : res tracer :=
  let* _ := dcheck (g_event_logger t) in
  Val (T (g_event_logging_active t) false (trace_events_ t) (shutdown_event_ t) (output_file_ t) (closed_files t) (logging_thread_ t)
         (joining t) (adding t)).

(** ** Executions *)

Inductive trace_step :=
| TBegin (e : TraceEvent) | TEnd (i : nat) | TLog (timed_out : bool)
| TStart (opens : bool) (e : TraceEvent) | TStop (e : TraceEvent) | TJoin | TSetup | TDelete.

Definition trace_act (s : trace_step) (t : tracer) : res tracer :=
  match s with
  | TBegin e => Val (add_begin e t)
  | TEnd i => add_end i t
  | TLog timed_out => Log_step timed_out t
  | TStart opens e => let* '(_, t) := StartInternalCapture opens e t in Val t
  | TStop e => StopInternalCapture e t
  | TJoin => of_mem (Stop_join t)
  | TSetup => SetupInternalTracer t
  | TDelete => shutdown_delete t
  end.
Fixpoint trace_acts (l : list trace_step) (t : tracer) : res tracer :=
  match l with [] => Val t | s :: l => let* t := trace_act s t in trace_acts l t end.
End Tracer.

Definition demo_event (name : list Z) (args : list TraceArg) : TraceEvent := Ev name (b#"webrtc") 73 args 12 1 99.

Definition demo_trace : list trace_step :=
  [TSetup; TStart true (demo_event (b#"start") []); TLog false;
   TBegin (demo_event (b#"a") [Arg (b#"k") (VInt (-5)); Arg (b#"s") (VString [97; 34])]); TLog false; TEnd 0; TLog false; TLog false;
   TStop (demo_event (b#"stop") []); TLog false; TLog false; TLog false; TLog false; TJoin; TDelete].

(** ** What an execution did *)

(** The loop that escapes needs a character to start with. *)
Definition value_ok (v : TraceValue) : Prop := match v with VString s | VCopyString s => s ≠ [] | _ => True end.
Definition event_ok (e : TraceEvent) : Prop := Forall (λ a, value_ok (arg_value a)) (ev_args e).

(** The events added since the last start, those the logging thread has
    written, how many had been added when the capture was stopped, and the
    events of the files that are done. *)
Record account := Acc { added : list TraceEvent; written : list TraceEvent; due : nat; done_ : list (list TraceEvent) }.

Definition account_step (s : trace_step) (t : tracer) (a : account) : account :=
  match s with
  | TEnd i => Acc (added a ++ option_list (adding t !! i)) (written a) (due a) (done_ a)
  | TStart opens e => if g_event_logger t && opens then Acc [e] [] 0 (done_ a) else a
  | TStop e => if g_event_logging_active t then Acc (added a ++ [e]) (written a) (S (length (added a))) (done_ a) else a
  | TLog _ =>
      match logging_thread_ t with
      | LWrite _ _ es => Acc (added a) (written a ++ es) (due a) (done_ a)
      | LFoot => Acc (added a) (written a) (due a) (done_ a ++ [written a])
      | _ => a
      end
  | _ => a
  end.

(** What can happen: the owner does one thing at a time, starts when nothing is
    captured, and deletes the logger when no thread uses it. *)
Definition step_ok (s : trace_step) (t : tracer) : Prop :=
  match s with
  | TBegin e => event_ok e
  | TEnd i => (i < length (adding t))%nat
  | TLog _ => logging_thread_ t ≠ LNone ∧ logging_thread_ t ≠ LEnded
  | TStart _ e => joining t = false ∧ g_event_logging_active t = false ∧ event_ok e
  | TStop e => joining t = false ∧ event_ok e
  | TJoin => joining t = true ∧ logging_thread_ t = LEnded
  | TSetup => g_event_logger t = false
  | TDelete => g_event_logger t = true ∧ logging_thread_ t = LNone ∧ adding t = []
  end.

Inductive traces (dchk : bool) : tracer → account → Prop :=
| traces_new : traces dchk tracer_new (Acc [] [] 0 [])
| traces_step t a s t' : traces dchk t a → step_ok s t → trace_act dchk s t = Val t' → traces dchk t' (account_step s t a).

(** ** Text *)

Lemma TraceArgValueAsString_total v : value_ok v → ∃ t, TraceArgValueAsString v = Val t.
Proof. destruct v as [| | | | |[|c s]|[|c s]]; cbn; try done; intros _; by eexists. Qed.

Lemma args_loop_total args : ∀ first s, Forall (λ a, value_ok (arg_value a)) args → ∃ t, args_loop first args s = Val t.
Proof.
  induction args as [|a args IH]; intros first s; cbn [args_loop]; [by eexists|]. intros [Ha Hargs]%Forall_cons.
  destruct (TraceArgValueAsString_total _ Ha) as [v ->]. cbn [mbind_res]. by apply IH.
Qed.

Lemma event_text_total has e : event_ok e → ∃ t, event_text has e = Val t.
Proof.
  intros He. unfold event_text. assert (∃ t, args_text (ev_args e) = Val t) as [t ->]; [|cbn; by eexists].
  unfold args_text. unfold event_ok in He. destruct (ev_args e) as [|a args]; [by eexists|].
  match goal with |- context [args_loop true (a :: args) ?s] => destruct (args_loop_total (a :: args) true s He) as [t ->] end. cbn. by eexists.
Qed.

Lemma events_text_total es : ∀ has, Forall event_ok es → ∃ t, events_text has es = Val t.
Proof.
  induction es as [|e es IH]; intros has; cbn [events_text]; [by eexists|]. intros [He Hes]%Forall_cons.
  destruct (event_text_total has e He) as [t ->], (IH true Hes) as [r ->]. cbn. by eexists.
Qed.

Lemma events_text_app es1 es2 : ∀ has, events_text has (es1 ++ es2) =
  let* x := events_text has es1 in let* y := events_text (has || negb (bool_decide (es1 = []))) es2 in Val (x ++ y).
Proof.
  induction es1 as [|e es IH]; intros has; cbn [app events_text mbind_res].
  - rewrite bool_decide_eq_true_2 by done. cbn [negb]. rewrite orb_false_r. by destruct (events_text has es2).
  - destruct (event_text has e) as [t| | |]; cbn [mbind_res]; try done. rewrite IH. rewrite (bool_decide_eq_false_2 (e :: es = [])) by done. cbn [negb orb].
    rewrite orb_true_r. destruct (events_text true es) as [x| | |]; cbn [mbind_res]; try done.
    destruct (events_text true es2) as [y| | |]; cbn [mbind_res]; try done. by rewrite app_assoc.
Qed.

(** ** The invariant *)

Definition in_hand (th : log_thread) : list TraceEvent := match th with LWrite _ _ es => es | _ => [] end.
(** The logging thread has seen the shutdown event; it has taken the queue
    since then. *)
Definition saw (th : log_thread) : bool := match th with LSwap _ true | LWrite _ true _ | LFoot | LEnded => true | _ => false end.
Definition took (th : log_thread) : bool := match th with LWrite _ true _ | LFoot | LEnded => true | _ => false end.
Definition has_logged (th : log_thread) : option bool := match th with LWait h | LSwap h _ | LWrite h _ _ => Some h | _ => None end.

Definition is_trace (es : list TraceEvent) (f : list Z) : Prop := ∃ txt, events_text false es = Val txt ∧ f = header_text ++ txt ++ footer_text.

Definition file_ok (t : tracer) (a : account) : Prop :=
  match logging_thread_ t with
  | LNone | LEnded => output_file_ t = None
  | LHead => output_file_ t = Some [] ∧ written a = []
  | _ => ∃ txt, events_text false (written a) = Val txt ∧ output_file_ t = Some (header_text ++ txt)
  end.

Record tinv (t : tracer) (a : account) : Prop := {
  ti_none : logging_thread_ t = LNone → g_event_logging_active t = false ∧ joining t = false ∧ shutdown_event_ t = false;
  ti_some : logging_thread_ t ≠ LNone → g_event_logger t = true ∧ g_event_logging_active t = negb (joining t) ∧
              added a = written a ++ in_hand (logging_thread_ t) ++ trace_events_ t ∧
              shutdown_event_ t = joining t && negb (saw (logging_thread_ t)) ∧ (saw (logging_thread_ t) = true → joining t = true) ∧
              (joining t = true → (due a ≤ length (added a))%nat) ∧
              (took (logging_thread_ t) = true → (due a ≤ length (written a ++ in_hand (logging_thread_ t)))%nat);
  ti_has : ∀ h, has_logged (logging_thread_ t) = Some h → h = negb (bool_decide (written a = []));
  ti_file : file_ok t a;
  ti_files : Forall2 is_trace (done_ a) (closed_files t);
  ti_last : logging_thread_ t = LEnded → last (done_ a) = Some (written a);
  ti_gone : g_event_logger t = false → adding t = [] ∧ logging_thread_ t = LNone;
  ti_ok : Forall event_ok (adding t ++ trace_events_ t ++ in_hand (logging_thread_ t)) }.

#[local] Arguments header_text : simpl never.
#[local] Arguments footer_text : simpl never.

Section Invariant.
Context (RTC_DCHECK_IS_ON : bool).

Lemma forall_app3 (P : TraceEvent → Prop) x y z : Forall P (x ++ y ++ z) ↔ Forall P x ∧ Forall P y ∧ Forall P z.
Proof. by rewrite Forall_app, Forall_app. Qed.

Lemma trace_dcheck_holds (b : bool) : b = true → StringBuilder.dcheck RTC_DCHECK_IS_ON b = Val ().
Proof. intros ->. unfold StringBuilder.dcheck. by destruct RTC_DCHECK_IS_ON. Qed.

(** A step of the logging thread. *)
Lemma log_tinv t a timed_out : tinv t a → logging_thread_ t ≠ LNone → logging_thread_ t ≠ LEnded →
  ∃ t', Log_step RTC_DCHECK_IS_ON timed_out t = Val t' ∧ tinv t' (account_step (TLog timed_out) t a).
Proof.
  intros [Hno Hso Hha Hf Hfs Hla Hgo Hok] Hn He. destruct (Hso Hn) as (Hlog & Hact & Hadd & Hsh & Hsaw & Hdue & Htook). clear Hso Hno.
  unfold Log_step, file_ok in *. cbn [account_step]. destruct t as [active logger q sh out files th jo ad]. cbn in *. subst logger active.
  destruct th as [| |has|has sd|has sd es| |]; try done; cbn in *.
  - destruct Hf as [-> Hw]. rewrite trace_dcheck_holds by done. cbn. eexists. split; [done|]. split; cbn; try done.
    + intros h [= <-]. by rewrite Hw.
    + exists []. by rewrite Hw.
  - eexists. split; [done|]. destruct Hf as (txt & Ht & Hout). rewrite andb_true_r in Hsh. subst sh.
    destruct jo, timed_out; cbn in *; (split; cbn; [done|done|done|by exists txt|done|done|done|done]).
  - eexists. split; [done|]. destruct Hf as (txt & Ht & Hout).
    split; cbn; [done| |done|by exists txt|done|done|done|by rewrite app_nil_r in Hok].
    intros _. rewrite app_nil_r. split_and!; try done.
    intros E. rewrite <- Hadd. apply Hdue, Hsaw. by destruct sd.
  - destruct Hf as (txt & Ht & Hout). pose proof (Hha has eq_refl) as Ehas.
    assert (Forall event_ok es) as Hes by (rewrite !Forall_app in Hok; tauto).
    destruct (events_text_total es has Hes) as [y Hy]. rewrite Hy. cbn. rewrite Hout. cbn. eexists. split; [done|].
    assert (events_text false (written a ++ es) = Val (txt ++ y)) as Happ by (rewrite events_text_app, Ht; cbn; by rewrite <- Ehas, Hy).
    destruct sd; (split; cbn; [done| | | |done|done|done|apply Forall_app in Hok as [? Hok]; apply Forall_app in Hok as [? _]; rewrite app_nil_r; by apply Forall_app]).
    + intros _. split_and!; try done; [by rewrite Hadd, <- app_assoc|]. intros _. rewrite app_nil_r. by apply Htook.
    + done.
    + exists (txt ++ y). by rewrite <- app_assoc.
    + intros _. split_and!; try done. by rewrite Hadd, <- app_assoc.
    + intros h [= <-]. rewrite Ehas. destruct (written a), es; done.
    + exists (txt ++ y). by rewrite <- app_assoc.
  - destruct Hf as (txt & Ht & Hout). rewrite Hout. cbn. eexists. split; [done|]. split; cbn; try done.
    + apply Forall2_app; [done|]. constructor; [|done]. exists txt. split; [done|]. by rewrite <- app_assoc.
    + intros _. apply last_snoc.
Qed.

Lemma begin_tinv t a e : tinv t a → event_ok e → tinv (add_begin e t) a.
Proof.
  intros Hinv He. unfold add_begin. destruct (g_event_logging_active t) eqn:Ea; [|exact Hinv].
  destruct Hinv as [Hno Hso Hha Hf Hfs Hla Hgo Hok]. split; cbn; try done.
  - intros [? _]%Hno. congruence.
  - by rewrite Ea in Hso.
  - intros E. destruct (Hgo E) as [_ E']. destruct (Hno E') as [? _]. congruence.
  - apply forall_app3 in Hok as (? & ? & ?). apply forall_app3. split_and!; try done. apply Forall_app. split; [done|by apply Forall_singleton].
Qed.

Lemma end_tinv t a i : tinv t a → (i < length (adding t))%nat → ∃ t', add_end i t = Val t' ∧ tinv t' (account_step (TEnd i) t a).
Proof.
  intros [Hno Hso Hha Hf Hfs Hla Hgo Hok] Hi. unfold add_end. cbn [account_step]. destruct (lookup_lt_is_Some_2 _ _ Hi) as [e He]. rewrite He.
  cbn [option_list]. unfold AddTraceEvent. cbn. destruct (g_event_logger t) eqn:El.
  2:{ destruct (Hgo eq_refl) as [E _]. by rewrite E in He. }
  eexists. split; [done|]. split; cbn; try done.
  - intros H. destruct (Hso H) as (H1 & H2 & H3 & H4 & H5 & H6 & H7). split_and!; try done.
    + by rewrite H3, <- !app_assoc.
    + intros Hj. rewrite length_app. specialize (H6 Hj). lia.
  - pose proof (delete_Permutation _ _ _ He) as Hp. apply forall_app3 in Hok as (H1 & H2 & H3). apply forall_app3.
    rewrite Hp in H1. apply Forall_cons in H1 as [H0 H1]. split_and!; try done. apply Forall_app. split; [done|by apply Forall_singleton].
Qed.

Lemma start_tinv t a opens e : tinv t a → joining t = false → g_event_logging_active t = false → event_ok e →
  ∃ t', trace_act RTC_DCHECK_IS_ON (TStart opens e) t = Val t' ∧ tinv t' (account_step (TStart opens e) t a).
Proof.
  intros Hinv Hj Hact He. cbn [trace_act account_step]. unfold StartInternalCapture. destruct (g_event_logger t) eqn:El; cbn [negb andb]; [|by eexists].
  destruct opens; cbn [negb]; [|by eexists]. destruct Hinv as [Hno Hso Hha Hf Hfs Hla Hgo Hok].
  assert (logging_thread_ t = LNone) as Hth.
  { destruct (logging_thread_ t) eqn:E; [done|..]; exfalso; (destruct Hso as (_ & H & _); [done|]); rewrite Hact, Hj in H; done. }
  unfold file_ok in Hf. rewrite Hth in Hf, Hok. unfold Start. rewrite trace_dcheck_holds by (by apply bool_decide_eq_true). cbn. rewrite Hact. cbn.
  unfold TRACE_EVENT_INSTANT0, AddTraceEvent. cbn. rewrite El. cbn. eexists. split; [done|].
  destruct (Hno Hth) as (_ & _ & Hsh). apply forall_app3 in Hok as (Had & _ & _). split; cbn; try done.
  - intros _. rewrite Hj, Hsh. split_and!; done || lia.
  - apply Forall_app. split; [done|by apply Forall_singleton].
Qed.

Lemma stop_tinv t a e : tinv t a → joining t = false → event_ok e →
  ∃ t', trace_act RTC_DCHECK_IS_ON (TStop e) t = Val t' ∧ tinv t' (account_step (TStop e) t a).
Proof.
  intros Hinv Hj He. cbn [trace_act account_step]. unfold StopInternalCapture, Stop, TRACE_EVENT_INSTANT0, AddTraceEvent.
  pose proof Hinv as [Hno Hso Hha Hf Hfs Hla Hgo Hok]. destruct (g_event_logging_active t) eqn:Eact.
  2:{ destruct (g_event_logger t); [cbn; rewrite Eact|]; by eexists. }
  assert (logging_thread_ t ≠ LNone) as Hth by (intros [? _]%Hno; congruence).
  destruct (Hso Hth) as (El & _ & Hadd & Hsh & Hsaw & Hdue & Htook). rewrite El. cbn. rewrite Eact. eexists. split; [done|].
  assert (saw (logging_thread_ t) = false) as Es by (destruct (saw _); [by rewrite Hj in Hsaw; specialize (Hsaw eq_refl)|done]).
  assert (took (logging_thread_ t) = false) as Et by (destruct (logging_thread_ t) as [| | |? []|? [] ?| |]; done).
  apply forall_app3 in Hok as (Had & Hq & Hh). split; cbn; try done.
  - intros _. rewrite Es, Et. split_and!; try done.
    + by rewrite Hadd, <- !app_assoc.
    + intros _. rewrite length_app. cbn. lia.
  - apply forall_app3. split_and!; try done. apply Forall_app. split; [done|by apply Forall_singleton].
Qed.

Lemma step_tinv t a s : tinv t a → step_ok s t → ∃ t', trace_act RTC_DCHECK_IS_ON s t = Val t' ∧ tinv t' (account_step s t a).
Proof.
  intros Hinv Hok. destruct s as [e|i|timed_out|opens e|e| | |]; cbn [step_ok] in Hok.
  - eexists. split; [done|]. by apply begin_tinv.
  - by apply end_tinv.
  - destruct Hok. by apply log_tinv.
  - destruct Hok as (? & ? & ?). by apply start_tinv.
  - destruct Hok as (? & ?). by apply stop_tinv.
  - destruct Hok as [Hj Hth]. destruct Hinv as [Hno Hso Hha Hf Hfs Hla Hgo Hev]. cbn. unfold Stop_join. rewrite Hth. eexists. split; [done|].
    destruct Hso as (H1 & H2 & H3 & H4 & H5 & H6 & H7); [by rewrite Hth|]. rewrite Hj, Hth in *. unfold file_ok in Hf. rewrite Hth in Hf.
    split; cbn; try done. by intros E; destruct (Hgo E).
  - destruct Hinv as [Hno Hso Hha Hf Hfs Hla Hgo Hev]. cbn. unfold SetupInternalTracer. rewrite Hok. eexists. split; [done|].
    destruct (Hgo Hok) as [Had Hth]. destruct (Hno Hth) as (Ha & _ & _). rewrite Had. split; cbn; try done.
  - destruct Hok as (El & Hth & Had). destruct Hinv as [Hno Hso Hha Hf Hfs Hla Hgo Hev]. cbn. unfold shutdown_delete.
    rewrite trace_dcheck_holds by done. cbn. eexists. split; [done|]. split; cbn; done.
Qed.

Lemma traces_tinv t a : traces RTC_DCHECK_IS_ON t a → tinv t a.
Proof.
  induction 1 as [|t a s t' _ IH Hok E]; [by split|]. destruct (step_tinv t a s IH Hok) as (t1 & E1 & H1). congruence.
Qed.

(** ** Stopping ends *)

Fixpoint Log_steps (n : nat) (t : tracer) : res tracer :=
  match n with
  | O => Val t
  | S n => match logging_thread_ t with LEnded => Val t | _ => let* t := Log_step RTC_DCHECK_IS_ON false t in Log_steps n t end
  end.

(** Steps to the end of the thread once the shutdown event was set. *)
Definition to_end (th : log_thread) : nat :=
  match th with
  | LNone => 7 | LHead => 5 | LWait _ => 4 | LSwap _ true => 3 | LWrite _ true _ => 2 | LFoot => 1 | LEnded => 0
  | LSwap _ false => 6 | LWrite _ false _ => 5
  end.

Lemma ends_within n : ∀ t a, tinv t a → joining t = true → logging_thread_ t ≠ LNone → (to_end (logging_thread_ t) ≤ n)%nat →
  ∃ t' a', Log_steps n t = Val t' ∧ tinv t' a' ∧ logging_thread_ t' = LEnded ∧ due a' = due a ∧ added a' = added a.
Proof.
  induction n as [|n IH]; intros t a Hinv Hj Hth Hn.
  - exists t, a. split_and!; try done. by destruct (logging_thread_ t) as [| | |? []|? [] ?| |]; cbn in Hn; try lia.
  - cbn [Log_steps]. assert (logging_thread_ t = LEnded ∨ logging_thread_ t ≠ LEnded) as [E|E] by (destruct (logging_thread_ t); auto).
    { rewrite E. by exists t, a. }
    destruct (log_tinv t a false Hinv Hth E) as (t1 & E1 & H1).
    pose proof (ti_some _ _ Hinv Hth) as (_ & _ & _ & Hsh & _). rewrite Hj in Hsh. cbn [andb] in Hsh.
    assert (joining t1 = true ∧ logging_thread_ t1 ≠ LNone ∧ (to_end (logging_thread_ t1) < to_end (logging_thread_ t))%nat) as (Hj1 & Ht1 & Hlt).
    { revert E1. unfold Log_step, fprintf. destruct (logging_thread_ t) as [| |has|has sd|has sd es| |] eqn:Eth; try done; cbn in Hsh |- *.
      - destruct (StringBuilder.dcheck _ _), (output_file_ t); cbn; try done. intros [= <-]. cbn. split_and!; [done|done|lia].
      - rewrite Hsh. cbn. intros [= <-]. cbn. split_and!; [done|done|lia].
      - intros [= <-]. cbn. destruct sd; split_and!; try done; lia.
      - destruct (events_text has es), (output_file_ t); cbn; try done. intros [= <-]. cbn. destruct sd; split_and!; try done; cbn; lia.
      - destruct (output_file_ t); cbn; try done. intros [= <-]. cbn. split_and!; [done|done|lia]. }
    assert (due (account_step (TLog false) t a) = due a ∧ added (account_step (TLog false) t a) = added a) as [Ed Ea]
      by (cbn; by destruct (logging_thread_ t)).
    destruct (IH t1 _ H1 Hj1 Ht1 ltac:(lia)) as (t' & a' & E' & Hi & Hl & Hd & Hda). exists t', a'.
    rewrite E1. cbn [mbind_res]. split_and!; try done; [|congruence..]. destruct (logging_thread_ t); done.
Qed.
End Invariant.

(** Whatever threads add events, the owner starts and stops captures and
    however the logging thread is scheduled, nothing is undefined and no check
    fails; a file that is done is the JSON text of the events of its capture;
    what was added is what was written, in order and once, then what the
    logging thread holds and the queue, and a capture that ended has written at
    least what had been added when it was stopped; and a capture that is being
    stopped ends within seven steps of its thread. *)
Theorem traces_complete dchk t a : traces dchk t a →
  (∀ s, step_ok s t → ∃ t', trace_act dchk s t = Val t') ∧
  Forall2 is_trace (done_ a) (closed_files t) ∧
  (logging_thread_ t ≠ LNone → added a = written a ++ in_hand (logging_thread_ t) ++ trace_events_ t) ∧
  (logging_thread_ t = LEnded → last (done_ a) = Some (written a) ∧ (due a ≤ length (written a))%nat) ∧
  (joining t = true → ∃ t', Log_steps dchk 7 t = Val t' ∧ logging_thread_ t' = LEnded).
Proof.
  intros H. pose proof (traces_tinv dchk t a H) as Hinv. split_and!.
  - intros s Hs. destruct (step_tinv dchk t a s Hinv Hs) as (t' & E & _). by eexists.
  - apply (ti_files _ _ Hinv).
  - intros Hth. apply (ti_some _ _ Hinv Hth).
  - intros Hth. split; [by apply (ti_last _ _ Hinv)|]. destruct (ti_some _ _ Hinv) as (_ & _ & _ & _ & _ & _ & Hd); [by rewrite Hth|].
    rewrite Hth in Hd. cbn in Hd. rewrite app_nil_r in Hd. by apply Hd.
  - intros Hj. destruct (ends_within dchk 7 t a Hinv Hj) as (t' & a' & E & _ & Hl & _); [| |by exists t'].
    + intros Hth. destruct (ti_none _ _ Hinv Hth) as (_ & ? & _). congruence.
    + destruct (logging_thread_ t) as [| | |? []|? [] ?| |]; cbn; lia.
Qed.

Fixpoint steps_ok (dchk : bool) (l : list trace_step) (t : tracer) : Prop :=
  match l with [] => True | s :: l => step_ok s t ∧ ∀ t', trace_act dchk s t = Val t' → steps_ok dchk l t' end.

Lemma traces_list dchk l : ∀ t a t', traces dchk t a → steps_ok dchk l t → trace_acts dchk l t = Val t' → ∃ a', traces dchk t' a'.
Proof.
  induction l as [|s l IH]; intros t a t' Ht; cbn [steps_ok trace_acts]; [intros _ [= <-]; by exists a|]. intros [Hs Hl].
  destruct (trace_act dchk s t) as [t1| | |] eqn:E; cbn [mbind_res]; [|done..]. apply (IH t1 (account_step s t a)); [by econstructor|by apply Hl].
Qed.

Definition demo_short : list trace_step := [TSetup; TStart true (demo_event (b#"a") []); TStop (demo_event (b#"z") [])].
Definition demo_stopped : tracer := match trace_acts true demo_short tracer_new with Val t => t | _ => tracer_new end.

Lemma traces_complete_witness : ∃ a, traces true demo_stopped a ∧ joining demo_stopped = true ∧
  (∃ t', Log_steps true 7 demo_stopped = Val t' ∧ logging_thread_ t' = LEnded) ∧
  (added a = written a ++ in_hand (logging_thread_ demo_stopped) ++ trace_events_ demo_stopped).
Proof.
  assert (∃ a, traces true demo_stopped a) as [a Ha].
  { apply (traces_list true demo_short tracer_new (Acc [] [] 0 []) demo_stopped); [apply traces_new| |reflexivity].
    split; [reflexivity|]. intros t1 E1. injection E1 as <-.
    split; [split; [reflexivity|split; [reflexivity|constructor]]|]. intros t2 E2. injection E2 as <-.
    split; [split; [reflexivity|constructor]|]. intros t3 E3. exact I. }
  exists a. destruct (traces_complete true demo_stopped a Ha) as (_ & _ & H3 & _ & H5).
  split; [exact Ha|]. split; [reflexivity|]. split; [apply H5; reflexivity|apply H3; discriminate].
Defined.

Example trace_demo :
  (let* t := trace_acts true demo_trace tracer_new in Val (closed_files t)) =
  (let* text := events_text false [demo_event (b#"start") []; demo_event (b#"a") [Arg (b#"k") (VInt (-5)); Arg (b#"s") (VString [97; 34])];
                                   demo_event (b#"stop") []] in
   Val [header_text ++ text ++ footer_text]).
Proof. vm_compute. reflexivity. Qed.

(** A thread that has read the flag and is late finds no logger. *)
Example late_event_undefined :
  trace_acts true [TSetup; TStart true (demo_event (b#"start") []); TBegin (demo_event (b#"a") []); TStop (demo_event (b#"stop") []);
                   TLog false; TLog false; TLog false; TLog false; TLog false; TJoin; TDelete; TEnd 0] tracer_new = Undef.
Proof. vm_compute. reflexivity. Qed.

Example empty_string_undefined : TraceArgValueAsString (VString []) = Undef.
Proof. reflexivity. Qed.

(** ** Strings and categories *)

(** A reader of JSON strings, behind the opening quotation mark: the string, and
    the text behind the closing one. *)
Fixpoint read_string (escaped : bool) (acc text : list Z) : option (list Z * list Z) :=
  match text with
  | [] => None
  | c :: text =>
      if escaped then read_string false (acc ++ [c]) text
      else if c =? 92 then read_string true acc text
      else if c =? 34 then Some (acc, text)
      else read_string false (acc ++ [c]) text
  end.

Lemma read_escaped s : ∀ acc rest, read_string false acc (escape_loop s ++ 34 :: rest) = Some (acc ++ s, rest).
Proof.
  induction s as [|c s IH]; intros acc rest; cbn [escape_loop app]; [cbn; by rewrite app_nil_r|].
  destruct (Z.eqb_spec c 34) as [->|H1]; cbn [orb app]; [cbn; rewrite IH; by rewrite <- app_assoc|].
  destruct (Z.eqb_spec c 92) as [->|H2]; cbn [orb app]; [cbn; rewrite IH; by rewrite <- app_assoc|].
  cbn [read_string]. rewrite (proj2 (Z.eqb_neq _ _) H1), (proj2 (Z.eqb_neq _ _) H2), IH. by rewrite <- app_assoc.
Qed.

(** A string value that is not empty reads back, whatever comes behind it. *)
Lemma string_value_reads s rest : s ≠ [] →
  ∃ t, TraceArgValueAsString (VString s) = Val (34 :: t) ∧ read_string false [] (t ++ rest) = Some (s, rest).
Proof.
  intros Hs. exists (escape_loop s ++ [34]). destruct s as [|c s]; [done|]. split; [done|].
  rewrite <- app_assoc. apply (read_escaped (c :: s) [] rest).
Qed.

Lemma category_loop_prefix prefix : ∀ name, category_loop prefix name = true ↔ prefix `prefix_of` name.
Proof.
  induction prefix as [|p prefix IH]; intros name; cbn [category_loop]; [split; [intros _; apply prefix_nil|done]|].
  destruct name as [|n name]; [split; [done|]; intros [k E]; done|]. destruct (Z.eqb_spec p n) as [->|Hne].
  - rewrite IH. split; [apply prefix_cons|]. by intros ?%prefix_cons_inv_2.
  - split; [done|]. intros ?%prefix_cons_inv_1. done.
Qed.

(** A category is off exactly when its name has the prefix, or is empty. *)
Lemma category_exact name : InternalGetCategoryEnabled name = [] ↔ kDisabledTracePrefix `prefix_of` name ∨ name = [].
Proof.
  unfold InternalGetCategoryEnabled. destruct (category_loop kDisabledTracePrefix name) eqn:E.
  - apply category_loop_prefix in E. tauto.
  - split; [by right|]. intros [H|H]; [|done]. apply category_loop_prefix in H. congruence.
Qed.
