(* ===== verification/Checks.v ===== *)
(** * Checks (rtc_base/checks.h, checks.cc)

    What a check prints before it stops the process. The models of the other
    files only use that it stops; here is what it says: the place, the error of
    the system, the condition with its two operands, and the arguments streamed
    into it. The theorem is that a comparison check goes on exactly when the
    comparison of the numbers holds, whatever their types, and otherwise prints
    that text. *)

From S2P Require Import Prelude StringToNumber IpAddress StringBuilder EventTracer SafeNumerics.

Inductive CheckArgType :=
| kEnd | kInt | kLong | kLongLong | kUInt | kULong | kULongLong | kDouble | kLongDouble
| kCharP | kStdString | kStringView | kVoidP | kCheckOp.

#[global] Instance CheckArgType_eq_dec : EqDecision CheckArgType.
Proof. solve_decision. Defined.

(** The values [MakeVal] makes; of a floating point number the text [%g] prints. *)
Inductive CheckArg :=
| AInt (i : Z) | ALong (i : Z) | ALongLong (i : Z) | AUInt (i : Z) | AULong (i : Z) | AULongLong (i : Z)
| ADouble (text : list Z) | ALongDouble (text : list Z)
| ACharP (s : option (list Z)) | AStdString (s : list Z) | AStringView (s : list Z) | AVoidP (p : Z).

Definition arg_type (a : CheckArg) : CheckArgType :=
  match a with
  | AInt _ => kInt | ALong _ => kLong | ALongLong _ => kLongLong | AUInt _ => kUInt | AULong _ => kULong | AULongLong _ => kULongLong
  | ADouble _ => kDouble | ALongDouble _ => kLongDouble | ACharP _ => kCharP | AStdString _ => kStdString
  | AStringView _ => kStringView | AVoidP _ => kVoidP
  end.

(** An integer argument has the type its operand is promoted to. *)
Definition MakeVal (v : ity * Z) : CheckArg :=
  match int_promote v.1 with U32 => AUInt v.2 | I64 => ALong v.2 | U64 => AULong v.2 | _ => AInt v.2 end.

(** [AppendFormat] with a format that prints [text]: the text is predicted, room
    is made, and it is printed there. *)
Definition AppendFormat (text s : list Z) : list Z :=
  let predicted_length := length text in
  if Z.of_nat predicted_length <=? 0 then s
  else let resized := s ++ replicate predicted_length 0 in take (length s) resized ++ take predicted_length text.

(** [va_arg]. *)
Definition va_arg (t : CheckArgType) (args : list CheckArg) : res (CheckArg * list CheckArg) :=
  match args with a :: rest => if decide (arg_type a = t) then Val (a, rest) else Undef | [] => Undef end.

(** What an argument appends; a null C string is undefined. *)
Definition append_arg (a : CheckArg) (s : list Z) : res (list Z) :=
  match a with
  | AInt i | ALong i | ALongLong i | AUInt i | AULong i | AULongLong i => Val (AppendFormat (decimal i) s)
  | ADouble text | ALongDouble text => Val (AppendFormat text s)
  | ACharP (Some str) => Val (s ++ str)
  | ACharP None => Undef
  | AStdString str | AStringView str => Val (s ++ str)
  | AVoidP p => Val (AppendFormat (print_pointer p) s)
  end.

(** [ParseArg]: whether an argument was parsed, and then the rest of the format
    and of the arguments. *)
Definition ParseArg (args : list CheckArg) (fmt : list CheckArgType) (s : list Z)
  : res (bool * list CheckArg * list CheckArgType * list Z) :=
  match fmt with
  | [] => Undef
  | kEnd :: _ => Val (false, args, fmt, s)
  | kCheckOp :: _ => Val (false, args, fmt, s ++ b#"[Invalid CheckArgType]")
  | t :: fmt' =>
      let* '(a, rest) := va_arg t args in
      let* s := append_arg a s in
      Val (true, rest, fmt', s)
  end.

(** [while (ParseArg(&args, &fmt, &s));] *)
Fixpoint parse_loop (fuel : nat) (args : list CheckArg) (fmt : list CheckArgType) (s : list Z) : res (list Z) :=
  match fuel with
  | O => Undef
  | S fuel =>
      let* r := ParseArg args fmt s in
      match r with
      | (true, args, fmt, s) => parse_loop fuel args fmt s
      | (false, _, _, s) => Val s
      end
  end.

Definition place_text (what file : list Z) (line err : Z) : list Z :=
  [10; 10] ++ b#"#" ++ [10] ++ what ++ file ++ b#", line " ++ decimal line ++ [10] ++ b#"# last system error: " ++ decimal (u32 err) ++ [10].

(** The text on [stderr], up to the first NUL, before the process is aborted. *)
Definition WriteFatalLogAndAbort (output : list Z) : list Z := c_string output.

Definition FatalLog (file : list Z) (line err : Z) (message : list Z) (fmt : list CheckArgType) (args : list CheckArg) : res (list Z) :=
  let s := AppendFormat (place_text (b#"# Fatal error in: ") file line err ++ b#"# Check failed: " ++ message) [] in
  let* r :=
    (match fmt with
     | kCheckOp :: fmt =>
         let* r1 := ParseArg args fmt [] in
         match r1 with
         | (true, args, fmt, s1) =>
             let* r2 := ParseArg args fmt [] in
             match r2 with
             | (true, args, fmt, s2) => Val (args, fmt, AppendFormat (b#" (" ++ c_string s1 ++ b#" vs. " ++ c_string s2 ++ b#")" ++ [10] ++ b#"# ") s)
             | (false, args, fmt, _) => Val (args, fmt, s)
             end
         | (false, args, fmt, _) => Val (args, fmt, s)
         end
     | _ => Val (args, fmt, s ++ [10] ++ b#"# ")
     end) in
  let '(args, fmt, s) := r in
  let* s := parse_loop (S (length fmt)) args fmt s in
  Val (WriteFatalLogAndAbort s).

(** The builds without messages. *)
Definition FatalLog_short (file : list Z) (line err : Z) : list Z :=
  WriteFatalLogAndAbort (AppendFormat (place_text (b#"# Fatal error in: ") file line err ++ b#"# Check failed." ++ [10] ++ b#"# ") []).
Definition UnreachableCodeReached (file : list Z) (line err : Z) : list Z :=
  WriteFatalLogAndAbort (AppendFormat (place_text (b#"# Unreachable code reached: ") file line err ++ b#"# ") []).
Definition UnreachableCodeReached_release (err : Z) : list Z :=
  WriteFatalLogAndAbort (AppendFormat ([10; 10] ++ b#"#" ++ [10] ++ b#"# Unreachable code reached (file and line unknown)" ++ [10]
                                       ++ b#"# last system error: " ++ decimal (u32 err) ++ [10] ++ b#"# ") []).
Definition rtc_FatalMessage (file : list Z) (line err : Z) (msg : list Z) : res (list Z) := FatalLog file line err msg [kEnd] [].

(** A [LogStreamer] is its arguments, the most recent first. *)
Fixpoint streamer_Call (streamer args : list CheckArg) : list CheckArg :=
  match streamer with [] => args | a :: prior => streamer_Call prior (a :: args) end.
Definition Call (file : list Z) (line err : Z) (message : list Z) (streamer : list CheckArg) : res (list Z) :=
  let args := streamer_Call streamer [] in FatalLog file line err message ((arg_type <$> args) ++ [kEnd]) args.
Definition CallCheckOp (file : list Z) (line err : Z) (message : list Z) (streamer : list CheckArg) : res (list Z) :=
  let args := streamer_Call streamer [] in FatalLog file line err message (kCheckOp :: (arg_type <$> args) ++ [kEnd]) args.

(** How a check ends: [None] when the program goes on, or the text. *)
Definition RTC_CHECK (condition : bool) (file : list Z) (line err : Z) (text : list Z) (streamed : list CheckArg) : res (option (list Z)) :=
  if condition then Val None
  else let* t := Call file line err text (reverse streamed) in Val (Some t).

Definition op_text (op : cmp_op) : list Z :=
  match op with EqOp => b#"==" | NeOp => b#"!=" | LtOp => b#"<" | LeOp => b#"<=" | GtOp => b#">" | GeOp => b#">=" end.
(** [RTC_CHECK_OP(name, op, val1, val2)]; [text1] and [text2] are the operands
    as they are written. *)
Definition RTC_CHECK_OP (op : cmp_op) (val1 val2 : ity * Z) (file : list Z) (line err : Z) (text1 text2 : list Z) (streamed : list CheckArg)
  : res (option (list Z)) :=
  if Safe op val1 val2 then Val None
  else
    let* t := CallCheckOp file line err (text1 ++ b#" " ++ op_text op ++ b#" " ++ text2) (reverse ([MakeVal val1; MakeVal val2] ++ streamed)) in
    Val (Some t).
Definition RTC_DCHECK_OP (RTC_DCHECK_IS_ON : bool) (op : cmp_op) (val1 val2 : ity * Z) (file : list Z) (line err : Z) (text1 text2 : list Z)
  (streamed : list CheckArg) : res (option (list Z)) :=
  if RTC_DCHECK_IS_ON then RTC_CHECK_OP op val1 val2 file line err text1 text2 streamed else Val None.

(** [CheckedDivExact]: the quotient, or the text the check prints. *)
Definition CheckedDivExact (T : ity) (a b : Z) (file : list Z) (line err : Z) : res (Z + list Z) :=
  if b =? 0 then Undef
  else if (a =? lowest T) && (b =? -1) && is_signed T then Undef
  else
    let* r := RTC_CHECK_OP EqOp (int_promote T, Z.rem a b) (I32, 0) file line err (b#"a % b") (b#"0")
                [MakeVal (T, a); ACharP (Some (b#" is not evenly divisible by ")); MakeVal (T, b)] in
    match r with None => Val (inl (a ÷ b)) | Some t => Val (inr t) end.

Example check_demo :
  RTC_CHECK_OP LtOp (U64, 3) (I32, -1) (b#"a.cc") 12 2 (b#"n") (b#"limit") [ACharP (Some (b#"too many"))] =
  Val (Some ([10; 10] ++ b#"#" ++ [10] ++ b#"# Fatal error in: a.cc, line 12" ++ [10] ++ b#"# last system error: 2" ++ [10]
             ++ b#"# Check failed: n < limit (3 vs. -1)" ++ [10] ++ b#"# too many")).
Proof. vm_compute. reflexivity. Qed.

(** A null C string, which the log prints as "(null)", is undefined here. *)
Example check_null_undefined : RTC_CHECK false (b#"a.cc") 12 0 (b#"p") [ACharP None] = Undef.
Proof. vm_compute. reflexivity. Qed.

(** ** What a check prints *)

(** The text of an argument, for every one but a null C string. *)
Definition arg_text (a : CheckArg) : option (list Z) :=
  match a with
  | AInt i | ALong i | ALongLong i | AUInt i | AULong i | AULongLong i => Some (decimal i)
  | ADouble text | ALongDouble text => Some text
  | ACharP str => str
  | AStdString str | AStringView str => Some str
  | AVoidP p => Some (print_pointer p)
  end.

Lemma AppendFormat_app text s : AppendFormat text s = s ++ text.
Proof.
  unfold AppendFormat. destruct (Z.leb_spec (Z.of_nat (length text)) 0).
  - destruct text; [by rewrite app_nil_r|cbn in *; lia].
  - by rewrite take_app_length, firstn_all.
Qed.

Lemma append_arg_text a text s : arg_text a = Some text → append_arg a s = Val (s ++ text).
Proof. destruct a as [| | | | | | | |[]| | |]; cbn; intros [= <-]; by rewrite ?AppendFormat_app. Qed.

Lemma append_arg_null a s : arg_text a = None → append_arg a s = Undef.
Proof. by destruct a as [| | | | | | | |[]| | |]. Qed.

Lemma ParseArg_cons a args fmt s :
  ParseArg (a :: args) (arg_type a :: fmt) s = let* s := append_arg a s in Val (true, args, fmt, s).
Proof. destruct a; cbn; try done; by rewrite decide_True. Qed.

Lemma parse_loop_texts args : ∀ fuel texts s, (length args < fuel)%nat → Forall2 (λ a t, arg_text a = Some t) args texts →
  parse_loop fuel args ((arg_type <$> args) ++ [kEnd]) s = Val (s ++ concat texts).
Proof.
  induction args as [|a args IH]; intros [|fuel] texts s Hf Ht; cbn [length] in Hf; try lia; inversion Ht; subst.
  - cbn. by rewrite app_nil_r.
  - cbn [parse_loop fmap list_fmap app]. rewrite ParseArg_cons, (append_arg_text _ _ s) by eassumption. cbn [mbind_res].
    erewrite IH by (lia || eassumption). cbn [concat]. by rewrite <- (assoc_L (++)).
Qed.

Lemma streamer_Call_reverse streamer : ∀ args, streamer_Call streamer args = reverse streamer ++ args.
Proof. induction streamer as [|a s IH]; intros args; cbn [streamer_Call]; [done|]. rewrite IH, reverse_cons. by rewrite <- (assoc_L (++)). Qed.

Lemma MakeVal_text v : arg_text (MakeVal v) = Some (decimal v.2).
Proof. destruct v as [[] z]; reflexivity. Qed.

Lemma decimal_no_nul t z : in_range t z → c_string (decimal z) = decimal z.
Proof.
  intros H. apply c_string_id. apply decimal_spec. destruct t; ranges.
Qed.

Definition check_head (file : list Z) (line err : Z) (message : list Z) : list Z :=
  place_text (b#"# Fatal error in: ") file line err ++ b#"# Check failed: " ++ message.

Lemma CallCheckOp_text file line err message v1 v2 args texts :
  in_range v1.1 v1.2 → in_range v2.1 v2.2 → Forall2 (λ a t, arg_text a = Some t) args texts →
  CallCheckOp file line err message (reverse ([MakeVal v1; MakeVal v2] ++ args)) =
  Val (c_string (check_head file line err message ++ b#" (" ++ decimal v1.2 ++ b#" vs. " ++ decimal v2.2 ++ b#")" ++ [10] ++ b#"# " ++ concat texts)).
Proof.
  intros H1 H2 Ht. unfold CallCheckOp. rewrite streamer_Call_reverse, reverse_involutive, app_nil_r. cbn [app fmap list_fmap].
  unfold FatalLog. rewrite ParseArg_cons, (append_arg_text _ _ _ (MakeVal_text v1)). cbn [mbind_res].
  rewrite ParseArg_cons, (append_arg_text _ _ _ (MakeVal_text v2)). cbn [mbind_res app].
  rewrite !AppendFormat_app, (decimal_no_nul _ _ H1), (decimal_no_nul _ _ H2).
  rewrite (parse_loop_texts _ _ texts) by (done || rewrite ?length_app, ?length_fmap; lia).
  cbn [mbind_res]. unfold WriteFatalLogAndAbort, check_head. by rewrite app_nil_l, <- !(assoc_L (++)).
Qed.

Lemma parse_loop_null args : ∀ fuel s, mapM arg_text args = None → parse_loop fuel args ((arg_type <$> args) ++ [kEnd]) s = Undef.
Proof.
  induction args as [|a args IH]; intros [|fuel] s Hn; try done.
  cbn [parse_loop fmap list_fmap app]. rewrite ParseArg_cons. cbn in Hn. destruct (arg_text a) as [t|] eqn:Ea.
  - rewrite (append_arg_text _ _ s Ea). cbn [mbind_res]. apply IH. cbn in Hn. by destruct (mapM arg_text args).
  - by rewrite (append_arg_null _ s Ea).
Qed.

Lemma CallCheckOp_null file line err message v1 v2 args : mapM arg_text args = None →
  CallCheckOp file line err message (reverse ([MakeVal v1; MakeVal v2] ++ args)) = Undef.
Proof.
  intros Hn. unfold CallCheckOp. rewrite streamer_Call_reverse, reverse_involutive, app_nil_r. cbn [app fmap list_fmap].
  unfold FatalLog. rewrite ParseArg_cons, (append_arg_text _ _ _ (MakeVal_text v1)). cbn [mbind_res].
  rewrite ParseArg_cons, (append_arg_text _ _ _ (MakeVal_text v2)). cbn [mbind_res].
  by rewrite (parse_loop_null _ _ _ Hn).
Qed.

(** A comparison check, RTC_CHECK_EQ to RTC_CHECK_GT, of two integers of any
    two types goes on exactly when the numbers compare so, with no effect of a
    conversion of a negative number to an unsigned type; otherwise the process
    is stopped after a text with the place, the error of the system, the
    condition as it is written, the two numbers in decimal and every streamed
    argument in order, cut at the first NUL. With a null C string among the
    arguments the text is undefined. *)
Theorem check_op_exact op v1 v2 file line err text1 text2 streamed :
  in_range v1.1 v1.2 → in_range v2.1 v2.2 →
  (cmp_Z op v1.2 v2.2 = true → RTC_CHECK_OP op v1 v2 file line err text1 text2 streamed = Val None) ∧
  (cmp_Z op v1.2 v2.2 = false →
   (∀ texts, mapM arg_text streamed = Some texts →
    RTC_CHECK_OP op v1 v2 file line err text1 text2 streamed =
    Val (Some (c_string (check_head file line err (text1 ++ b#" " ++ op_text op ++ b#" " ++ text2)
                         ++ b#" (" ++ decimal v1.2 ++ b#" vs. " ++ decimal v2.2 ++ b#")" ++ [10] ++ b#"# " ++ concat texts)))) ∧
   (mapM arg_text streamed = None → RTC_CHECK_OP op v1 v2 file line err text1 text2 streamed = Undef)).
Proof.
  intros H1 H2. unfold RTC_CHECK_OP. rewrite (safe_exact op v1 v2 H1 H2).
  split; [by intros ->|]. intros ->. split.
  - intros texts Ht. apply mapM_Some_1 in Ht. by rewrite (CallCheckOp_text _ _ _ _ _ _ _ _ H1 H2 Ht).
  - intros Hn. rewrite CallCheckOp_null; done.
Qed.

Lemma check_op_exact_witness :
  RTC_CHECK_OP LtOp (U64, 3) (I32, -1) (b#"a.cc") 12 2 (b#"n") (b#"limit") [ACharP (Some (b#"too many"))] ≠ Val None ∧
  RTC_CHECK_OP LtOp (I32, -1) (U64, 3) (b#"a.cc") 12 2 (b#"n") (b#"limit") [] = Val None.
Proof.
  assert (in_range U64 3) as H3 by ranges. assert (in_range I32 (-1)) as H1 by ranges.
  split.
  - destruct (check_op_exact LtOp (U64, 3) (I32, -1) (b#"a.cc") 12 2 (b#"n") (b#"limit") [ACharP (Some (b#"too many"))] H3 H1) as [_ Hf].
    destruct (Hf eq_refl) as [Ht _]. rewrite (Ht [b#"too many"] eq_refl). discriminate.
  - by apply (check_op_exact LtOp (I32, -1) (U64, 3) (b#"a.cc") 12 2 (b#"n") (b#"limit") [] H1 H3).
Defined.
