(* ===== verification/Identity.v ===== *)
(** * Keys, certificates and identities
      (rtc_base/openssl_key_pair, openssl_certificate, openssl_identity,
      ssl_certificate, ssl_identity.cc: Create, rtc_certificate,
      rtc_certificate_generator.cc)

    The code that makes, reads, copies, compares, prints and gives up keys and
    certificates. The objects of OpenSSL live in a heap with their reference
    counts, and every call of the library that can fail asks the library; using
    an object that was freed is undefined. The objects of the program are the
    pointers they own. The theorems are that in every program over identities,
    chains and contexts, whatever the library answers, no freed object is used
    and every object has exactly as many references as it has owners, so that
    nothing is left when the last owner is gone; that a new identity is a key
    with a certificate for it, signed with it and valid as long as was asked;
    and what of a chain is read from a text. *)

From S2P Require Import Prelude StringToNumber SafeNumerics MessageDigest SslIdentity Base64 Helpers.

(** ** The library *)

Inductive nid :=
| NID_md5WithRSA | NID_md5WithRSAEncryption
| NID_ecdsa_with_SHA1 | NID_dsaWithSHA1 | NID_dsaWithSHA1_2 | NID_sha1WithRSA | NID_sha1WithRSAEncryption
| NID_ecdsa_with_SHA224 | NID_sha224WithRSAEncryption | NID_dsa_with_SHA224
| NID_ecdsa_with_SHA256 | NID_sha256WithRSAEncryption | NID_dsa_with_SHA256
| NID_ecdsa_with_SHA384 | NID_sha384WithRSAEncryption
| NID_ecdsa_with_SHA512 | NID_sha512WithRSAEncryption
| NID_other (n : Z).

(** A key is its private encoding. *)
Definition key : Type := list Z.
(** [signed_by] is the key of the signature, and [signature] its algorithm. *)
Record X509 := Cert {
  pubkey : option key; serial : Z; version : Z; subject : list Z; issuer_name : list Z;
  notBefore : asn1_type * list Z; notAfter : asn1_type * list Z; signed_by : option key; signature : nid }.
Definition X509_blank : X509 := Cert None 0 0 [] [] (V_ASN1_OTHER, []) (V_ASN1_OTHER, []) None (NID_other 0).

(** An error in the queue of the library: where it is from, and the reason. *)
Inductive ssl_error := PEM_R_NO_START_LINE | OtherError (code : Z).

#[global] Instance ssl_error_eq_dec : EqDecision ssl_error.
Proof. solve_decision. Defined.

(** What the library answers. [lib_ok n] is whether the [n]-th call that can fail
    succeeds, and [lib_errors n] what it puts into the queue of errors otherwise.
    [read_x509] reads the next certificate of a text. *)
Class CryptoLib := {
  lib_ok : nat → bool;
  lib_errors : nat → list ssl_error;
  lib_time : nat → Z;
  lib_rand : nat → option (list Z);
  lib_serial : nat → Z;
  gen_rsa : nat → Z → Z → key;
  gen_ec : nat → key;
  key_pem : key → list Z;
  pub_pem : key → list Z;
  read_key : list Z → key + list ssl_error;
  key_missing_parameters : key → bool;
  key_cmp : key → key → Z;
  x509_pem : X509 → list Z;
  x509_der : X509 → list Z;
  read_x509 : list Z → (X509 * list Z) + list ssl_error;
  x509_cmp : X509 → X509 → Z;
  time_adj : Z → asn1_type * list Z;
  sign_nid : key → nid;
  (** Reading takes something of the text; DER is a string of bytes. *)
  read_x509_progress : ∀ text c rest, read_x509 text = inl (c, rest) → (length rest < length text)%nat;
  der_bytes : ∀ c, bytes_ok (x509_der c) }.

(** ** The heap of the library *)

Inductive kind := KX509 | KKey | KBio | KBn | KName | KRsa | KEc | KCtx.

#[global] Instance kind_eq_dec : EqDecision kind.
Proof. solve_decision. Defined.

(** A pointer with the type of what it points to. *)
Notation ptr := (nat * kind)%type.

(** A key owns the RSA or EC key it was given, and a context what it was
    configured with. *)
Inductive ossl :=
| OX509 (c : X509) | OKey (k : option key) (sub : option ptr) | OBio (text : list Z) | OBn (v : Z) | OName (n : list Z)
| ORsa (k : option key) | OEc (k : option key) | OCtx (uses : list ptr).
Definition kind_of (o : ossl) : kind :=
  match o with
  | OX509 _ => KX509 | OKey _ _ => KKey | OBio _ => KBio | OBn _ => KBn | OName _ => KName | ORsa _ => KRsa | OEc _ => KEc | OCtx _ => KCtx
  end.
Definition opt (p : option ptr) : list ptr := match p with Some p => [p] | None => [] end.
Definition children (o : ossl) : list ptr := match o with OKey _ sub => opt sub | OCtx uses => uses | _ => [] end.

Record heap := Heap { objs : gmap nat (ossl * nat); fresh : nat; calls : nat; errs : list ssl_error }.
Definition heap_new : heap := Heap ∅ 0 0 [].
Definition set_objs m h := Heap m (fresh h) (calls h) (errs h).
Definition set_errs e h := Heap (objs h) (fresh h) (calls h) e.

(** Code that calls the library. *)
Definition M (A : Type) : Type := heap → res (A * heap).
#[global] Instance M_ret : MRet M := λ _ a h, Val (a, h).
#[global] Instance M_bind : MBind M := λ _ _ f m h, match m h with Val (a, h) => f a h | Null => Null | Aborted => Aborted | Undef => Undef end.
Definition lift {A} (r : res A) : M A := λ h, let* a := r in Val (a, h).

Section Library.
Context {L : CryptoLib}.

(** A call that can fail. *)
Definition ask : M bool := λ h,
  let n := calls h in
  Val (lib_ok n, Heap (objs h) (fresh h) (S n) (if lib_ok n then errs h else errs h ++ lib_errors n)).
(** A call whose answer is some value. *)
Definition lib_answer {A} (f : nat → A) : M A := λ h, Val (f (calls h), Heap (objs h) (fresh h) (S (calls h)) (errs h)).

Definition push_errors (e : list ssl_error) : M () := λ h, Val ((), set_errs (errs h ++ e) h).
Definition ERR_peek_error : M (option ssl_error) := λ h, Val (list.head (errs h), h).

Definition alloc (o : ossl) : M ptr := λ h,
  Val ((fresh h, kind_of o), Heap (<[fresh h := (o, 1%nat)]> (objs h)) (S (fresh h)) (calls h) (errs h)).
(** [X509_new] and the like: null when there is no memory. *)
Definition new (o : ossl) : M (option ptr) := b ← ask; if b : bool then p ← alloc o; mret (Some p) else mret None.

Definition get (p : ptr) : M ossl := λ h,
  match objs h !! p.1 with Some (o, _) => if decide (kind_of o = p.2) then Val (o, h) else Undef | None => Undef end.
Definition put (p : ptr) (o : ossl) : M () := λ h,
  match objs h !! p.1 with Some (_, n) => Val ((), set_objs (<[p.1 := (o, n)]> (objs h)) h) | None => Undef end.
Definition up_ref (p : ptr) : M () := λ h,
  match objs h !! p.1 with
  | Some (o, n) => if decide (kind_of o = p.2) then Val ((), set_objs (<[p.1 := (o, S n)]> (objs h)) h) else Undef
  | None => Undef
  end.

(** A reference is given up, and with the last one the object and the
    references it holds; objects hold others to a depth of two. *)
Fixpoint unref (depth : nat) (p : ptr) (h : heap) : res heap :=
  match objs h !! p.1 with
  | Some (o, n) =>
      if decide (kind_of o = p.2) then
        match n, depth with
        | 1%nat, S depth =>
            (fix all (ps : list ptr) (h : heap) : res heap :=
               match ps with [] => Val h | q :: ps => let* h := unref depth q h in all ps h end)
              (children o) (set_objs (base.delete p.1 (objs h)) h)
        | S (S n), _ => Val (set_objs (<[p.1 := (o, S n)]> (objs h)) h)
        | _, _ => Undef
        end
      else Undef
  | None => Undef
  end.
(** [X509_free] and the like; nothing for a null pointer. *)
Definition free (p : option ptr) : M () := λ h,
  match p with None => Val ((), h) | Some p => let* h := unref 3 p h in Val ((), h) end.
Fixpoint free_all (ps : list ptr) : M () :=
  match ps with [] => mret () | p :: ps => free (Some p);; free_all ps end.

Definition get_x509 (p : ptr) : M X509 := o ← get p; match o with OX509 c => mret c | _ => lift Undef end.
Definition get_key (p : ptr) : M (option key) := o ← get p; match o with OKey k _ => mret k | _ => lift Undef end.

(** A call that sets something of a certificate and may fail. *)
Definition edit_x509 (p : ptr) (f : X509 → X509) : M bool :=
  c ← get_x509 p; b ← ask; if b : bool then put p (OX509 (f c));; mret true else mret false.

(** [&&]. *)
Definition and_also (m1 m2 : M bool) : M bool := b ← m1; if b : bool then m2 else mret false.
End Library.
Infix "&?&" := and_also (at level 62, right associativity).

(** ** Key pairs *)

Record SSLIdentityParams := Params { common_name : list Z; not_before : Z; not_after : Z; key_params : KeyParams }.

Section Code.
Context {L : CryptoLib} {E : EVP} (RTC_DCHECK_IS_ON NDEBUG : bool).
Notation dcheck := (dcheck RTC_DCHECK_IS_ON).

(** [RTC_CHECK]. *)
Definition check (b : bool) : M () := lift (c_assert b).
Definition LogSSLErrors : M () := λ h, Val ((), set_errs [] h).

Definition rsa_params (k : KeyParams) : res RSAParams :=
  let* _ := dcheck (match type_ k with KT_RSA => true | _ => false end) in
  match params_ k with URsa r => Val r | UCurve _ => Undef end.
Definition ec_curve (k : KeyParams) : res ECCurve :=
  let* _ := dcheck (match type_ k with KT_ECDSA => true | _ => false end) in
  match params_ k with UCurve c => Val c | URsa _ => Undef end.

Definition RSA_generate_key_ex (rsa : ptr) (bits e : Z) : M bool :=
  get rsa;; b ← ask; if b : bool then k ← lib_answer (λ n, gen_rsa n bits e); put rsa (ORsa (Some k));; mret true else mret false.
Definition EC_KEY_generate_key (ec : ptr) : M bool :=
  get ec;; b ← ask; if b : bool then k ← lib_answer gen_ec; put ec (OEc (Some k));; mret true else mret false.
(** [EVP_PKEY_assign_RSA] and [EVP_PKEY_assign_EC_KEY]: the key owns the other
    one from now on, and gives up one it had. *)
Definition EVP_PKEY_assign (pkey sub : ptr) : M bool :=
  o ← get sub; b ← ask;
  if b : bool then
    k ← get pkey;
    match k with
    | OKey _ old => put pkey (OKey (match o with ORsa k | OEc k => k | _ => None end) (Some sub));; free old;; mret true
    | _ => lift Undef
    end
  else mret false.

Definition MakeKey (kp : KeyParams) : M (option ptr) :=
  pkey ← new (OKey None None);
  match type_ kp with
  | KT_RSA =>
      r ← lift (rsa_params kp);
      exponent ← new (OBn 0);
      rsa ← new (ORsa None);
      ok ← match pkey, exponent, rsa with
           | Some pkey, Some exponent, Some rsa =>
               (get exponent;; b ← ask; (if b : bool then put exponent (OBn (pub_exp r)) else mret ());; mret b)
               &?& RSA_generate_key_ex rsa (s32 (mod_size r)) (pub_exp r)
               &?& EVP_PKEY_assign pkey rsa
           | _, _, _ => mret false
           end;
      if ok : bool then free exponent;; mret pkey
      else free pkey;; free exponent;; free rsa;; mret None
  | KT_ECDSA =>
      c ← lift (ec_curve kp);
      match c with
      | EC_NIST_P256 =>
          ec_key ← new (OEc None);
          match ec_key with
          | None => free pkey;; mret None
          | Some ec =>
              ok ← match pkey with
                   | Some pkey => EC_KEY_generate_key ec &?& EVP_PKEY_assign pkey ec
                   | None => mret false
                   end;
              if ok : bool then mret pkey else free pkey;; free ec_key;; mret None
          end
      | EC_LAST => free pkey;; mret None
      end
  | KT_LAST => free pkey;; mret None
  end.

(** An [OpenSSLKeyPair] is its pointer [pkey_]. *)
Definition KeyPair_Generate (kp : KeyParams) : M (option ptr) :=
  pkey ← MakeKey kp;
  match pkey with None => LogSSLErrors;; mret None | Some pkey => mret (Some pkey) end.

Definition BIO_read_key (bio : ptr) : M (option ptr) :=
  o ← get bio;
  match o with
  | OBio text =>
      b ← ask;
      if negb b then mret None
      else match read_key text with
           | inl k => p ← alloc (OKey (Some k) None); mret (Some p)
           | inr e => push_errors e;; mret None
           end
  | _ => lift Undef
  end.

Definition FromPrivateKeyPEMString (pem_string : list Z) : M (option ptr) :=
  bio ← new (OBio pem_string);
  match bio with
  | None => mret None
  | Some b =>
      pkey ← BIO_read_key b;
      free bio;;
      match pkey with
      | None => mret None
      | Some p =>
          k ← get_key p;
          if (match k with Some k => key_missing_parameters k | None => true end : bool) then free pkey;; mret None else mret pkey
      end
  end.

Definition KeyPair_delete (pkey_ : ptr) : M () := free (Some pkey_).
Definition AddReference (pkey_ : ptr) : M () := up_ref pkey_.
Definition KeyPair_Clone (pkey_ : ptr) : M ptr := AddReference pkey_;; mret pkey_.

(** [RTC_NOTREACHED] stops debug builds. *)
Definition not_reached : M () := lift (dcheck false).

Definition key_to_pem (write : key → list Z) (pkey_ : ptr) : M (list Z) :=
  bio ← new (OBio []);
  match bio with
  | None => not_reached;; mret []
  | Some _ =>
      k ← get_key pkey_; b ← ask;
      if negb b then free bio;; not_reached;; mret []
      else free bio;; mret (from_option write [] k)
  end.
Definition PrivateKeyToPEMString : ptr → M (list Z) := key_to_pem key_pem.
(** The text is read up to the first NUL. *)
Definition PublicKeyToPEMString : ptr → M (list Z) := key_to_pem (λ k, c_string (pub_pem k ++ [0])).

Definition KeyPair_eq (p q : ptr) : M bool :=
  k ← get_key p; l ← get_key q;
  mret (match k, l with Some k, Some l => key_cmp k l =? 1 | _, _ => false end).

(** ** Certificates *)

Definition set_pubkey k (c : X509) := Cert k (serial c) (version c) (subject c) (issuer_name c) (notBefore c) (notAfter c) (signed_by c) (signature c).
Definition set_serial n (c : X509) := Cert (pubkey c) n (version c) (subject c) (issuer_name c) (notBefore c) (notAfter c) (signed_by c) (signature c).
Definition set_version n (c : X509) := Cert (pubkey c) (serial c) n (subject c) (issuer_name c) (notBefore c) (notAfter c) (signed_by c) (signature c).
Definition set_subject n (c : X509) := Cert (pubkey c) (serial c) (version c) n (issuer_name c) (notBefore c) (notAfter c) (signed_by c) (signature c).
Definition set_issuer n (c : X509) := Cert (pubkey c) (serial c) (version c) (subject c) n (notBefore c) (notAfter c) (signed_by c) (signature c).
Definition set_notBefore t (c : X509) := Cert (pubkey c) (serial c) (version c) (subject c) (issuer_name c) t (notAfter c) (signed_by c) (signature c).
Definition set_notAfter t (c : X509) := Cert (pubkey c) (serial c) (version c) (subject c) (issuer_name c) (notBefore c) t (signed_by c) (signature c).
Definition set_signature k (c : X509) :=
  Cert (pubkey c) (serial c) (version c) (subject c) (issuer_name c) (notBefore c) (notAfter c) k (from_option sign_nid (NID_other 0) k).

Definition SERIAL_RAND_BITS : Z := 64.

Definition PrintCert (x509 : ptr) : M () :=
  bio ← new (OBio []);
  match bio with None => mret () | Some _ => get_x509 x509;; free bio end.

(** The random number of 64 bits goes into the certificate. *)
Definition set_random_serial (x509 serial_number : ptr) : M bool :=
  (get serial_number;; b ← ask;
   if b : bool then n ← lib_answer lib_serial; put serial_number (OBn (n `mod` 2 ^ SERIAL_RAND_BITS));; mret true else mret false)
  &?& ask
  &?& (o ← get serial_number; match o with OBn n => edit_x509 x509 (set_serial n) | _ => lift Undef end).

Definition set_names (x509 name : ptr) (cn : list Z) : M bool :=
  (get name;; b ← ask; if b : bool then put name (OName (c_string cn));; mret true else mret false)
  &?& (o ← get name; match o with OName n => edit_x509 x509 (set_subject n) | _ => lift Undef end)
  &?& (o ← get name; match o with OName n => edit_x509 x509 (set_issuer n) | _ => lift Undef end).

(** The three pointers that are given up on every way out. *)
Definition release_all (name : option ptr) (x509 : ptr) (serial_number : option ptr) : M (option ptr) :=
  free name;; free (Some x509);; free serial_number;; mret None.

Definition MakeCertificate (pkey : ptr) (params : SSLIdentityParams) : M (option ptr) :=
  x509 ← new (OX509 X509_blank);
  match x509 with
  | None => mret None
  | Some x =>
      k ← get_key pkey;
      b ← edit_x509 x (set_pubkey k);
      if negb b then release_all None x None
      else
        serial_number ← new (OBn 0);
        b ← match serial_number with Some s => set_random_serial x s | None => mret false end;
        if negb b then release_all None x serial_number
        else
          b ← edit_x509 x (set_version 2);
          if negb b then release_all None x serial_number
          else
            name ← new (OName []);
            b ← match name with Some n => set_names x n (common_name params) | None => mret false end;
            if negb b then release_all name x serial_number
            else
              b ← (edit_x509 x (set_notBefore (time_adj (not_before params)))
                   &?& edit_x509 x (set_notAfter (time_adj (not_after params))));
              if negb b then release_all name x serial_number
              else
                b ← edit_x509 x (set_signature k);
                if negb b then release_all name x serial_number
                else free name;; free serial_number;; mret x509
  end.

(** An [OpenSSLCertificate] is its pointer [x509_]. *)
Definition OpenSSLCertificate_new (x509 : ptr) : M ptr := up_ref x509;; mret x509.
Definition OpenSSLCertificate_delete (x509_ : ptr) : M () := free (Some x509_).
Definition Certificate_Clone (x509_ : ptr) : M ptr := OpenSSLCertificate_new x509_.

Definition Certificate_Generate (pkey : ptr) (params : SSLIdentityParams) : M (option ptr) :=
  cn ← (if decide (common_name params = []) then
          r ← lib_answer lib_rand; s ← lift (CreateRandomString 8 r SecureRandomGenerator); mret s.1
        else mret (common_name params));
  x509 ← MakeCertificate pkey (Params cn (not_before params) (not_after params) (key_params params));
  match x509 with
  | None => LogSSLErrors;; mret None
  | Some x =>
      (if NDEBUG then mret () else PrintCert x);;
      ret ← OpenSSLCertificate_new x;
      free x509;;
      mret (Some ret)
  end.

(** [PEM_read_bio_X509]: the certificate is taken from what is left of the text. *)
Definition PEM_read_bio_X509 (bio : ptr) : M (option ptr) :=
  o ← get bio;
  match o with
  | OBio text =>
      b ← ask;
      if negb b then mret None
      else match read_x509 text with
           | inl (c, rest) => put bio (OBio rest);; p ← alloc (OX509 c); mret (Some p)
           | inr e => push_errors e;; mret None
           end
  | _ => lift Undef
  end.

Definition Certificate_FromPEMString (pem_string : list Z) : M (option ptr) :=
  bio ← new (OBio (c_string pem_string));
  match bio with
  | None => mret None
  | Some b =>
      x509 ← PEM_read_bio_X509 b;
      free bio;;
      match x509 with
      | None => mret None
      | Some x => ret ← OpenSSLCertificate_new x; free x509;; mret (Some ret)
      end
  end.

Definition GetSignatureDigestAlgorithm (x509_ : ptr) : M (option (list Z)) :=
  c ← get_x509 x509_;
  mret (match signature c with
        | NID_md5WithRSA | NID_md5WithRSAEncryption => Some DIGEST_MD5
        | NID_ecdsa_with_SHA1 | NID_dsaWithSHA1 | NID_dsaWithSHA1_2 | NID_sha1WithRSA | NID_sha1WithRSAEncryption => Some DIGEST_SHA_1
        | NID_ecdsa_with_SHA224 | NID_sha224WithRSAEncryption | NID_dsa_with_SHA224 => Some DIGEST_SHA_224
        | NID_ecdsa_with_SHA256 | NID_sha256WithRSAEncryption | NID_dsa_with_SHA256 => Some DIGEST_SHA_256
        | NID_ecdsa_with_SHA384 | NID_sha384WithRSAEncryption => Some DIGEST_SHA_384
        | NID_ecdsa_with_SHA512 | NID_sha512WithRSAEncryption => Some DIGEST_SHA_512
        | NID_other _ => None
        end).

(** [ToPEMString] and [ToDER]. *)
Definition cert_to (write : X509 → list Z) (x509_ : ptr) : M (list Z) :=
  bio ← new (OBio []);
  check (bool_decide (bio ≠ None));;
  c ← get_x509 x509_; b ← ask; check b;;
  free bio;;
  mret (write c).
Definition ToPEMString : ptr → M (list Z) := cert_to (λ c, c_string (x509_pem c ++ [0])).
Definition ToDER : ptr → M (list Z) := cert_to x509_der.

Definition Certificate_eq (p q : ptr) : M bool := c ← get_x509 p; d ← get_x509 q; mret (x509_cmp c d =? 0).

Definition ExpirationTime (x509_ : ptr) : M Z :=
  c ← get_x509 x509_; lift (CertificateExpirationTime (notAfter c).1 (notAfter c).2 (Z.of_nat (length (notAfter c).2))).

(** ** Statistics and chains *)

(** A pointer to statistics, which is null or owns them. *)
Inductive SSLCertificateStats := NoStats | Stats (fingerprint fingerprint_algorithm base64_certificate : list Z) (issuer : SSLCertificateStats).

Definition GetStats (x509_ : ptr) : M SSLCertificateStats :=
  alg ← GetSignatureDigestAlgorithm x509_;
  match alg with
  | None => mret NoStats
  | Some alg =>
      c ← get_x509 x509_;
      f ← lift (SSLFingerprint_Create RTC_DCHECK_IS_ON alg (x509_der c));
      match f with
      | None => mret NoStats
      | Some f =>
          fingerprint ← lift (GetRfc4572Fingerprint RTC_DCHECK_IS_ON f);
          der ← ToDER x509_;
          der_base64 ← lift (EncodeFromArray der);
          mret (Stats fingerprint alg der_base64 NoStats)
      end
  end.

(** An [SSLCertChain] is the pointers of its certificates. *)
Fixpoint Chain_Clone (certs_ : list ptr) : M (list ptr) :=
  match certs_ with [] => mret [] | c :: cs => c ← Certificate_Clone c; cs ← Chain_Clone cs; mret (c :: cs) end.
Definition Chain_delete (certs_ : list ptr) : M () := free_all certs_.

(** The loop from the last certificate to the first. *)
Fixpoint stats_loop (reversed : list ptr) (issuer : SSLCertificateStats) : M SSLCertificateStats :=
  match reversed with
  | [] => mret issuer
  | c :: cs =>
      s ← GetStats c;
      stats_loop cs (match s with Stats f a b _ => Stats f a b issuer | NoStats => NoStats end)
  end.
Definition Chain_GetStats (certs_ : list ptr) : M SSLCertificateStats := stats_loop (reverse certs_) NoStats.

(** ** Identities *)

Record OpenSSLIdentity := Identity { key_pair_ : ptr; cert_chain_ : list ptr }.

Definition Identity_new (key_pair certificate : ptr) : OpenSSLIdentity := Identity key_pair [certificate].
Definition Identity_delete (i : OpenSSLIdentity) : M () := Chain_delete (cert_chain_ i);; KeyPair_delete (key_pair_ i).

Definition CreateInternal (params : SSLIdentityParams) : M (option OpenSSLIdentity) :=
  key_pair ← KeyPair_Generate (key_params params);
  match key_pair with
  | None => mret None
  | Some k =>
      certificate ← Certificate_Generate k params;
      match certificate with
      | Some c => mret (Some (Identity_new k c))
      | None => KeyPair_delete k;; mret None
      end
  end.

Definition kDefaultCertificateLifetimeInSeconds : Z := 60 * 60 * 24 * 30.
Definition kCertificateWindowInSeconds : Z := -60 * 60 * 24.

(** A sum of [time_t]. *)
Definition time_sum (a b : Z) : res Z := if (- 2 ^ 63 <=? a + b) && (a + b <? 2 ^ 63) then Val (a + b) else Undef.

Definition CreateWithExpiration (name : list Z) (kp : KeyParams) (certificate_lifetime : Z) : M (option OpenSSLIdentity) :=
  now ← lib_answer lib_time;
  nb ← lift (time_sum now kCertificateWindowInSeconds);
  na ← lift (time_sum now certificate_lifetime);
  if na <? nb then mret None else CreateInternal (Params name nb na kp).
Definition CreateForTest (params : SSLIdentityParams) : M (option OpenSSLIdentity) := CreateInternal params.

(** [SSLIdentity::Create]. *)
Definition Create (name : list Z) (kp : KeyParams) (certificate_lifetime : Z) := CreateWithExpiration name kp certificate_lifetime.
Definition Create_default (name : list Z) (kp : KeyParams) := Create name kp kDefaultCertificateLifetimeInSeconds.
Definition Create_type (name : list Z) (kt : KeyType) : M (option OpenSSLIdentity) :=
  kp ← lift (KeyParams_new kt); Create name kp kDefaultCertificateLifetimeInSeconds.

Definition CreateFromPEMStrings (private_key certificate : list Z) : M (option OpenSSLIdentity) :=
  cert ← Certificate_FromPEMString certificate;
  match cert with
  | None => mret None
  | Some c =>
      key_pair ← FromPrivateKeyPEMString private_key;
      match key_pair with
      | None => OpenSSLCertificate_delete c;; mret None
      | Some k => mret (Some (Identity_new k c))
      end
  end.

(** The loop over the certificates of the text; [None] when one of them was
    refused, and then the ones before it are gone. *)
Fixpoint read_chain (fuel : nat) (bio : ptr) (certs : list ptr) : M (option (list ptr)) :=
  match fuel with
  | O => lift Undef
  | S fuel =>
      x509 ← PEM_read_bio_X509 bio;
      match x509 with
      | None =>
          err ← ERR_peek_error;
          if decide (err = Some PEM_R_NO_START_LINE) then mret (Some certs)
          else free (Some bio);; free_all certs;; mret None
      | Some x => c ← OpenSSLCertificate_new x; free x509;; read_chain fuel bio (certs ++ [c])
      end
  end.

(** What [BIO_new_mem_buf(data, len)] reads: to the terminator when [len] is
    negative. *)
Definition mem_buf (s : list Z) (len : Z) : list Z := if len <? 0 then c_string s else take (Z.to_nat len) s.

Definition CreateFromPEMChainStrings (private_key certificate_chain : list Z) : M (option OpenSSLIdentity) :=
  len ← lift (dchecked_cast RTC_DCHECK_IS_ON I32 U64 (Z.of_nat (length certificate_chain)));
  let text := mem_buf certificate_chain len in
  bio ← new (OBio text);
  match bio with
  | None => mret None
  | Some b =>
      certs ← read_chain (S (length text)) b [];
      match certs with
      | None => mret None
      | Some certs =>
          free bio;;
          if decide (certs = []) then mret None
          else
            key_pair ← FromPrivateKeyPEMString private_key;
            match key_pair with
            | None => Chain_delete certs;; mret None
            | Some k => mret (Some (Identity k certs))
            end
      end
  end.

(** [certificate()]: the first of the chain. *)
Definition certificate (i : OpenSSLIdentity) : M ptr := lift (of_mem (list.head (cert_chain_ i))).

Definition CloneInternal (i : OpenSSLIdentity) : M OpenSSLIdentity :=
  k ← KeyPair_Clone (key_pair_ i); cs ← Chain_Clone (cert_chain_ i); mret (Identity k cs).

(** A call that makes a context use a certificate or a key, which it keeps a
    reference of until it is freed. *)
Definition ctx_use (ctx p : ptr) : M bool :=
  get p;; b ← ask;
  if b : bool then
    up_ref p;; o ← get ctx;
    match o with OCtx uses => put ctx (OCtx (p :: uses));; mret true | _ => lift Undef end
  else mret false.
Fixpoint use_chain (ctx : ptr) (certs : list ptr) : M bool :=
  match certs with
  | [] => mret true
  | c :: cs => b ← ctx_use ctx c; if b : bool then use_chain ctx cs else LogSSLErrors;; mret false
  end.
Definition ConfigureIdentity (i : OpenSSLIdentity) (ctx : ptr) : M bool :=
  cert ← certificate i;
  b ← ctx_use ctx cert &?& ctx_use ctx (key_pair_ i);
  if negb b then LogSSLErrors;; mret false else use_chain ctx (drop 1 (cert_chain_ i)).

Definition Identity_eq (a b : OpenSSLIdentity) : M bool :=
  KeyPair_eq (key_pair_ a) (key_pair_ b) &?& (c ← certificate a; d ← certificate b; Certificate_eq c d).

(** ** RTCCertificate and its generator *)

Definition Expires (i : OpenSSLIdentity) : M Z :=
  c ← certificate i; expires ← ExpirationTime c;
  mret (if negb (expires =? -1) then u64 (u64 expires * 1000) else 0).
Definition HasExpired (i : OpenSSLIdentity) (now : Z) : M bool := e ← Expires i; mret (e <=? now).
(** The two texts of an [RTCCertificatePEM]. *)
Definition ToPEM (i : OpenSSLIdentity) : M (list Z * list Z) :=
  k ← PrivateKeyToPEMString (key_pair_ i); c ← certificate i; t ← ToPEMString c; mret (k, t).
Definition FromPEM (pem : list Z * list Z) : M (option OpenSSLIdentity) := CreateFromPEMStrings pem.1 pem.2.

Definition kIdentityName : list Z := b#"WebRTC".
Definition kYearInSeconds : Z := 365 * 24 * 60 * 60.

Definition GenerateCertificate (kp : KeyParams) (expires_ms : option Z) : M (option OpenSSLIdentity) :=
  valid ← lift (KeyParams_IsValid kp);
  match valid with
  | false => mret None
  | true =>
      match expires_ms with
      | None => Create_default kIdentityName kp
      | Some ms => Create kIdentityName kp ((ms / 1000) `min` kYearInSeconds)
      end
  end.
End Code.

(** ** Who owns what *)

Definition cnt (p : ptr) (l : list ptr) : nat := length (filter (λ q, q = p) l).

Lemma cnt_app p l1 l2 : cnt p (l1 ++ l2) = (cnt p l1 + cnt p l2)%nat.
Proof. unfold cnt. by rewrite filter_app, length_app. Qed.
Lemma cnt_cons p q l : cnt p (q :: l) = ((if decide (q = p) then 1 else 0) + cnt p l)%nat.
Proof. unfold cnt. rewrite filter_cons. by destruct (decide (q = p)). Qed.
Lemma cnt_pos p l : p ∈ l ↔ (0 < cnt p l)%nat.
Proof.
  induction l as [|q l IH]; [by rewrite elem_of_nil; cbn; split; [|lia]|]. rewrite elem_of_cons, cnt_cons.
  destruct (decide (q = p)) as [->|]; [split; [lia|by left]|]. rewrite IH. split; [intros [->|]; [done|lia]|intros; right; lia].
Qed.
#[global] Instance cnt_Proper : Proper ((=) ==> (≡ₚ) ==> (=)) cnt.
Proof. intros p ? <- l1 l2 Hl. unfold cnt. by rewrite Hl. Qed.

Definition rank (k : kind) : nat := match k with KCtx => 2 | KKey => 1 | _ => 0 end.
Definition held (m : gmap nat (ossl * nat)) : list ptr := concat ((λ e, children e.2.1) <$> map_to_list m).
Definition refs (m : gmap nat (ossl * nat)) (p : ptr) : nat :=
  match m !! p.1 with Some (o, n) => if decide (kind_of o = p.2) then n else 0 | None => 0 end%nat.

(** The references in [os] and those the objects hold are all there are. *)
Record owned (h : heap) (os : list ptr) : Prop := {
  owned_count : ∀ p, cnt p (os ++ held (objs h)) = refs (objs h) p;
  owned_obj : ∀ i o n, objs h !! i = Some (o, n) →
    (0 < n)%nat ∧ (i < fresh h)%nat ∧ Forall (λ c, (rank c.2 < rank (kind_of o))%nat) (children o) }.

#[global] Instance owned_Proper : Proper ((=) ==> (≡ₚ) ==> iff) owned.
Proof.
  intros h ? <- l1 l2 Hl. split; intros [Hc Ho]; split; [|done| |done]; intros p; rewrite <- Hc; by rewrite !cnt_app, Hl.
Qed.

Lemma held_perm (m1 m2 : list (nat * (ossl * nat))) : m1 ≡ₚ m2 →
  concat ((λ e, children e.2.1) <$> m1) ≡ₚ concat ((λ e, children e.2.1) <$> m2).
Proof. intros H. rewrite <- !flat_map_concat_map. by apply Permutation_flat_map. Qed.

Lemma held_insert m i o n : m !! i = None → held (<[i := (o, n)]> m) ≡ₚ children o ++ held m.
Proof. intros H. unfold held. by rewrite (held_perm _ _ (map_to_list_insert m i (o, n) H)). Qed.

Lemma held_delete m i o n : m !! i = Some (o, n) → held m ≡ₚ children o ++ held (base.delete i m).
Proof. intros H. unfold held. by rewrite <- (held_perm _ _ (map_to_list_delete m i (o, n) H)). Qed.

Lemma held_update m i o n o' n' : m !! i = Some (o, n) → held (<[i := (o', n')]> m) ++ children o ≡ₚ held m ++ children o'.
Proof.
  intros H. rewrite <- (insert_delete_eq m). rewrite held_insert by apply lookup_delete_eq. rewrite (held_delete m i o n H). solve_Permutation.
Qed.

Lemma counts_eq m p o n : m !! p.1 = Some (o, n) → kind_of o = p.2 → refs m p = n.
Proof. intros H Hk. unfold refs. rewrite H. by rewrite decide_True. Qed.
Lemma counts_insert_ne m i x p : p.1 ≠ i → refs (<[i := x]> m) p = refs m p.
Proof. intros. unfold refs. by rewrite lookup_insert_ne. Qed.
Lemma counts_insert m o n p : refs (<[p.1 := (o, n)]> m) p = if decide (kind_of o = p.2) then n else 0%nat.
Proof. unfold refs. by rewrite lookup_insert_eq. Qed.

Lemma owned_lookup h os p : owned h os → p ∈ os → ∃ o n, objs h !! p.1 = Some (o, S n) ∧ kind_of o = p.2.
Proof.
  intros [Hc Ho] Hp. specialize (Hc p). rewrite cnt_app in Hc. apply cnt_pos in Hp. unfold refs in Hc.
  destruct (objs h !! p.1) as [[o n]|]; [|lia]. destruct (decide (kind_of o = p.2)); [|lia].
  destruct n as [|n]; [lia|]. eauto.
Qed.

(** An object changes its content or its count, and the owners with it. *)
Lemma owned_update h os os' p o n o' n' :
  owned h os → objs h !! p.1 = Some (o, n) → kind_of o = p.2 → kind_of o' = p.2 → (0 < n')%nat →
  Forall (λ c, (rank c.2 < rank p.2)%nat) (children o') →
  (∀ q, cnt q (os' ++ children o') + (if decide (q = p) then n else 0) = cnt q (os ++ children o) + (if decide (q = p) then n' else 0))%nat →
  owned (set_objs (<[p.1 := (o', n')]> (objs h)) h) os'.
Proof.
  intros [Hc Ho] Hp Hk Hk' Hn Hr Hq. split; cbn [objs set_objs fresh].
  - intros q. specialize (Hq q). specialize (Hc q). pose proof (held_update _ _ _ _ o' n' Hp) as Hh.
    apply (cnt_Proper q q eq_refl) in Hh. rewrite !cnt_app in *. assert (refs (<[p.1:=(o', n')]> (objs h)) q +
      (if decide (q = p) then n else 0) = refs (objs h) q + (if decide (q = p) then n' else 0))%nat; [|lia].
    destruct (decide (q = p)) as [->|Hne].
    + rewrite counts_insert, (counts_eq _ _ _ _ Hp Hk). rewrite decide_True by done. lia.
    + destruct (decide (q.1 = p.1)) as [Heq|]; [|by rewrite counts_insert_ne]. unfold refs. rewrite Heq, Hp, lookup_insert_eq.
      assert (q.2 ≠ p.2) by (destruct p, q; cbn in *; congruence). rewrite !decide_False by congruence. done.
  - intros i x m. rewrite lookup_insert_Some. intros [[<- [= <- <-]]|[_ Hi]]; [|by eapply Ho].
    apply Ho in Hp as (_ & Hf & _). rewrite Hk'. auto.
Qed.

Lemma owned_up h os p : owned h os → p ∈ os → ∃ o n, objs h !! p.1 = Some (o, n) ∧ kind_of o = p.2 ∧
  owned (set_objs (<[p.1 := (o, S n)]> (objs h)) h) (p :: os).
Proof.
  intros Hw Hp. destruct (owned_lookup _ _ _ Hw Hp) as (o & n & Hl & Hk). exists o, (S n). split_and!; [done..|].
  pose proof (owned_obj _ _ Hw _ _ _ Hl) as (_ & _ & Hr). rewrite Hk in Hr.
  eapply owned_update; [done..|lia|done|]. intros q. rewrite !cnt_app, cnt_cons. destruct (decide (p = q)), (decide (q = p)); subst; try done; lia.
Qed.

(** A reference less, but not the last. *)
Lemma owned_down h os p o n : owned h (p :: os) → objs h !! p.1 = Some (o, S (S n)) → kind_of o = p.2 →
  owned (set_objs (<[p.1 := (o, S n)]> (objs h)) h) os.
Proof.
  intros Hw Hl Hk. pose proof (owned_obj _ _ Hw _ _ _ Hl) as (_ & _ & Hr). rewrite Hk in Hr.
  eapply owned_update; [done..|lia|done|]. intros q. cbn [app]. rewrite cnt_cons. destruct (decide (p = q)), (decide (q = p)); subst; try done; lia.
Qed.

(** The last reference. *)
Lemma owned_delete h os p o : owned h (p :: os) → objs h !! p.1 = Some (o, 1%nat) → kind_of o = p.2 →
  owned (set_objs (base.delete p.1 (objs h)) h) (children o ++ os).
Proof.
  intros [Hc Ho] Hl Hk. split; cbn [objs set_objs fresh].
  - intros q. specialize (Hc q). pose proof (held_delete _ _ _ _ Hl) as Hh. apply (cnt_Proper q q eq_refl) in Hh.
    cbn [app] in Hc. rewrite cnt_cons, !cnt_app in *. destruct (decide (p = q)) as [<-|Hne].
    + rewrite (counts_eq _ _ _ _ Hl Hk) in Hc. unfold refs. rewrite lookup_delete_eq. lia.
    + destruct (decide (q.1 = p.1)) as [Heq|]; unfold refs in *; [|rewrite lookup_delete_ne by done; lia].
      rewrite Heq, Hl in Hc. rewrite Heq, lookup_delete_eq.
      assert (q.2 ≠ p.2) by (destruct p, q; cbn in *; congruence). rewrite decide_False in Hc by congruence. lia.
  - intros i x m. rewrite lookup_delete_Some. intros [_ Hi]. by eapply Ho.
Qed.

Lemma unref_owned depth : ∀ p os h, owned h (p :: os) → (rank p.2 < depth)%nat → ∃ h', unref depth p h = Val h' ∧ owned h' os.
Proof.
  induction depth as [|depth IH]; intros p os h Hw Hr; [lia|]. cbn [unref].
  destruct (owned_lookup _ _ p Hw) as (o & n & Hl & Hk); [by left|]. rewrite Hl, decide_True by done.
  destruct n as [|n]; [|eauto using owned_down].
  pose proof (owned_obj _ _ Hw _ _ _ Hl) as (_ & _ & Hch). rewrite Hk in Hch. apply owned_delete with (o := o) in Hw; [|done..].
  revert Hw. generalize (set_objs (base.delete p.1 (objs h)) h). clear Hl Hk h.
  induction (children o) as [|q ps IHps]; intros h Hw; [eauto|]. cbn [app] in Hw. apply Forall_cons in Hch as [Hq Hps].
  destruct (IH q _ _ Hw) as (h' & -> & Hw'); [lia|]. cbn [mbind_res]. by apply IHps.
Qed.

(** ** Specifications

    [code_spec P os m R]: code that runs while [os] are the references of the
    program uses no freed object; it stops the process, which takes [P], or gives
    a result [a] and leaves references [os'] with [R a os']. *)
Definition code_spec (P : Prop) {A} (os : list ptr) (m : M A) (R : A → list ptr → Prop) : Prop :=
  ∀ h, owned h os → (P ∧ m h = Aborted) ∨ ∃ a h' os', m h = Val (a, h') ∧ R a os' ∧ owned h' os'.

Definition keeps {A} (os : list ptr) (_ : A) (os' : list ptr) : Prop := os' ≡ₚ os.
Lemma keeps_refl {A} os (a : A) : keeps os a os.
Proof. unfold keeps. reflexivity. Qed.
#[local] Hint Resolve keeps_refl : core.
(** A reference more, unless null is returned. *)
Definition gives (os : list ptr) (k : kind) (r : option ptr) (os' : list ptr) : Prop :=
  match r with None => os' ≡ₚ os | Some p => p.2 = k ∧ os' ≡ₚ p :: os end.
Lemma gives_none os k : gives os k None os.
Proof. cbn. reflexivity. Qed.
Lemma gives_some os k i : gives os k (Some (i, k)) ((i, k) :: os).
Proof. by split. Qed.
#[local] Hint Resolve gives_none gives_some : core.

Section Specs.
Context {P : Prop}.
Notation triple := (code_spec P).

Lemma t_ret {A} os (a : A) (R : A → list ptr → Prop) : R a os → triple os (mret a) R.
Proof. intros HR h Hw. right. by exists a, h, os. Qed.

Lemma t_bind {A B} os (m : M A) (f : A → M B) R1 R2 : triple os m R1 → (∀ a os', R1 a os' → triple os' (f a) R2) → triple os (m ≫= f) R2.
Proof.
  intros Hm Hf h Hw. unfold mbind, M_bind. destruct (Hm h Hw) as [[HP ->]|(a & h' & os' & -> & HR & Hw')]; [by left|]. by apply (Hf a os').
Qed.

Lemma t_perm {A} os1 os2 (m : M A) R : os1 ≡ₚ os2 → triple os2 m R → triple os1 m R.
Proof. intros Hp Hm h Hw. apply Hm. by rewrite <- Hp. Qed.

Lemma t_weaken {A} os (m : M A) (R1 R2 : A → list ptr → Prop) : triple os m R1 → (∀ a os', R1 a os' → R2 a os') → triple os m R2.
Proof. intros Hm HR h Hw. destruct (Hm h Hw) as [|(a & h' & os' & ? & ? & ?)]; [by left|right; eauto 10]. Qed.

(** Code after which the references are the same. *)
Lemma t_keeps {A B} os (m : M A) (f : A → M B) R : triple os m (keeps os) → (∀ a, triple os (f a) R) → triple os (m ≫= f) R.
Proof. intros Hm Hf. eapply t_bind; [exact Hm|]. intros a os' Hp. by eapply t_perm. Qed.

(** Code that gives one. *)
Lemma t_gives {B} os k (m : M (option ptr)) (f : option ptr → M B) R : triple os m (gives os k) →
  triple os (f None) R → (∀ i, triple ((i, k) :: os) (f (Some (i, k))) R) → triple os (m ≫= f) R.
Proof.
  intros Hm Hn Hs. eapply t_bind; [exact Hm|]. intros [[i k']|] os'; cbn; [|intros Hp; by eapply t_perm].
  intros [-> Hp]. by eapply t_perm.
Qed.

Lemma owned_heap h h' os : objs h' = objs h → fresh h' = fresh h → owned h os → owned h' os.
Proof. intros E1 E2 [Hc Ho]. split; rewrite E1; [done|rewrite E2; exact Ho]. Qed.

Context {L : CryptoLib}.

Lemma t_ask os : triple os ask (keeps os).
Proof. intros h Hw. right. eexists _, _, os. split; [done|]. split; [done|]. by apply (owned_heap h). Qed.
Lemma t_answer {A} os (f : nat → A) : triple os (lib_answer f) (keeps os).
Proof. intros h Hw. right. eexists _, _, os. split; [done|]. split; [done|]. by apply (owned_heap h). Qed.
Lemma t_push os e : triple os (push_errors e) (keeps os).
Proof. intros h Hw. right. eexists _, _, os. split; [done|]. split; [done|]. by apply (owned_heap h). Qed.
Lemma t_peek os : triple os ERR_peek_error (keeps os).
Proof. intros h Hw. right. by eexists _, _, os. Qed.
Lemma t_log os : triple os LogSSLErrors (keeps os).
Proof. intros h Hw. right. eexists _, _, os. split; [done|]. split; [done|]. by apply (owned_heap h). Qed.

Lemma t_alloc os o : children o = [] → triple os (alloc o) (λ p os', p.2 = kind_of o ∧ os' ≡ₚ p :: os).
Proof.
  intros Hch h [Hc Ho]. right. eexists _, _, _. split; [done|]. split; [done|].
  assert (objs h !! fresh h = None) as Hf. { destruct (objs h !! fresh h) as [[]|] eqn:E; [|done]. apply Ho in E. lia. }
  split; cbn [objs fresh].
  - intros p. specialize (Hc p). cbn [app]. rewrite cnt_cons, cnt_app, held_insert, Hch by done. cbn [app]. rewrite cnt_app in Hc.
    destruct (decide ((fresh h, kind_of o) = p)) as [<-|Hne].
    + unfold refs in *. cbn [fst snd] in *. rewrite lookup_insert_eq, decide_True by done. rewrite Hf in Hc. lia.
    + unfold refs in *. destruct (decide (p.1 = fresh h)) as [Heq|]; [|rewrite lookup_insert_ne by done; lia].
      rewrite Heq, Hf in Hc. rewrite Heq, lookup_insert_eq, decide_False by (destruct p; cbn in *; congruence). lia.
  - intros i x n. rewrite lookup_insert_Some. intros [[<- [= <- <-]]|[_ Hi]].
    + rewrite Hch. split_and!; [lia..|done].
    + apply Ho in Hi as (? & ? & ?). split_and!; [done|lia|done].
Qed.

Lemma t_new os o : children o = [] → triple os (new o) (gives os (kind_of o)).
Proof.
  intros Hch. apply t_keeps; [apply t_ask|]. intros []; [|by apply t_ret].
  eapply t_bind; [by apply t_alloc|]. intros p os' [Hk Hp]. by apply t_ret.
Qed.

(** Reading an object that is owned. *)
Lemma t_get {B} os p (f : ossl → M B) R : p ∈ os → (∀ o, kind_of o = p.2 → triple os (f o) R) → triple os (get p ≫= f) R.
Proof.
  intros Hp Hf h Hw. destruct (owned_lookup _ _ _ Hw Hp) as (o & n & Hl & Hk). unfold mbind, M_bind, get. rewrite Hl, decide_True by done.
  by apply Hf.
Qed.

Lemma t_up os p : p ∈ os → triple os (up_ref p) (λ _ os', os' ≡ₚ p :: os).
Proof.
  intros Hp h Hw. destruct (owned_up _ _ _ Hw Hp) as (o & n & Hl & Hk & Hw'). right. eexists _, _, _.
  unfold up_ref. rewrite Hl, decide_True by done. by split.
Qed.

Lemma rank_low k : (rank k < 3)%nat.
Proof. destruct k; cbn; lia. Qed.

Lemma t_free os os' p : os' ≡ₚ opt p ++ os → triple os' (free p) (keeps os).
Proof.
  intros Hp h Hw. rewrite Hp in Hw. right. destruct p as [p|]; cbn [opt app free] in *; [|by exists (), h, os].
  destruct (unref_owned 3 p os h Hw (rank_low _)) as (h' & -> & Hw'). cbn [mbind_res]. by exists (), h', os.
Qed.

Lemma t_free_all ps : ∀ os os', os' ≡ₚ ps ++ os → triple os' (free_all ps) (keeps os).
Proof.
  induction ps as [|p ps IH]; intros os os' Hp; [by apply t_ret|]. cbn [free_all].
  eapply t_bind; [by apply (t_free (ps ++ os))|]. intros u os2 Hp2. by apply IH.
Qed.

(** Writing an object that holds no others. *)
Lemma t_put os p o : p ∈ os → kind_of o = p.2 → rank p.2 = 0%nat → children o = [] → triple os (put p o) (keeps os).
Proof.
  intros Hp Hk Hr Hch h Hw. destruct (owned_lookup _ _ _ Hw Hp) as (o1 & n & Hl & Hk1). right. eexists _, _, os.
  unfold put. rewrite Hl. split; [done|]. split; [done|]. pose proof (owned_obj _ _ Hw _ _ _ Hl) as (_ & _ & Ho). rewrite Hk1, Hr in Ho.
  assert (children o1 = []) as Hc1 by (destruct (children o1); [done|apply Forall_cons in Ho as [? _]; lia]).
  eapply owned_update; [done..|lia|rewrite Hch; constructor|]. intros q. by rewrite Hc1, Hch.
Qed.
End Specs.

(** ** The code keeps the account *)

Ltac own := solve [repeat first [assumption | apply list_elem_of_here | apply list_elem_of_further]].

Lemma bind_val {A B} (m : M A) (f : A → M B) h a h' : m h = Val (a, h') → (m ≫= f) h = f a h'.
Proof. intros H. unfold mbind, M_bind. by rewrite H. Qed.

Section Accounts.
Context {P : Prop} {L : CryptoLib} {E : EVP} (dchk ndebug : bool).
Notation triple := (code_spec P).

Lemma t_get_x509 os i : (i, KX509) ∈ os → triple os (get_x509 (i, KX509)) (keeps os).
Proof. intros Hp. apply t_get; [done|]. intros [] Hk; try done. by apply t_ret. Qed.
Lemma t_get_key os i : (i, KKey) ∈ os → triple os (get_key (i, KKey)) (keeps os).
Proof. intros Hp. apply t_get; [done|]. intros [] Hk; try done. by apply t_ret. Qed.

Lemma t_edit os i f : (i, KX509) ∈ os → triple os (edit_x509 (i, KX509) f) (keeps os).
Proof.
  intros Hp. apply t_keeps; [by apply t_get_x509|]. intros c. apply t_keeps; [apply t_ask|]. intros []; [|by apply t_ret].
  apply t_keeps; [by apply t_put|]. intros _. by apply t_ret.
Qed.

Lemma t_and os (m1 m2 : M bool) R : triple os m1 (keeps os) → triple os m2 R → R false os → triple os (m1 &?& m2) R.
Proof. intros H1 H2 HR. apply t_keeps; [done|]. intros []; [done|by apply t_ret]. Qed.

(** A call that writes an object or fails. *)
Lemma t_write os p (v : ossl) (R : bool → list ptr → Prop) : p ∈ os → kind_of v = p.2 → rank p.2 = 0%nat → children v = [] →
  R true os → R false os → triple os (get p;; b ← ask; if b : bool then put p v;; mret true else mret false) R.
Proof.
  intros Hp Hk Hr Hc Ht Hf. apply t_get; [done|]. intros o _. apply t_keeps; [apply t_ask|]. intros []; [|by apply t_ret].
  apply t_keeps; [by apply t_put|]. intros _. by apply t_ret.
Qed.

Lemma t_rsa os i bits e : (i, KRsa) ∈ os → triple os (RSA_generate_key_ex (i, KRsa) bits e) (keeps os).
Proof.
  intros Hp. apply t_get; [done|]. intros o _. apply t_keeps; [apply t_ask|]. intros []; [|by apply t_ret].
  apply t_keeps; [apply t_answer|]. intros k. apply t_keeps; [by apply t_put|]. intros _. by apply t_ret.
Qed.
Lemma t_ec os i : (i, KEc) ∈ os → triple os (EC_KEY_generate_key (i, KEc)) (keeps os).
Proof.
  intros Hp. apply t_get; [done|]. intros o _. apply t_keeps; [apply t_ask|]. intros []; [|by apply t_ret].
  apply t_keeps; [apply t_answer|]. intros k. apply t_keeps; [by apply t_put|]. intros _. by apply t_ret.
Qed.

(** The key takes over the reference of the other one, and what it had goes. *)
Lemma owned_assign h os i sub v k old n : owned h (sub :: os) → objs h !! i = Some (OKey k old, n) → rank sub.2 = 0%nat →
  owned (set_objs (<[i := (OKey v (Some sub), n)]> (objs h)) h) (opt old ++ os).
Proof.
  intros Hw Hl Hr. pose proof (owned_obj _ _ Hw _ _ _ Hl) as (Hn & _ & _).
  eapply (owned_update _ _ _ (i, KKey)); [done..| |].
  - cbn. apply Forall_singleton. rewrite Hr. cbn. lia.
  - intros q. cbn [children opt]. rewrite !cnt_app, !cnt_cons. change (cnt q []) with 0%nat. lia.
Qed.

Lemma t_assign os i sub : (i, KKey) ∈ os → rank sub.2 = 0%nat →
  triple (sub :: os) (EVP_PKEY_assign (i, KKey) sub) (λ b os', os' ≡ₚ if b : bool then os else sub :: os).
Proof.
  intros Hp Hr. apply t_get; [own|]. intros o _. apply t_keeps; [apply t_ask|]. intros []; [|by apply t_ret].
  intros h Hw. destruct (owned_lookup _ _ (i, KKey) Hw ltac:(own)) as (k & n & Hl & Hk). cbn [fst snd] in *.
  destruct k as [| k old | | | | | |]; try done. rewrite (bind_val _ _ h (OKey k old) h) by (unfold get; cbn [fst snd]; by rewrite Hl).
  rewrite (bind_val _ _ h () (set_objs (<[i := (OKey (match o with ORsa k | OEc k => k | _ => None end) (Some sub), S n)]> (objs h)) h))
    by (unfold put; cbn [fst]; by rewrite Hl).
  apply owned_assign with (v := match o with ORsa k | OEc k => k | _ => None end) (k := k) (old := old) (i := i) (n := S n) in Hw; [|done..].
  assert (triple (opt old ++ os) (free old;; mret true) (λ b os', os' ≡ₚ if b : bool then os else sub :: os)) as Ht.
  { eapply t_bind; [by apply (t_free os)|]. intros u os' Hos. by apply t_ret. }
  exact (Ht _ Hw).
Qed.

Definition params_match (kp : KeyParams) : Prop :=
  match type_ kp, params_ kp with KT_RSA, UCurve _ | KT_ECDSA, URsa _ => False | _, _ => True end.

Lemma rsa_params_ok kp : params_match kp → type_ kp = KT_RSA → ∃ r, rsa_params dchk kp = Val r.
Proof. unfold params_match, rsa_params. destruct kp as [[] []]; cbn; try done. intros. destruct dchk; eauto. Qed.
Lemma ec_curve_ok kp : params_match kp → type_ kp = KT_ECDSA → ∃ c, ec_curve dchk kp = Val c.
Proof. unfold params_match, ec_curve. destruct kp as [[] []]; cbn; try done. intros. destruct dchk; eauto. Qed.

Lemma t_ret_bind {A B} os (a : A) (f : A → M B) R : triple os (f a) R → triple os (mret a ≫= f) R.
Proof. intros Hf h Hw. rewrite (bind_val _ _ h a h) by done. by apply Hf. Qed.
Lemma t_free_none {B} os (f : () → M B) R : triple os (f ()) R → triple os (free None ≫= f) R.
Proof. intros Hf h Hw. rewrite (bind_val _ _ h () h) by done. by apply Hf. Qed.
Lemma t_free_some {B} os os' p (f : () → M B) R : os' ≡ₚ p :: os → triple os (f ()) R → triple os' (free (Some p) ≫= f) R.
Proof. intros Hp Hf. eapply t_bind; [by apply (t_free os)|]. intros [] os2 Hos. by eapply t_perm. Qed.
Lemma t_free_0 {B} os p (f : () → M B) R : triple os (f ()) R → triple (p :: os) (free (Some p) ≫= f) R.
Proof. by apply t_free_some. Qed.
Lemma t_free_1 {B} os p q (f : () → M B) R : triple (q :: os) (f ()) R → triple (q :: p :: os) (free (Some p) ≫= f) R.
Proof. apply t_free_some. solve_Permutation. Qed.
Lemma t_free_2 {B} os p q r (f : () → M B) R : triple (r :: q :: os) (f ()) R → triple (r :: q :: p :: os) (free (Some p) ≫= f) R.
Proof. apply t_free_some. solve_Permutation. Qed.
Lemma t_lift_val {A B} os (r : res A) a (f : A → M B) R : r = Val a → triple os (f a) R → triple os (lift r ≫= f) R.
Proof. intros -> Hf h Hw. rewrite (bind_val _ _ h a h) by done. by apply Hf. Qed.
Lemma t_lift_bind {A B} os (r : res A) (f : A → M B) R : r ≠ Undef → r ≠ Null → (r = Aborted → P) → (∀ a, r = Val a → triple os (f a) R) →
  triple os (lift r ≫= f) R.
Proof. intros H1 H2 HP Hf. destruct r as [a| | |]; [by apply (t_lift_val _ _ a); [|apply Hf]|done|intros h Hw; left; auto|done]. Qed.

(** One step of a program, by its first call. *)
Ltac t_step := lazymatch goal with
  | |- triple _ (mret _) _ => apply t_ret; try done
  | |- triple _ (mret _ ≫= _) _ => apply t_ret_bind
  | |- triple _ (ask ≫= _) _ => apply t_keeps; [apply t_ask|intros []]
  | |- triple _ (lib_answer _ ≫= _) _ => apply t_keeps; [apply t_answer|intros ?]
  | |- triple _ (push_errors _ ≫= _) _ => apply t_keeps; [apply t_push|intros _]
  | |- triple _ (ERR_peek_error ≫= _) _ => apply t_keeps; [apply t_peek|intros ?]
  | |- triple _ (LogSSLErrors ≫= _) _ => apply t_keeps; [apply t_log|intros _]
  | |- triple _ (new ?o ≫= _) _ => apply (t_gives _ (kind_of o)); [by apply t_new| |intros ?]; cbn [kind_of]
  | |- triple _ (free None ≫= _) _ => apply t_free_none
  | |- triple _ (free (Some _) ≫= _) _ => first [apply t_free_0 | apply t_free_1 | apply t_free_2]
  | |- triple _ (get_x509 _ ≫= _) _ => apply t_keeps; [apply t_get_x509; own|intros ?]
  | |- triple _ (get_key _ ≫= _) _ => apply t_keeps; [apply t_get_key; own|intros ?]
  | |- triple _ (edit_x509 _ _ ≫= _) _ => apply t_keeps; [apply t_edit; own|intros []]
  end; cbn beta iota delta [negb].

Lemma t_set_exponent os i v :
  (i, KBn) ∈ os → triple os (get (i, KBn);; b ← ask; (if b : bool then put (i, KBn) (OBn v) else mret ());; mret b) (keeps os).
Proof.
  intros Hp. apply t_get; [done|]. intros o _. t_step; [|by repeat t_step]. apply t_keeps; [by apply t_put|]. intros _. by t_step.
Qed.

Lemma t_MakeKey os kp : params_match kp → triple os (MakeKey dchk kp) (gives os KKey).
Proof.
  intros Hm. unfold MakeKey. destruct (type_ kp) eqn:Ht.
  - destruct (rsa_params_ok kp Hm Ht) as (r & Er). t_step.
    all: apply (t_lift_val _ _ r); [done|]. all: repeat t_step.
    match goal with |- triple (?s :: ?l) _ _ => apply t_bind with (R1 := λ b os', os' ≡ₚ if b : bool then l else s :: l) end.
    + apply t_and; [apply t_set_exponent; own| |done]. apply t_and; [apply t_rsa; own| |done]. apply t_assign; [own|done].
    + intros b os' Hos. eapply t_perm; [exact Hos|]. destruct b; by repeat t_step.
  - destruct (ec_curve_ok kp Hm Ht) as (c & Ec). t_step.
    all: apply (t_lift_val _ _ c); [done|]. all: destruct c; repeat t_step.
    match goal with |- triple (?s :: ?l) _ _ => apply t_bind with (R1 := λ b os', os' ≡ₚ if b : bool then l else s :: l) end.
    + apply t_and; [apply t_ec; own| |done]. apply t_assign; [own|done].
    + intros b os' Hos. eapply t_perm; [exact Hos|]. destruct b; by repeat t_step.
  - by repeat t_step.
Qed.

Lemma t_KeyPair_Generate os kp : params_match kp → triple os (KeyPair_Generate dchk kp) (gives os KKey).
Proof. intros Hm. apply (t_gives _ KKey); [by apply t_MakeKey| |intros i]; by repeat t_step. Qed.

(** Reading an object out of a text in memory. *)
Lemma t_BIO_read_key os i : (i, KBio) ∈ os → triple os (BIO_read_key (i, KBio)) (gives os KKey).
Proof.
  intros Hp. apply t_get; [done|]. intros [] Hk; try done. t_step; [|by t_step]. destruct (read_key text) as [k|e].
  - eapply t_bind; [by apply t_alloc|]. intros p os' [Hk' Hos]. by apply t_ret.
  - by repeat t_step.
Qed.

Lemma t_FromPrivateKeyPEMString os s : triple os (FromPrivateKeyPEMString s) (gives os KKey).
Proof.
  unfold FromPrivateKeyPEMString. t_step; [by t_step|]. apply (t_gives _ KKey); [apply t_BIO_read_key; own|by repeat t_step|]. intros j.
  repeat t_step. destruct a as [k|]; [destruct (key_missing_parameters k)|]; by repeat t_step.
Qed.

Lemma t_key_to_pem os write i : P → (i, KKey) ∈ os → triple os (key_to_pem dchk write (i, KKey)) (keeps os).
Proof.
  intros HP Hp. unfold key_to_pem, not_reached. t_step.
  - apply t_lift_bind; [by destruct dchk..|]. intros _ _. by t_step.
  - repeat t_step. apply t_lift_bind; [by destruct dchk..|]. intros _ _. by t_step.
Qed.

Lemma t_KeyPair_eq os i j : (i, KKey) ∈ os → (j, KKey) ∈ os → triple os (KeyPair_eq (i, KKey) (j, KKey)) (keeps os).
Proof. intros. unfold KeyPair_eq. by repeat t_step. Qed.

Lemma t_PrintCert os i : (i, KX509) ∈ os → triple os (PrintCert (i, KX509)) (keeps os).
Proof. intros. unfold PrintCert. t_step; [by t_step|]. repeat t_step. by apply (t_free os). Qed.

Lemma t_random_serial os x s : (x, KX509) ∈ os → (s, KBn) ∈ os → triple os (set_random_serial (x, KX509) (s, KBn)) (keeps os).
Proof.
  intros Hx Hs. apply t_and; [| |done].
  - apply t_get; [done|]. intros o _. t_step; [|by t_step]. t_step. apply t_keeps; [by apply t_put|]. intros _. by t_step.
  - apply t_and; [apply t_ask| |done]. apply t_get; [done|]. intros [] Hk; try done. by apply t_edit.
Qed.

Lemma t_set_names os x n cn : (x, KX509) ∈ os → (n, KName) ∈ os → triple os (set_names (x, KX509) (n, KName) cn) (keeps os).
Proof.
  intros Hx Hn. apply t_and; [by apply t_write| |done].
  apply t_and; [| |done]; apply t_get; [done| |done|]; intros [] Hk; try done; by apply t_edit.
Qed.

Lemma t_release os os' name x sn : os' ≡ₚ opt name ++ x :: opt sn ++ os → triple os' (release_all name x sn) (gives os KX509).
Proof.
  intros Hp. unfold release_all. eapply t_bind; [by apply (t_free (x :: opt sn ++ os))|]. intros u os1 H1.
  eapply t_bind; [by apply (t_free (opt sn ++ os))|]. intros u2 os2 H2. eapply t_bind; [by apply (t_free os)|]. intros u3 os3 H3.
  by apply t_ret.
Qed.

Lemma t_MakeCertificate os i params : (i, KKey) ∈ os → triple os (MakeCertificate (i, KKey) params) (gives os KX509).
Proof.
  intros Hp. unfold MakeCertificate. t_step; [by t_step|]. t_step. t_step; [|apply t_release; solve_Permutation].
  t_step; [t_step; apply t_release; solve_Permutation|].
  apply t_keeps; [apply t_random_serial; own|]. intros []; cbn [negb]; [|apply t_release; solve_Permutation].
  t_step; [|apply t_release; solve_Permutation].
  t_step; [t_step; apply t_release; solve_Permutation|].
  apply t_keeps; [apply t_set_names; own|]. intros []; cbn [negb]; [|apply t_release; solve_Permutation].
  apply t_keeps; [apply t_and; [apply t_edit; own|apply t_edit; own|done]|]. intros []; cbn [negb]; [|apply t_release; solve_Permutation].
  t_step; [|apply t_release; solve_Permutation]. by repeat t_step.
Qed.

(** A certificate object has a reference of its own. *)
Lemma t_cert_new {B} os i (f : ptr → M B) R : (i, KX509) ∈ os → triple ((i, KX509) :: os) (f (i, KX509)) R →
  triple os (OpenSSLCertificate_new (i, KX509) ≫= f) R.
Proof.
  intros Hp Hf. eapply t_bind with (R1 := λ p os', p = (i, KX509) ∧ os' ≡ₚ (i, KX509) :: os).
  - eapply t_bind; [by apply t_up|]. intros u os' Hos. by apply t_ret.
  - intros p os' [-> Hos]. by eapply t_perm.
Qed.

Lemma CreateRandomString_total len answer :
  (∃ s, CreateRandomString len answer SecureRandomGenerator = Val s) ∨ CreateRandomString len answer SecureRandomGenerator = Aborted.
Proof.
  unfold CreateRandomString, CreateRandomString_out, CreateRandomString_with. cbn [Z.eqb Z.rem Z.quotrem negb].
  change (Z.rem 256 64 =? 0) with true. cbn [negb]. destruct (Generate len answer SecureRandomGenerator) as [[bs|] rng]; cbn [mbind_res]; [|by right].
  left. rewrite picks_spec by (cbn; lia). cbn [mbind_res]. eauto.
Qed.

Lemma t_random_name os (cn : list Z) : (cn = [] → P) →
  triple os (if decide (cn = []) then r ← lib_answer lib_rand; s ← lift (CreateRandomString 8 r SecureRandomGenerator); mret s.1 else mret cn) (keeps os).
Proof.
  intros HP. destruct (decide (cn = [])); [|by t_step]. t_step. destruct (CreateRandomString_total 8 a) as [[s ->]| ->].
  - apply (t_lift_val _ _ s); [done|]. by t_step.
  - intros h Hw. left. auto.
Qed.

Lemma t_Certificate_Generate os i params : (common_name params = [] → P) → (i, KKey) ∈ os → triple os (Certificate_Generate ndebug (i, KKey) params) (gives os KX509).
Proof.
  intros HP Hp. apply t_keeps; [by apply t_random_name|]. intros cn. apply (t_gives _ KX509); [by apply t_MakeCertificate|by repeat t_step|].
  intros x. apply t_keeps; [destruct ndebug; [by t_step|apply t_PrintCert; own]|]. intros _.
  apply t_cert_new; [own|]. by repeat t_step.
Qed.

Lemma t_read_x509 os i : (i, KBio) ∈ os → triple os (PEM_read_bio_X509 (i, KBio)) (gives os KX509).
Proof.
  intros Hp. apply t_get; [done|]. intros [] Hk; try done. t_step; [|by t_step]. destruct (read_x509 text) as [[c rest]|e].
  - apply t_keeps; [by apply t_put|]. intros _. eapply t_bind; [by apply t_alloc|]. intros p os' [Hk' Hos]. by apply t_ret.
  - by repeat t_step.
Qed.

Lemma t_Certificate_FromPEMString os s : triple os (Certificate_FromPEMString s) (gives os KX509).
Proof.
  unfold Certificate_FromPEMString. t_step; [by t_step|]. apply (t_gives _ KX509); [apply t_read_x509; own|by repeat t_step|].
  intros x. t_step. apply t_cert_new; [own|]. by repeat t_step.
Qed.

Lemma t_check {B} os b (f : () → M B) R : P → (b = true → triple os (f ()) R) → triple os (check b ≫= f) R.
Proof. intros HP Hf. destruct b; [by apply (t_lift_val _ _ ()); [|apply Hf]|intros h Hw; by left]. Qed.

Lemma t_cert_text os write i : P → (i, KX509) ∈ os → triple os (cert_to write (i, KX509)) (λ r os', os' ≡ₚ os ∧ ∃ c, r = write c).
Proof.
  intros HP Hp. unfold cert_to. t_step; (apply t_check; [done|]); intros _; repeat t_step; (apply t_check; [done|]); intros _; repeat t_step; eauto.
Qed.
Lemma t_cert_to os write i : P → (i, KX509) ∈ os → triple os (cert_to write (i, KX509)) (keeps os).
Proof. intros HP Hp. eapply t_weaken; [by apply t_cert_text|]. by intros r os' [? _]. Qed.

Lemma t_Certificate_eq os i j : (i, KX509) ∈ os → (j, KX509) ∈ os → triple os (Certificate_eq (i, KX509) (j, KX509)) (keeps os).
Proof. intros. unfold Certificate_eq. by repeat t_step. Qed.

Lemma t_GetStats os i : P → (i, KX509) ∈ os → triple os (GetStats dchk (i, KX509)) (keeps os).
Proof.
  intros HP Hp. apply t_keeps; [by apply t_keeps; [apply t_get_x509|intros c; t_step]|]. intros [alg|]; [|by t_step]. t_step.
  eapply t_lift_val; [apply SSLFingerprint_Create_spec|]. destruct (digest_evp alg) as [md|]; cbn [fmap option_fmap option_map]; [|by t_step].
  destruct (fingerprint_text dchk (evp_hash md (x509_der a))) as (text & Ht & _); [apply evp_bytes| |].
  { rewrite length_hash. pose proof (evp_size md). lia. }
  eapply t_lift_val; [apply Ht|]. eapply t_bind; [by apply t_cert_text|]. intros der os' [Hos [c ->]].
  eapply t_lift_val; [apply EncodeFromArray_spec, der_bytes|]. by t_step.
Qed.

(** Chains and identities have the references of their parts. *)
Definition certs_ok (cs : list ptr) : Prop := Forall (λ p, p.2 = KX509) cs.
Definition refs_of (i : OpenSSLIdentity) : list ptr := key_pair_ i :: cert_chain_ i.
Definition identity_ok (i : OpenSSLIdentity) : Prop := (key_pair_ i).2 = KKey ∧ certs_ok (cert_chain_ i) ∧ cert_chain_ i ≠ [].
Definition gives_identity (os : list ptr) (r : option OpenSSLIdentity) (os' : list ptr) : Prop :=
  match r with None => os' ≡ₚ os | Some i => identity_ok i ∧ os' ≡ₚ refs_of i ++ os end.

Lemma t_Chain_Clone cs : ∀ os, certs_ok cs → (∀ p, p ∈ cs → p ∈ os) → triple os (Chain_Clone cs) (λ r os', r = cs ∧ os' ≡ₚ cs ++ os).
Proof.
  induction cs as [|[i k] cs IH]; intros os Hc Hs; [by apply t_ret|]. apply Forall_cons in Hc as [Hk Hc]. cbn in Hk. subst k.
  cbn [Chain_Clone]. apply t_cert_new; [apply Hs; by left|].
  eapply t_bind; [apply IH; [done|intros p Hp; right; apply Hs; by right]|]. intros r os' [-> Hos]. apply t_ret. split; [done|].
  rewrite Hos. cbn [app]. by rewrite Permutation_middle.
Qed.

Lemma t_stats_loop cs : P → ∀ os issuer, certs_ok cs → (∀ p, p ∈ cs → p ∈ os) → triple os (stats_loop dchk cs issuer) (keeps os).
Proof.
  intros HP. induction cs as [|[i k] cs IH]; intros os issuer Hc Hs; [by apply t_ret|]. apply Forall_cons in Hc as [Hk Hc]. cbn in Hk. subst k.
  cbn [stats_loop]. apply t_keeps; [apply t_GetStats; [done|apply Hs; by left]|]. intros s. apply IH; [done|]. intros p Hp. apply Hs. by right.
Qed.

Lemma t_Identity_delete os i : triple (refs_of i ++ os) (Identity_delete i) (keeps os).
Proof.
  unfold Identity_delete. eapply t_bind; [apply (t_free_all _ (key_pair_ i :: os)); unfold refs_of; solve_Permutation|].
  intros u os' Hos. by apply (t_free os).
Qed.

Lemma t_CreateInternal os params : (common_name params = [] → P) → params_match (key_params params) → triple os (CreateInternal dchk ndebug params) (gives_identity os).
Proof.
  intros HP Hm. apply (t_gives _ KKey); [by apply t_KeyPair_Generate|by apply t_ret; cbn|]. intros k.
  apply (t_gives _ KX509); [apply t_Certificate_Generate; [done|own]| |].
  - unfold KeyPair_delete. t_step. by t_step; cbn.
  - intros c. apply t_ret. split; [|unfold refs_of; cbn; solve_Permutation]. split_and!; [done|by apply Forall_singleton|done].
Qed.

Lemma time_sum_val a b : - 2 ^ 63 ≤ a + b < 2 ^ 63 → time_sum a b = Val (a + b).
Proof. intros H. unfold time_sum. by rewrite (proj2 (Z.leb_le _ _)), (proj2 (Z.ltb_lt _ _)) by lia. Qed.

Lemma t_CreateWithExpiration os name kp lifetime : (name = [] → P) → params_match kp → (∀ n, 0 ≤ lib_time n < 2 ^ 62) → - 2 ^ 62 < lifetime < 2 ^ 62 →
  triple os (CreateWithExpiration dchk ndebug name kp lifetime) (gives_identity os).
Proof.
  intros HP Hm Ht Hl. unfold CreateWithExpiration. apply t_bind with (R1 := λ now os', (∃ n, now = lib_time n) ∧ os' ≡ₚ os).
  { intros h Hw. right. eexists _, _, os. split; [done|]. split; [by eauto|]. by apply (owned_heap h). }
  intros now os' [[n ->] Hos]. eapply t_perm; [exact Hos|]. specialize (Ht n). unfold kCertificateWindowInSeconds.
  eapply t_lift_val; [apply time_sum_val; lia|]. eapply t_lift_val; [apply time_sum_val; lia|].
  destruct (_ <? _); [by apply t_ret; cbn|by apply t_CreateInternal].
Qed.

Lemma t_CreateFromPEMStrings os k c : triple os (CreateFromPEMStrings k c) (gives_identity os).
Proof.
  apply (t_gives _ KX509); [apply t_Certificate_FromPEMString|by apply t_ret; cbn|]. intros x.
  apply (t_gives _ KKey); [apply t_FromPrivateKeyPEMString| |].
  - unfold OpenSSLCertificate_delete. t_step. by t_step; cbn.
  - intros p. apply t_ret. split; [|done]. split_and!; [done|by apply Forall_singleton|done].
Qed.

(** A turn of the loop over a chain. *)
Definition read_turn (bio : ptr) : M (option ptr) :=
  x509 ← PEM_read_bio_X509 bio;
  match x509 with None => mret None | Some x => c ← OpenSSLCertificate_new x; free x509;; mret (Some c) end.

Lemma t_read_turn os i : (i, KBio) ∈ os → triple os (read_turn (i, KBio)) (gives os KX509).
Proof.
  intros Hp. apply (t_gives _ KX509); [by apply t_read_x509|by t_step|]. intros x. apply t_cert_new; [own|]. by repeat t_step.
Qed.

Definition read_end (bio : ptr) (certs : list ptr) : M (option (list ptr)) :=
  err ← ERR_peek_error;
  if decide (err = Some PEM_R_NO_START_LINE) then mret (Some certs) else free (Some bio);; free_all certs;; mret None.

Lemma read_chain_turn fuel bio certs h r h' : read_turn bio h = Val (r, h') →
  read_chain (S fuel) bio certs h = match r with None => read_end bio certs h' | Some c => read_chain fuel bio (certs ++ [c]) h' end.
Proof.
  unfold read_turn. cbn [read_chain]. unfold mbind, M_bind. destruct (PEM_read_bio_X509 bio h) as [[[x|] h1]| | |]; [|by intros [= <- <-]|done..].
  destruct (OpenSSLCertificate_new x h1) as [[c h2]| | |]; [|done..].
  destruct (free (Some x) h2) as [[u h3]| | |]; [|done..]. by intros [= <- <-].
Qed.

Lemma read_chain_abort fuel bio certs h : read_turn bio h = Aborted → read_chain (S fuel) bio certs h = Aborted.
Proof.
  unfold read_turn. cbn [read_chain]. unfold mbind, M_bind. destruct (PEM_read_bio_X509 bio h) as [[[x|] h1]| | |]; [|done..].
  destruct (OpenSSLCertificate_new x h1) as [[c h2]| | |]; [|done..].
  by destruct (free (Some x) h2) as [[u h3]| | |].
Qed.

Definition text_at (h : heap) (i : nat) (text : list Z) : Prop := ∃ n, objs h !! i = Some (OBio text, n).

(** What a turn does, in full. *)
Lemma read_turn_exact h os i text : owned h os → (i, KBio) ∈ os → text_at h i text →
  let b := lib_ok (calls h) in
  match b, read_x509 text with
  | true, inl (c, rest) => ∃ h', read_turn (i, KBio) h = Val (Some (fresh h, KX509), h') ∧ text_at h' i rest ∧
      objs h' !! fresh h = Some (OX509 c, 1%nat) ∧ errs h' = errs h ∧
      (∀ j, j ≠ i → j ≠ fresh h → objs h' !! j = objs h !! j)
  | true, inr e => ∃ h', read_turn (i, KBio) h = Val (None, h') ∧ objs h' = objs h ∧ errs h' = errs h ++ e
  | false, _ => ∃ h', read_turn (i, KBio) h = Val (None, h') ∧ objs h' = objs h ∧ errs h' = errs h ++ lib_errors (calls h)
  end.
Proof.
  intros Hw Hp [n Hl]. pose proof (owned_obj _ _ Hw _ _ _ Hl) as (_ & Hf & _). cbn zeta.
  unfold read_turn, PEM_read_bio_X509, get, ask, put, alloc, push_errors, OpenSSLCertificate_new, up_ref, free, mbind, M_bind, mret, M_ret.
  cbn [fst snd objs calls errs fresh set_objs set_errs kind_of]. rewrite Hl. cbn [kind_of]. rewrite decide_True by done.
  destruct (lib_ok (calls h)) eqn:Eok; cbn [negb]; [|eexists; split; [done|by split]].
  destruct (read_x509 text) as [[c rest]|e]; [|eexists; split; [done|by split]].
  cbn [objs set_objs fresh]. rewrite Hl. cbn [objs set_objs fresh]. rewrite lookup_insert_eq. cbn [kind_of]. rewrite decide_True by done.
  cbn [unref fst snd objs set_objs]. rewrite lookup_insert_eq. cbn [kind_of]. rewrite decide_True by done. cbn [mbind_res].
  eexists. split; [done|]. cbn [objs set_objs errs]. rewrite !insert_insert_eq. split_and!.
  - exists n. cbn [objs set_objs]. by rewrite lookup_insert_ne, lookup_insert_eq by lia.
  - by rewrite lookup_insert_eq.
  - done.
  - intros j Hj1 Hj2. by rewrite !lookup_insert_ne.
Qed.

Definition gives_chain (os : list ptr) (bio : ptr) (r : option (list ptr)) (os' : list ptr) : Prop :=
  match r with None => os' ≡ₚ os | Some cs => certs_ok cs ∧ os' ≡ₚ bio :: cs ++ os end.

Lemma t_read_end os i certs : certs_ok certs → triple ((i, KBio) :: certs ++ os) (read_end (i, KBio) certs) (gives_chain os (i, KBio)).
Proof.
  intros Hc. unfold read_end. t_step. destruct (decide _); [by t_step|]. t_step.
  eapply t_bind; [by apply t_free_all|]. intros u os' Hos. by apply t_ret.
Qed.

(** The loop ends, since every turn takes something of the text. *)
Lemma t_read_chain fuel : ∀ os i certs h text, owned h ((i, KBio) :: certs ++ os) → text_at h i text → (length text < fuel)%nat →
  certs_ok certs → P ∧ read_chain fuel (i, KBio) certs h = Aborted ∨
    ∃ r h' os', read_chain fuel (i, KBio) certs h = Val (r, h') ∧ gives_chain os (i, KBio) r os' ∧ owned h' os'.
Proof.
  induction fuel as [|fuel IH]; intros os i certs h text Hw Ht Hf Hc; [lia|].
  pose proof (read_turn_exact _ _ _ _ Hw (list_elem_of_here _ _) Ht) as Hx. cbn zeta in Hx.
  destruct (t_read_turn _ i (list_elem_of_here _ _) h Hw) as [[HP Ha]|(r & h' & os' & Hr & Hg & Hw')]; [left; split; [done|by apply read_chain_abort]|].
  rewrite (read_chain_turn _ _ _ _ _ _ Hr). destruct r as [[x k]|]; cbn [gives] in Hg.
  - destruct Hg as [Hk Hos]. cbn in Hk. subst k. destruct (lib_ok (calls h)); [|by destruct Hx as (? & E1 & _); rewrite Hr in E1].
    destruct (read_x509 text) as [[c rest]|e] eqn:Er; [|by destruct Hx as (? & E1 & _); rewrite Hr in E1].
    destruct Hx as (h2 & E1 & Ht' & _). rewrite Hr in E1. injection E1 as -> ->. apply (IH _ _ _ _ rest).
    + rewrite Hos in Hw'. eapply owned_Proper; [done| |exact Hw']. solve_Permutation.
    + done.
    + pose proof (read_x509_progress _ _ _ Er). lia.
    + apply Forall_app. split; [done|by apply Forall_singleton].
  - rewrite Hg in Hw'. by apply t_read_end.
Qed.

Lemma new_bio h os text : owned h os →
  ∃ r h', new (OBio text) h = Val (r, h') ∧ (r = None ∧ owned h' os ∨ ∃ i, r = Some (i, KBio) ∧ owned h' ((i, KBio) :: os) ∧ text_at h' i text).
Proof.
  intros Hw. destruct (t_new (P := False) os (OBio text) eq_refl h Hw) as [[[] _]|(r & h' & os' & Hr & Hg & Hw')].
  exists r, h'. split; [done|]. destruct r as [[i k]|]; cbn in Hg; [|left; by rewrite <- Hg]. destruct Hg as [-> Hos].
    right. exists i. split_and!; [done|by rewrite <- Hos|]. unfold new, ask, alloc, mbind, M_bind, mret, M_ret in Hr.
    destruct (lib_ok (calls h)); [|done]. injection Hr as <- <-. exists 1%nat. cbn [objs]. by rewrite lookup_insert_eq.
Qed.

Lemma t_read_chain_new {B} os i text (f : option (list ptr) → M B) R h :
  triple os (f None) R → (∀ cs, certs_ok cs → triple ((i, KBio) :: cs ++ os) (f (Some cs)) R) →
  owned h ((i, KBio) :: os) → text_at h i text →
  P ∧ (read_chain (S (length text)) (i, KBio) [] ≫= f) h = Aborted ∨
  ∃ a h' os', (read_chain (S (length text)) (i, KBio) [] ≫= f) h = Val (a, h') ∧ R a os' ∧ owned h' os'.
Proof.
  intros Hn Hs Hw Ht. unfold mbind, M_bind.
  destruct (t_read_chain (S (length text)) os i [] h text Hw Ht) as [[HP ->]|(r & h' & os' & -> & Hg & Hw')]; [lia|constructor|by left|].
  destruct r as [cs|]; cbn [gives_chain] in Hg.
  - destruct Hg as [Hc Hos]. rewrite Hos in Hw'. by apply (Hs cs).
  - rewrite Hg in Hw'. by apply Hn.
Qed.

Lemma size_cast n : dchecked_cast dchk I32 U64 n ≠ Undef ∧ dchecked_cast dchk I32 U64 n ≠ Null.
Proof. unfold dchecked_cast. destruct dchk; [by destruct (IsValueInRangeForNumericType _ _ _)|done]. Qed.
Lemma size_cast_aborts n : 0 ≤ n → dchecked_cast dchk I32 U64 n = Aborted → 2 ^ 31 ≤ n.
Proof.
  intros Hn Ha. destruct (Z.lt_ge_cases n (2 ^ 31)) as [Hlt|]; [exfalso|done]. revert Ha. unfold dchecked_cast, IsValueInRangeForNumericType.
  rewrite range_check_spec by ranges. rewrite (proj2 (Z.ltb_ge _ _)), (proj2 (Z.ltb_ge _ _)) by ranges. by destruct dchk.
Qed.

Lemma t_CreateFromPEMChainStrings os k text : (2 ^ 31 ≤ Z.of_nat (length text) → P) → triple os (CreateFromPEMChainStrings dchk k text) (gives_identity os).
Proof.
  intros HP. unfold CreateFromPEMChainStrings. apply t_lift_bind; [apply size_cast..|intros Ha; apply HP, size_cast_aborts; [lia|done]|].
  intros len _ h Hw. destruct (new_bio h os (mem_buf text len) Hw) as (r & h' & Hr & Hcase). rewrite (bind_val _ _ _ _ _ Hr).
  destruct Hcase as [[-> Hw']|(i & -> & Hw' & Ht)]; [by refine (t_ret os None (gives_identity os) _ h' Hw'); cbn|].
  apply (t_read_chain_new os); [by apply t_ret; cbn| |done..]. intros cs Hc. t_step.
  destruct (decide (cs = [])) as [->|Hne]; [by apply t_ret; cbn|].
  apply (t_gives _ KKey); [apply t_FromPrivateKeyPEMString| |].
  - eapply t_bind; [by apply (t_free_all cs os)|]. intros u os' Hos. by apply t_ret; cbn.
  - intros p. apply t_ret. by split.
Qed.

Lemma t_CloneInternal os i : identity_ok i → (∀ p, p ∈ refs_of i → p ∈ os) →
  triple os (CloneInternal i) (λ r os', r = i ∧ os' ≡ₚ refs_of i ++ os).
Proof.
  intros (Hk & Hc & _) Hs. unfold CloneInternal, KeyPair_Clone, AddReference.
  apply t_bind with (R1 := λ p os', p = key_pair_ i ∧ os' ≡ₚ key_pair_ i :: os).
  - eapply t_bind; [apply t_up, Hs; by left|]. intros u os' Hos. by apply t_ret.
  - intros p os' [-> Hos]. eapply t_perm; [exact Hos|].
    eapply t_bind; [apply t_Chain_Clone; [done|]|].
    + intros q Hq. right. apply Hs. by right.
    + intros cs os2 [-> Hos2]. apply t_ret. split; [by destruct i|]. rewrite Hos2. unfold refs_of. solve_Permutation.
Qed.

(** A context takes a reference of its own. *)
Lemma t_ctx_use os c p : (c, KCtx) ∈ os → p ∈ os → (rank p.2 < 2)%nat → triple os (ctx_use (c, KCtx) p) (keeps os).
Proof.
  intros Hc Hp Hr. unfold ctx_use. apply t_get; [done|]. intros o _. t_step; [|by t_step].
  eapply t_bind; [by apply t_up|]. intros u os' Hos. eapply t_perm; [exact Hos|]. clear os' Hos.
  intros h Hw. destruct (owned_lookup _ _ (c, KCtx) Hw ltac:(own)) as (k & n & Hl & Hk). cbn [fst snd] in *.
  destruct k as [| | | | | | |uses]; try done. rewrite (bind_val _ _ h (OCtx uses) h) by (unfold get; cbn [fst snd]; by rewrite Hl).
  rewrite (bind_val _ _ h () (set_objs (<[c := (OCtx (p :: uses), S n)]> (objs h)) h)) by (unfold put; cbn [fst]; by rewrite Hl).
  right. eexists _, _, os. split; [done|]. split; [done|]. pose proof (owned_obj _ _ Hw _ _ _ Hl) as (_ & _ & Hu).
  eapply (owned_update _ _ _ (c, KCtx)); [done..|lia|by apply Forall_cons|].
  intros q. cbn [children]. rewrite !cnt_app, !cnt_cons. lia.
Qed.

Lemma t_use_chain cs : ∀ os c, (c, KCtx) ∈ os → certs_ok cs → (∀ p, p ∈ cs → p ∈ os) → triple os (use_chain (c, KCtx) cs) (keeps os).
Proof.
  induction cs as [|p cs IH]; intros os c Hc Hok Hs; [by apply t_ret|]. apply Forall_cons in Hok as [Hk Hok]. cbn [use_chain].
  apply t_keeps; [apply t_ctx_use; [done|apply Hs; by left|rewrite Hk; cbn; lia]|]. intros []; [|by repeat t_step].
  apply IH; [done..|]. intros q Hq. apply Hs. by right.
Qed.

(** The first certificate of an identity. *)
Lemma t_certificate {B} os i (f : ptr → M B) R : identity_ok i → (∀ p, p ∈ refs_of i → p ∈ os) →
  (∀ j, (j, KX509) ∈ os → triple os (f (j, KX509)) R) → triple os (certificate i ≫= f) R.
Proof.
  intros (_ & Hc & Hne) Hs Hf. unfold certificate. destruct i as [k [|[j kj] cs]]; [done|]. cbn [cert_chain_] in *.
  apply Forall_cons in Hc as [Hk _]. cbn in Hk. subst kj. apply (t_lift_val _ _ (j, KX509)); [done|]. apply Hf, Hs. right. by left.
Qed.

Lemma t_ConfigureIdentity os i c : identity_ok i → (∀ p, p ∈ refs_of i → p ∈ os) → (c, KCtx) ∈ os →
  triple os (ConfigureIdentity i (c, KCtx)) (keeps os).
Proof.
  intros Hi Hs Hc. unfold ConfigureIdentity. apply t_certificate; [done..|]. intros j Hj. destruct Hi as (Hk & Hcs & _).
  apply t_keeps.
  - apply t_and; [apply t_ctx_use; [done..|cbn; lia]| |done]. apply t_ctx_use; [done|apply Hs; by left|rewrite Hk; cbn; lia].
  - intros []; cbn [negb]; [|by repeat t_step]. apply t_use_chain; [done|by apply Forall_drop|].
    intros p Hp. apply Hs. right. by apply (subseteq_drop 1 (cert_chain_ i)).
Qed.

Lemma t_Identity_eq os a b : identity_ok a → identity_ok b → (∀ p, p ∈ refs_of a → p ∈ os) → (∀ p, p ∈ refs_of b → p ∈ os) →
  triple os (Identity_eq a b) (keeps os).
Proof.
  intros Ha Hb Hsa Hsb. unfold Identity_eq. apply t_and; [| |done].
  - destruct Ha as (Hk & _), Hb as (Hk' & _). destruct a as [[ka kka] ca], b as [[kb kkb] cb]. cbn in Hk, Hk'. subst.
    apply t_KeyPair_eq; [apply Hsa|apply Hsb]; by left.
  - apply t_certificate; [done..|]. intros j Hj. apply t_certificate; [done..|]. intros j' Hj'. by apply t_Certificate_eq.
Qed.

Lemma t_ToPEM os i : P → identity_ok i → (∀ p, p ∈ refs_of i → p ∈ os) → triple os (ToPEM dchk i) (keeps os).
Proof.
  intros HP Hi Hs. unfold ToPEM. pose proof Hi as (Hk & _ & _). apply t_keeps.
  - assert (key_pair_ i ∈ os) as Hin by (apply Hs; by left). destruct (key_pair_ i) as [k kk]. cbn in Hk. subst kk. by apply t_key_to_pem.
  - intros k. apply t_certificate; [done..|]. intros j Hj. apply t_keeps; [by apply t_cert_to|]. intros t. by t_step.
Qed.
End Accounts.

(** ** Programs over identities *)

(** The identities, the copies of chains and the contexts a program has. *)
Record program := Program { lib_heap : heap; ids : list OpenSSLIdentity; chains : list (list ptr); ctxs : list ptr }.
Definition program_new : program := Program heap_new [] [] [].

Inductive identity_step :=
| SCreate (name : list Z) (kp : KeyParams) (lifetime : Z) | SGenerate (kp : KeyParams) (expires_ms : option Z) | SForTest (params : SSLIdentityParams)
| SFromPEM (private_key certificate : list Z) | SFromChain (private_key certificate_chain : list Z) | SClone (i : nat) | SDelete (i : nat)
| SCopyChain (i : nat) | SDropChain (j : nat) | SStats (j : nat)
| SNewCtx | SConfigure (i j : nat) | SFreeCtx (j : nat)
| SToPEM (i : nat) | SPublicKey (i : nat) | SDer (j : nat) | SEqual (i j : nat).

Section Programs.
Context {L : CryptoLib} {E : EVP} (dchk ndebug : bool).

Definition run {A} (m : M A) (f : A → heap → program) (w : program) : res program := let* '(a, h) := m (lib_heap w) in Val (f a h).
Definition set_heap (w : program) (h : heap) : program := Program h (ids w) (chains w) (ctxs w).
Definition add_id (w : program) (r : option OpenSSLIdentity) (h : heap) : program :=
  Program h (ids w ++ match r with Some i => [i] | None => [] end) (chains w) (ctxs w).
(** Code that needs the objects with certain numbers. *)
Definition with_id (w : program) (i : nat) (f : OpenSSLIdentity → res program) : res program := match ids w !! i with Some x => f x | None => Undef end.
Definition with_chain (w : program) (j : nat) (f : list ptr → res program) : res program := match chains w !! j with Some c => f c | None => Undef end.
Definition with_ctx (w : program) (j : nat) (f : ptr → res program) : res program := match ctxs w !! j with Some c => f c | None => Undef end.

Definition identity_act (s : identity_step) (w : program) : res program :=
  match s with
  | SCreate name kp lifetime => run (Create dchk ndebug name kp lifetime) (add_id w) w
  | SGenerate kp expires_ms => run (GenerateCertificate dchk ndebug kp expires_ms) (add_id w) w
  | SForTest params => run (CreateForTest dchk ndebug params) (add_id w) w
  | SFromPEM k c => run (FromPEM (k, c)) (add_id w) w
  | SFromChain k text => run (CreateFromPEMChainStrings dchk k text) (add_id w) w
  | SClone i => with_id w i (λ x, run (CloneInternal x) (λ y, add_id w (Some y)) w)
  | SDelete i => with_id w i (λ x, run (Identity_delete x) (λ _ h, Program h (base.delete i (ids w)) (chains w) (ctxs w)) w)
  | SCopyChain i => with_id w i (λ x, run (Chain_Clone (cert_chain_ x)) (λ c h, Program h (ids w) (chains w ++ [c]) (ctxs w)) w)
  | SDropChain j => with_chain w j (λ c, run (Chain_delete c) (λ _ h, Program h (ids w) (base.delete j (chains w)) (ctxs w)) w)
  | SStats j => with_chain w j (λ c, run (Chain_GetStats dchk c) (λ _, set_heap w) w)
  | SNewCtx => run (new (OCtx [])) (λ r h, Program h (ids w) (chains w) (ctxs w ++ opt r)) w
  | SConfigure i j => with_id w i (λ x, with_ctx w j (λ c, run (ConfigureIdentity x c) (λ _, set_heap w) w))
  | SFreeCtx j => with_ctx w j (λ c, run (free (Some c)) (λ _ h, Program h (ids w) (chains w) (base.delete j (ctxs w))) w)
  | SToPEM i => with_id w i (λ x, run (ToPEM dchk x) (λ _, set_heap w) w)
  | SPublicKey i => with_id w i (λ x, run (PublicKeyToPEMString dchk (key_pair_ x)) (λ _, set_heap w) w)
  | SDer j => with_chain w j (λ c, match c with p :: _ => run (ToDER p) (λ _, set_heap w) w | [] => Val w end)
  | SEqual i j => with_id w i (λ x, with_id w j (λ y, run (Identity_eq x y) (λ _, set_heap w) w))
  end.

(** What a program may do: name objects it has, and give times that are no
    larger than can be added to the clock. *)
Definition step_allowed (s : identity_step) (w : program) : Prop :=
  match s with
  | SCreate _ kp lifetime => params_match kp ∧ - 2 ^ 62 < lifetime < 2 ^ 62
  | SGenerate kp expires_ms => params_match kp ∧ from_option (λ ms, 0 ≤ ms) True expires_ms
  | SForTest params => params_match (key_params params)
  | SFromPEM _ _ | SFromChain _ _ | SNewCtx => True
  | SClone i | SDelete i | SCopyChain i | SToPEM i | SPublicKey i => (i < length (ids w))%nat
  | SDropChain j | SStats j | SDer j => (j < length (chains w))%nat
  | SConfigure i j => (i < length (ids w) ∧ j < length (ctxs w))%nat
  | SFreeCtx j => (j < length (ctxs w))%nat
  | SEqual i j => (i < length (ids w) ∧ j < length (ids w))%nat
  end.

(** The steps that may stop the process: those that make a random name, print or
    find a text too large. *)
Definition may_stop (s : identity_step) : Prop :=
  match s with
  | SCreate name _ _ => name = []
  | SForTest params => common_name params = []
  | SFromChain _ text => 2 ^ 31 ≤ Z.of_nat (length text)
  | SStats _ | SToPEM _ | SPublicKey _ | SDer _ => True
  | _ => False
  end.

Inductive programs : program → Prop :=
| programs_new : programs program_new
| programs_step s w w' : programs w → step_allowed s w → identity_act s w = Val w' → programs w'.

Definition owners (w : program) : list ptr := concat (refs_of <$> ids w) ++ concat (chains w) ++ ctxs w.

Record program_ok (w : program) : Prop := {
  ok_owned : owned (lib_heap w) (owners w);
  ok_ids : Forall identity_ok (ids w);
  ok_chains : Forall certs_ok (chains w);
  ok_ctxs : Forall (λ p, p.2 = KCtx) (ctxs w) }.

Lemma concat_Permutation {A} (l1 l2 : list (list A)) : l1 ≡ₚ l2 → concat l1 ≡ₚ concat l2.
Proof. induction 1; cbn; [done|by apply Permutation_app_head|solve_Permutation|by etrans]. Qed.

Lemma owners_without_id w i x : ids w !! i = Some x → owners w ≡ₚ refs_of x ++ owners (Program (lib_heap w) (base.delete i (ids w)) (chains w) (ctxs w)).
Proof.
  intros Hi. unfold owners. cbn [ids chains ctxs]. rewrite (assoc_L (++) (refs_of x)). apply Permutation_app_tail.
  rewrite (concat_Permutation _ _ (fmap_Permutation refs_of _ _ (delete_Permutation _ _ _ Hi))). done.
Qed.
Lemma owners_without_chain w j c : chains w !! j = Some c →
  owners w ≡ₚ c ++ owners (Program (lib_heap w) (ids w) (base.delete j (chains w)) (ctxs w)).
Proof.
  intros Hj. unfold owners. cbn [ids chains ctxs]. rewrite (concat_Permutation _ _ (delete_Permutation _ _ _ Hj)). cbn [concat]. solve_Permutation.
Qed.
Lemma owners_without_ctx w j c : ctxs w !! j = Some c → owners w ≡ₚ c :: owners (Program (lib_heap w) (ids w) (chains w) (base.delete j (ctxs w))).
Proof. intros Hj. unfold owners. cbn [ids chains ctxs]. rewrite (delete_Permutation _ _ _ Hj) at 1. solve_Permutation. Qed.

Definition fine (P : Prop) (r : res program) : Prop := P ∧ r = Aborted ∨ ∃ w, r = Val w ∧ program_ok w.

Lemma run_fine {A} P (m : M A) f w R : program_ok w → code_spec P (owners w) m R →
  (∀ a h os', R a os' → owned h os' → program_ok (f a h)) → fine P (run m f w).
Proof.
  intros Hw Hm Hf. unfold run. destruct (Hm _ (ok_owned _ Hw)) as [[HP ->]|(a & h & os' & -> & HR & Ho)]; [by left|].
  right. eexists. split; [done|]. by eapply Hf.
Qed.

Lemma run_same_owners {A} P (m : M A) w : program_ok w → code_spec P (owners w) m (keeps (owners w)) → fine P (run m (λ _, set_heap w) w).
Proof.
  intros Hw Hm. eapply run_fine; [done..|]. intros a h os' Hos Ho. destruct Hw as [_ H1 H2 H3]. split; [|done..]. cbn [lib_heap set_heap].
  unfold keeps in Hos. by rewrite Hos in Ho.
Qed.

Lemma add_ok w i h : program_ok w → identity_ok i → owned h (refs_of i ++ owners w) → program_ok (add_id w (Some i) h).
Proof.
  intros [_ H1 H2 H3] Hi Ho. split; unfold add_id; cbn; try done; [|by apply Forall_app; split; [|by apply Forall_singleton]].
  eapply owned_Proper; [done| |exact Ho]. unfold owners. cbn [ids chains ctxs]. rewrite fmap_app, concat_app. cbn. rewrite app_nil_r. solve_Permutation.
Qed.

Lemma run_adds P m w : program_ok w → code_spec P (owners w) m (gives_identity (owners w)) → fine P (run m (add_id w) w).
Proof.
  intros Hw Hm. eapply run_fine; [done..|]. intros [i|] h os' Hos Ho; cbn in Hos.
  - destruct Hos as [Hi Hos]. rewrite Hos in Ho. by apply add_ok.
  - rewrite Hos in Ho. destruct Hw as [_ H1 H2 H3]. split; unfold add_id; cbn; rewrite ?app_nil_r; try done.
Qed.

Lemma id_in w i x : program_ok w → ids w !! i = Some x → identity_ok x ∧ (∀ p, p ∈ refs_of x → p ∈ owners w).
Proof.
  intros Hw Hi. split; [exact (proj1 (Forall_lookup _ _) (ok_ids _ Hw) _ _ Hi)|]. intros p Hp. rewrite (owners_without_id _ _ _ Hi).
  apply elem_of_app. by left.
Qed.
Lemma chain_in w j c : program_ok w → chains w !! j = Some c → certs_ok c ∧ (∀ p, p ∈ c → p ∈ owners w).
Proof.
  intros Hw Hj. split; [exact (proj1 (Forall_lookup _ _) (ok_chains _ Hw) _ _ Hj)|]. intros p Hp. rewrite (owners_without_chain _ _ _ Hj).
  apply elem_of_app. by left.
Qed.
Lemma ctx_in w j c : program_ok w → ctxs w !! j = Some c → ∃ k, c = (k, KCtx) ∧ c ∈ owners w.
Proof.
  intros Hw Hj. pose proof (proj1 (Forall_lookup _ _) (ok_ctxs _ Hw) _ _ Hj) as Hk. destruct c as [k kk]. cbn in Hk. subst kk.
  exists k. split; [done|]. rewrite (owners_without_ctx _ _ _ Hj). by left.
Qed.

(** The clock is a time between 1970 and some far future. *)
Context (clock_ok : ∀ n, 0 ≤ lib_time n < 2 ^ 62).

Lemma t_GenerateCertificate P os kp expires_ms : params_match kp → from_option (λ ms, 0 ≤ ms) True expires_ms →
  code_spec P os (GenerateCertificate dchk ndebug kp expires_ms) (gives_identity os).
Proof.
  intros Hm He. unfold GenerateCertificate. apply t_lift_bind.
  1-3: unfold KeyParams_IsValid, params_match in *; by destruct kp as [[] []].
  intros [] _; [|by apply t_ret; cbn].
  destruct expires_ms as [ms|]; cbn in He; apply t_CreateWithExpiration; try done; unfold kYearInSeconds, kDefaultCertificateLifetimeInSeconds.
  pose proof (Z.div_pos ms 1000 He ltac:(lia)). lia.
Qed.

Lemma create_fine s w : program_ok w → step_allowed s w →
  match s with
  | SCreate _ _ _ | SGenerate _ _ | SForTest _ | SFromPEM _ _ | SFromChain _ _ | SNewCtx => fine (may_stop s) (identity_act s w)
  | _ => True
  end.
Proof.
  intros Hw Hs. destruct s; try done; cbn [identity_act step_allowed] in *.
  - destruct Hs. by apply run_adds, t_CreateWithExpiration.
  - destruct Hs. by apply run_adds, t_GenerateCertificate.
  - by apply run_adds, t_CreateInternal.
  - by apply run_adds, t_CreateFromPEMStrings.
  - by apply run_adds, t_CreateFromPEMChainStrings.
  - eapply run_fine; [done|by apply t_new|]. intros r h os' Hos Ho. destruct Hw as [_ H1 H2 H3]. split; cbn; try done.
    + eapply owned_Proper; [done| |exact Ho]. unfold owners. cbn. destruct r as [p|]; cbn in *; [|rewrite app_nil_r; by rewrite Hos].
      destruct Hos as [_ ->]. unfold owners. solve_Permutation.
    + apply Forall_app. split; [done|]. destruct r as [p|]; cbn in *; [by apply Forall_singleton; destruct Hos|done].
Qed.

(** Giving something up. *)
Lemma run_drops P (m : M ()) f w ps : program_ok w → (∀ os, code_spec P (ps ++ os) m (keeps os)) → owners w ≡ₚ ps ++ owners (f (lib_heap w)) →
  (∀ h, lib_heap (f h) = h ∧ owners (f h) = owners (f (lib_heap w)) ∧
        Forall identity_ok (ids (f h)) ∧ Forall certs_ok (chains (f h)) ∧ Forall (λ p, p.2 = KCtx) (ctxs (f h))) → fine P (run m (λ _, f) w).
Proof.
  intros Hw Hm Hp Hf. eapply run_fine; [done|eapply t_perm; [exact Hp|apply Hm]|]. intros a h os' Hos Ho.
  destruct (Hf h) as (E1 & E2 & H1 & H2 & H3). split; [|done..]. rewrite E1, E2. unfold keeps in Hos. by rewrite Hos in Ho.
Qed.

Lemma drop_fine s w : program_ok w → step_allowed s w →
  match s with SDelete _ | SDropChain _ | SFreeCtx _ => fine (may_stop s) (identity_act s w) | _ => True end.
Proof.
  intros Hw Hs. pose proof Hw as [_ H1 H2 H3]. destruct s; try done; cbn [identity_act step_allowed] in *;
    unfold with_id, with_chain, with_ctx; apply lookup_lt_is_Some in Hs as [x Hx]; rewrite Hx.
  - eapply (run_drops _ _ (λ h, Program h _ _ _)); [done|intros os; apply t_Identity_delete|by apply owners_without_id|].
    intros h. split_and!; try done. by apply Forall_delete.
  - eapply (run_drops _ _ (λ h, Program h _ _ _)); [done|intros os; by apply t_free_all|by apply owners_without_chain|].
    intros h. split_and!; try done. by apply Forall_delete.
  - eapply (run_drops _ _ (λ h, Program h _ _ _) _ [x]); [done|intros os; by apply (t_free os)|by apply owners_without_ctx|].
    intros h. split_and!; try done. by apply Forall_delete.
Qed.

Lemma copy_fine s w : program_ok w → step_allowed s w →
  match s with SClone _ | SCopyChain _ => fine (may_stop s) (identity_act s w) | _ => True end.
Proof.
  intros Hw Hs. destruct s; try done; cbn [identity_act step_allowed] in *; unfold with_id; apply lookup_lt_is_Some in Hs as [x Hx]; rewrite Hx;
    destruct (id_in _ _ _ Hw Hx) as [Hi Hin].
  - eapply run_fine; [done|by apply t_CloneInternal|]. intros r h os' [-> Hos] Ho. rewrite Hos in Ho. by apply add_ok.
  - destruct Hi as (_ & Hc & _). eapply run_fine; [done|apply t_Chain_Clone; [done|intros p Hp; apply Hin; by right]|].
    intros r h os' [-> Hos] Ho. rewrite Hos in Ho. destruct Hw as [_ H1 H2 H3]. split; cbn; try done.
    + eapply owned_Proper; [done| |exact Ho]. unfold owners. cbn. rewrite concat_app. cbn. rewrite app_nil_r. solve_Permutation.
    + apply Forall_app. split; [done|by apply Forall_singleton].
Qed.

Lemma read_fine s w : program_ok w → step_allowed s w →
  match s with SStats _ | SConfigure _ _ | SToPEM _ | SPublicKey _ | SDer _ | SEqual _ _ => fine (may_stop s) (identity_act s w) | _ => True end.
Proof.
  intros Hw Hs. destruct s; try done; cbn [identity_act step_allowed] in *; unfold with_id, with_chain, with_ctx.
  - apply lookup_lt_is_Some in Hs as [c Hc]. rewrite Hc. destruct (chain_in _ _ _ Hw Hc) as [Hok Hin]. apply run_same_owners; [done|].
    apply t_stats_loop; [done|by apply Forall_reverse|]. intros p Hp. apply Hin. by rewrite reverse_Permutation in Hp.
  - destruct Hs as [Hs1 Hs2]. apply lookup_lt_is_Some in Hs1 as [x Hx]. apply lookup_lt_is_Some in Hs2 as [c Hc]. rewrite Hx, Hc.
    destruct (id_in _ _ _ Hw Hx) as [Hi Hin]. destruct (ctx_in _ _ _ Hw Hc) as (k & -> & Hk). by apply run_same_owners, t_ConfigureIdentity.
  - apply lookup_lt_is_Some in Hs as [x Hx]. rewrite Hx. destruct (id_in _ _ _ Hw Hx) as [Hi Hin]. by apply run_same_owners, t_ToPEM.
  - apply lookup_lt_is_Some in Hs as [x Hx]. rewrite Hx. destruct (id_in _ _ _ Hw Hx) as [(Hk & _) Hin]. apply run_same_owners; [done|].
    assert (key_pair_ x ∈ owners w) as Hp by (apply Hin; by left). destruct (key_pair_ x) as [k kk]. cbn in Hk. subst kk. by apply t_key_to_pem.
  - apply lookup_lt_is_Some in Hs as [c Hc]. rewrite Hc. destruct (chain_in _ _ _ Hw Hc) as [Hok Hin]. destruct c as [|[p k] c]; [right; eauto|].
    apply Forall_cons in Hok as [Hk _]. cbn in Hk. subst k. apply run_same_owners; [done|]. apply t_cert_to; [done|]. apply Hin. by left.
  - destruct Hs as [Hs1 Hs2]. apply lookup_lt_is_Some in Hs1 as [x Hx]. apply lookup_lt_is_Some in Hs2 as [y Hy]. rewrite Hx, Hy.
    destruct (id_in _ _ _ Hw Hx), (id_in _ _ _ Hw Hy). apply run_same_owners; [done|]. by apply t_Identity_eq.
Qed.

Lemma identity_fine s w : program_ok w → step_allowed s w → fine (may_stop s) (identity_act s w).
Proof.
  intros Hw Hs. pose proof (create_fine s w Hw Hs). pose proof (drop_fine s w Hw Hs). pose proof (copy_fine s w Hw Hs).
  pose proof (read_fine s w Hw Hs). by destruct s.
Qed.

Lemma programs_ok w : programs w → program_ok w.
Proof.
  induction 1 as [|s w w' _ IH Hs Ha].
  - split; [|constructor..]. split; [|done]. intros p. unfold refs. cbn. done.
  - destruct (identity_fine s w IH Hs) as [[_ E1]|(w2 & E1 & Hw)]; rewrite Ha in E1; [done|]. by injection E1 as <-.
Qed.
End Programs.

(** ** Nothing is lost *)

Lemma held_elem m p : p ∈ held m → ∃ i o n, m !! i = Some (o, n) ∧ p ∈ children o.
Proof.
  unfold held. rewrite list_elem_of_In, in_concat. intros (l & Hl & Hp). apply list_elem_of_In in Hl.
  apply list_elem_of_fmap in Hl as ([i [o n]] & -> & Hi). exists i, o, n. split; [by apply elem_of_map_to_list|by apply list_elem_of_In].
Qed.

(** Objects that only objects hold would hold each other without end. *)
Lemma owned_nothing h : owned h [] → objs h = ∅.
Proof.
  intros [Hc Ho]. cut (∀ d i o n, (2 - rank (kind_of o) ≤ d)%nat → objs h !! i = Some (o, n) → False).
  { intros H. apply map_eq. intros i. rewrite lookup_empty. destruct (objs h !! i) as [[o n]|] eqn:Ei; [|done]. exfalso. by eapply H. }
  intros d. induction d as [|d IH]; intros i o n Hd Hi; pose proof (Ho _ _ _ Hi) as (Hn & _ & _); specialize (Hc (i, kind_of o)); cbn [app] in Hc;
    rewrite (counts_eq _ (i, kind_of o) o n Hi eq_refl) in Hc; assert ((i, kind_of o) ∈ held (objs h)) as Hh by (apply cnt_pos; lia);
    apply held_elem in Hh as (j & o' & n' & Hj & Hin); destruct (Ho _ _ _ Hj) as (_ & _ & Hr);
    rewrite Forall_forall in Hr; specialize (Hr _ Hin); cbn [snd] in Hr.
  - destruct (kind_of o'); cbn in *; lia.
  - eapply (IH j o' n'); [|done]. lia.
Qed.

(** C35: In every program that makes identities (new ones, from PEM texts, from
    chains, copies), copies chains, configures contexts, compares, prints and
    gives up what it has, whatever OpenSSL answers and whichever of its calls
    fail: no step uses an object of OpenSSL that was freed or is of another type,
    and only steps that make a random name, print, or read a text of 2^31 bytes
    and more can stop the process. Every object has exactly as many references as
    identities, chains and contexts of the program and other objects have
    pointers to it; and when the program has given up everything, OpenSSL has no
    object left. *)
Theorem identities_exact `{CryptoLib} `{EVP} dchk ndebug w : (∀ n, 0 ≤ lib_time n < 2 ^ 62) → programs dchk ndebug w →
  (∀ s, step_allowed s w → may_stop s ∧ identity_act dchk ndebug s w = Aborted ∨ ∃ w', identity_act dchk ndebug s w = Val w') ∧
  (∀ p, refs (objs (lib_heap w)) p = cnt p (owners w) + cnt p (held (objs (lib_heap w))))%nat ∧
  (ids w = [] → chains w = [] → ctxs w = [] → objs (lib_heap w) = ∅).
Proof.
  intros Ht Hw. apply (programs_ok _ _ Ht) in Hw. split_and!.
  - intros s Hs. destruct (identity_fine dchk ndebug Ht s w Hw Hs) as [?|(w' & Hv & _)]; eauto.
  - intros p. destruct Hw as [[Hc _] _ _ _]. by rewrite <- Hc, cnt_app.
  - intros H1 H2 H3. destruct Hw as [Ho _ _ _]. unfold owners in Ho. rewrite H1, H2, H3 in Ho. by apply owned_nothing.
Qed.

(** A library with three texts: "C", "D" and "E" in a row are certificates, and
    the key is the text "K". *)
Definition demo_cert (c : Z) : X509 := Cert (Some (b#"K")) c 2 [c] [c] (V_ASN1_UTCTIME, []) (V_ASN1_UTCTIME, b#"300101000000Z") (Some (b#"K")) NID_sha256WithRSAEncryption.
Definition demo_read (text : list Z) : (X509 * list Z) + list ssl_error :=
  match text with
  | [] => inr [PEM_R_NO_START_LINE]
  | c :: rest => if (67 <=? c) && (c <=? 69) then inl (demo_cert c, rest) else inr [OtherError c]
  end.
Lemma demo_read_progress text c rest : demo_read text = inl (c, rest) → (length rest < length text)%nat.
Proof. destruct text as [|d text]; cbn; [done|]. destruct (_ && _); [|done]. intros [= _ <-]. lia. Qed.
Lemma demo_der c : bytes_ok (u8 (serial c) :: []).
Proof. apply Forall_singleton. unfold byte_ok. apply (uwrap_range 8). lia. Qed.
Definition demo_lib (ok : nat → bool) : CryptoLib := {|
  lib_ok := ok; lib_errors := λ n, [OtherError (Z.of_nat n)]; lib_time := λ _, 1700000000; lib_rand := λ _, None; lib_serial := Z.of_nat;
  gen_rsa := λ n bits e, [Z.of_nat n; bits; e]; gen_ec := λ n, [Z.of_nat n]; key_pem := λ k, k; pub_pem := λ k, k;
  read_key := λ s, if decide (s = b#"K") then inl s else inr [OtherError 0]; key_missing_parameters := λ _, false;
  key_cmp := λ k l, if decide (k = l) then 1 else 0; x509_pem := λ c, subject c; x509_der := λ c, [u8 (serial c)];
  read_x509 := demo_read; x509_cmp := λ c d, serial c - serial d; time_adj := λ t, (V_ASN1_OTHER, [t]); sign_nid := λ _, NID_sha256WithRSAEncryption;
  read_x509_progress := demo_read_progress; der_bytes := demo_der |}.


Fixpoint identity_acts `{CryptoLib} `{EVP} (dchk ndebug : bool) (l : list identity_step) (w : program) : res program :=
  match l with [] => Val w | s :: l => let* w := identity_act dchk ndebug s w in identity_acts dchk ndebug l w end.

Fixpoint acts_allowed `{CryptoLib} `{EVP} (dchk ndebug : bool) (l : list identity_step) (w : program) : Prop :=
  match l with
  | [] => True
  | s :: l => step_allowed s w ∧ match identity_act dchk ndebug s w with Val w => acts_allowed dchk ndebug l w | _ => False end
  end.

Lemma programs_acts {L : CryptoLib} {E : EVP} dchk ndebug l : ∀ w w', programs dchk ndebug w →
  acts_allowed dchk ndebug l w → identity_acts dchk ndebug l w = Val w' → programs dchk ndebug w'.
Proof.
  induction l as [|s l IH]; cbn; intros w w' Hw Hs Ha; [by injection Ha as <-|]. destruct Hs as [Hs Hl].
  destruct (identity_act dchk ndebug s w) as [w1| | |] eqn:E1; try done. eapply IH; [by eapply programs_step|done..].
Qed.

#[local] Instance demo_ok_lib : CryptoLib := demo_lib (λ _, true).

Definition demo_program : list identity_step :=
  [SFromChain (b#"K") (b#"CDE"); SClone 0; SNewCtx; SConfigure 1 0; SDelete 0].

Definition demo_end : program := match identity_acts true true demo_program program_new with Val w => w | _ => program_new end.

(** The second identity has the key and the three certificates, and the context
    holds them as well: two references each. *)
Example identity_demo : ids demo_end = [Identity (5%nat, KKey) [(1%nat, KX509); (2%nat, KX509); (3%nat, KX509)]] ∧
  refs (objs (lib_heap demo_end)) <$> owners demo_end = [2; 2; 2; 2; 1]%nat.
Proof. vm_compute. by split. Qed.

(** A text with a damaged certificate behind a good one gives no identity; but
    once any chain was read, the error that ended it is still the first of the
    queue, and the damaged text gives an identity with the good part. *)
Definition chain_lengths (l : list identity_step) : option (list nat) :=
  match identity_acts true true l program_new with Val w => Some ((λ i, length (cert_chain_ i)) <$> ids w) | _ => None end.
Example stale_error_truncates :
  chain_lengths [SFromChain (b#"K") (b#"Cx")] = Some [] ∧
  chain_lengths [SFromChain (b#"K") (b#"DE"); SFromChain (b#"K") (b#"Cx")] = Some [2; 1]%nat.
Proof. vm_compute. by split. Qed.

Lemma identities_exact_witness : programs true true demo_end ∧ ids demo_end ≠ [] ∧
  ∃ w', identity_act true true (SClone 0) demo_end = Val w'.
Proof.
  assert (programs true true demo_end) as Hp.
  { apply (programs_acts true true demo_program program_new); [constructor|vm_compute; split_and!; (done || lia)|by vm_compute]. }
  split_and!; [done|by vm_compute|].
  destruct (identities_exact true true demo_end) as [Hs _]; [intros n; cbn; lia|done|].
  destruct (Hs (SClone 0)) as [[[] _]|Hv]; [vm_compute; lia|exact Hv].
Defined.
