(* ===== verification/IdentitySpec.v ===== *)
(** * What a new identity is, and what is read of a chain
      (rtc_base/openssl_identity, openssl_certificate, rtc_certificate,
      rtc_certificate_generator)

    The contents of the objects, where [Identity] counts their references. When
    no call of OpenSSL fails, a generated identity is a new key with a certificate
    for that key, signed with it, for the name and the time asked for; reading a
    text gives an identity with exactly the certificates of the text, and what a
    certificate is printed as is read back. *)

From S2P Require Import Prelude TimeUtils StringToNumber SafeNumerics MessageDigest SslIdentity Base64 Helpers Identity.

(** No object has a number that was not given out. *)
Definition tidy (h : heap) : Prop := ∀ i, (fresh h ≤ i)%nat → objs h !! i = None.

Lemma owned_tidy h os : owned h os → tidy h.
Proof. intros [_ Ho] i Hi. destruct (objs h !! i) as [[o n]|] eqn:E; [|done]. apply Ho in E. lia. Qed.

Ltac look := cbn [objs fresh fst snd]; solve [repeat first [eassumption | rewrite lookup_insert_eq; reflexivity | rewrite lookup_insert_ne by lia
  | rewrite lookup_delete_ne by lia | reflexivity]].

Section Answers.
Context {L : CryptoLib} (all_ok : ∀ n, lib_ok n = true).

Lemma ask_ok h : ask h = Val (true, Heap (objs h) (fresh h) (S (calls h)) (errs h)).
Proof. unfold ask. by rewrite all_ok. Qed.
Lemma new_object_ok o h : new o h = Val (Some (fresh h, kind_of o), Heap (<[fresh h := (o, 1%nat)]> (objs h)) (S (fresh h)) (S (calls h)) (errs h)).
Proof. unfold new. rewrite (bind_val _ _ _ _ _ (ask_ok h)). done. Qed.
Lemma get_ok p o n h : objs h !! p.1 = Some (o, n) → kind_of o = p.2 → get p h = Val (o, h).
Proof. intros Hl Hk. unfold get. by rewrite Hl, decide_True. Qed.
Lemma get_key_ok i k sub n h : objs h !! i = Some (OKey k sub, n) → get_key (i, KKey) h = Val (k, h).
Proof. intros Hl. unfold get_key. by rewrite (bind_val _ _ _ _ _ (get_ok (i, KKey) _ _ h Hl eq_refl)). Qed.
Lemma get_x509_ok i c n h : objs h !! i = Some (OX509 c, n) → get_x509 (i, KX509) h = Val (c, h).
Proof. intros Hl. unfold get_x509. by rewrite (bind_val _ _ _ _ _ (get_ok (i, KX509) _ _ h Hl eq_refl)). Qed.
Lemma put_ok p o o' n h : objs h !! p.1 = Some (o, n) → put p o' h = Val ((), Heap (<[p.1 := (o', n)]> (objs h)) (fresh h) (calls h) (errs h)).
Proof. intros Hl. unfold put. by rewrite Hl. Qed.
Lemma edit_ok i f c n h : objs h !! i = Some (OX509 c, n) →
  edit_x509 (i, KX509) f h = Val (true, Heap (<[i := (OX509 (f c), n)]> (objs h)) (fresh h) (S (calls h)) (errs h)).
Proof.
  intros Hl. unfold edit_x509. rewrite (bind_val _ _ _ _ _ (get_x509_ok _ _ _ _ Hl)), (bind_val _ _ _ _ _ (ask_ok h)). cbn beta iota.
  erewrite bind_val; [|by eapply put_ok; cbn; exact Hl]. done.
Qed.
Lemma free_ok i k o h : objs h !! i = Some (o, 1%nat) → kind_of o = k → children o = [] →
  free (Some (i, k)) h = Val ((), Heap (base.delete i (objs h)) (fresh h) (calls h) (errs h)).
Proof. intros Hl Hk Hc. unfold free. cbn [unref fst snd]. rewrite Hl, decide_True, Hc by done. done. Qed.

(** A certificate made for a key: what it says. *)
Record made_for (k : key) (params : SSLIdentityParams) (c : X509) : Prop := {
  made_pubkey : pubkey c = Some k; made_signed : signed_by c = Some k; made_version : version c = 2;
  made_subject : subject c = c_string (common_name params); made_issuer : issuer_name c = c_string (common_name params);
  made_before : notBefore c = time_adj (not_before params); made_after : notAfter c = time_adj (not_after params);
  made_serial : 0 ≤ serial c < 2 ^ 64; made_algorithm : signature c = sign_nid k }.

Ltac st l := erewrite bind_val; [|l]; cbn beta iota delta [negb fst snd kind_of objs fresh calls errs].

Lemma set_random_serial_ok x s c n h : objs h !! x = Some (OX509 c, n) → objs h !! s = Some (OBn 0, 1%nat) → x ≠ s →
  ∃ v calls', 0 ≤ v < 2 ^ 64 ∧ set_random_serial (x, KX509) (s, KBn) h =
    Val (true, Heap (<[x := (OX509 (set_serial v c), n)]> (<[s := (OBn v, 1%nat)]> (objs h))) (fresh h) calls' (errs h)).
Proof.
  intros Hx Hs Hne. unfold set_random_serial, and_also. eexists (lib_serial _ `mod` 2 ^ 64), _. split; [apply Z.mod_pos_bound; lia|].
  erewrite bind_val.
  2:{ st ltac:(by eapply get_ok; [look|]). st ltac:(apply ask_ok). st ltac:(done). st ltac:(eapply put_ok; look). done. }
  cbn beta iota. st ltac:(apply ask_ok). st ltac:(by eapply get_ok; [look|]).
  erewrite edit_ok; [|look]. done.
Qed.

Lemma set_names_ok x nm cn c n h : objs h !! x = Some (OX509 c, n) → objs h !! nm = Some (OName [], 1%nat) → x ≠ nm →
  ∃ calls', set_names (x, KX509) (nm, KName) cn h =
    Val (true, Heap (<[x := (OX509 (set_issuer (c_string cn) (set_subject (c_string cn) c)), n)]> (<[nm := (OName (c_string cn), 1%nat)]> (objs h)))
                    (fresh h) calls' (errs h)).
Proof.
  intros Hx Hs Hne. unfold set_names, and_also. eexists. erewrite bind_val.
  2:{ st ltac:(by eapply get_ok; [look|]). st ltac:(apply ask_ok). st ltac:(eapply put_ok; look). done. }
  cbn beta iota. erewrite bind_val. 2:{ st ltac:(by eapply get_ok; [look|]). eapply edit_ok; look. }
  cbn beta iota. st ltac:(by eapply get_ok; [look|]). erewrite edit_ok; [|look]. cbn [objs fresh calls errs]. by rewrite insert_insert_eq.
Qed.

Lemma MakeCertificate_ok i k sub n params h : tidy h → (i < fresh h)%nat → objs h !! i = Some (OKey (Some k) sub, n) →
  ∃ c f calls', made_for k params c ∧ (fresh h < f)%nat ∧ MakeCertificate (i, KKey) params h =
    Val (Some (fresh h, KX509), Heap (<[fresh h := (OX509 c, 1%nat)]> (objs h)) f calls' (errs h)).
Proof.
  intros Htidy Hi Hk. unfold MakeCertificate. set (x := fresh h) in *.
  destruct (set_random_serial_ok x (S x) (set_pubkey (Some k) X509_blank) 1
    (Heap (<[S x := (OBn 0, 1%nat)]> (<[x := (OX509 (set_pubkey (Some k) X509_blank), 1%nat)]> (<[x := (OX509 X509_blank, 1%nat)]> (objs h))))
       (S (S x)) (S (S (S (calls h)))) (errs h))) as (v & calls1 & Hv & E1); [look|look|lia|].
  set (c1 := set_version 2 (set_serial v (set_pubkey (Some k) X509_blank))).
  destruct (set_names_ok x (S (S x)) (common_name params) c1 1
    (Heap (<[S (S x) := (OName [], 1%nat)]> (<[x := (OX509 c1, 1%nat)]> (<[x := (OX509 (set_serial v (set_pubkey (Some k) X509_blank)), 1%nat)]> (<[S x := (OBn v, 1%nat)]>
       (<[S x := (OBn 0, 1%nat)]> (<[x := (OX509 (set_pubkey (Some k) X509_blank), 1%nat)]> (<[x := (OX509 X509_blank, 1%nat)]> (objs h))))))))
       (S (S (S x))) (S (S calls1)) (errs h))) as (calls2 & E2); [look|look|lia|].
  st ltac:(apply new_object_ok). cbn [children]. st ltac:(eapply get_key_ok; look). st ltac:(eapply edit_ok; look). st ltac:(apply new_object_ok).
  cbn [objs fresh calls errs] in *. st ltac:(exact E1). st ltac:(eapply edit_ok; look). st ltac:(apply new_object_ok).
  cbn [objs fresh calls errs] in *. fold c1. st ltac:(exact E2).
  unfold and_also. erewrite bind_val. 2:{ st ltac:(eapply edit_ok; look). eapply edit_ok; look. } cbn beta iota delta [negb].
  st ltac:(eapply edit_ok; look). st ltac:(eapply free_ok; [look|done..]). st ltac:(eapply free_ok; [look|done..]).
  cbn [objs fresh calls errs]. set (c2 := set_signature (Some k) _). exists c2. eexists (S (S (S x))), _. split; [by split|].
  split; [lia|]. unfold mret, M_ret. match goal with |- Val (_, Heap ?m _ _ _) = Val (_, Heap ?m' _ _ _) => replace m' with m; [done|] end.
  apply map_eq. intros j. destruct (decide (j = x)) as [->|]; [|destruct (decide (j = S x)) as [->|]; [|destruct (decide (j = S (S x))) as [->|]]];
    repeat first [rewrite lookup_insert_eq | rewrite lookup_delete_eq | rewrite lookup_insert_ne by lia | rewrite lookup_delete_ne by lia];
    try done; symmetry; apply Htidy; lia.
Qed.

(** A key of the kind asked for. *)
Definition made_key (kp : KeyParams) (k : key) : Prop :=
  match params_ kp with URsa r => ∃ n, k = gen_rsa n (s32 (mod_size r)) (pub_exp r) | UCurve _ => ∃ n, k = gen_ec n end.

(** Only objects with new numbers came, and the key is the first of them. *)
Record adds_key (k : key) (h h' : heap) : Prop := {
  adds_object : ∃ sub, objs h' !! fresh h = Some (OKey (Some k) sub, 1%nat); adds_tidy : tidy h'; adds_fresh : (fresh h < fresh h')%nat;
  adds_same : ∀ j, (j < fresh h)%nat → objs h' !! j = objs h !! j }.

Lemma assign_ok i s k h sub_kind : objs h !! i = Some (OKey None None, 1%nat) →
  objs h !! s = Some (match sub_kind with KRsa => ORsa (Some k) | _ => OEc (Some k) end, 1%nat) → sub_kind = KRsa ∨ sub_kind = KEc →
  EVP_PKEY_assign (i, KKey) (s, sub_kind) h =
    Val (true, Heap (<[i := (OKey (Some k) (Some (s, sub_kind)), 1%nat)]> (objs h)) (fresh h) (S (calls h)) (errs h)).
Proof.
  intros Hi Hs Hk. unfold EVP_PKEY_assign. st ltac:(eapply get_ok; [look|by destruct Hk as [-> | ->]]). st ltac:(apply ask_ok).
  st ltac:(by eapply get_ok; [look|]). st ltac:(eapply put_ok; look). by destruct Hk as [-> | ->].
Qed.

Ltac in_map := repeat first [rewrite lookup_insert_eq | rewrite lookup_delete_eq | rewrite lookup_insert_ne by lia | rewrite lookup_delete_ne by lia].

(** The heap is written out. *)
Ltac new_key := split; cbn [objs fresh]; [eexists; by in_map| |subst; lia|intros j Hj; by in_map];
  intros j Hj; cbn [objs fresh] in Hj; cbn [objs]; in_map; match goal with H : tidy _ |- _ => apply H; lia end.

Lemma MakeKey_ok dchk kp h : tidy h → KeyParams_IsValid kp = Val true →
  ∃ k h', made_key kp k ∧ adds_key k h h' ∧ MakeKey dchk kp h = Val (Some (fresh h, KKey), h').
Proof.
  intros Ht Hv. unfold made_key. destruct kp as [[] [r|c]]; try done; unfold MakeKey; cbn [type_ params_].
  - set (f := fresh h). eexists _, _. split; [by eexists|]. split; [|st ltac:(apply new_object_ok); cbn [type_]; st ltac:(by destruct dchk);
      st ltac:(apply new_object_ok); st ltac:(apply new_object_ok); erewrite bind_val;
      [|unfold and_also at 1; erewrite bind_val;
        [|st ltac:(by eapply get_ok; [look|]); st ltac:(apply ask_ok); st ltac:(eapply put_ok; look); reflexivity]; cbn beta iota;
        unfold and_also; erewrite bind_val;
        [|unfold RSA_generate_key_ex; st ltac:(by eapply get_ok; [look|]); st ltac:(apply ask_ok); st ltac:(reflexivity); st ltac:(eapply put_ok; look); reflexivity];
        cbn beta iota; eapply (assign_ok _ _ _ _ KRsa); [look|look|by left]]; cbn beta iota; st ltac:(eapply free_ok; [look|done..]); reflexivity].
    new_key.
  - destruct c; [|done]. set (f := fresh h). eexists _, _. split; [by eexists|]. split; [|st ltac:(apply new_object_ok); cbn [type_]; st ltac:(by destruct dchk);
      st ltac:(apply new_object_ok); erewrite bind_val;
      [|unfold and_also; erewrite bind_val;
        [|unfold EC_KEY_generate_key; st ltac:(by eapply get_ok; [look|]); st ltac:(apply ask_ok); st ltac:(reflexivity); st ltac:(eapply put_ok; look); reflexivity];
        cbn beta iota; eapply (assign_ok _ _ _ _ KEc); [look|look|by right]]; reflexivity].
    new_key.
Qed.

Lemma PrintCert_ok i c n h : tidy h → (i < fresh h)%nat → objs h !! i = Some (OX509 c, n) →
  ∃ calls', PrintCert (i, KX509) h = Val ((), Heap (objs h) (S (fresh h)) calls' (errs h)).
Proof.
  intros Ht Hi Hl. unfold PrintCert. st ltac:(apply new_object_ok). st ltac:(eapply get_x509_ok; look). erewrite free_ok; [|look|done..].
  cbn [objs fresh calls errs]. rewrite delete_insert_id by (by apply Ht). eauto.
Qed.

(** A reference is taken by the object and the one of the caller given up. *)
Lemma cert_wrap_ok i c h : objs h !! i = Some (OX509 c, 1%nat) →
  (ret ← OpenSSLCertificate_new (i, KX509); free (Some (i, KX509));; mret (Some ret)) h = Val (Some (i, KX509), h).
Proof.
  intros Hl. unfold OpenSSLCertificate_new. erewrite bind_val.
  2:{ erewrite bind_val; [done|]. unfold up_ref. cbn [fst snd]. rewrite Hl. done. }
  cbn beta iota. erewrite bind_val. 2:{ unfold free. cbn [unref fst snd objs set_objs]. rewrite lookup_insert_eq. done. }
  unfold mret, M_ret, set_objs. cbn [objs fresh calls errs]. rewrite insert_insert_eq, insert_id by done. by destruct h.
Qed.

Lemma Certificate_Generate_ok ndebug i k sub n params h : tidy h → (i < fresh h)%nat → objs h !! i = Some (OKey (Some k) sub, n) →
  common_name params ≠ [] →
  ∃ c f calls', made_for k params c ∧ (fresh h < f)%nat ∧ Certificate_Generate ndebug (i, KKey) params h =
    Val (Some (fresh h, KX509), Heap (<[fresh h := (OX509 c, 1%nat)]> (objs h)) f calls' (errs h)).
Proof.
  intros Ht Hi Hk Hcn. unfold Certificate_Generate. rewrite decide_False by done. erewrite bind_val; [|done].
  destruct (MakeCertificate_ok i k sub n params h Ht Hi Hk) as (c & f & calls1 & Hm & Hf & E1). destruct params as [cn nb na kp].
  cbn [common_name not_before not_after key_params]. rewrite (bind_val _ _ _ _ _ E1). cbn beta iota. exists c.
  set (h1 := Heap _ _ _ _) in E1. assert (tidy h1) as Ht1.
  { intros j Hj. unfold h1 in *. cbn [objs fresh] in *. rewrite lookup_insert_ne by lia. apply Ht. lia. }
  assert (objs h1 !! fresh h = Some (OX509 c, 1%nat)) as Hx by (unfold h1; look).
  destruct ndebug.
  - eexists f, _. split; [done|]. split; [done|]. erewrite bind_val; [|done]. by rewrite (cert_wrap_ok _ c).
  - destruct (PrintCert_ok _ _ _ h1 Ht1 Hf Hx) as (calls2 & E2). eexists (S f), _. split; [done|]. split; [lia|].
    rewrite (bind_val _ _ _ _ _ E2). rewrite (cert_wrap_ok _ c); [done|]. unfold h1. look.
Qed.

(** How long a certificate is asked to be valid, in seconds. *)
Definition lifetime_of (expires_ms : option Z) : Z :=
  match expires_ms with None => kDefaultCertificateLifetimeInSeconds | Some ms => (ms / 1000) `min` kYearInSeconds end.

Lemma CreateInternal_ok dchk ndebug params h : tidy h → KeyParams_IsValid (key_params params) = Val true → common_name params ≠ [] →
  ∃ i x k sub c h', CreateInternal dchk ndebug params h = Val (Some (Identity (i, KKey) [(x, KX509)]), h') ∧
    objs h' !! i = Some (OKey (Some k) sub, 1%nat) ∧ objs h' !! x = Some (OX509 c, 1%nat) ∧ made_key (key_params params) k ∧ made_for k params c ∧
    ∀ j, (j < fresh h)%nat → objs h' !! j = objs h !! j.
Proof.
  intros Ht Hv Hcn. destruct (MakeKey_ok dchk _ h Ht Hv) as (k & h1 & Hk & [[sub Ho] Ht1 Hf1 Hs] & E1).
  destruct (Certificate_Generate_ok ndebug (fresh h) k sub 1 params h1 Ht1 Hf1 Ho Hcn) as (c & f & calls' & Hc & Hf & E2).
  exists (fresh h), (fresh h1), k, sub, c. eexists. split_and!.
  - unfold CreateInternal. erewrite bind_val. 2:{ unfold KeyPair_Generate. rewrite (bind_val _ _ _ _ _ E1). done. }
    cbn beta iota. rewrite (bind_val _ _ _ _ _ E2). done.
  - look.
  - look.
  - done.
  - done.
  - intros j Hj. cbn [objs]. rewrite lookup_insert_ne by lia. by apply Hs.
Qed.
End Answers.

(** ** When a certificate expires *)

(** A time as a certificate has it: the digits of a date that exists. *)
Definition denotes (t : asn1_type * list Z) (secs : Z) : Prop := ∃ (long_format : bool) ds d,
  t = (if long_format then V_ASN1_GENERALIZEDTIME else V_ASN1_UTCTIME, asn1_text ds) ∧ Forall is_digit ds ∧ asn1_fields long_format ds = Some d ∧
  tm_valid d ∧ calendar_seconds d = secs.

Lemma fields_length long_format ds d : asn1_fields long_format ds = Some d → length ds = asn1_digits long_format.
Proof. intros Ht. unfold asn1_fields in Ht. destruct long_format; repeat (destruct ds as [|? ds]; try discriminate Ht); reflexivity. Qed.

Lemma expiration_exact t secs : denotes t secs → CertificateExpirationTime t.1 t.2 (Z.of_nat (length t.2)) = Val secs.
Proof.
  intros (lf & ds & d & -> & Hd & Hf & Hv & <-). cbn [fst snd]. pose proof (fields_length _ _ _ Hf) as El.
  assert (length (asn1_text ds) = S (length ds)) as Elen by (unfold asn1_text; rewrite length_app, length_fmap; cbn; lia).
  assert (ASN1TimeToSec (asn1_text ds) (Z.of_nat (length (asn1_text ds))) lf = Val (calendar_seconds d)) as Ha.
  { pose proof (ASN1TimeToSec_text lf ds [] Hd) as Ht. rewrite app_nil_r in Ht. rewrite Elen.
    replace (Z.of_nat (S (length ds))) with (Z.of_nat (length ds) + 1) by lia. rewrite Ht by (rewrite El; destruct lf; cbn; lia).
    pose proof (asn1_rest_exact lf ds d [] Hd Hf) as Hr. rewrite app_nil_r in Hr. rewrite El, Hr. by apply tm_to_seconds_valid. }
  by destruct lf.
Qed.

Lemma Expires_ok `{CryptoLib} i x cs c n h secs : objs h !! x = Some (OX509 c, n) → denotes (notAfter c) secs → 0 ≤ secs < 2 ^ 53 →
  Expires (Identity (i, KKey) ((x, KX509) :: cs)) h = Val (secs * 1000, h).
Proof.
  intros Hx Hd Hs. unfold Expires, certificate. cbn [cert_chain_ list.head]. erewrite bind_val; [|done]. erewrite bind_val.
  2:{ unfold ExpirationTime. erewrite bind_val; [|by eapply get_x509_ok]. unfold lift. rewrite (expiration_exact _ _ Hd). done. }
  unfold mret, M_ret. rewrite (proj2 (Z.eqb_neq _ _)) by lia. cbn [negb]. by rewrite (u64_small secs), u64_small by lia.
Qed.

(** C36: When no call of OpenSSL fails, generating a certificate for valid key
    parameters gives an identity with a new key of the kind asked for and one
    certificate: for that key, signed with it, version 3, with the fixed name as
    subject and issuer, valid from a day before now until now and the seconds
    asked for, at most a year, or 30 days. Where OpenSSL writes that end as the
    digits of its date, the certificate expires exactly then, in milliseconds.
    What was in the heap before is as it was. *)
Theorem new_identity_exact `{CryptoLib} `{EVP} dchk ndebug kp expires_ms h os :
  (∀ n, lib_ok n = true) → (∀ n, 0 ≤ lib_time n < 2 ^ 52) → owned h os → KeyParams_IsValid kp = Val true →
  from_option (λ ms, 0 ≤ ms) True expires_ms →
  ∃ i x k sub c h' now, let new := Identity (i, KKey) [(x, KX509)] in
    GenerateCertificate dchk ndebug kp expires_ms h = Val (Some new, h') ∧
    now = lib_time (calls h) ∧ objs h' !! i = Some (OKey (Some k) sub, 1%nat) ∧ objs h' !! x = Some (OX509 c, 1%nat) ∧
    made_key kp k ∧ made_for k (Params kIdentityName (now - 86400) (now + lifetime_of expires_ms) kp) c ∧
    (denotes (time_adj (now + lifetime_of expires_ms)) (now + lifetime_of expires_ms) →
     Expires new h' = Val ((now + lifetime_of expires_ms) * 1000, h') ∧
     ∀ t, HasExpired new t h' = Val (bool_decide ((now + lifetime_of expires_ms) * 1000 ≤ t), h')) ∧
    (∀ j, (j < fresh h)%nat → objs h' !! j = objs h !! j).
Proof.
  intros Hok Ht Hw Hv He. set (now := lib_time (calls h)). specialize (Ht (calls h)). fold now in Ht.
  assert (0 ≤ lifetime_of expires_ms ≤ 31536000) as Hl.
  { unfold lifetime_of, kDefaultCertificateLifetimeInSeconds, kYearInSeconds. destruct expires_ms as [ms|]; [|lia]. cbn in He. pose proof (Z.div_pos ms 1000 He ltac:(lia)). lia. }
  set (params := Params kIdentityName (now + (-60 * 60 * 24)) (now + lifetime_of expires_ms) kp).
  set (h1 := Heap (objs h) (fresh h) (S (calls h)) (errs h)).
  destruct (CreateInternal_ok Hok dchk ndebug params h1) as (i & x & k & sub & c & h' & E1 & Hi & Hx & Hk & Hc & Hsame); [|done..|].
  { intros j Hj. by apply (owned_tidy _ _ Hw). }
  exists i, x, k, sub, c, h', now. cbn zeta.
  assert (denotes (time_adj (now + lifetime_of expires_ms)) (now + lifetime_of expires_ms) →
     Expires (Identity (i, KKey) [(x, KX509)]) h' = Val ((now + lifetime_of expires_ms) * 1000, h')) as Hex.
  { intros Hd. eapply Expires_ok; [exact Hx| |lia]. by rewrite (made_after _ _ _ Hc). }
  split_and!; try done.
  - assert (GenerateCertificate dchk ndebug kp expires_ms h = CreateWithExpiration dchk ndebug kIdentityName kp (lifetime_of expires_ms) h) as ->.
    { unfold GenerateCertificate, lift. rewrite Hv. by destruct expires_ms. }
    unfold CreateWithExpiration. rewrite (bind_val _ _ h now h1) by done. unfold kCertificateWindowInSeconds.
    erewrite bind_val; [|unfold lift; by rewrite time_sum_val by lia]. erewrite bind_val; [|unfold lift; by rewrite time_sum_val by lia].
    rewrite (proj2 (Z.ltb_ge _ _)) by lia. exact E1.
  - intros Hd. split; [by apply Hex|]. intros t. unfold HasExpired. rewrite (bind_val _ _ _ _ _ (Hex Hd)). unfold mret, M_ret. do 2 f_equal.
    destruct (Z.leb_spec ((now + lifetime_of expires_ms) * 1000) t); [by rewrite bool_decide_true|by rewrite bool_decide_false by lia].
Qed.

(** ** What is read of a chain *)

(** The certificates of a text, and the errors of the reading that ends it. *)
Inductive parses `{CryptoLib} : list Z → list X509 → list ssl_error → Prop :=
| parses_end text e : read_x509 text = inr e → parses text [] e
| parses_cert text c rest cs e : read_x509 text = inl (c, rest) → parses rest cs e → parses text (c :: cs) e.

Definition contents (h : heap) (ps : list ptr) (cs : list X509) : Prop := Forall2 (λ p c, p.2 = KX509 ∧ objs h !! p.1 = Some (OX509 c, 1%nat)) ps cs.

Lemma contents_same h h' ps cs : (∀ p, p ∈ ps → objs h' !! p.1 = objs h !! p.1) → contents h ps cs → contents h' ps cs.
Proof.
  intros Hs Hc. induction Hc as [|p c ps cs [Hk Ho] _ IH]; constructor.
  - split; [done|]. rewrite Hs; [done|by left].
  - apply IH. intros q Hq. apply Hs. by right.
Qed.

Lemma contents_certs h ps cs : contents h ps cs → certs_ok ps.
Proof. induction 1 as [|p c ps cs [Hk _] _ IH]; constructor; done. Qed.

(** The loop takes the certificates in order, whatever was taken before; it
    ends well when the first error of the queue says that no more begins. *)
Lemma read_chain_exact `{CryptoLib} (all_ok : ∀ n, lib_ok n = true) text cs e : parses text cs e →
  ∀ fuel certs before h os i, owned h ((i, KBio) :: certs ++ os) → text_at h i text → (length text < fuel)%nat → contents h certs before →
  ∃ h', if decide (list.head (errs h ++ e) = Some PEM_R_NO_START_LINE) then
    ∃ certs', read_chain fuel (i, KBio) certs h = Val (Some certs', h') ∧ contents h' certs' (before ++ cs) ∧ owned h' ((i, KBio) :: certs' ++ os) ∧
      (i, KBio) ∉ certs'
  else read_chain fuel (i, KBio) certs h = Val (None, h') ∧ owned h' os.
Proof.
  intros Hp. induction Hp as [text e Hr|text c rest cs e Hr Hp IH]; intros [|fuel] certs before h os i Hw Ht Hf Hc; try lia;
    pose proof (read_turn_exact _ _ _ _ Hw (list_elem_of_here _ _) Ht) as Hx; cbn zeta in Hx; rewrite all_ok, Hr in Hx.
  - destruct Hx as (h1 & E1 & Eo & Ee). rewrite (read_chain_turn _ _ _ _ _ _ E1).
    destruct (t_read_turn (P := False) _ i (list_elem_of_here _ _) h Hw) as [[[] _]|(r & h2 & os2 & E2 & Hg & Hw2)].
    rewrite E1 in E2. injection E2 as <- <-. cbn in Hg. rewrite Hg in Hw2. unfold read_end. rewrite <- Ee.
    rewrite (bind_val _ _ h1 (list.head (errs h1)) h1) by done. destruct (decide _).
    + exists h1, certs. rewrite app_nil_r. split_and!; [done| |done|].
      * eapply contents_same; [|exact Hc]. intros p _. by rewrite Eo.
      * intros Hin. pose proof (contents_certs _ _ _ Hc) as Hk. unfold certs_ok in Hk. rewrite Forall_forall in Hk. by specialize (Hk _ Hin).
    + destruct (t_free_some (P := False) (certs ++ os) ((i, KBio) :: certs ++ os) (i, KBio) (λ _, free_all certs;; mret (None : option (list ptr)))
        (keeps os) ltac:(done)) with (h := h1) as [[[] _]|(r & h3 & os3 & E3 & Hk & Hw3)]; [|done|].
      * eapply t_bind; [by apply (t_free_all certs os)|]. intros u os' Hos. by apply t_ret.
      * assert (r = None) as ->.
        { revert E3. unfold mbind, M_bind. destruct (free _ _) as [[? ?]| | |]; try done. destruct (free_all _ _) as [[? ?]| | |]; try done. by intros [= <- _]. }
        exists h3. split; [done|]. by rewrite <- Hk.
  - destruct Hx as (h1 & E1 & Ht1 & Ho1 & Ee & Hsame). rewrite (read_chain_turn _ _ _ _ _ _ E1).
    destruct (t_read_turn (P := False) _ i (list_elem_of_here _ _) h Hw) as [[[] _]|(r & h2 & os2 & E2 & Hg & Hw2)].
    rewrite E1 in E2. injection E2 as <- <-. destruct Hg as [_ Hg]. rewrite Hg in Hw2.
    assert (∀ p, p ∈ certs → p.1 ≠ i ∧ (p.1 < fresh h)%nat) as Hold.
    { intros p Hp'. destruct Ht as [n Hl]. unfold contents in Hc. apply list_elem_of_lookup in Hp' as [j Hj].
      destruct (Forall2_lookup_l _ _ _ _ _ Hc Hj) as (c' & _ & _ & Hpo). pose proof (owned_obj _ _ Hw _ _ _ Hpo) as (_ & ? & _).
      split; [|done]. intros <-. rewrite Hl in Hpo. done. }
    destruct (IH fuel (certs ++ [(fresh h, KX509)]) (before ++ [c]) h1 os i) as (h' & Hd).
    + eapply owned_Proper; [done| |exact Hw2]. solve_Permutation.
    + done.
    + pose proof (read_x509_progress _ _ _ Hr). lia.
    + apply Forall2_app; [|by constructor; [|constructor]]. eapply contents_same; [|exact Hc].
      intros p Hin. destruct (Hold p Hin). apply Hsame; lia.
    + exists h'. rewrite Ee in Hd. destruct (decide _); [|done]. by rewrite <- (assoc_L (++)) in Hd.
Qed.

Lemma size_cast_val dchk n : 0 ≤ n < 2 ^ 31 → dchecked_cast dchk I32 U64 n = Val n.
Proof.
  intros Hn. unfold dchecked_cast, IsValueInRangeForNumericType. rewrite range_check_spec by ranges.
  rewrite (proj2 (Z.ltb_ge _ _)), (proj2 (Z.ltb_ge _ _)) by ranges. rewrite conv_in by ranges. by destruct dchk.
Qed.

Definition good_key `{CryptoLib} (text : list Z) (k : key) : Prop := read_key text = inl k ∧ key_missing_parameters k = false.

Lemma FromPrivateKey_ok `{CryptoLib} (all_ok : ∀ n, lib_ok n = true) text k h : tidy h → good_key text k →
  ∃ i h', FromPrivateKeyPEMString text h = Val (Some (i, KKey), h') ∧ objs h' !! i = Some (OKey (Some k) None, 1%nat) ∧
    ∀ j, (j < fresh h)%nat → objs h' !! j = objs h !! j.
Proof.
  intros Ht [Hr Hm]. eexists _, _. split; [|split].
  - unfold FromPrivateKeyPEMString. erewrite bind_val; [|by apply new_object_ok]. cbn beta iota. erewrite bind_val.
    2:{ unfold BIO_read_key. erewrite bind_val; [|by eapply get_ok; [look|]]. cbn beta iota. erewrite bind_val; [|by apply ask_ok]. cbn [negb].
        rewrite Hr. erewrite bind_val; [|done]. reflexivity. }
    cbn beta iota. erewrite bind_val; [|eapply free_ok; [look|done..]]. cbn beta iota.
    erewrite bind_val; [|eapply get_key_ok; look]. cbn beta iota. rewrite Hm. reflexivity.
  - look.
  - intros j Hj. cbn [objs fresh]. rewrite lookup_delete_ne, !lookup_insert_ne by lia. done.
Qed.

Lemma FromPrivateKey_bad `{CryptoLib} (all_ok : ∀ n, lib_ok n = true) text h os : owned h os → (¬ ∃ k, good_key text k) →
  ∃ h', FromPrivateKeyPEMString text h = Val (None, h') ∧ owned h' os.
Proof.
  intros Hw Hn. destruct (t_FromPrivateKeyPEMString (P := False) os text h Hw) as [[[] _]|(r & h' & os' & E1 & Hg & Hw')].
  exists h'. destruct r as [p|]; cbn in Hg; [|by rewrite Hg in Hw']. exfalso. revert E1. unfold FromPrivateKeyPEMString.
  erewrite bind_val; [|by apply new_object_ok]. cbn beta iota. unfold BIO_read_key. destruct (read_key text) as [k|e] eqn:Er.
  - erewrite bind_val.
    2:{ erewrite bind_val; [|by eapply get_ok; [look|]]. cbn beta iota. erewrite bind_val; [|by apply ask_ok]. cbn [negb]. rewrite Er.
        erewrite bind_val; [|done]. reflexivity. }
    cbn beta iota. erewrite bind_val; [|eapply free_ok; [look|done..]]. cbn beta iota. erewrite bind_val; [|eapply get_key_ok; look]. cbn beta iota.
    destruct (key_missing_parameters k) eqn:Em; [|by exfalso; apply Hn; exists k].
    unfold mbind, M_bind. by destruct (free _ _) as [[? ?]| | |].
  - erewrite bind_val.
    2:{ erewrite bind_val; [|by eapply get_ok; [look|]]. cbn beta iota. erewrite bind_val; [|by apply ask_ok]. cbn [negb]. rewrite Er.
        erewrite bind_val; [|done]. reflexivity. }
    cbn beta iota. unfold mbind, M_bind. by destruct (free _ _) as [[? ?]| | |].
Qed.

(** What is done with the certificates that were read. *)
Definition after_chain `{CryptoLib} (bio : ptr) (key_text : list Z) (certs : option (list ptr)) : M (option OpenSSLIdentity) :=
  match certs with
  | None => mret None
  | Some certs =>
      free (Some bio);;
      if decide (certs = []) then mret None
      else
        key_pair ← FromPrivateKeyPEMString key_text;
        match key_pair with None => Chain_delete certs;; mret None | Some k => mret (Some (Identity k certs)) end
  end.

Lemma free_leaf h os i k : owned h ((i, k) :: os) → rank k = 0%nat →
  ∃ h', free (Some (i, k)) h = Val ((), h') ∧ owned h' os ∧ ∀ j, j ≠ i → objs h' !! j = objs h !! j.
Proof.
  intros Hw Hr. destruct (t_free (P := False) os _ (Some (i, k)) ltac:(reflexivity) h Hw) as [[[] _]|([] & h' & os' & E1 & Hk & Hw')].
  exists h'. split; [done|]. split; [by rewrite <- Hk|]. intros j Hj. revert E1.
  destruct (owned_lookup _ _ (i, k) Hw ltac:(by left)) as (o & n & Hl & Ho). cbn [fst snd] in *.
  pose proof (owned_obj _ _ Hw _ _ _ Hl) as (_ & _ & Hc). rewrite Ho, Hr in Hc.
  assert (children o = []) as Hn by (destruct (children o); [done|apply Forall_cons in Hc as [? _]; lia]).
  unfold free. cbn [unref fst snd]. rewrite Hl, decide_True by done. destruct n as [|n]; [rewrite Hn|]; intros [= <-]; cbn [objs set_objs].
  - by rewrite lookup_delete_ne.
  - by rewrite lookup_insert_ne.
Qed.

Lemma after_chain_good `{CryptoLib} (all_ok : ∀ n, lib_ok n = true) i key_text k certs cs h os :
  owned h ((i, KBio) :: certs ++ os) → contents h certs cs → cs ≠ [] → good_key key_text k →
  ∃ j h', after_chain (i, KBio) key_text (Some certs) h = Val (Some (Identity (j, KKey) certs), h') ∧ contents h' certs cs ∧
    objs h' !! j = Some (OKey (Some k) None, 1%nat) ∧ owned h' ((j, KKey) :: certs ++ os).
Proof.
  intros Hw Hc Hne Hk. destruct (free_leaf h _ i KBio Hw eq_refl) as (h1 & E1 & Hw1 & Hs1).
  destruct (FromPrivateKey_ok all_ok key_text k h1 (owned_tidy _ _ Hw1) Hk) as (j & h2 & E2 & Hj & Hs2). exists j, h2.
  assert (∀ p, p ∈ certs → p.1 ≠ i ∧ (p.1 < fresh h1)%nat) as Hold.
  { intros p Hp. apply list_elem_of_lookup in Hp as [m Hm]. destruct (Forall2_lookup_l _ _ _ _ _ Hc Hm) as (c & _ & Hpk & Hpo).
    assert (p.1 ≠ i) as Hpi.
    { intros E. destruct (owned_lookup _ _ (i, KBio) Hw ltac:(by left)) as (o & n & Hl & Ho). cbn [fst snd] in *. rewrite E, Hl in Hpo.
      injection Hpo as -> _. done. }
    split; [done|]. rewrite <- (Hs1 _ Hpi) in Hpo. by apply (owned_obj _ _ Hw1 _ _ _ Hpo). }
  split_and!.
  - unfold after_chain. rewrite (bind_val _ _ _ _ _ E1). rewrite decide_False by (intros ->; by inversion Hc; subst).
    rewrite (bind_val _ _ _ _ _ E2). done.
  - eapply contents_same; [|exact Hc]. intros p Hp. destruct (Hold p Hp). rewrite Hs2 by done. by apply Hs1.
  - done.
  - destruct (t_FromPrivateKeyPEMString (P := False) _ key_text h1 Hw1) as [[[] _]|(r & h3 & os' & E3 & Hg & Hw')].
    rewrite E2 in E3. injection E3 as <- <-. destruct Hg as [_ Hg]. by rewrite <- Hg.
Qed.

Lemma after_chain_bad `{CryptoLib} (all_ok : ∀ n, lib_ok n = true) i key_text certs h os :
  owned h ((i, KBio) :: certs ++ os) → ¬ (certs ≠ [] ∧ ∃ k, good_key key_text k) →
  ∃ h', after_chain (i, KBio) key_text (Some certs) h = Val (None, h') ∧ owned h' os.
Proof.
  intros Hw Hn. destruct (free_leaf h _ i KBio Hw eq_refl) as (h1 & E1 & Hw1 & _). unfold after_chain. rewrite (bind_val _ _ _ _ _ E1).
  destruct (decide (certs = [])) as [->|Hne]; [by exists h1|].
  destruct (FromPrivateKey_bad all_ok key_text h1 _ Hw1) as (h2 & E2 & Hw2); [intros Hk; by apply Hn|]. rewrite (bind_val _ _ _ _ _ E2). cbn beta iota.
  destruct (t_free_all (P := False) certs os _ ltac:(reflexivity) h2 Hw2) as [[[] _]|([] & h3 & os' & E3 & Hk & Hw3)].
  exists h3. unfold Chain_delete. rewrite (bind_val _ _ _ _ _ E3). split; [done|]. by rewrite <- Hk.
Qed.

(** C37: When no call of OpenSSL fails, reading a private key and a text with the
    certificates [cs] gives an identity with exactly these certificates in their
    order and the key, each object with one reference, if the key is complete,
    the text has a certificate, and the first error in the queue of OpenSSL after
    the text is that nothing more begins there; otherwise null, and nothing of
    what was read is left. With an empty queue before the call, this error is
    that of the end of the text itself. *)
Theorem chain_read_exact `{CryptoLib} dchk key_text text cs e h os :
  (∀ n, lib_ok n = true) → owned h os → Z.of_nat (length text) < 2 ^ 31 → parses text cs e →
  let ends := list.head (errs h ++ e) = Some PEM_R_NO_START_LINE in
  (∀ k, ends → cs ≠ [] → good_key key_text k →
     ∃ i xs h', CreateFromPEMChainStrings dchk key_text text h = Val (Some (Identity (i, KKey) xs), h') ∧ contents h' xs cs ∧
       objs h' !! i = Some (OKey (Some k) None, 1%nat) ∧ owned h' ((i, KKey) :: xs ++ os)) ∧
  (¬ (ends ∧ cs ≠ [] ∧ ∃ k, good_key key_text k) → ∃ h', CreateFromPEMChainStrings dchk key_text text h = Val (None, h') ∧ owned h' os).
Proof.
  intros all_ok Hw Hlen Hp ends. pose proof (size_cast_val dchk (Z.of_nat (length text)) ltac:(lia)) as Ecast.
  assert (mem_buf text (Z.of_nat (length text)) = text) as Ebuf
    by (unfold mem_buf; rewrite (proj2 (Z.ltb_ge _ _)) by lia; by rewrite Nat2Z.id, firstn_all).
  destruct (new_bio h os text Hw) as (r & h1 & E1 & Hcase). pose proof E1 as E1'. rewrite new_object_ok in E1' by done. injection E1' as <- <-.
  destruct Hcase as [[? _]|(i & [= <-] & Hw1 & Ht1)]; [done|].
  destruct (read_chain_exact all_ok text cs e Hp (S (length text)) [] [] _ os (fresh h) Hw1 Ht1) as (h2 & Hd); [lia|constructor|]. cbn [errs] in Hd.
  assert (CreateFromPEMChainStrings dchk key_text text h = (read_chain (S (length text)) (fresh h, KBio) [] ≫= after_chain (fresh h, KBio) key_text)
    (Heap (<[fresh h := (OBio text, 1%nat)]> (objs h)) (S (fresh h)) (S (calls h)) (errs h))) as ->.
  { unfold CreateFromPEMChainStrings. erewrite bind_val; [|unfold lift; rewrite Ecast; done]. cbn zeta. rewrite Ebuf. by rewrite (bind_val _ _ _ _ _ E1). }
  split.
  - intros k He Hne Hk. rewrite decide_True in Hd by done. destruct Hd as (certs & E2 & Hc & Hw2 & _). rewrite (bind_val _ _ _ _ _ E2).
    destruct (after_chain_good all_ok _ _ _ _ _ _ _ Hw2 Hc Hne Hk) as (j & h' & E3 & Hc3 & Hj & Hw3). by exists j, certs, h'.
  - intros Hn. destruct (decide _) as [He|]; [|destruct Hd as [E2 Hw2]; by exists h2; rewrite (bind_val _ _ _ _ _ E2)].
    destruct Hd as (certs & E2 & Hc & Hw2 & _). rewrite (bind_val _ _ _ _ _ E2). apply after_chain_bad; [done..|]. intros [Hne Hk].
    apply Hn. split; [done|]. split; [|done]. intros ->. by inversion Hc; subst.
Qed.

(** ** The generator

    A request is a task of the worker thread, which makes the certificate and
    posts the answer to the signaling thread. A callback is its number. *)
Record generator := Gen {
  worker_tasks : list (KeyParams * option Z * nat); signaling_tasks : list (option OpenSSLIdentity * nat);
  answered : list (option OpenSSLIdentity * nat); gen_heap : heap }.

Section Generator.
Context `{CryptoLib} `{EVP} (dchk ndebug : bool).

Definition GenerateCertificateAsync (kp : KeyParams) (expires_ms : option Z) (callback : nat) (g : generator) : generator :=
  Gen (worker_tasks g ++ [(kp, expires_ms, callback)]) (signaling_tasks g) (answered g) (gen_heap g).
Definition worker_task (g : generator) : res generator :=
  match worker_tasks g with
  | [] => Undef
  | (kp, expires_ms, cb) :: ts =>
      let* '(certificate, h) := GenerateCertificate dchk ndebug kp expires_ms (gen_heap g) in
      Val (Gen ts (signaling_tasks g ++ [(certificate, cb)]) (answered g) h)
  end.
(** [OnSuccess] with the certificate, or [OnFailure]. *)
Definition signaling_task (g : generator) : res generator :=
  match signaling_tasks g with [] => Undef | t :: ts => Val (Gen (worker_tasks g) ts (answered g ++ [t]) (gen_heap g)) end.

Inductive gen_step := GAsync (kp : KeyParams) (expires_ms : option Z) (callback : nat) | GWorker | GSignaling.
Definition gen_act (s : gen_step) (g : generator) : res generator :=
  match s with GAsync kp e cb => Val (GenerateCertificateAsync kp e cb g) | GWorker => worker_task g | GSignaling => signaling_task g end.
Fixpoint gen_acts (l : list gen_step) (g : generator) : res generator :=
  match l with [] => Val g | s :: l => let* g := gen_act s g in gen_acts l g end.

Definition callbacks (g : generator) : list nat := (answered g).*2 ++ (signaling_tasks g).*2 ++ (worker_tasks g).*2.
Definition asked (l : list gen_step) : list nat := omap (λ s, match s with GAsync _ _ cb => Some cb | _ => None end) l.

(** Every callback is called once, in the order of the requests. *)
Lemma generator_in_order l : ∀ g g', gen_acts l g = Val g' → callbacks g' = callbacks g ++ asked l.
Proof.
  induction l as [|s l IH]; intros g g' Ha; [injection Ha as <-; by rewrite app_nil_r|]. cbn [gen_acts] in Ha.
  destruct (gen_act s g) as [g1| | |] eqn:E1; try done. cbn [mbind_res] in Ha. rewrite (IH _ _ Ha). clear IH Ha. destruct s; cbn [gen_act] in E1.
  - injection E1 as <-. unfold callbacks, GenerateCertificateAsync, asked. cbn [worker_tasks signaling_tasks answered omap list_omap].
    rewrite !fmap_app. cbn. by rewrite <- !(assoc_L (++)).
  - unfold worker_task in E1. destruct (worker_tasks g) as [|[[kp e] cb] ts] eqn:Ew; [done|].
    destruct (GenerateCertificate dchk ndebug kp e (gen_heap g)) as [[c h]| | |]; try done. injection E1 as <-. unfold callbacks.
    cbn [worker_tasks signaling_tasks answered]. rewrite Ew, !fmap_app. cbn. by rewrite <- !(assoc_L (++)).
  - unfold signaling_task in E1. destruct (signaling_tasks g) as [|[c cb] ts] eqn:Es; [done|]. injection E1 as <-. unfold callbacks.
    cbn [worker_tasks signaling_tasks answered]. rewrite Es, !fmap_app. cbn.
    rewrite <- !(assoc_L (++)). cbn [app]. by rewrite <- !(assoc_L (++)).
Qed.
End Generator.

(** A library whose calls all succeed one second before the year 2030. *)
Definition new_year_lib : CryptoLib := {|
  lib_ok := λ _, true; lib_errors := λ _, []; lib_time := λ _, 1893455999; lib_rand := λ _, None; lib_serial := Z.of_nat;
  gen_rsa := λ n bits e, [Z.of_nat n; bits; e]; gen_ec := λ n, [Z.of_nat n]; key_pem := λ k, k; pub_pem := λ k, k;
  read_key := λ s, inl s; key_missing_parameters := λ _, false; key_cmp := λ k l, if decide (k = l) then 1 else 0;
  x509_pem := λ c, subject c; x509_der := λ c, [u8 (serial c)]; read_x509 := demo_read; x509_cmp := λ c d, serial c - serial d;
  time_adj := λ t, (V_ASN1_UTCTIME, if t =? 1893456000 then b#"300101000000Z" else b#"291231000000Z"); sign_nid := λ _, NID_sha256WithRSAEncryption;
  read_x509_progress := demo_read_progress; der_bytes := demo_der |}.
#[local] Existing Instance new_year_lib.

Lemma heap_new_owned : owned heap_new [].
Proof. split; [|done]. intros p. unfold refs. cbn. done. Qed.

Lemma new_identity_exact_witness : ∃ i x h', GenerateCertificate true false (KP KT_ECDSA (UCurve EC_NIST_P256)) (Some 1000) heap_new = Val (Some (Identity (i, KKey) [(x, KX509)]), h') ∧
  Expires (Identity (i, KKey) [(x, KX509)]) h' = Val (1893456000000, h') ∧ HasExpired (Identity (i, KKey) [(x, KX509)]) 1893456000000 h' = Val (true, h').
Proof.
  destruct (new_identity_exact true false (KP KT_ECDSA (UCurve EC_NIST_P256)) (Some 1000) heap_new [])
    as (i & x & k & sub & c & h' & now & E1 & -> & _ & _ & _ & _ & Hd & _); [done|intros n; cbn; lia|apply heap_new_owned|done|cbn; lia|].
  exists i, x, h'. split; [exact E1|]. destruct Hd as [He Hx].
  - exists false, [3; 0; 0; 1; 0; 1; 0; 0; 0; 0; 0; 0], (Tm 0 0 0 1 0 130). split_and!; [reflexivity| |reflexivity| |reflexivity].
    + repeat (apply Forall_cons; split; [unfold is_digit; lia|]). apply Forall_nil_2.
    + split; vm_compute; repeat split; discriminate.
  - split; [exact He|]. rewrite Hx. reflexivity.
Defined.

Lemma demo_parses : parses (b#"CD") [demo_cert 67; demo_cert 68] [PEM_R_NO_START_LINE].
Proof. eapply parses_cert; [reflexivity|]. eapply parses_cert; [reflexivity|]. by apply parses_end. Qed.

Lemma chain_read_exact_witness : ∃ i xs h', CreateFromPEMChainStrings true (b#"K") (b#"CD") heap_new = Val (Some (Identity (i, KKey) xs), h') ∧
  contents h' xs [demo_cert 67; demo_cert 68].
Proof.
  destruct (chain_read_exact (H := new_year_lib) true (b#"K") (b#"CD") [demo_cert 67; demo_cert 68] [PEM_R_NO_START_LINE] heap_new [] (λ _, eq_refl) heap_new_owned ltac:(reflexivity) demo_parses)
    as [Hg _].
  destruct (Hg (b#"K") ltac:(reflexivity) ltac:(discriminate) ltac:(by split)) as (i & xs & h' & E1 & Hc & _). exists i, xs, h'. split; [exact E1|exact Hc].
Defined.
